(* ===== verification/_CoqProject ===== *)
-Q . S2P
Prelude.v
StaticDeque.v
STEvent.v
CString.v
Requests.v
TraceParser.v
TriggerTime.v
IntMath.v
Bitfield.v
RubyAddress.v
SubEvents.v
TraceLines.v
ReplayState.v
Replay.v
ReplayInv.v
ReplaySafe.v
ReplaySteps.v
ReplayHandlers.v
ReplaySystem.v
ReplayFailures.v
ReplayExamples.v
Frame.v
ReplayFrame.v
ReplaySchedule.v
ReplayEffects.v
ReplayEnd.v
ReplayRuns.v
EventQueue.v
EventQueueOps.v
EventQueueLoop.v
EventQueueExamples.v
Replacement.v
CacheMemory.v
CacheSpec.v
CacheExamples.v
NodeSet.v
NodeSetOps.v
Sequencer.v
SequencerSpec.v
SequencerRuns.v
SequencerCache.v
SequencerExamples.v
MessageHeap.v
MessageBuffer.v
MessageBufferFifo.v
MessageBufferExamples.v
RubyTables.v
NetDest.v
NetDestSpec.v
NetDestRefines.v
PersistentTable.v
PersistentSpec.v
ShortestPath.v
ShortestPathSpec.v
Topology.v
TopologyRoutes.v
ReplayQueue.v
ReplayQueueExamples.v
NetWorld.v
PerfectSwitch.v
Throttle.v
NetWorldOps.v
SwitchSend.v
SwitchWakeup.v
ThrottleWakeup.v
SimpleNetwork.v
NetworkRun.v
NetworkExamples.v
Packet.v
PacketSpec.v
PacketQueue.v
PacketQueueSpec.v
AbstractMemory.v
AbstractMemorySpec.v
RubyStats.v
RubyStatsSpec.v
RubyPort.v
RubyPortRuns.v
RubyPortSequencer.v
RubyPortExamples.v
