(* ===== verification/Prelude.v ===== *)
(** * SynchroTrace: a verification development

    SynchroTrace replays event traces of multi-threaded programs on simulated
    cores: the traces say what each thread computed, which bytes it read and
    wrote, which of them another thread had produced, and where it
    synchronised; the replay sends the memory accesses to a simulated memory
    system (Ruby) at the time the computation allows, and keeps the order that
    the synchronisation and the communication between threads demand.  It is
    built into the gem5 simulator, whose event queue drives it.

    ** The program's parts and the files that model them

    The names are those of modules.  A module is in the file of its name,
    except: RubyPortRetry and RubyPortEffects in RubyPortRuns.v;
    RubyPortFunctional in RubyPortSequencer.v; PacketQueueFunctional in
    PacketQueueSpec.v; PacketExamples in RubyPortExamples.v; SwitchRouting
    and SwitchSpec in SwitchSend.v; SwitchForward in SwitchWakeup.v;
    ThrottleSpec in ThrottleWakeup.v; NetWorldSpec in NetWorldOps.v; NetFlow
    in NetworkRun.v; NodeSetSpec in NodeSetOps.v; NetDestOps in
    NetDestRefines.v; TopologySpec in TopologyRoutes.v; MessageHeapSpec and
    MessageBufferSpec in MessageBufferFifo.v; EventQueueSpec in
    EventQueueOps.v; ReplayGrows in ReplayQueue.v.

    The replay engine (src/src/cpu/testers/synchrotrace):
    - StaticDeque: the ring buffer of events (lib/static_deque.hh, .cc).
    - STEvent: the event structures (ST_Event.hh).
    - CString, Requests, TraceParser, TraceLines: the readers of the trace files
      ([processCommEvent], [processCompEvent], [processPthreadEvent], ... of
      SynchroTrace.cc) with the C++ string functions they use, and the loop
      that cuts byte ranges into requests within a cache line.
    - SubEvents: [createSubEvents], which interleaves an event's accesses with
      its computation.
    - TriggerTime: the floating-point expression for the time of the next
      sub-event, with IEEE rounding.
    - ReplayState, Replay: class [SynchroTrace]: its data members as a record, one
      definition per member function in a state and error monad.
    - ReplayInv, ReplaySafe, ReplaySteps, ReplayHandlers, ReplaySystem: the
      invariant, the specification of every handler against it, and the
      transition system [step] in which the simulator advances time, fires
      the events the engine has scheduled and delivers responses.
    - ReplayFailures: the shape of the engine's vectors and maps for inputs that
      are in order, and the failures that are left then.
    - ReplayFrame, ReplaySchedule, ReplayEffects, ReplayEnd: what a handler
      leaves alone, the thread scheduler, requests and mutexes, barriers and
      the end of the simulation.
    - ReplayExamples, ReplayRuns: a complete run of two threads.
    - ReplayGrows, ReplayQueue, ReplayQueueExamples: the engine's pending
      events as they lie in the simulator's event queue, and the composition
      of the engine's steps with the queue's operations.

    The simulator (src/src/sim, src/src/base):
    - EventQueue, EventQueueSpec, EventQueueOps, EventQueueLoop,
      EventQueueExamples: the linked bins of eventq.hh and eventq.cc with their
      pointers, and a round of the main loop of simulate.cc.
    - IntMath, Bitfield: intmath.hh, bitfield.hh.

    The memory system (src/src/mem/ruby):
    - RubyAddress: common/Address.hh.
    - Replacement: system/LRUPolicy.hh and PseudoLRUPolicy.hh behind the class
      [Policy] with its laws [PolicyLaws].
    - CacheMemory, CacheSpec, CacheExamples: system/CacheMemory.cc, proved for any
      policy that keeps the laws.
    - Sequencer, SequencerSpec, SequencerRuns, SequencerCache,
      SequencerExamples: system/Sequencer.cc, proved for any cache that keeps
      the laws of [LineCacheLaws]; SequencerCache shows that CacheMemory does.
    - NodeSet, NodeSetSpec, NodeSetOps: the node sets of common/Set.cc.
    - NetDest, NetDestSpec, NetDestOps, NetDestRefines: common/NetDest.cc, the
      destinations of a message, built from node sets.
    - MessageHeap, MessageHeapSpec, MessageBuffer, MessageBufferSpec,
      MessageBufferFifo, MessageBufferExamples: buffers/MessageBuffer.cc with
      common/Consumer.hh and eventqueue/RubyEventQueue.cc.
    - RubyTables: system/TBETable.hh and TimerTable.cc.
    - PersistentTable, PersistentSpec: system/PersistentTable.cc, the
      starvation-free requests of the token protocols.
    - ShortestPath, ShortestPathSpec, Topology, TopologySpec, TopologyRoutes:
      network/Topology.cc, which computes the routing tables.
    - NetWorld: the objects of the simple network (network/simple) in one
      store; PerfectSwitch and Throttle: the operations of the files of these
      names; SimpleNetwork: SimpleNetwork.cc and Switch.cc with the set-up.
    - NetWorldSpec, NetWorldOps, SwitchRouting, SwitchSpec, SwitchSend,
      SwitchForward, SwitchWakeup, ThrottleSpec, ThrottleWakeup: what a wakeup
      of a switch and of a throttle does to the buffers, loop by loop.
    - NetFlow, NetworkRun, NetworkExamples: what the operations conserve, the
      transition system of a whole network, and a network built and run.
    - RubyStats, RubyStatsSpec: the round-trip and traffic statistics that
      SynchroTrace adds to system/System.cc.
    - RubyPort: system/RubyPort.cc, where the cores' requests enter Ruby, on
      packets, packet queues, physical memory, the statistics and a sequencer
      behind the class [RubySequencer]; RubyPortSequencer makes the sequencer
      of this development an instance.
    - RubyPortRetry, RubyPortEffects, RubyPortRuns, RubyPortFunctional,
      RubyPortExamples: the retry list, what each operation does to packets
      and queues, runs of a port, functional accesses, and concrete runs.

    The memory interface of gem5 (src/src/mem):
    - Packet, PacketSpec: packet.hh and packet.cc with the requests of
      request.hh; PacketQueue, PacketQueueSpec, PacketQueueFunctional:
      packet_queue.cc.
    - AbstractMemory, AbstractMemorySpec: abstract_mem.cc, physical memory.
    - PacketExamples: concrete runs of these and of the statistics.

    Frame holds what it means that an operation leaves a part of the state
    alone.  Prelude (this file) holds the error type and the state monad, machine
    integers, record updates, vectors, and the lemmas and tactics the other
    files share.

    ** How the model corresponds to the code

    A C++ object is a record with a field per data member, a member function a
    definition of the same name that takes the state and returns the new state
    or an [error]: an exception, a failing assertion, a [panic], or undefined
    behaviour (an access outside a vector, a null pointer, an unset value).
    Shared objects (events of the queue, cache entries, messages, packets)
    live in a store and are referred to by number.  Integers are [Z] with the wrap-around
    of their width written out where a computation can reach it.  Output for
    debugging is left out; output that the program keeps (statistics, traces)
    is data.  What the rest of the simulator does to a component (the order of
    events, the delay of responses, whether a port takes a request, random
    numbers, the memory of an object before its constructor, which shows where
    the code reads a member it has not set) is arbitrary.

    ** What the theorems show

    - Replay: no step of the simulation trips a scheduling assertion, follows
      a null pointer or takes from an empty deque, for arbitrary traces; for
      traces that are in order only unlocking a free lock and a trigger time
      beyond 63 bits can stop it; the engine's invariant holds in every
      reachable state; no core is forgotten and a response finds its core idle;
      a read of another thread's data is sent only after its producer; mutexes
      exclude, barriers open for all threads together, a stalled core is given
      its first ready thread, and the simulation stops exactly when the traces
      are replayed.
    - Traces: printing an event and reading the line gives the event back; any
      line is read as one typed event at the end of its thread's queue or has
      a flaw known by its text and error;
      requests cover the bytes of a range once and stay inside cache lines;
      sub-events keep all accesses and operations; trigger times lie in the
      future.
    - Event queue: each operation implements an operation on a list ordered by
      time and priority; the main loop advances, and servicing the events up
      to a time ends for handlers that schedule only later events.
    - Caches: the array implements a finite map from lines to entries, eviction
      makes room, the replacement policies protect what they should.
    - Sequencer: accepted requests are exactly those answered and those
      outstanding; store conditionals succeed exactly when still locked; the
      deadlock check fires exactly when a request is overdue.
    - Replay and event queue together: the queue holds exactly the engine's
      pending events, so what the queue services is a step of the engine.
    - Node sets, network destinations and message buffers refine finite sets
      and delayed first-in-first-out queues; timer tables name the earliest
      timer, and transaction tables are maps with a capacity; a persistent
      request waits for at most one request of every other processor.
    - Routing: the tables send a message along a path of least weight, and
      following them reaches a destination that links of total weight below
      10000 lead to.
    - Network: a switch forwards a message to a partition of its
      destinations, a throttle moves messages within its bandwidth; over any
      run every destination of an injected message is served exactly once, a
      network with nothing left to do has delivered everything, and no wakeup
      trips an assertion.
    - Packet queues send packets in the order of their times, lose none and
      do not get stuck; the one behaviour of the other side that trips an
      assertion is determined; functional reads and writes see exactly the queued
      bytes.  On physical memory a store conditional succeeds exactly when no
      write or store conditional has come after its load-locked.  The statistics are those of the history, with
      exact round trips.
    - Ruby port: no accepted request is lost or answered twice or elsewhere;
      the retry list is right in every reachable state; a core that waits for
      its responses is never refused; a callback carries the access out and
      queues the response unless the packet's buffer is too short; functional
      writes are read back.
    - The examples named in the findings of the manifest are concrete runs in
      which the code does something other than it means to.

    ** Bounds and fuel

    Loops over data recurse on the data.  Loops with fuel get as much as the
    loop can need: the splitting of byte ranges the number of bytes (a request
    takes at least one), scans of a trace line its length, the walk over a
    deque its capacity, the heap's moves the length of the vector, the event
    queue's searches the number of events, [serviceEvents] the ticks its events
    have left, the loops of
    intmath and of the policies' constructors their argument, the relaxation
    of shortest paths the sum of the distances plus one, a switch's loop over
    a buffer its messages plus one, a throttle's twice its messages plus two;
    the theorems show that it is enough.  Bounds that appear as hypotheses: simulated time below
    2^53 in the floating-point theorems (the code computes times in double),
    times below 2^63 where the engine runs on the event queue, fewer than
    2^29 calls on a message buffer (its counters are [int]; a bound on the
    messages of a network keeps them below 2^31), link weights below 2^30,
    packets of fewer than 2^16 bytes (the range of bytes found is kept in
    [uint16_t]), round trips of fewer than 2^31 cycles,
    sizes below 2^31 where the code uses [int].

    ** Not modelled

    The coherence protocols (SLICC sources; their C++ is generated at build
    time), the Garnet networks and the Orion power model, the memory
    controllers and the directory's storage, the random and network testers,
    the CPUs, instruction sets, caches, buses and devices inherited from gem5,
    checkpointing, the Python configuration.  Of the modelled classes,
    printing and debug output.  That the set-up code yields a network with the
    invariant of NetworkRun is shown for a concrete network, not for every
    topology. *)

From stdpp Require Export base gmap list strings.
From Stdlib Require Export ZArith Lia.

#[global] Open Scope Z_scope.
#[global] Arguments Z.to_nat : simpl never.

(** ** Record updates

    [r <| p := v |>] and [r <| p ::= f |>].  A record type declares its eta
    expansion once ([Settable]); the setter of a field is found from it. *)
Class Settable (R : Type) := eta_expand : R -> R.
Class Setter {R E : Type} (proj : R -> E) := set_field : (E -> E) -> R -> R.
#[global] Arguments set_field {R E} proj {Setter} f r /.

Ltac make_setter R E proj :=
  let inst := constr:(_ : Settable R) in
  let e := eval hnf in inst in
  exact (fun (f : E -> E) (r : R) => ltac:(
    let b := eval cbv beta in (e r) in
    match eval pattern (proj r) in b with
    | ?g _ => let b' := eval cbv beta in (g (f (proj r))) in exact b'
    end)).

#[global] Hint Extern 1 (@Setter ?R ?E ?proj) => make_setter R E proj
  : typeclass_instances.

Declare Scope record_scope.
#[global] Open Scope record_scope.
Notation "r <| p := v |>" := (set_field p (fun _ => v) r)
  (at level 1, left associativity, p at level 8) : record_scope.
Notation "r <| p ::= f |>" := (set_field p f r)
  (at level 1, left associativity, p at level 8) : record_scope.

(** ** Outcomes of C++ code

    Every way in which a modelled function can fail to return is a value.
    [Throw] is a C++ exception ([std::runtime_error], [std::out_of_range]),
    [AssertFail] a failing [assert], [Panic] gem5's [panic]/[exit], and [UB]
    an operation with undefined behaviour: an access outside a vector, a null
    pointer, a division by zero, a read of an indeterminate value. *)
Inductive error :=
| Throw (msg : string)
| AssertFail (site : string)
| Panic (msg : string)
| UB (what : string).

Inductive result (A : Type) :=
| Ok (a : A)
| Err (e : error).
Arguments Ok {A} a.
Arguments Err {A} e.

#[global] Instance error_eq_dec : EqDecision error.
Proof. solve_decision. Defined.

#[global] Instance result_eq_dec {A} `{EqDecision A} : EqDecision (result A).
Proof. solve_decision. Defined.

#[global] Instance result_ret : MRet result := fun A a => Ok a.
#[global] Instance result_bind : MBind result := fun A B f m =>
  match m with Ok a => f a | Err e => Err e end.

(** Functions with state: explicit state passing, errors abandon the state
    (the process does not continue after any of them). *)
Definition M (S A : Type) : Type := S -> result (A * S).

#[global] Instance M_ret S : MRet (M S) := fun A a s => Ok (a, s).
#[global] Instance M_bind S : MBind (M S) := fun A B f m s =>
  match m s with Ok (a, s') => f a s' | Err e => Err e end.

Definition get {S} : M S S := fun s => Ok (s, s).
Definition gets {S A} (f : S -> A) : M S A := fun s => Ok (f s, s).
Definition modify {S} (f : S -> S) : M S unit := fun s => Ok (tt, f s).
Definition fail {S A} (e : error) : M S A := fun _ => Err e.
Definition lift {S A} (r : result A) : M S A := fun s =>
  match r with Ok a => Ok (a, s) | Err e => Err e end.
Definition assert_ {S} (b : bool) (site : string) : M S unit :=
  if b then mret tt else fail (AssertFail site).
Definition when {S} (b : bool) (m : M S unit) : M S unit :=
  if b then m else mret tt.

(** [for (i : l) body]. *)
Fixpoint for_each {S A} (l : list A) (body : A -> M S unit) : M S unit :=
  match l with
  | [] => mret tt
  | a :: l' => body a ;; for_each l' body
  end.

(** The values [0, 1, ..., n-1] of an [int] loop counter. *)
Definition upto (n : Z) : list Z := Z.of_nat <$> seq 0 (Z.to_nat n).

(** ** Machine integers: values are [Z], wrap-around is written out. *)
Definition u32 (x : Z) : Z := x mod 2 ^ 32.
Definition u64 (x : Z) : Z := x mod 2 ^ 64.
Definition i32 (x : Z) : Z := (x + 2 ^ 31) mod 2 ^ 32 - 2 ^ 31.
Definition i64 (x : Z) : Z := (x + 2 ^ 63) mod 2 ^ 64 - 2 ^ 63.

Definition is_u32 (x : Z) : Prop := 0 <= x < 2 ^ 32.
Definition is_u64 (x : Z) : Prop := 0 <= x < 2 ^ 64.
Definition is_i32 (x : Z) : Prop := - 2 ^ 31 <= x < 2 ^ 31.

(** ** Vectors indexed by machine integers: outside the vector is [UB]. *)
Definition vget {A} (l : list A) (i : Z) : result A :=
  if 0 <=? i then
    match l !! Z.to_nat i with Some a => Ok a | None => Err (UB "index") end
  else Err (UB "index").

Definition vset {A} (l : list A) (i : Z) (a : A) : result (list A) :=
  if (0 <=? i) && (i <? Z.of_nat (length l)) then Ok (<[Z.to_nat i := a]> l)
  else Err (UB "index").

(** [std::map::operator[]]: an absent key is inserted with the
    value-initialised element. *)
Definition map_index {A} (m : gmap Z A) (dflt : A) (k : Z) : A * gmap Z A :=
  match m !! k with Some a => (a, m) | None => (dflt, <[k := dflt]> m) end.

(** ** Automation *)
Create HintDb st.

(** Close linear goals about machine-integer values after exposing the widths. *)
Ltac zwidth :=
  unfold u32, u64, i32, i64, is_u32, is_u64, is_i32 in *.

(** Split every boolean test of the context and the goal into its
    arithmetic meaning. *)
Ltac bool_to_Z :=
  repeat match goal with
  | H : (_ && _)%bool = true |- _ => apply andb_prop in H; destruct H
  | H : (_ || _)%bool = false |- _ => apply orb_false_elim in H; destruct H
  | H : negb _ = true |- _ => apply negb_true_iff in H
  | H : negb _ = false |- _ => apply negb_false_iff in H
  | H : (_ <=? _) = true |- _ => apply Z.leb_le in H
  | H : (_ <=? _) = false |- _ => apply Z.leb_gt in H
  | H : (_ <? _) = true |- _ => apply Z.ltb_lt in H
  | H : (_ <? _) = false |- _ => apply Z.ltb_ge in H
  | H : (_ =? _) = true |- _ => apply Z.eqb_eq in H
  | H : (_ =? _) = false |- _ => apply Z.eqb_neq in H
  end.

Lemma result_bind_Ok {A B} (m : result A) (f : A -> result B) b :
  m ≫= f = Ok b <-> exists a, m = Ok a /\ f a = Ok b.
Proof. destruct m; naive_solver. Qed.

Lemma bind_Ok_run {A B} (a : A) (f : A -> result B) : Ok a ≫= f = f a.
Proof. done. Qed.

Lemma bind_Err_run {A B} e (f : A -> result B) : Err e ≫= f = Err e.
Proof. done. Qed.

Lemma M_bind_Ok {S A B} (m : M S A) (f : A -> M S B) s b s' :
  (m ≫= f) s = Ok (b, s') <->
  exists a s1, m s = Ok (a, s1) /\ f a s1 = Ok (b, s').
Proof.
  unfold mbind, M_bind. destruct (m s) as [[a s1]|e]; naive_solver.
Qed.

Lemma M_bind_run {S A B} (m : M S A) (f : A -> M S B) s a s1 :
  m s = Ok (a, s1) -> (m ≫= f) s = f a s1.
Proof. intros H. unfold mbind, M_bind. by rewrite H. Qed.

Lemma lift_Ok {S A} (r : result A) (s s' : S) a :
  lift r s = Ok (a, s') <-> r = Ok a /\ s' = s.
Proof. unfold lift. destruct r; naive_solver. Qed.

Lemma gets_Ok {S A} (f : S -> A) (s s' : S) a :
  gets f s = Ok (a, s') <-> a = f s /\ s' = s.
Proof. unfold gets. naive_solver. Qed.

Lemma modify_Ok {S} (f : S -> S) (s s' : S) a :
  modify f s = Ok (a, s') <-> s' = f s.
Proof. unfold modify. destruct a. naive_solver. Qed.

Lemma mret_Ok {S A} (a b : A) (s s' : S) :
  (mret a : M S A) s = Ok (b, s') <-> b = a /\ s' = s.
Proof. unfold mret, M_ret. naive_solver. Qed.

Lemma assert_Ok {S} b site (s s' : S) a :
  assert_ b site s = Ok (a, s') <-> b = true /\ s' = s.
Proof. unfold assert_. destruct a, b; unfold mret, M_ret, fail; naive_solver. Qed.

(** Invert a successful run into the successful runs of its parts. *)
Ltac inv_run :=
  repeat match goal with
  | H : (_ ≫= _) _ = Ok (_, _) |- _ =>
      apply M_bind_Ok in H; destruct H as (?&?&?&?)
  | H : (_ ≫= _) = Ok _ |- _ =>
      apply result_bind_Ok in H; destruct H as (?&?&?)
  | H : lift _ _ = Ok (_, _) |- _ => apply lift_Ok in H; destruct H as [? ->]
  | H : gets _ _ = Ok (_, _) |- _ => apply gets_Ok in H; destruct H as [-> ->]
  | H : get _ = Ok (_, _) |- _ => apply gets_Ok in H; destruct H as [-> ->]
  | H : modify _ _ = Ok (_, _) |- _ => apply modify_Ok in H; subst
  | H : assert_ _ _ _ = Ok (_, _) |- _ => apply assert_Ok in H; destruct H as [? ->]
  | H : mret _ _ = Ok (_, _) |- _ => apply mret_Ok in H; destruct H as [-> ->]
  | H : fail _ _ = Ok _ |- _ => discriminate H
  | H : Ok _ = Ok _ |- _ => injection H as H; subst
  | H : Err _ = Ok _ |- _ => discriminate H
  | H : (_, _) = (_, _) |- _ => injection H as ? ?; subst
  end.

(** ** Reasoning about runs

    [wp E m Q s]: run from [s], [m] either returns with [Q] or stops with an
    error in [E]. *)
Definition wp {S A} (E : error -> Prop) (m : M S A) (Q : A -> S -> Prop) (s : S) : Prop :=
  match m s with Ok (a, s') => Q a s' | Err e => E e end.

Section wp.
Context {S : Type} (E : error -> Prop).
Implicit Types (s : S).

Lemma wp_bind {A B} (m : M S A) (f : A -> M S B) Q s :
  wp E m (fun a s' => wp E (f a) Q s') s -> wp E (m ≫= f) Q s.
Proof. unfold wp, mbind, M_bind. destruct (m s) as [[a s1]|e]; done. Qed.

Lemma wp_mono {A} (m : M S A) (P Q : A -> S -> Prop) s :
  wp E m P s -> (forall a s', P a s' -> Q a s') -> wp E m Q s.
Proof. unfold wp. destruct (m s) as [[a s1]|e]; naive_solver. Qed.

Lemma wp_ret {A} (a : A) Q s : Q a s -> wp E (mret a) Q s.
Proof. done. Qed.

Lemma wp_get Q s : Q s s -> wp E get Q s.
Proof. done. Qed.

Lemma wp_gets {A} (f : S -> A) Q s : Q (f s) s -> wp E (gets f) Q s.
Proof. done. Qed.

Lemma wp_modify f (Q : unit -> S -> Prop) s : Q tt (f s) -> wp E (modify f) Q s.
Proof. done. Qed.

Lemma wp_lift {A} (r : result A) Q s :
  (forall a, r = Ok a -> Q a s) -> (forall e, r = Err e -> E e) -> wp E (lift r) Q s.
Proof. unfold wp, lift. destruct r; naive_solver. Qed.

Lemma wp_assert b site Q s :
  (b = true -> Q tt s) -> (b = false -> E (AssertFail site)) -> wp E (assert_ b site) Q s.
Proof. unfold wp, assert_. destruct b; naive_solver. Qed.

Lemma wp_when b (m : M S unit) Q s :
  (b = true -> wp E m Q s) -> (b = false -> Q tt s) -> wp E (when b m) Q s.
Proof. unfold when. destruct b; naive_solver. Qed.

Lemma wp_for_each {A} (l : list A) (body : A -> M S unit) (I : list A -> S -> Prop) s :
  I [] s ->
  (forall done a s, a ∈ l -> I done s -> wp E (body a) (fun _ => I (done ++ [a])) s) ->
  wp E (for_each l body) (fun _ => I l) s.
Proof.
  intros H0 Hstep.
  enough (forall rest done s, l = done ++ rest -> I done s ->
    wp E (for_each rest body) (fun _ => I l) s) as Hgen by (by apply (Hgen l [])).
  clear s H0. induction rest as [|a rest IH]; intros done s Hl Hd; cbn [for_each].
  - rewrite app_nil_r in Hl. by subst.
  - apply wp_bind. eapply wp_mono.
    + apply Hstep; [|done]. subst. set_solver.
    + intros ? s' Hd'. apply (IH (done ++ [a])); [|done]. by rewrite <- app_assoc.
Qed.

Lemma wp_run {A} (m : M S A) Q s a s' : wp E m Q s -> m s = Ok (a, s') -> Q a s'.
Proof. unfold wp. intros H E1. by rewrite E1 in H. Qed.
End wp.

(** The failures that would be the engine's own fault: an event scheduled in
    the past or twice, a null pointer, a read of a cell or member that holds
    nothing, an element taken from an empty deque. *)
Definition SCHED_PAST : string := "EventQueue::schedule: when >= curTick()".
Definition SCHED_TWICE : string := "EventQueue::schedule: !event->scheduled()".
Definition NO_EVENT : string := "trigger: !eventMap[threadID]->empty()".

Definition internal_errors : list error :=
  [AssertFail SCHED_PAST; AssertFail SCHED_TWICE; AssertFail NO_EVENT;
   UB "null pointer"; UB "indeterminate value";
   Throw "Attempted to access element in empty deque.";
   Throw "Attempted to remove element in empty deque."].

Definition internal_error (e : error) : bool := bool_decide (e ∈ internal_errors).

Lemma lift_bind_run {S A B} (r : result A) (k : A -> M S B) (s : S) :
  (lift r ≫= k) s = match r with Ok a => k a s | Err e => Err e end.
Proof. unfold mbind, M_bind, lift. by destruct r. Qed.

Lemma get_run {S B} (k : S -> M S B) (s : S) : (get ≫= k) s = k s s.
Proof. done. Qed.

Lemma ret_run {S A B} (a : A) (k : A -> M S B) (s : S) : (mret a ≫= k) s = k a s.
Proof. done. Qed.

Lemma gets_run {S A B} (f : S -> A) (g : A -> M S B) (s : S) :
  (gets f ≫= g) s = g (f s) s.
Proof. done. Qed.

Lemma modify_run {S B} (f : S -> S) (g : unit -> M S B) (s : S) :
  (modify f ≫= g) s = g tt (f s).
Proof. done. Qed.

Lemma assert_bind_run {S B} b site (k : unit -> M S B) (s : S) :
  (assert_ b site ≫= k) s = if b then k tt s else Err (AssertFail site).
Proof. unfold mbind, M_bind, assert_. by destruct b. Qed.

(** ** Shared lemmas *)
Section vectors.
Context {A : Type}.
Implicit Types (l : list A) (i : Z) (a : A).

Lemma vget_Ok l i a : vget l i = Ok a <-> 0 <= i /\ l !! Z.to_nat i = Some a.
Proof.
  unfold vget. destruct (0 <=? i) eqn:E; bool_to_Z.
  - destruct (l !! Z.to_nat i); naive_solver.
  - split; [done|lia].
Qed.

Lemma vget_in_range l i :
  0 <= i < Z.of_nat (length l) -> exists a, vget l i = Ok a.
Proof.
  intros H. destruct (lookup_lt_is_Some_2 l (Z.to_nat i)) as [a Ha]; [lia|].
  exists a. apply vget_Ok. split; [lia|done].
Qed.

Lemma vget_Ok_range l i a : vget l i = Ok a -> 0 <= i < Z.of_nat (length l).
Proof. intros [? ?%lookup_lt_Some]%vget_Ok. lia. Qed.

Lemma vset_Ok l i a l' :
  vset l i a = Ok l' <->
  0 <= i < Z.of_nat (length l) /\ l' = <[Z.to_nat i := a]> l.
Proof.
  unfold vset.
  destruct (0 <=? i) eqn:E1, (i <? Z.of_nat (length l)) eqn:E2; simpl; bool_to_Z;
    split; intros H; simplify_eq; try lia; naive_solver lia.
Qed.

Lemma vset_in_range l i a :
  0 <= i < Z.of_nat (length l) -> vset l i a = Ok (<[Z.to_nat i := a]> l).
Proof. intros H. by apply vset_Ok. Qed.

Lemma vget_insert_eq l i a :
  0 <= i < Z.of_nat (length l) -> vget (<[Z.to_nat i := a]> l) i = Ok a.
Proof. intros H. apply vget_Ok. split; [lia|]. apply list_lookup_insert_eq. lia. Qed.

Lemma vget_insert_ne l i j a :
  0 <= i -> i <> j -> vget (<[Z.to_nat i := a]> l) j = vget l j.
Proof.
  intros Hi Hij. unfold vget. destruct (0 <=? j) eqn:E; bool_to_Z; [|done].
  rewrite list_lookup_insert_ne; [done|lia].
Qed.
End vectors.

#[export] Hint Resolve vget_in_range vset_in_range : st.

(** The same for code without state. *)
Definition rwp {A} (E : error -> Prop) (r : result A) (Q : A -> Prop) : Prop :=
  match r with Ok a => Q a | Err e => E e end.

Section rwp.
Context (E : error -> Prop).

Lemma rwp_bind {A B} (r : result A) (f : A -> result B) Q :
  rwp E r (fun a => rwp E (f a) Q) -> rwp E (r ≫= f) Q.
Proof. by destruct r. Qed.

Lemma rwp_mono {A} (r : result A) (P Q : A -> Prop) :
  rwp E r P -> (forall a, P a -> Q a) -> rwp E r Q.
Proof. destruct r; naive_solver. Qed.

Lemma rwp_wp {S A} (r : result A) (Q : A -> S -> Prop) s :
  rwp E r (fun a => Q a s) -> wp E (lift r) Q s.
Proof. unfold wp, lift. by destruct r. Qed.

Lemma rwp_vget {A} (l : list A) i Q :
  E (UB "index") -> (forall a, vget l i = Ok a -> Q a) -> rwp E (vget l i) Q.
Proof.
  intros HE H. unfold rwp. destruct (vget l i) as [a|e] eqn:Eq; [by apply H|].
  unfold vget in Eq. destruct (0 <=? i); [|naive_solver].
  destruct (l !! Z.to_nat i); naive_solver.
Qed.

Lemma rwp_vset {A} (l : list A) i a Q :
  E (UB "index") ->
  (0 <= i < Z.of_nat (length l) -> Q (<[Z.to_nat i := a]> l)) -> rwp E (vset l i a) Q.
Proof.
  intros HE H. unfold rwp. destruct (vset l i a) as [l'|e] eqn:Eq.
  - apply vset_Ok in Eq as [Hr ->]. by apply H.
  - unfold vset in Eq. case_match; naive_solver.
Qed.
End rwp.

Lemma elem_of_upto n i : i ∈ upto n <-> 0 <= i < n.
Proof.
  unfold upto. rewrite list_elem_of_fmap. setoid_rewrite elem_of_seq. split.
  - intros (k & -> & ?). lia.
  - intros H. exists (Z.to_nat i). lia.
Qed.

Lemma length_upto n : length (upto n) = Z.to_nat n.
Proof. unfold upto. by rewrite length_fmap, length_seq. Qed.

Section widths.
Lemma u64_small x : is_u64 x -> u64 x = x.
Proof. zwidth. apply Z.mod_small. Qed.
Lemma u32_small x : is_u32 x -> u32 x = x.
Proof. zwidth. apply Z.mod_small. Qed.
Lemma i32_small x : is_i32 x -> i32 x = x.
Proof. zwidth. intros. rewrite Z.mod_small; lia. Qed.
Lemma u64_range x : is_u64 (u64 x).
Proof. zwidth. apply Z.mod_pos_bound. lia. Qed.
Lemma u32_range x : is_u32 (u32 x).
Proof. zwidth. apply Z.mod_pos_bound. lia. Qed.
Lemma i32_range x : is_i32 (i32 x).
Proof. zwidth. pose proof (Z.mod_pos_bound (x + 2 ^ 31) (2 ^ 32)). lia. Qed.

(** Narrowing to 32 bits ignores an earlier reduction to 64 bits. *)
Lemma i32_u64 x : i32 (u64 x) = i32 x.
Proof.
  unfold i32, u64. rewrite <- (Zplus_mod_idemp_l (x mod _)).
  rewrite Z.mod_mod_divide by (by exists (2 ^ 32)).
  by rewrite Zplus_mod_idemp_l.
Qed.
End widths.

#[export] Hint Resolve u64_range u32_range i32_range : st.

(** ** Modular arithmetic *)
Lemma mod_inj_range s a b :
  0 < s -> a mod s = b mod s -> - s < a - b < s -> a = b.
Proof.
  intros Hs Hm Hr.
  pose proof (Z.div_mod a s ltac:(lia)). pose proof (Z.div_mod b s ltac:(lia)).
  assert (a - b = s * (a / s - b / s)) as Hd by lia.
  assert (a / s - b / s = 0) by nia. lia.
Qed.

Lemma mod_add_step s a k : 0 < s -> (a mod s + k) mod s = (a + k) mod s.
Proof. intros. by rewrite Zplus_mod_idemp_l. Qed.

(** A value below [2^b] fills the bits a shift by [b] leaves free. *)
Lemma land_shifted_low a b o :
  0 <= b -> 0 <= o < 2 ^ b -> Z.land (a * 2 ^ b) o = 0.
Proof.
  intros Hb Ho. apply Z.bits_inj'. intros n Hn. rewrite Z.bits_0, Z.land_spec.
  destruct (decide (n < b)) as [Hlt|Hge].
  - by rewrite Z.mul_pow2_bits_low.
  - rewrite <- (Z.mod_small o (2 ^ b)) by done.
    rewrite Z.mod_pow2_bits_high by lia. by rewrite andb_false_r.
Qed.

Lemma lor_shifted_low a b o :
  0 <= b -> 0 <= o < 2 ^ b -> Z.lor (a * 2 ^ b) o = a * 2 ^ b + o.
Proof.
  intros Hb Ho. pose proof (Z.add_lor_land (a * 2 ^ b) o) as H.
  rewrite land_shifted_low in H by done. lia.
Qed.

(** Splitting a remainder by a product. *)
Lemma mod_mul_split a b l :
  0 < b -> 0 < l -> a mod (l * b) = (a / b) mod l * b + a mod b.
Proof. intros Hb Hl. rewrite (Z.mul_comm l b), Z.rem_mul_r by lia. lia. Qed.

(** ** Lists *)
Lemma omap_lookup_all {A B} (f : A -> option B) (l : list A) (i : nat) :
  (forall x, x ∈ l -> is_Some (f x)) -> omap f l !! i = l !! i ≫= f.
Proof.
  revert i. induction l as [|x l IH]; intros i Hall; [done|]. simpl.
  destruct (Hall x) as [y Hy]; [set_solver|]. rewrite Hy.
  destruct i as [|i]; simpl; [done|]. apply IH. set_solver.
Qed.

Lemma lookup_upto n (i : nat) :
  upto n !! i = if decide (Z.of_nat i < n) then Some (Z.of_nat i) else None.
Proof.
  unfold upto. rewrite list_lookup_fmap. case_decide.
  - rewrite lookup_seq_lt by lia. done.
  - rewrite lookup_seq_ge by lia. done.
Qed.

Lemma upto_app {A} (f : Z -> A) a b :
  0 <= a -> 0 <= b ->
  f <$> upto (a + b) = (f <$> upto a) ++ ((fun j => f (a + j)) <$> upto b).
Proof.
  intros Ha Hb. apply list_eq. intros i.
  destruct (decide (Z.of_nat i < a)).
  - rewrite lookup_app_l by (rewrite length_fmap, length_upto; lia).
    rewrite !list_lookup_fmap, !lookup_upto. repeat case_decide; (done || lia).
  - rewrite lookup_app_r by (rewrite length_fmap, length_upto; lia).
    rewrite length_fmap, length_upto, !list_lookup_fmap, !lookup_upto.
    repeat case_decide; simpl; try lia; try done. do 2 f_equal. lia.
Qed.

Lemma fmap_upto_ext {A} (f g : Z -> A) n :
  (forall i, 0 <= i < n -> f i = g i) -> f <$> upto n = g <$> upto n.
Proof.
  intros H. apply list_fmap_ext. intros i x Hx. apply H.
  apply elem_of_upto. by eapply list_elem_of_lookup_2.
Qed.
