(* ===== verification/StaticDeque.v ===== *)
(** * [StaticDeque<T>]: the fixed-capacity ring buffer
    (src/src/cpu/testers/synchrotrace/lib/static_deque.{hh,cc}).

    The record [t] has the source's five members; one definition per member
    function.  [abs] reads the ring from front to back as a list, [wf] is the
    representation invariant, and the theorems say that every operation
    implements its list counterpart, exceptions included. *)

From S2P Require Import Prelude.

Module StaticDeque.

Section operations.
Context {T : Type}.

(** [data] is allocated by [new T[n]], which leaves the cells of a class
    without initialising constructor indeterminate: [None]. *)
Record t := mk {
  data : list (option T);
  length_ : Z;
  elems : Z;
  first : Z;
  last : Z
}.

#[global] Instance t_eta : Settable t := fun d =>
  mk d.(data) d.(length_) d.(elems) d.(first) d.(last).

Definition WRAP_INCR (i s : Z) : Z := if i =? s - 1 then 0 else i + 1.
Definition WRAP_DECR (i s : Z) : Z := if i =? 0 then s - 1 else i - 1.
Definition WRAP_RACC (f i s : Z) : Z :=
  if f - i - 1 <? 0 then s - (i - f) - 1 else f - i - 1.

(** The constructor; its parameter is an [int]. *)
Definition make (static_size : Z) : result t :=
  if static_size <=? 0
  then Err (Throw "Cannot instantiate deque to a non-positive size.")
  else Ok (mk (replicate (Z.to_nat static_size) None) static_size 0 0 0).

(** The copy constructor copies the members and then the cells one by one. *)
Fixpoint copy_cells (orig fresh : list (option T)) (i : nat) (n : nat)
  : list (option T) :=
  match n with
  | O => fresh
  | S n' =>
      copy_cells orig
        (match orig !! i with Some c => <[i := c]> fresh | None => fresh end)
        (S i) n'
  end.

Definition copy (orig : t) : t :=
  mk (copy_cells orig.(data) (replicate (Z.to_nat orig.(length_)) None) 0
        (Z.to_nat orig.(length_)))
     orig.(length_) orig.(elems) orig.(first) orig.(last).

Definition size (d : t) : Z := d.(elems).
Definition empty (d : t) : bool := d.(elems) =? 0.
Definition full (d : t) : bool := d.(elems) =? d.(length_).

(** A read of one cell. *)
Definition cell (d : t) (i : Z) : result T :=
  c ← vget d.(data) i;
  match c with Some x => Ok x | None => Err (UB "indeterminate value") end.

Definition write (d : t) (i : Z) (x : T) : result t :=
  data' ← vset d.(data) i (Some x); Ok (d <| data := data' |>).

Definition front (d : t) : result T :=
  if 0 <? d.(elems) then cell d (WRAP_DECR d.(first) d.(length_))
  else Err (Throw "Attempted to access element in empty deque.").

Definition back (d : t) : result T :=
  if 0 <? d.(elems) then cell d d.(last)
  else Err (Throw "Attempted to access element in empty deque.").

(** [front()] and [operator[]] return references; a write through the
    reference is the corresponding [set_]. *)
Definition set_front (d : t) (x : T) : result t :=
  if 0 <? d.(elems) then write d (WRAP_DECR d.(first) d.(length_)) x
  else Err (Throw "Attempted to access element in empty deque.").

Definition pop_front (d : t) : result (T * t) :=
  if 0 <? d.(elems) then
    let first' := WRAP_DECR d.(first) d.(length_) in
    x ← cell d first';
    Ok (x, d <| first := first' |> <| elems := d.(elems) - 1 |>)
  else Err (Throw "Attempted to remove element in empty deque.").

Definition pop_back (d : t) : result (T * t) :=
  if 0 <? d.(elems) then
    x ← cell d d.(last);
    Ok (x, d <| last := WRAP_INCR d.(last) d.(length_) |>
             <| elems := d.(elems) - 1 |>)
  else Err (Throw "Attempted to remove element in empty deque.").

Definition push_front (d : t) (x : T) : result t :=
  if d.(elems) <? d.(length_) then
    d1 ← write d d.(first) x;
    Ok (d1 <| first := WRAP_INCR d.(first) d.(length_) |>
           <| elems := d.(elems) + 1 |>)
  else Err (Throw "Attempted to add element to full deque.").

Definition push_back (d : t) (x : T) : result t :=
  if d.(elems) <? d.(length_) then
    let last' := WRAP_DECR d.(last) d.(length_) in
    d1 ← write d last' x;
    Ok (d1 <| last := last' |> <| elems := d.(elems) + 1 |>)
  else Err (Throw "Attempted to add element to full deque.").

Definition clear (d : t) : t :=
  d <| elems := 0 |> <| first := 0 |> <| last := 0 |>.

Definition get_at (d : t) (index : Z) : result T :=
  if (0 <=? index) && (index <? d.(elems))
  then cell d (WRAP_RACC d.(first) index d.(length_))
  else Err (Throw "Attempted to retrieve non-existant element.").

Definition set_at (d : t) (index : Z) (x : T) : result t :=
  if (0 <=? index) && (index <? d.(elems))
  then write d (WRAP_RACC d.(first) index d.(length_)) x
  else Err (Throw "Attempted to retrieve non-existant element.").

(** [contains] walks from [last] up to [first]; the fuel is the number of
    cells, which the walk cannot exceed in a well-formed deque. *)
Fixpoint contains_loop (eqb : T -> T -> bool) (d : t) (e : T) (i : Z)
  (fuel : nat) : result bool :=
  if i =? d.(first) then Ok false else
  match fuel with
  | O => Err (UB "non-terminating loop")
  | S fuel' =>
      x ← cell d i;
      if eqb x e then Ok true
      else contains_loop eqb d e (WRAP_INCR i d.(length_)) fuel'
  end.

Definition contains (eqb : T -> T -> bool) (d : t) (e : T) : result bool :=
  contains_loop eqb d e d.(last) (length d.(data)).

(** ** The abstraction: the elements from front to back *)

(** The cell of the [i]-th element counted from the front. *)
Definition pos (d : t) (i : Z) : Z := (d.(first) - i - 1) mod d.(length_).

Definition cell_opt (d : t) (i : Z) : option T := mjoin (d.(data) !! Z.to_nat i).

Definition abs (d : t) : list T :=
  omap (fun i => cell_opt d (pos d i)) (upto d.(elems)).

Record wf (d : t) : Prop := {
  wf_length : 0 < d.(length_) < 2 ^ 31;
  wf_data : Z.of_nat (length d.(data)) = d.(length_);
  wf_elems : 0 <= d.(elems) <= d.(length_);
  wf_first : 0 <= d.(first) < d.(length_);
  wf_last : d.(last) = (d.(first) - d.(elems)) mod d.(length_);
  wf_filled : forall i, 0 <= i < d.(elems) -> is_Some (cell_opt d (pos d i))
}.
End operations.
Arguments t : clear implicits.

(** ** The wrap macros are the modular successor and predecessor *)
Lemma WRAP_INCR_mod i s : 0 <= i < s -> WRAP_INCR i s = (i + 1) mod s.
Proof.
  intros H. unfold WRAP_INCR. destruct (i =? s - 1) eqn:E; bool_to_Z.
  - replace (i + 1) with s by lia. by rewrite Z.mod_same by lia.
  - rewrite Z.mod_small; lia.
Qed.

Lemma WRAP_DECR_mod i s : 0 <= i < s -> WRAP_DECR i s = (i - 1) mod s.
Proof.
  intros H. unfold WRAP_DECR. destruct (i =? 0) eqn:E; bool_to_Z.
  - replace (i - 1) with (s - 1 + (-1) * s) by lia.
    rewrite Z.mod_add, Z.mod_small; lia.
  - rewrite Z.mod_small; lia.
Qed.

Lemma WRAP_RACC_mod f i s :
  0 <= f < s -> 0 <= i < s -> WRAP_RACC f i s = (f - i - 1) mod s.
Proof.
  intros Hf Hi. unfold WRAP_RACC. destruct (f - i - 1 <? 0) eqn:E; bool_to_Z.
  - replace (f - i - 1) with (s - (i - f) - 1 + (-1) * s) by lia.
    rewrite Z.mod_add, Z.mod_small; lia.
  - rewrite Z.mod_small; lia.
Qed.

Section refinement.
Context {T : Type}.
Implicit Types (d : t T) (x : T) (l : list T).

Lemma pos_range d i : 0 < d.(length_) -> 0 <= pos d i < d.(length_).
Proof. intros. by apply Z.mod_pos_bound. Qed.

(** Moving [first] by [k] renumbers the cells by [-k]. *)
Lemma pos_shift d' d k i :
  d'.(length_) = d.(length_) -> d'.(first) = (d.(first) + k) mod d.(length_) ->
  pos d' i = pos d (i - k).
Proof.
  intros Hl Hf. unfold pos. rewrite Hl, Hf.
  rewrite <- Z.sub_add_distr, Zminus_mod_idemp_l. f_equal. lia.
Qed.

Lemma pos_inj d i j :
  wf d -> 0 <= i < d.(length_) -> 0 <= j < d.(length_) ->
  pos d i = pos d j -> i = j.
Proof.
  intros W Hi Hj Hp. destruct W.
  enough (d.(first) - i - 1 = d.(first) - j - 1) by lia.
  apply (mod_inj_range d.(length_)); [lia|exact Hp|lia].
Qed.

Lemma abs_lookup d (i : nat) :
  wf d ->
  abs d !! i = if decide (Z.of_nat i < d.(elems))
               then cell_opt d (pos d (Z.of_nat i)) else None.
Proof.
  intros W. unfold abs. rewrite omap_lookup_all.
  - rewrite lookup_upto. by case_decide.
  - intros k Hk%elem_of_upto. by apply W.
Qed.

Lemma length_abs d : wf d -> Z.of_nat (length (abs d)) = d.(elems).
Proof.
  intros W. pose proof (wf_elems d W) as He.
  assert (abs d !! Z.to_nat d.(elems) = None) as Hn.
  { rewrite abs_lookup by done. rewrite decide_False; [done|lia]. }
  apply lookup_ge_None in Hn.
  destruct (decide (Z.of_nat (length (abs d)) < d.(elems))) as [Hlt|]; [|lia].
  pose proof (abs_lookup d (length (abs d)) W) as Ha.
  rewrite decide_True in Ha by done.
  destruct (wf_filled d W (Z.of_nat (length (abs d)))) as [y Hy]; [lia|].
  rewrite Hy in Ha. apply lookup_lt_Some in Ha. lia.
Qed.

(** The list of a well-formed deque is determined cell by cell. *)
Lemma abs_eq d l :
  wf d -> Z.of_nat (length l) = d.(elems) ->
  (forall i : nat, Z.of_nat i < d.(elems) ->
     cell_opt d (pos d (Z.of_nat i)) = l !! i) ->
  abs d = l.
Proof.
  intros W Hl Hc. apply list_eq. intros i. rewrite abs_lookup by done.
  case_decide; [by apply Hc|]. symmetry. apply lookup_ge_None. lia.
Qed.

Lemma cell_Ok d i x :
  0 <= i -> cell d i = Ok x <-> cell_opt d i = Some x.
Proof.
  intros Hi. unfold cell, cell_opt, vget.
  rewrite (proj2 (Z.leb_le 0 i)) by done.
  destruct (d.(data) !! Z.to_nat i) as [[y|]|]; simpl; naive_solver.
Qed.

Lemma cell_filled d i :
  wf d -> 0 <= i < d.(elems) ->
  exists x, cell d (pos d i) = Ok x /\ abs d !! Z.to_nat i = Some x.
Proof.
  intros W Hi. destruct (wf_filled d W i Hi) as [x Hx]. exists x. split.
  - apply cell_Ok; [|done]. apply pos_range, W.
  - rewrite abs_lookup by done. rewrite decide_True by lia.
    by rewrite Z2Nat.id by lia.
Qed.

Lemma write_Ok d i x :
  wf d -> 0 <= i < d.(length_) ->
  write d i x = Ok (d <| data := <[Z.to_nat i := Some x]> d.(data) |>).
Proof.
  intros W Hi. unfold write. rewrite vset_in_range; [done|].
  rewrite (wf_data d W). done.
Qed.

Lemma cell_opt_write_eq d i x :
  wf d -> 0 <= i < d.(length_) ->
  cell_opt (d <| data := <[Z.to_nat i := Some x]> d.(data) |>) i = Some x.
Proof.
  intros W Hi. unfold cell_opt. cbn -[Z.to_nat].
  rewrite list_lookup_insert_eq; [done|]. pose proof (wf_data d W). lia.
Qed.

Lemma cell_opt_write_ne d i j x :
  0 <= i -> 0 <= j -> i <> j ->
  cell_opt (d <| data := <[Z.to_nat i := Some x]> d.(data) |>) j = cell_opt d j.
Proof.
  intros Hi Hj Hne. unfold cell_opt. cbn -[Z.to_nat].
  rewrite list_lookup_insert_ne; [done|lia].
Qed.

(** ** Every member function implements its list operation *)
Lemma make_spec n :
  0 < n < 2 ^ 31 ->
  exists d : t T, make n = Ok d /\ wf d /\ abs d = [] /\ d.(length_) = n.
Proof.
  intros Hn. unfold make. destruct (n <=? 0) eqn:E; bool_to_Z; [lia|].
  eexists. split; [done|]. split; [|done]. split; cbn; try lia.
  - rewrite length_replicate. lia.
  - by rewrite Z.mod_0_l by lia.
Qed.

Lemma front_spec d :
  wf d ->
  front d = match abs d with
            | [] => Err (Throw "Attempted to access element in empty deque.")
            | x :: _ => Ok x
            end.
Proof.
  intros W. pose proof (length_abs d W) as Hl. unfold front.
  destruct (0 <? d.(elems)) eqn:E; bool_to_Z.
  - destruct (cell_filled d 0 W ltac:(lia)) as (x & Hx & Ha).
    rewrite WRAP_DECR_mod by apply W. unfold pos in Hx. rewrite Z.sub_0_r in Hx.
    rewrite Hx. destruct (abs d); naive_solver.
  - destruct (abs d); [done|]. simpl in Hl. lia.
Qed.

Lemma back_spec d :
  wf d ->
  back d = match list.last (abs d) with
           | None => Err (Throw "Attempted to access element in empty deque.")
           | Some x => Ok x
           end.
Proof.
  intros W. pose proof (length_abs d W) as Hl. unfold back.
  destruct (0 <? d.(elems)) eqn:E; bool_to_Z.
  - destruct (cell_filled d (d.(elems) - 1) W ltac:(lia)) as (x & Hx & Ha).
    unfold pos in Hx. replace (d.(first) - (d.(elems) - 1) - 1)
      with (d.(first) - d.(elems)) in Hx by lia.
    rewrite (wf_last d W), Hx, last_lookup.
    replace (pred (length (abs d))) with (Z.to_nat (d.(elems) - 1)) by lia.
    by rewrite Ha.
  - destruct (abs d); [done|]. simpl in Hl. lia.
Qed.

Lemma pop_front_spec d :
  wf d ->
  match abs d with
  | [] => pop_front d = Err (Throw "Attempted to remove element in empty deque.")
  | x :: l => exists d', pop_front d = Ok (x, d') /\ wf d' /\ abs d' = l
                         /\ d'.(length_) = d.(length_)
  end.
Proof.
  intros W. pose proof (length_abs d W) as Hl. unfold pop_front.
  destruct (0 <? d.(elems)) eqn:E; bool_to_Z.
  2:{ destruct (abs d); [done|]. simpl in Hl. lia. }
  destruct (cell_filled d 0 W ltac:(lia)) as (x & Hx & Ha).
  destruct (abs d) as [|y l] eqn:El; [done|]. simpl in Ha. injection Ha as ->.
  rewrite WRAP_DECR_mod by apply W. unfold pos in Hx. rewrite Z.sub_0_r in Hx.
  rewrite Hx. unfold mbind, result_bind.
  match goal with |- context [Ok (x, ?e)] => set (d' := e); exists d' end.
  split; [done|].
  assert (forall i, pos d' i = pos d (i + 1)) as Hpos.
  { intros i. rewrite (pos_shift d' d (-1)) by done. by f_equal. }
  assert (wf d') as W'.
  { destruct W. split; unfold d'; cbn; try lia.
    - apply Z.mod_pos_bound. lia.
    - rewrite wf_last0. rewrite Zminus_mod_idemp_l. f_equal. lia.
    - intros i Hi. fold d'. rewrite Hpos. apply wf_filled0. lia. }
  split; [done|]. split; [|done]. apply abs_eq; [done| |].
  - unfold d'; cbn. simpl in Hl. lia.
  - intros i Hi. rewrite Hpos. unfold d' in Hi; cbn in Hi.
    pose proof (abs_lookup d (S i) W) as Hs. rewrite El in Hs. simpl in Hs.
    rewrite decide_True in Hs by lia.
    replace (Z.of_nat (S i)) with (Z.of_nat i + 1) in Hs by lia. by rewrite Hs.
Qed.

Lemma pop_back_spec d :
  wf d ->
  match list.last (abs d) with
  | None => pop_back d = Err (Throw "Attempted to remove element in empty deque.")
  | Some x => exists d', pop_back d = Ok (x, d') /\ wf d'
                /\ abs d' = take (pred (length (abs d))) (abs d)
                /\ d'.(length_) = d.(length_)
  end.
Proof.
  intros W. pose proof (length_abs d W) as Hl. unfold pop_back.
  destruct (0 <? d.(elems)) eqn:E; bool_to_Z.
  2:{ destruct (abs d); [done|]. simpl in Hl. lia. }
  destruct (cell_filled d (d.(elems) - 1) W ltac:(lia)) as (x & Hx & Ha).
  rewrite last_lookup.
  replace (pred (length (abs d))) with (Z.to_nat (d.(elems) - 1)) by lia.
  rewrite Ha. unfold pos in Hx.
  replace (d.(first) - (d.(elems) - 1) - 1) with (d.(first) - d.(elems)) in Hx by lia.
  rewrite (wf_last d W), Hx. unfold mbind, result_bind.
  match goal with |- context [Ok (x, ?e)] => set (d' := e); exists d' end.
  assert (wf d') as W'.
  { destruct W. split; unfold d'; cbn; try lia.
    - rewrite WRAP_INCR_mod by (apply Z.mod_pos_bound; lia).
      rewrite Zplus_mod_idemp_l. f_equal. lia.
    - intros i Hi. apply wf_filled0. lia. }
  split; [done|]. split; [done|]. split; [|done]. apply abs_eq; [done| |].
  - unfold d'; cbn. rewrite length_take. lia.
  - intros i Hi. unfold d' in Hi; cbn in Hi. rewrite lookup_take_lt by lia.
    rewrite abs_lookup by done. rewrite decide_True by lia. done.
Qed.

Lemma push_front_spec d x :
  wf d ->
  if d.(elems) <? d.(length_)
  then exists d', push_front d x = Ok d' /\ wf d' /\ abs d' = x :: abs d
                  /\ d'.(length_) = d.(length_)
  else push_front d x = Err (Throw "Attempted to add element to full deque.").
Proof.
  intros W. pose proof (length_abs d W) as Hl. unfold push_front.
  destruct (elems d <? length_ d) eqn:E; [|done]; bool_to_Z.
  rewrite write_Ok by (done || apply W). unfold mbind, result_bind.
  match goal with |- context [Ok ?e] => set (d' := e); exists d' end.
  assert (d'.(first) = (d.(first) + 1) mod d.(length_)) as Hf.
  { unfold d'; cbn. by rewrite WRAP_INCR_mod by apply W. }
  assert (forall i, pos d' i = pos d (i - 1)) as Hpos.
  { intros i. by apply (pos_shift d' d 1). }
  assert (pos d (-1) = d.(first)) as Hm1.
  { unfold pos. replace (first d - -1 - 1) with (first d) by lia.
    apply Z.mod_small, W. }
  assert (forall i, 0 <= i < d.(elems) -> cell_opt d' (pos d i) = cell_opt d (pos d i))
    as Hold.
  { intros i Hi. apply (cell_opt_write_ne d); try apply pos_range; try apply W.
    rewrite <- Hm1. intros Heq. apply mod_inj_range in Heq; try apply W; lia. }
  assert (cell_opt d' (pos d' 0) = Some x) as Hnew.
  { rewrite Hpos. replace (0 - 1) with (-1) by lia. rewrite Hm1.
    apply (cell_opt_write_eq d); [done|apply W]. }
  assert (wf d') as W'.
  { pose proof W as [? ? ? ? ? ?]. split; try (unfold d'; cbn; try rewrite length_insert; lia).
    - rewrite Hf. change (length_ d') with (length_ d). apply Z.mod_pos_bound. lia.
    - rewrite Hf. unfold d'; cbn. rewrite (wf_last d W), Zminus_mod_idemp_l.
      f_equal. lia.
    - intros i Hi. unfold d' in Hi; cbn in Hi.
      destruct (decide (i = 0)) as [->|]; [by rewrite Hnew|].
      rewrite Hpos, Hold by lia. apply W. lia. }
  split; [done|]. split; [done|]. split; [|done]. apply abs_eq; [done| |].
  - unfold d'; cbn. lia.
  - intros [|i] Hi; [done|]. unfold d' in Hi; cbn in Hi. rewrite Hpos.
    replace (Z.of_nat (S i) - 1) with (Z.of_nat i) by lia.
    rewrite Hold by lia. simpl. rewrite abs_lookup by done.
    by rewrite decide_True by lia.
Qed.

Lemma push_back_spec d x :
  wf d ->
  if d.(elems) <? d.(length_)
  then exists d', push_back d x = Ok d' /\ wf d' /\ abs d' = abs d ++ [x]
                  /\ d'.(length_) = d.(length_)
  else push_back d x = Err (Throw "Attempted to add element to full deque.").
Proof.
  intros W. pose proof (length_abs d W) as Hl. unfold push_back.
  destruct (elems d <? length_ d) eqn:E; [|done]; bool_to_Z.
  assert (WRAP_DECR (last d) (length_ d) = pos d (elems d)) as Hp.
  { rewrite (wf_last d W), WRAP_DECR_mod by (apply Z.mod_pos_bound, W).
    by rewrite Zminus_mod_idemp_l. }
  rewrite Hp, write_Ok by (done || apply pos_range, W).
  unfold mbind, result_bind.
  match goal with |- context [Ok ?e] => set (d' := e); exists d' end.
  assert (forall i, pos d' i = pos d i) as Hpos by done.
  assert (forall i, 0 <= i < d.(elems) -> cell_opt d' (pos d i) = cell_opt d (pos d i))
    as Hold.
  { intros i Hi. apply (cell_opt_write_ne d); try apply pos_range; try apply W.
    intros Heq. apply pos_inj in Heq; [lia|done|lia|lia]. }
  assert (cell_opt d' (pos d (elems d)) = Some x) as Hnew.
  { apply (cell_opt_write_eq d); [done|apply pos_range, W]. }
  assert (wf d') as W'.
  { pose proof W as [? ? ? ? ? ?]. split; try (unfold d'; cbn; try rewrite length_insert; lia).
    - unfold d'; cbn. unfold pos. f_equal. lia.
    - intros i Hi. unfold d' in Hi; cbn in Hi. rewrite Hpos.
      destruct (decide (i = elems d)) as [->|]; [by rewrite Hnew|].
      rewrite Hold by lia. apply W. lia. }
  split; [done|]. split; [done|]. split; [|done]. apply abs_eq; [done| |].
  - unfold d'; cbn. rewrite length_app. simpl. lia.
  - intros i Hi. unfold d' in Hi; cbn in Hi. rewrite Hpos.
    destruct (decide (Z.of_nat i = elems d)) as [Heq|].
    + rewrite Heq, Hnew, lookup_app_r by lia.
      by replace (i - length (abs d))%nat with O by lia.
    + rewrite Hold, lookup_app_l by lia. rewrite abs_lookup by done.
      by rewrite decide_True by lia.
Qed.

Lemma push_back_room d x :
  wf d -> Z.of_nat (length (abs d)) < d.(length_) ->
  exists d', push_back d x = Ok d' /\ wf d' /\ abs d' = abs d ++ [x]
             /\ d'.(length_) = d.(length_).
Proof.
  intros W Hroom. pose proof (push_back_spec d x W) as H.
  rewrite length_abs in Hroom by done.
  by rewrite (proj2 (Z.ltb_lt _ _) Hroom) in H.
Qed.

(** A write through the reference to the [i]-th element. *)
Lemma write_spec d i x :
  wf d -> 0 <= i < d.(elems) ->
  exists d', write d (pos d i) x = Ok d' /\ wf d'
             /\ abs d' = <[Z.to_nat i := x]> (abs d) /\ d'.(length_) = d.(length_).
Proof.
  intros W Hi. rewrite write_Ok by (done || apply pos_range, W).
  match goal with |- context [Ok ?e] => set (d' := e); exists d' end.
  assert (forall j, 0 <= j < d.(elems) ->
            cell_opt d' (pos d j) = if decide (j = i) then Some x
                                    else cell_opt d (pos d j)) as Hc.
  { intros j Hj. case_decide as Hji.
    - subst. apply (cell_opt_write_eq d); [done|apply pos_range, W].
    - apply (cell_opt_write_ne d); try apply pos_range; try apply W.
      pose proof (wf_elems d W).
      intros Heq. apply pos_inj in Heq; [lia|done|lia|lia]. }
  assert (wf d') as W'.
  { pose proof W as [? ? ? ? ? ?].
    split; try (unfold d'; cbn; try rewrite length_insert; lia).
    intros j Hj. change (pos d' j) with (pos d j). rewrite Hc by done.
    case_decide; [done|]. by apply W. }
  split; [done|]. split; [done|]. split; [|done].
  pose proof (length_abs d W) as Hl. apply abs_eq; [done| |].
  - rewrite length_insert. done.
  - intros j Hj. change (pos d' _) with (pos d (Z.of_nat j)).
    change (elems d') with (elems d) in Hj. rewrite Hc by lia. case_decide as Hji.
    + subst. rewrite Nat2Z.id. rewrite list_lookup_insert_eq; [done|lia].
    + rewrite list_lookup_insert_ne by lia. rewrite abs_lookup by done.
      by rewrite decide_True by done.
Qed.

Lemma set_front_spec d x :
  wf d ->
  match abs d with
  | [] => set_front d x = Err (Throw "Attempted to access element in empty deque.")
  | _ :: l => exists d', set_front d x = Ok d' /\ wf d' /\ abs d' = x :: l
                         /\ d'.(length_) = d.(length_)
  end.
Proof.
  intros W. pose proof (length_abs d W) as Hl. unfold set_front.
  destruct (0 <? elems d) eqn:E; bool_to_Z.
  - destruct (write_spec d 0 x W ltac:(lia)) as (d' & Hd & W' & Ha & Hn).
    unfold pos in Hd. rewrite Z.sub_0_r in Hd. rewrite WRAP_DECR_mod, Hd by apply W.
    destruct (abs d) as [|y l]; [simpl in Hl; lia|]. exists d'. naive_solver.
  - destruct (abs d); [done|]. simpl in Hl. lia.
Qed.

Lemma get_at_spec d i :
  wf d ->
  get_at d i = match (if 0 <=? i then abs d !! Z.to_nat i else None) with
               | Some x => Ok x
               | None => Err (Throw "Attempted to retrieve non-existant element.")
               end.
Proof.
  intros W. pose proof (length_abs d W) as Hl. unfold get_at.
  destruct (0 <=? i) eqn:E1; simpl; [|done].
  destruct (i <? elems d) eqn:E2; bool_to_Z.
  - destruct (cell_filled d i W ltac:(lia)) as (x & Hx & Ha). rewrite Ha.
    rewrite WRAP_RACC_mod; [exact Hx|apply W|]. pose proof (wf_elems d W). lia.
  - by rewrite lookup_ge_None_2 by lia.
Qed.

Lemma set_at_spec d i x :
  wf d ->
  if (0 <=? i) && (i <? d.(elems))
  then exists d', set_at d i x = Ok d' /\ wf d'
         /\ abs d' = <[Z.to_nat i := x]> (abs d) /\ d'.(length_) = d.(length_)
  else set_at d i x = Err (Throw "Attempted to retrieve non-existant element.").
Proof.
  intros W. unfold set_at. destruct ((0 <=? i) && (i <? elems d)) eqn:E; [|done].
  bool_to_Z. pose proof (wf_elems d W).
  rewrite WRAP_RACC_mod by (apply W || lia). apply write_spec; [done|lia].
Qed.

Lemma clear_spec d : wf d -> wf (clear d) /\ abs (clear d) = [].
Proof.
  intros W. split; [|done]. destruct W. split; cbn; try lia.
  by rewrite Z.mod_0_l by lia.
Qed.

Lemma size_spec d : wf d -> size d = Z.of_nat (length (abs d)).
Proof. intros W. by rewrite length_abs. Qed.

Lemma empty_spec d : wf d -> empty d = bool_decide (abs d = []).
Proof.
  intros W. pose proof (length_abs d W) as Hl. unfold empty.
  destruct (abs d); simpl in Hl; case_bool_decide; try done;
    [apply Z.eqb_eq|apply Z.eqb_neq]; lia.
Qed.

Lemma full_spec d :
  wf d -> full d = (Z.of_nat (length (abs d)) =? d.(length_)).
Proof. intros W. by rewrite length_abs. Qed.

Lemma lookup_copy_cells (orig fresh : list (option T)) i n (j : nat) :
  length fresh = length orig ->
  copy_cells orig fresh i n !! j =
    if decide (i <= j < i + n)%nat then orig !! j else fresh !! j.
Proof.
  revert fresh i. induction n as [|n IH]; intros fresh i Hlen; simpl.
  { rewrite decide_False; [done|lia]. }
  destruct (orig !! i) as [c|] eqn:Hc.
  - rewrite IH by (by rewrite length_insert).
    destruct (decide (j = i)) as [->|Hne].
    + rewrite decide_False by lia. rewrite decide_True by lia.
      rewrite list_lookup_insert_eq; [done|]. rewrite Hlen. by eapply lookup_lt_Some.
    + rewrite list_lookup_insert_ne by done.
      destruct (decide (i <= j < i + S n)%nat);
        [rewrite decide_True by lia|rewrite decide_False by lia]; done.
  - apply lookup_ge_None in Hc. rewrite IH by done.
    destruct (decide (i <= j < i + S n)%nat), (decide (S i <= j < S i + n)%nat);
      try done; try lia.
    rewrite !lookup_ge_None_2 by lia. done.
Qed.

(** The copy constructor makes an equal deque. *)
Lemma copy_spec d : wf d -> copy d = d.
Proof.
  intros W. destruct d as [da ln el fi la]. unfold copy; cbn. f_equal.
  pose proof (wf_data _ W) as Hd. cbn in Hd.
  assert (length (replicate (Z.to_nat ln) (@None T)) = length da) as Hr.
  { rewrite length_replicate. lia. }
  apply list_eq. intros j. rewrite lookup_copy_cells by done.
  case_decide; [done|]. rewrite !lookup_ge_None_2; [done|lia|lia].
Qed.

Lemma contains_loop_spec eqb d e (k fuel : nat) :
  wf d -> d.(elems) < d.(length_) -> Z.of_nat k <= d.(elems) -> (k <= fuel)%nat ->
  contains_loop eqb d e (pos d (Z.of_nat k - 1)) fuel =
    Ok (existsb (fun x => eqb x e) (rev (take k (abs d)))).
Proof.
  intros W Hnf. pose proof (length_abs d W) as Hl. revert fuel.
  assert (pos d (-1) = d.(first)) as Hm1.
  { unfold pos. replace (first d - -1 - 1) with (first d) by lia.
    apply Z.mod_small, W. }
  induction k as [|k IH]; intros fuel Hk Hf.
  - replace (Z.of_nat 0 - 1) with (-1) by lia. rewrite Hm1.
    destruct fuel; simpl; by rewrite Z.eqb_refl.
  - destruct fuel as [|fuel]; [lia|].
    replace (Z.of_nat (S k) - 1) with (Z.of_nat k) by lia. simpl.
    destruct (pos d (Z.of_nat k) =? first d) eqn:E; bool_to_Z.
    { rewrite <- Hm1 in E. apply mod_inj_range in E; try apply W; lia. }
    destruct (cell_filled d (Z.of_nat k) W ltac:(lia)) as (x & Hx & Ha).
    rewrite Nat2Z.id in Ha. rewrite Hx. simpl.
    rewrite (take_S_r _ _ _ Ha), rev_app_distr. simpl.
    destruct (eqb x e); [done|]. simpl.
    rewrite WRAP_INCR_mod by (apply pos_range, W). unfold pos at 1.
    rewrite Zplus_mod_idemp_l.
    replace (first d - Z.of_nat k - 1 + 1) with (first d - (Z.of_nat k - 1) - 1) by lia.
    apply IH; lia.
Qed.

(** [contains] is membership as long as the deque is not full. *)
Lemma contains_spec eqb d e :
  wf d -> d.(elems) < d.(length_) ->
  contains eqb d e = Ok (existsb (fun x => eqb x e) (rev (abs d))).
Proof.
  intros W Hnf. pose proof (length_abs d W) as Hl. unfold contains.
  rewrite (wf_last d W).
  replace (first d - elems d) with (first d - (Z.of_nat (length (abs d)) - 1) - 1) by lia.
  pose proof (wf_data d W).
  pose proof (contains_loop_spec eqb d e (length (abs d)) (length (data d))) as Hc.
  unfold pos in Hc. rewrite Hc by (done || lia). by rewrite take_ge by lia.
Qed.
End refinement.

(** [contains] answers membership on every well-formed deque that is not
    full, and [false] on every full one, whatever it holds: when the deque is
    full [last] equals [first] and the walk stops before its first cell. *)
Theorem contains_characterised {T} (eqb : T -> T -> bool) (d : t T) (e : T)
  (W : wf d) :
  contains eqb d e =
    Ok (if full d then false else existsb (fun x => eqb x e) (rev (abs d))).
Proof.
  unfold full. destruct (elems d =? length_ d) eqn:E; bool_to_Z.
  - unfold contains. rewrite (wf_last d W), E.
    replace (first d - length_ d) with (first d + (-1) * length_ d) by lia.
    rewrite Z.mod_add, Z.mod_small by (pose proof W as []; lia).
    destruct (length (data d)); simpl; by rewrite Z.eqb_refl.
  - apply contains_spec; [done|]. pose proof (wf_elems d W). lia.
Qed.

(** ** Refinement: any sequence of calls behaves as on a bounded list *)
Section sequences.
Context {T : Type}.

Inductive call :=
| PushFront (x : T) | PushBack (x : T) | PopFront | PopBack
| Front | Back | At (i : Z) | SetFront (x : T) | SetAt (i : Z) (x : T)
| Size | Empty | Full | Clear | Copy | Contains (eqb : T -> T -> bool) (x : T).

Inductive answer := Unit | Elem (x : T) | Num (n : Z) | Flag (b : bool).

(** One call on the ring buffer. *)
Definition exec (d : t T) (c : call) : result (answer * t T) :=
  match c with
  | PushFront x => d' ← push_front d x; Ok (Unit, d')
  | PushBack x => d' ← push_back d x; Ok (Unit, d')
  | PopFront => r ← pop_front d; Ok (Elem r.1, r.2)
  | PopBack => r ← pop_back d; Ok (Elem r.1, r.2)
  | Front => x ← front d; Ok (Elem x, d)
  | Back => x ← back d; Ok (Elem x, d)
  | At i => x ← get_at d i; Ok (Elem x, d)
  | SetFront x => d' ← set_front d x; Ok (Unit, d')
  | SetAt i x => d' ← set_at d i x; Ok (Unit, d')
  | Size => Ok (Num (size d), d)
  | Empty => Ok (Flag (empty d), d)
  | Full => Ok (Flag (full d), d)
  | Clear => Ok (Unit, clear d)
  | Copy => Ok (Unit, copy d)
  | Contains eqb x => b ← contains eqb d x; Ok (Flag b, d)
  end.

(** The same call on a list of at most [cap] elements.  [contains] is
    membership except on a full deque, where the code answers [false]
    whatever the deque holds ([contains_characterised]). *)
Definition spec (cap : Z) (l : list T) (c : call) : result (answer * list T) :=
  match c with
  | PushFront x =>
      if Z.of_nat (length l) <? cap then Ok (Unit, x :: l)
      else Err (Throw "Attempted to add element to full deque.")
  | PushBack x =>
      if Z.of_nat (length l) <? cap then Ok (Unit, l ++ [x])
      else Err (Throw "Attempted to add element to full deque.")
  | PopFront =>
      match l with
      | [] => Err (Throw "Attempted to remove element in empty deque.")
      | x :: l' => Ok (Elem x, l')
      end
  | PopBack =>
      match list.last l with
      | None => Err (Throw "Attempted to remove element in empty deque.")
      | Some x => Ok (Elem x, take (pred (length l)) l)
      end
  | Front =>
      match l with
      | [] => Err (Throw "Attempted to access element in empty deque.")
      | x :: _ => Ok (Elem x, l)
      end
  | Back =>
      match list.last l with
      | None => Err (Throw "Attempted to access element in empty deque.")
      | Some x => Ok (Elem x, l)
      end
  | At i =>
      match (if 0 <=? i then l !! Z.to_nat i else None) with
      | Some x => Ok (Elem x, l)
      | None => Err (Throw "Attempted to retrieve non-existant element.")
      end
  | SetFront x =>
      match l with
      | [] => Err (Throw "Attempted to access element in empty deque.")
      | _ :: l' => Ok (Unit, x :: l')
      end
  | SetAt i x =>
      if (0 <=? i) && (i <? Z.of_nat (length l))
      then Ok (Unit, <[Z.to_nat i := x]> l)
      else Err (Throw "Attempted to retrieve non-existant element.")
  | Size => Ok (Num (Z.of_nat (length l)), l)
  | Empty => Ok (Flag (bool_decide (l = [])), l)
  | Full => Ok (Flag (Z.of_nat (length l) =? cap), l)
  | Clear => Ok (Unit, [])
  | Copy => Ok (Unit, l)
  | Contains eqb x =>
      Ok (Flag (if Z.of_nat (length l) =? cap then false
                else existsb (fun y => eqb y x) (rev l)), l)
  end.

Definition run_calls {D} (step : D -> call -> result (answer * D)) :=
  fix go (d : D) (cs : list call) : result (list answer * D) :=
    match cs with
    | [] => Ok ([], d)
    | c :: cs' => r ← step d c; r' ← go r.2 cs'; Ok (r.1 :: r'.1, r'.2)
    end.

Lemma exec_refines d c :
  wf d ->
  match spec d.(length_) (abs d) c with
  | Ok (a, l') => exists d', exec d c = Ok (a, d') /\ wf d' /\ abs d' = l'
                             /\ d'.(length_) = d.(length_)
  | Err e => exec d c = Err e
  end.
Proof.
  intros W. pose proof (length_abs d W) as Hl.
  destruct c; cbn [spec exec]; rewrite ?Hl.
  - pose proof (push_front_spec d x W) as H. destruct (elems d <? length_ d).
    + destruct H as (d' & -> & ?). simpl. naive_solver.
    + by rewrite H.
  - pose proof (push_back_spec d x W) as H. destruct (elems d <? length_ d).
    + destruct H as (d' & -> & ?). simpl. naive_solver.
    + by rewrite H.
  - pose proof (pop_front_spec d W) as H. destruct (abs d).
    + by rewrite H.
    + destruct H as (d' & -> & ?). simpl. naive_solver.
  - pose proof (pop_back_spec d W) as H. destruct (list.last (abs d)).
    + destruct H as (d' & -> & ?). simpl. naive_solver.
    + by rewrite H.
  - rewrite front_spec by done. destruct (abs d) eqn:E; [done|]. simpl. naive_solver.
  - rewrite back_spec by done. destruct (list.last (abs d)); simpl; naive_solver.
  - rewrite get_at_spec by done.
    destruct (if 0 <=? i then abs d !! Z.to_nat i else None); simpl; naive_solver.
  - pose proof (set_front_spec d x W) as H. destruct (abs d).
    + by rewrite H.
    + destruct H as (d' & -> & ?). simpl. naive_solver.
  - pose proof (set_at_spec d i x W) as H.
    destruct ((0 <=? i) && (i <? elems d)).
    + destruct H as (d' & -> & ?). simpl. naive_solver.
    + by rewrite H.
  - rewrite size_spec, Hl by done. naive_solver.
  - rewrite empty_spec by done. naive_solver.
  - rewrite full_spec, Hl by done. naive_solver.
  - destruct (clear_spec d W) as [? ?]. naive_solver.
  - rewrite copy_spec by done. naive_solver.
  - rewrite contains_characterised by done. rewrite full_spec, Hl by done. simpl. naive_solver.
Qed.

Lemma run_calls_refines d cs :
  wf d ->
  match run_calls (spec d.(length_)) (abs d) cs with
  | Ok (ans, l') => exists d', run_calls exec d cs = Ok (ans, d') /\ wf d' /\ abs d' = l'
  | Err e => run_calls exec d cs = Err e
  end.
Proof.
  revert d. induction cs as [|c cs IH]; intros d W; simpl; [naive_solver|].
  pose proof (exec_refines d c W) as Hc.
  destruct (spec (length_ d) (abs d) c) as [[a l1]|e]; simpl; [|by rewrite Hc].
  destruct Hc as (d1 & -> & W1 & <- & Hlen). simpl. specialize (IH d1 W1).
  rewrite Hlen in IH. destruct (run_calls (spec (length_ d)) (abs d1) cs) as [[ans l']|e]; simpl.
  - destruct IH as (d' & -> & ?). simpl. naive_solver.
  - by rewrite IH.
Qed.
End sequences.
Arguments call : clear implicits.
Arguments answer : clear implicits.

(** C25: a deque constructed with any positive [int] capacity answers every
    sequence of calls of all its public members exactly as a list of at most
    that capacity does: same results, same exceptions at the same call, and
    no access outside the array or to an indeterminate cell.  One answer is
    not that of a list: [contains] is membership only while the deque is not
    full, and [false] on a full deque whatever it holds; [spec] says so. *)
Theorem deque_refines_bounded_list {T} (n : Z) (cs : list (call T))
  (Hn : 0 < n < 2 ^ 31) :
  exists d0 : t T, make n = Ok d0 /\
  match run_calls (spec n) [] cs with
  | Ok (ans, l') => exists d', run_calls exec d0 cs = Ok (ans, d') /\ wf d' /\ abs d' = l'
  | Err e => run_calls exec d0 cs = Err e
  end.
Proof.
  destruct (make_spec (T := T) n Hn) as (d0 & Hmk & W & Ha & Hlen).
  exists d0. split; [done|]. rewrite <- Hlen, <- Ha. by apply run_calls_refines.
Qed.

Definition example_calls : list (call Z) :=
  [PushBack 5; Contains Z.eqb 5; PushBack 6; Contains Z.eqb 5; PopFront; PushBack 7; At 1].

Lemma deque_refines_bounded_list_witness :
  exists d0 : t Z, make 2 = Ok d0 /\
  match run_calls (spec 2) [] example_calls with
  | Ok (ans, l') => exists d',
      run_calls exec d0 example_calls = Ok (ans, d')
      /\ wf d' /\ abs d' = l'
  | Err e => run_calls exec d0 example_calls = Err e
  end.
Proof. apply (deque_refines_bounded_list 2). lia. Defined.

Lemma contains_characterised_witness :
  contains Z.eqb (mk [Some 4] 1 1 0 0) 4 = Ok false.
Proof.
  rewrite contains_characterised; [done|].
  split; cbn; try lia; [done|]. intros i Hi. replace i with 0 by lia. by eexists.
Defined.

End StaticDeque.
