(* ===== verification/STEvent.v ===== *)
(** * Events of a thread's trace
    (src/src/cpu/testers/synchrotrace/ST_Event.hh).

    The structs of the source as records, their constructors as definitions.
    A member that a constructor leaves unset is an [option] starting as
    [None]; reading it before it is set is [UB]. *)

From S2P Require Import Prelude.
From S2P Require Import StaticDeque.

Module STEvent.

Definition TYPE_COMPUTATION : Z := 0.
Definition TYPE_COMMUNICATION : Z := 1.
Definition TYPE_PTHREAD_API : Z := 2.

Definition P_MUTEX_LK : Z := 1.
Definition P_MUTEX_ULK : Z := 2.
Definition P_CREATE : Z := 3.
Definition P_JOIN : Z := 4.
Definition P_BARRIER_WT : Z := 5.
Definition P_COND_WT : Z := 6.
Definition P_COND_SG : Z := 7.
Definition P_SPIN_LK : Z := 8.
Definition P_SPIN_ULK : Z := 9.
Definition P_SEM_INIT : Z := 10.
Definition P_SEM_WAIT : Z := 11.
Definition P_SEM_POST : Z := 12.
Definition P_SEM_GETV : Z := 13.
Definition P_SEM_DEST : Z := 14.

Inductive dtReqType := DT_REQ_INVALID | DT_REQ_READ | DT_REQ_WRITE | DT_REQ_LAST.

(** One memory request of at most [MAX_REQUEST_SIZE] bytes; for a
    communication event, with the event that produces the data. *)
Record sharedInfo := mkSharedInfo {
  prodThreadID : Z;   (* unsigned int *)
  prodEventID : Z;    (* unsigned long *)
  addr : Z;           (* unsigned long *)
  numBytes : Z        (* unsigned int *)
}.

(** The constructor for requests without producer. *)
Definition sharedInfo_local (la nb : Z) : sharedInfo :=
  mkSharedInfo (u32 (-1)) (u64 (-1)) la nb.

Record subEvent := mkSubEvent {
  numIOPS : Z;
  numFLOPS : Z;
  numMEM_OPS : Z;
  msgType : option dtReqType;
  triggerTime : option Z;
  msgTriggered : bool;
  containsMsg : bool;
  thisMsg : option sharedInfo;
  initialTriggerTime : option Z
}.

#[global] Instance subEvent_eta : Settable subEvent := fun s =>
  mkSubEvent s.(numIOPS) s.(numFLOPS) s.(numMEM_OPS) s.(msgType) s.(triggerTime)
    s.(msgTriggered) s.(containsMsg) s.(thisMsg) s.(initialTriggerTime).

(** The two constructors of [subEvent]. *)
Definition subEvent_msg (i f mem : Z) (ty : dtReqType) (mt cm : bool)
  (se_ptr : sharedInfo) : subEvent :=
  mkSubEvent i f mem (Some ty) None mt cm (Some se_ptr) None.

Definition subEvent_plain (i f mem : Z) (mt cm : bool) : subEvent :=
  mkSubEvent i f mem None None mt cm None None.

Record threadStats := mkThreadStats {
  ts_ThreadID : Z;
  ts_numSubEvents : Z;
  ts_numIOPS : Z;
  ts_numFLOPS : Z;
  localWrites : Z;
  localReads : Z;
  sharedWrites : Z;
  sharedReads : Z;
  totalRTT : Z
}.

#[global] Instance threadStats_eta : Settable threadStats := fun s =>
  mkThreadStats s.(ts_ThreadID) s.(ts_numSubEvents) s.(ts_numIOPS) s.(ts_numFLOPS)
    s.(localWrites) s.(localReads) s.(sharedWrites) s.(sharedReads) s.(totalRTT).

Definition threadStats_init : threadStats := mkThreadStats (-1) 0 0 0 0 0 0 0 0.

Definition threadStats_clear (s : threadStats) : threadStats :=
  mkThreadStats s.(ts_ThreadID) 0 0 0 0 0 0 0 0.

Record ST_Event := mkST_Event {
  Type_ : Z;
  PthreadType : Z;
  EventID : Z;
  ThreadID : Z;
  comm_preRequisiteEvents : list sharedInfo;
  comp_writeEvents : list sharedInfo;
  comp_readEvents : list sharedInfo;
  compIOPS : Z;
  compFLOPS : Z;
  compMem_reads : Z;
  compMem_writes : Z;
  subEventsCreated : bool;
  pth_addr : option Z;
  subEventList : option (StaticDeque.t subEvent)   (* [None] is [NULL] *)
}.

#[global] Instance ST_Event_eta : Settable ST_Event := fun e =>
  mkST_Event e.(Type_) e.(PthreadType) e.(EventID) e.(ThreadID)
    e.(comm_preRequisiteEvents) e.(comp_writeEvents) e.(comp_readEvents)
    e.(compIOPS) e.(compFLOPS) e.(compMem_reads) e.(compMem_writes)
    e.(subEventsCreated) e.(pth_addr) e.(subEventList).

(** The constructor: the unsigned members are set to [-1]. *)
Definition ST_Event_init : ST_Event :=
  mkST_Event (-1) (-1) (u64 (-1)) (-1) [] [] []
    (u64 (-1)) (u64 (-1)) (u64 (-1)) (u64 (-1)) false None None.

(** Reads of an unset member and of a null pointer. *)
Definition read {A} (o : option A) : result A :=
  match o with Some a => Ok a | None => Err (UB "indeterminate value") end.

Definition deref {A} (o : option A) : result A :=
  match o with Some a => Ok a | None => Err (UB "null pointer") end.

#[global] Instance dtReqType_eq_dec : EqDecision dtReqType.
Proof. solve_decision. Defined.
#[global] Instance sharedInfo_eq_dec : EqDecision sharedInfo.
Proof. solve_decision. Defined.
#[global] Instance subEvent_eq_dec : EqDecision subEvent.
Proof. solve_decision. Defined.

Lemma read_Ok {A} (o : option A) a : read o = Ok a <-> o = Some a.
Proof. destruct o; naive_solver. Qed.

Lemma deref_Ok {A} (o : option A) a : deref o = Ok a <-> o = Some a.
Proof. destruct o; naive_solver. Qed.

End STEvent.
