(* ===== verification/CString.v ===== *)
(** * The C and C++ string functions the trace parser uses

    [std::string] is a list of characters, positions are [size_t] values
    ([Z] below 2^64) and [npos] is 2^64-1, so that the parser's arithmetic on
    positions wraps as it does in the code.  [strtoul], [strtol] and [atoi]
    follow the C standard: leading blanks, an optional sign, the base prefixes
    of base 0, saturation on overflow.  The last part relates them to decimal
    printing. *)

From S2P Require Import Prelude.
From Stdlib Require Import Ascii String.

Module CString.

Definition str : Type := list ascii.
Definition lit (s : string) : str := String.list_ascii_of_string s.

Definition npos : Z := 2 ^ 64 - 1.

Definition size (s : str) : Z := Z.of_nat (List.length s).

(** [s.find(c, pos)]. *)
Fixpoint find_from (c : ascii) (s : str) (at_ : Z) : Z :=
  match s with
  | [] => npos
  | x :: s' => if Ascii.eqb x c then at_ else find_from c s' (at_ + 1)
  end.

Definition find (s : str) (c : ascii) (pos : Z) : Z :=
  if size s <? pos then npos
  else find_from c (drop (Z.to_nat pos) s) pos.

(** [s.rfind(c)]: the last occurrence. *)
Definition rfind (s : str) (c : ascii) : Z :=
  let r := find_from c (rev s) 0 in
  if r =? npos then npos else size s - 1 - r.

(** [s.substr(pos, n)]. *)
Definition substr (s : str) (pos n : Z) : result str :=
  if size s <? pos then Err (Throw "basic_string::substr")
  else Ok (take (Z.to_nat (n `min` size s)) (drop (Z.to_nat pos) s)).

(** [std::count(s.begin(), s.end(), c)]. *)
Definition count (s : str) (c : ascii) : Z :=
  Z.of_nat (List.length (List.filter (fun x => Ascii.eqb x c) s)).

(** ** Numbers *)
Definition code (c : ascii) : Z := Z.of_N (N_of_ascii c).

Definition isspace (c : ascii) : bool :=
  (code c =? 32) || ((9 <=? code c) && (code c <=? 13)).

(** The value of a digit of any base up to 36. *)
Definition digit_val (c : ascii) : option Z :=
  let n := code c in
  if (48 <=? n) && (n <=? 57) then Some (n - 48)
  else if (97 <=? n) && (n <=? 122) then Some (n - 87)
  else if (65 <=? n) && (n <=? 90) then Some (n - 55)
  else None.

Fixpoint skip_spaces (s : str) : str :=
  match s with
  | c :: s' => if isspace c then skip_spaces s' else s
  | [] => []
  end.

(** The digits of [base] at the head of [s], accumulated without bound. *)
Fixpoint read_digits (base acc : Z) (s : str) : Z :=
  match s with
  | c :: s' =>
      match digit_val c with
      | Some d => if d <? base then read_digits base (acc * base + d) s' else acc
      | None => acc
      end
  | [] => acc
  end.

Definition read_sign (s : str) : bool * str :=
  match s with
  | c :: s' => if Ascii.eqb c "-" then (true, s')
               else if Ascii.eqb c "+" then (false, s') else (false, s)
  | [] => (false, [])
  end.

(** Base 0: [0x] is hexadecimal, a leading [0] octal, anything else decimal. *)
Definition detect_base (s : str) : Z * str :=
  match s with
  | c :: s' =>
      if Ascii.eqb c "0" then
        match s' with
        | x :: s'' =>
            if Ascii.eqb x "x" || Ascii.eqb x "X" then (16, s'') else (8, s)
        | [] => (8, s)
        end
      else (10, s)
  | [] => (10, s)
  end.

(** Sign and unbounded magnitude of the number at the head of [s]. *)
Definition scan (base0 : bool) (s : str) : bool * Z :=
  let '(neg, s1) := read_sign (skip_spaces s) in
  let '(base, s2) := if base0 then detect_base s1 else (10, s1) in
  (neg, read_digits base 0 s2).

Definition ULONG_MAX : Z := 2 ^ 64 - 1.
Definition LONG_MAX : Z := 2 ^ 63 - 1.
Definition LONG_MIN : Z := - 2 ^ 63.

(** [strtoul(s, NULL, 0)]. *)
Definition strtoul (s : str) : Z :=
  let '(neg, v) := scan true s in
  if ULONG_MAX <? v then ULONG_MAX else if (neg : bool) then u64 (- v) else v.

Definition to_long (neg : bool) (v : Z) : Z :=
  if neg then Z.max LONG_MIN (- v) else Z.min LONG_MAX v.

(** [strtol(s, NULL, 0)] and [atoi(s)], which is [(int) strtol(s, NULL, 10)]. *)
Definition strtol (s : str) : Z := let '(neg, v) := scan true s in to_long neg v.
Definition atoi (s : str) : Z := let '(neg, v) := scan false s in i32 (to_long neg v).

(** ** Decimal printing ([%lu]), the format the traces are written in *)
Definition digit_char (d : Z) : ascii := ascii_of_N (Z.to_N (48 + d)).

Fixpoint dec_digits (fuel : nat) (n : Z) : str :=
  match fuel with
  | O => []
  | S f => if n <? 10 then [digit_char n]
           else dec_digits f (n / 10) ++ [digit_char (n mod 10)]
  end.

(** 20 digits hold every 64-bit value. *)
Definition print_dec (n : Z) : str := dec_digits 20 n.

Example strtoul_ex : strtoul (lit " 0x1f ") = 31. Proof. reflexivity. Qed.
Example atoi_ex : atoi (lit "-12,3") = -12. Proof. reflexivity. Qed.
Example print_ex : print_dec 67117104 = lit "67117104". Proof. reflexivity. Qed.

(** ** Searching and cutting *)
Lemma size_app s1 s2 : size (s1 ++ s2) = size s1 + size s2.
Proof. unfold size. rewrite length_app. lia. Qed.

Lemma size_cons c s : size (c :: s) = 1 + size s.
Proof. unfold size. simpl. lia. Qed.

Lemma size_nonneg s : 0 <= size s.
Proof. unfold size. lia. Qed.

Lemma find_from_absent c s k : c ∉ s -> find_from c s k = npos.
Proof.
  revert k. induction s as [|x s IH]; intros k Hc; simpl; [done|].
  destruct (Ascii.eqb_spec x c) as [->|]; [set_solver|]. apply IH. set_solver.
Qed.

Lemma find_from_first c a b k :
  c ∉ a -> find_from c (a ++ c :: b) k = k + size a.
Proof.
  revert k. induction a as [|x a IH]; intros k Hc; simpl.
  - rewrite Ascii.eqb_refl. unfold size. simpl. lia.
  - destruct (Ascii.eqb_spec x c) as [->|]; [set_solver|].
    rewrite IH by set_solver. rewrite size_cons. lia.
Qed.

Lemma drop_size p s : drop (Z.to_nat (size p)) (p ++ s) = s.
Proof. unfold size. rewrite Nat2Z.id. apply drop_app_length. Qed.

Lemma find_first p a b c :
  c ∉ a -> find (p ++ a ++ c :: b) c (size p) = size p + size a.
Proof.
  intros Hc. unfold find. rewrite size_app, drop_size.
  pose proof (size_nonneg (a ++ c :: b)). destruct (_ <? _) eqn:E; bool_to_Z; [lia|].
  by apply find_from_first.
Qed.

Lemma find_absent p a c : c ∉ a -> find (p ++ a) c (size p) = npos.
Proof.
  intros Hc. unfold find. rewrite drop_size. destruct (_ <? _); [done|].
  by apply find_from_absent.
Qed.

Lemma find_absent_0 a c : c ∉ a -> find a c 0 = npos.
Proof. apply (find_absent []). Qed.

Lemma find_first_0 a b c : c ∉ a -> find (a ++ c :: b) c 0 = size a.
Proof. exact (find_first [] a b c). Qed.

Lemma substr_mid p a b n :
  n = size a -> substr (p ++ a ++ b) (size p) n = Ok a.
Proof.
  intros ->. unfold substr. rewrite !size_app, drop_size.
  pose proof (size_nonneg a). pose proof (size_nonneg b). pose proof (size_nonneg p).
  destruct (_ <? _) eqn:E; bool_to_Z; [lia|]. f_equal.
  rewrite Z.min_l by lia. unfold size. rewrite Nat2Z.id. apply take_app_length.
Qed.

Lemma substr_last p a n : size a <= n -> substr (p ++ a) (size p) n = Ok a.
Proof.
  intros Hn. unfold substr. rewrite size_app, drop_size.
  pose proof (size_nonneg a). pose proof (size_nonneg p).
  destruct (_ <? _) eqn:E; bool_to_Z; [lia|]. f_equal.
  apply take_ge. unfold size in *. lia.
Qed.

Lemma substr_prefix a b n : n = size a -> substr (a ++ b) 0 n = Ok a.
Proof. apply (substr_mid []). Qed.

(** ** Reading a printed number back *)

(** Characters that end a number. *)
Definition ends_number (s : str) : Prop :=
  match s with [] => True | c :: _ => digit_val c = None end.

Definition is_digit (c : ascii) : Prop := exists d, 0 <= d <= 9 /\ c = digit_char d.

Lemma digit_cases d : 0 <= d <= 9 ->
  d = 0 \/ d = 1 \/ d = 2 \/ d = 3 \/ d = 4 \/ d = 5 \/ d = 6 \/ d = 7 \/ d = 8 \/ d = 9.
Proof. lia. Qed.

Lemma digit_val_char d : 0 <= d <= 9 -> digit_val (digit_char d) = Some d.
Proof. intros H%digit_cases. by repeat destruct H as [->|H]; try subst d. Qed.

Lemma digit_not_blank d :
  0 <= d <= 9 -> isspace (digit_char d) = false /\
    Ascii.eqb (digit_char d) "-" = false /\ Ascii.eqb (digit_char d) "+" = false.
Proof. intros H%digit_cases. by repeat destruct H as [->|H]; try subst d. Qed.

Lemma digit_not_zero d : 1 <= d <= 9 -> Ascii.eqb (digit_char d) "0" = false.
Proof.
  intros H. destruct (digit_cases d ltac:(lia)) as [->|H']; [lia|].
  by repeat destruct H' as [->|H']; try subst d.
Qed.

Lemma dec_digits_Forall f n : 0 <= n -> Forall is_digit (dec_digits f n).
Proof.
  revert n. induction f as [|f IH]; intros n Hn; simpl; [done|].
  destruct (n <? 10) eqn:E; bool_to_Z.
  - apply Forall_singleton. exists n. split; [lia|done].
  - apply Forall_app. split; [apply IH; by apply Z.div_pos|].
    apply Forall_singleton. exists (n mod 10). split; [|done].
    pose proof (Z.mod_pos_bound n 10). lia.
Qed.

Lemma not_in_print c n : 0 <= n -> digit_val c = None -> c ∉ print_dec n.
Proof.
  intros Hn Hc Hin. pose proof (dec_digits_Forall 20 n Hn) as Hf.
  rewrite Forall_forall in Hf. destruct (Hf c Hin) as (d & Hd & ->).
  by rewrite digit_val_char in Hc.
Qed.

Lemma read_dec_digits f n acc rest :
  0 <= n < 10 ^ Z.of_nat f ->
  read_digits 10 acc (dec_digits f n ++ rest) =
    read_digits 10 (acc * 10 ^ size (dec_digits f n) + n) rest.
Proof.
  revert n acc rest. induction f as [|f IH]; intros n acc rest Hn.
  { change (10 ^ Z.of_nat 0) with 1 in Hn. cbn [dec_digits app].
    change (10 ^ size []) with 1. f_equal. lia. }
  cbn [dec_digits]. destruct (n <? 10) eqn:E; bool_to_Z.
  - cbn [app read_digits]. rewrite digit_val_char by lia.
    rewrite (proj2 (Z.ltb_lt n 10)) by lia. done.
  - rewrite <- app_assoc.
    pose proof (Z.mod_pos_bound n 10 ltac:(lia)) as Hm.
    pose proof (Z.div_mod n 10 ltac:(lia)) as Hd.
    assert (0 <= n / 10 < 10 ^ Z.of_nat f).
    { split; [apply Z.div_pos; lia|]. apply Z.div_lt_upper_bound; [lia|].
      rewrite Nat2Z.inj_succ, Z.pow_succ_r in Hn by lia. lia. }
    rewrite IH by done. cbn [app read_digits]. rewrite digit_val_char by lia.
    rewrite (proj2 (Z.ltb_lt _ 10)) by lia. f_equal. rewrite size_app.
    change (size [digit_char (n mod 10)]) with 1.
    rewrite Z.pow_add_r by (pose proof (size_nonneg (dec_digits f (n / 10))); lia).
    change (10 ^ 1) with 10. generalize (10 ^ size (dec_digits f (n / 10))). nia.
Qed.

Lemma read_digits_end base acc s : ends_number s -> read_digits base acc s = acc.
Proof. destruct s as [|c s]; simpl; [done|]. by intros ->. Qed.

Lemma dec_digits_head f n :
  0 < n < 10 ^ Z.of_nat f ->
  exists d s, 1 <= d <= 9 /\ dec_digits f n = digit_char d :: s.
Proof.
  revert n. induction f as [|f IH]; intros n Hn.
  { change (10 ^ Z.of_nat 0) with 1 in Hn. lia. }
  cbn [dec_digits]. destruct (n <? 10) eqn:E; bool_to_Z.
  - exists n, []. split; [lia|done].
  - destruct (IH (n / 10)) as (d & s & Hd & ->).
    { rewrite Nat2Z.inj_succ, Z.pow_succ_r in Hn by lia.
      split; [apply Z.div_str_pos; lia|]. apply Z.div_lt_upper_bound; lia. }
    by exists d, (s ++ [digit_char (n mod 10)]).
Qed.

Lemma scan_print base0 n rest :
  0 <= n < 2 ^ 64 -> ends_number rest -> scan base0 (print_dec n ++ rest) = (false, n).
Proof.
  intros Hn Hr. unfold scan, print_dec.
  destruct (decide (n = 0)) as [->|Hnz].
  - change (dec_digits 20 0) with [("0"%char : ascii)].
    destruct base0; simpl; destruct rest as [|c rest]; simpl in *; try done.
    + destruct (Ascii.eqb_spec c "x") as [->|]; [done|].
      destruct (Ascii.eqb_spec c "X") as [->|]; [done|]. simpl. by rewrite Hr.
    + by rewrite Hr.
  - assert (0 < n < 10 ^ Z.of_nat 20) as Hb by (change (10 ^ Z.of_nat 20) with 100000000000000000000; lia).
    destruct (dec_digits_head 20 n Hb) as (d & s & Hd & Hs).
    pose proof (digit_not_blank d ltac:(lia)) as (Hsp & Hneg & Hpos).
    pose proof (digit_not_zero d Hd) as Hz.
    pose proof (read_dec_digits 20 n 0 rest ltac:(lia)) as Hread.
    rewrite (read_digits_end _ _ rest) in Hread by done. rewrite Hs in *. simpl app in *.
    cbn [skip_spaces read_sign]. rewrite Hsp. cbn [read_sign]. rewrite Hneg, Hpos.
    destruct base0; cbn [detect_base]; rewrite ?Hz, Hread; f_equal; lia.
Qed.

Lemma strtoul_print n rest :
  0 <= n < 2 ^ 64 -> ends_number rest -> strtoul (print_dec n ++ rest) = n.
Proof.
  intros Hn Hr. unfold strtoul. rewrite scan_print by done.
  unfold ULONG_MAX. destruct (_ <? _) eqn:E; bool_to_Z; lia.
Qed.

Lemma strtol_print n rest :
  0 <= n < 2 ^ 63 -> ends_number rest -> strtol (print_dec n ++ rest) = n.
Proof.
  intros Hn Hr. unfold strtol. rewrite scan_print by (done || lia).
  unfold to_long, LONG_MAX. lia.
Qed.

Lemma atoi_print n rest :
  0 <= n < 2 ^ 31 -> ends_number rest -> atoi (print_dec n ++ rest) = n.
Proof.
  intros Hn Hr. unfold atoi. rewrite scan_print by (done || lia).
  unfold to_long, LONG_MAX. rewrite i32_small; unfold is_i32; lia.
Qed.
(** ** Ranges *)
Lemma digit_val_nonneg c d : digit_val c = Some d -> 0 <= d.
Proof. unfold digit_val. intros H. repeat case_match; bool_to_Z; simplify_eq; lia. Qed.

Lemma read_digits_nonneg base acc s : 0 <= base -> 0 <= acc -> 0 <= read_digits base acc s.
Proof.
  intros Hb. revert acc. induction s as [|c s IH]; intros acc Ha; cbn [read_digits]; [done|].
  destruct (digit_val c) as [d|] eqn:Hd; [|done]. apply digit_val_nonneg in Hd.
  case_match; [|done]. apply IH. nia.
Qed.

Lemma scan_nonneg base0 s neg v : scan base0 s = (neg, v) -> 0 <= v.
Proof.
  unfold scan. destruct (read_sign _) as [n s1].
  destruct (if base0 then detect_base s1 else (10, s1)) as [b s2] eqn:Hb.
  intros [= <- <-]. apply read_digits_nonneg; [|done].
  destruct base0; [|simplify_eq; lia]. unfold detect_base in Hb.
  repeat case_match; simplify_eq; lia.
Qed.

Lemma strtoul_range s : is_u64 (strtoul s).
Proof.
  unfold strtoul. destruct (scan true s) as [neg v] eqn:Hs. apply scan_nonneg in Hs.
  unfold ULONG_MAX. repeat case_match; bool_to_Z; [done|apply u64_range|].
  unfold is_u64. lia.
Qed.

Lemma strtoul_nonneg s : 0 <= strtoul s.
Proof. apply strtoul_range. Qed.

End CString.
