(* ===== verification/Requests.v ===== *)
(** * Splitting a byte range into memory requests
    (the inner loops of [processCommEvent], [processCompWriteEvent] and
    [processCompReadEvent] in src/src/cpu/testers/synchrotrace/SynchroTrace.cc,
    lines 820-849, 973-1002 and 1038-1067, which are the same code).

    A trace names the virtual byte range of an access.  The loop maps it into
    the simulated memory and cuts it into requests of at most 8 bytes that
    stay inside one cache line. *)

From S2P Require Import Prelude.
From S2P Require Import StaticDeque.
From S2P Require Import STEvent.
Import STEvent.

Module Requests.

(** The static members of [RubySystem] that the code reads, and
    [m_num_cache_lines]. *)
Record RubyCfg := mkRubyCfg {
  block_size_bytes : Z;     (* int *)
  block_size_bits : Z;      (* int *)
  memory_size_bytes : Z;    (* uint64 *)
  memory_size_bits : Z;     (* int *)
  m_num_cache_lines : Z     (* uint64 *)
}.

Definition MAX_REQUEST_SIZE : Z := 8.

(** Unsigned division and remainder: a zero divisor is undefined. *)
Definition udiv (a b : Z) : result Z :=
  if b =? 0 then Err (UB "division by zero") else Ok (a / b).
Definition umod (a b : Z) : result Z :=
  if b =? 0 then Err (UB "division by zero") else Ok (a mod b).

(** Where the range starts in the simulated memory. *)
Definition start_address (cfg : RubyCfg) (this_mem_start_range : Z) : result Z :=
  q ← udiv this_mem_start_range cfg.(block_size_bytes);
  lineStart ← umod q cfg.(m_num_cache_lines);
  startOffset ← umod this_mem_start_range cfg.(block_size_bytes);
  Ok (Z.lor (u64 (Z.shiftl lineStart cfg.(block_size_bits))) startOffset).

(** The [do ... while (numBytes > 0)] loop.  It subtracts at least one byte
    per round, so [numBytes] rounds are enough ([split_loop_spec]). *)
Fixpoint split_loop (fuel : nat) (cfg : RubyCfg) (prodThread prodEvent : Z)
  (curAdd numBytes prev_req_size : Z) : result (list sharedInfo) :=
  match fuel with
  | O => Err (UB "non-terminating loop")
  | S fuel' =>
      let this_req_size :=
        if MAX_REQUEST_SIZE <=? numBytes then MAX_REQUEST_SIZE else numBytes in
      curAdd' ← umod (u64 (curAdd + prev_req_size)) cfg.(memory_size_bytes);
      off ← umod curAdd' cfg.(block_size_bytes);
      let residual :=
        i32 (u64 (this_req_size - i32 (cfg.(block_size_bytes) - i32 off))) in
      let size := if 0 <? residual then u64 (this_req_size - residual)
                  else this_req_size in
      let thisLine := mkSharedInfo prodThread prodEvent curAdd' (u32 size) in
      let numBytes' := u64 (numBytes - size) in
      if 0 <? numBytes' then
        rest ← split_loop fuel' cfg prodThread prodEvent curAdd' numBytes' size;
        Ok (thisLine :: rest)
      else Ok [thisLine]
  end.

(** The requests of the byte range from [this_mem_start_range] to
    [this_mem_end_range], both included. *)
Definition split_range (cfg : RubyCfg) (prodThread prodEvent : Z)
  (this_mem_start_range this_mem_end_range : Z) : result (list sharedInfo) :=
  let numBytes := u64 (this_mem_end_range - this_mem_start_range + 1) in
  curAdd ← start_address cfg this_mem_start_range;
  split_loop (S (Z.to_nat numBytes)) cfg prodThread prodEvent curAdd numBytes 0.

(** ** What the configuration guarantees

    The constructor of [RubySystem] asserts that the block size is a power of
    two, [SynchroTrace::init] panics unless a block holds a request; memory
    sizes are whole numbers of blocks. *)
Record cfg_ok (cfg : RubyCfg) : Prop := {
  cfg_bits : 3 <= cfg.(block_size_bits) < 31;
  cfg_block : cfg.(block_size_bytes) = 2 ^ cfg.(block_size_bits);
  cfg_lines : 0 < cfg.(m_num_cache_lines);
  cfg_memory : cfg.(memory_size_bytes)
                 = cfg.(m_num_cache_lines) * cfg.(block_size_bytes);
  cfg_memory_max : cfg.(memory_size_bytes) <= 2 ^ 63
}.

(** The bytes a request touches. *)
Definition bytes (r : sharedInfo) : list Z :=
  (fun i => r.(addr) + i) <$> upto r.(numBytes).

Definition in_line (cfg : RubyCfg) (r : sharedInfo) : Prop :=
  1 <= r.(numBytes) <= MAX_REQUEST_SIZE /\
  0 <= r.(addr) < cfg.(memory_size_bytes) /\
  r.(addr) mod cfg.(block_size_bytes) + r.(numBytes) <= cfg.(block_size_bytes).

Definition example_cfg : RubyCfg := mkRubyCfg 64 6 (2 ^ 30) 30 (2 ^ 24).

Example split_ex :
  split_range example_cfg 0 0 60 75 =
    Ok [mkSharedInfo 0 0 60 4; mkSharedInfo 0 0 64 8; mkSharedInfo 0 0 72 4].
Proof. vm_compute. reflexivity. Qed.

Lemma example_cfg_ok : cfg_ok example_cfg.
Proof. split; vm_compute; try done; split; done. Qed.

Section correctness.
Context (cfg : RubyCfg) (OK : cfg_ok cfg).
Abbreviation bs := (cfg.(block_size_bytes)).
Abbreviation mem := (cfg.(memory_size_bytes)).

Lemma block_range : 8 <= bs < 2 ^ 31.
Proof.
  destruct OK as [Hb -> _ _ _]. split.
  - change 8 with (2 ^ 3). apply Z.pow_le_mono_r; lia.
  - apply Z.pow_lt_mono_r; lia.
Qed.

Lemma memory_range : 8 <= mem <= 2 ^ 63.
Proof. pose proof block_range. destruct OK as [_ _ ? ? ?]. nia. Qed.

Lemma start_address_spec start :
  0 <= start -> start_address cfg start = Ok (start mod mem).
Proof.
  intros Hs. pose proof block_range as Hb. pose proof memory_range as Hm.
  pose proof (cfg_lines cfg OK) as Hl. pose proof (cfg_memory cfg OK) as Hmem.
  pose proof (cfg_bits cfg OK) as Hbits.
  unfold start_address, udiv, umod.
  rewrite (proj2 (Z.eqb_neq bs 0)) by lia. simpl.
  rewrite (proj2 (Z.eqb_neq (m_num_cache_lines cfg) 0)) by lia. simpl. f_equal.
  set (L := start / bs mod m_num_cache_lines cfg).
  assert (0 <= L < m_num_cache_lines cfg) as HL by (apply Z.mod_pos_bound; lia).
  assert (0 <= start mod bs < bs) as Ho by (apply Z.mod_pos_bound; lia).
  rewrite Z.shiftl_mul_pow2 by lia. rewrite <- (cfg_block cfg OK).
  rewrite u64_small by (unfold is_u64; nia). rewrite (cfg_block cfg OK) in *.
  rewrite lor_shifted_low by lia. rewrite Hmem. symmetry.
  unfold L. rewrite (cfg_block cfg OK). apply mod_mul_split; lia.
Qed.

(** One round: the size it takes, computed at machine width, is the smaller of
    the request and what is left of the line. *)
Lemma round_size req off :
  0 < req <= 8 -> 0 <= off < bs ->
  (let residual := i32 (u64 (req - i32 (bs - i32 off))) in
   if 0 <? residual then u64 (req - residual) else req) = Z.min req (bs - off).
Proof.
  intros Hr Ho. pose proof block_range as Hb. cbv zeta.
  rewrite (i32_small off) by (unfold is_i32; lia).
  rewrite (i32_small (bs - off)) by (unfold is_i32; lia).
  assert (i32 (u64 (req - (bs - off))) = req - (bs - off)) as ->.
  { rewrite i32_u64. apply i32_small. unfold is_i32. lia. }
  destruct (0 <? req - (bs - off)) eqn:E; bool_to_Z; [|lia].
  rewrite u64_small by (unfold is_u64; lia). lia.
Qed.

(** The loop, entered with [n] bytes to go at [cur + prev]. *)
Lemma split_loop_spec fuel pt pe cur prev n :
  0 <= cur < mem -> 0 <= prev <= 8 -> 0 < n < 2 ^ 64 -> (Z.to_nat n <= fuel)%nat ->
  exists rs, split_loop fuel cfg pt pe cur n prev = Ok rs
    /\ Forall (in_line cfg) rs
    /\ Forall (fun r => prodThreadID r = pt /\ prodEventID r = pe) rs
    /\ rs ≫= bytes = (fun i => (cur + prev + i) mod mem) <$> upto n.
Proof.
  revert cur prev n. induction fuel as [|fuel IH]; intros cur prev n Hc Hp Hn Hf; [lia|].
  pose proof block_range as Hb. pose proof memory_range as Hm.
  pose proof (cfg_lines cfg OK) as Hl. pose proof (cfg_memory cfg OK) as Hmem.
  cbn [split_loop]. unfold umod. rewrite (proj2 (Z.eqb_neq mem 0)) by lia.
  rewrite (proj2 (Z.eqb_neq bs 0)) by lia. rewrite !bind_Ok_run.
  rewrite (u64_small (cur + prev)) by (unfold is_u64; lia).
  set (cur' := (cur + prev) mod mem).
  set (req := if MAX_REQUEST_SIZE <=? n then MAX_REQUEST_SIZE else n).
  assert (0 < req <= 8 /\ req <= n) as [Hreq Hrn].
  { unfold req, MAX_REQUEST_SIZE. destruct (8 <=? n) eqn:E; bool_to_Z; lia. }
  assert (0 <= cur' < mem) as Hcur by (apply Z.mod_pos_bound; lia).
  assert (0 <= cur' mod bs < bs) as Hoff by (apply Z.mod_pos_bound; lia).
  rewrite round_size by done.
  set (sz := Z.min req (bs - cur' mod bs)).
  assert (1 <= sz <= 8 /\ sz <= n) as [Hsz Hszn] by (unfold sz; lia).
  rewrite (u64_small (n - sz)) by (unfold is_u64; lia).
  rewrite (u32_small sz) by (unfold is_u32; lia).
  set (r := mkSharedInfo pt pe cur' sz).
  assert (in_line cfg r) as Hin.
  { unfold in_line, r, MAX_REQUEST_SIZE; cbn. unfold sz. lia. }
  assert (cur' + sz <= mem) as Hend.
  { pose proof (Z.div_mod cur' bs ltac:(lia)).
    assert (cur' / bs < m_num_cache_lines cfg) by (apply Z.div_lt_upper_bound; lia).
    unfold sz. nia. }
  assert (bytes r = (fun i => (cur + prev + i) mod mem) <$> upto sz) as Hby.
  { unfold bytes; cbn. apply fmap_upto_ext. intros i Hi.
    rewrite <- Zplus_mod_idemp_l. fold cur'. rewrite Z.mod_small; lia. }
  destruct (0 <? n - sz) eqn:E; bool_to_Z.
  - destruct (IH cur' sz (n - sz)) as (rs & -> & Hfa & Hpr & Hbs); try lia.
    exists (r :: rs). split; [done|]. split; [by constructor|].
    split; [by constructor|]. rewrite bind_cons, Hby, Hbs.
    replace n with (sz + (n - sz)) at 2 by lia. rewrite upto_app by lia. f_equal.
    apply fmap_upto_ext. intros i Hi. unfold cur'.
    by rewrite <- Z.add_assoc, Zplus_mod_idemp_l.
  - exists [r]. split; [done|]. split; [by apply Forall_singleton|].
    split; [by apply Forall_singleton|]. rewrite bind_cons, Hby, app_nil_r. f_equal.
    f_equal. lia.
Qed.

Lemma split_range_spec pt pe start last :
  0 <= start <= last -> last < 2 ^ 64 - 1 ->
  exists rs, split_range cfg pt pe start last = Ok rs
    /\ Forall (in_line cfg) rs
    /\ Forall (fun r => prodThreadID r = pt /\ prodEventID r = pe) rs
    /\ rs ≫= bytes = (fun i => (start + i) mod mem) <$> upto (last - start + 1).
Proof.
  intros Hs He. pose proof memory_range as Hm. unfold split_range.
  rewrite start_address_spec by lia. rewrite bind_Ok_run.
  rewrite u64_small by (unfold is_u64; lia).
  assert (0 <= start mod mem < mem) by (apply Z.mod_pos_bound; lia).
  destruct (split_loop_spec (S (Z.to_nat (last - start + 1))) pt pe
              (start mod mem) 0 (last - start + 1)) as (rs & -> & ? & ? & Hbs); try lia.
  exists rs. repeat split; try done. rewrite Hbs. apply fmap_upto_ext.
  intros i Hi. rewrite Z.add_0_r. by rewrite Zplus_mod_idemp_l.
Qed.

(** A range whose end precedes its start by one byte is one empty request. *)
Lemma split_loop_nothing fuel pt pe cur :
  0 <= cur < mem ->
  split_loop (S fuel) cfg pt pe cur 0 0 = Ok [mkSharedInfo pt pe cur 0].
Proof.
  intros Hc. pose proof block_range as Hb. pose proof memory_range as Hm.
  cbn [split_loop]. unfold umod. rewrite (proj2 (Z.eqb_neq mem 0)) by lia.
  rewrite (proj2 (Z.eqb_neq bs 0)) by lia. rewrite !bind_Ok_run.
  rewrite Z.add_0_r, (u64_small cur) by (unfold is_u64; lia).
  rewrite (Z.mod_small cur mem) by done. cbv zeta.
  change (if MAX_REQUEST_SIZE <=? 0 then MAX_REQUEST_SIZE else 0) with 0.
  assert (0 <= cur mod bs < bs) as Ho by (apply Z.mod_pos_bound; lia).
  rewrite (i32_small (cur mod bs)) by (unfold is_i32; lia).
  rewrite (i32_small (bs - _)) by (unfold is_i32; lia).
  rewrite i32_u64, i32_small by (unfold is_i32; lia).
  rewrite (proj2 (Z.ltb_ge 0 (0 - (bs - cur mod bs)))) by lia. done.
Qed.

(** Whatever the two ends of a range are, the loop ends; it makes one empty
    request when the end precedes the start by one byte (modulo the word),
    otherwise requests inside lines. *)
Lemma split_range_any pt pe start last :
  0 <= start ->
  exists rs, split_range cfg pt pe start last = Ok rs
    /\ Forall (fun r => prodThreadID r = pt /\ prodEventID r = pe /\
                 (in_line cfg r \/ numBytes r = 0 /\ 0 <= r.(addr) < mem)) rs.
Proof.
  intros Hs. pose proof memory_range as Hm. unfold split_range.
  rewrite start_address_spec by done. rewrite bind_Ok_run.
  assert (0 <= start mod mem < mem) by (apply Z.mod_pos_bound; lia).
  pose proof (u64_range (last - start + 1)) as Hn. unfold is_u64 in Hn.
  destruct (decide (u64 (last - start + 1) = 0)) as [->|Hne].
  - rewrite split_loop_nothing by done. eexists. split; [done|].
    apply Forall_singleton. cbn. auto.
  - destruct (split_loop_spec (S (Z.to_nat (u64 (last - start + 1)))) pt pe
      (start mod mem) 0 (u64 (last - start + 1))) as (rs & -> & Hin & Hp & _); try lia.
    exists rs. split; [done|]. rewrite Forall_forall in *. naive_solver.
Qed.
End correctness.

(** C24: for every configuration [init] accepts and every byte range of a
    trace that ends before address 2^64 - 1, the request loop terminates, every request has 1 to 8 bytes and
    stays inside one cache line of the simulated memory, and the bytes of the
    requests, in order, are exactly the bytes of the range, each once, reduced
    modulo the memory size. *)
Theorem split_range_covers (cfg : RubyCfg) (OK : cfg_ok cfg) (pt pe start last : Z)
  (Hs : 0 <= start <= last) (He : last < 2 ^ 64 - 1) :
  exists rs, split_range cfg pt pe start last = Ok rs
    /\ Forall (in_line cfg) rs
    /\ Forall (fun r => prodThreadID r = pt /\ prodEventID r = pe) rs
    /\ rs ≫= bytes =
         (fun i => (start + i) mod cfg.(memory_size_bytes)) <$> upto (last - start + 1).
Proof. by apply split_range_spec. Qed.

Lemma split_range_covers_witness :
  exists rs, split_range example_cfg 3 7 (2 ^ 30 - 3) (2 ^ 30 + 9) = Ok rs
    /\ Forall (in_line example_cfg) rs
    /\ Forall (fun r => prodThreadID r = 3 /\ prodEventID r = 7) rs
    /\ rs ≫= bytes = (fun i => (2 ^ 30 - 3 + i) mod 2 ^ 30) <$> upto 13.
Proof.
  apply (split_range_covers example_cfg example_cfg_ok 3 7 (2 ^ 30 - 3) (2 ^ 30 + 9)); lia.
Defined.
End Requests.
