(* ===== verification/TraceParser.v ===== *)
(** * Reading the Sigil event traces
    (the [process*Event] functions of
    src/src/cpu/testers/synchrotrace/SynchroTrace.cc, lines 744-1149).

    One definition per function.  A line of a thread's trace becomes an
    [ST_Event] appended to the queue of the thread it names; the lines of
    [sigil.pthread.out] fill the address-to-thread and barrier maps.  The
    second half states the trace format as printers and proves that the
    parser inverts them. *)

From S2P Require Import Prelude.
From S2P Require Import StaticDeque.
From S2P Require Import STEvent.
From S2P Require Import CString.
From S2P Require Import Requests.
Import STEvent CString Requests.
From Stdlib Require Import Ascii.

Module TraceParser.

Abbreviation EventMap := (list (StaticDeque.t ST_Event)).

Definition COMP_ENTRIES : nat := 6.
Definition COMM_ENTRIES : nat := 2.
Definition COMM_SHARED_INFO_ENTRIES : nat := 4.
Definition COMP_WRITE_ENTRIES : nat := 2.
Definition COMP_READ_ENTRIES : nat := 2.
Definition PTHREAD_ENTRIES : nat := 3.
Definition PTHREAD_TAG : str := lit "pth_ty".

(** [eventMap[newEvent->ThreadID]->push_back(newEvent)]. *)
Definition push_event (newEvent : ST_Event) : M EventMap unit :=
  em ← get;
  q ← lift (vget em newEvent.(ThreadID));
  q' ← lift (StaticDeque.push_back q newEvent);
  em' ← lift (vset em newEvent.(ThreadID) q');
  modify (fun _ => em').

(** The body of the entry loops: the text from [curPos + 1] to the next
    separator, and the separator's position. *)
Definition next_entry (s : str) (sep : ascii) (curPos : Z) : result (str * Z) :=
  let nextPos := find s sep (u64 (curPos + 1)) in
  thisEntry ← substr s (u64 (curPos + 1)) (u64 (nextPos - u64 (curPos + 1)));
  Ok (thisEntry, nextPos).

(** [n] rounds of an entry loop. *)
Fixpoint entries (n : nat) (s : str) (sep : ascii) (curPos : Z) : result (list str) :=
  match n with
  | O => Ok []
  | S n' =>
      r ← next_entry s sep curPos;
      l ← entries n' s sep r.2;
      Ok (r.1 :: l)
  end.

(** The [do ... while (cur != npos)] loops over the accesses of an event,
    which are separated by [#], [$] or [*].  Every round but the last finds a
    separator further right, so the length of the text bounds the rounds. *)
Fixpoint segments (fuel : nat) (s : str) (sep : ascii) (cur : Z)
  (body : str -> result (list sharedInfo)) : result (list sharedInfo) :=
  match fuel with
  | O => Err (UB "non-terminating loop")
  | S fuel' =>
      let next := find s sep (u64 (cur + 2)) in
      seg ← substr s (u64 (cur + 2)) (u64 (u64 (next - 1) - u64 (cur + 2)));
      rs ← body seg;
      if next =? npos then Ok rs
      else rest ← segments fuel' s sep next body; Ok (rs ++ rest)
  end.

(** One dependency of a communication event: producer thread and event, and
    the byte range. *)
Definition commDependency (cfg : RubyCfg) (thisDependencyInfo : str)
  : result (list sharedInfo) :=
  es ← entries COMM_SHARED_INFO_ENTRIES thisDependencyInfo " " (u64 (-1));
  match es with
  | [e0; e1; e2; e3] =>
      split_range cfg (u32 (atoi e0 - 1)) (strtoul e1) (strtoul e2) (strtoul e3)
  | _ => Err (AssertFail "processCommEvent")
  end.

Definition processCommEvent (cfg : RubyCfg) (thisEvent : str) (hashPos : Z)
  : M EventMap unit :=
  eventInfo ← lift (substr thisEvent 0 (u64 (hashPos - 1)));
  es ← lift (entries COMM_ENTRIES eventInfo "," (u64 (-1)));
  newEvent ← lift (match es with
    | [e0; e1] => Ok (ST_Event_init <| subEventList := None |>
                                    <| Type_ := TYPE_COMMUNICATION |>
                                    <| EventID := strtoul e0 |>
                                    <| ThreadID := i32 (atoi e1 - 1) |>)
    | _ => Err (AssertFail "processCommEvent")
    end);
  dependencyInfo ← lift (substr thisEvent (u64 (hashPos + 2)) npos);
  deps ← lift (segments (S (S (List.length dependencyInfo))) dependencyInfo "#"
                 (u64 (-2)) (commDependency cfg));
  push_event (newEvent <| comm_preRequisiteEvents := deps |>).

Definition processCompMainEvent (thisEvent : str) (newEvent : ST_Event)
  : result ST_Event :=
  let elementCount := count thisEvent "," in
  if elementCount <? Z.of_nat COMP_ENTRIES - 1
  then Err (Panic "Incorrect element count in computation event.")
  else
    es ← entries COMP_ENTRIES thisEvent "," (u64 (-1));
    match es with
    | [e0; e1; e2; e3; e4; e5] =>
        Ok (newEvent <| EventID := strtoul e0 |>
                     <| ThreadID := i32 (atoi e1 - 1) |>
                     <| compIOPS := strtoul e2 |>
                     <| compFLOPS := strtoul e3 |>
                     <| compMem_reads := strtoul e4 |>
                     <| compMem_writes := strtoul e5 |>)
    | _ => Err (AssertFail "processCompMainEvent")
    end.

(** One access of a computation event: a byte range, no producer. *)
Definition compAccess (cfg : RubyCfg) (n : nat) (thisDependencyInfo : str)
  : result (list sharedInfo) :=
  es ← entries n thisDependencyInfo " " (u64 (-1));
  match es with
  | [e0; e1] => split_range cfg 0 0 (strtoul e0) (strtoul e1)
  | _ => Err (AssertFail "processCompEvent")
  end.

Definition processCompWriteEvent (cfg : RubyCfg) (dependencyInfo : str)
  (newEvent : ST_Event) : result ST_Event :=
  rs ← segments (S (S (List.length dependencyInfo))) dependencyInfo "$" (u64 (-2))
         (compAccess cfg COMP_WRITE_ENTRIES);
  Ok (newEvent <| comp_writeEvents ::= fun l => l ++ rs |>).

Definition processCompReadEvent (cfg : RubyCfg) (dependencyInfo : str)
  (newEvent : ST_Event) : result ST_Event :=
  rs ← segments (S (S (List.length dependencyInfo))) dependencyInfo "*" (u64 (-2))
         (compAccess cfg COMP_READ_ENTRIES);
  Ok (newEvent <| comp_readEvents ::= fun l => l ++ rs |>).

Definition processCompEvent (cfg : RubyCfg) (thisEvent : str) : M EventMap unit :=
  let dollarPos := find thisEvent "$" 0 in
  let starPos := find thisEvent "*" 0 in
  let newEvent := ST_Event_init <| subEventList := None |>
                                <| Type_ := TYPE_COMPUTATION |> in
  let remainder_str := thisEvent in
  r1 ← lift (if starPos =? npos then Ok ([], remainder_str) else
         readEventInfo ← substr remainder_str (u64 (starPos + 2)) npos;
         rem ← substr remainder_str 0 (u64 (starPos - 1));
         Ok (readEventInfo, rem));
  let '(readEventInfo, remainder_str) := r1 in
  r2 ← lift (if dollarPos =? npos then Ok ([], remainder_str) else
         writeEventInfo ← substr remainder_str (u64 (dollarPos + 2)) npos;
         rem ← substr remainder_str 0 (u64 (dollarPos - 1));
         Ok (writeEventInfo, rem));
  let '(writeEventInfo, eventInfo) := r2 in
  e1 ← lift (processCompMainEvent eventInfo newEvent);
  e2 ← lift (if dollarPos =? npos then Ok e1
             else processCompWriteEvent cfg writeEventInfo e1);
  e3 ← lift (if starPos =? npos then Ok e2
             else processCompReadEvent cfg readEventInfo e2);
  push_event e3.

Definition processPthreadEvent (thisEvent : str) (caretPos : Z) : M EventMap unit :=
  eventInfo ← lift (substr thisEvent 0 (u64 (caretPos - 1)));
  r0 ← lift (next_entry eventInfo "," (u64 (-1)));
  r1 ← lift (next_entry eventInfo "," r0.2);
  r2 ← lift (next_entry eventInfo "," r1.2);
  let tmpStr := r2.1 in
  assert_ (r2.2 =? npos) "nextPos == string::npos" ;;
  let nextPos := find tmpStr ":" 0 in
  tag ← lift (substr tmpStr 0 nextPos);
  assert_ (bool_decide (tag = PTHREAD_TAG)) "tag == PTHREAD_TAG" ;;
  ty ← lift (substr tmpStr (u64 (nextPos + 1)) npos);
  pa ← lift (substr thisEvent (u64 (caretPos + 2)) npos);
  push_event (ST_Event_init <| subEventList := None |>
                            <| Type_ := TYPE_PTHREAD_API |>
                            <| EventID := strtoul r0.1 |>
                            <| ThreadID := i32 (u64 (strtoul r1.1 - 1)) |>
                            <| PthreadType := i32 (strtol ty) |>
                            <| pth_addr := Some (strtoul pa) |>).

(** The dispatch on the separators a line contains. *)
Definition processLine (cfg : RubyCfg) (thisEvent : str) : M EventMap unit :=
  let hashPos := find thisEvent "#" 0 in
  let caretPos := find thisEvent "^" 0 in
  if negb (hashPos =? npos) then processCommEvent cfg thisEvent hashPos
  else if negb (caretPos =? npos) then processPthreadEvent thisEvent caretPos
  else processCompEvent cfg thisEvent.

(** ** [sigil.pthread.out] *)
Record PthreadMaps := mkPthreadMaps {
  AddresstoIdMap : gmap Z Z;
  BarrierMap : gmap Z (gset Z);
  threadWaitMap : gmap Z (gset Z)
}.
#[global] Instance PthreadMaps_eta : Settable PthreadMaps := fun m =>
  mkPthreadMaps m.(AddresstoIdMap) m.(BarrierMap) m.(threadWaitMap).

Definition processAddressToID (line : str) (hashPos : Z) : M PthreadMaps unit :=
  thread_addr_line ← lift (substr line (u64 (hashPos + 1)) npos);
  let commaPos := find thread_addr_line "," 0 in
  threadAddressString ← lift (substr thread_addr_line 0 commaPos);
  threadIdString ← lift (substr thread_addr_line (u64 (commaPos + 1)) npos);
  let threadAddress := strtoul threadAddressString in
  let threadId := i32 (strtol threadIdString) in
  modify (fun m => m <| AddresstoIdMap ::= <[threadAddress := i32 (threadId - 1)]> |>).

(** The [while (commaPos != npos)] loop over the thread list of a barrier.
    [substr(oldcomma, commaPos)] passes the position as the length; the number
    is still the one before the comma, because [strtol] stops there. *)
Fixpoint barrier_ids (fuel : nat) (threadIdList : str) (oldcomma commaPos : Z)
  (threadIds : gset Z) : result (gset Z) :=
  if commaPos =? npos then Ok threadIds else
  match fuel with
  | O => Err (UB "non-terminating loop")
  | S fuel' =>
      s ← substr threadIdList oldcomma commaPos;
      let threadId := i32 (strtol s) in
      barrier_ids fuel' threadIdList (u64 (commaPos + 1))
        (find threadIdList "," (u64 (commaPos + 1)))
        ({[ i32 (threadId - 1) ]} ∪ threadIds)
  end.

Definition processBarrierEvent (line : str) (starPos : Z) : M PthreadMaps unit :=
  barrier_line ← lift (substr line (u64 (starPos + 1)) npos);
  let commaPos := find barrier_line "," 0 in
  barrierAddressString ← lift (substr barrier_line 0 commaPos);
  threadIdList ← lift (substr barrier_line (u64 (commaPos + 1)) npos);
  threadIds ← lift (barrier_ids (S (List.length threadIdList)) threadIdList 0
                      (find threadIdList "," 0) ∅);
  let barrierAddress := strtoul barrierAddressString in
  modify (fun m => m <| BarrierMap ::= <[barrierAddress := threadIds]> |>
                     <| threadWaitMap ::= <[barrierAddress := ∅]> |>).

(** [processPthreadFile] on the lines of the file. *)
Definition processPthreadFile (lines : list str) : M PthreadMaps unit :=
  for_each lines (fun pthreadFileLine =>
    let hashPos := rfind pthreadFileLine "#" in
    let starPos := rfind pthreadFileLine "*" in
    if negb (hashPos =? npos) then processAddressToID pthreadFileLine hashPos
    else processBarrierEvent pthreadFileLine starPos).

(** The sample trace of the repository
    (sample_sigil_traces/.../sigil.pthread.out). *)
Example pthread_file_ex :
  match processPthreadFile
    [lit "##80881984,2"; lit "##82983232,3"; lit "**67117104,1,2,3,"]
    (mkPthreadMaps ∅ ∅ ∅) with
  | Ok (_, m) => m.(AddresstoIdMap) !! 82983232 = Some 2
                 /\ m.(BarrierMap) !! 67117104 = Some {[0; 1; 2]}
                 /\ m.(threadWaitMap) !! 67117104 = Some ∅
  | Err _ => False
  end.
Proof. vm_compute. done. Qed.

Definition example_queues : EventMap :=
  let q := StaticDeque.mk (replicate 4 None) 4 0 0 0 in [q; q; q].

Example line_ex :
  match processLine example_cfg (lit "7,2,100,3,1,1 $ 60 67 * 8 9") example_queues with
  | Ok (_, em) =>
      match StaticDeque.abs <$> em !! 1%nat with
      | Some [e] => (e.(EventID), e.(ThreadID), e.(compIOPS), e.(compMem_writes),
                     e.(comp_writeEvents), e.(comp_readEvents)) =
                    (7, 1, 100, 1, [mkSharedInfo 0 0 60 4; mkSharedInfo 0 0 64 4],
                     [mkSharedInfo 0 0 8 2])
      | _ => False
      end
  | Err _ => False
  end.
Proof. vm_compute. done. Qed.

(** ** The trace format *)

(** Fields joined by one separator character. *)
Fixpoint join1 (sep : ascii) (es : list str) : str :=
  match es with
  | [] => []
  | [e] => e
  | e :: es' => e ++ sep :: join1 sep es'
  end.

(** Accesses joined by a separator with a blank on both sides. *)
Fixpoint join3 (sep : ascii) (es : list str) : str :=
  match es with
  | [] => []
  | [e] => e
  | e :: es' => e ++ " "%char :: sep :: " "%char :: join3 sep es'
  end.

(** A byte range, and one dependency of a communication event: producer
    thread and event, and the range. *)
Definition range : Type := Z * Z.
Definition dependency : Type := Z * Z * range.

Definition print_range (r : range) : str :=
  join1 " " [print_dec r.1; print_dec r.2].
Definition print_dependency (d : dependency) : str :=
  join1 " " [print_dec d.1.1; print_dec d.1.2; print_dec d.2.1; print_dec d.2.2].

Definition print_comm (id tid : Z) (deps : list dependency) : str :=
  join1 "," [print_dec id; print_dec tid]
    ++ " "%char :: "#"%char :: " "%char :: join3 "#" (print_dependency <$> deps).

Definition print_pthread (id tid ty pa : Z) : str :=
  join1 "," [print_dec id; print_dec tid; PTHREAD_TAG ++ ":"%char :: print_dec ty]
    ++ " "%char :: "^"%char :: " "%char :: print_dec pa.

(** The access list of a computation event is absent when it is empty. *)
Definition print_accesses (sep : ascii) (rs : list range) : str :=
  match rs with
  | [] => []
  | _ => " "%char :: sep :: " "%char :: join3 sep (print_range <$> rs)
  end.

Definition print_comp (id tid iops flops reads writes : Z) (ws rs : list range) : str :=
  join1 "," (print_dec <$> [id; tid; iops; flops; reads; writes])
    ++ print_accesses "$" ws ++ print_accesses "*" rs.

(** Values a trace can hold: 64-bit numbers, 1-based [int] thread numbers and
    byte ranges [start <= end] below the last address. *)
Definition ok_u64 (n : Z) : Prop := 0 <= n < 2 ^ 64.
Definition ok_tid (n : Z) : Prop := 1 <= n < 2 ^ 31.
Definition ok_range (r : range) : Prop := 0 <= r.1 <= r.2 /\ r.2 < 2 ^ 64 - 1.
Definition ok_dependency (d : dependency) : Prop :=
  ok_tid d.1.1 /\ ok_u64 d.1.2 /\ ok_range d.2.

(** ** The loops invert the joins *)
Lemma u64_pred_succ n k : 0 <= n < 2 ^ 64 -> u64 (u64 (n - k) + k) = n.
Proof.
  intros Hn. unfold u64. rewrite Zplus_mod_idemp_l.
  replace (n - k + k) with n by lia. by apply Z.mod_small.
Qed.

Lemma entries_S n s sep cur :
  entries (S n) s sep cur =
    (r ← next_entry s sep cur; l ← entries n s sep r.2; Ok (r.1 :: l)).
Proof. done. Qed.

Lemma entries_join es : forall pre sep,
  es <> [] -> Forall (fun e => sep ∉ e) es -> size (pre ++ join1 sep es) < 2 ^ 63 ->
  entries (List.length es) (pre ++ join1 sep es) sep (u64 (size pre - 1)) = Ok es.
Proof.
  induction es as [|e es IH]; intros pre sep Hne Hf Hsz; [done|].
  apply Forall_cons in Hf as [He Hf]. pose proof (size_nonneg pre) as Hp0.
  cbn [List.length]. rewrite entries_S. unfold next_entry.
  destruct es as [|e' es].
  - cbn [join1] in *. rewrite size_app in Hsz. pose proof (size_nonneg e).
    rewrite u64_pred_succ by lia. rewrite find_absent by done.
    rewrite substr_last; [done|]. rewrite u64_small; unfold is_u64, npos; lia.
  - cbn [join1] in *.
    set (rest := match es with [] => e' | _ :: _ => _ end) in *.
    rewrite !size_app, size_cons in Hsz.
    pose proof (size_nonneg e). pose proof (size_nonneg rest).
    rewrite u64_pred_succ by lia. rewrite find_first by done.
    rewrite substr_mid by (rewrite u64_small; unfold is_u64; lia).
    rewrite !bind_Ok_run. cbn [fst snd].
    specialize (IH (pre ++ e ++ [sep]) sep ltac:(done) Hf).
    rewrite !size_app, size_cons in IH. change (size []) with 0 in IH.
    rewrite <- !app_assoc in IH. cbn [app join1] in IH. fold rest in IH.
    replace (size pre + (size e + (1 + 0)) - 1) with (size pre + size e) in IH by lia.
    rewrite (u64_small (size pre + size e)) in IH by (unfold is_u64; lia).
    rewrite IH; [done|lia].
Qed.

Lemma segments_join segs : forall pre sep body fuel,
  segs <> [] -> sep <> " "%char -> Forall (fun e => sep ∉ e) segs ->
  size (pre ++ join3 sep segs) < 2 ^ 63 -> (List.length segs <= fuel)%nat ->
  segments fuel (pre ++ join3 sep segs) sep (u64 (size pre - 2)) body =
    (rss ← mapM body segs; Ok (concat rss)).
Proof.
  induction segs as [|e segs IH]; intros pre sep body fuel Hne Hsep Hf Hsz Hfuel; [done|].
  apply Forall_cons in Hf as [He Hf]. pose proof (size_nonneg pre) as Hp0.
  destruct fuel as [|fuel]; [simpl in Hfuel; lia|]. cbn [segments].
  destruct segs as [|e' segs].
  - cbn [join3] in *. rewrite size_app in Hsz. pose proof (size_nonneg e).
    rewrite u64_pred_succ by lia. rewrite find_absent by done.
    rewrite substr_last.
    2:{ rewrite (u64_small (npos - 1)) by (unfold is_u64, npos; lia).
        rewrite u64_small; unfold is_u64, npos; lia. }
    rewrite bind_Ok_run. cbn. destruct (body e); simpl; [|done].
    by rewrite app_nil_r.
  - cbn [join3] in *.
    set (rest := match segs with [] => e' | _ :: _ => _ end) in *.
    rewrite !size_app, !size_cons in Hsz.
    pose proof (size_nonneg e). pose proof (size_nonneg rest).
    rewrite u64_pred_succ by lia.
    assert (find (pre ++ e ++ " "%char :: sep :: " "%char :: rest) sep (size pre)
            = size pre + size e + 1) as Hfind.
    { pose proof (find_first pre (e ++ [" "%char]) (" "%char :: rest) sep) as H'.
      rewrite <- !app_assoc in H'. cbn [app] in H'. rewrite H' by set_solver.
      rewrite size_app. unfold size. simpl. lia. }
    rewrite Hfind.
    rewrite (u64_small (size pre + size e + 1 - 1)) by (unfold is_u64; lia).
    rewrite substr_mid by (rewrite u64_small; unfold is_u64; lia).
    rewrite bind_Ok_run. cbn [mapM].
    destruct (body e) as [rs|err]; [|done]. rewrite !bind_Ok_run.
    rewrite (proj2 (Z.eqb_neq _ npos)) by (unfold npos; lia).
    specialize (IH (pre ++ e ++ [" "%char; sep; " "%char]) sep body fuel ltac:(done) Hsep Hf).
    rewrite !size_app, !size_cons in IH. change (size []) with 0 in IH.
    rewrite <- !app_assoc in IH. cbn [app join3] in IH. fold rest in IH.
    replace (size pre + (size e + (1 + (1 + (1 + 0)))) - 2)
      with (size pre + size e + 1) in IH by lia.
    rewrite (u64_small (size pre + size e + 1)) in IH by (unfold is_u64; lia).
    rewrite IH by (simpl in *; lia). cbn [mapM].
    destruct (body e'); [|done]. rewrite !bind_Ok_run.
    destruct (mapM body segs); done.
Qed.

(** ** Absence of separators *)
Ltac no_char :=
  repeat first
    [ apply not_elem_of_app; split
    | apply not_elem_of_cons; split
    | apply not_elem_of_nil
    | apply not_in_print; [lia|reflexivity]
    | discriminate
    | assumption ].

Lemma not_in_join3 c sep segs :
  c <> " "%char -> c <> sep -> Forall (fun e => c ∉ e) segs -> c ∉ join3 sep segs.
Proof.
  intros Hs Hc. induction segs as [|e segs IH]; intros Hf; [no_char|].
  apply Forall_cons in Hf as [He Hf]. specialize (IH Hf).
  destruct segs; [done|]. cbn [join3] in *. no_char; done.
Qed.

Lemma not_in_dependencies c deps :
  Forall ok_dependency deps -> digit_val c = None -> c <> " "%char ->
  Forall (fun e => c ∉ e) (print_dependency <$> deps).
Proof.
  intros Hd Hc Hs. apply Forall_fmap. eapply Forall_impl; [exact Hd|].
  intros [[pt pe] [a b]] (Ht & He & Hr). unfold ok_tid, ok_u64, ok_range in *.
  cbn in *. unfold print_dependency; cbn [join1 fst snd].
  repeat first [apply not_elem_of_app; split | apply not_elem_of_cons; split
               | apply not_in_print; [lia|done] | done].
Qed.

Lemma not_in_ranges c rs :
  Forall ok_range rs -> digit_val c = None -> c <> " "%char ->
  Forall (fun e => c ∉ e) (print_range <$> rs).
Proof.
  intros Hd Hc Hs. apply Forall_fmap. eapply Forall_impl; [exact Hd|].
  intros [a b] Hr. unfold ok_range in *. cbn in *. unfold print_range; cbn [join1 fst snd].
  repeat first [apply not_elem_of_app; split | apply not_elem_of_cons; split
               | apply not_in_print; [lia|done] | done].
Qed.

Lemma not_in_accesses c sep rs :
  Forall ok_range rs -> digit_val c = None -> c <> " "%char -> c <> sep ->
  c ∉ print_accesses sep rs.
Proof.
  intros Hd Hc Hs Hsep. unfold print_accesses. destruct rs as [|r rs]; [no_char|].
  apply not_elem_of_cons; split; [done|]. apply not_elem_of_cons; split; [done|].
  apply not_elem_of_cons; split; [done|]. apply not_in_join3; try done.
  by apply not_in_ranges.
Qed.

(** ** One access *)
Lemma strtoul_exact n : 0 <= n < 2 ^ 64 -> strtoul (print_dec n) = n.
Proof. intros Hn. rewrite <- (app_nil_r (print_dec n)). by apply strtoul_print. Qed.
Lemma strtol_exact n : 0 <= n < 2 ^ 63 -> strtol (print_dec n) = n.
Proof. intros Hn. rewrite <- (app_nil_r (print_dec n)). by apply strtol_print. Qed.
Lemma atoi_exact n : 0 <= n < 2 ^ 31 -> atoi (print_dec n) = n.
Proof. intros Hn. rewrite <- (app_nil_r (print_dec n)). by apply atoi_print. Qed.

Lemma size_print_dec n : size (print_dec n) <= 20.
Proof.
  unfold print_dec. change 20 with (Z.of_nat 20). generalize 20%nat. intros f.
  revert n. induction f as [|f IH]; intros n; [done|]. cbn [dec_digits].
  destruct (n <? 10); [unfold size; simpl; lia|].
  rewrite size_app. change (size [digit_char (n mod 10)]) with 1.
  specialize (IH (n / 10)). lia.
Qed.

(** The fields of a short line, read back. *)
Lemma entries_exact es sep :
  es <> [] -> Forall (fun e => sep ∉ e) es -> size (join1 sep es) < 2 ^ 63 ->
  entries (List.length es) (join1 sep es) sep (u64 (-1)) = Ok es.
Proof. exact (entries_join es [] sep). Qed.

Lemma size_join1 sep es :
  Forall (fun e => size e <= 100) es -> size (join1 sep es) <= 101 * Z.of_nat (List.length es).
Proof.
  induction es as [|e es IH]; intros Hf; [done|]. apply Forall_cons in Hf as [He Hf].
  specialize (IH Hf). destruct es as [|e' es]; cbn [join1] in *.
  - simpl. lia.
  - rewrite size_app, size_cons. simpl List.length in *. lia.
Qed.

Ltac short_fields :=
  repeat (apply Forall_cons; split);
  try apply Forall_nil; try done;
  try (eapply Z.le_trans; [apply size_print_dec|lia]).

Lemma commDependency_print cfg d :
  ok_dependency d ->
  commDependency cfg (print_dependency d) =
    split_range cfg (d.1.1 - 1) d.1.2 d.2.1 d.2.2.
Proof.
  destruct d as [[pt pe] [a b]]. intros (Ht & He & Hr). unfold ok_tid, ok_u64, ok_range in *.
  cbn in Ht, He, Hr. unfold commDependency, print_dependency. cbn [fst snd].
  pose proof (entries_exact [print_dec pt; print_dec pe; print_dec a; print_dec b] " ") as Hes.
  cbn [List.length] in Hes. unfold COMM_SHARED_INFO_ENTRIES. rewrite Hes; clear Hes.
  - rewrite bind_Ok_run. rewrite atoi_exact, !strtoul_exact by lia.
    rewrite u32_small by (unfold is_u32; lia). done.
  - done.
  - repeat (apply Forall_cons; split); try apply Forall_nil; try done; no_char.
  - eapply Z.le_lt_trans; [apply size_join1; short_fields|simpl; lia].
Qed.

Lemma compAccess_print cfg r :
  ok_range r ->
  compAccess cfg 2 (print_range r) = split_range cfg 0 0 r.1 r.2.
Proof.
  destruct r as [a b]. intros Hr. unfold ok_range in Hr. cbn in Hr.
  unfold compAccess, print_range. cbn [fst snd].
  pose proof (entries_exact [print_dec a; print_dec b] " ") as Hes.
  cbn [List.length] in Hes. rewrite Hes; clear Hes.
  - rewrite bind_Ok_run. by rewrite !strtoul_exact by lia.
  - done.
  - repeat (apply Forall_cons; split); try apply Forall_nil; try done; no_char.
  - eapply Z.le_lt_trans; [apply size_join1; short_fields|simpl; lia].
Qed.

Lemma mapM_ext_print {A B} (f : str -> result B) (g : A -> result B) (pr : A -> str) l :
  Forall (fun a => f (pr a) = g a) l -> mapM f (pr <$> l) = mapM g l.
Proof.
  induction l as [|a l IH]; intros Hf; [done|]. apply Forall_cons in Hf as [Ha Hf].
  cbn [fmap list_fmap mapM]. by rewrite Ha, IH.
Qed.

Lemma length_join3 sep segs : (List.length segs <= S (List.length (join3 sep segs)))%nat.
Proof.
  induction segs as [|e segs IH]; [simpl; lia|].
  destruct segs as [|e' segs]; [simpl; lia|]. cbn [join3] in *.
  rewrite length_app. simpl List.length in *. lia.
Qed.

(** The access list of an event, read back. *)
Lemma segments_print {A} (f : str -> result (list sharedInfo))
  (g : A -> result (list sharedInfo)) (pr : A -> str) sep l :
  l <> [] -> sep <> " "%char -> Forall (fun e => sep ∉ e) (pr <$> l) ->
  Forall (fun a => f (pr a) = g a) l -> size (join3 sep (pr <$> l)) < 2 ^ 63 ->
  segments (S (S (List.length (join3 sep (pr <$> l))))) (join3 sep (pr <$> l)) sep
    (u64 (-2)) f = (rss ← mapM g l; Ok (concat rss)).
Proof.
  intros Hne Hsep Hno Hfg Hsz.
  pose proof (segments_join (pr <$> l) [] sep f
                (S (S (List.length (join3 sep (pr <$> l)))))) as H.
  cbn [app] in H. change (size [] - 2) with (-2) in H.
  rewrite H; try done.
  - by rewrite (mapM_ext_print f g pr l).
  - by destruct l.
  - pose proof (length_join3 sep (pr <$> l)). lia.
Qed.

(** ** Whole lines *)
Inductive trace_event :=
| TComm (id tid : Z) (deps : list dependency)
| TPthread (id tid ty pa : Z)
| TComp (id tid iops flops reads writes : Z) (ws rs : list range).

Definition print_event (t : trace_event) : str :=
  match t with
  | TComm id tid deps => print_comm id tid deps
  | TPthread id tid ty pa => print_pthread id tid ty pa
  | TComp id tid iops flops reads writes ws rs =>
      print_comp id tid iops flops reads writes ws rs
  end.

Definition ok_event (t : trace_event) : Prop :=
  match t with
  | TComm id tid deps =>
      ok_u64 id /\ ok_tid tid /\ deps <> [] /\ Forall ok_dependency deps
  | TPthread id tid ty pa => ok_u64 id /\ ok_tid tid /\ 0 <= ty < 2 ^ 31 /\ ok_u64 pa
  | TComp id tid iops flops reads writes ws rs =>
      ok_u64 id /\ ok_tid tid /\ ok_u64 iops /\ ok_u64 flops /\ ok_u64 reads
      /\ ok_u64 writes /\ Forall ok_range ws /\ Forall ok_range rs
  end.

Definition ranges_requests (cfg : RubyCfg) (rs : list range) : result (list sharedInfo) :=
  rss ← mapM (fun r => split_range cfg 0 0 r.1 r.2) rs; Ok (concat rss).

(** The event a line stands for. *)
Definition event_of (cfg : RubyCfg) (t : trace_event) : result ST_Event :=
  match t with
  | TComm id tid deps =>
      rss ← mapM (fun d => split_range cfg (d.1.1 - 1) d.1.2 d.2.1 d.2.2) deps;
      Ok (ST_Event_init <| Type_ := TYPE_COMMUNICATION |> <| EventID := id |>
            <| ThreadID := tid - 1 |> <| comm_preRequisiteEvents := concat rss |>)
  | TPthread id tid ty pa =>
      Ok (ST_Event_init <| Type_ := TYPE_PTHREAD_API |> <| EventID := id |>
            <| ThreadID := tid - 1 |> <| PthreadType := ty |> <| pth_addr := Some pa |>)
  | TComp id tid iops flops reads writes ws rs =>
      wr ← ranges_requests cfg ws;
      rr ← ranges_requests cfg rs;
      Ok (ST_Event_init <| Type_ := TYPE_COMPUTATION |> <| EventID := id |>
            <| ThreadID := tid - 1 |> <| compIOPS := iops |> <| compFLOPS := flops |>
            <| compMem_reads := reads |> <| compMem_writes := writes |>
            <| comp_writeEvents := wr |> <| comp_readEvents := rr |>)
  end.

Lemma processLine_comm cfg id tid deps em :
  ok_event (TComm id tid deps) -> size (print_comm id tid deps) < 2 ^ 63 ->
  processLine cfg (print_comm id tid deps) em =
    (e ← lift (event_of cfg (TComm id tid deps)); push_event e) em.
Proof.
  intros (Hid & Htid & Hne & Hdeps) Hsz. unfold ok_u64, ok_tid in Hid, Htid.
  set (head := join1 "," [print_dec id; print_dec tid]).
  set (body := join3 "#" (print_dependency <$> deps)).
  assert (print_comm id tid deps
          = (head ++ [" "%char]) ++ "#"%char :: " "%char :: body) as Hline.
  { unfold print_comm. fold head body. by rewrite <- app_assoc. }
  assert ("#"%char ∉ head ++ [" "%char]) as Hno.
  { unfold head; cbn [join1]. no_char. }
  pose proof (size_nonneg head) as Hh. pose proof (size_nonneg body) as Hb.
  rewrite Hline in *. rewrite !size_app, !size_cons in Hsz. change (size []) with 0 in Hsz.
  unfold processLine. rewrite find_first_0 by done.
  rewrite size_app. change (size [" "%char]) with 1.
  rewrite (proj2 (Z.eqb_neq _ npos)) by (unfold npos; lia). cbn [negb].
  unfold processCommEvent. rewrite lift_bind_run.
  rewrite (u64_small (size head + 1 - 1)) by (unfold is_u64; lia).
  rewrite <- !app_assoc. rewrite substr_prefix by lia.
  unfold COMM_ENTRIES. rewrite lift_bind_run.
  pose proof (entries_exact [print_dec id; print_dec tid] ",") as Hes.
  cbn [List.length] in Hes. fold head in Hes. rewrite Hes; clear Hes.
  2:{ done. }
  2:{ repeat (apply Forall_cons; split); try apply Forall_nil; try done; no_char. }
  2:{ eapply Z.le_lt_trans; [apply size_join1; short_fields|simpl; lia]. }
  rewrite !lift_bind_run. rewrite strtoul_exact by lia.
  rewrite atoi_exact, (i32_small (tid - 1)) by (unfold is_i32; lia).
  rewrite (u64_small (size head + 1 + 2)) by (unfold is_u64; lia).
  cbn [app].
  assert (head ++ " "%char :: "#"%char :: " "%char :: body
          = (head ++ [" "%char; "#"%char; " "%char]) ++ body) as ->
    by (by rewrite <- app_assoc).
  replace (size head + 1 + 2) with (size (head ++ [" "%char; "#"%char; " "%char]))
    by (rewrite size_app; unfold size; simpl; lia).
  rewrite substr_last by (unfold npos; lia).
  rewrite lift_bind_run. unfold body.
  rewrite (segments_print (commDependency cfg)
    (fun d => split_range cfg (d.1.1 - 1) d.1.2 d.2.1 d.2.2)); try done.
  - cbn [event_of].
    by destruct (mapM (fun d => split_range cfg (d.1.1 - 1) d.1.2 d.2.1 d.2.2) deps).
  - by apply not_in_dependencies.
  - eapply Forall_impl; [exact Hdeps|]. apply commDependency_print.
  - change (size body < 2 ^ 63). lia.
Qed.

Lemma next_entry_last pre e sep :
  sep ∉ e -> size (pre ++ e) < 2 ^ 63 ->
  next_entry (pre ++ e) sep (u64 (size pre - 1)) = Ok (e, npos).
Proof.
  intros He Hsz. rewrite size_app in Hsz.
  pose proof (size_nonneg pre). pose proof (size_nonneg e).
  unfold next_entry. rewrite u64_pred_succ by lia. rewrite find_absent by done.
  rewrite substr_last; [done|]. rewrite u64_small; unfold is_u64, npos; lia.
Qed.

Lemma next_entry_mid pre e rest sep :
  sep ∉ e -> size (pre ++ e ++ sep :: rest) < 2 ^ 63 ->
  next_entry (pre ++ e ++ sep :: rest) sep (u64 (size pre - 1))
    = Ok (e, u64 (size (pre ++ e ++ [sep]) - 1)).
Proof.
  intros He Hsz. rewrite !size_app, size_cons in Hsz.
  pose proof (size_nonneg pre). pose proof (size_nonneg e). pose proof (size_nonneg rest).
  unfold next_entry. rewrite u64_pred_succ by lia. rewrite find_first by done.
  rewrite substr_mid by (rewrite u64_small; unfold is_u64; lia).
  rewrite bind_Ok_run. rewrite !size_app, size_cons. change (size []) with 0.
  do 2 f_equal. rewrite u64_small by (unfold is_u64; lia). lia.
Qed.

Lemma processLine_pthread cfg id tid ty pa em :
  ok_event (TPthread id tid ty pa) ->
  processLine cfg (print_pthread id tid ty pa) em =
    (e ← lift (event_of cfg (TPthread id tid ty pa)); push_event e) em.
Proof.
  intros (Hid & Htid & Hty & Hpa). unfold ok_u64, ok_tid in *.
  set (p0 := print_dec id). set (p1 := print_dec tid).
  set (tyS := PTHREAD_TAG ++ ":"%char :: print_dec ty).
  set (head := p0 ++ ","%char :: p1 ++ ","%char :: tyS).
  assert (print_pthread id tid ty pa
          = (head ++ [" "%char]) ++ "^"%char :: " "%char :: print_dec pa) as Hline.
  { unfold print_pthread; cbn [join1]. fold p0 p1 tyS head. by rewrite <- app_assoc. }
  assert (size p0 <= 20 /\ size p1 <= 20 /\ size tyS <= 27 /\ size (print_dec pa) <= 20)
    as (Hs0 & Hs1 & Hs2 & Hs3).
  { unfold tyS. rewrite size_app, size_cons. change (size PTHREAD_TAG) with 6.
    pose proof (size_print_dec id). pose proof (size_print_dec tid).
    pose proof (size_print_dec ty). pose proof (size_print_dec pa).
    unfold p0, p1. lia. }
  pose proof (size_nonneg p0). pose proof (size_nonneg p1). pose proof (size_nonneg tyS).
  assert (size head = size p0 + 1 + size p1 + 1 + size tyS) as Hsh.
  { unfold head. rewrite !size_app, !size_cons, size_app, size_cons. lia. }
  rewrite Hline. unfold processLine.
  rewrite find_absent_0.
  2:{ unfold head, tyS, p0, p1, PTHREAD_TAG. cbn. no_char. }
  rewrite find_first_0 by (unfold head, tyS, p0, p1, PTHREAD_TAG; cbn; no_char).
  rewrite size_app. change (size [" "%char]) with 1.
  rewrite Z.eqb_refl. cbn [negb].
  rewrite (proj2 (Z.eqb_neq _ npos)) by (unfold npos; lia). cbn [negb].
  unfold processPthreadEvent. rewrite lift_bind_run.
  rewrite (u64_small (size head + 1 - 1)) by (unfold is_u64; lia).
  rewrite <- !app_assoc. rewrite substr_prefix by lia. cbn [app].
  rewrite lift_bind_run. unfold head at 1.
  pose proof (next_entry_mid [] p0 (p1 ++ ","%char :: tyS) ",") as N0. cbn [app] in N0.
  change (size [] - 1) with (-1) in N0. rewrite N0; clear N0.
  2:{ unfold p0. no_char. }
  2:{ fold head. lia. }
  cbn [fst snd]. rewrite lift_bind_run.
  pose proof (next_entry_mid (p0 ++ [","%char]) p1 tyS ",") as N1.
  rewrite <- !app_assoc in N1. cbn [app] in N1. fold head in N1. rewrite N1; clear N1.
  2:{ unfold p1. no_char. }
  2:{ lia. }
  cbn [fst snd]. rewrite lift_bind_run.
  pose proof (next_entry_last (p0 ++ ","%char :: p1 ++ [","%char]) tyS ",") as N2.
  rewrite <- !app_assoc in N2. cbn [app] in N2. rewrite <- !app_assoc in N2. cbn [app] in N2.
  fold head in N2. rewrite N2; clear N2.
  2:{ unfold tyS, PTHREAD_TAG. cbn. no_char. }
  2:{ lia. }
  cbn [fst snd]. rewrite assert_bind_run, Z.eqb_refl.
  assert (find tyS ":" 0 = 6) as ->.
  { unfold tyS. rewrite find_first_0; [done|]. unfold PTHREAD_TAG. cbn. no_char. }
  rewrite lift_bind_run. unfold tyS at 1. rewrite substr_prefix by done.
  rewrite assert_bind_run, bool_decide_true by done.
  rewrite lift_bind_run. change (u64 (6 + 1)) with (size (PTHREAD_TAG ++ [":"%char])).
  assert (tyS = (PTHREAD_TAG ++ [":"%char]) ++ print_dec ty) as -> by done.
  rewrite substr_last by (pose proof (size_print_dec ty); unfold npos; lia).
  rewrite lift_bind_run.
  assert (head ++ " "%char :: "^"%char :: " "%char :: print_dec pa
          = (head ++ [" "%char; "^"%char; " "%char]) ++ print_dec pa) as ->
    by (by rewrite <- app_assoc).
  rewrite (u64_small (size head + 1 + 2)) by (unfold is_u64; lia).
  replace (size head + 1 + 2) with (size (head ++ [" "%char; "^"%char; " "%char]))
    by (rewrite size_app; unfold size; simpl; lia).
  rewrite substr_last by (unfold npos; lia).
  unfold p0, p1. rewrite !strtoul_exact by lia. rewrite strtol_exact by lia.
  rewrite i32_u64, (i32_small (tid - 1)), (i32_small ty) by (unfold is_i32; lia).
  done.
Qed.

(** ** Computation events *)
Lemma find_from_app_absent c a b k :
  c ∉ b -> find_from c (a ++ b) k = find_from c a k.
Proof.
  intros Hb. revert k. induction a as [|x a IH]; intros k; simpl.
  - by apply find_from_absent.
  - destruct (Ascii.eqb x c); [done|]. apply IH.
Qed.

Lemma find_app_absent c a b : c ∉ b -> find (a ++ b) c 0 = find a c 0.
Proof.
  intros Hb. unfold find. rewrite size_app.
  pose proof (size_nonneg a). pose proof (size_nonneg b).
  rewrite !(proj2 (Z.ltb_ge _ 0)) by lia. rewrite !drop_0.
  by apply find_from_app_absent.
Qed.

Lemma find_accesses a sep rs :
  sep ∉ a -> sep <> " "%char ->
  find (a ++ print_accesses sep rs) sep 0 =
    if bool_decide (rs = []) then npos else size a + 1.
Proof.
  intros Ha Hs. destruct rs as [|r rs]; cbn [print_accesses].
  - rewrite app_nil_r. by apply find_absent_0.
  - rewrite bool_decide_false by done.
    pose proof (find_first_0 (a ++ [" "%char])
                  (" "%char :: join3 sep (print_range <$> r :: rs)) sep) as H.
    rewrite <- app_assoc in H. cbn [app] in H. rewrite H by set_solver.
    by rewrite size_app.
Qed.

(** Cutting the access list off a line. *)
Lemma cut_accesses a sep rs :
  sep ∉ a -> sep <> " "%char -> size (a ++ print_accesses sep rs) < 2 ^ 63 ->
  let s := a ++ print_accesses sep rs in
  let p := find s sep 0 in
  (if p =? npos then Ok ([], s) else
     x ← substr s (u64 (p + 2)) npos; y ← substr s 0 (u64 (p - 1)); Ok (x, y))
  = Ok (join3 sep (print_range <$> rs), a).
Proof.
  intros Ha Hs Hsz. cbv zeta. rewrite find_accesses by done.
  rewrite size_app in Hsz. pose proof (size_nonneg a) as Ha0.
  destruct rs as [|r rs]; cbn [print_accesses] in *.
  { rewrite bool_decide_true by done. rewrite Z.eqb_refl. by rewrite app_nil_r. }
  rewrite bool_decide_false by done. rewrite !size_cons in Hsz.
  set (body := join3 sep (print_range <$> r :: rs)) in *.
  pose proof (size_nonneg body).
  rewrite (proj2 (Z.eqb_neq _ npos)) by (unfold npos; lia).
  rewrite (u64_small (size a + 1 + 2)), (u64_small (size a + 1 - 1))
    by (unfold is_u64; lia).
  rewrite (substr_prefix a) by lia.
  assert (a ++ " "%char :: sep :: " "%char :: body
          = (a ++ [" "%char; sep; " "%char]) ++ body) as -> by (by rewrite <- app_assoc).
  replace (size a + 1 + 2) with (size (a ++ [" "%char; sep; " "%char]))
    by (rewrite size_app; unfold size; simpl; lia).
  rewrite substr_last by (unfold npos; lia). done.
Qed.

Lemma count_app a b c : count (a ++ b) c = count a c + count b c.
Proof. unfold count. rewrite List.filter_app, length_app. lia. Qed.

Lemma count_nonneg s c : 0 <= count s c.
Proof. unfold count. lia. Qed.

Lemma count_join1 c es :
  es <> [] -> Z.of_nat (List.length es) - 1 <= count (join1 c es) c.
Proof.
  induction es as [|e es IH]; intros Hne; [done|].
  destruct es as [|e' es]; cbn [join1] in *.
  - pose proof (count_nonneg e c). simpl. lia.
  - change (c :: ?x) with ([c] ++ x). rewrite !count_app.
    assert (count [c] c = 1) as ->.
    { unfold count. cbn [List.filter]. by rewrite Ascii.eqb_refl. }
    specialize (IH ltac:(done)). pose proof (count_nonneg e c).
    simpl List.length in *. lia.
Qed.

Lemma processCompMainEvent_print id tid iops flops reads writes e :
  ok_u64 id -> ok_tid tid -> ok_u64 iops -> ok_u64 flops -> ok_u64 reads ->
  ok_u64 writes ->
  processCompMainEvent
    (join1 "," (print_dec <$> [id; tid; iops; flops; reads; writes])) e =
  Ok (e <| EventID := id |> <| ThreadID := tid - 1 |> <| compIOPS := iops |>
        <| compFLOPS := flops |> <| compMem_reads := reads |>
        <| compMem_writes := writes |>).
Proof.
  unfold ok_u64, ok_tid. intros. unfold processCompMainEvent.
  set (es := print_dec <$> [id; tid; iops; flops; reads; writes]).
  assert (es = [print_dec id; print_dec tid; print_dec iops; print_dec flops;
                print_dec reads; print_dec writes]) as Hes by done.
  assert (es <> []) as Hne by (rewrite Hes; discriminate).
  pose proof (count_join1 "," es Hne) as Hc.
  replace (List.length es) with 6%nat in Hc by (by rewrite Hes).
  unfold COMP_ENTRIES. rewrite (proj2 (Z.ltb_ge _ _)) by lia.
  change 6%nat with (List.length es) at 1. rewrite entries_exact; try done.
  - rewrite bind_Ok_run, Hes. rewrite atoi_exact, !strtoul_exact by lia.
    rewrite i32_small by (unfold is_i32; lia). done.
  - rewrite Hes.
    repeat (apply Forall_cons; split); try apply Forall_nil; try done; no_char.
  - rewrite Hes.
    eapply Z.le_lt_trans; [apply size_join1; short_fields|simpl; lia].
Qed.

Lemma processCompWriteEvent_print cfg ws e :
  ws <> [] -> Forall ok_range ws -> size (join3 "$" (print_range <$> ws)) < 2 ^ 63 ->
  processCompWriteEvent cfg (join3 "$" (print_range <$> ws)) e =
    (rs ← ranges_requests cfg ws; Ok (e <| comp_writeEvents ::= fun l => l ++ rs |>)).
Proof.
  intros Hne Hok Hsz. unfold processCompWriteEvent.
  rewrite (segments_print _ (fun r => split_range cfg 0 0 r.1 r.2)); try done.
  - by apply not_in_ranges.
  - eapply Forall_impl; [exact Hok|]. apply compAccess_print.
Qed.

Lemma processCompReadEvent_print cfg rs e :
  rs <> [] -> Forall ok_range rs -> size (join3 "*" (print_range <$> rs)) < 2 ^ 63 ->
  processCompReadEvent cfg (join3 "*" (print_range <$> rs)) e =
    (rr ← ranges_requests cfg rs; Ok (e <| comp_readEvents ::= fun l => l ++ rr |>)).
Proof.
  intros Hne Hok Hsz. unfold processCompReadEvent.
  rewrite (segments_print _ (fun r => split_range cfg 0 0 r.1 r.2)); try done.
  - by apply not_in_ranges.
  - eapply Forall_impl; [exact Hok|]. apply compAccess_print.
Qed.

Lemma size_accesses sep rs :
  size (join3 sep (print_range <$> rs)) <= size (print_accesses sep rs).
Proof. destruct rs; cbn [print_accesses]; [done|]. rewrite !size_cons. lia. Qed.

(** Rewrite the outcome a goal is waiting for, up to conversion. *)
Ltac rewrite_outcome H :=
  let E := fresh "E" in
  pose proof H as E; cbv zeta in E;
  match type of E with
  | ?l = _ =>
      match goal with
      | |- context [match ?x with Ok _ => _ | Err _ => _ end] => change x with l
      end
  end;
  rewrite E; clear E.

Lemma processLine_comp cfg id tid iops flops reads writes ws rs em :
  let t := TComp id tid iops flops reads writes ws rs in
  ok_event t -> size (print_event t) < 2 ^ 63 ->
  processLine cfg (print_event t) em = (e ← lift (event_of cfg t); push_event e) em.
Proof.
  cbv zeta. intros (Hid & Htid & Hio & Hfl & Hrd & Hwr & Hws & Hrs) Hsz.
  unfold print_event, print_comp in *.
  set (head := join1 "," (print_dec <$> [id; tid; iops; flops; reads; writes])) in *.
  assert (forall c, digit_val c = None -> c <> ","%char -> c ∉ head) as Hhead.
  { intros c Hc Hcomma. unfold head. cbn [fmap list_fmap join1].
    unfold ok_u64, ok_tid in *.
    repeat first [apply not_elem_of_app; split | apply not_elem_of_cons; split
                 | apply not_in_print; [lia|done] | done]. }
  rewrite !size_app in Hsz. pose proof (size_nonneg head).
  pose proof (size_nonneg (print_accesses "$" ws)).
  pose proof (size_nonneg (print_accesses "*" rs)).
  pose proof (size_accesses "$" ws). pose proof (size_accesses "*" rs).
  assert ("*"%char ∉ head ++ print_accesses "$" ws) as Hstar.
  { apply not_elem_of_app; split; [by apply Hhead|by apply not_in_accesses]. }
  assert (forall c, c ∈ ["#"%char; "^"%char] ->
            find (head ++ print_accesses "$" ws ++ print_accesses "*" rs) c 0 = npos) as Hno.
  { intros c Hc. apply find_absent_0.
    apply list_elem_of_In in Hc. destruct Hc as [<-|[<-|[]]];
      (apply not_elem_of_app; split; [by apply Hhead|]);
      (apply not_elem_of_app; split; by apply not_in_accesses). }
  unfold processLine. rewrite !Hno by set_solver. rewrite Z.eqb_refl. cbn [negb]. unfold processCompEvent. cbv zeta.
  rewrite lift_bind_run. rewrite app_assoc.
  rewrite_outcome (cut_accesses (head ++ print_accesses "$" ws) "*" rs Hstar
    ltac:(done) ltac:(rewrite !size_app; lia)).
  rewrite lift_bind_run.
  rewrite (find_app_absent "$" (head ++ print_accesses "$" ws)) by (by apply not_in_accesses).
  rewrite_outcome (cut_accesses head "$" ws ltac:(by apply Hhead) ltac:(done)
    ltac:(rewrite !size_app; lia)).
  rewrite lift_bind_run. unfold head at 1.
  rewrite processCompMainEvent_print by done.
  rewrite (find_accesses head "$") by (first [by apply Hhead|done]).
  rewrite (find_accesses (head ++ print_accesses "$" ws) "*") by done.
  rewrite !lift_bind_run. cbn [event_of].
  assert (((if bool_decide (ws = []) then npos else size head + 1) =? npos)
          = bool_decide (ws = [])) as ->.
  { case_bool_decide; [apply Z.eqb_refl|apply Z.eqb_neq; unfold npos; lia]. }
  assert (((if bool_decide (rs = []) then npos
            else size (head ++ print_accesses "$" ws) + 1) =? npos)
          = bool_decide (rs = [])) as ->.
  { rewrite size_app.
    case_bool_decide; [apply Z.eqb_refl|apply Z.eqb_neq; unfold npos; lia]. }
  case_bool_decide as Ew; case_bool_decide as Er; cbv iota.
  - by subst.
  - subst. rewrite lift_bind_run, processCompReadEvent_print by (done || lia).
    destruct (ranges_requests cfg rs) as [rr|err]; rewrite ?bind_Ok_run, ?bind_Err_run; [|reflexivity].
    apply (f_equal (fun e => push_event e em)). vm_compute. reflexivity.
  - subst. rewrite processCompWriteEvent_print by (done || lia).
    destruct (ranges_requests cfg ws) as [wr|err]; rewrite ?bind_Ok_run, ?bind_Err_run; [|reflexivity].
    apply (f_equal (fun e => push_event e em)). vm_compute. reflexivity.
  - rewrite processCompWriteEvent_print by (done || lia).
    destruct (ranges_requests cfg ws) as [wr|err]; rewrite ?bind_Ok_run, ?bind_Err_run; [|reflexivity].
    rewrite lift_bind_run, processCompReadEvent_print by (done || lia).
    destruct (ranges_requests cfg rs) as [rr|err]; rewrite ?bind_Ok_run, ?bind_Err_run; [|reflexivity].
    apply (f_equal (fun e => push_event e em)). vm_compute. reflexivity.
Qed.

Lemma ranges_total cfg pte (l : list (Z * Z * range)) :
  cfg_ok cfg -> Forall (fun d => ok_range d.2) l ->
  exists rss, mapM (fun d : Z * Z * range =>
                      split_range cfg (pte d).1 (pte d).2 d.2.1 d.2.2) l = Ok rss
    /\ concat rss ≫= bytes =
       l ≫= (fun d => (fun i => (d.2.1 + i) mod cfg.(memory_size_bytes))
                        <$> upto (d.2.2 - d.2.1 + 1))
    /\ Forall (in_line cfg) (concat rss).
Proof.
  intros OK. induction l as [|d l IH]; intros Hf; [by exists []|].
  apply Forall_cons in Hf as [[Hd1 Hd2] Hf].
  destruct (IH Hf) as (rss & Hm & Hb & Hi).
  destruct (split_range_spec cfg OK (pte d).1 (pte d).2 d.2.1 d.2.2 Hd1 Hd2)
    as (rs & Hs & Hline & _ & Hbs).
  exists (rs :: rss). cbn [mapM]. rewrite Hs, Hm. split; [done|].
  split; [|by apply Forall_app].
  cbn [concat]. by rewrite bind_app, Hb, Hbs, bind_cons.
Qed.

(** The bytes a trace event accesses, in trace order, in the simulated memory. *)
Definition range_bytes (cfg : RubyCfg) (r : range) : list Z :=
  (fun i => (r.1 + i) mod cfg.(memory_size_bytes)) <$> upto (r.2 - r.1 + 1).

Lemma ranges_requests_total cfg rs :
  cfg_ok cfg -> Forall ok_range rs ->
  exists l, ranges_requests cfg rs = Ok l /\ l ≫= bytes = rs ≫= range_bytes cfg
            /\ Forall (in_line cfg) l.
Proof.
  intros OK Hf. unfold ranges_requests.
  destruct (ranges_total cfg (fun _ => (0, 0)) ((fun r => (0, 0, r)) <$> rs) OK)
    as (rss & Hm & Hb & Hi).
  { by apply Forall_fmap. }
  exists (concat rss). rewrite Hb.
  match goal with |- context [mapM ?f rs] => assert (mapM f rs = Ok rss) as -> end.
  { rewrite <- Hm. clear. induction rs as [|r rs IH]; [done|].
    cbn [fmap list_fmap mapM fst snd]. by rewrite IH. }
  split; [done|]. split; [|done]. clear. induction rs as [|r rs IH]; [done|].
  rewrite fmap_cons, !bind_cons, IH. done.
Qed.

(** The requests of an event. *)
Definition requests (e : ST_Event) : list sharedInfo :=
  e.(comm_preRequisiteEvents) ++ e.(comp_writeEvents) ++ e.(comp_readEvents).

(** The bytes a trace line names. *)
Definition event_bytes (cfg : RubyCfg) (t : trace_event) : list Z :=
  match t with
  | TComm _ _ deps => deps ≫= (fun d => range_bytes cfg d.2)
  | TPthread _ _ _ _ => []
  | TComp _ _ _ _ _ _ ws rs => (ws ≫= range_bytes cfg) ++ (rs ≫= range_bytes cfg)
  end.

Definition event_thread (t : trace_event) : Z :=
  match t with
  | TComm _ tid _ | TPthread _ tid _ _ | TComp _ tid _ _ _ _ _ _ => tid - 1
  end.

Lemma event_of_total cfg t :
  cfg_ok cfg -> ok_event t ->
  exists e, event_of cfg t = Ok e /\ e.(ThreadID) = event_thread t
    /\ requests e ≫= bytes = event_bytes cfg t /\ Forall (in_line cfg) (requests e)
    /\ e.(subEventsCreated) = false /\ e.(subEventList) = None.
Proof.
  intros OK Hok. destruct t as [id tid deps|id tid ty pa|id tid io fl rd wr ws rs];
    cbn [event_of event_thread event_bytes].
  - destruct Hok as (_ & _ & _ & Hd).
    destruct (ranges_total cfg (fun d => (d.1.1 - 1, d.1.2)) deps OK)
      as (rss & Hm & Hb & Hi).
    { eapply Forall_impl; [exact Hd|]. by intros d (_ & _ & ?). }
    match goal with |- context [mapM ?f deps] =>
      assert (mapM f deps = Ok rss) as -> by exact Hm end.
    eexists. split; [done|].
    unfold requests; cbn -[concat]. rewrite !app_nil_r. done.
  - eexists. split; [done|]. unfold requests; cbn. done.
  - destruct Hok as (_ & _ & _ & _ & _ & _ & Hw & Hr).
    destruct (ranges_requests_total cfg ws OK Hw) as (wl & -> & Hwb & Hwi).
    destruct (ranges_requests_total cfg rs OK Hr) as (rl & -> & Hrb & Hri).
    eexists. split; [done|]. unfold requests; cbn.
    rewrite bind_app, Hwb, Hrb. split; [done|]. split; [done|].
    split; [by apply Forall_app|done].
Qed.

Lemma processLine_print cfg t em :
  ok_event t -> size (print_event t) < 2 ^ 63 ->
  processLine cfg (print_event t) em = (e ← lift (event_of cfg t); push_event e) em.
Proof.
  destruct t; intros.
  - by apply processLine_comm.
  - by apply processLine_pthread.
  - by apply (processLine_comp cfg).
Qed.

(** C21: reading back.  A well-formed trace line of any kind, printed in the
    trace format, is dispatched and parsed into exactly the event it stands
    for ([event_of]: every field, the requests of all its byte ranges in
    order, thread numbers made 0-based) and appended to the queue of its
    thread; the bytes of its requests are the bytes the line names, and no
    request crosses a cache line. *)
Theorem parse_print_roundtrip (cfg : RubyCfg) (t : trace_event) (em : EventMap)
  (OK : cfg_ok cfg) (Hok : ok_event t) (Hsz : size (print_event t) < 2 ^ 63) :
  exists e, event_of cfg t = Ok e /\ e.(ThreadID) = event_thread t
    /\ processLine cfg (print_event t) em = push_event e em
    /\ requests e ≫= bytes = event_bytes cfg t /\ Forall (in_line cfg) (requests e).
Proof.
  destruct (event_of_total cfg t OK Hok) as (e & He & Ht & Hb & Hi & _).
  exists e. rewrite processLine_print, lift_bind_run, He by done. done.
Qed.

Lemma parse_print_roundtrip_witness :
  exists e, event_of example_cfg (TComm 9 2 [(1, 4, (60, 75))]) = Ok e
    /\ e.(ThreadID) = 1
    /\ processLine example_cfg (lit "9,2 # 1 4 60 75") example_queues
         = push_event e example_queues
    /\ requests e ≫= bytes = event_bytes example_cfg (TComm 9 2 [(1, 4, (60, 75))])
    /\ Forall (in_line example_cfg) (requests e).
Proof.
  apply (parse_print_roundtrip example_cfg (TComm 9 2 [(1, 4, (60, 75))]) example_queues
           example_cfg_ok).
  - unfold ok_event, ok_u64, ok_tid. split; [lia|]. split; [lia|]. split; [done|].
    apply Forall_singleton. unfold ok_dependency, ok_tid, ok_u64, ok_range. cbn. lia.
  - vm_compute. done.
Defined.
End TraceParser.
