(* ===== verification/TriggerTime.v ===== *)
(** * Trigger times in floating point
    (the expression [CPI_IOPS * numIOPS + CPI_FLOPS * numFLOPS +
    MEM_ACCESS_TIME * numMEM_OPS + getTime() + 1] that
    src/src/cpu/testers/synchrotrace/SynchroTrace.cc evaluates in
    [createSubEvents], [progressEvents] and [hitCallback], lines 736, 1342
    and 1599).

    [CPI_IOPS] and [CPI_FLOPS] are [float], [MEM_ACCESS_TIME] is a [double]
    constant, so the sum starts in binary32, continues in binary64 and is
    truncated to the 64-bit [Time].  The model computes with the executable
    IEEE 754 specification of the standard library, rounding to nearest even.

    Two facts about it are proved here: the result is never before the next
    cycle, and it is exact as long as the products and their sum stay below
    2^24. *)

From S2P Require Import Prelude.
From Stdlib Require Import Floats.SpecFloat.

Module TriggerTime.

Definition float_of_Z (n : Z) : spec_float := binary_normalize 24 128 n 0 false.
Definition double_of_Z (n : Z) : spec_float := binary_normalize 53 1024 n 0 false.

(** The widening conversion [float -> double]. *)
Definition double_of_float (x : spec_float) : spec_float :=
  match x with
  | S754_finite s m e => binary_normalize 53 1024 (if s then Zneg m else Zpos m) e s
  | _ => x
  end.

(** The conversion [double -> Time] (64-bit signed) drops the fraction; a
    value outside the range has no defined result. *)
Definition time_of_double (x : spec_float) : result Z :=
  match x with
  | S754_zero _ => Ok 0
  | S754_finite s m e =>
      let v := Z.shiftl (Zpos m) e in
      let v := if s then - v else v in
      if (- 2 ^ 63 <=? v) && (v <? 2 ^ 63) then Ok v
      else Err (UB "conversion out of range")
  | _ => Err (UB "conversion out of range")
  end.

(** [HIT_CYCLES_L1 + MISS_RATE_L1 * (HIT_CYCLES_L2 + MISS_RATE_L2 * MISS_PENALTY_L2)]
    with the constants 3, 0.5, 10, 0.1 and 100. *)
Definition MEM_ACCESS_TIME : spec_float :=
  let dadd := SFadd 53 1024 in
  let dmul := SFmul 53 1024 in
  let half := SFdiv 53 1024 (double_of_Z 1) (double_of_Z 2) in
  let tenth := SFdiv 53 1024 (double_of_Z 1) (double_of_Z 10) in
  dadd (double_of_Z 3)
    (dmul half (dadd (double_of_Z 10) (dmul tenth (double_of_Z 100)))).

Definition trigger_time (CPI_IOPS CPI_FLOPS : spec_float)
  (numIOPS numFLOPS numMEM_OPS now : Z) : result Z :=
  let ops := SFadd 24 128 (SFmul 24 128 CPI_IOPS (float_of_Z numIOPS))
                          (SFmul 24 128 CPI_FLOPS (float_of_Z numFLOPS)) in
  let mem := SFmul 53 1024 MEM_ACCESS_TIME (double_of_Z numMEM_OPS) in
  let dadd := SFadd 53 1024 in
  time_of_double
    (dadd (dadd (dadd (double_of_float ops) mem) (double_of_Z now)) (double_of_Z 1)).

Example mem_access_time : MEM_ACCESS_TIME = double_of_Z 13.
Proof. vm_compute. reflexivity. Qed.

(** The run script's [--cpi_iops=1 --cpi_flops=2]. *)
Example trigger_ex :
  trigger_time (float_of_Z 1) (float_of_Z 2) 100 7 0 5000 = Ok 5115.
Proof. vm_compute. reflexivity. Qed.

(** ** Rounding keeps integer lower bounds and exact integers *)
Section rounding.
Context (prec emax : Z) (Hprec : 1 < prec) (Hemin : 3 - emax - prec <= 0).

Abbreviation shr_fexp := (SpecFloat.shr_fexp prec emax).
Abbreviation fexp := (SpecFloat.fexp prec emax).

(** [x] is at least the integer [n] (infinity is). *)
Definition at_least (x : spec_float) (n : Z) : Prop :=
  match x with
  | S754_zero _ => n <= 0
  | S754_finite false m e => n <= Z.shiftl (Zpos m) e
  | S754_infinity false => True
  | _ => False
  end.

(** [x] is exactly the non-negative integer [n], with an exponent that is not
    positive (the canonical form of an integer below [2^prec] has one). *)
Definition exactly (x : spec_float) (n : Z) : Prop :=
  match x with
  | S754_zero _ => n = 0
  | S754_finite false m e => e <= 0 /\ Zpos m = n * 2 ^ (- e)
  | _ => False
  end.

Lemma digits2_lower p : 2 ^ (Zpos (digits2_pos p) - 1) <= Zpos p.
Proof.
  induction p as [p IH|p IH|]; cbn [digits2_pos]; [| |done];
    rewrite Pos2Z.inj_succ;
    replace (Z.succ (Zpos (digits2_pos p)) - 1)
      with (Z.succ (Zpos (digits2_pos p) - 1)) by lia;
    rewrite Z.pow_succ_r; lia.
Qed.

Lemma digits2_upper p : Zpos p < 2 ^ Zpos (digits2_pos p).
Proof.
  induction p as [p IH|p IH|]; cbn [digits2_pos]; [| |done];
    rewrite Pos2Z.inj_succ, Z.pow_succ_r; lia.
Qed.

(** Digits of a positive number below a power of two. *)
Lemma digits2_le p k : 0 <= k -> Zpos p < 2 ^ k -> Zpos (digits2_pos p) <= k.
Proof.
  intros Hk Hp. pose proof (digits2_lower p).
  destruct (Z.le_gt_cases (Zpos (digits2_pos p)) k) as [|Hgt]; [done|].
  assert (2 ^ k <= 2 ^ (Zpos (digits2_pos p) - 1)) by (apply Z.pow_le_mono_r; lia).
  lia.
Qed.

Lemma shiftl_nonneg_le a b e : 0 <= a <= b -> Z.shiftl a e <= Z.shiftl b e.
Proof.
  intros H. destruct (Z.le_gt_cases 0 e).
  - rewrite !Z.shiftl_mul_pow2 by done. apply Z.mul_le_mono_nonneg_r; [|lia].
    apply Z.pow_nonneg. lia.
  - rewrite !Z.shiftl_div_pow2 by lia. apply Z.div_le_mono; [|lia].
    apply Z.pow_pos_nonneg; lia.
Qed.

Lemma shiftl_add_le a b e :
  0 <= a -> 0 <= b -> Z.shiftl a e + Z.shiftl b e <= Z.shiftl (a + b) e.
Proof.
  intros Ha Hb. destruct (Z.le_gt_cases 0 e).
  - rewrite !Z.shiftl_mul_pow2 by done. lia.
  - rewrite !Z.shiftl_div_pow2 by lia.
    assert (0 < 2 ^ (- e)) by (apply Z.pow_pos_nonneg; lia).
    pose proof (Z.div_mod a (2 ^ (- e)) ltac:(lia)).
    pose proof (Z.div_mod b (2 ^ (- e)) ltac:(lia)).
    pose proof (Z.mod_pos_bound a (2 ^ (- e)) ltac:(lia)).
    pose proof (Z.mod_pos_bound b (2 ^ (- e)) ltac:(lia)).
    apply Z.div_le_lower_bound; lia.
Qed.

Lemma shr_1_div2 r : 0 <= shr_m r -> shr_m (shr_1 r) = shr_m r / 2.
Proof.
  destruct r as [m r s]. cbn. intros Hm. rewrite <- Z.div2_div.
  destruct m as [|[p|p|]|p]; (done || lia).
Qed.

Lemma iter_pos_nat {A} (f : A -> A) p x : iter_pos f p x = Nat.iter (Pos.to_nat p) f x.
Proof.
  revert x. induction p as [p IH|p IH|]; intros x; cbn [iter_pos].
  - rewrite !IH, Pos2Nat.inj_xI. rewrite <- Nat.iter_succ_r, <- Nat.iter_add.
    f_equal. lia.
  - rewrite !IH, Pos2Nat.inj_xO. rewrite <- Nat.iter_add. f_equal. lia.
  - done.
Qed.

Lemma shr_1_iter n r :
  0 <= shr_m r ->
  shr_m (Nat.iter n shr_1 r) = shr_m r / 2 ^ Z.of_nat n.
Proof.
  intros Hr. induction n as [|n IH]; [by rewrite Z.div_1_r|].
  change (Nat.iter (S n) shr_1 r) with (shr_1 (Nat.iter n shr_1 r)).
  rewrite shr_1_div2.
  - rewrite IH, Z.div_div by (try apply Z.pow_pos_nonneg; lia).
    rewrite Nat2Z.inj_succ, Z.pow_succ_r by lia. f_equal. lia.
  - rewrite IH. apply Z.div_pos; [done|]. apply Z.pow_pos_nonneg; lia.
Qed.

Lemma shr_1_iter_exact n m :
  0 <= m -> Nat.iter n shr_1 (Build_shr_record (m * 2 ^ Z.of_nat n) false false)
            = Build_shr_record m false false.
Proof.
  intros Hm. induction n as [|n IH]; [by rewrite Z.mul_1_r|].
  rewrite Nat.iter_succ_r, Nat2Z.inj_succ, Z.pow_succ_r by lia.
  replace (m * (2 * 2 ^ Z.of_nat n)) with (2 * (m * 2 ^ Z.of_nat n)) by lia.
  etransitivity; [|exact IH]. f_equal.
  assert (0 <= m * 2 ^ Z.of_nat n) by (apply Z.mul_nonneg_nonneg; lia).
  destruct (m * 2 ^ Z.of_nat n); (done || lia).
Qed.

(** What [shr_fexp] does: it shifts right by [k >= 0]. *)
Lemma shr_fexp_spec m e l :
  0 <= m ->
  let k := Z.max 0 (fexp (Zdigits2 m + e) - e) in
  shr_m (shr_fexp m e l).1 = m / 2 ^ k /\ (shr_fexp m e l).2 = e + k.
Proof.
  intros Hm. cbv zeta. unfold SpecFloat.shr_fexp.
  set (d := fexp (Zdigits2 m + e) - e).
  assert (shr_m (shr_record_of_loc m l) = m) as Hl by (by destruct l as [|[]]).
  destruct d as [|p|p]; cbn [shr fst snd].
  - rewrite Hl, Z.div_1_r. split; [done|lia].
  - rewrite iter_pos_nat, shr_1_iter, Hl, positive_nat_Z by lia.
    rewrite Z.max_r by lia. done.
  - rewrite Z.max_l by lia. rewrite Hl, Z.div_1_r. split; [done|lia].
Qed.

Lemma shr_fexp_lower m e l n :
  0 <= m -> 0 <= n <= 2 ^ prec -> n <= Z.shiftl m e ->
  0 <= shr_m (shr_fexp m e l).1 /\
  n <= Z.shiftl (shr_m (shr_fexp m e l).1) (shr_fexp m e l).2.
Proof.
  intros Hm Hn Hle. destruct (shr_fexp_spec m e l Hm) as [-> ->].
  set (k := Z.max 0 (fexp (Zdigits2 m + e) - e)).
  assert (0 < 2 ^ k) by (apply Z.pow_pos_nonneg; lia).
  split; [apply Z.div_pos; lia|].
  destruct (Z.eq_dec k 0) as [->|Hk]; [by rewrite Z.div_1_r, Z.add_0_r|].
  destruct (Z.le_gt_cases (e + k) 0) as [He|He].
  - (* only bits below the units are dropped *)
    rewrite Z.shiftl_div_pow2 in Hle by lia.
    rewrite Z.shiftl_div_pow2, Z.div_div, <- Z.pow_add_r
      by (try apply Z.pow_pos_nonneg; lia).
    by replace (k + - (e + k)) with (- e) by lia.
  - (* the mantissa keeps [prec] digits *)
    destruct m as [|m|m]; [| |lia].
    { rewrite Z.shiftl_0_l in Hle. rewrite Z.div_0_l, Z.shiftl_0_l by lia. done. }
    cbn [Zdigits2] in *. pose proof (digits2_lower m) as Hd.
    assert (Zpos (digits2_pos m) = k + prec) as Hdk.
    { unfold k, SpecFloat.fexp, SpecFloat.emin in *. lia. }
    rewrite Hdk in Hd. replace (k + prec - 1) with (k + (prec - 1)) in Hd by lia.
    rewrite Z.pow_add_r in Hd by lia.
    assert (2 ^ (prec - 1) <= Zpos m / 2 ^ k) by (apply Z.div_le_lower_bound; lia).
    rewrite Z.shiftl_mul_pow2 by lia.
    assert (2 ^ 1 <= 2 ^ (e + k)) by (apply Z.pow_le_mono_r; lia).
    replace (2 ^ prec) with (2 ^ (prec - 1) * 2 ^ 1) in Hn
      by (rewrite <- Z.pow_add_r; [f_equal|..]; lia).
    assert (0 < 2 ^ (prec - 1)) by (apply Z.pow_pos_nonneg; lia). nia.
Qed.

Lemma round_aux_lower m e l n :
  0 <= m -> 0 <= n <= 2 ^ prec -> n <= Z.shiftl m e ->
  at_least (binary_round_aux prec emax false m e l) n.
Proof.
  intros Hm Hn Hle. unfold binary_round_aux.
  pose proof (shr_fexp_lower m e l n Hm Hn Hle) as [H1 H2].
  destruct (shr_fexp m e l) as [r1 e1]. cbn [fst snd] in *.
  set (m1 := round_nearest_even (shr_m r1) (loc_of_shr_record r1)).
  assert (shr_m r1 <= m1) as Hr.
  { unfold m1, round_nearest_even. destruct (loc_of_shr_record r1) as [|[]]; try lia.
    destruct (Z.even (shr_m r1)); lia. }
  pose proof (shr_fexp_lower m1 e1 loc_Exact n ltac:(lia) Hn) as H3.
  destruct (shr_fexp m1 e1 loc_Exact) as [r2 e2]. cbn [fst snd] in *.
  destruct H3 as [H3 H4].
  { etransitivity; [exact H2|]. apply shiftl_nonneg_le. lia. }
  destruct (shr_m r2) as [|p|p]; [|destruct (e2 <=? emax - prec)|lia]; cbn; try done.
  by rewrite Z.shiftl_0_l in H4.
Qed.

Lemma iter_xO p d : Zpos (Pos.iter xO p d) = Zpos p * 2 ^ Zpos d.
Proof.
  induction d as [|d IH] using Pos.peano_ind; [cbn; lia|].
  rewrite Pos.iter_succ, Pos2Z.inj_succ, Z.pow_succ_r by lia.
  rewrite (Pos2Z.inj_xO (Pos.iter xO p d)), IH. lia.
Qed.

Lemma shiftl_mul_pow2_l a d e : 0 <= d -> Z.shiftl (a * 2 ^ d) (e - d) = Z.shiftl a e.
Proof.
  intros Hd. rewrite <- Z.shiftl_mul_pow2 by done. rewrite Z.shiftl_shiftl by done.
  f_equal. lia.
Qed.

Lemma shl_align_fst m e e' :
  e' <= e -> Zpos (shl_align m e e').1 = Zpos m * 2 ^ (e - e').
Proof.
  intros He. unfold shl_align. destruct (e' - e) as [|p|p] eqn:E; cbn; [|lia|].
  - replace (e - e') with 0 by lia. lia.
  - rewrite iter_xO. f_equal. f_equal. lia.
Qed.

Lemma normalize_lower m e n s :
  0 <= m -> 0 <= n <= 2 ^ prec -> n <= Z.shiftl m e ->
  at_least (binary_normalize prec emax m e s) n.
Proof.
  intros Hm Hn Hle. destruct m as [|p|p]; [by rewrite Z.shiftl_0_l in Hle| |lia].
  cbn [binary_normalize]. unfold binary_round.
  generalize (SpecFloat.fexp prec emax (Zpos (digits2_pos p) + e)). intros e'.
  destruct (shl_align p e e') as [mz ez] eqn:Ea.
  apply round_aux_lower; [lia|done|].
  unfold shl_align in Ea.
  destruct (e' - e) as [|d|d] eqn:E; injection Ea as <- <-; try done.
  rewrite iter_xO. replace e' with (e - Zpos d) by lia.
  by rewrite shiftl_mul_pow2_l by lia.
Qed.

Lemma add_lower x y a b :
  at_least x a -> at_least y b -> 0 <= a -> 0 <= b -> a + b <= 2 ^ prec ->
  at_least (SFadd prec emax x y) (a + b).
Proof.
  intros Hx Hy Ha Hb Hab.
  destruct x as [sx|[]| |[] mx ex], y as [sy|[]| |[] my ey]; cbn in Hx, Hy; try done;
    cbn [SFadd at_least]; try lia.
  - destruct sx, sy; cbn; lia.
  - cbn [cond_Zopp].
    set (ez := Z.min ex ey).
    rewrite !shl_align_fst by lia.
    apply normalize_lower; [|lia|].
    + assert (0 < 2 ^ (ex - ez) /\ 0 < 2 ^ (ey - ez)) as [? ?]
        by (split; apply Z.pow_pos_nonneg; lia). lia.
    + etransitivity; [|apply shiftl_add_le].
      * pose proof (shiftl_mul_pow2_l (Zpos mx) (ex - ez) ex ltac:(lia)) as H1.
        pose proof (shiftl_mul_pow2_l (Zpos my) (ey - ez) ey ltac:(lia)) as H2.
        replace (ex - (ex - ez)) with ez in H1 by lia.
        replace (ey - (ey - ez)) with ez in H2 by lia. lia.
      * apply Z.mul_nonneg_nonneg; [lia|]. apply Z.pow_nonneg; lia.
      * apply Z.mul_nonneg_nonneg; [lia|]. apply Z.pow_nonneg; lia.
Qed.

Lemma mul_nonneg x y :
  at_least x 0 -> at_least y 0 -> x <> S754_infinity false -> y <> S754_infinity false ->
  at_least (SFmul prec emax x y) 0.
Proof.
  intros Hx Hy Nx Ny.
  destruct x as [sx|[]| |[] mx ex], y as [sy|[]| |[] my ey]; cbn in Hx, Hy; try done.
  cbn [SFmul xorb]. apply round_aux_lower; [lia|split; [lia|apply Z.pow_nonneg; lia]|].
  by apply Z.shiftl_nonneg.
Qed.
Context (Hmax : prec <= emax).

Lemma digits2_mul_pow2 n d p :
  0 <= d -> Zpos p = Zpos n * 2 ^ d -> Zpos (digits2_pos p) = Zpos (digits2_pos n) + d.
Proof.
  intros Hd Hp. pose proof (digits2_lower n). pose proof (digits2_upper n).
  assert (0 < 2 ^ d) by (apply Z.pow_pos_nonneg; lia).
  assert (Zpos (digits2_pos p) <= Zpos (digits2_pos n) + d).
  { apply digits2_le; [lia|]. rewrite Z.pow_add_r by lia. nia. }
  assert (Zpos (digits2_pos n) + d <= Zpos (digits2_pos p)); [|lia].
  destruct (Z.le_gt_cases (Zpos (digits2_pos n) + d) (Zpos (digits2_pos p))) as [|Hlt];
    [done|].
  pose proof (digits2_upper p) as Hu.
  assert (2 ^ Zpos (digits2_pos p) <= 2 ^ (Zpos (digits2_pos n) - 1 + d))
    by (apply Z.pow_le_mono_r; lia).
  rewrite Z.pow_add_r in * by lia. nia.
Qed.

(** Shifting an integer's mantissa into place loses nothing. *)
Lemma shr_fexp_exact n m e :
  Zpos n < 2 ^ prec -> e <= 0 -> Zpos m = Zpos n * 2 ^ (- e) ->
  let e1 := Z.max e (fexp (Zpos (digits2_pos n))) in
  e1 <= 0 /\
  shr_fexp (Zpos m) e loc_Exact
    = (Build_shr_record (Zpos n * 2 ^ (- e1)) false false, e1).
Proof.
  intros Hn He Hm. cbv zeta.
  pose proof (digits2_le n prec ltac:(lia) Hn) as Hd.
  assert (fexp (Zpos (digits2_pos n)) <= 0) as Hf
    by (unfold SpecFloat.fexp, SpecFloat.emin; lia).
  split; [lia|]. unfold SpecFloat.shr_fexp. cbn [Zdigits2 shr_record_of_loc].
  rewrite (digits2_mul_pow2 n (- e) m) by lia.
  replace (Zpos (digits2_pos n) + - e + e) with (Zpos (digits2_pos n)) by lia.
  set (fx := fexp (Zpos (digits2_pos n))) in *.
  destruct (fx - e) as [|k|k] eqn:E; cbn [shr].
  - rewrite Z.max_l by lia. by rewrite Hm.
  - rewrite Z.max_r by lia. f_equal; [|lia].
    rewrite iter_pos_nat, Hm.
    replace (Zpos n * 2 ^ (- e)) with (Zpos n * 2 ^ (- fx) * 2 ^ Z.of_nat (Pos.to_nat k)).
    + apply shr_1_iter_exact. apply Z.mul_nonneg_nonneg; [lia|]. apply Z.pow_nonneg. lia.
    + rewrite positive_nat_Z, <- Z.mul_assoc, <- Z.pow_add_r by lia. do 2 f_equal. lia.
  - rewrite Z.max_l by lia. by rewrite Hm.
Qed.

Lemma round_aux_exact n m e :
  Zpos n < 2 ^ prec -> e <= 0 -> Zpos m = Zpos n * 2 ^ (- e) ->
  exactly (binary_round_aux prec emax false (Zpos m) e loc_Exact) (Zpos n).
Proof.
  intros Hn He Hm. unfold binary_round_aux.
  destruct (shr_fexp_exact n m e Hn He Hm) as [He1 ->].
  set (e1 := Z.max e (fexp (Zpos (digits2_pos n)))) in *.
  cbn [loc_of_shr_record round_nearest_even shr_m].
  assert (0 < 2 ^ (- e1)) by (apply Z.pow_pos_nonneg; lia).
  destruct (Zpos n * 2 ^ (- e1)) as [|m1|m1] eqn:Em; [lia| |lia].
  destruct (shr_fexp_exact n m1 e1 Hn He1) as [_ ->]; [lia|].
  rewrite (Z.max_l e1) by lia. rewrite Em. cbn [shr_m].
  rewrite (proj2 (Z.leb_le e1 (emax - prec))) by lia. cbn. lia.
Qed.

Lemma normalize_exact n m e s :
  0 <= n < 2 ^ prec -> e <= 0 -> m = n * 2 ^ (- e) ->
  exactly (binary_normalize prec emax m e s) n.
Proof.
  intros Hn He ->. destruct n as [|n|n]; [done| |lia].
  assert (0 < 2 ^ (- e)) by (apply Z.pow_pos_nonneg; lia).
  destruct (Zpos n * 2 ^ (- e)) as [|m|m] eqn:Em; [lia| |lia].
  cbn [binary_normalize]. unfold binary_round.
  generalize (fexp (Zpos (digits2_pos m) + e)). intros e'.
  destruct (shl_align m e e') as [mz ez] eqn:Ea. unfold shl_align in Ea.
  destruct (e' - e) as [|d|d] eqn:E; injection Ea as <- <-;
    apply round_aux_exact; try lia.
  rewrite iter_xO, <- Em, <- Z.mul_assoc, <- Z.pow_add_r by lia. do 2 f_equal. lia.
Qed.

Lemma add_exact x y a b :
  exactly x a -> exactly y b -> 0 <= a -> 0 <= b -> a + b < 2 ^ prec ->
  exactly (SFadd prec emax x y) (a + b).
Proof.
  intros Hx Hy Ha Hb Hab.
  destruct x as [sx|[]| |[] mx ex], y as [sy|[]| |[] my ey]; cbn in Hx, Hy; try done;
    cbn [SFadd exactly]; subst; rewrite ?Z.add_0_r, ?Z.add_0_l; try done.
  - destruct sx, sy; done.
  - destruct Hx as [Hex Hx], Hy as [Hey Hy].
    cbn [cond_Zopp]. set (ez := Z.min ex ey). rewrite !shl_align_fst by lia.
    apply normalize_exact; [lia..|].
    rewrite Hx, Hy, <- !Z.mul_assoc, <- !Z.pow_add_r by lia.
    replace (- ex + (ex - ez)) with (- ez) by lia.
    replace (- ey + (ey - ez)) with (- ez) by lia. lia.
Qed.

Lemma mul_exact x y a b :
  exactly x a -> exactly y b -> 0 <= a -> 0 <= b -> a * b < 2 ^ prec ->
  exactly (SFmul prec emax x y) (a * b).
Proof.
  intros Hx Hy Ha Hb Hab.
  destruct x as [sx|[]| |[] mx ex], y as [sy|[]| |[] my ey]; cbn in Hx, Hy; try done;
    cbn [SFmul exactly]; subst; rewrite ?Z.mul_0_r, ?Z.mul_0_l; try done.
  destruct Hx as [Hex Hx], Hy as [Hey Hy].
  assert (0 < 2 ^ (- ex) /\ 0 < 2 ^ (- ey)) as [? ?]
    by (split; apply Z.pow_pos_nonneg; lia).
  destruct (a * b) as [|n|n] eqn:E; [nia| |nia].
  cbn [xorb]. apply round_aux_exact; [lia..|].
  rewrite Pos2Z.inj_mul, Hx, Hy, <- E, Z.opp_add_distr, Z.pow_add_r by lia. lia.
Qed.
End rounding.

Lemma double_of_float_lower x : at_least x 0 -> at_least (double_of_float x) 0.
Proof.
  destruct x as [s|[]| |[] m e]; try done. intros H.
  apply normalize_lower; (done || lia).
Qed.

Lemma double_of_float_exact x n :
  0 <= n < 2 ^ 53 -> exactly x n -> exactly (double_of_float x) n.
Proof.
  intros Hn. destruct x as [s|[]| |[] m e]; try done. intros [He Hm].
  apply normalize_exact; (done || lia).
Qed.

Lemma of_Z_lower prec emax n :
  1 < prec -> 3 - emax - prec <= 0 -> 0 <= n <= 2 ^ prec ->
  at_least (binary_normalize prec emax n 0 false) n.
Proof.
  intros. apply normalize_lower; rewrite ?Z.shiftl_0_r; lia.
Qed.

Lemma of_Z_exact prec emax n :
  1 < prec -> 3 - emax - prec <= 0 -> prec <= emax -> 0 <= n < 2 ^ prec ->
  exactly (binary_normalize prec emax n 0 false) n.
Proof. intros. apply normalize_exact; (done || lia). Qed.

Lemma time_of_double_exact x n : 0 <= n < 2 ^ 63 -> exactly x n -> time_of_double x = Ok n.
Proof.
  intros Hn. destruct x as [s|[]| |[] m e]; cbn; try done; [by intros ->|].
  intros [He Hm]. rewrite Hm.
  assert (Z.shiftl (n * 2 ^ (- e)) e = n) as ->.
  { rewrite Z.shiftl_div_pow2 by done. apply Z.div_mul. apply Z.pow_nonzero; lia. }
  rewrite (proj2 (Z.leb_le _ _)), (proj2 (Z.ltb_lt _ _)) by lia. done.
Qed.

Lemma time_of_double_lower x n w : at_least x n -> time_of_double x = Ok w -> n <= w.
Proof.
  destruct x as [s|[]| |[] m e]; cbn; try done; [naive_solver|].
  intros Hx. case_match; naive_solver.
Qed.

(** Not below [n] unless it is not a number, which every operation passes on. *)
Definition at_least_or_nan (x : spec_float) (n : Z) : Prop :=
  x = S754_nan \/ at_least x n.

Lemma mul_nonneg_or_nan prec emax x y :
  1 < prec -> 3 - emax - prec <= 0 -> at_least x 0 -> at_least y 0 ->
  at_least_or_nan (SFmul prec emax x y) 0.
Proof.
  intros Hp He Hx Hy.
  destruct x as [sx|[]| |[] mx ex], y as [sy|[]| |[] my ey];
    try (by cbn in Hx, Hy); try (by left); try (right; by cbn).
  right. by apply mul_nonneg.
Qed.

Lemma add_lower_or_nan prec emax x y a b :
  1 < prec -> 3 - emax - prec <= 0 ->
  at_least_or_nan x a -> at_least_or_nan y b -> 0 <= a -> 0 <= b ->
  a + b <= 2 ^ prec -> at_least_or_nan (SFadd prec emax x y) (a + b).
Proof.
  intros Hp He [->|Hx] [->|Hy] ???; try (by left).
  - left. by destruct x as [|[]| |].
  - right. by apply add_lower.
Qed.

Lemma trigger_lower CPI_IOPS CPI_FLOPS numIOPS numFLOPS numMEM_OPS now w :
  at_least CPI_IOPS 0 -> at_least CPI_FLOPS 0 ->
  0 <= numIOPS -> 0 <= numFLOPS -> 0 <= numMEM_OPS -> 0 <= now < 2 ^ 53 ->
  trigger_time CPI_IOPS CPI_FLOPS numIOPS numFLOPS numMEM_OPS now = Ok w ->
  now + 1 <= w.
Proof.
  intros Hci Hcf Hi Hf Hm Hn Hw.
  assert (forall prec emax n, 1 < prec -> 3 - emax - prec <= 0 -> 0 <= n ->
    at_least (binary_normalize prec emax n 0 false) 0) as Hpos.
  { intros. apply normalize_lower; rewrite ?Z.shiftl_0_r; (done || lia). }
  unfold trigger_time in Hw.
  set (ops := SFadd 24 128 _ _) in Hw. set (mem := SFmul 53 1024 _ _) in Hw.
  assert (at_least_or_nan ops (0 + 0)) as Hops.
  { apply add_lower_or_nan; try lia; apply mul_nonneg_or_nan; (lia || auto);
      by apply Hpos. }
  assert (at_least_or_nan (double_of_float ops) 0) as Hd.
  { destruct Hops as [->|?]; [by left|right]. by apply double_of_float_lower. }
  assert (at_least_or_nan mem 0) as Hmem.
  { apply mul_nonneg_or_nan; [lia..| |by apply Hpos]. vm_compute. done. }
  set (x := SFadd 53 1024 _ _) in Hw.
  assert (at_least_or_nan x (0 + 0 + now + 1)) as [Hx|Hx].
  { repeat (apply add_lower_or_nan; try lia; try done);
      right; apply of_Z_lower; lia. }
  - rewrite Hx in Hw. done.
  - by pose proof (time_of_double_lower _ _ _ Hx Hw).
Qed.

Lemma trigger_upper ci cf i f m now w :
  trigger_time ci cf i f m now = Ok w -> w < 2 ^ 63.
Proof.
  unfold trigger_time, time_of_double. intros H.
  destruct (SFadd 53 1024 _ _) as [s|s| |s mm e]; simplify_eq; [lia|].
  case_match; [|done]. simplify_eq. bool_to_Z. done.
Qed.

(** C26: a trigger time is never before the next cycle: whatever operation
    counts an event has and whatever non-negative cycle costs are configured,
    the time computed in floating point is at least [now + 1], as long as the
    clock is below 2^53. *)
Theorem trigger_after_now CPI_IOPS CPI_FLOPS numIOPS numFLOPS numMEM_OPS now w :
  at_least CPI_IOPS 0 -> at_least CPI_FLOPS 0 ->
  0 <= numIOPS -> 0 <= numFLOPS -> 0 <= numMEM_OPS -> 0 <= now < 2 ^ 53 ->
  trigger_time CPI_IOPS CPI_FLOPS numIOPS numFLOPS numMEM_OPS now = Ok w ->
  now + 1 <= w.
Proof. apply trigger_lower. Qed.

(** With whole cycle costs a trigger time is exactly the sum it stands
    for, and is defined, while the cycles of the operations stay below 2^24
    (the precision of [float]) and the result below 2^53. *)
Theorem trigger_exact ci cf numIOPS numFLOPS numMEM_OPS now :
  0 <= ci < 2 ^ 24 -> 0 <= cf < 2 ^ 24 ->
  0 <= numIOPS < 2 ^ 24 -> 0 <= numFLOPS < 2 ^ 24 -> 0 <= numMEM_OPS -> 0 <= now ->
  ci * numIOPS + cf * numFLOPS < 2 ^ 24 ->
  ci * numIOPS + cf * numFLOPS + 13 * numMEM_OPS + now + 1 < 2 ^ 53 ->
  trigger_time (float_of_Z ci) (float_of_Z cf) numIOPS numFLOPS numMEM_OPS now
  = Ok (ci * numIOPS + cf * numFLOPS + 13 * numMEM_OPS + now + 1).
Proof.
  intros Hci Hcf Hi Hf Hm Hn Hops Htot.
  assert (0 <= ci * numIOPS) by nia. assert (0 <= cf * numFLOPS) by nia.
  assert (forall n, 0 <= n < 2 ^ 24 -> exactly (float_of_Z n) n) as Hfl
    by (intros; apply of_Z_exact; lia).
  assert (forall n, 0 <= n < 2 ^ 53 -> exactly (double_of_Z n) n) as Hdb
    by (intros; apply of_Z_exact; lia).
  unfold trigger_time. rewrite mem_access_time.
  apply time_of_double_exact; [lia|].
  apply add_exact; try lia; [|apply Hdb; lia].
  apply add_exact; try lia; [|apply Hdb; lia].
  apply add_exact; try lia.
  - apply double_of_float_exact; [lia|].
    apply add_exact; try lia; apply mul_exact; try lia; apply Hfl; lia.
  - apply mul_exact; try lia; apply Hdb; lia.
Qed.

Lemma trigger_after_now_witness : 5000 + 1 <= 5115.
Proof.
  apply (trigger_after_now (float_of_Z 1) (float_of_Z 2) 100 7 0 5000 5115);
    solve [vm_compute; reflexivity | vm_compute; discriminate
          | vm_compute; intuition discriminate].
Defined.

Lemma trigger_exact_witness :
  trigger_time (float_of_Z 1) (float_of_Z 2) 100 7 3 5000 = Ok 5154.
Proof.
  apply (trigger_exact 1 2 100 7 3 5000); lia.
Defined.

(** Beyond 2^24 the [float] sum rounds: one operation is lost. *)
Example trigger_rounds :
  trigger_time (float_of_Z 1) (float_of_Z 1) 16777216 1 0 0 = Ok 16777217 /\
  trigger_time (float_of_Z 1) (float_of_Z 1) 16777216 0 0 0 = Ok 16777217.
Proof. vm_compute. done. Qed.

End TriggerTime.
