(* ===== verification/IntMath.v ===== *)
(** * Integer arithmetic helpers (src/src/base/intmath.hh, intmath.cc).

    The templates are modelled on [Z]: an unsigned argument of [w] bits is a
    value in [[0, 2^w)], and a result that can leave the range is reduced
    where the code's type reduces it.  [n & ~(n - 1)] is computed on the
    two's complement expansion, which agrees with every width. *)

From S2P Require Import Prelude.
From Stdlib Require Import Znumtheory.

Module IntMath.

(** [for (i = 5; i*i <= n; i += 6)]; [i] grows past [n] in [n] rounds. *)
Fixpoint isPrime_loop (fuel : nat) (n i : Z) : result bool :=
  if i * i <=? n then
    match fuel with
    | O => Err (UB "non-terminating loop")
    | S fuel' =>
        if (Z.rem n i =? 0) || (Z.rem n (i + 2) =? 0) then Ok false
        else isPrime_loop fuel' n (i + 6)
    end
  else Ok true.

Definition isPrime (n : Z) : result bool :=
  if (n =? 2) || (n =? 3) then Ok true else isPrime_loop (Z.to_nat n) n 5.

Definition leastSigBit (n : Z) : Z := Z.land n (Z.lnot (n - 1)).

Definition isPowerOf2 (n : Z) : bool := negb (n =? 0) && (leastSigBit n =? n).

(** [uint64_t power(uint32_t n, uint32_t e)]: [e - 1] multiplications. *)
Fixpoint power_loop (k : nat) (n res : Z) : Z :=
  match k with O => res | S k' => power_loop k' n (u64 (res * n)) end.

Definition power (n e : Z) : Z :=
  if e =? 0 then 1 else power_loop (Z.to_nat (e - 1)) n n.

(** One line [if (x & m) { y += k; x >>= k; }] of [floorLog2]. *)
Definition log_step (m k : Z) (xy : Z * Z) : Z * Z :=
  let '(x, y) := xy in
  if negb (Z.land x m =? 0) then (Z.shiftr x k, y + k) else (x, y).

(** [floorLog2(unsigned)]. *)
Definition floorLog2_32 (x : Z) : result Z :=
  if 0 <? x then
    let '(x, y) := log_step 0x0000000c 2 (log_step 0x000000f0 4
      (log_step 0x0000ff00 8 (log_step 0xffff0000 16 (x, 0)))) in
    Ok (if negb (Z.land x 2 =? 0) then y + 1 else y)
  else Err (AssertFail "floorLog2").

(** [floorLog2(unsigned long)] on an LP64 target and
    [floorLog2(unsigned long long)]. *)
Definition floorLog2_64 (x : Z) : result Z :=
  if 0 <? x then
    let '(x, y) := log_step 0x0000000c 2 (log_step 0x000000f0 4
      (log_step 0x0000ff00 8 (log_step 0xffff0000 16
      (log_step 0xffffffff00000000 32 (x, 0))))) in
    Ok (if negb (Z.land x 2 =? 0) then y + 1 else y)
  else Err (AssertFail "floorLog2").

(** [floorLog2(int)]: asserts and converts. *)
Definition floorLog2_int (x : Z) : result Z :=
  if 0 <? x then floorLog2_32 (u32 x) else Err (AssertFail "floorLog2").

(** The templates at [uint64_t]. *)
Definition ceilLog2 (n : Z) : result Z :=
  if n =? 1 then Ok 0 else l ← floorLog2_64 (u64 (n - 1)); Ok (l + 1).

Definition floorPow2 (n : Z) : result Z :=
  l ← floorLog2_64 n; Ok (u64 (Z.shiftl 1 l)).

(** A shift by the width of the type is undefined. *)
Definition ceilPow2 (n : Z) : result Z :=
  l ← ceilLog2 n;
  if l <? 64 then Ok (u64 (Z.shiftl 1 l)) else Err (UB "shift").

Definition divCeil (a b : Z) : result Z :=
  if b =? 0 then Err (UB "division by zero") else Ok (u64 (a + b - 1) / b).

Definition roundUp (val align : Z) : Z :=
  let mask := u64 (align - 1) in Z.land (u64 (val + mask)) (u64 (Z.lnot mask)).

Definition roundDown (val align : Z) : Z :=
  let mask := u64 (align - 1) in Z.land val (u64 (Z.lnot mask)).

(** Characters are their codes. *)
Definition between (lo c hi : Z) : bool := (lo <=? c) && (c <=? hi).
Definition isHex (c : Z) : bool :=
  between 48 c 57 || between 65 c 70 || between 97 c 102.
Definition isOct (c : Z) : bool := between 48 c 55.
Definition isDec (c : Z) : bool := between 48 c 57.
Definition hex2Int (c : Z) : Z :=
  if between 48 c 57 then c - 48
  else if between 65 c 70 then c - 65 + 10
  else if between 97 c 102 then c - 97 + 10
  else 0.

(** [prevPrime] walks down over the numbers that 2 and 3 do not divide. *)
Fixpoint prevPrime_loop (fuel : nat) (n decr : Z) : result Z :=
  match fuel with
  | O => Err (UB "non-terminating loop")
  | S fuel' =>
      p ← isPrime n;
      match p with
      | true => Ok n
      | false => prevPrime_loop fuel' (n - decr) (6 - decr)
      end
  end.

Definition prevPrime (n0 : Z) : result Z :=
  let n := if Z.land n0 1 =? 0 then n0 - 1 else n0 in
  let decr := Z.rem n 3 in
  let '(n, decr) :=
    if decr =? 0 then (n - 2, 2) else if decr =? 1 then (n, 4) else (n, decr) in
  prevPrime_loop (S (Z.to_nat n)) n decr.

(** ** Logarithms *)

(** Testing the upper half of a [2k]-bit value. *)
Lemma land_high k x :
  0 < k -> 0 <= x < 2 ^ (2 * k) ->
  Z.land x (2 ^ (2 * k) - 2 ^ k) = x / 2 ^ k * 2 ^ k.
Proof.
  intros Hk Hx.
  assert (2 ^ (2 * k) - 2 ^ k = Z.ones k * 2 ^ k) as ->.
  { rewrite Z.ones_equiv. replace (2 * k) with (k + k) by lia.
    rewrite Z.pow_add_r by lia. lia. }
  rewrite <- !Z.shiftl_mul_pow2, <- Z.shiftr_div_pow2 by lia.
  apply Z.bits_inj'. intros n Hn. rewrite Z.land_spec.
  destruct (decide (n < k)) as [Hlt|Hge].
  - rewrite !Z.shiftl_spec_low by done. by rewrite andb_false_r.
  - rewrite !Z.shiftl_spec, Z.shiftr_spec by lia.
    replace (n - k + k) with n by lia.
    destruct (decide (n - k < k)) as [H1|H1].
    + rewrite Z.ones_spec_low by lia. by rewrite andb_true_r.
    + rewrite Z.ones_spec_high by lia. rewrite andb_false_r.
      rewrite <- (Z.mod_small x (2 ^ (2 * k))) by done.
      by rewrite Z.mod_pow2_bits_high by lia.
Qed.

(** A step halves the width and keeps [log2 x + y]. *)
Lemma log_step_spec k m x y :
  0 < k -> m = 2 ^ (2 * k) - 2 ^ k -> 0 < x < 2 ^ (2 * k) ->
  exists x' y', log_step m k (x, y) = (x', y') /\ 0 < x' < 2 ^ k /\
    y' + Z.log2 x' = y + Z.log2 x.
Proof.
  intros Hk -> Hx. cbn [log_step]. rewrite land_high by lia.
  assert (0 < 2 ^ k) by (apply Z.pow_pos_nonneg; lia).
  replace (2 * k) with (k + k) in Hx by lia. rewrite Z.pow_add_r in Hx by lia.
  destruct (decide (x < 2 ^ k)) as [Hlt|Hge].
  - rewrite Z.div_small by lia. cbn. exists x, y. split; [done|]. lia.
  - assert (1 <= x / 2 ^ k) by (apply Z.div_le_lower_bound; lia).
    rewrite (proj2 (Z.eqb_neq _ _)) by nia. cbn.
    eexists _, _. split; [done|]. rewrite Z.log2_shiftr, Z.shiftr_div_pow2 by lia.
    assert (k <= Z.log2 x) by (apply Z.log2_le_pow2; lia).
    split; [|lia]. split; [lia|]. apply Z.div_lt_upper_bound; lia.
Qed.

Lemma log_last x y :
  0 < x < 4 -> (if negb (Z.land x 2 =? 0) then y + 1 else y) = y + Z.log2 x.
Proof.
  intros Hx. assert (x = 1 \/ x = 2 \/ x = 3) as [Hx'|[Hx'|Hx']] by lia; subst x;
    [change (Z.log2 1) with 0|change (Z.log2 2) with 1|change (Z.log2 3) with 1];
    simpl; lia.
Qed.

Ltac log_steps :=
  repeat match goal with
  | |- context [log_step ?m ?k (?x, ?y)] =>
      let H := fresh in
      destruct (log_step_spec k m x y) as (? & ? & H & ? & ?); [lia|lia|lia|]; rewrite H
  end.

Lemma floorLog2_32_spec x : 0 < x < 2 ^ 32 -> floorLog2_32 x = Ok (Z.log2 x).
Proof.
  intros Hx. unfold floorLog2_32. rewrite (proj2 (Z.ltb_lt 0 x)) by lia.
  log_steps. rewrite log_last by lia. f_equal. lia.
Qed.

Lemma floorLog2_64_spec x : 0 < x < 2 ^ 64 -> floorLog2_64 x = Ok (Z.log2 x).
Proof.
  intros Hx. unfold floorLog2_64. rewrite (proj2 (Z.ltb_lt 0 x)) by lia.
  log_steps. rewrite log_last by lia. f_equal. lia.
Qed.

(** The bit-mask ladders compute the binary logarithm: on every positive
    argument of their width [floorLog2] returns the exponent of the highest
    set bit, [ceilLog2] the rounded-up logarithm, and [floorPow2] the largest
    power of two that is not larger. *)
Theorem log2_correct x :
  0 < x < 2 ^ 64 ->
  floorLog2_64 x = Ok (Z.log2 x) /\
  (x < 2 ^ 32 -> floorLog2_32 x = Ok (Z.log2 x)) /\
  (x < 2 ^ 31 -> floorLog2_int x = Ok (Z.log2 x)) /\
  ceilLog2 x = Ok (Z.log2_up x) /\
  floorPow2 x = Ok (2 ^ Z.log2 x) /\
  (x <= 2 ^ 63 -> ceilPow2 x = Ok (2 ^ Z.log2_up x)).
Proof.
  intros Hx. pose proof (Z.log2_nonneg x).
  assert (Z.log2 x < 64) by (apply Z.log2_lt_pow2; lia).
  assert (ceilLog2 x = Ok (Z.log2_up x)) as Hceil.
  { unfold ceilLog2. destruct (decide (x = 1)) as [->|Hne]; [done|].
    rewrite (proj2 (Z.eqb_neq _ _)) by done. rewrite u64_small by (zwidth; lia).
    rewrite floorLog2_64_spec, bind_Ok_run by lia. f_equal.
    rewrite Z.log2_up_eqn by lia. rewrite <- Z.sub_1_r. lia. }
  split_and!.
  - by apply floorLog2_64_spec.
  - intros. apply floorLog2_32_spec. lia.
  - intros. unfold floorLog2_int. rewrite (proj2 (Z.ltb_lt 0 x)) by lia.
    rewrite u32_small by (zwidth; lia). apply floorLog2_32_spec. lia.
  - done.
  - unfold floorPow2. rewrite floorLog2_64_spec, bind_Ok_run by lia.
    rewrite Z.shiftl_1_l, u64_small; [done|]. zwidth.
    split; [apply Z.pow_nonneg; lia|]. apply Z.pow_lt_mono_r; lia.
  - intros Hle. unfold ceilPow2. rewrite Hceil, bind_Ok_run.
    pose proof (Z.log2_up_nonneg x).
    assert (Z.log2_up x <= 63) by (apply Z.log2_up_le_pow2; lia).
    rewrite (proj2 (Z.ltb_lt _ _)) by lia. rewrite Z.shiftl_1_l, u64_small; [done|].
    zwidth. split; [apply Z.pow_nonneg; lia|]. apply Z.pow_lt_mono_r; lia.
Qed.

Lemma log2_correct_witness : floorLog2_64 1000 = Ok 9.
Proof. refine (proj1 (log2_correct 1000 _)). lia. Defined.

(** ** Powers of two and alignment *)
Lemma land_pred_pow2 q k :
  0 <= k -> Z.odd q = true -> Z.land (q * 2 ^ k) (Z.lnot (q * 2 ^ k - 1)) = 2 ^ k.
Proof.
  intros Hk Hq. apply Z.bits_inj'. intros n Hn. rewrite Z.land_spec, Z.lnot_spec by done.
  rewrite Z.pow2_bits_eqb by done.
  destruct (decide (n < k)) as [Hlt|Hge].
  - rewrite Z.mul_pow2_bits_low by done. symmetry. apply Z.eqb_neq. lia.
  - rewrite Z.mul_pow2_bits by lia.
    assert (Z.testbit (q * 2 ^ k - 1) n = Z.testbit (q - 1) (n - k)) as ->.
    { replace n with (n - k + k) at 1 by lia. rewrite <- Z.div_pow2_bits by lia.
      f_equal. symmetry. apply Z.div_unique_pos with (2 ^ k - 1).
      - assert (0 < 2 ^ k) by (apply Z.pow_pos_nonneg; lia). lia.
      - lia. }
    rewrite (Z.odd_spec q) in Hq. destruct Hq as [h ->].
    replace (2 * h + 1 - 1) with (2 * h) by lia.
    destruct (decide (n = k)) as [->|Hne].
    + rewrite Z.sub_diag, Z.testbit_odd_0, Z.testbit_even_0, Z.eqb_refl. done.
    + replace (n - k) with (Z.succ (n - k - 1)) by lia.
      rewrite Z.testbit_odd_succ, Z.testbit_even_succ by lia.
      rewrite (proj2 (Z.eqb_neq k n)) by lia. by destruct (Z.testbit h _).
Qed.

Lemma odd_part n : 0 < n -> exists q k, 0 <= k /\ Z.odd q = true /\ n = q * 2 ^ k.
Proof.
  intros Hn. destruct n as [|p|p]; try lia. clear Hn.
  induction p as [p IH|p IH|].
  - exists (Zpos p~1), 0. rewrite Z.mul_1_r. done.
  - destruct IH as (q & k & Hk & Hq & E). exists q, (k + 1). split; [lia|]. split; [done|].
    rewrite Z.pow_add_r by lia. lia.
  - exists 1, 0. done.
Qed.

(** [isPowerOf2] decides whether a non-negative number is a power of two,
    and [leastSigBit] isolates the lowest set bit. *)
Theorem isPowerOf2_correct n :
  0 <= n ->
  (isPowerOf2 n = true <-> exists k, 0 <= k /\ n = 2 ^ k) /\
  (forall q k, 0 <= k -> Z.odd q = true -> n = q * 2 ^ k -> leastSigBit n = 2 ^ k).
Proof.
  intros Hn. split; [|intros q k Hk Hq ->; by apply land_pred_pow2].
  unfold isPowerOf2, leastSigBit. split.
  - intros H. bool_to_Z. destruct (odd_part n) as (q & k & Hk & Hq & E); [lia|].
    rewrite E in H0. rewrite land_pred_pow2 in H0 by done. exists k. lia.
  - intros (k & Hk & ->). assert (0 < 2 ^ k) by (apply Z.pow_pos_nonneg; lia).
    rewrite (proj2 (Z.eqb_neq _ _)) by lia. apply Z.eqb_eq.
    pose proof (land_pred_pow2 1 k Hk eq_refl) as H1. by rewrite Z.mul_1_l in H1.
Qed.

Lemma isPowerOf2_correct_witness : leastSigBit 24 = 8.
Proof.
  refine (proj2 (isPowerOf2_correct 24 _) 3 3 _ _ _); try reflexivity; lia.
Defined.

(** Clearing the low [k] bits. *)
Lemma land_not_low val k :
  0 <= k <= 64 -> is_u64 val ->
  Z.land val (u64 (Z.lnot (2 ^ k - 1))) = val - val mod 2 ^ k.
Proof.
  intros Hk Hv.
  assert (0 < 2 ^ k) by (apply Z.pow_pos_nonneg; lia).
  assert (val - val mod 2 ^ k = val / 2 ^ k * 2 ^ k) as ->
    by (pose proof (Z.div_mod val (2 ^ k)); lia).
  rewrite <- Z.shiftr_div_pow2, <- Z.shiftl_mul_pow2 by lia.
  replace (2 ^ k - 1) with (Z.ones k) by (rewrite Z.ones_equiv; lia).
  unfold u64. apply Z.bits_inj'. intros n Hn. rewrite Z.land_spec.
  destruct (decide (n < 64)) as [H64|H64].
  - rewrite Z.mod_pow2_bits_low, Z.lnot_spec by lia.
    destruct (decide (n < k)).
    + rewrite Z.ones_spec_low, Z.shiftl_spec_low by lia. by rewrite andb_false_r.
    + rewrite Z.ones_spec_high, Z.shiftl_spec, Z.shiftr_spec by lia.
      rewrite andb_true_r. f_equal. lia.
  - rewrite Z.mod_pow2_bits_high by lia. rewrite andb_false_r.
    rewrite Z.shiftl_spec, Z.shiftr_spec by lia.
    replace (n - k + k) with n by lia. unfold is_u64 in Hv.
    rewrite <- (Z.mod_small val (2 ^ 64)) by done.
    by rewrite Z.mod_pow2_bits_high by lia.
Qed.

(** With a power-of-two alignment [roundDown] returns the largest multiple
    of it that is not above the value, and [roundUp] the smallest that is not
    below, when that fits in 64 bits. *)
Theorem round_correct val k :
  0 <= k < 31 -> is_u64 val ->
  roundDown val (2 ^ k) = 2 ^ k * (val / 2 ^ k) /\
  (val + 2 ^ k - 1 < 2 ^ 64 ->
   exists m, roundUp val (2 ^ k) = 2 ^ k * m /\
     2 ^ k * (m - 1) < val <= 2 ^ k * m).
Proof.
  intros Hk Hv. assert (0 < 2 ^ k) by (apply Z.pow_pos_nonneg; lia).
  assert (2 ^ k < 2 ^ 31) by (apply Z.pow_lt_mono_r; lia).
  unfold roundDown, roundUp. rewrite (u64_small (2 ^ k - 1)) by (zwidth; lia). split.
  - rewrite land_not_low by (done || lia). pose proof (Z.div_mod val (2 ^ k)). lia.
  - intros Hlt. rewrite (u64_small (val + _)) by (zwidth; lia).
    rewrite land_not_low by (zwidth; lia).
    exists ((val + (2 ^ k - 1)) / 2 ^ k).
    pose proof (Z.div_mod (val + (2 ^ k - 1)) (2 ^ k) ltac:(lia)).
    pose proof (Z.mod_pos_bound (val + (2 ^ k - 1)) (2 ^ k) ltac:(lia)).
    split; lia.
Qed.

Lemma round_correct_witness :
  exists m, roundUp 100 (2 ^ 6) = 2 ^ 6 * m /\ 2 ^ 6 * (m - 1) < 100 <= 2 ^ 6 * m.
Proof. refine (proj2 (round_correct 100 6 _ _) _); [|zwidth|]; lia. Defined.

(** ** Powers *)
Lemma power_loop_spec k n r : u64 (power_loop k n r) = u64 (r * n ^ Z.of_nat k).
Proof.
  revert r. induction k as [|k IH]; intros r; cbn [power_loop].
  - by rewrite Z.mul_1_r.
  - rewrite IH, Nat2Z.inj_succ, Z.pow_succ_r by lia. unfold u64.
    rewrite Z.mul_mod_idemp_l by lia. f_equal. lia.
Qed.

(** [power] is exponentiation modulo 2^64. *)
Lemma power_correct n e : is_u32 n -> 0 <= e -> power n e = u64 (n ^ e).
Proof.
  intros Hn He. unfold power. destruct (e =? 0) eqn:E; bool_to_Z.
  { by subst. }
  assert (is_u64 (power_loop (Z.to_nat (e - 1)) n n)) as Hr.
  { destruct (Z.to_nat (e - 1)) as [|k]; [zwidth; cbn; lia|]. cbn [power_loop].
    generalize (n * n). induction k as [|k IH]; intros r; cbn [power_loop];
      [apply u64_range|apply IH]. }
  rewrite <- (u64_small _ Hr), power_loop_spec, Z2Nat.id by lia.
  rewrite <- Z.pow_succ_r by lia. do 2 f_equal. lia.
Qed.

(** ** Primes *)
Lemma isPrime_loop_spec fuel n i :
  5 <= i -> n - i <= Z.of_nat fuel * 6 -> 
  exists b, isPrime_loop fuel n i = Ok b /\
    (b = true <-> forall j, 0 <= j -> (i + 6 * j) * (i + 6 * j) <= n ->
       ~ (i + 6 * j | n) /\ ~ (i + 6 * j + 2 | n)).
Proof.
  revert i. induction fuel as [|fuel IH]; intros i Hi Hf; cbn [isPrime_loop].
  { rewrite (proj2 (Z.leb_gt _ _)) by nia. exists true. split; [done|].
    split; [|done]. intros _ j Hj Hle. nia. }
  destruct (i * i <=? n) eqn:E; bool_to_Z.
  - destruct ((Z.rem n i =? 0) || (Z.rem n (i + 2) =? 0)) eqn:Er.
    + exists false. split; [done|]. split; [done|]. intros H. exfalso.
      destruct (H 0) as [H1 H2]; [lia|nia|].
      replace (i + 6 * 0) with i in * by lia.
      apply orb_true_iff in Er as [Er|Er]; bool_to_Z;
        apply Z.rem_divide in Er; (lia || done).
    + bool_to_Z. destruct (IH (i + 6)) as (b & -> & Hb); [lia|lia|].
      exists b. split; [done|]. rewrite Hb. split; intros Hall j Hj Hle.
      * destruct (decide (j = 0)) as [->|].
        -- replace (i + 6 * 0) with i by lia.
           split; intros Hd%Z.rem_divide; (lia || done).
        -- replace (i + 6 * j) with (i + 6 + 6 * (j - 1)) in * by lia.
           apply Hall; [lia|done].
      * replace (i + 6 + 6 * j) with (i + 6 * (j + 1)) in * by lia. apply Hall; [lia|done].
  - exists true. split; [done|]. split; [|done]. intros _ j Hj Hle. nia.
Qed.

Lemma no_small_divisor_prime n :
  1 < n -> (forall d, 1 < d -> d * d <= n -> ~ (d | n)) -> prime n.
Proof.
  intros Hn H. apply prime_alt. split; [done|]. intros d Hd [q Hq].
  destruct (decide (d * d <= n)) as [Hs|Hs].
  - apply (H d); [lia|done|]. by exists q.
  - apply (H q); [nia|nia|]. exists d. lia.
Qed.

(** Trial division by the numbers of the form 6j-1 and 6j+1 decides
    primality for the numbers that neither 2 nor 3 divides. *)
Theorem isPrime_correct n :
  1 < n -> n mod 2 <> 0 -> n mod 3 <> 0 ->
  exists b, isPrime n = Ok b /\ (b = true <-> prime n).
Proof.
  intros Hn H2 H3. unfold isPrime.
  assert (n <> 2 /\ n <> 3) as [Hn2 Hn3] by (split; intros ->; done).
  rewrite (proj2 (Z.eqb_neq _ _) Hn2), (proj2 (Z.eqb_neq _ _) Hn3). cbn [orb].
  destruct (isPrime_loop_spec (Z.to_nat n) n 5) as (b & -> & Hb); [lia|lia|].
  exists b. split; [done|]. rewrite Hb. split.
  - intros H. apply no_small_divisor_prime; [done|]. intros d Hd Hle [q Hq].
    assert (d mod 2 <> 0) as Hd2.
    { intros E. apply H2. rewrite Hq, Z.mul_mod, E, Z.mul_0_r by lia. done. }
    assert (d mod 3 <> 0) as Hd3.
    { intros E. apply H3. rewrite Hq, Z.mul_mod, E, Z.mul_0_r by lia. done. }
    assert (d mod 6 = 5 \/ d mod 6 = 1) as [E|E] by (Z.to_euclidean_division_equations; lia).
    + destruct (H (d / 6)) as [Hx _]; [Z.to_euclidean_division_equations; lia| |].
      * replace (5 + 6 * (d / 6)) with d by (Z.to_euclidean_division_equations; lia). done.
      * apply Hx. replace (5 + 6 * (d / 6)) with d by (Z.to_euclidean_division_equations; lia).
        by exists q.
    + destruct (H (d / 6 - 1)) as [_ Hx]; [Z.to_euclidean_division_equations; lia| |].
      * assert (5 + 6 * (d / 6 - 1) = d - 2) as -> by (Z.to_euclidean_division_equations; lia).
        nia.
      * apply Hx. replace (5 + 6 * (d / 6 - 1) + 2) with d
          by (Z.to_euclidean_division_equations; lia). by exists q.
  - intros [_ Hp]%prime_alt j Hj Hle. split; apply Hp; nia.
Qed.

Lemma isPrime_correct_witness : exists b, isPrime 91 = Ok b /\ (b = true <-> prime 91).
Proof. apply (isPrime_correct 91); [lia|discriminate|discriminate]. Defined.

(** The restriction matters: multiples of 2 and 3 pass. *)
Example isPrime_even : isPrime 4 = Ok true /\ isPrime 9 = Ok true /\ isPrime 1 = Ok true.
Proof. done. Qed.

End IntMath.
