(* ===== verification/Bitfield.v ===== *)
(** * Bit fields and physical addresses
    (src/src/base/bitfield.hh; src/src/mem/ruby/common/Address.{hh,cc}).

    64-bit unsigned values; bits are described by [Z.testbit]. *)

From S2P Require Import Prelude.
From S2P Require Import IntMath.
From S2P Require Import Requests.
Import IntMath Requests.

Module Bitfield.

Definition ones64 : Z := 2 ^ 64 - 1.
Definition shl64 (x k : Z) : Z := u64 (Z.shiftl x k).
Definition not64 (x : Z) : Z := u64 (Z.lnot x).

Definition mask (nbits : Z) : Z :=
  if nbits =? 64 then ones64 else u64 (shl64 1 nbits - 1).

Definition bits (val first last : Z) : Z :=
  Z.land (Z.shiftr val last) (mask (first - last + 1)).

Definition mbits (val first last : Z) : Z :=
  Z.land val (Z.land (mask (first + 1)) (not64 (mask last))).

Definition mask_range (first last : Z) : Z := mbits ones64 first last.

(** [sext<N>], the result read as a signed number. *)
Definition sext (N val : Z) : Z :=
  i64 (if negb (bits val (N - 1) (N - 1) =? 0)
       then Z.lor val (not64 (mask N)) else val).

Definition insertBits (val first last bit_val : Z) : Z :=
  let bmask := shl64 (mask (first - last + 1)) last in
  Z.lor (Z.land (shl64 bit_val last) bmask) (Z.land val (not64 bmask)).

(** One line [if (bits(val, ..)) { msb += k; val >>= k; }]. *)
Definition msb_step (first last : Z) (vm : Z * Z) : Z * Z :=
  let '(val, msb) := vm in
  if negb (bits val first last =? 0) then (Z.shiftr val last, msb + last) else (val, msb).

Definition findMsbSet (val : Z) : Z :=
  if val =? 0 then 0 else
  let '(val, msb) := msb_step 3 2 (msb_step 7 4 (msb_step 15 8 (msb_step 31 16
    (msb_step 63 32 (val, 0))))) in
  if negb (bits val 1 1 =? 0) then msb + 1 else msb.

Definition lsb_step (k : Z) (vl : Z * Z) : Z * Z :=
  let '(val, lsb) := vl in
  if bits val (k - 1) 0 =? 0 then (Z.shiftr val k, lsb + k) else (val, lsb).

Definition findLsbSet (val : Z) : Z :=
  if val =? 0 then 64 else
  let '(val, lsb) := lsb_step 2 (lsb_step 4 (lsb_step 8 (lsb_step 16
    (lsb_step 32 (val, 0))))) in
  if bits val 0 0 =? 0 then lsb + 1 else lsb.

(** ** Fields *)
Lemma mask_ones n : 0 <= n <= 64 -> mask n = Z.ones n.
Proof.
  intros Hn. unfold mask. destruct (n =? 64) eqn:E; bool_to_Z.
  - by subst.
  - unfold shl64. rewrite Z.shiftl_1_l, Z.ones_equiv.
    assert (0 < 2 ^ n < 2 ^ 64)
      by (split; [apply Z.pow_pos_nonneg|apply Z.pow_lt_mono_r]; lia).
    rewrite (u64_small (2 ^ n)) by (zwidth; lia). rewrite u64_small; [lia|zwidth; lia].
Qed.

Lemma bits_div_mod val first last :
  0 <= last <= first -> first <= 63 ->
  bits val first last = (val / 2 ^ last) mod 2 ^ (first - last + 1).
Proof.
  intros H1 H2. unfold bits. rewrite mask_ones by lia.
  rewrite Z.land_ones, Z.shiftr_div_pow2 by lia. done.
Qed.

Lemma testbit_u64 x n : 0 <= n -> Z.testbit (u64 x) n = (n <? 64) && Z.testbit x n.
Proof.
  intros Hn. unfold u64. destruct (n <? 64) eqn:E; bool_to_Z.
  - by rewrite Z.mod_pow2_bits_low by lia.
  - by rewrite Z.mod_pow2_bits_high by lia.
Qed.

Lemma testbit_ones n i : 0 <= n -> 0 <= i -> Z.testbit (Z.ones n) i = (i <? n).
Proof.
  intros Hn Hi. destruct (i <? n) eqn:E; bool_to_Z.
  - by apply Z.ones_spec_low.
  - by apply Z.ones_spec_high.
Qed.

Lemma testbit_shl64 x k n :
  0 <= k -> 0 <= n -> Z.testbit (shl64 x k) n = (k <=? n) && (n <? 64) && Z.testbit x (n - k).
Proof.
  intros Hk Hn. unfold shl64. rewrite testbit_u64, Z.shiftl_spec by done.
  destruct (k <=? n) eqn:E; bool_to_Z; [done|].
  rewrite Z.testbit_neg_r by lia. by rewrite andb_false_r.
Qed.

Lemma testbit_not64 x n : 0 <= n -> Z.testbit (not64 x) n = (n <? 64) && negb (Z.testbit x n).
Proof. intros Hn. unfold not64. by rewrite testbit_u64, Z.lnot_spec. Qed.

(** [insertBits] writes the low bits of [bit_val] into the field and leaves
    every other bit alone, so [bits] reads the written value back. *)
Theorem insertBits_correct val first last bit_val :
  0 <= last <= first -> first <= 63 -> is_u64 val -> 0 <= bit_val ->
  (forall n, 0 <= n < 64 ->
     Z.testbit (insertBits val first last bit_val) n =
     if (last <=? n) && (n <=? first) then Z.testbit bit_val (n - last)
     else Z.testbit val n) /\
  bits (insertBits val first last bit_val) first last
  = bit_val mod 2 ^ (first - last + 1).
Proof.
  intros H1 H2 Hv Hb.
  assert (forall n, 0 <= n < 64 ->
     Z.testbit (insertBits val first last bit_val) n =
     if (last <=? n) && (n <=? first) then Z.testbit bit_val (n - last)
     else Z.testbit val n) as Hbits.
  { intros n Hn. unfold insertBits. rewrite mask_ones by lia.
    rewrite Z.lor_spec, !Z.land_spec, testbit_not64, !testbit_shl64 by lia.
    rewrite (proj2 (Z.ltb_lt n 64)) by lia.
    destruct (last <=? n) eqn:E; bool_to_Z; cbn [andb].
    - rewrite testbit_ones by lia.
      destruct (n <=? first) eqn:E2; bool_to_Z.
      + rewrite (proj2 (Z.ltb_lt _ _)) by lia. cbn. by rewrite !andb_true_r, andb_false_r, orb_false_r.
      + rewrite (proj2 (Z.ltb_ge _ _)) by lia. cbn. by rewrite andb_false_r, andb_true_r.
    - cbn. by rewrite andb_true_r. }
  split; [done|]. unfold bits. rewrite mask_ones, <- Z.land_ones by lia.
  apply Z.bits_inj'. intros n Hn. rewrite !Z.land_spec, Z.shiftr_spec, testbit_ones by lia.
  destruct (n <? first - last + 1) eqn:E; bool_to_Z; [|by rewrite !andb_false_r].
  rewrite !andb_true_r, Hbits by lia.
  rewrite (proj2 (Z.leb_le last _)), (proj2 (Z.leb_le _ first)) by lia. cbn. f_equal. lia.
Qed.

Lemma insertBits_correct_witness : bits (insertBits 0xff00 7 4 0xa) 7 4 = 0xa.
Proof.
  refine (proj2 (insertBits_correct 0xff00 7 4 0xa _ _ _ _)); [| |zwidth|]; lia.
Defined.

(** [sext] is the two's complement reading of the low [N] bits. *)
Lemma sext_correct N val :
  0 < N <= 64 -> 0 <= val < 2 ^ N ->
  sext N val = if val <? 2 ^ (N - 1) then val else val - 2 ^ N.
Proof.
  intros HN Hv. unfold sext. rewrite bits_div_mod by lia.
  replace (N - 1 - (N - 1) + 1) with 1 by lia.
  assert (2 ^ N = 2 * 2 ^ (N - 1)) as Hp by (rewrite <- Z.pow_succ_r by lia; f_equal; lia).
  assert (0 < 2 ^ (N - 1)) by (apply Z.pow_pos_nonneg; lia).
  assert (2 ^ (N - 1) <= 2 ^ 63) by (apply Z.pow_le_mono_r; lia).
  destruct (val <? 2 ^ (N - 1)) eqn:E; bool_to_Z.
  - rewrite Z.div_small by lia. change (0 mod 2 ^ 1 =? 0) with true. cbn [negb].
    zwidth. rewrite Z.mod_small; lia.
  - assert (val / 2 ^ (N - 1) = 1) as ->
      by (symmetry; apply Z.div_unique_pos with (val - 2 ^ (N - 1)); lia).
    change (1 mod 2 ^ 1 =? 0) with false. cbn [negb]. rewrite mask_ones by lia.
    assert (Z.lor val (not64 (Z.ones N)) = val + (2 ^ 64 - 2 ^ N)) as ->.
    { unfold not64, Z.lnot. rewrite Z.ones_equiv.
      replace (u64 (Z.pred (- Z.pred (2 ^ N)))) with (2 ^ 64 - 2 ^ N).
      - rewrite Z.lor_comm, Z.add_comm.
        replace (2 ^ 64 - 2 ^ N) with ((2 ^ (64 - N) - 1) * 2 ^ N).
        + by rewrite lor_shifted_low by lia.
        + rewrite Z.mul_sub_distr_r, <- Z.pow_add_r by lia. f_equal; [f_equal|]; lia.
      - unfold u64. apply Z.mod_unique_pos with (-1); lia. }
    zwidth. replace (val + (2 ^ 64 - 2 ^ N) + 2 ^ 63)
      with (val - 2 ^ N + 2 ^ 63 + 1 * 2 ^ 64) by lia.
    rewrite Z.mod_add by lia. rewrite Z.mod_small; lia.
Qed.

(** ** First and last set bit *)
Lemma msb_step_log k val msb :
  0 < k <= 32 -> 0 <= val < 2 ^ (2 * k) ->
  msb_step (2 * k - 1) k (val, msb) = log_step (2 ^ (2 * k) - 2 ^ k) k (val, msb).
Proof.
  intros Hk Hv. cbn [msb_step log_step]. rewrite land_high by lia.
  rewrite bits_div_mod by lia. replace (2 * k - 1 - k + 1) with k by lia.
  assert (0 < 2 ^ k) by (apply Z.pow_pos_nonneg; lia).
  assert (2 ^ (2 * k) = 2 ^ k * 2 ^ k) as Hp by (rewrite <- Z.pow_add_r by lia; f_equal; lia).
  assert (0 <= val / 2 ^ k < 2 ^ k)
    by (split; [apply Z.div_pos|apply Z.div_lt_upper_bound]; lia).
  rewrite (Z.mod_small (val / 2 ^ k)) by done.
  destruct (decide (val / 2 ^ k = 0)) as [->|Hne]; [done|].
  by rewrite !(proj2 (Z.eqb_neq _ _)) by nia.
Qed.

Lemma msb_step_spec first k val msb :
  first = 2 * k - 1 -> 0 < k <= 32 -> 0 < val < 2 ^ (2 * k) ->
  exists val' msb', msb_step first k (val, msb) = (val', msb') /\
    0 < val' < 2 ^ k /\ msb' + Z.log2 val' = msb + Z.log2 val.
Proof. intros ->. intros. rewrite msb_step_log by lia. by apply log_step_spec; [lia|..]. Qed.

Lemma lsb_step_spec k val lsb :
  0 < k <= 32 -> 0 < val -> val mod 2 ^ (2 * k) <> 0 ->
  exists val' lsb', lsb_step k (val, lsb) = (val', lsb') /\
    0 < val' /\ val' mod 2 ^ k <> 0 /\ lsb <= lsb' /\ val = val' * 2 ^ (lsb' - lsb).
Proof.
  intros Hk Hv Hm. cbn [lsb_step]. rewrite bits_div_mod by lia.
  replace (k - 1 - 0 + 1) with k by lia. rewrite Z.div_1_r.
  destruct (val mod 2 ^ k =? 0) eqn:E; bool_to_Z.
  - eexists _, _. split; [done|]. rewrite Z.shiftr_div_pow2 by lia.
    assert (0 < 2 ^ k) by (apply Z.pow_pos_nonneg; lia).
    pose proof (Z.div_mod val (2 ^ k) ltac:(lia)) as Hd.
    split_and!; [nia| |lia|].
    + intros E2. apply Hm. replace (2 * k) with (k + k) by lia.
      rewrite Z.pow_add_r by lia. rewrite Z.rem_mul_r by lia. lia.
    + replace (lsb + k - lsb) with k by lia. lia.
  - exists val, lsb. split_and!; try done; rewrite Z.sub_diag; lia.
Qed.

(** The binary searches find the highest and the lowest set bit. *)
Theorem find_set_correct val :
  0 < val < 2 ^ 64 ->
  findMsbSet val = Z.log2 val /\
  exists q, Z.odd q = true /\ 0 <= findLsbSet val /\ val = q * 2 ^ findLsbSet val.
Proof.
  intros Hv. unfold findMsbSet, findLsbSet. rewrite (proj2 (Z.eqb_neq val 0)) by lia. split.
  - destruct (msb_step_spec 63 32 val 0) as (v1 & m1 & -> & ? & ?); [lia..|].
    destruct (msb_step_spec 31 16 v1 m1) as (v2 & m2 & -> & ? & ?); [lia..|].
    destruct (msb_step_spec 15 8 v2 m2) as (v3 & m3 & -> & ? & ?); [lia..|].
    destruct (msb_step_spec 7 4 v3 m3) as (v4 & m4 & -> & ? & ?); [lia..|].
    destruct (msb_step_spec 3 2 v4 m4) as (v5 & m5 & -> & ? & ?); [lia..|].
    assert (v5 = 1 \/ v5 = 2 \/ v5 = 3) as [E|[E|E]] by lia; subst v5;
      [change (Z.log2 1) with 0 in *|change (Z.log2 2) with 1 in *
      |change (Z.log2 3) with 1 in *]; simpl; lia.
  - destruct (lsb_step_spec 32 val 0) as (v1 & l1 & -> & ? & ? & ? & E1); [lia|lia| |].
    { rewrite Z.mod_small by lia. lia. }
    destruct (lsb_step_spec 16 v1 l1) as (v2 & l2 & -> & ? & ? & ? & E2); [lia..|done|].
    destruct (lsb_step_spec 8 v2 l2) as (v3 & l3 & -> & ? & ? & ? & E3); [lia..|done|].
    destruct (lsb_step_spec 4 v3 l3) as (v4 & l4 & -> & ? & ? & ? & E4); [lia..|done|].
    destruct (lsb_step_spec 2 v4 l4) as (v5 & l5 & -> & ? & Hm & ? & E5); [lia..|done|].
    assert (val = v5 * 2 ^ l5) as Hval.
    { rewrite E1, E2, E3, E4, E5, <- !Z.mul_assoc, <- !Z.pow_add_r by lia.
      do 2 f_equal. lia. }
    rewrite bits_div_mod, Z.div_1_r by lia. change (2 ^ (0 - 0 + 1)) with 2.
    rewrite Zmod_odd. destruct (Z.odd v5) eqn:Ho; cbn [Z.eqb].
    + exists v5. split_and!; (done || lia).
    + assert (v5 = 2 * (v5 / 2)) as Hh.
      { pose proof (Z.div_mod v5 2 ltac:(lia)). rewrite Zmod_odd, Ho in *. lia. }
      exists (v5 / 2). split_and!; [|lia|].
      * destruct (Z.odd (v5 / 2)) eqn:Ho2; [done|]. exfalso. apply Hm.
        change (2 ^ 2) with (2 * 2). rewrite Z.rem_mul_r by lia.
        rewrite !Zmod_odd, Ho, Ho2. done.
      * rewrite Z.pow_add_r by lia. rewrite Hval. rewrite Hh at 1. lia.
Qed.

Lemma find_set_correct_witness : findMsbSet 0x50 = 6.
Proof. refine (proj1 (find_set_correct 0x50 _)). lia. Defined.

End Bitfield.
