(* ===== verification/RubyAddress.v ===== *)
(** * Physical addresses of the Ruby memory system
    (src/src/mem/ruby/common/Address.{hh,cc}).

    An [Address] is its 64-bit [m_address]; the static sizes of [RubySystem]
    come from [Requests.RubyCfg]. *)

From S2P Require Import Prelude.
From S2P Require Import IntMath.
From S2P Require Import Requests.
From S2P Require Import Bitfield.
Import IntMath Requests Bitfield.

Module RubyAddress.

Definition ADDRESS_WIDTH : Z := 64.

(** [assert((unsigned)big >= (unsigned)small)]. *)
Definition bitSelect (m_address small big : Z) : result Z :=
  if u32 small <=? u32 big then
    if ADDRESS_WIDTH - 1 <=? big then Ok (Z.shiftr m_address small)
    else
      let mask := not64 (shl64 ones64 (big + 1)) in
      let partial := Z.land m_address mask in
      Ok (Z.shiftr partial small)
  else Err (AssertFail "bitSelect").

Definition bitRemove (m_address small big : Z) : result Z :=
  if u32 small <=? u32 big then
    if ADDRESS_WIDTH - 1 <=? small then Ok m_address
    else if ADDRESS_WIDTH - 1 <=? big then
      Ok (Z.land m_address (Z.shiftr ones64 small))
    else if small =? 0 then Ok (Z.land m_address (shl64 ones64 big))
    else
      let lower_bits := Z.land m_address (not64 (shl64 ones64 small)) in
      let higher_bits := Z.land m_address (shl64 ones64 (big + 1)) in
      let higher_bits := Z.shiftr higher_bits (big - small + 1) in
      Ok (Z.lor higher_bits lower_bits)
  else Err (AssertFail "bitRemove").

Definition maskLowOrderBits (m_address number : Z) : Z :=
  let mask := if ADDRESS_WIDTH - 1 <=? number then ones64 else shl64 ones64 number in
  Z.land m_address mask.

Definition maskHighOrderBits (m_address number : Z) : Z :=
  let mask := if ADDRESS_WIDTH - 1 <=? number then ones64 else Z.shiftr ones64 number in
  Z.land m_address mask.

Definition shiftLowOrderBits (m_address number : Z) : Z := Z.shiftr m_address number.

Section lines.
Context (cfg : RubyCfg).

Definition getLineAddress (m_address : Z) : result Z :=
  bitSelect m_address cfg.(block_size_bits) ADDRESS_WIDTH.

Definition getOffset (m_address : Z) : result Z :=
  bitSelect m_address 0 (cfg.(block_size_bits) - 1).

Definition makeLineAddress (m_address : Z) : Z :=
  maskLowOrderBits m_address cfg.(block_size_bits).

(** [getBlockSizeBytes() * stride] is an [int] product. *)
Definition makeNextStrideAddress (m_address stride : Z) : Z :=
  u64 (maskLowOrderBits m_address cfg.(block_size_bits)
       + i32 (cfg.(block_size_bytes) * stride)).

Definition setOffset (m_address offset : Z) : Z :=
  Z.lor (makeLineAddress m_address) (u64 offset).

(** [integer_t] is a signed 64-bit integer. *)
Definition memoryModuleIndex (m_address : Z) : result Z :=
  r ← bitSelect m_address (cfg.(block_size_bits) + cfg.(memory_size_bits)) ADDRESS_WIDTH;
  let index := i64 r in
  if 0 <=? index then Ok index else Err (AssertFail "memoryModuleIndex").

Definition line_address (addr : Z) : Z := makeLineAddress addr.
End lines.

(** ** Bit fields of an address *)
Lemma testbit_ones64 n : 0 <= n -> Z.testbit ones64 n = (n <? 64).
Proof. intros. change ones64 with (Z.ones 64). by rewrite testbit_ones by lia. Qed.

Lemma testbit_high a n : is_u64 a -> 64 <= n -> Z.testbit a n = false.
Proof.
  intros Ha Hn. unfold is_u64 in Ha. rewrite <- (Z.mod_small a (2 ^ 64)) by done.
  by apply Z.mod_pow2_bits_high; lia.
Qed.

(** [shl64 ones64 k] keeps the bits from [k] on. *)
Lemma land_shl_ones a k n :
  is_u64 a -> 0 <= k -> 0 <= n ->
  Z.testbit (Z.land a (shl64 ones64 k)) n = (k <=? n) && Z.testbit a n.
Proof.
  intros Ha Hk Hn. rewrite Z.land_spec, testbit_shl64 by lia.
  destruct (n <? 64) eqn:E; bool_to_Z.
  - destruct (k <=? n) eqn:E2; bool_to_Z; cbn [andb]; [|by rewrite andb_false_r].
    rewrite testbit_ones64 by lia. rewrite (proj2 (Z.ltb_lt _ _)) by lia.
    by rewrite andb_true_r.
  - rewrite (testbit_high a n) by (done || lia). by rewrite !andb_false_r.
Qed.

Lemma land_not_shl_ones a k n :
  is_u64 a -> 0 <= k -> 0 <= n ->
  Z.testbit (Z.land a (not64 (shl64 ones64 k))) n = (n <? k) && Z.testbit a n.
Proof.
  intros Ha Hk Hn. rewrite Z.land_spec, testbit_not64, testbit_shl64 by lia.
  destruct (n <? 64) eqn:E; bool_to_Z.
  - rewrite Z.leb_antisym. destruct (n <? k) eqn:E2; bool_to_Z; cbn;
      rewrite ?andb_true_r; [done|].
    rewrite testbit_ones64 by lia. rewrite (proj2 (Z.ltb_lt _ _)) by lia.
    by rewrite andb_false_r.
  - rewrite (testbit_high a n) by (done || lia). by rewrite !andb_false_r.
Qed.

Lemma bitSelect_spec a small big :
  is_u64 a -> 0 <= small <= big -> big < 2 ^ 31 ->
  exists r, bitSelect a small big = Ok r /\
    forall n, 0 <= n ->
      Z.testbit r n = (n <=? big - small) && Z.testbit a (n + small).
Proof.
  intros Ha H1 H2. unfold bitSelect.
  rewrite !u32_small by (zwidth; lia). rewrite (proj2 (Z.leb_le small big)) by lia.
  destruct (ADDRESS_WIDTH - 1 <=? big) eqn:E; bool_to_Z; unfold ADDRESS_WIDTH in *;
    eexists; (split; [done|]); intros n Hn; rewrite Z.shiftr_spec by done.
  - destruct (n <=? big - small) eqn:E2; bool_to_Z; [done|].
    by rewrite testbit_high by (done || lia).
  - rewrite land_not_shl_ones by (done || lia). f_equal.
    destruct (n <=? big - small) eqn:E2; bool_to_Z;
      [rewrite (proj2 (Z.ltb_lt _ _))|rewrite (proj2 (Z.ltb_ge _ _))]; (done || lia).
Qed.

(** [bitSelect] is the field from bit [small] to bit [big], both included,
    right justified. *)
Theorem bitSelect_correct a small big :
  is_u64 a -> 0 <= small <= big -> big < 2 ^ 31 ->
  exists r, bitSelect a small big = Ok r /\
    forall n, 0 <= n ->
      Z.testbit r n = (n <=? big - small) && Z.testbit a (n + small).
Proof. apply bitSelect_spec. Qed.

Lemma bitSelect_correct_witness :
  exists r, bitSelect 0xabcd 4 11 = Ok r /\
    forall n, 0 <= n -> Z.testbit r n = (n <=? 11 - 4) && Z.testbit 0xabcd (n + 4).
Proof. apply (bitSelect_correct 0xabcd 4 11); [zwidth| |]; lia. Defined.

(** [bitRemove] cuts the bits [small] to [big] out: the bits below stay and
    the bits above move down, for a field that starts above bit 0 and ends
    below bit 63. *)
Theorem bitRemove_correct a small big :
  is_u64 a -> 0 < small <= big -> big < 63 ->
  exists r, bitRemove a small big = Ok r /\
    forall n, 0 <= n ->
      Z.testbit r n = if n <? small then Z.testbit a n
                      else Z.testbit a (n + (big - small + 1)).
Proof.
  intros Ha H1 H2. unfold bitRemove.
  rewrite !u32_small by (zwidth; lia). rewrite (proj2 (Z.leb_le small big)) by lia.
  unfold ADDRESS_WIDTH. rewrite (proj2 (Z.leb_gt (64 - 1) small)) by lia.
  rewrite (proj2 (Z.leb_gt (64 - 1) big)) by lia.
  rewrite (proj2 (Z.eqb_neq small 0)) by lia.
  eexists. split; [done|]. intros n Hn.
  rewrite Z.lor_spec, Z.shiftr_spec by done.
  rewrite land_shl_ones, land_not_shl_ones by (done || lia).
  destruct (n <? small) eqn:E2; bool_to_Z.
  - rewrite (proj2 (Z.leb_gt _ _)) by lia. done.
  - rewrite (proj2 (Z.leb_le _ _)) by lia. cbn. by rewrite orb_false_r.
Qed.

Lemma bitRemove_correct_witness :
  exists r, bitRemove 0xabcd 4 11 = Ok r /\
    forall n, 0 <= n -> Z.testbit r n = if n <? 4 then Z.testbit 0xabcd n
                                       else Z.testbit 0xabcd (n + (11 - 4 + 1)).
Proof. apply (bitRemove_correct 0xabcd 4 11); [zwidth| |]; lia. Defined.

(** Outside these bounds it does not remove the field: a field from bit 0 is
    cleared in place and loses its top bit, and a field up to bit 63 keeps the
    low [64 - small] bits instead of the low [small]. *)
Example bitRemove_from_0 : bitRemove 0xff 0 3 = Ok 0xf8.
Proof. done. Qed.
Example bitRemove_to_63 : bitRemove 0xabcd 4 63 = Ok 0xabcd.
Proof. done. Qed.
(** Neither do the masks at 63. *)
Example maskLow_63 : maskLowOrderBits 0xff 63 = 0xff /\ maskHighOrderBits 0xff 63 = 0xff.
Proof. done. Qed.

(** ** Lines and offsets *)
Record line_cfg (cfg : RubyCfg) : Prop := {
  lc_bits : 1 <= cfg.(block_size_bits) < 31;
  lc_bytes : cfg.(block_size_bytes) = 2 ^ cfg.(block_size_bits)
}.

Lemma makeLineAddress_div cfg a :
  line_cfg cfg -> is_u64 a ->
  makeLineAddress cfg a = a / cfg.(block_size_bytes) * cfg.(block_size_bytes).
Proof.
  intros [Hb HB] Ha. unfold makeLineAddress, maskLowOrderBits, ADDRESS_WIDTH.
  rewrite (proj2 (Z.leb_gt _ _)) by lia. rewrite HB.
  rewrite <- Z.shiftr_div_pow2, <- Z.shiftl_mul_pow2 by lia.
  apply Z.bits_inj'. intros n Hn. rewrite land_shl_ones by (done || lia).
  rewrite Z.shiftl_spec by done.
  destruct (cfg.(block_size_bits) <=? n) eqn:E; bool_to_Z.
  - rewrite Z.shiftr_spec by lia. cbn. f_equal. lia.
  - by rewrite (Z.testbit_neg_r (Z.shiftr _ _)) by lia.
Qed.

Lemma getOffset_mod cfg a :
  line_cfg cfg -> is_u64 a -> getOffset cfg a = Ok (a mod cfg.(block_size_bytes)).
Proof.
  intros [Hb HB] Ha.
  destruct (bitSelect_spec a 0 (cfg.(block_size_bits) - 1)) as (r & Hr & Hbits);
    [done|lia|lia|].
  unfold getOffset. rewrite Hr. f_equal. rewrite HB, <- Z.land_ones by lia.
  apply Z.bits_inj'. intros n Hn. rewrite Hbits, Z.land_spec, testbit_ones by lia.
  rewrite Z.add_0_r, andb_comm. f_equal.
  destruct (n <=? _) eqn:E; bool_to_Z;
    [rewrite (proj2 (Z.ltb_lt _ _))|rewrite (proj2 (Z.ltb_ge _ _))]; (done || lia).
Qed.

(** Line number, offset and line address decompose an address: the line
    number and the offset are the quotient and the remainder by the block
    size, the line address is the address of the line's first byte, and
    putting the offset back gives the address. *)
Theorem line_decomposition cfg a :
  line_cfg cfg -> is_u64 a ->
  getLineAddress cfg a = Ok (a / cfg.(block_size_bytes)) /\
  getOffset cfg a = Ok (a mod cfg.(block_size_bytes)) /\
  makeLineAddress cfg a = a / cfg.(block_size_bytes) * cfg.(block_size_bytes) /\
  setOffset cfg a (a mod cfg.(block_size_bytes)) = a.
Proof.
  intros L Ha. pose proof L as [Hb HB].
  assert (0 < 2 ^ cfg.(block_size_bits)) by (apply Z.pow_pos_nonneg; lia).
  pose proof (Z.mod_pos_bound a cfg.(block_size_bytes) ltac:(lia)) as Hm.
  split_and!.
  - unfold getLineAddress, bitSelect, ADDRESS_WIDTH. rewrite !u32_small by (zwidth; lia).
    rewrite (proj2 (Z.leb_le cfg.(block_size_bits) 64)) by lia. cbn -[Z.shiftr].
    rewrite HB, Z.shiftr_div_pow2 by lia. done.
  - by apply getOffset_mod.
  - by apply makeLineAddress_div.
  - unfold setOffset. rewrite makeLineAddress_div by done.
    rewrite u64_small by (zwidth; assert (cfg.(block_size_bytes) <= 2 ^ 31)
      by (rewrite HB; apply Z.pow_le_mono_r; lia); lia).
    rewrite HB in *. rewrite lor_shifted_low by lia.
    pose proof (Z.div_mod a (2 ^ cfg.(block_size_bits))). lia.
Qed.

Lemma line_decomposition_witness : setOffset example_cfg 12345 57 = 12345.
Proof.
  refine (proj2 (proj2 (proj2 (line_decomposition example_cfg 12345 _ _)))).
  - split; [cbn; lia|reflexivity].
  - zwidth. lia.
Defined.

End RubyAddress.
