(* ===== verification/SubEvents.v ===== *)
(** * Splitting an event into sub-events
    ([createSubEvents] and [memTypeToInsert],
    src/src/cpu/testers/synchrotrace/SynchroTrace.cc, lines 1503-1647).

    A computation event becomes one sub-event per memory access, writes and
    reads alternating, and its operations are spread over them: an equal share
    each, the remainder one by one to sub-events drawn with [rand].  A
    communication event becomes one read per request it depends on, a pthread
    event a single empty sub-event.

    The functions here build the list; setting the first trigger time and
    scheduling the core are in [Replay].  [rand] is the C library's generator:
    a parameter giving the value of every call in turn. *)

From S2P Require Import Prelude.
From S2P Require Import StaticDeque.
From S2P Require Import STEvent.
From S2P Require Import Requests.
Import STEvent Requests.

Module SubEvents.

Definition MEM_LOCAL_READ : Z := 0.
Definition MEM_LOCAL_WRITE : Z := 1.

(** The [while (!selected)] loop.  A round that selects nothing only flips the
    selector, so a run that is not over after two rounds is never over:
    [memTypeToInsert_fuel]. *)
Fixpoint memTypeToInsert_loop (fuel : nat)
  (loc_reads loc_writes max_loc_reads max_loc_writes selector : Z) : result Z :=
  match fuel with
  | O => Err (UB "non-terminating loop")
  | S fuel' =>
      let flipped := if selector =? 1 then 0 else 1 in
      if selector =? MEM_LOCAL_READ then
        if loc_reads <? max_loc_reads then Ok MEM_LOCAL_READ
        else memTypeToInsert_loop fuel' loc_reads loc_writes
               max_loc_reads max_loc_writes flipped
      else if selector =? MEM_LOCAL_WRITE then
        if loc_writes <? max_loc_writes then Ok MEM_LOCAL_WRITE
        else memTypeToInsert_loop fuel' loc_reads loc_writes
               max_loc_reads max_loc_writes flipped
      else Err (AssertFail "memTypeToInsert")
  end.

(** [max_loc_writes] is declared [const unsigned]: 32 bits. *)
Definition memTypeToInsert (loc_reads loc_writes max_loc_reads max_loc_writes
  read_or_write : Z) : result Z :=
  memTypeToInsert_loop 2 loc_reads loc_writes max_loc_reads (u32 max_loc_writes)
    read_or_write.

Lemma memTypeToInsert_fuel n lr lw mr mw rw :
  rw = 0 \/ rw = 1 -> (2 <= n)%nat ->
  memTypeToInsert_loop n lr lw mr mw rw = memTypeToInsert_loop 2 lr lw mr mw rw.
Proof.
  revert rw. induction n as [|n IH]; intros rw Hrw Hn; [lia|].
  destruct n as [|n]; [lia|].
  assert (forall rw, rw = 0 \/ rw = 1 -> ~ (lr < mr) -> ~ (lw < mw) ->
    forall k, memTypeToInsert_loop k lr lw mr mw rw = Err (UB "non-terminating loop"))
    as Hnever.
  { intros rw' Hrw' H1 H2 k. revert rw' Hrw'.
    induction k as [|k IHk]; intros rw' Hrw'; [done|].
    destruct Hrw' as [ -> | -> ]; cbn;
      rewrite ?(proj2 (Z.ltb_ge _ _)) by lia; apply IHk; auto. }
  destruct (decide (lr < mr)) as [H1|H1], (decide (lw < mw)) as [H2|H2];
    [..|by rewrite !Hnever];
    destruct Hrw as [ -> | -> ]; cbn;
    rewrite ?(proj2 (Z.ltb_lt lr mr)), ?(proj2 (Z.ltb_lt lw mw)),
            ?(proj2 (Z.ltb_ge lr mr)), ?(proj2 (Z.ltb_ge lw mw)) by lia; done.
Qed.

Section creation.
Context (rand : nat -> Z).

(** The loop over the memory accesses: [r] and [w] are [mem_reads_inserted]
    and [mem_writes_inserted]. *)
Fixpoint insert_ops (n : nat) (e : ST_Event)
  (max_loc_reads max_loc_writes IOPS_div FLOPS_div MEM_div : Z)
  (r w read_or_write : Z) (d : StaticDeque.t subEvent)
  : result (StaticDeque.t subEvent) :=
  match n with
  | O => Ok d
  | S n' =>
      ty ← memTypeToInsert r w max_loc_reads max_loc_writes read_or_write;
      let flipped := if read_or_write =? 1 then 0 else 1 in
      if ty =? MEM_LOCAL_READ then
        i ← umod r (Z.of_nat (length e.(comp_readEvents)));
        msg ← vget e.(comp_readEvents) i;
        d' ← StaticDeque.push_back d
               (subEvent_msg IOPS_div FLOPS_div MEM_div DT_REQ_READ false true msg);
        insert_ops n' e max_loc_reads max_loc_writes IOPS_div FLOPS_div MEM_div
          (u64 (r + 1)) w flipped d'
      else if ty =? MEM_LOCAL_WRITE then
        i ← umod w (Z.of_nat (length e.(comp_writeEvents)));
        msg ← vget e.(comp_writeEvents) i;
        d' ← StaticDeque.push_back d
               (subEvent_msg IOPS_div FLOPS_div MEM_div DT_REQ_WRITE false true msg);
        insert_ops n' e max_loc_reads max_loc_writes IOPS_div FLOPS_div MEM_div
          r (u64 (w + 1)) flipped d'
      else Err (AssertFail "createSubEvents")
  end.

(** The loops that hand out the remainders: [n] rounds, each adding one to a
    member of the sub-event [rand() % totalMemOps].  The index is a
    [unsigned long] passed as [int]; [k] counts the calls of [rand]. *)
Fixpoint distribute (n : nat) (bump : subEvent -> subEvent) (totalMemOps : Z)
  (k : nat) (d : StaticDeque.t subEvent) : result (StaticDeque.t subEvent * nat) :=
  match n with
  | O => Ok (d, k)
  | S n' =>
      i ← umod (u64 (rand k)) totalMemOps;
      s ← StaticDeque.get_at d (i32 i);
      d' ← StaticDeque.set_at d (i32 i) (bump s);
      distribute n' bump totalMemOps (S k) d'
  end.

Definition bump_IOPS (s : subEvent) : subEvent := s <| numIOPS ::= fun x => u64 (x + 1) |>.
Definition bump_FLOPS (s : subEvent) : subEvent := s <| numFLOPS ::= fun x => u64 (x + 1) |>.
Definition bump_MEM (s : subEvent) : subEvent := s <| numMEM_OPS ::= fun x => u64 (x + 1) |>.

(** [max(compMem, number of requests)], as the code writes it. *)
Definition max_loc (mem : Z) (evs : list sharedInfo) : Z :=
  if Z.of_nat (length evs) <=? mem then mem else Z.of_nat (length evs).

Definition computation_subEvents (e : ST_Event) (k : nat)
  : result (StaticDeque.t subEvent * nat) :=
  let max_loc_reads := max_loc e.(compMem_reads) e.(comp_readEvents) in
  let max_loc_writes := max_loc e.(compMem_writes) e.(comp_writeEvents) in
  let totalMemOps := u64 (max_loc_reads + max_loc_writes) in
  if totalMemOps =? 0 then
    d ← StaticDeque.make 1;
    d' ← StaticDeque.push_back d
           (subEvent_plain e.(compIOPS) e.(compFLOPS) 0 false false);
    Ok (d', k)
  else
    let IOPS_div := e.(compIOPS) / totalMemOps in
    let IOPS_rem := u32 (e.(compIOPS) mod totalMemOps) in
    let FLOPS_div := e.(compFLOPS) / totalMemOps in
    let FLOPS_rem := u32 (e.(compFLOPS) mod totalMemOps) in
    let MEM_div := 0 in
    let MEM_rem := 0 in
    d0 ← StaticDeque.make (i32 totalMemOps);
    d1 ← insert_ops (Z.to_nat totalMemOps) e max_loc_reads max_loc_writes
           IOPS_div FLOPS_div MEM_div 0 0 1 d0;
    '(d2, k2) ← distribute (Z.to_nat IOPS_rem) bump_IOPS totalMemOps k d1;
    '(d3, k3) ← distribute (Z.to_nat FLOPS_rem) bump_FLOPS totalMemOps k2 d2;
    distribute (Z.to_nat MEM_rem) bump_MEM totalMemOps k3 d3.

(** One read per request the event depends on. *)
Fixpoint push_reads (msgs : list sharedInfo) (d : StaticDeque.t subEvent)
  : result (StaticDeque.t subEvent) :=
  match msgs with
  | [] => Ok d
  | m :: msgs' =>
      d' ← StaticDeque.push_back d (subEvent_msg 0 0 0 DT_REQ_READ false true m);
      push_reads msgs' d'
  end.

Definition communication_subEvents (e : ST_Event) : result (StaticDeque.t subEvent) :=
  d ← StaticDeque.make (i32 (Z.of_nat (length e.(comm_preRequisiteEvents))));
  push_reads e.(comm_preRequisiteEvents) d.

Definition pthread_subEvents : result (StaticDeque.t subEvent) :=
  d ← StaticDeque.make 1;
  StaticDeque.push_back d (subEvent_plain 0 0 0 false false).

(** The body of [if (!thisEvent->subEventsCreated)] up to the trigger time. *)
Definition subEvents_of (e : ST_Event) (k : nat)
  : result (StaticDeque.t subEvent * nat) :=
  if e.(Type_) =? TYPE_PTHREAD_API then d ← pthread_subEvents; Ok (d, k)
  else if e.(Type_) =? TYPE_COMMUNICATION then d ← communication_subEvents e; Ok (d, k)
  else computation_subEvents e k.

End creation.

(** ** What the list of a computation event is *)

(** Writes and reads alternate, a write first, until one kind is used up. *)
Definition interleaved (reads writes : nat) : list dtReqType :=
  let m := Nat.min reads writes in
  mjoin (replicate m [DT_REQ_WRITE; DT_REQ_READ])
    ++ replicate (writes - m) DT_REQ_WRITE ++ replicate (reads - m) DT_REQ_READ.

(** The accesses of an event are used round robin. *)
Definition cyclic (evs : list sharedInfo) (start n : nat) : list sharedInfo :=
  omap (fun i => evs !! (i mod length evs)%nat) (seq start n).

(** The requests of one kind, in order. *)
Definition msgs (ty : dtReqType) (l : list subEvent) : list sharedInfo :=
  omap (fun s => if decide (s.(msgType) = Some ty) then s.(thisMsg) else None) l.

Definition sumZ (l : list Z) : Z := foldr Z.add 0 l.

Definition next_types (read_or_write : Z) (reads writes : nat) : list dtReqType :=
  if read_or_write =? 1 then interleaved reads writes
  else match reads with
       | O => replicate writes DT_REQ_WRITE
       | S reads' => DT_REQ_READ :: interleaved reads' writes
       end.

Lemma interleaved_no_reads b : interleaved 0 b = replicate b DT_REQ_WRITE.
Proof. unfold interleaved. simpl. by rewrite Nat.sub_0_r, app_nil_r. Qed.

Lemma interleaved_no_writes a : interleaved a 0 = replicate a DT_REQ_READ.
Proof. unfold interleaved. rewrite Nat.min_0_r. simpl. by rewrite Nat.sub_0_r. Qed.

Lemma interleaved_write a b :
  interleaved a (S b) = DT_REQ_WRITE :: next_types 0 a b.
Proof. destruct a; [by rewrite interleaved_no_reads|done]. Qed.

Lemma memTypeToInsert_spec r w mr mw rw :
  rw = 0 \/ rw = 1 -> is_u32 mw ->
  memTypeToInsert r w mr mw rw =
  if (r <? mr) && (negb (rw =? 1) || negb (w <? mw)) then Ok MEM_LOCAL_READ
  else if w <? mw then Ok MEM_LOCAL_WRITE
  else Err (UB "non-terminating loop").
Proof.
  intros Hrw Hmw. unfold memTypeToInsert. rewrite u32_small by done.
  destruct Hrw as [ -> | -> ]; cbn; destruct (r <? mr), (w <? mw); done.
Qed.

Lemma cyclic_S (evs : list sharedInfo) (s n : nat) x :
  evs !! (s mod length evs)%nat = Some x ->
  cyclic evs s (S n) = x :: cyclic evs (S s) n.
Proof. intros H. unfold cyclic. cbn [seq omap list_omap]. by rewrite H. Qed.

(** The access a counter selects. *)
Lemma vget_cyclic (evs : list sharedInfo) (c : nat) :
  evs <> [] ->
  exists x, evs !! (c mod length evs)%nat = Some x /\
    (i ← umod (Z.of_nat c) (Z.of_nat (length evs)); vget evs i) = Ok x.
Proof.
  intros Hne. destruct evs as [|e0 evs']; [done|]. set (evs := e0 :: evs') in *.
  assert (0 < Z.of_nat (length evs)) by (simpl; lia).
  destruct (lookup_lt_is_Some_2 evs (c mod length evs)%nat) as [x Hx];
    [apply Nat.mod_upper_bound; lia|].
  exists x. split; [done|]. unfold umod. rewrite (proj2 (Z.eqb_neq _ _)) by lia.
  rewrite bind_Ok_run, <- Nat2Z.inj_mod. apply vget_Ok. split; [lia|].
  by rewrite Nat2Z.id.
Qed.

Definition fresh (i f m : Z) (s : subEvent) : Prop :=
  s.(numIOPS) = i /\ s.(numFLOPS) = f /\ s.(numMEM_OPS) = m /\
  s.(msgTriggered) = false /\ s.(containsMsg) = true /\ is_Some s.(thisMsg).

Section insertion.
Context (e : ST_Event) (mr mw i f m : Z).
Hypothesis Hmr : 0 <= mr < 2 ^ 31.
Hypothesis Hmw : 0 <= mw < 2 ^ 31.

Lemma insert_read n (r : nat) w rw d :
  rw = 0 \/ rw = 1 -> Z.of_nat r < mr -> rw = 0 \/ ~ (w < mw) ->
  e.(comp_readEvents) <> [] -> StaticDeque.wf d ->
  Z.of_nat (length (StaticDeque.abs d)) < d.(StaticDeque.length_) ->
  exists x d', e.(comp_readEvents) !! (r mod length e.(comp_readEvents))%nat = Some x /\
    insert_ops (S n) e mr mw i f m (Z.of_nat r) w rw d
    = insert_ops n e mr mw i f m (Z.of_nat (S r)) w (1 - rw) d' /\
    StaticDeque.wf d' /\ d'.(StaticDeque.length_) = d.(StaticDeque.length_) /\
    StaticDeque.abs d' =
      StaticDeque.abs d ++ [subEvent_msg i f m DT_REQ_READ false true x].
Proof.
  intros Hrw Hr Hsel Hne W Hroom.
  destruct (vget_cyclic e.(comp_readEvents) r Hne) as (x & Hx & Hv).
  apply result_bind_Ok in Hv as (i0 & Hi0 & Hv).
  destruct (StaticDeque.push_back_room d
    (subEvent_msg i f m DT_REQ_READ false true x) W Hroom) as (d' & Hd & W' & Ha & Hl).
  exists x, d'. split; [done|]. split; [|done].
  cbn [insert_ops]. rewrite memTypeToInsert_spec by (zwidth; (done || lia)).
  rewrite (proj2 (Z.ltb_lt _ _) Hr).
  replace (true && _)%bool with true.
  - rewrite bind_Ok_run. cbn [Z.eqb MEM_LOCAL_READ].
    rewrite Hi0, bind_Ok_run, Hv, bind_Ok_run, Hd, bind_Ok_run.
    rewrite u64_small by (zwidth; lia).
    replace (Z.of_nat r + 1) with (Z.of_nat (S r)) by lia.
    by destruct Hrw as [ -> | -> ].
  - destruct Hsel as [ -> |Hw]; [done|]. rewrite (proj2 (Z.ltb_ge w mw)) by lia.
    by rewrite orb_true_r.
Qed.

Lemma insert_write n r (w : nat) rw d :
  rw = 0 \/ rw = 1 -> Z.of_nat w < mw -> rw = 1 \/ ~ (r < mr) ->
  e.(comp_writeEvents) <> [] -> StaticDeque.wf d ->
  Z.of_nat (length (StaticDeque.abs d)) < d.(StaticDeque.length_) ->
  exists x d', e.(comp_writeEvents) !! (w mod length e.(comp_writeEvents))%nat = Some x /\
    insert_ops (S n) e mr mw i f m r (Z.of_nat w) rw d
    = insert_ops n e mr mw i f m r (Z.of_nat (S w)) (1 - rw) d' /\
    StaticDeque.wf d' /\ d'.(StaticDeque.length_) = d.(StaticDeque.length_) /\
    StaticDeque.abs d' =
      StaticDeque.abs d ++ [subEvent_msg i f m DT_REQ_WRITE false true x].
Proof.
  intros Hrw Hw Hsel Hne W Hroom.
  destruct (vget_cyclic e.(comp_writeEvents) w Hne) as (x & Hx & Hv).
  apply result_bind_Ok in Hv as (i0 & Hi0 & Hv).
  destruct (StaticDeque.push_back_room d
    (subEvent_msg i f m DT_REQ_WRITE false true x) W Hroom) as (d' & Hd & W' & Ha & Hl).
  exists x, d'. split; [done|]. split; [|done].
  cbn [insert_ops]. rewrite memTypeToInsert_spec by (zwidth; (done || lia)).
  rewrite (proj2 (Z.ltb_lt _ _) Hw).
  replace (_ && _)%bool with false.
  - rewrite bind_Ok_run. cbn [Z.eqb MEM_LOCAL_READ MEM_LOCAL_WRITE Pos.eqb].
    rewrite Hi0, bind_Ok_run, Hv, bind_Ok_run, Hd, bind_Ok_run.
    rewrite u64_small by (zwidth; lia).
    replace (Z.of_nat w + 1) with (Z.of_nat (S w)) by lia.
    by destruct Hrw as [ -> | -> ].
  - destruct Hsel as [ -> |Hr]; [by rewrite andb_false_r|].
    by rewrite (proj2 (Z.ltb_ge r mr)) by lia.
Qed.

(** What the loop appends from any point on: [a] reads and [b] writes left. *)
Definition appends (rw : Z) (r w a b : nat) (l : list subEvent) : Prop :=
  msgType <$> l = Some <$> next_types rw a b /\
  msgs DT_REQ_READ l = cyclic e.(comp_readEvents) r a /\
  msgs DT_REQ_WRITE l = cyclic e.(comp_writeEvents) w b /\
  Forall (fresh i f m) l.

Lemma appends_read rw r w a b x l :
  rw = 0 \/ b = O ->
  e.(comp_readEvents) !! (r mod length e.(comp_readEvents))%nat = Some x ->
  appends (1 - rw) (S r) w a b l -> rw = 0 \/ rw = 1 ->
  appends rw r w (S a) b (subEvent_msg i f m DT_REQ_READ false true x :: l).
Proof.
  intros Hsel Hx (Ht & Hr & Hw & Hf) Hrw. unfold appends.
  split_and!; [..|by constructor].
  - cbn [fmap list_fmap msgType subEvent_msg]. rewrite Ht.
    destruct Hrw as [ -> | -> ]; [done|]. destruct Hsel as [?| ->]; [done|].
    cbn [next_types Z.eqb Z.sub Z.add Z.opp Pos.sub Pos.eqb].
    rewrite interleaved_no_writes. unfold next_types. simpl.
    destruct a; [done|]. by rewrite interleaved_no_writes.
  - erewrite cyclic_S by done. unfold msgs. cbn [omap list_omap]. by rewrite <- Hr.
  - done.
Qed.

Lemma appends_write rw r w a b x l :
  rw = 1 \/ a = O ->
  e.(comp_writeEvents) !! (w mod length e.(comp_writeEvents))%nat = Some x ->
  appends (1 - rw) r (S w) a b l -> rw = 0 \/ rw = 1 ->
  appends rw r w a (S b) (subEvent_msg i f m DT_REQ_WRITE false true x :: l).
Proof.
  intros Hsel Hx (Ht & Hr & Hw & Hf) Hrw. unfold appends.
  split_and!; [..|by constructor].
  - cbn [fmap list_fmap msgType subEvent_msg]. rewrite Ht.
    destruct Hrw as [ -> | -> ].
    + destruct Hsel as [?| ->]; [done|]. unfold next_types. simpl.
      by rewrite interleaved_no_reads.
    + unfold next_types at 2. cbn [Z.eqb Pos.eqb]. by rewrite interleaved_write.
  - done.
  - erewrite cyclic_S by done. unfold msgs. cbn [omap list_omap]. by rewrite <- Hw.
Qed.

Lemma insert_ops_spec n : forall (a b r w : nat) rw d,
  n = (a + b)%nat -> Z.of_nat (r + a) = mr -> Z.of_nat (w + b) = mw ->
  rw = 0 \/ rw = 1 ->
  (a = O \/ e.(comp_readEvents) <> []) -> (b = O \/ e.(comp_writeEvents) <> []) ->
  StaticDeque.wf d ->
  Z.of_nat (length (StaticDeque.abs d) + n) <= d.(StaticDeque.length_) ->
  exists d' l,
    insert_ops n e mr mw i f m (Z.of_nat r) (Z.of_nat w) rw d = Ok d' /\
    StaticDeque.wf d' /\ StaticDeque.abs d' = StaticDeque.abs d ++ l /\
    appends rw r w a b l.
Proof.
  induction n as [|n IH]; intros a b r w rw d Hn Hr Hw Hrw Hna Hnb W Hroom.
  { exists d, []. destruct a, b; try done. rewrite app_nil_r. split_and!; try done.
    destruct Hrw as [ -> | -> ]; split_and!; (done || by constructor). }
  destruct (decide ((rw = 0 \/ b = O) /\ a <> O)) as [[Hsel Ha]|Hsel].
  - destruct a as [|a]; [done|].
    destruct (insert_read n r (Z.of_nat w) rw d) as (x & d1 & Hx & -> & W1 & Hl1 & Ha1);
      [done|lia|destruct Hsel; [by left|right; lia]|by destruct Hna|done|lia|].
    destruct (IH a b (S r) w (1 - rw) d1) as (d' & l & H1 & H2 & H3 & H4);
      [lia|lia|lia|lia|tauto|done|done|rewrite Ha1, length_app; simpl; lia|].
    exists d', (subEvent_msg i f m DT_REQ_READ false true x :: l).
    split_and!; [done|done|by rewrite H3, Ha1, <- app_assoc|by apply appends_read].
  - assert ((rw = 1 \/ a = O) /\ b <> O) as [Hsel' Hb] by (destruct Hrw; lia).
    destruct b as [|b]; [done|].
    destruct (insert_write n (Z.of_nat r) w rw d) as (x & d1 & Hx & -> & W1 & Hl1 & Ha1);
      [done|lia|destruct Hsel'; [by left|right; lia]|by destruct Hnb|done|lia|].
    destruct (IH a b r (S w) (1 - rw) d1) as (d' & l & H1 & H2 & H3 & H4);
      [lia|lia|lia|lia|done|tauto|done|rewrite Ha1, length_app; simpl; lia|].
    exists d', (subEvent_msg i f m DT_REQ_WRITE false true x :: l).
    split_and!; [done|done|by rewrite H3, Ha1, <- app_assoc|by apply appends_write].
Qed.
End insertion.


(** ** Handing out the remainders *)
Lemma sumZ_app l1 l2 : sumZ (l1 ++ l2) = sumZ l1 + sumZ l2.
Proof. induction l1 as [|x l1 IH]; simpl; [done|]. rewrite IH. lia. Qed.

Lemma sumZ_replicate n x : sumZ (replicate n x) = Z.of_nat n * x.
Proof. induction n as [|n IH]; cbn [replicate sumZ foldr]; [lia|]. unfold sumZ in IH. lia. Qed.

Lemma sumZ_elem l x : Forall (Z.le 0) l -> x ∈ l -> x <= sumZ l.
Proof.
  induction 1 as [|y l Hy Hl IH]; [by intros ?%not_elem_of_nil|].
  assert (0 <= sumZ l).
  { clear IH. induction Hl; cbn [sumZ foldr]; [lia|]. unfold sumZ in *. lia. }
  intros [ -> |Hx]%elem_of_cons; cbn [sumZ foldr]; unfold sumZ in *; [lia|].
  specialize (IH Hx). lia.
Qed.

Lemma sumZ_insert l (i : nat) x y :
  l !! i = Some x -> sumZ (<[i := y]> l) = sumZ l - x + y.
Proof.
  revert i. induction l as [|z l IH]; intros [|i] H; simplify_eq/=.
  - lia.
  - unfold sumZ in *. rewrite (IH i) by done. lia.
Qed.

Section distribution.
Context (rand : nat -> Z) (Hrand : forall k, 0 <= rand k < 2 ^ 31).
Context (bump : subEvent -> subEvent) (count : subEvent -> Z).
Hypothesis Hbump : forall s, count (bump s) = u64 (count s + 1).

(** The total grows by one per round; a member [bump] leaves alone keeps its
    values; counts stay non-negative. *)
Lemma distribute_spec {A} (g : subEvent -> A) n : forall k d (total : Z),
  (forall s, g (bump s) = g s) ->
  StaticDeque.wf d -> Z.of_nat (length (StaticDeque.abs d)) = total -> 0 < total ->
  Forall (fun s => 0 <= count s) (StaticDeque.abs d) ->
  sumZ (count <$> StaticDeque.abs d) + Z.of_nat n < 2 ^ 64 ->
  exists d', distribute rand n bump total k d = Ok (d', (k + n)%nat) /\
    StaticDeque.wf d' /\ g <$> StaticDeque.abs d' = g <$> StaticDeque.abs d /\
    Forall (fun s => 0 <= count s) (StaticDeque.abs d') /\
    sumZ (count <$> StaticDeque.abs d')
    = sumZ (count <$> StaticDeque.abs d) + Z.of_nat n.
Proof.
  induction n as [|n IH]; intros k d total Hg W Htot Hpos Hcnt Hsum.
  { exists d. rewrite Nat.add_0_r. split_and!; (done || lia). }
  pose proof (StaticDeque.length_abs d W) as Hlen.
  assert (total < 2 ^ 31) by (pose proof (StaticDeque.wf_elems d W);
    pose proof (StaticDeque.wf_length d W); lia).
  pose proof (Hrand k). pose proof (Z.mod_pos_bound (rand k) total Hpos).
  cbn [distribute]. rewrite u64_small by (zwidth; lia).
  unfold umod. rewrite (proj2 (Z.eqb_neq _ _)) by lia. rewrite bind_Ok_run.
  rewrite i32_small by (zwidth; lia). set (j := rand k mod total) in *.
  destruct (lookup_lt_is_Some_2 (StaticDeque.abs d) (Z.to_nat j)) as [s Hs]; [lia|].
  rewrite StaticDeque.get_at_spec by done. rewrite (proj2 (Z.leb_le 0 j)) by lia.
  rewrite Hs, bind_Ok_run.
  pose proof (StaticDeque.set_at_spec d j (bump s) W) as Hset.
  rewrite (proj2 (Z.leb_le 0 j)), (proj2 (Z.ltb_lt j _)) in Hset by lia.
  destruct Hset as (d1 & -> & W1 & Ha1 & Hl1). rewrite bind_Ok_run.
  assert (0 <= count s) by (by eapply (Forall_lookup_1 _ _ _ _ Hcnt)).
  assert (count s <= sumZ (count <$> StaticDeque.abs d)).
  { apply sumZ_elem; [by apply Forall_fmap|]. apply list_elem_of_fmap_2.
    by eapply list_elem_of_lookup_2. }
  assert (count (bump s) = count s + 1) as Hb
    by (rewrite Hbump, u64_small; zwidth; lia).
  assert (sumZ (count <$> StaticDeque.abs d1)
          = sumZ (count <$> StaticDeque.abs d) + 1) as Hs1.
  { rewrite Ha1, list_fmap_insert, (sumZ_insert _ _ (count s));
      [lia|]. by rewrite list_lookup_fmap, Hs. }
  destruct (IH (S k) d1 total) as (d' & -> & W' & Hg' & Hc' & Hs'); try done.
  - by rewrite Ha1, length_insert.
  - rewrite Ha1. apply Forall_insert; [done|lia].
  - lia.
  - exists d'. rewrite Nat.add_succ_comm. split_and!; try done; [|lia].
    rewrite Hg', Ha1, list_fmap_insert, Hg. apply list_insert_id.
    by rewrite list_lookup_fmap, Hs.
Qed.
End distribution.


(** ** A computation event is split without losing work *)

(** The members the remainder loops leave alone. *)
Definition shape (s : subEvent) :=
  (s.(msgType), s.(thisMsg), s.(containsMsg), s.(msgTriggered)).

Lemma fmap_via {A B C} (g : A -> B) (h : B -> C) (f : A -> C) (l1 l2 : list A) :
  (forall s, f s = h (g s)) -> g <$> l1 = g <$> l2 -> f <$> l1 = f <$> l2.
Proof.
  intros Hf H. rewrite (list_fmap_ext f (h ∘ g) l1 ltac:(intros; apply Hf)).
  rewrite (list_fmap_ext f (h ∘ g) l2 ltac:(intros; apply Hf)).
  by rewrite !list_fmap_compose, H.
Qed.

Lemma msgs_shape ty l1 l2 : shape <$> l1 = shape <$> l2 -> msgs ty l1 = msgs ty l2.
Proof.
  revert l2. induction l1 as [|x l1 IH]; intros [|y l2]; try done.
  intros [= H1 H2 H3 H4 Hl]. specialize (IH l2 Hl). unfold msgs in *.
  cbn [omap list_omap]. by rewrite H1, H2, IH.
Qed.

Lemma sumZ_fresh (c : subEvent -> Z) x l :
  Forall (fun s => c s = x) l -> sumZ (c <$> l) = Z.of_nat (length l) * x.
Proof.
  intros H. rewrite <- sumZ_replicate. f_equal.
  induction H as [|s l Hs Hl IH]; [done|].
  rewrite fmap_cons. cbn [length replicate]. by rewrite Hs, IH.
Qed.

Lemma length_interleaved a b : length (interleaved a b) = (a + b)%nat.
Proof.
  unfold interleaved. rewrite !length_app, !length_replicate.
  assert (forall m, length (mjoin (replicate m [DT_REQ_WRITE; DT_REQ_READ])) = (2 * m)%nat)
    as -> by (induction m; simpl in *; lia). lia.
Qed.

Section conservation.
Context (rand : nat -> Z) (Hrand : forall k, 0 <= rand k < 2 ^ 31).
Context (e : ST_Event).

Definition reads : nat := Z.to_nat (max_loc e.(compMem_reads) e.(comp_readEvents)).
Definition writes : nat := Z.to_nat (max_loc e.(compMem_writes) e.(comp_writeEvents)).

(** What a well-formed computation event has: counts of their width, a total
    number of accesses an [int] holds, and an address for every kind of
    access it makes. *)
Record splittable : Prop := {
  sp_iops : is_u64 e.(compIOPS);
  sp_flops : is_u64 e.(compFLOPS);
  sp_reads_nonneg : 0 <= e.(compMem_reads);
  sp_writes_nonneg : 0 <= e.(compMem_writes);
  sp_total : Z.of_nat (reads + writes) < 2 ^ 31;
  sp_reads : reads = O \/ e.(comp_readEvents) <> [];
  sp_writes : writes = O \/ e.(comp_writeEvents) <> []
}.

Lemma max_loc_nonneg m evs : 0 <= m -> 0 <= max_loc m evs.
Proof. intros. unfold max_loc. case_match; lia. Qed.

(** The sub-event list of an event with accesses. *)
Definition split_ok (l : list subEvent) : Prop :=
  msgType <$> l = Some <$> interleaved reads writes /\
  msgs DT_REQ_READ l = cyclic e.(comp_readEvents) 0 reads /\
  msgs DT_REQ_WRITE l = cyclic e.(comp_writeEvents) 0 writes /\
  Forall (fun s => s.(containsMsg) = true /\ s.(msgTriggered) = false) l /\
  sumZ (numIOPS <$> l) = e.(compIOPS) /\
  sumZ (numFLOPS <$> l) = e.(compFLOPS).

Lemma Forall_shape l1 l2 (P : bool -> bool -> Prop) :
  shape <$> l1 = shape <$> l2 ->
  Forall (fun s => P s.(containsMsg) s.(msgTriggered)) l2 ->
  Forall (fun s => P s.(containsMsg) s.(msgTriggered)) l1.
Proof.
  revert l2. induction l1 as [|x l1 IH]; intros [|y l2]; try done.
  intros [= _ _ H3 H4 Hl] [Hy Hl2]%Forall_cons. constructor; [|by eapply IH].
  by rewrite H3, H4.
Qed.

Lemma share total n : 0 < total -> 0 <= n -> total * (n / total) + n mod total = n.
Proof. intros. pose proof (Z.div_mod n total). lia. Qed.

Lemma computation_split k :
  splittable -> (0 < reads + writes)%nat ->
  exists d k', computation_subEvents rand e k = Ok (d, k') /\
    StaticDeque.wf d /\ split_ok (StaticDeque.abs d).
Proof.
  intros [Hi Hf Hr0 Hw0 Htot Hr Hw] Hpos. unfold computation_subEvents.
  pose proof (max_loc_nonneg _ e.(comp_readEvents) Hr0) as HR.
  pose proof (max_loc_nonneg _ e.(comp_writeEvents) Hw0) as HW.
  assert (max_loc e.(compMem_reads) e.(comp_readEvents) = Z.of_nat reads) as ->
    by (unfold reads; lia).
  assert (max_loc e.(compMem_writes) e.(comp_writeEvents) = Z.of_nat writes) as ->
    by (unfold writes; lia).
  rewrite <- Nat2Z.inj_add. set (total := Z.of_nat (reads + writes)) in *.
  rewrite u64_small by (zwidth; lia). rewrite (proj2 (Z.eqb_neq _ _)) by lia.
  rewrite i32_small by (zwidth; lia). cbv zeta.
  destruct (StaticDeque.make_spec (T := subEvent) total) as (d0 & -> & W0 & Ha0 & Hl0); [lia|].
  rewrite bind_Ok_run.
  destruct (insert_ops_spec e (Z.of_nat reads) (Z.of_nat writes)
    (e.(compIOPS) / total) (e.(compFLOPS) / total) 0 ltac:(lia) ltac:(lia)
    (Z.to_nat total) reads writes 0 0 1 d0)
    as (d1 & l & H1 & W1 & Ha1 & Ht1 & Hr1 & Hw1 & Hf1);
    [lia|lia|lia|lia|done|done|done|rewrite Ha0; simpl; lia|].
  change (Z.of_nat 0) with 0 in H1. rewrite H1, bind_Ok_run.
  rewrite Ha0 in Ha1. simpl in Ha1.
  assert (length l = (reads + writes)%nat) as Hlen.
  { rewrite <- (length_fmap msgType), Ht1, length_fmap. apply length_interleaved. }
  rewrite <- Ha1 in *.
  pose proof (share total e.(compIOPS) ltac:(lia) ltac:(apply Hi)) as HsI.
  pose proof (share total e.(compFLOPS) ltac:(lia) ltac:(apply Hf)) as HsF.
  pose proof (Z.mod_pos_bound e.(compIOPS) total ltac:(lia)).
  pose proof (Z.mod_pos_bound e.(compFLOPS) total ltac:(lia)).
  rewrite !u32_small by (zwidth; lia).
  assert (forall c x, (forall s, fresh (e.(compIOPS) / total) (e.(compFLOPS) / total) 0 s -> c s = x) ->
    sumZ (c <$> StaticDeque.abs d1) = total * x) as Hsum.
  { intros c x Hc. rewrite (sumZ_fresh c x); [by rewrite Hlen|].
    eapply Forall_impl; [exact Hf1|done]. }
  destruct (distribute_spec rand Hrand bump_IOPS numIOPS ltac:(done)
    (fun s => (shape s, s.(numFLOPS))) (Z.to_nat (e.(compIOPS) mod total)) k d1 total)
    as (d2 & -> & W2 & Hg2 & Hc2 & Hs2); try done.
  { by rewrite Hlen. }
  { lia. }
  { eapply Forall_impl; [exact Hf1|]. intros s (-> & _). apply Z.div_pos; zwidth; lia. }
  { rewrite (Hsum numIOPS (e.(compIOPS) / total)) by (by intros s (-> & _)). zwidth. lia. }
  rewrite bind_Ok_run. cbn beta iota.
  assert (length (StaticDeque.abs d2) = (reads + writes)%nat) as Hlen2.
  { rewrite <- Hlen. apply (f_equal length) in Hg2. by rewrite !length_fmap in Hg2. }
  assert (numFLOPS <$> StaticDeque.abs d2 = numFLOPS <$> StaticDeque.abs d1) as HF2
    by (eapply (fmap_via _ snd); [|exact Hg2]; done).
  destruct (distribute_spec rand Hrand bump_FLOPS numFLOPS ltac:(done)
    (fun s => (shape s, s.(numIOPS))) (Z.to_nat (e.(compFLOPS) mod total))
    (k + Z.to_nat (e.(compIOPS) mod total)) d2 total)
    as (d3 & -> & W3 & Hg3 & Hc3 & Hs3); try done.
  { by rewrite Hlen2. }
  { lia. }
  { apply (Forall_fmap numFLOPS (Z.le 0)).
    rewrite HF2. apply Forall_fmap.
    eapply Forall_impl; [exact Hf1|]. intros s (_ & Hs & _). cbn. rewrite Hs. apply Z.div_pos; zwidth; lia. }
  { rewrite HF2, (Hsum numFLOPS (e.(compFLOPS) / total)) by (by intros s (_ & -> & _)).
    zwidth. lia. }
  rewrite bind_Ok_run. cbn beta iota.
  eexists d3, _. split; [done|]. split; [done|].
  assert (shape <$> StaticDeque.abs d3 = shape <$> StaticDeque.abs d1) as Hsh.
  { transitivity (shape <$> StaticDeque.abs d2);
      (eapply (fmap_via _ fst); [|eassumption]; done). }
  unfold split_ok. rewrite !(msgs_shape _ _ _ Hsh). split_and!; try done.
  - etransitivity; [|exact Ht1]. eapply (fmap_via shape (fun q => q.1.1.1)); done.
  - apply (Forall_shape _ _ (fun c t => c = true /\ t = false) Hsh).
    eapply Forall_impl; [exact Hf1|]. intros s (?&?&?&?&?&?). done.
  - assert (numIOPS <$> StaticDeque.abs d3 = numIOPS <$> StaticDeque.abs d2) as ->
      by (eapply (fmap_via _ snd); [|exact Hg3]; done).
    rewrite Hs2, (Hsum numIOPS (e.(compIOPS) / total)) by (by intros s (-> & _)). lia.
  - rewrite Hs3, HF2, (Hsum numFLOPS (e.(compFLOPS) / total)) by (by intros s (_ & -> & _)).
    lia.
Qed.
End conservation.


(** ** The other kinds of events *)
Lemma push_reads_spec ms : forall d,
  StaticDeque.wf d ->
  Z.of_nat (length (StaticDeque.abs d) + length ms) <= d.(StaticDeque.length_) ->
  exists d', push_reads ms d = Ok d' /\ StaticDeque.wf d' /\
    StaticDeque.abs d' =
      StaticDeque.abs d ++ (subEvent_msg 0 0 0 DT_REQ_READ false true <$> ms).
Proof.
  induction ms as [|m ms IH]; intros d W Hroom; cbn [push_reads].
  { exists d. by rewrite app_nil_r. }
  cbn [length] in Hroom.
  destruct (StaticDeque.push_back_room d (subEvent_msg 0 0 0 DT_REQ_READ false true m) W)
    as (d1 & -> & W1 & Ha1 & Hl1); [lia|].
  rewrite bind_Ok_run. destruct (IH d1 W1) as (d' & -> & W' & Ha').
  - rewrite Ha1, length_app. simpl. lia.
  - exists d'. by rewrite Ha', Ha1, <- app_assoc.
Qed.

Lemma communication_split e :
  e.(comm_preRequisiteEvents) <> [] ->
  Z.of_nat (length e.(comm_preRequisiteEvents)) < 2 ^ 31 ->
  exists d, communication_subEvents e = Ok d /\ StaticDeque.wf d /\
    StaticDeque.abs d =
      subEvent_msg 0 0 0 DT_REQ_READ false true <$> e.(comm_preRequisiteEvents).
Proof.
  intros Hne Hlen. unfold communication_subEvents.
  assert (0 < Z.of_nat (length e.(comm_preRequisiteEvents)))
    by (destruct e.(comm_preRequisiteEvents); [done|simpl; lia]).
  rewrite i32_small by (zwidth; lia).
  destruct (StaticDeque.make_spec (T := subEvent)
    (Z.of_nat (length e.(comm_preRequisiteEvents)))) as (d0 & -> & W0 & Ha0 & Hl0); [lia|].
  rewrite bind_Ok_run.
  destruct (push_reads_spec e.(comm_preRequisiteEvents) d0 W0) as (d & -> & W & Ha).
  - rewrite Ha0. simpl. lia.
  - exists d. by rewrite Ha, Ha0.
Qed.

Lemma single_split (s : subEvent) :
  exists d, (d0 ← StaticDeque.make 1; StaticDeque.push_back d0 s) = Ok d /\
    StaticDeque.wf d /\ StaticDeque.abs d = [s].
Proof.
  destruct (StaticDeque.make_spec (T := subEvent) 1) as (d0 & -> & W0 & Ha0 & Hl0); [lia|].
  rewrite bind_Ok_run.
  destruct (StaticDeque.push_back_room d0 s W0) as (d & -> & W & Ha & _).
  - rewrite Ha0, Hl0. simpl. lia.
  - exists d. by rewrite Ha, Ha0.
Qed.

(** What the sub-events of an event must be, for each type of event. *)
Definition split_of (e : ST_Event) (l : list subEvent) : Prop :=
  if e.(Type_) =? TYPE_PTHREAD_API then l = [subEvent_plain 0 0 0 false false]
  else if e.(Type_) =? TYPE_COMMUNICATION then
    l = subEvent_msg 0 0 0 DT_REQ_READ false true <$> e.(comm_preRequisiteEvents)
  else if decide (reads e + writes e = 0)%nat then
    l = [subEvent_plain e.(compIOPS) e.(compFLOPS) 0 false false]
  else split_ok e l.

(** The events that can be split. *)
Definition can_split (e : ST_Event) : Prop :=
  if e.(Type_) =? TYPE_PTHREAD_API then True
  else if e.(Type_) =? TYPE_COMMUNICATION then
    e.(comm_preRequisiteEvents) <> [] /\
    Z.of_nat (length e.(comm_preRequisiteEvents)) < 2 ^ 31
  else splittable e.

Lemma split_total (rand : nat -> Z) (e : ST_Event) (k : nat)
  (Hrand : forall k, 0 <= rand k < 2 ^ 31) (He : can_split e) :
  exists d k', subEvents_of rand e k = Ok (d, k') /\ StaticDeque.wf d /\
    split_of e (StaticDeque.abs d).
Proof.
  unfold can_split, split_of, subEvents_of in *.
  destruct (e.(Type_) =? TYPE_PTHREAD_API).
  { destruct (single_split (subEvent_plain 0 0 0 false false)) as (d & Hd & W & Ha).
    unfold pthread_subEvents. rewrite Hd, bind_Ok_run. by exists d, k. }
  destruct (e.(Type_) =? TYPE_COMMUNICATION).
  { destruct He as [Hne Hlen]. destruct (communication_split e Hne Hlen) as (d & -> & W & Ha).
    rewrite bind_Ok_run. by exists d, k. }
  case_decide as Hz; [|apply computation_split; (done || lia)].
  destruct (single_split (subEvent_plain e.(compIOPS) e.(compFLOPS) 0 false false))
    as (d & Hd & W & Ha).
  exists d, k. split; [|done]. unfold computation_subEvents.
  pose proof (max_loc_nonneg _ e.(comp_readEvents) (sp_reads_nonneg e He)).
  pose proof (max_loc_nonneg _ e.(comp_writeEvents) (sp_writes_nonneg e He)).
  unfold reads, writes in Hz.
  replace (max_loc e.(compMem_reads) e.(comp_readEvents)
           + max_loc e.(compMem_writes) e.(comp_writeEvents)) with 0 by lia.
  change (u64 0 =? 0) with true. cbv iota.
  apply result_bind_Ok in Hd as (d0 & -> & Hd). by rewrite bind_Ok_run, Hd.
Qed.

(** C23: splitting an event that has what it needs ([can_split]: a communication
    has a request, a computation has an address for each kind of access it
    makes, and their number fits in an [int]) succeeds and loses nothing.  A
    computation event gets one sub-event per memory access, writes and reads alternating with a
    write first, the accesses of each kind taken round robin from the trace,
    and the sub-events' operation counts add up to the event's, whatever
    [rand] returns; an event without accesses keeps its operations in one
    sub-event; a communication event gets one read per request, in order. *)
Theorem subEvents_of_correct (rand : nat -> Z) (e : ST_Event) (k : nat)
  (Hrand : forall k, 0 <= rand k < 2 ^ 31) (He : can_split e) :
  exists d k', subEvents_of rand e k = Ok (d, k') /\ StaticDeque.wf d /\
    split_of e (StaticDeque.abs d).
Proof. by apply split_total. Qed.

Definition example_event : ST_Event :=
  ST_Event_init <| Type_ := TYPE_COMPUTATION |> <| EventID := 7 |> <| ThreadID := 0 |>
    <| compIOPS := 11 |> <| compFLOPS := 3 |> <| compMem_reads := 3 |>
    <| compMem_writes := 1 |> <| comp_readEvents := [mkSharedInfo 0 0 8 2; mkSharedInfo 0 0 16 8] |>
    <| comp_writeEvents := [mkSharedInfo 0 0 60 4] |>.

Example split_event_ex :
  match subEvents_of (fun k => Z.of_nat k) example_event 0 with
  | Ok (d, k) => (fun s => (s.(msgType), s.(numIOPS), addr <$> s.(thisMsg))) <$>
                   StaticDeque.abs d
      = [(Some DT_REQ_WRITE, 3, Some 60); (Some DT_REQ_READ, 3, Some 8);
         (Some DT_REQ_READ, 3, Some 16); (Some DT_REQ_READ, 2, Some 8)] /\ k = 6%nat
  | Err _ => False
  end.
Proof. vm_compute. done. Qed.

Lemma subEvents_of_correct_witness :
  exists d k', subEvents_of (fun k => Z.of_nat k mod 2 ^ 31) example_event 0 = Ok (d, k') /\
    StaticDeque.wf d /\ split_of example_event (StaticDeque.abs d).
Proof.
  apply (subEvents_of_correct (fun k => Z.of_nat k mod 2 ^ 31) example_event 0).
  - intros k. apply Z.mod_pos_bound. reflexivity.
  - change (splittable example_event).
    split; try (vm_compute; intuition discriminate); by right.
Defined.


(** ** Any event, split or not

    Whatever the event, splitting it either stops with an error of the
    caller's data ([E]) or yields a well-formed list of sub-events that all
    satisfy a property the constructors establish and [++] keeps. *)
Section any_event.
Context (rand : nat -> Z) (E : error -> Prop).
Hypothesis Ethrow : E (Throw "Cannot instantiate deque to a non-positive size.") /\
  E (Throw "Attempted to add element to full deque.") /\
  E (Throw "Attempted to retrieve non-existant element.").
Hypothesis Eassert : E (AssertFail "createSubEvents") /\ E (AssertFail "memTypeToInsert").
Hypothesis Eub : E (UB "index") /\ E (UB "division by zero") /\ E (UB "non-terminating loop").

Lemma rwp_push_back {T} (d : StaticDeque.t T) x Q :
  StaticDeque.wf d ->
  (forall d', StaticDeque.wf d' -> StaticDeque.abs d' = StaticDeque.abs d ++ [x] -> Q d') ->
  rwp E (StaticDeque.push_back d x) Q.
Proof using Ethrow.
  intros W HQ. pose proof (StaticDeque.push_back_spec d x W) as H. case_match.
  - destruct H as (d' & -> & W' & Ha & _). by apply HQ.
  - rewrite H. apply Ethrow.
Qed.

Lemma rwp_make {T} n Q :
  n < 2 ^ 31 ->
  (forall d : StaticDeque.t T, StaticDeque.wf d -> StaticDeque.abs d = [] -> Q d) ->
  rwp E (StaticDeque.make n) Q.
Proof using Ethrow.
  intros Hn HQ. destruct (decide (0 < n)) as [Hpos|Hneg].
  - destruct (StaticDeque.make_spec (T := T) n) as (d & -> & W & Ha & _); [lia|].
    by apply HQ.
  - unfold StaticDeque.make. rewrite (proj2 (Z.leb_le n 0)) by lia. apply Ethrow.
Qed.

Lemma rwp_umod a b Q : (0 < b \/ b = 0 -> Q (a mod b)) -> 0 <= b -> rwp E (umod a b) Q.
Proof using Eub.
  intros HQ Hb. unfold umod. destruct (b =? 0) eqn:Eq; bool_to_Z; [apply Eub|].
  apply HQ. lia.
Qed.

Context (Pr : subEvent -> Prop).

Lemma rwp_insert_ops n e mr mw i f m : forall r w rw d Q,
  (forall ty msg, Pr (subEvent_msg i f m ty false true msg)) ->
  StaticDeque.wf d -> Forall Pr (StaticDeque.abs d) ->
  (forall d', StaticDeque.wf d' -> Forall Pr (StaticDeque.abs d') ->
     (n + length (StaticDeque.abs d) = length (StaticDeque.abs d'))%nat -> Q d') ->
  rwp E (insert_ops n e mr mw i f m r w rw d) Q.
Proof using Ethrow Eassert Eub.
  induction n as [|n IH]; intros r w rw d Q Hnew W Hd HQ; cbn [insert_ops]; [by apply HQ|].
  assert (forall (evs : list sharedInfo) c ty r' w' rw',
    rwp E (j ← umod c (Z.of_nat (length evs)); msg ← vget evs j;
           d' ← StaticDeque.push_back d (subEvent_msg i f m ty false true msg);
           insert_ops n e mr mw i f m r' w' rw' d') Q) as Hstep.
  { intros. apply rwp_bind, rwp_umod; [|lia]. intros _.
    apply rwp_bind, rwp_vget; [apply Eub|]. intros msg _.
    apply rwp_bind, rwp_push_back; [done|]. intros d' W' Ha.
    apply IH; try done.
    - rewrite Ha. apply Forall_app. by auto.
    - intros d2 W2 H2 Hl. apply HQ; try done. rewrite <- Hl, Ha, length_app. simpl. lia. }
  apply rwp_bind. destruct (memTypeToInsert r w mr mw rw) as [ty|er] eqn:Em; cbn [rwp].
  - destruct (ty =? MEM_LOCAL_READ); [apply Hstep|].
    destruct (ty =? MEM_LOCAL_WRITE); [apply Hstep|apply Eassert].
  - unfold memTypeToInsert in Em. cbn in Em.
    repeat (case_match; try done); simplify_eq; apply Eub || apply Eassert.
Qed.

Lemma rwp_distribute n bump total : forall k d Q,
  (forall s, Pr s -> Pr (bump s)) -> 0 <= total ->
  StaticDeque.wf d -> Forall Pr (StaticDeque.abs d) ->
  (forall d' k', StaticDeque.wf d' -> Forall Pr (StaticDeque.abs d') ->
     length (StaticDeque.abs d') = length (StaticDeque.abs d) -> Q (d', k')) ->
  rwp E (distribute rand n bump total k d) Q.
Proof using Ethrow Eub.
  induction n as [|n IH]; intros k d Q Hb Htot W Hd HQ; cbn [distribute]; [by apply HQ|].
  apply rwp_bind, rwp_umod; [|done]. intros _. set (j := i32 _).
  rewrite StaticDeque.get_at_spec by done.
  destruct (if 0 <=? j then StaticDeque.abs d !! Z.to_nat j else None) as [s|] eqn:Es;
    [|apply Ethrow].
  rewrite bind_Ok_run. pose proof (StaticDeque.set_at_spec d j (bump s) W) as Hset.
  destruct ((0 <=? j) && (j <? d.(StaticDeque.elems))); [|rewrite Hset; apply Ethrow].
  destruct Hset as (d1 & -> & W1 & Ha1 & _). rewrite bind_Ok_run.
  destruct (0 <=? j); [|done].
  apply IH; try done.
  - rewrite Ha1. apply Forall_insert; [done|]. apply Hb. by eapply Forall_lookup_1.
  - intros d2 k2 W2 H2 Hl. apply HQ; try done. by rewrite Hl, Ha1, length_insert.
Qed.

(** [Pr] holds for what the constructors of [subEvent] build from the event's
    counts, or shares of them, and survives an increment. *)
Hypothesis Pr_msg : forall i f ty msg, 0 <= i -> 0 <= f ->
  Pr (subEvent_msg i f 0 ty false true msg).
Hypothesis Pr_plain : forall i f, 0 <= i -> 0 <= f -> Pr (subEvent_plain i f 0 false false).
Hypothesis Pr_bump : forall s, Pr s ->
  Pr (bump_IOPS s) /\ Pr (bump_FLOPS s) /\ Pr (bump_MEM s).

Lemma rwp_single i f Q :
  0 <= i -> 0 <= f ->
  (forall d, StaticDeque.wf d -> StaticDeque.abs d = [subEvent_plain i f 0 false false] -> Q d) ->
  rwp E (d ← StaticDeque.make 1;
         StaticDeque.push_back d (subEvent_plain i f 0 false false)) Q.
Proof using Type.
  intros Hi Hf HQ.
  destruct (single_split (subEvent_plain i f 0 false false)) as (d & -> & W & Ha).
  by apply HQ.
Qed.

Lemma rwp_push_reads msgs : forall d Q,
  StaticDeque.wf d -> Forall Pr (StaticDeque.abs d) ->
  (forall d', StaticDeque.wf d' -> Forall Pr (StaticDeque.abs d') ->
     length (StaticDeque.abs d') = (length (StaticDeque.abs d) + length msgs)%nat -> Q d') ->
  rwp E (push_reads msgs d) Q.
Proof using Ethrow Pr_msg.
  induction msgs as [|msg msgs IH]; intros d Q W Hd HQ; cbn [push_reads].
  { apply HQ; (done || simpl; lia). }
  apply rwp_bind, rwp_push_back; [done|]. intros d' W' Ha. apply IH; try done.
  - rewrite Ha. apply Forall_app. split; [done|]. constructor; [|done]. by apply Pr_msg.
  - intros d2 W2 H2 Hl. apply HQ; try done. rewrite Hl, Ha, length_app. simpl. lia.
Qed.

Lemma rwp_subEvents_of e k Q :
  0 <= e.(compIOPS) -> 0 <= e.(compFLOPS) ->
  (forall d k', StaticDeque.wf d -> StaticDeque.abs d <> [] ->
     Forall Pr (StaticDeque.abs d) ->
     (e.(Type_) = TYPE_PTHREAD_API -> StaticDeque.abs d = [subEvent_plain 0 0 0 false false]) ->
     Q (d, k')) ->
  rwp E (subEvents_of rand e k) Q.
Proof using Ethrow Eassert Eub Pr_msg Pr_plain Pr_bump.
  intros Hi Hf HQ. unfold subEvents_of.
  destruct (e.(Type_) =? TYPE_PTHREAD_API) eqn:E1; bool_to_Z.
  { apply rwp_bind. unfold pthread_subEvents. apply rwp_single; [done..|].
    intros d W Ha. apply HQ; [done|by rewrite Ha| |done].
    rewrite Ha. constructor; [by apply Pr_plain|done]. }
  destruct (e.(Type_) =? TYPE_COMMUNICATION) eqn:E2; bool_to_Z.
  { apply rwp_bind. unfold communication_subEvents. apply rwp_bind.
    destruct (decide (0 < i32 (Z.of_nat (length e.(comm_preRequisiteEvents))))) as [Hp|Hp].
    - apply rwp_make; [apply i32_range|]. intros d W Ha.
      apply rwp_push_reads; [done|by rewrite Ha|]. intros d' W' Hd' Hl.
      apply HQ; try done. intros Hnil. rewrite Hnil, Ha in Hl. simpl in Hl.
      rewrite <- Hl in Hp. vm_compute in Hp. done.
    - unfold StaticDeque.make. rewrite (proj2 (Z.leb_le _ 0)) by lia. apply Ethrow. }
  unfold computation_subEvents. set (total := u64 _). cbv zeta.
  destruct (total =? 0) eqn:E3; bool_to_Z.
  { destruct (single_split (subEvent_plain e.(compIOPS) e.(compFLOPS) 0 false false))
      as (d & Hd & W & Ha).
    apply result_bind_Ok in Hd as (d0 & Hd0 & Hd). rewrite Hd0, bind_Ok_run, Hd, bind_Ok_run.
    apply HQ; [done|by rewrite Ha| |done].
    rewrite Ha. constructor; [by apply Pr_plain|done]. }
  assert (0 < total < 2 ^ 64) as Htot
    by (pose proof (u64_range (max_loc e.(compMem_reads) e.(comp_readEvents)
          + max_loc e.(compMem_writes) e.(comp_writeEvents))); unfold total, is_u64 in *; lia).
  apply rwp_bind, rwp_make; [apply i32_range|]. intros d0 W0 Ha0.
  apply rwp_bind, rwp_insert_ops; [|done|by rewrite Ha0|].
  { intros. apply Pr_msg; apply Z.div_pos; lia. }
  intros d1 W1 H1 Hl1. apply rwp_bind, rwp_distribute; [apply Pr_bump|lia|done|done|].
  intros d2 k2 W2 H2 Hl2. cbn beta iota.
  apply rwp_bind, rwp_distribute; [apply Pr_bump|lia|done|done|].
  intros d3 k3 W3 H3 Hl3. cbn beta iota. apply HQ; try done.
  intros Hnil. rewrite Hnil in Hl3. simpl in Hl3. lia.
Qed.
End any_event.

End SubEvents.
