(* ===== verification/TraceLines.v ===== *)
(** * Reading arbitrary trace lines

    Whatever a line of a trace file contains, [TraceParser.processLine] either
    appends exactly one event, not split yet, to the queue of the thread the
    line names, or stops with an error.  The first half shows that none of
    these errors is an internal one; the replay engine's safety rests on this.
    The second half determines the outcome: [line_event] is the event a line
    stands for, a function of the text alone, and [flaw] lists the texts that
    stand for none, each with the error it causes. *)

From S2P Require Import Prelude.
From S2P Require Import StaticDeque.
From S2P Require Import STEvent.
From S2P Require Import CString.
From S2P Require Import Requests.
From S2P Require Import TraceParser.
From S2P Require Import SubEvents.
Import STEvent CString Requests TraceParser SubEvents.
From Stdlib Require Import Ascii.

Module TraceLines.

Abbreviation E := (fun e : error => internal_error e = false).

(** What holds of every event when it is read. *)
Definition fresh_event (e : ST_Event) : Prop :=
  e.(subEventsCreated) = false /\ e.(subEventList) = None /\
  0 <= e.(compIOPS) /\ 0 <= e.(compFLOPS) /\
  (e.(Type_) = TYPE_PTHREAD_API -> is_Some e.(pth_addr)).

(** A request as the parser makes it: its members are in the range of their C
    types and, when the configuration is one [init] accepts, it has at most
    [MAX_REQUEST_SIZE] bytes inside one line of the simulated memory. *)
Definition typed_request (cfg : RubyCfg) (r : sharedInfo) : Prop :=
  is_u32 r.(prodThreadID) /\ is_u64 r.(prodEventID) /\
  (cfg_ok cfg -> in_line cfg r \/
     r.(numBytes) = 0 /\ 0 <= r.(addr) < cfg.(memory_size_bytes)).

(** The members of an event are in the range of their C types; each kind of
    event has only the requests of its kind. *)
Definition typed_event (cfg : RubyCfg) (e : ST_Event) : Prop :=
  is_u64 e.(EventID) /\ is_i32 e.(ThreadID) /\ is_i32 e.(PthreadType) /\
  is_u64 e.(compIOPS) /\ is_u64 e.(compFLOPS) /\
  is_u64 e.(compMem_reads) /\ is_u64 e.(compMem_writes) /\
  Forall (typed_request cfg)
    (e.(comm_preRequisiteEvents) ++ e.(comp_writeEvents) ++ e.(comp_readEvents)) /\
  (e.(Type_) = TYPE_COMPUTATION /\ e.(comm_preRequisiteEvents) = [] \/
   e.(Type_) = TYPE_COMMUNICATION /\ e.(comp_writeEvents) ++ e.(comp_readEvents) = [] \/
   e.(Type_) = TYPE_PTHREAD_API /\ (exists a, e.(pth_addr) = Some a /\ is_u64 a) /\
   e.(comm_preRequisiteEvents) ++ e.(comp_writeEvents) ++ e.(comp_readEvents) = []).

Lemma u64_m1 : is_u64 (u64 (-1)).
Proof. apply u64_range. Qed.

Lemma i32_m1 : is_i32 (-1).
Proof. unfold is_i32. lia. Qed.

Lemma rwp_substr s pos n : rwp E (substr s pos n) (fun _ => True).
Proof. unfold substr. by case_match. Qed.

Lemma rwp_next_entry s sep cur : rwp E (next_entry s sep cur) (fun _ => True).
Proof. unfold next_entry. apply rwp_bind. eapply rwp_mono; [apply rwp_substr|done]. Qed.

Lemma rwp_entries n s sep cur : rwp E (entries n s sep cur) (fun _ => True).
Proof.
  revert cur. induction n as [|n IH]; intros cur; cbn [entries]; [done|].
  apply rwp_bind. eapply rwp_mono; [apply rwp_next_entry|]. intros r _.
  apply rwp_bind. eapply rwp_mono; [apply IH|done].
Qed.

Lemma rwp_segments (P : sharedInfo -> Prop) fuel s sep cur body :
  (forall seg, rwp E (body seg) (Forall P)) ->
  rwp E (segments fuel s sep cur body) (Forall P).
Proof.
  intros Hb. revert cur. induction fuel as [|fuel IH]; intros cur; cbn [segments]; [done|].
  apply rwp_bind. eapply rwp_mono; [apply rwp_substr|]. intros seg _.
  apply rwp_bind. eapply rwp_mono; [apply Hb|]. intros rs Hrs. case_match; [done|].
  apply rwp_bind. eapply rwp_mono; [apply IH|]. intros rest Hrest. by apply Forall_app.
Qed.

Lemma rwp_udiv_any a b : rwp E (udiv a b) (fun _ => True).
Proof. unfold udiv. by case_match. Qed.

Lemma rwp_umod_any a b : rwp E (umod a b) (fun _ => True).
Proof. unfold umod. by case_match. Qed.

Lemma rwp_split_loop fuel cfg pt pe cur n prev :
  rwp E (split_loop fuel cfg pt pe cur n prev)
    (Forall (fun r => r.(prodThreadID) = pt /\ r.(prodEventID) = pe)).
Proof.
  revert cur n prev. induction fuel as [|fuel IH]; intros cur n prev; cbn [split_loop]; [done|].
  apply rwp_bind. eapply rwp_mono; [apply rwp_umod_any|]. intros ? _.
  apply rwp_bind. eapply rwp_mono; [apply rwp_umod_any|]. intros ? _.
  case_match; [|by apply Forall_singleton].
  apply rwp_bind. eapply rwp_mono; [apply IH|]. intros rs Hrs. by constructor.
Qed.

Lemma rwp_split_range cfg pt pe a b :
  is_u32 pt -> is_u64 pe -> 0 <= a ->
  rwp E (split_range cfg pt pe a b) (Forall (typed_request cfg)).
Proof.
  intros Ht He Ha. assert (rwp E (split_range cfg pt pe a b)
    (Forall (fun r => r.(prodThreadID) = pt /\ r.(prodEventID) = pe))) as Hp.
  { unfold split_range. apply rwp_bind.
    apply (rwp_mono _ _ (fun _ => True)); [|intros; apply rwp_split_loop].
    unfold start_address. apply rwp_bind. eapply rwp_mono; [apply rwp_udiv_any|]. intros ? _.
    repeat (apply rwp_bind; eapply rwp_mono;
      [first [apply rwp_udiv_any|apply rwp_umod_any]|]; intros ? _). done. }
  destruct (split_range cfg pt pe a b) as [rs|x] eqn:Hr; [|done]. cbn [rwp] in *.
  rewrite Forall_forall in *. intros r Hin.
  destruct (Hp r Hin) as [Hpt Hpe]. repeat split; rewrite ?Hpt, ?Hpe; try apply Ht; try apply He.
  intros OK. destruct (split_range_any cfg OK pt pe a b Ha) as (rs' & Hr' & Hall).
  assert (rs' = rs) as -> by congruence. rewrite Forall_forall in Hall.
  by destruct (Hall r Hin) as (_ & _ & ?).
Qed.

Lemma rwp_commDependency cfg seg :
  rwp E (commDependency cfg seg) (Forall (typed_request cfg)).
Proof.
  unfold commDependency. apply rwp_bind. eapply rwp_mono; [apply rwp_entries|].
  intros es _. destruct es as [|? [|? [|? [|? [|]]]]]; try done.
  apply rwp_split_range; [apply u32_range|apply strtoul_range|apply strtoul_range].
Qed.

Lemma rwp_compAccess cfg n seg :
  rwp E (compAccess cfg n seg) (Forall (typed_request cfg)).
Proof.
  unfold compAccess. apply rwp_bind. eapply rwp_mono; [apply rwp_entries|].
  intros es _. destruct es as [|? [|? [|]]]; try done.
  apply rwp_split_range; [done|done|apply strtoul_range].
Qed.

(** ** Which lines are read, and what event each becomes

    The parser as a function from lines to events; [processLine] is this
    function followed by [push_event]. *)
Section events_of_lines.
Context (cfg : RubyCfg).

Definition comm_event (l : str) (hashPos : Z) : result ST_Event :=
  eventInfo ← substr l 0 (u64 (hashPos - 1));
  es ← entries COMM_ENTRIES eventInfo "," (u64 (-1));
  newEvent ← match es with
    | [e0; e1] => Ok (ST_Event_init <| subEventList := None |>
                                    <| Type_ := TYPE_COMMUNICATION |>
                                    <| EventID := strtoul e0 |>
                                    <| ThreadID := i32 (atoi e1 - 1) |>)
    | _ => Err (AssertFail "processCommEvent")
    end;
  dependencyInfo ← substr l (u64 (hashPos + 2)) npos;
  deps ← segments (S (S (List.length dependencyInfo))) dependencyInfo "#"
           (u64 (-2)) (commDependency cfg);
  Ok (newEvent <| comm_preRequisiteEvents := deps |>).

Definition pthread_event (l : str) (caretPos : Z) : result ST_Event :=
  eventInfo ← substr l 0 (u64 (caretPos - 1));
  r0 ← next_entry eventInfo "," (u64 (-1));
  r1 ← next_entry eventInfo "," r0.2;
  r2 ← next_entry eventInfo "," r1.2;
  _ ← (if r2.2 =? npos then Ok tt else Err (AssertFail "nextPos == string::npos"));
  let nextPos := find r2.1 ":" 0 in
  tag ← substr r2.1 0 nextPos;
  _ ← (if bool_decide (tag = PTHREAD_TAG) then Ok tt else Err (AssertFail "tag == PTHREAD_TAG"));
  ty ← substr r2.1 (u64 (nextPos + 1)) npos;
  pa ← substr l (u64 (caretPos + 2)) npos;
  Ok (ST_Event_init <| subEventList := None |>
                    <| Type_ := TYPE_PTHREAD_API |>
                    <| EventID := strtoul r0.1 |>
                    <| ThreadID := i32 (u64 (strtoul r1.1 - 1)) |>
                    <| PthreadType := i32 (strtol ty) |>
                    <| pth_addr := Some (strtoul pa) |>).

(** The text from two characters after a separator on, and the text up to two
    characters before it. *)
Definition cut (s : str) (p : Z) : result (str * str) :=
  if p =? npos then Ok ([], s) else
  i ← substr s (u64 (p + 2)) npos;
  r ← substr s 0 (u64 (p - 1));
  Ok (i, r).

Definition comp_event_of (l : str) : result ST_Event :=
  let dollarPos := find l "$" 0 in
  let starPos := find l "*" 0 in
  r1 ← cut l starPos;
  r2 ← cut r1.2 dollarPos;
  e1 ← processCompMainEvent r2.2 (ST_Event_init <| subEventList := None |>
                                                <| Type_ := TYPE_COMPUTATION |>);
  e2 ← (if dollarPos =? npos then Ok e1 else processCompWriteEvent cfg r2.1 e1);
  if starPos =? npos then Ok e2 else processCompReadEvent cfg r1.1 e2.

Definition line_event (l : str) : result ST_Event :=
  let hashPos := find l "#" 0 in
  let caretPos := find l "^" 0 in
  if negb (hashPos =? npos) then comm_event l hashPos
  else if negb (caretPos =? npos) then pthread_event l caretPos
  else comp_event_of l.

Ltac step_result :=
  match goal with
  | |- context [(lift ?r ≫= _) _] => rewrite lift_bind_run; destruct r; [|done]; cbn [mbind result_bind]
  end.

Lemma processLine_event l em :
  processLine cfg l em = match line_event l with Ok e => push_event e em | Err x => Err x end.
Proof.
  unfold processLine, line_event. destruct (negb _); [|destruct (negb _)].
  - unfold processCommEvent, comm_event. do 2 step_result.
    rewrite lift_bind_run. destruct (match _ with [] => _ | _ => _ end); [|done]. cbn [mbind result_bind].
    by do 2 step_result.
  - unfold processPthreadEvent, pthread_event. do 4 step_result. cbv zeta.
    rewrite assert_bind_run. destruct (_ =? npos); [|done]. cbn [mbind result_bind].
    step_result. rewrite assert_bind_run. destruct (bool_decide _); [|done]. cbn [mbind result_bind].
    by do 2 step_result.
  - unfold processCompEvent, comp_event_of. cbv zeta. rewrite lift_bind_run.
    change (if find l "*" 0 =? npos then Ok ([], l) else _) with (cut l (find l "*" 0)).
    destruct (cut l _) as [[ri rem]|]; [|done]. cbn [mbind result_bind fst snd]. rewrite lift_bind_run.
    change (if find l "$" 0 =? npos then Ok ([], rem) else _) with (cut rem (find l "$" 0)).
    destruct (cut rem _) as [[wi info]|]; [|done]. cbn [mbind result_bind fst snd]. do 2 step_result.
    rewrite lift_bind_run. by destruct (if _ =? npos then _ else _).
Qed.
End events_of_lines.

(** ** Every event that is read is well typed *)
Section typed_events.
Context (cfg : RubyCfg).
Abbreviation parsed e := (fresh_event e /\ typed_event cfg e).

Ltac typed :=
  first [apply strtoul_range | apply i32_range | exact u64_m1 | exact i32_m1].
Ltac any L := apply rwp_bind; eapply rwp_mono; [apply L|].

Lemma comm_event_typed l hashPos : rwp E (comm_event cfg l hashPos) (fun e => parsed e).
Proof.
  unfold comm_event. any rwp_substr. intros info _.
  any rwp_entries. intros es _.
  apply rwp_bind. destruct es as [|e0 [|e1 [|]]]; try done. cbn [rwp].
  any rwp_substr. intros dinfo _.
  apply rwp_bind. eapply rwp_mono; [apply rwp_segments, rwp_commDependency|].
  intros deps Hdeps. cbn [rwp]. split.
  - split_and!; try done; vm_compute; done.
  - unfold typed_event. cbn. split_and!; try typed; [by rewrite !app_nil_r|].
    by right; left.
Qed.

Lemma pthread_event_typed l caretPos : rwp E (pthread_event l caretPos) (fun e => parsed e).
Proof.
  unfold pthread_event. any rwp_substr. intros info _.
  any rwp_next_entry. intros r0 _. any rwp_next_entry. intros r1 _.
  any rwp_next_entry. intros r2 _. cbv zeta.
  apply rwp_bind. case_match; [|done]. cbn [rwp].
  any rwp_substr. intros tag _. apply rwp_bind. case_match; [|done]. cbn [rwp].
  any rwp_substr. intros ty _. any rwp_substr. intros pa _. cbn [rwp]. split.
  - split_and!; cbn; (done || vm_compute; done).
  - unfold typed_event. cbn. split_and!; try typed; [constructor|].
    right; right. split_and!; try done. eexists. split; [done|]. typed.
Qed.

(** The computation event while its parts are read. *)
Definition comp_event (e : ST_Event) : Prop :=
  fresh_event e /\ typed_event cfg e /\ e.(Type_) = TYPE_COMPUTATION.

Lemma comp_event_requests e ws rs :
  comp_event e -> Forall (typed_request cfg) ws -> Forall (typed_request cfg) rs ->
  comp_event (e <| comp_writeEvents ::= fun l => l ++ ws |>
                <| comp_readEvents ::= fun l => l ++ rs |>).
Proof.
  intros (Hf & (?&?&?&?&?&?&?&Hr&Hk) & Hc) Hw Hrs.
  unfold comp_event, typed_event. cbn. split_and!; try assumption.
  - rewrite !Forall_app in *. naive_solver.
  - destruct Hk as [[? Hn]|[[Hk _]|[Hk _]]]; [by left| |]; by rewrite Hc in Hk.
Qed.

Lemma rwp_processCompMainEvent s e :
  comp_event e -> rwp E (processCompMainEvent s e) comp_event.
Proof.
  intros (Hf & Ht & Hc). unfold processCompMainEvent. case_match; [done|]. apply rwp_bind.
  eapply rwp_mono; [apply rwp_entries|]. intros es _.
  destruct es as [|e0 [|e1 [|e2 [|e3 [|e4 [|e5 [|]]]]]]]; try done. cbn [rwp].
  destruct Hf as (?&?&?&?&?), Ht as (?&?&?&?&?&?&?&?&?). unfold comp_event, fresh_event, typed_event.
  cbn. split_and!; try typed; try apply strtoul_nonneg; assumption.
Qed.

Lemma rwp_processCompWriteEvent s e :
  comp_event e -> rwp E (processCompWriteEvent cfg s e) comp_event.
Proof.
  intros He. unfold processCompWriteEvent. apply rwp_bind.
  eapply rwp_mono; [apply rwp_segments, rwp_compAccess|]. intros rs Hrs. cbn [rwp].
  pose proof (comp_event_requests e rs [] He Hrs (Forall_nil_2 _)) as H.
  destruct e; cbn in *. by rewrite app_nil_r in H.
Qed.

Lemma rwp_processCompReadEvent s e :
  comp_event e -> rwp E (processCompReadEvent cfg s e) comp_event.
Proof.
  intros He. unfold processCompReadEvent. apply rwp_bind.
  eapply rwp_mono; [apply rwp_segments, rwp_compAccess|]. intros rs Hrs. cbn [rwp].
  pose proof (comp_event_requests e [] rs He (Forall_nil_2 _) Hrs) as H.
  destruct e; cbn in *. by rewrite app_nil_r in H.
Qed.

Lemma rwp_cut s p : rwp E (cut s p) (fun _ => True).
Proof.
  unfold cut. case_match; [done|]. any rwp_substr. intros ? _. any rwp_substr. done.
Qed.

Lemma comp_event_typed l : rwp E (comp_event_of cfg l) (fun e => parsed e).
Proof.
  unfold comp_event_of. cbv zeta. any rwp_cut. intros [rinfo rem] _. any rwp_cut. intros [winfo info] _.
  any rwp_processCompMainEvent.
  { unfold comp_event, fresh_event, typed_event. cbn.
    split_and!; try typed; try done. by left. }
  intros e1 He1. apply rwp_bind. apply (rwp_mono _ _ comp_event).
  { case_match; [done|]. by apply rwp_processCompWriteEvent. }
  intros e2 He2. apply (rwp_mono _ _ comp_event); [|by intros e3 (?&?&_)].
  case_match; [done|]. by apply rwp_processCompReadEvent.
Qed.

Lemma line_event_typed l : rwp E (line_event cfg l) (fun e => parsed e).
Proof.
  unfold line_event. repeat case_match;
    [apply comm_event_typed|apply pthread_event_typed|apply comp_event_typed].
Qed.
End typed_events.

Section lines.
Context (cfg : RubyCfg) (em : list (StaticDeque.t ST_Event)).
Context (W : forall t q, vget em t = Ok q -> StaticDeque.wf q).
Context (Q : unit -> list (StaticDeque.t ST_Event) -> Prop).
Hypothesis HQ : forall e q q', fresh_event e -> typed_event cfg e -> vget em e.(ThreadID) = Ok q ->
  StaticDeque.wf q' -> StaticDeque.abs q' = StaticDeque.abs q ++ [e] ->
  Q tt (<[Z.to_nat e.(ThreadID) := q']> em).

Lemma wp_push_event e : fresh_event e -> typed_event cfg e -> wp E (push_event e) Q em.
Proof using W HQ.
  intros He Ht. unfold push_event. apply wp_bind, wp_get.
  apply wp_bind, rwp_wp, rwp_vget; [done|]. intros q Hq.
  apply wp_bind, rwp_wp, rwp_push_back; [done|by eapply W|]. intros q' W' Ha.
  apply wp_bind, rwp_wp, rwp_vset; [done|]. intros _. apply wp_modify. by apply (HQ e q).
Qed.

Lemma wp_processLine l : wp E (processLine cfg l) Q em.
Proof using W HQ.
  unfold wp. rewrite processLine_event. pose proof (line_event_typed cfg l) as H.
  destruct (line_event cfg l) as [e|x]; [|exact H]. destruct H. by apply wp_push_event.
Qed.
End lines.

(** ** The pthread file *)
Lemma rwp_barrier_ids fuel s a b ids : rwp E (barrier_ids fuel s a b ids) (fun _ => True).
Proof.
  revert a b ids. induction fuel as [|fuel IH]; intros a b ids; cbn [barrier_ids];
    (case_match; [done|]); [done|].
  apply rwp_bind. eapply rwp_mono; [apply rwp_substr|]. intros ? _. apply IH.
Qed.

Lemma wp_processPthreadFile lines pm :
  wp E (processPthreadFile lines) (fun _ _ => True) pm.
Proof.
  unfold processPthreadFile. apply (wp_for_each E _ _ (fun _ _ => True)); [done|].
  intros _ l pm' _ _. cbv zeta. case_match.
  - unfold processAddressToID.
    repeat (apply wp_bind, rwp_wp; eapply rwp_mono; [apply rwp_substr|]; intros ? _).
    by apply wp_modify.
  - unfold processBarrierEvent.
    repeat (apply wp_bind, rwp_wp; eapply rwp_mono; [apply rwp_substr|]; intros ? _).
    apply wp_bind, rwp_wp. eapply rwp_mono; [apply rwp_barrier_ids|]. intros ? _.
    by apply wp_modify.
Qed.

(** ** Which lines are rejected, and what the others name *)

(** The text up to the next separator, and the text after it. *)
Fixpoint upto_sep (c : ascii) (s : str) : str :=
  match s with [] => [] | x :: s => if Ascii.eqb x c then [] else x :: upto_sep c s end.

Fixpoint after_sep (c : ascii) (s : str) : option str :=
  match s with [] => None | x :: s => if Ascii.eqb x c then Some s else after_sep c s end.

Lemma sep_split c s :
  c ∉ upto_sep c s /\
  s = upto_sep c s ++ match after_sep c s with Some k => c :: k | None => [] end.
Proof.
  induction s as [|x s [IH1 IH2]]; simpl; [split; [apply not_elem_of_nil|done]|].
  destruct (Ascii.eqb_spec x c) as [->|N]; [split; [apply not_elem_of_nil|done]|].
  split; [|simpl; by f_equal]. rewrite not_elem_of_cons. split; [congruence|done].
Qed.

(** *** The loops over entries *)

(** The loop stands before the text [r] of [s]. *)
Definition cursor (s r : str) (c : Z) : Prop := exists pre, s = pre ++ r /\ c = u64 (size pre - 1).

(** Where the next entry begins: after the separator, or again at the start. *)
Definition next_rest (sep : ascii) (s r : str) : str := default s (after_sep sep r).

Lemma cursor_start s : cursor s s (u64 (-1)).
Proof. by exists []. Qed.

Lemma next_entry_cursor sep s r c :
  cursor s r c -> size s < 2 ^ 63 ->
  exists c', next_entry s sep c = Ok (upto_sep sep r, c') /\ cursor s (next_rest sep s r) c' /\
    (c' = npos <-> after_sep sep r = None).
Proof.
  intros (pre & -> & ->) Hsz. destruct (sep_split sep r) as [Hn Hr]. unfold next_rest.
  pose proof (size_nonneg pre). pose proof (size_nonneg (upto_sep sep r)).
  destruct (after_sep sep r) as [k|].
  - exists (u64 (size (pre ++ upto_sep sep r ++ [sep]) - 1)). split; [|split].
    + rewrite Hr at 1. apply next_entry_mid; [done|by rewrite <- Hr].
    + exists (pre ++ upto_sep sep r ++ [sep]). split; [|done]. rewrite Hr at 1. by rewrite <- !app_assoc.
    + split; [|done]. rewrite Hr, !size_app, size_cons in Hsz. pose proof (size_nonneg k).
      rewrite !size_app. change (size [sep]) with 1. rewrite u64_small by (unfold is_u64; lia).
      unfold npos. lia.
  - rewrite app_nil_r in Hr. exists npos. split; [|split; [|done]].
    + rewrite <- Hr. apply next_entry_last; [by rewrite Hr|done].
    + apply cursor_start.
Qed.

Lemma entries_cursor n sep s r c :
  cursor s r c -> size s < 2 ^ 63 ->
  exists es, entries n s sep c = Ok es /\ length es = n /\
    (forall e0, es !! 0%nat = Some e0 -> e0 = upto_sep sep r) /\
    (forall e1, es !! 1%nat = Some e1 -> e1 = upto_sep sep (next_rest sep s r)).
Proof.
  revert r c. induction n as [|n IH]; intros r c Hc Hs; [by exists []|].
  destruct (next_entry_cursor sep s r c Hc Hs) as (c' & E1 & Hc' & _).
  destruct (IH _ _ Hc' Hs) as (es & E2 & L & H0 & _).
  exists (upto_sep sep r :: es). cbn [entries]. rewrite E1. cbn [mbind result_bind fst snd]. rewrite E2.
  split; [done|]. split; [cbn; lia|]. split; [by intros ? [= <-]|]. intros e1 H1. by apply H0.
Qed.

(** *** The loops over accesses *)
Lemma find_spec s c p :
  0 <= p <= size s -> size s < 2 ^ 63 ->
  find s c p = npos \/ (p <= find s c p < size s /\ s !! Z.to_nat (find s c p) = Some c).
Proof.
  intros Hp Hs. set (pre := take (Z.to_nat p) s). set (r := drop (Z.to_nat p) s).
  assert (Epre : size pre = p) by (unfold pre, size in *; rewrite length_take; lia).
  assert (Es : s = pre ++ r) by (symmetry; apply take_drop). clearbody pre r.
  destruct (sep_split c r) as [Hn Hr]. destruct (after_sep c r) as [k|].
  - right. assert (F : find s c p = p + size (upto_sep c r)).
    { rewrite <- Epre at 1 2. rewrite Es, Hr at 1. by apply find_first. }
    rewrite F. pose proof (size_nonneg (upto_sep c r)).
    assert (size s = p + size (upto_sep c r) + 1 + size k).
    { pose proof (f_equal size Hr) as E. rewrite size_app, size_cons in E. rewrite Es, size_app, E, Epre. lia. }
    pose proof (size_nonneg k). split; [lia|].
    rewrite Es. rewrite Hr at 2. rewrite app_assoc. apply list_lookup_middle. rewrite length_app.
    unfold size in *. lia.
  - left. rewrite app_nil_r in Hr. rewrite <- Epre, Es. apply find_absent. by rewrite Hr.
Qed.

Lemma last_lookup_end (s : str) c i :
  0 <= i -> i + 1 = size s -> s !! Z.to_nat i = Some c -> last s = Some c.
Proof. intros Hi Hs H. rewrite last_lookup, <- H. f_equal. unfold size in Hs. lia. Qed.

Definition out_of_range : error := Throw "basic_string::substr".

Lemma substr_from s p :
  0 <= p -> size s < 2 ^ 63 -> substr s p npos = if p <=? size s then Ok (drop (Z.to_nat p) s) else Err out_of_range.
Proof.
  intros Hp Hs. unfold substr. destruct (Z.ltb_spec (size s) p), (Z.leb_spec p (size s)); try lia; [done|].
  f_equal. apply take_ge. rewrite length_drop. unfold size, npos in *. lia.
Qed.

Lemma segments_outcome s sep body :
  size s < 2 ^ 63 -> (forall seg, size seg < 2 ^ 63 -> exists rs, body seg = Ok rs) ->
  forall fuel cur, let p := u64 (cur + 2) in
  p <= size s + 1 -> (p = size s + 1 -> last s = Some sep) -> size s + 1 - p < Z.of_nat fuel ->
  rwp (fun x => x = out_of_range /\ last s = Some sep) (segments fuel s sep cur body) (fun _ => True).
Proof.
  intros Hs Hb. induction fuel as [|fuel IH]; intros cur p Hp Hend Hf; [lia|].
  assert (0 <= p) by apply (u64_range (cur + 2)). pose proof (size_nonneg s).
  cbn [segments]. fold p. unfold substr. destruct (Z.ltb_spec (size s) p) as [Hlt|Hle].
  { cbn. split; [done|]. apply Hend. lia. }
  cbn [mbind result_bind]. match goal with |- context [body ?x] => set (seg := x) end.
  destruct (Hb seg) as [rs ->].
  { unfold seg, size in *. rewrite length_take, length_drop. lia. }
  cbn [mbind result_bind]. destruct (find_spec s sep p) as [->|[Hn Hl]]; [lia|done|done|].
  destruct (Z.eqb_spec (find s sep p) npos) as [E|_]; [unfold npos in E; lia|].
  apply rwp_bind. eapply rwp_mono; [apply IH|by intros].
  - rewrite u64_small by (unfold is_u64; lia). lia.
  - rewrite u64_small by (unfold is_u64; lia). intros E. by eapply last_lookup_end; [| |exact Hl]; lia.
  - rewrite u64_small by (unfold is_u64; lia). lia.
Qed.
(** *** Lines *)

(** The text before the separator at [p] and the blank in front of it (all of
    it for a separator at the start, or for none). *)
Definition before (l : str) (p : Z) : str :=
  if p =? npos then l else take (Z.to_nat (u64 (p - 1) `min` size l)) l.

Definition is_comm (l : str) : bool := negb (find l "#" 0 =? npos).
Definition is_pthread (l : str) : bool := negb (is_comm l) && negb (find l "^" 0 =? npos).
Definition starPos (l : str) : Z := find l "*" 0.
Definition dollarPos (l : str) : Z := find l "$" 0.

(** The entries of a line: the text before its accesses or its address. *)
Definition info (l : str) : str :=
  if is_comm l then before l (find l "#" 0)
  else if is_pthread l then before l (find l "^" 0)
  else before (before l (starPos l)) (dollarPos l).

(** The first entry is the event, the second the thread, counted from 1 (the
    first again when there is only one). *)
Definition named_event (l : str) : Z := strtoul (upto_sep "," (info l)).
Definition named_thread (l : str) : Z :=
  let f := upto_sep "," (next_rest "," (info l) (info l)) in
  if is_pthread l then i32 (u64 (strtoul f - 1)) else i32 (atoi f - 1).

(** The entries of a pthread event. *)
Definition pthread_entries (s : str) : Prop :=
  exists a b c, s = a ++ ","%char :: b ++ ","%char :: lit "pth_ty:" ++ c /\
    (","%char ∉ a) /\ (","%char ∉ b) /\ (","%char ∉ c).

(** Why a line is rejected, with the error: it ends in a separator, the
    writes of a computation do, or its reads begin before them or less than
    three characters after; a computation has fewer than six entries; a
    pthread event does not have three with the tag. *)
Inductive flaw (l : str) : error -> Prop :=
| flaw_end c : c ∈ lit "#^$*" -> last l = Some c -> flaw l out_of_range
| flaw_inner : last (before l (starPos l)) = Some "$"%char -> flaw l out_of_range
| flaw_close : starPos l <> npos -> dollarPos l <> npos -> starPos l < dollarPos l + 3 ->
    flaw l out_of_range
| flaw_entries : is_comm l = false -> is_pthread l = false -> count (info l) "," < 5 ->
    flaw l (Panic "Incorrect element count in computation event.")
| flaw_tag site : is_pthread l = true -> ~ pthread_entries (info l) -> flaw l (AssertFail site).

Lemma size_before l p : size (before l p) <= size l.
Proof. unfold before, size. case_match; [lia|]. rewrite length_take. lia. Qed.

Lemma substr_before l p : p <> npos -> substr l 0 (u64 (p - 1)) = Ok (before l p).
Proof.
  intros Hp. unfold substr, before. rewrite (proj2 (Z.eqb_neq _ _) Hp).
  pose proof (size_nonneg l). by rewrite (proj2 (Z.ltb_ge _ _)).
Qed.

Lemma find_0 l c :
  size l < 2 ^ 63 -> find l c 0 <> npos ->
  0 <= find l c 0 < size l /\ l !! Z.to_nat (find l c 0) = Some c.
Proof.
  intros Hs Hn. pose proof (size_nonneg l). destruct (find_spec l c 0) as [?|?]; [lia|done|done|done].
Qed.

Lemma last_drop (l : str) n c : last (drop n l) = Some c -> last l = Some c.
Proof. intros H. rewrite <- (take_drop n l), last_app. by rewrite H. Qed.

(** The text after a separator, if it is not the last character. *)
Lemma substr_after l c :
  size l < 2 ^ 63 -> find l c 0 <> npos ->
  (exists r, substr l (u64 (find l c 0 + 2)) npos = Ok r /\ size r < 2 ^ 63 /\
     forall x, last r = Some x -> last l = Some x) \/
  substr l (u64 (find l c 0 + 2)) npos = Err out_of_range /\ last l = Some c.
Proof.
  intros Hs Hn. destruct (find_0 l c Hs Hn) as [Hr Hl].
  rewrite u64_small by (unfold is_u64; lia). rewrite substr_from by lia.
  destruct (Z.leb_spec (find l c 0 + 2) (size l)).
  - left. eexists. split; [done|]. split; [unfold size in *; rewrite length_drop; lia|].
    intros x. apply last_drop.
  - right. split; [done|]. eapply last_lookup_end; [| |exact Hl]; lia.
Qed.

(** *** The events *)
Section outcomes.
Context (cfg : RubyCfg) (OK : cfg_ok cfg).

Lemma commDependency_total seg : size seg < 2 ^ 63 -> exists rs, commDependency cfg seg = Ok rs.
Proof.
  intros Hs. unfold commDependency.
  destruct (entries_cursor 4 " " seg seg (u64 (-1)) (cursor_start seg) Hs) as (es & E1 & L & _).
  unfold COMM_SHARED_INFO_ENTRIES. rewrite E1. cbn [mbind result_bind].
  destruct es as [|? [|? [|? [|? [|]]]]]; try done.
  match goal with |- context [split_range cfg ?a ?b ?x ?y] =>
    destruct (split_range_any cfg OK a b x y (strtoul_nonneg _)) as (rs & -> & _) end. by eexists.
Qed.

Lemma compAccess_total n seg : n = 2%nat -> size seg < 2 ^ 63 -> exists rs, compAccess cfg n seg = Ok rs.
Proof.
  intros -> Hs. unfold compAccess.
  destruct (entries_cursor 2 " " seg seg (u64 (-1)) (cursor_start seg) Hs) as (es & E1 & L & _).
  rewrite E1. cbn [mbind result_bind]. destruct es as [|? [|? [|]]]; try done.
  match goal with |- context [split_range cfg ?a ?b ?x ?y] =>
    destruct (split_range_any cfg OK a b x y (strtoul_nonneg _)) as (rs & -> & _) end. by eexists.
Qed.

(** The loop over the accesses of an event. *)
Lemma accesses_outcome s sep body :
  size s < 2 ^ 63 -> (forall seg, size seg < 2 ^ 63 -> exists rs, body seg = Ok rs) ->
  rwp (fun x => x = out_of_range /\ last s = Some sep)
    (segments (S (S (List.length s))) s sep (u64 (-2)) body) (fun _ => True).
Proof.
  intros Hs Hb. pose proof (size_nonneg s).
  apply segments_outcome; try done; change (u64 (u64 (-2) + 2)) with 0; unfold size in *; lia.
Qed.

Abbreviation outcome l r :=
  (rwp (flaw l) r (fun e => e.(EventID) = named_event l /\ e.(ThreadID) = named_thread l)).

Lemma comm_outcome l :
  size l < 2 ^ 63 -> is_comm l = true -> outcome l (comm_event cfg l (find l "#" 0)).
Proof.
  intros Hs Hc. unfold named_event, named_thread, info.
  assert (is_pthread l = false) as -> by (unfold is_pthread; by rewrite Hc). rewrite Hc.
  unfold is_comm in Hc. apply negb_true_iff, Z.eqb_neq in Hc.
  unfold comm_event. rewrite (substr_before l _ Hc). cbn [mbind result_bind].
  set (s := before l (find l "#" 0)).
  assert (Hss : size s < 2 ^ 63) by (pose proof (size_before l (find l "#" 0)); unfold s; lia).
  destruct (entries_cursor 2 "," s s (u64 (-1)) (cursor_start s) Hss) as (es & E1 & L & F0 & F1).
  unfold COMM_ENTRIES. rewrite E1. cbn [mbind result_bind].
  destruct es as [|e0 [|e1 [|]]]; try done. rewrite <- (F0 e0), <- (F1 e1) by done. cbn [mbind result_bind].
  destruct (substr_after l "#" Hs Hc) as [(r & -> & Hr & Hlast)|[-> Hlast]].
  - cbn [mbind result_bind]. apply rwp_bind.
    pose proof (accesses_outcome r "#" (commDependency cfg) Hr commDependency_total) as HA.
    destruct (segments _ _ _ _ _) as [deps|x]; cbn [rwp] in *; [done|].
    destruct HA as [-> HA]. apply (flaw_end l "#"); [by left|by apply Hlast].
  - cbn. apply (flaw_end l "#"); [by left|done].
Qed.

Lemma upto_sep_at c a r : c ∉ a -> upto_sep c (a ++ c :: r) = a /\ after_sep c (a ++ c :: r) = Some r.
Proof.
  induction a as [|x a IH]; simpl; [by rewrite Ascii.eqb_refl|].
  rewrite not_elem_of_cons. intros [Hx Ha]. destruct (IH Ha) as [E1 E2].
  destruct (Ascii.eqb_spec x c); [congruence|]. by rewrite E1, E2.
Qed.

Lemma upto_sep_none c a : c ∉ a -> upto_sep c a = a /\ after_sep c a = None.
Proof.
  induction a as [|x a IH]; simpl; [done|]. rewrite not_elem_of_cons. intros [Hx Ha].
  destruct (IH Ha) as [E1 E2]. destruct (Ascii.eqb_spec x c); [congruence|]. by rewrite E1, E2.
Qed.

(** The third entry of a pthread event. *)
Lemma pthread_entries_third s :
  pthread_entries s ->
  let r2 := next_rest "," s (next_rest "," s s) in
  after_sep "," r2 = None /\ exists c, upto_sep "," r2 = lit "pth_ty:" ++ c.
Proof.
  intros (a & b & c & -> & Ha & Hb & Hc). cbv zeta. unfold next_rest.
  destruct (upto_sep_at "," a (b ++ ","%char :: lit "pth_ty:" ++ c) Ha) as [_ E1].
  destruct (upto_sep_at "," b (lit "pth_ty:" ++ c) Hb) as [_ E2].
  rewrite E1. cbn [from_option id]. rewrite E2. cbn [from_option id]. clear E1 E2.
  destruct (upto_sep_none "," (lit "pth_ty:" ++ c)) as [E1 E2].
  { rewrite elem_of_app. intros [Hx|Hx]; [|done].
    apply (bool_decide_pack _) in Hx. by vm_compute in Hx. }
  split; [exact E2|]. exists c. exact E1.
Qed.

Lemma pthread_outcome l :
  size l < 2 ^ 63 -> is_pthread l = true -> outcome l (pthread_event l (find l "^" 0)).
Proof.
  intros Hs Hp. assert (Hn : is_comm l = false).
  { unfold is_pthread in Hp. by destruct (is_comm l). }
  assert (Hc : find l "^" 0 <> npos).
  { unfold is_pthread in Hp. rewrite Hn in Hp. cbn in Hp. by apply negb_true_iff, Z.eqb_neq in Hp. }
  assert (Hinfo : info l = before l (find l "^" 0)) by (unfold info; by rewrite Hn, Hp).
  pose proof (flaw_tag l) as Htag. rewrite Hinfo in Htag. unfold named_event, named_thread. rewrite Hinfo, Hp.
  unfold pthread_event. rewrite (substr_before l _ Hc). cbn [mbind result_bind].
  set (s := before l (find l "^" 0)) in *.
  assert (Hss : size s < 2 ^ 63) by (pose proof (size_before l (find l "^" 0)); unfold s; lia).
  destruct (next_entry_cursor "," s s _ (cursor_start s) Hss) as (c0 & -> & C0 & _).
  cbn [mbind result_bind fst snd].
  destruct (next_entry_cursor "," s _ _ C0 Hss) as (c1 & -> & C1 & _). cbn [mbind result_bind fst snd].
  destruct (next_entry_cursor "," s _ _ C1 Hss) as (c2 & -> & _ & N2). cbn [mbind result_bind fst snd].
  set (r2 := next_rest "," s (next_rest "," s s)) in *.
  destruct (Z.eqb_spec c2 npos) as [_|Hne]; cbn [mbind result_bind].
  2:{ cbn. apply Htag; [done|]. intros [H _]%pthread_entries_third. by apply Hne, N2. }
  set (f := upto_sep "," r2).
  assert (Hf : size f < 2 ^ 63).
  { destruct (sep_split "," r2) as [_ E]. apply (f_equal size) in E. rewrite size_app in E. fold f in E.
    assert (size r2 <= size s).
    { destruct C1 as (pre & E' & _). fold r2 in E'. apply (f_equal size) in E'. rewrite size_app in E'.
      pose proof (size_nonneg pre). lia. }
    match type of E with _ = _ + size ?x => pose proof (size_nonneg x) end. lia. }
  pose proof (size_nonneg f) as Hf0.
  assert (Etag : exists t, substr f 0 (find f ":" 0) = Ok t)
    by (unfold substr; rewrite (proj2 (Z.ltb_ge _ _)) by lia; by eexists).
  destruct Etag as [tag Etag]. rewrite Etag. cbn [mbind result_bind].
  case_bool_decide as Ht; cbn [mbind result_bind].
  2:{ cbn. apply Htag; [done|]. intros [_ [c Hc3]]%pthread_entries_third. apply Ht.
      fold r2 in Hc3. fold f in Hc3. rewrite Hc3 in Etag.
      change (lit "pth_ty:" ++ c) with (lit "pth_ty" ++ ":"%char :: c) in Etag.
      rewrite find_first_0, substr_prefix in Etag; [by injection Etag|done|].
      intros Hx. apply (bool_decide_pack _) in Hx. by vm_compute in Hx. }
  assert (Ety : exists t, substr f (u64 (find f ":" 0 + 1)) npos = Ok t).
  { destruct (decide (find f ":" 0 = npos)) as [->|Hne].
    - change (u64 (npos + 1)) with 0. rewrite substr_from by lia. rewrite (proj2 (Z.leb_le _ _)) by lia. by eexists.
    - destruct (find_0 f ":" Hf Hne) as [Hr _]. rewrite u64_small by (unfold is_u64; lia).
      rewrite substr_from by lia. rewrite (proj2 (Z.leb_le _ _)) by lia. by eexists. }
  destruct Ety as [ty ->]. cbn [mbind result_bind].
  destruct (substr_after l "^" Hs Hc) as [(r & -> & _)|[-> Hlast]]; cbn; [done|].
  apply (flaw_end l "^"); [right; by left|done].
Qed.

(** The reads and the writes of a computation are cut off. *)
Lemma cut_reads l :
  size l < 2 ^ 63 ->
  (exists ri, cut l (starPos l) = Ok (ri, before l (starPos l)) /\ size ri < 2 ^ 63 /\
     forall x, last ri = Some x -> last l = Some x) \/
  cut l (starPos l) = Err out_of_range /\ flaw l out_of_range.
Proof.
  intros Hs. unfold cut, starPos. destruct (Z.eqb_spec (find l "*" 0) npos) as [E|Hn].
  - left. exists []. unfold before. rewrite E. split; [done|]. split; [done|done].
  - rewrite (substr_before l _ Hn).
    destruct (substr_after l "*" Hs Hn) as [(r & -> & Hr & Hl)|[-> Hl]]; [left; by eexists|right].
    split; [done|]. apply (flaw_end l "*"); [do 3 right; by left|done].
Qed.

Lemma cut_writes l :
  size l < 2 ^ 63 -> let rem := before l (starPos l) in
  (exists wi, cut rem (dollarPos l) = Ok (wi, before rem (dollarPos l)) /\ size wi < 2 ^ 63 /\
     forall x, last wi = Some x -> last rem = Some x) \/
  cut rem (dollarPos l) = Err out_of_range /\ flaw l out_of_range.
Proof.
  intros Hs rem. assert (Hrem : size rem <= size l) by apply size_before.
  unfold cut. destruct (Z.eqb_spec (dollarPos l) npos) as [E|Hn].
  - left. exists []. unfold before at 1. rewrite E. split; [done|]. split; [done|done].
  - rewrite (substr_before rem _ Hn). destruct (find_0 l "$" Hs Hn) as [Hd Hl]. fold (dollarPos l) in *.
    rewrite u64_small by (unfold is_u64; lia). rewrite substr_from by lia.
    destruct (Z.leb_spec (dollarPos l + 2) (size rem)) as [Hle|Hgt].
    + left. eexists. split; [done|]. split; [unfold size in *; rewrite length_drop; lia|].
      intros x. apply last_drop.
    + right. split; [done|]. destruct (decide (starPos l = npos)) as [E|Hst].
      * apply (flaw_end l "$"); [do 2 right; by left|].
        assert (rem = l) as Er by (unfold rem, before; by rewrite E). rewrite Er in *.
        eapply last_lookup_end; [| |exact Hl]; lia.
      * apply flaw_close; [done|done|]. destruct (find_0 l "*" Hs Hst) as [Hr _]. fold (starPos l) in *.
        destruct (decide (starPos l = 0)) as [->|Hz]; [lia|].
        unfold rem, before, size in Hgt. rewrite (proj2 (Z.eqb_neq _ _) Hst), length_take in Hgt.
        rewrite u64_small in Hgt by (unfold is_u64; lia). unfold size in *. lia.
Qed.

Lemma comp_outcome l :
  size l < 2 ^ 63 -> is_comm l = false -> is_pthread l = false -> outcome l (comp_event_of cfg l).
Proof.
  intros Hs Hc Hp. pose proof (flaw_entries l Hc Hp) as Hcount.
  unfold named_event, named_thread. unfold info in *. rewrite Hc, Hp in *. unfold comp_event_of. cbv zeta.
  fold (starPos l) (dollarPos l). set (rem := before l (starPos l)) in *.
  assert (Hrem : size rem <= size l) by apply size_before.
  destruct (cut_reads l Hs) as [(ri & -> & Hri & Hrl)|[-> ?]]; [|done].
  cbn [mbind result_bind fst snd]. fold rem.
  pose proof (cut_writes l Hs) as HW. cbv zeta in HW. fold rem in HW.
  destruct HW as [(wi & -> & Hwi & Hwl)|[-> ?]]; [|done].
  cbn [mbind result_bind fst snd]. set (s := before rem (dollarPos l)) in *.
  assert (Hss : size s < 2 ^ 63) by (pose proof (size_before rem (dollarPos l)); unfold s; lia).
  unfold processCompMainEvent. change (Z.of_nat COMP_ENTRIES - 1) with 5.
  destruct (Z.ltb_spec (count s ",") 5) as [Hlt|_]; [by apply Hcount|].
  destruct (entries_cursor 6 "," s s (u64 (-1)) (cursor_start s) Hss) as (es & E1 & L & F0 & F1).
  unfold COMP_ENTRIES. rewrite E1. cbn [mbind result_bind].
  destruct es as [|e0 [|e1 [|e2 [|e3 [|e4 [|e5 [|]]]]]]]; try done.
  rewrite <- (F0 e0), <- (F1 e1) by done. cbn [mbind result_bind].
  match goal with |- rwp _ (r ← (if _ then Ok ?e else _); _) _ => set (ev := e) end.
  apply rwp_bind, (rwp_mono _ _ (fun e => e.(EventID) = strtoul e0 /\ e.(ThreadID) = i32 (atoi e1 - 1))).
  - destruct (dollarPos l =? npos); [done|]. unfold processCompWriteEvent. apply rwp_bind.
    pose proof (accesses_outcome wi "$" (compAccess cfg COMP_WRITE_ENTRIES) Hwi
      (fun seg => compAccess_total _ seg eq_refl)) as HA.
    destruct (segments _ _ _ _ _) as [rs|x]; cbn [rwp] in *; [done|].
    destruct HA as [-> HA]. apply flaw_inner. by apply Hwl.
  - intros e He. destruct (starPos l =? npos); [done|]. unfold processCompReadEvent. apply rwp_bind.
    pose proof (accesses_outcome ri "*" (compAccess cfg COMP_READ_ENTRIES) Hri
      (fun seg => compAccess_total _ seg eq_refl)) as HA.
    destruct (segments _ _ _ _ _) as [rs|x]; cbn [rwp] in *; [done|].
    destruct HA as [-> HA]. apply (flaw_end l "*"); [do 3 right; by left|]. by apply Hrl.
Qed.

Lemma line_outcome l : size l < 2 ^ 63 -> outcome l (line_event cfg l).
Proof.
  intros Hs. unfold line_event. destruct (is_comm l) eqn:Ec.
  - pose proof Ec as E'. unfold is_comm in E'. rewrite E'. by apply comm_outcome.
  - pose proof Ec as E'. unfold is_comm in E'. rewrite E'. destruct (is_pthread l) eqn:Ep.
    + pose proof Ep as E2. unfold is_pthread in E2. rewrite Ec in E2. cbn in E2. rewrite E2.
      by apply pthread_outcome.
    + pose proof Ep as E2. unfold is_pthread in E2. rewrite Ec in E2. cbn in E2. rewrite E2.
      by apply comp_outcome.
Qed.
End outcomes.

(** ** Reading the lines of the trace files *)

(** The line is read as the event, whatever is in the queues. *)
Record event_line (cfg : RubyCfg) (l : str) (e : ST_Event) : Prop := {
  el_fresh : fresh_event e;
  el_typed : typed_event cfg e;
  el_event : e.(EventID) = named_event l;
  el_thread : e.(ThreadID) = named_thread l;
  el_reads : forall em, processLine cfg l em = push_event e em
}.

Lemma event_line_of cfg l e :
  cfg_ok cfg -> size l < 2 ^ 63 -> line_event cfg l = Ok e -> event_line cfg l e.
Proof.
  intros OK Hs El. pose proof (line_outcome cfg OK l Hs) as Ho. pose proof (line_event_typed cfg l) as Ht.
  rewrite El in Ho, Ht. cbn in *. destruct Ho, Ht. constructor; try done.
  intros em. by rewrite processLine_event, El.
Qed.

Lemma line_cases cfg l :
  cfg_ok cfg -> size l < 2 ^ 63 ->
  (exists e, event_line cfg l e) \/
  (exists x, flaw l x /\ forall em, processLine cfg l em = Err x).
Proof.
  intros OK Hs. pose proof (line_outcome cfg OK l Hs) as Ho.
  destruct (line_event cfg l) as [e|x] eqn:El; cbn in *.
  - left. exists e. by apply event_line_of.
  - right. exists x. split; [done|]. intros em. by rewrite processLine_event, El.
Qed.

Definition of_thread (t : Z) (es : list ST_Event) : list ST_Event := filter (fun e => e.(ThreadID) = t) es.

(** The queues after the events: each is appended to the queue of its thread. *)
Definition appended (em : EventMap) (es : list ST_Event) (em' : EventMap) : Prop :=
  length em' = length em /\
  forall t q, vget em t = Ok q -> exists q', vget em' t = Ok q' /\ StaticDeque.wf q' /\
    q'.(StaticDeque.length_) = q.(StaticDeque.length_) /\
    StaticDeque.abs q' = StaticDeque.abs q ++ of_thread t es.

(** Why an event cannot be appended to the queues: there is no queue for its
    thread, or it is full with the events [es] that came before. *)
Definition no_room (em : EventMap) (es : list ST_Event) (e : ST_Event) (x : error) : Prop :=
  (x = UB "index" /\ ~ 0 <= e.(ThreadID) < Z.of_nat (length em)) \/
  (x = Throw "Attempted to add element to full deque." /\
   exists q, vget em e.(ThreadID) = Ok q /\
     Z.of_nat (length (StaticDeque.abs q ++ of_thread e.(ThreadID) es)) = q.(StaticDeque.length_)).

Definition queues_wf (em : EventMap) : Prop := forall t q, vget em t = Ok q -> StaticDeque.wf q.

Lemma push_event_cases em e :
  queues_wf em ->
  (exists em', push_event e em = Ok (tt, em') /\ appended em [e] em') \/
  (exists x, push_event e em = Err x /\ no_room em [] e x).
Proof.
  intros W. unfold push_event. rewrite get_run, lift_bind_run.
  destruct (vget em e.(ThreadID)) as [q|x] eqn:Eq.
  - pose proof (W _ _ Eq) as Wq. pose proof (StaticDeque.push_back_spec q e Wq) as Hp.
    pose proof (vget_Ok_range _ _ _ Eq) as Hr. pose proof (StaticDeque.length_abs q Wq) as Hl.
    destruct (Z.ltb_spec (StaticDeque.elems q) (StaticDeque.length_ q)) as [Hlt|Hge].
    + destruct Hp as (q' & E & Wq' & Ha & Hlen). left.
      rewrite lift_bind_run, E, lift_bind_run, vset_in_range by done.
      eexists. split; [reflexivity|]. split; [by rewrite length_insert|].
      intros t q0 Hq0. unfold of_thread. destruct (decide (e.(ThreadID) = t)) as [<-|Hne].
      * exists q'. rewrite vget_insert_eq by done. rewrite Eq in Hq0. injection Hq0 as <-.
        by rewrite filter_cons_True.
      * exists q0. rewrite vget_insert_ne by (done || lia). rewrite filter_cons_False by done.
        rewrite app_nil_r. split_and!; try done. by eapply W.
    + right. rewrite lift_bind_run, Hp. eexists. split; [done|]. right. split; [done|].
      exists q. split; [done|]. rewrite app_nil_r. pose proof (StaticDeque.wf_elems q Wq). lia.
  - right. exists x. split; [done|]. left. unfold vget in Eq.
    destruct (Z.leb_spec 0 e.(ThreadID)); [|split; [congruence|lia]].
    destruct (em !! _) eqn:El; [done|]. apply lookup_ge_None in El. split; [congruence|lia].
Qed.

Lemma of_thread_cons t e es : of_thread t (e :: es) = of_thread t [e] ++ of_thread t es.
Proof. unfold of_thread. by rewrite <- filter_app. Qed.

Lemma appended_wf em es em' : appended em es em' -> queues_wf em'.
Proof.
  intros [HL H] t q Hq. pose proof (vget_Ok_range _ _ _ Hq) as Hr. rewrite HL in Hr.
  destruct (vget_in_range em t Hr) as [q0 Hq0]. destruct (H t q0 Hq0) as (q' & E & ? & _). congruence.
Qed.

Lemma appended_cons em e es em1 em' :
  appended em [e] em1 -> appended em1 es em' -> appended em (e :: es) em'.
Proof.
  intros [L1 H1] [L2 H2]. split; [congruence|]. intros t q Hq.
  destruct (H1 t q Hq) as (q1 & E1 & _ & N1 & A1). destruct (H2 t q1 E1) as (q2 & E2 & W2 & N2 & A2).
  exists q2. split_and!; try done; [congruence|].
  by rewrite A2, A1, <- app_assoc, (of_thread_cons t e es).
Qed.

Lemma no_room_cons em e es em1 e' x :
  appended em [e] em1 -> no_room em1 es e' x -> no_room em (e :: es) e' x.
Proof.
  intros [L1 H1] [[-> H]|(-> & q1 & Hq1 & Hf)]; [left; by rewrite <- L1|right]. split; [done|].
  pose proof (vget_Ok_range _ _ _ Hq1) as Hr. rewrite L1 in Hr. destruct (vget_in_range em _ Hr) as [q Hq].
  destruct (H1 _ q Hq) as (q1' & E1 & _ & N1 & A1). assert (q1' = q1) as -> by congruence.
  exists q. split; [done|]. by rewrite <- N1, <- Hf, A1, <- app_assoc, (of_thread_cons _ e es).
Qed.

(** C22: reading the lines of the trace files, for a configuration that [init]
    accepts.  If the parser returns, every line has become one event, which is
    well typed (its members are in the range of their C types, it has the
    requests of its own kind only, each inside one line of the simulated
    memory), has the event number and the thread number (less one) that the
    first two entries of the line give, and does not depend on what was read
    before; and every queue has the events that name its thread appended in
    the order of the lines, nothing else.  If it stops, the lines before the
    last one read were read so, and the last one has a flaw that is known by
    its text and its error (it ends in a separator, the parts of a computation
    are out of order, entries or the tag are missing), or it names a thread
    without a queue, or the queue of its thread is full.  In particular none
    of the parser's loops runs for ever. *)
Theorem parsed_events_typed (cfg : RubyCfg) (lines : list str) (em : EventMap) :
  cfg_ok cfg -> Forall (fun l => size l < 2 ^ 63) lines -> queues_wf em ->
  match for_each lines (processLine cfg) em with
  | Ok (_, em') => exists es, Forall2 (event_line cfg) lines es /\ appended em es em'
  | Err x => exists read l rest es, lines = read ++ l :: rest /\ Forall2 (event_line cfg) read es /\
      (flaw l x \/ exists e, event_line cfg l e /\ no_room em es e x)
  end.
Proof.
  intros OK Hs. revert em. induction Hs as [|l lines Hl Hs IH]; intros em W; cbn [for_each].
  - exists []. split; [constructor|]. split; [done|]. intros t q Hq. exists q.
    rewrite app_nil_r. split_and!; try done. by eapply W.
  - unfold mbind, M_bind. destruct (line_cases cfg l OK Hl) as [[e He]|(x & Hx & Ex)].
    2:{ rewrite Ex. exists [], l, lines, []. split; [done|]. split; [constructor|by left]. }
    rewrite (el_reads _ _ _ He).
    destruct (push_event_cases em e W) as [(em1 & -> & A1)|(x & -> & Hx)].
    2:{ exists [], l, lines, []. split; [done|]. split; [constructor|]. right. by exists e. }
    specialize (IH em1 (appended_wf _ _ _ A1)).
    destruct (for_each lines (processLine cfg) em1) as [[[] em']|x].
    + destruct IH as (es & F & A). exists (e :: es). split; [by constructor|by eapply appended_cons].
    + destruct IH as (read & l' & rest & es & -> & F & H). exists (l :: read), l', rest, (e :: es).
      split; [done|]. split; [by constructor|]. destruct H as [?|(e' & He' & Hn)]; [by left|right].
      exists e'. split; [done|]. by eapply no_room_cons.
Qed.

Definition typed_example_lines : list str :=
  [lit "1,2,3,4,1,0 $ 64 71"; lit "9,2 # 1 4 60 75"; lit "10,1,pth_ty:1 ^ 0x40"].

Lemma example_queues_wf : queues_wf example_queues.
Proof.
  intros t q [Ht Hq]%vget_Ok. unfold example_queues in Hq.
  assert (q = StaticDeque.mk (replicate 4 None) 4 0 0 0) as ->
    by (apply list_elem_of_lookup_2 in Hq; set_solver).
  split; cbn; try lia; done.
Qed.

(** Three lines are read; a fourth that ends in a separator is rejected. *)
Lemma parsed_events_typed_witness :
  (exists em' es, for_each typed_example_lines (processLine example_cfg) example_queues = Ok (tt, em') /\
     Forall2 (event_line example_cfg) typed_example_lines es /\
     EventID <$> es = [1; 9; 10] /\ ThreadID <$> es = [1; 1; 0] /\ appended example_queues es em') /\
  exists x, for_each (typed_example_lines ++ [lit "11,2 # 1 4 60 75 #"]) (processLine example_cfg)
    example_queues = Err x /\ flaw (lit "11,2 # 1 4 60 75 #") x.
Proof.
  split.
  - pose proof (parsed_events_typed example_cfg typed_example_lines example_queues) as H.
    destruct (for_each typed_example_lines (processLine example_cfg) example_queues)
      as [[[] em']|x] eqn:Hr; [|vm_compute in Hr; discriminate].
    destruct H as (es & F & A); [exact example_cfg_ok|by repeat constructor|exact example_queues_wf|].
    exists em', es. split; [done|]. split; [exact F|]. split; [|split; [|exact A]].
    + transitivity (named_event <$> typed_example_lines); [|by vm_compute].
      clear -F. induction F as [|l e ls es He _ IH]; [done|]. rewrite !fmap_cons, IH. by destruct He as [_ _ -> _ _].
    + transitivity (named_thread <$> typed_example_lines); [|by vm_compute].
      clear -F. induction F as [|l e ls es He _ IH]; [done|]. rewrite !fmap_cons, IH. by destruct He as [_ _ _ -> _].
  - pose proof (parsed_events_typed example_cfg (typed_example_lines ++ [lit "11,2 # 1 4 60 75 #"])
      example_queues) as H.
    destruct (for_each (typed_example_lines ++ _) (processLine example_cfg) example_queues)
      as [[[] em']|x] eqn:Hr; [vm_compute in Hr; discriminate|].
    vm_compute in Hr. injection Hr as <-. eexists. split; [done|].
    apply (flaw_end _ "#"); [by left|done].
Defined.

End TraceLines.
