(* ===== verification/ReplayState.v ===== *)
(** * The state of the replay engine
    (class [SynchroTrace], src/src/cpu/testers/synchrotrace/SynchroTrace.hh).

    One record field per data member that the replay reads or writes, the
    pieces of the simulator it talks to (the two kinds of scheduled events,
    the clock, the ports), and the access primitives the handlers are written
    with. *)

From S2P Require Import Prelude.
From S2P Require Import StaticDeque.
From S2P Require Import STEvent.
From S2P Require Import CString.
From S2P Require Import Requests.
From S2P Require Import TraceParser.
From S2P Require Import TriggerTime.
Import STEvent CString Requests TraceParser TriggerTime.
From Stdlib Require Import Floats.SpecFloat.

Module ReplayState.

Definition READ_BLOCK : Z := 1000.
Definition MIN_EVENTS_SIZE : Z := 100.
Definition MAX_COMM_WAIT : Z := 1000.
Definition PRINT_EVENT_WAKE_COUNT : Z := 50000.

(** The parameters of the [SynchroTrace] SimObject. *)
Record Params := mkParams {
  num_cpus : Z;
  num_threads : Z;
  deadlock_threshold : Z;
  masterWakeupFreq : Z;
  directory_shared_fraction : Z;
  port_count : Z;
  cpi_iops : spec_float;
  cpi_flops : spec_float;
  m_clock : Z                     (* ticks per cycle of the Ruby clock *)
}.

(** A packet handed to a port. *)
Record packet := mkPacket {
  pkt_proc : Z;
  pkt_addr : Z;
  pkt_size : Z;
  pkt_write : bool;
  pkt_thread : Z;
  pkt_time : Z
}.

(** What the memory of the object held before the constructor ran.  Three
    members are used before anything is stored in them: [init] loops up to
    [num_of_mapped_processors], and [hitCallback] increments the counts of the
    two histograms.  A run depends on these values, so they are a parameter
    of the runs; reading them gives the value, as on the machine. *)
Record ObjectMemory := mkObjectMemory {
  held_count : Z;
  held_shared : nat -> Z;
  held_local : nat -> Z
}.

#[global] Instance ObjectMemory_eta : Settable ObjectMemory := fun m =>
  mkObjectMemory m.(held_count) m.(held_shared) m.(held_local).

Record state := mkState {
  curTick : Z;
  startEvent : option Z;                    (* when scheduled *)
  coreEvents : list (option Z);
  eventMap : EventMap;
  threadStatistics : list threadStats;
  curEventListPos : list Z;
  threadMap : list (list Z);
  threadStartedMap : list bool;
  threadMutexMap : list bool;
  threadContMap : list bool;
  lastMsgTriggerTime : list Z;              (* int *)
  roundTripTime : list (gmap Z Z);
  maxRTT : list Z;                          (* int *)
  mutexLocks : gset Z;
  spinLocks : gset Z;
  pthreadMaps : PthreadMaps;
  inputFilePointer : list (option (list str));   (* lines left; [None] once deleted *)
  stopped : bool;
  num_of_mapped_processors : Z;
  printThreadEventCounters : Z;
  roiFlag : bool;
  worker_thread_count : Z;                  (* int *)
  m_last_progress_vector : list Z;
  sharedEventHist : list Z;                 (* int[10], never initialised *)
  localEventHist : list Z;
  thread_cycles_per_event : list Z;
  barrier_reports : Z;                      (* calls of printMemoryEventsInBarrier *)
  rand_calls : nat;
  send_attempts : nat;
  packets : list packet;                    (* accepted, newest first *)
  rtt_output : list (list (Z * Z));         (* rttHistOutput-*.csv *)
  exit_requested : bool
}.

#[global] Instance state_eta : Settable state := fun s =>
  mkState s.(curTick) s.(startEvent) s.(coreEvents) s.(eventMap)
    s.(threadStatistics) s.(curEventListPos) s.(threadMap) s.(threadStartedMap)
    s.(threadMutexMap) s.(threadContMap) s.(lastMsgTriggerTime) s.(roundTripTime)
    s.(maxRTT) s.(mutexLocks) s.(spinLocks) s.(pthreadMaps) s.(inputFilePointer)
    s.(stopped) s.(num_of_mapped_processors) s.(printThreadEventCounters)
    s.(roiFlag) s.(worker_thread_count) s.(m_last_progress_vector)
    s.(sharedEventHist) s.(localEventHist) s.(thread_cycles_per_event)
    s.(barrier_reports) s.(rand_calls) s.(send_attempts) s.(packets)
    s.(rtt_output) s.(exit_requested).

(** ** Access to vectors in the state *)
Definition vread {A} (proj : state -> list A) (i : Z) : M state A :=
  s ← get; lift (vget (proj s) i).

Definition vwrite {A} (proj : state -> list A) `{!Setter proj} (i : Z) (a : A)
  : M state unit :=
  s ← get;
  l ← lift (vset (proj s) i a);
  modify (set_field proj (fun _ => l)).

Definition vupdate {A} (proj : state -> list A) `{!Setter proj} (i : Z) (f : A -> A)
  : M state unit :=
  a ← vread proj i; vwrite proj i (f a).

(** [v.front()] of an empty vector is undefined. *)
Definition vfront {A} (l : list A) : result A := vget l 0.

(** Code that only works on [eventMap] or on the pthread maps. *)
Definition on_eventMap {A} (m : M EventMap A) : M state A := fun s =>
  match m s.(eventMap) with
  | Ok (a, em) => Ok (a, s <| eventMap := em |>)
  | Err e => Err e
  end.

Definition on_pthreadMaps {A} (m : M PthreadMaps A) : M state A := fun s =>
  match m s.(pthreadMaps) with
  | Ok (a, pm) => Ok (a, s <| pthreadMaps := pm |>)
  | Err e => Err e
  end.

(** [AddresstoIdMap[a]], [BarrierMap[a]] and [threadWaitMap[a]]: reading
    inserts a default. *)
Definition addr_to_id (a : Z) : M state Z :=
  s ← get;
  let '(v, m) := map_index s.(pthreadMaps).(AddresstoIdMap) 0 a in
  modify (fun s => s <| pthreadMaps ::= fun p => p <| AddresstoIdMap := m |> |>);;
  mret v.

Definition barrier_set (a : Z) : M state (gset Z) :=
  s ← get;
  let '(v, m) := map_index s.(pthreadMaps).(BarrierMap) ∅ a in
  modify (fun s => s <| pthreadMaps ::= fun p => p <| BarrierMap := m |> |>);;
  mret v.

Definition wait_set (a : Z) : M state (gset Z) :=
  s ← get;
  let '(v, m) := map_index s.(pthreadMaps).(threadWaitMap) ∅ a in
  modify (fun s => s <| pthreadMaps ::= fun p => p <| threadWaitMap := m |> |>);;
  mret v.

Definition set_wait_set (a : Z) (w : gset Z) : M state unit :=
  modify (fun s => s <| pthreadMaps ::= fun p => p <| threadWaitMap ::= insert a w |> |>).

(** ** The front event of a queue

    [ST_Event *thisEvent = eventMap[t]->front()] is a pointer into the queue:
    a write through it is [set_front_event]. *)
Definition queue_empty (t : Z) : M state bool :=
  q ← vread eventMap t; mret (StaticDeque.empty q).

Definition front_event (t : Z) : M state ST_Event :=
  q ← vread eventMap t; lift (StaticDeque.front q).

Definition set_front_event (t : Z) (e : ST_Event) : M state unit :=
  q ← vread eventMap t;
  q' ← lift (StaticDeque.set_front q e);
  vwrite eventMap t q'.

Definition pop_event (t : Z) : M state unit :=
  q ← vread eventMap t;
  xq ← lift (StaticDeque.pop_front q);
  vwrite eventMap t xq.2.

(** [&(thisEvent->subEventList->front())], and a write through it. *)
Definition top_subEvent (e : ST_Event) : result subEvent :=
  d ← deref e.(subEventList); StaticDeque.front d.

Definition set_top_subEvent (e : ST_Event) (s : subEvent) : result ST_Event :=
  d ← deref e.(subEventList);
  d' ← StaticDeque.set_front d s;
  Ok (e <| subEventList := Some d' |>).

Definition pop_subEvent (e : ST_Event) : result ST_Event :=
  d ← deref e.(subEventList);
  xd ← StaticDeque.pop_front d;
  Ok (e <| subEventList := Some xd.2 |>).

Definition subEvents_empty (e : ST_Event) : result bool :=
  d ← deref e.(subEventList); Ok (StaticDeque.empty d).

(** ** Time and scheduling

    [RubyEventQueue::getTime] divides the simulator's tick by the Ruby clock
    period (src/src/mem/ruby/eventqueue/RubyEventQueue.hh); [schedule] takes
    a tick and asserts that it is not in the past and that the event is not
    scheduled (src/src/sim/eventq.hh). *)
Section clock.
Context (P : Params).

Definition getTime : M state Z := gets (fun s => s.(curTick) / P.(m_clock)).

Definition scheduled (p : Z) : M state bool :=
  c ← vread coreEvents p; mret (bool_decide (is_Some c)).

Definition schedule_core (p when : Z) : M state unit :=
  c ← vread coreEvents p;
  now ← gets curTick;
  assert_ (now <=? u64 when) SCHED_PAST;;
  assert_ (bool_decide (c = None)) SCHED_TWICE;;
  vwrite coreEvents p (Some (u64 when)).

Definition schedule_start (when : Z) : M state unit :=
  c ← gets startEvent;
  now ← gets curTick;
  assert_ (now <=? u64 when) SCHED_PAST;;
  assert_ (bool_decide (c = None)) SCHED_TWICE;;
  modify (fun s => s <| startEvent := Some (u64 when) |>).

(** [if (!(coreEvents[p]->scheduled())) schedule(...)], the scheduling catch. *)
Definition schedule_if_idle (p when : Z) : M state unit :=
  b ← scheduled p;
  match b with true => mret tt | false => schedule_core p when end.

(** [CPI_IOPS * numIOPS + CPI_FLOPS * numFLOPS + MEM_ACCESS_TIME * numMEM_OPS
    + getTime() + 1]. *)
Definition next_trigger (s : subEvent) : M state Z :=
  now ← getTime;
  lift (trigger_time P.(cpi_iops) P.(cpi_flops) s.(numIOPS) s.(numFLOPS)
          s.(numMEM_OPS) now).
End clock.

End ReplayState.
