(* ===== verification/Replay.v ===== *)
(** * The replay engine
    (src/src/cpu/testers/synchrotrace/SynchroTrace.cc).

    One definition per member function, in the order in which they depend on
    each other: reading the traces, dependencies and barriers, the thread
    scheduler, sub-event creation, message sending, event progression, the
    handlers [wakeup] and [hitCallback], and [init].

    [rand] and [accept] are the environment: the values of the C library's
    generator, and whether the port takes the n-th request offered to it. *)

From S2P Require Import Prelude.
From S2P Require Import StaticDeque.
From S2P Require Import STEvent.
From S2P Require Import CString.
From S2P Require Import Requests.
From S2P Require Import TraceParser.
From S2P Require Import TriggerTime.
From S2P Require Import IntMath.
From S2P Require Import SubEvents.
From S2P Require Import ReplayState.
Import STEvent CString Requests TraceParser TriggerTime IntMath SubEvents ReplayState.

Module Replay.

Section engine.
Context (P : Params) (cfg : RubyCfg) (rand : nat -> Z) (accept : nat -> bool).

Abbreviation getTime := (getTime P).
Abbreviation next_trigger := (next_trigger P).

(** ** Reading the traces *)

(** The loop of [readEventFile]: [getline] fails at the end of the file. *)
Fixpoint read_lines (n : nat) (threadID : Z) : M state unit :=
  match n with
  | O => mret tt
  | S n' =>
      f ← vread inputFilePointer threadID;
      lines ← lift (deref f);
      match lines with
      | [] => mret tt
      | l :: ls =>
          vwrite inputFilePointer threadID (Some ls);;
          on_eventMap (processLine cfg l);;
          read_lines n' threadID
      end
  end.

Definition readEventFile (threadID : Z) : M state unit :=
  read_lines (Z.to_nat READ_BLOCK) threadID.

Definition extendEventQueue (threadID : Z) : M state unit := readEventFile threadID.

Definition generateEventQueue : M state unit :=
  for_each (upto P.(num_threads)) readEventFile.

(** [replenishEvents(unsigned)]. *)
Definition replenishEvents (threadID : Z) : M state unit :=
  q ← vread eventMap threadID;
  pos ← vread curEventListPos threadID;
  when ((StaticDeque.size q <? MIN_EVENTS_SIZE) && negb (pos =? -1))
    (extendEventQueue threadID).

(** [replenishEvents()]. *)
Definition replenishAll : M state unit :=
  for_each (upto P.(num_threads)) replenishEvents.

(** ** Dependencies and barriers *)
Definition OS_THREAD : Z := 30000.

Definition checkCommDependency (commEvent : sharedInfo) : M state bool :=
  if commEvent.(prodThreadID) =? OS_THREAD then mret true else
  q ← vread eventMap commEvent.(prodThreadID);
  if negb (StaticDeque.empty q) then
    e ← lift (StaticDeque.front q);
    mret (commEvent.(prodEventID) <? e.(EventID))
  else mret true.

(** [check &= checkCommDependency(...)] for every prerequisite. *)
Fixpoint check_all (deps : list sharedInfo) (check : bool) : M state bool :=
  match deps with
  | [] => mret check
  | d :: deps' =>
      b ← checkCommDependency d;
      check_all deps' (check && b)
  end.

Definition checkAllCommDependencies (thisEvent : ST_Event) : M state bool :=
  assert_ (thisEvent.(Type_) =? TYPE_COMMUNICATION) "checkAllCommDependencies";;
  check_all thisEvent.(comm_preRequisiteEvents) true.

(** [set_difference(BarrierMap[a], threadWaitMap[a])] is empty. *)
Definition checkBarriers (thisEvent : ST_Event) : M state bool :=
  a ← lift (read thisEvent.(pth_addr));
  threadWaitMapSet ← wait_set a;
  BarrierMapSet ← barrier_set a;
  mret (bool_decide (BarrierMapSet ∖ threadWaitMapSet = ∅)).

(** ** The thread scheduler *)

(** One round of the loop of [moveThreadToHead]. *)
Definition rotate_once (procID : Z) : M state unit :=
  row ← vread threadMap procID;
  x ← lift (vget row 0);
  vwrite threadMap procID (tail (row ++ [x])).

Definition moveThreadToHead (procID threadID : Z) : M state unit :=
  for_each (upto threadID) (fun _ => rotate_once procID).

(** Whether [swapThreads] may bring the thread to the head. *)
Definition swap_candidate (topThreadID : Z) : M state bool :=
  started ← vread threadStartedMap topThreadID;
  if negb started then mret false else
  q ← vread eventMap topThreadID;
  if StaticDeque.empty q then mret false else
  topEvent ← lift (StaticDeque.front q);
  if topEvent.(Type_) =? TYPE_COMPUTATION then mret true
  else if topEvent.(Type_) =? TYPE_PTHREAD_API then mret true
  else
    ready ← checkAllCommDependencies topEvent;
    match ready with
    | true => mret true
    | false => vread threadMutexMap topEvent.(ThreadID)
    end.

(** The loop of [swapThreads] from index [i] on: [continue] or move and
    [break]. *)
Fixpoint swap_scan (procID i : Z) (rest : list Z) : M state unit :=
  match rest with
  | [] => mret tt
  | topThreadID :: rest' =>
      ok ← swap_candidate topThreadID;
      match ok with
      | true => moveThreadToHead procID i
      | false => swap_scan procID (i + 1) rest'
      end
  end.

Definition swapThreads (procID : Z) : M state unit :=
  row ← vread threadMap procID;
  when (1 <? Z.of_nat (length row)) (swap_scan procID 1 (tail row)).

(** ** Sub-events *)
Definition createSubEvents (procID : Z) (eventIDPassed : option Z) : M state unit :=
  eventThreadID ←
    match eventIDPassed with
    | Some t => mret t
    | None => row ← vread threadMap procID; lift (vfront row)
    end;
  started ← vread threadStartedMap eventThreadID;
  if negb started then mret tt else
  q ← vread eventMap eventThreadID;
  if StaticDeque.empty q then mret tt else
  thisEvent ← lift (StaticDeque.front q);
  if thisEvent.(subEventsCreated) then mret tt else
  k ← gets rand_calls;
  dk ← lift (subEvents_of rand thisEvent k);
  modify (fun s => s <| rand_calls := dk.2 |>);;
  topSubEvent ← lift (StaticDeque.front dk.1);
  w ← next_trigger topSubEvent;
  d ← lift (StaticDeque.set_front dk.1
        (topSubEvent <| triggerTime := Some w |> <| initialTriggerTime := Some w |>));
  schedule_if_idle procID w;;
  set_front_event eventThreadID
    (thisEvent <| subEventList := Some d |> <| subEventsCreated := true |>).

(** [createSubEvents()]. *)
Definition createAllSubEvents : M state unit :=
  n ← gets num_of_mapped_processors;
  for_each (upto n) (fun i => createSubEvents i None).

(** [swapStalledThreads]: the head thread has ended or not started, or waits
    too long for a producer, a join or a mutex. *)
Definition any_started (rest : list Z) : M state bool :=
  foldr (fun t (acc : M state bool) =>
           b ← vread threadStartedMap t;
           match b with true => mret true | false => acc end) (mret false) rest.

Definition swap_and_catch (procID : Z) : M state unit :=
  swapThreads procID;;
  now ← getTime;
  schedule_if_idle procID (now + 1).

Definition stalled_comm (procID : Z) (thisEvent : ST_Event) : M state unit :=
  when (thisEvent.(Type_) =? TYPE_COMMUNICATION) (
    topSubEvent ← lift (top_subEvent thisEvent);
    when (negb topSubEvent.(msgTriggered)) (
      now ← getTime;
      t0 ← lift (read topSubEvent.(initialTriggerTime));
      when (MAX_COMM_WAIT <? now - t0) (swap_and_catch procID))).

Definition stalled_join (procID : Z) (thisEvent : ST_Event) : M state unit :=
  when ((thisEvent.(Type_) =? TYPE_PTHREAD_API) && (thisEvent.(PthreadType) =? P_JOIN)) (
    a ← lift (read thisEvent.(pth_addr));
    t ← addr_to_id a;
    pos ← vread curEventListPos t;
    when (negb (pos =? -1)) (swap_and_catch procID)).

Definition stalled_mutex (procID : Z) (thisEvent : ST_Event) : M state unit :=
  when ((thisEvent.(Type_) =? TYPE_PTHREAD_API) && (thisEvent.(PthreadType) =? P_MUTEX_LK)) (
    held ← vread threadMutexMap thisEvent.(ThreadID);
    when (negb held) (swap_and_catch procID)).

Definition swapStalledThreads (procID : Z) : M state unit :=
  row ← vread threadMap procID;
  eventThreadID ← lift (vfront row);
  if 1 <? Z.of_nat (length row) then
    noEvents ← queue_empty eventThreadID;
    stalled ← match noEvents with
              | true => mret true
              | false => b ← vread threadStartedMap eventThreadID; mret (negb b)
              end;
    match stalled with
    | true =>
        other ← any_started (tail row);
        when other (swapThreads procID);;
        now ← getTime;
        schedule_if_idle procID (now + 1)
    | false =>
        e0 ← front_event eventThreadID;
        when (negb e0.(subEventsCreated)) (createSubEvents procID (Some eventThreadID));;
        thisEvent ← front_event eventThreadID;
        stalled_comm procID thisEvent;;
        stalled_join procID thisEvent;;
        stalled_mutex procID thisEvent
    end
  else
    when (Z.of_nat (length row) =? 1) (
      noEvents ← queue_empty eventThreadID;
      when (negb noEvents) (
        thisEvent ← front_event eventThreadID;
        when ((thisEvent.(Type_) =? TYPE_PTHREAD_API)
              && (thisEvent.(PthreadType) =? P_BARRIER_WT)) (
          now ← getTime;
          schedule_if_idle procID (now + 1)))).

(** ** Sending requests *)

(** [ports[procID]->sendTimingReq(pkt)]. *)
Definition sendTimingReq (procID : Z) (pkt : packet) : M state bool :=
  if (0 <=? procID) && (procID <? P.(port_count)) then
    n ← gets send_attempts;
    modify (fun s => s <| send_attempts := S n |>);;
    match accept n with
    | true => modify (fun s => s <| packets ::= cons pkt |>);; mret true
    | false => mret false
    end
  else fail (UB "index").

(** The common body of [triggerCommReadMsg], [triggerCompWriteMsg] and
    [triggerCompReadMsg]: build the request, offer it to the port and, when it
    is taken, mark the sub-event, count it and remember the time. *)
Definition triggerMsg (write : bool) (count : threadStats -> threadStats)
  (procID threadID : Z) (thisSubEvent : subEvent) : M state unit :=
  noEvents ← queue_empty threadID;
  assert_ (negb noEvents) NO_EVENT;;
  msg ← lift (deref thisSubEvent.(thisMsg));
  now ← getTime;
  ok ← sendTimingReq procID
         (mkPacket procID msg.(addr) msg.(numBytes) write threadID now);
  match ok with
  | true =>
      e ← front_event threadID;
      e' ← lift (set_top_subEvent e (thisSubEvent <| msgTriggered := true |>));
      set_front_event threadID e';;
      vupdate threadStatistics threadID count;;
      vwrite lastMsgTriggerTime threadID (i32 now)
  | false => mret tt
  end.

Definition triggerCommReadMsg : Z -> Z -> subEvent -> M state unit :=
  triggerMsg false (fun t => t <| sharedReads ::= fun x => u64 (x + 1) |>).

Definition triggerCompWriteMsg : Z -> Z -> subEvent -> M state unit :=
  triggerMsg true (fun t => t <| localWrites ::= fun x => u64 (x + 1) |>).

Definition triggerCompReadMsg : Z -> Z -> subEvent -> M state unit :=
  triggerMsg false (fun t => t <| localReads ::= fun x => u64 (x + 1) |>).

(** ** Progressing the head event *)

(** Every branch of the switch returns whether the event is consumed; the two
    condition-variable cases pop the sub-event themselves. [q] is the thread
    whose queue [thisEvent] heads. *)
Definition pop_front_subEvent (q : Z) : M state unit :=
  e ← front_event q;
  e' ← lift (pop_subEvent e);
  set_front_event q e'.

Definition progress_mutex_lock (thisEvent : ST_Event) : M state bool :=
  a ← lift (read thisEvent.(pth_addr));
  s ← get;
  if decide (a ∈ s.(mutexLocks)) then mret false
  else
    modify (fun s => s <| mutexLocks ::= fun l => {[a]} ∪ l |>);;
    vwrite threadMutexMap thisEvent.(ThreadID) true;;
    mret true.

Definition progress_mutex_unlock (thisEvent : ST_Event) : M state bool :=
  a ← lift (read thisEvent.(pth_addr));
  s ← get;
  assert_ (bool_decide (a ∈ s.(mutexLocks))) "mutexIttr != mutexLocks.end()";;
  modify (fun s => s <| mutexLocks ::= fun l => l ∖ {[a]} |>);;
  vwrite threadMutexMap thisEvent.(ThreadID) false;;
  mret true.

Definition progress_create (thisEvent : ST_Event) : M state bool :=
  modify (fun s => s <| roiFlag := true |>
                     <| worker_thread_count ::= fun n => i32 (n + 1) |>);;
  a ← lift (read thisEvent.(pth_addr));
  t ← addr_to_id a;
  vwrite threadStartedMap t true;;
  mret true.

(** The decrement is not part of the [if]. *)
Definition progress_join (thisEvent : ST_Event) : M state bool :=
  a ← lift (read thisEvent.(pth_addr));
  t ← addr_to_id a;
  consumed ← queue_empty t;
  modify (fun s => s <| worker_thread_count ::= fun n => i32 (n - 1) |>);;
  mret consumed.

Definition progress_barrier (thisEvent : ST_Event) : M state bool :=
  cont ← vread threadContMap thisEvent.(ThreadID);
  match cont with
  | false =>
      a ← lift (read thisEvent.(pth_addr));
      w ← wait_set a;
      when (bool_decide (thisEvent.(ThreadID) ∉ w)) (
        set_wait_set a ({[thisEvent.(ThreadID)]} ∪ w);;
        vwrite threadStartedMap thisEvent.(ThreadID) false);;
      all ← checkBarriers thisEvent;
      match all with
      | true =>
          b ← barrier_set a;
          for_each (elements b) (fun t =>
            vwrite threadStartedMap t true;; vwrite threadContMap t true);;
          set_wait_set a ∅;;
          modify (fun s => s <| barrier_reports ::= Z.add 1 |>)
      | false => mret tt
      end;;
      mret false
  | true =>
      vwrite threadContMap thisEvent.(ThreadID) false;;
      mret true
  end.

Definition progress_spin_lock (thisEvent : ST_Event) : M state bool :=
  a ← lift (read thisEvent.(pth_addr));
  s ← get;
  if decide (a ∈ s.(spinLocks)) then mret false
  else modify (fun s => s <| spinLocks ::= fun l => {[a]} ∪ l |>);; mret true.

Definition progress_spin_unlock (thisEvent : ST_Event) : M state bool :=
  a ← lift (read thisEvent.(pth_addr));
  s ← get;
  assert_ (bool_decide (a ∈ s.(spinLocks))) "spinIttr != spinLocks.end()";;
  modify (fun s => s <| spinLocks ::= fun l => l ∖ {[a]} |>);;
  mret true.

Definition progressPthreadEvent (thisEvent : ST_Event) (q procID : Z) : M state unit :=
  let ty := thisEvent.(PthreadType) in
  consumedEvent ←
    (if ty =? P_MUTEX_LK then progress_mutex_lock thisEvent
     else if ty =? P_MUTEX_ULK then progress_mutex_unlock thisEvent
     else if ty =? P_CREATE then progress_create thisEvent
     else if ty =? P_JOIN then progress_join thisEvent
     else if ty =? P_BARRIER_WT then progress_barrier thisEvent
     else if ty =? P_COND_WT then pop_front_subEvent q;; mret false
     else if ty =? P_COND_SG then pop_front_subEvent q;; mret false
     else if ty =? P_SPIN_LK then progress_spin_lock thisEvent
     else if ty =? P_SPIN_ULK then progress_spin_unlock thisEvent
     else fail (AssertFail "Invalid pthread event."));
  when consumedEvent (
    pop_front_subEvent q;;
    vupdate threadStatistics thisEvent.(ThreadID)
      (fun t => t <| ts_numSubEvents ::= fun x => u64 (x + 1) |>);;
    now ← getTime;
    vwrite m_last_progress_vector procID now).

(** The part that [progressEvents] and [hitCallback] share once a sub-event is
    finished: an event without sub-events left is popped and the core woken
    in the next cycle, otherwise the next sub-event is timed. *)
Definition finish_subEvent (procID eventThreadID : Z) : M state unit :=
  thisEvent ← front_event eventThreadID;
  now ← getTime;
  over ← lift (subEvents_empty thisEvent);
  match over with
  | true =>
      when (thisEvent.(EventID) mod 1000 =? 0)
        (vwrite thread_cycles_per_event thisEvent.(ThreadID) now);;
      pop_event eventThreadID;;
      swapThreads procID;;
      noEvents ← queue_empty eventThreadID;
      match noEvents with
      | false =>
          nextEvent ← front_event eventThreadID;
          replenishEvents nextEvent.(ThreadID)
      | true => mret tt
      end;;
      schedule_core procID (now + 1)
  | false =>
      newSubEvent ← lift (top_subEvent thisEvent);
      w ← next_trigger newSubEvent;
      e' ← lift (set_top_subEvent thisEvent
             (newSubEvent <| triggerTime := Some w |> <| initialTriggerTime := Some w |>));
      set_front_event eventThreadID e';;
      schedule_core procID w
  end.

Definition progressEvents (procID : Z) : M state unit :=
  row ← vread threadMap procID;
  eventThreadID ← lift (vfront row);
  started ← vread threadStartedMap eventThreadID;
  if negb started then mret tt else
  noEvents ← queue_empty eventThreadID;
  match noEvents with
  | true => mret tt
  | false =>
      thisEvent ← front_event eventThreadID;
      topSubEvent ← lift (top_subEvent thisEvent);
      trig ← lift (read topSubEvent.(triggerTime));
      now ← getTime;
      if (trig <=? now) && negb topSubEvent.(msgTriggered) then
        vupdate threadStatistics eventThreadID (fun t =>
          t <| ts_numIOPS ::= fun x => u64 (x + topSubEvent.(numIOPS)) |>
            <| ts_numFLOPS ::= fun x => u64 (x + topSubEvent.(numFLOPS)) |>);;
        if negb topSubEvent.(containsMsg) then
          (if negb (thisEvent.(Type_) =? TYPE_PTHREAD_API) then
             vupdate threadStatistics eventThreadID
               (fun t => t <| ts_numSubEvents ::= fun x => u64 (x + 1) |>);;
             pop_front_subEvent eventThreadID;;
             vwrite m_last_progress_vector procID now
           else progressPthreadEvent thisEvent eventThreadID procID);;
          finish_subEvent procID eventThreadID
        else if thisEvent.(Type_) =? TYPE_COMMUNICATION then
          msg ← lift (deref topSubEvent.(thisMsg));
          met ← checkCommDependency msg;
          go ← match met with true => mret true | false => vread threadMutexMap eventThreadID end;
          match go with
          | true => triggerCommReadMsg procID eventThreadID topSubEvent
          | false =>
              e' ← lift (set_top_subEvent thisEvent
                          (topSubEvent <| triggerTime := Some (now + 1) |>));
              set_front_event eventThreadID e';;
              schedule_core procID (now + 1);;
              vwrite m_last_progress_vector procID now
          end
        else
          ty ← lift (read topSubEvent.(msgType));
          if bool_decide (ty = DT_REQ_WRITE)
          then triggerCompWriteMsg procID eventThreadID topSubEvent
          else triggerCompReadMsg procID eventThreadID topSubEvent
      else schedule_if_idle procID trig
  end.

(** ** The handlers *)
Definition printThreadEvents : M state unit :=
  modify (fun s => s <| printThreadEventCounters ::= fun n =>
    if n =? PRINT_EVENT_WAKE_COUNT then 0 else n + 1 |>).

(** [wakeup(int procID)], the process method of a core event. *)
Definition wakeup_core (procID : Z) : M state unit :=
  printThreadEvents;;
  createSubEvents procID None;;
  progressEvents procID;;
  swapStalledThreads procID.

(** The logarithmic buckets; latencies from 10000 on are not counted. *)
Definition hist_bucket (rtt : Z) : option nat :=
  if rtt <? 10 then Some 0%nat else if rtt <? 50 then Some 1%nat
  else if rtt <? 100 then Some 2%nat else if rtt <? 300 then Some 3%nat
  else if rtt <? 600 then Some 4%nat else if rtt <? 1000 then Some 5%nat
  else if rtt <? 10000 then Some 6%nat else None.

(** The increment of a count that nobody has initialised. *)
Definition hist_count (rtt : Z) (h : list Z) : list Z :=
  match hist_bucket rtt with
  | Some i => alter (fun n => i32 (n + 1)) i h
  | None => h
  end.

(** [roundTripTime[t]]: increment an existing entry or insert 1. *)
Definition rtt_count (rtt : Z) (m : gmap Z Z) : gmap Z Z :=
  match m !! rtt with
  | Some n => <[rtt := i32 (n + 1)]> m
  | None => <[rtt := 1]> m
  end.

Definition record_rtt (eventThreadID : Z) (thisEvent : ST_Event) (thisMsgRTT : Z)
  : M state unit :=
  (if thisEvent.(Type_) =? TYPE_COMMUNICATION
   then modify (fun s => s <| sharedEventHist ::= hist_count thisMsgRTT |>)
   else if thisEvent.(Type_) =? TYPE_COMPUTATION
   then modify (fun s => s <| localEventHist ::= hist_count thisMsgRTT |>)
   else mret tt);;
  vupdate roundTripTime eventThreadID (rtt_count thisMsgRTT);;
  m ← vread maxRTT eventThreadID;
  when (m <? thisMsgRTT) (vwrite maxRTT eventThreadID thisMsgRTT);;
  vupdate threadStatistics eventThreadID (fun t =>
    t <| totalRTT ::= fun x => u64 (x + thisMsgRTT) |>
      <| ts_numSubEvents ::= fun x => u64 (x + 1) |>).

Definition hitCallback (proc : Z) : M state unit :=
  n ← gets num_of_mapped_processors;
  assert_ (proc <? n) "proc < num_of_mapped_processors";;
  row ← vread threadMap proc;
  eventThreadID ← lift (vfront row);
  thisEvent ← front_event eventThreadID;
  top ← lift (top_subEvent thisEvent);
  if negb top.(msgTriggered) then mret tt else
  now ← getTime;
  vwrite m_last_progress_vector proc now;;
  last ← vread lastMsgTriggerTime eventThreadID;
  record_rtt eventThreadID thisEvent (i32 (now - last));;
  pop_front_subEvent eventThreadID;;
  finish_subEvent proc eventThreadID.

(** The port's [recvTimingResp]: the data is not needed, only the timing. *)
Definition recvTimingResp (id : Z) : M state bool := hitCallback id;; mret true.

(** The lines of [rttHistOutput]. *)
Definition rtt_lines (m : gmap Z Z) (max : Z) : list (Z * Z) :=
  omap (fun lat => (fun n => (lat, n)) <$> m !! lat) (upto (max + 1)).

Definition outputRTT_hist : M state unit :=
  for_each (upto P.(num_threads)) (fun i =>
    m ← vread roundTripTime i;
    mx ← vread maxRTT i;
    modify (fun s => s <| rtt_output ::= fun o => o ++ [rtt_lines m mx] |>)).

Fixpoint all_queues_empty (threads : list Z) : M state bool :=
  match threads with
  | [] => mret true
  | t :: ts =>
      b ← queue_empty t;
      match b with true => all_queues_empty ts | false => mret false end
  end.

Definition checkCompletion : M state unit :=
  terminate ← all_queues_empty (upto P.(num_threads));
  stop ← gets stopped;
  when (terminate && negb stop) (
    outputRTT_hist;;
    for_each (upto P.(num_threads)) (fun i => vwrite inputFilePointer i None);;
    modify (fun s => s <| barrier_reports ::= Z.add 1 |> <| stopped := true |>
                       <| exit_requested := true |>)).

(** [wakeup()], the process method of the start event. *)
Definition wakeup_master : M state unit :=
  replenishAll;;
  createAllSubEvents;;
  checkCompletion;;
  now ← gets curTick;
  schedule_start (now + P.(masterWakeupFreq)).

(** [checkForDeadlock], whose call is commented out: it panics when the first
    thread of the core with a non-pthread head event made no progress. *)
Fixpoint deadlock_scan (procID current_time : Z) (threads : list Z) : M state unit :=
  match threads with
  | [] => mret tt
  | t :: ts =>
      noEvents ← queue_empty t;
      match noEvents with
      | true => deadlock_scan procID current_time ts
      | false =>
          e ← front_event t;
          if e.(Type_) =? TYPE_PTHREAD_API then deadlock_scan procID current_time ts
          else
            last ← vread m_last_progress_vector procID;
            if P.(deadlock_threshold) <? current_time - last
            then fail (Panic "Deadlock detected.") else mret tt
      end
  end.

Definition checkForDeadlock (procID : Z) : M state unit :=
  now ← getTime;
  row ← vread threadMap procID;
  deadlock_scan procID now row.

(** ** Start-up *)

(** The object after its constructor, which leaves [num_of_mapped_processors]
    and the two histograms as the memory was. *)
Definition constructed (mem : ObjectMemory) : state :=
  mkState 0 None [] [] [] [] [] [] [] [] [] [] [] ∅ ∅ (mkPthreadMaps ∅ ∅ ∅) []
    false mem.(held_count) 0 false 0 [] (mem.(held_shared) <$> seq 0 10)
    (mem.(held_local) <$> seq 0 10) []
    0 0 0 [] [] false.

Definition initStats : M state unit :=
  let n := Z.to_nat P.(num_threads) in
  modify (fun s => s
    <| curEventListPos := replicate n 0 |>
    <| threadStatistics := (fun i => threadStats_init <| ts_ThreadID := i |>)
                             <$> upto P.(num_threads) |>
    <| lastMsgTriggerTime := replicate n 0 |>
    <| roundTripTime := replicate n ∅ |>
    <| maxRTT := replicate n 0 |>
    <| thread_cycles_per_event := replicate n 0 |>
    <| threadContMap := replicate n false |>
    <| threadMutexMap := replicate n false |>
    <| printThreadEventCounters := 0 |>
    <| roiFlag := false |>
    <| worker_thread_count := 0 |>
    <| stopped := false |>).

(** [files] gives the lines of [sigil.events.out-<i+1>.gz], [None] when it
    cannot be opened. *)
Definition initSigilFilePointers (files : list (option (list str))) : M state unit :=
  modify (fun s => s <| inputFilePointer := replicate (Z.to_nat P.(num_threads)) None |>);;
  for_each (upto P.(num_threads)) (fun i =>
    match mjoin (files !! Z.to_nat i) with
    | Some lines => vwrite inputFilePointer i (Some lines)
    | None => fail (Panic "Failed to open file")
    end).

Definition initialThreadMapping : M state unit :=
  for_each (upto P.(num_threads)) (fun i =>
    n ← gets num_of_mapped_processors;
    c ← lift (umod i n);
    vupdate threadMap c (fun row => row ++ [i])).

(** The loops that allocate the queues and the core events. *)
Definition allocate_queues : M state unit :=
  for_each (upto P.(num_threads)) (fun _ =>
    q ← lift (StaticDeque.make (READ_BLOCK + MIN_EVENTS_SIZE));
    modify (fun s => s <| eventMap ::= fun em => em ++ [q] |>)).

Definition init (files : list (option (list str))) (pthread_file : option (list str))
  : M state unit :=
  schedule_start 1;;
  n0 ← gets num_of_mapped_processors;
  for_each (upto n0) (fun i => schedule_core i 1);;
  assert_ (isPowerOf2 P.(directory_shared_fraction)) "isPowerOf2(m_directory_shared_frac)";;
  m_dir_shared_frac_bits ← lift (floorLog2_int P.(directory_shared_fraction));
  assert_ (isPowerOf2 P.(num_cpus)) "isPowerOf2(m_num_cpus)";;
  cpu_bits ← lift (floorLog2_int P.(num_cpus));
  assert_ (0 <=? cfg.(memory_size_bits) - cfg.(block_size_bits) - cpu_bits
                 - m_dir_shared_frac_bits) "m_random_add_gen_bits >= 0";;
  _ ← lift (udiv cfg.(memory_size_bytes) cfg.(block_size_bytes));
  assert_ (0 <? P.(port_count)) "ports.size() > 0";;
  let mapped := if P.(num_threads) <? P.(num_cpus) then P.(num_threads) else P.(num_cpus) in
  modify (fun s => s <| num_of_mapped_processors := mapped |>);;
  when (cfg.(block_size_bytes) <? MAX_REQUEST_SIZE)
    (fail (Panic "MAX_REQUEST_SIZE is greater than Ruby block size"));;
  modify (fun s => s <| m_last_progress_vector := replicate (Z.to_nat mapped) 0 |>);;
  allocate_queues;;
  modify (fun s => s
    <| threadMap := replicate (Z.to_nat mapped) [] |>
    <| threadStartedMap := replicate (Z.to_nat P.(num_threads)) false |>);;
  vwrite threadStartedMap 0 true;;
  modify (fun s => s <| coreEvents ::= fun l => l ++ replicate (Z.to_nat mapped) None |>);;
  initStats;;
  initSigilFilePointers files;;
  match pthread_file with
  | Some ls => on_pthreadMaps (processPthreadFile ls)
  | None => fail (Panic "exit(EXIT_FAILURE)")
  end;;
  initialThreadMapping;;
  generateEventQueue.

End engine.
End Replay.
