(* ===== verification/ReplayInv.v ===== *)
(** * The invariant of the replay engine

    The part of the state that decides whether the engine can go wrong, as a
    record [view]; the invariant [inv] on it; and the lemmas that every update
    the handlers make preserves it.  The specifications of the handlers are in
    [ReplaySafe].

    The invariant says: every queue is a well-formed deque of events of its
    own thread, of which at most the front one has been split; a split event
    has sub-events, the first of which is timed and is the only one whose
    message can be in flight; a message is in flight only for the head thread
    of a core that is not scheduled; no event is scheduled in the past; and no
    core with a split head event is forgotten: it is scheduled or waits for a
    response. *)

From S2P Require Import Prelude.
From S2P Require Import StaticDeque.
From S2P Require Import STEvent.
From S2P Require Import CString.
From S2P Require Import Requests.
From S2P Require Import TraceParser.
From S2P Require Import TriggerTime.
From S2P Require Import SubEvents.
From S2P Require Import ReplayState.
Import STEvent CString Requests TraceParser SubEvents ReplayState.

Module ReplayInv.

Record view := mkView {
  vTick : Z;
  vStart : option Z;
  vCores : list (option Z);
  vEvents : EventMap;
  vRows : list (list Z);
  vStarted : list bool;
  vFiles : list (option (list str));
  vExit : bool
}.

#[global] Instance view_eta : Settable view := fun v =>
  mkView v.(vTick) v.(vStart) v.(vCores) v.(vEvents) v.(vRows) v.(vStarted)
    v.(vFiles) v.(vExit).

Definition view_of (s : state) : view :=
  mkView s.(curTick) s.(startEvent) s.(coreEvents) s.(eventMap) s.(threadMap)
    s.(threadStartedMap) s.(inputFilePointer) s.(exit_requested).

(** ** Events and queues *)

(** What every event of thread [t] satisfies from the moment it is read. *)
Definition event_ok (t : Z) (e : ST_Event) : Prop :=
  e.(ThreadID) = t /\ 0 <= e.(compIOPS) /\ 0 <= e.(compFLOPS) /\
  (e.(Type_) = TYPE_PTHREAD_API -> is_Some e.(pth_addr)).

Definition uncreated (e : ST_Event) : Prop :=
  e.(subEventsCreated) = false /\ e.(subEventList) = None.

(** What every sub-event of an event satisfies. *)
Definition sub_ok (ty : Z) (s : subEvent) : Prop :=
  0 <= s.(numIOPS) /\ 0 <= s.(numFLOPS) /\ 0 <= s.(numMEM_OPS) /\
  (s.(msgTriggered) = true -> s.(containsMsg) = true) /\
  (s.(containsMsg) = true -> is_Some s.(thisMsg) /\ is_Some s.(msgType)) /\
  (ty = TYPE_PTHREAD_API -> s.(containsMsg) = false).

Definition untriggered (s : subEvent) : Prop := s.(msgTriggered) = false.

(** The sub-events of a split event: while a handler is between two of them
    ([mid]) the list can be empty and the first is not timed yet. *)
Definition subs_ok (mid : bool) (ty : Z) (l : list subEvent) : Prop :=
  Forall (sub_ok ty) l /\
  if mid then Forall untriggered l
  else exists top rest, l = top :: rest /\
         (exists w, top.(triggerTime) = Some w /\ w < 2 ^ 63) /\
         is_Some top.(initialTriggerTime) /\ Forall untriggered rest.

Definition front_ok (mid : bool) (e : ST_Event) : Prop :=
  if e.(subEventsCreated) then
    exists d, e.(subEventList) = Some d /\ StaticDeque.wf d /\
      subs_ok mid e.(Type_) (StaticDeque.abs d)
  else e.(subEventList) = None.

Definition queue_ok (mid : bool) (t : Z) (q : StaticDeque.t ST_Event) : Prop :=
  StaticDeque.wf q /\ Forall (event_ok t) (StaticDeque.abs q) /\
  match StaticDeque.abs q with
  | [] => True
  | e :: es => front_ok mid e /\ Forall uncreated es
  end.

(** The front event has been split; its message is in flight; it is a pthread
    event. *)
Definition front_sat (f : ST_Event -> bool) (q : StaticDeque.t ST_Event) : bool :=
  match StaticDeque.abs q with [] => false | e :: _ => f e end.

Definition created : StaticDeque.t ST_Event -> bool := front_sat subEventsCreated.
Definition is_pthread : StaticDeque.t ST_Event -> bool :=
  front_sat (fun e => e.(Type_) =? TYPE_PTHREAD_API).
Definition is_barrier : StaticDeque.t ST_Event -> bool :=
  front_sat (fun e => (e.(Type_) =? TYPE_PTHREAD_API) && (e.(PthreadType) =? P_BARRIER_WT)).

Definition event_in_flight (e : ST_Event) : bool :=
  match e.(subEventList) with
  | Some d => match StaticDeque.abs d with
              | top :: _ => top.(msgTriggered)
              | [] => false
              end
  | None => false
  end.

Definition in_flight : StaticDeque.t ST_Event -> bool := front_sat event_in_flight.

(** ** The invariant

    [m] is the thread whose front event is between two sub-events, [x] the
    core that is being handled and may be idle.  That no core is forgotten
    depends on the ports taking every request ([L]). *)
Definition is_mid (m : option Z) (t : Z) : bool := bool_decide (m = Some t).

Record inv (L : Prop) (m x : option Z) (v : view) : Prop := {
  inv_queue : forall t q, vget v.(vEvents) t = Ok q -> queue_ok (is_mid m t) t q;
  inv_stopped : forall t q, vget v.(vEvents) t = Ok q ->
    vget v.(vStarted) t = Ok false -> created q = true -> is_barrier q = true;
  inv_flight : forall t q, vget v.(vEvents) t = Ok q -> in_flight q = true ->
    exists p row, vget v.(vRows) p = Ok row /\ head row = Some t /\
      vget v.(vCores) p = Ok None;
  inv_future : forall p w, vget v.(vCores) p = Ok (Some w) -> v.(vTick) <= w;
  inv_start : forall w, v.(vStart) = Some w -> v.(vTick) <= w;
  inv_rows : forall p p' row row' t, vget v.(vRows) p = Ok row ->
    vget v.(vRows) p' = Ok row' -> t ∈ row -> t ∈ row' -> p = p';
  inv_files : v.(vExit) = false -> forall i f, vget v.(vFiles) i = Ok f -> is_Some f;
  inv_tick : 0 <= v.(vTick) < 2 ^ 53;
  inv_live : L -> forall p row t q, x <> Some p -> vget v.(vRows) p = Ok row ->
    head row = Some t -> vget v.(vEvents) t = Ok q -> created q = true ->
    vget v.(vCores) p = Ok None -> in_flight q = true
}.

(** The engine at rest. *)
Definition INV (L : Prop) : view -> Prop := inv L None None.

(** ** Front events *)
Lemma is_mid_None t : is_mid None t = false.
Proof. done. Qed.

Lemma is_mid_eq t : is_mid (Some t) t = true.
Proof. by apply bool_decide_eq_true. Qed.

Lemma is_mid_ne m t t' : m = None \/ m = Some t -> t <> t' -> is_mid m t' = false.
Proof. intros [->| ->] H; apply bool_decide_eq_false; naive_solver. Qed.

Lemma front_sat_nil f q : StaticDeque.abs q = [] -> front_sat f q = false.
Proof. intros H. unfold front_sat. by rewrite H. Qed.

Lemma front_sat_cons f q e es : StaticDeque.abs q = e :: es -> front_sat f q = f e.
Proof. intros H. unfold front_sat. by rewrite H. Qed.

(** A message can only be in flight for a split event that is no pthread
    event. *)
Lemma in_flight_created m t q :
  queue_ok m t q -> in_flight q = true -> created q = true /\ is_pthread q = false.
Proof.
  intros (W & Hall & Hq). unfold in_flight, created, is_pthread, front_sat.
  destruct (StaticDeque.abs q) as [|e es]; [done|]. destruct Hq as [Hf _].
  unfold front_ok, event_in_flight in *. destruct e.(subEventsCreated).
  - destruct Hf as (d & -> & Wd & Hs & Hm). destruct (StaticDeque.abs d) as [|top l]; [done|].
    intros Ht. split; [done|]. apply Z.eqb_neq. intros Hty.
    inversion Hs as [|? ? Htop]; subst. destruct Htop as (_&_&_&H1&_&H2).
    rewrite H2 in H1 by done. by specialize (H1 Ht).
  - rewrite Hf. done.
Qed.

Lemma mid_not_in_flight t q : queue_ok true t q -> in_flight q = false.
Proof.
  intros (W & Hall & Hq). unfold in_flight, front_sat.
  destruct (StaticDeque.abs q) as [|e es]; [done|]. destruct Hq as [Hf _].
  unfold front_ok, event_in_flight in *. destruct e.(subEventsCreated).
  - destruct Hf as (d & -> & Wd & Hs & Hm). destruct (StaticDeque.abs d) as [|top l]; [done|].
    by inversion Hm.
  - by rewrite Hf.
Qed.

(** ** Updates that keep the invariant *)
Section updates.
Context (L : Prop) (m x : option Z) (v : view) (I : inv L m x v).

(** No message of a thread of the core is in flight. *)
Definition quiet (v : view) (p : Z) : Prop :=
  forall row t q, vget v.(vRows) p = Ok row -> t ∈ row ->
    vget v.(vEvents) t = Ok q -> in_flight q = false.

Definition head_of (v : view) (p t : Z) : Prop :=
  exists row, vget v.(vRows) p = Ok row /\ head row = Some t.

(** The core is not forgotten. *)
Definition live_at (v : view) (p : Z) : Prop :=
  forall row t q, vget v.(vRows) p = Ok row -> head row = Some t ->
    vget v.(vEvents) t = Ok q -> created q = true ->
    vget v.(vCores) p = Ok None -> in_flight q = true.

Lemma head_elem (row : list Z) t : head row = Some t -> t ∈ row.
Proof. destruct row; [done|]. intros [= ->]. by left. Qed.

Lemma inv_handle p : x = None -> inv L m (Some p) v.
Proof. intros ->. destruct I. split; try done. intros. by eapply inv_live0. Qed.

Lemma inv_release p : x = Some p -> (L -> live_at v p) -> inv L m None v.
Proof.
  intros -> Hp. destruct I. split; try done. intros HL p' row t q _ H1 H2 H3 H4 H5.
  destruct (decide (p = p')) as [<-|Hne]; [by eapply Hp|]. eapply inv_live0; try done.
  congruence.
Qed.

(** Only the head of an unscheduled core can have a message in flight. *)
Lemma quiet_intro p :
  (forall t q, head_of v p t -> vget v.(vEvents) t = Ok q ->
     vget v.(vCores) p = Ok None -> in_flight q = false) -> quiet v p.
Proof.
  intros H row t q Hrow Ht Hq. destruct (in_flight q) eqn:Hf; [|done].
  destruct (inv_flight _ _ _ _ I t q Hq Hf) as (p' & row' & Hrow' & Hh & Hc).
  assert (p' = p) by (eapply (inv_rows _ _ _ _ I); eauto using head_elem). subst.
  rewrite <- Hf. eapply H; try done. by exists row'.
Qed.

Lemma quiet_scheduled p w : vget v.(vCores) p = Ok (Some w) -> quiet v p.
Proof. intros H. apply quiet_intro. intros t q _ _ Hc. congruence. Qed.

(** One queue is replaced. *)
Lemma inv_set_queue m' t q q' :
  vget v.(vEvents) t = Ok q ->
  (forall t', t' <> t -> is_mid m' t' = is_mid m t') ->
  queue_ok (is_mid m' t) t q' ->
  (vget v.(vStarted) t = Ok false -> created q' = true -> is_barrier q' = true) ->
  (in_flight q' = true -> exists p row, vget v.(vRows) p = Ok row /\ head row = Some t /\
     vget v.(vCores) p = Ok None) ->
  (L -> forall p row, x <> Some p -> vget v.(vRows) p = Ok row -> head row = Some t ->
     created q' = true -> vget v.(vCores) p = Ok None -> in_flight q' = true) ->
  inv L m' x (v <| vEvents := <[Z.to_nat t := q']> v.(vEvents) |>).
Proof.
  intros Hq Hm Hok Hst Hfl Hlive. pose proof (vget_Ok_range _ _ _ Hq) as Hr.
  assert (forall t' q0, vget (<[Z.to_nat t := q']> v.(vEvents)) t' = Ok q0 ->
    (t' = t /\ q0 = q') \/ (t' <> t /\ vget v.(vEvents) t' = Ok q0)) as Hcase.
  { intros t' q0 H. destruct (decide (t = t')) as [->|Hne].
    - rewrite vget_insert_eq in H by done. left. naive_solver.
    - rewrite vget_insert_ne in H by (done || lia). right. by split. }
  destruct I. split; try done; cbn in *.
  - intros t' q0 [[-> ->]|[Hne H]]%Hcase; [done|]. rewrite Hm by done. by apply inv_queue0.
  - intros t' q0 [[-> ->]|[Hne H]]%Hcase; [done|]. by apply inv_stopped0.
  - intros t' q0 [[-> ->]|[Hne H]]%Hcase; [done|]. by eapply inv_flight0.
  - intros HL p row t' q0 Hx Hrow Hh [[-> ->]|[Hne H]]%Hcase; [by eapply Hlive|].
    by eapply inv_live0.
Qed.

(** A core is scheduled. *)
Lemma inv_set_core p w :
  vget v.(vCores) p = Ok None -> quiet v p -> v.(vTick) <= w ->
  inv L m x (v <| vCores := <[Z.to_nat p := Some w]> v.(vCores) |>).
Proof.
  intros Hc Hfl Hw. pose proof (vget_Ok_range _ _ _ Hc) as Hr.
  assert (forall p', p <> p' ->
    vget (<[Z.to_nat p := Some w]> v.(vCores)) p' = vget v.(vCores) p') as Hne.
  { intros p' Hp. apply vget_insert_ne; [lia|done]. }
  pose proof (vget_insert_eq v.(vCores) p (Some w) Hr) as Heq.
  destruct I. split; try done; cbn in *.
  - intros t' q Hq Hf. destruct (inv_flight0 t' q Hq Hf) as (p' & row' & Hrow' & Hh' & Hc').
    exists p', row'. split; [done|]. split; [done|]. rewrite Hne; [done|].
    intros <-. rewrite (Hfl row' t' q) in Hf; (done || by apply head_elem).
  - intros p' w' H. destruct (decide (p = p')) as [<-|Hp].
    + rewrite Heq in H. naive_solver.
    + rewrite Hne in H by done. by eapply inv_future0.
  - intros HL p' row' t' q Hx Hrow' Hh' Hq Hcr Hc'. destruct (decide (p = p')) as [<-|Hp].
    + rewrite Heq in Hc'. done.
    + rewrite Hne in Hc' by done. by eapply inv_live0.
Qed.

(** A row is permuted; its core is the one being handled. *)
Lemma inv_set_row p row row' :
  x = Some p -> vget v.(vRows) p = Ok row -> quiet v p -> row' ≡ₚ row ->
  inv L m x (v <| vRows := <[Z.to_nat p := row']> v.(vRows) |>).
Proof.
  intros Hx Hrow Hfl Hperm. pose proof (vget_Ok_range _ _ _ Hrow) as Hr.
  assert (forall p', p <> p' ->
    vget (<[Z.to_nat p := row']> v.(vRows)) p' = vget v.(vRows) p') as Hne.
  { intros p' Hp. apply vget_insert_ne; [lia|done]. }
  pose proof (vget_insert_eq v.(vRows) p row' Hr) as Heq.
  assert (forall p' row0 t', vget (<[Z.to_nat p := row']> v.(vRows)) p' = Ok row0 ->
    t' ∈ row0 -> exists row1, vget v.(vRows) p' = Ok row1 /\ t' ∈ row1) as Hin.
  { intros p' row0 t' H Ht. destruct (decide (p = p')) as [<-|Hp].
    - rewrite Heq in H. simplify_eq. exists row. split; [done|]. by rewrite <- Hperm.
    - rewrite Hne in H by done. by exists row0. }
  destruct I. split; try done; cbn in *.
  - intros t' q Hq Hf. destruct (inv_flight0 t' q Hq Hf) as (p' & row0 & Hrow0 & Hh' & Hc').
    exists p', row0. split; [|done]. rewrite Hne; [done|].
    intros <-. rewrite (Hfl row0 t' q) in Hf; (done || by apply head_elem).
  - intros p1 p2 r1 r2 t' H1 H2 Ht1 Ht2.
    destruct (Hin _ _ _ H1 Ht1) as (r1' & H1' & Ht1').
    destruct (Hin _ _ _ H2 Ht2) as (r2' & H2' & Ht2'). by eapply inv_rows0.
  - intros HL p' row0 t' q Hx' Hrow' Hh' Hq Hcr Hc'.
    rewrite Hne in Hrow' by congruence. by eapply inv_live0.
Qed.

(** A thread is started, or stopped while its front event is a pthread event. *)
Lemma inv_set_started t b :
  0 <= t < Z.of_nat (length v.(vStarted)) ->
  (b = false -> forall q, vget v.(vEvents) t = Ok q -> is_barrier q = true) ->
  inv L m x (v <| vStarted := <[Z.to_nat t := b]> v.(vStarted) |>).
Proof.
  intros Hr Hb. destruct I. split; try done; cbn in *.
  intros t' q Hq Hs Hc. destruct (decide (t = t')) as [<-|Hne].
  - rewrite vget_insert_eq in Hs by done. simplify_eq. by apply Hb.
  - rewrite vget_insert_ne in Hs by (done || lia). by eapply inv_stopped0.
Qed.

(** Files are read on. *)
Lemma inv_set_file i ls :
  0 <= i < Z.of_nat (length v.(vFiles)) ->
  inv L m x (v <| vFiles := <[Z.to_nat i := Some ls]> v.(vFiles) |>).
Proof.
  intros Hr. destruct I. split; try done; cbn in *.
  intros He j f Hf. destruct (decide (i = j)) as [<-|Hne].
  - rewrite vget_insert_eq in Hf by done. simplify_eq. done.
  - rewrite vget_insert_ne in Hf by (done || lia). by eapply inv_files0.
Qed.
End updates.


(** ** Changes of one queue *)

(** A queue whose front is not in flight may be taken apart. *)
Lemma queue_ok_mid t q : queue_ok false t q -> in_flight q = false -> queue_ok true t q.
Proof.
  intros (W & Hall & Hq) Hf. split; [done|]. split; [done|].
  unfold in_flight, front_sat in Hf. destruct (StaticDeque.abs q) as [|e es]; [done|].
  destruct Hq as [He Hes]. split; [|done]. unfold front_ok, event_in_flight in *.
  destruct e.(subEventsCreated); [|done]. destruct He as (d & Hd & Wd & Hs & Hm).
  exists d. rewrite Hd in Hf. split_and!; try done. split; [done|].
  destruct Hm as (top & rest & Hl & _ & _ & Hr). rewrite Hl in *. by constructor.
Qed.

Lemma inv_mid L x v t q :
  inv L None x v -> vget v.(vEvents) t = Ok q -> in_flight q = false ->
  inv L (Some t) x v.
Proof.
  intros I Hq Hf. destruct I. split; try done. intros t' q' Hq'.
  destruct (decide (t = t')) as [<-|Hne].
  - rewrite is_mid_eq. assert (q' = q) as -> by congruence.
    apply queue_ok_mid; [|done]. exact (inv_queue0 t q Hq).
  - rewrite (is_mid_ne (Some t) t t') by auto. by apply inv_queue0.
Qed.

(** Appending an event that is not split changes nothing at the front. *)
Lemma created_append q q' e :
  StaticDeque.abs q' = StaticDeque.abs q ++ [e] -> e.(subEventsCreated) = false ->
  created q' = created q.
Proof.
  intros Ha He. unfold created, front_sat. rewrite Ha. by destruct (StaticDeque.abs q).
Qed.

Lemma in_flight_append q q' e :
  StaticDeque.abs q' = StaticDeque.abs q ++ [e] -> e.(subEventList) = None ->
  in_flight q' = in_flight q.
Proof.
  intros Ha He. unfold in_flight, front_sat, event_in_flight. rewrite Ha.
  destruct (StaticDeque.abs q); [|done]. simpl. by rewrite He.
Qed.

Lemma queue_ok_append m t q q' e :
  queue_ok m t q -> StaticDeque.wf q' -> StaticDeque.abs q' = StaticDeque.abs q ++ [e] ->
  event_ok t e -> uncreated e -> queue_ok m t q'.
Proof.
  intros (W & Hall & Hq) W' Ha He Hu. split; [done|]. rewrite Ha. split.
  - apply Forall_app. by auto.
  - destruct (StaticDeque.abs q) as [|e0 es]; cbn.
    + split; [|done]. unfold front_ok. destruct Hu as [-> ->]. done.
    + destruct Hq as [? ?]. split; [done|]. apply Forall_app. by auto.
Qed.

Lemma inv_append L m x v t q q' e :
  inv L m x v -> vget v.(vEvents) t = Ok q -> StaticDeque.wf q' ->
  StaticDeque.abs q' = StaticDeque.abs q ++ [e] -> event_ok t e -> uncreated e ->
  inv L m x (v <| vEvents := <[Z.to_nat t := q']> v.(vEvents) |>).
Proof.
  intros I Hq W' Ha He Hu. pose proof Hu as [Hc Hl].
  apply (inv_set_queue L m x v I m t q); try done.
  - eapply queue_ok_append; try done. by apply I.
  - rewrite (created_append q q' e) by done. intros Hs Hcr.
    pose proof (inv_stopped _ _ _ _ I t q Hq Hs Hcr) as Hb.
    unfold is_barrier, created, front_sat in *. rewrite Ha.
    by destruct (StaticDeque.abs q).
  - rewrite (in_flight_append q q' e) by done. intros Hf. by eapply (inv_flight _ _ _ _ I).
  - intros HL p row Hx Hrow Hh. rewrite (created_append q q' e), (in_flight_append q q' e) by done.
    intros. by eapply (inv_live _ _ _ _ I HL p row t q).
Qed.

(** Replacing the front event of a queue, for instance by its split. *)
Lemma queue_ok_front m m' t q q' e es e' :
  queue_ok m t q -> StaticDeque.abs q = e :: es -> StaticDeque.wf q' ->
  StaticDeque.abs q' = e' :: es -> event_ok t e' -> front_ok m' e' -> queue_ok m' t q'.
Proof.
  intros (W & Hall & Hq) Ha W' Ha' He Hf. rewrite Ha in *. destruct Hq as [_ Hes].
  inversion Hall; subst. split; [done|]. rewrite Ha'. split; [by constructor|done].
Qed.

(** Removing it. *)
Lemma queue_ok_pop m m' t q q' e es :
  queue_ok m t q -> StaticDeque.abs q = e :: es -> StaticDeque.wf q' ->
  StaticDeque.abs q' = es -> queue_ok m' t q' /\ created q' = false /\ in_flight q' = false.
Proof.
  intros (W & Hall & Hq) Ha W' Ha'. rewrite Ha in *. destruct Hq as [_ Hes].
  inversion Hall; subst. unfold created, in_flight, front_sat, event_in_flight.
  split; [split; [done|]; split; [done|]|];
    destruct (StaticDeque.abs q') as [|e2 es2]; try done;
    inversion Hes as [|? ? [Hc Hl] Hes']; subst.
  - split; [|done]. unfold front_ok. by rewrite Hc.
  - by rewrite Hc, Hl.
Qed.

End ReplayInv.
