(* ===== verification/ReplaySafe.v ===== *)
(** * Safety of the replay engine

    Specifications of the engine's functions against the invariant of
    [ReplayInv]: from a state that satisfies it, a handler either returns to
    a state that satisfies it or stops with an error that is none of
    [internal_errors]: no scheduling assertion fails, no null pointer is
    followed, nothing is taken from an empty deque and no trigger time, lock
    address or deque cell is used that was never set. *)

From S2P Require Import Prelude.
From S2P Require Import StaticDeque.
From S2P Require Import STEvent.
From S2P Require Import CString.
From S2P Require Import Requests.
From S2P Require Import TraceParser.
From S2P Require Import TriggerTime.
From S2P Require Import SubEvents.
From S2P Require Import TraceLines.
From S2P Require Import ReplayState.
From S2P Require Import Replay.
From S2P Require Import ReplayInv.
Import STEvent CString Requests TraceParser TriggerTime SubEvents TraceLines
  ReplayState Replay ReplayInv.
From Stdlib Require Import Floats.SpecFloat.

Module ReplaySafe.

(** ** State access *)
Lemma wp_vread {A} (proj : state -> list A) i Q s :
  (forall a, vget (proj s) i = Ok a -> Q a s) -> wp E (vread proj i) Q s.
Proof. intros H. unfold vread. apply wp_bind, wp_get, rwp_wp, rwp_vget; done. Qed.

Lemma wp_vwrite {A} (proj : state -> list A) `{!Setter proj} i a Q s :
  (0 <= i < Z.of_nat (length (proj s)) ->
   Q tt (set_field proj (fun _ => <[Z.to_nat i := a]> (proj s)) s)) ->
  wp E (vwrite proj i a) Q s.
Proof.
  intros H. unfold vwrite. apply wp_bind, wp_get, wp_bind, rwp_wp, rwp_vset; [done|].
  intros Hr. by apply wp_modify, H.
Qed.

Lemma wp_vupdate {A} (proj : state -> list A) `{!Setter proj} i f Q s :
  (forall l, Q tt (set_field proj (fun _ => l) s)) -> wp E (vupdate proj i f) Q s.
Proof. intros H. unfold vupdate. apply wp_bind, wp_vread. intros a _. by apply wp_vwrite. Qed.

Lemma vfront_head (row : list Z) t : vfront row = Ok t -> head row = Some t.
Proof.
  unfold vfront. intros [_ H]%vget_Ok. change (Z.to_nat 0) with O in H. by destruct row.
Qed.

Lemma rwp_vfront (row : list Z) Q :
  (forall t, head row = Some t -> Q t) -> rwp E (vfront row) Q.
Proof.
  intros H. apply rwp_vget; [done|]. intros t Ht. by apply H, vfront_head.
Qed.

Lemma rwp_front {T} (d : StaticDeque.t T) Q :
  StaticDeque.wf d -> StaticDeque.abs d <> [] ->
  (forall x l, StaticDeque.abs d = x :: l -> Q x) -> rwp E (StaticDeque.front d) Q.
Proof.
  intros W Hne H. rewrite StaticDeque.front_spec by done.
  destruct (StaticDeque.abs d) eqn:Ha; [done|]. by eapply H.
Qed.

Lemma rwp_set_front {T} (d : StaticDeque.t T) x Q :
  StaticDeque.wf d -> StaticDeque.abs d <> [] ->
  (forall y l d', StaticDeque.abs d = y :: l -> StaticDeque.wf d' ->
     StaticDeque.abs d' = x :: l -> Q d') ->
  rwp E (StaticDeque.set_front d x) Q.
Proof.
  intros W Hne H. pose proof (StaticDeque.set_front_spec d x W) as Hs.
  destruct (StaticDeque.abs d) as [|y l] eqn:Ha; [done|].
  destruct Hs as (d' & -> & W' & Ha' & _). by eapply H.
Qed.

Lemma rwp_pop_front {T} (d : StaticDeque.t T) Q :
  StaticDeque.wf d -> StaticDeque.abs d <> [] ->
  (forall x l d', StaticDeque.abs d = x :: l -> StaticDeque.wf d' ->
     StaticDeque.abs d' = l -> Q (x, d')) ->
  rwp E (StaticDeque.pop_front d) Q.
Proof.
  intros W Hne H. pose proof (StaticDeque.pop_front_spec d W) as Hs.
  destruct (StaticDeque.abs d) as [|y l] eqn:Ha; [done|].
  destruct Hs as (d' & -> & W' & Ha' & _). by eapply H.
Qed.

Lemma empty_abs {T} (d : StaticDeque.t T) :
  StaticDeque.wf d -> StaticDeque.empty d = true <-> StaticDeque.abs d = [].
Proof. intros W. rewrite StaticDeque.empty_spec by done. apply bool_decide_eq_true. Qed.

Lemma nonempty_abs {T} (d : StaticDeque.t T) :
  StaticDeque.wf d -> StaticDeque.empty d = false <-> StaticDeque.abs d <> [].
Proof. intros W. rewrite StaticDeque.empty_spec by done. apply bool_decide_eq_false. Qed.

Lemma queue_nonempty (em : EventMap) t q e es :
  vget em t = Ok q -> StaticDeque.abs q = e :: es ->
  forall q', vget em t = Ok q' -> StaticDeque.abs q' <> [].
Proof. intros Hq Ha q' Hq'. assert (q' = q) as -> by congruence. by rewrite Ha. Qed.

Section safety.
Context (P : Params) (cfg : RubyCfg) (rand : nat -> Z) (accept : nat -> bool).

(** The configuration under which the engine is safe: the Ruby clock ticks
    with the simulator's, the cycle costs are not negative, and the master
    wakes up in the future. *)
Record params_ok : Prop := {
  clock_1 : P.(m_clock) = 1;
  iops_nonneg : at_least P.(cpi_iops) 0;
  flops_nonneg : at_least P.(cpi_flops) 0;
  freq_ok : 0 <= P.(masterWakeupFreq) < 2 ^ 62
}.

Context (POK : params_ok).
Abbreviation L := (forall n, accept n = true).
Abbreviation v_of := view_of.
Abbreviation safe := (wp E).

Lemma wp_getTime Q s : Q s.(curTick) s -> safe (getTime P) Q s.
Proof using POK. intros H. apply wp_gets. rewrite (clock_1 POK), Z.div_1_r. done. Qed.

(** ** Queues *)
Lemma inv_queue_wf m x s t q :
  inv L m x (v_of s) -> vget s.(eventMap) t = Ok q -> StaticDeque.wf q.
Proof using. intros I Hq. by destruct (inv_queue _ _ _ _ I t q Hq). Qed.

Lemma wp_queue_empty t m x s (Q : bool -> state -> Prop) :
  inv L m x (v_of s) ->
  (forall q, vget s.(eventMap) t = Ok q ->
     (StaticDeque.abs q = [] -> Q true s) /\ (StaticDeque.abs q <> [] -> Q false s)) ->
  safe (queue_empty t) Q s.
Proof using.
  intros I H. unfold queue_empty. apply wp_bind, wp_vread. intros q Hq. apply wp_ret.
  destruct (inv_queue _ _ _ _ I t q Hq) as [W _]. destruct (H q Hq) as [H1 H2].
  destruct (StaticDeque.empty q) eqn:Ee.
  - by apply H1, empty_abs.
  - by apply H2, nonempty_abs.
Qed.

Lemma wp_front_event t m x s (Q : ST_Event -> state -> Prop) :
  inv L m x (v_of s) ->
  (forall q, vget s.(eventMap) t = Ok q -> StaticDeque.abs q <> []) ->
  (forall q e es, vget s.(eventMap) t = Ok q -> StaticDeque.abs q = e :: es -> Q e s) ->
  safe (front_event t) Q s.
Proof using.
  intros I Hne H. unfold front_event. apply wp_bind, wp_vread. intros q Hq.
  apply rwp_wp, rwp_front; [by eapply inv_queue_wf|by apply Hne|]. intros e es Ha. by eapply H.
Qed.

Lemma wp_set_front_event t e' m x s Q :
  inv L m x (v_of s) ->
  (forall q, vget s.(eventMap) t = Ok q -> StaticDeque.abs q <> []) ->
  (forall q e es q', vget s.(eventMap) t = Ok q -> StaticDeque.abs q = e :: es ->
     StaticDeque.wf q' -> StaticDeque.abs q' = e' :: es ->
     Q tt (s <| eventMap := <[Z.to_nat t := q']> s.(eventMap) |>)) ->
  safe (set_front_event t e') Q s.
Proof using.
  intros I Hne H. unfold set_front_event. apply wp_bind, wp_vread. intros q Hq.
  apply wp_bind, rwp_wp, rwp_set_front; [by eapply inv_queue_wf|by apply Hne|].
  intros e es q' Ha W' Ha'. apply wp_vwrite. intros _. by eapply H.
Qed.

Lemma wp_pop_event t m x s Q :
  inv L m x (v_of s) ->
  (forall q, vget s.(eventMap) t = Ok q -> StaticDeque.abs q <> []) ->
  (forall q e es q', vget s.(eventMap) t = Ok q -> StaticDeque.abs q = e :: es ->
     StaticDeque.wf q' -> StaticDeque.abs q' = es ->
     Q tt (s <| eventMap := <[Z.to_nat t := q']> s.(eventMap) |>)) ->
  safe (pop_event t) Q s.
Proof using.
  intros I Hne H. unfold pop_event. apply wp_bind, wp_vread. intros q Hq.
  apply wp_bind, rwp_wp, rwp_pop_front; [by eapply inv_queue_wf|by apply Hne|].
  intros e es q' Ha W' Ha'. apply wp_vwrite. intros _. by eapply H.
Qed.

(** The front event of a queue, with what the invariant says about it. *)
Lemma front_facts m x v t q e es :
  inv L m x v -> vget v.(vEvents) t = Ok q -> StaticDeque.abs q = e :: es ->
  event_ok t e /\ front_ok (is_mid m t) e.
Proof using.
  intros I Hq Ha. destruct (inv_queue _ _ _ _ I t q Hq) as (W & Hall & Hf).
  rewrite Ha in *. inversion Hall; subst. naive_solver.
Qed.

(** ** Scheduling *)
Lemma wp_schedule_core p w s Q :
  0 <= w < 2 ^ 64 -> s.(curTick) <= w ->
  (forall c, vget s.(coreEvents) p = Ok c -> c = None) ->
  (vget s.(coreEvents) p = Ok None ->
   Q tt (s <| coreEvents := <[Z.to_nat p := Some w]> s.(coreEvents) |>)) ->
  safe (schedule_core p w) Q s.
Proof using.
  intros Hw Ht Hc H. unfold schedule_core. apply wp_bind, wp_vread. intros c Hp.
  pose proof (Hc c Hp) as ->. apply wp_bind, wp_gets. rewrite u64_small by done.
  apply wp_bind, wp_assert; [intros _|intros Hf; bool_to_Z; lia].
  apply wp_bind, wp_assert; [intros _|by intros ?%bool_decide_eq_false].
  apply wp_vwrite. intros _. by apply H.
Qed.

Lemma wp_schedule_if_idle p w s Q :
  0 <= w < 2 ^ 64 -> s.(curTick) <= w ->
  (forall w', vget s.(coreEvents) p = Ok (Some w') -> Q tt s) ->
  (vget s.(coreEvents) p = Ok None ->
   Q tt (s <| coreEvents := <[Z.to_nat p := Some w]> s.(coreEvents) |>)) ->
  safe (schedule_if_idle p w) Q s.
Proof using.
  intros Hw Ht H1 H2. unfold schedule_if_idle, scheduled.
  apply wp_bind, wp_bind, wp_vread. intros c Hc. apply wp_ret.
  destruct c as [w'|]; cbn.
  - exact (H1 w' Hc).
  - apply wp_schedule_core; try done. intros c Hc'. congruence.
Qed.

Lemma wp_next_trigger se s Q ty :
  sub_ok ty se -> 0 <= s.(curTick) < 2 ^ 53 ->
  (forall w, s.(curTick) + 1 <= w < 2 ^ 63 -> Q w s) ->
  safe (next_trigger P se) Q s.
Proof using POK.
  intros (Hi & Hf & Hm & _) Ht H. unfold next_trigger. apply wp_bind, wp_getTime.
  apply rwp_wp. unfold rwp. destruct (trigger_time _ _ _ _ _ _) as [w|e] eqn:Et.
  - apply H. split; [|by eapply trigger_upper].
    eapply trigger_lower; try exact Et; (done || apply POK).
  - unfold trigger_time, time_of_double in Et.
    destruct (SFadd 53 1024 _ _) as [sg|sg| |sg mm ex]; simplify_eq; try done.
    case_match; by simplify_eq.
Qed.

(** ** Reading the traces *)

(** Between the two states only lines were read: queues grew, nothing else. *)
Definition reads_on (v v' : view) : Prop :=
  v'.(vTick) = v.(vTick) /\ v'.(vStart) = v.(vStart) /\ v'.(vCores) = v.(vCores) /\
  v'.(vRows) = v.(vRows) /\ v'.(vStarted) = v.(vStarted) /\ v'.(vExit) = v.(vExit) /\
  (forall t q', vget v'.(vEvents) t = Ok q' -> exists q, vget v.(vEvents) t = Ok q /\
     created q' = created q /\ in_flight q' = in_flight q).

Lemma reads_on_refl v : reads_on v v.
Proof using. repeat split; try done. intros t q' H. by exists q'. Qed.

Lemma reads_on_trans v1 v2 v3 : reads_on v1 v2 -> reads_on v2 v3 -> reads_on v1 v3.
Proof using.
  intros (A1&A2&A3&A4&A5&A6&A7) (B1&B2&B3&B4&B5&B6&B7).
  repeat split; try congruence. intros t q' H.
  destruct (B7 t q' H) as (q & Hq & ? & ?). destruct (A7 t q Hq) as (q0 & Hq0 & ? & ?).
  exists q0. split; [done|]. split; congruence.
Qed.

Lemma on_eventMap_processLine l m x s Q :
  inv L m x (v_of s) ->
  (forall s', inv L m x (v_of s') -> reads_on (v_of s) (v_of s') -> Q tt s') ->
  safe (on_eventMap (processLine cfg l)) Q s.
Proof using.
  intros I H.
  assert (wp E (processLine cfg l)
    (fun _ em' => Q tt (s <| eventMap := em' |>)) s.(eventMap)) as Hw.
  { apply wp_processLine.
    - intros t q Hq. by eapply inv_queue_wf.
    - intros e q q' (Hc & Hl & Hi & Hf & Hp) _ Hq W' Ha. apply H.
      + apply (inv_append L m x (v_of s) e.(ThreadID) q q' e); by try split_and!.
      + repeat split; try done. cbn. intros t q0 Hq0.
        pose proof (vget_Ok_range _ _ _ Hq).
        destruct (decide (e.(ThreadID) = t)) as [<-|Hne].
        * rewrite vget_insert_eq in Hq0 by done. simplify_eq. exists q. split; [done|].
          split; [by apply (created_append q q0 e)|by apply (in_flight_append q q0 e)].
        * rewrite vget_insert_ne in Hq0 by (done || lia). by exists q0. }
  unfold wp, on_eventMap in *. destruct (processLine cfg l s.(eventMap)) as [[[] em]|e]; done.
Qed.

Lemma read_lines_spec n t m x : forall s Q,
  inv L m x (v_of s) -> s.(exit_requested) = false ->
  (forall s', inv L m x (v_of s') -> reads_on (v_of s) (v_of s') -> Q tt s') ->
  safe (read_lines cfg n t) Q s.
Proof using.
  induction n as [|n IH]; intros s Q I He H; cbn [read_lines].
  { apply wp_ret, H; [done|apply reads_on_refl]. }
  apply wp_bind, wp_vread. intros f Hf.
  destruct (inv_files _ _ _ _ I He t f Hf) as [ls ->].
  apply wp_bind, rwp_wp. cbn [deref rwp]. destruct ls as [|l ls].
  { apply wp_ret, H; [done|apply reads_on_refl]. }
  apply wp_bind, wp_vwrite. intros Hr.
  set (s1 := set_field inputFilePointer _ s).
  assert (inv L m x (v_of s1)) as I1 by (by apply (inv_set_file L m x (v_of s))).
  assert (reads_on (v_of s) (v_of s1)) as R1
    by (repeat split; try done; intros t' q' Hq'; by exists q').
  apply wp_bind. apply (on_eventMap_processLine l m x); [done|]. intros s2 I2 R2.
  apply IH; [done| |].
  - destruct R2 as (_&_&_&_&_&R&_). cbn in R. congruence.
  - intros s3 I3 R3. apply H; [done|]. eauto using reads_on_trans.
Qed.

Lemma replenish_spec t m x s Q :
  inv L m x (v_of s) -> s.(exit_requested) = false ->
  (forall s', inv L m x (v_of s') -> reads_on (v_of s) (v_of s') -> Q tt s') ->
  safe (replenishEvents cfg t) Q s.
Proof using.
  intros I He H. unfold replenishEvents.
  apply wp_bind, wp_vread. intros q _. apply wp_bind, wp_vread. intros pos _.
  apply wp_when; intros _; [|apply H; [done|apply reads_on_refl]].
  by apply (read_lines_spec _ t m x).
Qed.

(** ** The thread scheduler *)
Lemma checkCommDependency_spec c m x s (Q : bool -> state -> Prop) :
  inv L m x (v_of s) -> (forall b, Q b s) -> safe (checkCommDependency c) Q s.
Proof using.
  intros I H. unfold checkCommDependency. case_match; [by apply wp_ret|].
  apply wp_bind, wp_vread. intros q Hq. pose proof (inv_queue_wf _ _ _ _ _ I Hq) as Wq.
  case_match eqn:Ee; [|by apply wp_ret].
  apply wp_bind, rwp_wp, rwp_front; [done|by apply nonempty_abs, negb_true_iff|].
  intros e es _. by apply wp_ret.
Qed.

Lemma check_all_spec deps m x s : forall b (Q : bool -> state -> Prop),
  inv L m x (v_of s) -> (forall b, Q b s) -> safe (check_all deps b) Q s.
Proof using.
  induction deps as [|d deps IH]; intros b Q I H; cbn [check_all]; [by apply wp_ret|].
  apply wp_bind. eapply checkCommDependency_spec; [done|]. intros b'. by apply IH.
Qed.

Lemma swap_candidate_spec t m x s (Q : bool -> state -> Prop) :
  inv L m x (v_of s) -> (forall b, Q b s) -> safe (swap_candidate t) Q s.
Proof using.
  intros I H. unfold swap_candidate. apply wp_bind, wp_vread. intros st _.
  case_match; [by apply wp_ret|]. apply wp_bind, wp_vread. intros q Hq.
  pose proof (inv_queue_wf _ _ _ _ _ I Hq) as Wq. case_match eqn:Ee; [by apply wp_ret|].
  apply wp_bind, rwp_wp, rwp_front; [done|by apply nonempty_abs|]. intros e es _.
  case_match; [by apply wp_ret|]. case_match; [by apply wp_ret|].
  apply wp_bind. unfold checkAllCommDependencies.
  apply wp_bind, wp_assert; [intros _|done].
  eapply check_all_spec; [done|]. intros [].
  - by apply wp_ret.
  - apply wp_vread. intros b _. apply H.
Qed.

(** The states [swapThreads] can lead to: the core's row is permuted. *)
Definition permutes (p : Z) (v v' : view) : Prop :=
  v' = v \/ exists row row', vget v.(vRows) p = Ok row /\ row' ≡ₚ row /\
              v' = v <| vRows := <[Z.to_nat p := row']> v.(vRows) |>.

Lemma permutes_step p v v1 v2 : permutes p v v1 -> permutes p v1 v2 -> permutes p v v2.
Proof using.
  intros [->|(r1 & r1' & H1 & P1 & ->)] [->|(r2 & r2' & H2 & P2 & ->)].
  - by left.
  - right. by exists r2, r2'.
  - right. by exists r1, r1'.
  - right. cbn in *. pose proof (vget_Ok_range _ _ _ H1).
    rewrite vget_insert_eq in H2 by done. simplify_eq.
    exists r1, r2'. split; [done|]. split; [by rewrite P2|].
    by rewrite list_insert_insert_eq.
Qed.

Lemma rotate_spec p s (Q : unit -> state -> Prop) :
  (forall s', permutes p (v_of s) (v_of s') -> Q tt s') -> safe (rotate_once p) Q s.
Proof using.
  intros H. unfold rotate_once. apply wp_bind, wp_vread. intros row Hrow.
  apply wp_bind, rwp_wp, rwp_vget; [done|]. intros t [_ Ht]%vget_Ok.
  apply wp_vwrite. intros _. apply H. right.
  destruct row as [|t0 row]; [done|]. change (Z.to_nat 0) with O in Ht. cbn in Ht. simplify_eq.
  eexists _, _. split; [done|]. split; [|done]. cbn. by rewrite Permutation_app_comm.
Qed.

Lemma moveThreadToHead_spec p i s (Q : unit -> state -> Prop) :
  (forall s', permutes p (v_of s) (v_of s') -> Q tt s') -> safe (moveThreadToHead p i) Q s.
Proof using.
  intros H. unfold moveThreadToHead.
  apply (wp_mono E _ (fun _ s' => permutes p (v_of s) (v_of s')));
    [|intros [] s' Hs'; by apply H].
  apply (wp_for_each E _ _ (fun _ s' => permutes p (v_of s) (v_of s'))); [by left|].
  intros _ i' s1 _ H1. apply rotate_spec. intros s2 H2. by eapply permutes_step.
Qed.

Lemma swap_scan_spec p rest m x s : forall i (Q : unit -> state -> Prop),
  inv L m x (v_of s) ->
  (forall s', permutes p (v_of s) (v_of s') -> Q tt s') -> safe (swap_scan p i rest) Q s.
Proof using.
  induction rest as [|t rest IH]; intros i Q I H; cbn [swap_scan].
  { apply wp_ret, H. by left. }
  apply wp_bind. eapply swap_candidate_spec; [done|]. intros [].
  - by apply moveThreadToHead_spec.
  - by apply IH.
Qed.

(** Permuting the row of a quiet core keeps the invariant and the quiet. *)
Lemma permutes_inv p m v v' :
  permutes p v v' -> inv L m (Some p) v -> quiet v p -> inv L m (Some p) v' /\ quiet v' p.
Proof using.
  intros [->|(row & row' & Hrow & Hp & ->)] I Hq; [done|]. split; [by eapply inv_set_row|].
  intros r t q Hr Ht. cbn in *. pose proof (vget_Ok_range _ _ _ Hrow).
  rewrite vget_insert_eq in Hr by done. simplify_eq. apply (Hq row); [done|]. by rewrite <- Hp.
Qed.

Lemma swapThreads_spec p m s (Q : unit -> state -> Prop) :
  inv L m (Some p) (v_of s) -> quiet (v_of s) p ->
  (forall s', inv L m (Some p) (v_of s') -> quiet (v_of s') p ->
     permutes p (v_of s) (v_of s') -> Q tt s') ->
  safe (swapThreads p) Q s.
Proof using.
  intros I Hq H. unfold swapThreads. apply wp_bind, wp_vread. intros row _.
  apply wp_when; intros _.
  - eapply swap_scan_spec; [done|]. intros s' Hp.
    destruct (permutes_inv _ _ _ _ Hp I Hq). by apply H.
  - apply H; try done. by left.
Qed.

Lemma permutes_frame p v v' :
  permutes p v v' -> v'.(vTick) = v.(vTick) /\ v'.(vCores) = v.(vCores) /\
    v'.(vEvents) = v.(vEvents) /\ v'.(vExit) = v.(vExit) /\ v'.(vStarted) = v.(vStarted).
Proof using. by intros [->|(row & row' & _ & _ & ->)]. Qed.

Lemma live_scheduled v p w : vget v.(vCores) p = Ok (Some w) -> live_at v p.
Proof using. intros H row t q _ _ _ _ Hc. congruence. Qed.

(** [swapThreads] with the scheduling catch. *)
Lemma catch_spec p m s (Q : unit -> state -> Prop) :
  inv L m (Some p) (v_of s) -> quiet (v_of s) p ->
  (forall s', inv L m (Some p) (v_of s') -> quiet (v_of s') p -> live_at (v_of s') p ->
     s'.(exit_requested) = s.(exit_requested) -> s'.(eventMap) = s.(eventMap) ->
     s'.(threadMap) = s.(threadMap) -> Q tt s') ->
  safe (now ← getTime P; schedule_if_idle p (now + 1)) Q s.
Proof using POK.
  intros I Hq H. apply wp_bind, wp_getTime. pose proof (inv_tick _ _ _ _ I) as Ht. cbn in Ht.
  apply wp_schedule_if_idle; [lia|lia| |].
  - intros w Hw. apply H; try done. by eapply live_scheduled.
  - intros Hc. set (s' := set_field coreEvents _ s).
    assert (inv L m (Some p) (v_of s')) as I'
      by (apply (inv_set_core L m (Some p) (v_of s) I p (s.(curTick) + 1) Hc Hq); cbn; lia).
    assert (vget s'.(coreEvents) p = Ok (Some (s.(curTick) + 1))) as Hs
      by (cbn; by apply vget_insert_eq, (vget_Ok_range _ _ _ Hc)).
    apply H; try done. by eapply live_scheduled.
Qed.

Lemma swap_and_catch_spec p m s (Q : unit -> state -> Prop) :
  inv L m (Some p) (v_of s) -> quiet (v_of s) p ->
  (forall s', inv L m (Some p) (v_of s') -> quiet (v_of s') p -> live_at (v_of s') p ->
     s'.(exit_requested) = s.(exit_requested) -> Q tt s') ->
  safe (swap_and_catch P p) Q s.
Proof using POK.
  intros I Hq H. unfold swap_and_catch. apply wp_bind. eapply swapThreads_spec; [done..|].
  intros s1 I1 Hq1 (_&_&_&Hx&_)%permutes_frame. eapply catch_spec; [done..|].
  intros s2 I2 Hq2 Hl2 He2 _ _. apply H; try done. cbn in *. congruence.
Qed.

(** ** Creating sub-events *)

(** The sub-events [createSubEvents] stores: well formed, none triggered. *)
Lemma subEvents_of_spec e k Q :
  0 <= e.(compIOPS) -> 0 <= e.(compFLOPS) ->
  (forall d k', StaticDeque.wf d -> StaticDeque.abs d <> [] ->
     Forall (sub_ok e.(Type_)) (StaticDeque.abs d) ->
     Forall untriggered (StaticDeque.abs d) -> Q (d, k')) ->
  rwp E (subEvents_of rand e k) Q.
Proof using.
  intros Hi Hf H.
  apply (rwp_subEvents_of rand E ltac:(done) ltac:(done) ltac:(done)
    (fun s => sub_ok (-1) s /\ untriggered s)); try done.
  - intros s [(H1&H2&H3&H4&H5&H6) Hu].
    unfold sub_ok. split_and!; try done; cbn; apply u64_range.
  - intros d k' W Hne Hall Hp. apply H; try done.
    + destruct (decide (e.(Type_) = TYPE_PTHREAD_API)) as [Ht|Ht].
      * rewrite Hp by done. constructor; [|done]. split_and!; cbn; (done || lia).
      * eapply Forall_impl; [exact Hall|].
        intros s [(H1&H2&H3&H4&H5&H6) Hu]. by split_and!.
    + eapply Forall_impl; [exact Hall|]. by intros s [_ ?].
Qed.

(** The first sub-event is due after [tick]. *)
Definition top_future (tick : Z) (q : StaticDeque.t ST_Event) : Prop :=
  exists e es d top l w, StaticDeque.abs q = e :: es /\ e.(subEventList) = Some d /\
    StaticDeque.abs d = top :: l /\ top.(triggerTime) = Some w /\ tick < w.

Record create_post (p : Z) (v v' : view) : Prop := {
  cp_created : forall t q, head_of v' p t -> vget v'.(vEvents) t = Ok q ->
    vget v'.(vStarted) t = Ok true -> StaticDeque.abs q = [] \/ created q = true;
  cp_change : v' = v \/ exists t q w, head_of v' p t /\ vget v'.(vEvents) t = Ok q /\
    top_future v'.(vTick) q /\ vget v'.(vCores) p = Ok (Some w);
  cp_rows : v'.(vRows) = v.(vRows);
  cp_started : v'.(vStarted) = v.(vStarted);
  cp_tick : v'.(vTick) = v.(vTick);
  cp_exit : v'.(vExit) = v.(vExit);
  cp_start : v'.(vStart) = v.(vStart);
  cp_empty : forall t q q', vget v.(vEvents) t = Ok q -> vget v'.(vEvents) t = Ok q' ->
    StaticDeque.abs q' = [] -> StaticDeque.abs q = []
}.

Lemma head_of_unique v p t t' : head_of v p t -> head_of v p t' -> t = t'.
Proof using. intros (r & H1 & H2) (r' & H1' & H2'). congruence. Qed.

(** Storing the timed split of the front event. *)
Lemma store_split x v p t q e es q' d top l w w' :
  inv L None x v -> head_of v p t -> vget v.(vCores) p = Ok (Some w') ->
  vget v.(vStarted) t = Ok true -> vget v.(vEvents) t = Ok q ->
  StaticDeque.abs q = e :: es ->
  StaticDeque.wf d -> StaticDeque.abs d = top :: l ->
  top.(triggerTime) = Some w -> w < 2 ^ 63 -> is_Some top.(initialTriggerTime) ->
  Forall (sub_ok e.(Type_)) (top :: l) -> Forall untriggered (top :: l) ->
  StaticDeque.wf q' ->
  StaticDeque.abs q' = (e <| subEventList := Some d |> <| subEventsCreated := true |>) :: es ->
  inv L None x (v <| vEvents := <[Z.to_nat t := q']> v.(vEvents) |>).
Proof using.
  intros I (row & Hrow & Hh) Hc Hst Hq Ha Wd Had Htr Hw63 Hini Hok Hun W' Ha'.
  destruct (front_facts _ _ _ _ _ _ _ I Hq Ha) as [He _].
  apply (inv_set_queue L None x v I None t q); try done.
  - eapply queue_ok_front; [by apply I|done|done|done|by destruct He as (?&?&?&?)|].
    cbn. exists d. split; [done|]. split; [done|]. rewrite Had. split; [done|].
    exists top, l. split_and!; try done; [by exists w|]. by inversion Hun.
  - congruence.
  - unfold in_flight. rewrite (front_sat_cons _ _ _ _ Ha'). unfold event_in_flight. cbn.
    rewrite Had. inversion Hun as [|? ? Hu]. by rewrite Hu.
  - intros HL p' row' Hx Hrow' Hh' _ Hc'.
    assert (p' = p) by (eapply (inv_rows _ _ _ _ I); eauto using head_elem). congruence.
Qed.

Lemma createSubEvents_spec p opt x s Q :
  inv L None x (v_of s) ->
  (opt = None \/ exists t, opt = Some t /\ head_of (v_of s) p t) ->
  (forall s', inv L None x (v_of s') -> create_post p (v_of s) (v_of s') -> Q tt s') ->
  safe (createSubEvents P rand p opt) Q s.
Proof using POK.
  intros I Hopt H. unfold createSubEvents. apply wp_bind.
  apply (wp_mono E _ (fun t s' => s' = s /\ head_of (v_of s) p t)).
  { destruct Hopt as [->|(t & -> & Ht)]; [|by apply wp_ret].
    apply wp_bind, wp_vread. intros row Hrow. apply rwp_wp, rwp_vfront. intros t Ht.
    split; [done|]. by exists row. }
  intros t s' [-> Ht].
  assert (forall q, vget s.(eventMap) t = Ok q ->
    (vget s.(threadStartedMap) t = Ok true -> StaticDeque.abs q = [] \/ created q = true) ->
    Q tt s) as Hsame.
  { intros q Hq Hcr. apply H; [done|]. split; try done; [|by left|congruence].
    intros t' q' Ht' Hq' Hs'. rewrite <- (head_of_unique _ _ _ _ Ht Ht') in *.
    cbn in *. assert (q' = q) as -> by congruence. by apply Hcr. }
  apply wp_bind, wp_vread. intros st Hst. destruct st; cbn [negb].
  2: { apply wp_ret. apply H; [done|]. split; try done; [|by left|congruence].
       intros t' q' Ht' Hq' Hs'. rewrite <- (head_of_unique _ _ _ _ Ht Ht') in *.
       cbn in *. congruence. }
  apply wp_bind, wp_vread. intros q Hq. pose proof (inv_queue_wf _ _ _ _ _ I Hq) as Wq.
  destruct (StaticDeque.empty q) eqn:Ee.
  { apply empty_abs in Ee; [|done]. apply wp_ret, (Hsame q Hq). by left. }
  apply wp_bind, rwp_wp, rwp_front; [done|by apply nonempty_abs|]. intros e es Ha.
  destruct e.(subEventsCreated) eqn:Ec.
  { apply wp_ret, (Hsame q Hq). right. unfold created. by rewrite (front_sat_cons _ _ _ _ Ha). }
  destruct (front_facts _ _ _ _ _ _ _ I Hq Ha) as [He Hf].
  apply wp_bind, wp_gets. destruct He as (_ & He2 & He3 & _).
  apply wp_bind, rwp_wp, subEvents_of_spec; [done..|]. intros d k' Wd Hne Hok Hun.
  apply wp_bind, wp_modify. cbn [fst snd].
  set (s1 := set_field rand_calls _ s). change (inv L None x (v_of s1)) in I.
  apply wp_bind, rwp_wp, rwp_front; [done..|]. intros top l Had. rewrite Had in Hne, Hok, Hun.
  inversion Hok as [|? ? Htop Hl]; subst. inversion Hun as [|? ? Hut Hul]; subst.
  pose proof (inv_tick _ _ _ _ I) as Htick. cbn in Htick.
  apply wp_bind. eapply wp_next_trigger; [exact Htop|done|]. intros w Hw. cbn in Hw.
  apply wp_bind, rwp_wp, rwp_set_front; [done|by rewrite Had|]. intros y l' d' Hy Wd' Had'.
  rewrite Had in Hy. symmetry in Hy. simplify_eq.
  assert (in_flight q = false) as Hnf.
  { unfold in_flight. rewrite (front_sat_cons _ _ _ _ Ha). unfold event_in_flight.
    unfold front_ok in Hf. rewrite Ec in Hf. by rewrite Hf. }
  assert (quiet (v_of s1) p) as Hquiet.
  { apply (quiet_intro L None x _ I). intros t' q' Ht' Hq' _.
    rewrite <- (head_of_unique _ _ _ _ Ht Ht') in *. cbn in *. congruence. }
  (* once the core is scheduled, by this call or before *)
  assert (forall s2 w', inv L None x (v_of s2) -> s2.(eventMap) = s.(eventMap) ->
    (v_of s2).(vRows) = s.(threadMap) -> s2.(threadStartedMap) = s.(threadStartedMap) ->
    s2.(curTick) = s.(curTick) -> s2.(exit_requested) = s.(exit_requested) ->
    s2.(startEvent) = s.(startEvent) -> vget s2.(coreEvents) p = Ok (Some w') ->
    safe (set_front_event t (e <| subEventList := Some d' |> <| subEventsCreated := true |>))
      Q s2) as Hstore.
  { intros s2 w' I2 Hem Hrows Hstm Htk Hex Hsv Hc2. eapply wp_set_front_event; [done| |].
    { rewrite Hem. eauto using queue_nonempty. }
    intros q2 e2 es2 q' Hq2 Ha2 W' Ha'. rewrite Hem in Hq2.
    assert (q2 = q) as -> by congruence. rewrite Ha in Ha2. symmetry in Ha2. simplify_eq.
    assert (head_of (v_of s2) p t) as Ht2.
    { destruct Ht as (row & Hrow & Hh). exists row. by rewrite Hrows. }
    assert (forall q0, vget (<[Z.to_nat t := q']> s2.(eventMap)) t = Ok q0 -> q0 = q') as Hget.
    { intros q0. rewrite vget_insert_eq; [naive_solver|]. rewrite Hem.
      by apply (vget_Ok_range _ _ _ Hq). }
    apply H.
    - eapply (store_split x (v_of s2) p t q e es q' d' _ _ w); try done; cbn; try congruence;
        [lia|..].
      + constructor; [|done]. destruct Htop as (?&?&?&?&?&?). by split_and!.
      + by constructor.
    - split; try done; cbn.
      + intros t' q0 Ht' Hq0 _. right. rewrite <- (head_of_unique _ _ _ _ Ht2 Ht') in *.
        rewrite (Hget q0 Hq0). unfold created. by rewrite (front_sat_cons _ _ _ _ Ha').
      + right. exists t, q', w'. split; [done|]. split; [|split; [|done]].
        * rewrite vget_insert_eq; [done|]. rewrite Hem. by apply (vget_Ok_range _ _ _ Hq).
        * eexists _, _, d', _, _, w. split_and!; try done. rewrite Htk. lia.
      + intros t' q0 q1 Hq0 Hq1 Hab. destruct (decide (t = t')) as [<-|Hnt].
        * rewrite (Hget q1 Hq1), Ha' in Hab. done.
        * rewrite vget_insert_ne in Hq1 by (done || apply (vget_Ok_range _ _ _ Hq)).
          rewrite Hem in Hq1. congruence. }
  apply wp_bind, wp_schedule_if_idle; [lia|cbn; lia| |].
  - intros w' Hc. by eapply (Hstore s1 w').
  - intros Hc. eapply (Hstore _ w).
    + apply (inv_set_core L None x (v_of s1) I p w Hc Hquiet). cbn. lia.
    + done.
    + done.
    + done.
    + done.
    + done.
    + done.
    + cbn. apply vget_insert_eq. by apply (vget_Ok_range _ _ _ Hc).
Qed.

End safety.
End ReplaySafe.
