(* ===== verification/ReplaySteps.v ===== *)
(** * Safety of event progression and of the handlers

    The second half of the specifications: finishing a sub-event, pthread
    events, [progressEvents], [swapStalledThreads], and the three entry points
    [wakeup(int)], [wakeup()] and [hitCallback]. *)

From S2P Require Import Prelude.
From S2P Require Import StaticDeque.
From S2P Require Import STEvent.
From S2P Require Import CString.
From S2P Require Import Requests.
From S2P Require Import TraceParser.
From S2P Require Import TriggerTime.
From S2P Require Import SubEvents.
From S2P Require Import TraceLines.
From S2P Require Import ReplayState.
From S2P Require Import Replay.
From S2P Require Import ReplayInv.
From S2P Require Import ReplaySafe.
Import STEvent CString Requests TraceParser TriggerTime SubEvents TraceLines
  ReplayState Replay ReplayInv ReplaySafe.

Module ReplaySteps.

Section steps.
Context (P : Params) (cfg : RubyCfg) (rand : nat -> Z) (accept : nat -> bool).
Context (POK : params_ok P).
Abbreviation L := (forall n, accept n = true).
Abbreviation v_of := view_of.
Abbreviation safe := (wp E).

(** The head thread [t] of core [p] is between two sub-events. *)
Record between (p t : Z) (s : state) : Prop := {
  b_inv : inv L (Some t) (Some p) (v_of s);
  b_head : head_of (v_of s) p t;
  b_idle : vget s.(coreEvents) p = Ok None;
  b_exit : s.(exit_requested) = false;
  b_created : exists q, vget s.(eventMap) t = Ok q /\ created q = true
}.

(** A handler is done with core [p]. *)
Record handled (p : Z) (s : state) : Prop := {
  h_inv : inv L None (Some p) (v_of s);
  h_live : L -> live_at (v_of s) p;
  h_exit : s.(exit_requested) = false
}.

Lemma quiet_reads v v' p : reads_on v v' -> quiet v p -> quiet v' p.
Proof using.
  intros (_&_&_&Hr&_&_&Hq) H row t q Hrow Ht Hq'. rewrite Hr in Hrow.
  destruct (Hq t q Hq') as (q0 & Hq0 & _ & ->). by eapply H.
Qed.

(** Waking the core in the future ends the handling. *)
Lemma schedule_handled p w s Q :
  inv L None (Some p) (v_of s) -> quiet (v_of s) p -> vget s.(coreEvents) p = Ok None ->
  s.(exit_requested) = false -> s.(curTick) <= w < 2 ^ 64 ->
  (forall s', handled p s' -> Q tt s') -> safe (schedule_core p w) Q s.
Proof using.
  intros I Hq Hc He Hw H. pose proof (inv_tick _ _ _ _ I) as Ht. cbn in Ht.
  apply wp_schedule_core; [lia|lia|intros c Hc'; congruence|]. intros _. apply H. split; try done.
  - apply (inv_set_core L None (Some p) (v_of s) I p w Hc Hq). cbn. lia.
  - intros _. eapply live_scheduled. cbn. apply vget_insert_eq.
    by apply (vget_Ok_range _ _ _ Hc).
Qed.

(** The front event of a thread that is between two sub-events. *)
Lemma between_front p t s q e es :
  between p t s -> vget s.(eventMap) t = Ok q -> StaticDeque.abs q = e :: es ->
  event_ok t e /\ e.(subEventsCreated) = true /\
  exists d, e.(subEventList) = Some d /\ StaticDeque.wf d /\
    Forall (sub_ok e.(Type_)) (StaticDeque.abs d) /\ Forall untriggered (StaticDeque.abs d).
Proof using.
  intros B Hq Ha. destruct (front_facts accept _ _ _ _ _ _ _ (b_inv _ _ _ B) Hq Ha) as [He Hf].
  destruct (b_created _ _ _ B) as (q' & Hq' & Hc). assert (q' = q) as -> by congruence.
  unfold created in Hc. rewrite (front_sat_cons _ _ _ _ Ha) in Hc.
  split; [done|]. split; [done|]. unfold front_ok in Hf. rewrite Hc in Hf.
  rewrite is_mid_eq in Hf. destruct Hf as (d & ? & ? & ? & ?). by exists d.
Qed.

Lemma between_quiet p t v q :
  inv L (Some t) (Some p) v -> head_of v p t -> vget v.(vEvents) t = Ok q -> quiet v p.
Proof using.
  intros I Ht Hq. apply (quiet_intro L (Some t) (Some p) v I). intros t' q' Ht' Hq' _.
  rewrite <- (head_of_unique _ _ _ _ Ht Ht') in *. assert (q' = q) as -> by congruence.
  apply (mid_not_in_flight t). pose proof (inv_queue _ _ _ _ I t q Hq) as H.
  by rewrite is_mid_eq in H.
Qed.

Lemma created_nonempty q : created q = true -> StaticDeque.abs q <> [].
Proof using. unfold created, front_sat. by destruct (StaticDeque.abs q). Qed.

Lemma created_front (em : EventMap) t :
  (exists q, vget em t = Ok q /\ created q = true) ->
  forall q, vget em t = Ok q -> StaticDeque.abs q <> [].
Proof using. intros (q & Hq & Hc) q' Hq'. apply created_nonempty. congruence. Qed.

(** Removing the front event, which has no sub-events left. *)
Lemma pop_spec p t s Q :
  between p t s ->
  (forall s', inv L None (Some p) (v_of s') -> quiet (v_of s') p ->
     vget s'.(coreEvents) p = Ok None -> s'.(exit_requested) = false ->
     s'.(curTick) = s.(curTick) -> Q tt s') ->
  safe (pop_event t) Q s.
Proof using.
  intros B H. pose proof (b_inv _ _ _ B) as I. eapply wp_pop_event; [exact I|by eapply created_front, B|].
  intros q e es q' Hq Ha W' Ha'.
  destruct (queue_ok_pop true false t q q' e es) as (Hok & Hcr & Hfl); try done.
  { pose proof (inv_queue _ _ _ _ I t q Hq) as Hqo. by rewrite is_mid_eq in Hqo. }
  set (s' := set_field eventMap _ s).
  assert (inv L None (Some p) (v_of s')) as I'.
  { apply (inv_set_queue L (Some t) (Some p) (v_of s) I None t q); try done; try congruence.
    intros t' Hne. by rewrite (is_mid_ne (Some t) t t') by auto. }
  apply H; try done; [|apply B|apply B].
  apply (quiet_intro L None (Some p) _ I'). intros t' q0 Ht' Hq0 _.
  rewrite <- (head_of_unique _ _ _ _ (b_head _ _ _ B) Ht') in *. cbn in Hq0.
  rewrite vget_insert_eq in Hq0 by apply (vget_Ok_range _ _ _ Hq). congruence.
Qed.

Lemma finish_subEvent_spec p t s Q :
  between p t s -> (forall s', handled p s' -> Q tt s') ->
  safe (finish_subEvent P cfg p t) Q s.
Proof using POK.
  intros B H. unfold finish_subEvent. pose proof (b_inv _ _ _ B) as I.
  pose proof (inv_tick _ _ _ _ I) as Htick. cbn in Htick.
  apply wp_bind. eapply wp_front_event; [exact I|by eapply created_front, B|]. intros q e es Hq Ha.
  destruct (between_front p t s q e es B Hq Ha) as (He & Hc & d & Hd & Wd & Hok & Hun).
  apply wp_bind, (wp_getTime P POK).
  apply wp_bind, rwp_wp. unfold subEvents_empty. rewrite Hd. cbn [deref]. cbn [rwp mbind result_bind].
  destruct (StaticDeque.empty d) eqn:Ee.
  - apply wp_bind. apply (wp_mono E _ (fun _ s' => v_of s' = v_of s /\ between p t s')).
    { apply wp_when; intros _; [|done]. apply wp_vwrite. intros _. split; [done|].
      by destruct B. }
    intros [] s1 [Hv1 B1]. assert (s1.(curTick) = s.(curTick)) as Ht1
      by (by apply (f_equal vTick) in Hv1).
    apply wp_bind, (pop_spec p t); [done|]. intros s2 I2 Hq2 Hc2 He2 Ht2.
    apply wp_bind. eapply (swapThreads_spec accept); [done..|].
    intros s3 I3 Hq3 (Ht3 & Hc3 & _ & He3 & _)%permutes_frame. cbn in Ht3, Hc3, He3.
    apply wp_bind. eapply wp_queue_empty; [exact I3|]. intros q3 Hq3'.
    assert (forall s', inv L None (Some p) (v_of s') -> reads_on (v_of s3) (v_of s') ->
      safe (schedule_core p (s.(curTick) + 1)) Q s') as Hsch.
    { intros s' I' R. pose proof R as (R1&_&R3&_&_&R6&_). cbn in *.
      apply schedule_handled; try done; try congruence.
      - by eapply quiet_reads.
      - lia. }
    split; intros Hab; apply wp_bind.
    + apply wp_ret, Hsch; [done|apply reads_on_refl].
    + apply wp_bind. eapply wp_front_event; [exact I3|congruence|]. intros q4 e4 es4 _ _.
      eapply replenish_spec; [exact I3|congruence|]. intros s' I' R. by apply Hsch.
  - apply nonempty_abs in Ee; [|done].
    destruct (StaticDeque.abs d) as [|top l] eqn:Had; [done|].
    inversion Hok as [|? ? Htop Hl Ex]; subst. inversion Hun as [|? ? Hut Hul Ex]; subst.
    apply wp_bind, rwp_wp. unfold top_subEvent. rewrite Hd.
    cbn [deref mbind result_bind]. apply rwp_front; [done|by rewrite Had|]. intros x' l' Hx'.
    rewrite Had in Hx'. symmetry in Hx'. simplify_eq.
    apply wp_bind. eapply (wp_next_trigger P POK); [exact Htop|done|]. intros w Hw.
    apply wp_bind, rwp_wp. unfold set_top_subEvent. rewrite Hd.
    cbn [deref mbind result_bind]. apply rwp_bind, rwp_set_front; [done|by rewrite Had|].
    intros y l2 d' Hy Wd' Had'. rewrite Had in Hy. symmetry in Hy. simplify_eq. cbn [rwp].
    apply wp_bind. eapply wp_set_front_event; [exact I|by eauto using queue_nonempty|].
    intros q0 e0 es0 q' Hq0 Ha0 W' Ha'. assert (q0 = q) as -> by congruence.
    rewrite Ha in Ha0. symmetry in Ha0. simplify_eq.
    assert (in_flight q' = false) as Hnf.
    { unfold in_flight. rewrite (front_sat_cons _ _ _ _ Ha'). unfold event_in_flight. cbn.
      by rewrite Had'. }
    set (s1 := set_field eventMap _ s).
    assert (inv L None (Some p) (v_of s1)) as I1.
    { apply (inv_set_queue L (Some t) (Some p) (v_of s) I None t q); try done; try congruence.
      - intros t' Hne. by rewrite (is_mid_ne (Some t) t t') by auto.
      - eapply (queue_ok_front true false t q q' e es); try done.
        + pose proof (inv_queue _ _ _ _ I t q Hq) as Hqo. by rewrite is_mid_eq in Hqo.
        + unfold front_ok. cbn. rewrite Hc. exists d'. split; [done|]. split; [done|].
          rewrite Had'. split.
          * constructor; [|done]. destruct Htop as (?&?&?&?&?&?). by split_and!.
          * eexists _, l. split; [done|]. split; [|done]. exists w. split; [done|lia].
      - intros Hs _. destruct (b_created _ _ _ B) as (q1 & Hq1 & Hc1).
        assert (q1 = q) as -> by congruence.
        pose proof (inv_stopped _ _ _ _ I t q Hq Hs Hc1) as Hb.
        unfold is_barrier in *. by rewrite (front_sat_cons _ _ _ _ Ha),
          (front_sat_cons _ _ _ _ Ha') in *.
      - intros _ p' row Hx Hrow Hh. exfalso. apply Hx. f_equal.
        destruct (b_head _ _ _ B) as (row0 & Hrow0 & Hh0).
        eapply (inv_rows _ _ _ _ I); eauto using head_elem. }
    apply schedule_handled; try done; [|apply B|apply B|cbn; lia].
    apply (quiet_intro L None (Some p) _ I1). intros t' q1 Ht' Hq1 _.
    rewrite <- (head_of_unique _ _ _ _ (b_head _ _ _ B) Ht') in *. cbn in Hq1.
    rewrite vget_insert_eq in Hq1 by apply (vget_Ok_range _ _ _ Hq). congruence.
Qed.

(** ** Pthread events *)

(** [between] depends on the view only. *)
Lemma between_view p t s s' : v_of s' = v_of s -> between p t s -> between p t s'.
Proof using.
  intros Hv B. pose proof Hv as [= H1 H2 H3 H4 H5 H6 H7 H8].
  destruct B. split; rewrite ?Hv, ?H3, ?H4, ?H8; done.
Qed.

(** The front event has a sub-event left, which may be removed. *)
Definition unfinished (t : Z) (em : EventMap) : Prop :=
  exists q e es d, vget em t = Ok q /\ StaticDeque.abs q = e :: es /\
    e.(subEventList) = Some d /\ StaticDeque.abs d <> [].

Lemma pop_front_subEvent_spec m p t s Q :
  m = None \/ m = Some t -> unfinished t s.(eventMap) ->
  inv L m (Some p) (v_of s) -> head_of (v_of s) p t -> vget s.(coreEvents) p = Ok None ->
  s.(exit_requested) = false ->
  (exists q, vget s.(eventMap) t = Ok q /\ created q = true) ->
  (forall s', between p t s' -> s'.(curTick) = s.(curTick) -> Q tt s') ->
  safe (pop_front_subEvent t) Q s.
Proof using.
  intros Hm Hleft I Ht Hc He (q & Hq & Hcr) H. unfold pop_front_subEvent.
  apply wp_bind. eapply wp_front_event; [exact I|apply created_front; by exists q|].
  intros q0 e es Hq0 Ha. assert (q0 = q) as -> by congruence. clear Hq0.
  destruct (front_facts accept _ _ _ _ _ _ _ I Hq Ha) as [Hev Hf].
  unfold created in Hcr. rewrite (front_sat_cons _ _ _ _ Ha) in Hcr.
  unfold front_ok in Hf. rewrite Hcr in Hf. destruct Hf as (d & Hd & Wd & Hok & Hun).
  apply wp_bind, rwp_wp. unfold pop_subEvent. rewrite Hd. cbn [deref mbind result_bind].
  assert (StaticDeque.abs d <> []) as Hsub.
  { destruct Hleft as (q1 & e1 & es1 & d1 & Hq1 & Ha1 & Hd1 & Hne). congruence. }
  apply rwp_bind, rwp_pop_front; [done..|]. intros top l d' Had Wd' Had'. cbn [rwp snd].
  rewrite Had in *. inversion Hok as [|? ? Htop Hl Ex]; subst.
  assert (Forall untriggered (StaticDeque.abs d')) as Hul.
  { destruct (is_mid m t).
    - by inversion Hun.
    - destruct Hun as (? & ? & [= <- <-] & _ & _ & ?). done. }
  eapply wp_set_front_event; [exact I|by eauto using queue_nonempty|].
  intros q0 e0 es0 q' Hq0 Ha0 W' Ha'.
  assert (q0 = q) as -> by congruence. rewrite Ha in Ha0. symmetry in Ha0. simplify_eq.
  assert (front_ok true (e <| subEventList := Some d' |>)) as Hf'.
  { unfold front_ok. cbn. rewrite Hcr. by exists d'. }
  assert (queue_ok true t q') as Hqo
    by (by eapply (queue_ok_front (is_mid m t) true t q q' e es); [apply I|..]).
  set (s' := set_field eventMap _ s). apply H; [|done]. split; try done.
  - apply (inv_set_queue L m (Some p) (v_of s) I (Some t) t q); try done.
    + intros t' Hne. by rewrite (is_mid_ne (Some t) t t'), (is_mid_ne m t t') by auto.
    + by rewrite is_mid_eq.
    + intros Hs _.
      assert (is_barrier q = true) as Hb.
      { apply (inv_stopped _ _ _ _ I t q Hq Hs). unfold created.
        by rewrite (front_sat_cons _ _ _ _ Ha). }
      unfold is_barrier in *.
      by rewrite (front_sat_cons _ _ _ _ Ha), (front_sat_cons _ _ _ _ Ha') in *.
    + by rewrite (mid_not_in_flight t q').
    + intros _ p' row Hx Hrow Hh. exfalso. apply Hx. f_equal.
      destruct Ht as (row0 & Hrow0 & Hh0).
      eapply (inv_rows _ _ _ _ I); eauto using head_elem.
  - exists q'. split; [cbn; by apply vget_insert_eq, (vget_Ok_range _ _ _ Hq)|].
    unfold created. by rewrite (front_sat_cons _ _ _ _ Ha').
Qed.

(** Between two sub-events, with one left. *)
Record busy (p t : Z) (s : state) : Prop := {
  y_between : between p t s;
  y_left : unfinished t s.(eventMap)
}.

Lemma busy_pop p t s Q :
  busy p t s -> (forall s', between p t s' -> s'.(curTick) = s.(curTick) -> Q tt s') ->
  safe (pop_front_subEvent t) Q s.
Proof using.
  intros [[] Hl] H. by eapply (pop_front_subEvent_spec (Some t)); eauto.
Qed.

Lemma busy_view p t s s' : v_of s' = v_of s -> busy p t s -> busy p t s'.
Proof using.
  intros Hv [B Hl]. split; [by eapply between_view|].
  pose proof Hv as [= H1 H2 H3 H4 H5 H6 H7 H8]. by rewrite H4.
Qed.

(** Map look-ups only touch the pthread maps. *)
Lemma wp_addr_to_id a s (Q : Z -> state -> Prop) :
  (forall i s', v_of s' = v_of s -> Q i s') -> safe (addr_to_id a) Q s.
Proof using.
  intros H. unfold addr_to_id. apply wp_bind, wp_get. destruct (map_index _ _ _).
  apply wp_bind, wp_modify, wp_ret. by apply H.
Qed.

Lemma wp_wait_set a s (Q : gset Z -> state -> Prop) :
  (forall i s', v_of s' = v_of s -> Q i s') -> safe (wait_set a) Q s.
Proof using.
  intros H. unfold wait_set. apply wp_bind, wp_get. destruct (map_index _ _ _).
  apply wp_bind, wp_modify, wp_ret. by apply H.
Qed.

Lemma wp_barrier_set a s (Q : gset Z -> state -> Prop) :
  (forall i s', v_of s' = v_of s -> Q i s') -> safe (barrier_set a) Q s.
Proof using.
  intros H. unfold barrier_set. apply wp_bind, wp_get. destruct (map_index _ _ _).
  apply wp_bind, wp_modify, wp_ret. by apply H.
Qed.

Lemma wp_set_wait_set a w s (Q : unit -> state -> Prop) :
  (forall s', v_of s' = v_of s -> Q tt s') -> safe (set_wait_set a w) Q s.
Proof using. intros H. apply wp_modify. by apply H. Qed.

Lemma between_started p t s t' b :
  between p t s -> 0 <= t' < Z.of_nat (length s.(threadStartedMap)) ->
  (b = false -> forall q, vget s.(eventMap) t' = Ok q -> is_barrier q = true) ->
  between p t (s <| threadStartedMap := <[Z.to_nat t' := b]> s.(threadStartedMap) |>).
Proof using.
  intros B Hr Hb. destruct B. split; try done. by apply (inv_set_started L _ _ (v_of s)).
Qed.

Lemma busy_started p t s t' b :
  busy p t s -> 0 <= t' < Z.of_nat (length s.(threadStartedMap)) ->
  (b = false -> forall q, vget s.(eventMap) t' = Ok q -> is_barrier q = true) ->
  busy p t (s <| threadStartedMap := <[Z.to_nat t' := b]> s.(threadStartedMap) |>).
Proof using. intros [B Hl] Hr Hb. split; [by apply between_started|done]. Qed.

Section pthread.
Context (p t : Z) (e : ST_Event).
Hypothesis Hty : e.(Type_) = TYPE_PTHREAD_API.

(** [e] is the front event of [t], as every branch finds it. *)
Definition at_event (s : state) : Prop :=
  busy p t s /\ exists q es, vget s.(eventMap) t = Ok q /\ StaticDeque.abs q = e :: es.

Lemma at_event_view s s' : v_of s' = v_of s -> at_event s -> at_event s'.
Proof using.
  intros Hv [B (q & es & Hq & Ha)]. split; [by eapply busy_view|].
  exists q, es. pose proof Hv as [= H1 H2 H3 H4 H5 H6 H7 H8]. by rewrite H4.
Qed.

Lemma at_event_ok s : at_event s -> e.(ThreadID) = t /\ is_Some e.(pth_addr).
Proof using Hty.
  intros [B (q & es & Hq & Ha)].
  destruct (front_facts accept _ _ _ _ _ _ _ (b_inv _ _ _ (y_between _ _ _ B)) Hq Ha) as [(?&?&?&H) _].
  split; [done|]. by apply H.
Qed.

Lemma rwp_pth_addr s Q :
  at_event s -> (forall a, e.(pth_addr) = Some a -> Q a) -> rwp E (read e.(pth_addr)) Q.
Proof using Hty.
  intros [_ [a Ha]]%at_event_ok H. rewrite Ha. by apply H.
Qed.

Ltac addr := apply wp_bind, rwp_wp; eapply rwp_pth_addr; [eassumption|]; intros a Ha.

Lemma mutex_lock_spec s (Q : bool -> state -> Prop) :
  at_event s -> (forall b s', busy p t s' -> Q b s') -> safe (progress_mutex_lock e) Q s.
Proof using Hty.
  intros A H. unfold progress_mutex_lock. addr. apply wp_bind, wp_get.
  case_decide; [apply wp_ret, H; apply A|]. apply wp_bind, wp_modify.
  apply wp_bind, wp_vwrite. intros _. apply wp_ret, H.
  eapply busy_view; [|apply A]. done.
Qed.

Lemma mutex_unlock_spec s (Q : bool -> state -> Prop) :
  at_event s -> (forall b s', busy p t s' -> Q b s') -> safe (progress_mutex_unlock e) Q s.
Proof using Hty.
  intros A H. unfold progress_mutex_unlock. addr. apply wp_bind, wp_get.
  apply wp_bind, wp_assert; [intros _|done]. apply wp_bind, wp_modify.
  apply wp_bind, wp_vwrite. intros _. apply wp_ret, H.
  eapply busy_view; [|apply A]. done.
Qed.

Lemma spin_lock_spec s (Q : bool -> state -> Prop) :
  at_event s -> (forall b s', busy p t s' -> Q b s') -> safe (progress_spin_lock e) Q s.
Proof using Hty.
  intros A H. unfold progress_spin_lock. addr. apply wp_bind, wp_get.
  case_decide; [apply wp_ret, H; apply A|]. apply wp_bind, wp_modify, wp_ret, H.
  eapply busy_view; [|apply A]. done.
Qed.

Lemma spin_unlock_spec s (Q : bool -> state -> Prop) :
  at_event s -> (forall b s', busy p t s' -> Q b s') -> safe (progress_spin_unlock e) Q s.
Proof using Hty.
  intros A H. unfold progress_spin_unlock. addr. apply wp_bind, wp_get.
  apply wp_bind, wp_assert; [intros _|done]. apply wp_bind, wp_modify, wp_ret, H.
  eapply busy_view; [|apply A]. done.
Qed.

Lemma create_spec s (Q : bool -> state -> Prop) :
  at_event s -> (forall b s', busy p t s' -> Q b s') -> safe (progress_create e) Q s.
Proof using Hty.
  intros A H. unfold progress_create. apply wp_bind, wp_modify.
  match goal with |- wp _ _ _ ?s' =>
    assert (at_event s') as A1 by (eapply at_event_view; [|exact A]; reflexivity);
    generalize dependent s'; intros s1 A1 end.
  addr. apply wp_bind, wp_addr_to_id. intros i s2 Hv.
  apply wp_bind, wp_vwrite. intros Hr. apply wp_ret, H.
  apply busy_started; [|done|done]. eapply busy_view; [exact Hv|apply A1].
Qed.

Lemma join_spec s (Q : bool -> state -> Prop) :
  at_event s -> (forall b s', busy p t s' -> Q b s') -> safe (progress_join e) Q s.
Proof using Hty.
  intros A H. unfold progress_join. addr. apply wp_bind, wp_addr_to_id. intros i s2 Hv.
  assert (busy p t s2) as B2 by (by eapply busy_view; [exact Hv|apply A]).
  apply wp_bind. eapply wp_queue_empty; [apply B2|]. intros q _.
  split; intros _; apply wp_bind, wp_modify, wp_ret, H;
    (eapply busy_view; [|exact B2]; reflexivity).
Qed.

Lemma checkBarriers_spec s (Q : bool -> state -> Prop) :
  is_Some e.(pth_addr) -> (forall b s', v_of s' = v_of s -> Q b s') ->
  safe (checkBarriers e) Q s.
Proof using.
  intros [a Ha] H. unfold checkBarriers. rewrite Ha. apply wp_bind, rwp_wp. cbn [read rwp].
  apply wp_bind, wp_wait_set. intros w s1 H1. apply wp_bind, wp_barrier_set. intros b s2 H2.
  apply wp_ret, H. congruence.
Qed.

Lemma barrier_spec s (Q : bool -> state -> Prop) :
  e.(PthreadType) = P_BARRIER_WT ->
  at_event s -> (forall b s', busy p t s' -> Q b s') -> safe (progress_barrier e) Q s.
Proof using Hty.
  intros Hb A H. unfold progress_barrier. pose proof (at_event_ok s A) as [Htid Haddr].
  apply wp_bind, wp_vread. intros cont _. destruct cont.
  { apply wp_bind, wp_vwrite. intros _. apply wp_ret, H.
    eapply busy_view; [|apply A]. done. }
  addr. apply wp_bind, wp_wait_set. intros w s1 H1.
  assert (at_event s1) as A1 by (by eapply at_event_view). apply wp_bind.
  apply (wp_mono E _ (fun _ s2 => busy p t s2)).
  { apply wp_when; intros _; [|apply A1]. apply wp_bind, wp_set_wait_set. intros s2 H2.
    rewrite Htid. assert (at_event s2) as [B2 (q & es & Hq & Hqa)]
      by (by eapply at_event_view).
    apply wp_vwrite. intros Hr. apply busy_started; try done. intros _ q' Hq'.
    assert (q' = q) as -> by congruence. unfold is_barrier.
    by rewrite (front_sat_cons _ _ _ _ Hqa), Hty, Hb. }
  intros [] s2 B2. apply wp_bind, checkBarriers_spec; [done|]. intros all s3 H3.
  assert (busy p t s3) as B3 by (by eapply busy_view).
  apply wp_bind. destruct all; [|apply wp_ret, wp_ret, H; exact B3].
  apply wp_bind, wp_barrier_set. intros bs s4 H4.
  assert (busy p t s4) as B4 by (by eapply busy_view).
  apply wp_bind. apply (wp_mono E _ (fun _ s5 => busy p t s5)).
  { apply (wp_for_each E _ _ (fun _ s5 => busy p t s5)); [done|].
    intros _ i s5 _ B5. apply wp_bind, wp_vwrite. intros Hr. apply wp_vwrite. intros _.
    eapply busy_view; [|apply (busy_started p t s5 i true B5 Hr); done]. done. }
  intros [] s5 B5. apply wp_bind, wp_set_wait_set. intros s6 H6.
  apply wp_modify, wp_ret, H. eapply busy_view; [|exact B5]. exact H6.
Qed.

Lemma progressPthreadEvent_spec s Q :
  at_event s -> (forall s', between p t s' -> Q tt s') ->
  safe (progressPthreadEvent P e t p) Q s.
Proof using POK Hty.
  intros A H. unfold progressPthreadEvent. apply wp_bind.
  assert (forall (b : bool) s', between p t s' -> (b = true -> busy p t s') ->
    safe (when b (pop_front_subEvent t;;
      vupdate threadStatistics e.(ThreadID)
        (fun t => t <| ts_numSubEvents ::= fun x => u64 (x + 1) |>);;
      now ← getTime P; vwrite m_last_progress_vector p now)) Q s') as Hrest.
  { intros b s1 B1 Y1. apply wp_when; intros Hb; [|by apply H].
    apply wp_bind, (busy_pop p t); [by apply Y1|]. intros s2 B2 _.
    apply wp_bind, wp_vupdate. intros l. apply wp_bind, (wp_getTime P POK).
    apply wp_vwrite. intros _. apply H. by eapply between_view; [|exact B2]. }
  assert (forall b s', busy p t s' -> safe (when b (pop_front_subEvent t;;
      vupdate threadStatistics e.(ThreadID)
        (fun t => t <| ts_numSubEvents ::= fun x => u64 (x + 1) |>);;
      now ← getTime P; vwrite m_last_progress_vector p now)) Q s') as Hbusy
    by (intros b s' Y; apply Hrest; [apply Y|done]).
  case_match; [by apply mutex_lock_spec|]. case_match; [by apply mutex_unlock_spec|].
  case_match; [by apply create_spec|]. case_match; [by apply join_spec|].
  case_match eqn:Eb; [bool_to_Z; by apply barrier_spec|].
  case_match; [apply wp_bind, (busy_pop p t); [apply A|]; intros; apply wp_ret; by apply Hrest|].
  case_match; [apply wp_bind, (busy_pop p t); [apply A|]; intros; apply wp_ret; by apply Hrest|].
  case_match; [by apply spin_lock_spec|]. case_match; [by apply spin_unlock_spec|]. done.
Qed.
End pthread.

End steps.
End ReplaySteps.
