(* ===== verification/ReplayHandlers.v ===== *)
(** * Safety of the entry points

    [progressEvents], [swapStalledThreads] and the three entry points that the
    simulator calls: [wakeup(int)], [wakeup()] and [hitCallback]. *)

From S2P Require Import Prelude.
From S2P Require Import StaticDeque.
From S2P Require Import STEvent.
From S2P Require Import CString.
From S2P Require Import Requests.
From S2P Require Import TraceParser.
From S2P Require Import TriggerTime.
From S2P Require Import SubEvents.
From S2P Require Import TraceLines.
From S2P Require Import ReplayState.
From S2P Require Import Replay.
From S2P Require Import ReplayInv.
From S2P Require Import ReplaySafe.
From S2P Require Import ReplaySteps.
Import STEvent CString Requests TraceParser TriggerTime SubEvents TraceLines
  ReplayState Replay ReplayInv ReplaySafe ReplaySteps.

Module ReplayHandlers.

Section handlers.
Context (P : Params) (cfg : RubyCfg) (rand : nat -> Z) (accept : nat -> bool).
Context (POK : params_ok P).
Abbreviation L := (forall n, accept n = true).
Abbreviation v_of := view_of.
Abbreviation safe := (wp E).
Abbreviation handled := (handled accept).
Abbreviation between := (between accept).

(** Core [p] is idle and works on the first sub-event [top] of the front event
    [e] of its head thread [t]. *)
Record working (p t : Z) (e : ST_Event) (top : subEvent) (s : state) : Prop := {
  w_inv : inv L None (Some p) (v_of s);
  w_head : head_of (v_of s) p t;
  w_idle : vget s.(coreEvents) p = Ok None;
  w_exit : s.(exit_requested) = false;
  w_quiet : quiet (v_of s) p;
  w_front : exists q es d l, vget s.(eventMap) t = Ok q /\ StaticDeque.abs q = e :: es /\
    e.(subEventsCreated) = true /\ e.(subEventList) = Some d /\ StaticDeque.wf d /\
    StaticDeque.abs d = top :: l /\ Forall (sub_ok e.(Type_)) (top :: l) /\
    (exists w, top.(triggerTime) = Some w /\ w < 2 ^ 63) /\
    is_Some top.(initialTriggerTime) /\ Forall untriggered (top :: l)
}.

Lemma working_view p t e top s s' :
  v_of s' = v_of s -> working p t e top s -> working p t e top s'.
Proof using.
  intros Hv W. pose proof Hv as [= H1 H2 H3 H4 H5 H6 H7 H8].
  destruct W. split; rewrite ?Hv, ?H3, ?H4, ?H8; done.
Qed.

Lemma working_busy p t e top s : working p t e top s -> busy accept p t s.
Proof using.
  intros [I Ht Hc He Hqt (q & es & d & l & Hq & Ha & Hcr & Hd & _ & Had & _)].
  split; [split; try done|exists q, e, es, d; split_and!; try done; by rewrite Had].
  - eapply inv_mid; try done. destruct Ht as (row & Hrow & Hh).
    by eapply (Hqt row); eauto using head_elem.
  - exists q. split; [done|]. unfold created. by rewrite (front_sat_cons _ _ _ _ Ha).
Qed.

(** The front event is replaced by one with another first sub-event. *)
Lemma working_set_top p t e top top' s Q :
  working p t e top s -> sub_ok e.(Type_) top' ->
  (exists w, top'.(triggerTime) = Some w /\ w < 2 ^ 63) ->
  is_Some top'.(initialTriggerTime) ->
  (forall s', inv L None (Some p) (v_of s') -> head_of (v_of s') p t ->
     vget s'.(coreEvents) p = Ok None -> s'.(exit_requested) = false ->
     (forall q, vget s'.(eventMap) t = Ok q -> in_flight q = top'.(msgTriggered)) ->
     s'.(curTick) = s.(curTick) -> Q tt s') ->
  safe (e' ← lift (set_top_subEvent e top'); set_front_event t e') Q s.
Proof using.
  intros W Hok Htr Hini H. destruct W as [I Ht Hc He Hqt Hfront].
  destruct Hfront as (q & es & d & l & Hq & Ha & Hcr & Hd & Wd & Had & Hall & _ & _ & Hun).
  apply wp_bind, rwp_wp. unfold set_top_subEvent. rewrite Hd. cbn [deref mbind result_bind].
  apply rwp_bind, rwp_set_front; [done|by rewrite Had|]. intros y l' d' Hy Wd' Had'.
  rewrite Had in Hy. symmetry in Hy. simplify_eq. cbn [rwp].
  eapply wp_set_front_event; [exact I|by eauto using queue_nonempty|].
  intros q0 e0 es0 q' Hq0 Ha0 W' Ha'.
  assert (q0 = q) as -> by congruence. rewrite Ha in Ha0. symmetry in Ha0. simplify_eq.
  destruct (front_facts accept _ _ _ _ _ _ _ I Hq Ha) as [Hev _].
  assert (in_flight q' = top'.(msgTriggered)) as Hfl.
  { unfold in_flight. rewrite (front_sat_cons _ _ _ _ Ha'). unfold event_in_flight. cbn.
    by rewrite Had'. }
  inversion Hall; subst. inversion Hun; subst.
  apply H; try done; cbn.
  - apply (inv_set_queue L None (Some p) (v_of s) I None t q); try done.
    + eapply (queue_ok_front false false t q q' e es); try done; [by apply I|].
      unfold front_ok. cbn. rewrite Hcr. exists d'. split; [done|]. split; [done|].
      rewrite Had'. split; [by constructor|]. by exists top', l.
    + intros Hs _. assert (is_barrier q = true) as Hb.
      { apply (inv_stopped _ _ _ _ I t q Hq Hs). unfold created.
        by rewrite (front_sat_cons _ _ _ _ Ha). }
      unfold is_barrier in *.
      by rewrite (front_sat_cons _ _ _ _ Ha), (front_sat_cons _ _ _ _ Ha') in *.
    + intros _. destruct Ht as (row & Hrow & Hh). by exists p, row.
    + intros _ p' row Hx Hrow Hh. exfalso. apply Hx. f_equal.
      destruct Ht as (row0 & Hrow0 & Hh0).
      eapply (inv_rows _ _ _ _ I); eauto using head_elem.
  - intros q0 Hq'. rewrite vget_insert_eq in Hq' by apply (vget_Ok_range _ _ _ Hq).
    congruence.
Qed.

Lemma working_facts p t e top s :
  working p t e top s -> sub_ok e.(Type_) top /\
  (exists w, top.(triggerTime) = Some w /\ w < 2 ^ 63) /\
  is_Some top.(initialTriggerTime) /\ top.(msgTriggered) = false.
Proof using.
  intros [_ _ _ _ _ (q & es & d & l & _ & _ & _ & _ & _ & _ & Hall & Htr & Hin & Hun)].
  inversion Hall; subst. inversion Hun; subst. done.
Qed.

(** Bind reassociation for the pair of writes above. *)
Lemma safe_bind_assoc {A B C} (m : M state A) (f : A -> M state B) (g : B -> M state C) Q s :
  safe ((a ← m; f a) ≫= g) Q s -> safe (a ← m; b ← f a; g b) Q s.
Proof using. unfold wp, mbind, M_bind. by destruct (m s) as [[a s1]|e]. Qed.

Lemma triggerMsg_spec write count p t e top s Q :
  working p t e top s -> top.(containsMsg) = true ->
  (forall s', handled p s' -> Q tt s') ->
  safe (triggerMsg P accept write count p t top) Q s.
Proof using POK.
  intros W Hcm H. destruct (working_facts _ _ _ _ _ W) as (Hok & Htr & Hini & Hut).
  pose proof Hok as (_ & _ & _ & _ & Hmsg & _). destruct (Hmsg Hcm) as [[msg Hm] _].
  unfold triggerMsg. apply wp_bind. eapply wp_queue_empty; [apply W|]. intros q0 Hq0.
  destruct (w_front _ _ _ _ _ W) as (qf & esf & _ & _ & Hqf & Haf & _).
  assert (qf = q0) as -> by congruence.
  split; intros Hab; [congruence|]. apply wp_bind, wp_assert; [intros _|done].
  rewrite Hm. apply wp_bind, rwp_wp. cbn [deref rwp]. apply wp_bind, (wp_getTime P POK).
  apply wp_bind. unfold sendTimingReq. case_match; [|done].
  apply wp_bind, wp_gets. apply wp_bind, wp_modify.
  match goal with |- wp _ _ _ ?s' =>
    assert (working p t e top s') as W1 by (eapply working_view; [|exact W]; reflexivity);
    generalize dependent s'; intros s1 W1 end.
  destruct (accept _) eqn:Eacc.
  - apply wp_bind, wp_modify. apply wp_ret.
    match goal with |- wp _ _ _ ?s' =>
      assert (working p t e top s') as W2 by (eapply working_view; [|exact W1]; reflexivity);
      generalize dependent s'; intros s2 W2 end.
    apply wp_bind. eapply wp_front_event; [apply W2| |].
    { destruct (w_front _ _ _ _ _ W2) as (qg & esg & _ & _ & Hqg & Hag & _).
      by eauto using queue_nonempty. }
    intros q e0 es0 Hq Ha0.
    assert (e0 = e) as ->.
    { destruct (w_front _ _ _ _ _ W2) as (q' & es & d & l & Hq' & Ha' & _). congruence. }
    apply safe_bind_assoc, wp_bind. eapply (working_set_top p t e top); [done| | | |].
    + destruct Hok as (?&?&?&?&?&?). by split_and!.
    + done.
    + done.
    + intros s3 I3 Ht3 Hc3 He3 Hf3 _. apply wp_bind, wp_vupdate. intros l0.
      apply wp_vwrite. intros _. apply H. split; try done. cbn.
      intros _ row t' q' Hrow Hh Hq' _ _.
      assert (t' = t) as -> by (eapply head_of_unique; [by exists row|exact Ht3]).
      by rewrite (Hf3 q' Hq').
  - apply wp_ret, wp_ret, H. split; try apply W1. intros HL. by rewrite HL in Eacc.
Qed.

(** ** [progressEvents] *)

(** After [createSubEvents]: a started head thread with events has its front
    event split, and the core is idle unless that event is due later. *)
Record ready (p : Z) (s : state) : Prop := {
  r_inv : inv L None (Some p) (v_of s);
  r_exit : s.(exit_requested) = false;
  r_quiet : quiet (v_of s) p;
  r_created : forall t q, head_of (v_of s) p t -> vget s.(eventMap) t = Ok q ->
    vget s.(threadStartedMap) t = Ok true -> StaticDeque.abs q = [] \/ created q = true;
  r_due : vget s.(coreEvents) p = Ok None \/
    exists t q, head_of (v_of s) p t /\ vget s.(eventMap) t = Ok q /\
      top_future s.(curTick) q
}.

(** The core is handled, or its head thread has not started. *)
Definition progressed (p : Z) (s : state) : Prop :=
  handled p s \/
  (inv L None (Some p) (v_of s) /\ quiet (v_of s) p /\ s.(exit_requested) = false /\
   exists t, head_of (v_of s) p t /\ vget s.(threadStartedMap) t = Ok false).

Lemma handled_view p s s' : v_of s' = v_of s -> handled p s -> handled p s'.
Proof using.
  intros Hv W. pose proof Hv as [= H1 H2 H3 H4 H5 H6 H7 H8].
  destruct W. split; rewrite ?Hv, ?H8; done.
Qed.

(** Waiting for a producer: try again in the next cycle. *)
Lemma wait_spec p t e top s Q :
  working p t e top s -> (forall s', handled p s' -> Q tt s') ->
  safe (e' ← lift (set_top_subEvent e (top <| triggerTime := Some (s.(curTick) + 1) |>));
        set_front_event t e';;
        schedule_core p (s.(curTick) + 1);;
        vwrite m_last_progress_vector p s.(curTick)) Q s.
Proof using.
  intros W H. destruct (working_facts _ _ _ _ _ W) as (Hok & _ & Hini & Hut).
  pose proof (inv_tick _ _ _ _ (w_inv _ _ _ _ _ W)) as Ht. cbn in Ht.
  apply safe_bind_assoc, wp_bind. eapply (working_set_top p t e top); [done| | | |].
  - destruct Hok as (?&?&?&?&?&?). by split_and!.
  - exists (s.(curTick) + 1). split; [done|lia].
  - done.
  - intros s1 I1 Ht1 Hc1 He1 Hf1 Htk. apply wp_bind.
    apply (schedule_handled accept); try done; [|lia|].
    + apply (quiet_intro L None (Some p) _ I1). intros t' q' Ht' Hq' _.
      assert (t' = t) as -> by (by eapply head_of_unique). by rewrite (Hf1 q' Hq').
    + intros s2 H2. apply wp_vwrite. intros _. apply H. by eapply handled_view; [|exact H2].
Qed.

Lemma work_spec p t e top s Q :
  working p t e top s -> (forall s', handled p s' -> Q tt s') ->
  safe (
    vupdate threadStatistics t (fun ts =>
      ts <| ts_numIOPS ::= fun x => u64 (x + top.(numIOPS)) |>
         <| ts_numFLOPS ::= fun x => u64 (x + top.(numFLOPS)) |>);;
    if negb top.(containsMsg) then
      (if negb (e.(Type_) =? TYPE_PTHREAD_API) then
         vupdate threadStatistics t
           (fun ts => ts <| ts_numSubEvents ::= fun x => u64 (x + 1) |>);;
         pop_front_subEvent t;;
         vwrite m_last_progress_vector p s.(curTick)
       else progressPthreadEvent P e t p);;
      finish_subEvent P cfg p t
    else if e.(Type_) =? TYPE_COMMUNICATION then
      msg ← lift (deref top.(thisMsg));
      met ← checkCommDependency msg;
      go ← match met with true => mret true | false => vread threadMutexMap t end;
      match go with
      | true => triggerCommReadMsg P accept p t top
      | false =>
          e' ← lift (set_top_subEvent e (top <| triggerTime := Some (s.(curTick) + 1) |>));
          set_front_event t e';;
          schedule_core p (s.(curTick) + 1);;
          vwrite m_last_progress_vector p s.(curTick)
      end
    else
      ty ← lift (read top.(msgType));
      if bool_decide (ty = DT_REQ_WRITE)
      then triggerCompWriteMsg P accept p t top
      else triggerCompReadMsg P accept p t top) Q s.
Proof using POK.
  intros W H. destruct (working_facts _ _ _ _ _ W) as (Hok & _ & _ & _).
  apply wp_bind, wp_vupdate. intros l0.
  set (s1 := set_field threadStatistics _ s).
  assert (working p t e top s1) as W1 by (eapply working_view; [|exact W]; reflexivity).
  change s.(curTick) with s1.(curTick). clearbody s1.
  destruct (top.(containsMsg)) eqn:Hcm; cbn [negb].
  - pose proof Hok as (_ & _ & _ & _ & Hmsg & _).
    destruct (Hmsg Hcm) as [[msg Hm] [ty Hty]].
    case_match.
    + rewrite Hm. apply wp_bind, rwp_wp. cbn [deref rwp]. apply wp_bind.
      eapply (checkCommDependency_spec accept); [apply W1|]. intros met. apply wp_bind.
      apply (wp_mono E _ (fun _ s' => s' = s1)).
      { destruct met; [by apply wp_ret|by apply wp_vread]. }
      intros [] s2 ->; [by eapply triggerMsg_spec|by apply (wait_spec p t e top)].
    + rewrite Hty. apply wp_bind, rwp_wp. cbn [read rwp].
      case_match; by eapply triggerMsg_spec.
  - apply wp_bind. apply (wp_mono E _ (fun _ s' => between p t s')).
    + destruct (e.(Type_) =? TYPE_PTHREAD_API) eqn:Ety; cbn [negb]; bool_to_Z.
      * apply (progressPthreadEvent_spec P accept POK); try done.
        split; [by eapply working_busy|].
        destruct (w_front _ _ _ _ _ W1) as (q & es & d & l & Hq & Ha & _). by exists q, es.
      * apply wp_bind, wp_vupdate. intros l1. set (s2 := set_field threadStatistics _ s1).
        assert (busy accept p t s2) as B2.
        { apply (working_busy p t e top). eapply working_view; [|exact W1]; reflexivity. }
        apply wp_bind, (busy_pop accept p t); [done|]. intros s3 B3 _.
        apply wp_vwrite. intros _. eapply (between_view accept); [|exact B3]. done.
    + intros [] s2 B2. by apply (finish_subEvent_spec P cfg accept POK).
Qed.

Lemma progressEvents_spec p s Q :
  ready p s -> (forall s', progressed p s' -> Q tt s') ->
  safe (progressEvents P cfg accept p) Q s.
Proof using POK.
  intros R H. unfold progressEvents. pose proof (r_inv _ _ R) as I.
  pose proof (inv_tick _ _ _ _ I) as Htick. cbn in Htick.
  apply wp_bind, wp_vread. intros row Hrow.
  apply wp_bind, rwp_wp, rwp_vfront. intros t Hh.
  assert (head_of (v_of s) p t) as Ht by (by exists row).
  apply wp_bind, wp_vread. intros st Hst. destruct st; cbn [negb].
  2: { apply wp_ret, H. right. split_and!; try apply R. by exists t. }
  apply wp_bind. eapply wp_queue_empty; [exact I|]. intros q Hq. split; intros Hab.
  { apply wp_ret, H. left. split; try apply R. intros _ row' t' q' Hrow' Hh' Hq' Hcr _.
    cbn in *. assert (row' = row) as -> by congruence. assert (t' = t) as -> by congruence.
    assert (q' = q) as -> by congruence. unfold created in Hcr.
    by rewrite (front_sat_nil _ _ Hab) in Hcr. }
  apply wp_bind. eapply wp_front_event; [exact I|congruence|]. intros q0 e es Hq0 Ha.
  assert (q0 = q) as -> by congruence. clear Hq0.
  destruct (r_created _ _ R t q Ht Hq Hst) as [?|Hcr]; [done|].
  destruct (front_facts accept _ _ _ _ _ _ _ I Hq Ha) as [Hev Hf].
  unfold created in Hcr. rewrite (front_sat_cons _ _ _ _ Ha) in Hcr.
  unfold front_ok in Hf. rewrite Hcr in Hf. destruct Hf as (d & Hd & Wd & Hok & Hsub).
  destruct Hsub as (top & l & Had & (w & Htr & Hw) & Hini & Hun).
  apply wp_bind, rwp_wp. unfold top_subEvent. rewrite Hd. cbn [deref mbind result_bind].
  apply rwp_front; [done|by rewrite Had|]. intros x' l' Hx'. rewrite Had in Hx'. symmetry in Hx'. simplify_eq.
  apply wp_bind, rwp_wp. rewrite Htr. cbn [read rwp]. apply wp_bind, (wp_getTime P POK).
  assert (top.(msgTriggered) = false) as Hut.
  { assert (in_flight q = false) as Hq'
      by (eapply (r_quiet _ _ R row); eauto using head_elem).
    unfold in_flight in Hq'. rewrite (front_sat_cons _ _ _ _ Ha) in Hq'.
    unfold event_in_flight in Hq'. by rewrite Hd, Had in Hq'. }
  rewrite Hut. cbn [negb]. rewrite andb_true_r. destruct (w <=? s.(curTick)) eqn:Edue; bool_to_Z.
  - assert (vget s.(coreEvents) p = Ok None) as Hidle.
    { destruct (r_due _ _ R) as [?|(t' & q' & Ht' & Hq' & Hfut)]; [done|].
      assert (t' = t) as -> by (by eapply head_of_unique).
      assert (q' = q) as -> by congruence.
      destruct Hfut as (e1 & es1 & d1 & top1 & l1 & w1 & H1 & H2 & H3 & H4 & H5).
      rewrite Ha in H1. simplify_eq. rewrite Had in H3. simplify_eq. lia. }
    apply (work_spec p t e top); [|intros s' Hs'; apply H; by left].
    split; try done; try apply R. exists q, es, d, l. rewrite Had in Hok.
    split_and!; try done; [by exists w|]. by constructor.
  - apply wp_schedule_if_idle; [lia|lia| |].
    + intros w' Hw'. apply H. left. split; try apply R. intros _. by eapply live_scheduled.
    + intros Hc. apply H. left.
      assert (vget (<[Z.to_nat p := Some w]> s.(coreEvents)) p = Ok (Some w)) as Hs
        by (by apply vget_insert_eq, (vget_Ok_range _ _ _ Hc)).
      split; [|intros _; by eapply live_scheduled|apply R].
      apply (inv_set_core L None (Some p) (v_of s) I p w Hc); [apply R|cbn; lia].
Qed.

(** ** [swapStalledThreads] *)
Lemma progressed_inv p s :
  progressed p s -> inv L None (Some p) (v_of s) /\ s.(exit_requested) = false.
Proof using. intros [[I _ He]|(I & _ & He & _)]; done. Qed.

(** A core whose head queue has nothing in flight is quiet. *)
Lemma quiet_head p t s q :
  inv L None (Some p) (v_of s) -> head_of (v_of s) p t -> vget s.(eventMap) t = Ok q ->
  in_flight q = false -> quiet (v_of s) p.
Proof using.
  intros I Ht Hq Hf. apply (quiet_intro L None (Some p) _ I). intros t' q' Ht' Hq' _.
  assert (t' = t) as -> by (by eapply head_of_unique). cbn in Hq'. congruence.
Qed.

Lemma barrier_pthread q : is_barrier q = true -> is_pthread q = true.
Proof using.
  unfold is_barrier, is_pthread, front_sat. destruct (StaticDeque.abs q); [done|].
  intros H. by bool_to_Z; apply Z.eqb_eq.
Qed.

Lemma pthread_not_in_flight t q :
  queue_ok false t q -> is_pthread q = true -> in_flight q = false.
Proof using.
  intros Hq Hp. destruct (in_flight q) eqn:Hf; [|done].
  destruct (in_flight_created _ _ _ Hq Hf). congruence.
Qed.

Lemma stopped_not_in_flight x s t q :
  inv L None x (v_of s) -> vget s.(eventMap) t = Ok q ->
  vget s.(threadStartedMap) t = Ok false -> in_flight q = false.
Proof using.
  intros I Hq Hs. pose proof (inv_queue _ _ _ _ I t q Hq) as Hqo.
  destruct (in_flight q) eqn:Hf; [|done].
  destruct (in_flight_created _ _ _ Hqo Hf) as [Hc Hp].
  pose proof (barrier_pthread q (inv_stopped _ _ _ _ I t q Hq Hs Hc)). congruence.
Qed.

Lemma any_started_spec rest s (Q : bool -> state -> Prop) :
  (forall b, Q b s) -> safe (any_started rest) Q s.
Proof using.
  intros H. unfold any_started. revert Q H.
  induction rest as [|t rest IH]; intros Q H; cbn [foldr]; [by apply wp_ret|].
  apply wp_bind, wp_vread. intros [] _; [by apply wp_ret|by apply IH].
Qed.

Lemma catch_handled p s Q :
  inv L None (Some p) (v_of s) -> quiet (v_of s) p -> s.(exit_requested) = false ->
  (forall s', handled p s' -> Q tt s') ->
  safe (now ← getTime P; schedule_if_idle p (now + 1)) Q s.
Proof using POK.
  intros I Hq He H. eapply (catch_spec P accept POK); [done..|].
  intros s' I' _ Hl He' _ _. apply H. split; [done|done|congruence].
Qed.

Lemma swap_handled p s Q :
  inv L None (Some p) (v_of s) -> quiet (v_of s) p -> s.(exit_requested) = false ->
  (forall s', handled p s' /\ quiet (v_of s') p -> Q tt s') -> safe (swap_and_catch P p) Q s.
Proof using POK.
  intros I Hq He H. eapply (swap_and_catch_spec P accept POK); [done..|].
  intros s' I' Hq' Hl He'. apply H. split; [|done]. split; [done|done|congruence].
Qed.

(** What the three stall checks find and leave: the core is handled, and quiet
    when the event is a pthread event. *)
Definition checked (p : Z) (e : ST_Event) (s : state) : Prop :=
  handled p s /\ (e.(Type_) = TYPE_PTHREAD_API -> quiet (v_of s) p).

Lemma stalled_comm_spec p t e es q s Q :
  checked p e s -> head_of (v_of s) p t -> vget s.(eventMap) t = Ok q ->
  StaticDeque.abs q = e :: es -> e.(subEventsCreated) = true ->
  (forall s', checked p e s' -> Q tt s') -> safe (stalled_comm P p e) Q s.
Proof using POK.
  intros [Hh Hqt] Ht Hq Ha Hcr H. unfold stalled_comm.
  apply wp_when; intros _; [|by apply H]. pose proof (h_inv _ _ _ Hh) as I.
  destruct (front_facts accept _ _ _ _ _ _ _ I Hq Ha) as [Hev Hf].
  unfold front_ok in Hf. rewrite Hcr in Hf. destruct Hf as (d & Hd & Wd & Hok & Hsub).
  destruct Hsub as (top & l & Had & Htr & [t0 Hini] & Hun).
  apply wp_bind, rwp_wp. unfold top_subEvent. rewrite Hd. cbn [deref mbind result_bind].
  apply rwp_front; [done|by rewrite Had|]. intros x' l' Hx'. rewrite Had in Hx'. symmetry in Hx'. simplify_eq.
  apply wp_when; intros Htrg; [|by apply H]. apply wp_bind, (wp_getTime P POK).
  apply wp_bind, rwp_wp. rewrite Hini. cbn [read rwp].
  apply wp_when; intros _; [|by apply H].
  apply swap_handled; [done| |apply Hh|intros s' [? ?]; by apply H].
  eapply quiet_head; try done. unfold in_flight. rewrite (front_sat_cons _ _ _ _ Ha).
  unfold event_in_flight. rewrite Hd, Had. by apply negb_true_iff.
Qed.

Lemma stalled_join_spec p e s Q :
  checked p e s -> (e.(Type_) = TYPE_PTHREAD_API -> is_Some e.(pth_addr)) ->
  (forall s', checked p e s' -> Q tt s') -> safe (stalled_join P p e) Q s.
Proof using POK.
  intros [Hh Hqt] Hpa H. unfold stalled_join.
  apply wp_when; intros Hty; [|by apply H]. bool_to_Z.
  destruct Hpa as [a Ha]; [done|]. rewrite Ha. apply wp_bind, rwp_wp. cbn [read rwp].
  apply wp_bind, wp_addr_to_id. intros i s1 Hv.
  assert (handled p s1) as Hh1 by (by eapply handled_view).
  assert (quiet (v_of s1) p) as Hq1 by (rewrite Hv; by apply Hqt).
  apply wp_bind, wp_vread. intros pos _. apply wp_when; intros _; [|by apply H].
  apply swap_handled; [apply Hh1|done|apply Hh1|]. intros s' [? ?]. by apply H.
Qed.

Lemma stalled_mutex_spec p e s Q :
  checked p e s -> (forall s', checked p e s' -> Q tt s') -> safe (stalled_mutex P p e) Q s.
Proof using POK.
  intros [Hh Hqt] H. unfold stalled_mutex.
  apply wp_when; intros Hty; [|by apply H]. bool_to_Z.
  apply wp_bind, wp_vread. intros held _. apply wp_when; intros _; [|by apply H].
  apply swap_handled; [apply Hh|by apply Hqt|apply Hh|]. intros s' [? ?]. by apply H.
Qed.

(** The branch for a head thread that can run. *)
Lemma stalled_running_spec p t s Q :
  handled p s -> head_of (v_of s) p t -> vget s.(threadStartedMap) t = Ok true ->
  (forall q, vget s.(eventMap) t = Ok q -> StaticDeque.abs q <> []) ->
  (forall s', handled p s' -> Q tt s') ->
  safe (e0 ← front_event t;
        when (negb e0.(subEventsCreated)) (createSubEvents P rand p (Some t));;
        thisEvent ← front_event t;
        stalled_comm P p thisEvent;;
        stalled_join P p thisEvent;;
        stalled_mutex P p thisEvent) Q s.
Proof using POK.
  intros Hh Ht Hst Hne H. pose proof (h_inv _ _ _ Hh) as I.
  apply wp_bind. eapply wp_front_event; [exact I|done|]. intros q0 e0 es0 Hq0 Ha0.
  apply wp_bind.
  apply (wp_mono E _ (fun _ s1 => handled p s1 /\ head_of (v_of s1) p t /\
    forall q, vget s1.(eventMap) t = Ok q -> created q = true)).
  { apply wp_when; intros Hcr.
    - eapply (createSubEvents_spec P rand accept POK); [exact I|right; by exists t|].
      intros s1 I1 [Hc1 Hch Hr1 Hs1 Htk1 He1 _ Hem1]. cbn in Hr1, Hs1, He1, Hem1.
      assert (head_of (v_of s1) p t) as Ht1.
      { destruct Ht as (row & Hrow & Hhd). exists row. cbn in *. by rewrite Hr1. }
      split; [|split; [done|]].
      + split; [done| |rewrite He1; apply Hh]. intros HL.
        destruct Hch as [->|(t' & q' & w & _ & _ & _ & Hsch)]; [by apply Hh|].
        by eapply live_scheduled.
      + intros q Hq. destruct (Hc1 t q Ht1 Hq) as [Hab|?]; [cbn; by rewrite Hs1| |done].
        by destruct (Hne q0 Hq0 (Hem1 t q0 q Hq0 Hq Hab)).
    - split; [done|]. split; [done|]. intros q Hq. assert (q = q0) as -> by congruence.
      unfold created. rewrite (front_sat_cons _ _ _ _ Ha0). by apply negb_false_iff. }
  intros [] s1 (Hh1 & Ht1 & Hcr1). pose proof (h_inv _ _ _ Hh1) as I1.
  apply wp_bind. eapply wp_front_event; [exact I1|by intros q ?%Hcr1%created_nonempty|].
  intros q e es Hq Ha.
  destruct (front_facts accept _ _ _ _ _ _ _ I1 Hq Ha) as [(_&_&_&Hpa) _].
  pose proof (Hcr1 q Hq) as Hcr.
  unfold created in Hcr. rewrite (front_sat_cons _ _ _ _ Ha) in Hcr.
  assert (checked p e s1) as Hck.
  { split; [done|]. intros Hty. eapply quiet_head; try done.
    apply (pthread_not_in_flight t); [exact (inv_queue _ _ _ _ I1 t q Hq)|].
    unfold is_pthread. rewrite (front_sat_cons _ _ _ _ Ha). by apply Z.eqb_eq. }
  apply wp_bind. eapply stalled_comm_spec; try done. intros s2 H2.
  apply wp_bind. apply stalled_join_spec; try done. intros s3 H3.
  apply stalled_mutex_spec; try done. intros s4 [H4 _]. by apply H.
Qed.

Lemma swapStalledThreads_spec p s Q :
  progressed p s -> (forall s', handled p s' -> Q tt s') ->
  safe (swapStalledThreads P rand p) Q s.
Proof using POK.
  intros Hp H. destruct (progressed_inv p s Hp) as [I He]. unfold swapStalledThreads.
  apply wp_bind, wp_vread. intros row Hrow. apply wp_bind, rwp_wp, rwp_vfront. intros t Hh.
  assert (head_of (v_of s) p t) as Ht by (by exists row).
  assert (forall q, vget s.(eventMap) t = Ok q -> in_flight q = false ->
    safe (other ← any_started (tail row); when other (swapThreads p);;
          now ← getTime P; schedule_if_idle p (now + 1)) Q s) as Hstall.
  { intros q Hq Hf. apply wp_bind, any_started_spec. intros other. apply wp_bind.
    assert (quiet (v_of s) p) as Hqt by (by eapply quiet_head).
    apply wp_when; intros _; [|by apply catch_handled].
    eapply (swapThreads_spec accept); [done..|].
    intros s1 I1 Hq1 (_&_&_&Hx&_)%permutes_frame. apply catch_handled; try done.
    cbn in Hx. congruence. }
  destruct (1 <? Z.of_nat (length row)) eqn:Elen.
  - apply wp_bind. eapply wp_queue_empty; [exact I|]. intros q Hq. split; intros Hab.
    + apply wp_bind, wp_ret. apply (Hstall q Hq). by apply front_sat_nil.
    + apply wp_bind, wp_bind, wp_vread. intros st Hst. apply wp_ret. destruct st; cbn [negb].
      * apply (stalled_running_spec p t); try done; [|congruence].
        destruct Hp as [?|(_&_&_& t' & Ht' & Hst')]; [done|].
        assert (t' = t) as -> by (by eapply head_of_unique). congruence.
      * apply (Hstall q Hq). by eapply stopped_not_in_flight.
  - assert (forall q, vget s.(eventMap) t = Ok q ->
      (created q = true -> is_barrier q = false) -> handled p s) as Hdone.
    { intros q Hq Hcr. destruct Hp as [?|(_&_&_& t' & Ht' & Hst')]; [done|].
      assert (t' = t) as -> by (by eapply head_of_unique).
      split; try done. intros _ row' t' q' Hrow' Hh' Hq' Hcr' _. cbn in *.
      assert (row' = row) as -> by congruence. assert (t' = t) as -> by congruence.
      assert (q' = q) as -> by congruence.
      pose proof (inv_stopped _ _ _ _ I t q Hq Hst' Hcr'). rewrite Hcr in *; done. }
    apply wp_when; intros E1.
    2: { exfalso. bool_to_Z. destruct row; [done|]. simpl in *. lia. }
    apply wp_bind. eapply wp_queue_empty; [exact I|]. intros q Hq.
    split; intros Hab; apply wp_when; try done; intros _.
    + apply H, (Hdone q Hq). unfold created. by rewrite (front_sat_nil _ _ Hab).
    + apply wp_bind. eapply wp_front_event; [exact I|congruence|]. intros q0 e es Hq0 Ha.
      assert (q0 = q) as -> by congruence. clear Hq0.
      apply wp_when; intros Hb.
      * apply catch_handled; try done. eapply quiet_head; try done.
        apply (pthread_not_in_flight t); [exact (inv_queue _ _ _ _ I t q Hq)|].
        apply barrier_pthread. unfold is_barrier. by rewrite (front_sat_cons _ _ _ _ Ha).
      * apply H, (Hdone q Hq). intros _. unfold is_barrier.
        by rewrite (front_sat_cons _ _ _ _ Ha).
Qed.

(** ** Entry points *)
Lemma handled_INV p s : handled p s -> INV L (v_of s).
Proof using. intros [I Hl _]. by eapply inv_release. Qed.

(** Firing a core event makes the core the one being handled. *)
Lemma inv_fire p w s :
  INV L (v_of s) -> vget s.(coreEvents) p = Ok (Some w) ->
  let s' := s <| coreEvents := <[Z.to_nat p := None]> s.(coreEvents) |> in
  inv L None (Some p) (v_of s') /\ quiet (v_of s') p /\ vget s'.(coreEvents) p = Ok None.
Proof using.
  intros I Hc s'. pose proof (vget_Ok_range _ _ _ Hc) as Hr.
  assert (vget s'.(coreEvents) p = Ok None) as Heq by (by apply vget_insert_eq).
  assert (forall p', p <> p' -> vget s'.(coreEvents) p' = vget s.(coreEvents) p') as Hne
    by (intros; apply vget_insert_ne; [lia|done]).
  split; [|split; [exact (quiet_scheduled L None None _ I p w Hc)|done]].
  destruct I. split; try done; cbn [vCores view_of vRows vEvents vTick] in *.
  - intros t q Hq Hf. destruct (inv_flight0 t q Hq Hf) as (p' & row & ? & ? & Hc').
    exists p', row. split; [done|]. split; [done|].
    destruct (decide (p = p')) as [<-|Hp]; [done|]. by rewrite Hne.
  - intros p' w' H. destruct (decide (p = p')) as [<-|Hp]; [congruence|].
    rewrite Hne in H by done. by eapply inv_future0.
  - intros HL p' row t q Hx Hrow Hh Hq Hcr Hc'. eapply inv_live0; try done.
    rewrite <- Hne; [done|]. congruence.
Qed.

Lemma wakeup_core_spec p s Q :
  inv L None (Some p) (v_of s) -> quiet (v_of s) p -> vget s.(coreEvents) p = Ok None ->
  s.(exit_requested) = false ->
  (forall s', INV L (v_of s') -> s'.(exit_requested) = false -> Q tt s') ->
  safe (wakeup_core P cfg rand accept p) Q s.
Proof using POK.
  intros I Hqt Hc He H. unfold wakeup_core. apply wp_bind. unfold printThreadEvents.
  apply wp_modify. set (s0 := set_field printThreadEventCounters _ s).
  change (inv L None (Some p) (v_of s0)) in I. change (quiet (v_of s0) p) in Hqt.
  change (vget s0.(coreEvents) p = Ok None) in Hc. change (s0.(exit_requested) = false) in He.
  clearbody s0. apply wp_bind.
  eapply (createSubEvents_spec P rand accept POK); [exact I|by left|].
  intros s1 I1 [Hc1 Hch Hr1 Hs1 Htk1 He1 _ _]. cbn in He1.
  apply wp_bind, progressEvents_spec.
  - split; try done; [congruence| |].
    + destruct Hch as [->|(t & q & w & _ & _ & _ & Hw)]; [done|].
      by eapply (quiet_scheduled L None (Some p)).
    + destruct Hch as [Hv|(t & q & w & Ht & Hq & Hf & _)].
      * left. pose proof (f_equal vCores Hv) as Hcv. cbn in Hcv. by rewrite Hcv.
      * right. exists t, q. split_and!; try done.
  - intros s2 H2. apply swapStalledThreads_spec; [done|]. intros s3 H3.
    apply H; [by eapply handled_INV|apply H3].
Qed.

(** The response to the request of core [p] is in flight. *)
Definition awaiting (s : state) (p : Z) : Prop :=
  exists t q, head_of (v_of s) p t /\ vget s.(eventMap) t = Ok q /\ in_flight q = true.

Lemma record_rtt_spec t e rtt s Q :
  (forall s', v_of s' = v_of s -> Q tt s') -> safe (record_rtt t e rtt) Q s.
Proof using.
  intros H. unfold record_rtt. apply wp_bind.
  apply (wp_mono E _ (fun _ s' => v_of s' = v_of s)).
  { repeat case_match; [by apply wp_modify|by apply wp_modify|by apply wp_ret]. }
  intros [] s1 H1. apply wp_bind, wp_vupdate. intros l1.
  apply wp_bind, wp_vread. intros mx _. apply wp_bind, wp_when; intros _.
  - apply wp_vwrite. intros _. apply wp_vupdate. intros l2. by apply H.
  - apply wp_vupdate. intros l2. by apply H.
Qed.

Lemma hitCallback_spec p s Q :
  INV L (v_of s) -> s.(exit_requested) = false -> awaiting s p ->
  (forall s', INV L (v_of s') -> s'.(exit_requested) = false -> Q tt s') ->
  safe (hitCallback P cfg p) Q s.
Proof using POK.
  intros I He (t & q & Ht & Hq & Hf) H. unfold hitCallback.
  apply wp_bind, wp_gets. apply wp_bind, wp_assert; [intros _|done].
  apply wp_bind, wp_vread. intros row Hrow. apply wp_bind, rwp_wp, rwp_vfront. intros t' Hh.
  assert (t' = t) as -> by (eapply (head_of_unique (v_of s)); [by exists row|exact Ht]).
  pose proof (inv_queue _ _ _ _ I t q Hq) as Hqo.
  destruct (in_flight_created _ _ _ Hqo Hf) as [Hcr _].
  apply wp_bind. eapply wp_front_event; [exact I|apply created_front; by exists q|].
  intros q0 e es Hq0 Ha. assert (q0 = q) as -> by congruence. clear Hq0.
  assert (vget s.(coreEvents) p = Ok None) as Hc.
  { destruct (inv_flight _ _ _ _ I t q Hq Hf) as (p' & row' & Hrow' & Hh' & Hc').
    assert (p' = p) as -> by (eapply (inv_rows _ _ _ _ I); eauto using head_elem). done. }
  destruct (front_facts accept _ _ _ _ _ _ _ I Hq Ha) as [_ Hfo].
  pose proof Hcr as Hcr'. unfold created in Hcr'. rewrite (front_sat_cons _ _ _ _ Ha) in Hcr'.
  unfold front_ok in Hfo. rewrite Hcr' in Hfo. destruct Hfo as (d & Hd & Wd & _ & _).
  apply wp_bind, rwp_wp. unfold top_subEvent. rewrite Hd. cbn [deref mbind result_bind].
  assert (StaticDeque.abs d <> []) as Hsub.
  { unfold in_flight in Hf. rewrite (front_sat_cons _ _ _ _ Ha) in Hf.
    unfold event_in_flight in Hf. rewrite Hd in Hf. by destruct (StaticDeque.abs d). }
  apply rwp_front; [done..|]. intros top l Had. case_match; [by apply wp_ret, H|].
  apply wp_bind, (wp_getTime P POK). apply wp_bind, wp_vwrite. intros _.
  apply wp_bind, wp_vread. intros last _. apply wp_bind, record_rtt_spec. intros s1 Hv1.
  pose proof Hv1 as [= _ _ Hv3 Hv4 Hv5 _ _ Hv8].
  apply wp_bind. eapply (pop_front_subEvent_spec accept None p t); [by left|..].
  - rewrite Hv4. by exists q, e, es, d.
  - rewrite Hv1. apply (inv_handle L None None); [exact I|done].
  - by rewrite Hv1.
  - by rewrite Hv3.
  - by rewrite Hv8.
  - exists q. by rewrite Hv4.
  - intros s2 B2 _. apply (finish_subEvent_spec P cfg accept POK); [done|]. intros s3 H3.
    apply H; [by eapply handled_INV|apply H3].
Qed.

Lemma all_queues_empty_spec ts m x s (Q : bool -> state -> Prop) :
  inv L m x (v_of s) -> (forall b, Q b s) -> safe (all_queues_empty ts) Q s.
Proof using.
  intros I. revert Q. induction ts as [|t ts IH]; intros Q H; cbn [all_queues_empty];
    [by apply wp_ret|].
  apply wp_bind. eapply wp_queue_empty; [exact I|]. intros q _.
  split; intros _; [by apply IH|by apply wp_ret].
Qed.

Lemma checkCompletion_spec s Q :
  INV L (v_of s) ->
  (forall s', INV L (v_of s') -> s'.(startEvent) = s.(startEvent) ->
     s'.(curTick) = s.(curTick) -> Q tt s') ->
  safe (checkCompletion P) Q s.
Proof using.
  intros I H. unfold checkCompletion. apply wp_bind. eapply all_queues_empty_spec; [exact I|].
  intros b. apply wp_bind, wp_gets. apply wp_when; intros _; [|by apply H].
  apply wp_bind. apply (wp_mono E _ (fun _ s' => v_of s' = v_of s)).
  { apply (wp_for_each E _ _ (fun _ s' => v_of s' = v_of s)); [done|].
    intros _ i s1 _ H1. apply wp_bind, wp_vread. intros ? _. apply wp_bind, wp_vread.
    intros ? _. by apply wp_modify. }
  intros [] s1 H1. apply wp_bind.
  apply (wp_mono E _ (fun _ s' => exists fl, v_of s' = (v_of s) <| vFiles := fl |>)).
  { apply (wp_for_each E _ _ (fun _ s' => exists fl, v_of s' = (v_of s) <| vFiles := fl |>)).
    - exists s.(inputFilePointer). by rewrite H1.
    - intros _ i s2 _ (fl & H2). apply wp_vwrite. intros _.
      exists (<[Z.to_nat i := None]> s2.(inputFilePointer)).
      pose proof H2 as [= A1 A2 A3 A4 A5 A6 A7 A8]. unfold view_of. cbn. congruence. }
  intros [] s2 (fl & H2). apply wp_modify.
  pose proof H2 as [= A1 A2 A3 A4 A5 A6 A7 A8].
  apply H; cbn; try done. unfold view_of. cbn. rewrite A1, A2, A3, A4, A5, A6.
  destruct I. by split.
Qed.

Lemma wakeup_master_spec s Q :
  INV L (v_of s) -> s.(startEvent) = None -> s.(exit_requested) = false ->
  (forall s', INV L (v_of s') -> Q tt s') ->
  safe (wakeup_master P cfg rand) Q s.
Proof using POK.
  intros I Hst He H. unfold wakeup_master.
  set (J := fun s' : state => INV L (v_of s') /\ s'.(startEvent) = None /\
              s'.(exit_requested) = false /\ s'.(curTick) = s.(curTick)).
  assert (J s) as J0 by done.
  apply wp_bind. apply (wp_mono E _ (fun _ => J)).
  { apply (wp_for_each E _ _ (fun _ => J)); [done|]. intros _ i s1 _ (I1 & S1 & E1 & T1).
    eapply (replenish_spec cfg accept); [exact I1|done|]. intros s2 I2 (R1&R2&_&_&_&R6&_).
    cbn in *. split_and!; (done || congruence). }
  intros [] s1 J1. apply wp_bind. apply (wp_mono E _ (fun _ => J)).
  { unfold createAllSubEvents. apply wp_bind, wp_gets.
    apply (wp_for_each E _ _ (fun _ => J)); [done|]. intros _ i s2 _ (I2 & S2 & E2 & T2).
    eapply (createSubEvents_spec P rand accept POK); [exact I2|by left|].
    intros s3 I3 [_ _ _ _ R1 R2 R3 _]. cbn in *. split_and!; (done || congruence). }
  intros [] s2 (I2 & S2 & E2 & T2). apply wp_bind.
  apply checkCompletion_spec; [done|]. intros s3 I3 S3 T3.
  apply wp_bind, wp_gets. unfold schedule_start. apply wp_bind, wp_gets, wp_bind, wp_gets.
  pose proof (inv_tick _ _ _ _ I3) as Ht. cbn in Ht.
  pose proof (freq_ok _ POK) as Hfr.
  rewrite u64_small by (zwidth; lia).
  apply wp_bind, wp_assert; [intros _|intros ?; bool_to_Z; lia].
  apply wp_bind, wp_assert; [intros _|intros ?%bool_decide_eq_false; congruence].
  apply wp_modify, H. destruct I3. split; try done. cbn. intros w [= <-]. lia.
Qed.

End handlers.
End ReplayHandlers.
