(* ===== verification/ReplaySystem.v ===== *)
(** * The replay engine in the simulator

    [init] establishes the invariant; the simulator then advances time, fires
    the scheduled events and delivers responses.  [step] is that loop as a
    labelled transition system and [reachable] its reachable states; the
    theorems hold on all of them. *)

From S2P Require Import Prelude.
From S2P Require Import StaticDeque.
From S2P Require Import STEvent.
From S2P Require Import CString.
From S2P Require Import Requests.
From S2P Require Import TraceParser.
From S2P Require Import IntMath.
From S2P Require Import TriggerTime.
From S2P Require Import SubEvents.
From S2P Require Import TraceLines.
From S2P Require Import ReplayState.
From S2P Require Import Replay.
From S2P Require Import ReplayInv.
From S2P Require Import ReplaySafe.
From S2P Require Import ReplaySteps.
From S2P Require Import ReplayHandlers.
Import STEvent CString Requests TraceParser IntMath TriggerTime SubEvents TraceLines
  ReplayState Replay ReplayInv ReplaySafe ReplaySteps ReplayHandlers.

Module ReplaySystem.

Section system.
Context (P : Params) (cfg : RubyCfg) (rand : nat -> Z) (accept : nat -> bool).
Abbreviation L := (forall n, accept n = true).
Abbreviation v_of := view_of.
Abbreviation safe := (wp E).

(** ** The transition system *)
Inductive label := Tick (t : Z) | Master | Core (p : Z) | Response (p : Z).

(** The time never passes a scheduled event; an event is unscheduled before it
    is processed; a response comes for a request in flight. *)
Inductive step (s : state) : label -> result (unit * state) -> Prop :=
| step_tick t :
    s.(curTick) <= t < 2 ^ 53 ->
    (forall w, s.(startEvent) = Some w -> t <= w) ->
    (forall p w, vget s.(coreEvents) p = Ok (Some w) -> t <= w) ->
    step s (Tick t) (Ok (tt, s <| curTick := t |>))
| step_master :
    s.(startEvent) = Some s.(curTick) ->
    step s Master (wakeup_master P cfg rand (s <| startEvent := None |>))
| step_core p :
    vget s.(coreEvents) p = Ok (Some s.(curTick)) ->
    step s (Core p) (wakeup_core P cfg rand accept p
      (s <| coreEvents := <[Z.to_nat p := None]> s.(coreEvents) |>))
| step_response p :
    awaiting s p ->
    step s (Response p) (hitCallback P cfg p s).

Section runs.
Context (mem : ObjectMemory) (files : list (option (list str))).
Context (pthread_file : option (list str)).

(** The states of a run: after [init], and after any step that returned while
    the simulation was not over. *)
Inductive reachable : state -> Prop :=
| reach_init s :
    init P cfg files pthread_file (constructed mem) = Ok (tt, s) -> reachable s
| reach_step s l s' :
    reachable s -> s.(exit_requested) = false -> step s l (Ok (tt, s')) -> reachable s'.

(** ** [init] *)
Context (POK : params_ok P).

Record starting (s : state) : Prop := {
  st_tick : s.(curTick) = 0;
  st_start : s.(startEvent) = Some 1;
  st_exit : s.(exit_requested) = false;
  st_cores : forall p c, vget s.(coreEvents) p = Ok c -> c = None;
  st_queues : forall t q, vget s.(eventMap) t = Ok q ->
    StaticDeque.wf q /\ StaticDeque.abs q = []
}.

Definition rows_mapped (s : state) : Prop := forall p row t,
  vget s.(threadMap) p = Ok row -> t ∈ row -> t mod s.(num_of_mapped_processors) = p.

Definition files_open (s : state) : Prop :=
  forall i f, vget s.(inputFilePointer) i = Ok f -> is_Some f.

Lemma starting_INV s : starting s -> rows_mapped s -> files_open s -> INV L (v_of s).
Proof using.
  intros [Ht Hst He Hc Hq] Hr Hf.
  assert (forall f t q, vget s.(eventMap) t = Ok q -> front_sat f q = false) as Hno.
  { intros f t q H. by apply front_sat_nil, (Hq t). }
  split; cbn.
  - intros t q H. destruct (Hq t q H) as [W Ha]. split; [done|]. by rewrite Ha.
  - intros t q H _ Hcr. unfold created in Hcr. by rewrite (Hno _ t q H) in Hcr.
  - intros t q H Hfl. unfold in_flight in Hfl. by rewrite (Hno _ t q H) in Hfl.
  - intros p w H. by apply Hc in H.
  - intros w H. assert (w = 1) by congruence. lia.
  - intros p p' row row' t H1 H2 H3 H4. rewrite <- (Hr p row t), <- (Hr p' row' t); done.
  - intros _. exact Hf.
  - lia.
  - intros _ p row t q _ _ _ H Hcr. unfold created in Hcr. by rewrite (Hno _ t q H) in Hcr.
Qed.

Lemma vget_replicate {A} n (x a : A) i : vget (replicate n x) i = Ok a -> a = x.
Proof using. intros [_ [? _]%lookup_replicate]%vget_Ok. done. Qed.

Lemma vget_snoc {A} (l : list A) x i a : vget (l ++ [x]) i = Ok a -> vget l i = Ok a \/ a = x.
Proof using.
  intros [Hi H]%vget_Ok. apply lookup_app_Some in H as [H|[_ H]].
  - left. by apply vget_Ok.
  - right. apply list_lookup_singleton_Some in H as [_ ->]. done.
Qed.

Lemma allocate_queues_spec s Q :
  starting s -> s.(threadMap) = [] ->
  (forall s', starting s' -> s'.(threadMap) = [] ->
     s'.(num_of_mapped_processors) = s.(num_of_mapped_processors) -> Q tt s') ->
  safe (allocate_queues P) Q s.
Proof using.
  intros S Hr H. apply (wp_mono E _ (fun _ s' => starting s' /\ s'.(threadMap) = [] /\
    s'.(num_of_mapped_processors) = s.(num_of_mapped_processors)));
    [|intros [] s' (? & ? & ?); by apply H].
  apply (wp_for_each E _ _ (fun _ s' => starting s' /\ s'.(threadMap) = [] /\
    s'.(num_of_mapped_processors) = s.(num_of_mapped_processors))); [done|].
  intros _ _ s1 _ (S1 & Hr1 & Hn1). apply wp_bind, rwp_wp, rwp_make; [done|done|].
  intros q W Ha. apply wp_modify. split_and!; try done.
  destruct S1. split; try done. cbn. intros t q' [?| ->]%vget_snoc; [by eapply st_queues0|done].
Qed.

Lemma initSigil_spec s Q :
  starting s -> rows_mapped s ->
  (forall s', starting s' -> rows_mapped s' -> files_open s' ->
     s'.(num_of_mapped_processors) = s.(num_of_mapped_processors) -> Q tt s') ->
  safe (initSigilFilePointers P files) Q s.
Proof using.
  intros S Hr H. unfold initSigilFilePointers. apply wp_bind, wp_modify.
  set (K := fun (seen : list Z) (s' : state) => starting s' /\ rows_mapped s' /\
    s'.(num_of_mapped_processors) = s.(num_of_mapped_processors) /\
    length s'.(inputFilePointer) = Z.to_nat P.(num_threads) /\
    forall i, i ∈ seen -> exists ls, vget s'.(inputFilePointer) i = Ok (Some ls)).
  apply (wp_mono E _ (fun _ => K (upto P.(num_threads)))).
  - apply wp_for_each.
    + split_and!; cbn; try done; [by destruct S|by rewrite length_replicate|].
      by intros i ?%not_elem_of_nil.
    + intros seen i s1 Hi (S1 & Hr1 & Hn1 & Hl1 & Hs1). case_match; [|done].
      apply wp_vwrite. intros Hrng. split_and!; cbn; try done; [by destruct S1| |].
      * by rewrite length_insert.
      * intros j [Hj|Hj%list_elem_of_singleton]%elem_of_app.
        -- destruct (decide (i = j)) as [<-|Hne].
           ++ rewrite vget_insert_eq by done. by eexists.
           ++ rewrite vget_insert_ne by (done || lia). by apply Hs1.
        -- subst j. rewrite vget_insert_eq by done. by eexists.
  - intros [] s' (S' & Hr' & Hn' & Hl' & Hs'). apply H; try done.
    intros i f Hf. pose proof (vget_Ok_range _ _ _ Hf). rewrite Hl' in *.
    destruct (Hs' i) as [ls Hls]; [apply elem_of_upto; lia|].
    assert (f = Some ls) as -> by congruence. done.
Qed.

Lemma initialThreadMapping_spec s Q :
  starting s -> rows_mapped s -> files_open s ->
  (forall s', starting s' -> rows_mapped s' -> files_open s' -> Q tt s') ->
  safe (initialThreadMapping P) Q s.
Proof using.
  intros S Hr Hf H. apply (wp_mono E _ (fun _ s' => starting s' /\ rows_mapped s' /\
    files_open s')); [|intros [] s' (? & ? & ?); by apply H].
  apply (wp_for_each E _ _ (fun _ s' => starting s' /\ rows_mapped s' /\ files_open s'));
    [done|].
  intros _ i s1 _ (S1 & Hr1 & Hf1). apply wp_bind, wp_gets.
  apply wp_bind, rwp_wp. unfold umod. case_match; [done|]. cbn [rwp].
  unfold vupdate. apply wp_bind, wp_vread. intros row Hrow. apply wp_vwrite. intros Hrng.
  split_and!; [by destruct S1| |done]. intros p row' t Hrow' Ht. cbn in Hrow' |- *.
  destruct (decide (i mod s1.(num_of_mapped_processors) = p)) as [<-|Hne].
  - rewrite vget_insert_eq in Hrow' by done. simplify_eq.
    apply elem_of_app in Ht as [Ht|Ht%list_elem_of_singleton]; [by eapply Hr1|by subst].
  - rewrite vget_insert_ne in Hrow' by (done || lia). by eapply Hr1.
Qed.

Lemma generate_spec s Q :
  INV L (v_of s) -> s.(exit_requested) = false ->
  (forall s', INV L (v_of s') -> s'.(exit_requested) = false -> Q tt s') ->
  safe (generateEventQueue P cfg) Q s.
Proof using.
  intros I He H. apply (wp_mono E _ (fun _ s' => INV L (v_of s') /\
    s'.(exit_requested) = false)); [|intros [] s' [? ?]; by apply H].
  apply (wp_for_each E _ _ (fun _ s' => INV L (v_of s') /\ s'.(exit_requested) = false));
    [done|].
  intros _ i s1 _ (I1 & E1). unfold readEventFile.
  eapply (read_lines_spec cfg accept); [exact I1|done|].
  intros s2 I2 (_&_&_&_&_&R6&_). cbn in R6. split; [done|congruence].
Qed.

Lemma rwp_floorLog2_int n : rwp E (floorLog2_int n) (fun _ => True).
Proof using.
  unfold floorLog2_int, floorLog2_32. repeat case_match; done.
Qed.

Lemma init_spec Q :
  mem.(held_count) <= 0 ->
  (forall s, INV L (v_of s) -> s.(exit_requested) = false -> Q tt s) ->
  safe (init P cfg files pthread_file) Q (constructed mem).
Proof using.
  intros Hg H. unfold init. apply wp_bind. unfold schedule_start.
  apply wp_bind, wp_gets, wp_bind, wp_gets, wp_bind, wp_assert; [intros _|done].
  apply wp_bind, wp_assert; [intros _|done]. apply wp_modify.
  set (s0 := set_field startEvent _ _).
  assert (starting s0) as S0 by (split; try done; intros ? ? [_ ?]%vget_Ok; done).
  assert (s0.(threadMap) = []) as Hr0 by done.
  assert (s0.(num_of_mapped_processors) <= 0) as Hn0 by done. clearbody s0.
  apply wp_bind, wp_gets.
  assert (upto s0.(num_of_mapped_processors) = []) as ->
    by (unfold upto; by replace (Z.to_nat _) with O by lia).
  apply wp_bind. cbn [for_each]. apply wp_ret.
  apply wp_bind, wp_assert; [intros _|done].
  apply wp_bind, rwp_wp. eapply rwp_mono; [apply rwp_floorLog2_int|]. intros fb _.
  apply wp_bind, wp_assert; [intros _|done].
  apply wp_bind, rwp_wp. eapply rwp_mono; [apply rwp_floorLog2_int|]. intros cb _.
  apply wp_bind, wp_assert; [intros _|done].
  apply wp_bind, rwp_wp. eapply rwp_mono; [apply rwp_udiv_any|]. intros _ _.
  apply wp_bind, wp_assert; [intros _|done]. cbv zeta. set (mapped := if P.(num_threads) <? P.(num_cpus) then _ else _).
  apply wp_bind, wp_modify. apply wp_bind, wp_when; intros _; [done|].
  apply wp_bind, wp_modify. apply wp_bind, allocate_queues_spec; [by destruct S0|done|].
  intros s1 S1 Hr1 Hn1. cbn in Hn1. apply wp_bind, wp_modify.
  apply wp_bind, wp_vwrite. intros _. apply wp_bind, wp_modify.
  apply wp_bind. unfold initStats. apply wp_modify.
  apply wp_bind, initSigil_spec.
  { destruct S1. split; try done. cbn. intros p c Hc.
    apply vget_Ok in Hc as [Hp Hc]. apply lookup_app_Some in Hc as [Hc|[_ Hc]].
    - eapply (st_cores0 p). apply vget_Ok. done.
    - by apply lookup_replicate in Hc as [-> _]. }
  { intros p row t Hrow Ht. cbn in Hrow. apply vget_replicate in Hrow. subst.
    by apply not_elem_of_nil in Ht. }
  intros s2 S2 Hr2 Hf2 Hn2. apply wp_bind.
  apply (wp_mono E _ (fun _ s3 => exists pm, s3 = s2 <| pthreadMaps := pm |>)).
  { destruct pthread_file as [ls|]; [|done].
    pose proof (wp_processPthreadFile ls s2.(pthreadMaps)) as Hw.
    unfold wp, on_pthreadMaps in *.
    destruct (processPthreadFile ls s2.(pthreadMaps)) as [[[] pm]|e]; [by exists pm|done]. }
  intros [] s3 [pm ->]. apply wp_bind, initialThreadMapping_spec;
    [by destruct S2|done|done|].
  intros s4 S4 Hr4 Hf4. apply generate_spec; [by apply starting_INV|apply S4|]. done.
Qed.

(** ** Every step keeps the invariant *)
Lemma step_spec s l r :
  INV L (v_of s) -> s.(exit_requested) = false -> step s l r ->
  rwp E r (fun us => INV L (v_of us.2)).
Proof using POK.
  intros I He Hstep.
  assert (forall (m : M state unit) s0,
    safe m (fun _ s' => INV L (v_of s')) s0 -> rwp E (m s0) (fun us => INV L (v_of us.2)))
    as Hrun.
  { intros m s0. unfold wp, rwp. destruct (m s0) as [[[] s']|e]; done. }
  destruct Hstep as [t Ht Hst Hc|Hst|p Hc|p Haw].
  - cbn. destruct I. split; try done; cbn in *; lia.
  - apply Hrun. eapply (wakeup_master_spec P cfg rand accept POK); try done.
    destruct I. by split.
  - apply Hrun. destruct (inv_fire accept p s.(curTick) s I Hc) as (I' & Hq & Hc').
    by apply (wakeup_core_spec P cfg rand accept POK).
  - apply Hrun. by apply (hitCallback_spec P cfg accept POK).
Qed.

Lemma reachable_INV s : mem.(held_count) <= 0 -> reachable s -> INV L (v_of s).
Proof using POK.
  intros Hg. induction 1 as [s Hinit|s l s' _ IH He Hstep].
  - assert (safe (init P cfg files pthread_file) (fun _ s' => INV L (v_of s'))
      (constructed mem)) as Hi by (by apply init_spec).
    exact (wp_run E _ _ _ _ _ Hi Hinit).
  - by pose proof (step_spec s l _ IH He Hstep).
Qed.

End runs.
End system.

(** ** The theorems *)

(** C2: the engine's invariant holds in every reachable state, whatever the
    traces contain and however the ports and the memory respond. *)
Theorem reachable_invariant P cfg rand accept mem files pthread_file s :
  params_ok P -> mem.(held_count) <= 0 ->
  reachable P cfg rand accept mem files pthread_file s ->
  INV (forall n, accept n = true) (view_of s).
Proof. intros POK Hg Hr. by eapply reachable_INV. Qed.

(** C6: no core is forgotten: when the ports take every request, a core whose
    head thread's event has been split is scheduled, now or later, or waits for
    the response to a request in flight, never both. *)
Theorem no_core_forgotten P cfg rand accept mem files pthread_file s p t q :
  params_ok P -> mem.(held_count) <= 0 -> (forall n, accept n = true) ->
  reachable P cfg rand accept mem files pthread_file s ->
  head_of (view_of s) p t -> vget s.(eventMap) t = Ok q -> created q = true ->
  0 <= p < Z.of_nat (length s.(coreEvents)) ->
  (exists w, vget s.(coreEvents) p = Ok (Some w) /\ s.(curTick) <= w /\ in_flight q = false) \/
  (vget s.(coreEvents) p = Ok None /\ in_flight q = true).
Proof.
  intros POK Hg HL Hr Ht Hq Hcr Hp.
  pose proof (reachable_INV P cfg rand accept _ _ _ POK s Hg Hr) as I.
  destruct (vget_in_range s.(coreEvents) p Hp) as [[w|] Hc].
  - left. exists w. split; [done|]. split; [by apply (inv_future _ _ _ _ I p)|].
    destruct Ht as (row & Hrow & Hh).
    by eapply (quiet_scheduled _ _ _ _ I p w Hc row t); eauto using head_elem.
  - right. split; [done|]. destruct Ht as (row & Hrow & Hh).
    by eapply (inv_live _ _ _ _ I HL p row t q).
Qed.

(** A request in flight belongs to the head thread of a core that is not
    scheduled, so its response finds the core idle and may schedule it. *)
Theorem response_finds_idle_core P cfg rand accept mem files pthread_file s t q :
  params_ok P -> mem.(held_count) <= 0 ->
  reachable P cfg rand accept mem files pthread_file s ->
  vget s.(eventMap) t = Ok q -> in_flight q = true ->
  exists p, head_of (view_of s) p t /\ vget s.(coreEvents) p = Ok None /\
    forall p', head_of (view_of s) p' t -> p' = p.
Proof.
  intros POK Hg Hr Hq Hf.
  pose proof (reachable_INV P cfg rand accept _ _ _ POK s Hg Hr) as I.
  destruct (inv_flight _ _ _ _ I t q Hq Hf) as (p & row & Hrow & Hh & Hc).
  exists p. split; [by exists row|]. split; [done|]. intros p' (row' & Hrow' & Hh').
  eapply (inv_rows _ _ _ _ I); eauto using head_elem.
Qed.

(** C27: [init] schedules the core events with a count it has not computed yet:
    when the memory of the object holds a positive value there, it runs off
    the empty vector. *)
Theorem init_reads_unset_count P cfg mem files pthread_file :
  0 < mem.(held_count) ->
  init P cfg files pthread_file (constructed mem) = Err (UB "index").
Proof.
  intros Hg. unfold init. unfold mbind at 1, M_bind at 1.
  change (schedule_start 1 (constructed mem))
    with (Ok (tt, (constructed mem) <| startEvent := Some 1 |>)).
  cbv iota beta. unfold mbind at 1, M_bind at 1. unfold gets at 1.
  assert (exists l, upto mem.(held_count) = 0 :: l) as [l Hl].
  { unfold upto. destruct (Z.to_nat mem.(held_count)) as [|n] eqn:En; [lia|]. cbn.
    by eexists. }
  cbn [num_of_mapped_processors constructed set_field]. rewrite Hl. reflexivity.
Qed.

End ReplaySystem.
