(* ===== verification/ReplayFailures.v ===== *)
(** * The failures that are left to the replay

    [ReplaySystem] shows that no step fails by the engine's own fault, whatever
    the traces contain.  This file shows what else cannot fail when the input
    is in order ([good_input]): every line of a trace is an event of the
    file's thread, the threads it names exist, its pthread calls are among
    those the engine handles, and there is a port for every core.  Then every
    index into the engine's vectors is in range, every event can be split, no
    queue overflows and every loop ends; what remains is the unlocking of a
    lock that nobody holds and a trigger time that does not fit in 63 bits.

    [tot m F] says that from a state of the right shape, [m] returns a value
    that satisfies [F] in a state of the right shape, or fails in one of the
    ways that [replay_failure] allows. *)

From S2P Require Import Prelude.
From S2P Require Import StaticDeque.
From S2P Require Import STEvent.
From S2P Require Import CString.
From S2P Require Import Requests.
From S2P Require Import TraceParser.
From S2P Require Import TriggerTime.
From S2P Require Import IntMath.
From S2P Require Import SubEvents.
From S2P Require Import TraceLines.
From S2P Require Import ReplayState.
From S2P Require Import Replay.
From S2P Require Import ReplayInv.
From S2P Require Import ReplaySafe.
From S2P Require Import ReplaySteps.
From S2P Require Import ReplayHandlers.
From S2P Require Import ReplaySystem.
Import STEvent CString Requests TraceParser TriggerTime IntMath SubEvents TraceLines
  ReplayState Replay ReplayInv ReplaySafe ReplaySteps ReplayHandlers ReplaySystem.
From Stdlib Require Import Floats.SpecFloat.

Module ReplayFailures.

Definition MUTEX_UNLOCK : string := "mutexIttr != mutexLocks.end()".
Definition SPIN_UNLOCK : string := "spinIttr != spinLocks.end()".

(** The failures of a replay whose input is in order. *)
Definition replay_failure (e : error) : Prop :=
  e ∈ [AssertFail MUTEX_UNLOCK; AssertFail SPIN_UNLOCK; UB "conversion out of range"].

Section failures.
Context (P : Params) (cfg : RubyCfg) (rand : nat -> Z) (accept : nat -> bool).

(** ** Inputs that are in order *)
Definition thread (t : Z) : Prop := 0 <= t < P.(num_threads).
Definition cores : Z := if P.(num_threads) <? P.(num_cpus) then P.(num_threads) else P.(num_cpus).
Definition core (p : Z) : Prop := 0 <= p < cores.

Definition known_producer (d : sharedInfo) : Prop :=
  d.(prodThreadID) = OS_THREAD \/ thread d.(prodThreadID).

(** The calls [progressPthreadEvent] has a case for. *)
Definition handled_calls : list Z :=
  [P_MUTEX_LK; P_MUTEX_ULK; P_CREATE; P_JOIN; P_BARRIER_WT; P_COND_WT; P_COND_SG;
   P_SPIN_LK; P_SPIN_ULK].

Definition good_sub (s : subEvent) : Prop := forall m, s.(thisMsg) = Some m -> known_producer m.

(** The requests of an event; those of a computation name thread 0. *)
Definition requests_of (e : ST_Event) : list sharedInfo :=
  e.(comm_preRequisiteEvents) ++ e.(comp_readEvents) ++ e.(comp_writeEvents).

Record good_event (t : Z) (e : ST_Event) : Prop := {
  ge_thread : e.(ThreadID) = t;
  ge_type : e.(Type_) ∈ [TYPE_COMPUTATION; TYPE_COMMUNICATION; TYPE_PTHREAD_API];
  ge_split : can_split e;
  ge_deps : Forall known_producer (requests_of e);
  ge_call : e.(Type_) = TYPE_PTHREAD_API -> e.(PthreadType) ∈ handled_calls;
  ge_subs : forall d, e.(subEventList) = Some d ->
    StaticDeque.wf d /\ Forall good_sub (StaticDeque.abs d)
}.

Definition good_line (t : Z) (l : str) : Prop := exists e, event_line cfg l e /\ good_event t e.

Record good_maps (pm : PthreadMaps) : Prop := {
  gm_ids : forall a t, pm.(AddresstoIdMap) !! a = Some t -> thread t;
  gm_barriers : forall a b, pm.(BarrierMap) !! a = Some b -> set_Forall thread b
}.

Record good_input (files : list (option (list str))) (pthread_file : option (list str)) : Prop := {
  gi_threads : 0 < P.(num_threads);
  gi_cpus : 0 < P.(num_cpus);
  gi_ports : cores <= P.(port_count);
  gi_rand : forall k, 0 <= rand k < 2 ^ 31;
  gi_files : forall i ls, files !! i = Some (Some ls) -> Forall (good_line (Z.of_nat i)) ls;
  gi_pthreads : forall ls pm, pthread_file = Some ls ->
    processPthreadFile ls (mkPthreadMaps ∅ ∅ ∅) = Ok (tt, pm) -> good_maps pm
}.

Context (files : list (option (list str))) (pthread_file : option (list str)).
Context (GI : good_input files pthread_file).

(** ** The shape of the state *)
Definition QUEUE_SIZE : Z := READ_BLOCK + MIN_EVENTS_SIZE.

Definition good_queue (t : Z) (q : StaticDeque.t ST_Event) : Prop :=
  StaticDeque.wf q /\ q.(StaticDeque.length_) = QUEUE_SIZE /\
  Forall (good_event t) (StaticDeque.abs q).

Definition per_thread (s : state) : list nat :=
  [length s.(eventMap); length s.(threadStatistics); length s.(curEventListPos);
   length s.(threadStartedMap); length s.(threadMutexMap); length s.(threadContMap);
   length s.(lastMsgTriggerTime); length s.(roundTripTime); length s.(maxRTT);
   length s.(inputFilePointer); length s.(thread_cycles_per_event)].

Definition per_core (s : state) : list nat :=
  [length s.(coreEvents); length s.(threadMap); length s.(m_last_progress_vector)].

Record sound (s : state) : Prop := {
  so_threads : Forall (eq (Z.to_nat P.(num_threads))) (per_thread s);
  so_cores : Forall (eq (Z.to_nat cores)) (per_core s);
  so_count : s.(num_of_mapped_processors) = cores;
  so_row : forall p row, vget s.(threadMap) p = Ok row -> row <> [] /\ Forall thread row;
  so_queue : forall t q, vget s.(eventMap) t = Ok q -> good_queue t q;
  so_lines : forall t ls, vget s.(inputFilePointer) t = Ok (Some ls) -> Forall (good_line t) ls;
  so_maps : good_maps s.(pthreadMaps)
}.

(** ** Runs from states of the right shape *)
Definition allowed (e : error) : Prop := internal_error e = true \/ replay_failure e.

Definition tot {A} (m : M state A) (F : A -> Prop) : Prop :=
  forall s, sound s -> wp allowed m (fun a s' => F a /\ sound s') s.

Lemma tot_bind {A B} (m : M state A) (f : A -> M state B) F G :
  tot m F -> (forall a, F a -> tot (f a) G) -> tot (m ≫= f) G.
Proof using.
  intros Hm Hf s S. apply wp_bind. eapply wp_mono; [by apply Hm|]. intros a s' [Ha S']. by apply Hf.
Qed.

Lemma tot_mono {A} (m : M state A) (F G : A -> Prop) :
  tot m F -> (forall a, F a -> G a) -> tot m G.
Proof using. intros Hm H s S. eapply wp_mono; [by apply Hm|]. naive_solver. Qed.

Lemma tot_ret {A} (a : A) (F : A -> Prop) : F a -> tot (mret a) F.
Proof using. intros H s S. by apply wp_ret. Qed.

Lemma tot_get : tot get sound.
Proof using. intros s S. by apply wp_get. Qed.

Lemma tot_gets {A} (f : state -> A) (F : A -> Prop) :
  (forall s, sound s -> F (f s)) -> tot (gets f) F.
Proof using. intros H s S. apply wp_gets. by split; [apply H|]. Qed.

Lemma tot_modify f (F : unit -> Prop) : F tt -> (forall s, sound s -> sound (f s)) -> tot (modify f) F.
Proof using. intros HF H s S. apply wp_modify. by split; [|apply H]. Qed.

Lemma tot_lift {A} (r : result A) F : rwp allowed r F -> tot (lift r) F.
Proof using. intros H s S. apply rwp_wp. eapply rwp_mono; [exact H|]. done. Qed.

Lemma tot_when b (m : M state unit) : (b = true -> tot m (fun _ => True)) -> tot (when b m) (fun _ => True).
Proof using. intros H s S. apply wp_when; intros Hb; [by apply H|done]. Qed.

Lemma tot_assert b site (F : unit -> Prop) :
  F tt -> b = true \/ allowed (AssertFail site) -> tot (assert_ b site) F.
Proof using.
  intros HF H s S. apply wp_assert; [done|]. intros ->. by destruct H.
Qed.

Lemma tot_for_each {A} (l : list A) body :
  (forall a, a ∈ l -> tot (body a) (fun _ => True)) -> tot (for_each l body) (fun _ => True).
Proof using.
  intros H s S. eapply wp_mono.
  - apply (wp_for_each _ l body (fun _ => sound)); [done|]. intros _ a s' Ha S'.
    eapply wp_mono; [by apply H|]. by intros [] ? [_ ?].
  - done.
Qed.

(** ** The vectors *)
Class Vector {A} (proj : state -> list A) (n : Z) : Prop :=
  vector_size : forall s, sound s -> length (proj s) = Z.to_nat n.

(** Vectors of which the engine's shape knows the length only. *)
Class Plain {A} (proj : state -> list A) `{!Setter proj} : Prop :=
  plain_set : forall s l, sound s -> length l = length (proj s) -> sound (set_field proj (fun _ => l) s).

Lemma tot_vread {A} (proj : state -> list A) n `{!Vector proj n} i (F : A -> Prop) :
  0 <= i < n -> (forall s a, sound s -> vget (proj s) i = Ok a -> F a) -> tot (vread proj i) F.
Proof using.
  intros Hi H s S. unfold vread. apply wp_bind, wp_get, rwp_wp.
  destruct (vget_in_range (proj s) i) as [a Ha]; [rewrite (vector_size s S); lia|].
  rewrite Ha. cbn. split; [by eapply H|done].
Qed.

Lemma tot_vwrite {A} (proj : state -> list A) n `{!Vector proj n, !Setter proj, !Plain proj} i a :
  0 <= i < n -> tot (vwrite proj i a) (fun _ => True).
Proof using.
  intros Hi s S. unfold vwrite. apply wp_bind, wp_get, wp_bind, rwp_wp.
  rewrite vset_in_range by (rewrite (vector_size s S); lia). apply wp_modify. split; [done|].
  apply plain_set; [done|]. apply length_insert.
Qed.

Lemma tot_vupdate {A} (proj : state -> list A) n `{!Vector proj n, !Setter proj, !Plain proj} i f :
  0 <= i < n -> tot (vupdate proj i f) (fun _ => True).
Proof using.
  intros Hi. eapply tot_bind; [by apply (tot_vread proj n i (fun _ => True))|].
  intros a _. by eapply tot_vwrite.
Qed.

Ltac sizes :=
  repeat match goal with
  | H : Forall _ (_ :: _) |- _ => apply Forall_cons in H as [??]
  end.

Ltac vector := intros s S; destruct S as [Ht Hc _ _ _ _ _]; unfold per_thread, per_core in *; sizes; done.

Abbreviation nt := P.(num_threads).

#[local] Instance events_vector : Vector eventMap nt.
Proof using. vector. Qed.
#[local] Instance stats_vector : Vector threadStatistics nt.
Proof using. vector. Qed.
#[local] Instance pos_vector : Vector curEventListPos nt.
Proof using. vector. Qed.
#[local] Instance started_vector : Vector threadStartedMap nt.
Proof using. vector. Qed.
#[local] Instance mutex_vector : Vector threadMutexMap nt.
Proof using. vector. Qed.
#[local] Instance cont_vector : Vector threadContMap nt.
Proof using. vector. Qed.
#[local] Instance last_vector : Vector lastMsgTriggerTime nt.
Proof using. vector. Qed.
#[local] Instance rtt_vector : Vector roundTripTime nt.
Proof using. vector. Qed.
#[local] Instance max_vector : Vector maxRTT nt.
Proof using. vector. Qed.
#[local] Instance files_vector : Vector inputFilePointer nt.
Proof using. vector. Qed.
#[local] Instance cycles_vector : Vector thread_cycles_per_event nt.
Proof using. vector. Qed.
#[local] Instance cores_vector : Vector coreEvents cores.
Proof using. vector. Qed.
#[local] Instance rows_vector : Vector threadMap cores.
Proof using. vector. Qed.
#[local] Instance progress_vector : Vector m_last_progress_vector cores.
Proof using. vector. Qed.

Ltac plain :=
  intros s l S Hl; destruct S as [Ht Hc]; split; try done; unfold per_thread, per_core in *;
  cbn; rewrite ?Hl; done.

#[local] Instance stats_plain : Plain threadStatistics.
Proof using. plain. Qed.
#[local] Instance started_plain : Plain threadStartedMap.
Proof using. plain. Qed.
#[local] Instance mutex_plain : Plain threadMutexMap.
Proof using. plain. Qed.
#[local] Instance cont_plain : Plain threadContMap.
Proof using. plain. Qed.
#[local] Instance last_plain : Plain lastMsgTriggerTime.
Proof using. plain. Qed.
#[local] Instance rtt_plain : Plain roundTripTime.
Proof using. plain. Qed.
#[local] Instance max_plain : Plain maxRTT.
Proof using. plain. Qed.
#[local] Instance cycles_plain : Plain thread_cycles_per_event.
Proof using. plain. Qed.
#[local] Instance cores_plain : Plain coreEvents.
Proof using. plain. Qed.
#[local] Instance progress_plain : Plain m_last_progress_vector.
Proof using. plain. Qed.

(** ** Deques *)
Ltac internal := left; reflexivity.

Lemma rwp_front_all {T} (R : T -> Prop) (d : StaticDeque.t T) :
  StaticDeque.wf d -> Forall R (StaticDeque.abs d) -> rwp allowed (StaticDeque.front d) R.
Proof using.
  intros W HR. rewrite StaticDeque.front_spec by done.
  destruct HR; cbn; [internal|done].
Qed.

Lemma rwp_set_front_all {T} (R : T -> Prop) (d : StaticDeque.t T) x :
  StaticDeque.wf d -> Forall R (StaticDeque.abs d) -> R x ->
  rwp allowed (StaticDeque.set_front d x) (fun d' => StaticDeque.wf d' /\
    d'.(StaticDeque.length_) = d.(StaticDeque.length_) /\ Forall R (StaticDeque.abs d')).
Proof using.
  intros W HR Hx. pose proof (StaticDeque.set_front_spec d x W) as Hs.
  destruct HR as [|y l _ Hl]; [rewrite Hs; cbn; internal|].
  destruct Hs as (d' & -> & W' & Ha & Hn). cbn. rewrite Ha. auto.
Qed.

Lemma rwp_pop_front_all {T} (R : T -> Prop) (d : StaticDeque.t T) :
  StaticDeque.wf d -> Forall R (StaticDeque.abs d) ->
  rwp allowed (StaticDeque.pop_front d) (fun xd => StaticDeque.wf xd.2 /\
    xd.2.(StaticDeque.length_) = d.(StaticDeque.length_) /\ Forall R (StaticDeque.abs xd.2)).
Proof using.
  intros W HR. pose proof (StaticDeque.pop_front_spec d W) as Hs.
  destruct HR as [|y l _ Hl]; [rewrite Hs; cbn; internal|].
  destruct Hs as (d' & -> & W' & Ha & Hn). cbn. rewrite Ha. auto.
Qed.

Lemma rwp_deref {T} (o : option T) : rwp allowed (deref o) (fun x => o = Some x).
Proof using. destruct o; cbn; [done|internal]. Qed.

Lemma rwp_read {T} (o : option T) : rwp allowed (read o) (fun x => o = Some x).
Proof using. destruct o; cbn; [done|internal]. Qed.

(** ** The queues *)
Lemma sound_set_queue s t q' :
  sound s -> thread t -> good_queue t q' ->
  sound (s <| eventMap := <[Z.to_nat t := q']> s.(eventMap) |>).
Proof using.
  intros S Ht Hq. pose proof (vector_size (proj := eventMap) s S) as Hlen. unfold thread in Ht.
  destruct S as [St Sc Sn Sr Sq]. split; try done; unfold per_thread in *; cbn.
  - by rewrite length_insert.
  - intros t' q0 H. destruct (decide (t = t')) as [<-|Hne].
    + rewrite vget_insert_eq in H by lia. by injection H as <-.
    + rewrite vget_insert_ne in H by (done || lia). by apply Sq.
Qed.

Lemma tot_vread_queue t : thread t -> tot (vread eventMap t) (good_queue t).
Proof using.
  intros Ht. eapply (tot_vread eventMap nt); [exact Ht|]. intros s q S Hq. by apply (so_queue s S).
Qed.

Lemma tot_vwrite_queue t q : thread t -> good_queue t q -> tot (vwrite eventMap t q) (fun _ => True).
Proof using.
  intros Ht Hq s S. unfold vwrite. apply wp_bind, wp_get, wp_bind, rwp_wp.
  rewrite vset_in_range by (rewrite (vector_size s S); unfold thread in Ht; lia).
  apply wp_modify. split; [done|]. by apply sound_set_queue.
Qed.

Lemma tot_queue_empty t : thread t -> tot (queue_empty t) (fun _ => True).
Proof using. intros Ht. eapply tot_bind; [by apply tot_vread_queue|]. intros q _. by apply tot_ret. Qed.

Lemma tot_front_event t : thread t -> tot (front_event t) (good_event t).
Proof using.
  intros Ht. eapply tot_bind; [by apply tot_vread_queue|]. intros q (W & _ & Hq).
  by apply tot_lift, rwp_front_all.
Qed.

Lemma tot_set_front_event t e : thread t -> good_event t e -> tot (set_front_event t e) (fun _ => True).
Proof using.
  intros Ht He. eapply tot_bind; [by apply tot_vread_queue|]. intros q (W & Hn & Hq).
  eapply tot_bind; [by apply tot_lift, (rwp_set_front_all (good_event t))|].
  intros q' (W' & Hn' & Hq'). apply tot_vwrite_queue; [done|]. split_and!; [done|congruence|done].
Qed.

Lemma tot_pop_event t : thread t -> tot (pop_event t) (fun _ => True).
Proof using.
  intros Ht. eapply tot_bind; [by apply tot_vread_queue|]. intros q (W & Hn & Hq).
  eapply tot_bind; [by apply tot_lift, (rwp_pop_front_all (good_event t))|].
  intros q' (W' & Hn' & Hq'). apply tot_vwrite_queue; [done|]. split_and!; [done|congruence|done].
Qed.

(** ** Sub-events *)
Lemma can_split_subs e d b :
  can_split e -> can_split (e <| subEventList := d |> <| subEventsCreated := b |>).
Proof using. unfold can_split. cbn. repeat case_match; try done. intros []. by split. Qed.

Lemma good_event_subs t e d b :
  good_event t e -> StaticDeque.wf d -> Forall good_sub (StaticDeque.abs d) ->
  good_event t (e <| subEventList := Some d |> <| subEventsCreated := b |>).
Proof using.
  intros [] W Hd. split; try done; [by apply can_split_subs|]. cbn. intros d' [= <-]. done.
Qed.

Lemma good_event_set t e d :
  good_event t e -> StaticDeque.wf d -> Forall good_sub (StaticDeque.abs d) ->
  good_event t (e <| subEventList := Some d |>).
Proof using. apply (good_event_subs t e d e.(subEventsCreated)). Qed.

Lemma rwp_subs t e :
  good_event t e -> rwp allowed (deref e.(subEventList)) (fun d => StaticDeque.wf d /\
    Forall good_sub (StaticDeque.abs d)).
Proof using. intros He. eapply rwp_mono; [apply rwp_deref|]. intros d Hd. by apply (ge_subs t e). Qed.

Lemma rwp_top_subEvent t e :
  good_event t e -> rwp allowed (top_subEvent e) good_sub.
Proof using.
  intros He. apply rwp_bind. eapply rwp_mono; [by eapply rwp_subs|].
  intros d [W Hd]. by apply rwp_front_all.
Qed.

Lemma rwp_set_top_subEvent t e top :
  good_event t e -> good_sub top -> rwp allowed (set_top_subEvent e top) (good_event t).
Proof using.
  intros He Ht. apply rwp_bind. eapply rwp_mono; [by eapply rwp_subs|]. intros d [W Hd].
  apply rwp_bind. eapply rwp_mono; [by apply (rwp_set_front_all good_sub)|].
  intros d' (W' & _ & Hd'). by apply good_event_set.
Qed.

Lemma rwp_pop_subEvent t e : good_event t e -> rwp allowed (pop_subEvent e) (good_event t).
Proof using.
  intros He. apply rwp_bind. eapply rwp_mono; [by eapply rwp_subs|]. intros d [W Hd].
  apply rwp_bind. eapply rwp_mono; [by apply (rwp_pop_front_all good_sub)|].
  intros d' (W' & _ & Hd'). by apply good_event_set.
Qed.

Lemma rwp_subEvents_empty t e : good_event t e -> rwp allowed (subEvents_empty e) (fun _ => True).
Proof using. intros He. apply rwp_bind. eapply rwp_mono; [by eapply rwp_subs|]. done. Qed.

Lemma elem_of_cyclic (evs : list sharedInfo) i n m : m ∈ cyclic evs i n -> m ∈ evs.
Proof using. unfold cyclic. intros (j & _ & Hj)%list_elem_of_omap. by eapply list_elem_of_lookup_2. Qed.

Lemma elem_of_msgs ty l s m : s ∈ l -> s.(msgType) = Some ty -> s.(thisMsg) = Some m -> m ∈ msgs ty l.
Proof using. intros Hs Ht Hm. apply list_elem_of_omap. exists s. by rewrite decide_True. Qed.

Lemma elem_of_interleaved ty a b : ty ∈ interleaved a b -> ty = DT_REQ_READ \/ ty = DT_REQ_WRITE.
Proof using.
  unfold interleaved. rewrite !elem_of_app, list_elem_of_join.
  intros [(l & Hty & [-> _]%elem_of_replicate)|[[-> _]%elem_of_replicate|[-> _]%elem_of_replicate]]; [|by auto..].
  apply list_elem_of_In in Hty. destruct Hty as [<-|[<-|[]]]; [by right|by left].
Qed.

(** The message of a sub-event is a request of the event. *)
Lemma split_requests e l s m :
  split_of e l -> s ∈ l -> s.(thisMsg) = Some m -> m ∈ requests_of e.
Proof using.
  unfold split_of, requests_of. intros Hsp Hs Hm. rewrite !elem_of_app. case_match.
  { subst l. apply list_elem_of_singleton in Hs as ->. done. }
  case_match.
  { subst l. apply list_elem_of_fmap in Hs as (m' & -> & H'). cbn in Hm. injection Hm as <-. by left. }
  case_decide.
  { subst l. apply list_elem_of_singleton in Hs as ->. done. }
  destruct Hsp as (Ht & Hr & Hw & _). right.
  assert (s.(msgType) = Some DT_REQ_READ \/ s.(msgType) = Some DT_REQ_WRITE) as Hty.
  { apply (list_elem_of_fmap_2 msgType) in Hs. rewrite Ht in Hs.
    apply list_elem_of_fmap in Hs as (ty & -> & [-> | ->]%elem_of_interleaved); auto. }
  destruct Hty as [Hty|Hty]; pose proof (elem_of_msgs _ l s m Hs Hty Hm) as Hin;
    rewrite ?Hr, ?Hw in Hin; apply elem_of_cyclic in Hin; auto.
Qed.

(** Splitting succeeds, and its messages name known producers. *)
Lemma rwp_split t e k :
  good_event t e -> rwp allowed (subEvents_of rand e k) (fun dk => StaticDeque.wf dk.1 /\
    Forall good_sub (StaticDeque.abs dk.1)).
Proof using GI.
  intros He. pose proof (ge_split t e He) as Hs.
  destruct (split_total rand e k (gi_rand _ _ GI) Hs) as (d & k' & -> & W & Hsp). cbn. split; [done|].
  apply Forall_forall. intros s Hin m Hm. eapply Forall_forall; [apply (ge_deps t e He)|].
  by eapply split_requests.
Qed.

Lemma tot_pop_front_subEvent t : thread t -> tot (pop_front_subEvent t) (fun _ => True).
Proof using.
  intros Ht. eapply tot_bind; [by apply tot_front_event|]. intros e He.
  eapply tot_bind; [by eapply tot_lift, rwp_pop_subEvent|]. intros e' He'. by apply tot_set_front_event.
Qed.

(** ** Time, scheduling and the maps *)
Lemma tot_getTime : tot (getTime P) (fun _ => True).
Proof using. by apply tot_gets. Qed.

Lemma tot_next_trigger se : tot (next_trigger P se) (fun _ => True).
Proof using.
  eapply tot_bind; [apply tot_getTime|]. intros now _. apply tot_lift.
  unfold trigger_time, time_of_double, rwp. repeat case_match; try done; simplify_eq;
    right; unfold replay_failure; do 2 right; left.
Qed.

(** The primitives as leaves; [tot] walks through the code and leaves what
    needs an argument. *)
Lemma tot_read_thread {A} (proj : state -> list A) `{!Vector proj nt} t :
  thread t -> tot (vread proj t) (fun _ => True).
Proof using. intros Ht. by apply (tot_vread proj nt). Qed.

Lemma tot_read_core {A} (proj : state -> list A) `{!Vector proj cores} p :
  core p -> tot (vread proj p) (fun _ => True).
Proof using. intros Ht. by apply (tot_vread proj cores). Qed.

Lemma tot_write_thread {A} (proj : state -> list A) `{!Vector proj nt, !Setter proj, !Plain proj} t a :
  thread t -> tot (vwrite proj t a) (fun _ => True).
Proof using. intros Ht. by apply (tot_vwrite proj nt). Qed.

Lemma tot_write_core {A} (proj : state -> list A) `{!Vector proj cores, !Setter proj, !Plain proj} p a :
  core p -> tot (vwrite proj p a) (fun _ => True).
Proof using. intros Ht. by apply (tot_vwrite proj cores). Qed.

Lemma tot_update_thread {A} (proj : state -> list A) `{!Vector proj nt, !Setter proj, !Plain proj} t f :
  thread t -> tot (vupdate proj t f) (fun _ => True).
Proof using. intros Ht. by apply (tot_vupdate proj nt). Qed.

Lemma tot_gets_any {A} (f : state -> A) : tot (gets f) (fun _ => True).
Proof using. by apply tot_gets. Qed.

Lemma tot_assert_internal b site :
  internal_error (AssertFail site) = true -> tot (assert_ b site) (fun _ => True).
Proof using. intros H. apply tot_assert; [done|]. right. by left. Qed.

#[local] Hint Resolve tot_read_thread tot_read_core tot_write_thread tot_write_core
  tot_update_thread tot_gets_any tot_get tot_vread_queue tot_queue_empty tot_front_event
  tot_set_front_event tot_pop_event tot_pop_front_subEvent tot_getTime tot_next_trigger : tot.
#[local] Hint Extern 1 (tot (assert_ _ _) _) => apply tot_assert_internal; reflexivity : tot.
#[local] Hint Extern 1 (Vector _ _) => solve [typeclasses eauto] : tot.
#[local] Hint Extern 1 (Plain _) => solve [typeclasses eauto] : tot.
#[local] Hint Extern 1 (tot (mret _) _) => apply tot_ret; solve [auto] : tot.
#[local] Hint Extern 1 (tot (lift (read _)) _) => apply tot_lift, rwp_read : tot.
#[local] Hint Extern 1 (tot (lift (deref _)) _) => apply tot_lift, rwp_deref : tot.
#[local] Hint Extern 1 (tot (modify _) _) =>
  apply (tot_modify _ (fun _ => True)); [exact I|intros ? []; by split] : tot.

Ltac tot :=
  repeat match goal with
  | |- tot _ _ => solve [eauto 3 with tot]
  | |- tot (mbind _ _) _ => eapply tot_bind; [solve [eauto 3 with tot]|intros ? ?]
  | |- tot (when _ _) _ => apply tot_when; intros ?
  | |- tot (for_each _ _) _ => apply tot_for_each; intros ? ?
  | |- tot (match ?x with _ => _ end) _ => destruct x eqn:?
  end.

Lemma tot_schedule_core p w : core p -> tot (schedule_core p w) (fun _ => True).
Proof using. intros Hp. unfold schedule_core. tot. Qed.
#[local] Hint Resolve tot_schedule_core : tot.

Lemma tot_scheduled p : core p -> tot (scheduled p) (fun _ => True).
Proof using. intros Hp. unfold scheduled. tot. Qed.
#[local] Hint Resolve tot_scheduled : tot.

Lemma tot_schedule_if_idle p w : core p -> tot (schedule_if_idle p w) (fun _ => True).
Proof using. intros Hp. unfold schedule_if_idle. tot. Qed.
#[local] Hint Resolve tot_schedule_if_idle : tot.

Lemma tot_schedule_start w : tot (schedule_start w) (fun _ => True).
Proof using. unfold schedule_start. tot. Qed.
#[local] Hint Resolve tot_schedule_start : tot.

Lemma sound_maps s pm : sound s -> good_maps pm -> sound (s <| pthreadMaps := pm |>).
Proof using. intros [] H. by split. Qed.

Lemma tot_addr_to_id a : tot (addr_to_id a) thread.
Proof using GI.
  intros s S. unfold addr_to_id. apply wp_bind, wp_get. destruct (so_maps s S) as [Hi Hb].
  unfold map_index. destruct (AddresstoIdMap _ !! a) as [t|] eqn:Ea;
    apply wp_bind, wp_modify, wp_ret; (split; [|apply sound_maps; [done|split; [|done]]]).
  - by eapply Hi.
  - done.
  - unfold thread. pose proof (gi_threads _ _ GI). lia.
  - intros a' t'. cbn. rewrite lookup_insert_Some. intros [[_ <-]|[_ H]]; [|by eapply Hi].
    unfold thread. pose proof (gi_threads _ _ GI). lia.
Qed.

Lemma tot_barrier_set a : tot (barrier_set a) (set_Forall thread).
Proof using.
  intros s S. unfold barrier_set. apply wp_bind, wp_get. destruct (so_maps s S) as [Hi Hb].
  unfold map_index. destruct (BarrierMap _ !! a) as [b|] eqn:Ea;
    apply wp_bind, wp_modify, wp_ret; (split; [|apply sound_maps; [done|split; [done|]]]).
  - by eapply Hb.
  - done.
  - apply set_Forall_empty.
  - intros a' b'. cbn. rewrite lookup_insert_Some. intros [[_ <-]|[_ H]]; [|by eapply Hb].
    apply set_Forall_empty.
Qed.

Lemma tot_wait_set a : tot (wait_set a) (fun _ => True).
Proof using.
  intros s S. unfold wait_set. apply wp_bind, wp_get. destruct (map_index _ _ _).
  apply wp_bind, wp_modify, wp_ret. split; [done|]. apply sound_maps; [done|]. by destruct (so_maps s S).
Qed.

Lemma tot_set_wait_set a w : tot (set_wait_set a w) (fun _ => True).
Proof using.
  apply tot_modify; [done|]. intros s S. apply sound_maps; [done|]. by destruct (so_maps s S).
Qed.

#[local] Hint Resolve tot_addr_to_id tot_barrier_set tot_wait_set tot_set_wait_set : tot.

(** ** Dependencies and the thread scheduler *)
Lemma tot_row p :
  core p -> tot (vread threadMap p) (fun row => row <> [] /\ Forall thread row).
Proof using. intros Hp. eapply (tot_vread threadMap cores); [exact Hp|]. intros s row S. by apply so_row. Qed.

Lemma tot_vfront (row : list Z) : row <> [] -> Forall thread row -> tot (lift (vfront row)) thread.
Proof using.
  intros Hne Hr. apply tot_lift. destruct Hr as [|t row Ht _]; [done|]. exact Ht.
Qed.
#[local] Hint Resolve tot_row tot_vfront : tot.

Lemma tot_checkCommDependency d : known_producer d -> tot (checkCommDependency d) (fun _ => True).
Proof using.
  intros Hd. unfold checkCommDependency. destruct (Z.eqb_spec d.(prodThreadID) OS_THREAD) as [_|Hne].
  { by apply tot_ret. }
  destruct Hd as [?|Ht]; [done|]. eapply tot_bind; [by apply tot_vread_queue|]. intros q (W & _ & Hq).
  case_match; [|by apply tot_ret].
  eapply tot_bind; [by eapply tot_lift, rwp_front_all|]. intros e He. by apply tot_ret.
Qed.
#[local] Hint Resolve tot_checkCommDependency : tot.

Lemma tot_check_all deps : forall b, Forall known_producer deps -> tot (check_all deps b) (fun _ => True).
Proof using. intros b Hd. revert b. induction Hd; intros b; cbn [check_all]; tot. Qed.

Lemma tot_checkAll t e :
  good_event t e -> e.(Type_) = TYPE_COMMUNICATION -> tot (checkAllCommDependencies e) (fun _ => True).
Proof using.
  intros He Hty. unfold checkAllCommDependencies. eapply (tot_bind _ _ (fun _ => True)).
  - apply tot_assert; [done|]. left. by apply Z.eqb_eq.
  - intros _ _. apply tot_check_all. pose proof (ge_deps t e He) as Hd. by apply Forall_app in Hd as [? _].
Qed.

Lemma tot_swap_candidate t : thread t -> tot (swap_candidate t) (fun _ => True).
Proof using GI.
  intros Ht. unfold swap_candidate. eapply tot_bind; [by eauto 3 with tot|]. intros st _.
  case_match; [by apply tot_ret|]. eapply tot_bind; [by apply tot_vread_queue|].
  intros q (W & _ & Hq). case_match; [by apply tot_ret|].
  eapply tot_bind; [by eapply tot_lift, rwp_front_all|]. intros e He.
  destruct (Z.eqb_spec e.(Type_) TYPE_COMPUTATION); [by apply tot_ret|].
  destruct (Z.eqb_spec e.(Type_) TYPE_PTHREAD_API); [by apply tot_ret|].
  assert (e.(Type_) = TYPE_COMMUNICATION) as Hty by (pose proof (ge_type t e He); set_solver).
  eapply tot_bind; [by eapply tot_checkAll|]. intros [] _; [by apply tot_ret|].
  rewrite (ge_thread t e He). tot.
Qed.
#[local] Hint Resolve tot_swap_candidate : tot.

Lemma tot_rotate p : core p -> tot (rotate_once p) (fun _ => True).
Proof using.
  intros Hp. unfold rotate_once. eapply tot_bind; [by apply tot_row|]. intros row [Hne Hr].
  eapply tot_bind; [by apply (tot_vfront row)|]. intros x Hx s S. unfold vwrite.
  apply wp_bind, wp_get, wp_bind, rwp_wp. pose proof (vector_size (proj := threadMap) s S) as Hl.
  unfold core in Hp. rewrite vset_in_range by lia. apply wp_modify. split; [done|].
  destruct S as [St Sc Sn Sr]. split; try done; unfold per_core in *; cbn.
  - by rewrite length_insert.
  - intros p' row'. destruct (decide (p = p')) as [<-|Hpp].
    + rewrite vget_insert_eq by lia. intros [= <-]. destruct row as [|y row]; [done|].
      split; [by destruct row|]. cbn. apply Forall_app. split; [by inversion Hr|by constructor].
    + rewrite vget_insert_ne by (done || lia). apply Sr.
Qed.
#[local] Hint Resolve tot_rotate : tot.

Lemma tot_swap_scan p rest : forall i,
  core p -> Forall thread rest -> tot (swap_scan p i rest) (fun _ => True).
Proof using GI.
  intros i Hp Hr. revert i. induction Hr; intros i; cbn [swap_scan]; tot. unfold moveThreadToHead. tot.
Qed.

Lemma tot_swapThreads p : core p -> tot (swapThreads p) (fun _ => True).
Proof using GI.
  intros Hp. unfold swapThreads. eapply tot_bind; [by apply tot_row|]. intros row [_ Hr].
  apply tot_when. intros _. apply tot_swap_scan; [done|]. by destruct Hr.
Qed.
#[local] Hint Resolve tot_swapThreads : tot.

(** ** Reading the traces *)

(** An event of the thread is appended unless its queue is full. *)
Lemma push_sound E t e s :
  sound s -> thread t -> good_event t e ->
  (forall q, vget s.(eventMap) t = Ok q ->
     Z.of_nat (length (StaticDeque.abs q)) < QUEUE_SIZE \/
     E (Throw "Attempted to add element to full deque.")) ->
  wp E (on_eventMap (push_event e)) (fun _ s' => sound s' /\
    forall q q', vget s.(eventMap) t = Ok q -> vget s'.(eventMap) t = Ok q' ->
      length (StaticDeque.abs q') = S (length (StaticDeque.abs q))) s.
Proof using.
  intros S Ht He Hroom. pose proof (vector_size (proj := eventMap) s S) as Hlen.
  destruct (vget_in_range s.(eventMap) t) as [q Hq]; [unfold thread in Ht; lia|].
  destruct (so_queue s S t q Hq) as (W & Hn & Hall). pose proof (ge_thread t e He) as Hid.
  unfold wp, on_eventMap, push_event. rewrite get_run, lift_bind_run, Hid, Hq, lift_bind_run.
  pose proof (StaticDeque.push_back_spec q e W) as Hp. pose proof (StaticDeque.length_abs q W) as Hl.
  case_match eqn:Ec; bool_to_Z.
  - destruct Hp as (q' & -> & W' & Ha & Hn'). rewrite lift_bind_run, vset_in_range by (unfold thread in Ht; lia).
    cbn. split.
    + apply sound_set_queue; [done|done|]. split; [done|]. split; [congruence|].
      rewrite Ha. apply Forall_app. auto.
    + intros q1 q2 Hq1. rewrite vget_insert_eq by (unfold thread in Ht; lia). intros [= <-].
      assert (q1 = q) as -> by congruence. rewrite Ha, length_app. simpl. lia.
  - rewrite Hp. destruct (Hroom q Hq) as [?|?]; [lia|done].
Qed.

Lemma read_lines_sound E t : E (UB "null pointer") -> thread t -> forall n s,
  sound s ->
  (forall q, vget s.(eventMap) t = Ok q ->
     Z.of_nat (length (StaticDeque.abs q)) + Z.of_nat n <= QUEUE_SIZE \/
     E (Throw "Attempted to add element to full deque.")) ->
  wp E (read_lines cfg n t) (fun _ s' => sound s') s.
Proof using.
  intros En Ht. induction n as [|n IH]; intros s S Hroom; cbn [read_lines]; [done|].
  pose proof (vector_size (proj := inputFilePointer) s S) as Hlen. unfold thread in Ht.
  destruct (vget_in_range s.(inputFilePointer) t) as [f Hf]; [lia|].
  unfold vread. apply wp_bind, wp_bind, wp_get, rwp_wp. rewrite Hf. cbn [rwp].
  destruct f as [ls|]; [|by apply wp_bind, rwp_wp]. apply wp_bind, rwp_wp. cbn [deref rwp].
  destruct ls as [|l ls]; [done|].
  pose proof (so_lines s S t _ Hf) as Hls. apply Forall_cons in Hls as [(e & Hl & He) Hls].
  unfold vwrite. apply wp_bind, wp_bind, wp_get, wp_bind, rwp_wp. rewrite vset_in_range by lia.
  apply wp_modify. set (s1 := set_field inputFilePointer _ s).
  assert (sound s1) as S1.
  { destruct S as [St Sc Sn Sr Sq Sl Sm]. split; try done; unfold per_thread in *; cbn.
    - by rewrite length_insert.
    - intros t' ls'. destruct (decide (t = t')) as [<-|Hne].
      + rewrite vget_insert_eq by lia. by intros [= <-].
      + rewrite vget_insert_ne by (done || lia). apply Sl. }
  apply wp_bind. unfold on_eventMap at 1. unfold wp at 1. rewrite (el_reads _ _ _ Hl).
  pose proof (push_sound E t e s1 S1 Ht He) as Hp. unfold wp, on_eventMap in Hp.
  assert (forall q, vget s1.(eventMap) t = Ok q -> Z.of_nat (length (StaticDeque.abs q)) < QUEUE_SIZE \/
    E (Throw "Attempted to add element to full deque.")) as Hr1.
  { intros q Hq. destruct (Hroom q Hq) as [?|?]; [left; lia|by right]. }
  specialize (Hp Hr1). destruct (push_event e s1.(eventMap)) as [[[] em]|x] eqn:Ep; [|done].
  destruct Hp as [S2 Hlen2]. apply IH; [done|]. intros q2 Hq2.
  destruct (vget_in_range s1.(eventMap) t) as [q1 Hq1];
    [rewrite (vector_size (proj := eventMap) s1 S1); lia|].
  pose proof (Hlen2 q1 q2 Hq1 Hq2) as Hl2. destruct (Hroom q1 Hq1) as [?|?]; [left; lia|by right].
Qed.

Lemma tot_replenishEvents t : thread t -> tot (replenishEvents cfg t) (fun _ => True).
Proof using.
  intros Ht s S. unfold replenishEvents. unfold vread. apply wp_bind, wp_bind, wp_get, rwp_wp.
  pose proof (vector_size (proj := eventMap) s S) as Hle. unfold thread in Ht.
  pose proof (vector_size (proj := curEventListPos) s S) as Hlp.
  destruct (vget_in_range s.(eventMap) t) as [q Hq]; [lia|]. rewrite Hq. cbn [rwp].
  destruct (vget_in_range s.(curEventListPos) t) as [pos Hpos]; [lia|].
  apply wp_bind, wp_bind, wp_get, rwp_wp. rewrite Hpos. cbn [rwp].
  apply wp_when; intros Hsz; [|done]. bool_to_Z.
  eapply wp_mono; [apply read_lines_sound; [internal|done|done|]|done].
  intros q' Hq'. assert (q' = q) as -> by congruence. left.
  destruct (so_queue s S t q Hq) as (W & _). pose proof (StaticDeque.length_abs q W) as Hl.
  rewrite Hl. unfold StaticDeque.size in *. unfold QUEUE_SIZE, READ_BLOCK, MIN_EVENTS_SIZE in *.
  rewrite Z2Nat.id by lia. lia.
Qed.
#[local] Hint Resolve tot_replenishEvents : tot.

(** ** Sub-events and stalled threads *)
Lemma tot_head p : core p -> tot (row ← vread threadMap p; lift (vfront row)) thread.
Proof using. intros Hp. eapply tot_bind; [by apply tot_row|]. intros row [??]. by apply tot_vfront. Qed.

Lemma good_sub_timed s w w' :
  good_sub s -> good_sub (s <| triggerTime := w |> <| initialTriggerTime := w' |>).
Proof using. done. Qed.

Lemma tot_createSubEvents p opt :
  core p -> (forall t, opt = Some t -> thread t) ->
  tot (createSubEvents P rand p opt) (fun _ => True).
Proof using GI.
  intros Hp Ho. unfold createSubEvents. eapply (tot_bind _ _ thread).
  { destruct opt as [t|]; [by apply tot_ret, Ho|by apply tot_head]. }
  intros t Ht. eapply tot_bind; [by eauto 3 with tot|]. intros st _.
  case_match; [by apply tot_ret|]. eapply tot_bind; [by apply tot_vread_queue|].
  intros q (W & _ & Hq). case_match; [by apply tot_ret|].
  eapply tot_bind; [by eapply tot_lift, rwp_front_all|]. intros e He.
  case_match; [by apply tot_ret|]. eapply tot_bind; [by eauto 3 with tot|]. intros k _.
  eapply tot_bind; [by eapply tot_lift, rwp_split|]. intros [d k'] [Wd Hd]. cbn [fst snd] in *.
  eapply tot_bind; [by eauto 3 with tot|]. intros _ _.
  eapply tot_bind; [by eapply tot_lift, rwp_front_all|]. intros top Htop.
  eapply tot_bind; [by eauto 3 with tot|]. intros w _.
  eapply tot_bind; [by eapply tot_lift, (rwp_set_front_all good_sub), good_sub_timed|].
  intros d' (Wd' & _ & Hd'). eapply tot_bind; [by eauto 3 with tot|]. intros _ _.
  apply tot_set_front_event; [done|]. by apply good_event_subs.
Qed.

Lemma tot_createHead p : core p -> tot (createSubEvents P rand p None) (fun _ => True).
Proof using GI. intros Hp. by apply tot_createSubEvents. Qed.

Lemma tot_createThread p t : core p -> thread t -> tot (createSubEvents P rand p (Some t)) (fun _ => True).
Proof using GI. intros Hp Ht. apply tot_createSubEvents; [done|]. by intros ? [= <-]. Qed.
#[local] Hint Resolve tot_createHead tot_createThread : tot.

Lemma tot_any_started rest : Forall thread rest -> tot (any_started rest) (fun _ => True).
Proof using. unfold any_started. induction 1; cbn [foldr]; tot. Qed.
#[local] Hint Resolve tot_any_started : tot.

Lemma tot_swap_and_catch p : core p -> tot (swap_and_catch P p) (fun _ => True).
Proof using GI. intros Hp. unfold swap_and_catch. tot. Qed.
#[local] Hint Resolve tot_swap_and_catch : tot.

Lemma tot_stalled_comm p t e : core p -> good_event t e -> tot (stalled_comm P p e) (fun _ => True).
Proof using GI.
  intros Hp He. unfold stalled_comm. apply tot_when. intros _.
  eapply tot_bind; [by eapply tot_lift, rwp_top_subEvent|]. intros top _. tot.
Qed.

Lemma tot_stalled_join p e : core p -> tot (stalled_join P p e) (fun _ => True).
Proof using GI. intros Hp. unfold stalled_join. tot. Qed.

Lemma tot_stalled_mutex p t e :
  core p -> thread t -> good_event t e -> tot (stalled_mutex P p e) (fun _ => True).
Proof using GI. intros Hp Ht He. unfold stalled_mutex. rewrite (ge_thread t e He). tot. Qed.
#[local] Hint Resolve tot_stalled_comm tot_stalled_join tot_stalled_mutex : tot.

Lemma tot_swapStalledThreads p : core p -> tot (swapStalledThreads P rand p) (fun _ => True).
Proof using GI.
  intros Hp. unfold swapStalledThreads. eapply tot_bind; [by apply tot_row|]. intros row [Hne Hr].
  assert (Forall thread (tail row)) as Htl by (by destruct Hr).
  eapply tot_bind; [by apply tot_vfront|]. intros t Ht. case_match; [|tot].
  eapply tot_bind; [by eauto 3 with tot|]. intros b _.
  eapply (tot_bind _ _ (fun _ => True)); [by destruct b; tot|]. intros b' _. destruct b'.
  - eapply tot_bind; [by eauto 3 with tot|]. intros other _.
    eapply (tot_bind _ _ (fun _ => True)); [by tot|]. intros _ _. tot.
  - eapply tot_bind; [by eauto 3 with tot|]. intros e0 _.
    eapply (tot_bind _ _ (fun _ => True)); [by tot|]. intros _ _. tot.
Qed.

(** ** Requests *)
Lemma tot_sendTimingReq p pkt : core p -> tot (sendTimingReq P accept p pkt) (fun _ => True).
Proof using GI.
  intros Hp. unfold sendTimingReq. pose proof (gi_ports _ _ GI) as Hports. unfold core in Hp.
  rewrite (proj2 (Z.leb_le 0 p)), (proj2 (Z.ltb_lt p _)) by lia. cbn [andb]. tot.
Qed.
#[local] Hint Resolve tot_sendTimingReq : tot.

Lemma tot_triggerMsg write count p t top :
  core p -> thread t -> good_sub top -> tot (triggerMsg P accept write count p t top) (fun _ => True).
Proof using GI.
  intros Hp Ht Htop. unfold triggerMsg. tot.
  eapply tot_bind; [by eapply tot_lift, rwp_set_top_subEvent|]. intros e' He'. tot.
Qed.
#[local] Hint Resolve tot_triggerMsg : tot.

(** ** Pthread events *)
Lemma unlock_allowed site : site = MUTEX_UNLOCK \/ site = SPIN_UNLOCK -> allowed (AssertFail site).
Proof using. intros [-> | ->]; right; [left|right; left]. Qed.

Lemma tot_assert_unlock b site :
  site = MUTEX_UNLOCK \/ site = SPIN_UNLOCK -> tot (assert_ b site) (fun _ => True).
Proof using. intros H. apply tot_assert; [done|]. right. by apply unlock_allowed. Qed.

Section pthread.
Context (t : Z) (e : ST_Event) (Ht : thread t) (He : good_event t e).

Ltac pthread := rewrite ?(ge_thread t e He); tot.

Lemma tot_mutex_lock : tot (progress_mutex_lock e) (fun _ => True).
Proof using Ht He. unfold progress_mutex_lock. pthread. Qed.

Lemma tot_mutex_unlock : tot (progress_mutex_unlock e) (fun _ => True).
Proof using Ht He.
  unfold progress_mutex_unlock. pthread. eapply tot_bind; [apply tot_assert_unlock; by left|].
  intros _ _. pthread.
Qed.

Lemma tot_spin_lock : tot (progress_spin_lock e) (fun _ => True).
Proof using. unfold progress_spin_lock. tot. Qed.

Lemma tot_spin_unlock : tot (progress_spin_unlock e) (fun _ => True).
Proof using.
  unfold progress_spin_unlock. tot. eapply tot_bind; [apply tot_assert_unlock; by right|].
  intros _ _. tot.
Qed.

Lemma tot_create : tot (progress_create e) (fun _ => True).
Proof using GI. unfold progress_create. tot. Qed.

Lemma tot_join : tot (progress_join e) (fun _ => True).
Proof using GI. unfold progress_join. tot. Qed.

Lemma tot_checkBarriers : tot (checkBarriers e) (fun _ => True).
Proof using. unfold checkBarriers. tot. Qed.
#[local] Hint Resolve tot_checkBarriers : tot.

Lemma tot_barrier : tot (progress_barrier e) (fun _ => True).
Proof using Ht He.
  unfold progress_barrier. pthread.
  eapply (tot_bind _ _ (fun _ => True)); [by tot|]. intros _ _.
  eapply tot_bind; [by eauto 3 with tot|]. intros all _.
  eapply (tot_bind _ _ (fun _ => True)); [|intros _ _; by apply tot_ret].
  destruct all; [|by apply tot_ret]. eapply tot_bind; [by eauto 3 with tot|]. intros b Hb.
  eapply (tot_bind _ _ (fun _ => True)); [|intros _ _; tot].
  apply tot_for_each. intros t' Ht'%elem_of_elements%Hb. tot.
Qed.

Lemma tot_progressPthreadEvent p :
  core p -> e.(Type_) = TYPE_PTHREAD_API -> tot (progressPthreadEvent P e t p) (fun _ => True).
Proof using GI Ht He.
  intros Hp Hty. unfold progressPthreadEvent. pose proof (ge_call t e He Hty) as Hcall.
  eapply (tot_bind _ _ (fun _ => True)); [|intros b _; pthread].
  repeat case_match; bool_to_Z;
    eauto using tot_mutex_lock, tot_mutex_unlock, tot_create, tot_join, tot_barrier,
      tot_spin_lock, tot_spin_unlock; [by tot..|].
  exfalso. unfold handled_calls in Hcall. set_solver.
Qed.
End pthread.
#[local] Hint Resolve tot_progressPthreadEvent : tot.

(** ** Finishing a sub-event *)
Lemma tot_set_top_and t e top (m : M state unit) :
  thread t -> good_event t e -> good_sub top -> tot m (fun _ => True) ->
  tot (e' ← lift (set_top_subEvent e top); set_front_event t e';; m) (fun _ => True).
Proof using.
  intros Ht He Htop Hm. eapply tot_bind; [by eapply tot_lift, rwp_set_top_subEvent|].
  intros e' He'. eapply tot_bind; [by apply tot_set_front_event|]. done.
Qed.

Lemma tot_finish_subEvent p t : core p -> thread t -> tot (finish_subEvent P cfg p t) (fun _ => True).
Proof using GI.
  intros Hp Ht. unfold finish_subEvent. eapply tot_bind; [by apply tot_front_event|]. intros e He.
  eapply tot_bind; [by eauto 3 with tot|]. intros now _.
  eapply tot_bind; [by eapply tot_lift, rwp_subEvents_empty|]. intros over _. destruct over.
  - eapply (tot_bind _ _ (fun _ => True)); [rewrite (ge_thread t e He); by tot|]. intros _ _.
    eapply tot_bind; [by eauto 3 with tot|]. intros _ _.
    eapply tot_bind; [by eauto 3 with tot|]. intros _ _.
    eapply tot_bind; [by eauto 3 with tot|]. intros noEvents _.
    eapply (tot_bind _ _ (fun _ => True)); [|intros _ _; tot]. destruct noEvents; [by tot|].
    eapply tot_bind; [by apply tot_front_event|]. intros e' He'. rewrite (ge_thread t e' He'). tot.
  - eapply tot_bind; [by eapply tot_lift, rwp_top_subEvent|]. intros top Htop.
    eapply tot_bind; [by eauto 3 with tot|]. intros w _.
    apply (tot_set_top_and t e); [done|done|done|]. tot.
Qed.
#[local] Hint Resolve tot_finish_subEvent : tot.

Lemma tot_progressEvents p : core p -> tot (progressEvents P cfg accept p) (fun _ => True).
Proof using GI.
  intros Hp. unfold progressEvents. eapply tot_bind; [by apply tot_row|]. intros row [Hne Hr].
  eapply tot_bind; [by apply tot_vfront|]. intros t Ht.
  eapply tot_bind; [by eauto 3 with tot|]. intros st _. case_match; [by apply tot_ret|].
  eapply tot_bind; [by eauto 3 with tot|]. intros noEvents _. destruct noEvents; [by apply tot_ret|].
  eapply tot_bind; [by apply tot_front_event|]. intros e He.
  eapply tot_bind; [by eapply tot_lift, rwp_top_subEvent|]. intros top Htop.
  eapply tot_bind; [by eauto 3 with tot|]. intros trig _.
  eapply tot_bind; [by eauto 3 with tot|]. intros now _. case_match; [|by tot].
  eapply tot_bind; [by eauto 3 with tot|]. intros _ _. destruct (containsMsg top); cbn [negb].
  - case_match.
    + eapply tot_bind; [by eauto 3 with tot|]. intros msg Hmsg.
      eapply tot_bind; [by apply tot_checkCommDependency, Htop|]. intros met _.
      eapply (tot_bind _ _ (fun _ => True)); [by destruct met; tot|]. intros go _. destruct go.
      * by apply tot_triggerMsg.
      * apply (tot_set_top_and t e); [done|done|done|]. tot.
    + eapply tot_bind; [by eauto 3 with tot|]. intros ty _. case_match; by apply tot_triggerMsg.
  - eapply (tot_bind _ _ (fun _ => True)); [|intros _ _; by tot].
    destruct (Z.eqb_spec e.(Type_) TYPE_PTHREAD_API); cbn [negb]; [|by tot].
    by apply tot_progressPthreadEvent.
Qed.
#[local] Hint Resolve tot_progressEvents tot_swapStalledThreads : tot.

(** ** The entry points *)
Lemma tot_wakeup_core p : core p -> tot (wakeup_core P cfg rand accept p) (fun _ => True).
Proof using GI. intros Hp. unfold wakeup_core, printThreadEvents. tot. Qed.

Lemma tot_record_rtt t e rtt : thread t -> tot (record_rtt t e rtt) (fun _ => True).
Proof using.
  intros Ht. unfold record_rtt. eapply (tot_bind _ _ (fun _ => True)); [by tot|]. intros _ _.
  eapply tot_bind; [by eauto 3 with tot|]. intros _ _. eapply tot_bind; [by eauto 3 with tot|]. intros m _.
  eapply (tot_bind _ _ (fun _ => True)); [by tot|]. intros _ _. tot.
Qed.
#[local] Hint Resolve tot_record_rtt : tot.

Lemma tot_hitCallback p : core p -> tot (hitCallback P cfg p) (fun _ => True).
Proof using GI.
  intros Hp. unfold hitCallback. eapply (tot_bind _ _ (fun n => n = cores)).
  { apply tot_gets. intros s S. by apply so_count. }
  intros n ->. eapply (tot_bind _ _ (fun _ => True)).
  { apply tot_assert; [done|]. left. apply Z.ltb_lt. unfold core in Hp. lia. }
  intros _ _. eapply tot_bind; [by apply tot_row|]. intros row [Hne Hr].
  eapply tot_bind; [by apply tot_vfront|]. intros t Ht.
  eapply tot_bind; [by apply tot_front_event|]. intros e He.
  eapply tot_bind; [by eapply tot_lift, rwp_top_subEvent|]. intros top Htop. tot.
Qed.

Lemma tot_upto n (body : Z -> M state unit) :
  (forall i, 0 <= i < n -> tot (body i) (fun _ => True)) -> tot (for_each (upto n) body) (fun _ => True).
Proof using. intros H. apply tot_for_each. intros i Hi%elem_of_upto. by apply H. Qed.

Lemma tot_all_queues_empty ts : Forall thread ts -> tot (all_queues_empty ts) (fun _ => True).
Proof using. induction 1; cbn [all_queues_empty]; tot. Qed.

Lemma tot_close t : thread t -> tot (vwrite inputFilePointer t None) (fun _ => True).
Proof using.
  intros Ht s S. unfold vwrite. apply wp_bind, wp_get, wp_bind, rwp_wp. unfold thread in Ht.
  rewrite vset_in_range by (rewrite (vector_size s S); lia). apply wp_modify. split; [done|].
  pose proof (vector_size (proj := inputFilePointer) s S) as Hlen.
  destruct S as [St Sc Sn Sr Sq Sl Sm]. split; try done; unfold per_thread in *; cbn.
  - by rewrite length_insert.
  - intros t' ls'. destruct (decide (t = t')) as [<-|Hne].
    + rewrite vget_insert_eq by lia. done.
    + rewrite vget_insert_ne by (done || lia). apply Sl.
Qed.

Lemma tot_checkCompletion : tot (checkCompletion P) (fun _ => True).
Proof using.
  unfold checkCompletion, outputRTT_hist. eapply tot_bind.
  { apply tot_all_queues_empty. apply Forall_forall. by intros t Ht%elem_of_upto. }
  intros b _. eapply tot_bind; [by eauto 3 with tot|]. intros stop _. apply tot_when. intros _.
  eapply (tot_bind _ _ (fun _ => True)); [apply tot_upto; intros i Hi; by tot|]. intros _ _.
  eapply (tot_bind _ _ (fun _ => True)); [apply tot_upto; intros i Hi; by apply tot_close|].
  intros _ _. tot.
Qed.

Lemma tot_wakeup_master : tot (wakeup_master P cfg rand) (fun _ => True).
Proof using GI.
  unfold wakeup_master, replenishAll, createAllSubEvents.
  eapply (tot_bind _ _ (fun _ => True)); [apply tot_upto; intros i Hi; by tot|]. intros _ _.
  eapply (tot_bind _ _ (fun _ => True)).
  { eapply (tot_bind _ _ (fun n => n = cores)).
    - apply tot_gets. intros s S. by apply so_count.
    - intros n ->. apply tot_upto. intros i Hi. by tot. }
  intros _ _. eapply tot_bind; [apply tot_checkCompletion|]. intros _ _. tot.
Qed.

(** ** [init] builds a state of the right shape *)
Abbreviation any := (fun _ : error => True).

Lemma cores_range : 0 < cores <= P.(num_threads).
Proof using GI.
  pose proof (gi_threads _ _ GI). pose proof (gi_cpus _ _ GI). unfold cores. case_match; bool_to_Z; lia.
Qed.

Lemma any_lift {A} (r : result A) (Q : A -> state -> Prop) s : (forall a, r = Ok a -> Q a s) -> wp any (lift r) Q s.
Proof using. intros H. apply wp_lift; auto. Qed.

Lemma any_vwrite {A} (proj : state -> list A) `{!Setter proj} i a Q s :
  (0 <= i < Z.of_nat (length (proj s)) -> Q tt (set_field proj (fun _ => <[Z.to_nat i := a]> (proj s)) s)) ->
  wp any (vwrite proj i a) Q s.
Proof using.
  intros H. unfold vwrite. apply wp_bind, wp_get, wp_bind, any_lift. intros l [Hr ->]%vset_Ok.
  by apply wp_modify, H.
Qed.

(** The queues are allocated empty, one per thread. *)
Lemma allocate_sound s :
  s.(eventMap) = [] -> wp any (allocate_queues P) (fun _ s' => exists em,
    s' = s <| eventMap := em |> /\ length em = Z.to_nat nt /\
    forall t q, vget em t = Ok q -> good_queue t q) s.
Proof using.
  intros He. eapply wp_mono.
  - apply (wp_for_each any (upto nt) _ (fun seen s' => exists em, s' = s <| eventMap := em |> /\
      length em = length seen /\ forall t q, vget em t = Ok q -> good_queue t q)).
    + exists []. split; [|by split; [|intros ? ? [_ ?]%vget_Ok]]. destruct s. cbn in *. by subst.
    + intros seen i s1 _ (em & -> & Hl & Hq).
      destruct (StaticDeque.make_spec (T := ST_Event) QUEUE_SIZE) as (q & Em & W & Ha & Hn); [done|].
      apply wp_bind, any_lift. intros q0 Hq0. assert (q0 = q) as ->.
      { change (READ_BLOCK + MIN_EVENTS_SIZE) with QUEUE_SIZE in Hq0. congruence. }
      apply wp_modify. exists (em ++ [q]). split; [done|]. split; [rewrite !length_app; simpl; lia|].
      intros t q' [?| ->]%vget_snoc; [by apply Hq|]. split_and!; [done|done|]. by rewrite Ha.
  - intros [] s' (em & -> & Hl & Hq). exists em. split_and!; try done. rewrite Hl.
    unfold upto. by rewrite length_fmap, length_seq.
Qed.

Lemma files_sound s :
  wp any (initSigilFilePointers P files) (fun _ s' => exists fl,
    s' = s <| inputFilePointer := fl |> /\ length fl = Z.to_nat nt /\
    forall t ls, vget fl t = Ok (Some ls) -> Forall (good_line t) ls) s.
Proof using GI.
  unfold initSigilFilePointers. apply wp_bind, wp_modify. eapply wp_mono.
  - apply (wp_for_each any (upto nt) _ (fun _ s' => exists fl, s' = s <| inputFilePointer := fl |> /\
      length fl = Z.to_nat nt /\ forall t ls, vget fl t = Ok (Some ls) -> Forall (good_line t) ls)).
    + eexists. split; [reflexivity|]. split; [apply length_replicate|].
      intros t ls H%vget_replicate. done.
    + intros seen i s1 Hi (fl & -> & Hl & Hf). destruct (mjoin (files !! Z.to_nat i)) as [ls|] eqn:Ef; [|done].
      apply any_vwrite. intros Hr. eexists. split; [reflexivity|]. split; [by rewrite length_insert|].
      cbn in Hr |- *. intros t ls'. destruct (decide (i = t)) as [<-|Hne].
      * rewrite vget_insert_eq by lia. intros [= <-]. destruct (files !! Z.to_nat i) as [o|] eqn:Eo; [|done].
        cbn in Ef. subst o. pose proof (gi_files _ _ GI _ _ Eo) as H. by rewrite Z2Nat.id in H by lia.
      * rewrite vget_insert_ne by (done || lia). apply Hf.
  - intros [] s' H. exact H.
Qed.

(** Thread [i] goes to the row [i mod cores], so no row stays empty. *)
Lemma mapping_sound s :
  s.(num_of_mapped_processors) = cores -> s.(threadMap) = replicate (Z.to_nat cores) [] ->
  wp any (initialThreadMapping P) (fun _ s' => exists tm,
    s' = s <| threadMap := tm |> /\ length tm = Z.to_nat cores /\
    forall p row, vget tm p = Ok row -> row <> [] /\ Forall thread row) s.
Proof using GI.
  intros Hn Htm. pose proof cores_range as Hc. eapply wp_mono.
  - apply (wp_for_each any (upto nt) _ (fun seen s' => exists tm, s' = s <| threadMap := tm |> /\
      length tm = Z.to_nat cores /\ forall p row, vget tm p = Ok row -> Forall thread row /\
        forall i, i ∈ seen -> i mod cores = p -> i ∈ row)).
    + exists s.(threadMap). split; [by destruct s|]. rewrite Htm. split; [apply length_replicate|].
      intros p row ->%vget_replicate. split; [done|]. by intros i ?%not_elem_of_nil.
    + intros seen i s1 Hi%elem_of_upto (tm & -> & Hl & Hrows). apply wp_bind, wp_gets. cbn. rewrite Hn.
      unfold umod. rewrite (proj2 (Z.eqb_neq cores 0)) by lia. apply wp_bind, rwp_wp. cbn [rwp].
      unfold vupdate, vread. apply wp_bind, wp_bind, wp_get, any_lift. cbn. intros row Hrow.
      apply any_vwrite. cbn. intros Hr. eexists. split; [reflexivity|]. split; [by rewrite length_insert|].
      intros p row'. destruct (decide (i mod cores = p)) as [<-|Hne].
      * rewrite vget_insert_eq by done. intros [= <-]. destruct (Hrows _ _ Hrow) as [Ht Hin]. split.
        -- apply Forall_app. split; [done|]. by constructor.
        -- intros j [Hj|Hj%list_elem_of_singleton]%elem_of_app Hjm; apply elem_of_app; [left; by apply Hin|right].
           subst. by left.
      * rewrite vget_insert_ne by (done || lia). intros Hrow'. destruct (Hrows _ _ Hrow') as [Ht Hin]. split; [done|].
        intros j [Hj|Hj%list_elem_of_singleton]%elem_of_app Hjm; [by apply Hin|]. subst. done.
  - intros [] s' (tm & -> & Hl & Hrows). exists tm. split_and!; try done. intros p row Hrow.
    destruct (Hrows p row Hrow) as [Ht Hin]. pose proof (vget_Ok_range _ _ _ Hrow). split; [|done].
    intros ->. apply (not_elem_of_nil p), Hin; [apply elem_of_upto; lia|]. apply Z.mod_small. lia.
Qed.

Context (mem : ObjectMemory) (Hmem : mem.(held_count) <= 0).

Lemma init_sound s : init P cfg files pthread_file (constructed mem) = Ok (tt, s) -> sound s.
Proof using GI Hmem.
  intros Hi. enough (wp any (init P cfg files pthread_file) (fun _ => sound) (constructed mem)) as H
    by (by eapply wp_run in H).
  clear s Hi. unfold init. apply wp_bind. unfold wp at 1.
  change (schedule_start 1 (constructed mem)) with (Ok (tt, (constructed mem) <| startEvent := Some 1 |>)).
  cbv beta iota. set (s0 := set_field startEvent _ _). apply wp_bind, wp_gets.
  assert (upto s0.(num_of_mapped_processors) = []) as ->
    by (unfold upto; by replace (Z.to_nat _) with O by (cbn; lia)).
  apply wp_bind, wp_ret. apply wp_bind, wp_assert; [intros _|done]. apply wp_bind, any_lift. intros fb _.
  apply wp_bind, wp_assert; [intros _|done]. apply wp_bind, any_lift. intros cb _.
  apply wp_bind, wp_assert; [intros _|done]. apply wp_bind, any_lift. intros _ _.
  apply wp_bind, wp_assert; [intros _|done]. cbv zeta. fold cores. apply wp_bind, wp_modify.
  apply wp_bind, wp_when; intros _; [done|]. apply wp_bind, wp_modify.
  apply wp_bind. eapply wp_mono; [by apply allocate_sound|]. intros [] ? (em & -> & Hel & Heq).
  apply wp_bind, wp_modify. apply wp_bind, any_vwrite. intros _. apply wp_bind, wp_modify.
  apply wp_bind. unfold initStats. apply wp_modify.
  apply wp_bind. eapply wp_mono; [apply files_sound|]. intros [] ? (fl & -> & Hfl & Hfq).
  apply wp_bind. set (s1 := set_field inputFilePointer _ _).
  apply (wp_mono any _ (fun _ s2 => exists pm, s2 = s1 <| pthreadMaps := pm |> /\ good_maps pm)).
  { destruct pthread_file as [ls|] eqn:Ep; [|done]. unfold wp, on_pthreadMaps.
    change s1.(pthreadMaps) with (mkPthreadMaps ∅ ∅ ∅).
    destruct (processPthreadFile ls (mkPthreadMaps ∅ ∅ ∅)) as [[[] pm]|x] eqn:Em; [|done].
    exists pm. split; [done|]. by eapply (gi_pthreads _ _ GI). }
  intros [] ? (pm & -> & Hpm). apply wp_bind.
  eapply wp_mono; [by apply mapping_sound|]. intros [] ? (tm & -> & Htl & Htm).
  set (s2 := set_field threadMap _ _). assert (sound s2) as S2.
  { unfold s2, s1, s0. split; try done; unfold per_thread, per_core; cbn.
    - rewrite Hel, Hfl, length_fmap, !length_insert, !length_replicate. unfold upto.
      rewrite length_fmap, length_seq. by repeat constructor.
    - rewrite Htl, !length_replicate. by repeat constructor. }
  clearbody s2. clear -S2. unfold generateEventQueue.
  eapply wp_mono; [apply (wp_for_each any (upto nt) _ (fun _ => sound))|done]; [done|].
  intros _ i s3 Hi%elem_of_upto S3. unfold readEventFile. by apply read_lines_sound; [..|right].
Qed.

Lemma step_failures s l r :
  sound s -> step P cfg rand accept s l r -> rwp allowed r (fun us => sound us.2).
Proof using GI.
  intros S Hst. assert (forall m s0, sound s0 -> tot m (fun _ => True) ->
    rwp allowed (m s0) (fun us : unit * state => sound us.2)) as Hrun.
  { intros m s0 S0 Hm. specialize (Hm s0 S0). unfold wp, rwp in *. destruct (m s0) as [[a s1]|x]; [|done].
    apply Hm. }
  destruct Hst as [t _ _ _|_|p Hp|p (t & q & (row & Hrow & _) & _)].
  - cbn. destruct S. by split.
  - apply Hrun; [destruct S; by split|apply tot_wakeup_master].
  - apply vget_Ok_range in Hp. rewrite (vector_size (proj := coreEvents) s S) in Hp.
    apply Hrun; [|apply tot_wakeup_core; unfold core; lia].
    apply (plain_set (proj := coreEvents)); [done|apply length_insert].
  - apply vget_Ok_range in Hrow. cbn in Hrow. rewrite (vector_size (proj := threadMap) s S) in Hrow.
    apply Hrun; [done|]. apply tot_hitCallback. unfold core. lia.
Qed.

Lemma reachable_sound s : reachable P cfg rand accept mem files pthread_file s -> sound s.
Proof using GI Hmem.
  induction 1 as [s Hi|s l s' _ IH _ Hst]; [by apply init_sound|]. by pose proof (step_failures s l _ IH Hst).
Qed.


End failures.


End ReplayFailures.
