(* ===== verification/ReplayExamples.v ===== *)
(** * A two-thread run

    A small pair of traces (a create, computations with reads and writes, a
    mutex, a barrier, a communication and a join) replayed to its end by an
    executable driver of [ReplaySystem.step], and the instances of the
    system's theorems at states of this run. *)

From S2P Require Import Prelude.
From S2P Require Import StaticDeque.
From S2P Require Import STEvent.
From S2P Require Import CString.
From S2P Require Import Requests.
From S2P Require Import TraceParser.
From S2P Require Import TriggerTime.
From S2P Require Import SubEvents.
From S2P Require Import TraceLines.
From S2P Require Import ReplayState.
From S2P Require Import Replay.
From S2P Require Import ReplayInv.
From S2P Require Import ReplaySafe.
From S2P Require Import ReplaySteps.
From S2P Require Import ReplayHandlers.
From S2P Require Import ReplaySystem.
Import STEvent CString Requests TraceParser TriggerTime SubEvents TraceLines
  ReplayState Replay ReplayInv ReplaySafe ReplaySteps ReplayHandlers ReplaySystem.

Module ReplayExamples.

Definition P : Params := mkParams 2 2 1000000 100 2 2 (float_of_Z 1) (float_of_Z 2) 1.
Definition rand (k : nat) : Z := Z.of_nat k mod 32768.
Definition accept (n : nat) : bool := true.

Definition main_trace : list str := [
  lit "1,1,10,0,1,1 $ 128 135 * 256 259";
  lit "2,1,pth_ty:3 ^ 4096";
  lit "3,1,pth_ty:1 ^ 77";
  lit "4,1,4,2,0,2 $ 300 307";
  lit "5,1,pth_ty:2 ^ 77";
  lit "6,1,pth_ty:5 ^ 99";
  lit "7,1,pth_ty:4 ^ 4096" ].

Definition worker_trace : list str := [
  lit "1,2,8,0,2,0 * 512 531";
  lit "2,2 # 1 4 300 307";
  lit "3,2,pth_ty:5 ^ 99";
  lit "4,2,3,1,0,0" ].

Definition files : list (option (list str)) := [Some main_trace; Some worker_trace].
Definition pthread_file : option (list str) :=
  Some [lit "##4096,2"; lit "**99,1,2,"].

(** An object whose count happens to be 0; its histograms hold garbage. *)
Definition example_memory : ObjectMemory :=
  mkObjectMemory 0 (fun i => Z.of_nat i - 7) (fun i => 2 ^ 31 - 1).

Definition the_state (r : result (unit * state)) : state :=
  match r with Ok (_, s) => s | Err _ => constructed example_memory end.

Definition initial : state :=
  the_state (init P example_cfg files pthread_file (constructed example_memory)).

Example init_ok :
  init P example_cfg files pthread_file (constructed example_memory) = Ok (tt, initial).
Proof. vm_compute. reflexivity. Qed.

(** The driver: the earliest of the scheduled events and of the responses,
    which come 20 ticks after a request. *)
Definition earliest (s : state) (pend : list (Z * Z)) : option Z :=
  foldr (fun w acc => match acc with Some a => Some (Z.min w a) | None => Some w end) None
    (option_list s.(startEvent) ++ omap id s.(coreEvents) ++ pend.*1).

Definition due_core (s : state) (t : Z) : option Z :=
  list_find (fun c : option Z => c = Some t) s.(coreEvents) ≫= fun x => Some (Z.of_nat x.1).

Definition new_requests (s s' : state) (t : Z) : list (Z * Z) :=
  (fun pk => (t + 20, pk.(pkt_proc)))
    <$> take (length s'.(packets) - length s.(packets)) s'.(packets).

Fixpoint drive (fuel : nat) (s : state) (pend : list (Z * Z)) : result state :=
  match fuel with
  | O => Ok s
  | S fuel' =>
      if s.(exit_requested) then Ok s else
      match earliest s pend with
      | None => Ok s
      | Some t =>
          let s0 := s <| curTick := t |> in
          let go (r : result (unit * state)) pend' :=
            us ← r; drive fuel' us.2 (new_requests s0 us.2 t ++ pend') in
          match list_find (fun x : Z * Z => x.1 = t) pend with
          | Some (i, (_, p)) => go (hitCallback P example_cfg p s0) (delete i pend)
          | None =>
              match due_core s0 t with
              | Some p =>
                  go (wakeup_core P example_cfg rand accept p
                        (s0 <| coreEvents := <[Z.to_nat p := None]> s0.(coreEvents) |>)) pend
              | None =>
                  go (wakeup_master P example_cfg rand (s0 <| startEvent := None |>)) pend
              end
          end
      end
  end.

(** The run ends with every event replayed; the eight requests of the traces
    were sent, and the barrier opened once (the second report is the one at
    completion). *)
Example run_to_completion :
  match drive 400 initial [] with
  | Ok s => s.(exit_requested) = true /\ length s.(packets) = 8%nat /\
            s.(barrier_reports) = 2 /\ s.(mutexLocks) = ∅ /\
            (StaticDeque.elems <$> s.(eventMap)) = [0; 0] /\
            (ts_numIOPS <$> s.(threadStatistics)) = [14; 11]
  | Err _ => False
  end.
Proof. vm_compute. done. Qed.

(** ** States of the run *)
Definition s1 : state := initial <| curTick := 1 |>.
Definition s2 : state := the_state (wakeup_master P example_cfg rand (s1 <| startEvent := None |>)).
Definition s3 : state := s2 <| curTick := 7 |>.
Definition s4 : state := the_state (wakeup_core P example_cfg rand accept 0
  (s3 <| coreEvents := <[Z.to_nat 0 := None]> s3.(coreEvents) |>)).

Abbreviation reach := (reachable P example_cfg rand accept example_memory files pthread_file).
Abbreviation moves := (step P example_cfg rand accept).

Lemma params_P : params_ok P.
Proof. split; vm_compute; intuition congruence. Qed.

Lemma no_core_due n s :
  Forall (fun c : option Z => forall w, c = Some w -> n <= w) s.(coreEvents) ->
  forall p w, vget s.(coreEvents) p = Ok (Some w) -> n <= w.
Proof. intros H p w [_ Hw]%vget_Ok. by eapply (Forall_lookup_1 _ _ _ _ H Hw). Qed.

Lemma move1 : moves initial (Tick 1) (Ok (tt, s1)).
Proof.
  apply step_tick.
  - vm_compute. intuition discriminate.
  - vm_compute. intros w [= <-]. discriminate.
  - apply no_core_due. vm_compute. repeat constructor; discriminate.
Qed.

Lemma move2 : moves s1 Master (Ok (tt, s2)).
Proof.
  replace (Ok (tt, s2)) with (wakeup_master P example_cfg rand (s1 <| startEvent := None |>))
    by (vm_compute; reflexivity).
  apply step_master. vm_compute. reflexivity.
Qed.

Lemma move3 : moves s2 (Tick 7) (Ok (tt, s3)).
Proof.
  apply step_tick.
  - vm_compute. intuition discriminate.
  - vm_compute. intros w [= <-]. discriminate.
  - apply no_core_due. vm_compute. repeat constructor; intros w [= <-]; discriminate.
Qed.

Lemma move4 : moves s3 (Core 0) (Ok (tt, s4)).
Proof.
  replace (Ok (tt, s4)) with (wakeup_core P example_cfg rand accept 0
    (s3 <| coreEvents := <[Z.to_nat 0 := None]> s3.(coreEvents) |>))
    by (vm_compute; reflexivity).
  apply step_core. vm_compute. reflexivity.
Qed.

Lemma reach0 : reach initial.
Proof. apply reach_init, init_ok. Qed.
Ltac reach_by s l s' m :=
  apply (reach_step P example_cfg rand accept example_memory files pthread_file s l s');
  [|vm_compute; reflexivity|exact m].

Lemma reach2 : reach s2.
Proof. reach_by s1 Master s2 move2. reach_by initial (Tick 1) s1 move1. exact reach0. Qed.
Lemma reach4 : reach s4.
Proof. reach_by s3 (Core 0) s4 move4. reach_by s2 (Tick 7) s3 move3. exact reach2. Qed.

Definition queue0 (s : state) : StaticDeque.t ST_Event :=
  match vget s.(eventMap) 0 with Ok q => q | Err _ => StaticDeque.mk [] 0 0 0 0 end.

Lemma reachable_invariant_witness : INV (forall n, accept n = true) (view_of s4).
Proof.
  apply (reachable_invariant P example_cfg rand accept example_memory files pthread_file s4).
  - exact params_P.
  - discriminate.
  - exact reach4.
Defined.

Lemma no_core_forgotten_witness :
  (exists w, vget s2.(coreEvents) 0 = Ok (Some w) /\ s2.(curTick) <= w /\
     in_flight (queue0 s2) = false) \/
  (vget s2.(coreEvents) 0 = Ok None /\ in_flight (queue0 s2) = true).
Proof.
  refine (no_core_forgotten P example_cfg rand accept example_memory files pthread_file s2 0 0 (queue0 s2)
    params_P _ _ reach2 _ _ _ _).
  - discriminate.
  - reflexivity.
  - exists [0]. vm_compute. split; reflexivity.
  - vm_compute. reflexivity.
  - vm_compute. reflexivity.
  - vm_compute. split; [discriminate|reflexivity].
Defined.

Lemma response_finds_idle_core_witness :
  exists p, head_of (view_of s4) p 0 /\ vget s4.(coreEvents) p = Ok None /\
    forall p', head_of (view_of s4) p' 0 -> p' = p.
Proof.
  refine (response_finds_idle_core P example_cfg rand accept example_memory files pthread_file s4 0
    (queue0 s4) params_P _ reach4 _ _).
  - discriminate.
  - vm_compute. reflexivity.
  - vm_compute. reflexivity.
Defined.

Lemma init_reads_unset_count_witness :
  init P example_cfg files pthread_file (constructed (example_memory <| held_count := 5 |>)) = Err (UB "index").
Proof. apply (init_reads_unset_count P example_cfg (example_memory <| held_count := 5 |>) files pthread_file). reflexivity. Defined.

End ReplayExamples.
