(* ===== verification/Frame.v ===== *)
(** * What an operation leaves alone

    [keeps obs m]: a run of [m] that returns leaves [obs] of the state as it
    was.  The lemmas follow the combinators of the state monad; each component
    adds its own operations to the hint database. *)

From S2P Require Import Prelude.

Module Frame.

Definition keeps {S V A} (obs : S -> V) (m : M S A) : Prop :=
  forall s a s', m s = Ok (a, s') -> obs s' = obs s.

Section combinators.
Context {S V : Type} (obs : S -> V).

Lemma keeps_bind {A C} (m : M S A) (k : A -> M S C) :
  keeps obs m -> (forall a, keeps obs (k a)) -> keeps obs (m ≫= k).
Proof. intros Hm Hk s c s' H. inv_run. etrans; [by eapply Hk|by eapply Hm]. Qed.

Lemma keeps_ret {A} (a : A) : keeps obs (mret a).
Proof. intros s b s' H. by inv_run. Qed.

Lemma keeps_get : keeps obs get.
Proof. intros s b s' H. by injection H as -> ->. Qed.

Lemma keeps_gets {A} (g : S -> A) : keeps obs (gets g).
Proof. intros s b s' H. by inv_run. Qed.

Lemma keeps_lift {A} (r : result A) : keeps obs (lift r).
Proof. intros s b s' H. by inv_run. Qed.

Lemma keeps_fail {A} e : keeps obs (fail e : M S A).
Proof. done. Qed.

Lemma keeps_assert b site : keeps obs (assert_ b site).
Proof. intros s a s' H. by inv_run. Qed.

Lemma keeps_if {A} (b : bool) (m k : M S A) :
  keeps obs m -> keeps obs k -> keeps obs (if b then m else k).
Proof. by destruct b. Qed.

Lemma keeps_when b (m : M S unit) : keeps obs m -> keeps obs (when b m).
Proof. intros H. apply keeps_if; [done|]. apply keeps_ret. Qed.

Lemma keeps_modify g : (forall s, obs (g s) = obs s) -> keeps obs (modify g).
Proof. intros Hg s a s' H. by inv_run. Qed.

Lemma keeps_for_each {A} (l : list A) (body : A -> M S unit) :
  (forall a, keeps obs (body a)) -> keeps obs (for_each l body).
Proof.
  intros H. induction l as [|a l IH]; cbn [for_each]; [apply keeps_ret|].
  by apply keeps_bind.
Qed.

Lemma keeps_foldl {A B} (l : list A) (g : M S B -> A -> M S B) m :
  keeps obs m -> (forall m a, keeps obs m -> keeps obs (g m a)) -> keeps obs (foldl g m l).
Proof.
  intros Hm Hg. revert m Hm. induction l as [|a l IH]; intros m Hm; [done|]. apply IH. auto.
Qed.
End combinators.

Create HintDb keeps.
#[export] Hint Resolve keeps_ret keeps_get keeps_gets keeps_lift keeps_fail keeps_assert : keeps.

End Frame.
