(* ===== verification/ReplayFrame.v ===== *)
(** * What the parts of a handler leave alone

    [Ignores obs proj]: the observation [obs] of the state does not depend on the
    member [proj].  [keeps obs m]: a run of [m] that returns leaves [obs]
    unchanged.  The lemmas below compute, for every function of the engine
    that only prepares the next event (reading traces, splitting, scheduling,
    swapping), which members it can write; the theorems about what a whole
    step can change use them. *)

From S2P Require Import Prelude.
From S2P Require Import Frame.
From S2P Require Import StaticDeque.
From S2P Require Import STEvent.
From S2P Require Import CString.
From S2P Require Import Requests.
From S2P Require Import TraceParser.
From S2P Require Import TriggerTime.
From S2P Require Import SubEvents.
From S2P Require Import ReplayState.
From S2P Require Import Replay.
Import STEvent CString Requests TraceParser TriggerTime SubEvents ReplayState Replay.

Module ReplayFrame.
Export Frame.

Class Ignores {B E} (obs : state -> B) (proj : state -> E) `{!Setter proj} : Prop :=
  ignores : forall g s, obs (set_field proj g s) = obs s.

#[export] Hint Extern 1 (Ignores _ _) => intros ? ?; reflexivity : typeclass_instances.

#[export] Hint Extern 1 (Ignores _ _) => solve [typeclasses eauto] : keeps.

Section combinators.
Context {B : Type} (obs : state -> B).

Lemma keeps_vread {A} (proj : state -> list A) i : keeps obs (vread proj i).
Proof. apply keeps_bind; [apply keeps_get|]. intros. apply keeps_lift. Qed.

Lemma keeps_vwrite {A} (proj : state -> list A) `{!Setter proj, !Ignores obs proj} i a :
  keeps obs (vwrite proj i a).
Proof.
  apply keeps_bind; [apply keeps_get|]. intros s0. apply keeps_bind; [apply keeps_lift|].
  intros l. apply keeps_modify. intros s. apply ignores.
Qed.

Lemma keeps_vupdate {A} (proj : state -> list A) `{!Setter proj, !Ignores obs proj} i g :
  keeps obs (vupdate proj i g).
Proof. apply keeps_bind; [apply keeps_vread|]. intros a. by apply keeps_vwrite. Qed.
End combinators.

#[export] Hint Resolve keeps_vread : keeps.
#[export] Hint Extern 2 (keeps _ (vwrite _ _ _)) => eapply keeps_vwrite; typeclasses eauto : keeps.
#[export] Hint Extern 2 (keeps _ (vupdate _ _ _)) => eapply keeps_vupdate; typeclasses eauto : keeps.

(** Walk through the code; [modify] and known functions are leaves. *)
Ltac keeps :=
  repeat match goal with
  | |- keeps _ _ => solve [auto 3 with keeps]
  | |- keeps _ (mbind _ _) => apply keeps_bind; [|intros ?]
  | |- keeps _ (when _ _) => apply keeps_when
  | |- keeps _ (for_each _ _) => apply keeps_for_each; intros ?
  | |- keeps _ (modify _) => apply keeps_modify; intros ?; rewrite ?ignores; done
  | |- keeps _ (match ?x with _ => _ end) => destruct x
  end.

Section engine.
Context (P : Params) (cfg : RubyCfg) (rand : nat -> Z) (accept : nat -> bool).
Context {B : Type} (obs : state -> B).

Section queues.
Context `{!Ignores obs eventMap}.

Lemma keeps_queue_empty t : keeps obs (queue_empty t).
Proof. unfold queue_empty. keeps. Qed.

Lemma keeps_front_event t : keeps obs (front_event t).
Proof. unfold front_event. keeps. Qed.

Lemma keeps_set_front_event t e : keeps obs (set_front_event t e).
Proof. unfold set_front_event. keeps. Qed.

Lemma keeps_pop_event t : keeps obs (pop_event t).
Proof. unfold pop_event. keeps. Qed.

Lemma keeps_on_eventMap {A} (m : M EventMap A) : keeps obs (on_eventMap m).
Proof.
  intros s a s' H. unfold on_eventMap in H. destruct (m (eventMap s)) as [[b em]|]; [|done].
  injection H as _ <-. exact (Ignores0 (fun _ => em) s).
Qed.
End queues.
#[local] Hint Resolve keeps_queue_empty keeps_front_event keeps_set_front_event
  keeps_pop_event keeps_on_eventMap : keeps.

Lemma keeps_getTime : keeps obs (getTime P).
Proof. unfold getTime. keeps. Qed.

Lemma keeps_next_trigger se : keeps obs (next_trigger P se).
Proof. unfold next_trigger. apply keeps_bind; [apply keeps_getTime|]. intros. apply keeps_lift. Qed.
#[local] Hint Resolve keeps_getTime keeps_next_trigger : keeps.

Lemma keeps_schedule_core `{!Ignores obs coreEvents} p w : keeps obs (schedule_core p w).
Proof. unfold schedule_core. keeps. Qed.
#[local] Hint Resolve keeps_schedule_core : keeps.

Lemma keeps_schedule_if_idle `{!Ignores obs coreEvents} p w : keeps obs (schedule_if_idle p w).
Proof. unfold schedule_if_idle, scheduled. keeps. Qed.

Lemma keeps_schedule_start `{!Ignores obs startEvent} w : keeps obs (schedule_start w).
Proof. unfold schedule_start. keeps. Qed.
#[local] Hint Resolve keeps_schedule_if_idle keeps_schedule_start : keeps.

Lemma keeps_addr_to_id `{!Ignores obs pthreadMaps} a : keeps obs (addr_to_id a).
Proof. unfold addr_to_id. keeps. Qed.
#[local] Hint Resolve keeps_addr_to_id : keeps.

Lemma keeps_on_pthreadMaps {A} (m : M PthreadMaps A) `{!Ignores obs pthreadMaps} :
  keeps obs (on_pthreadMaps m).
Proof.
  intros s a s' H. unfold on_pthreadMaps in H.
  destruct (m (pthreadMaps s)) as [[b pm]|]; [|done].
  injection H as _ <-. exact (Ignores0 (fun _ => pm) s).
Qed.
#[local] Hint Resolve keeps_on_pthreadMaps : keeps.

(** ** Reading the traces *)
Lemma keeps_read_lines `{!Ignores obs eventMap, !Ignores obs inputFilePointer} n t :
  keeps obs (read_lines cfg n t).
Proof. induction n; cbn [read_lines]; keeps. Qed.

Lemma keeps_replenishEvents `{!Ignores obs eventMap, !Ignores obs inputFilePointer} t :
  keeps obs (replenishEvents cfg t).
Proof.
  unfold replenishEvents, extendEventQueue, readEventFile. keeps. apply keeps_read_lines.
Qed.
#[local] Hint Resolve keeps_replenishEvents : keeps.

(** ** Dependencies and the thread scheduler *)
Lemma keeps_checkCommDependency c : keeps obs (checkCommDependency c).
Proof. unfold checkCommDependency. keeps. Qed.
#[local] Hint Resolve keeps_checkCommDependency : keeps.

Lemma keeps_check_all deps : forall b, keeps obs (check_all deps b).
Proof. induction deps; intros b; cbn [check_all]; keeps. Qed.
#[local] Hint Resolve keeps_check_all : keeps.

Lemma keeps_checkAll e : keeps obs (checkAllCommDependencies e).
Proof. unfold checkAllCommDependencies. keeps. Qed.
#[local] Hint Resolve keeps_checkAll : keeps.

Lemma keeps_swap_candidate t : keeps obs (swap_candidate t).
Proof. unfold swap_candidate. keeps. Qed.
#[local] Hint Resolve keeps_swap_candidate : keeps.

Lemma keeps_swap_scan `{!Ignores obs threadMap} p rest : forall i, keeps obs (swap_scan p i rest).
Proof.
  induction rest; intros i; cbn [swap_scan]; keeps. unfold moveThreadToHead, rotate_once. keeps.
Qed.
#[local] Hint Resolve keeps_swap_scan : keeps.

Lemma keeps_swapThreads `{!Ignores obs threadMap} p : keeps obs (swapThreads p).
Proof. unfold swapThreads. keeps. Qed.
#[local] Hint Resolve keeps_swapThreads : keeps.

Lemma keeps_createSubEvents
  `{!Ignores obs eventMap, !Ignores obs coreEvents, !Ignores obs rand_calls} p opt :
  keeps obs (createSubEvents P rand p opt).
Proof. unfold createSubEvents. keeps. Qed.
#[local] Hint Resolve keeps_createSubEvents : keeps.

Lemma keeps_any_started rest : keeps obs (any_started rest).
Proof. unfold any_started. induction rest; cbn [foldr]; keeps. Qed.
#[local] Hint Resolve keeps_any_started : keeps.

Section swap.
Context `{!Ignores obs eventMap, !Ignores obs coreEvents, !Ignores obs threadMap}.

Lemma keeps_swap_and_catch p : keeps obs (swap_and_catch P p).
Proof. unfold swap_and_catch. keeps. Qed.
#[local] Hint Resolve keeps_swap_and_catch : keeps.

Lemma keeps_swapStalledThreads `{!Ignores obs rand_calls, !Ignores obs pthreadMaps} p :
  keeps obs (swapStalledThreads P rand p).
Proof.
  unfold swapStalledThreads, stalled_comm, stalled_join, stalled_mutex. keeps.
Qed.

Lemma keeps_finish_subEvent
  `{!Ignores obs inputFilePointer, !Ignores obs thread_cycles_per_event} p t :
  keeps obs (finish_subEvent P cfg p t).
Proof. unfold finish_subEvent. keeps. Qed.
End swap.
#[local] Hint Resolve keeps_swapStalledThreads keeps_finish_subEvent : keeps.

Lemma keeps_pop_front_subEvent `{!Ignores obs eventMap} t : keeps obs (pop_front_subEvent t).
Proof. unfold pop_front_subEvent. keeps. Qed.
#[local] Hint Resolve keeps_pop_front_subEvent : keeps.

(** ** Handlers that send nothing *)
Section handlers.
Context `{!Ignores obs eventMap, !Ignores obs coreEvents, !Ignores obs threadMap,
  !Ignores obs inputFilePointer, !Ignores obs thread_cycles_per_event,
  !Ignores obs m_last_progress_vector, !Ignores obs sharedEventHist,
  !Ignores obs localEventHist, !Ignores obs roundTripTime, !Ignores obs maxRTT,
  !Ignores obs threadStatistics}.

Lemma keeps_hitCallback p : keeps obs (hitCallback P cfg p).
Proof. unfold hitCallback, record_rtt. keeps. Qed.
End handlers.

Lemma keeps_all_queues_empty ts : keeps obs (all_queues_empty ts).
Proof. induction ts; cbn [all_queues_empty]; keeps. Qed.
#[local] Hint Resolve keeps_all_queues_empty : keeps.

Lemma keeps_checkCompletion
  `{!Ignores obs inputFilePointer, !Ignores obs rtt_output, !Ignores obs barrier_reports,
    !Ignores obs stopped, !Ignores obs exit_requested} : keeps obs (checkCompletion P).
Proof. unfold checkCompletion, outputRTT_hist. keeps. Qed.

Lemma keeps_replenishAll `{!Ignores obs eventMap, !Ignores obs inputFilePointer} :
  keeps obs (replenishAll P cfg).
Proof. unfold replenishAll. keeps. Qed.

Lemma keeps_createAll
  `{!Ignores obs eventMap, !Ignores obs coreEvents, !Ignores obs rand_calls} :
  keeps obs (createAllSubEvents P rand).
Proof. unfold createAllSubEvents. keeps. Qed.

(** ** The handler of a core *)
Section core.
Context `{!Ignores obs eventMap, !Ignores obs coreEvents, !Ignores obs threadMap,
  !Ignores obs inputFilePointer, !Ignores obs thread_cycles_per_event,
  !Ignores obs m_last_progress_vector, !Ignores obs threadStatistics,
  !Ignores obs pthreadMaps, !Ignores obs threadStartedMap, !Ignores obs threadContMap,
  !Ignores obs barrier_reports, !Ignores obs worker_thread_count, !Ignores obs roiFlag,
  !Ignores obs spinLocks}.

Lemma keeps_barrier_set a : keeps obs (barrier_set a).
Proof. unfold barrier_set. keeps. Qed.

Lemma keeps_wait_set a : keeps obs (wait_set a).
Proof. unfold wait_set. keeps. Qed.

Lemma keeps_set_wait_set a w : keeps obs (set_wait_set a w).
Proof. unfold set_wait_set. keeps. Qed.
#[local] Hint Resolve keeps_barrier_set keeps_wait_set keeps_set_wait_set : keeps.

Lemma keeps_progress_create e : keeps obs (progress_create e).
Proof. unfold progress_create. keeps. Qed.

Lemma keeps_progress_join e : keeps obs (progress_join e).
Proof. unfold progress_join. keeps. Qed.

Lemma keeps_progress_barrier e : keeps obs (progress_barrier e).
Proof. unfold progress_barrier, checkBarriers. keeps. Qed.

Lemma keeps_progress_spin_lock e : keeps obs (progress_spin_lock e).
Proof. unfold progress_spin_lock. keeps. Qed.

Lemma keeps_progress_spin_unlock e : keeps obs (progress_spin_unlock e).
Proof. unfold progress_spin_unlock. keeps. Qed.
#[local] Hint Resolve keeps_progress_create keeps_progress_join keeps_progress_barrier
  keeps_progress_spin_lock keeps_progress_spin_unlock : keeps.

Section all.
Context `{!Ignores obs mutexLocks, !Ignores obs threadMutexMap, !Ignores obs packets,
  !Ignores obs send_attempts, !Ignores obs lastMsgTriggerTime, !Ignores obs rand_calls,
  !Ignores obs printThreadEventCounters}.

Lemma keeps_progressPthreadEvent e t p : keeps obs (progressPthreadEvent P e t p).
Proof.
  unfold progressPthreadEvent, progress_mutex_lock, progress_mutex_unlock. keeps.
Qed.
#[local] Hint Resolve keeps_progressPthreadEvent : keeps.

Lemma keeps_triggerMsg w g p t se : keeps obs (triggerMsg P accept w g p t se).
Proof. unfold triggerMsg, sendTimingReq. keeps. Qed.
#[local] Hint Resolve keeps_triggerMsg : keeps.

Lemma keeps_wakeup_core p : keeps obs (wakeup_core P cfg rand accept p).
Proof.
  unfold wakeup_core, printThreadEvents, progressEvents, triggerCommReadMsg,
    triggerCompWriteMsg, triggerCompReadMsg.
  keeps.
Qed.
End all.
End core.

End engine.

#[export] Hint Resolve keeps_queue_empty keeps_front_event keeps_set_front_event
  keeps_pop_event keeps_on_eventMap keeps_getTime keeps_next_trigger keeps_schedule_core
  keeps_schedule_if_idle keeps_schedule_start keeps_addr_to_id keeps_on_pthreadMaps
  keeps_read_lines keeps_replenishEvents
  keeps_checkCommDependency keeps_checkAll keeps_swapThreads keeps_createSubEvents
  keeps_swapStalledThreads keeps_finish_subEvent keeps_pop_front_subEvent keeps_hitCallback
  keeps_all_queues_empty keeps_checkCompletion keeps_replenishAll keeps_createAll
  keeps_barrier_set keeps_wait_set keeps_set_wait_set keeps_progress_create
  keeps_progress_join keeps_progress_barrier keeps_progress_spin_lock
  keeps_progress_spin_unlock keeps_progressPthreadEvent keeps_wakeup_core : keeps.

End ReplayFrame.
