(* ===== verification/ReplaySchedule.v ===== *)
(** * Dependencies and the thread scheduler

    What the queues hold, without the split of their front events
    ([skeleton]); when a dependency is met and when a thread is ready, as
    functions of it; and what [checkAllCommDependencies], [moveThreadToHead]
    and [swapThreads] compute. *)

From S2P Require Import Prelude.
From S2P Require Import StaticDeque.
From S2P Require Import STEvent.
From S2P Require Import CString.
From S2P Require Import Requests.
From S2P Require Import TraceParser.
From S2P Require Import TriggerTime.
From S2P Require Import SubEvents.
From S2P Require Import ReplayState.
From S2P Require Import Replay.
From S2P Require Import ReplayFrame.
Import STEvent CString Requests TraceParser TriggerTime SubEvents ReplayState Replay
  ReplayFrame.

Module ReplaySchedule.

(** An event as it was read from the trace. *)
Definition strip (e : ST_Event) : ST_Event :=
  e <| subEventList := None |> <| subEventsCreated := false |>.

Definition skeleton (s : state) : list (list ST_Event) :=
  (fun q => strip <$> StaticDeque.abs q) <$> s.(eventMap).

Definition queues_wf (s : state) : Prop := Forall StaticDeque.wf s.(eventMap).

(** The producer has passed the event that the consumer depends on. *)
Definition dep_met (s : state) (c : sharedInfo) : bool :=
  (c.(prodThreadID) =? OS_THREAD) ||
  match vget (skeleton s) c.(prodThreadID) with
  | Ok (e :: _) => c.(prodEventID) <? e.(EventID)
  | _ => true
  end.

Definition dep_in_range (s : state) (c : sharedInfo) : Prop :=
  c.(prodThreadID) = OS_THREAD \/
  0 <= c.(prodThreadID) < Z.of_nat (length s.(eventMap)).

(** The thread can run: it has started, and its next event is no
    communication, or one whose producers have all passed, or the thread holds
    a mutex. *)
Definition ready (s : state) (t : Z) : bool :=
  bool_decide (vget s.(threadStartedMap) t = Ok true) &&
  match vget (skeleton s) t with
  | Ok (e :: _) =>
      (e.(Type_) =? TYPE_COMPUTATION) || (e.(Type_) =? TYPE_PTHREAD_API) ||
      forallb (dep_met s) e.(comm_preRequisiteEvents) ||
      bool_decide (vget s.(threadMutexMap) e.(ThreadID) = Ok true)
  | _ => false
  end.

(** The indices that [swapThreads] uses for the thread are in range. *)
Definition thread_ok (s : state) (t : Z) : Prop :=
  0 <= t < Z.of_nat (length s.(threadStartedMap)) /\
  0 <= t < Z.of_nat (length s.(eventMap)) /\
  forall e l, vget (skeleton s) t = Ok (e :: l) ->
    (e.(Type_) = TYPE_COMPUTATION \/ e.(Type_) = TYPE_PTHREAD_API \/
     e.(Type_) = TYPE_COMMUNICATION) /\
    Forall (dep_in_range s) e.(comm_preRequisiteEvents) /\
    0 <= e.(ThreadID) < Z.of_nat (length s.(threadMutexMap)).

(** The rotation that brings the [i]-th thread of a core to the head. *)
Definition rotation {A} (i : nat) (l : list A) : list A := drop i l ++ take i l.

(** ** Queues *)
Lemma vget_skeleton s t l :
  vget (skeleton s) t = Ok l <->
  exists q, vget s.(eventMap) t = Ok q /\ l = strip <$> StaticDeque.abs q.
Proof.
  unfold skeleton. rewrite vget_Ok, list_lookup_fmap, fmap_Some. split.
  - intros (Ht & q & Hq & ->). exists q. by rewrite vget_Ok.
  - intros (q & (Ht & Hq)%vget_Ok & ->). eauto.
Qed.

Lemma queues_wf_vget s t q : queues_wf s -> vget s.(eventMap) t = Ok q -> StaticDeque.wf q.
Proof. intros H [_ Hq]%vget_Ok. by eapply Forall_lookup_1 in Hq. Qed.

Lemma vread_run {A B} (proj : state -> list A) i a (k : A -> M state B) s :
  vget (proj s) i = Ok a -> (vread proj i ≫= k) s = k a s.
Proof. intros H. apply M_bind_run. unfold vread, mbind, M_bind, get, lift. by rewrite H. Qed.

Lemma vread_Ok {A} (proj : state -> list A) i a s s' :
  vread proj i s = Ok (a, s') <-> vget (proj s) i = Ok a /\ s' = s.
Proof. unfold vread, mbind, M_bind, get, lift. destruct (vget (proj s) i); naive_solver. Qed.

Lemma vwrite_Ok {A} (proj : state -> list A) `{!Setter proj} i a u s s' :
  vwrite proj i a s = Ok (u, s') <->
  0 <= i < Z.of_nat (length (proj s)) /\
  s' = set_field proj (fun _ => <[Z.to_nat i := a]> (proj s)) s.
Proof.
  unfold vwrite, get, mbind, M_bind, lift, modify. destruct u.
  destruct (vset (proj s) i a) as [l|] eqn:E.
  - apply vset_Ok in E as [Hi ->]. naive_solver.
  - split; [done|]. intros [Hi ->]. by rewrite vset_in_range in E.
Qed.

Lemma vwrite_run {A B} (proj : state -> list A) `{!Setter proj} i a (k : unit -> M state B) s :
  0 <= i < Z.of_nat (length (proj s)) ->
  (vwrite proj i a ≫= k) s =
    k tt (set_field proj (fun _ => <[Z.to_nat i := a]> (proj s)) s).
Proof. intros H. apply M_bind_run. by apply vwrite_Ok. Qed.

Lemma skeleton_vget s t q :
  vget s.(eventMap) t = Ok q -> vget (skeleton s) t = Ok (strip <$> StaticDeque.abs q).
Proof. intros H. apply vget_skeleton. eauto. Qed.

(** ** Dependencies *)
Lemma checkCommDependency_run s c :
  queues_wf s -> dep_in_range s c -> checkCommDependency c s = Ok (dep_met s c, s).
Proof.
  intros W Hr. unfold checkCommDependency, dep_met.
  destruct (c.(prodThreadID) =? OS_THREAD) eqn:E; [done|]. bool_to_Z.
  destruct Hr as [?|Hr]; [done|]. destruct (vget_in_range _ _ Hr) as [q Hq].
  rewrite (vread_run _ _ q) by done. rewrite (skeleton_vget _ _ q) by done.
  pose proof (queues_wf_vget _ _ _ W Hq) as Wq.
  rewrite StaticDeque.empty_spec by done.
  destruct (StaticDeque.abs q) as [|e l] eqn:Ha; [done|]. cbn.
  rewrite lift_bind_run, StaticDeque.front_spec, Ha by done. done.
Qed.

Lemma check_all_run s deps : queues_wf s -> Forall (dep_in_range s) deps -> forall b,
  check_all deps b s = Ok (b && forallb (dep_met s) deps, s).
Proof.
  intros W. induction 1 as [|c deps Hc Hd IH]; intros b; cbn [check_all forallb].
  - by rewrite andb_true_r.
  - rewrite (M_bind_run _ _ _ (dep_met s c) s) by by apply checkCommDependency_run.
    rewrite IH. by rewrite andb_assoc.
Qed.

Lemma checkAll_run s e :
  queues_wf s -> e.(Type_) = TYPE_COMMUNICATION ->
  Forall (dep_in_range s) e.(comm_preRequisiteEvents) ->
  checkAllCommDependencies e s = Ok (forallb (dep_met s) e.(comm_preRequisiteEvents), s).
Proof.
  intros W Ht Hd. unfold checkAllCommDependencies. rewrite Ht, assert_bind_run. cbn.
  by rewrite check_all_run.
Qed.

Lemma swap_candidate_run s t :
  queues_wf s -> thread_ok s t -> swap_candidate t s = Ok (ready s t, s).
Proof.
  intros W (Hs & He & Hf). unfold swap_candidate, ready.
  destruct (vget_in_range _ _ Hs) as [b Hb]. destruct (vget_in_range _ _ He) as [q Hq].
  rewrite (vread_run _ _ b), Hb by done. destruct b; [|done].
  rewrite bool_decide_true by done. cbn [negb].
  rewrite (vread_run _ _ q) by done. pose proof (skeleton_vget _ _ _ Hq) as Hsk.
  pose proof (queues_wf_vget _ _ _ W Hq) as Wq. rewrite StaticDeque.empty_spec by done.
  rewrite Hsk in Hf |- *. destruct (StaticDeque.abs q) as [|e l] eqn:Ha; [done|].
  rewrite bool_decide_false by done.
  rewrite lift_bind_run, StaticDeque.front_spec, Ha by done.
  destruct (Hf _ _ eq_refl) as (Hty & Hdeps & Hth).
  cbn [fmap list_fmap andb].
  change (Type_ (strip e)) with (Type_ e) in *.
  change (comm_preRequisiteEvents (strip e)) with (comm_preRequisiteEvents e) in *.
  change (ThreadID (strip e)) with (ThreadID e) in *.
  destruct (Type_ e =? TYPE_COMPUTATION) eqn:E1; [done|].
  destruct (Type_ e =? TYPE_PTHREAD_API) eqn:E2; [done|]. bool_to_Z.
  destruct Hty as [?|[?|Hty]]; [done..|].
  rewrite (M_bind_run _ _ _ _ _ (checkAll_run s e W Hty Hdeps)). cbn [orb].
  destruct (forallb _ _); [done|]. destruct (vget_in_range _ _ Hth) as [h Hh].
  rewrite Hh. unfold vread, mbind, M_bind, get, lift. rewrite Hh.
  destruct h; [by rewrite bool_decide_true|by rewrite bool_decide_false].
Qed.

(** ** Rotation *)
Lemma rotation_0 {A} (l : list A) : rotation 0 l = l.
Proof. apply app_nil_r. Qed.

Lemma rotation_S {A} (i : nat) (l : list A) :
  (i < length l)%nat ->
  exists x, rotation i l !! 0%nat = Some x /\
    tail (rotation i l ++ [x]) = rotation (S i) l.
Proof.
  intros H. destruct (lookup_lt_is_Some_2 l i H) as [x Hx]. exists x.
  unfold rotation. rewrite (drop_S l x i Hx), (take_S_r l i x Hx). split; [done|].
  cbn. by rewrite <- app_assoc.
Qed.

Lemma upto_S (i : nat) : upto (Z.of_nat (S i)) = upto (Z.of_nat i) ++ [Z.of_nat i].
Proof.
  unfold upto. rewrite !Nat2Z.id, seq_S, fmap_app. done.
Qed.

Lemma for_each_app {S A} (l1 l2 : list A) (body : A -> M S unit) s s1 r :
  for_each l1 body s = Ok (tt, s1) -> for_each l2 body s1 = r ->
  for_each (l1 ++ l2) body s = r.
Proof.
  revert s. induction l1 as [|a l1 IH]; intros s H1 H2; cbn [for_each app] in *.
  - by injection H1 as ->.
  - apply M_bind_Ok in H1 as ([] & s2 & Ha & H1). rewrite (M_bind_run _ _ _ _ _ Ha). eauto.
Qed.

Lemma moveThreadToHead_run s p row (i : nat) :
  vget s.(threadMap) p = Ok row -> (i <= length row)%nat ->
  moveThreadToHead p (Z.of_nat i) s =
    Ok (tt, s <| threadMap := <[Z.to_nat p := rotation i row]> s.(threadMap) |>).
Proof.
  intros Hp. assert (0 <= p < Z.of_nat (length s.(threadMap))) as Hr by by eapply vget_Ok_range.
  unfold moveThreadToHead. induction i as [|i IH]; intros Hi.
  - apply vget_Ok in Hp as [_ Hp]. rewrite rotation_0, list_insert_id by done. by destruct s.
  - rewrite upto_S. eapply for_each_app; [apply IH; lia|]. cbn [for_each].
    set (s1 := s <| threadMap := _ |>). unfold rotate_once.
    destruct (rotation_S i row) as (x & Hx & Hrot); [lia|].
    assert (vget s1.(threadMap) p = Ok (rotation i row)) as Hg by (by apply vget_insert_eq).
    rewrite (M_bind_run _ _ s1 tt
      (s <| threadMap := <[Z.to_nat p := rotation (S i) row]> s.(threadMap) |>)); [done|].
    rewrite (vread_run _ _ (rotation i row)) by done.
    rewrite lift_bind_run, (proj2 (vget_Ok _ 0 x)) by (split; [lia|done]).
    apply vwrite_Ok. split; [cbn; by rewrite length_insert|].
    rewrite Hrot. unfold s1. cbn. by rewrite list_insert_insert_eq.
Qed.

(** ** The scheduler *)
Definition next_ready (s : state) (rest : list Z) : option nat :=
  fst <$> list_find (fun t => ready s t = true) rest.

Lemma swap_scan_run s p row rest : queues_wf s -> vget s.(threadMap) p = Ok row ->
  forall i : nat, (i + length rest <= length row)%nat -> Forall (thread_ok s) rest ->
  swap_scan p (Z.of_nat i) rest s =
    Ok (tt, s <| threadMap := <[Z.to_nat p :=
      match next_ready s rest with Some k => rotation (i + k) row | None => row end]>
      s.(threadMap) |>).
Proof.
  intros W Hp. induction rest as [|t rest IH]; intros i Hi Ht; cbn [swap_scan].
  - apply vget_Ok in Hp as [_ Hp]. cbn. rewrite list_insert_id by done. by destruct s.
  - apply Forall_cons in Ht as [Ht Hrest].
    rewrite (M_bind_run _ _ _ _ _ (swap_candidate_run s t W Ht)).
    unfold next_ready. cbn [list_find]. cbn in Hi. destruct (ready s t) eqn:E.
    + rewrite decide_True by done. cbn. rewrite Nat.add_0_r.
      rewrite (moveThreadToHead_run s p row i) by (done || lia). done.
    + rewrite decide_False by congruence.
      replace (Z.of_nat i + 1) with (Z.of_nat (S i)) by lia.
      rewrite IH by (done || lia). unfold next_ready.
      destruct (list_find _ rest) as [[k x]|]; cbn; [|done].
      by rewrite Nat.add_succ_r.
Qed.

(** [swapThreads] brings the first thread of the core that is ready,
    after the one at the head, to the head by rotating the core's threads,
    so their cyclic order never changes; with no other ready thread it
    changes nothing.  It writes nothing but the core's row of [threadMap]. *)
Theorem swapThreads_rotates s p row :
  queues_wf s -> vget s.(threadMap) p = Ok row -> Forall (thread_ok s) (tail row) ->
  swapThreads p s =
    Ok (tt, s <| threadMap := <[Z.to_nat p :=
      match next_ready s (tail row) with Some k => rotation (S k) row | None => row end]>
      s.(threadMap) |>).
Proof.
  intros W Hp Ht. unfold swapThreads. rewrite (vread_run _ _ row) by done.
  destruct (1 <? Z.of_nat (length row)) eqn:E; bool_to_Z.
  - change 1 with (Z.of_nat 1). cbn [when]. destruct row as [|t0 rest]; [done|].
    rewrite (swap_scan_run s p (t0 :: rest)) by (done || (cbn; lia)). done.
  - cbn [when]. apply vget_Ok in Hp as [_ Hp].
    destruct row as [|t0 [|t1 rest]]; [..|cbn in E; lia];
      cbn; rewrite list_insert_id by done; by destruct s.
Qed.

End ReplaySchedule.
