(* ===== verification/ReplayEffects.v ===== *)
(** * What a step can change

    The locks, the requests and the end of the simulation, over the steps of
    the transition system of [ReplaySystem]: which step changes them, and
    under which condition. *)

From S2P Require Import Prelude.
From S2P Require Import StaticDeque.
From S2P Require Import STEvent.
From S2P Require Import CString.
From S2P Require Import Requests.
From S2P Require Import TraceParser.
From S2P Require Import TriggerTime.
From S2P Require Import SubEvents.
From S2P Require Import ReplayState.
From S2P Require Import Replay.
From S2P Require Import ReplayInv.
From S2P Require Import ReplaySafe.
From S2P Require Import ReplayHandlers.
From S2P Require Import ReplaySystem.
From S2P Require Import ReplayFrame.
From S2P Require Import ReplaySchedule.
Import STEvent CString Requests TraceParser TriggerTime SubEvents ReplayState Replay
  ReplayInv ReplaySafe ReplayHandlers ReplaySystem ReplayFrame ReplaySchedule.

Module ReplayEffects.

(** ** The queues through [createSubEvents] *)
Lemma INV_queues_wf L m x s : inv L m x (view_of s) -> queues_wf s.
Proof.
  intros I. apply Forall_lookup. intros i q Hq.
  destruct (inv_queue _ _ _ _ I (Z.of_nat i) q) as [W _]; [|done].
  apply vget_Ok. by rewrite Nat2Z.id; split; [lia|].
Qed.

Lemma queue_empty_Ok t b s s' :
  queues_wf s -> queue_empty t s = Ok (b, s') ->
  s' = s /\ exists q, vget s.(eventMap) t = Ok q /\ b = bool_decide (StaticDeque.abs q = []).
Proof.
  intros W H. unfold queue_empty in H. inv_run. apply vread_Ok in H as [Hq ->].
  split; [done|]. eexists. split; [done|]. apply StaticDeque.empty_spec.
  by eapply queues_wf_vget.
Qed.

Lemma front_event_Ok t e s s' :
  queues_wf s -> front_event t s = Ok (e, s') ->
  s' = s /\ exists q l, vget s.(eventMap) t = Ok q /\ StaticDeque.abs q = e :: l.
Proof.
  intros W H. unfold front_event in H. inv_run. apply vread_Ok in H as [Hq ->].
  split; [done|]. pose proof (queues_wf_vget _ _ _ W Hq) as Wq.
  rewrite StaticDeque.front_spec in H0 by done.
  destruct (StaticDeque.abs x) as [|e' l] eqn:Ha; [done|]. injection H0 as ->. eauto.
Qed.

Lemma set_front_event_keeps t e e' q l u s s' :
  queues_wf s -> vget s.(eventMap) t = Ok q -> StaticDeque.abs q = e :: l ->
  strip e' = strip e -> set_front_event t e' s = Ok (u, s') ->
  queues_wf s' /\ skeleton s' = skeleton s.
Proof.
  intros W Hq Ha Hs H. unfold set_front_event in H. inv_run.
  apply vread_Ok in H as [Hq' ->]. rewrite Hq in Hq'. injection Hq' as <-.
  pose proof (queues_wf_vget _ _ _ W Hq) as Wq.
  pose proof (StaticDeque.set_front_spec q e' Wq) as Hf. rewrite Ha in Hf.
  destruct Hf as (d & Hd & Wd & Had & _). rewrite Hd in H0. injection H0 as <-.
  apply vwrite_Ok in H1 as [Hr ->]. apply vget_Ok in Hq as [_ Hq]. split.
  - apply Forall_insert; done.
  - unfold skeleton. cbn. rewrite list_fmap_insert. apply list_insert_id.
    rewrite list_lookup_fmap, Hq. cbn. rewrite Had, Ha. cbn. by rewrite Hs.
Qed.

Section effects.
Context (P : Params) (cfg : RubyCfg) (rand : nat -> Z) (accept : nat -> bool).

Lemma eventMap_eq s s' :
  s'.(eventMap) = s.(eventMap) -> queues_wf s ->
  queues_wf s' /\ skeleton s' = skeleton s.
Proof. intros H W. unfold queues_wf, skeleton. by rewrite H. Qed.

Lemma createSubEvents_skeleton p opt u s s' :
  queues_wf s -> createSubEvents P rand p opt s = Ok (u, s') ->
  queues_wf s' /\ skeleton s' = skeleton s.
Proof.
  intros W H. unfold createSubEvents in H. apply M_bind_Ok in H as (t & s1 & Ht & H).
  assert (s1 = s) as ->.
  { destruct opt; [by injection Ht as _ ->|].
    by apply M_bind_Ok in Ht as (row & s2 & [_ ->]%vread_Ok & [_ ->]%lift_Ok). }
  apply M_bind_Ok in H as (b & s1 & [_ ->]%vread_Ok & H). destruct b;
    cbn [negb] in H; [|by inv_run]. apply M_bind_Ok in H as (q & s1 & [Hq ->]%vread_Ok & H).
  pose proof (queues_wf_vget _ _ _ W Hq) as Wq.
  destruct (StaticDeque.empty q); [by inv_run|].
  apply M_bind_Ok in H as (e & s1 & [Hf ->]%lift_Ok & H).
  rewrite StaticDeque.front_spec in Hf by done.
  destruct (StaticDeque.abs q) as [|e0 l] eqn:Ha; [done|]. injection Hf as ->.
  destruct (subEventsCreated e); [by inv_run|]. inv_run.
  assert (x12.(eventMap) = s.(eventMap)) as Hem.
  { etrans; [by eapply (keeps_schedule_if_idle eventMap)|].
    by eapply (keeps_next_trigger P eventMap) in H3. }
  destruct (eventMap_eq s x12 Hem W) as [W12 <-].
  eapply (set_front_event_keeps t e); [done|by rewrite Hem|done| |exact H6]. done.
Qed.

(** ** The effect of [progressEvents] *)

(** The requests sent, the mutexes held, and which threads hold one. *)
Definition shared (s : state) : list packet * gset Z * list bool :=
  (s.(packets), s.(mutexLocks), s.(threadMutexMap)).

(** Core [p] is at event [e] of thread [t], at its sub-event [top]. *)
Record current (s : state) (p t : Z) (e : ST_Event) (top : subEvent) : Prop := {
  cur_head : exists row, vget s.(threadMap) p = Ok row /\ head row = Some t;
  cur_event : exists q l, vget s.(eventMap) t = Ok q /\ StaticDeque.abs q = e :: l;
  cur_top : top_subEvent e = Ok top;
  cur_idle : top.(msgTriggered) = false
}.

Inductive effect (s : state) (p : Z) (s' : state) : Prop :=
| effect_none : shared s' = shared s -> effect s p s'
| effect_send t e top msg write :
    current s p t e top -> top.(containsMsg) = true -> top.(thisMsg) = Some msg ->
    (e.(Type_) = TYPE_COMMUNICATION ->
       dep_met s msg = true \/ vget s.(threadMutexMap) t = Ok true) ->
    (write = true -> top.(msgType) = Some DT_REQ_WRITE) ->
    shared s' = (mkPacket p msg.(addr) msg.(numBytes) write t (s.(curTick) / P.(m_clock))
                   :: s.(packets), s.(mutexLocks), s.(threadMutexMap)) ->
    effect s p s'
| effect_lock t e top a :
    current s p t e top -> e.(Type_) = TYPE_PTHREAD_API ->
    e.(PthreadType) = P_MUTEX_LK -> e.(pth_addr) = Some a -> a ∉ s.(mutexLocks) ->
    shared s' = (s.(packets), {[a]} ∪ s.(mutexLocks),
                 <[Z.to_nat e.(ThreadID) := true]> s.(threadMutexMap)) ->
    effect s p s'
| effect_unlock t e top a :
    current s p t e top -> e.(Type_) = TYPE_PTHREAD_API ->
    e.(PthreadType) = P_MUTEX_ULK -> e.(pth_addr) = Some a -> a ∈ s.(mutexLocks) ->
    shared s' = (s.(packets), s.(mutexLocks) ∖ {[a]},
                 <[Z.to_nat e.(ThreadID) := false]> s.(threadMutexMap)) ->
    effect s p s'.

(** A function that keeps the shared members, run after one with an effect. *)
Lemma keeps_use {A B} (obs : state -> B) (m : M state A) s a s' :
  keeps obs m -> m s = Ok (a, s') -> obs s' = obs s.
Proof. intros H. apply H. Qed.

Lemma triggerMsg_shared write count p t top u s s' :
  triggerMsg P accept write count p t top s = Ok (u, s') ->
  shared s' = shared s \/
  exists msg, top.(thisMsg) = Some msg /\
    shared s' = (mkPacket p msg.(addr) msg.(numBytes) write t (s.(curTick) / P.(m_clock))
                   :: s.(packets), s.(mutexLocks), s.(threadMutexMap)).
Proof.
  intros H. unfold triggerMsg in H.
  apply M_bind_Ok in H as (b & s1 & Hs1 & H). unfold queue_empty in Hs1.
  apply M_bind_Ok in Hs1 as (q & s2 & [_ ->]%vread_Ok & [_ ->]%mret_Ok).
  apply M_bind_Ok in H as (? & s1 & [_ ->]%assert_Ok & H).
  apply M_bind_Ok in H as (msg & s1 & [Hmsg ->]%lift_Ok & H).
  apply M_bind_Ok in H as (now & s1 & [-> ->]%gets_Ok & H).
  apply M_bind_Ok in H as (ok & s1 & Hsend & H).
  assert (top.(thisMsg) = Some msg) as Hm by (destruct top.(thisMsg); naive_solver).
  unfold sendTimingReq in Hsend. destruct (_ && _); [|done].
  apply M_bind_Ok in Hsend as (n & s2 & [-> ->]%gets_Ok & Hsend). rewrite modify_run in Hsend.
  destruct (accept _).
  - rewrite modify_run in Hsend. apply mret_Ok in Hsend as [-> ->]. right. exists msg.
    split; [done|]. etrans; [eapply (keeps_use shared); [|exact H]; keeps|]. done.
  - apply mret_Ok in Hsend as [-> ->]. left. by apply mret_Ok in H as [_ ->].
Qed.

Lemma rest_of_pthread_shared b e q p u s s' :
  when b (
    pop_front_subEvent q;;
    vupdate threadStatistics e.(ThreadID)
      (fun t => t <| ts_numSubEvents ::= fun x => u64 (x + 1) |>);;
    now ← getTime P;
    vwrite m_last_progress_vector p now) s = Ok (u, s') -> shared s' = shared s.
Proof. apply keeps_use. keeps. Qed.

(** What a pthread event does to the locks. *)
Lemma progressPthreadEvent_shared e q p u s s' :
  progressPthreadEvent P e q p s = Ok (u, s') ->
  shared s' = shared s \/
  exists a, e.(pth_addr) = Some a /\
    ((e.(PthreadType) = P_MUTEX_LK /\ (a ∉ s.(mutexLocks)) /\
      shared s' = (s.(packets), {[a]} ∪ s.(mutexLocks),
                   <[Z.to_nat e.(ThreadID) := true]> s.(threadMutexMap))) \/
     (e.(PthreadType) = P_MUTEX_ULK /\ a ∈ s.(mutexLocks) /\
      shared s' = (s.(packets), s.(mutexLocks) ∖ {[a]},
                   <[Z.to_nat e.(ThreadID) := false]> s.(threadMutexMap)))).
Proof.
  intros H. unfold progressPthreadEvent in H.
  apply M_bind_Ok in H as (b & s1 & Hop & H%rest_of_pthread_shared). rewrite H.
  destruct (_ =? P_MUTEX_LK) eqn:E1; [|destruct (_ =? P_MUTEX_ULK) eqn:E2]; bool_to_Z.
  - unfold progress_mutex_lock in Hop. apply M_bind_Ok in Hop as (a & s2 & [Ha ->]%lift_Ok & Hop).
    assert (e.(pth_addr) = Some a) by (destruct e.(pth_addr); naive_solver).
    apply M_bind_Ok in Hop as (? & s2 & Hg & Hop). injection Hg as -> ->.
    case_decide; [left; by apply mret_Ok in Hop as [_ ->]|]. right. exists a.
    split; [done|]. left. rewrite modify_run in Hop.
    apply M_bind_Ok in Hop as (? & s3 & [_ ->]%vwrite_Ok & [_ ->]%mret_Ok). done.
  - unfold progress_mutex_unlock in Hop. apply M_bind_Ok in Hop as (a & s2 & [Ha ->]%lift_Ok & Hop).
    assert (e.(pth_addr) = Some a) by (destruct e.(pth_addr); naive_solver).
    apply M_bind_Ok in Hop as (? & s2 & Hg & Hop). injection Hg as -> ->.
    apply M_bind_Ok in Hop as (? & s3 & [Hin ->]%assert_Ok & Hop).
    apply bool_decide_eq_true in Hin. right. exists a. split; [done|]. right.
    rewrite modify_run in Hop.
    apply M_bind_Ok in Hop as (? & s3 & [_ ->]%vwrite_Ok & [_ ->]%mret_Ok). done.
  - left. eapply (keeps_use shared); [|exact Hop]. clear. keeps.
Qed.

Lemma checkCommDependency_Ok s c b s' :
  queues_wf s -> checkCommDependency c s = Ok (b, s') -> b = dep_met s c /\ s' = s.
Proof.
  intros W H. destruct (decide (dep_in_range s c)) as [Hr|Hr].
  - rewrite checkCommDependency_run in H by done. by injection H as -> ->.
  - exfalso. apply Hr. unfold checkCommDependency in H.
    destruct (_ =? OS_THREAD) eqn:E; bool_to_Z; [by left|].
    apply M_bind_Ok in H as (q & s1 & [Hq ->]%vread_Ok & H). right. by eapply vget_Ok_range.
Qed.

(** The state in which the due sub-event is handled differs from [s] in the
    statistics only. *)
Record counted (s s1 : state) : Prop := {
  cnt_shared : shared s1 = shared s;
  cnt_events : s1.(eventMap) = s.(eventMap);
  cnt_tick : s1.(curTick) = s.(curTick)
}.

Lemma counted_fields s s1 : counted s s1 ->
  s1.(packets) = s.(packets) /\ s1.(mutexLocks) = s.(mutexLocks) /\
  s1.(threadMutexMap) = s.(threadMutexMap).
Proof. intros []. unfold shared in *. naive_solver. Qed.

Section due.
Context (s s1 s' : state) (p t : Z) (e : ST_Event) (top : subEvent).
Context (W : queues_wf s) (C : current s p t e top) (N : counted s s1).

(** A request that was offered. *)
Lemma trigger_effect write count u :
  triggerMsg P accept write count p t top s1 = Ok (u, s') ->
  top.(containsMsg) = true ->
  (forall msg, top.(thisMsg) = Some msg -> e.(Type_) = TYPE_COMMUNICATION ->
     dep_met s msg = true \/ vget s.(threadMutexMap) t = Ok true) ->
  (write = true -> top.(msgType) = Some DT_REQ_WRITE) ->
  effect s p s'.
Proof.
  intros H Hc Hd Hw. destruct N as [Hsh _ Htick].
  destruct (counted_fields s s1 N) as (Hpk & Hmu & Hmm).
  apply triggerMsg_shared in H as [H|(msg & Hm & H)]; [apply effect_none; congruence|].
  rewrite Htick, Hpk, Hmu, Hmm in H. by eapply (effect_send _ _ _ t e top msg write); eauto.
Qed.

(** A communication read waits for its producer or the mutex. *)
Lemma comm_effect (now : Z) (u : unit) :
  (msg ← lift (deref top.(thisMsg));
   met ← checkCommDependency msg;
   go ← match met with true => mret true | false => vread threadMutexMap t end;
   match go with
   | true => triggerCommReadMsg P accept p t top
   | false =>
       e' ← lift (set_top_subEvent e (top <| triggerTime := Some (now + 1) |>));
       set_front_event t e';;
       schedule_core p (now + 1);;
       vwrite m_last_progress_vector p now
   end) s1 = Ok (u, s') ->
  top.(containsMsg) = true -> effect s p s'.
Proof.
  intros H Hc. destruct N as [Hsh Hem _]. destruct (eventMap_eq s s1 Hem W) as [W1 Hsk].
  destruct (counted_fields s s1 N) as (_ & _ & Hmm).
  apply M_bind_Ok in H as (msg & s2 & [Hmsg ->]%lift_Ok & H).
  apply M_bind_Ok in H as (met & s2 & [-> ->]%checkCommDependency_Ok & H); [|done].
  apply M_bind_Ok in H as (go & s2 & Hgo & H).
  assert (s2 = s1 /\ (go = true -> dep_met s msg = true \/
                      vget s.(threadMutexMap) t = Ok true)) as [-> Hmet].
  { assert (dep_met s1 msg = dep_met s msg) as Hd by (unfold dep_met; by rewrite Hsk).
    rewrite Hd in Hgo. rewrite <- Hmm. destruct (dep_met s msg).
    - apply mret_Ok in Hgo as [-> ->]. naive_solver.
    - apply vread_Ok in Hgo as [? ->]. split; [done|]. intros ->. by right. }
  destruct go.
  - eapply trigger_effect; [exact H|done| |done]. intros msg' Hm _.
    destruct top.(thisMsg); naive_solver.
  - apply effect_none. rewrite <- Hsh. eapply (keeps_use shared); [|exact H]. keeps.
Qed.

(** A sub-event without a message. *)
Lemma plain_effect (now : Z) (u : unit) :
  ((if negb (e.(Type_) =? TYPE_PTHREAD_API) then
      vupdate threadStatistics t
        (fun st => st <| ts_numSubEvents ::= fun x => u64 (x + 1) |>);;
      pop_front_subEvent t;;
      vwrite m_last_progress_vector p now
    else progressPthreadEvent P e t p);;
   finish_subEvent P cfg p t) s1 = Ok (u, s') ->
  effect s p s'.
Proof.
  intros H. destruct N as [Hsh _ _].
  destruct (counted_fields s s1 N) as (Hpk & Hmu & Hmm).
  apply M_bind_Ok in H as (? & s2 & Hp & H).
  assert (shared s' = shared s2) as Hfin by (eapply (keeps_use shared); [|exact H]; keeps).
  destruct (_ =? TYPE_PTHREAD_API) eqn:Ety; cbn [negb] in Hp; bool_to_Z.
  - apply progressPthreadEvent_shared in Hp as [Hp|(a & Haddr & Hp)];
      [apply effect_none; congruence|].
    rewrite Hpk, Hmu, Hmm in Hp.
    destruct Hp as [(Hty & Hin & Hs2)|(Hty & Hin & Hs2)]; rewrite Hs2 in Hfin.
    + by eapply effect_lock.
    + by eapply effect_unlock.
  - apply effect_none. rewrite Hfin, <- Hsh. eapply (keeps_use shared); [|exact Hp]. keeps.
Qed.
End due.

Lemma progressEvents_effect p u s s' :
  queues_wf s -> progressEvents P cfg accept p s = Ok (u, s') -> effect s p s'.
Proof.
  intros W H. unfold progressEvents in H.
  apply M_bind_Ok in H as (row & s1 & [Hrow ->]%vread_Ok & H).
  apply M_bind_Ok in H as (t & s1 & [Ht%vfront_head ->]%lift_Ok & H).
  apply M_bind_Ok in H as (b & s1 & [_ ->]%vread_Ok & H).
  destruct b; cbn [negb] in H; [|apply mret_Ok in H as [_ ->]; by apply effect_none].
  apply M_bind_Ok in H as (none & s1 & [-> _]%queue_empty_Ok & H); [|done].
  destruct none; [apply mret_Ok in H as [_ ->]; by apply effect_none|].
  apply M_bind_Ok in H as (e & s1 & (-> & q & l & Hq & Ha)%front_event_Ok & H); [|done].
  apply M_bind_Ok in H as (top & s1 & [Htop ->]%lift_Ok & H).
  apply M_bind_Ok in H as (trig & s1 & [_ ->]%lift_Ok & H).
  apply M_bind_Ok in H as (now & s1 & [-> ->]%gets_Ok & H).
  destruct ((trig <=? _) && negb (msgTriggered top)) eqn:Edue;
    [|apply effect_none; eapply (keeps_use shared); [|exact H]; keeps].
  apply andb_true_iff in Edue as [_ Hidle%negb_true_iff].
  assert (current s p t e top) as C by (split; eauto).
  apply M_bind_Ok in H as (? & s1 & Hv & H).
  assert (counted s s1) as N
    by (split; (eapply keeps_use; [|exact Hv]); keeps).
  destruct (containsMsg top) eqn:Emsg; cbn [negb] in H.
  - destruct (_ =? TYPE_COMMUNICATION) eqn:Ety; bool_to_Z; [by eapply comm_effect|].
    apply M_bind_Ok in H as (ty & s2 & [Hty ->]%lift_Ok & H).
    assert (top.(msgType) = Some ty) as Hm by (destruct top.(msgType); naive_solver).
    case_bool_decide; (eapply trigger_effect; [done..|exact H|done|done|]);
      [intros _; congruence|done].
  - by eapply plain_effect.
Qed.

(** ** The effect of a step *)

(** The state in which [wakeup(p)] calls [progressEvents]: the head event has
    been split, nothing else that matters here has changed. *)
Record prepared (s : state) (p : Z) (s1 : state) : Prop := {
  pre_run : (printThreadEvents;; createSubEvents P rand p None)
    (s <| coreEvents := <[Z.to_nat p := None]> s.(coreEvents) |>) = Ok (tt, s1);
  pre_wf : queues_wf s1;
  pre_skeleton : skeleton s1 = skeleton s;
  pre_shared : shared s1 = shared s;
  pre_rows : s1.(threadMap) = s.(threadMap);
  pre_tick : s1.(curTick) = s.(curTick)
}.

Lemma prepared_fields s p s1 : prepared s p s1 ->
  s1.(packets) = s.(packets) /\ s1.(mutexLocks) = s.(mutexLocks) /\
  s1.(threadMutexMap) = s.(threadMutexMap).
Proof. intros []. unfold shared in *. naive_solver. Qed.

Lemma dep_met_skeleton s s1 c : skeleton s1 = skeleton s -> dep_met s1 c = dep_met s c.
Proof. intros H. unfold dep_met. by rewrite H. Qed.

Lemma effect_shared s p s2 s' : shared s' = shared s2 -> effect s p s2 -> effect s p s'.
Proof.
  intros H []; [apply effect_none|eapply effect_send|eapply effect_lock|eapply effect_unlock];
    eauto; congruence.
Qed.

Lemma wakeup_core_effect p s s' :
  queues_wf s ->
  wakeup_core P cfg rand accept p
    (s <| coreEvents := <[Z.to_nat p := None]> s.(coreEvents) |>) = Ok (tt, s') ->
  exists s1, prepared s p s1 /\ effect s1 p s'.
Proof.
  intros W H. unfold wakeup_core in H.
  apply M_bind_Ok in H as ([] & s0 & H0 & H). apply M_bind_Ok in H as ([] & s1 & H1 & H).
  apply M_bind_Ok in H as ([] & s2 & H2 & H).
  assert ((printThreadEvents;; createSubEvents P rand p None)
    (s <| coreEvents := <[Z.to_nat p := None]> s.(coreEvents) |>) = Ok (tt, s1)) as Hrun
    by (by rewrite (M_bind_run _ _ _ _ _ H0)).
  assert (s0.(eventMap) = s.(eventMap)) as Hem
    by (unfold printThreadEvents in H0; by apply modify_Ok in H0 as ->).
  destruct (eventMap_eq s s0 Hem W) as [W0 Hsk0].
  destruct (createSubEvents_skeleton p None tt s0 s1 W0 H1) as [W1 Hsk1].
  exists s1. split.
  - split; [done|done|congruence|..];
      (etrans; [eapply keeps_use; [|exact Hrun]|]; [|done]); unfold printThreadEvents; keeps.
  - eapply effect_shared; [|by eapply progressEvents_effect].
    eapply (keeps_use shared); [|exact H]. keeps.
Qed.

Lemma step_effect s l s' :
  queues_wf s -> step P cfg rand accept s l (Ok (tt, s')) ->
  shared s' = shared s \/ exists p s1, l = Core p /\ prepared s p s1 /\ effect s1 p s'.
Proof.
  intros W H. inversion H as [t| Hst Hl Hr | p Hc Hl Hr | p Haw Hl Hr]; subst.
  - by left.
  - left. etrans; [eapply (keeps_use shared); [|exact Hr]|done]. unfold wakeup_master. keeps.
  - right. destruct (wakeup_core_effect p s s' W Hr) as (s1 & Hp & He). eauto.
  - left. eapply (keeps_use shared); [|exact Hr]. keeps.
Qed.
End effects.

(** ** The theorems *)

(** C5: requests respect the trace's dependencies.  Only the handler of a core
    sends a request, one per call, for the sub-event its head thread is at; and
    a read of data that another thread produced is sent only when the producer
    has passed the producing event (or its queue is empty, or it is the
    operating system), or when the reading thread holds a mutex. *)
Theorem requests_wait_for_producers P cfg rand accept mem files pthread_file s l s' :
  params_ok P -> mem.(held_count) <= 0 ->
  reachable P cfg rand accept mem files pthread_file s ->
  step P cfg rand accept s l (Ok (tt, s')) -> s'.(packets) <> s.(packets) ->
  exists p t e top msg write s1,
    l = Core p /\ prepared P rand s p s1 /\ current s1 p t e top /\
    top.(thisMsg) = Some msg /\
    s'.(packets) = mkPacket p msg.(addr) msg.(numBytes) write t (s.(curTick) / P.(m_clock))
                     :: s.(packets) /\
    (e.(Type_) = TYPE_COMMUNICATION ->
       dep_met s msg = true \/ vget s.(threadMutexMap) t = Ok true).
Proof.
  intros POK Hg Hr Hstep Hne.
  pose proof (INV_queues_wf _ _ _ _ (reachable_INV P cfg rand accept _ _ _ POK s Hg Hr)) as W.
  destruct (step_effect P cfg rand accept s l s' W Hstep) as [H|(p & s1 & -> & Hp & He)].
  { unfold shared in H. naive_solver. }
  destruct (prepared_fields _ _ s p s1 Hp) as (Hpk & Hmu & Hmm).
  destruct He as [H|t e top msg write C _ Hmsg Hd _ H|t e top a _ _ _ _ _ H|
                  t e top a _ _ _ _ _ H];
    unfold shared in H; injection H as H1 H2 H3; try congruence.
  exists p, t, e, top, msg, write, s1. split_and!; try done.
  - rewrite H1, Hpk. by rewrite (pre_tick _ _ _ _ _ Hp).
  - rewrite <- Hmm. by rewrite <- (dep_met_skeleton s s1 msg (pre_skeleton _ _ _ _ _ Hp)).
Qed.

(** C7: mutual exclusion.  The set of held mutexes changes only in the handler
    of a core whose head thread is at a lock or unlock event, by that event's
    mutex: a lock takes a mutex that nobody holds and marks the thread, an
    unlock gives back one that is held. *)
Theorem mutexes_exclusive P cfg rand accept mem files pthread_file s l s' :
  params_ok P -> mem.(held_count) <= 0 ->
  reachable P cfg rand accept mem files pthread_file s ->
  step P cfg rand accept s l (Ok (tt, s')) ->
  s'.(mutexLocks) <> s.(mutexLocks) ->
  exists p row t e es a,
    l = Core p /\ vget s.(threadMap) p = Ok row /\ head row = Some t /\
    vget (skeleton s) t = Ok (e :: es) /\ e.(Type_) = TYPE_PTHREAD_API /\
    e.(pth_addr) = Some a /\
    ((e.(PthreadType) = P_MUTEX_LK /\ (a ∉ s.(mutexLocks)) /\
      s'.(mutexLocks) = {[a]} ∪ s.(mutexLocks) /\
      s'.(threadMutexMap) = <[Z.to_nat e.(ThreadID) := true]> s.(threadMutexMap)) \/
     (e.(PthreadType) = P_MUTEX_ULK /\ a ∈ s.(mutexLocks) /\
      s'.(mutexLocks) = s.(mutexLocks) ∖ {[a]} /\
      s'.(threadMutexMap) = <[Z.to_nat e.(ThreadID) := false]> s.(threadMutexMap))).
Proof.
  intros POK Hg Hr Hstep Hne.
  pose proof (INV_queues_wf _ _ _ _ (reachable_INV P cfg rand accept _ _ _ POK s Hg Hr)) as W.
  destruct (step_effect P cfg rand accept s l s' W Hstep) as [H|(p & s1 & -> & Hp & He)].
  { unfold shared in H. naive_solver. }
  destruct (prepared_fields _ _ s p s1 Hp) as (Hpk & Hmu & Hmm).
  assert (forall t e top, current s1 p t e top ->
    exists row es, vget s.(threadMap) p = Ok row /\ head row = Some t /\
      vget (skeleton s) t = Ok (strip e :: es)) as Hcur.
  { intros t e top [(row & Hrow & Hh) (q & es & Hq & Ha) _ _].
    exists row, (strip <$> es). rewrite <- (pre_rows _ _ _ _ _ Hp).
    rewrite <- (pre_skeleton _ _ _ _ _ Hp). split_and!; [done..|].
    rewrite (skeleton_vget s1 t q Hq), Ha. done. }
  destruct He as [H|t e top msg write _ _ _ _ _ H|t e top a C Hty Hlk Ha Hin H|
                  t e top a C Hty Hlk Ha Hin H];
    unfold shared in H; injection H as H1 H2 H3; try congruence;
    destruct (Hcur t e top C) as (row & es & Hrow & Hh & Hsk);
    exists p, row, t, (strip e), es, a; split_and!; try done; rewrite Hmu in *;
    rewrite Hmm in *; [left|right]; done.
Qed.

End ReplayEffects.
