(* ===== verification/ReplayEnd.v ===== *)
(** * The end of the simulation, and barriers

    When the replay asks the simulator to stop, over the steps of the
    transition system; and what a barrier event does to the threads that take
    part in the barrier. *)

From S2P Require Import Prelude.
From S2P Require Import StaticDeque.
From S2P Require Import STEvent.
From S2P Require Import CString.
From S2P Require Import Requests.
From S2P Require Import TraceParser.
From S2P Require Import TriggerTime.
From S2P Require Import SubEvents.
From S2P Require Import ReplayState.
From S2P Require Import Replay.
From S2P Require Import ReplayInv.
From S2P Require Import ReplaySafe.
From S2P Require Import ReplayHandlers.
From S2P Require Import ReplaySystem.
From S2P Require Import ReplayFrame.
From S2P Require Import ReplaySchedule.
From S2P Require Import ReplayEffects.
Import STEvent CString Requests TraceParser TriggerTime SubEvents ReplayState Replay
  ReplayInv ReplaySafe ReplayHandlers ReplaySystem ReplayFrame ReplaySchedule ReplayEffects.

Module ReplayEnd.

(** ** Completion *)
Definition all_replayed (n : Z) (s : state) : Prop :=
  forall t, 0 <= t < n -> vget (skeleton s) t = Ok [].

Definition ending (s : state) : bool * bool := (s.(stopped), s.(exit_requested)).

Section ending.
Context (P : Params) (cfg : RubyCfg) (rand : nat -> Z) (accept : nat -> bool).

Lemma all_queues_empty_Ok ts b s s' :
  queues_wf s -> all_queues_empty ts s = Ok (b, s') ->
  s' = s /\ (b = true <-> forall t, t ∈ ts -> vget (skeleton s) t = Ok []).
Proof.
  intros W. revert b. induction ts as [|t ts IH]; intros b H; cbn [all_queues_empty] in H.
  - apply mret_Ok in H as [-> ->]. split; [done|]. split; [|done].
    intros _ t Ht. by apply elem_of_nil in Ht.
  - apply M_bind_Ok in H as (e & s1 & (-> & q & Hq & ->)%queue_empty_Ok & H); [|done].
    pose proof (skeleton_vget s t q Hq) as Hsk. case_bool_decide as Ha.
    + destruct (IH b H) as [-> Hb]. split; [done|]. rewrite Hb. rewrite Ha in Hsk.
      setoid_rewrite elem_of_cons. naive_solver.
    + apply mret_Ok in H as [-> ->]. split; [done|]. split; [done|]. intros Hall.
      rewrite Hall in Hsk by by left. injection Hsk as Hsk. symmetry in Hsk.
      by apply fmap_nil_inv in Hsk.
Qed.

Lemma checkCompletion_Ok u s s' :
  queues_wf s -> s.(exit_requested) = s.(stopped) -> checkCompletion P s = Ok (u, s') ->
  s'.(exit_requested) = s'.(stopped) /\ s'.(eventMap) = s.(eventMap) /\
  (s'.(exit_requested) = true <->
     s.(exit_requested) = true \/ all_replayed P.(num_threads) s).
Proof.
  intros W Hst H.
  assert (s'.(eventMap) = s.(eventMap)) as Hem by (eapply keeps_use; [|exact H]; keeps).
  unfold checkCompletion in H.
  apply M_bind_Ok in H as (b & s1 & (-> & Hb)%all_queues_empty_Ok & H); [|done].
  apply M_bind_Ok in H as (st & s1 & [-> ->]%gets_Ok & H).
  assert (b = true <-> all_replayed P.(num_threads) s) as Hall.
  { rewrite Hb. unfold all_replayed. by setoid_rewrite elem_of_upto. }
  rewrite <- Hall. destruct b; cbn [andb when] in H.
  - destruct (stopped s) eqn:E; cbn [negb when] in H.
    + apply mret_Ok in H as [_ ->]. rewrite Hst, E. naive_solver.
    + apply M_bind_Ok in H as (? & s1 & _ & H). apply M_bind_Ok in H as (? & s2 & _ & H).
      apply modify_Ok in H as ->. naive_solver.
  - apply mret_Ok in H as [_ ->]. rewrite Hst. naive_solver.
Qed.

(** [wakeup()] ends the simulation when nothing is left to replay. *)
Lemma wakeup_master_Ok u s s' :
  queues_wf s' -> s.(exit_requested) = s.(stopped) ->
  wakeup_master P cfg rand s = Ok (u, s') ->
  s'.(exit_requested) = s'.(stopped) /\
  (s'.(exit_requested) = true <->
     s.(exit_requested) = true \/ all_replayed P.(num_threads) s').
Proof.
  intros W Hst H. unfold wakeup_master in H.
  apply M_bind_Ok in H as (? & s1 & H1 & H). apply M_bind_Ok in H as (? & s2 & H2 & H).
  apply M_bind_Ok in H as (? & s3 & H3 & H). rewrite gets_run in H.
  assert (ending s2 = ending s) as Hend.
  { etrans; [eapply keeps_use; [|exact H2]; keeps|]. eapply keeps_use; [|exact H1]; keeps. }
  assert (ending s' = ending s3) as Hend' by (eapply keeps_use; [|exact H]; keeps).
  assert (s'.(eventMap) = s3.(eventMap)) as Hem by (eapply keeps_use; [|exact H]; keeps).
  assert (s3.(eventMap) = s2.(eventMap)) as Hem3 by (eapply keeps_use; [|exact H3]; keeps).
  unfold ending in Hend, Hend'. injection Hend as Hs2 He2. injection Hend' as Hs' He'.
  destruct (eventMap_eq s' s2 ltac:(congruence) W) as [W2 Hsk].
  destruct (checkCompletion_Ok _ s2 s3 W2 ltac:(congruence) H3) as (Hst3 & _ & Hex).
  split; [congruence|]. rewrite He', Hex, He2. unfold all_replayed. by rewrite Hsk.
Qed.

Lemma step_ending s l s' :
  queues_wf s' -> s.(exit_requested) = s.(stopped) ->
  step P cfg rand accept s l (Ok (tt, s')) ->
  s'.(exit_requested) = s'.(stopped) /\
  (s.(exit_requested) = false ->
   s'.(exit_requested) = true <-> l = Master /\ all_replayed P.(num_threads) s').
Proof.
  intros W Hst H.
  assert (ending s' = ending s -> l <> Master ->
    s'.(exit_requested) = s'.(stopped) /\
    (s.(exit_requested) = false ->
     s'.(exit_requested) = true <-> l = Master /\ all_replayed P.(num_threads) s')) as Hsame.
  { unfold ending. intros [= Hs He] Hl. rewrite Hs, He. split; [done|].
    intros ->. split; [done|]. by intros [? _]. }
  inversion H as [t| Hs Hl Hr | p Hc Hl Hr | p Haw Hl Hr]; subst.
  - by apply Hsame.
  - apply wakeup_master_Ok in Hr as [Hst' Hex]; [|done|done]. split; [done|].
    intros He. rewrite Hex. cbn. rewrite He. intuition discriminate.
  - apply Hsame; [|done].
    etrans; [eapply (keeps_use ending); [|exact Hr]; keeps|]. done.
  - apply Hsame; [|done]. eapply (keeps_use ending); [|exact Hr]. keeps.
Qed.

Section runs.
Context (mem : ObjectMemory) (files : list (option (list str))).
Context (pthread_file : option (list str)) (POK : params_ok P) (G : mem.(held_count) <= 0).
Abbreviation reach := (reachable P cfg rand accept mem files pthread_file).

Lemma init_ending s :
  init P cfg files pthread_file (constructed mem) = Ok (tt, s) ->
  s.(exit_requested) = s.(stopped).
Proof.
  intros H.
  assert (s.(exit_requested) = false) as ->.
  { eapply (keeps_use exit_requested) in H; [exact H|].
    unfold init, allocate_queues, initStats, initSigilFilePointers, initialThreadMapping,
      generateEventQueue, readEventFile. keeps. }
  symmetry. unfold init in H. inv_run.
  transitivity (stopped x34); [|unfold initStats in H16; by apply modify_Ok in H16 as ->].
  etrans; [eapply keeps_use; [|exact H20]; unfold generateEventQueue, readEventFile; keeps|].
  etrans; [eapply keeps_use; [|exact H19]; unfold initialThreadMapping; keeps|].
  etrans; [eapply keeps_use; [|exact H18]; keeps|].
  eapply keeps_use; [|exact H17]; unfold initSigilFilePointers; keeps.
Qed.

Lemma reachable_step_wf s l s' :
  reach s -> s.(exit_requested) = false -> step P cfg rand accept s l (Ok (tt, s')) ->
  queues_wf s'.
Proof.
  intros Hr He Hs. eapply INV_queues_wf.
  apply (reachable_INV P cfg rand accept mem files pthread_file POK s' G). by eapply reach_step.
Qed.

Lemma reachable_ending s : reach s -> s.(exit_requested) = s.(stopped).
Proof.
  induction 1 as [s Hi|s l s' Hr IH He Hs]; [by apply init_ending|].
  by apply (step_ending s l s'); [eapply reachable_step_wf|..].
Qed.
End runs.
End ending.

(** C9: the replay asks the simulator to stop exactly when the master event
    runs and finds every thread's queue empty: it does not stop with events
    left to replay, and a master event that finds none left stops it. *)
Theorem stops_when_replayed P cfg rand accept mem files pthread_file s l s' :
  params_ok P -> mem.(held_count) <= 0 ->
  reachable P cfg rand accept mem files pthread_file s ->
  s.(exit_requested) = false -> step P cfg rand accept s l (Ok (tt, s')) ->
  s'.(exit_requested) = true <-> l = Master /\ all_replayed P.(num_threads) s'.
Proof.
  intros POK Hg Hr He Hs.
  eapply (step_ending P cfg rand accept s l s'); [by eapply reachable_step_wf| |done|done].
  by eapply reachable_ending.
Qed.

(** ** Barriers *)
Definition waiting (s : state) (a : Z) : gset Z :=
  default ∅ (s.(pthreadMaps).(threadWaitMap) !! a).

Definition participants (s : state) (a : Z) : gset Z :=
  default ∅ (s.(pthreadMaps).(BarrierMap) !! a).

Lemma wait_set_run {B} a (k : gset Z -> M state B) s :
  exists s1, (wait_set a ≫= k) s = k (waiting s a) s1 /\
    waiting s1 a = waiting s a /\ participants s1 a = participants s a /\
    s1.(threadStartedMap) = s.(threadStartedMap) /\ s1.(threadContMap) = s.(threadContMap).
Proof.
  unfold wait_set, waiting, participants, mbind, M_bind, get, map_index, modify, mret, M_ret.
  destruct (threadWaitMap (pthreadMaps s) !! a) as [w|] eqn:E; cbn; eexists;
    (split; [reflexivity|]); cbn; rewrite ?E, ?lookup_insert_eq; done.
Qed.

Lemma barrier_set_run {B} a (k : gset Z -> M state B) s :
  exists s1, (barrier_set a ≫= k) s = k (participants s a) s1 /\
    waiting s1 a = waiting s a /\ participants s1 a = participants s a /\
    s1.(threadStartedMap) = s.(threadStartedMap) /\ s1.(threadContMap) = s.(threadContMap).
Proof.
  unfold barrier_set, waiting, participants, mbind, M_bind, get, map_index, modify, mret, M_ret.
  destruct (BarrierMap (pthreadMaps s) !! a) as [w|] eqn:E; cbn; eexists;
    (split; [reflexivity|]); cbn; rewrite ?E, ?lookup_insert_eq; done.
Qed.

(** Two states that a barrier event cannot tell apart. *)
Definition same_barrier (a : Z) (s s1 : state) : Prop :=
  waiting s1 a = waiting s a /\ participants s1 a = participants s a /\
  s1.(threadStartedMap) = s.(threadStartedMap) /\ s1.(threadContMap) = s.(threadContMap).

(** The threads [ts] are let through. *)
Definition let_through : list Z -> M state unit := fun ts =>
  for_each ts (fun t => vwrite threadStartedMap t true;; vwrite threadContMap t true).

Definition raise (ts : list Z) (l : list bool) : list bool :=
  foldl (fun l t => <[Z.to_nat t := true]> l) l ts.

Lemma length_raise ts : forall l, length (raise ts l) = length l.
Proof.
  induction ts as [|t ts IH]; intros l; [done|].
  change (raise (t :: ts) l) with (raise ts (<[Z.to_nat t := true]> l)).
  by rewrite IH, length_insert.
Qed.

Lemma vget_raise ts : forall l t,
  (forall t, t ∈ ts -> 0 <= t < Z.of_nat (length l)) ->
  vget (raise ts l) t = if decide (t ∈ ts) then Ok true else vget l t.
Proof.
  induction ts as [|t0 ts IH]; intros l t H; [done|].
  change (raise (t0 :: ts) l) with (raise ts (<[Z.to_nat t0 := true]> l)).
  rewrite IH by (intros u Hu; rewrite length_insert; apply H; by right).
  specialize (H t0 ltac:(by left)). destruct (decide (t ∈ ts)) as [Hin|Hin].
  - rewrite decide_True by by right. done.
  - destruct (decide (t = t0)) as [->|Hne].
    + rewrite decide_True by by left. by apply vget_insert_eq.
    + rewrite decide_False by (intros [?|?]%elem_of_cons; done). apply vget_insert_ne; lia.
Qed.

Lemma vget_raise_elements (b : gset Z) l t :
  (forall u, u ∈ b -> 0 <= u < Z.of_nat (length l)) ->
  vget (raise (elements b) l) t = if decide (t ∈ b) then Ok true else vget l t.
Proof.
  intros H. rewrite vget_raise by (intros u Hu%elem_of_elements; by apply H).
  destruct (decide (t ∈ elements b)) as [Hin|Hin]; rewrite elem_of_elements in Hin;
    [by rewrite decide_True|by rewrite decide_False].
Qed.

Lemma let_through_run ts : forall s,
  (forall t, t ∈ ts -> 0 <= t < Z.of_nat (length s.(threadStartedMap))) ->
  (forall t, t ∈ ts -> 0 <= t < Z.of_nat (length s.(threadContMap))) ->
  let_through ts s = Ok (tt, s <| threadStartedMap ::= raise ts |> <| threadContMap ::= raise ts |>).
Proof.
  induction ts as [|t ts IH]; intros s Hs Hc; [by destruct s|]. unfold let_through.
  cbn [for_each]. unfold M in *.
  rewrite (M_bind_run _ _ s tt
    (s <| threadStartedMap := <[Z.to_nat t := true]> s.(threadStartedMap) |>
       <| threadContMap := <[Z.to_nat t := true]> s.(threadContMap) |>)).
  - fold (let_through ts). apply IH; intros u Hu; cbn; rewrite length_insert;
      [apply Hs|apply Hc]; by right.
  - rewrite vwrite_run by (apply Hs; by left). apply vwrite_Ok. split; [|done].
    apply Hc. by left.
Qed.

(** The thread arrives: it joins the waiting threads and stops. *)
Definition arrive (t : Z) (w : gset Z) (l : list bool) : list bool :=
  if decide (t ∈ w) then l else <[Z.to_nat t := false]> l.

Lemma arrive_run {B} t a (k : unit -> M state B) s :
  0 <= t < Z.of_nat (length s.(threadStartedMap)) ->
  exists s1,
    (when (bool_decide (t ∉ waiting s a)) (
       set_wait_set a ({[t]} ∪ waiting s a);; vwrite threadStartedMap t false) ≫= k) s
      = k tt s1 /\
    waiting s1 a = {[t]} ∪ waiting s a /\ participants s1 a = participants s a /\
    s1.(threadStartedMap) = arrive t (waiting s a) s.(threadStartedMap) /\
    s1.(threadContMap) = s.(threadContMap).
Proof.
  intros Ht. unfold arrive. destruct (decide (t ∈ waiting s a)) as [Hin|Hin].
  - exists s. rewrite bool_decide_false by (intros H; by apply H). cbn [when].
    split_and!; try done. clear -Hin. set_solver.
  - rewrite bool_decide_true by done. cbn [when]. eexists. split.
    + rewrite (M_bind_run _ _ s tt (s <| pthreadMaps ::= fun p =>
        p <| threadWaitMap ::= insert a ({[t]} ∪ waiting s a) |> |>
        <| threadStartedMap := <[Z.to_nat t := false]> s.(threadStartedMap) |>)); [done|].
      unfold set_wait_set. rewrite modify_run. by apply vwrite_Ok.
    + unfold waiting, participants. cbn. rewrite lookup_insert_eq. done.
Qed.

Lemma difference_empty (b w : gset Z) : b ∖ w = ∅ <-> b ⊆ w.
Proof. split; set_solver. Qed.

Lemma checkBarriers_run {B} e a (k : bool -> M state B) s :
  e.(pth_addr) = Some a ->
  exists s1, (checkBarriers e ≫= k) s =
      k (bool_decide (participants s a ⊆ waiting s a)) s1 /\
    waiting s1 a = waiting s a /\ participants s1 a = participants s a /\
    s1.(threadStartedMap) = s.(threadStartedMap) /\ s1.(threadContMap) = s.(threadContMap).
Proof.
  intros Ha. unfold checkBarriers.
  destruct (wait_set_run a (fun w => b ← barrier_set a; mret (bool_decide (b ∖ w = ∅))) s)
    as (s1 & H1 & Hw1 & Hp1 & Hs1 & Hc1).
  destruct (barrier_set_run a (fun b => mret (bool_decide (b ∖ waiting s a = ∅))) s1)
    as (s2 & H2 & Hw2 & Hp2 & Hs2 & Hc2).
  exists s2. split; [|split_and!; congruence].
  apply M_bind_run. rewrite Ha, lift_bind_run. cbn [read]. rewrite H1, H2, Hp1.
  unfold mret, M_ret. do 2 f_equal. apply bool_decide_ext, difference_empty.
Qed.

Lemma length_arrive t w l : length (arrive t w l) = length l.
Proof. unfold arrive. case_decide; [done|apply length_insert]. Qed.

(** All threads of the barrier are waiting. *)
Lemma open_run a s :
  (forall u, u ∈ participants s a ->
     0 <= u < Z.of_nat (length s.(threadStartedMap)) /\
     0 <= u < Z.of_nat (length s.(threadContMap))) ->
  exists s',
    (b ← barrier_set a;
     for_each (elements b) (fun t =>
       vwrite threadStartedMap t true;; vwrite threadContMap t true);;
     set_wait_set a ∅;;
     modify (fun s => s <| barrier_reports ::= Z.add 1 |>)) s = Ok (tt, s') /\
    waiting s' a = ∅ /\
    s'.(threadContMap) = raise (elements (participants s a)) s.(threadContMap) /\
    s'.(threadStartedMap) = raise (elements (participants s a)) s.(threadStartedMap).
Proof.
  intros H.
  match goal with |- context [(barrier_set a ≫= ?k) s] =>
    destruct (barrier_set_run a k s) as (s1 & -> & Hw & Hp & Hs & Hc) end.
  eexists. split.
  - rewrite (M_bind_run _ _ _ _ _ (let_through_run (elements (participants s a)) s1
      ltac:(intros u Hu%elem_of_elements; rewrite Hs; by apply H)
      ltac:(intros u Hu%elem_of_elements; rewrite Hc; by apply H))).
    reflexivity.
  - unfold waiting. cbn. rewrite lookup_insert_eq, Hs, Hc. done.
Qed.

(** C8: a barrier opens for all its threads together, and only when all of
    them have arrived.  A thread that was let through consumes its event once.
    A thread that arrives stops and waits; when the threads of the barrier are
    all waiting, each of them is started and let through and the barrier is
    reset, and no other thread is touched; otherwise nobody is let through. *)
Theorem barrier_opens_together e s c a :
  e.(pth_addr) = Some a -> vget s.(threadContMap) e.(ThreadID) = Ok c ->
  (forall u, u = e.(ThreadID) \/ u ∈ participants s a ->
     0 <= u < Z.of_nat (length s.(threadStartedMap)) /\
     0 <= u < Z.of_nat (length s.(threadContMap))) ->
  exists s', progress_barrier e s = Ok (c, s') /\
    if c then
      s' = s <| threadContMap := <[Z.to_nat e.(ThreadID) := false]> s.(threadContMap) |>
    else if decide (participants s a ⊆ {[e.(ThreadID)]} ∪ waiting s a) then
      waiting s' a = ∅ /\
      (forall u, vget s'.(threadContMap) u =
         if decide (u ∈ participants s a) then Ok true else vget s.(threadContMap) u) /\
      (forall u, vget s'.(threadStartedMap) u =
         if decide (u ∈ participants s a) then Ok true
         else vget (arrive e.(ThreadID) (waiting s a) s.(threadStartedMap)) u)
    else
      waiting s' a = {[e.(ThreadID)]} ∪ waiting s a /\
      s'.(threadContMap) = s.(threadContMap) /\
      s'.(threadStartedMap) = arrive e.(ThreadID) (waiting s a) s.(threadStartedMap).
Proof.
  intros Ha Hc Hr. unfold progress_barrier. set (t := e.(ThreadID)) in *.
  rewrite (vread_run _ _ c) by done.
  destruct (Hr t ltac:(by left)) as [Hts Htc]. destruct c.
  { eexists. split; [|done]. by rewrite vwrite_run. }
  rewrite Ha, lift_bind_run. cbn [read].
  match goal with |- context [(wait_set a ≫= ?k) s] =>
    destruct (wait_set_run a k s) as (s1 & -> & Hw1 & Hp1 & Hs1 & Hc1) end.
  rewrite <- Hw1. cbv beta.
  match goal with |- context [(_ ≫= ?k) s1] =>
    destruct (arrive_run t a k s1) as (s2 & -> & Hw2 & Hp2 & Hs2 & Hc2) end;
    [by rewrite Hs1|].
  match goal with |- context [(_ ≫= ?k) s2] =>
    destruct (checkBarriers_run e a k s2 Ha) as (s3 & -> & Hw3 & Hp3 & Hs3 & Hc3) end.
  rewrite Hp2, Hw2, Hp1. case_bool_decide as Hall.
  - destruct (decide (participants s a ⊆ _)) as [_|?]; [|done].
    destruct (open_run a s3) as (s' & Hrun & Hw & Hc' & Hs').
    { intros u Hu. rewrite Hs3, Hs2, length_arrive, Hs1, Hc3, Hc2, Hc1. apply Hr. right.
      by rewrite <- Hp1, <- Hp2, <- Hp3. }
    exists s'. split; [by rewrite (M_bind_run _ _ _ _ _ Hrun)|].
    rewrite Hc', Hs', Hp3, Hp2, Hp1, Hc3, Hc2, Hc1, Hs3, Hs2, Hs1. split; [done|].
    split; intros u; apply vget_raise_elements.
    + intros v Hv. by apply Hr; right.
    + intros v Hv. rewrite length_arrive. by apply Hr; right.
  - destruct (decide (participants s a ⊆ _)) as [?|_]; [done|].
    exists s3. split; [done|]. split_and!; congruence.
Qed.

End ReplayEnd.
