(* ===== verification/ReplayRuns.v ===== *)
(** * Runs as lists of labels

    An executable form of the transition system: [exec] checks that a step is
    enabled and takes it, so a run is a list of labels.  The instances of the
    theorems on steps are taken at states of the run of [ReplayExamples]. *)

From S2P Require Import Prelude.
From S2P Require Import StaticDeque.
From S2P Require Import STEvent.
From S2P Require Import CString.
From S2P Require Import Requests.
From S2P Require Import TraceParser.
From S2P Require Import TriggerTime.
From S2P Require Import SubEvents.
From S2P Require Import TraceLines.
From S2P Require Import ReplayState.
From S2P Require Import Replay.
From S2P Require Import ReplayInv.
From S2P Require Import ReplaySafe.
From S2P Require Import ReplayHandlers.
From S2P Require Import ReplaySystem.
From S2P Require Import ReplayFailures.
From S2P Require Import ReplayExamples.
From S2P Require Import ReplayFrame.
From S2P Require Import ReplaySchedule.
From S2P Require Import ReplayEffects.
From S2P Require Import ReplayEnd.
Import STEvent CString Requests TraceParser TriggerTime SubEvents TraceLines
  ReplayState Replay ReplayInv ReplaySafe ReplayHandlers ReplaySystem
  ReplayFrame ReplaySchedule ReplayEffects ReplayEnd ReplayFailures.

Module ReplayRuns.

Section exec.
Context (P : Params) (cfg : RubyCfg) (rand : nat -> Z) (accept : nat -> bool).

Definition not_before (t : Z) (w : option Z) : bool :=
  match w with Some w => t <=? w | None => true end.

Definition awaits (s : state) (p : Z) : bool :=
  match vget s.(threadMap) p with
  | Ok (t :: _) =>
      match vget s.(eventMap) t with Ok q => in_flight q | Err _ => false end
  | _ => false
  end.

Definition enabled (s : state) (l : label) : bool :=
  match l with
  | Tick t => (s.(curTick) <=? t) && (t <? 2 ^ 53) && not_before t s.(startEvent)
              && forallb (not_before t) s.(coreEvents)
  | Master => bool_decide (s.(startEvent) = Some s.(curTick))
  | Core p => bool_decide (vget s.(coreEvents) p = Ok (Some s.(curTick)))
  | Response p => awaits s p
  end.

Definition perform (s : state) (l : label) : result (unit * state) :=
  match l with
  | Tick t => Ok (tt, s <| curTick := t |>)
  | Master => wakeup_master P cfg rand (s <| startEvent := None |>)
  | Core p => wakeup_core P cfg rand accept p
                (s <| coreEvents := <[Z.to_nat p := None]> s.(coreEvents) |>)
  | Response p => hitCallback P cfg p s
  end.

Definition exec (s : state) (l : label) : option state :=
  if enabled s l then match perform s l with Ok (_, s') => Some s' | Err _ => None end
  else None.

Fixpoint run (s : state) (ls : list label) : option state :=
  match ls with
  | [] => Some s
  | l :: ls' =>
      if s.(exit_requested) then None else s1 ← exec s l; run s1 ls'
  end.

Lemma not_before_spec t w : not_before t w = true -> forall w', w = Some w' -> t <= w'.
Proof. intros H w' ->. cbn in H. by bool_to_Z. Qed.

Lemma enabled_step s l : enabled s l = true -> step P cfg rand accept s l (perform s l).
Proof.
  destruct l as [t| |p|p]; cbn [enabled perform]; intros H.
  - rewrite !andb_true_iff in H. destruct H as [[[H1 H2] H3] H4]. bool_to_Z.
    apply step_tick; [lia|by apply not_before_spec|].
    intros p w [_ Hw]%vget_Ok. apply (not_before_spec t (Some w)); [|done].
    rewrite forallb_forall in H4. apply H4. apply list_elem_of_lookup_2 in Hw.
    by apply list_elem_of_In.
  - apply step_master. by apply bool_decide_eq_true in H.
  - apply step_core. by apply bool_decide_eq_true in H.
  - apply step_response. unfold awaits in H.
    destruct (vget (threadMap s) p) as [[|t row]|] eqn:Hrow; [done| |done].
    destruct (vget (eventMap s) t) as [q|] eqn:Hq; [|done].
    exists t, q. split; [|done]. by exists (t :: row).
Qed.

Lemma exec_step s l s' : exec s l = Some s' -> step P cfg rand accept s l (Ok (tt, s')).
Proof.
  unfold exec. destruct (enabled s l) eqn:E; [|done]. intros H.
  pose proof (enabled_step s l E) as Hs.
  destruct (perform s l) as [[[] s1]|]; [|done]. by injection H as <-.
Qed.

Lemma run_reachable mem files pthread_file ls : forall s s',
  reachable P cfg rand accept mem files pthread_file s -> run s ls = Some s' ->
  reachable P cfg rand accept mem files pthread_file s'.
Proof.
  induction ls as [|l ls IH]; intros s s' Hr H; cbn [run] in H; [by injection H as <-|].
  destruct (exit_requested s) eqn:He; [done|].
  destruct (exec s l) as [s1|] eqn:Hs; [|done]. eapply IH; [|exact H].
  by eapply reach_step; [..|apply exec_step].
Qed.
End exec.

(** The labels of the run of [ReplayExamples.drive]. *)
Fixpoint labels (fuel : nat) (s : state) (pend : list (Z * Z)) : list label :=
  match fuel with
  | O => []
  | S fuel' =>
      if s.(exit_requested) then [] else
      match ReplayExamples.earliest s pend with
      | None => []
      | Some t =>
          let s0 := s <| curTick := t |> in
          let tick := if s.(curTick) =? t then [] else [Tick t] in
          let go l pend' :=
            match perform ReplayExamples.P example_cfg ReplayExamples.rand
                    ReplayExamples.accept s0 l with
            | Ok (_, s') =>
                tick ++ l :: labels fuel' s' (ReplayExamples.new_requests s0 s' t ++ pend')
            | Err _ => []
            end in
          match list_find (fun x : Z * Z => x.1 = t) pend with
          | Some (i, (_, p)) => go (Response p) (delete i pend)
          | None =>
              match ReplayExamples.due_core s0 t with
              | Some p => go (Core p) pend
              | None => go Master pend
              end
          end
      end
  end.

Abbreviation exec_ := (exec ReplayExamples.P example_cfg ReplayExamples.rand
  ReplayExamples.accept).
Abbreviation run_ := (run ReplayExamples.P example_cfg ReplayExamples.rand
  ReplayExamples.accept).
Abbreviation reach := (reachable ReplayExamples.P example_cfg ReplayExamples.rand
  ReplayExamples.accept ReplayExamples.example_memory ReplayExamples.files ReplayExamples.pthread_file).

Definition scenario : list label := Eval vm_compute in labels 400 ReplayExamples.initial [].

(** The state after the first [n] labels. *)
Definition after (n : nat) : state :=
  default ReplayExamples.initial (run_ ReplayExamples.initial (take n scenario)).

Lemma reach_after n :
  run_ ReplayExamples.initial (take n scenario) = Some (after n) -> reach (after n).
Proof. apply run_reachable, ReplayExamples.reach0. Qed.

(** The scenario runs to completion. *)
Example scenario_completes :
  length scenario = 245%nat /\ (after 245).(exit_requested) = true.
Proof. vm_compute. done. Qed.

Ltac at_step n := first
  [ discriminate
  | apply (reach_after n); vm_compute; reflexivity
  | apply exec_step; vm_compute; reflexivity
  | vm_compute; reflexivity ].

(** The worker's read of data that the main thread produced (label 170) is
    sent after the main thread has passed its event 4. *)
Lemma requests_wait_for_producers_witness :
  exists p t e top msg write s1,
    Core 1 = Core p /\ prepared ReplayExamples.P ReplayExamples.rand (after 170) p s1 /\
    current s1 p t e top /\ top.(thisMsg) = Some msg /\
    (after 171).(packets) =
      mkPacket p msg.(addr) msg.(numBytes) write t
        ((after 170).(curTick) / ReplayExamples.P.(m_clock)) :: (after 170).(packets) /\
    (e.(Type_) = TYPE_COMMUNICATION ->
       dep_met (after 170) msg = true \/ vget (after 170).(threadMutexMap) t = Ok true).
Proof.
  refine (requests_wait_for_producers ReplayExamples.P example_cfg ReplayExamples.rand
    ReplayExamples.accept ReplayExamples.example_memory ReplayExamples.files ReplayExamples.pthread_file
    (after 170) (Core 1) (after 171) ReplayExamples.params_P _ _ _ _); [at_step 170%nat..|].
  intros H. apply (f_equal length) in H. vm_compute in H. discriminate.
Defined.

(** The main thread takes mutex 77 (label 17). *)
Lemma mutexes_exclusive_witness :
  exists p row t e es a,
    Core 0 = Core p /\ vget (after 17).(threadMap) p = Ok row /\ head row = Some t /\
    vget (skeleton (after 17)) t = Ok (e :: es) /\ e.(Type_) = TYPE_PTHREAD_API /\
    e.(pth_addr) = Some a /\
    ((e.(PthreadType) = P_MUTEX_LK /\ (a ∉ (after 17).(mutexLocks)) /\
      (after 18).(mutexLocks) = {[a]} ∪ (after 17).(mutexLocks) /\
      (after 18).(threadMutexMap) =
        <[Z.to_nat e.(ThreadID) := true]> (after 17).(threadMutexMap)) \/
     (e.(PthreadType) = P_MUTEX_ULK /\ a ∈ (after 17).(mutexLocks) /\
      (after 18).(mutexLocks) = (after 17).(mutexLocks) ∖ {[a]} /\
      (after 18).(threadMutexMap) =
        <[Z.to_nat e.(ThreadID) := false]> (after 17).(threadMutexMap))).
Proof.
  refine (mutexes_exclusive ReplayExamples.P example_cfg ReplayExamples.rand
    ReplayExamples.accept ReplayExamples.example_memory ReplayExamples.files ReplayExamples.pthread_file
    (after 17) (Core 0) (after 18) ReplayExamples.params_P _ _ _ _); [at_step 17%nat..|].
  intros H. apply (f_equal elements) in H. vm_compute in H. discriminate.
Defined.

(** The last label is the master event that ends the run. *)
Lemma stops_when_replayed_witness :
  (after 245).(exit_requested) = true <->
  Master = Master /\ all_replayed ReplayExamples.P.(num_threads) (after 245).
Proof.
  refine (stops_when_replayed ReplayExamples.P example_cfg ReplayExamples.rand
    ReplayExamples.accept ReplayExamples.example_memory ReplayExamples.files ReplayExamples.pthread_file
    (after 244) Master (after 245) ReplayExamples.params_P _ _ _ _); at_step 244%nat.
Defined.

(** ** A barrier of two threads, of which the second arrives *)
Definition at_barrier : state := (constructed ReplayExamples.example_memory)
  <| threadStartedMap := [false; true; true] |>
  <| threadContMap := [false; false; false] |>
  <| pthreadMaps := mkPthreadMaps ∅ {[99 := {[0; 1]}]} {[99 := {[0]}]} |>.

Definition barrier_event : ST_Event :=
  ST_Event_init <| Type_ := TYPE_PTHREAD_API |> <| PthreadType := P_BARRIER_WT |>
    <| EventID := 3 |> <| ThreadID := 1 |> <| pth_addr := Some 99 |>.

Lemma barrier_opens_together_witness :
  exists s', progress_barrier barrier_event at_barrier = Ok (false, s') /\
    if decide (participants at_barrier 99 ⊆ {[1]} ∪ waiting at_barrier 99) then
      waiting s' 99 = ∅ /\
      (forall u, vget s'.(threadContMap) u =
         if decide (u ∈ participants at_barrier 99) then Ok true
         else vget at_barrier.(threadContMap) u) /\
      (forall u, vget s'.(threadStartedMap) u =
         if decide (u ∈ participants at_barrier 99) then Ok true
         else vget (arrive 1 (waiting at_barrier 99) at_barrier.(threadStartedMap)) u)
    else
      waiting s' 99 = {[1]} ∪ waiting at_barrier 99 /\
      s'.(threadContMap) = at_barrier.(threadContMap) /\
      s'.(threadStartedMap) = arrive 1 (waiting at_barrier 99) at_barrier.(threadStartedMap).
Proof.
  apply (barrier_opens_together barrier_event at_barrier false 99);
    [vm_compute; reflexivity..|].
  intros u Hu. change (participants at_barrier 99) with ({[0; 1]} : gset Z) in Hu.
  change (ThreadID barrier_event) with 1 in Hu. cbn.
  assert (u = 0 \/ u = 1) as [->| ->] by set_solver; lia.
Defined.

(** ** Three threads on one core *)
Definition P3 : Params :=
  mkParams 1 3 1000000 100 2 2 (float_of_Z 1) (float_of_Z 2) 1.

Definition files3 : list (option (list str)) :=
  [Some ReplayExamples.main_trace; Some ReplayExamples.worker_trace;
   Some [lit "1,3,8,0,0,0"]].

Definition one_core : state := ReplayExamples.the_state
  (init P3 example_cfg files3 ReplayExamples.pthread_file (constructed ReplayExamples.example_memory)).

(** The second thread has not started; the third one is at a computation. *)
Definition three_threads : state := one_core <| threadStartedMap := [true; false; true] |>.

Lemma one_core_wf : queues_wf one_core.
Proof.
  apply (INV_queues_wf (forall n, ReplayExamples.accept n = true) None None).
  refine (reachable_INV P3 example_cfg ReplayExamples.rand ReplayExamples.accept ReplayExamples.example_memory files3
    ReplayExamples.pthread_file _ one_core _ _).
  - split; vm_compute; intuition congruence.
  - discriminate.
  - apply reach_init. vm_compute. reflexivity.
Qed.

Lemma queues_wf_started s l : queues_wf s -> queues_wf (s <| threadStartedMap := l |>).
Proof. intros H. exact H. Qed.

(** A thread at a computation event. *)
Lemma thread_ok_comp s t e l :
  vget (skeleton s) t = Ok (e :: l) -> e.(Type_) = TYPE_COMPUTATION ->
  e.(comm_preRequisiteEvents) = [] ->
  0 <= t < Z.of_nat (length s.(threadStartedMap)) ->
  0 <= e.(ThreadID) < Z.of_nat (length s.(threadMutexMap)) -> thread_ok s t.
Proof.
  intros Hsk Hty Hd Ht Hm. split; [done|]. split.
  - apply vget_skeleton in Hsk as (q & Hq & _). by eapply vget_Ok_range.
  - intros e' l' He. rewrite Hsk in He. injection He as <- <-. rewrite Hd. auto.
Qed.

Lemma three_threads_ok : Forall (thread_ok three_threads) [1; 2].
Proof.
  apply Forall_cons; split; [|apply Forall_cons; split; [|done]]; (eapply thread_ok_comp;
    [vm_compute; reflexivity|vm_compute; reflexivity|vm_compute; reflexivity|
     vm_compute; intuition congruence|vm_compute; intuition congruence]).
Qed.

Lemma swapThreads_rotates_witness :
  swapThreads 0 three_threads =
    Ok (tt, three_threads <| threadMap := [[2; 0; 1]] |>).
Proof.
  rewrite (swapThreads_rotates three_threads 0 [0; 1; 2]).
  - vm_compute. reflexivity.
  - exact (queues_wf_started one_core [true; false; true] one_core_wf).
  - vm_compute. reflexivity.
  - exact three_threads_ok.
Defined.

(** ** Inputs that are in order *)
Lemma good_line_of P cfg t l e :
  cfg_ok cfg -> size l < 2 ^ 63 -> line_event cfg l = Ok e -> good_event P t e -> good_line P cfg t l.
Proof. intros OK Hs El He. exists e. split; [by apply event_line_of|done]. Qed.

Ltac can_split := first [exact I | split; vm_compute; intuition congruence].

Ltac good_event :=
  split; [reflexivity|cbn; set_solver|can_split|
    unfold requests_of; cbn; repeat constructor; vm_compute; intuition congruence|
    cbn; (done || (intros _; unfold handled_calls; set_solver))|done].

Ltac good_lines :=
  repeat (apply Forall_cons; split; [eapply good_line_of;
    [exact example_cfg_ok|vm_compute; reflexivity|vm_compute; reflexivity|]|]); [..|by constructor].

Lemma good_worker : Forall (good_line ReplayExamples.P example_cfg 1) ReplayExamples.worker_trace.
Proof.
  unfold ReplayExamples.worker_trace. good_lines; good_event.
Qed.
Lemma good_main : Forall (good_line ReplayExamples.P example_cfg 0) ReplayExamples.main_trace.
Proof.
  unfold ReplayExamples.main_trace. good_lines; good_event.
Qed.
Lemma good_pthreads : forall ls pm, ReplayExamples.pthread_file = Some ls ->
  processPthreadFile ls (mkPthreadMaps ∅ ∅ ∅) = Ok (tt, pm) -> good_maps ReplayExamples.P pm.
Proof.
  intros ls pm [= <-] Hpm.
  assert (pm = mkPthreadMaps {[4096 := 1]} {[99 := {[0; 1]}]} {[99 := ∅]}) as ->.
  { vm_compute in Hpm. injection Hpm as <-. vm_compute. reflexivity. }
  split; cbn; intros a x [_ <-]%lookup_singleton_Some; [vm_compute; intuition congruence|].
  apply set_Forall_union; apply set_Forall_singleton; vm_compute; intuition congruence.
Qed.
(** A main thread that unlocks a mutex it has not locked. *)
Definition unlock_files : list (option (list str)) := [Some [lit "1,1,pth_ty:2 ^ 77"]; Some []].

Lemma good_rand k : 0 <= ReplayExamples.rand k < 2 ^ 31.
Proof. unfold ReplayExamples.rand. pose proof (Z.mod_pos_bound (Z.of_nat k) 32768). lia. Qed.

Lemma good_example : good_input ReplayExamples.P example_cfg ReplayExamples.rand
  ReplayExamples.files ReplayExamples.pthread_file.
Proof.
  split; [done|done|done|exact good_rand| |exact good_pthreads].
  intros [|[|i]] ls H; [| |done]; injection H as <-; [exact good_main|exact good_worker].
Qed.

Lemma good_unlock : good_input ReplayExamples.P example_cfg ReplayExamples.rand
  unlock_files ReplayExamples.pthread_file.
Proof.
  split; [done|done|done|exact good_rand| |exact good_pthreads].
  intros [|[|i]] ls H; [| |done]; injection H as <-; [good_lines; good_event|constructor].
Qed.

Abbreviation runs := (run ReplayExamples.P example_cfg ReplayExamples.rand ReplayExamples.accept).
Abbreviation performs := (perform ReplayExamples.P example_cfg ReplayExamples.rand ReplayExamples.accept).

Definition unlock_start : state := ReplayExamples.the_state (init ReplayExamples.P example_cfg
  unlock_files ReplayExamples.pthread_file (constructed ReplayExamples.example_memory)).

Definition unlock_due : state :=
  match runs unlock_start [Tick 1; Master; Tick 2] with Some s => s | None => unlock_start end.


(** ** Two surprises *)

(** Thread 0 takes mutexes 5 and 6 and gives 6 back: 5 is still held, but the
    thread is no longer marked as holding a mutex. *)
Definition mutex_event (ty a : Z) : ST_Event :=
  ST_Event_init <| Type_ := TYPE_PTHREAD_API |> <| PthreadType := ty |>
    <| ThreadID := 0 |> <| pth_addr := Some a |>.

Example nested_mutex_flag :
  match (progress_mutex_lock (mutex_event P_MUTEX_LK 5);;
         progress_mutex_lock (mutex_event P_MUTEX_LK 6);;
         progress_mutex_unlock (mutex_event P_MUTEX_ULK 6))
        ((constructed ReplayExamples.example_memory) <| threadMutexMap := [false] |>) with
  | Ok (_, s) => elements s.(mutexLocks) = [5] /\ s.(threadMutexMap) = [false]
  | Err _ => False
  end.
Proof. vm_compute. done. Qed.

(** A join that has to wait (the worker's queue is not empty) is not consumed,
    but decrements the count of worker threads every time it is tried. *)
Example join_counts_every_try :
  match (progress_join (mutex_event P_JOIN 4096);; progress_join (mutex_event P_JOIN 4096))
        ReplayExamples.initial with
  | Ok (consumed, s) => consumed = false /\ s.(worker_thread_count) = -2
  | Err _ => False
  end.
Proof. vm_compute. done. Qed.

End ReplayRuns.
