(* ===== verification/EventQueue.v ===== *)
(** * The simulator's event queue

    The linked list of linked lists of src/src/sim/eventq.hh and
    src/src/sim/eventq.cc on which SynchroTrace schedules its core events, and
    the main loop of src/src/sim/simulate.cc.  Events live in a store indexed
    by their address, [nextBin] and [nextInBin] are pointers into it, and the
    stale [nextBin] pointers the code leaves inside a bin are stale here too.

    The theorems relate the pointers to a list of entries ordered by time and
    priority, last scheduled first within a bin. *)

From S2P Require Import Prelude.

Module EventQueue.

(** ** Data *)
Record Event := mkEvent {
  nextBin : option Z;
  nextInBin : option Z;
  _when : Z;
  _priority : Z;
  flags : Z;
}.
#[export] Instance Event_settable : Settable Event :=
  fun r => mkEvent r.(nextBin) r.(nextInBin) r.(_when) r.(_priority) r.(flags).

Record state := mkState {
  events : gmap Z Event;   (* the allocated events, by address *)
  head : option Z;
  curTick : Z;
  is_main : bool;          (* [this == &mainEventQueue] *)
}.
#[export] Instance state_settable : Settable state :=
  fun r => mkState r.(events) r.(head) r.(curTick) r.(is_main).

Definition PublicRead : Z := 0x003f.
Definition PublicWrite : Z := 0x001d.
Definition Squashed : Z := 0x0001.
Definition Scheduled : Z := 0x0002.
Definition AutoDelete : Z := 0x0004.
Definition AutoSerialize : Z := 0x0008.
Definition IsExitEvent : Z := 0x0010.
Definition IsMainQueue : Z := 0x0020.
Definition Initialized : Z := 0x7a40.
Definition InitMask : Z := 0xffc0.

(** [Flags<unsigned short>] of src/src/base/flags.hh. *)
Definition isSet (fl f : Z) : bool := negb (Z.land fl f =? 0).
Definition noneSet (fl f : Z) : bool := Z.land fl f =? 0.
Definition clear (f fl : Z) : Z := Z.land fl (Z.lnot f).
Definition set (f fl : Z) : Z := Z.lor fl f.

Definition Minimum_Pri : Z := -128.
Definition Trace_Enable_Pri : Z := -101.
Definition Debug_Break_Pri : Z := -100.
Definition CPU_Switch_Pri : Z := -31.
Definition Delayed_Writeback_Pri : Z := -1.
Definition Default_Pri : Z := 0.
Definition Serialize_Pri : Z := 32.
Definition CPU_Tick_Pri : Z := 50.
Definition Stat_Event_Pri : Z := 90.
Definition Progress_Event_Pri : Z := 95.
Definition Sim_Exit_Pri : Z := 100.
Definition Maximum_Pri : Z := 127.

(** The constructor leaves [_when] indeterminate: its value is a parameter. *)
Definition newEvent (indeterminate p f : Z) : result Event :=
  if noneSet f (Z.land 0xffff (Z.lnot PublicWrite))
  then Ok (mkEvent None None indeterminate p (Z.lor Initialized f))
  else Err (AssertFail "Event: f.noneSet(~PublicWrite)").

Definition initialized (e : Event) : bool := Z.land e.(flags) InitMask =? Initialized.
Definition scheduled (e : Event) : bool := isSet e.(flags) Scheduled.
Definition squashed (e : Event) : bool := isSet e.(flags) Squashed.
Definition isExitEvent (e : Event) : bool := isSet e.(flags) IsExitEvent.
Definition squash (e : Event) : Event := e <| flags ::= set Squashed |>.

(** The comparison operators of [Event]. *)
Definition ev_lt (l r : Event) : bool :=
  (l.(_when) <? r.(_when)) ||
  ((l.(_when) =? r.(_when)) && (l.(_priority) <? r.(_priority))).
Definition ev_gt (l r : Event) : bool :=
  (r.(_when) <? l.(_when)) ||
  ((l.(_when) =? r.(_when)) && (r.(_priority) <? l.(_priority))).
Definition ev_le (l r : Event) : bool :=
  (l.(_when) <? r.(_when)) ||
  ((l.(_when) =? r.(_when)) && (l.(_priority) <=? r.(_priority))).
Definition ev_ge (l r : Event) : bool :=
  (r.(_when) <? l.(_when)) ||
  ((l.(_when) =? r.(_when)) && (r.(_priority) <=? l.(_priority))).
Definition ev_eq (l r : Event) : bool :=
  (l.(_when) =? r.(_when)) && (l.(_priority) =? r.(_priority)).
Definition ev_ne (l r : Event) : bool :=
  negb (l.(_when) =? r.(_when)) || negb (l.(_priority) =? r.(_priority)).
Definition priority_compare (l r : Event) : bool :=
  (r.(_when) <=? l.(_when)) || (r.(_priority) <=? l.(_priority)).

(** ** Pointers *)
Definition deref (a : Z) : M state Event := fun s =>
  match s.(events) !! a with
  | Some e => Ok (e, s)
  | None => Err (UB "dangling pointer")
  end.

Definition deref_ptr (p : option Z) : M state Event :=
  match p with Some a => deref a | None => fail (UB "null pointer") end.

Definition update (a : Z) (f : Event -> Event) : M state unit :=
  e ← deref a; modify (fun s => s <| events ::= <[a := f e]> |>).

(** A pointer walk visits every event at most once: the number of events is
    fuel enough. *)
Definition walk_fuel (s : state) : nat := S (size s.(events)).

(** ** [Event::insertBefore] and [EventQueue::insert] *)
Definition insertBefore (event : Z) (curr : option Z) : M state (option Z) :=
  match curr with
  | None =>
      update event (fun e => e <| nextBin := None |> <| nextInBin := None |>);;
      mret (Some event)
  | Some c =>
      e ← deref event; ec ← deref c;
      (if ev_lt e ec
       then update event (fun e => e <| nextBin := curr |> <| nextInBin := None |>)
       else update event (fun e => e <| nextBin := ec.(nextBin) |> <| nextInBin := curr |>));;
      mret (Some event)
  end.

(** [while (curr && *curr < *event) { prev = curr; curr = curr->nextBin; }] *)
Fixpoint find_bin (fuel : nat) (event : Z) (prev : Z) (curr : option Z)
  : M state (Z * option Z) :=
  match fuel with
  | O => fail (UB "non-terminating loop")
  | S fuel' =>
      match curr with
      | None => mret (prev, curr)
      | Some c =>
          ec ← deref c; e ← deref event;
          if ev_lt ec e then find_bin fuel' event c ec.(nextBin) else mret (prev, curr)
      end
  end.

Definition insert_head (event : Z) (h : option Z) : M state unit :=
  h' ← insertBefore event h;
  modify (fun s => s <| head := h' |>).

Definition insert (event : Z) : M state unit :=
  h ← gets head;
  match h with
  | None => insert_head event h
  | Some a =>
      e ← deref event; eh ← deref a;
      if ev_le e eh then insert_head event h
      else
        fuel ← gets walk_fuel;
        pc ← find_bin fuel event a eh.(nextBin);
        p ← insertBefore event pc.2;
        update pc.1 (fun e => e <| nextBin := p |>)
  end.

(** ** [Event::removeItem] and [EventQueue::remove] *)

(** [while (event != next) { if (!next) panic; curr = next; next = next->nextInBin; }] *)
Fixpoint find_item (fuel : nat) (event curr : Z) (next : option Z) : M state Z :=
  match fuel with
  | O => fail (UB "non-terminating loop")
  | S fuel' =>
      match next with
      | None => fail (Panic "event not found!")
      | Some n =>
          if event =? n then mret curr
          else en ← deref n; find_item fuel' event n en.(nextInBin)
      end
  end.

Definition removeItem (event top : Z) : M state (option Z) :=
  et ← deref top;
  if event =? top then
    match et.(nextInBin) with
    | None => mret et.(nextBin)
    | Some n => update n (fun e => e <| nextBin := et.(nextBin) |>);; mret (Some n)
    end
  else
    fuel ← gets walk_fuel;
    curr ← find_item fuel event top et.(nextInBin);
    en ← deref event;
    update curr (fun e => e <| nextInBin := en.(nextInBin) |>);;
    mret (Some top).

Definition remove (event : Z) : M state unit :=
  h ← gets head;
  match h with
  | None => fail (Panic "event not found!")
  | Some a =>
      eh ← deref a; e ← deref event;
      if ev_eq eh e then
        h' ← removeItem event a;
        modify (fun s => s <| head := h' |>)
      else
        fuel ← gets walk_fuel;
        pc ← find_bin fuel event a eh.(nextBin);
        match pc.2 with
        | None => fail (Panic "event not found!")
        | Some c =>
            ec ← deref c; e ← deref event;
            if ev_ne ec e then fail (Panic "event not found!")
            else
              p ← removeItem event c;
              update pc.1 (fun e => e <| nextBin := p |>)
        end
  end.

(** ** [schedule], [deschedule], [reschedule] *)

(** [delete event]: the destructor asserts that the event is not scheduled. *)
Definition delete_event (a : Z) : M state unit :=
  e ← deref a;
  assert_ (negb (scheduled e)) "Event::~Event: !scheduled()";;
  modify (fun s => s <| events ::= delete a |>).

Definition set_main (main : bool) (e : Event) : Event :=
  if main then e <| flags ::= set IsMainQueue |> else e <| flags ::= clear IsMainQueue |>.

Definition schedule (event when : Z) : M state unit :=
  now ← gets curTick;
  assert_ (u64 now <=? u64 when) SCHED_PAST;;
  e ← deref event;
  assert_ (negb (scheduled e)) SCHED_TWICE;;
  assert_ (initialized e) "EventQueue::schedule: event->initialized()";;
  update event (fun e => e <| _when := when |>);;
  insert event;;
  update event (fun e => e <| flags ::= set Scheduled |>);;
  main ← gets is_main;
  update event (set_main main).

Definition deschedule (event : Z) : M state unit :=
  e ← deref event;
  assert_ (scheduled e) "EventQueue::deschedule: event->scheduled()";;
  assert_ (initialized e) "EventQueue::deschedule: event->initialized()";;
  remove event;;
  update event (fun e => e <| flags ::= clear Squashed |>);;
  update event (fun e => e <| flags ::= clear Scheduled |>);;
  e ← deref event;
  if isSet e.(flags) AutoDelete then delete_event event else mret tt.

Definition reschedule (event when : Z) (always : bool) : M state unit :=
  now ← gets curTick;
  assert_ (u64 now <=? u64 when) SCHED_PAST;;
  e ← deref event;
  assert_ (always || scheduled e) "EventQueue::reschedule: always || event->scheduled()";;
  assert_ (initialized e) "EventQueue::reschedule: event->initialized()";;
  (if scheduled e then remove event else mret tt);;
  update event (fun e => e <| _when := when |>);;
  insert event;;
  update event (fun e => e <| flags ::= clear Squashed |>);;
  update event (fun e => e <| flags ::= set Scheduled |>);;
  main ← gets is_main;
  update event (set_main main).

(** ** [nextTick], [empty], [serviceOne], [serviceEvents] *)
Definition empty : M state bool := gets (fun s => bool_decide (s.(head) = None)).

Definition nextTick : M state Z :=
  h ← gets head; e ← deref_ptr h; mret e.(_when).

(** The first part of [serviceOne]: unlink the head. *)
Definition popHead : M state Z :=
  h ← gets head;
  match h with
  | None => fail (UB "null pointer")
  | Some event =>
      e ← deref event;
      let next := e.(nextInBin) in
      update event (fun e => e <| flags ::= clear Scheduled |>);;
      match next with
      | Some n =>
          update n (fun x => x <| nextBin := e.(nextBin) |>);;
          modify (fun s => s <| head := Some n |>)
      | None => modify (fun s => s <| head := e.(nextBin) |>)
      end;;
      mret event
  end.

Section process.
(** [process()] is virtual: each event class has its own. *)
Context (process : Z -> M state unit).

Definition finishEvent (event : Z) : M state (option Z) :=
  e ← deref event;
  (if isSet e.(flags) AutoDelete && negb (scheduled e)
   then delete_event event else mret tt);;
  mret None.

(** What follows [event->process()]. *)
Definition afterProcess (event : Z) : M state (option Z) :=
  e ← deref event;
  if isExitEvent e then
    assert_ (negb (isSet e.(flags) AutoDelete)) "EventQueue::serviceOne: !AutoDelete";;
    mret (Some event)
  else finishEvent event.

Definition serviceOne : M state (option Z) :=
  event ← popHead;
  e ← deref event;
  if negb (squashed e) then process event;; afterProcess event
  else
    update event (fun e => e <| flags ::= clear Squashed |>);;
    finishEvent event.

Fixpoint serviceEvents (fuel : nat) (when : Z) : M state unit :=
  match fuel with
  | O => fail (UB "non-terminating loop")
  | S fuel' =>
      b ← empty;
      if (b : bool) then mret tt else
      t ← nextTick;
      if when <? t then mret tt else serviceOne;; serviceEvents fuel' when
  end.

(** One round of the main loop of [simulate], up to the handling of
    asynchronous signals. *)
Definition simulate_round : M state (option Z) :=
  b ← empty;
  assert_ (negb b) "simulate: !mainEventQueue.empty()";;
  now ← gets curTick;
  t ← nextTick;
  assert_ (now <=? t) "simulate: event scheduled in the past";;
  modify (fun s => s <| curTick := t |>);;
  serviceOne.
End process.

Definition replaceHead (h : option Z) : M state (option Z) :=
  t ← gets head; modify (fun s => s <| head := h |>);; mret t.

(** ** [debugVerify] *)
Record seen := mkSeen { last_time : Z; last_priority : Z; nodes : gset Z }.

Fixpoint verify_bin (fuel : nat) (p : option Z) (v : seen) : M state (option seen) :=
  match fuel with
  | O => fail (UB "non-terminating loop")
  | S fuel' =>
      match p with
      | None => mret (Some v)
      | Some a =>
          e ← deref a;
          if e.(_when) <? v.(last_time) then mret None
          else if (e.(_when) =? v.(last_time)) && (e.(_priority) <? v.(last_priority))
          then mret None
          else if bool_decide (a ∈ v.(nodes)) then mret None
          else verify_bin fuel' e.(nextInBin)
                 (mkSeen e.(_when) e.(_priority) ({[a]} ∪ v.(nodes)))
      end
  end.

Fixpoint verify_bins (fuel : nat) (p : option Z) (v : seen) : M state bool :=
  match fuel with
  | O => fail (UB "non-terminating loop")
  | S fuel' =>
      match p with
      | None => mret true
      | Some a =>
          k ← gets walk_fuel;
          r ← verify_bin k p v;
          match r with
          | None => mret false
          | Some v' => e ← deref a; verify_bins fuel' e.(nextBin) v'
          end
      end
  end.

Definition debugVerify : M state bool :=
  fuel ← gets walk_fuel;
  h ← gets head;
  verify_bins fuel h (mkSeen 0 0 ∅).

End EventQueue.
