(* ===== verification/EventQueueOps.v ===== *)
(** * What the event queue promises

    The entries that the pointers hold ([EventQueueSpec]) and the operations
    on them ([EventQueueOps]). *)

From Stdlib Require Import Sorted.
From S2P Require Import Prelude.
From S2P Require Import EventQueue.

(** * What the event queue promises

    [Queue s l]: the pointers of [s] hold the entries [l], in the order in
    which [serviceOne] takes them.  Each operation of [EventQueue] is shown to
    implement the operation on [l] that its name promises. *)
Module EventQueueSpec.
Import EventQueue.

(** ** The abstract queue *)
Definition key : Type := Z * Z.
Definition key_of (e : Event) : key := (e.(_when), e.(_priority)).
Definition kltb (a b : key) : bool := (a.1 <? b.1) || ((a.1 =? b.1) && (a.2 <? b.2)).
Definition klt (a b : key) : Prop := kltb a b = true.

(** A new entry goes before the first one that is not strictly earlier. *)
Fixpoint ordered_insert (a : Z) (k : key) (l : list (Z * key)) : list (Z * key) :=
  match l with
  | [] => [(a, k)]
  | x :: l' => if kltb x.2 k then x :: ordered_insert a k l' else (a, k) :: l
  end.

Definition without (a : Z) (l : list (Z * key)) : list (Z * key) :=
  filter (fun x => x.1 <> a) l.

(** ** The representation: bins of equal keys, linked as the code links them *)
Definition bin : Type := key * list Z.

Fixpoint in_bin (h : gmap Z Event) (k : key) (p : option Z) (l : list Z) : Prop :=
  match l with
  | [] => p = None
  | a :: l' => p = Some a /\
      exists e, h !! a = Some e /\ key_of e = k /\ in_bin h k e.(nextInBin) l'
  end.

Fixpoint chain (h : gmap Z Event) (p : option Z) (bins : list bin) : Prop :=
  match bins with
  | [] => p = None
  | (k, l) :: bins' =>
      exists a rest e, l = a :: rest /\ p = Some a /\ h !! a = Some e /\ key_of e = k /\
        in_bin h k e.(nextInBin) rest /\ chain h e.(nextBin) bins'
  end.

Definition members (bins : list bin) : list Z := bins ≫= snd.
Definition entries (bins : list bin) : list (Z * key) :=
  bins ≫= fun b => (fun a => (a, b.1)) <$> b.2.

(** Every allocated event was initialised by its constructor, and no exit event
    is freed by the queue (the assertion of [serviceOne]). *)
Definition sane_flags (fl : Z) : Prop :=
  Z.land fl InitMask = Initialized /\
  (isSet fl IsExitEvent = true -> isSet fl AutoDelete = false).
Definition sane (e : Event) : Prop := sane_flags e.(flags).

Record represents (s : state) (bins : list bin) : Prop := {
  r_chain : chain s.(events) s.(head) bins;
  r_sorted : StronglySorted klt bins.*1;
  r_nodup : NoDup (members bins);
  r_sched : forall a e, s.(events) !! a = Some e ->
    scheduled e = bool_decide (a ∈ members bins);
  r_sane : forall a e, s.(events) !! a = Some e -> sane e;
}.

Definition Queue (s : state) (l : list (Z * key)) : Prop :=
  exists bins, represents s bins /\ l = entries bins.

(** Two stores whose events differ in their links only. *)
Definition payload (e : Event) : Z * Z * Z := (e.(_when), e.(_priority), e.(flags)).
Definition same_payload (h h' : gmap Z Event) : Prop :=
  forall a, payload <$> h' !! a = payload <$> h !! a.

(** ** Keys *)
Lemma klt_trans a b c : klt a b -> klt b c -> klt a c.
Proof. unfold klt, kltb. intros. lia. Qed.

Lemma kltb_irrefl a : kltb a a = false.
Proof. unfold kltb. lia. Qed.

Lemma kltb_total a b : kltb a b = false -> kltb b a = false -> a = b.
Proof. destruct a, b. unfold kltb. simpl. intros. f_equal; lia. Qed.

Lemma ev_lt_key l r : ev_lt l r = kltb (key_of l) (key_of r).
Proof. done. Qed.
Lemma ev_le_key l r : ev_le l r = negb (kltb (key_of r) (key_of l)).
Proof. unfold ev_le, kltb. simpl. lia. Qed.
Lemma ev_eq_key l r : ev_eq l r = bool_decide (key_of l = key_of r).
Proof.
  unfold ev_eq, key_of. case_bool_decide as H; [injection H; lia|].
  destruct (_ =? _) eqn:E1; simpl; [|done]. apply Z.eqb_neq. intros E2. apply H.
  f_equal; lia.
Qed.
Lemma ev_ne_key l r : ev_ne l r = negb (ev_eq l r).
Proof. unfold ev_ne, ev_eq. by rewrite negb_andb. Qed.

(** ** Runs of the pointer operations *)
Lemma deref_run {B} a e s (f : Event -> M state B) :
  s.(events) !! a = Some e -> (deref a ≫= f) s = f e s.
Proof. intros H. apply M_bind_run. unfold deref. by rewrite H. Qed.

Lemma update_val a e s f :
  s.(events) !! a = Some e ->
  update a f s = Ok (tt, s <| events ::= <[a := f e]> |>).
Proof. intros H. unfold update. by rewrite (deref_run _ e). Qed.

Lemma update_run {B} a e s g (f : unit -> M state B) :
  s.(events) !! a = Some e ->
  (update a g ≫= f) s = f tt (s <| events ::= <[a := g e]> |>).
Proof. intros H. apply M_bind_run. by apply update_val. Qed.

(** ** Frames *)
Lemma in_bin_frame h h' k p l :
  in_bin h k p l ->
  (forall a e, a ∈ l -> h !! a = Some e -> exists e', h' !! a = Some e' /\
     key_of e' = key_of e /\ e'.(nextInBin) = e.(nextInBin)) ->
  in_bin h' k p l.
Proof.
  revert p. induction l as [|a l IH]; intros p; [done|].
  intros [-> (e & He & Hk & Hl)] H.
  destruct (H a e) as (e' & He' & Hk' & Hn); [set_solver|done|].
  split; [done|]. exists e'. split_and!; [done|congruence|].
  rewrite Hn. apply IH; [done|]. set_solver.
Qed.

Lemma chain_frame h h' p bins :
  chain h p bins ->
  (forall a e, a ∈ members bins -> h !! a = Some e -> exists e', h' !! a = Some e' /\
     key_of e' = key_of e /\ e'.(nextInBin) = e.(nextInBin) /\ e'.(nextBin) = e.(nextBin)) ->
  chain h' p bins.
Proof.
  revert p. induction bins as [|[k l] bins IH]; intros p; [done|].
  intros (a & rest & e & -> & -> & He & Hk & Hr & Hc) H. unfold members in H. csimpl in *.
  destruct (H a e) as (e' & He' & Hk' & Hn & Hb); [set_solver|done|].
  exists a, rest, e'. split_and!; try done; [congruence| |].
  - rewrite Hn. eapply in_bin_frame; [done|]. intros b eb Hb1 Hb2.
    destruct (H b eb) as (eb' & ? & ? & ? & ?); [set_solver|done|by eauto].
  - rewrite Hb. apply IH; [done|]. unfold members. set_solver.
Qed.

Lemma in_bin_same h h' k p l :
  in_bin h k p l -> (forall a, a ∈ l -> h' !! a = h !! a) -> in_bin h' k p l.
Proof.
  intros H Hs. eapply in_bin_frame; [done|]. intros a e Ha He. exists e.
  by rewrite Hs.
Qed.

Lemma chain_same h h' p bins :
  chain h p bins -> (forall a, a ∈ members bins -> h' !! a = h !! a) -> chain h' p bins.
Proof.
  intros H Hs. eapply chain_frame; [done|]. intros a e Ha He. exists e. by rewrite Hs.
Qed.

Lemma members_cons k l bins : members ((k, l) :: bins) = l ++ members bins.
Proof. done. Qed.
Lemma entries_cons k l bins : entries ((k, l) :: bins) = ((fun a => (a, k)) <$> l) ++ entries bins.
Proof. done. Qed.

Lemma entries_members bins : (entries bins).*1 = members bins.
Proof.
  induction bins as [|[k l] bins IH]; [done|].
  rewrite entries_cons, members_cons, fmap_app, IH. f_equal.
  rewrite <- list_fmap_compose. apply list_fmap_id.
Qed.

Lemma in_bin_lookup h k p l a :
  in_bin h k p l -> a ∈ l -> exists e, h !! a = Some e /\ key_of e = k.
Proof.
  revert p. induction l as [|b l IH]; intros p; [set_solver|].
  intros [-> (e & He & Hk & Hl)] [-> | Hin]%elem_of_cons; [by eauto|by eapply IH].
Qed.

Lemma chain_lookup h p bins a :
  chain h p bins -> a ∈ members bins -> is_Some (h !! a).
Proof.
  revert p. induction bins as [|[k l] bins IH]; intros p; [set_solver|].
  intros (b & rest & e & -> & -> & He & Hk & Hr & Hc).
  rewrite members_cons, elem_of_app, elem_of_cons. intros [[-> |Ha]|Ha].
  - by rewrite He.
  - destruct (in_bin_lookup _ _ _ _ _ Hr Ha) as (?&->&?). done.
  - by eapply IH.
Qed.

Lemma chain_length h p bins : chain h p bins -> (length bins <= length (members bins))%nat.
Proof.
  revert p. induction bins as [|[k l] bins IH]; intros p; [done|].
  intros (? & ? & ? & -> & ? & ? & ? & ? & Hc%IH).
  rewrite members_cons, length_app. simpl. lia.
Qed.

(** The walk has fuel for every member. *)
Lemma members_fuel s bins :
  chain s.(events) s.(head) bins -> NoDup (members bins) ->
  (length (members bins) < walk_fuel s)%nat.
Proof.
  intros Hc Hnd. unfold walk_fuel.
  rewrite <- (size_dom (D := gset Z)), <- (size_list_to_set (C := gset Z)) by done.
  apply Nat.lt_succ_r, subseteq_size. intros a. rewrite elem_of_list_to_set, elem_of_dom.
  by apply chain_lookup with (p := s.(head)).
Qed.

(** ** Insertion *)
Fixpoint ins_bins (k : key) (a : Z) (bins : list bin) : list bin :=
  match bins with
  | [] => [(k, [a])]
  | (k', l) :: bins' =>
      if kltb k' k then (k', l) :: ins_bins k a bins'
      else if kltb k k' then (k, [a]) :: bins else (k, a :: l) :: bins'
  end.

Definition not_before (k : key) (bins : list bin) : Prop :=
  match bins with [] => True | (k', _) :: _ => kltb k' k = false end.

#[export] Instance not_before_dec k bins : Decision (not_before k bins).
Proof. destruct bins as [|[k' l] bins]; simpl; apply _. Defined.

Lemma insertBefore_chain s event e c bins :
  s.(events) !! event = Some e -> event ∉ members bins -> chain s.(events) c bins ->
  not_before (key_of e) bins ->
  exists e', payload e' = payload e /\
    insertBefore event c s = Ok (Some event, s <| events ::= <[event := e']> |>) /\
    chain (<[event := e']> s.(events)) (Some event) (ins_bins (key_of e) event bins).
Proof.
  intros He Hni Hc Hnb. destruct bins as [|[k l] bins]; simpl in Hc; subst.
  - exists (e <| nextBin := None |> <| nextInBin := None |>). split; [done|].
    split; [unfold insertBefore; by rewrite (update_run _ e)|].
    exists event, [], (e <| nextBin := None |> <| nextInBin := None |>).
    by rewrite lookup_insert_eq.
  - destruct Hc as (a & rest & ea & -> & -> & Ha & Hk & Hr & Hb). simpl in Hnb.
    rewrite members_cons in Hni. cbn [insertBefore ins_bins].
    rewrite (deref_run _ e), (deref_run _ ea) by done. rewrite ev_lt_key, Hk, Hnb.
    assert (event <> a) by set_solver.
    destruct (kltb (key_of e) k) eqn:Hlt.
    + exists (e <| nextBin := Some a |> <| nextInBin := None |>). split; [done|].
      split; [by rewrite (update_run _ e)|].
      exists event, [], (e <| nextBin := Some a |> <| nextInBin := None |>).
      rewrite lookup_insert_eq. split_and!; try done.
      cbn [nextBin set_field]. simpl. exists a, rest, ea. rewrite lookup_insert_ne by done.
      split_and!; try done.
      * eapply in_bin_same; [done|]. intros. rewrite lookup_insert_ne; [done|set_solver].
      * eapply chain_same; [done|]. intros. rewrite lookup_insert_ne; [done|set_solver].
    + pose proof (kltb_total _ _ Hlt Hnb) as Ek.
      exists (e <| nextBin := ea.(nextBin) |> <| nextInBin := Some a |>). split; [done|].
      split; [by rewrite (update_run _ e)|].
      exists event, (a :: rest), (e <| nextBin := ea.(nextBin) |> <| nextInBin := Some a |>).
      rewrite lookup_insert_eq. split_and!; try done.
      * simpl. split; [done|]. exists ea. rewrite lookup_insert_ne by done.
        split_and!; [done|congruence|]. rewrite Ek.
        eapply in_bin_same; [done|]. intros. rewrite lookup_insert_ne; [done|set_solver].
      * eapply chain_same; [done|]. intros. rewrite lookup_insert_ne; [done|set_solver].
Qed.

Lemma payload_key e e' : payload e' = payload e -> key_of e' = key_of e.
Proof. unfold payload, key_of. congruence. Qed.

Lemma same_payload_insert h a e e' :
  h !! a = Some e -> payload e' = payload e -> same_payload h (<[a := e']> h).
Proof.
  intros He Hp b. destruct (decide (b = a)) as [-> |].
  - rewrite lookup_insert_eq, He. simpl. by rewrite Hp.
  - by rewrite lookup_insert_ne.
Qed.

Lemma same_payload_trans h1 h2 h3 :
  same_payload h1 h2 -> same_payload h2 h3 -> same_payload h1 h3.
Proof. intros H1 H2 a. by rewrite H2. Qed.

Lemma elem_of_ins_bins k a b bins :
  b ∈ members (ins_bins k a bins) <-> b = a \/ b ∈ members bins.
Proof.
  induction bins as [|[k' l] bins IH]; cbn [ins_bins]; [set_solver|].
  destruct (kltb k' k), (kltb k k'); rewrite ?members_cons in *; set_solver.
Qed.

(** What an insertion after the bin of [q] leaves behind. *)
Definition inserted (s : state) (event : Z) (e : Event) (q : Z) (rest : list Z) (k0 : key)
  (bins : list bin) (h' : gmap Z Event) : Prop :=
  chain h' (Some q) ((k0, q :: rest) :: ins_bins (key_of e) event bins) /\
  same_payload s.(events) h' /\
  (forall a, a ∉ event :: q :: members bins -> h' !! a = s.(events) !! a).

(** The insertion right after the bin the walk stands at. *)
Lemma insert_here s event e q eq rest k0 bins :
  s.(events) !! event = Some e -> s.(events) !! q = Some eq ->
  key_of eq = k0 -> in_bin s.(events) k0 eq.(nextInBin) rest ->
  chain s.(events) eq.(nextBin) bins ->
  NoDup (event :: q :: rest ++ members bins) -> not_before (key_of e) bins ->
  exists h',
    (x ← insertBefore event eq.(nextBin); update q (fun e => e <| nextBin := x |>)) s
      = Ok (tt, s <| events := h' |>) /\ inserted s event e q rest k0 bins h'.
Proof.
  intros He Hq Hk0 Hr Hc Hnd Hnb. rewrite !NoDup_cons in Hnd.
  destruct Hnd as (Hne & Hnq & Hnd).
  destruct (insertBefore_chain s event e eq.(nextBin) bins) as (e' & Hp & Hrun & Hch);
    [done|set_solver|done|done|].
  set (h1 := <[event := e']> s.(events)) in *.
  assert (h1 !! q = Some eq) as Hq1 by (unfold h1; rewrite lookup_insert_ne; [done|set_solver]).
  exists (<[q := eq <| nextBin := Some event |>]> h1). split.
  { rewrite (M_bind_run _ _ _ _ _ Hrun). by rewrite (update_val _ eq). }
  split; [|split].
  - exists q, rest, (eq <| nextBin := Some event |>). rewrite lookup_insert_eq.
    split_and!; try done.
    + eapply in_bin_same; [done|]. intros a Ha. unfold h1.
      rewrite !lookup_insert_ne; [done|set_solver..].
    + eapply chain_same; [done|]. intros a Ha%elem_of_ins_bins. apply lookup_insert_ne.
      set_solver.
  - eapply same_payload_trans; [by apply (same_payload_insert _ event e)|].
    by eapply same_payload_insert.
  - intros a Ha. unfold h1. rewrite !lookup_insert_ne; [done|set_solver..].
Qed.

(** The walk over the bins and the insertion after it, seen from the bin the
    walk starts at. *)
Lemma insert_tail fuel s event e q eq rest k0 bins :
  s.(events) !! event = Some e -> s.(events) !! q = Some eq ->
  key_of eq = k0 -> in_bin s.(events) k0 eq.(nextInBin) rest ->
  chain s.(events) eq.(nextBin) bins ->
  NoDup (event :: q :: rest ++ members bins) -> (length bins < fuel)%nat ->
  exists pc h',
    find_bin fuel event q eq.(nextBin) s = Ok (pc, s) /\
    (x ← insertBefore event pc.2; update pc.1 (fun e => e <| nextBin := x |>)) s
      = Ok (tt, s <| events := h' |>) /\ inserted s event e q rest k0 bins h'.
Proof.
  intros He. revert q eq rest k0 bins.
  induction fuel as [|fuel IH]; intros q eq rest k0 bins Hq Hk0 Hr Hc Hnd Hf; [lia|].
  destruct (decide (not_before (key_of e) bins)) as [Hnb|Hlt].
  - destruct (insert_here s event e q eq rest k0 bins) as (h' & Hrun & Hi); try done.
    exists (q, eq.(nextBin)), h'. split; [|done]. cbn [find_bin].
    destruct bins as [|[k l] bins]; [by rewrite Hc|].
    destruct Hc as (a & r & ea & -> & -> & Ha & Hk & _ & _).
    rewrite (deref_run _ ea), (deref_run _ e), ev_lt_key, Hk by done.
    simpl in Hnb. by rewrite Hnb.
  - destruct bins as [|[k l] bins]; [by destruct Hlt|].
    simpl in Hlt. apply not_false_is_true in Hlt.
    destruct Hc as (a & r & ea & -> & Hnext & Ha & Hk & Hra & Hca).
    rewrite members_cons in Hnd.
    destruct (IH a ea r k bins) as (pc & h' & Hfind & Hrun & Hch & Hp & Hfr); try done.
    { rewrite !NoDup_cons, !NoDup_app in *. cbn [app] in *. rewrite ?NoDup_cons in *.
      set_solver. }
    { simpl in Hf. lia. }
    exists pc, h'. split; [|split; [done|]].
    { rewrite Hnext. cbn [find_bin].
      by rewrite (deref_run _ ea), (deref_run _ e), ev_lt_key, Hk, Hlt by done. }
    rewrite !NoDup_cons, !NoDup_app in Hnd. cbn [app] in Hnd.
    rewrite NoDup_cons in Hnd.
    split; [|split; [done|]].
    + cbn [ins_bins]. rewrite Hlt. exists q, rest, eq.
      split_and!; try done.
      * rewrite Hfr; [done|set_solver].
      * eapply in_bin_same; [done|]. intros b Hb. apply Hfr. set_solver.
      * by rewrite Hnext.
    + intros b Hb. apply Hfr. rewrite members_cons in Hb. set_solver.
Qed.

(** [insert] from any well-linked state. *)
Lemma insert_run s event e bins :
  s.(events) !! event = Some e -> event ∉ members bins ->
  chain s.(events) s.(head) bins -> NoDup (members bins) ->
  exists h' hd, insert event s = Ok (tt, s <| events := h' |> <| head := hd |>) /\
    chain h' hd (ins_bins (key_of e) event bins) /\ same_payload s.(events) h'.
Proof.
  intros He Hni Hc Hnd. pose proof (members_fuel s bins Hc Hnd) as Hfuel.
  assert (not_before (key_of e) bins -> insert event s = insert_head event s.(head) s) as Hhead.
  { intros Hnb. unfold insert. rewrite gets_run. destruct bins as [|[k l] bins];
      [simpl in Hc; by rewrite Hc|].
    destruct Hc as (a & rest & ea & -> & -> & Ha & Hk & _ & _).
    rewrite (deref_run _ e), (deref_run _ ea), ev_le_key, Hk by done.
    simpl in Hnb. by rewrite Hnb. }
  destruct (decide (not_before (key_of e) bins)) as [Hnb|Hlt].
  - rewrite Hhead by done. destruct (insertBefore_chain s event e s.(head) bins)
      as (e' & Hp & Hrun & Hch); try done.
    exists (<[event := e']> s.(events)), (Some event).
    split; [|split; [done|by eapply same_payload_insert]].
    unfold insert_head. by rewrite (M_bind_run _ _ _ _ _ Hrun).
  - destruct bins as [|[k l] bins]; [by destruct Hlt|].
    simpl in Hlt. apply not_false_is_true in Hlt. clear Hhead.
    destruct Hc as (a & rest & ea & -> & Hh & Ha & Hk & Hr & Hc).
    rewrite members_cons in *. cbn [app] in *.
    destruct (insert_tail (walk_fuel s) s event e a ea rest k bins)
      as (pc & h' & Hfind & Hrun & Hch & Hp & _); try done.
    { by constructor. }
    { cbn [length] in Hfuel. rewrite length_app in Hfuel.
      apply chain_length in Hc. lia. }
    exists h', (Some a). split; [|split; [|done]].
    + unfold insert. rewrite gets_run, Hh.
      rewrite (deref_run _ e), (deref_run _ ea), ev_le_key, Hk, Hlt by done.
      cbn [negb]. rewrite gets_run, (M_bind_run _ _ _ _ _ Hfind), Hrun.
      by rewrite <- Hh.
    + cbn [ins_bins]. by rewrite Hlt.
Qed.

(** ** The insertion on bins is the insertion on entries *)
Lemma ins_bins_head k a bins k1 :
  klt k1 k -> Forall (klt k1) bins.*1 -> Forall (klt k1) (ins_bins k a bins).*1.
Proof.
  intros Hk. induction bins as [|[k' l] bins IH]; cbn [ins_bins fmap list_fmap];
    [by repeat constructor|].
  intros [Hk' Hf]%Forall_cons. destruct (kltb k' k), (kltb k k'); simpl in *; auto.
Qed.

Lemma ins_bins_sorted k a bins :
  StronglySorted klt bins.*1 -> StronglySorted klt (ins_bins k a bins).*1.
Proof.
  induction bins as [|[k' l] bins IH]; cbn [ins_bins fmap list_fmap];
    [by repeat constructor|]. intros [Hs Hf]%StronglySorted_inv. simpl in Hs, Hf.
  destruct (kltb k' k) eqn:E1; [|destruct (kltb k k') eqn:E2]; simpl.
  - constructor; [by apply IH|]. by apply ins_bins_head.
  - constructor; [by constructor|]. constructor; [done|].
    eapply Forall_impl; [done|]. intros k1 H1. by eapply klt_trans.
  - rewrite (kltb_total k k') by done. by constructor.
Qed.

Lemma ins_bins_perm k a bins : members (ins_bins k a bins) ≡ₚ a :: members bins.
Proof.
  induction bins as [|[k' l] bins IH]; cbn [ins_bins]; [done|].
  destruct (kltb k' k), (kltb k k'); rewrite ?members_cons; try done;
    rewrite IH; by rewrite Permutation_middle.
Qed.

Lemma ordered_insert_skip a k (l1 l2 : list (Z * key)) :
  Forall (fun x => kltb x.2 k = true) l1 ->
  ordered_insert a k (l1 ++ l2) = l1 ++ ordered_insert a k l2.
Proof.
  induction l1 as [|x l1 IH]; [done|]. intros [Hx Hf]%Forall_cons. simpl.
  by rewrite Hx, IH.
Qed.

Lemma ins_bins_entries k a bins h p :
  chain h p bins -> entries (ins_bins k a bins) = ordered_insert a k (entries bins).
Proof.
  revert p. induction bins as [|[k' l] bins IH]; intros p; [done|].
  intros (b & rest & e & -> & _ & _ & _ & _ & Hc). cbn [ins_bins].
  destruct (kltb k' k) eqn:E1.
  - rewrite !entries_cons, ordered_insert_skip, (IH _ Hc); [done|].
    apply Forall_fmap, Forall_true. done.
  - rewrite (entries_cons k' (b :: rest)). csimpl. rewrite E1.
    destruct (kltb k k') eqn:E2; [done|]. by rewrite (kltb_total k k').
Qed.

(** ** Removal *)
Definition drop_item (a : Z) (l : list Z) : list Z := filter (fun b => b <> a) l.

Definition add_bin (k : key) (l : list Z) (bins : list bin) : list bin :=
  match l with [] => bins | _ => (k, l) :: bins end.

Fixpoint rem_bins (a : Z) (bins : list bin) : list bin :=
  match bins with
  | [] => []
  | (k, l) :: bins' =>
      if decide (a ∈ l) then add_bin k (drop_item a l) bins' else (k, l) :: rem_bins a bins'
  end.

Lemma drop_item_not a l : a ∉ l -> drop_item a l = l.
Proof.
  unfold drop_item. induction l as [|b l IH]; intros H; [done|].
  rewrite filter_cons_True, IH by set_solver. done.
Qed.

Lemma drop_item_head a l : a ∉ l -> drop_item a (a :: l) = l.
Proof. intros H. unfold drop_item. rewrite filter_cons_False by naive_solver. by apply drop_item_not. Qed.

(** The walk inside a bin and the unlinking after it. *)
Lemma unlink_run fuel s k a curr ec l :
  s.(events) !! curr = Some ec -> in_bin s.(events) k ec.(nextInBin) l -> a ∈ l ->
  NoDup (curr :: l) -> (length l < fuel)%nat ->
  exists c h' ec',
    find_item fuel a curr ec.(nextInBin) s = Ok (c, s) /\
    (en ← deref a; update c (fun e => e <| nextInBin := en.(nextInBin) |>)) s
      = Ok (tt, s <| events := h' |>) /\
    h' !! curr = Some ec' /\ payload ec' = payload ec /\ ec'.(nextBin) = ec.(nextBin) /\
    in_bin h' k ec'.(nextInBin) (drop_item a l) /\ same_payload s.(events) h' /\
    (forall b, b ∉ curr :: l -> h' !! b = s.(events) !! b).
Proof.
  revert fuel curr ec. induction l as [|n l IH]; intros fuel curr ec Hc Hl Ha Hnd Hf; [set_solver|].
  destruct fuel as [|fuel]; [simpl in Hf; lia|].
  destruct Hl as (Hnx & en & Hn & Hkn & Hl). rewrite Hnx. apply NoDup_cons in Hnd as [Hcn [Hnl Hnd]%NoDup_cons].
  cbn [find_item]. destruct (decide (a = n)) as [-> |Hne].
  - rewrite Z.eqb_refl. exists curr.
    exists (<[curr := ec <| nextInBin := en.(nextInBin) |>]> s.(events)).
    exists (ec <| nextInBin := en.(nextInBin) |>). split_and!; try done.
    + by rewrite (deref_run _ en), (update_val _ ec).
    + by rewrite lookup_insert_eq.
    + rewrite drop_item_head by done. eapply in_bin_same; [done|].
      intros b Hb. apply lookup_insert_ne. set_solver.
    + by eapply same_payload_insert.
    + intros b Hb. apply lookup_insert_ne. set_solver.
  - rewrite (proj2 (Z.eqb_neq a n)), (deref_run _ en) by done.
    destruct (IH fuel n en) as (c & h' & en' & Hfind & Hrun & Hn' & Hp & Hb & Hbin & Hsp & Hfr);
      try done; [set_solver|by constructor|simpl in Hf; lia|].
    exists c, h', ec. split_and!; try done.
    + rewrite Hfr; [done|set_solver].
    + unfold drop_item. rewrite filter_cons_True, Hnx by done.
      split; [done|]. exists en'. split_and!; [done| |done].
      by rewrite (payload_key _ _ Hp).
    + intros b Hb'. apply Hfr. set_solver.
Qed.

Lemma removeItem_run s k a top et rest bins :
  s.(events) !! top = Some et -> key_of et = k -> in_bin s.(events) k et.(nextInBin) rest ->
  chain s.(events) et.(nextBin) bins -> a ∈ top :: rest ->
  NoDup (top :: rest ++ members bins) -> (length rest < walk_fuel s)%nat ->
  exists p h', removeItem a top s = Ok (p, s <| events := h' |>) /\
    chain h' p (add_bin k (drop_item a (top :: rest)) bins) /\
    same_payload s.(events) h' /\ (forall b, b ∉ top :: rest -> h' !! b = s.(events) !! b).
Proof.
  intros Ht Hk Hr Hc Ha Hnd Hf. unfold removeItem. rewrite (deref_run _ et) by done.
  rewrite app_comm_cons, NoDup_app in Hnd. destruct Hnd as (Hnd1 & Hdisj & Hnd2).
  destruct (decide (a = top)) as [-> |Hne].
  - rewrite Z.eqb_refl, drop_item_head by (by apply NoDup_cons in Hnd1 as [? ?]).
    destruct rest as [|n rest].
    + simpl in Hr. rewrite Hr. exists et.(nextBin), s.(events).
      split_and!; try done. by destruct s.
    + destruct Hr as (-> & en & Hn & Hkn & Hr). apply NoDup_cons in Hnd1 as [Htn Hnd1].
      exists (Some n), (<[n := en <| nextBin := et.(nextBin) |>]> s.(events)).
      rewrite (update_run _ en) by done. split_and!; try done.
      * exists n, rest, (en <| nextBin := et.(nextBin) |>). rewrite lookup_insert_eq.
        apply NoDup_cons in Hnd1 as [Hnr Hnd1]. split_and!; try done.
        -- eapply in_bin_same; [done|]. intros b Hb. apply lookup_insert_ne. set_solver.
        -- eapply chain_same; [done|]. intros b Hb. apply lookup_insert_ne. set_solver.
      * by eapply same_payload_insert.
      * intros b Hb. apply lookup_insert_ne. set_solver.
  - rewrite (proj2 (Z.eqb_neq a top)), gets_run by done.
    destruct (unlink_run (walk_fuel s) s k a top et rest)
      as (c & h' & et' & Hfind & Hrun & Ht' & Hp & Hb & Hbin & Hsp & Hfr);
      try done; [set_solver|].
    exists (Some top), h'. rewrite (M_bind_run _ _ _ _ _ Hfind).
    split; [|split; [|done]].
    + destruct (in_bin_lookup _ _ _ _ a Hr) as (ea & Hea & _); [set_solver|].
      rewrite (deref_run _ ea) in Hrun by done. rewrite (deref_run _ ea) by done.
      by rewrite (M_bind_run _ _ _ _ _ Hrun).
    + unfold drop_item. rewrite filter_cons_True by done. exists top, (drop_item a rest), et'.
      split_and!; try done.
      * by rewrite (payload_key _ _ Hp).
      * rewrite Hb. eapply chain_same; [done|]. intros b Hb'. apply Hfr. set_solver.
Qed.

(** The key of a member is the key of its bin. *)
Lemma chain_key h p bins a e :
  chain h p bins -> a ∈ members bins -> h !! a = Some e -> key_of e ∈ bins.*1.
Proof.
  revert p. induction bins as [|[k l] bins IH]; intros p; [set_solver|].
  intros (b & rest & eb & -> & -> & Hb & Hk & Hr & Hc).
  rewrite members_cons, elem_of_app, elem_of_cons. intros [[-> |Ha]|Ha] He; csimpl.
  - simplify_eq. by left.
  - destruct (in_bin_lookup _ _ _ _ _ Hr Ha) as (e' & He' & Hk').
    assert (e' = e) as -> by congruence. rewrite Hk'. by left.
  - right. by eapply IH.
Qed.

Lemma elem_of_rem_bins a b bins : b ∈ members (rem_bins a bins) -> b ∈ members bins.
Proof.
  induction bins as [|[k l] bins IH]; cbn [rem_bins]; [done|]. rewrite members_cons.
  case_decide.
  - unfold add_bin. destruct (drop_item a l) as [|c l'] eqn:E; [set_solver|].
    rewrite members_cons, <- E, !elem_of_app. unfold drop_item.
    rewrite list_elem_of_filter. tauto.
  - rewrite members_cons, !elem_of_app. tauto.
Qed.

Definition removed (s : state) (a q : Z) (rest : list Z) (k0 : key) (bins : list bin)
  (h' : gmap Z Event) : Prop :=
  chain h' (Some q) ((k0, q :: rest) :: rem_bins a bins) /\
  same_payload s.(events) h' /\
  (forall b, b ∉ q :: members bins -> h' !! b = s.(events) !! b).

(** The removal from the bin right after the one the walk stands at. *)
Lemma remove_here s a q eq rest k0 k c ec r bins :
  s.(events) !! q = Some eq -> key_of eq = k0 -> in_bin s.(events) k0 eq.(nextInBin) rest ->
  s.(events) !! c = Some ec -> key_of ec = k -> in_bin s.(events) k ec.(nextInBin) r ->
  chain s.(events) ec.(nextBin) bins -> a ∈ c :: r ->
  NoDup (q :: rest ++ c :: r ++ members bins) -> (length r < walk_fuel s)%nat ->
  exists h', (x ← removeItem a c; update q (fun e => e <| nextBin := x |>)) s
      = Ok (tt, s <| events := h' |>) /\
    removed s a q rest k0 ((k, c :: r) :: bins) h'.
Proof.
  intros Hq Hk0 Hr Hc Hk Hrc Hb Ha Hnd Hf.
  rewrite NoDup_cons, NoDup_app in Hnd. destruct Hnd as (Hqn & _ & Hdisj & Hnd).
  destruct (removeItem_run s k a c ec r bins) as (p & h1 & Hrun & Hch & Hsp & Hfr); try done.
  assert (h1 !! q = Some eq) as Hq1 by (rewrite Hfr; [done|set_solver]).
  exists (<[q := eq <| nextBin := p |>]> h1).
  split; [rewrite (M_bind_run _ _ _ _ _ Hrun); by rewrite (update_val _ eq)|].
  split; [|split].
  - cbn [rem_bins]. rewrite decide_True by done.
    exists q, rest, (eq <| nextBin := p |>). rewrite lookup_insert_eq. split_and!; try done.
    + eapply in_bin_same; [done|]. intros b Hb'.
      rewrite lookup_insert_ne by set_solver. apply Hfr. set_solver.
    + eapply chain_same; [done|]. intros b Hb'. apply lookup_insert_ne.
      intros ->. apply Hqn. apply elem_of_app. right. rewrite app_comm_cons, elem_of_app.
      assert (b ∈ members (rem_bins a ((k, c :: r) :: bins))) as Hm.
      { cbn [rem_bins]. by rewrite decide_True by done. }
      apply elem_of_rem_bins in Hm. rewrite members_cons, elem_of_app in Hm. done.
  - eapply same_payload_trans; [done|]. by eapply same_payload_insert.
  - intros b Hb'. rewrite members_cons in Hb'.
    rewrite lookup_insert_ne by set_solver. apply Hfr. set_solver.
Qed.

Lemma remove_tail fuel s a e q eq rest k0 bins :
  s.(events) !! a = Some e -> a ∈ members bins ->
  s.(events) !! q = Some eq -> key_of eq = k0 -> in_bin s.(events) k0 eq.(nextInBin) rest ->
  chain s.(events) eq.(nextBin) bins -> StronglySorted klt bins.*1 ->
  NoDup (q :: rest ++ members bins) -> (length bins < fuel)%nat ->
  (length (members bins) < walk_fuel s)%nat ->
  exists p c ec h',
    find_bin fuel a q eq.(nextBin) s = Ok ((p, Some c), s) /\
    s.(events) !! c = Some ec /\ ev_ne ec e = false /\
    (x ← removeItem a c; update p (fun e => e <| nextBin := x |>)) s
      = Ok (tt, s <| events := h' |>) /\ removed s a q rest k0 bins h'.
Proof.
  intros He. revert q eq rest k0 bins.
  induction fuel as [|fuel IH]; intros q eq rest k0 bins Ha Hq Hk0 Hr Hc Hs Hnd Hf Hw; [lia|].
  destruct bins as [|[k l] bins]; [set_solver|].
  destruct Hc as (c & r & ec & -> & Hnx & Hc & Hk & Hrc & Hb).
  rewrite members_cons in *. cbn [fmap list_fmap fst] in Hs.
  apply StronglySorted_inv in Hs as [Hs Hlt]. rewrite Hnx. cbn [find_bin].
  rewrite (deref_run _ ec), (deref_run _ e), ev_lt_key, Hk by done.
  rewrite length_app in Hw. cbn [length] in Hw, Hf.
  destruct (decide (a ∈ c :: r)) as [Hin|Hnin].
  - assert (key_of e = k) as Hek.
    { apply elem_of_cons in Hin as [-> |Hin]; [congruence|].
      destruct (in_bin_lookup _ _ _ _ _ Hrc Hin) as (? & ? & ?). congruence. }
    destruct (remove_here s a q eq rest k0 k c ec r bins) as (h' & Hrun & Hrem); try done; [lia|].
    exists q, c, ec, h'. rewrite Hek, kltb_irrefl.
    split_and!; try done. rewrite ev_ne_key, ev_eq_key, bool_decide_true; [done|congruence].
  - apply elem_of_app in Ha as [Ha|Ha]; [done|].
    pose proof (chain_key _ _ _ _ _ Hb Ha He) as Hek.
    rewrite Forall_forall in Hlt. rewrite (Hlt _ Hek).
    destruct (IH c ec r k bins) as (p & c' & ec' & h' & Hfind & Hc' & Hne & Hrun & Hch & Hsp & Hfr);
      try done; [by apply NoDup_cons, proj2, NoDup_app, proj2, proj2 in Hnd|lia|lia|].
    exists p, c', ec', h'. split_and!; try done.
    rewrite NoDup_cons, NoDup_app in Hnd. destruct Hnd as (Hqn & _ & Hdisj & _).
    split; [|split; [done|]].
    + cbn [rem_bins]. rewrite decide_False by done. exists q, rest, eq. split_and!; try done.
      * rewrite Hfr; [done|set_solver].
      * eapply in_bin_same; [done|]. intros b Hb'. apply Hfr. set_solver.
      * by rewrite Hnx.
    + intros b Hb'. apply Hfr. rewrite members_cons in Hb'. set_solver.
Qed.

Lemma remove_run s a e bins :
  s.(events) !! a = Some e -> a ∈ members bins ->
  chain s.(events) s.(head) bins -> StronglySorted klt bins.*1 -> NoDup (members bins) ->
  exists h' hd, remove a s = Ok (tt, s <| events := h' |> <| head := hd |>) /\
    chain h' hd (rem_bins a bins) /\ same_payload s.(events) h'.
Proof.
  intros He Ha Hc Hs Hnd. pose proof (members_fuel s bins Hc Hnd) as Hfuel.
  destruct bins as [|[k l] bins]; [set_solver|].
  destruct Hc as (q & rest & eq & -> & Hh & Hq & Hk & Hr & Hc).
  rewrite members_cons in *. cbn [app length] in Hfuel. rewrite length_app in Hfuel.
  cbn [fmap list_fmap fst] in Hs. apply StronglySorted_inv in Hs as [Hs Hlt].
  unfold remove. rewrite gets_run, Hh, (deref_run _ eq), (deref_run _ e), ev_eq_key, Hk by done.
  destruct (decide (a ∈ q :: rest)) as [Hin|Hnin].
  - rewrite bool_decide_true.
    2:{ apply elem_of_cons in Hin as [-> |Hin]; [congruence|].
        destruct (in_bin_lookup _ _ _ _ _ Hr Hin) as (? & ? & ?). congruence. }
    destruct (removeItem_run s k a q eq rest bins) as (p & h' & Hrun & Hch & Hsp & _); try done; [lia|].
    exists h', p. rewrite (M_bind_run _ _ _ _ _ Hrun). split_and!; try done.
    cbn [rem_bins]. by rewrite decide_True.
  - apply elem_of_app in Ha as [Ha|Ha]; [done|].
    pose proof (chain_key _ _ _ _ _ Hc Ha He) as Hek.
    rewrite Forall_forall in Hlt. specialize (Hlt _ Hek).
    rewrite bool_decide_false by (intros Hke; rewrite <- Hke in Hlt; unfold klt in Hlt;
      by rewrite kltb_irrefl in Hlt).
    pose proof (chain_length _ _ _ Hc).
    destruct (remove_tail (walk_fuel s) s a e q eq rest k bins)
      as (p & c & ec & h' & Hfind & Hec & Hne & Hrun & Hch & Hsp & _); try done; [lia|lia|].
    exists h', (Some q). rewrite gets_run, (M_bind_run _ _ _ _ _ Hfind). cbn [fst snd].
    rewrite (deref_run _ ec), (deref_run _ e), Hne by done.
    split_and!; try done.
    + rewrite Hrun. by rewrite <- Hh.
    + cbn [rem_bins]. by rewrite decide_False.
Qed.

(** ** The removal on bins is the removal on entries *)
Lemma rem_bins_keys a bins : (rem_bins a bins).*1 ⊆ bins.*1.
Proof.
  induction bins as [|[k l] bins IH]; cbn [rem_bins]; [done|].
  case_decide; [unfold add_bin; destruct (drop_item a l)|]; csimpl; set_solver.
Qed.

Lemma rem_bins_sorted a bins :
  StronglySorted klt bins.*1 -> StronglySorted klt (rem_bins a bins).*1.
Proof.
  induction bins as [|[k l] bins IH]; cbn [rem_bins]; [done|]. cbn [fmap list_fmap fst].
  intros Hs. pose proof Hs as [Hs1 Hf]%StronglySorted_inv.
  case_decide; [unfold add_bin; destruct (drop_item a l); [done|exact Hs]|].
  constructor; [by apply IH|]. simpl. rewrite Forall_forall in *.
  intros x Hx%rem_bins_keys. by apply Hf.
Qed.

Lemma members_add_bin k l bins : members (add_bin k l bins) = l ++ members bins.
Proof. by destruct l. Qed.

Lemma rem_bins_members a bins :
  NoDup (members bins) -> members (rem_bins a bins) = drop_item a (members bins).
Proof.
  induction bins as [|[k l] bins IH]; cbn [rem_bins]; [done|]. rewrite members_cons.
  intros (H1 & H2 & H3)%NoDup_app. unfold drop_item in *. rewrite filter_app.
  case_decide as Hin.
  - rewrite members_add_bin. fold (drop_item a (members bins)).
    rewrite (drop_item_not a (members bins)) by auto. done.
  - rewrite members_cons, IH by done. f_equal.
    fold (drop_item a l). by rewrite drop_item_not.
Qed.

Lemma filter_entries a k l :
  without a ((fun b => (b, k)) <$> l) = (fun b => (b, k)) <$> drop_item a l.
Proof.
  unfold without, drop_item. induction l as [|b l IH]; [done|]. csimpl.
  destruct (decide (b = a)); [rewrite !filter_cons_False by naive_solver|
    rewrite !filter_cons_True by naive_solver; csimpl; f_equal]; done.
Qed.

Lemma rem_bins_entries a bins :
  NoDup (members bins) -> entries (rem_bins a bins) = without a (entries bins).
Proof.
  induction bins as [|[k l] bins IH]; cbn [rem_bins]; [done|]. rewrite members_cons.
  intros (H1 & H2 & H3)%NoDup_app. rewrite entries_cons. unfold without.
  rewrite filter_app. fold (without a (entries bins)).
  fold (without a ((fun b => (b, k)) <$> l)). rewrite filter_entries.
  case_decide as Hin.
  - rewrite <- IH by done. assert (rem_bins a bins = bins) as ->.
    { assert (a ∉ members bins) as Hn by auto. clear -Hn.
      induction bins as [|[k l] bins IH]; [done|]. rewrite members_cons in Hn.
      cbn [rem_bins]. rewrite decide_False, IH by set_solver. done. }
    unfold add_bin. destruct (drop_item a l); done.
  - by rewrite entries_cons, IH, drop_item_not.
Qed.
End EventQueueSpec.

(** * The operations of the event queue

    [schedule], [deschedule], [reschedule] and [serviceOne] on a well-formed
    queue, as operations on its list of entries, and the order in which the
    main loop of the simulator processes events. *)
Module EventQueueOps.
Import EventQueue EventQueueSpec.

(** ** Flags *)
Lemma isSet_bit fl i : 0 <= i -> isSet fl (2 ^ i) = Z.testbit fl i.
Proof.
  intros Hi. unfold isSet. destruct (Z.testbit fl i) eqn:E.
  - apply negb_true_iff, Z.eqb_neq. intros H0.
    assert (Z.testbit (Z.land fl (2 ^ i)) i = false) as H by (rewrite H0; apply Z.bits_0).
    rewrite Z.land_spec, E, Z.pow2_bits_true in H by done. done.
  - apply negb_false_iff, Z.eqb_eq, Z.bits_inj'. intros n Hn.
    rewrite Z.land_spec, Z.bits_0. destruct (decide (n = i)) as [-> |]; [by rewrite E|].
    rewrite (Z.pow2_bits_false i n) by done. by rewrite andb_false_r.
Qed.

Lemma isSet_set_eq fl i : 0 <= i -> isSet (set (2 ^ i) fl) (2 ^ i) = true.
Proof.
  intros Hi. rewrite isSet_bit by done. unfold set.
  by rewrite Z.lor_spec, Z.pow2_bits_true, orb_true_r.
Qed.

Lemma isSet_set_ne fl i j :
  0 <= i -> 0 <= j -> i <> j -> isSet (set (2 ^ i) fl) (2 ^ j) = isSet fl (2 ^ j).
Proof.
  intros Hi Hj Hij. rewrite !isSet_bit by done. unfold set.
  by rewrite Z.lor_spec, Z.pow2_bits_false, orb_false_r.
Qed.

Lemma isSet_clear_eq fl i : 0 <= i -> isSet (clear (2 ^ i) fl) (2 ^ i) = false.
Proof.
  intros Hi. rewrite isSet_bit by done. unfold clear.
  by rewrite Z.land_spec, Z.lnot_spec, Z.pow2_bits_true, andb_false_r.
Qed.

Lemma isSet_clear_ne fl i j :
  0 <= i -> 0 <= j -> i <> j -> isSet (clear (2 ^ i) fl) (2 ^ j) = isSet fl (2 ^ j).
Proof.
  intros Hi Hj Hij. rewrite !isSet_bit by done. unfold clear.
  by rewrite Z.land_spec, Z.lnot_spec, Z.pow2_bits_false, andb_true_r.
Qed.

(** The bits the operations change are the bits their names say. *)
Lemma sched_set fl : isSet (set Scheduled fl) Scheduled = true.
Proof. by apply (isSet_set_eq fl 1). Qed.
Lemma sched_clear fl : isSet (clear Scheduled fl) Scheduled = false.
Proof. by apply (isSet_clear_eq fl 1). Qed.
Lemma sched_clear_squashed fl : isSet (clear Squashed fl) Scheduled = isSet fl Scheduled.
Proof. by apply (isSet_clear_ne fl 0 1). Qed.
Lemma squashed_clear_sched fl : isSet (clear Scheduled fl) Squashed = isSet fl Squashed.
Proof. by apply (isSet_clear_ne fl 1 0). Qed.
Lemma exit_clear_sched fl : isSet (clear Scheduled fl) IsExitEvent = isSet fl IsExitEvent.
Proof. by apply (isSet_clear_ne fl 1 4). Qed.
Lemma sched_main b e : scheduled (set_main b e) = scheduled e.
Proof.
  unfold scheduled. destruct b; [by apply (isSet_set_ne _ 5 1)|by apply (isSet_clear_ne _ 5 1)].
Qed.

(** The queue writes three flags; the others belong to the event. *)
Definition kept (fl fl' : Z) : Prop :=
  forall i, 0 <= i -> i <> 0 -> i <> 1 -> i <> 5 -> Z.testbit fl' i = Z.testbit fl i.

Lemma kept_isSet fl fl' i :
  kept fl fl' -> 0 <= i -> i <> 0 -> i <> 1 -> i <> 5 -> isSet fl' (2 ^ i) = isSet fl (2 ^ i).
Proof. intros H ? ? ? ?. rewrite !isSet_bit by done. by apply H. Qed.

Lemma kept_set fl fl' b : kept fl fl' -> b ∈ [0; 1; 5] -> kept fl (set (2 ^ b) fl').
Proof.
  intros H Hb i Hi H0 H1 H5. unfold set. rewrite Z.lor_spec, Z.pow2_bits_false by set_solver.
  rewrite orb_false_r. by apply H.
Qed.

Lemma kept_clear fl fl' b : kept fl fl' -> b ∈ [0; 1; 5] -> kept fl (clear (2 ^ b) fl').
Proof.
  intros H Hb i Hi H0 H1 H5. unfold clear.
  rewrite Z.land_spec, Z.lnot_spec, Z.pow2_bits_false by set_solver.
  rewrite andb_true_r. by apply H.
Qed.

Lemma kept_main fl e b : kept fl e.(flags) -> kept fl (set_main b e).(flags).
Proof. intros H. destruct b; [apply (kept_set _ _ 5)|apply (kept_clear _ _ 5)]; set_solver. Qed.

Lemma kept_sane fl fl' : kept fl fl' -> sane_flags fl -> sane_flags fl'.
Proof.
  intros Hk [Hi Hx]. split.
  - rewrite <- Hi. apply Z.bits_inj'. intros i Hpos. rewrite !Z.land_spec.
    destruct (decide (i = 0 \/ i = 1 \/ i = 5)) as [[-> |[-> | ->]]|Hne];
      [by rewrite !andb_false_r..|]. rewrite Hk; [done|lia..].
  - change IsExitEvent with (2 ^ 4) in *. change AutoDelete with (2 ^ 2) in *.
    by rewrite (kept_isSet _ _ 4 Hk), (kept_isSet _ _ 2 Hk).
Qed.

Lemma sane_init e : sane e -> initialized e = true.
Proof. intros [H _]. unfold initialized. by apply Z.eqb_eq. Qed.

Lemma kept_refl fl : kept fl fl.
Proof. done. Qed.

(** ** Updates that leave the links alone *)
Definition links (e : Event) := (key_of e, e.(nextInBin), e.(nextBin)).

Lemma links_main b e : links (set_main b e) = links e.
Proof. by destruct b. Qed.

Lemma chain_relabel h p bins a e e' :
  chain h p bins -> h !! a = Some e -> links e' = links e -> chain (<[a := e']> h) p bins.
Proof.
  intros Hc He Hl. eapply chain_frame; [done|]. intros b eb Hb Heb.
  destruct (decide (b = a)) as [-> |].
  - rewrite lookup_insert_eq. exists e'. assert (eb = e) as -> by congruence.
    unfold links in Hl. split_and!; congruence.
  - rewrite lookup_insert_ne by done. eauto.
Qed.

Lemma same_payload_lookup h h' a e :
  same_payload h h' -> h !! a = Some e -> exists e', h' !! a = Some e' /\ payload e' = payload e.
Proof.
  intros H He. specialize (H a). rewrite He in H. simpl in H.
  destruct (h' !! a) as [e'|]; [|done]. exists e'. split; [done|]. by apply (inj Some).
Qed.

Lemma same_payload_sym h h' : same_payload h h' -> same_payload h' h.
Proof. intros H a. by rewrite H. Qed.

Lemma sane_frame (h h' : gmap Z Event) a :
  (forall b e, h !! b = Some e -> sane e) ->
  (forall b, b <> a -> payload <$> h' !! b = payload <$> h !! b) ->
  (forall e, h' !! a = Some e -> sane e) ->
  forall b e, h' !! b = Some e -> sane e.
Proof.
  intros Hs Hp Ha b e Hb. destruct (decide (b = a)) as [-> |Hne]; [by apply Ha|].
  specialize (Hp b Hne). rewrite Hb in Hp. destruct (h !! b) as [e0|] eqn:E; [|done].
  injection Hp as _ _ Hf. unfold sane. rewrite Hf. by eapply Hs.
Qed.

(** The scheduled flags stay right when one event changes. *)
Lemma sched_frame (h h' : gmap Z Event) (l l' : list Z) a :
  (forall b e, h !! b = Some e -> scheduled e = bool_decide (b ∈ l)) ->
  (forall b, b <> a -> payload <$> h' !! b = payload <$> h !! b) ->
  (forall b, b <> a -> b ∈ l' <-> b ∈ l) ->
  (forall e, h' !! a = Some e -> scheduled e = bool_decide (a ∈ l')) ->
  forall b e, h' !! b = Some e -> scheduled e = bool_decide (b ∈ l').
Proof.
  intros Hs Hp Hl Ha b e Hb. destruct (decide (b = a)) as [-> |Hne]; [by apply Ha|].
  specialize (Hp b Hne). rewrite Hb in Hp. destruct (h !! b) as [e0|] eqn:E; [|done].
  injection Hp as _ _ Hf. unfold scheduled. rewrite Hf. fold (scheduled e0).
  rewrite (Hs _ _ E). apply bool_decide_ext. by rewrite Hl.
Qed.

Lemma update_twice {B} a e s f g (k : M state B) :
  s.(events) !! a = Some e ->
  (update a f ;; update a g ;; k) s = k (s <| events ::= <[a := g (f e)]> |>).
Proof.
  intros He. rewrite (update_run _ e) by done.
  rewrite (update_run _ (f e)) by apply lookup_insert_eq. f_equal.
  destruct s. cbn. by rewrite insert_insert_eq.
Qed.

(** ** [schedule] *)

(** What placing [event] at the key [k] does to the state. *)
Record placed (s s' : state) (event : Z) (e : Event) (when : Z) (bins : list bin) : Prop := {
  p_rep : represents s' (ins_bins (when, e.(_priority)) event bins);
  p_tick : s'.(curTick) = s.(curTick);
  p_main : s'.(is_main) = s.(is_main);
  p_other : forall b, b <> event -> payload <$> s'.(events) !! b = payload <$> s.(events) !! b;
  p_self : exists e', s'.(events) !! event = Some e' /\ key_of e' = (when, e.(_priority)) /\
    scheduled e' = true /\ kept e.(flags) e'.(flags);
}.

(** The common part of [schedule] and [reschedule]: the event is not linked;
    set its time and insert it. *)
Lemma place_run s event e bins when :
  s.(events) !! event = Some e -> event ∉ members bins ->
  chain s.(events) s.(head) bins -> NoDup (members bins) ->
  exists s2 e2, s2.(events) !! event = Some e2 /\ key_of e2 = (when, e.(_priority)) /\
    e2.(flags) = e.(flags) /\
    (forall B (k : unit -> M state B),
      (update event (fun e => e <| _when := when |>) ;; insert event ;; k tt) s = k tt s2) /\
    chain s2.(events) s2.(head) (ins_bins (when, e.(_priority)) event bins) /\
    s2.(curTick) = s.(curTick) /\ s2.(is_main) = s.(is_main) /\
    (forall b, b <> event -> payload <$> s2.(events) !! b = payload <$> s.(events) !! b).
Proof.
  intros He Hni Hc Hnd.
  set (s1 := s <| events ::= <[event := e <| _when := when |>]> |>).
  assert (s1.(events) !! event = Some (e <| _when := when |>)) as He1 by apply lookup_insert_eq.
  destruct (insert_run s1 event (e <| _when := when |>) bins) as (h' & hd & Hrun & Hch & Hsp);
    [done|done| |done|].
  { eapply chain_same; [done|]. intros b Hb. apply lookup_insert_ne. set_solver. }
  destruct (same_payload_lookup _ _ _ _ Hsp He1) as (e2 & He2 & Hp2).
  exists (s1 <| events := h' |> <| head := hd |>), e2.
  split_and!; try done.
  - by rewrite (payload_key _ _ Hp2).
  - by injection Hp2 as _ _ ->.
  - intros B k. rewrite (update_run _ e) by done. fold s1. by rewrite (M_bind_run _ _ _ _ _ Hrun).
  - intros b Hb. simpl. rewrite Hsp. simpl. by rewrite lookup_insert_ne.
Qed.

Lemma ins_bins_nodup k a bins :
  a ∉ members bins -> NoDup (members bins) -> NoDup (members (ins_bins k a bins)).
Proof. intros. rewrite ins_bins_perm. by constructor. Qed.

(** The placed event gets its flags: the state is well formed. *)
Lemma mark_placed s s2 event e e2 e3 when bins :
  s2.(events) !! event = Some e2 -> links e3 = links e2 -> scheduled e3 = true ->
  event ∉ members bins -> StronglySorted klt bins.*1 -> NoDup (members bins) ->
  (forall b eb, b <> event -> s.(events) !! b = Some eb ->
     scheduled eb = bool_decide (b ∈ members bins)) ->
  chain s2.(events) s2.(head) (ins_bins (when, e.(_priority)) event bins) ->
  s2.(curTick) = s.(curTick) -> s2.(is_main) = s.(is_main) ->
  (forall b, b <> event -> payload <$> s2.(events) !! b = payload <$> s.(events) !! b) ->
  key_of e2 = (when, e.(_priority)) -> kept e.(flags) e3.(flags) -> sane e ->
  (forall b eb, s.(events) !! b = Some eb -> sane eb) ->
  placed s (s2 <| events ::= <[event := e3]> |>) event e when bins.
Proof.
  intros He2 Hl Hsc Hni Hs Hnd Hsch Hc Ht Hm Ho Hk2 Hkept Hse Hsane.
  assert (forall b, b <> event ->
    payload <$> (<[event := e3]> s2.(events)) !! b = payload <$> s.(events) !! b) as Ho'.
  { intros b Hb. by rewrite lookup_insert_ne, Ho. }
  split; [split|done|done|done|].
  - by eapply chain_relabel.
  - by apply ins_bins_sorted.
  - by apply ins_bins_nodup.
  - intros b eb Hb. cbn in Hb. destruct (decide (b = event)) as [-> |Hne].
    + rewrite lookup_insert_eq in Hb. injection Hb as <-. rewrite Hsc.
      symmetry. apply bool_decide_true, elem_of_ins_bins. by left.
    + specialize (Ho' b Hne). rewrite Hb in Ho'. destruct (s.(events) !! b) as [e0|] eqn:E; [|done].
      injection Ho' as _ _ Hf. unfold scheduled. rewrite Hf. fold (scheduled e0).
      rewrite (Hsch _ _ Hne E). apply bool_decide_ext. rewrite elem_of_ins_bins. naive_solver.
  - eapply (sane_frame s.(events) _ event); [done|done|]. cbn. rewrite lookup_insert_eq.
    intros x [= <-]. by eapply kept_sane.
  - exists e3. cbn. rewrite lookup_insert_eq. split_and!; try done.
    unfold links in Hl. congruence.
Qed.

Lemma schedule_run s event e bins when :
  represents s bins -> s.(events) !! event = Some e -> scheduled e = false ->
  u64 s.(curTick) <= u64 when ->
  exists s', schedule event when s = Ok (tt, s') /\ placed s s' event e when bins.
Proof.
  intros [Hc Hs Hnd Hsch Hsane] He Hns Ht.
  pose proof (sane_init _ (Hsane _ _ He)) as Hi.
  assert (event ∉ members bins) as Hni.
  { intros Hin. rewrite (Hsch _ _ He), bool_decide_true in Hns by done. done. }
  unfold schedule. rewrite gets_run, assert_bind_run, (proj2 (Z.leb_le _ _) Ht).
  rewrite (deref_run _ e), assert_bind_run, Hns by done. cbn [negb].
  rewrite assert_bind_run, Hi.
  destruct (place_run s event e bins when) as (s2 & e2 & He2 & Hk2 & Hf2 & Hrun & Hc2 & Ht2 & Hm2 & Ho2);
    [done..|]. rewrite (Hrun _ (fun _ => _)).
  rewrite (update_run _ e2) by done. rewrite gets_run.
  erewrite update_val by apply lookup_insert_eq.
  eexists. split; [reflexivity|].
  cbn. rewrite insert_insert_eq. eapply (mark_placed s s2 event e e2); try done.
  - by rewrite links_main.
  - rewrite sched_main. apply sched_set.
  - intros. by eapply Hsch.
  - apply kept_main, (kept_set _ _ 1); [|set_solver]. by rewrite Hf2.
  - by eapply Hsane.
Qed.

(** [schedule] does not touch the [Squashed] flag. *)
Lemma squashed_schedule b e : squashed (set_main b (e <| flags ::= set Scheduled |>)) = squashed e.
Proof.
  unfold squashed. destruct b; cbn.
  - etrans; [by apply (isSet_set_ne _ 5 0)|]. by apply (isSet_set_ne _ 1 0).
  - etrans; [by apply (isSet_clear_ne _ 5 0)|]. by apply (isSet_set_ne _ 1 0).
Qed.

Lemma schedule_squashed s event e bins when s' e' :
  represents s bins -> s.(events) !! event = Some e -> scheduled e = false ->
  u64 s.(curTick) <= u64 when -> schedule event when s = Ok (tt, s') ->
  s'.(events) !! event = Some e' -> squashed e' = squashed e.
Proof.
  intros [Hc Hs Hnd Hsch Hsane] He Hns Ht. pose proof (sane_init _ (Hsane _ _ He)) as Hi.
  assert (event ∉ members bins) as Hni.
  { intros Hin. rewrite (Hsch _ _ He), bool_decide_true in Hns by done. done. }
  unfold schedule. rewrite gets_run, assert_bind_run, (proj2 (Z.leb_le _ _) Ht).
  rewrite (deref_run _ e), assert_bind_run, Hns by done. cbn [negb]. rewrite assert_bind_run, Hi.
  destruct (place_run s event e bins when) as (s2 & e2 & He2 & _ & Hf2 & Hrun & _); [done..|].
  rewrite (Hrun _ (fun _ => _)), (update_run _ e2), gets_run by done.
  erewrite update_val by apply lookup_insert_eq. intros [= <-]. cbn.
  rewrite insert_insert_eq, lookup_insert_eq. intros [= <-].
  etrans; [exact (squashed_schedule _ e2)|]. unfold squashed. by rewrite Hf2.
Qed.

(** ** [deschedule] and [reschedule] *)

(** Unlinking an event that is in the queue. *)
Lemma unlink_queued s a e bins :
  represents s bins -> s.(events) !! a = Some e -> scheduled e = true ->
  exists s1, remove a s = Ok (tt, s1) /\ same_payload s.(events) s1.(events) /\
    chain s1.(events) s1.(head) (rem_bins a bins) /\
    s1.(curTick) = s.(curTick) /\ s1.(is_main) = s.(is_main).
Proof.
  intros [Hc Hs Hnd Hsch _] He Hsc.
  assert (a ∈ members bins) as Hin by (rewrite (Hsch _ _ He) in Hsc; by apply bool_decide_eq_true in Hsc).
  destruct (remove_run s a e bins) as (h' & hd & Hrun & Hch & Hsp); try done.
  eexists. split_and!; done.
Qed.

Lemma rem_bins_nodup a bins : NoDup (members bins) -> NoDup (members (rem_bins a bins)).
Proof. intros. rewrite rem_bins_members by done. by apply NoDup_filter. Qed.

Lemma rem_bins_gone a bins : NoDup (members bins) -> a ∉ members (rem_bins a bins).
Proof. intros. rewrite rem_bins_members by done. unfold drop_item. rewrite list_elem_of_filter. naive_solver. Qed.

Lemma rem_bins_other a b bins :
  NoDup (members bins) -> b <> a -> b ∈ members (rem_bins a bins) <-> b ∈ members bins.
Proof. intros. rewrite rem_bins_members by done. unfold drop_item. rewrite list_elem_of_filter. naive_solver. Qed.

(** The state after an event left the queue. *)
Record unqueued (s s' : state) (a : Z) (bins : list bin) : Prop := {
  u_rep : represents s' (rem_bins a bins);
  u_tick : s'.(curTick) = s.(curTick);
  u_main : s'.(is_main) = s.(is_main);
  u_other : forall b, b <> a -> payload <$> s'.(events) !! b = payload <$> s.(events) !! b;
}.

(** The store after the event itself was updated or deleted. *)
Lemma unqueued_intro s s1 a h' bins :
  represents s bins -> same_payload s.(events) s1.(events) ->
  chain s1.(events) s1.(head) (rem_bins a bins) ->
  s1.(curTick) = s.(curTick) -> s1.(is_main) = s.(is_main) ->
  (forall b, b <> a -> h' !! b = s1.(events) !! b) ->
  (forall e, h' !! a = Some e -> scheduled e = false /\ sane e) ->
  unqueued s (s1 <| events := h' |>) a bins.
Proof.
  intros [Hc Hs Hnd Hsch Hsane] Hsp Hch Ht Hm Hoth Hself.
  assert (a ∉ members (rem_bins a bins)) as Hni by by apply rem_bins_gone.
  assert (forall b, b <> a -> payload <$> h' !! b = payload <$> s.(events) !! b) as Ho.
  { intros b Hb. by rewrite Hoth, Hsp. }
  split; [split|done|done|done].
  - eapply chain_same; [done|]. intros b Hb. apply Hoth. by intros ->.
  - by apply rem_bins_sorted.
  - by apply rem_bins_nodup.
  - eapply (sched_frame s.(events) _ (members bins) _ a); [done|done| |].
    + intros b Hb. by apply rem_bins_other.
    + intros e He. destruct (Hself _ He) as [-> _]. symmetry. by apply bool_decide_false.
  - eapply (sane_frame s.(events) _ a); [done|done|]. intros e He. by apply Hself.
Qed.

Lemma deschedule_run s a e bins :
  represents s bins -> s.(events) !! a = Some e -> scheduled e = true ->
  exists s', deschedule a s = Ok (tt, s') /\ unqueued s s' a bins /\
    (is_Some (s'.(events) !! a) <-> isSet e.(flags) AutoDelete = false).
Proof.
  intros R He Hsc. pose proof (sane_init _ (r_sane _ _ R _ _ He)) as Hi.
  destruct (unlink_queued s a e bins) as (s1 & Hrun & Hsp & Hch & Ht & Hm); try done.
  destruct (same_payload_lookup _ _ _ _ Hsp He) as (e1 & He1 & Hp1).
  unfold deschedule. rewrite (deref_run _ e), assert_bind_run, Hsc by done.
  rewrite assert_bind_run, Hi, (M_bind_run _ _ _ _ _ Hrun), (update_twice _ e1) by done.
  match goal with |- context [<[a := ?x]>] => set (e2 := x) end.
  assert (scheduled e2 = false) as Hs2 by apply sched_clear.
  assert (isSet e2.(flags) AutoDelete = isSet e.(flags) AutoDelete) as Had.
  { unfold e2. simpl. rewrite (isSet_clear_ne _ 1 2), (isSet_clear_ne _ 0 2) by done.
    by injection Hp1 as _ _ ->. }
  rewrite (deref_run _ e2) by apply lookup_insert_eq.
  rewrite Had. destruct (isSet e.(flags) AutoDelete) eqn:Ead.
  - unfold delete_event. rewrite (deref_run _ e2) by apply lookup_insert_eq. rewrite Hs2.
    eexists. split; [reflexivity|]. split.
    + apply (unqueued_intro s s1); try done; cbn.
      * intros b Hb. by rewrite lookup_delete_ne, lookup_insert_ne.
      * by rewrite lookup_delete_eq.
    + cbn. rewrite lookup_delete_eq. split; [by intros []|done].
  - eexists. split; [reflexivity|]. split.
    + apply (unqueued_intro s s1); try done; cbn.
      * intros b Hb. by rewrite lookup_insert_ne.
      * rewrite lookup_insert_eq. intros x [= <-]. split; [done|]. unfold sane, e2.
        eapply kept_sane; [|by eapply R]. injection Hp1 as _ _ Hf1. rewrite <- Hf1.
        apply (kept_clear _ _ 1); [|set_solver]. apply (kept_clear _ _ 0); [apply kept_refl|set_solver].
    + cbn. rewrite lookup_insert_eq. split; [done|by eauto].
Qed.

Lemma rem_bins_id a bins : a ∉ members bins -> rem_bins a bins = bins.
Proof.
  induction bins as [|[k l] bins IH]; [done|]. rewrite members_cons. intros Hn.
  cbn [rem_bins]. rewrite decide_False, IH by set_solver. done.
Qed.

(** [if (event->scheduled()) remove(event);] *)
Lemma unlink_if_queued s a e bins :
  represents s bins -> s.(events) !! a = Some e ->
  exists s1, (if scheduled e then remove a else mret tt) s = Ok (tt, s1) /\
    same_payload s.(events) s1.(events) /\ chain s1.(events) s1.(head) (rem_bins a bins) /\
    s1.(curTick) = s.(curTick) /\ s1.(is_main) = s.(is_main).
Proof.
  intros R He. destruct (scheduled e) eqn:Hsc; [by eapply unlink_queued|].
  exists s. split_and!; try done. destruct R as [Hc Hs Hnd Hsch _].
  rewrite rem_bins_id; [done|]. intros Hin.
  rewrite (Hsch _ _ He), bool_decide_true in Hsc; done.
Qed.

Lemma reschedule_run s a e bins when always :
  represents s bins -> s.(events) !! a = Some e -> always || scheduled e = true ->
  u64 s.(curTick) <= u64 when ->
  exists s', reschedule a when always s = Ok (tt, s') /\
    placed s s' a e when (rem_bins a bins).
Proof.
  intros R He Hal Ht. pose proof R as [Hc Hs Hnd Hsch Hsane].
  pose proof (sane_init _ (Hsane _ _ He)) as Hi.
  destruct (unlink_if_queued s a e bins) as (s1 & Hrun & Hsp & Hch & Ht1 & Hm1); try done.
  destruct (same_payload_lookup _ _ _ _ Hsp He) as (e1 & He1 & Hp1).
  assert (e1.(_priority) = e.(_priority)) as Hpr by (by injection Hp1).
  unfold reschedule. rewrite gets_run, assert_bind_run, (proj2 (Z.leb_le _ _) Ht).
  rewrite (deref_run _ e), assert_bind_run, Hal by done.
  rewrite assert_bind_run, Hi, (M_bind_run _ _ _ _ _ Hrun).
  pose proof (rem_bins_gone a bins Hnd) as Hni.
  destruct (place_run s1 a e1 (rem_bins a bins) when)
    as (s2 & e2 & He2 & Hk2 & Hf2 & Hrun2 & Hc2 & Ht2 & Hm2 & Ho2);
    [done..|by apply rem_bins_nodup|].
  rewrite (Hrun2 _ (fun _ => _)), (update_twice _ e2), gets_run by done.
  erewrite update_val by apply lookup_insert_eq.
  eexists. split; [reflexivity|]. cbn. rewrite insert_insert_eq, Hpr in *.
  eapply (mark_placed s s2 a e e2); try done.
  - by rewrite links_main.
  - rewrite sched_main. apply sched_set.
  - by apply rem_bins_sorted.
  - by apply rem_bins_nodup.
  - intros b eb Hb Heb. rewrite (Hsch _ _ Heb). apply bool_decide_ext.
    symmetry. by apply rem_bins_other.
  - congruence.
  - congruence.
  - intros b Hb. by rewrite Ho2, Hsp.
  - apply kept_main, (kept_set _ _ 1); [|set_solver].
    apply (kept_clear _ _ 0); [|set_solver]. simpl.
    rewrite Hf2. by injection Hp1 as _ _ ->.
  - by eapply Hsane.
Qed.

Lemma pop_flags e : sane e ->
  scheduled (e <| flags ::= clear Scheduled |>) = false /\ sane (e <| flags ::= clear Scheduled |>).
Proof.
  intros Hs. split; [apply sched_clear|]. eapply kept_sane; [|exact Hs].
  apply (kept_clear _ _ 1); [apply kept_refl|set_solver].
Qed.

(** ** [popHead], the first part of [serviceOne] *)
Lemma popHead_run s k a rest bins :
  represents s ((k, a :: rest) :: bins) ->
  exists s' e, popHead s = Ok (a, s') /\ s.(events) !! a = Some e /\ key_of e = k /\
    unqueued s s' a ((k, a :: rest) :: bins) /\
    payload <$> s'.(events) !! a = Some (payload (e <| flags ::= clear Scheduled |>)).
Proof.
  intros R. pose proof R as [(a' & rest' & e & Hl & Hh & He & Hk & Hr & Hc) Hs Hnd Hsch Hsane].
  injection Hl as <- <-. rewrite members_cons in Hnd. cbn [app] in Hnd.
  apply NoDup_cons in Hnd as [Han Hnd]. pose proof (Hsane _ _ He) as Hse.
  unfold popHead. rewrite gets_run, Hh, (deref_run _ e), (update_run _ e) by done.
  set (e' := e <| flags ::= clear Scheduled |>).
  assert (rem_bins a ((k, a :: rest) :: bins) = add_bin k rest bins) as Hrem.
  { cbn [rem_bins]. rewrite decide_True by set_solver.
    by rewrite drop_item_head by set_solver. }
  destruct rest as [|n rest]; cbn [in_bin] in Hr.
  - rewrite Hr. eexists _, e. split; [reflexivity|]. split_and!; try done.
    + change (unqueued s (s <| head := e.(nextBin) |> <| events := <[a := e']> s.(events) |>) a
                ((k, [a]) :: bins)).
      apply unqueued_intro; try done.
      * by rewrite Hrem.
      * intros b Hb. by rewrite lookup_insert_ne.
      * rewrite lookup_insert_eq. intros x [= <-]. by apply pop_flags.
    + cbn. by rewrite lookup_insert_eq.
  - destruct Hr as (Hnx & en & Hn & Hkn & Hrn). rewrite Hnx.
    apply NoDup_app in Hnd as (Hnd1 & Hdisj & Hnd2). apply NoDup_cons in Hnd1 as [Hnn Hnd1].
    assert (n <> a) by set_solver.
    erewrite M_bind_run
      by (rewrite (update_run _ en); [reflexivity|cbn; by rewrite lookup_insert_ne]).
    eexists _, e. split; [reflexivity|]. split_and!; try done.
    + set (en' := en <| nextBin := e.(nextBin) |>).
      set (s1 := s <| head := Some n |> <| events := <[n := en']> s.(events) |>).
      change (unqueued s (s1 <| events := <[n := en']> (<[a := e']> s.(events)) |>) a
                ((k, a :: n :: rest) :: bins)).
      apply unqueued_intro; try done.
      * by eapply same_payload_insert.
      * rewrite Hrem. exists n, rest, (en <| nextBin := e.(nextBin) |>). cbn.
        rewrite lookup_insert_eq. split_and!; try done.
        -- eapply in_bin_same; [done|]. intros b Hb. apply lookup_insert_ne. set_solver.
        -- eapply chain_same; [done|]. intros b Hb. apply lookup_insert_ne. set_solver.
      * intros b Hb. cbn. destruct (decide (b = n)) as [-> |].
        -- by rewrite !lookup_insert_eq.
        -- by rewrite !lookup_insert_ne.
      * rewrite lookup_insert_ne, lookup_insert_eq by done. intros x [= <-]. by apply pop_flags.
    + cbn. by rewrite lookup_insert_ne, lookup_insert_eq.
Qed.

(** ** Entries *)
Lemma elem_of_ordered_insert a k x l : x ∈ ordered_insert a k l <-> x = (a, k) \/ x ∈ l.
Proof.
  induction l as [|y l IH]; cbn [ordered_insert]; [set_solver|].
  destruct (kltb y.2 k); rewrite !elem_of_cons, ?IH; tauto.
Qed.

Lemma elem_of_without a x l : x ∈ without a l <-> x.1 <> a /\ x ∈ l.
Proof. unfold without. by rewrite list_elem_of_filter. Qed.

Lemma elem_of_entries x bins : x ∈ entries bins -> x.2 ∈ bins.*1.
Proof.
  induction bins as [|[k l] bins IH]; [set_solver|]. rewrite entries_cons. csimpl.
  rewrite elem_of_app, elem_of_cons. intros [(b & -> & _)%list_elem_of_fmap|H]; [by left|].
  right. by apply IH.
Qed.

(** Entries come out ordered by time, then priority. *)
Lemma entries_sorted bins :
  StronglySorted klt bins.*1 ->
  StronglySorted (fun x y => kltb y.2 x.2 = false) (entries bins).
Proof.
  induction bins as [|[k l] bins IH]; [constructor|]. cbn [fmap list_fmap fst].
  intros [Hs Hf]%StronglySorted_inv. rewrite entries_cons. specialize (IH Hs).
  rewrite Forall_forall in Hf.
  induction l as [|a l IHl]; [done|]. csimpl. constructor; [done|].
  apply Forall_app. split.
  - apply Forall_fmap, Forall_true. intros. apply kltb_irrefl.
  - apply Forall_forall. intros x Hx%elem_of_entries%Hf. simpl. unfold klt in Hx.
    unfold kltb in *. lia.
Qed.

Lemma Queue_sorted s l : Queue s l -> StronglySorted (fun x y => kltb y.2 x.2 = false) l.
Proof. intros (bins & [] & ->). by apply entries_sorted. Qed.

(** ** The operations on [Queue] *)
Definition now_at (s' : state) (a : Z) (e : Event) (when : Z) : Prop :=
  exists e', s'.(events) !! a = Some e' /\ key_of e' = (when, e.(_priority)) /\
    scheduled e' = true /\ kept e.(flags) e'.(flags).

Definition same_others (s s' : state) (a : Z) : Prop :=
  s'.(curTick) = s.(curTick) /\ s'.(is_main) = s.(is_main) /\
  forall b, b <> a -> payload <$> s'.(events) !! b = payload <$> s.(events) !! b.

Lemma schedule_Queue s l event e when :
  Queue s l -> s.(events) !! event = Some e -> scheduled e = false ->
  u64 s.(curTick) <= u64 when ->
  exists s', schedule event when s = Ok (tt, s') /\
    Queue s' (ordered_insert event (when, e.(_priority)) l) /\ same_others s s' event /\
    now_at s' event e when.
Proof.
  intros (bins & R & ->) He Hs Ht.
  destruct (schedule_run s event e bins when) as (s' & Hrun & []); try done.
  exists s'. split_and!; try done. eexists. split; [done|].
  symmetry. eapply ins_bins_entries, R.
Qed.

(** C28: on a well-formed queue, [schedule] of an unscheduled event
    at a time that is not in the past succeeds, and puts the event before the
    first queued one that is not strictly earlier in (time, priority): behind
    every earlier event, in front of those of the same time and priority.  No other event and no clock changes. *)
Theorem schedule_inserts s l event e when :
  Queue s l -> s.(events) !! event = Some e -> scheduled e = false ->
  u64 s.(curTick) <= u64 when ->
  exists s', schedule event when s = Ok (tt, s') /\
    Queue s' (ordered_insert event (when, e.(_priority)) l) /\ same_others s s' event /\
    now_at s' event e when.
Proof. apply schedule_Queue. Qed.

(** [deschedule] of a scheduled event removes exactly that event from the
    queue, whichever bin and position it is in, leaves the order of the others,
    and frees the event if and only if it is marked [AutoDelete]. *)
Theorem deschedule_removes s l a e :
  Queue s l -> s.(events) !! a = Some e -> scheduled e = true ->
  exists s', deschedule a s = Ok (tt, s') /\ Queue s' (without a l) /\ same_others s s' a /\
    (is_Some (s'.(events) !! a) <-> isSet e.(flags) AutoDelete = false).
Proof.
  intros (bins & R & ->) He Hs.
  destruct (deschedule_run s a e bins) as (s' & Hrun & [] & Hd); try done.
  exists s'. split_and!; try done. eexists. split; [done|].
  symmetry. apply rem_bins_entries, R.
Qed.

Lemma reschedule_Queue s l a e when always :
  Queue s l -> s.(events) !! a = Some e -> always || scheduled e = true ->
  u64 s.(curTick) <= u64 when ->
  exists s', reschedule a when always s = Ok (tt, s') /\
    Queue s' (ordered_insert a (when, e.(_priority)) (without a l)) /\ same_others s s' a /\
    now_at s' a e when.
Proof.
  intros (bins & R & ->) He Hal Ht.
  destruct (reschedule_run s a e bins when always) as (s' & Hrun & []); try done.
  destruct (unlink_if_queued s a e bins) as (s1 & _ & _ & Hch & _); try done.
  exists s'. split_and!; try done. eexists. split; [done|].
  rewrite (ins_bins_entries _ _ _ _ _ Hch), rem_bins_entries; [done|apply R].
Qed.

(** [reschedule] moves an event, scheduled or (with [always]) not, to its
    new time: the queue is the old one without the event, with the event
    inserted at the new key. *)
Theorem reschedule_moves s l a e when always :
  Queue s l -> s.(events) !! a = Some e -> always || scheduled e = true ->
  u64 s.(curTick) <= u64 when ->
  exists s', reschedule a when always s = Ok (tt, s') /\
    Queue s' (ordered_insert a (when, e.(_priority)) (without a l)) /\ same_others s s' a /\
    now_at s' a e when.
Proof. apply reschedule_Queue. Qed.

Lemma Queue_head s a k l :
  Queue s ((a, k) :: l) -> exists rest bins,
    represents s ((k, a :: rest) :: bins) /\ l = ((fun b => (b, k)) <$> rest) ++ entries bins /\
    (exists e, s.(events) !! a = Some e /\ key_of e = k /\ scheduled e = true) /\
    s.(head) = Some a.
Proof.
  intros ([|[k' l'] bins] & R & Hl); [done|].
  pose proof R as [(a' & rest & e & -> & Hh & He & Hk & _ & _) _ _ Hs _].
  rewrite entries_cons in Hl. csimpl in Hl. injection Hl as -> -> ->.
  exists rest, bins. split_and!; try done. exists e. split_and!; try done.
  rewrite (Hs _ _ He). apply bool_decide_true. rewrite members_cons. set_solver.
Qed.

Lemma popHead_Queue s a k l :
  Queue s ((a, k) :: l) -> exists s' e e', popHead s = Ok (a, s') /\
    s.(events) !! a = Some e /\ key_of e = k /\
    s'.(events) !! a = Some e' /\ payload e' = payload (e <| flags ::= clear Scheduled |>) /\
    Queue s' l /\ same_others s s' a.
Proof.
  intros (rest & bins & R & -> & _ & _)%Queue_head.
  destruct (popHead_run s k a rest bins R) as (s' & e & Hrun & He & Hk & [] & Hp).
  destruct (s'.(events) !! a) as [e'|] eqn:He'; [|done]. apply (inj Some) in Hp.
  exists s', e, e'. split_and!; try done. eexists. split; [done|].
  assert (a ∉ rest ++ members bins) as Hn.
  { destruct R as [_ _ Hnd _ _]. rewrite members_cons in Hnd. by apply NoDup_cons in Hnd as [? _]. }
  cbn [rem_bins]. rewrite decide_True, drop_item_head by set_solver. by destruct rest.
Qed.
End EventQueueOps.
