(* ===== verification/EventQueueLoop.v ===== *)
(** * The simulator's main loop over the event queue

    [serviceOne] takes the first entry, and the loop of [simulate] processes
    events in the order of their times: what event handlers have to promise
    for that is the class [Handler].  Last, [debugVerify] accepts the queues
    the operations build. *)

From Stdlib Require Import Sorted.
From S2P Require Import Prelude.
From S2P Require Import EventQueue.
From S2P Require Import EventQueueOps.
Import EventQueue EventQueueSpec EventQueueOps.

Module EventQueueLoop.

(** ** Freeing and relabelling events that are not queued *)
Lemma Queue_relabel s l a e e' :
  Queue s l -> s.(events) !! a = Some e -> links e' = links e -> scheduled e' = scheduled e ->
  sane e' -> Queue (s <| events ::= <[a := e']> |>) l.
Proof.
  intros (bins & [Hc Hs Hnd Hsch Hsane] & ->) He Hl Hsc Hse. exists bins. split; [|done].
  split; try done.
  - by eapply chain_relabel.
  - intros b eb. cbn. destruct (decide (b = a)) as [-> |].
    + rewrite lookup_insert_eq. intros [= <-]. rewrite Hsc. by apply Hsch.
    + rewrite lookup_insert_ne by done. by apply Hsch.
  - intros b eb. cbn. intros [[<- <-]|[_ Hb]]%lookup_insert_Some; [done|by eapply Hsane].
Qed.

Lemma Queue_sane s l a e : Queue s l -> s.(events) !! a = Some e -> sane e.
Proof. intros (bins & [] & _). eauto. Qed.

Lemma Queue_free s l a e :
  Queue s l -> s.(events) !! a = Some e -> scheduled e = false ->
  Queue (s <| events ::= delete a |>) l.
Proof.
  intros (bins & [Hc Hs Hnd Hsch Hsane] & ->) He Hsc. exists bins. split; [|done].
  assert (a ∉ members bins) as Hni.
  { intros Hin. rewrite (Hsch _ _ He), bool_decide_true in Hsc; done. }
  split; try done.
  - eapply chain_same; [done|]. intros b Hb. apply lookup_delete_ne. by intros ->.
  - intros b eb. cbn. intros [_ Hb]%lookup_delete_Some. by apply Hsch.
  - intros b eb. cbn. intros [_ Hb]%lookup_delete_Some. by eapply Hsane.
Qed.

Lemma finishEvent_run s l a e :
  Queue s l -> s.(events) !! a = Some e ->
  exists s', finishEvent a s = Ok (None, s') /\ Queue s' l /\ same_others s s' a.
Proof.
  intros HQ He. unfold finishEvent. rewrite (deref_run _ e) by done.
  destruct (isSet e.(flags) AutoDelete && negb (scheduled e)) eqn:Hd.
  - apply andb_prop in Hd as [_ Hsc%negb_true_iff].
    exists (s <| events ::= delete a |>). split; [|split].
    + erewrite M_bind_run; [reflexivity|]. unfold delete_event.
      rewrite (deref_run _ e), assert_bind_run, Hsc by done. reflexivity.
    + by eapply Queue_free.
    + split; [done|]. split; [done|]. intros b Hb. cbn. by rewrite lookup_delete_ne.
  - exists s. split; [done|]. split; [done|]. by split.
Qed.

(** ** [serviceOne] *)
Lemma serviceOne_run process s a k l :
  Queue s ((a, k) :: l) ->
  exists s1 e e1, Queue s1 l /\ same_others s s1 a /\ s.(events) !! a = Some e /\
    s1.(events) !! a = Some e1 /\ key_of e1 = k /\ e1.(flags) = clear Scheduled e.(flags) /\
    scheduled e1 = false /\
    (squashed e1 = false ->
       serviceOne process s = (process a;; afterProcess a) s1) /\
    (squashed e1 = true ->
       exists s2, serviceOne process s = Ok (None, s2) /\ Queue s2 l /\ same_others s s2 a).
Proof.
  intros HQ. destruct (popHead_Queue s a k l HQ) as (s1 & e & e1 & Hrun & He & Hk & He1 & Hp & HQ1 & Ho).
  assert (scheduled e1 = false) as Hsc.
  { unfold scheduled. injection Hp as _ _ ->. apply sched_clear. }
  exists s1, e, e1. split_and!; try done.
  - by rewrite (payload_key _ _ Hp).
  - by injection Hp as _ _ ->.
  - intros Hsq. unfold serviceOne. rewrite (M_bind_run _ _ _ _ _ Hrun), (deref_run _ e1) by done.
    by rewrite Hsq.
  - intros Hsq. unfold serviceOne. rewrite (M_bind_run _ _ _ _ _ Hrun), (deref_run _ e1) by done.
    rewrite Hsq. cbn [negb]. rewrite (update_run _ e1) by done.
    match goal with |- context [<[a := ?x]>] => set (e2 := x) end.
    destruct (finishEvent_run (s1 <| events ::= <[a := e2]> |>) l a e2) as (s2 & Hf & HQ2 & Ho2).
    + eapply Queue_relabel; try done; [apply sched_clear_squashed|].
      eapply kept_sane; [|by eapply Queue_sane].
      apply (kept_clear _ _ 0); [apply kept_refl|set_solver].
    + apply lookup_insert_eq.
    + exists s2. rewrite Hf. split; [done|]. split; [done|].
      destruct Ho as (? & ? & Ho), Ho2 as (? & ? & Ho2). cbn in *. split_and!; [congruence..|].
      intros b Hb. rewrite Ho2 by done. cbn. rewrite lookup_insert_ne by done. by apply Ho.
Qed.

(** [serviceOne] takes the first entry of the queue, which no other entry
    precedes in (time, priority).  The event leaves the queue and loses its
    [Scheduled] flag before its handler runs, so that the handler finds the
    queue without it; a squashed event is dropped without running it. *)
Theorem serviceOne_takes_first process s a k l :
  Queue s ((a, k) :: l) ->
  Forall (fun x => kltb x.2 k = false) l /\
  exists s1 e e1, Queue s1 l /\ same_others s s1 a /\ s.(events) !! a = Some e /\
    s1.(events) !! a = Some e1 /\ key_of e1 = k /\ e1.(flags) = clear Scheduled e.(flags) /\
    scheduled e1 = false /\
    (squashed e1 = false ->
       serviceOne process s = (process a;; afterProcess a) s1) /\
    (squashed e1 = true ->
       exists s2, serviceOne process s = Ok (None, s2) /\ Queue s2 l /\ same_others s s2 a).
Proof.
  intros HQ. split; [|by apply serviceOne_run].
  apply Queue_sorted in HQ. by apply StronglySorted_inv in HQ as [_ ?].
Qed.

(** ** The main loop *)

(** No queued event lies in the past. *)
Definition future (s : state) (l : list (Z * key)) : Prop :=
  0 <= s.(curTick) /\ Forall (fun x => s.(curTick) <= x.2.1 < 2 ^ 63) l.

(** What the handler of an event promises the loop: called on a well-formed
    queue with nothing in the past, it returns with such a queue, without
    moving the clock or freeing its own event. *)
Class Handler (process : Z -> M state unit) : Prop :=
  handler_ok : forall a s l e,
    Queue s l -> future s l -> s.(events) !! a = Some e -> scheduled e = false ->
    exists s', process a s = Ok (tt, s') /\ s'.(curTick) = s.(curTick) /\
      (exists l', Queue s' l' /\ future s' l') /\ is_Some (s'.(events) !! a).

(** A handler that schedules a follow-up event, its own or another. *)
Definition follow_up (next : Z -> option (Z * Z)) (a : Z) : M state unit :=
  match next a with
  | None => mret tt
  | Some (b, delay) =>
      now ← gets curTick;
      eo ← gets (fun s => s.(events) !! b);
      match eo with
      | Some e =>
          if negb (scheduled e) && initialized e && (0 <=? delay) && (now + delay <? 2 ^ 63)
          then schedule b (now + delay) else mret tt
      | None => mret tt
      end
  end.

#[export] Instance follow_up_handler next : Handler (follow_up next).
Proof.
  intros a s l e HQ HF He Hsc. unfold follow_up.
  assert (exists s', (mret tt : M state unit) s = Ok (tt, s') /\ s'.(curTick) = s.(curTick) /\
      (exists l', Queue s' l' /\ future s' l') /\ is_Some (s'.(events) !! a))
    as Hskip by (exists s; by eauto 10).
  destruct (next a) as [[b d]|]; [|done]. rewrite !gets_run.
  destruct (s.(events) !! b) as [eb|] eqn:Hb; [|done].
  destruct (_ && _) eqn:Hc; [|done]. clear Hskip. bool_to_Z.
  destruct HF as [Hnow HF]. destruct (schedule_Queue s l b eb (s.(curTick) + d))
    as (s' & Hrun & HQ' & (Ht & _ & Ho) & (eb' & Hb' & _ & _ & Hk)); try done.
  { rewrite !u64_small by (zwidth; lia). lia. }
  exists s'. split_and!; try done.
  - eexists. split; [done|]. split; [by rewrite Ht|]. rewrite Forall_forall in *.
    intros x [-> |Hin]%elem_of_ordered_insert; simpl; rewrite Ht; [lia|by apply HF].
  - destruct (decide (a = b)) as [-> |Hne]; [by rewrite Hb'|].
    specialize (Ho a Hne). rewrite He in Ho. by destruct (s'.(events) !! a).
Qed.

Lemma afterProcess_run s l a e :
  Queue s l -> s.(events) !! a = Some e ->
  exists r s', afterProcess a s = Ok (r, s') /\ Queue s' l /\ s'.(curTick) = s.(curTick).
Proof.
  intros HQ He. unfold afterProcess. rewrite (deref_run _ e) by done.
  destruct (Queue_sane _ _ _ _ HQ He) as [_ Hx]. unfold isExitEvent.
  destruct (isSet e.(flags) IsExitEvent).
  - rewrite assert_bind_run, Hx by done. by exists (Some a), s.
  - destruct (finishEvent_run s l a e) as (s' & Hrun & HQ' & Ht & _); try done.
    by exists None, s'.
Qed.

Lemma nextTick_run s a k l : Queue s ((a, k) :: l) -> nextTick s = Ok (k.1, s).
Proof.
  intros (rest & bins & _ & _ & (e & He & Hk & _) & Hh)%Queue_head.
  unfold nextTick. rewrite gets_run, Hh. unfold deref_ptr. rewrite (deref_run _ e) by done.
  by subst.
Qed.

Lemma set_tick_Queue s l t : Queue s l -> Queue (s <| curTick := t |>) l.
Proof. intros (bins & [] & ->). exists bins. split; [by split|done]. Qed.

Lemma future_tail s s' x l : future s (x :: l) -> s'.(curTick) = s.(curTick) -> future s' l.
Proof. intros [H0 [_ Hf]%Forall_cons] Ht. unfold future. by rewrite Ht. Qed.

Section loop.
Context (process : Z -> M state unit) `{HP : !Handler process}.

Lemma serviceOne_safe s a k l :
  Queue s ((a, k) :: l) -> future s ((a, k) :: l) ->
  exists r s', serviceOne process s = Ok (r, s') /\ s'.(curTick) = s.(curTick) /\
    exists l', Queue s' l' /\ future s' l'.
Proof.
  intros HQ HF.
  destruct (serviceOne_run process s a k l HQ)
    as (s1 & e & e1 & HQ1 & (Ht1 & _) & He & He1 & _ & Hfl & Hsc & Hrun & Hsq).
  destruct (squashed e1) eqn:Esq.
  - destruct Hsq as (s2 & Hr & HQ2 & (Ht2 & _)); [done|].
    exists None, s2. split_and!; try done. exists l. split; [done|]. by eapply future_tail.
  - rewrite Hrun by done.
    destruct (HP a s1 l e1) as (s2 & Hr & Ht2 & (l' & HQ2 & HF2) & (e2 & He2)); try done.
    { by eapply future_tail. }
    destruct (afterProcess_run s2 l' a e2) as (r & s3 & Hr3 & HQ3 & Ht3); try done.
    exists r, s3. rewrite (M_bind_run _ _ _ _ _ Hr). split_and!; [done|congruence|].
    exists l'. split; [done|]. unfold future. by rewrite Ht3.
Qed.

(** From a well-formed, non-empty queue with nothing in the past, one round
    of the main loop fails none of its assertions: it moves the clock forward
    to the time of the earliest event, services that event at exactly that
    time, and ends with a well-formed queue with nothing in the past.  Hence
    simulated time never goes back. *)
Theorem simulate_round_advances s a k l :
  Queue s ((a, k) :: l) -> future s ((a, k) :: l) ->
  exists r s', simulate_round process s = Ok (r, s') /\
    serviceOne process (s <| curTick := k.1 |>) = Ok (r, s') /\
    s.(curTick) <= s'.(curTick) /\ s'.(curTick) = k.1 /\
    exists l', Queue s' l' /\ future s' l'.
Proof.
  intros HQ [H0 HF]. set (s0 := s <| curTick := k.1 |>).
  assert (s.(curTick) <= k.1) as Hle by (apply Forall_cons in HF as [? _]; simpl in *; lia).
  assert (future s0 ((a, k) :: l)) as HF0.
  { split; [unfold s0; simpl; lia|]. apply Forall_cons in HF as [Hk HF].
    apply Queue_sorted, StronglySorted_inv in HQ as [_ Hs].
    constructor; [unfold s0; simpl in *; lia|]. rewrite Forall_forall in *. intros x Hx.
    specialize (Hs x Hx). specialize (HF x Hx). unfold s0. destruct x as [b [w q]], k as [w' q'].
    unfold kltb in Hs. simpl in *. lia. }
  destruct (serviceOne_safe s0 a k l) as (r & s' & Hr & Ht & Hl'); [by apply set_tick_Queue|done|].
  exists r, s'. split_and!; try done; [|by rewrite Ht].
  unfold simulate_round, empty. rewrite gets_run.
  pose proof HQ as (rest & bins & _ & _ & _ & Hh)%Queue_head. rewrite Hh.
  rewrite bool_decide_false by done. cbn [negb]. rewrite assert_bind_run, gets_run.
  erewrite M_bind_run by (by eapply nextTick_run).
  by rewrite assert_bind_run, (proj2 (Z.leb_le _ _) Hle).
Qed.
End loop.

(** ** [serviceEvents] *)

(** How many rounds the events up to [when] can cause if each of them is
    followed by at most one later one: an event at time [t] has
    [when - t + 1] left. *)
Definition rounds_left (when : Z) (l : list (Z * key)) : nat :=
  sum_list_with (fun x : Z * key => Z.to_nat (when - x.2.1 + 1)) l.

(** What handlers have to promise for [serviceEvents(when)] to end: called for
    an event [a] of key [k] that has just left the queue, with nothing in the
    past, a handler may schedule events, but only later than [k]; it takes
    none off the queue, and of its new events those up to [when] have less left
    than [a] had.  So it may schedule any number of events after [when], and
    one follow-up before. *)
Class Forward (when : Z) (process : Z -> M state unit) : Prop :=
  forward_ok : forall a k s l e,
    Queue s l -> future s ((a, k) :: l) -> s.(events) !! a = Some e -> key_of e = k ->
    scheduled e = false -> k.1 <= when ->
    exists s' l', process a s = Ok (tt, s') /\ s'.(curTick) = s.(curTick) /\
      Queue s' l' /\ future s' l' /\ is_Some (s'.(events) !! a) /\
      (forall x, x ∈ l -> x ∈ l') /\ (forall x, x ∈ l' -> x ∈ l \/ k.1 < x.2.1) /\
      (rounds_left when l' <= rounds_left when l + Z.to_nat (when - k.1))%nat.

(** A handler that schedules its own event again, one period later, as clocked
    objects do; a period of 0 means that it does not. *)
Definition renew (period : Z -> Z) (a : Z) : M state unit :=
  e ← deref a;
  if (0 <? period a) && (e.(_when) + period a <? 2 ^ 63)
  then schedule a (e.(_when) + period a) else mret tt.

Lemma rounds_left_insert when a k l :
  rounds_left when (ordered_insert a k l) = (Z.to_nat (when - k.1 + 1) + rounds_left when l)%nat.
Proof.
  unfold rounds_left. induction l as [|x l IH]; [done|]. cbn [ordered_insert].
  destruct (kltb _ _); cbn [sum_list_with]; [rewrite IH; lia|done].
Qed.

#[export] Instance renew_forward when period : Forward when (renew period).
Proof.
  intros a k s l e HQ [H0 HF] He Hk Hsc Hw. apply Forall_cons in HF as [Hak HF]. simpl in Hak.
  unfold renew. rewrite (deref_run _ e) by done. destruct (_ && _) eqn:Hc.
  - apply andb_true_iff in Hc as [Hp%Z.ltb_lt Hb%Z.ltb_lt].
    assert (Hwhen : e.(_when) = k.1) by (by rewrite <- Hk). rewrite Hwhen in *.
    destruct (schedule_Queue s l a e (k.1 + period a)) as (s' & R & HQ' & (Ht & _) & (e' & He' & _));
      [done|done|done|rewrite !u64_small by (zwidth; lia); lia|].
    exists s', (ordered_insert a (k.1 + period a, e.(_priority)) l). split_and!; try done.
    + split; [by rewrite Ht|]. rewrite Forall_forall in *. intros x [->|Hx]%elem_of_ordered_insert; rewrite Ht; [simpl; lia|by apply HF].
    + intros x Hx. apply elem_of_ordered_insert. auto.
    + intros x [->|?]%elem_of_ordered_insert; [right; simpl; lia|by left].
    + rewrite rounds_left_insert. simpl. lia.
  - exists s, l. split_and!; try done; [by left|lia].
Qed.

Section service_all.
Context (when : Z) (process : Z -> M state unit) `{HP : !Forward when process}.

(** The entries that [serviceEvents] services one after the other. *)
Inductive serviced : state -> list (Z * key) -> state -> Prop :=
| serviced_none s : serviced s [] s
| serviced_next s a k l r s1 tr s' :
    Queue s ((a, k) :: l) -> serviceOne process s = Ok (r, s1) -> serviced s1 tr s' ->
    serviced s ((a, k) :: tr) s'.

Lemma serviceOne_forward s a k l :
  Queue s ((a, k) :: l) -> future s ((a, k) :: l) -> k.1 <= when ->
  exists r s' l', serviceOne process s = Ok (r, s') /\ Queue s' l' /\ future s' l' /\
    (forall x, x ∈ l -> x ∈ l') /\ (forall x, x ∈ l' -> x ∈ l \/ k.1 < x.2.1) /\
    (rounds_left when l' <= rounds_left when l + Z.to_nat (when - k.1))%nat.
Proof.
  intros HQ HF Hw. destruct (serviceOne_run process s a k l HQ)
    as (s1 & e & e1 & HQ1 & (Ht1 & _) & _ & He1 & Hk1 & _ & Hsc & Hrun & Hsq).
  destruct (squashed e1).
  { destruct Hsq as (s2 & Hr & HQ2 & (Ht2 & _)); [done|]. exists None, s2, l.
    split_and!; try done; [by eapply future_tail|auto|lia]. }
  rewrite Hrun by done.
  destruct (HP a k s1 l e1) as (s2 & l' & Hr & Ht2 & HQ2 & HF2 & (e2 & He2) & Hin & Hnew & Hleft); try done.
  { destruct HF as [? ?]. split; by rewrite Ht1. }
  destruct (afterProcess_run s2 l' a e2) as (r & s3 & Hr3 & HQ3 & Ht3); try done.
  exists r, s3, l'. rewrite (M_bind_run _ _ _ _ _ Hr). split_and!; try done.
  unfold future. by rewrite Ht3.
Qed.

(** The queue is empty, or its first event is not due. *)
Lemma serviceEvents_stops fuel s l :
  Queue s l -> Forall (fun x => when < x.2.1) l -> serviceEvents process (S fuel) when s = Ok (tt, s).
Proof.
  intros HQ Hl. cbn [serviceEvents]. unfold empty. rewrite gets_run. destruct l as [|[a k] l].
  - pose proof HQ as (bins & [Hc] & Hb).
    destruct bins as [|[k l] bins]; [|by destruct Hc as (? & ? & ? & -> & _)].
    simpl in Hc. by rewrite Hc.
  - pose proof HQ as (rest & bins & _ & _ & _ & Hh)%Queue_head.
    rewrite Hh, bool_decide_false by done. erewrite M_bind_run by (by eapply nextTick_run).
    apply Forall_cons in Hl as [Hk _]. cbn [snd] in *. by rewrite (proj2 (Z.ltb_lt _ _)).
Qed.

(** Nothing that is left comes before the entry just serviced. *)
Lemma not_before_head a (k : key) l l' :
  StronglySorted (fun x y : Z * key => kltb y.2 x.2 = false) ((a, k) :: l) ->
  (forall x, x ∈ l' -> x ∈ l \/ k.1 < x.2.1) -> Forall (fun x => kltb x.2 k = false) l'.
Proof.
  intros [_ Hs]%StronglySorted_inv Hnew. rewrite Forall_forall in *. intros x Hx.
  destruct (Hnew x Hx) as [?|?]; [by apply Hs|]. destruct x as [b [w q]], k as [w' q'].
  unfold kltb. simpl in *. lia.
Qed.

Lemma serviceEvents_run fuel s l :
  Queue s l -> future s l -> (rounds_left when l < fuel)%nat ->
  exists s' l' tr, serviceEvents process fuel when s = Ok (tt, s') /\ serviced s tr s' /\
    Queue s' l' /\ Forall (fun x => when < x.2.1) l' /\ Forall (fun x => x.2.1 <= when) tr /\
    (forall k0, Forall (fun x => kltb x.2 k0 = false) l -> Forall (fun x => kltb x.2 k0 = false) tr) /\
    StronglySorted (fun x y => kltb y.2 x.2 = false) tr /\
    (forall x, x ∈ l -> if when <? x.2.1 then x ∈ l' else x ∈ tr) /\
    (length tr <= rounds_left when l)%nat.
Proof.
  revert s l. induction fuel as [|fuel IH]; intros s l HQ HF Hf; [lia|].
  pose proof (Queue_sorted _ _ HQ) as Hsort.
  assert (Hstop : Forall (fun x => when < x.2.1) l -> forall x, x ∈ l ->
                  if when <? x.2.1 then x ∈ l else x ∈ []).
  { intros Hl x Hx. rewrite Forall_forall in Hl. by rewrite (proj2 (Z.ltb_lt _ _) (Hl x Hx)). }
  destruct l as [|[a k] l].
  { exists s, [], []. split; [by eapply serviceEvents_stops|].
    split; [apply serviced_none|]. split_and!; try done. by apply Hstop. }
  destruct (Z.ltb_spec when k.1) as [Hlt|Hle].
  { assert (Hl : Forall (fun x => when < x.2.1) ((a, k) :: l)).
    { apply StronglySorted_inv in Hsort as [_ Hs]. constructor; [done|].
      eapply Forall_impl; [exact Hs|]. intros [b [w q]] Hb. destruct k as [w' q'].
      unfold kltb in Hb. simpl in *. lia. }
    exists s, ((a, k) :: l), []. split; [by eapply serviceEvents_stops|].
    split; [apply serviced_none|]. split_and!; try done; [constructor|by apply Hstop|simpl; lia]. }
  destruct (serviceOne_forward s a k l HQ HF Hle) as (r & s1 & l1 & Hr & HQ1 & HF1 & Hin & Hnew & Hleft).
  assert (Hcons : rounds_left when ((a, k) :: l) =
                  (Z.to_nat (when - k.1 + 1) + rounds_left when l)%nat) by done.
  destruct (IH s1 l1 HQ1 HF1) as (s' & l' & tr & Hrun & Hser & HQ' & Hl' & Htr & Hlow & Hst & Hall & Hlen);
    [lia|].
  exists s', l', ((a, k) :: tr). split_and!; try done.
  - cbn [serviceEvents]. unfold empty. rewrite gets_run.
    pose proof HQ as (rest & bins & _ & _ & _ & Hh)%Queue_head.
    rewrite Hh, bool_decide_false by done. erewrite M_bind_run by (by eapply nextTick_run). cbn [snd].
    rewrite (proj2 (Z.ltb_ge _ _)) by done. by rewrite (M_bind_run _ _ _ _ _ Hr).
  - by eapply serviced_next.
  - by constructor.
  - intros k0 [Hk0 Hl0]%Forall_cons. constructor; [done|]. apply Hlow. rewrite Forall_forall in *.
    intros x Hx. destruct (Hnew x Hx) as [?|Hgt]; [by apply Hl0|]. clear -Hk0 Hgt.
    destruct x as [b [w q]], k as [w' q'], k0 as [w0 q0]. unfold kltb in *. simpl in *. lia.
  - constructor; [done|]. apply Hlow. by eapply not_before_head.
  - intros x [->|Hx]%elem_of_cons; [simpl; rewrite (proj2 (Z.ltb_ge _ _)) by done; by left|].
    specialize (Hall x (Hin x Hx)). destruct (when <? x.2.1); [done|by right].
  - cbn [length]. rewrite Hcons. lia.
Qed.

(** C29: [serviceEvents(when)] ends and services what is due, for handlers that
    may schedule events: each handler may schedule any number of events after
    [when] and replace the event it handles by one later event up to [when]
    ([Forward]; a handler without such a bound may make the loop run for
    ever).  From a well-formed queue with nothing in the past, the loop ends
    after at most as many rounds as the events up to [when] have ticks left,
    none of its assertions failing; it services, one after the other and in
    the order of time and priority, only events up to [when], among them all
    that were queued at the start, and it leaves a well-formed queue with only
    later events, among them all the later ones of the start. *)
Theorem serviceEvents_drains s l :
  Queue s l -> future s l ->
  exists s' l' tr, serviceEvents process (S (rounds_left when l)) when s = Ok (tt, s') /\
    serviced s tr s' /\ (length tr <= rounds_left when l)%nat /\
    StronglySorted (fun x y => kltb y.2 x.2 = false) tr /\
    Queue s' l' /\ Forall (fun x => x.2.1 <= when) tr /\ Forall (fun x => when < x.2.1) l' /\
    forall x, x ∈ l -> if when <? x.2.1 then x ∈ l' else x ∈ tr.
Proof.
  intros HQ HF. destruct (serviceEvents_run (S (rounds_left when l)) s l HQ HF)
    as (s' & l' & tr & ? & ? & ? & ? & ? & _ & ? & ? & ?); [lia|].
  exists s', l', tr. by split_and!.
Qed.
End service_all.

(** ** [debugVerify] *)
Definition last_key (v : seen) : key := (v.(last_time), v.(last_priority)).

Lemma verify_step_key e v :
  kltb (key_of e) (last_key v) =
  (e.(_when) <? v.(last_time)) ||
  ((e.(_when) =? v.(last_time)) && (e.(_priority) <? v.(last_priority))).
Proof. done. Qed.

Lemma verify_bin_run fuel s k p l v :
  in_bin s.(events) k p l -> (length l < fuel)%nat -> NoDup l ->
  (forall a, a ∈ l -> a ∉ v.(nodes)) -> kltb k (last_key v) = false ->
  exists v', verify_bin fuel p v s = Ok (Some v', s) /\
    (forall b, b ∈ v'.(nodes) <-> b ∈ v.(nodes) \/ b ∈ l) /\
    last_key v' = match l with [] => last_key v | _ => k end.
Proof.
  revert fuel p v. induction l as [|a l IH]; intros fuel p v Hl Hf Hnd Hn Hk;
    (destruct fuel as [|fuel]; [simpl in Hf; lia|]).
  - simpl in Hl. subst. exists v. split_and!; try done. set_solver.
  - destruct Hl as (-> & e & He & Hke & Hl). cbn [verify_bin]. rewrite (deref_run _ e) by done.
    rewrite <- Hke, verify_step_key in Hk. apply orb_false_elim in Hk as [-> ->].
    rewrite bool_decide_false by set_solver. apply NoDup_cons in Hnd as [Hal Hnd].
    destruct (IH fuel e.(nextInBin) (mkSeen e.(_when) e.(_priority) ({[a]} ∪ v.(nodes))))
      as (v' & Hrun & Hnodes & Hlast); try done.
    + simpl in Hf. lia.
    + simpl. set_solver.
    + unfold last_key. simpl. rewrite <- Hke. apply kltb_irrefl.
    + exists v'. split_and!; [done| |].
      * intros b. rewrite Hnodes. simpl. set_solver.
      * rewrite Hlast. destruct l; [done|done].
Qed.

Lemma verify_bins_run fuel s p bins v :
  chain s.(events) p bins -> (length bins < fuel)%nat ->
  (length (members bins) < walk_fuel s)%nat -> NoDup (members bins) ->
  StronglySorted klt bins.*1 ->
  (forall a, a ∈ members bins -> a ∉ v.(nodes)) ->
  match bins with [] => True | (k, _) :: _ => kltb k (last_key v) = false end ->
  verify_bins fuel p v s = Ok (true, s).
Proof.
  revert fuel p v. induction bins as [|[k l] bins IH]; intros fuel p v Hc Hf Hw Hnd Hs Hn Hk;
    (destruct fuel as [|fuel]; [simpl in Hf; lia|]).
  - simpl in Hc. by subst.
  - rewrite members_cons in *. apply NoDup_app in Hnd as (Hnd1 & Hdisj & Hnd2).
    cbn [fmap list_fmap fst] in Hs. apply StronglySorted_inv in Hs as [Hs Hlt].
    destruct Hc as (a & rest & e & -> & -> & He & Hke & Hr & Hc).
    rewrite length_app in Hw. cbn [verify_bins]. rewrite gets_run.
    destruct (verify_bin_run (walk_fuel s) s k (Some a) (a :: rest) v) as (v' & Hrun & Hnodes & Hlast);
      try done; [split; [done|by exists e]|lia|set_solver|].
    rewrite (M_bind_run _ _ _ _ _ Hrun), (deref_run _ e) by done.
    apply IH; try done; [simpl in Hf; lia|lia| |].
    + intros b Hb Hb'%Hnodes. set_solver.
    + destruct bins as [|[k' l'] bins]; [done|]. rewrite Hlast.
      apply Forall_cons in Hlt as [Hlt _]. simpl in Hlt. unfold klt, kltb in *. lia.
Qed.

(** [debugVerify] terminates on a well-formed queue and accepts it, unless
    its first event lies before the key (0, 0) its scan starts from: events of
    tick 0 with a negative priority, which [schedule] admits, are reported as
    priority inversions. *)
Theorem debugVerify_accepts s l :
  Queue s l ->
  debugVerify s = Ok (match l with [] => true | (_, k) :: _ => negb (kltb k (0, 0)) end, s).
Proof.
  intros (bins & [Hc Hs Hnd Hsch _] & ->).
  pose proof (members_fuel s bins Hc Hnd) as Hw. pose proof (chain_length _ _ _ Hc) as Hlen.
  unfold debugVerify. rewrite !gets_run. destruct bins as [|[k l] bins].
  - apply verify_bins_run with (bins := []); try done.
  - assert (exists a rest, l = a :: rest) as (a & rest & ->)
      by (destruct Hc as (? & ? & ? & ? & _); eauto).
    rewrite entries_cons, fmap_cons. cbn [app]. destruct (kltb k (0, 0)) eqn:Hk; cbn [negb].
    + destruct Hc as (a' & rest' & e & _ & -> & He & Hke & _ & _).
      unfold walk_fuel. cbn [verify_bins]. rewrite gets_run. unfold walk_fuel. cbn [verify_bin].
      rewrite (M_bind_run _ _ _ None s); [done|]. rewrite (deref_run _ e) by done.
      change (_ <? last_time _) with (e.(_when) <? 0). rewrite <- Hke in Hk.
      unfold kltb in Hk. simpl in *. destruct (e.(_when) <? 0); [done|].
      simpl in Hk. by rewrite Hk.
    + eapply verify_bins_run; try done. lia.
Qed.
End EventQueueLoop.
