(* ===== verification/EventQueueExamples.v ===== *)
(** * The event queue on concrete events

    Four events (two core ticks, one of the default priority, one exit event)
    scheduled out of order, and the theorems of the event queue applied to
    them. *)

From Stdlib Require Import Sorted.
From S2P Require Import Prelude.
From S2P Require Import EventQueue.
From S2P Require Import EventQueueOps.
From S2P Require Import EventQueueLoop.
Import EventQueue EventQueueSpec EventQueueOps EventQueueLoop.

Module EventQueueExamples.

Definition event (pri f : Z) : Event :=
  match newEvent 0 pri f with Ok e => e | Err _ => mkEvent None None 0 0 0 end.

Definition idle : state :=
  mkState (list_to_map [(1, event CPU_Tick_Pri 0); (2, event CPU_Tick_Pri 0);
                        (3, event Default_Pri AutoDelete); (4, event Sim_Exit_Pri IsExitEvent)])
    None 3 true.

Definition run {A} (m : M state A) (s : state) : state :=
  match m s with Ok (_, s') => s' | Err _ => s end.

Definition busy : state :=
  run (schedule 1 10;; schedule 4 12;; schedule 3 5;; schedule 2 10) idle.

Definition busy_bins : list bin :=
  [((5, 0), [3]); ((10, 50), [2; 1]); ((12, 100), [4])].

Definition busy_entries : list (Z * key) :=
  [(3, (5, 0)); (2, (10, 50)); (1, (10, 50)); (4, (12, 100))].

Definition sane_check (e : Event) : bool :=
  initialized e && (negb (isExitEvent e) || negb (isSet e.(flags) AutoDelete)).

Lemma sane_store (h : gmap Z Event) :
  bool_decide (map_Forall (fun _ e => sane_check e = true) h) = true ->
  forall a e, h !! a = Some e -> sane e.
Proof.
  intros H%bool_decide_eq_true a e He. specialize (H a e He). unfold sane_check in H.
  apply andb_prop in H as [Hi Hx]. split; [by apply Z.eqb_eq|].
  unfold isExitEvent in Hx. intros Hs. rewrite Hs in Hx. by apply negb_true_iff in Hx.
Qed.

Lemma idle_Queue : Queue idle [].
Proof.
  exists []. split; [|done]. split; [done|apply SSorted_nil|by apply NoDup_nil| |].
  - assert (map_Forall (fun _ e => scheduled e = false) idle.(events)) as H
      by (apply (bool_decide_unpack _); by vm_compute).
    intros a e He. rewrite (H a e He). done.
  - apply sane_store. by vm_compute.
Qed.

Lemma busy_Queue : Queue busy busy_entries.
Proof.
  exists busy_bins. split; [|done]. split.
  - vm_compute. repeat (eexists || split || reflexivity).
  - repeat constructor.
  - apply (bool_decide_unpack _). by vm_compute.
  - assert (map_Forall (fun a e => scheduled e = bool_decide (a ∈ members busy_bins)) busy.(events))
      as H by (apply (bool_decide_unpack _); by vm_compute).
    intros a e He. by apply H.
  - apply sane_store. by vm_compute.
Qed.

(** Service order: time, then priority, then last scheduled first. *)
Definition service_heads (n : nat) : list (option Z) :=
  (fun k => head (Nat.iter k (run (serviceOne (fun _ => mret tt))) busy)) <$> seq 0 n.

Example service_order : service_heads 5 = [Some 3; Some 2; Some 1; Some 4; None].
Proof. by vm_compute. Qed.

(** A negative time passes the unsigned comparison of [schedule] and goes to
    the front of the queue, before the current tick. *)
Example schedule_negative :
  (schedule 1 (-1);; nextTick) idle = Ok (-1, run (schedule 1 (-1)) idle).
Proof. by vm_compute. Qed.

Lemma schedule_inserts_witness :
  exists s', schedule 1 7 idle = Ok (tt, s') /\ Queue s' [(1, (7, 50))] /\
    same_others idle s' 1 /\ now_at s' 1 (event CPU_Tick_Pri 0) 7.
Proof.
  apply (schedule_inserts idle [] 1 (event CPU_Tick_Pri 0) 7 idle_Queue);
    by vm_compute.
Defined.

Lemma deschedule_removes_witness :
  exists e, busy.(events) !! 1 = Some e /\
    exists s', deschedule 1 busy = Ok (tt, s') /\
      Queue s' [(3, (5, 0)); (2, (10, 50)); (4, (12, 100))] /\
      same_others busy s' 1 /\
      (is_Some (s'.(events) !! 1) <-> isSet e.(flags) AutoDelete = false).
Proof.
  destruct (busy.(events) !! 1) as [e|] eqn:He; [|by vm_compute in He].
  exists e. split; [done|].
  apply (deschedule_removes busy busy_entries 1 e busy_Queue He);
    vm_compute in He; injection He as <-; by vm_compute.
Defined.

Lemma reschedule_moves_witness :
  exists e, busy.(events) !! 2 = Some e /\
    exists s', reschedule 2 4 false busy = Ok (tt, s') /\
      Queue s' [(2, (4, e.(_priority))); (3, (5, 0)); (1, (10, 50)); (4, (12, 100))] /\
      same_others busy s' 2 /\ now_at s' 2 e 4.
Proof.
  destruct (busy.(events) !! 2) as [e|] eqn:He; [|by vm_compute in He].
  exists e. split; [done|].
  apply (reschedule_moves busy busy_entries 2 e 4 false busy_Queue He);
    vm_compute in He; injection He as <-; by vm_compute.
Defined.

Definition tail_entries : list (Z * key) := [(2, (10, 50)); (1, (10, 50)); (4, (12, 100))].

Lemma serviceOne_takes_first_witness :
  exists s1 e1, Queue s1 tail_entries /\ s1.(events) !! 3 = Some e1 /\
    serviceOne (fun _ => mret tt) busy = (mret tt;; afterProcess 3) s1.
Proof.
  destruct (serviceOne_takes_first (fun _ => mret tt) busy 3 (5, 0) tail_entries busy_Queue)
    as (_ & s1 & e & e1 & HQ & _ & He & He1 & _ & Hfl & _ & Hrun & _).
  exists s1, e1. split; [done|]. split; [done|]. apply Hrun.
  unfold squashed. rewrite Hfl. vm_compute in He. injection He as <-. by vm_compute.
Defined.

(** Each core tick schedules the other one ten ticks later. *)
Definition ping_pong (a : Z) : option (Z * Z) :=
  if a =? 1 then Some (2, 10) else if a =? 2 then Some (1, 10) else None.

Lemma simulate_round_advances_witness :
  future busy busy_entries /\
  exists r s', simulate_round (follow_up ping_pong) busy = Ok (r, s') /\
    busy.(curTick) <= s'.(curTick) /\ s'.(curTick) = 5.
Proof.
  assert (future busy busy_entries) as HF.
  { split; [by vm_compute|]. repeat constructor; by vm_compute. }
  split; [done|].
  destruct (simulate_round_advances (follow_up ping_pong) busy 3 (5, 0) tail_entries)
    as (r & s' & Hr & _ & Hle & Ht & _);
    [exact busy_Queue|exact HF|].
  exists r, s'. split; [exact Hr|split; [exact Hle|exact Ht]].
Defined.

(** Event 3 is scheduled again every three ticks; serviced up to time 10 it
    comes at 5 and at 8, and waits for time 11. *)
Definition every_three (a : Z) : Z := if a =? 3 then 3 else 0.

Lemma serviceEvents_drains_witness :
  exists s' l' tr, serviceEvents (renew every_three) 9 10 busy = Ok (tt, s') /\
    serviced (renew every_three) busy tr s' /\ (length tr <= 8)%nat /\
    StronglySorted (fun x y => kltb y.2 x.2 = false) tr /\ Queue s' l' /\
    Forall (fun x => x.2.1 <= 10) tr /\ Forall (fun x => 10 < x.2.1) l' /\
    (3, (5, 0)) ∈ tr /\ (1, (10, 50)) ∈ tr /\ (4, (12, 100)) ∈ l' /\
    s'.(head) = Some 3 /\ (_when <$> s'.(events) !! 3) = Some 11.
Proof.
  destruct (serviceEvents_drains 10 (renew every_three) busy busy_entries busy_Queue)
    as (s' & l' & tr & Hr & Hs & Hl & Hso & HQ & Ht & Hl' & Hall).
  { split; [by vm_compute|]. repeat constructor; by vm_compute. }
  assert (E : rounds_left 10 busy_entries = 8%nat) by by vm_compute. rewrite E in Hr, Hl.
  exists s', l', tr. split; [exact Hr|]. split; [exact Hs|]. split; [exact Hl|]. split; [exact Hso|].
  split; [exact HQ|]. split; [exact Ht|]. split; [exact Hl'|].
  split; [exact (Hall (3, (5, 0)) ltac:(by left))|].
  split; [exact (Hall (1, (10, 50)) ltac:(by do 2 right; left))|].
  split; [exact (Hall (4, (12, 100)) ltac:(by do 3 right; left))|].
  clear -Hr. vm_compute in Hr. injection Hr as <-. done.
Defined.

Lemma debugVerify_accepts_witness :
  debugVerify busy = Ok (true, busy) /\
  debugVerify (run (schedule 1 0) (idle <| curTick := 0 |> <| events ::=
    <[1 := event Delayed_Writeback_Pri 0]> |>)) =
    Ok (false, run (schedule 1 0) (idle <| curTick := 0 |> <| events ::=
      <[1 := event Delayed_Writeback_Pri 0]> |>)).
Proof.
  split; [apply (debugVerify_accepts busy busy_entries busy_Queue)|by vm_compute].
Defined.

End EventQueueExamples.
