(* ===== verification/Replacement.v ===== *)
(** * Replacement policies of the Ruby caches

    src/src/mem/ruby/system/AbstractReplacementPolicy.hh with its two
    subclasses, LRUPolicy.hh and PseudoLRUPolicy.hh.  The virtual class is a
    type class; [PolicyLaws] is what [CacheMemory] relies on, and both
    policies discharge it. *)

From S2P Require Import Prelude.

Module Replacement.

(** ** [AbstractReplacementPolicy] *)
Record Base := mkBase {
  m_num_sets : Z;
  m_assoc : Z;
  m_last_ref_ptr : list (list Z);
}.
#[export] Instance Base_settable : Settable Base :=
  fun r => mkBase r.(m_num_sets) r.(m_assoc) r.(m_last_ref_ptr).

Definition newBase (num_sets assoc : Z) : Base :=
  mkBase (u32 num_sets) (u32 assoc)
    (replicate (Z.to_nat (u32 num_sets)) (replicate (Z.to_nat (u32 assoc)) 0)).

Definition base_getLastAccess (b : Base) (set way : Z) : result Z :=
  row ← vget b.(m_last_ref_ptr) set; vget row way.

(** [m_last_ref_ptr[set][index] = time]. *)
Definition set_last_ref (b : Base) (set index time : Z) : result Base :=
  row ← vget b.(m_last_ref_ptr) set;
  row' ← vset row index time;
  refs ← vset b.(m_last_ref_ptr) set row';
  Ok (b <| m_last_ref_ptr := refs |>).

Definition in_bounds (b : Base) (set index : Z) : bool :=
  (0 <=? index) && (index <? b.(m_assoc)) && (0 <=? set) && (set <? b.(m_num_sets)).

Class Policy (P : Type) := {
  base : P -> Base;
  touch : P -> Z -> Z -> Z -> result P;
  getVictim : P -> Z -> result Z;
}.

Definition getLastAccess {P} `{Policy P} (p : P) (set way : Z) : result Z :=
  base_getLastAccess (base p) set way.

(** ** [LRUPolicy] *)
Definition LRUPolicy : Type := Base.

Definition newLRU (num_sets assoc : Z) : LRUPolicy := newBase num_sets assoc.

Definition lru_touch (p : LRUPolicy) (set index time : Z) : result LRUPolicy :=
  if in_bounds p set index then set_last_ref p set index time
  else Err (AssertFail "LRUPolicy::touch").

(** The loop [for (i = 0; i < m_assoc; i++)] over the times of one set. *)
Fixpoint lru_scan (i : Z) (times : list Z) (smallest_index smallest_time : Z) : Z :=
  match times with
  | [] => smallest_index
  | time :: times' =>
      if time <? smallest_time then lru_scan (i + 1) times' i time
      else lru_scan (i + 1) times' smallest_index smallest_time
  end.

Definition lru_getVictim (p : LRUPolicy) (set : Z) : result Z :=
  row ← vget p.(m_last_ref_ptr) set;
  t0 ← vget row 0;
  Ok (lru_scan 0 row 0 t0).

#[export] Instance LRU : Policy LRUPolicy :=
  {| base := fun p => p; touch := lru_touch; getVictim := lru_getVictim |}.

(** ** [PseudoLRUPolicy] *)
Record PseudoLRUPolicy := mkPLRU {
  p_base : Base;
  m_effective_assoc : Z;
  m_num_levels : Z;
  m_trees : list Z;
}.
#[export] Instance PLRU_settable : Settable PseudoLRUPolicy :=
  fun r => mkPLRU r.(p_base) r.(m_effective_assoc) r.(m_num_levels) r.(m_trees).

(** [while (m_effective_assoc < assoc) m_effective_assoc <<= 1;]; the
    constructor has asserted that [assoc] is at most 32. *)
Fixpoint ceil_pow2 (fuel : nat) (eff assoc : Z) : result Z :=
  if eff <? assoc then
    match fuel with
    | O => Err (UB "non-terminating loop")
    | S fuel' => ceil_pow2 fuel' (u32 (Z.shiftl eff 1)) assoc
    end
  else Ok eff.

(** [while (true) { assoc /= 2; if (!assoc) break; m_num_levels++; }] *)
Fixpoint count_levels (fuel : nat) (assoc levels : Z) : result Z :=
  match fuel with
  | O => Err (UB "non-terminating loop")
  | S fuel' =>
      let assoc := assoc / 2 in
      if assoc =? 0 then Ok levels else count_levels fuel' assoc (levels + 1)
  end.

Definition newPLRU (num_sets assoc : Z) : result PseudoLRUPolicy :=
  if (0 <? num_sets) && (1 <? assoc) && (assoc <=? 8 * 4) then
    eff ← ceil_pow2 6 1 assoc;
    levels ← count_levels 7 eff 0;
    if levels <? 4 * 4 then
      Ok (mkPLRU (newBase num_sets assoc) eff levels
            (replicate (Z.to_nat (u32 num_sets)) 0))
    else Err (AssertFail "PseudoLRUPolicy: m_num_levels")
  else Err (AssertFail "PseudoLRUPolicy: num_sets > 0 && assoc > 1 && assoc <= 32").

(** [1 << tree_index] and [node_val << tree_index] are [int] shifts; the result
    is widened to [uint64]. *)
Definition int_shl (x k : Z) : Z := i32 (Z.shiftl x k).

(** The loop [for (int i = m_num_levels - 1; i >= 0; i--)] on one tree. *)
Fixpoint touch_tree (levels : nat) (index tree_index tree : Z) : Z :=
  match levels with
  | O => tree
  | S i =>
      let node_val := Z.land (Z.shiftr index (Z.of_nat i)) 1 in
      if node_val =? 0 then
        touch_tree i index (tree_index * 2 + 1)
          (Z.land tree (u64 (Z.lnot (int_shl 1 tree_index))))
      else
        touch_tree i index (tree_index * 2 + 2)
          (Z.lor tree (u64 (int_shl node_val tree_index)))
  end.

Definition plru_touch (p : PseudoLRUPolicy) (set index time : Z) : result PseudoLRUPolicy :=
  if in_bounds p.(p_base) set index then
    tree ← vget p.(m_trees) set;
    trees ← vset p.(m_trees) set (touch_tree (Z.to_nat p.(m_num_levels)) index 0 tree);
    b ← set_last_ref p.(p_base) set index time;
    Ok (p <| m_trees := trees |> <| p_base := b |>)
  else Err (AssertFail "PseudoLRUPolicy::touch").

(** The loop [for (unsigned i = 0; i < m_num_levels; i++)]; [i] counts up
    while [levels] counts down. *)
Fixpoint victim_tree (levels : nat) (i : Z) (eff tree tree_index index : Z) : Z :=
  match levels with
  | O => index
  | S levels' =>
      let node_val := Z.land (Z.shiftr tree tree_index) 1 in
      if node_val =? 0 then
        victim_tree levels' (i + 1) eff tree (tree_index * 2 + 2)
          (index + Z.shiftr eff (i + 1))
      else victim_tree levels' (i + 1) eff tree (tree_index * 2 + 1) index
  end.

Definition plru_getVictim (p : PseudoLRUPolicy) (set : Z) : result Z :=
  tree ← vget p.(m_trees) set;
  let index := victim_tree (Z.to_nat p.(m_num_levels)) 0 p.(m_effective_assoc) tree 0 0 in
  if (0 <=? index) && (index <? p.(m_effective_assoc)) then
    let a := p.(p_base).(m_assoc) in
    Ok (if a - 1 <? index then a - 1 else index)
  else Err (AssertFail "PseudoLRUPolicy::getVictim").

#[export] Instance PLRU : Policy PseudoLRUPolicy :=
  {| base := p_base; touch := plru_touch; getVictim := plru_getVictim |}.

(** ** What a cache relies on *)
Class PolicyLaws (P : Type) `{Policy P} := {
  policy_ok : Z -> Z -> P -> Prop;
  touch_ok : forall sets assoc p set way time,
    policy_ok sets assoc p -> 0 <= set < sets -> 0 <= way < assoc ->
    exists p', touch p set way time = Ok p' /\ policy_ok sets assoc p' /\
      getLastAccess p' set way = Ok time /\
      (forall set' way', 0 <= set' -> 0 <= way' -> set' <> set \/ way' <> way ->
         getLastAccess p' set' way' = getLastAccess p set' way');
  victim_ok : forall sets assoc p set,
    policy_ok sets assoc p -> 0 <= set < sets ->
    exists way, getVictim p set = Ok way /\ 0 <= way < assoc;
}.

(** ** The time stamps *)
Definition base_ok (sets assoc : Z) (b : Base) : Prop :=
  b.(m_num_sets) = sets /\ b.(m_assoc) = assoc /\ 0 < assoc /\
  Z.of_nat (length b.(m_last_ref_ptr)) = sets /\
  Forall (fun row => Z.of_nat (length row) = assoc) b.(m_last_ref_ptr).

Lemma newBase_ok sets assoc :
  0 <= sets < 2 ^ 32 -> 0 < assoc < 2 ^ 32 -> base_ok sets assoc (newBase sets assoc).
Proof.
  intros Hs Ha. unfold newBase, base_ok. simpl.
  rewrite !u32_small by (zwidth; lia). rewrite length_replicate. split_and!; try lia.
  apply Forall_replicate. rewrite length_replicate. lia.
Qed.

Lemma base_row sets assoc b set :
  base_ok sets assoc b -> 0 <= set < sets ->
  exists row, vget b.(m_last_ref_ptr) set = Ok row /\ Z.of_nat (length row) = assoc.
Proof.
  intros (_ & _ & _ & Hl & Hf) Hs. destruct (vget_in_range b.(m_last_ref_ptr) set) as [row Hr]; [lia|].
  exists row. split; [done|]. apply vget_Ok in Hr as [_ Hr].
  rewrite Forall_lookup in Hf. by eapply Hf.
Qed.

Lemma in_bounds_true sets assoc b set way :
  base_ok sets assoc b -> 0 <= set < sets -> 0 <= way < assoc -> in_bounds b set way = true.
Proof. intros (Hn & Ha & _) Hs Hw. unfold in_bounds. lia. Qed.

Lemma set_last_ref_ok sets assoc b set way time :
  base_ok sets assoc b -> 0 <= set < sets -> 0 <= way < assoc ->
  exists b', set_last_ref b set way time = Ok b' /\ base_ok sets assoc b' /\
    base_getLastAccess b' set way = Ok time /\
    (forall set' way', 0 <= set' -> 0 <= way' -> set' <> set \/ way' <> way ->
       base_getLastAccess b' set' way' = base_getLastAccess b set' way').
Proof.
  intros Hok Hs Hw. destruct (base_row _ _ _ _ Hok Hs) as (row & Hr & Hlen).
  pose proof Hok as (Hns & Ha & Hpos & Hl & Hf).
  unfold set_last_ref. rewrite Hr. cbn. rewrite vset_in_range by lia. cbn.
  rewrite vset_in_range by lia. cbn. eexists. split; [done|].
  unfold base_ok, base_getLastAccess. cbn. split; [|split].
  - split_and!; try done; [by rewrite length_insert|].
    apply Forall_insert; [done|]. by rewrite length_insert.
  - rewrite vget_insert_eq by lia. cbn. apply vget_insert_eq. lia.
  - intros set' way' Hs' Hw' Hne. destruct (decide (set' = set)) as [-> |Hd].
    + rewrite vget_insert_eq, Hr by lia. cbn. apply vget_insert_ne; lia.
    + rewrite vget_insert_ne by lia. done.
Qed.

(** ** LRU *)
Lemma lru_scan_spec times : forall i si st,
  0 <= si < i \/ (si = 0 /\ i = 0) ->
  exists r, lru_scan i times si st = r /\
    ((r = si /\ Forall (fun t => st <= t) times) \/
     (exists k t, r = i + Z.of_nat k /\ times !! k = Some t /\ t < st /\
        Forall (fun t' => t <= t') times /\
        forall j t', (j < k)%nat -> times !! j = Some t' -> t < t')).
Proof.
  induction times as [|time times IH]; intros i si st Hi; cbn [lru_scan].
  - exists si. split; [done|]. left. by split.
  - destruct (time <? st) eqn:Hlt; bool_to_Z.
    + destruct (IH (i + 1) i time) as (r & -> & Hr); [lia|].
      exists r. split; [done|]. right. destruct Hr as [[-> Hall]|(k & t & -> & Hk & Ht & Hall & Hfst)].
      * exists 0%nat, time. split_and!; try done; [lia|by constructor|lia].
      * exists (S k), t. split_and!; try done; [lia|lia|constructor; [lia|done]|].
        intros [|j] t' Hj Hj'; simpl in Hj'; [simplify_eq; lia|]. eapply Hfst; [|done]. lia.
    + destruct (IH (i + 1) si st) as (r & -> & Hr); [lia|].
      exists r. split; [done|]. destruct Hr as [[-> Hall]|(k & t & -> & Hk & Ht & Hall & Hfst)].
      * left. split; [done|]. by constructor.
      * right. exists (S k), t. split_and!; try done; [lia|constructor; [lia|done]|].
        intros [|j] t' Hj Hj'; simpl in Hj'; [simplify_eq; lia|]. eapply Hfst; [|done]. lia.
Qed.

(** The victim has the oldest time stamp of its set, the first such way. *)
Lemma lru_victim_spec sets assoc (p : LRUPolicy) set :
  base_ok sets assoc p -> 0 <= set < sets ->
  exists way t, lru_getVictim p set = Ok way /\ 0 <= way < assoc /\
    base_getLastAccess p set way = Ok t /\
    (forall way' t', 0 <= way' < assoc -> base_getLastAccess p set way' = Ok t' ->
       t <= t' /\ (t' = t -> way <= way')).
Proof.
  intros Hok Hs. destruct (base_row _ _ _ _ Hok Hs) as (row & Hr & Hlen).
  pose proof Hok as (_ & _ & Hpos & _).
  destruct (vget_in_range row 0) as [t0 Ht0]; [lia|].
  unfold lru_getVictim, base_getLastAccess. rewrite Hr, !bind_Ok_run, Ht0, bind_Ok_run.
  destruct (lru_scan_spec row 0 0 t0) as (r & -> & Hc); [lia|].
  destruct Hc as [[-> Hall]|(k & t & -> & Hk & Ht & Hall & Hfst)].
  - exists 0, t0. split; [done|]. split; [lia|]. split; [by rewrite bind_Ok_run|].
    intros w' t' Hw'. rewrite bind_Ok_run. intros [_ Hw]%vget_Ok.
    rewrite Forall_lookup in Hall. split; [by eapply Hall|lia].
  - pose proof (lookup_lt_Some _ _ _ Hk). exists (0 + Z.of_nat k), t. split; [done|]. split; [lia|]. split.
    + rewrite bind_Ok_run. apply vget_Ok. split; [lia|].
      by replace (Z.to_nat (0 + Z.of_nat k)) with k by lia.
    + intros w' t' Hw'. rewrite bind_Ok_run. intros [_ Hw]%vget_Ok. rewrite Forall_lookup in Hall.
      split; [by eapply Hall|]. intros ->. destruct (decide (0 + Z.of_nat k <= w')); [done|].
      assert (t < t); [|lia]. apply (Hfst (Z.to_nat w') t); [lia|done].
Qed.

#[export] Instance LRU_laws : PolicyLaws LRUPolicy.
Proof.
  refine {| policy_ok := base_ok |}.
  - intros sets assoc p set way time Hok Hs Hw. cbn. unfold lru_touch.
    rewrite (in_bounds_true sets assoc) by done. by apply set_last_ref_ok.
  - intros sets assoc p set Hok Hs.
    destruct (lru_victim_spec sets assoc p set) as (way & t & ? & ? & _); eauto.
Defined.

(** ** Pseudo-LRU *)
Definition plru_ok (sets assoc : Z) (p : PseudoLRUPolicy) : Prop :=
  base_ok sets assoc p.(p_base) /\ 1 < assoc <= 32 /\
  1 <= p.(m_num_levels) <= 5 /\ p.(m_effective_assoc) = 2 ^ p.(m_num_levels) /\
  p.(m_effective_assoc) / 2 < assoc <= p.(m_effective_assoc) /\
  Z.of_nat (length p.(m_trees)) = sets.

Definition levels_check (a : Z) : bool :=
  let L := Z.log2_up a in
  (1 <=? L) && (L <=? 5) && bool_decide (ceil_pow2 6 1 a = Ok (2 ^ L)) &&
  bool_decide (count_levels 7 (2 ^ L) 0 = Ok L) && (2 ^ L / 2 <? a) && (a <=? 2 ^ L).

Lemma newPLRU_ok sets assoc :
  0 < sets < 2 ^ 32 -> 1 < assoc <= 32 ->
  exists p, newPLRU sets assoc = Ok p /\ plru_ok sets assoc p.
Proof.
  intros Hs Ha. unfold newPLRU.
  replace ((0 <? sets) && (1 <? assoc) && (assoc <=? 8 * 4)) with true by lia.
  assert (exists L, 1 <= L <= 5 /\ ceil_pow2 6 1 assoc = Ok (2 ^ L) /\
    count_levels 7 (2 ^ L) 0 = Ok L /\ 2 ^ L / 2 < assoc <= 2 ^ L) as (L & HL & He & Hc & Hb).
  { assert (Forall (fun a => levels_check a = true) (seqZ 2 31)) as Hall
      by (apply (bool_decide_unpack _); by vm_compute).
    rewrite Forall_forall in Hall. specialize (Hall assoc). rewrite elem_of_seqZ in Hall.
    specialize (Hall ltac:(lia)). unfold levels_check in Hall.
    exists (Z.log2_up assoc). bool_to_Z.
    repeat match goal with H : bool_decide _ = true |- _ => apply bool_decide_eq_true in H end.
    split_and!; (done || lia). }
  rewrite He, bind_Ok_run, Hc, bind_Ok_run. replace (L <? 4 * 4) with true by lia.
  eexists. split; [done|]. unfold plru_ok. cbn [p_base m_num_levels m_effective_assoc m_trees].
  rewrite u32_small by (zwidth; lia). rewrite length_replicate.
  split_and!; try lia. apply newBase_ok; lia.
Qed.

Lemma land_bit x i : 0 <= i -> Z.land (Z.shiftr x i) 1 = Z.b2z (Z.testbit x i).
Proof.
  intros Hi. change 1 with (Z.ones 1). rewrite Z.land_ones by lia.
  change (2 ^ 1) with 2. by rewrite <- Z.bit0_mod, Z.shiftr_spec by lia.
Qed.

Lemma land_bit_zero x i : 0 <= i -> (Z.land (Z.shiftr x i) 1 =? 0) = negb (Z.testbit x i).
Proof. intros Hi. rewrite land_bit by done. by destruct (Z.testbit x i). Qed.

Lemma int_shl_1 k : 0 <= k <= 30 -> int_shl 1 k = 2 ^ k.
Proof.
  intros Hk. unfold int_shl. rewrite Z.shiftl_1_l. apply i32_small. zwidth.
  assert (2 ^ k <= 2 ^ 30) by (apply Z.pow_le_mono_r; lia). lia.
Qed.

(** Clearing and setting one node of the tree. *)
Lemma clear_node tree ti k :
  0 <= ti <= 30 -> 0 <= k < 64 ->
  Z.testbit (Z.land tree (u64 (Z.lnot (int_shl 1 ti)))) k = Z.testbit tree k && negb (k =? ti).
Proof.
  intros Ht Hk. rewrite int_shl_1 by done. unfold u64.
  rewrite Z.land_spec, Z.mod_pow2_bits_low, Z.lnot_spec, Z.pow2_bits_eqb by lia.
  by rewrite Z.eqb_sym.
Qed.

Lemma set_node tree ti k :
  0 <= ti <= 30 -> 0 <= k < 64 ->
  Z.testbit (Z.lor tree (u64 (int_shl 1 ti))) k = Z.testbit tree k || (k =? ti).
Proof.
  intros Ht Hk. rewrite int_shl_1 by done. unfold u64.
  rewrite Z.lor_spec, Z.mod_pow2_bits_low, Z.pow2_bits_eqb by lia. by rewrite Z.eqb_sym.
Qed.

(** Below its root the walk of [touch] leaves the nodes above alone. *)
Lemma touch_tree_above levels index : forall ti tree k,
  0 <= ti -> (ti + 2) * 2 ^ Z.of_nat levels <= 64 -> 0 <= k < ti -> k < 64 ->
  Z.testbit (touch_tree levels index ti tree) k = Z.testbit tree k.
Proof.
  induction levels as [|n IH]; intros ti tree k Hti Hb Hk Hk64; [done|]. cbn [touch_tree].
  rewrite Nat2Z.inj_succ, Z.pow_succ_r in Hb by lia.
  assert (0 < 2 ^ Z.of_nat n) by (apply Z.pow_pos_nonneg; lia).
  assert (ti <= 30) by nia.
  rewrite land_bit_zero by lia. destruct (Z.testbit index (Z.of_nat n)) eqn:Eb; cbn [negb].
  - rewrite IH by nia. rewrite land_bit, Eb by lia. cbn [Z.b2z].
    rewrite set_node by lia. replace (k =? ti) with false by lia. apply orb_false_r.
  - rewrite IH by nia. rewrite clear_node by lia. replace (k =? ti) with false by lia.
    apply andb_true_r.
Qed.

Lemma touch_tree_root n index tree :
  2 * 2 ^ Z.of_nat (S n) <= 64 ->
  Z.testbit (touch_tree (S n) index 0 tree) 0 = Z.testbit index (Z.of_nat n).
Proof.
  intros Hb. cbn [touch_tree]. rewrite Nat2Z.inj_succ, Z.pow_succ_r in Hb by lia.
  rewrite land_bit_zero by lia. destruct (Z.testbit index (Z.of_nat n)) eqn:Eb; cbn [negb].
  - rewrite touch_tree_above by lia. rewrite land_bit, Eb by lia. cbn [Z.b2z].
    rewrite set_node by lia. by rewrite orb_true_r.
  - rewrite touch_tree_above by lia. rewrite clear_node by lia. by rewrite andb_false_r.
Qed.

(** The victim lies in the subtree the walk has reached. *)
Lemma victim_tree_range n : forall L i tree ti index,
  0 <= i -> L = i + Z.of_nat n ->
  index <= victim_tree n i (2 ^ L) tree ti index < index + 2 ^ Z.of_nat n.
Proof.
  induction n as [|n IH]; intros L i tree ti index Hi HL; cbn [victim_tree]; [simpl; lia|].
  rewrite Nat2Z.inj_succ, Z.pow_succ_r by lia.
  assert (Z.shiftr (2 ^ L) (i + 1) = 2 ^ Z.of_nat n) as Hsh.
  { rewrite Z.shiftr_div_pow2, <- Z.pow_sub_r by lia. f_equal. lia. }
  pose proof (Z.pow_pos_nonneg 2 (Z.of_nat n)). rewrite Hsh.
  destruct (_ =? 0).
  - specialize (IH L (i + 1) tree (ti * 2 + 2) (index + 2 ^ Z.of_nat n)). lia.
  - specialize (IH L (i + 1) tree (ti * 2 + 1) index). lia.
Qed.

Lemma plru_victim sets assoc p set :
  plru_ok sets assoc p -> 0 <= set < sets ->
  exists tree way, vget p.(m_trees) set = Ok tree /\ getVictim p set = Ok way /\
    0 <= way < assoc /\
    way = Z.min (assoc - 1)
      (victim_tree (Z.to_nat p.(m_num_levels)) 0 p.(m_effective_assoc) tree 0 0).
Proof.
  intros (Hb & Ha & HL & He & Hea & Ht) Hs.
  destruct (vget_in_range p.(m_trees) set) as [tree Htr]; [lia|].
  pose proof (victim_tree_range (Z.to_nat p.(m_num_levels)) p.(m_num_levels) 0 tree 0 0) as Hr.
  rewrite <- He, Z2Nat.id in Hr by lia. specialize (Hr ltac:(lia) ltac:(lia)). rewrite <- He in Hr.
  destruct Hb as (_ & Has & _). exists tree. cbn [getVictim PLRU]. unfold plru_getVictim.
  rewrite Htr, bind_Ok_run, Has.
  set (v := victim_tree _ _ _ _ _ _) in *.
  replace ((0 <=? v) && (v <? m_effective_assoc p)) with true by lia.
  eexists. split; [done|]. split; [done|].
  destruct (assoc - 1 <? v) eqn:E; bool_to_Z; lia.
Qed.

Lemma plru_touch_ok sets assoc p set way time :
  plru_ok sets assoc p -> 0 <= set < sets -> 0 <= way < assoc ->
  exists p' b' tree, touch p set way time = Ok p' /\ plru_ok sets assoc p' /\
    set_last_ref p.(p_base) set way time = Ok b' /\ p'.(p_base) = b' /\
    p'.(m_num_levels) = p.(m_num_levels) /\
    vget p'.(m_trees) set = Ok (touch_tree (Z.to_nat p.(m_num_levels)) way 0 tree).
Proof.
  intros (Hb & Ha & HL & He & Hea & Ht) Hs Hw.
  destruct (vget_in_range p.(m_trees) set) as [tree Htr]; [lia|].
  destruct (set_last_ref_ok sets assoc p.(p_base) set way time) as (b' & Hsl & Hb' & _); try done.
  cbn [touch PLRU]. unfold plru_touch. rewrite (in_bounds_true sets assoc) by done.
  rewrite Htr, bind_Ok_run, vset_in_range, bind_Ok_run, Hsl, bind_Ok_run by lia.
  eexists _, b', tree. split; [done|]. split_and!; try done.
  - unfold plru_ok. cbn. rewrite length_insert. done.
  - cbn. apply vget_insert_eq. lia.
Qed.

#[export] Instance PLRU_laws : PolicyLaws PseudoLRUPolicy.
Proof.
  refine {| policy_ok := plru_ok |}.
  - intros sets assoc p set way time Hok Hs Hw.
    destruct (plru_touch_ok sets assoc p set way time) as (p' & b' & tree & Hr & Hok' & Hsl & Hb & _);
      try done.
    exists p'. split; [done|]. split; [done|]. unfold getLastAccess. cbn [base PLRU]. rewrite Hb.
    destruct (set_last_ref_ok sets assoc p.(p_base) set way time) as (b2 & Hsl2 & _ & ?);
      [apply Hok|done..|]. rewrite Hsl in Hsl2. by injection Hsl2 as <-.
  - intros sets assoc p set Hok Hs.
    destruct (plru_victim sets assoc p set) as (tree & way & _ & ? & ? & _); eauto.
Defined.

(** The pseudo-LRU tree never names the way that was touched last as the
    victim, for every associativity the policy accepts, powers of two or not. *)
Theorem plru_protects_last_touched sets assoc p set way time :
  plru_ok sets assoc p -> 0 <= set < sets -> 0 <= way < assoc ->
  exists p' victim, touch p set way time = Ok p' /\ plru_ok sets assoc p' /\
    getVictim p' set = Ok victim /\ 0 <= victim < assoc /\ victim <> way.
Proof.
  intros Hok Hs Hw.
  destruct (plru_touch_ok sets assoc p set way time)
    as (p' & b' & tree & Hr & Hok' & _ & _ & HL' & Htr); try done.
  destruct (plru_victim sets assoc p' set) as (tree' & v & Htr' & Hv & Hvr & Hmin); try done.
  rewrite Htr in Htr'. injection Htr' as <-.
  exists p', v. split_and!; try done; try lia.
  destruct Hok' as (_ & _ & HLr & He & Hea & _). destruct Hok as (_ & _ & HLp & _).
  rewrite HL' in *. rewrite He in Hmin, Hea.
  destruct (Z.to_nat (m_num_levels p)) as [|n] eqn:En; [lia|].
  assert (m_num_levels p = Z.of_nat (S n)) as EL by lia. rewrite EL in *.
  assert (2 ^ Z.of_nat (S n) <= 2 ^ 5) by (apply Z.pow_le_mono_r; lia).
  pose proof (touch_tree_root n way tree ltac:(lia)) as Hroot.
  rewrite Nat2Z.inj_succ, Z.pow_succ_r, Z.mul_comm, Z.div_mul in Hea by lia.
  pose proof (Z.pow_pos_nonneg 2 (Z.of_nat n) ltac:(lia) ltac:(lia)) as Hpos.
  assert (Z.testbit way (Z.of_nat n) = (2 ^ Z.of_nat n <=? way)) as Hbit.
  { rewrite Z.testbit_eqb by lia.
    destruct (2 ^ Z.of_nat n <=? way) eqn:E; bool_to_Z.
    - rewrite <- (Z.div_unique way (2 ^ Z.of_nat n) 1 (way - 2 ^ Z.of_nat n)); [done|lia|lia].
    - by rewrite Z.div_small by lia. }
  set (t := touch_tree _ _ _ _) in *. cbn [victim_tree] in Hmin.
  rewrite land_bit_zero, Hroot, Hbit in Hmin by lia.
  assert (Z.shiftr (2 ^ Z.of_nat (S n)) (0 + 1) = 2 ^ Z.of_nat n) as Hsh.
  { rewrite Z.shiftr_div_pow2, <- Z.pow_sub_r by lia. f_equal. lia. }
  rewrite Hsh in Hmin. destruct (2 ^ Z.of_nat n <=? way) eqn:E; cbn [negb] in Hmin; bool_to_Z.
  - pose proof (victim_tree_range n (Z.of_nat (S n)) (0 + 1) t (0 * 2 + 1) 0). lia.
  - pose proof (victim_tree_range n (Z.of_nat (S n)) (0 + 1) t (0 * 2 + 2) (0 + 2 ^ Z.of_nat n)).
    lia.
Qed.

(** True LRU: after any touches the victim is a way whose last access is
    the oldest of its set, and the lowest such way. *)
Theorem lru_victim_oldest sets assoc (p : LRUPolicy) set :
  base_ok sets assoc p -> 0 <= set < sets ->
  exists way t, getVictim p set = Ok way /\ 0 <= way < assoc /\
    getLastAccess p set way = Ok t /\
    (forall way' t', 0 <= way' < assoc -> getLastAccess p set way' = Ok t' ->
       t <= t' /\ (t' = t -> way <= way')).
Proof. apply lru_victim_spec. Qed.

(** ** Examples *)
Definition small_lru : LRUPolicy := mkBase 2 4 [[7; 3; 9; 3]; [0; 0; 0; 0]].

Lemma lru_victim_oldest_witness :
  exists way t, getVictim small_lru 0 = Ok way /\ 0 <= way < 4 /\
    getLastAccess small_lru 0 way = Ok t /\
    (forall way' t', 0 <= way' < 4 -> getLastAccess small_lru 0 way' = Ok t' ->
       t <= t' /\ (t' = t -> way <= way')).
Proof.
  apply (lru_victim_oldest 2 4 small_lru 0); [|lia].
  unfold base_ok. cbn. split_and!; try done; repeat constructor.
Defined.

Definition small_plru : PseudoLRUPolicy :=
  match newPLRU 2 6 with Ok p => p | Err _ => mkPLRU (newBase 0 0) 0 0 [] end.

Lemma small_plru_ok : plru_ok 2 6 small_plru.
Proof. destruct (newPLRU_ok 2 6) as (p & Hp & Hok); [lia..|]. unfold small_plru. by rewrite Hp. Qed.

Lemma plru_protects_last_touched_witness :
  exists p' victim, touch small_plru 1 5 42 = Ok p' /\ plru_ok 2 6 p' /\
    getVictim p' 1 = Ok victim /\ 0 <= victim < 6 /\ victim <> 5.
Proof. apply (plru_protects_last_touched 2 6 small_plru 1 5 42 small_plru_ok); lia. Defined.
End Replacement.
