(* ===== verification/CacheMemory.v ===== *)
(** * Ruby cache memories

    src/src/mem/ruby/system/CacheMemory.{hh,cc}: a set-associative array of
    pointers to cache entries and a hash map from line addresses to ways.
    The entries are objects the coherence protocol shares with the cache, so
    they live in a store and the cache holds their addresses.  The replacement
    policy is any instance of [Replacement.Policy]; the theorems are proved
    against [Replacement.PolicyLaws]. *)

From Stdlib Require Import Ascii.
From S2P Require Import Prelude.
From S2P Require Import STEvent.
From S2P Require Import CString.
From S2P Require Import IntMath.
From S2P Require Import Requests.
From S2P Require Import Bitfield.
From S2P Require Import RubyAddress.
From S2P Require Import Replacement.
Import CString IntMath Requests RubyAddress Replacement.

Module CacheMemory.

(** ** Data *)
Inductive AccessPermission :=
| Read_Only | Read_Write | Maybe_Stale | Backing_Store | Invalid | NotPresent | Busy.

Inductive RubyRequestType :=
| LD | ST | ATOMIC | IFETCH | IO | REPLACEMENT | Load_Linked | Store_Conditional
| RMW_Read | RMW_Write | Locked_RMW_Read | Locked_RMW_Write | COMMIT | NULL | FLUSH.

#[export] Instance AccessPermission_eq_dec : EqDecision AccessPermission.
Proof. solve_decision. Defined.
#[export] Instance RubyRequestType_eq_dec : EqDecision RubyRequestType.
Proof. solve_decision. Defined.

Record AbstractCacheEntry := mkEntry {
  m_Permission : AccessPermission;
  m_Address : Z;
  m_locked : Z;
}.
#[export] Instance Entry_settable : Settable AbstractCacheEntry :=
  fun r => mkEntry r.(m_Permission) r.(m_Address) r.(m_locked).

Definition newEntry : AbstractCacheEntry := mkEntry NotPresent 0 (-1).

Definition changePermission (new_perm : AccessPermission) (e : AbstractCacheEntry)
  : AbstractCacheEntry :=
  let e := e <| m_Permission := new_perm |> in
  if bool_decide (new_perm = Invalid) || bool_decide (new_perm = NotPresent)
  then e <| m_locked := -1 |> else e.

Record Cache (P : Type) := mkCache {
  m_tag_index : gmap Z Z;
  m_cache : list (list (option Z));
  m_replacementPolicy : P;
  m_cache_num_sets : Z;
  m_cache_num_set_bits : Z;
  m_cache_assoc : Z;
  m_start_index_bit : Z;
  m_is_instruction_only_cache : bool;
  entries : gmap Z AbstractCacheEntry;   (* the allocated entries, by address *)
  getTime : Z;                           (* [g_eventQueue_ptr->getTime()] *)
}.
Arguments mkCache {P}.
Arguments m_tag_index {P}.
Arguments m_cache {P}.
Arguments m_replacementPolicy {P}.
Arguments m_cache_num_sets {P}.
Arguments m_cache_num_set_bits {P}.
Arguments m_cache_assoc {P}.
Arguments m_start_index_bit {P}.
Arguments m_is_instruction_only_cache {P}.
Arguments entries {P}.
Arguments getTime {P}.
#[export] Instance Cache_settable P : Settable (Cache P) := fun r =>
  mkCache r.(m_tag_index) r.(m_cache) r.(m_replacementPolicy) r.(m_cache_num_sets)
    r.(m_cache_num_set_bits) r.(m_cache_assoc) r.(m_start_index_bit)
    r.(m_is_instruction_only_cache) r.(entries) r.(getTime).

(** ** [CacheMemory::init] *)

(** The policy is chosen by name. *)
Definition newPolicy (m_policy : string) (sets assoc : Z)
  : result (PseudoLRUPolicy + LRUPolicy) :=
  if String.eqb m_policy "PSEUDO_LRU" then p ← newPLRU sets assoc; Ok (inl p)
  else if String.eqb m_policy "LRU" then Ok (inr (newLRU sets assoc))
  else Err (AssertFail "CacheMemory::init: policy").

(** [size], [assoc] and the block size are [int]s. *)
Definition init (cfg : RubyCfg) (size assoc start_index_bit : Z) (m_policy : string)
  (is_icache : bool) (time : Z) : result (Cache (PseudoLRUPolicy + LRUPolicy)) :=
  if (assoc =? 0) || (cfg.(block_size_bytes) =? 0) then Err (UB "division by zero") else
  let sets := Z.quot (Z.quot size assoc) cfg.(block_size_bytes) in
  if 1 <? sets then
    bits ← floorLog2_int sets;
    if 0 <? bits then
      p ← newPolicy m_policy sets assoc;
      Ok (mkCache ∅ (replicate (Z.to_nat sets) (replicate (Z.to_nat assoc) None)) p
            sets bits assoc start_index_bit is_icache ∅ time)
    else Err (AssertFail "CacheMemory::init: m_cache_num_set_bits > 0")
  else Err (AssertFail "CacheMemory::init: m_cache_num_sets > 1").

(** Virtual calls on the policy object. *)
#[export] Instance either_policy : Policy (PseudoLRUPolicy + LRUPolicy) := {|
  base := fun p => match p with inl p => base p | inr p => base p end;
  touch := fun p set way time =>
    match p with
    | inl p => p' ← touch p set way time; Ok (inl p')
    | inr p => p' ← touch p set way time; Ok (inr p')
    end;
  getVictim := fun p set =>
    match p with inl p => getVictim p set | inr p => getVictim p set end;
|}.

Section operations.
Context {P : Type} `{HP : !Policy P} (cfg : RubyCfg).
Abbreviation MC := (M (Cache P)).

(** [m_cache[set][way]] *)
Definition get_slot (set way : Z) : MC (option Z) :=
  rows ← gets m_cache; row ← lift (vget rows set); lift (vget row way).

Definition set_slot (set way : Z) (p : option Z) : MC unit :=
  rows ← gets m_cache;
  row ← lift (vget rows set);
  row' ← lift (vset row way p);
  rows' ← lift (vset rows set row');
  modify (fun c => c <| m_cache := rows' |>).

Definition deref (p : option Z) : MC AbstractCacheEntry := fun c =>
  match p with
  | None => Err (UB "null pointer")
  | Some a =>
      match c.(entries) !! a with
      | Some e => Ok (e, c)
      | None => Err (UB "dangling pointer")
      end
  end.

Definition update_entry (p : option Z) (f : AbstractCacheEntry -> AbstractCacheEntry)
  : MC unit :=
  e ← deref p;
  match p with
  | Some a => modify (fun c => c <| entries ::= <[a := f e]> |>)
  | None => mret tt
  end.

Definition is_line (address : Z) : bool := address =? line_address cfg address.

Definition touch_slot (set way : Z) : MC unit :=
  p ← gets m_replacementPolicy;
  now ← gets getTime;
  p' ← lift (touch p set way now);
  modify (fun c => c <| m_replacementPolicy := p' |>).

Definition addressToCacheSet (address : Z) : MC Z :=
  assert_ (is_line address) "CacheMemory::addressToCacheSet";;
  start ← gets m_start_index_bit;
  bits ← gets m_cache_num_set_bits;
  lift (bitSelect address start (start + bits - 1)).

Definition findTagInSet (cacheSet tag : Z) : MC Z :=
  assert_ (is_line tag) "CacheMemory::findTagInSet";;
  index ← gets m_tag_index;
  match index !! tag with
  | Some way =>
      p ← get_slot cacheSet way;
      e ← deref p;
      if bool_decide (e.(m_Permission) <> NotPresent) then mret way else mret (-1)
  | None => mret (-1)
  end.

Definition findTagInSetIgnorePermissions (cacheSet tag : Z) : MC Z :=
  assert_ (is_line tag) "CacheMemory::findTagInSetIgnorePermissions";;
  index ← gets m_tag_index;
  match index !! tag with Some way => mret way | None => mret (-1) end.

(** The result is the [bool] and the entry [data_ptr] points into. *)
Definition tryCacheAccess (address : Z) (type : RubyRequestType) : MC (bool * option Z) :=
  assert_ (is_line address) "CacheMemory::tryCacheAccess";;
  cacheSet ← addressToCacheSet address;
  loc ← findTagInSet cacheSet address;
  if negb (loc =? -1) then
    p ← get_slot cacheSet loc;
    touch_slot cacheSet loc;;
    e ← deref p;
    if bool_decide (e.(m_Permission) = Read_Write) then mret (true, p)
    else if bool_decide (e.(m_Permission) = Read_Only) &&
            (bool_decide (type = LD) || bool_decide (type = IFETCH)) then mret (true, p)
    else mret (false, None)
  else mret (false, None).

Definition testCacheAccess (address : Z) (type : RubyRequestType) : MC (bool * option Z) :=
  assert_ (is_line address) "CacheMemory::testCacheAccess";;
  cacheSet ← addressToCacheSet address;
  loc ← findTagInSet cacheSet address;
  if negb (loc =? -1) then
    p ← get_slot cacheSet loc;
    touch_slot cacheSet loc;;
    e ← deref p;
    mret (bool_decide (e.(m_Permission) <> NotPresent), p)
  else mret (false, None).

Definition isTagPresent (address : Z) : MC bool :=
  assert_ (is_line address) "CacheMemory::isTagPresent";;
  cacheSet ← addressToCacheSet address;
  loc ← findTagInSet cacheSet address;
  mret (negb (loc =? -1)).

Fixpoint avail_loop (cacheSet address : Z) (ways : list Z) : MC bool :=
  match ways with
  | [] => mret false
  | i :: ways' =>
      p ← get_slot cacheSet i;
      match p with
      | None => mret true
      | Some _ =>
          e ← deref p;
          if (e.(m_Address) =? address) || bool_decide (e.(m_Permission) = NotPresent)
          then mret true else avail_loop cacheSet address ways'
      end
  end.

Definition cacheAvail (address : Z) : MC bool :=
  assert_ (is_line address) "CacheMemory::cacheAvail";;
  cacheSet ← addressToCacheSet address;
  assoc ← gets m_cache_assoc;
  avail_loop cacheSet address (upto assoc).

(** [!set[i] || set[i]->m_Permission == AccessPermission_NotPresent] *)
Definition slot_open (p : option Z) : MC bool :=
  match p with
  | None => mret true
  | Some _ => e ← deref p; mret (bool_decide (e.(m_Permission) = NotPresent))
  end.

Fixpoint allocate_loop (cacheSet address entry : Z) (ways : list Z) : MC Z :=
  match ways with
  | [] => fail (Panic "Allocate didn't find an available entry")
  | i :: ways' =>
      p ← get_slot cacheSet i;
      b ← slot_open p;
      if (b : bool) then
        set_slot cacheSet i (Some entry);;
        update_entry (Some entry) (fun e => e <| m_Address := address |>);;
        update_entry (Some entry) (fun e => e <| m_Permission := Invalid |>);;
        update_entry (Some entry) (fun e => e <| m_locked := -1 |>);;
        modify (fun c => c <| m_tag_index ::= <[address := i]> |>);;
        touch_slot cacheSet i;;
        mret entry
      else allocate_loop cacheSet address entry ways'
  end.

Definition allocate (address entry : Z) : MC Z :=
  assert_ (is_line address) "CacheMemory::allocate: line address";;
  present ← isTagPresent address;
  assert_ (negb present) "CacheMemory::allocate: !isTagPresent";;
  avail ← cacheAvail address;
  assert_ avail "CacheMemory::allocate: cacheAvail";;
  cacheSet ← addressToCacheSet address;
  assoc ← gets m_cache_assoc;
  allocate_loop cacheSet address entry (upto assoc).

(** [delete m_cache[cacheSet][loc]]; deleting a null pointer does nothing. *)
Definition delete_entry (p : option Z) : MC unit :=
  match p with
  | None => mret tt
  | Some a => modify (fun c => c <| entries ::= delete a |>)
  end.

Definition deallocate (address : Z) : MC unit :=
  assert_ (is_line address) "CacheMemory::deallocate: line address";;
  present ← isTagPresent address;
  assert_ present "CacheMemory::deallocate: isTagPresent";;
  cacheSet ← addressToCacheSet address;
  loc ← findTagInSet cacheSet address;
  if negb (loc =? -1) then
    p ← get_slot cacheSet loc;
    delete_entry p;;
    set_slot cacheSet loc None;;
    modify (fun c => c <| m_tag_index ::= delete address |>)
  else mret tt.

Definition cacheProbe (address : Z) : MC Z :=
  assert_ (is_line address) "CacheMemory::cacheProbe: line address";;
  avail ← cacheAvail address;
  assert_ (negb avail) "CacheMemory::cacheProbe: !cacheAvail";;
  cacheSet ← addressToCacheSet address;
  pol ← gets m_replacementPolicy;
  way ← lift (getVictim pol cacheSet);
  p ← get_slot cacheSet way;
  e ← deref p;
  mret e.(m_Address).

Definition lookup (address : Z) : MC (option Z) :=
  assert_ (is_line address) "CacheMemory::lookup";;
  cacheSet ← addressToCacheSet address;
  loc ← findTagInSet cacheSet address;
  if loc =? -1 then mret None else get_slot cacheSet loc.

Definition setMRU (address : Z) : MC unit :=
  cacheSet ← addressToCacheSet address;
  loc ← findTagInSet cacheSet address;
  if negb (loc =? -1) then touch_slot cacheSet loc else mret tt.

(** [setLocked], [clearLocked], [isLocked] find the entry the same way. *)
Definition locked_entry (address : Z) : MC (option Z) :=
  assert_ (is_line address) "CacheMemory: lock of a line address";;
  cacheSet ← addressToCacheSet address;
  loc ← findTagInSet cacheSet address;
  assert_ (negb (loc =? -1)) "CacheMemory: lock of a present line";;
  get_slot cacheSet loc.

Definition setLocked (address context : Z) : MC unit :=
  p ← locked_entry address; update_entry p (fun e => e <| m_locked := context |>).

Definition clearLocked (address : Z) : MC unit :=
  p ← locked_entry address; update_entry p (fun e => e <| m_locked := -1 |>).

Definition isLocked (address context : Z) : MC bool :=
  p ← locked_entry address; e ← deref p; mret (e.(m_locked) =? context).

(** One slot of [recordCacheContents]: the record it adds to the trace. *)
Definition record_slot (set way : Z) : MC (option (Z * RubyRequestType * Z)) :=
  p ← get_slot set way;
  match p with
  | None => mret None
  | Some _ =>
      e ← deref p;
      icache ← gets m_is_instruction_only_cache;
      let type :=
        if bool_decide (e.(m_Permission) = Read_Only) then
          if (icache : bool) then IFETCH else LD
        else if bool_decide (e.(m_Permission) = Read_Write) then ST else NULL in
      if bool_decide (type = NULL) then mret None
      else
        pol ← gets m_replacementPolicy;
        t ← lift (getLastAccess pol set way);
        mret (Some (e.(m_Address), type, t))
  end.

Fixpoint record_slots (slots : list (Z * Z)) : MC (list (Z * RubyRequestType * Z)) :=
  match slots with
  | [] => mret []
  | (set, way) :: slots' =>
      r ← record_slot set way;
      rs ← record_slots slots';
      mret (match r with Some x => x :: rs | None => rs end)
  end.

Definition recordCacheContents : MC (list (Z * RubyRequestType * Z)) :=
  sets ← gets m_cache_num_sets;
  assoc ← gets m_cache_assoc;
  record_slots (i ← upto sets; j ← upto assoc; [(i, j)]).
End operations.

(** ** [profileMiss]: the L1 controller number in the name of the cache

    [int pos_1 = name.find("."); int pos_2 = name.find(".", pos_1 + 1);] and the
    one to three digits before the second point. *)
Definition l1_cntrl_num (cntrl_name : str) : result Z :=
  let dot := "."%char in
  let pos_1 := i32 (find cntrl_name dot 0) in
  let pos_2 := i32 (find cntrl_name dot (u64 (pos_1 + 1))) in
  let num_digits := if 10 <? pos_2 - pos_1 then 2 else 1 in
  let num_digits := if 11 <? pos_2 - pos_1 then 3 else num_digits in
  s ← substr cntrl_name (u64 (pos_2 - num_digits)) num_digits;
  Ok (atoi s).

End CacheMemory.
