(* ===== verification/CacheSpec.v ===== *)
(** * What a cache memory promises

    [cache_ok]: the array, the tag index and the entries agree.  On such a
    cache the operations implement a finite map from line addresses to entries
    with a bounded number of lines per set ([holds]). *)

From S2P Require Import Prelude.
From S2P Require Import STEvent.
From S2P Require Import CString.
From S2P Require Import IntMath.
From S2P Require Import Requests.
From S2P Require Import Bitfield.
From S2P Require Import RubyAddress.
From S2P Require Import Replacement.
From S2P Require Import CacheMemory.
Import CString IntMath Requests RubyAddress Replacement CacheMemory.

Module CacheSpec.

Section spec.
Context {P : Type} `{HP : !Policy P} `{HL : !PolicyLaws P} (cfg : RubyCfg).
Implicit Types (c : Cache P) (a p set way : Z).

(** ** The invariant *)
Definition set_of c a : Z := (a / 2 ^ c.(m_start_index_bit)) mod 2 ^ c.(m_cache_num_set_bits).

Definition slot c set way : option Z :=
  match vget c.(m_cache) set with
  | Ok row => match vget row way with Ok p => p | Err _ => None end
  | Err _ => None
  end.

Definition line a : Prop := is_u64 a /\ is_line cfg a = true.

Record shape_ok c : Prop := {
  s_sets : 0 < c.(m_cache_num_sets);
  s_bits : 0 < c.(m_cache_num_set_bits);
  s_pow : 2 ^ c.(m_cache_num_set_bits) <= c.(m_cache_num_sets);
  s_start : 0 <= c.(m_start_index_bit);
  s_end : c.(m_start_index_bit) + c.(m_cache_num_set_bits) <= 64;
  s_assoc : 0 < c.(m_cache_assoc);
  s_rows : Z.of_nat (length c.(m_cache)) = c.(m_cache_num_sets);
  s_ways : Forall (fun row => Z.of_nat (length row) = c.(m_cache_assoc)) c.(m_cache);
  s_policy : policy_ok c.(m_cache_num_sets) c.(m_cache_assoc) c.(m_replacementPolicy);
}.

Record cache_ok c : Prop := {
  c_shape : shape_ok c;
  c_slot : forall set way p, slot c set way = Some p -> exists e,
    c.(entries) !! p = Some e /\ e.(m_Permission) <> NotPresent /\ line e.(m_Address) /\
    set_of c e.(m_Address) = set /\ c.(m_tag_index) !! e.(m_Address) = Some way;
  c_tag : forall a way, c.(m_tag_index) !! a = Some way ->
    line a /\ 0 <= way < c.(m_cache_assoc) /\
    exists p e, slot c (set_of c a) way = Some p /\ c.(entries) !! p = Some e /\
      e.(m_Address) = a;
}.

(** The map: some slot points to an entry [p] with the address [a]. *)
Definition holds c a p : Prop :=
  exists set way e, slot c set way = Some p /\ c.(entries) !! p = Some e /\ e.(m_Address) = a.

(** ** Runs of the accessors *)
Lemma set_of_range c a : shape_ok c -> 0 <= set_of c a < c.(m_cache_num_sets).
Proof.
  intros []. unfold set_of.
  pose proof (Z.mod_pos_bound (a / 2 ^ m_start_index_bit c) (2 ^ m_cache_num_set_bits c)
    ltac:(apply Z.pow_pos_nonneg; lia)). lia.
Qed.

Lemma addressToCacheSet_run c a :
  shape_ok c -> line a -> addressToCacheSet cfg a c = Ok (set_of c a, c).
Proof.
  intros [] [Ha Hl]. unfold addressToCacheSet. rewrite assert_bind_run, Hl.
  rewrite !gets_run.
  destruct (bitSelect_spec a c.(m_start_index_bit)
    (c.(m_start_index_bit) + c.(m_cache_num_set_bits) - 1)) as (r & Hr & Hbits); [done|lia|lia|].
  rewrite Hr. unfold lift. do 2 f_equal. apply Z.bits_inj'. intros n Hn.
  rewrite Hbits by done. unfold set_of. rewrite <- Z.shiftr_div_pow2 by lia.
  destruct (n <=? _) eqn:E; bool_to_Z.
  - rewrite Z.mod_pow2_bits_low, Z.shiftr_spec by lia. done.
  - rewrite Z.mod_pow2_bits_high by lia. done.
Qed.

Lemma row_run c set :
  shape_ok c -> 0 <= set < c.(m_cache_num_sets) ->
  exists row, vget c.(m_cache) set = Ok row /\ Z.of_nat (length row) = c.(m_cache_assoc).
Proof.
  intros [] Hs. destruct (vget_in_range c.(m_cache) set) as [row Hr]; [lia|].
  exists row. split; [done|]. apply vget_Ok in Hr as [_ Hr].
  rewrite Forall_lookup in s_ways0. by eapply s_ways0.
Qed.

Lemma get_slot_run c set way :
  shape_ok c -> 0 <= set < c.(m_cache_num_sets) -> 0 <= way < c.(m_cache_assoc) ->
  get_slot set way c = Ok (slot c set way, c).
Proof.
  intros Hok Hs Hw. destruct (row_run c set Hok Hs) as (row & Hr & Hlen).
  destruct (vget_in_range row way) as [p Hp]; [lia|].
  unfold get_slot, slot.
  rewrite gets_run, lift_bind_run, Hr, Hp. done.
Qed.

Lemma get_slot_bind {B} c set way (f : option Z -> M (Cache P) B) :
  shape_ok c -> 0 <= set < c.(m_cache_num_sets) -> 0 <= way < c.(m_cache_assoc) ->
  (get_slot set way ≫= f) c = f (slot c set way) c.
Proof. intros. by apply M_bind_run, get_slot_run. Qed.

Lemma deref_entry_run {B} c p e (f : AbstractCacheEntry -> M (Cache P) B) :
  c.(entries) !! p = Some e -> (deref (Some p) ≫= f) c = f e c.
Proof. intros H. apply M_bind_run. unfold deref. by rewrite H. Qed.

Lemma findTagInSet_run c a :
  cache_ok c -> line a ->
  findTagInSet cfg (set_of c a) a c = Ok (default (-1) (c.(m_tag_index) !! a), c).
Proof.
  intros [Hsh Hslot Htag] Hl. unfold findTagInSet. rewrite assert_bind_run, (proj2 Hl).
  rewrite gets_run.
  destruct (c.(m_tag_index) !! a) as [way|] eqn:Ht; [|done].
  destruct (Htag _ _ Ht) as (_ & Hw & p & e & Hp & He & Ha).
  rewrite get_slot_bind, Hp by (done || by apply set_of_range).
  rewrite (deref_entry_run _ _ e) by done.
  destruct (Hslot _ _ _ Hp) as (e' & He' & Hn & _). replace e' with e in * by congruence.
  by rewrite bool_decide_true.
Qed.

(** ** [holds] and the tag index *)
Lemma tag_holds c a way p :
  cache_ok c -> c.(m_tag_index) !! a = Some way -> slot c (set_of c a) way = Some p -> holds c a p.
Proof.
  intros [_ _ Htag] Ht Hp. destruct (Htag _ _ Ht) as (_ & _ & p' & e & Hp' & He & Ha).
  replace p' with p in * by congruence. by exists (set_of c a), way, e.
Qed.

Lemma holds_tag c a p :
  cache_ok c -> holds c a p -> exists way, c.(m_tag_index) !! a = Some way /\
    0 <= way < c.(m_cache_assoc) /\ slot c (set_of c a) way = Some p /\ line a.
Proof.
  intros [_ Hslot Htag] (set & way & e & Hp & He & Ha).
  destruct (Hslot _ _ _ Hp) as (e' & He' & _ & Hl & Hs & Ht).
  replace e' with e in * by congruence. subst a. exists way.
  destruct (Htag _ _ Ht) as (_ & Hw & _). by rewrite Hs.
Qed.

Lemma not_holds_tag c a :
  cache_ok c -> (forall p, ~ holds c a p) <-> c.(m_tag_index) !! a = None.
Proof.
  intros Hok. split.
  - intros Hn. destruct (c.(m_tag_index) !! a) as [way|] eqn:Ht; [|done].
    destruct (c_tag _ Hok _ _ Ht) as (_ & _ & p & e & Hp & _).
    destruct (Hn p). by eapply tag_holds.
  - intros Ht p Hh. destruct (holds_tag _ _ _ Hok Hh) as (way & Ht' & _). congruence.
Qed.

Lemma lookup_run c a :
  cache_ok c -> line a ->
  lookup cfg a c = Ok (c.(m_tag_index) !! a ≫= slot c (set_of c a), c).
Proof.
  intros Hok Hl. unfold lookup. rewrite assert_bind_run, (proj2 Hl).
  rewrite (M_bind_run _ _ _ _ _ (addressToCacheSet_run c a (c_shape _ Hok) Hl)).
  rewrite (M_bind_run _ _ _ _ _ (findTagInSet_run c a Hok Hl)).
  destruct (c.(m_tag_index) !! a) as [way|] eqn:Ht; [|done]. simpl.
  destruct (c_tag _ Hok _ _ Ht) as (_ & Hw & _). replace (way =? -1) with false by lia.
  apply get_slot_run; [apply Hok|apply set_of_range, Hok|done].
Qed.

Lemma isTagPresent_run c a :
  cache_ok c -> line a ->
  isTagPresent cfg a c = Ok (bool_decide (is_Some (c.(m_tag_index) !! a)), c).
Proof.
  intros Hok Hl. unfold isTagPresent. rewrite assert_bind_run, (proj2 Hl).
  rewrite (M_bind_run _ _ _ _ _ (addressToCacheSet_run c a (c_shape _ Hok) Hl)).
  rewrite (M_bind_run _ _ _ _ _ (findTagInSet_run c a Hok Hl)).
  destruct (c.(m_tag_index) !! a) as [way|] eqn:Ht; [|done]. simpl.
  destruct (c_tag _ Hok _ _ Ht) as (_ & Hw & _). by replace (way =? -1) with false by lia.
Qed.

(** On a consistent cache, [lookup] of a line address returns exactly the
    entry some slot of the array holds for that address, and null when none
    does; [isTagPresent] says which. *)
Theorem lookup_correct c a :
  cache_ok c -> line a ->
  exists r, lookup cfg a c = Ok (r, c) /\
    isTagPresent cfg a c = Ok (bool_decide (is_Some r), c) /\
    (forall p, r = Some p <-> holds c a p).
Proof.
  intros Hok Hl. eexists. split; [by apply lookup_run|]. split.
  - rewrite isTagPresent_run by done. do 2 f_equal. apply bool_decide_ext.
    destruct (c.(m_tag_index) !! a) as [way|] eqn:Ht; [|done]. simpl.
    destruct (c_tag _ Hok _ _ Ht) as (_ & _ & p & e & -> & _). split; eauto.
  - intros p. split.
    + destruct (c.(m_tag_index) !! a) as [way|] eqn:Ht; [|done]. simpl. intros Hp.
      by eapply tag_holds.
    + intros Hh. destruct (holds_tag _ _ _ Hok Hh) as (way & -> & _ & Hp & _). done.
Qed.

(** ** [cacheAvail] *)
Definition free_way c a way : Prop :=
  0 <= way < c.(m_cache_assoc) /\ slot c (set_of c a) way = None.

Lemma avail_loop_run c a ways :
  cache_ok c -> Forall (fun w => 0 <= w < c.(m_cache_assoc)) ways ->
  exists b, avail_loop (set_of c a) a ways c = Ok (b, c) /\
    (b = true <-> exists way, way ∈ ways /\
       match slot c (set_of c a) way with
       | None => True
       | Some p => exists e, c.(entries) !! p = Some e /\ e.(m_Address) = a
       end).
Proof.
  intros Hok. induction ways as [|w ways IH]; intros Hw; cbn [avail_loop].
  { exists false. split; [done|]. split; [done|]. intros (way & Hin & _). set_solver. }
  apply Forall_cons in Hw as [Hw Hws]. specialize (IH Hws) as (b & Hrun & Hb).
  rewrite get_slot_bind by (apply Hok || by apply set_of_range, Hok || done).
  destruct (slot c (set_of c a) w) as [p|] eqn:Hp.
  2:{ exists true. split; [done|]. split; [|done]. intros _. exists w. rewrite Hp. set_solver. }
  destruct (c_slot _ Hok _ _ _ Hp) as (e & He & Hn & _).
  rewrite (deref_entry_run _ _ e), (bool_decide_false (_ = NotPresent)), orb_false_r by done.
  destruct (e.(m_Address) =? a) eqn:Ea; bool_to_Z.
  - exists true. split; [done|]. split; [|done]. intros _. exists w. rewrite Hp.
    split; [set_solver|by exists e].
  - exists b. split; [done|]. rewrite Hb. setoid_rewrite elem_of_cons. split.
    + intros (way & Hin & Hm). exists way. split; [by right|done].
    + intros (way & [-> |Hin] & Hm); [|by exists way].
      rewrite Hp in Hm. destruct Hm as (e' & He' & Ha'). congruence.
Qed.

Lemma cacheAvail_run c a :
  cache_ok c -> line a ->
  exists b, cacheAvail cfg a c = Ok (b, c) /\
    (b = true <-> (exists p, holds c a p) \/ exists way, free_way c a way).
Proof.
  intros Hok Hl. unfold cacheAvail. rewrite assert_bind_run, (proj2 Hl).
  rewrite (M_bind_run _ _ _ _ _ (addressToCacheSet_run c a (c_shape _ Hok) Hl)), gets_run.
  destruct (avail_loop_run c a (upto c.(m_cache_assoc)) Hok) as (b & Hrun & Hb).
  { apply Forall_forall. intros w. by rewrite elem_of_upto. }
  exists b. split; [done|]. rewrite Hb. setoid_rewrite elem_of_upto. split.
  - intros (way & Hw & Hm). destruct (slot c (set_of c a) way) as [p|] eqn:Hp.
    + left. destruct Hm as (e & He & Ha). by exists p, (set_of c a), way, e.
    + right. by exists way.
  - intros [(p & Hh)|(way & Hw & Hp)].
    + destruct (holds_tag _ _ _ Hok Hh) as (way & _ & Hw & Hp & _). exists way.
      rewrite Hp. split; [done|]. destruct (c_slot _ Hok _ _ _ Hp) as (e & He & _).
      exists e. split; [done|]. destruct Hh as (set' & way' & e' & Hp' & He' & <-). congruence.
    + exists way. by rewrite Hp.
Qed.

(** [cacheAvail] answers whether the line is already in the cache or its
    set has a free way; on a consistent cache it never fails. *)
Theorem cacheAvail_correct c a :
  cache_ok c -> line a ->
  exists b, cacheAvail cfg a c = Ok (b, c) /\
    (b = true <-> (exists p, holds c a p) \/ exists way, free_way c a way).
Proof. apply cacheAvail_run. Qed.

(** ** Writing slots *)
Definition with_slot c set way (p : option Z) : Cache P :=
  c <| m_cache := match vget c.(m_cache) set with
                  | Ok row => <[Z.to_nat set := <[Z.to_nat way := p]> row]> c.(m_cache)
                  | Err _ => c.(m_cache)
                  end |>.

Lemma set_slot_run c set way (p : option Z) :
  shape_ok c -> 0 <= set < c.(m_cache_num_sets) -> 0 <= way < c.(m_cache_assoc) ->
  set_slot set way p c = Ok (tt, with_slot c set way p).
Proof.
  intros Hok Hs Hw. destruct (row_run c set Hok Hs) as (row & Hr & Hlen). destruct Hok.
  unfold set_slot, with_slot. rewrite gets_run, lift_bind_run, Hr.
  rewrite lift_bind_run, vset_in_range, lift_bind_run, vset_in_range by lia. done.
Qed.

Lemma slot_with_slot c set way (p : option Z) set' way' :
  shape_ok c -> 0 <= set < c.(m_cache_num_sets) -> 0 <= way < c.(m_cache_assoc) ->
  slot (with_slot c set way p) set' way' =
  if bool_decide (set' = set /\ way' = way) then p else slot c set' way'.
Proof.
  intros Hok Hs Hw. destruct (row_run c set Hok Hs) as (row & Hr & Hlen). destruct Hok.
  unfold with_slot, slot. simpl. rewrite Hr.
  destruct (decide (set' = set)) as [-> |Hne].
  - rewrite vget_insert_eq, Hr by lia. destruct (decide (way' = way)) as [-> |Hne'].
    + by rewrite vget_insert_eq, bool_decide_true by lia.
    + by rewrite vget_insert_ne, bool_decide_false by (lia || naive_solver).
  - by rewrite vget_insert_ne, bool_decide_false by (lia || naive_solver).
Qed.

Lemma shape_with_slot c set way (p : option Z) :
  shape_ok c -> 0 <= set < c.(m_cache_num_sets) -> shape_ok (with_slot c set way p).
Proof.
  intros Hok Hs. destruct (row_run c set Hok Hs) as (row & Hr & Hlen). destruct Hok.
  unfold with_slot. rewrite Hr. split; simpl; try done.
  - by rewrite length_insert.
  - apply Forall_insert; [done|]. by rewrite length_insert.
Qed.

(** The shape does not depend on the index, the entries or the policy state. *)
Lemma shape_ext c c' :
  shape_ok c -> c'.(m_cache) = c.(m_cache) -> c'.(m_cache_num_sets) = c.(m_cache_num_sets) ->
  c'.(m_cache_num_set_bits) = c.(m_cache_num_set_bits) ->
  c'.(m_cache_assoc) = c.(m_cache_assoc) -> c'.(m_start_index_bit) = c.(m_start_index_bit) ->
  policy_ok c.(m_cache_num_sets) c.(m_cache_assoc) c'.(m_replacementPolicy) -> shape_ok c'.
Proof. intros [] E1 E2 E3 E4 E5 Hp. split; rewrite ?E1, ?E2, ?E3, ?E4, ?E5; done. Qed.

Lemma touch_slot_run c set way :
  shape_ok c -> 0 <= set < c.(m_cache_num_sets) -> 0 <= way < c.(m_cache_assoc) ->
  exists pol, touch_slot set way c = Ok (tt, c <| m_replacementPolicy := pol |>) /\
    policy_ok c.(m_cache_num_sets) c.(m_cache_assoc) pol /\
    getLastAccess pol set way = Ok c.(getTime).
Proof.
  intros [] Hs Hw. destruct (touch_ok _ _ _ set way c.(getTime) s_policy0) as (pol & Hr & Hok & Hl & _);
    try done.
  exists pol. unfold touch_slot. rewrite !gets_run, lift_bind_run, Hr. done.
Qed.

(** ** [allocate] *)
Definition allocated c a p way (pol : P) : Cache P :=
  (with_slot c (set_of c a) way (Some p))
    <| entries ::= <[p := mkEntry Invalid a (-1)]> |>
    <| m_tag_index ::= <[a := way]> |> <| m_replacementPolicy := pol |>.

Definition unlinked c p : Prop := forall set way, slot c set way <> Some p.

Lemma update_entry_run c p e f :
  c.(entries) !! p = Some e ->
  update_entry (Some p) f c = Ok (tt, c <| entries ::= <[p := f e]> |>).
Proof. intros He. unfold update_entry. by rewrite (deref_entry_run _ _ e). Qed.

(** The body of the loop at an open way. *)
Lemma allocate_at c a p e way ways :
  cache_ok c -> c.(entries) !! p = Some e -> free_way c a way ->
  exists pol, allocate_loop (set_of c a) a p (way :: ways) c = Ok (p, allocated c a p way pol) /\
    policy_ok c.(m_cache_num_sets) c.(m_cache_assoc) pol.
Proof.
  intros Hok He [Hw Hfree]. pose proof (set_of_range c a (c_shape _ Hok)) as Hs.
  cbn [allocate_loop]. rewrite get_slot_bind, Hfree by (apply Hok || done).
  rewrite (M_bind_run (slot_open None) _ c true c) by done.
  rewrite (M_bind_run _ _ _ _ _ (set_slot_run c _ way (Some p) (c_shape _ Hok) Hs Hw)).
  set (c1 := with_slot c (set_of c a) way (Some p)).
  rewrite (M_bind_run _ _ _ _ _ (update_entry_run c1 p e _ He)).
  erewrite M_bind_run by (apply update_entry_run, lookup_insert_eq).
  erewrite M_bind_run by (apply update_entry_run, lookup_insert_eq).
  rewrite modify_run.
  match goal with |- exists pol, (touch_slot ?s ?w ≫= _) ?c2 = _ /\ _ => set (cc := c2) end.
  destruct (touch_slot_run cc (set_of c a) way) as (pol & Hrun & Hpol & _); try done.
  { eapply (shape_ext c1); try done; [by apply shape_with_slot, Hs; apply Hok|]. apply Hok. }
  exists pol. rewrite (M_bind_run _ _ _ _ _ Hrun). split; [|done].
  unfold mret, M_ret, allocated. do 2 f_equal. unfold cc. cbn. by rewrite !insert_insert_eq.
Qed.

Lemma allocate_loop_run c a p e ways :
  cache_ok c -> c.(entries) !! p = Some e ->
  Forall (fun w => 0 <= w < c.(m_cache_assoc)) ways ->
  (exists way, way ∈ ways /\ free_way c a way) ->
  exists way pol, allocate_loop (set_of c a) a p ways c = Ok (p, allocated c a p way pol) /\
    free_way c a way /\ policy_ok c.(m_cache_num_sets) c.(m_cache_assoc) pol.
Proof.
  intros Hok He. induction ways as [|w ways IH]; intros Hws (way & Hin & Hfree); [set_solver|].
  apply Forall_cons in Hws as [Hw Hws].
  destruct (slot c (set_of c a) w) as [q|] eqn:Hq.
  - cbn [allocate_loop].
    rewrite get_slot_bind, Hq by (apply Hok || by apply set_of_range, Hok || done).
    destruct (c_slot _ Hok _ _ _ Hq) as (eq & Heq & Hn & _).
    rewrite (M_bind_run (slot_open (Some q)) _ c false c).
    2:{ unfold slot_open. rewrite (deref_entry_run _ _ eq), bool_decide_false by done. done. }
    apply IH; [done|]. exists way. split; [|done].
    apply elem_of_cons in Hin as [-> |Hin]; [|done]. destruct Hfree as [_ Hn']. congruence.
  - destruct (allocate_at c a p e w ways) as (pol & Hrun & Hpol); try done.
    exists w, pol. split; [done|]. by split.
Qed.

Lemma slot_allocated c a p way pol set' way' :
  cache_ok c -> free_way c a way ->
  slot (allocated c a p way pol) set' way' =
  if bool_decide (set' = set_of c a /\ way' = way) then Some p else slot c set' way'.
Proof.
  intros Hok [Hw _]. rewrite <- (slot_with_slot c (set_of c a) way (Some p) set' way');
    [done|apply Hok|apply set_of_range, Hok|done].
Qed.

Lemma allocated_ok c a p way pol :
  cache_ok c -> line a -> c.(m_tag_index) !! a = None -> unlinked c p -> free_way c a way ->
  policy_ok c.(m_cache_num_sets) c.(m_cache_assoc) pol ->
  cache_ok (allocated c a p way pol).
Proof.
  intros Hok Hl Hna Hun Hfree Hpol. pose proof Hok as [Hsh Hslot Htag]. split.
  - eapply (shape_ext (with_slot c (set_of c a) way (Some p))); try done.
    apply shape_with_slot; [done|by apply set_of_range].
  - intros set' way' q. rewrite slot_allocated by done. case_bool_decide as Hc.
    + destruct Hc as [-> ->]. intros [= <-]. exists (mkEntry Invalid a (-1)). cbn.
      rewrite !lookup_insert_eq. by split_and!.
    + intros Hq. destruct (Hslot _ _ _ Hq) as (e & He & Hn & Hle & Hse & Hte). exists e. cbn.
      rewrite !lookup_insert_ne; [by split_and!|congruence|]. intros ->. by destruct (Hun set' way').
  - intros b w. cbn. destruct (decide (b = a)) as [-> |Hne].
    + rewrite lookup_insert_eq. intros [= <-]. split; [done|]. split; [apply Hfree|].
      exists p, (mkEntry Invalid a (-1)). rewrite slot_allocated by done.
      rewrite bool_decide_true by done. by rewrite lookup_insert_eq.
    + rewrite lookup_insert_ne by done. intros Hb.
      destruct (Htag _ _ Hb) as (Hlb & Hw & q & e & Hq & He & Hae).
      split; [done|]. split; [done|]. exists q, e. rewrite slot_allocated by done.
      change (set_of (allocated c a p way pol) b) with (set_of c b).
      rewrite bool_decide_false.
      * split_and!; try done. rewrite lookup_insert_ne; [done|].
        intros ->. by destruct (Hun (set_of c b) w).
      * intros [Hs ->]. destruct Hfree as [_ Hf]. congruence.
Qed.

Lemma allocated_holds c a p way pol b q :
  cache_ok c -> c.(m_tag_index) !! a = None -> unlinked c p -> free_way c a way ->
  holds (allocated c a p way pol) b q <-> (b = a /\ q = p) \/ holds c b q.
Proof.
  intros Hok Hna Hun Hfree. unfold holds. setoid_rewrite slot_allocated; [|done..]. cbn. split.
  - intros (set' & way' & e & Hs & He & <-). case_bool_decide.
    + injection Hs as <-. rewrite lookup_insert_eq in He. injection He as <-. by left.
    + right. exists set', way', e. rewrite lookup_insert_ne in He; [done|].
      intros ->. by destruct (Hun set' way').
  - intros [[-> ->]|(set' & way' & e & Hs & He & <-)].
    + exists (set_of c a), way, (mkEntry Invalid a (-1)). rewrite bool_decide_true by done.
      by rewrite lookup_insert_eq.
    + exists set', way', e. rewrite bool_decide_false.
      * rewrite lookup_insert_ne; [done|]. intros ->. by destruct (Hun set' way').
      * intros [-> ->]. destruct Hfree as [_ Hf]. congruence.
Qed.

Lemma allocate_run c a p e :
  cache_ok c -> line a -> (forall q, ~ holds c a q) -> (exists way, free_way c a way) ->
  c.(entries) !! p = Some e -> unlinked c p ->
  exists c', allocate cfg a p c = Ok (p, c') /\ cache_ok c' /\
    c'.(entries) !! p = Some (mkEntry Invalid a (-1)) /\
    (forall q, q <> p -> c'.(entries) !! q = c.(entries) !! q) /\
    (forall b q, holds c' b q <-> (b = a /\ q = p) \/ holds c b q).
Proof.
  intros Hok Hl Hnh Hfree He Hun. apply not_holds_tag in Hnh; [|done].
  unfold allocate. rewrite assert_bind_run, (proj2 Hl).
  rewrite (M_bind_run _ _ _ _ _ (isTagPresent_run c a Hok Hl)), Hnh.
  rewrite bool_decide_false by (by intros []). rewrite assert_bind_run. cbn [negb].
  destruct (cacheAvail_run c a Hok Hl) as (b & Hrun & Hb).
  rewrite (M_bind_run _ _ _ _ _ Hrun), assert_bind_run, (proj2 Hb) by by right.
  rewrite (M_bind_run _ _ _ _ _ (addressToCacheSet_run c a (c_shape _ Hok) Hl)), gets_run.
  destruct (allocate_loop_run c a p e (upto c.(m_cache_assoc))) as (way & pol & Hal & Hf & Hpol);
    [done|done| | |].
  { apply Forall_forall. intros w. by rewrite elem_of_upto. }
  { destruct Hfree as (way & Hf). exists way. rewrite elem_of_upto. split; [apply Hf|done]. }
  exists (allocated c a p way pol). split; [done|]. split; [by apply allocated_ok|].
  split; [by apply lookup_insert_eq|]. split; [intros; by apply lookup_insert_ne|].
  intros. by apply allocated_holds.
Qed.

(** [allocate] of an absent line into a set with a free way succeeds with
    an unlinked entry: afterwards the cache is consistent, holds the entry under
    the address, invalid and unlocked, and everything it held before. *)
Theorem allocate_inserts c a p e :
  cache_ok c -> line a -> (forall q, ~ holds c a q) -> (exists way, free_way c a way) ->
  c.(entries) !! p = Some e -> unlinked c p ->
  exists c', allocate cfg a p c = Ok (p, c') /\ cache_ok c' /\
    c'.(entries) !! p = Some (mkEntry Invalid a (-1)) /\
    (forall q, q <> p -> c'.(entries) !! q = c.(entries) !! q) /\
    (forall b q, holds c' b q <-> (b = a /\ q = p) \/ holds c b q).
Proof. apply allocate_run. Qed.

(** ** [deallocate] *)
Definition deallocated c a p way : Cache P :=
  (with_slot c (set_of c a) way None)
    <| entries ::= delete p |> <| m_tag_index ::= delete a |>.

(** An entry is in one slot only. *)
Lemma slot_unique c set way set' way' p :
  cache_ok c -> slot c set way = Some p -> slot c set' way' = Some p -> set' = set /\ way' = way.
Proof.
  intros Hok H1 H2. destruct (c_slot _ Hok _ _ _ H1) as (e & He & _ & _ & Hs & Ht).
  destruct (c_slot _ Hok _ _ _ H2) as (e' & He' & _ & _ & Hs' & Ht').
  replace e' with e in * by congruence. split; congruence.
Qed.

Lemma slot_deallocated c a p way set' way' :
  cache_ok c -> 0 <= way < c.(m_cache_assoc) ->
  slot (deallocated c a p way) set' way' =
  if bool_decide (set' = set_of c a /\ way' = way) then None else slot c set' way'.
Proof.
  intros Hok Hw. rewrite <- (slot_with_slot c (set_of c a) way None set' way');
    [done|apply Hok|apply set_of_range, Hok|done].
Qed.

Lemma deallocated_ok c a p way :
  cache_ok c -> c.(m_tag_index) !! a = Some way -> slot c (set_of c a) way = Some p ->
  cache_ok (deallocated c a p way).
Proof.
  intros Hok Ha Hp. pose proof Hok as [Hsh Hslot Htag].
  destruct (Htag _ _ Ha) as (_ & Hw & _). split.
  - eapply (shape_ext (with_slot c (set_of c a) way None)); try done; [|apply Hsh].
    apply shape_with_slot; [done|by apply set_of_range].
  - intros set' way' q. rewrite slot_deallocated by done. case_bool_decide as Hc; [done|].
    intros Hq. destruct (Hslot _ _ _ Hq) as (e & He & Hn & Hle & Hse & Hte). exists e. cbn.
    rewrite lookup_delete_ne, lookup_delete_ne; [by split_and!| |].
    + intros ->. apply Hc. split; [done|congruence].
    + intros ->. by destruct Hc; eapply slot_unique.
  - intros b w. cbn. intros [Hne Hb]%lookup_delete_Some.
    destruct (Htag _ _ Hb) as (Hlb & Hwb & q & e & Hq & He & Hae).
    split; [done|]. split; [done|]. exists q, e. rewrite slot_deallocated by done.
    change (set_of (deallocated c a p way) b) with (set_of c b).
    assert (q <> p) as Hqp.
    { intros ->. destruct (Htag _ _ Ha) as (_ & _ & p' & e' & Hp' & He' & Hae').
      assert (p' = p) by congruence. congruence. }
    rewrite bool_decide_false by (intros [Hs ->]; congruence).
    by rewrite lookup_delete_ne.
Qed.

Lemma deallocated_holds c a p way b q :
  cache_ok c -> c.(m_tag_index) !! a = Some way -> slot c (set_of c a) way = Some p ->
  holds (deallocated c a p way) b q <-> b <> a /\ holds c b q.
Proof.
  intros Hok Ha Hp. destruct (c_tag _ Hok _ _ Ha) as (_ & Hw & _). unfold holds.
  setoid_rewrite slot_deallocated; [|done..]. cbn. split.
  - intros (set' & way' & e & Hs & [Hne He]%lookup_delete_Some & <-).
    case_bool_decide as Hc; [done|]. split; [|by exists set', way', e].
    intros Hab. apply Hc. destruct (c_slot _ Hok _ _ _ Hs) as (e' & He' & _ & _ & Hs' & Ht').
    assert (e' = e) by congruence. subst. split; congruence.
  - intros (Hne & set' & way' & e & Hs & He & <-). exists set', way', e.
    rewrite bool_decide_false, lookup_delete_ne; [done| |].
    + intros ->. destruct (c_tag _ Hok _ _ Ha) as (_ & _ & p' & e' & Hp' & He' & Hae').
      apply Hne. congruence.
    + intros [-> ->]. destruct (c_slot _ Hok _ _ _ Hp) as (e' & He' & _ & _ & _ & Ht').
      destruct (c_tag _ Hok _ _ Ha) as (_ & _ & p' & e2 & Hp' & He2 & Hae). apply Hne. congruence.
Qed.

Lemma deallocate_run c a p :
  cache_ok c -> holds c a p ->
  exists way, c.(m_tag_index) !! a = Some way /\ slot c (set_of c a) way = Some p /\
    deallocate cfg a c = Ok (tt, deallocated c a p way).
Proof.
  intros Hok Hh. destruct (holds_tag _ _ _ Hok Hh) as (way & Ht & Hw & Hp & Hl).
  exists way. split; [done|]. split; [done|]. pose proof (set_of_range c a (c_shape _ Hok)) as Hs.
  unfold deallocate. rewrite assert_bind_run, (proj2 Hl).
  rewrite (M_bind_run _ _ _ _ _ (isTagPresent_run c a Hok Hl)), Ht.
  rewrite bool_decide_true by done. rewrite assert_bind_run.
  rewrite (M_bind_run _ _ _ _ _ (addressToCacheSet_run c a (c_shape _ Hok) Hl)).
  rewrite (M_bind_run _ _ _ _ _ (findTagInSet_run c a Hok Hl)), Ht.
  change (default (-1) (Some way)) with way. replace (way =? -1) with false by lia. cbn [negb].
  rewrite get_slot_bind, Hp by (apply Hok || done). cbn [delete_entry]. rewrite modify_run.
  rewrite (M_bind_run _ _ _ _ _ (set_slot_run (c <| entries ::= delete p |>) (set_of c a) way None
    ltac:(by eapply (shape_ext c); try done; apply Hok) Hs Hw)). done.
Qed.

(** [deallocate] of a held line frees its entry and removes exactly that
    line; the cache stays consistent and holds everything else. *)
Theorem deallocate_removes c a p :
  cache_ok c -> holds c a p ->
  exists c', deallocate cfg a c = Ok (tt, c') /\ cache_ok c' /\
    c'.(entries) = delete p c.(entries) /\
    (forall b q, holds c' b q <-> b <> a /\ holds c b q).
Proof.
  intros Hok Hh. destruct (deallocate_run c a p Hok Hh) as (way & Ht & Hp & Hrun).
  exists (deallocated c a p way). split; [done|]. split; [by apply deallocated_ok|].
  split; [done|]. intros. by apply deallocated_holds.
Qed.

(** ** Eviction *)
Lemma cacheProbe_run c a :
  cache_ok c -> line a -> (forall p, ~ holds c a p) -> (forall way, ~ free_way c a way) ->
  exists b q, cacheProbe cfg a c = Ok (b, c) /\ holds c b q /\ b <> a /\ set_of c b = set_of c a.
Proof.
  intros Hok Hl Hnh Hnf. pose proof (set_of_range c a (c_shape _ Hok)) as Hs.
  unfold cacheProbe. rewrite assert_bind_run, (proj2 Hl).
  destruct (cacheAvail_run c a Hok Hl) as (b & Hrun & Hb).
  rewrite (M_bind_run _ _ _ _ _ Hrun), assert_bind_run.
  destruct b; [destruct (proj1 Hb eq_refl) as [[p ?]|[w ?]]; naive_solver|]. cbn [negb].
  rewrite (M_bind_run _ _ _ _ _ (addressToCacheSet_run c a (c_shape _ Hok) Hl)), gets_run.
  destruct (victim_ok _ _ _ (set_of c a) (s_policy _ (c_shape _ Hok)) Hs) as (way & Hv & Hw).
  rewrite lift_bind_run, Hv, get_slot_bind by (apply Hok || done).
  destruct (slot c (set_of c a) way) as [q|] eqn:Hq; [|by destruct (Hnf way)].
  destruct (c_slot _ Hok _ _ _ Hq) as (e & He & _ & _ & Hse & _).
  rewrite (deref_entry_run _ _ e) by done. exists e.(m_Address), q.
  assert (holds c e.(m_Address) q) as Hh by (by exists (set_of c a), way, e).
  split_and!; try done. intros Ha. rewrite Ha in Hh. by apply (Hnh q).
Qed.

(** C30: when a line is absent and its set is full, [cacheProbe] names a victim
    the cache holds in the same set, and deallocating the victim makes room:
    the line is available afterwards.  This holds for every replacement policy
    that satisfies [PolicyLaws]. *)
Theorem eviction_makes_room c a :
  cache_ok c -> line a -> (forall p, ~ holds c a p) -> (forall way, ~ free_way c a way) ->
  exists b q c', cacheProbe cfg a c = Ok (b, c) /\ holds c b q /\ set_of c b = set_of c a /\
    deallocate cfg b c = Ok (tt, c') /\ cache_ok c' /\ cacheAvail cfg a c' = Ok (true, c').
Proof.
  intros Hok Hl Hnh Hnf.
  destruct (cacheProbe_run c a Hok Hl Hnh Hnf) as (b & q & Hpr & Hh & Hne & Hset).
  destruct (deallocate_run c b q Hok Hh) as (way & Ht & Hp & Hd).
  exists b, q, (deallocated c b q way). split_and!; try done; [by apply deallocated_ok|].
  assert (cache_ok (deallocated c b q way)) as Hok' by by apply deallocated_ok.
  destruct (cacheAvail_run _ a Hok' Hl) as (r & Hr & Hb). rewrite Hr.
  rewrite (proj2 Hb); [done|]. right. exists way.
  destruct (c_tag _ Hok _ _ Ht) as (_ & Hw & _). split; [done|].
  change (set_of (deallocated c b q way) a) with (set_of c a).
  rewrite slot_deallocated, bool_decide_true by done. done.
Qed.

(** ** Accesses *)
Definition grants (perm : AccessPermission) (type : RubyRequestType) : Prop :=
  perm = Read_Write \/ (perm = Read_Only /\ (type = LD \/ type = IFETCH)).

#[local] Instance grants_dec perm type : Decision (grants perm type).
Proof. unfold grants. apply _. Defined.

Lemma ok_policy c pol :
  cache_ok c -> policy_ok c.(m_cache_num_sets) c.(m_cache_assoc) pol ->
  cache_ok (c <| m_replacementPolicy := pol |>).
Proof.
  intros [Hsh Hslot Htag] Hpol. split; [|exact Hslot|exact Htag].
  by eapply (shape_ext c).
Qed.

(** [tryCacheAccess] hits exactly when the cache holds the line with a
    permission that grants the request: read-write for every type, read-only
    for loads and instruction fetches.  A held line becomes the most recently
    used of its set, hit or not; nothing else changes. *)
Theorem tryCacheAccess_correct c a type :
  cache_ok c -> line a ->
  exists r c', tryCacheAccess cfg a type c = Ok (r, c') /\ cache_ok c' /\
    (forall b q, holds c' b q <-> holds c b q) /\ c'.(entries) = c.(entries) /\
    ((forall p, ~ holds c a p) -> r = (false, None) /\ c' = c) /\
    (forall p e, holds c a p -> c.(entries) !! p = Some e ->
       r = (if decide (grants e.(m_Permission) type) then (true, Some p) else (false, None)) /\
       exists way, slot c (set_of c a) way = Some p /\
         getLastAccess c'.(m_replacementPolicy) (set_of c a) way = Ok c.(getTime)).
Proof.
  intros Hok Hl. pose proof (set_of_range c a (c_shape _ Hok)) as Hs.
  unfold tryCacheAccess. rewrite assert_bind_run, (proj2 Hl).
  rewrite (M_bind_run _ _ _ _ _ (addressToCacheSet_run c a (c_shape _ Hok) Hl)).
  rewrite (M_bind_run _ _ _ _ _ (findTagInSet_run c a Hok Hl)).
  destruct (c.(m_tag_index) !! a) as [way|] eqn:Ht.
  2:{ exists (false, None), c. split_and!; try done.
      intros p e Hh. by apply not_holds_tag with (p := p) in Ht. }
  change (default (-1) (Some way)) with way.
  destruct (c_tag _ Hok _ _ Ht) as (_ & Hw & p & e & Hp & He & Ha).
  replace (way =? -1) with false by lia. cbn [negb]. rewrite get_slot_bind, Hp by (apply Hok || done).
  destruct (touch_slot_run c (set_of c a) way (c_shape _ Hok) Hs Hw) as (pol & Htr & Hpol & Hlast).
  rewrite (M_bind_run _ _ _ _ _ Htr), (deref_entry_run _ _ e) by done.
  exists (if decide (grants e.(m_Permission) type) then (true, Some p) else (false, None)),
    (c <| m_replacementPolicy := pol |>). split_and!; try done.
  - unfold grants. destruct e as [perm addr lk]. cbn [m_Permission].
    destruct perm, type; done.
  - by apply ok_policy.
  - intros Hn. destruct (Hn p). by exists (set_of c a), way, e.
  - intros p' e' Hh He'. destruct (holds_tag _ _ _ Hok Hh) as (way' & Ht' & _ & Hp' & _).
    assert (p' = p) as -> by congruence. assert (e' = e) as -> by congruence.
    split; [done|]. by exists way.
Qed.

(** ** Locks *)
Lemma locked_entry_run c a p :
  cache_ok c -> holds c a p -> locked_entry cfg a c = Ok (Some p, c).
Proof.
  intros Hok Hh. destruct (holds_tag _ _ _ Hok Hh) as (way & Ht & Hw & Hp & Hl).
  unfold locked_entry. rewrite assert_bind_run, (proj2 Hl).
  rewrite (M_bind_run _ _ _ _ _ (addressToCacheSet_run c a (c_shape _ Hok) Hl)).
  rewrite (M_bind_run _ _ _ _ _ (findTagInSet_run c a Hok Hl)), Ht.
  change (default (-1) (Some way)) with way. rewrite assert_bind_run.
  replace (way =? -1) with false by lia. cbn [negb]. rewrite <- Hp.
  apply get_slot_run; [apply Hok|apply set_of_range, Hok|done].
Qed.

(** Writing a lock field leaves the cache consistent. *)
Lemma relock_ok c p e v :
  cache_ok c -> c.(entries) !! p = Some e ->
  cache_ok (c <| entries ::= <[p := e <| m_locked := v |>]> |>).
Proof.
  intros [Hsh Hslot Htag] He. split.
  - eapply (shape_ext c); try done. apply Hsh.
  - intros set way q Hq. destruct (Hslot _ _ _ Hq) as (eq & Heq & H). cbn.
    destruct (decide (q = p)) as [-> |Hne].
    + rewrite lookup_insert_eq. eexists. split; [done|]. replace eq with e in * by congruence. done.
    + rewrite lookup_insert_ne by done. by exists eq.
  - intros b w Hb. destruct (Htag _ _ Hb) as (Hlb & Hw & q & eq & Hq & Heq & Hae).
    split; [done|]. split; [done|]. cbn. destruct (decide (q = p)) as [-> |Hne].
    + exists p. rewrite lookup_insert_eq. eexists. split_and!; try done.
      replace eq with e in * by congruence. done.
    + exists q, eq. by rewrite lookup_insert_ne.
Qed.

(** Load-linked/store-conditional locks: on a held line, [setLocked] makes
    [isLocked] true for its context and false for every other, [clearLocked]
    leaves no context that has it locked, and both leave the cache consistent;
    on an absent line all three fail their assertion. *)
Theorem locks_correct c a context :
  cache_ok c -> line a ->
  match c.(m_tag_index) !! a with
  | Some _ =>
      exists c1 c2, setLocked cfg a context c = Ok (tt, c1) /\ cache_ok c1 /\
        (forall ctx, isLocked cfg a ctx c1 = Ok (context =? ctx, c1)) /\
        clearLocked cfg a c1 = Ok (tt, c2) /\ cache_ok c2 /\
        (forall ctx, 0 <= ctx -> isLocked cfg a ctx c2 = Ok (false, c2))
  | None =>
      exists site, setLocked cfg a context c = Err (AssertFail site) /\
        clearLocked cfg a c = Err (AssertFail site) /\
        isLocked cfg a context c = Err (AssertFail site)
  end.
Proof.
  intros Hok Hl. destruct (c.(m_tag_index) !! a) as [way|] eqn:Ht.
  - destruct (c_tag _ Hok _ _ Ht) as (_ & Hw & p & e & Hp & He & Ha).
    set (c1 := c <| entries ::= <[p := e <| m_locked := context |>]> |>).
    set (c2 := c1 <| entries ::= <[p := e <| m_locked := context |> <| m_locked := -1 |>]> |>).
    assert (cache_ok c1) as Hok1 by by apply relock_ok.
    assert (c1.(entries) !! p = Some (e <| m_locked := context |>)) as He1 by apply lookup_insert_eq.
    assert (cache_ok c2) as Hok2 by by apply relock_ok.
    assert (holds c1 a p) as Hh1 by (eexists _, way, _; by split_and!).
    assert (c2.(entries) !! p = Some (e <| m_locked := -1 |>)) as He2 by apply lookup_insert_eq.
    assert (holds c2 a p) as Hh2 by (eexists _, way, _; by split_and!).
    exists c1, c2. split_and!; try done.
    + unfold setLocked. erewrite M_bind_run by (apply locked_entry_run; [done|by eapply tag_holds]).
      by apply update_entry_run.
    + intros ctx. unfold isLocked. erewrite M_bind_run by (by apply locked_entry_run).
      by rewrite (deref_entry_run _ _ _ _ He1).
    + unfold clearLocked. erewrite M_bind_run by (by apply locked_entry_run).
      by rewrite (update_entry_run _ _ _ _ He1).
    + intros ctx Hctx. unfold isLocked. erewrite M_bind_run by (by apply locked_entry_run).
      rewrite (deref_entry_run _ _ _ _ He2). unfold mret, M_ret. do 2 f_equal. apply Z.eqb_neq. simpl. lia.
  - exists "CacheMemory: lock of a present line".
    assert (locked_entry cfg a c = Err (AssertFail "CacheMemory: lock of a present line")) as Hf.
    { unfold locked_entry. rewrite assert_bind_run, (proj2 Hl).
      rewrite (M_bind_run _ _ _ _ _ (addressToCacheSet_run c a (c_shape _ Hok) Hl)).
      by rewrite (M_bind_run _ _ _ _ _ (findTagInSet_run c a Hok Hl)), Ht. }
    unfold setLocked, clearLocked, isLocked, mbind, M_bind. by rewrite Hf.
Qed.
End spec.
End CacheSpec.
