(* ===== verification/CacheExamples.v ===== *)
(** * A cache from its configuration

    [init] establishes the invariant for both replacement policies, and the
    theorems applied to a small cache. *)

From Stdlib Require Import Ascii.
From S2P Require Import Prelude.
From S2P Require Import STEvent.
From S2P Require Import CString.
From S2P Require Import IntMath.
From S2P Require Import Requests.
From S2P Require Import Bitfield.
From S2P Require Import RubyAddress.
From S2P Require Import Replacement.
From S2P Require Import CacheMemory.
From S2P Require Import CacheSpec.
Import CString IntMath Requests RubyAddress Replacement CacheMemory CacheSpec.

Module CacheExamples.

(** The policy object behind the virtual calls keeps the laws. *)
#[export] Instance either_laws : PolicyLaws (PseudoLRUPolicy + LRUPolicy).
Proof.
  refine {| policy_ok := fun sets assoc p =>
    match p with inl p => policy_ok sets assoc p | inr p => policy_ok sets assoc p end |}.
  - intros sets assoc [p|p] set way time Hok Hs Hw;
      destruct (touch_ok sets assoc p set way time Hok Hs Hw) as (p' & Hr & Hok' & Hl & Ho).
    + exists (inl p'). cbn [touch either_policy]. by rewrite Hr.
    + exists (inr p'). cbn [touch either_policy]. by rewrite Hr.
  - intros sets assoc [p|p] set Hok Hs; apply (victim_ok sets assoc p set Hok Hs).
Defined.

Definition policy_fits (m_policy : string) (assoc : Z) : Prop :=
  m_policy = "LRU" \/ (m_policy = "PSEUDO_LRU" /\ 1 < assoc <= 32).

Lemma newPolicy_run m_policy sets assoc :
  policy_fits m_policy assoc -> 0 < sets < 2 ^ 31 -> 0 < assoc < 2 ^ 31 ->
  exists p, newPolicy m_policy sets assoc = Ok p /\ policy_ok sets assoc p.
Proof.
  intros [-> |[-> Ha]] Hs Hassoc; unfold newPolicy.
  - exists (inr (newLRU sets assoc)). split; [done|]. apply newBase_ok; lia.
  - destruct (newPLRU_ok sets assoc) as (p & Hp & Hok); [lia..|]. exists (inl p).
    by rewrite String.eqb_refl, Hp.
Qed.

Lemma init_run cfg size assoc start m_policy icache t :
  0 < assoc -> 0 < cfg.(block_size_bytes) ->
  2 * (assoc * cfg.(block_size_bytes)) <= size < 2 ^ 31 -> policy_fits m_policy assoc ->
  0 <= start -> start + Z.log2 (size / assoc / cfg.(block_size_bytes)) <= 64 ->
  exists c, init cfg size assoc start m_policy icache t = Ok c /\ cache_ok cfg c /\
    c.(entries) = ∅ /\ (forall set way, slot c set way = None) /\
    c.(m_cache_num_sets) = size / assoc / cfg.(block_size_bytes).
Proof.
  intros Ha Hb Hsz Hp Hst Hend. unfold init.
  rewrite (proj2 (Z.eqb_neq assoc 0)), (proj2 (Z.eqb_neq (block_size_bytes cfg) 0)) by lia.
  cbn [orb]. rewrite (Z.quot_div_nonneg size assoc) by lia.
  rewrite Z.quot_div_nonneg by (try lia; apply Z.div_pos; lia).
  set (sets := size / assoc / cfg.(block_size_bytes)) in *.
  assert (2 <= sets < 2 ^ 31) as Hs.
  { unfold sets. rewrite Z.div_div by lia. split.
    - apply Z.div_le_lower_bound; lia.
    - apply Z.div_lt_upper_bound; nia. }
  assert (assoc < 2 ^ 31) by nia.
  rewrite (proj2 (Z.ltb_lt 1 sets)) by lia.
  assert (floorLog2_int sets = Ok (Z.log2 sets)) as ->.
  { unfold floorLog2_int. rewrite (proj2 (Z.ltb_lt 0 sets)) by lia.
    rewrite u32_small by (zwidth; lia). apply floorLog2_32_spec. lia. }
  rewrite bind_Ok_run. assert (0 < Z.log2 sets) by (apply Z.log2_pos; lia).
  rewrite (proj2 (Z.ltb_lt 0 (Z.log2 sets))) by lia.
  destruct (newPolicy_run m_policy sets assoc) as (p & -> & Hok); [done|lia|lia|].
  rewrite bind_Ok_run. eexists. split; [reflexivity|].
  match goal with |- cache_ok _ ?x /\ _ => set (c := x) end.
  assert (forall set way, slot c set way = None) as Hempty.
  { intros set way. unfold slot. cbn.
    destruct (vget (replicate _ _) set) as [row|] eqn:Hrow; [|done].
    apply vget_Ok in Hrow as [_ [-> _]%lookup_replicate].
    destruct (vget (replicate _ _) way) as [x|] eqn:Hx; [|done].
    by apply vget_Ok in Hx as [_ [-> _]%lookup_replicate]. }
  split; [|by split_and!]. split.
  - pose proof (Z.log2_spec sets ltac:(lia)). split; cbn; try lia; try done.
    + rewrite length_replicate. lia.
    + apply Forall_replicate. rewrite length_replicate. lia.
  - intros set way q. by rewrite Hempty.
  - intros a way. by cbn.
Qed.

(** [init] of a configured cache succeeds for both policies and builds a
    consistent, empty cache with [size / assoc / block] sets, when the cache has
    at least two sets, the index bits lie inside the address and pseudo-LRU is
    only used with 2 to 32 ways. *)
Theorem cache_init_ok cfg size assoc start m_policy icache t :
  0 < assoc -> 0 < cfg.(block_size_bytes) ->
  2 * (assoc * cfg.(block_size_bytes)) <= size < 2 ^ 31 -> policy_fits m_policy assoc ->
  0 <= start -> start + Z.log2 (size / assoc / cfg.(block_size_bytes)) <= 64 ->
  exists c, init cfg size assoc start m_policy icache t = Ok c /\ cache_ok cfg c /\
    c.(m_cache_num_sets) = size / assoc / cfg.(block_size_bytes) /\
    forall a p, ~ holds c a p.
Proof.
  intros. destruct (init_run cfg size assoc start m_policy icache t)
    as (c & Hr & Hok & _ & He & Hn); try done.
  exists c. split_and!; try done. intros a p (set & way & e & Hs & _). by rewrite He in Hs.
Qed.

(** ** A cache of two sets and two ways of 64-byte lines *)
Definition made (r : result (Cache (PseudoLRUPolicy + LRUPolicy))) : Cache (PseudoLRUPolicy + LRUPolicy) :=
  match r with
  | Ok c => c
  | Err _ => mkCache ∅ [] (inr (newLRU 0 0)) 0 0 0 0 false ∅ 0
  end.

Definition run {A} (m : M (Cache (PseudoLRUPolicy + LRUPolicy)) A)
  (c : Cache (PseudoLRUPolicy + LRUPolicy)) : Cache (PseudoLRUPolicy + LRUPolicy) :=
  match m c with Ok (_, c') => c' | Err _ => c end.

Definition fresh_cache := made (init example_cfg 256 2 6 "PSEUDO_LRU" false 7).

(** The protocol has made three entries, 1, 2 and 3. *)
Definition c0 := fresh_cache <| entries := list_to_map [(1, newEntry); (2, newEntry); (3, newEntry)] |>.
Definition c1 := run (allocate example_cfg 0 1) c0.
Definition c2 := run (allocate example_cfg 128 2) c1.
Definition c3 := c2 <| entries ::= alter (changePermission Read_Only) 1 |>.

Lemma cache_init_ok_witness :
  exists c, init example_cfg 256 2 6 "PSEUDO_LRU" false 7 = Ok c /\ cache_ok example_cfg c /\
    c.(m_cache_num_sets) = 2 /\ forall a p, ~ holds c a p.
Proof.
  apply (cache_init_ok example_cfg 256 2 6 "PSEUDO_LRU" false 7);
    [lia|by vm_compute|by vm_compute|right; split; [done|lia]|lia|by vm_compute].
Defined.

(** An executable form of the invariant for small caches. *)
Section check.
Context (cfg : RubyCfg).
Implicit Types (c : Cache (PseudoLRUPolicy + LRUPolicy)).

Definition in_range c (s w : Z) : bool :=
  (0 <=? s) && (s <? c.(m_cache_num_sets)) && (0 <=? w) && (w <? c.(m_cache_assoc)).

Definition line_b (a : Z) : bool := (0 <=? a) && (a <? 2 ^ 64) && is_line cfg a.

Definition slot_check c (sw : Z * Z) : bool :=
  match slot c sw.1 sw.2 with
  | None => true
  | Some p =>
      match c.(entries) !! p with
      | None => false
      | Some e =>
          bool_decide (e.(m_Permission) <> NotPresent) && line_b e.(m_Address) &&
          (set_of c e.(m_Address) =? sw.1) &&
          bool_decide (c.(m_tag_index) !! e.(m_Address) = Some sw.2)
      end
  end.

Definition tag_check c (a way : Z) : bool :=
  line_b a && (0 <=? way) && (way <? c.(m_cache_assoc)) &&
  match slot c (set_of c a) way with
  | None => false
  | Some p => match c.(entries) !! p with None => false | Some e => e.(m_Address) =? a end
  end.

Lemma line_b_line a : line_b a = true -> line cfg a.
Proof. unfold line_b, line. zwidth. intros. bool_to_Z. split; [lia|done]. Qed.

Lemma cache_check c :
  shape_ok c ->
  forallb (slot_check c) (i ← upto c.(m_cache_num_sets); j ← upto c.(m_cache_assoc); [(i, j)]) = true ->
  bool_decide (map_Forall (fun a way => tag_check c a way = true) c.(m_tag_index)) = true ->
  cache_ok cfg c.
Proof.
  intros Hsh Hsl Htg%bool_decide_eq_true. split; [done| |].
  - intros set way p Hp.
    assert (0 <= set < c.(m_cache_num_sets) /\ 0 <= way < c.(m_cache_assoc)) as [Hs Hw].
    { pose proof Hp as Hp'. unfold slot in Hp'.
      pose proof (s_ways _ Hsh) as Hways. pose proof (s_rows _ Hsh).
      destruct (vget c.(m_cache) set) as [row|] eqn:Hr; [|done].
      destruct (vget row way) as [x|] eqn:Hx; [|done].
      pose proof (vget_Ok_range _ _ _ Hr). pose proof (vget_Ok_range _ _ _ Hx).
      apply vget_Ok in Hr as [_ Hr]. rewrite Forall_lookup in Hways. specialize (Hways _ _ Hr).
      lia. }
    rewrite forallb_forall in Hsl. specialize (Hsl (set, way)).
    rewrite <- list_elem_of_In in Hsl.
    assert (slot_check c (set, way) = true) as Hc.
    { apply Hsl. apply list_elem_of_bind. exists set. split; [|by apply elem_of_upto].
      apply list_elem_of_bind. exists way. split; [set_solver|by apply elem_of_upto]. }
    unfold slot_check in Hc. cbn in Hc. rewrite Hp in Hc.
    destruct (c.(entries) !! p) as [e|]; [|done]. exists e. split; [done|].
    apply andb_prop in Hc as [Hc Ht]. apply andb_prop in Hc as [Hc Hset].
    apply andb_prop in Hc as [Hperm Hline]. apply bool_decide_eq_true in Ht, Hperm.
    split_and!; try done; [by apply line_b_line|by apply Z.eqb_eq].
  - intros a way Ha. specialize (Htg a way Ha). unfold tag_check in Htg.
    apply andb_prop in Htg as [Hc He]. apply andb_prop in Hc as [Hc Hw2].
    apply andb_prop in Hc as [Hline Hw1]. bool_to_Z. split; [by apply line_b_line|].
    split; [lia|]. destruct (slot c (set_of c a) way) as [p|]; [|done].
    destruct (c.(entries) !! p) as [e|] eqn:Ee; [|done]. exists p, e.
    split_and!; try done. by apply Z.eqb_eq.
Qed.
End check.

(** The states below keep the shape of the cache [init] made. *)
Lemma c0_shape : shape_ok c0.
Proof.
  destruct (init_run example_cfg 256 2 6 "PSEUDO_LRU" false 7) as (c & Hr & Hok & _);
    [lia|by vm_compute|by vm_compute|right; split; [done|lia]|lia|by vm_compute|].
  unfold c0, fresh_cache. rewrite Hr. cbn [made]. eapply (shape_ext c); try done; apply Hok.
Qed.

Lemma c0_ok : cache_ok example_cfg c0.
Proof. apply cache_check; [apply c0_shape|by vm_compute|by vm_compute]. Qed.

Lemma line_0 : line example_cfg 0.
Proof. split; [zwidth; lia|by vm_compute]. Qed.
Lemma line_128 : line example_cfg 128.
Proof. split; [zwidth; lia|by vm_compute]. Qed.
Lemma line_256 : line example_cfg 256.
Proof. split; [zwidth; lia|by vm_compute]. Qed.

Lemma empty_unlinked p : unlinked c0 p.
Proof.
  intros set way. unfold slot. destruct (vget c0.(m_cache) set) as [row|] eqn:Hr; [|done].
  destruct (vget row way) as [x|] eqn:Hx; [|done]. intros ->.
  assert (Forall (Forall (fun x : option Z => x = None)) c0.(m_cache)) as Hall
    by (vm_compute; repeat constructor).
  apply vget_Ok in Hr as [_ Hr], Hx as [_ Hx]. rewrite Forall_lookup in Hall.
  specialize (Hall _ _ Hr). rewrite Forall_lookup in Hall. by specialize (Hall _ _ Hx).
Qed.

Lemma empty_holds a p : ~ holds c0 a p.
Proof. intros (set & way & e & Hs & _). by destruct (empty_unlinked p set way). Qed.

Lemma allocate_inserts_witness :
  exists c', allocate example_cfg 0 1 c0 = Ok (1, c') /\ cache_ok example_cfg c' /\
    c'.(entries) !! 1 = Some (mkEntry Invalid 0 (-1)) /\
    (forall q, q <> 1 -> c'.(entries) !! q = c0.(entries) !! q) /\
    (forall b q, holds c' b q <-> (b = 0 /\ q = 1) \/ holds c0 b q).
Proof.
  apply (allocate_inserts example_cfg c0 0 1 newEntry).
  - exact c0_ok.
  - exact line_0.
  - apply empty_holds.
  - exists 0. split; [by vm_compute|by vm_compute].
  - by vm_compute.
  - apply empty_unlinked.
Defined.

Lemma c1_ok : cache_ok example_cfg c1.
Proof.
  destruct (allocate_run example_cfg c0 0 1 newEntry) as (c' & Hr & Hok & _);
    [apply c0_ok|apply line_0|apply empty_holds|by exists 0; split; vm_compute|by vm_compute|
     apply empty_unlinked|].
  unfold c1, run. by rewrite Hr.
Qed.

Lemma c2_ok : cache_ok example_cfg c2.
Proof.
  apply cache_check; [|by vm_compute|by vm_compute].
  assert (exists c', allocate example_cfg 128 2 c1 = Ok (2, c') /\ cache_ok example_cfg c') as (c' & Hr & Hok).
  { destruct (allocate_run example_cfg c1 128 2 newEntry) as (c' & Hr & Hok & _); eauto.
    - apply c1_ok.
    - apply line_128.
    - apply (not_holds_tag example_cfg); [apply c1_ok|by vm_compute].
    - exists 1. split; by vm_compute.
    - intros set way Hs. destruct (c_slot _ _ c1_ok _ _ _ Hs) as (e & He & Hn & _).
      vm_compute in He. injection He as <-. by apply Hn. }
  unfold c2, run. rewrite Hr. apply Hok.
Qed.

Lemma shape_entries (c : Cache (PseudoLRUPolicy + LRUPolicy)) f :
  shape_ok c -> shape_ok (c <| entries ::= f |>).
Proof. intros Hc. eapply (shape_ext c); try done. apply Hc. Qed.

Lemma c3_ok : cache_ok example_cfg c3.
Proof.
  apply cache_check; [|by vm_compute|by vm_compute].
  unfold c3. apply shape_entries, c2_ok.
Qed.

Lemma lookup_correct_witness :
  exists r, lookup example_cfg 0 c3 = Ok (r, c3) /\
    isTagPresent example_cfg 0 c3 = Ok (bool_decide (is_Some r), c3) /\
    (forall p, r = Some p <-> holds c3 0 p).
Proof. apply (lookup_correct example_cfg c3 0 c3_ok line_0). Defined.

Lemma cacheAvail_correct_witness :
  exists b, cacheAvail example_cfg 256 c3 = Ok (b, c3) /\
    (b = true <-> (exists p, holds c3 256 p) \/ exists way, free_way c3 256 way).
Proof. apply (cacheAvail_correct example_cfg c3 256 c3_ok line_256). Defined.

Lemma c3_holds : holds c3 0 1 /\ holds c3 128 2.
Proof.
  split; [exists 0, 0, (mkEntry Read_Only 0 (-1))|exists 0, 1, (mkEntry Invalid 128 (-1))];
    split_and!; by vm_compute.
Qed.

Lemma deallocate_removes_witness :
  exists c', deallocate example_cfg 0 c3 = Ok (tt, c') /\ cache_ok example_cfg c' /\
    c'.(entries) = delete 1 c3.(entries) /\
    (forall b q, holds c' b q <-> b <> 0 /\ holds c3 b q).
Proof. apply (deallocate_removes example_cfg c3 0 1 c3_ok (proj1 c3_holds)). Defined.

Lemma eviction_makes_room_witness :
  exists b q c', cacheProbe example_cfg 256 c3 = Ok (b, c3) /\ holds c3 b q /\
    set_of c3 b = set_of c3 256 /\ deallocate example_cfg b c3 = Ok (tt, c') /\
    cache_ok example_cfg c' /\ cacheAvail example_cfg 256 c' = Ok (true, c').
Proof.
  apply (eviction_makes_room example_cfg c3 256 c3_ok line_256).
  - apply (not_holds_tag example_cfg); [apply c3_ok|by vm_compute].
  - intros way [Hw Hs]. change (m_cache_assoc c3) with 2 in Hw.
    assert (way = 0 \/ way = 1) as [-> | ->] by lia; by vm_compute in Hs.
Defined.

Lemma tryCacheAccess_correct_witness :
  exists r c', tryCacheAccess example_cfg 0 LD c3 = Ok (r, c') /\ r = (true, Some 1).
Proof.
  destruct (tryCacheAccess_correct example_cfg c3 0 LD c3_ok line_0)
    as (r & c' & Hr & _ & _ & _ & _ & Hh).
  exists r, c'. split; [done|].
  destruct (Hh 1 (mkEntry Read_Only 0 (-1)) (proj1 c3_holds)) as [-> _]; [by vm_compute|].
  rewrite decide_True; [done|]. right. split; [done|by left].
Defined.

Lemma locks_correct_witness :
  exists k1 k2, setLocked example_cfg 0 5 c3 = Ok (tt, k1) /\ cache_ok example_cfg k1 /\
    (forall ctx, isLocked example_cfg 0 ctx k1 = Ok (5 =? ctx, k1)) /\
    clearLocked example_cfg 0 k1 = Ok (tt, k2) /\ cache_ok example_cfg k2 /\
    (forall ctx, 0 <= ctx -> isLocked example_cfg 0 ctx k2 = Ok (false, k2)).
Proof. apply (locks_correct example_cfg c3 0 5 c3_ok line_0). Defined.

(** [allocate] also reuses a slot whose entry has become [NotPresent], but
    leaves the old address in the tag index: afterwards the cache finds the new
    entry under both addresses. *)
Definition stale : Cache (PseudoLRUPolicy + LRUPolicy) :=
  run (allocate example_cfg 256 3) (c3 <| entries ::= alter (changePermission NotPresent) 1 |>).

Example stale_tag :
  (x ← lookup example_cfg 0; y ← lookup example_cfg 256; mret (x, y)) stale
  = Ok ((Some 3, Some 3), stale).
Proof. by vm_compute. Qed.

(** ** The controller number in a cache's name *)
Definition l1_name (n : Z) : str :=
  lit "system.l1_cntrl" ++ print_dec n ++ lit ".L1DcacheMemory".

(** [profileMiss] recovers the number of the L1 controller from the name of
    its data cache for every controller number below 1000. *)
Theorem l1_cntrl_num_correct n :
  0 <= n < 1000 -> l1_cntrl_num (l1_name n) = Ok n.
Proof.
  intros Hn. assert (Forall (fun k => l1_cntrl_num (l1_name k) = Ok k) (upto 1000)) as Hall
    by (apply (bool_decide_unpack _); by vm_compute).
  rewrite Forall_forall in Hall. apply Hall. by apply elem_of_upto.
Qed.

Lemma l1_cntrl_num_correct_witness : l1_cntrl_num (l1_name 42) = Ok 42.
Proof. apply (l1_cntrl_num_correct 42). lia. Defined.

(** From 1000 on the leading digits are lost. *)
Example l1_cntrl_num_1000 : l1_cntrl_num (l1_name 1234) = Ok 234.
Proof. by vm_compute. Qed.
End CacheExamples.
