(* ===== verification/NodeSetOps.v ===== *)
(** * Sets of nodes implement finite sets

    Words and loops ([NodeSetSpec]) and the member functions ([NodeSetOps]). *)

From S2P Require Import Prelude.
From S2P Require Import NodeSet.

(** * Sets of nodes: the words implement finite sets

    Bits of a 64-bit word, the loops of the class over its words, and the
    refinement of finite sets of node numbers below the set's size. *)
Module NodeSetSpec.
Import NodeSet.

#[local] Ltac Zify.zify_post_hook ::= Z.to_euclidean_division_equations.

(** ** Bits of a long *)
Definition is_i64 (w : Z) : Prop := - 2 ^ 63 <= w < 2 ^ 63.

Lemma testbit_mod64 x j : 0 <= j < 64 -> Z.testbit (x mod 2 ^ 64) j = Z.testbit x j.
Proof. intros H. apply Z.mod_pow2_bits_low. lia. Qed.

Lemma i64_mod x : i64 x mod 2 ^ 64 = x mod 2 ^ 64.
Proof.
  unfold i64. rewrite Zminus_mod_idemp_l. f_equal. lia.
Qed.

Lemma testbit_i64 x j : 0 <= j < 64 -> Z.testbit (i64 x) j = Z.testbit x j.
Proof. intros H. rewrite <- testbit_mod64, i64_mod by done. by apply testbit_mod64. Qed.

Lemma set_testbit_u64 x j : 0 <= j < 64 -> Z.testbit (u64 x) j = Z.testbit x j.
Proof. apply testbit_mod64. Qed.

Lemma i64_range x : is_i64 (i64 x).
Proof. unfold is_i64, i64. pose proof (Z.mod_pos_bound (x + 2 ^ 63) (2 ^ 64)). lia. Qed.

Lemma testbit_sign w j : is_i64 w -> 63 <= j -> Z.testbit w j = (w <? 0).
Proof.
  intros Hw Hj. assert (2 ^ 63 <= 2 ^ j) by (apply Z.pow_le_mono_r; lia).
  destruct (w <? 0) eqn:E; bool_to_Z; unfold is_i64 in Hw.
  - rewrite Z.testbit_odd, Z.shiftr_div_pow2 by lia.
    replace (w / 2 ^ j) with (-1); [done|]. apply Z.div_unique with (r := w + 2 ^ j); lia.
  - rewrite Z.testbit_odd, Z.shiftr_div_pow2 by lia. by rewrite Z.div_small by lia.
Qed.

Lemma i64_bits_inj w v :
  is_i64 w -> is_i64 v -> (forall j, 0 <= j < 64 -> Z.testbit w j = Z.testbit v j) -> w = v.
Proof.
  intros Hw Hv H. apply Z.bits_inj'. intros j Hj. destruct (decide (j < 64)); [apply H; lia|].
  rewrite !testbit_sign by (done || lia). rewrite <- (testbit_sign w 63), <- (testbit_sign v 63)
    by (done || lia). apply H. lia.
Qed.

(** The mask of bit [j], as the loops shift it. *)
Lemma mask_shift j : i64 (Z.shiftl (i64 (2 ^ j)) 1) = i64 (2 ^ j * 2).
Proof.
  rewrite Z.shiftl_mul_pow2 by lia. change (2 ^ 1) with 2. unfold i64 at 1 3.
  f_equal. rewrite <- (Zplus_mod_idemp_l (2 ^ j * 2)).
  rewrite <- (Zplus_mod_idemp_l (i64 (2 ^ j) * 2)). do 2 f_equal.
  rewrite <- Zmult_mod_idemp_l, i64_mod. by rewrite Zmult_mod_idemp_l.
Qed.

Lemma mask_test w j :
  is_i64 w -> 0 <= j < 64 -> (Z.land w (i64 (2 ^ j)) =? 0) = negb (Z.testbit w j).
Proof.
  intros Hw Hj. destruct (Z.testbit w j) eqn:E; cbn.
  - apply Z.eqb_neq. intros H. apply (f_equal (fun x => Z.testbit x j)) in H.
    rewrite Z.land_spec, testbit_i64, E, Z.pow2_bits_true, Z.bits_0 in H by lia. done.
  - apply Z.eqb_eq. apply Z.bits_inj'. intros k Hk. rewrite Z.land_spec, Z.bits_0.
    destruct (decide (k < 64)) as [Hlt|Hge].
    + rewrite testbit_i64 by lia. destruct (decide (k = j)) as [->|Hne]; [by rewrite E|].
      rewrite Z.pow2_bits_false by lia. apply andb_false_r.
    + rewrite !testbit_sign by (apply i64_range || done || lia).
      destruct (decide (j = 63)) as [->|Hj63].
      * rewrite <- (testbit_sign w 63), E by (done || lia). done.
      * replace (i64 (2 ^ j)) with (2 ^ j); [|].
        { replace (2 ^ j <? 0) with false; [by rewrite andb_false_r|].
          symmetry. apply Z.ltb_ge. pose proof (Z.pow_nonneg 2 j). lia. }
        assert (2 ^ j < 2 ^ 63) by (apply Z.pow_lt_mono_r; lia).
        pose proof (Z.pow_nonneg 2 j). unfold i64. rewrite Z.mod_small; lia.
Qed.

(** ** The loops on one word *)
Definition sum (l : list Z) : Z := foldr Z.add 0 l.

Lemma sum_app l1 l2 : sum (l1 ++ l2) = sum l1 + sum l2.
Proof. induction l1 as [|x l1 IH]; cbn; [done|]. unfold sum in *. lia. Qed.

(** The number of indices below [n] with [f]. *)
Definition number (f : Z -> bool) (n : Z) : Z := sum ((fun k => Z.b2z (f k)) <$> upto n).

Lemma number_add f a b :
  0 <= a -> 0 <= b -> number f (a + b) = number f a + number (fun k => f (a + k)) b.
Proof. intros Ha Hb. unfold number. by rewrite upto_app, sum_app. Qed.

Lemma number_1 f : number f 1 = Z.b2z (f 0).
Proof. unfold number. change (upto 1) with [0]. cbn. lia. Qed.

Lemma number_ext f g n : (forall k, 0 <= k < n -> f k = g k) -> number f n = number g n.
Proof. intros H. unfold number. f_equal. apply fmap_upto_ext. intros i Hi. by rewrite H. Qed.

Lemma count_bits_spec w : is_i64 w -> forall (n : nat) (j c : Z),
  0 <= j -> j + Z.of_nat n <= 64 ->
  count_bits n (i64 (2 ^ j)) w c = c + number (fun k => Z.testbit w (j + k)) (Z.of_nat n).
Proof.
  intros Hw. induction n as [|n IH]; intros j c Hj Hn; cbn [count_bits]; [by rewrite Z.add_0_r|].
  rewrite mask_shift, mask_test, negb_involutive by (done || lia).
  replace (2 ^ j * 2) with (2 ^ (j + 1)) by (rewrite Z.pow_add_r; lia).
  rewrite IH by lia. replace (Z.of_nat (S n)) with (1 + Z.of_nat n) by lia.
  rewrite number_add, number_1, Z.add_0_r by lia.
  rewrite (number_ext (fun k => Z.testbit w (j + 1 + k)) (fun k => Z.testbit w (j + (1 + k))))
    by (intros; f_equal; lia).
  destruct (Z.testbit w j); cbn; lia.
Qed.

Lemma low_bits_set_spec w : is_i64 w -> forall (n : nat) (j : Z),
  0 <= j -> j + Z.of_nat n <= 64 ->
  low_bits_set n (i64 (2 ^ j)) w = true <->
  forall k, j <= k < j + Z.of_nat n -> Z.testbit w k = true.
Proof.
  intros Hw. induction n as [|n IH]; intros j Hj Hn; cbn [low_bits_set].
  - split; [|done]. intros _ k Hk. lia.
  - rewrite Z.land_comm, mask_test, mask_shift by (done || lia).
    replace (2 ^ j * 2) with (2 ^ (j + 1)) by (rewrite Z.pow_add_r; lia).
    destruct (Z.testbit w j) eqn:E; cbn.
    + rewrite IH by lia. split; intros H k Hk; [|apply H; lia].
      destruct (decide (k = j)) as [->|?]; [done|apply H; lia].
    + split; [done|]. intros H. rewrite H in E by lia. done.
Qed.

Lemma least_bit_spec (n : nat) : forall (j x : Z),
  match least_bit n j x with
  | Some k => j <= k < j + Z.of_nat n /\ Z.testbit x (k - j) = true /\
              forall i, 0 <= i < k - j -> Z.testbit x i = false
  | None => forall i, 0 <= i < Z.of_nat n -> Z.testbit x i = false
  end.
Proof.
  induction n as [|n IH]; intros j x; cbn [least_bit]; [lia|].
  destruct (Z.testbit x 0) eqn:E.
  - rewrite Z.sub_diag. split; [lia|]. split; [done|]. lia.
  - specialize (IH (j + 1) (Z.shiftr x 1)).
    destruct (least_bit n (j + 1) (Z.shiftr x 1)) as [k|].
    + destruct IH as (Hk & Hb & Hl). rewrite Z.shiftr_spec in Hb by lia.
      replace (k - (j + 1) + 1) with (k - j) in Hb by lia. split; [lia|]. split; [done|].
      intros i Hi. destruct (decide (i = 0)) as [->|?]; [done|].
      specialize (Hl (i - 1) ltac:(lia)). rewrite Z.shiftr_spec in Hl by lia.
      by replace (i - 1 + 1) with i in Hl by lia.
    + intros i Hi. destruct (decide (i = 0)) as [->|?]; [done|].
      specialize (IH (i - 1) ltac:(lia)). rewrite Z.shiftr_spec in IH by lia.
      by replace (i - 1 + 1) with i in IH by lia.
Qed.

Lemma shiftr_ones m : 0 < m -> Z.shiftr (Z.ones m) 1 = Z.ones (m - 1).
Proof.
  intros Hm. apply Z.bits_inj'. intros j Hj. rewrite Z.shiftr_spec by lia.
  rewrite !Z.testbit_ones by lia. f_equal; [|]; apply eq_bool_prop_intro; rewrite !Is_true_true;
    rewrite ?Z.leb_le, ?Z.ltb_lt; lia.
Qed.

Lemma clear_high_spec (n : nat) : forall m w j,
  Z.of_nat n <= m -> 0 <= j ->
  Z.testbit (clear_high n (Z.ones m) w) j =
    Z.testbit w j && (bool_decide (n = O) || (j <? m - Z.of_nat n + 1)).
Proof.
  induction n as [|n IH]; intros m w j Hn Hj; cbn [clear_high].
  - by rewrite bool_decide_true, andb_true_r.
  - rewrite shiftr_ones, IH, Z.land_spec, Z.testbit_ones by lia.
    rewrite <- andb_assoc. f_equal. rewrite (bool_decide_false (S n = O)) by done. cbn [orb].
    apply eq_bool_prop_intro. rewrite !Is_true_true, !andb_true_iff, orb_true_iff,
      bool_decide_eq_true, Z.leb_le, !Z.ltb_lt. lia.
Qed.

(** ** Bits of a set *)
Definition bit (s : t) (i : Z) : bool :=
  match s.(m_p_nArray) with
  | Some l => match l !! Z.to_nat (i / 64) with
              | Some w => Z.testbit w (i mod 64)
              | None => false
              end
  | None => false
  end.

(** An array of the right length; and no bit above the size. *)
Record shape (s : t) : Prop := {
  wf_size : 0 < s.(m_nSize) <= 2 ^ 31 - 64;
  wf_len : s.(m_nArrayLen) = (s.(m_nSize) + 63) / 64;
  wf_array : exists l, s.(m_p_nArray) = Some l /\
    Z.of_nat (length l) = s.(m_nArrayLen) /\ Forall is_i64 l
}.

Record wf (s : t) : Prop := {
  wf_shape : shape s;
  wf_excess : forall i, s.(m_nSize) <= i -> bit s i = false
}.

Definition members (s : t) : gset Z :=
  list_to_set (filter (fun i => bit s i = true) (upto s.(m_nSize))).

Lemma elem_members s i :
  i ∈ members s <-> 0 <= i < s.(m_nSize) /\ bit s i = true.
Proof.
  unfold members. rewrite elem_of_list_to_set, list_elem_of_filter, elem_of_upto. tauto.
Qed.

Lemma elem_members_wf s i : wf s -> 0 <= i -> i ∈ members s <-> bit s i = true.
Proof.
  intros W Hi. rewrite elem_members. split; [tauto|]. intros H. split; [|done].
  destruct (decide (i < s.(m_nSize))); [lia|]. rewrite (wf_excess s W) in H by lia. done.
Qed.

(** A word with the bits of a bitwise operation is a [long]. *)
Lemma i64_of_bits x : (forall j, 64 <= j -> Z.testbit x j = Z.testbit x 63) -> is_i64 x.
Proof.
  intros H. replace x with (i64 x); [apply i64_range|].
  apply Z.bits_inj'. intros j Hj. destruct (decide (j < 64)); [apply testbit_i64; lia|].
  rewrite (H j), <- (testbit_i64 x 63) by lia.
  rewrite !testbit_sign by (apply i64_range || lia). done.
Qed.

Class BitOp (op : Z -> Z -> Z) (on : bool -> bool -> bool) : Prop := {
  bitop_spec : forall w v j, 0 <= j ->
    Z.testbit (op w v) j = on (Z.testbit w j) (Z.testbit v j);
  bitop_false : on false false = false
}.

#[export] Instance lor_op : BitOp Z.lor orb.
Proof. split; [|done]. intros. apply Z.lor_spec. Qed.
#[export] Instance land_op : BitOp Z.land andb.
Proof. split; [|done]. intros. apply Z.land_spec. Qed.
#[export] Instance diff_op : BitOp (fun w v => Z.land w (Z.lnot v)) (fun a b => a && negb b).
Proof. split; [|done]. intros. by rewrite Z.land_spec, Z.lnot_spec. Qed.

Lemma bitop_i64 op on `{!BitOp op on} w v : is_i64 w -> is_i64 v -> is_i64 (op w v).
Proof.
  intros Hw Hv. apply i64_of_bits. intros j Hj. rewrite !bitop_spec by lia.
  by rewrite !testbit_sign by (done || lia).
Qed.

(** ** The loops over the words *)
Definition with_words (s : t) (l : list Z) : t := s <| m_p_nArray := Some l |>.

Lemma loop_words_from (F : nat -> Z -> Z) body s n :
  (forall i l w, (i < n)%nat -> length l = n -> l !! i = Some w ->
     body (Z.of_nat i) (with_words s l) = Ok (with_words s (<[i := F i w]> l))) ->
  forall suf pre, (length pre + length suf = n)%nat ->
  loop body (Z.of_nat <$> seq (length pre) (length suf)) (with_words s (pre ++ suf)) =
    Ok (with_words s (pre ++ imap (fun j => F (length pre + j)%nat) suf)).
Proof.
  intros Hb. induction suf as [|w suf IH]; intros pre Hn; [done|].
  cbn [length seq fmap list_fmap loop]. cbn [length] in Hn.
  rewrite (Hb (length pre) (pre ++ w :: suf) w); [|lia|rewrite length_app; cbn; lia|
    rewrite lookup_app_r by lia; by rewrite Nat.sub_diag].
  rewrite bind_Ok_run.
  replace (<[length pre := F (length pre) w]> (pre ++ w :: suf))
    with ((pre ++ [F (length pre) w]) ++ suf)
    by (rewrite insert_app_r_alt by lia; rewrite Nat.sub_diag; by rewrite <- app_assoc).
  specialize (IH (pre ++ [F (length pre) w])). rewrite length_app in IH. cbn [length] in IH.
  rewrite Nat.add_1_r in IH. rewrite IH by lia. rewrite <- app_assoc. rewrite imap_cons, Nat.add_0_r.
  cbn [app]. do 4 f_equal. apply imap_ext. intros i x _. cbn. f_equal. lia.
Qed.

Lemma loop_words (F : nat -> Z -> Z) body s l :
  s.(m_p_nArray) = Some l ->
  (forall i l' w, (i < length l)%nat -> length l' = length l -> l' !! i = Some w ->
     body (Z.of_nat i) (with_words s l') = Ok (with_words s (<[i := F i w]> l'))) ->
  loop body (upto (Z.of_nat (length l))) s = Ok (with_words s (imap F l)).
Proof.
  intros Hl Hb. pose proof (loop_words_from F body s (length l) Hb l [] eq_refl) as H.
  cbn in H. unfold upto. rewrite Nat2Z.id.
  replace (with_words s l) with s in H; [exact H|].
  destruct s as [a b c]. unfold with_words. cbn in *. by subst.
Qed.

Lemma all_words_run body b n :
  (forall i, 0 <= i < n -> body i = Ok (b i)) ->
  all_words body (upto n) = Ok (forallb b (upto n)).
Proof.
  intros H. assert (forall i, i ∈ upto n -> body i = Ok (b i)) as H'
    by (intros i Hi%elem_of_upto; auto).
  induction (upto n) as [|i l IH]; cbn [all_words forallb]; [done|].
  rewrite H' by by left. rewrite bind_Ok_run. destruct (b i); [|done].
  apply IH. intros j Hj. apply H'. by right.
Qed.

Lemma forallb_upto b n :
  forallb b (upto n) = true <-> forall i, 0 <= i < n -> b i = true.
Proof.
  rewrite forallb_forall. split.
  - intros H i Hi. apply H, list_elem_of_In, elem_of_upto. done.
  - intros H i Hi%list_elem_of_In%elem_of_upto. auto.
Qed.

Lemma word_run s l i : s.(m_p_nArray) = Some l -> word s i = vget l i.
Proof. intros H. unfold word, array. by rewrite H. Qed.

Lemma set_word_run s l (i : nat) w : (i < length l)%nat ->
  set_word (with_words s l) (Z.of_nat i) w = Ok (with_words s (<[i := w]> l)).
Proof.
  intros H. unfold set_word, array, with_words. cbn. rewrite vset_in_range by lia.
  cbn. by rewrite Nat2Z.id.
Qed.

Lemma vget_nat {A} (l : list A) (i : nat) a : l !! i = Some a -> vget l (Z.of_nat i) = Ok a.
Proof. intros H. apply vget_Ok. rewrite Nat2Z.id. split; [lia|done]. Qed.

Lemma shape_bound s : shape s -> s.(m_nSize) <= 64 * s.(m_nArrayLen) < s.(m_nSize) + 64.
Proof. intros []. lia. Qed.

(** A loop whose round [i] replaces word [i] by [F i], seen bit by bit. *)
Lemma loop_bits (B : Z -> bool) (F : nat -> Z -> Z) body s l :
  shape s -> s.(m_p_nArray) = Some l ->
  (forall i l' w, (i < length l)%nat -> length l' = length l -> l' !! i = Some w ->
     body (Z.of_nat i) (with_words s l') = Ok (with_words s (<[i := F i w]> l'))) ->
  (forall i w, l !! i = Some w -> is_i64 (F i w) /\
     forall j, 0 <= j < 64 -> Z.testbit (F i w) j = B (64 * Z.of_nat i + j)) ->
  exists s', loop body (upto s.(m_nArrayLen)) s = Ok s' /\ shape s' /\
    s'.(m_nSize) = s.(m_nSize) /\ s'.(m_nArrayLen) = s.(m_nArrayLen) /\
    forall i, 0 <= i < 64 * s.(m_nArrayLen) -> bit s' i = B i.
Proof.
  intros [Hsz Hlen (l0 & Hl0 & Hll & Hr)] Hl Hbody HF. rewrite Hl in Hl0. injection Hl0 as <-.
  exists (with_words s (imap F l)). rewrite <- Hll.
  rewrite (loop_words F body s l Hl Hbody). split; [done|]. split_and!; try done.
  - split; [done|done|]. exists (imap F l). split; [done|].
    split; [by rewrite length_imap|]. apply Forall_lookup. intros i x Hx.
    rewrite list_lookup_imap in Hx. destruct (l !! i) as [w|] eqn:Hw; [|done].
    cbn in Hx. injection Hx as <-. by apply HF.
  - intros i Hi. unfold bit, with_words. cbn. rewrite list_lookup_imap.
    destruct (lookup_lt_is_Some_2 l (Z.to_nat (i / 64))) as [w Hw]; [lia|]. rewrite Hw. cbn.
    destruct (HF _ _ Hw) as [_ Hb]. rewrite Hb by lia. f_equal. lia.
Qed.

(** Beyond the array every bit is clear. *)
Lemma bit_beyond s i : shape s -> 64 * s.(m_nArrayLen) <= i -> bit s i = false.
Proof.
  intros [Hsz Hlen (l & Hl & Hll & Hr)] Hi. unfold bit. rewrite Hl.
  rewrite lookup_ge_None_2; [done|]. lia.
Qed.

Lemma shape_wf s (n : Z) :
  shape s -> s.(m_nSize) = n ->
  (forall i, 0 <= i < 64 * s.(m_nArrayLen) -> n <= i -> bit s i = false) -> wf s.
Proof.
  intros S Hn H. split; [done|]. intros i Hi. pose proof (wf_size s S).
  destruct (decide (i < 64 * s.(m_nArrayLen))); [apply H; lia|]. by apply bit_beyond; [|lia].
Qed.

Lemma bit_word s l (i : nat) w j :
  s.(m_p_nArray) = Some l -> l !! i = Some w -> 0 <= j < 64 ->
  bit s (64 * Z.of_nat i + j) = Z.testbit w j.
Proof.
  intros Hl Hw Hj. unfold bit. rewrite Hl.
  replace (Z.to_nat ((64 * Z.of_nat i + j) / 64)) with i by lia. rewrite Hw. f_equal. lia.
Qed.

Lemma shape_words s i : shape s -> 0 <= i < s.(m_nArrayLen) ->
  exists w, word s i = Ok w /\ is_i64 w /\
    forall j, 0 <= j < 64 -> bit s (64 * i + j) = Z.testbit w j.
Proof.
  intros [Hsz Hlen (l & Hl & Hll & Hr)] Hi.
  destruct (lookup_lt_is_Some_2 l (Z.to_nat i)) as [w Hw]; [lia|]. exists w.
  rewrite (word_run s l) by done. split; [apply vget_Ok; split; [lia|done]|].
  split; [by eapply Forall_lookup_1|]. intros j Hj.
  rewrite <- (bit_word s l (Z.to_nat i) w j) by done. f_equal. lia.
Qed.

(** Words of two sets of the same size combined into the words of [r]; [self]
    when [r] is the first of them. *)
Section combine_loop.
Context (op : Z -> Z -> Z) (on : bool -> bool -> bool) `{!BitOp op on}.

Lemma zip_wf s' s set : shape s' ->
  wf s -> wf set -> s.(m_nSize) = set.(m_nSize) -> s'.(m_nSize) = s.(m_nSize) ->
  (forall i, 0 <= i < 64 * s'.(m_nArrayLen) -> bit s' i = on (bit s i) (bit set i)) ->
  wf s' /\ forall i, 0 <= i -> bit s' i = on (bit s i) (bit set i).
Proof.
  intros S W1 W2 E1 E2 H.
  assert (forall i, s.(m_nSize) <= i -> on (bit s i) (bit set i) = false) as Hx.
  { intros i Hi. rewrite (wf_excess s W1), (wf_excess set W2) by lia. apply bitop_false. }
  assert (wf s') as W' by (apply (shape_wf s' s.(m_nSize)); [done..|]; intros i Hi Hn;
    rewrite H by done; by apply Hx).
  split; [done|]. intros i Hi. destruct (decide (i < s.(m_nSize))).
  - apply H. pose proof (shape_bound s' S). lia.
  - rewrite Hx by lia. apply (wf_excess s' W'). lia.
Qed.

Lemma zip_self s set : wf s -> wf set -> s.(m_nSize) = set.(m_nSize) ->
  exists s', loop (fun i s => w ← word s i; v ← word set i; set_word s i (op w v))
               (upto s.(m_nArrayLen)) s = Ok s' /\
    wf s' /\ s'.(m_nSize) = s.(m_nSize) /\
    forall i, 0 <= i -> bit s' i = on (bit s i) (bit set i).
Proof.
  intros W1 W2 E. pose proof (wf_shape s W1) as S1. pose proof (wf_shape set W2) as S2.
  destruct (wf_array s S1) as (l & Hl & Hll & Hr). destruct (wf_array set S2) as (v & Hv & Hvl & Hrv).
  assert (length v = length l) as Hlv by (pose proof (wf_len s S1); pose proof (wf_len set S2); lia).
  destruct (loop_bits (fun i => on (bit s i) (bit set i)) (fun i w => op w (v !!! i))
    (fun i s => w ← word s i; x ← word set i; set_word s i (op w x)) s l)
    as (s' & Hrun & S' & Hsz & Hle & Hb); [done|done|..].
  - intros i l' w Hi Hl' Hw. destruct (lookup_lt_is_Some_2 v i ltac:(lia)) as [x Hx].
    rewrite (word_run (with_words s l') l') by done. rewrite (vget_nat l' i w) by done.
    rewrite bind_Ok_run, (word_run set v), (vget_nat v i x), bind_Ok_run by done.
    rewrite set_word_run by lia. by rewrite (list_lookup_total_correct _ _ _ Hx).
  - intros i w Hw. pose proof (lookup_lt_Some _ _ _ Hw).
    destruct (lookup_lt_is_Some_2 v i ltac:(lia)) as [x Hx].
    rewrite (list_lookup_total_correct _ _ _ Hx). split.
    + apply (bitop_i64 op on);
        [exact (Forall_lookup_1 _ _ _ _ Hr Hw)|exact (Forall_lookup_1 _ _ _ _ Hrv Hx)].
    + intros j Hj. rewrite bitop_spec by lia. by rewrite (bit_word s l i w), (bit_word set v i x).
  - exists s'. rewrite <- Hle in Hb. destruct (zip_wf s' s set S' W1 W2 E Hsz Hb). eauto.
Qed.

Lemma zip_into r s set : shape r -> wf s -> wf set -> s.(m_nSize) = set.(m_nSize) ->
  r.(m_nSize) = s.(m_nSize) ->
  exists s', loop (fun i r => w ← word s i; v ← word set i; set_word r i (op w v))
               (upto s.(m_nArrayLen)) r = Ok s' /\
    wf s' /\ s'.(m_nSize) = s.(m_nSize) /\
    forall i, 0 <= i -> bit s' i = on (bit s i) (bit set i).
Proof.
  intros S0 W1 W2 E E0. pose proof (wf_shape s W1) as S1. pose proof (wf_shape set W2) as S2.
  destruct (wf_array r S0) as (u & Hu & Hul & Hru).
  destruct (wf_array s S1) as (l & Hl & Hll & Hr). destruct (wf_array set S2) as (v & Hv & Hvl & Hrv).
  assert (r.(m_nArrayLen) = s.(m_nArrayLen)) as Elen
    by (rewrite (wf_len r S0), (wf_len s S1); congruence).
  assert (length v = length u /\ length l = length u) as [Hlv Hlu]
    by (pose proof (wf_len s S1); pose proof (wf_len set S2); lia).
  destruct (loop_bits (fun i => on (bit s i) (bit set i)) (fun i _ => op (l !!! i) (v !!! i))
    (fun i r => w ← word s i; x ← word set i; set_word r i (op w x)) r u)
    as (s' & Hrun & S' & Hsz & Hle & Hb); [done|done|..].
  - intros i l' w Hi Hl' Hw. destruct (lookup_lt_is_Some_2 v i ltac:(lia)) as [x Hx].
    destruct (lookup_lt_is_Some_2 l i ltac:(lia)) as [y Hy].
    rewrite (word_run s l), (vget_nat l i y), bind_Ok_run by done.
    rewrite (word_run set v), (vget_nat v i x), bind_Ok_run by done.
    rewrite set_word_run by lia.
    by rewrite (list_lookup_total_correct _ _ _ Hx), (list_lookup_total_correct _ _ _ Hy).
  - intros i w Hw. pose proof (lookup_lt_Some _ _ _ Hw).
    destruct (lookup_lt_is_Some_2 v i ltac:(lia)) as [x Hx].
    destruct (lookup_lt_is_Some_2 l i ltac:(lia)) as [y Hy].
    rewrite (list_lookup_total_correct _ _ _ Hx), (list_lookup_total_correct _ _ _ Hy). split.
    + apply (bitop_i64 op on);
        [exact (Forall_lookup_1 _ _ _ _ Hr Hy)|exact (Forall_lookup_1 _ _ _ _ Hrv Hx)].
    + intros j Hj. rewrite bitop_spec by lia. by rewrite (bit_word s l i y), (bit_word set v i x).
  - exists s'. rewrite <- Elen. rewrite <- Hle in Hb.
    destruct (zip_wf s' s set S' W1 W2 E ltac:(congruence) Hb) as [W' Hb'].
    split; [done|]. split; [done|]. split; [congruence|done].
Qed.
End combine_loop.

(** ** Counting loops *)
Lemma loop_upto {A} (body : Z -> A -> result A) n (I : Z -> A -> Prop) a :
  0 <= n -> I 0 a ->
  (forall k a, 0 <= k < n -> I k a -> exists a', body k a = Ok a' /\ I (k + 1) a') ->
  exists a', loop body (upto n) a = Ok a' /\ I n a'.
Proof.
  intros Hn H0 Hstep.
  assert (forall (c s : nat) a, Z.of_nat s + Z.of_nat c = n -> I (Z.of_nat s) a ->
    exists a', loop body (Z.of_nat <$> seq s c) a = Ok a' /\ I n a') as H.
  { intros c. induction c as [|c IH]; intros s x Hsc Hx; cbn.
    - exists x. split; [done|]. by replace n with (Z.of_nat s) by lia.
    - destruct (Hstep (Z.of_nat s) x ltac:(lia) Hx) as (x' & -> & Hx'). cbn.
      apply IH; [lia|]. by replace (Z.of_nat (S s)) with (Z.of_nat s + 1) by lia. }
  unfold upto. apply H; [lia|done].
Qed.

End NodeSetSpec.

(** * Sets of nodes: every member function, and the refinement *)
Module NodeSetOps.
Import NodeSet NodeSetSpec.

#[local] Ltac Zify.zify_post_hook ::= Z.to_euclidean_division_equations.

(** ** Construction *)
Lemma clear_shape s : shape s ->
  exists s', clear s = Ok s' /\ wf s' /\ s'.(m_nSize) = s.(m_nSize) /\
    s'.(m_nArrayLen) = s.(m_nArrayLen) /\ forall i, 0 <= i -> bit s' i = false.
Proof.
  intros S. destruct (wf_array s S) as (l & Hl & Hll & Hr). unfold clear.
  destruct (loop_bits (fun _ => false) (fun _ _ => 0) (fun i s => set_word s i 0) s l)
    as (s' & Hrun & S' & Hsz & Hle & Hb); [done|done|..].
  - intros i l' w Hi Hl' Hw. apply set_word_run. lia.
  - intros i w Hw. split; [unfold is_i64; lia|]. intros j Hj. apply Z.bits_0.
  - exists s'. split; [done|]. rewrite <- Hle in Hb. split_and!; try done.
    + apply (shape_wf s' s.(m_nSize)); auto.
    + intros i Hi. destruct (decide (i < 64 * s'.(m_nArrayLen))); [apply Hb; lia|].
      apply bit_beyond; [done|lia].
Qed.

Lemma setSize_spec s n : 0 < n <= 2 ^ 31 - 64 ->
  exists s', setSize s n = Ok s' /\ wf s' /\ s'.(m_nSize) = n /\
    forall i, 0 <= i -> bit s' i = false.
Proof.
  intros Hn. unfold setSize, LONG_BITS.
  rewrite i32_small by (unfold is_i32; lia).
  replace (Z.quot (n + 64 - 1) 64) with ((n + 63) / 64) by lia.
  destruct (clear_shape (mk n ((n + 63) / 64)
    (Some (replicate (Z.to_nat ((n + 63) / 64)) 0)))) as (s' & Hrun & W & Hsz & _ & Hb).
  - split; cbn; [lia|done|]. eexists. split; [done|]. rewrite length_replicate.
    split; [lia|]. apply Forall_replicate. unfold is_i64. lia.
  - exists s'. auto.
Qed.

Lemma set_make_spec n : 0 < n <= 2 ^ 31 - 64 ->
  exists s, make n = Ok s /\ wf s /\ s.(m_nSize) = n /\ forall i, 0 <= i -> bit s i = false.
Proof.
  intros Hn. unfold make. replace (0 <? n) with true by (symmetry; apply Z.ltb_lt; lia).
  by apply setSize_spec.
Qed.

Lemma copy_words_spec d s : wf d -> wf s -> d.(m_nSize) = s.(m_nSize) ->
  exists s', copy_words d s = Ok s' /\ wf s' /\ s'.(m_nSize) = s.(m_nSize) /\
    forall i, 0 <= i -> bit s' i = bit s i.
Proof.
  intros W1 W2 E. pose proof (wf_shape d W1) as S1. pose proof (wf_shape s W2) as S2.
  destruct (wf_array d S1) as (u & Hu & Hul & Hru). destruct (wf_array s S2) as (l & Hl & Hll & Hr).
  assert (length l = length u) as Hlu by (pose proof (wf_len s S2); pose proof (wf_len d S1); lia).
  unfold copy_words.
  destruct (loop_bits (bit s) (fun i _ => l !!! i) (fun i d => w ← word s i; set_word d i w) d u)
    as (s' & Hrun & S' & Hsz & Hle & Hb); [done|done|..].
  - intros i l' w Hi Hl' Hw. destruct (lookup_lt_is_Some_2 l i ltac:(lia)) as [y Hy].
    rewrite (word_run s l), (vget_nat l i y), bind_Ok_run by done.
    rewrite set_word_run by lia. by rewrite (list_lookup_total_correct _ _ _ Hy).
  - intros i w Hw. pose proof (lookup_lt_Some _ _ _ Hw).
    destruct (lookup_lt_is_Some_2 l i ltac:(lia)) as [y Hy].
    rewrite (list_lookup_total_correct _ _ _ Hy).
    split; [exact (Forall_lookup_1 _ _ _ _ Hr Hy)|].
    intros j Hj. by rewrite (bit_word s l i y).
  - exists s'. split; [done|]. rewrite <- Hle in Hb.
    assert (wf s') as W'.
    { apply (shape_wf s' s.(m_nSize)); [done|congruence|]. intros i Hi Hn.
      rewrite Hb by done. by apply (wf_excess s W2). }
    split; [done|]. split; [congruence|]. intros i Hi.
    destruct (decide (i < s.(m_nSize))); [apply Hb; pose proof (shape_bound s' S'); lia|].
    rewrite (wf_excess s W2), (wf_excess s' W') by lia. done.
Qed.

Lemma assign_spec s0 s : wf s ->
  exists s', assign s0 s = Ok s' /\ wf s' /\ s'.(m_nSize) = s.(m_nSize) /\
    forall i, 0 <= i -> bit s' i = bit s i.
Proof.
  intros W. unfold assign.
  destruct (setSize_spec s0 s.(m_nSize) (wf_size s (wf_shape s W))) as (d & -> & Wd & Hd & _).
  rewrite bind_Ok_run. by apply copy_words_spec.
Qed.

(** ** One member *)
Definition in_set (s : t) (i : Z) : Prop := 0 <= i < s.(m_nSize).

Lemma index_shift i : 0 <= i -> Z.shiftr i INDEX_SHIFT = i / 64.
Proof. intros H. change INDEX_SHIFT with 6. by rewrite Z.shiftr_div_pow2. Qed.

Lemma index_mask i : 0 <= i -> Z.land i INDEX_MASK = i mod 64.
Proof. intros H. change INDEX_MASK with (Z.ones 6). by rewrite Z.land_ones. Qed.

(** Replacing the word of member [i]. *)
Lemma update_word s i (g : Z -> Z) (b : bool) : wf s -> in_set s i ->
  (forall w, is_i64 w -> is_i64 (g w) /\ forall j, 0 <= j < 64 ->
     Z.testbit (g w) j = if j =? i mod 64 then b else Z.testbit w j) ->
  exists s', (w ← word s (i / 64); set_word s (i / 64) (g w)) = Ok s' /\
    wf s' /\ s'.(m_nSize) = s.(m_nSize) /\
    forall k, 0 <= k -> bit s' k = if k =? i then b else bit s k.
Proof.
  intros W Hi Hg. pose proof (wf_shape s W) as S. unfold in_set in Hi.
  pose proof (shape_bound s S).
  destruct (wf_array s S) as (l & Hl & Hll & Hr).
  destruct (lookup_lt_is_Some_2 l (Z.to_nat (i / 64))) as [w Hw]; [lia|].
  pose proof (Forall_lookup_1 _ _ _ _ Hr Hw) as Hrw. destruct (Hg w Hrw) as [Hgr Hgb].
  exists (with_words s (<[Z.to_nat (i / 64) := g w]> l)).
  rewrite (word_run s l) by done.
  rewrite (proj2 (vget_Ok l (i / 64) w)), bind_Ok_run by (split; [lia|done]).
  assert (s = with_words s l) as Es by (destruct s; unfold with_words; cbn in *; by subst).
  assert (forall k, 0 <= k -> bit (with_words s (<[Z.to_nat (i / 64) := g w]> l)) k =
    if k =? i then b else bit s k) as Hbit.
  { intros k Hk. unfold bit, with_words. cbn. rewrite Hl.
    destruct (decide (k / 64 = i / 64)) as [Heq|Hne].
    - rewrite Heq, list_lookup_insert_eq, Hw by lia. rewrite Hgb by lia.
      destruct (k =? i) eqn:E1, (k mod 64 =? i mod 64) eqn:E2; bool_to_Z; (done || lia).
    - rewrite list_lookup_insert_ne by lia.
      destruct (k =? i) eqn:E1; bool_to_Z; [subst; done|done]. }
  split.
  { rewrite Es at 1. replace (i / 64) with (Z.of_nat (Z.to_nat (i / 64))) at 1 by lia.
    rewrite set_word_run by lia. done. }
  split; [|done]. split.
  - split; [apply S|apply S|]. eexists. split; [done|]. rewrite length_insert.
    split; [done|]. by apply Forall_insert.
  - intros k Hk. rewrite Hbit by (cbn in Hk; lia). cbn in Hk.
    destruct (k =? i) eqn:E; bool_to_Z; [lia|]. by apply (wf_excess s W).
Qed.

Lemma add_spec s i : wf s -> in_set s i ->
  exists s', add s i = Ok s' /\ wf s' /\ s'.(m_nSize) = s.(m_nSize) /\
    forall k, 0 <= k -> bit s' k = if k =? i then true else bit s k.
Proof.
  intros W Hi. unfold add. unfold in_set in Hi. rewrite index_shift, index_mask by lia.
  apply (update_word s i (fun w => i64 (Z.lor (u64 w) (Z.shiftl 1 (i mod 64)))) true); [done..|].
  intros w Hw. split; [apply i64_range|]. intros j Hj.
  rewrite testbit_i64, Z.lor_spec, set_testbit_u64, Z.shiftl_1_l by done.
  rewrite Z.pow2_bits_eqb by lia. rewrite Z.eqb_sym.
  destruct (j =? i mod 64); [apply orb_true_r|apply orb_false_r].
Qed.

Lemma remove_spec s i : wf s -> in_set s i ->
  exists s', remove s i = Ok s' /\ wf s' /\ s'.(m_nSize) = s.(m_nSize) /\
    forall k, 0 <= k -> bit s' k = if k =? i then false else bit s k.
Proof.
  intros W Hi. unfold remove. unfold in_set in Hi. rewrite index_shift, index_mask by lia.
  apply (update_word s i
    (fun w => i64 (Z.land (u64 w) (u64 (Z.lnot (Z.shiftl 1 (i mod 64)))))) false); [done..|].
  intros w Hw. split; [apply i64_range|]. intros j Hj.
  rewrite testbit_i64, Z.land_spec, !set_testbit_u64, Z.shiftl_1_l, Z.lnot_spec by lia.
  rewrite Z.pow2_bits_eqb by lia. rewrite Z.eqb_sym.
  destruct (j =? i mod 64); [apply andb_false_r|apply andb_true_r].
Qed.

Lemma isElement_spec s i : wf s -> in_set s i -> isElement s i = Ok (bit s i).
Proof.
  intros W Hi. unfold in_set in Hi. pose proof (wf_shape s W) as S.
  pose proof (shape_bound s S). unfold isElement. rewrite index_shift, index_mask by lia.
  destruct (shape_words s (i / 64) S) as (w & -> & Hw & Hb); [lia|]. rewrite bind_Ok_run.
  f_equal. specialize (Hb (i mod 64) ltac:(lia)).
  replace (64 * (i / 64) + i mod 64) with i in Hb by lia. rewrite Hb, Z.shiftl_1_l.
  destruct (Z.testbit w (i mod 64)) eqn:E.
  - apply negb_true_iff, Z.eqb_neq. intros H0.
    apply (f_equal (fun x => Z.testbit x (i mod 64))) in H0.
    rewrite Z.land_spec, set_testbit_u64, E, Z.pow2_bits_true, Z.bits_0 in H0 by lia. done.
  - apply negb_false_iff, Z.eqb_eq, Z.bits_inj'. intros j Hj. rewrite Z.land_spec, Z.bits_0.
    destruct (decide (j = i mod 64)) as [->|Hne].
    + rewrite set_testbit_u64 by lia. by rewrite E.
    + rewrite Z.pow2_bits_false by lia. apply andb_false_r.
Qed.

(** ** Whole sets *)

(** [clearExcess] clears the bits from the size on. *)
Lemma clearExcess_spec s : shape s ->
  exists s', clearExcess s = Ok s' /\ wf s' /\ s'.(m_nSize) = s.(m_nSize) /\
    forall i, in_set s i -> bit s' i = bit s i.
Proof.
  intros S. pose proof (shape_bound s S) as Hb. pose proof (wf_size s S) as Hs.
  pose proof (wf_len s S) as Hlen. unfold clearExcess, LONG_BITS.
  rewrite index_mask by lia. rewrite Z.rem_mod_nonneg by lia.
  destruct (s.(m_nSize) mod 64 =? 0) eqn:E; cbn [negb]; bool_to_Z.
  { exists s. split; [done|]. split; [|done]. apply (shape_wf s s.(m_nSize)); [done..|].
    intros i Hi Hn. lia. }
  destruct (wf_array s S) as (l & Hl & Hll & Hr). set (k := s.(m_nArrayLen) - 1).
  destruct (lookup_lt_is_Some_2 l (Z.to_nat k)) as [w Hw]; [lia|].
  rewrite (word_run s l) by done.
  rewrite (proj2 (vget_Ok l k w)), bind_Ok_run by (split; [lia|done]).
  assert (s = with_words s l) as Es by (destruct s; unfold with_words; cbn in *; by subst).
  set (w' := clear_high _ _ w).
  assert (forall j, 0 <= j < 64 ->
    Z.testbit w' j = Z.testbit w j && (j <? s.(m_nSize) mod 64)) as Hw'.
  { intros j Hj. unfold w'. change (2 ^ 63 - 1) with (Z.ones 63).
    rewrite clear_high_spec by lia. rewrite bool_decide_false by lia. cbn [orb]. do 2 f_equal. lia. }
  exists (with_words s (<[Z.to_nat k := w']> l)).
  assert (forall i, 0 <= i < 64 * s.(m_nArrayLen) ->
    bit (with_words s (<[Z.to_nat k := w']> l)) i = bit s i && (i <? s.(m_nSize))) as Hbit.
  { intros i Hi. unfold bit, with_words. cbn. rewrite Hl.
    destruct (decide (i / 64 = k)) as [Heq|Hne].
    - rewrite Heq, list_lookup_insert_eq, Hw, Hw' by lia. f_equal.
      apply eq_bool_prop_intro. rewrite !Is_true_true, !Z.ltb_lt. lia.
    - rewrite list_lookup_insert_ne by lia.
      replace (i <? s.(m_nSize)) with true; [by rewrite andb_true_r|].
      symmetry. apply Z.ltb_lt. lia. }
  assert (shape (with_words s (<[Z.to_nat k := w']> l))) as S'.
  { split; [done|done|]. eexists. split; [done|]. rewrite length_insert. split; [done|].
    apply Forall_insert; [done|]. apply i64_of_bits. intros j Hj.
    rewrite (Hw' 63) by lia. unfold w'. change (2 ^ 63 - 1) with (Z.ones 63).
    rewrite clear_high_spec by lia. rewrite bool_decide_false by lia. cbn [orb].
    replace (j <? _) with false by (symmetry; apply Z.ltb_ge; lia).
    replace (63 <? _) with false by (symmetry; apply Z.ltb_ge; lia). by rewrite !andb_false_r. }
  split.
  { rewrite Es at 1. replace k with (Z.of_nat (Z.to_nat k)) at 1 by lia.
    by rewrite set_word_run by lia. }
  split; [|split; [done|]].
  - apply (shape_wf _ s.(m_nSize)); [done|done|]. intros i Hi Hn. cbn in Hi.
    rewrite Hbit by done. replace (i <? _) with false by (symmetry; apply Z.ltb_ge; lia).
    apply andb_false_r.
  - intros i Hi. unfold in_set in Hi. rewrite Hbit by lia.
    replace (i <? _) with true by (symmetry; apply Z.ltb_lt; lia). apply andb_true_r.
Qed.

Lemma broadcast_spec s : wf s ->
  exists s', broadcast s = Ok s' /\ wf s' /\ s'.(m_nSize) = s.(m_nSize) /\
    forall i, in_set s i -> bit s' i = true.
Proof.
  intros W. pose proof (wf_shape s W) as S. destruct (wf_array s S) as (l & Hl & Hll & Hr).
  unfold broadcast.
  destruct (loop_bits (fun _ => true) (fun _ _ => -1) (fun i s => set_word s i (-1)) s l)
    as (s1 & -> & S1 & Hsz & Hle & Hb); [done|done|..].
  - intros i l' w Hi Hl' Hw. apply set_word_run. lia.
  - intros i w Hw. split; [unfold is_i64; lia|]. intros j Hj. apply Z.bits_m1. lia.
  - rewrite bind_Ok_run. destruct (clearExcess_spec s1 S1) as (s' & -> & W' & Hsz' & Hb').
    exists s'. split; [done|]. split; [done|]. split; [congruence|].
    intros i Hi. unfold in_set in *. pose proof (shape_bound s S).
    rewrite Hb', Hb by lia. done.
Qed.

(** ** Counting *)
Lemma number_none n : number (fun _ => false) n = 0.
Proof. unfold number. induction (upto n) as [|x l IH]; [done|]. exact IH. Qed.

Lemma count_run s : wf s -> count s = Ok (number (bit s) s.(m_nSize)).
Proof.
  intros W. pose proof (wf_shape s W) as Sh. unfold count.
  assert (forall n : nat, Z.of_nat n <= s.(m_nArrayLen) -> forall k : nat, forall c,
    Z.of_nat k + Z.of_nat n <= s.(m_nArrayLen) ->
    loop (fun i c => w ← word s i; Ok (count_bits (Z.to_nat LONG_BITS) 1 w c))
      (Z.of_nat <$> seq k n) c =
    Ok (c + number (fun i => bit s (64 * Z.of_nat k + i)) (64 * Z.of_nat n))) as Hloop.
  { induction n as [|n IH]; intros Hn k c Hk; cbn [seq fmap list_fmap loop].
    { by rewrite Z.add_0_r. }
    destruct (shape_words s (Z.of_nat k) Sh) as (w & -> & Hw & Hb); [lia|].
    rewrite !bind_Ok_run, IH by lia. f_equal.
    change 1 with (i64 (2 ^ 0)) at 1. rewrite count_bits_spec by (done || (cbn; lia)).
    replace (64 * Z.of_nat (S n)) with (64 + 64 * Z.of_nat n) by lia.
    rewrite number_add, <- Z.add_assoc by lia. f_equal. f_equal; apply number_ext.
    - intros j Hj. cbn in Hj. by rewrite Hb by lia.
    - intros j Hj. f_equal. lia. }
  pose proof (shape_bound s Sh) as Hbd. pose proof (wf_size s Sh). unfold upto.
  rewrite (Hloop (Z.to_nat s.(m_nArrayLen)) ltac:(lia) 0%nat 0 ltac:(lia)). f_equal.
  rewrite Z2Nat.id by lia.
  replace (64 * s.(m_nArrayLen))
    with (s.(m_nSize) + (64 * s.(m_nArrayLen) - s.(m_nSize))) by lia.
  rewrite number_add by lia.
  rewrite (number_ext (fun k => bit s (64 * Z.of_nat 0 + (s.(m_nSize) + k))) (fun _ => false)).
  - rewrite (number_ext _ (bit s)) by (intros; f_equal; lia).
    rewrite number_none. lia.
  - intros k Hk. apply (wf_excess s W). lia.
Qed.

Lemma number_filter (P : Z -> bool) l :
  sum ((fun k => Z.b2z (P k)) <$> l) = Z.of_nat (length (filter (fun k => P k = true) l)).
Proof.
  induction l as [|x l IH]; [done|]. rewrite filter_cons. cbn. unfold sum in IH.
  rewrite IH. case_decide as E; rewrite ?E; cbn; [lia|]. destruct (P x); [done|]. cbn. lia.
Qed.

Lemma count_spec s : wf s -> count s = Ok (Z.of_nat (size (members s))).
Proof.
  intros W. rewrite count_run by done. f_equal. unfold number, members.
  rewrite number_filter, size_list_to_set; [done|]. apply NoDup_filter.
  unfold upto. apply NoDup_fmap; [apply _|apply NoDup_seq].
Qed.

(** ** Tests *)
Lemma all_words_bits body n (Q : Z -> Prop) :
  (forall i, 0 <= i < n -> exists b, body i = Ok b /\
     (b = true <-> forall j, 0 <= j < 64 -> Q (64 * i + j))) ->
  exists r, all_words body (upto n) = Ok r /\
    (r = true <-> forall k, 0 <= k < 64 * n -> Q k).
Proof.
  intros H.
  set (b := fun i => match body i with Ok x => x | Err _ => false end).
  assert (forall i, 0 <= i < n -> body i = Ok (b i)) as Hb.
  { intros i Hi. destruct (H i Hi) as (x & Hx & _). unfold b. by rewrite Hx. }
  exists (forallb b (upto n)). split; [by apply all_words_run|].
  rewrite forallb_upto. split.
  - intros Hall k Hk. destruct (H (k / 64) ltac:(lia)) as (x & Hx & Hiff).
    specialize (Hall (k / 64) ltac:(lia)). rewrite Hb in Hx by lia. injection Hx as <-.
    rewrite Hiff in Hall. specialize (Hall (k mod 64) ltac:(lia)).
    by replace (64 * (k / 64) + k mod 64) with k in Hall by lia.
  - intros Hall i Hi. destruct (H i Hi) as (x & Hx & Hiff). rewrite Hb in Hx by lia.
    injection Hx as ->. apply Hiff. intros j Hj. apply Hall. lia.
Qed.

(** The same for a set whose bits above the size do not matter. *)
Lemma all_words_set s body (Q : Z -> Prop) : wf s ->
  (forall i, s.(m_nSize) <= i -> Q i) ->
  (forall i, 0 <= i < s.(m_nArrayLen) -> exists b, body i = Ok b /\
     (b = true <-> forall j, 0 <= j < 64 -> Q (64 * i + j))) ->
  exists r, all_words body (upto s.(m_nArrayLen)) = Ok r /\
    (r = true <-> forall k, in_set s k -> Q k).
Proof.
  intros W Hex H. destruct (all_words_bits body s.(m_nArrayLen) Q H) as (r & Hr & Hiff).
  exists r. split; [done|]. rewrite Hiff. unfold in_set.
  pose proof (shape_bound s (wf_shape s W)). split; intros Hall k Hk; [apply Hall; lia|].
  destruct (decide (k < s.(m_nSize))); [apply Hall; lia|apply Hex; lia].
Qed.

Lemma same_size_run s v site : s.(m_nSize) = v.(m_nSize) -> same_size s v site = Ok tt.
Proof. intros H. unfold same_size. by rewrite H, Z.eqb_refl. Qed.

Lemma same_len s v : wf s -> wf v -> s.(m_nSize) = v.(m_nSize) ->
  s.(m_nArrayLen) = v.(m_nArrayLen).
Proof.
  intros W1 W2 E. rewrite (wf_len s (wf_shape s W1)), (wf_len v (wf_shape v W2)). congruence.
Qed.

Lemma isEmpty_run s : wf s ->
  exists r, isEmpty s = Ok r /\ (r = true <-> forall k, in_set s k -> bit s k = false).
Proof.
  intros W. unfold isEmpty. apply (all_words_set s); [done|apply (wf_excess s W)|].
  intros i Hi. destruct (shape_words s i (wf_shape s W) Hi) as (w & -> & Hw & Hb).
  exists (w =? 0). split; [done|]. rewrite Z.eqb_eq. split.
  - intros -> j Hj. rewrite Hb by done. apply Z.bits_0.
  - intros H. apply i64_bits_inj; [done|unfold is_i64; lia|]. intros j Hj.
    rewrite <- Hb, H by done. by rewrite Z.bits_0.
Qed.

Lemma isEqual_run s v : wf s -> wf v -> s.(m_nSize) = v.(m_nSize) ->
  exists r, isEqual s v = Ok r /\ (r = true <-> forall k, in_set s k -> bit s k = bit v k).
Proof.
  intros W1 W2 E. unfold isEqual. rewrite same_size_run, bind_Ok_run by done.
  apply (all_words_set s _ (fun k => bit s k = bit v k)); [done|..].
  { intros i Hi. rewrite (wf_excess s W1), (wf_excess v W2) by lia. done. }
  intros i Hi. destruct (shape_words s i (wf_shape s W1) Hi) as (w & -> & Hw & Hb).
  rewrite (same_len s v W1 W2 E) in Hi.
  destruct (shape_words v i (wf_shape v W2) Hi) as (x & Hx & Hxr & Hxb).
  rewrite bind_Ok_run, Hx, bind_Ok_run. exists (w =? x). split; [done|]. rewrite Z.eqb_eq. split.
  - intros -> j Hj. by rewrite Hb, Hxb.
  - intros H. apply i64_bits_inj; [done..|]. intros j Hj. by rewrite <- Hb, <- Hxb, H.
Qed.

Lemma isSuperset_run s v : wf s -> wf v -> s.(m_nSize) = v.(m_nSize) ->
  exists r, isSuperset s v = Ok r /\
    (r = true <-> forall k, in_set s k -> bit v k = true -> bit s k = true).
Proof.
  intros W1 W2 E. unfold isSuperset. rewrite same_size_run, bind_Ok_run by done.
  apply (all_words_set s _ (fun k => bit v k = true -> bit s k = true)); [done|..].
  { intros i Hi. rewrite (wf_excess v W2) by lia. done. }
  intros i Hi. destruct (shape_words s i (wf_shape s W1) Hi) as (w & -> & Hw & Hb).
  rewrite (same_len s v W1 W2 E) in Hi.
  destruct (shape_words v i (wf_shape v W2) Hi) as (x & Hx & Hxr & Hxb).
  rewrite bind_Ok_run, Hx, bind_Ok_run. eexists. split; [done|]. rewrite Z.eqb_eq.
  assert (forall j, 0 <= j -> Z.testbit (Z.lor (Z.land x w) (Z.lnot x)) j =
    (Z.testbit w j || negb (Z.testbit x j))) as Hbits.
  { intros j Hj. rewrite Z.lor_spec, Z.land_spec, Z.lnot_spec by lia.
    by destruct (Z.testbit x j), (Z.testbit w j). }
  split.
  - intros H j Hj. rewrite Hb, Hxb by done. intros Hx1.
    pose proof (Hbits j ltac:(lia)) as Hj1. rewrite H, Z.bits_m1, Hx1 in Hj1 by lia.
    by rewrite orb_false_r in Hj1.
  - intros H. apply Z.bits_inj'. intros j Hj. rewrite Hbits, Z.bits_m1 by lia.
    assert (forall k, 0 <= k < 64 -> Z.testbit w k || negb (Z.testbit x k) = true) as Hk.
    { intros k Hk. specialize (H k Hk). rewrite Hb, Hxb in H by done.
      destruct (Z.testbit x k); [by rewrite H|apply orb_true_r]. }
    destruct (decide (j < 64)); [apply Hk; lia|].
    rewrite !testbit_sign by (done || lia). specialize (Hk 63 ltac:(lia)).
    by rewrite !testbit_sign in Hk by (done || lia).
Qed.

Lemma intersection_run s v : wf s -> wf v -> s.(m_nSize) = v.(m_nSize) ->
  exists r, intersectionIsEmpty s v = Ok r /\
    (r = true <-> forall k, in_set s k -> bit s k && bit v k = false).
Proof.
  intros W1 W2 E. unfold intersectionIsEmpty.
  apply (all_words_set s _ (fun k => bit s k && bit v k = false)); [done|..].
  { intros i Hi. rewrite (wf_excess s W1) by lia. done. }
  intros i Hi. destruct (shape_words s i (wf_shape s W1) Hi) as (w & -> & Hw & Hb).
  rewrite (same_len s v W1 W2 E) in Hi.
  destruct (shape_words v i (wf_shape v W2) Hi) as (x & Hx & Hxr & Hxb).
  rewrite bind_Ok_run, Hx, bind_Ok_run. eexists. split; [done|]. rewrite Z.eqb_eq. split.
  - intros H j Hj. rewrite Hb, Hxb, <- Z.land_spec, H by done. apply Z.bits_0.
  - intros H. apply i64_bits_inj; [by apply (bitop_i64 Z.land andb)|unfold is_i64; lia|].
    intros j Hj. rewrite Z.land_spec, <- Hb, <- Hxb, H, Z.bits_0 by done. done.
Qed.

Lemma isBroadcast_run s : wf s ->
  exists r, isBroadcast s = Ok r /\ (r = true <-> forall k, in_set s k -> bit s k = true).
Proof.
  intros W. pose proof (wf_shape s W) as S. pose proof (shape_bound s S).
  pose proof (wf_size s S). unfold isBroadcast, LONG_BITS, in_set.
  rewrite Z.rem_mod_nonneg by lia.
  assert (forall n, n <= s.(m_nArrayLen) -> exists r,
    all_words (fun i => w ← word s i; Ok (w =? -1)) (upto n) = Ok r /\
    (r = true <-> forall k, 0 <= k < 64 * n -> bit s k = true)) as Hfull.
  { intros n Hn. apply all_words_bits. intros i Hi.
    destruct (shape_words s i S) as (w & -> & Hw & Hb); [lia|].
    exists (w =? -1). split; [done|]. rewrite Z.eqb_eq. split.
    - intros -> j Hj. rewrite Hb by done. apply Z.bits_m1. lia.
    - intros Ha. apply i64_bits_inj; [done|unfold is_i64; lia|]. intros j Hj.
      rewrite <- Hb, Ha by done. by rewrite Z.bits_m1 by lia. }
  destruct (s.(m_nSize) mod 64 =? 0) eqn:E; bool_to_Z.
  - destruct (Hfull s.(m_nArrayLen) ltac:(lia)) as (r & -> & Hr). rewrite bind_Ok_run.
    replace (64 * s.(m_nArrayLen)) with s.(m_nSize) in Hr by lia.
    exists r. by destruct r.
  - destruct (Hfull (s.(m_nArrayLen) - 1) ltac:(lia)) as (r & -> & Hr). rewrite bind_Ok_run.
    destruct (shape_words s (s.(m_nArrayLen) - 1) S) as (w & Hw & Hrw & Hb); [lia|].
    destruct r; cbn [negb].
    + rewrite Hw, bind_Ok_run. eexists. split; [done|]. change 1 with (i64 (2 ^ 0)).
      rewrite low_bits_set_spec by (done || lia). rewrite Z2Nat.id by lia. split.
      * intros Hlow k Hk. destruct (decide (k < 64 * (s.(m_nArrayLen) - 1))); [by apply Hr; lia|].
        specialize (Hb (k - 64 * (s.(m_nArrayLen) - 1)) ltac:(lia)).
        replace (64 * (s.(m_nArrayLen) - 1) + (k - 64 * (s.(m_nArrayLen) - 1)))
          with k in Hb by lia. rewrite Hb. apply Hlow. lia.
      * intros Hall k Hk. rewrite <- Hb by lia. apply Hall. lia.
    + exists false. split; [done|]. split; [done|]. intros Hall. apply Hr.
      intros k Hk. apply Hall. lia.
Qed.

(** ** The smallest member *)
Lemma smallest_in_spec s : wf s -> forall (n k : nat),
  Z.of_nat k + Z.of_nat n <= s.(m_nArrayLen) ->
  (forall i, 0 <= i < 64 * Z.of_nat k -> bit s i = false) ->
  match smallest_in s (Z.of_nat <$> seq k n) with
  | Ok m => 0 <= m /\ bit s m = true /\ forall i, 0 <= i < m -> bit s i = false
  | Err _ => forall i, 0 <= i < 64 * (Z.of_nat k + Z.of_nat n) -> bit s i = false
  end.
Proof.
  intros W. induction n as [|n IH]; intros k Hk Hlow; cbn [seq fmap list_fmap smallest_in].
  { intros i Hi. apply Hlow. lia. }
  destruct (shape_words s (Z.of_nat k) (wf_shape s W)) as (w & -> & Hw & Hb); [lia|].
  rewrite bind_Ok_run. destruct (w =? 0) eqn:E; bool_to_Z; cbn [negb].
  - specialize (IH (S k) ltac:(lia)). subst w.
    assert (forall i, 0 <= i < 64 * Z.of_nat (S k) -> bit s i = false) as Hlow'.
    { intros i Hi. destruct (decide (i < 64 * Z.of_nat k)); [apply Hlow; lia|].
      specialize (Hb (i - 64 * Z.of_nat k) ltac:(lia)). rewrite Z.bits_0 in Hb.
      by replace (64 * Z.of_nat k + (i - 64 * Z.of_nat k)) with i in Hb by lia. }
    specialize (IH Hlow'). destruct (smallest_in s _) as [m|e]; [done|].
    intros i Hi. apply IH. lia.
  - pose proof (least_bit_spec 64 0 w) as Hl. change (Z.to_nat LONG_BITS) with 64%nat.
    destruct (least_bit 64 0 w) as [j|].
    + destruct Hl as (Hj & Hbj & Hbelow). rewrite Z.sub_0_r in *. unfold LONG_BITS.
      split; [lia|]. split; [by rewrite Hb by lia|]. intros i Hi.
      destruct (decide (i < 64 * Z.of_nat k)); [apply Hlow; lia|].
      specialize (Hb (i - 64 * Z.of_nat k) ltac:(lia)).
      replace (64 * Z.of_nat k + (i - 64 * Z.of_nat k)) with i in Hb by lia.
      rewrite Hb. apply Hbelow. lia.
    + exfalso. apply E, i64_bits_inj; [done|unfold is_i64; lia|]. intros j Hj.
      rewrite Z.bits_0. apply Hl. lia.
Qed.

(** ** The abstract specification: finite sets of numbers below [n] *)
Inductive call :=
| Add (i : Z) | Remove (i : Z) | Clear | Broadcast
| AddSet (v : t) | RemoveSet (v : t) | Or (v : t) | And (v : t) | Copy
| IsElement (i : Z) | ElementAt (i : Z) | Count | IsEmpty | IsBroadcast | Smallest
| IsEqual (v : t) | IsSuperset (v : t) | IsSubset (v : t) | Disjoint (v : t) | Size.

Inductive answer := Unit | Flag (b : bool) | Num (k : Z).

(** One call on the words; [Or], [And] and [Copy] assign their result. *)
Definition exec (s : t) (c : call) : result (answer * t) :=
  let effect r := s' ← r; Ok (Unit, s') in
  let test r := b ← r; Ok (Flag b, s) in
  match c with
  | Add i => effect (add s i)
  | Remove i => effect (remove s i)
  | Clear => effect (clear s)
  | Broadcast => effect (broadcast s)
  | AddSet v => effect (addSet s v)
  | RemoveSet v => effect (removeSet s v)
  | Or v => effect (r ← OR s v; assign s r)
  | And v => effect (r ← AND s v; assign s r)
  | Copy => effect (copy s)
  | IsElement i => test (isElement s i)
  | ElementAt i => x ← elementAt s i; Ok (Num x, s)
  | Count => x ← count s; Ok (Num x, s)
  | IsEmpty => test (isEmpty s)
  | IsBroadcast => test (isBroadcast s)
  | Smallest => x ← smallestElement s; Ok (Num x, s)
  | IsEqual v => test (isEqual s v)
  | IsSuperset v => test (isSuperset s v)
  | IsSubset v => test (isSubset s v)
  | Disjoint v => test (intersectionIsEmpty s v)
  | Size => Ok (Num (getSize s), s)
  end.

Definition universe (n : Z) : gset Z := list_to_set (upto n).

Definition least (n : Z) (X : gset Z) : option Z :=
  snd <$> list_find (fun i => i ∈ X) (upto n).

Definition spec (n : Z) (X : gset Z) (c : call) : result (answer * gset Z) :=
  match c with
  | Add i => Ok (Unit, {[i]} ∪ X)
  | Remove i => Ok (Unit, X ∖ {[i]})
  | Clear => Ok (Unit, ∅)
  | Broadcast => Ok (Unit, universe n)
  | AddSet v | Or v => Ok (Unit, X ∪ members v)
  | RemoveSet v => Ok (Unit, X ∖ members v)
  | And v => Ok (Unit, X ∩ members v)
  | Copy => Ok (Unit, X)
  | IsElement i => Ok (Flag (bool_decide (i ∈ X)), X)
  | ElementAt i => Ok (Num (if decide (i ∈ X) then 1 else 0), X)
  | Count => Ok (Num (Z.of_nat (size X)), X)
  | IsEmpty => Ok (Flag (bool_decide (X = ∅)), X)
  | IsBroadcast => Ok (Flag (bool_decide (X = universe n)), X)
  | Smallest => match least n X with
                | Some m => Ok (Num m, X)
                | None => Err (AssertFail "count() > 0")
                end
  | IsEqual v => Ok (Flag (bool_decide (X = members v)), X)
  | IsSuperset v => Ok (Flag (bool_decide (members v ⊆ X)), X)
  | IsSubset v => Ok (Flag (bool_decide (X ⊆ members v)), X)
  | Disjoint v => Ok (Flag (bool_decide (X ∩ members v = ∅)), X)
  | Size => Ok (Num n, X)
  end.

(** Arguments are nodes of the system, or sets of the same size. *)
Definition valid (n : Z) (c : call) : Prop :=
  match c with
  | Add i | Remove i | IsElement i | ElementAt i => 0 <= i < n
  | AddSet v | RemoveSet v | Or v | And v
  | IsEqual v | IsSuperset v | IsSubset v | Disjoint v => wf v /\ v.(m_nSize) = n
  | _ => True
  end.

(** From bits to members. *)
Lemma members_ext s X : wf s -> (forall i, i ∈ X -> in_set s i) ->
  (forall i, in_set s i -> bit s i = bool_decide (i ∈ X)) -> members s = X.
Proof.
  intros W Hin H. apply set_eq. intros i. rewrite elem_members. split.
  - intros [Hi Hb]. rewrite H in Hb by done. by apply bool_decide_eq_true in Hb.
  - intros Hi. specialize (Hin i Hi). split; [done|]. rewrite H by done.
    by apply bool_decide_eq_true.
Qed.

Lemma member_in s i : i ∈ members s -> in_set s i.
Proof. rewrite elem_members. by intros [? _]. Qed.

Lemma bit_member s i : in_set s i -> bit s i = bool_decide (i ∈ members s).
Proof.
  intros Hi. destruct (bit s i) eqn:E; symmetry.
  - apply bool_decide_eq_true. by rewrite elem_members.
  - apply bool_decide_eq_false. rewrite elem_members. intros [_ H]. congruence.
Qed.

Lemma elem_universe n i : i ∈ universe n <-> 0 <= i < n.
Proof. unfold universe. by rewrite elem_of_list_to_set, elem_of_upto. Qed.

Lemma flag_iff (r : bool) (Q : Prop) `{!Decision Q} : (r = true <-> Q) -> r = bool_decide Q.
Proof. intros H. destruct r; symmetry; [by apply bool_decide_eq_true, H|].
  apply bool_decide_eq_false. intros HQ. by apply H in HQ. Qed.

(** The refinement of one call: by effects, by tests, by numbers. *)
Definition refines (s : t) (c : call) : Prop :=
  match spec s.(m_nSize) (members s) c with
  | Ok (a, X') => exists s', exec s c = Ok (a, s') /\ wf s' /\
      s'.(m_nSize) = s.(m_nSize) /\ members s' = X'
  | Err e => exec s c = Err e
  end.

Lemma effect_members s s' X :
  wf s' -> s'.(m_nSize) = s.(m_nSize) -> (forall i, i ∈ X -> in_set s i) ->
  (forall i, in_set s i -> bit s' i = bool_decide (i ∈ X)) ->
  wf s' /\ s'.(m_nSize) = s.(m_nSize) /\ members s' = X.
Proof.
  intros W Hsz Hin Hb. split; [done|]. split; [done|].
  apply members_ext; [done|..]; unfold in_set in *; rewrite Hsz; done.
Qed.

Ltac by_bits s :=
  apply (effect_members s); [done|done|
    intros ?; unfold in_set in *; rewrite ?elem_of_union, ?elem_of_difference, ?elem_of_intersection,
      ?elem_of_singleton, ?elem_members; (tauto || (intros; intuition lia))|].

Lemma single_refines s c : wf s -> valid s.(m_nSize) c ->
  match c with Add _ | Remove _ | Clear | Broadcast | Copy => True | _ => False end ->
  refines s c.
Proof.
  intros W V Hc. destruct c; try done; unfold refines; cbn [spec exec valid] in *.
  - destruct (add_spec s i W V) as (s' & -> & W' & Hsz & Hb). eexists. split; [done|].
    by_bits s. intros k Hk. rewrite Hb by (unfold in_set in Hk; lia).
    rewrite (bit_member s k Hk). destruct (k =? i) eqn:E; bool_to_Z.
    + subst. symmetry. apply bool_decide_eq_true. set_solver.
    + apply bool_decide_ext. set_solver.
  - destruct (remove_spec s i W V) as (s' & -> & W' & Hsz & Hb). eexists. split; [done|].
    by_bits s. intros k Hk. rewrite Hb by (unfold in_set in Hk; lia).
    rewrite (bit_member s k Hk). destruct (k =? i) eqn:E; bool_to_Z.
    + subst. symmetry. apply bool_decide_eq_false. set_solver.
    + apply bool_decide_ext. set_solver.
  - destruct (clear_shape s (wf_shape s W)) as (s' & -> & W' & Hsz & _ & Hb).
    eexists. split; [done|]. apply (effect_members s); [done|done|set_solver|].
    intros k Hk. rewrite Hb by (unfold in_set in Hk; lia). done.
  - destruct (broadcast_spec s W) as (s' & -> & W' & Hsz & Hb). eexists. split; [done|].
    apply (effect_members s); [done|done|intros i; by rewrite elem_universe|].
    intros k Hk. rewrite Hb by done. symmetry. apply bool_decide_eq_true.
    by apply elem_universe.
  - destruct (assign_spec empty_set s W) as (s' & Hrun & W' & Hsz & Hb).
    change (copy s) with (assign empty_set s). rewrite Hrun. eexists. split; [done|].
    apply (effect_members s); [done|done|apply member_in|].
    intros k Hk. rewrite Hb by (unfold in_set in Hk; lia). by apply bit_member.
Qed.

Lemma combine_run op on `{!BitOp op on} s v site :
  wf s -> wf v -> v.(m_nSize) = s.(m_nSize) ->
  exists s', (r ← combine op s v site; assign s r) = Ok s' /\ wf s' /\
    s'.(m_nSize) = s.(m_nSize) /\ forall i, 0 <= i -> bit s' i = on (bit s i) (bit v i).
Proof.
  intros W1 W2 E. unfold combine.
  destruct (set_make_spec s.(m_nSize) (wf_size s (wf_shape s W1))) as (r & -> & Wr & Hr & _).
  rewrite bind_Ok_run, same_size_run, bind_Ok_run by done.
  destruct (zip_into op on r s v (wf_shape r Wr) W1 W2 (eq_sym E) Hr) as (s1 & -> & W' & Hsz & Hb).
  rewrite bind_Ok_run. destruct (assign_spec s s1 W') as (s2 & -> & W2' & Hsz2 & Hb2).
  exists s2. split; [done|]. split; [done|]. split; [congruence|].
  intros i Hi. by rewrite Hb2, Hb.
Qed.

Lemma zip_refines s c : wf s -> valid s.(m_nSize) c ->
  match c with AddSet _ | RemoveSet _ | Or _ | And _ => True | _ => False end ->
  refines s c.
Proof.
  intros W V Hc. destruct c as [| | | |v|v|v|v| | | | | | | | | | | |]; try done;
    destruct V as [Wv Ev]; unfold refines; cbn [spec exec].
  - unfold addSet. rewrite same_size_run, bind_Ok_run by done.
    destruct (zip_self Z.lor orb s v W Wv (eq_sym Ev)) as (s' & -> & W' & Hsz & Hb).
    eexists. split; [done|]. by_bits s. intros k Hk. rewrite Hb by (unfold in_set in Hk; lia).
    rewrite (bit_member s k Hk), (bit_member v k) by (unfold in_set in *; lia).
    rewrite <- bool_decide_or. apply bool_decide_ext. set_solver.
  - unfold removeSet. rewrite same_size_run, bind_Ok_run by done.
    destruct (zip_self _ _ s v W Wv (eq_sym Ev)) as (s' & -> & W' & Hsz & Hb).
    eexists. split; [done|]. by_bits s. intros k Hk. rewrite Hb by (unfold in_set in Hk; lia).
    rewrite (bit_member s k Hk), (bit_member v k) by (unfold in_set in *; lia).
    rewrite <- bool_decide_not, <- bool_decide_and. apply bool_decide_ext. set_solver.
  - unfold OR. destruct (combine_run Z.lor orb s v "m_nSize == orSet.m_nSize" W Wv Ev)
      as (s' & -> & W' & Hsz & Hb).
    eexists. split; [done|]. by_bits s. intros k Hk. rewrite Hb by (unfold in_set in Hk; lia).
    rewrite (bit_member s k Hk), (bit_member v k) by (unfold in_set in *; lia).
    rewrite <- bool_decide_or. apply bool_decide_ext. set_solver.
  - unfold AND. destruct (combine_run Z.land andb s v "m_nSize == andSet.m_nSize" W Wv Ev)
      as (s' & -> & W' & Hsz & Hb).
    eexists. split; [done|]. by_bits s. intros k Hk. rewrite Hb by (unfold in_set in Hk; lia).
    rewrite (bit_member s k Hk), (bit_member v k) by (unfold in_set in *; lia).
    rewrite <- bool_decide_and. apply bool_decide_ext. set_solver.
Qed.

(** What the tests say, on members. *)
Section tests.
Context (s v : t) (W : wf s) (Wv : wf v) (E : v.(m_nSize) = s.(m_nSize)).

Lemma in_both k : in_set s k <-> in_set v k.
Proof. unfold in_set. by rewrite E. Qed.

Lemma empty_members : (forall k, in_set s k -> bit s k = false) <-> members s = ∅.
Proof using W.
  clear E Wv v.
  split.
  - intros H. apply members_ext; [done|set_solver|]. intros k Hk. by rewrite H.
  - intros H k Hk. rewrite bit_member, H by done. done.
Qed.

Lemma full_members :
  (forall k, in_set s k -> bit s k = true) <-> members s = universe s.(m_nSize).
Proof using W.
  clear E Wv v.
  split.
  - intros H. apply members_ext; [done|intros k; by rewrite elem_universe|].
    intros k Hk. rewrite H by done. symmetry. by apply bool_decide_eq_true, elem_universe.
  - intros H k Hk. rewrite bit_member, H by done. by apply bool_decide_eq_true, elem_universe.
Qed.

Lemma equal_members : (forall k, in_set s k -> bit s k = bit v k) <-> members s = members v.
Proof.
  split.
  - intros H. apply members_ext; [done|intros k Hk%member_in; by apply in_both|].
    intros k Hk. rewrite H by done. apply bit_member. by apply in_both.
  - intros H k Hk. rewrite !bit_member by (done || (apply in_both; done)). by rewrite H.
Qed.

Lemma subset_members :
  (forall k, in_set s k -> bit v k = true -> bit s k = true) <-> members v ⊆ members s.
Proof.
  split.
  - intros H k. rewrite !elem_members. intros [Hk Hb]. assert (in_set s k) as Hs by by apply in_both.
    split; [done|auto].
  - intros H k Hk Hb. assert (k ∈ members v) as Hm by (apply elem_members; split; [by apply in_both|done]).
    apply H, elem_members in Hm. tauto.
Qed.

Lemma disjoint_members :
  (forall k, in_set s k -> bit s k && bit v k = false) <-> members s ∩ members v = ∅.
Proof.
  split.
  - intros H. apply set_eq. intros k. rewrite elem_of_intersection, !elem_members.
    split; [|set_solver]. intros [[Hk Hb] [_ Hb']]. specialize (H k Hk).
    by rewrite Hb, Hb' in H.
  - intros H k Hk. rewrite !bit_member by (done || (apply in_both; done)).
    rewrite <- bool_decide_and. apply bool_decide_eq_false. set_solver.
Qed.
End tests.

Lemma test_refines s c : wf s -> valid s.(m_nSize) c ->
  match c with
  | IsElement _ | IsEmpty | IsBroadcast
  | IsEqual _ | IsSuperset _ | IsSubset _ | Disjoint _ => True
  | _ => False
  end -> refines s c.
Proof.
  intros W V Hc.
  destruct c as [| | | | | | | | |i| | | | | |v|v|v|v| ]; try done; unfold refines; cbn [spec exec valid] in *.
  - rewrite isElement_spec by done. eexists. split; [|done]. by rewrite (bit_member s i).
  - destruct (isEmpty_run s W) as (r & -> & Hr). rewrite empty_members in Hr by done.
    rewrite (flag_iff r _ Hr). eexists. by split.
  - destruct (isBroadcast_run s W) as (r & -> & Hr). rewrite full_members in Hr by done.
    rewrite (flag_iff r _ Hr). eexists. by split.
  - destruct V as [Wv Ev]. destruct (isEqual_run s v W Wv (eq_sym Ev)) as (r & -> & Hr).
    rewrite (equal_members s v) in Hr by done. rewrite (flag_iff r _ Hr). eexists. by split.
  - destruct V as [Wv Ev]. destruct (isSuperset_run s v W Wv (eq_sym Ev)) as (r & -> & Hr).
    rewrite (subset_members s v) in Hr by done. rewrite (flag_iff r _ Hr). eexists. by split.
  - destruct V as [Wv Ev]. unfold isSubset.
    destruct (isSuperset_run v s Wv W Ev) as (r & -> & Hr).
    rewrite (subset_members v s) in Hr by done. rewrite (flag_iff r _ Hr). eexists. by split.
  - destruct V as [Wv Ev]. destruct (intersection_run s v W Wv (eq_sym Ev)) as (r & -> & Hr).
    rewrite (disjoint_members s v) in Hr by done. rewrite (flag_iff r _ Hr). eexists. by split.
Qed.

Lemma least_spec n X m :
  0 <= m < n -> m ∈ X -> (forall i, 0 <= i < m -> i ∉ X) -> least n X = Some m.
Proof.
  intros Hm Hin Hlow. unfold least.
  assert (list_find (fun i => i ∈ X) (upto n) = Some (Z.to_nat m, m)) as ->; [|done].
  apply list_find_Some. rewrite lookup_upto, decide_True by lia.
  split; [f_equal; lia|]. split; [done|]. intros j y Hj Hlt.
  rewrite lookup_upto, decide_True in Hj by lia. injection Hj as <-. apply Hlow. lia.
Qed.

Lemma smallest_refines s : wf s -> refines s Smallest.
Proof.
  intros W. unfold refines, smallestElement. cbn [spec exec]. unfold smallestElement.
  rewrite count_spec, bind_Ok_run by done.
  destruct (decide (members s = ∅)) as [He|Hne].
  - rewrite He, size_empty. cbn. unfold least.
    rewrite (proj2 (list_find_None _ _)); [done|]. apply Forall_forall. set_solver.
  - assert (size (members s) <> 0)%nat as Hsz by (rewrite size_non_empty_iff; set_solver).
    replace (0 <? Z.of_nat (size (members s))) with true by (symmetry; apply Z.ltb_lt; lia).
    pose proof (wf_shape s W) as Sh. pose proof (shape_bound s Sh). pose proof (wf_size s Sh).
    pose proof (smallest_in_spec s W (Z.to_nat s.(m_nArrayLen)) 0 ltac:(lia) ltac:(lia)) as Hs.
    unfold upto. destruct (smallest_in s _) as [m|e].
    + destruct Hs as (Hm & Hb & Hlow).
      assert (m ∈ members s) as Hin by by apply elem_members_wf.
      rewrite (least_spec s.(m_nSize) (members s) m).
      * eexists. by split.
      * by apply member_in in Hin.
      * done.
      * intros i Hi. rewrite elem_members_wf by (done || lia). rewrite Hlow by lia. done.
    + exfalso. apply Hne, (proj1 (empty_members s W)). intros k Hk. apply Hs. unfold in_set in Hk. lia.
Qed.

Lemma set_exec_refines s c : wf s -> valid s.(m_nSize) c -> refines s c.
Proof.
  intros W V. destruct c; try (by apply single_refines); try (by apply zip_refines);
    try (by apply test_refines); [| |by apply smallest_refines|by exists s].
  - unfold refines. cbn [spec exec]. unfold elementAt. cbn in V.
    rewrite isElement_spec, bind_Ok_run, (bit_member s i) by done.
    exists s. split; [|done]. case_bool_decide; [by rewrite decide_True|by rewrite decide_False].
  - unfold refines. cbn [spec exec]. rewrite count_spec by done. exists s. by split.
Qed.

Definition run_calls {D} (step : D -> call -> result (answer * D)) :=
  fix go (d : D) (cs : list call) : result (list answer * D) :=
    match cs with
    | [] => Ok ([], d)
    | c :: cs' => r ← step d c; r' ← go r.2 cs'; Ok (r.1 :: r'.1, r'.2)
    end.

Lemma set_run_calls_refines n cs : Forall (valid n) cs -> forall s, wf s -> s.(m_nSize) = n ->
  match run_calls (spec n) (members s) cs with
  | Ok (ans, X') => exists s', run_calls exec s cs = Ok (ans, s') /\ wf s' /\ members s' = X'
  | Err e => run_calls exec s cs = Err e
  end.
Proof.
  induction 1 as [|c cs Hc Hcs IH]; intros s W En; cbn [run_calls]; [by exists s|].
  rewrite <- En in Hc. pose proof (set_exec_refines s c W Hc) as Hr. unfold refines in Hr.
  rewrite En in Hr. destruct (spec n (members s) c) as [[a X1]|e]; cbn; [|by rewrite Hr].
  destruct Hr as (s1 & -> & W1 & En1 & <-). cbn. specialize (IH s1 W1 ltac:(congruence)).
  destruct (run_calls (spec n) (members s1) cs) as [[ans X']|e]; cbn.
  - destruct IH as (s' & -> & IH). cbn. eauto.
  - by rewrite IH.
Qed.

(** A set of nodes made for [n] nodes answers every sequence of calls with
    valid arguments exactly as a finite set of the numbers below [n] does:
    membership, counting, the smallest element, comparison, union,
    intersection, difference and broadcast, without reading or writing outside
    its words; only the smallest element of an empty set fails. *)
Theorem set_refines_finite_set n cs :
  0 < n <= 2 ^ 31 - 64 -> Forall (valid n) cs ->
  exists s0, make n = Ok s0 /\
  match run_calls (spec n) ∅ cs with
  | Ok (ans, X') => exists s', run_calls exec s0 cs = Ok (ans, s') /\ wf s' /\ members s' = X'
  | Err e => run_calls exec s0 cs = Err e
  end.
Proof.
  intros Hn Hcs. destruct (set_make_spec n Hn) as (s0 & Hmk & W & En & Hb).
  exists s0. split; [done|].
  rewrite <- (proj1 (empty_members s0 W)) by (intros k Hk; apply Hb; unfold in_set in Hk; lia).
  by apply set_run_calls_refines.
Qed.

Lemma set_refines_finite_set_witness :
  exists s0, make 70 = Ok s0 /\
  let cs := [Add 3; Add 66; Add 63; Remove 3; Smallest; Count; IsElement 66; Broadcast;
             Count; IsBroadcast; Clear; IsEmpty; Smallest] in
  match run_calls (spec 70) ∅ cs with
  | Ok (ans, X') => exists s', run_calls exec s0 cs = Ok (ans, s') /\ wf s' /\ members s' = X'
  | Err e => run_calls exec s0 cs = Err e
  end.
Proof. apply (set_refines_finite_set 70); [lia|]. repeat constructor; cbn; lia. Defined.

(** The answers of such a run. *)
Example set_run_70 :
  (s ← make 70; r ← run_calls exec s
     [Add 3; Add 66; Add 63; Remove 3; Smallest; Count; Broadcast; Count; Size]; Ok r.1)
  = Ok [Unit; Unit; Unit; Unit; Num 63; Num 2; Unit; Num 70; Num 70].
Proof. vm_compute. reflexivity. Qed.

End NodeSetOps.
