(* ===== verification/Sequencer.v ===== *)
(** * The sequencer
    (class [Sequencer], src/src/mem/ruby/system/Sequencer.hh and Sequencer.cc).

    The entry point of a core's requests into the memory system: it keeps the
    outstanding requests in two tables by line, refuses requests that alias
    one of them or exceed the limit, hands accepted ones to the cache
    controller's mandatory queue, and answers the core when the controller
    calls back.  A periodic event looks for requests that never return.

    The caches are seen through the interface [LineCache]; what the sequencer
    tells the rest of the system (messages for the controller, answers to the
    core, profiler samples) is recorded as a list of [action]s.  The callbacks
    are the overloads without a machine type (GenericMachineType_NULL), so the
    two extra profiler samples for other machine types are not taken; the
    branch for the random tester (m_usingRubyTester) is not modelled. *)

From S2P Require Import Prelude.
From S2P Require Import STEvent.
From S2P Require Import CString.
From S2P Require Import IntMath.
From S2P Require Import Requests.
From S2P Require Import RubyAddress.
From S2P Require Import Replacement.
From S2P Require Import CacheMemory.
Import Requests RubyAddress Replacement CacheMemory.

Module Sequencer.

(** ** Data *)
Inductive RequestStatus := Ready | Issued | BufferFull | Aliased | StatusNULL.

#[export] Instance RequestStatus_eq_dec : EqDecision RequestStatus.
Proof. solve_decision. Defined.

(** The parts of a packet and its request that are used. *)
Record packet := mkPkt {
  pkt_id : Z;
  getAddr : Z;
  pkt_size : Z;
  isLLSC : bool;
  isWrite : bool;
  isRead : bool;
  isFlush : bool;
  isLockedReq : bool;                (* req->isLocked() *)
  isInstFetch : bool;
  storeCheck : bool;                 (* only set on X86 *)
  pkt_data : option (list Z);        (* [None] is a null pointer *)
  extraData : option Z
}.
#[global] Instance packet_eta : Settable packet := fun p =>
  mkPkt p.(pkt_id) p.(getAddr) p.(pkt_size) p.(isLLSC) p.(isWrite) p.(isRead) p.(isFlush)
    p.(isLockedReq) p.(isInstFetch) p.(storeCheck) p.(pkt_data) p.(extraData).

Record SequencerRequest := mkRequest {
  req_pkt : packet;
  m_type : RubyRequestType;
  issue_time : Z
}.
#[global] Instance SequencerRequest_eta : Settable SequencerRequest := fun r =>
  mkRequest r.(req_pkt) r.(m_type) r.(issue_time).

(** The message for the cache controller. *)
Record RubyRequest := mkRubyRequest {
  msg_addr : Z;
  msg_len : Z;
  msg_type : RubyRequestType;
  msg_pkt : Z
}.

Inductive action :=
| SequencerRequests (n : Z)                       (* profiler *)
| MissLatency (lat : Z) (type : RubyRequestType)  (* profiler *)
| Enqueue (msg : RubyRequest) (latency : Z)       (* m_mandatory_q_ptr->enqueue *)
| BlockOnQueue (address : Z)
| Unblock (address : Z)
| HitCallback (pkt : packet)                      (* ruby_hit_callback *)
| NextFetchRequest
| NextFlushRequest
| Evicted (address : Z).

(** ** The caches, as the sequencer uses them *)
Class LineCache (C : Type) := {
  c_isTagPresent : Z -> M C bool;
  c_isLocked : Z -> Z -> M C bool;
  c_setLocked : Z -> Z -> M C unit;
  c_clearLocked : Z -> M C unit;
  c_setMRU : Z -> M C unit
}.

Section sequencer.
Context {C : Type} `{HC : !LineCache C} (cfg : RubyCfg) (m_clock : Z).

Record Seq := mkSeq {
  m_outstanding_count : Z;                    (* int *)
  m_max_outstanding_requests : Z;
  m_deadlock_threshold : Z;
  m_writeRequestTable : gmap Z SequencerRequest;
  m_readRequestTable : gmap Z SequencerRequest;
  m_store_waiting_on_load_cycles : Z;
  m_store_waiting_on_store_cycles : Z;
  m_load_waiting_on_store_cycles : Z;
  m_load_waiting_on_load_cycles : Z;
  deadlockCheckEvent : option Z;              (* when scheduled *)
  m_dataCache : C;
  m_instCache : C;
  dataLatency : Z;                            (* m_dataCache_ptr->getLatency() *)
  instLatency : Z;
  m_version : Z;
  m_usingNetworkTester : bool;
  m_warmup_enabled : bool;
  m_cooldown_enabled : bool;
  curTick : Z;
  actions : list action                       (* newest first *)
}.
#[global] Instance Seq_eta : Settable Seq := fun s =>
  mkSeq s.(m_outstanding_count) s.(m_max_outstanding_requests) s.(m_deadlock_threshold)
    s.(m_writeRequestTable) s.(m_readRequestTable) s.(m_store_waiting_on_load_cycles)
    s.(m_store_waiting_on_store_cycles) s.(m_load_waiting_on_store_cycles)
    s.(m_load_waiting_on_load_cycles) s.(deadlockCheckEvent) s.(m_dataCache) s.(m_instCache)
    s.(dataLatency) s.(instLatency) s.(m_version) s.(m_usingNetworkTester)
    s.(m_warmup_enabled) s.(m_cooldown_enabled) s.(curTick) s.(actions).

(** The constructor; the caches and the version come from the parameters. *)
Definition newSeq (max_outstanding_requests deadlock_threshold : Z) (dcache icache : C)
  (dlat ilat version : Z) (using_network_tester warmup cooldown : bool) (tick : Z)
  : result Seq :=
  if negb (0 <? max_outstanding_requests)
  then Err (AssertFail "m_max_outstanding_requests > 0")
  else if negb (0 <? deadlock_threshold) then Err (AssertFail "m_deadlock_threshold > 0")
  else Ok (mkSeq 0 max_outstanding_requests deadlock_threshold ∅ ∅ 0 0 0 0 None dcache icache
             dlat ilat version using_network_tester warmup cooldown tick []).

Abbreviation MS := (M Seq).

Definition act (a : action) : MS unit := modify (fun s => s <| actions ::= cons a |>).

Definition getTime : MS Z := gets (fun s => s.(curTick) / m_clock).

Definition on_data {A} (m : M C A) : MS A := fun s =>
  match m s.(m_dataCache) with
  | Ok (a, c) => Ok (a, s <| m_dataCache := c |>)
  | Err e => Err e
  end.

Definition on_inst {A} (m : M C A) : MS A := fun s =>
  match m s.(m_instCache) with
  | Ok (a, c) => Ok (a, s <| m_instCache := c |>)
  | Err e => Err e
  end.

(** [m_outstanding_count == m_writeRequestTable.size() + m_readRequestTable.size()]
    compares an [int] with a [size_t]. *)
Definition count_ok (s : Seq) : bool :=
  u64 s.(m_outstanding_count) =?
    Z.of_nat (size s.(m_writeRequestTable)) + Z.of_nat (size s.(m_readRequestTable)).

Definition assert_count : MS unit :=
  s ← get; assert_ (count_ok s) "m_outstanding_count == table sizes".

(** [schedule(deadlockCheckEvent, m_deadlock_threshold * getClock() + curTick())]. *)
Definition schedule_check : MS unit :=
  s ← get;
  let when := u64 (s.(m_deadlock_threshold) * m_clock + s.(curTick)) in
  assert_ (s.(curTick) <=? when) SCHED_PAST;;
  assert_ (bool_decide (s.(deadlockCheckEvent) = None)) SCHED_TWICE;;
  modify (fun s => s <| deadlockCheckEvent := Some when |>).

(** ** Deadlock check *)
Definition too_old (now threshold : Z) (r : SequencerRequest) : bool :=
  negb (now - r.(issue_time) <? threshold).

Definition any_too_old (now threshold : Z) (m : gmap Z SequencerRequest) : bool :=
  existsb (fun kr => too_old now threshold kr.2) (map_to_list m).

Definition wakeup : MS unit :=
  current_time ← getTime;
  s ← get;
  (if any_too_old current_time s.(m_deadlock_threshold) s.(m_readRequestTable)
   then fail (Panic "Possible Deadlock detected. Aborting!") else mret tt);;
  (if any_too_old current_time s.(m_deadlock_threshold) s.(m_writeRequestTable)
   then fail (Panic "Possible Deadlock detected. Aborting!") else mret tt);;
  let total_outstanding := i32 (Z.of_nat (size s.(m_writeRequestTable)) +
                                Z.of_nat (size s.(m_readRequestTable))) in
  assert_ (s.(m_outstanding_count) =? total_outstanding)
    "m_outstanding_count == total_outstanding";;
  when (0 <? s.(m_outstanding_count)) schedule_check.

(** ** The request tables *)
Definition inserts_as_write (t : RubyRequestType) : bool :=
  bool_decide (t = ST) || bool_decide (t = RMW_Read) || bool_decide (t = RMW_Write) ||
  bool_decide (t = Load_Linked) || bool_decide (t = Store_Conditional) ||
  bool_decide (t = Locked_RMW_Read) || bool_decide (t = Locked_RMW_Write) ||
  bool_decide (t = FLUSH).

Definition insertRequest (pkt : packet) (request_type : RubyRequestType)
  : MS RequestStatus :=
  assert_count;;
  s0 ← get;
  when (bool_decide (s0.(deadlockCheckEvent) = None)) schedule_check;;
  let line_addr := makeLineAddress cfg pkt.(getAddr) in
  now ← getTime;
  s ← get;
  status ←
    (if inserts_as_write request_type then
       if bool_decide (is_Some (s.(m_readRequestTable) !! line_addr)) then
         modify (fun s => s <| m_store_waiting_on_load_cycles ::= fun n => i32 (n + 1) |>);;
         mret Aliased
       else match s.(m_writeRequestTable) !! line_addr with
       | None =>
           modify (fun s => s
             <| m_writeRequestTable ::= <[line_addr := mkRequest pkt request_type now]> |>
             <| m_outstanding_count ::= fun n => i32 (n + 1) |>);;
           mret Ready
       | Some _ =>
           modify (fun s => s <| m_store_waiting_on_store_cycles ::= fun n => i32 (n + 1) |>);;
           mret Aliased
       end
     else
       if bool_decide (is_Some (s.(m_writeRequestTable) !! line_addr)) then
         modify (fun s => s <| m_load_waiting_on_store_cycles ::= fun n => i32 (n + 1) |>);;
         mret Aliased
       else match s.(m_readRequestTable) !! line_addr with
       | None =>
           modify (fun s => s
             <| m_readRequestTable ::= <[line_addr := mkRequest pkt request_type now]> |>
             <| m_outstanding_count ::= fun n => i32 (n + 1) |>);;
           mret Ready
       | Some _ =>
           modify (fun s => s <| m_load_waiting_on_load_cycles ::= fun n => i32 (n + 1) |>);;
           mret Aliased
       end);
  if bool_decide (status = Ready) then
    n ← gets m_outstanding_count;
    act (SequencerRequests n);;
    assert_count;;
    mret Ready
  else mret status.

Definition markRemoved : MS unit :=
  modify (fun s => s <| m_outstanding_count ::= fun n => i32 (n - 1) |>);;
  assert_count.

(** The types that [removeRequest] looks for in the table of writes. *)
Definition removes_as_write (t : RubyRequestType) : bool :=
  bool_decide (t = ST) || bool_decide (t = RMW_Read) || bool_decide (t = RMW_Write) ||
  bool_decide (t = Load_Linked) || bool_decide (t = Store_Conditional) ||
  bool_decide (t = Locked_RMW_Read) || bool_decide (t = Locked_RMW_Write).

Definition removeRequest (srequest : SequencerRequest) : MS unit :=
  assert_count;;
  let line_addr := makeLineAddress cfg srequest.(req_pkt).(getAddr) in
  (if removes_as_write srequest.(m_type)
   then modify (fun s => s <| m_writeRequestTable ::= delete line_addr |>)
   else modify (fun s => s <| m_readRequestTable ::= delete line_addr |>));;
  markRemoved.

Definition empty : MS bool :=
  s ← get;
  mret (bool_decide (s.(m_writeRequestTable) = ∅ /\ s.(m_readRequestTable) = ∅)).

(** ** Callbacks *)
Definition handleLlsc (address : Z) (request : SequencerRequest)
  : MS (bool * SequencerRequest) :=
  version ← gets m_version;
  if bool_decide (request.(m_type) = Store_Conditional) then
    locked ← on_data (c_isLocked address version);
    let extra := if (locked : bool) then 1 else 0 in
    on_data (c_clearLocked address);;
    mret (locked, request <| req_pkt ::= fun p => p <| extraData := Some extra |> |>)
  else if bool_decide (request.(m_type) = Load_Linked) then
    on_data (c_setLocked address version);;
    mret (true, request)
  else
    present ← on_data (c_isTagPresent address);
    locked ← (if (present : bool) then on_data (c_isLocked address version) else mret false);
    when (locked : bool) (on_data (c_clearLocked address));;
    mret (true, request).

(** [DataBlock::setData] and [getData] with [memcpy] (src/src/mem/ruby/common/DataBlock.cc);
    copying beyond the array is undefined. *)
Definition setData (block data : list Z) (offset len : Z) : result (list Z) :=
  if offset + len <=? cfg.(block_size_bytes) then
    if (0 <=? offset) && (0 <=? len) && (len <=? Z.of_nat (length data)) then
      Ok (take (Z.to_nat offset) block ++ take (Z.to_nat len) data
          ++ drop (Z.to_nat (offset + len)) block)
    else Err (UB "memcpy")
  else Err (AssertFail "DataBlock::setData").

Definition getData (block : list Z) (offset len : Z) : result (list Z) :=
  if offset + len <=? cfg.(block_size_bytes) then
    if (0 <=? offset) && (0 <=? len) then
      Ok (take (Z.to_nat len) (drop (Z.to_nat offset) block))
    else Err (UB "memcpy")
  else Err (AssertFail "DataBlock::getData").

Definition copies_to_packet (t : RubyRequestType) : bool :=
  bool_decide (t = LD) || bool_decide (t = IFETCH) || bool_decide (t = RMW_Read) ||
  bool_decide (t = Locked_RMW_Read) || bool_decide (t = Load_Linked).

(** The data of the packet and of the block after the callback. *)
Definition transfer (warmup : bool) (t : RubyRequestType) (pkt : packet) (data : list Z)
  : result (packet * list Z) :=
  if warmup then
    match pkt.(pkt_data) with
    | None => Err (AssertFail "pkt->getPtr<uint8_t>(false) != NULL")
    | Some bytes =>
        offset ← getOffset cfg pkt.(getAddr);
        data' ← setData data bytes offset pkt.(pkt_size);
        Ok (pkt, data')
    end
  else
    match pkt.(pkt_data) with
    | None => Ok (pkt, data)
    | Some bytes =>
        offset ← getOffset cfg pkt.(getAddr);
        if copies_to_packet t then
          bytes' ← getData data offset pkt.(pkt_size);
          if pkt.(pkt_size) <=? Z.of_nat (length bytes)
          then Ok (pkt <| pkt_data := Some (bytes' ++ drop (Z.to_nat pkt.(pkt_size)) bytes) |>, data)
          else Err (UB "memcpy")
        else data' ← setData data bytes offset pkt.(pkt_size); Ok (pkt, data')
    end.

Definition hitCallback (srequest : SequencerRequest) (data : list Z) : MS (list Z) :=
  let pkt := srequest.(req_pkt) in
  let line := makeLineAddress cfg pkt.(getAddr) in
  (if bool_decide (srequest.(m_type) = IFETCH) then on_inst (c_setMRU line)
   else on_data (c_setMRU line));;
  now ← getTime;
  assert_ (srequest.(issue_time) <=? now) "getTime() >= issued_time";;
  let miss_latency := now - srequest.(issue_time) in
  when (negb (miss_latency =? 0)) (act (MissLatency miss_latency srequest.(m_type)));;
  warmup ← gets m_warmup_enabled;
  pd ← lift (transfer warmup srequest.(m_type) pkt data);
  cooldown ← gets m_cooldown_enabled;
  (if (warmup : bool) then act NextFetchRequest
   else if (cooldown : bool) then act NextFlushRequest
   else act (HitCallback pd.1));;
  mret pd.2.

(** The types that [writeCallback] expects. *)
Definition write_types (t : RubyRequestType) : bool :=
  inserts_as_write t || bool_decide (t = ATOMIC).

Definition writeCallback (address : Z) (data : list Z) : MS (list Z) :=
  assert_ (address =? line_address cfg address) "address == line_address(address)";;
  s ← get;
  match s.(m_writeRequestTable) !! address with
  | None => fail (AssertFail "m_writeRequestTable.count(line_address(address))")
  | Some request =>
      modify (fun s => s <| m_writeRequestTable ::= delete address |>);;
      markRemoved;;
      assert_ (write_types request.(m_type)) "writeCallback: m_type";;
      tester ← gets m_usingNetworkTester;
      sr ← (if (tester : bool) then mret (true, request) else handleLlsc address request);
      (if bool_decide (request.(m_type) = Locked_RMW_Read) then act (BlockOnQueue address)
       else when (bool_decide (request.(m_type) = Locked_RMW_Write)) (act (Unblock address)));;
      hitCallback sr.2 data
  end.

Definition readCallback (address : Z) (data : list Z) : MS (list Z) :=
  assert_ (address =? line_address cfg address) "address == line_address(address)";;
  s ← get;
  match s.(m_readRequestTable) !! address with
  | None => fail (AssertFail "m_readRequestTable.count(line_address(address))")
  | Some request =>
      modify (fun s => s <| m_readRequestTable ::= delete address |>);;
      markRemoved;;
      assert_ (bool_decide (request.(m_type) = LD) || bool_decide (request.(m_type) = IFETCH))
        "readCallback: m_type";;
      hitCallback request data
  end.

Definition evictionCallback (address : Z) : MS unit := act (Evicted address).

(** ** Requests *)

(** The primary and the secondary type of a packet. *)
Definition request_types (pkt : packet) : result (RubyRequestType * RubyRequestType) :=
  if pkt.(isLLSC) then
    if pkt.(isWrite) then Ok (Store_Conditional, ATOMIC)
    else if pkt.(isRead) then Ok (Load_Linked, ATOMIC)
    else Err (AssertFail "pkt->isRead()")
  else if pkt.(isLockedReq) then
    if pkt.(isWrite) then Ok (Locked_RMW_Write, ST)
    else if pkt.(isRead) then Ok (Locked_RMW_Read, ST)
    else Err (AssertFail "pkt->isRead()")
  else if pkt.(isRead) then
    if pkt.(isInstFetch) then Ok (IFETCH, IFETCH)
    else if pkt.(storeCheck) then Ok (RMW_Read, ST)
    else Ok (LD, LD)
  else if pkt.(isWrite) then Ok (ST, ST)
  else if pkt.(isFlush) then Ok (FLUSH, FLUSH)
  else Err (Panic "Unsupported ruby packet type").

Definition issueRequest (pkt : packet) (secondary_type : RubyRequestType) : MS unit :=
  s ← get;
  let latency := if bool_decide (secondary_type = IFETCH) then s.(instLatency)
                 else s.(dataLatency) in
  assert_ (0 <? latency) "latency > 0";;
  act (Enqueue (mkRubyRequest pkt.(getAddr) pkt.(pkt_size) secondary_type pkt.(pkt_id)) latency).

Definition makeRequest (pkt : packet) : MS RequestStatus :=
  s ← get;
  if s.(m_max_outstanding_requests) <=? s.(m_outstanding_count) then mret BufferFull
  else
    ty ← lift (request_types pkt);
    status ← insertRequest pkt ty.1;
    if negb (bool_decide (status = Ready)) then mret status
    else
      issueRequest pkt ty.2;;
      mret Issued.

End sequencer.
#[global] Arguments Seq : clear implicits.

(** [CacheMemory] is such a cache. *)
#[export] Instance cache_memory {P} `{!Policy P} (cfg : RubyCfg) : LineCache (Cache P) := {|
  c_isTagPresent := isTagPresent cfg;
  c_isLocked := isLocked cfg;
  c_setLocked := setLocked cfg;
  c_clearLocked := clearLocked cfg;
  c_setMRU := setMRU cfg
|}.

End Sequencer.
