(* ===== verification/SequencerSpec.v ===== *)
(** * The sequencer: no request is lost, duplicated or mixed up

    The laws the sequencer needs of a cache ([LineCacheLaws]), the invariant
    of the request tables, and what [makeRequest], the callbacks and the
    deadlock check do. *)

From S2P Require Import Prelude.
From S2P Require Import STEvent.
From S2P Require Import CString.
From S2P Require Import IntMath.
From S2P Require Import Requests.
From S2P Require Import RubyAddress.
From S2P Require Import Replacement.
From S2P Require Import CacheMemory.
From S2P Require Import Sequencer.
Import Requests RubyAddress CacheMemory Sequencer.

Module SequencerSpec.

(** ** What a cache promises

    A cache holds some lines; each held line is locked by at most one context
    (-1 is none).  The operations on the lock of a held line succeed and touch
    no other line; marking a line as used changes no lock. *)
Class LineCacheLaws (C : Type) `{!LineCache C} (is_line_addr : Z -> Prop) := {
  cache_inv : C -> Prop;
  lock_of : C -> Z -> option Z;
  tag_law : forall c a, cache_inv c -> is_line_addr a ->
    c_isTagPresent a c = Ok (bool_decide (is_Some (lock_of c a)), c);
  locked_law : forall c a ctx v, cache_inv c -> is_line_addr a -> lock_of c a = Some ctx ->
    c_isLocked a v c = Ok (ctx =? v, c);
  lock_law : forall c a ctx v, cache_inv c -> is_line_addr a -> lock_of c a = Some ctx ->
    exists c', c_setLocked a v c = Ok (tt, c') /\ cache_inv c' /\
      forall b, lock_of c' b = if decide (b = a) then Some v else lock_of c b;
  unlock_law : forall c a ctx, cache_inv c -> is_line_addr a -> lock_of c a = Some ctx ->
    exists c', c_clearLocked a c = Ok (tt, c') /\ cache_inv c' /\
      forall b, lock_of c' b = if decide (b = a) then Some (-1) else lock_of c b;
  absent_law : forall c a v, cache_inv c -> is_line_addr a -> lock_of c a = None ->
    exists e, c_isLocked a v c = Err e /\ c_setLocked a v c = Err e;
  mru_law : forall c a, cache_inv c -> is_line_addr a ->
    exists c', c_setMRU a c = Ok (tt, c') /\ cache_inv c' /\
      forall b, lock_of c' b = lock_of c b
}.

Section spec.
Context {C : Type} (cfg : RubyCfg) (m_clock : Z).

Definition line_of (pkt : packet) : Z := makeLineAddress cfg pkt.(getAddr).
Definition is_line_addr (a : Z) : Prop := is_u64 a /\ line_address cfg a = a.

Context `{HC : !LineCache C} `{HL : !LineCacheLaws C is_line_addr}.
Implicit Types (s : Seq C) (pkt : packet).

Definition now s : Z := s.(curTick) / m_clock.

(** ** The invariant *)
Record seq_ok s : Prop := {
  q_count : s.(m_outstanding_count) =
    Z.of_nat (size s.(m_writeRequestTable)) + Z.of_nat (size s.(m_readRequestTable));
  q_limit : s.(m_outstanding_count) <= s.(m_max_outstanding_requests) < 2 ^ 31;
  q_room : 0 < s.(m_max_outstanding_requests);
  q_disjoint : s.(m_writeRequestTable) ##ₘ s.(m_readRequestTable);
  q_write : forall a r, s.(m_writeRequestTable) !! a = Some r ->
    line_of r.(req_pkt) = a /\ is_u64 r.(req_pkt).(getAddr) /\
    inserts_as_write r.(m_type) = true /\ r.(issue_time) <= now s;
  q_read : forall a r, s.(m_readRequestTable) !! a = Some r ->
    line_of r.(req_pkt) = a /\ is_u64 r.(req_pkt).(getAddr) /\
    (r.(m_type) = LD \/ r.(m_type) = IFETCH) /\ r.(issue_time) <= now s;
  q_check : 0 < s.(m_outstanding_count) -> is_Some s.(deadlockCheckEvent);
  q_future : forall w, s.(deadlockCheckEvent) = Some w -> s.(curTick) <= w;
  q_data : cache_inv s.(m_dataCache);
  q_inst : cache_inv s.(m_instCache)
}.

(** The configuration, and a time at which the next check still fits. *)
Record timing s : Prop := {
  t_clock : 0 < m_clock;
  t_threshold : 0 < s.(m_deadlock_threshold);
  t_tick : 0 <= s.(curTick);
  t_room : s.(m_deadlock_threshold) * m_clock + s.(curTick) < 2 ^ 64;
  t_data : 0 < s.(dataLatency);
  t_inst : 0 < s.(instLatency)
}.

Lemma count_ok_run s : seq_ok s -> count_ok s = true.
Proof.
  intros []. unfold count_ok. apply Z.eqb_eq. rewrite u64_small by (zwidth; lia). done.
Qed.

Lemma assert_count_run {B} s (k : unit -> M (Seq C) B) :
  count_ok s = true -> (assert_count ≫= k) s = k tt s.
Proof. intros H. apply M_bind_run. unfold assert_count, mbind, M_bind, get. by rewrite H. Qed.

(** ** Scheduling the check *)
Definition armed s : Seq C :=
  match s.(deadlockCheckEvent) with
  | None => s <| deadlockCheckEvent := Some (s.(m_deadlock_threshold) * m_clock + s.(curTick)) |>
  | Some _ => s
  end.

Lemma schedule_check_run s : timing s -> s.(deadlockCheckEvent) = None ->
  schedule_check m_clock s = Ok (tt, armed s).
Proof.
  intros [] He. unfold schedule_check, armed. rewrite He.
  unfold mbind, M_bind, get. rewrite u64_small by (zwidth; nia).
  rewrite (proj2 (Z.leb_le _ _)) by nia. rewrite bool_decide_true by done. done.
Qed.

Lemma arm_run {B} s (k : unit -> M (Seq C) B) : timing s ->
  (when (bool_decide (s.(deadlockCheckEvent) = None)) (schedule_check m_clock) ≫= k) s
  = k tt (armed s).
Proof.
  intros T. apply M_bind_run. destruct s.(deadlockCheckEvent) as [w|] eqn:E.
  - rewrite bool_decide_false by done. unfold armed. by rewrite E.
  - rewrite bool_decide_true by done. by apply schedule_check_run.
Qed.

(** [armed] changes the check event only. *)
Lemma armed_fields s :
  (armed s).(m_outstanding_count) = s.(m_outstanding_count) /\
  (armed s).(m_max_outstanding_requests) = s.(m_max_outstanding_requests) /\
  (armed s).(m_writeRequestTable) = s.(m_writeRequestTable) /\
  (armed s).(m_readRequestTable) = s.(m_readRequestTable) /\
  (armed s).(m_dataCache) = s.(m_dataCache) /\ (armed s).(m_instCache) = s.(m_instCache) /\
  (armed s).(curTick) = s.(curTick) /\ (armed s).(actions) = s.(actions) /\
  (armed s).(dataLatency) = s.(dataLatency) /\ (armed s).(instLatency) = s.(instLatency) /\
  (armed s).(m_deadlock_threshold) = s.(m_deadlock_threshold) /\
  (armed s).(m_version) = s.(m_version) /\
  (armed s).(m_usingNetworkTester) = s.(m_usingNetworkTester) /\
  (armed s).(m_warmup_enabled) = s.(m_warmup_enabled) /\
  (armed s).(m_cooldown_enabled) = s.(m_cooldown_enabled).
Proof. unfold armed. by destruct s.(deadlockCheckEvent). Qed.

Lemma armed_check s : is_Some (armed s).(deadlockCheckEvent).
Proof. unfold armed. destruct s.(deadlockCheckEvent) eqn:E; [by rewrite E|done]. Qed.

(** ** Inserting a request *)

(** The table a type belongs to, and the other one. *)
Definition own_table (t : RubyRequestType) s :=
  if inserts_as_write t then s.(m_writeRequestTable) else s.(m_readRequestTable).

Definition outstanding s (line : Z) : Prop :=
  is_Some (s.(m_writeRequestTable) !! line) \/ is_Some (s.(m_readRequestTable) !! line).

#[export] Instance outstanding_dec s line : Decision (outstanding s line).
Proof. unfold outstanding. apply _. Defined.

Definition inserted (t : RubyRequestType) pkt s : Seq C :=
  let r := mkRequest pkt t (now s) in
  let s1 := (armed s) <| m_outstanding_count := s.(m_outstanding_count) + 1 |> in
  (if inserts_as_write t then s1 <| m_writeRequestTable ::= <[line_of pkt := r]> |>
   else s1 <| m_readRequestTable ::= <[line_of pkt := r]> |>)
  <| actions ::= cons (SequencerRequests (s.(m_outstanding_count) + 1)) |>.

(** The bookkeeping of a refused request. *)
Definition same_tables s s' : Prop :=
  s'.(m_writeRequestTable) = s.(m_writeRequestTable) /\
  s'.(m_readRequestTable) = s.(m_readRequestTable) /\
  s'.(m_outstanding_count) = s.(m_outstanding_count) /\
  s'.(m_max_outstanding_requests) = s.(m_max_outstanding_requests) /\
  s'.(m_dataCache) = s.(m_dataCache) /\ s'.(m_instCache) = s.(m_instCache) /\
  s'.(curTick) = s.(curTick) /\ s'.(actions) = s.(actions) /\
  s'.(m_deadlock_threshold) = s.(m_deadlock_threshold) /\
  s'.(deadlockCheckEvent) = (armed s).(deadlockCheckEvent) /\
  s'.(dataLatency) = s.(dataLatency) /\ s'.(instLatency) = s.(instLatency) /\
  s'.(m_usingNetworkTester) = s.(m_usingNetworkTester) /\
  s'.(m_warmup_enabled) = s.(m_warmup_enabled) /\
  s'.(m_cooldown_enabled) = s.(m_cooldown_enabled).

Ltac insert_prefix pkt :=
  unfold insertRequest; rewrite assert_count_run by done;
  unfold mbind at 1, M_bind at 1, get at 1; rewrite arm_run by done;
  unfold getTime; rewrite gets_run; fold (line_of pkt);
  unfold mbind at 1, M_bind at 1, get at 1.

Lemma insert_aliased s pkt t :
  seq_ok s -> timing s -> outstanding s (line_of pkt) ->
  exists s', insertRequest cfg m_clock pkt t s = Ok (Aliased, s') /\ same_tables s s'.
Proof.
  intros I T Hout. pose proof (count_ok_run s I) as Hc.
  pose proof (armed_fields s) as (E1 & E2 & E3 & E4 & E5 & E6 & E7 & E8 & E9 & E10 & E11 & E12 & E13 & E14 & E15).
  insert_prefix pkt. rewrite E3, E4. unfold outstanding in Hout. unfold same_tables.
  destruct (s.(m_readRequestTable) !! line_of pkt) as [r|] eqn:ER,
           (s.(m_writeRequestTable) !! line_of pkt) as [w|] eqn:EW,
           (inserts_as_write t);
    rewrite ?bool_decide_true by done; rewrite ?(bool_decide_false (is_Some None)) by (intros [? [=]]);
    try (eexists; split; [reflexivity|]; split_and!; done).
  all: by destruct Hout as [[? [=]]|[? [=]]].
Qed.

Lemma insert_fresh s pkt t :
  seq_ok s -> timing s -> s.(m_outstanding_count) < s.(m_max_outstanding_requests) ->
  ~ outstanding s (line_of pkt) ->
  insertRequest cfg m_clock pkt t s = Ok (Ready, inserted t pkt s).
Proof.
  intros I T Hroom Hout. pose proof (count_ok_run s I) as Hc. destruct I.
  pose proof (armed_fields s) as (E1 & E2 & E3 & E4 & E5 & E6 & E7 & E8 & E9 & E10 & E11 & E12 & E13 & E14 & E15).
  insert_prefix pkt. rewrite E3, E4, E7. unfold outstanding in Hout. unfold inserted.
  destruct (s.(m_readRequestTable) !! line_of pkt) as [r|] eqn:ER; [by destruct Hout; right|].
  destruct (s.(m_writeRequestTable) !! line_of pkt) as [w|] eqn:EW; [by destruct Hout; left|].
  rewrite !(bool_decide_false (is_Some None)) by (intros [? [=]]).
  assert (i32 (s.(m_outstanding_count) + 1) = s.(m_outstanding_count) + 1) as Hi
    by (apply i32_small; unfold is_i32; lia).
  assert (forall s2, s2.(m_outstanding_count) = i32 (s.(m_outstanding_count) + 1) ->
    Z.of_nat (size s2.(m_writeRequestTable)) + Z.of_nat (size s2.(m_readRequestTable)) =
      s.(m_outstanding_count) + 1 -> count_ok s2 = true) as Hcount.
  { intros s2 H1 H2. unfold count_ok. rewrite H1, Hi, H2. apply Z.eqb_eq, u64_small.
    zwidth. lia. }
  destruct (inserts_as_write t);
    unfold mbind at 1, M_bind at 1; rewrite modify_run; unfold mret at 1, M_ret at 1.
  all: rewrite bool_decide_true by done; rewrite gets_run; unfold act; rewrite modify_run;
    rewrite assert_count_run;
    [unfold mret, M_ret; do 2 f_equal; cbn; by rewrite E1, Hi|].
  all: apply Hcount; cbn; [by rewrite E1|]; rewrite E3, E4, map_size_insert_None by done; lia.
Qed.

(** ** The invariant through an insertion *)
Lemma armed_future s w : seq_ok s -> timing s ->
  (armed s).(deadlockCheckEvent) = Some w -> s.(curTick) <= w.
Proof.
  intros I [] H. unfold armed in H. destruct s.(deadlockCheckEvent) as [w'|] eqn:E.
  - rewrite E in H. injection H as <-. by apply (q_future s I).
  - injection H as <-. nia.
Qed.

Lemma same_tables_ok s s' : seq_ok s -> timing s -> same_tables s s' -> seq_ok s'.
Proof.
  intros I T (E1 & E2 & E3 & E4 & E5 & E6 & E7 & E8 & E9 & E10 & _). pose proof I as [].
  split; unfold now in *; rewrite ?E1, ?E2, ?E3, ?E4, ?E5, ?E6, ?E7, ?E10; try done.
  - intros _. apply armed_check.
  - intros w. by apply armed_future.
Qed.

(** What the requests of a table satisfy. *)
Lemma insert_entry (Q : Z -> SequencerRequest -> Prop) (m : gmap Z SequencerRequest) k r :
  (forall a x, m !! a = Some x -> Q a x) -> Q k r ->
  forall a x, <[k := r]> m !! a = Some x -> Q a x.
Proof.
  intros Hm Hr a x. destruct (decide (a = k)) as [->|Hne].
  - rewrite lookup_insert_eq. by intros [= <-].
  - rewrite lookup_insert_ne by done. apply Hm.
Qed.

Lemma inserted_ok s pkt t :
  seq_ok s -> timing s -> s.(m_outstanding_count) < s.(m_max_outstanding_requests) ->
  ~ outstanding s (line_of pkt) -> is_u64 pkt.(getAddr) ->
  (inserts_as_write t = false -> t = LD \/ t = IFETCH) ->
  seq_ok (inserted t pkt s).
Proof.
  intros I T Hroom Hout Ha Ht. pose proof I as [].
  pose proof (armed_fields s) as (E1 & E2 & E3 & E4 & E5 & E6 & E7 & E8 & E9 & E10 & E11 & E12 & E13 & E14 & E15).
  assert (s.(m_writeRequestTable) !! line_of pkt = None) as HW
    by (apply eq_None_not_Some; intros ?; apply Hout; by left).
  assert (s.(m_readRequestTable) !! line_of pkt = None) as HR
    by (apply eq_None_not_Some; intros ?; apply Hout; by right).
  unfold inserted. destruct (inserts_as_write t) eqn:Et; split; unfold now in *; cbn;
    rewrite ?E1, ?E2, ?E3, ?E4, ?E5, ?E6, ?E7; try done; try lia.
  - rewrite map_size_insert_None by done. lia.
  - by apply map_disjoint_insert_l_2.
  - apply (insert_entry (fun a r => line_of r.(req_pkt) = a /\ is_u64 r.(req_pkt).(getAddr) /\
      inserts_as_write r.(m_type) = true /\ r.(issue_time) <= s.(curTick) / m_clock)); [done|].
    cbn. split_and!; done.
  - intros _. apply armed_check.
  - intros w. by apply armed_future.
  - rewrite map_size_insert_None by done. lia.
  - by apply map_disjoint_insert_r_2.
  - apply (insert_entry (fun a r => line_of r.(req_pkt) = a /\ is_u64 r.(req_pkt).(getAddr) /\
      (r.(m_type) = LD \/ r.(m_type) = IFETCH) /\ r.(issue_time) <= s.(curTick) / m_clock));
      [done|]. cbn. split_and!; auto; done.
  - intros _. apply armed_check.
  - intros w. by apply armed_future.
Qed.

Lemma request_types_read pkt t t' :
  request_types pkt = Ok (t, t') -> inserts_as_write t = false -> t = LD \/ t = IFETCH.
Proof.
  unfold request_types.
  destruct (isLLSC pkt), (isLockedReq pkt), (isWrite pkt), (isRead pkt), (isInstFetch pkt),
    (storeCheck pkt), (isFlush pkt); intros [= <- <-] H;
    first [by auto|vm_compute in H; discriminate].
Qed.

Definition issued (t : RubyRequestType) pkt s : Seq C :=
  let latency := if bool_decide (t = IFETCH) then s.(instLatency) else s.(dataLatency) in
  s <| actions ::= cons (Enqueue
        (mkRubyRequest pkt.(getAddr) pkt.(pkt_size) t pkt.(pkt_id)) latency) |>.

Lemma issueRequest_run s pkt t : 0 < s.(dataLatency) -> 0 < s.(instLatency) ->
  issueRequest pkt t s = Ok (tt, issued t pkt s).
Proof.
  intros H1 H2. unfold issueRequest, issued, mbind, M_bind, get.
  rewrite (proj2 (Z.ltb_lt _ _)) by (by case_bool_decide). done.
Qed.

Lemma inserted_latency t pkt s :
  (inserted t pkt s).(dataLatency) = s.(dataLatency) /\
  (inserted t pkt s).(instLatency) = s.(instLatency).
Proof.
  pose proof (armed_fields s) as (_ & _ & _ & _ & _ & _ & _ & _ & E9 & E10 & _).
  unfold inserted. by destruct (inserts_as_write t); cbn.
Qed.

Lemma makeRequest_run s pkt t t' :
  seq_ok s -> timing s -> request_types pkt = Ok (t, t') ->
  if s.(m_max_outstanding_requests) <=? s.(m_outstanding_count) then
    makeRequest cfg m_clock pkt s = Ok (BufferFull, s)
  else if decide (outstanding s (line_of pkt)) then
    exists s', makeRequest cfg m_clock pkt s = Ok (Aliased, s') /\ same_tables s s'
  else makeRequest cfg m_clock pkt s = Ok (Issued, issued t' pkt (inserted t pkt s)).
Proof.
  intros I T Hty. unfold makeRequest. rewrite !get_run.
  destruct (_ <=? _) eqn:E; [done|]. bool_to_Z. case_decide as Hout.
  - destruct (insert_aliased s pkt t I T Hout) as (s' & Hrun & Hsame). exists s'.
    rewrite lift_bind_run, Hty. cbn [fst]. by rewrite (M_bind_run _ _ _ _ _ Hrun).
  - rewrite lift_bind_run, Hty. cbn [fst snd].
    rewrite (M_bind_run _ _ _ _ _ (insert_fresh s pkt t I T E Hout)).
    rewrite bool_decide_true by done. cbn [negb].
    pose proof (inserted_latency t pkt s) as [E1 E2]. destruct T.
    rewrite (M_bind_run _ _ _ _ _ (issueRequest_run (inserted t pkt s) pkt t'
      ltac:(by rewrite E1) ltac:(by rewrite E2))). done.
Qed.

(** ** Callbacks *)

(** A state that differs in the caches and in the recorded actions only. *)
Definition with_caches (s : Seq C) (d i : C) (acts : list action) : Seq C :=
  s <| m_dataCache := d |> <| m_instCache := i |> <| actions := acts |>.

(** The lock of a line after a write of type [t] by context [v]. *)
Definition lock_after (t : RubyRequestType) (v : Z) (l : option Z) : option Z :=
  if bool_decide (t = Store_Conditional) then Some (-1)
  else if bool_decide (t = Load_Linked) then Some v
  else if bool_decide (l = Some v) then Some (-1) else l.

(** A store conditional tells the core whether it succeeded. *)
Definition request_after (v : Z) (l : option Z) (r : SequencerRequest) : SequencerRequest :=
  if bool_decide (r.(m_type) = Store_Conditional) then
    r <| req_pkt ::= fun p =>
      p <| extraData := Some (if bool_decide (l = Some v) then 1 else 0) |> |>
  else r.

Definition llsc (t : RubyRequestType) : bool :=
  bool_decide (t = Store_Conditional) || bool_decide (t = Load_Linked).

Lemma on_data_run {A} (m : M C A) s x c :
  m s.(m_dataCache) = Ok (x, c) -> on_data m s = Ok (x, s <| m_dataCache := c |>).
Proof. intros H. unfold on_data. by rewrite H. Qed.

Lemma data_id s : s <| m_dataCache := s.(m_dataCache) |> = s.
Proof. by destruct s. Qed.

Lemma handleLlsc_run s a r :
  cache_inv s.(m_dataCache) -> is_line_addr a ->
  (llsc r.(m_type) = true -> is_Some (lock_of s.(m_dataCache) a)) ->
  exists b c',
    handleLlsc a r s =
      Ok ((b, request_after s.(m_version) (lock_of s.(m_dataCache) a) r),
          s <| m_dataCache := c' |>) /\
    cache_inv c' /\
    forall b', lock_of c' b' =
      if decide (b' = a) then lock_after r.(m_type) s.(m_version) (lock_of s.(m_dataCache) a)
      else lock_of s.(m_dataCache) b'.
Proof.
  intros I Ha Hll. unfold handleLlsc, request_after, lock_after. rewrite gets_run.
  unfold llsc in Hll.
  destruct (bool_decide (r.(m_type) = Store_Conditional)) eqn:Esc.
  { destruct (Hll eq_refl) as [ctx Hctx].
    rewrite (M_bind_run _ _ _ _ _ (on_data_run _ s _ _
      (locked_law _ a ctx s.(m_version) I Ha Hctx))), data_id.
    destruct (unlock_law _ a ctx I Ha Hctx) as (c' & Hrun & I' & Hl).
    rewrite (M_bind_run _ _ _ _ _ (on_data_run _ s _ _ Hrun)).
    eexists _, c'. split; [|done]. rewrite Hctx. unfold mret, M_ret. do 3 f_equal.
    destruct (ctx =? s.(m_version)) eqn:E; bool_to_Z.
    - by rewrite bool_decide_true by congruence.
    - by rewrite bool_decide_false by congruence. }
  destruct (bool_decide (r.(m_type) = Load_Linked)) eqn:Ell.
  { destruct (Hll eq_refl) as [ctx Hctx].
    destruct (lock_law _ a ctx s.(m_version) I Ha Hctx) as (c' & Hrun & I' & Hl).
    rewrite (M_bind_run _ _ _ _ _ (on_data_run _ s _ _ Hrun)). by eexists _, c'. }
  rewrite (M_bind_run _ _ _ _ _ (on_data_run _ s _ _ (tag_law _ a I Ha))), data_id.
  destruct (lock_of s.(m_dataCache) a) as [ctx|] eqn:Hctx.
  - rewrite bool_decide_true by done.
    rewrite (M_bind_run _ _ _ _ _ (on_data_run _ s _ _
      (locked_law _ a ctx s.(m_version) I Ha Hctx))), data_id.
    destruct (ctx =? s.(m_version)) eqn:E; bool_to_Z.
    + destruct (unlock_law _ a ctx I Ha Hctx) as (c' & Hrun & I' & Hl). cbn [when].
      rewrite (M_bind_run _ _ _ _ _ (on_data_run _ s _ _ Hrun)). exists true, c'.
      rewrite bool_decide_true by congruence. done.
    + exists true, s.(m_dataCache). rewrite data_id. split; [done|]. split; [done|].
      intros b'. rewrite bool_decide_false by congruence.
      destruct (decide (b' = a)) as [->|]; done.
  - rewrite bool_decide_false by (intros [? [=]]).
    exists true, s.(m_dataCache). rewrite data_id. split; [done|]. split; [done|].
    intros b'. rewrite bool_decide_false by done.
    destruct (decide (b' = a)) as [->|]; done.
Qed.

(** The samples and the answer of [hitCallback], newest first. *)
Definition hit_actions (s : Seq C) (r : SequencerRequest) (pkt : packet) : list action :=
  HitCallback pkt ::
  (if now s - r.(issue_time) =? 0 then []
   else [MissLatency (now s - r.(issue_time)) r.(m_type)]) ++ s.(actions).

Lemma hitCallback_run s r data :
  cache_inv s.(m_dataCache) -> cache_inv s.(m_instCache) ->
  is_line_addr (line_of r.(req_pkt)) -> r.(issue_time) <= now s ->
  s.(m_warmup_enabled) = false -> s.(m_cooldown_enabled) = false ->
  match transfer cfg false r.(m_type) r.(req_pkt) data with
  | Ok (pkt', data') =>
      exists d i, hitCallback cfg m_clock r data s =
          Ok (data', with_caches s d i (hit_actions s r pkt')) /\
        cache_inv d /\ cache_inv i /\ forall b, lock_of d b = lock_of s.(m_dataCache) b
  | Err e => hitCallback cfg m_clock r data s = Err e
  end.
Proof.
  intros Id Ii Hl Ht Hw Hcd. unfold hitCallback. fold (line_of r.(req_pkt)).
  assert (exists d i, (if bool_decide (r.(m_type) = IFETCH)
      then on_inst (c_setMRU (line_of r.(req_pkt))) else on_data (c_setMRU (line_of r.(req_pkt)))) s
      = Ok (tt, with_caches s d i s.(actions)) /\
    cache_inv d /\ cache_inv i /\ forall b, lock_of d b = lock_of s.(m_dataCache) b)
    as (d & i & Hmru & Hd & Hi & Hlk).
  { case_bool_decide.
    - destruct (mru_law _ _ Ii Hl) as (c' & Hrun & I' & _).
      exists s.(m_dataCache), c'. unfold on_inst. rewrite Hrun. split; [by destruct s|done].
    - destruct (mru_law _ _ Id Hl) as (c' & Hrun & I' & Hlk).
      exists c', s.(m_instCache). rewrite (on_data_run _ _ _ _ Hrun). split; [by destruct s|done]. }
  assert (forall f, ((if bool_decide (r.(m_type) = IFETCH)
      then on_inst (c_setMRU (line_of r.(req_pkt)))
      else on_data (c_setMRU (line_of r.(req_pkt)))) ≫= f : M (Seq C) (list Z)) s
      = f tt (with_caches s d i s.(actions))) as Hstep
    by (intros f; by rewrite (M_bind_run _ _ _ _ _ Hmru)).
  rewrite !Hstep. unfold getTime, hit_actions. rewrite !gets_run, !assert_bind_run.
  change (curTick (with_caches s d i (actions s)) / m_clock) with (now s).
  rewrite (proj2 (Z.leb_le _ _)) by done.
  destruct (transfer cfg false r.(m_type) r.(req_pkt) data) as [[pkt' data']|e] eqn:Htr.
  - exists d, i. split; [|done].
    destruct (now s - r.(issue_time) =? 0); cbn [negb when app];
      unfold act; rewrite ?modify_run, ?ret_run, gets_run;
      match goal with |- context [m_warmup_enabled ?x] =>
        change (m_warmup_enabled x) with s.(m_warmup_enabled) end;
      rewrite Hw, lift_bind_run, Htr, gets_run;
      match goal with |- context [m_cooldown_enabled ?x] =>
        change (m_cooldown_enabled x) with s.(m_cooldown_enabled) end;
      rewrite Hcd; done.
  - destruct (now s - r.(issue_time) =? 0); cbn [negb when];
      unfold act; rewrite ?modify_run, ?ret_run, gets_run;
      match goal with |- context [m_warmup_enabled ?x] =>
        change (m_warmup_enabled x) with s.(m_warmup_enabled) end;
      by rewrite Hw, lift_bind_run, Htr.
Qed.

(** ** Removing a request *)
Lemma delete_entry_sub (Q : Z -> SequencerRequest -> Prop) (m : gmap Z SequencerRequest) k :
  (forall a x, m !! a = Some x -> Q a x) ->
  forall a x, delete k m !! a = Some x -> Q a x.
Proof. intros Hm a x [_ Hx]%lookup_delete_Some. by apply Hm. Qed.

Definition without_write (a : Z) s : Seq C :=
  s <| m_writeRequestTable ::= delete a |>
    <| m_outstanding_count := s.(m_outstanding_count) - 1 |>.
Definition without_read (a : Z) s : Seq C :=
  s <| m_readRequestTable ::= delete a |>
    <| m_outstanding_count := s.(m_outstanding_count) - 1 |>.

Lemma count_delete (m : gmap Z SequencerRequest) a r :
  m !! a = Some r -> Z.of_nat (size (delete a m)) = Z.of_nat (size m) - 1.
Proof.
  intros H. rewrite map_size_delete_Some by done.
  assert (size m <> 0)%nat by (intros E; apply map_size_empty_inv in E; by subst). lia.
Qed.

Lemma without_write_ok a r s :
  seq_ok s -> s.(m_writeRequestTable) !! a = Some r -> seq_ok (without_write a s).
Proof.
  intros I Hr. pose proof I as []. pose proof (count_delete _ _ _ Hr).
  split; unfold now in *; cbn; try done; try lia.
  - by apply map_disjoint_delete_l.
  - by apply (delete_entry_sub (fun a r => line_of r.(req_pkt) = a /\
      is_u64 r.(req_pkt).(getAddr) /\ inserts_as_write r.(m_type) = true /\
      r.(issue_time) <= s.(curTick) / m_clock)).
  - intros Hn. apply (q_check s I). lia.
Qed.

Lemma without_read_ok a r s :
  seq_ok s -> s.(m_readRequestTable) !! a = Some r -> seq_ok (without_read a s).
Proof.
  intros I Hr. pose proof I as []. pose proof (count_delete _ _ _ Hr).
  split; unfold now in *; cbn; try done; try lia.
  - by apply map_disjoint_delete_r.
  - by apply (delete_entry_sub (fun a r => line_of r.(req_pkt) = a /\
      is_u64 r.(req_pkt).(getAddr) /\ (r.(m_type) = LD \/ r.(m_type) = IFETCH) /\
      r.(issue_time) <= s.(curTick) / m_clock)).
  - intros Hn. apply (q_check s I). lia.
Qed.

Lemma markRemoved_run s1 s2 :
  seq_ok s2 -> s2 = s1 <| m_outstanding_count := s1.(m_outstanding_count) - 1 |> ->
  markRemoved s1 = Ok (tt, s2).
Proof.
  intros I E. unfold markRemoved. rewrite modify_run.
  assert (i32 (s1.(m_outstanding_count) - 1) = s1.(m_outstanding_count) - 1) as Hi.
  { apply i32_small. pose proof (q_count s2 I) as H1. pose proof (q_limit s2 I) as H2.
    rewrite E in H1, H2. cbn in *. unfold is_i32. lia. }
  replace (s1 <| m_outstanding_count ::= fun n => i32 (n - 1) |>) with s2
    by (rewrite E; cbn; by rewrite Hi).
  unfold assert_count. rewrite get_run. by rewrite (count_ok_run s2 I).
Qed.

(** ** The callbacks *)
Lemma line_is_line x : is_u64 x -> is_line_addr (makeLineAddress cfg x).
Proof.
  intros Hx. split.
  - unfold makeLineAddress, maskLowOrderBits. zwidth.
    match goal with |- context [Z.land x ?m] => set (k := m) end.
    split; [apply Z.land_nonneg; lia|].
    assert (Z.land x k <= x); [|lia]. apply Z.ldiff_le; [lia|].
    apply Z.bits_inj'. intros n Hn. rewrite Z.ldiff_spec, Z.land_spec, Z.bits_0.
    by destruct (Z.testbit x n), (Z.testbit k n).
  - unfold line_address, makeLineAddress, maskLowOrderBits.
    rewrite <- Z.land_assoc. by rewrite Z.land_diag.
Qed.

Record plain_mode s : Prop := {
  p_tester : s.(m_usingNetworkTester) = false;
  p_warmup : s.(m_warmup_enabled) = false;
  p_cooldown : s.(m_cooldown_enabled) = false
}.

(** What the answer of a write adds to the actions before the answer. *)
Definition block_actions (r : SequencerRequest) (a : Z) (acts : list action) : list action :=
  if bool_decide (r.(m_type) = Locked_RMW_Read) then BlockOnQueue a :: acts
  else if bool_decide (r.(m_type) = Locked_RMW_Write) then Unblock a :: acts else acts.

Definition with_data (s : Seq C) (d : C) (acts : list action) : Seq C :=
  s <| m_dataCache := d |> <| actions := acts |>.

Lemma request_after_fields v l r :
  (request_after v l r).(m_type) = r.(m_type) /\
  (request_after v l r).(issue_time) = r.(issue_time) /\
  line_of (request_after v l r).(req_pkt) = line_of r.(req_pkt) /\
  (request_after v l r).(req_pkt).(pkt_id) = r.(req_pkt).(pkt_id).
Proof. unfold request_after. by case_bool_decide. Qed.

(** The state in which the answer to a write is made. *)
Definition before_answer (a : Z) (r : SequencerRequest) (d : C) s : Seq C :=
  (without_write a s) <| m_dataCache := d |> <| actions := block_actions r a s.(actions) |>.

Lemma writeCallback_reaches s a r data :
  seq_ok s -> plain_mode s -> s.(m_writeRequestTable) !! a = Some r ->
  (llsc r.(m_type) = true -> is_Some (lock_of s.(m_dataCache) a)) ->
  exists d, writeCallback cfg m_clock a data s =
      hitCallback cfg m_clock (request_after s.(m_version) (lock_of s.(m_dataCache) a) r) data
        (before_answer a r d s) /\
    cache_inv d /\
    forall b, lock_of d b =
      if decide (b = a) then lock_after r.(m_type) s.(m_version) (lock_of s.(m_dataCache) a)
      else lock_of s.(m_dataCache) b.
Proof.
  intros I Pm Hr Hll. pose proof (q_write s I a r Hr) as (Hla & Hu & Hty & Hti).
  assert (is_line_addr a) as Hline by (rewrite <- Hla; by apply line_is_line).
  pose proof (without_write_ok a r s I Hr) as I1.
  unfold writeCallback. rewrite assert_bind_run.
  rewrite (proj2 (Z.eqb_eq _ _)) by (symmetry; apply Hline). rewrite get_run, Hr, modify_run.
  erewrite M_bind_run by (apply (markRemoved_run _ (without_write a s) I1); reflexivity).
  rewrite assert_bind_run. unfold write_types. rewrite Hty. cbn [orb]. rewrite gets_run.
  change (m_usingNetworkTester (without_write a s)) with s.(m_usingNetworkTester).
  rewrite (p_tester s Pm).
  destruct (handleLlsc_run (without_write a s) a r (q_data s I) Hline Hll)
    as (ok & d & Hh & Id & Hlk).
  exists d. split; [|done]. rewrite (M_bind_run _ _ _ _ _ Hh).
  rewrite (M_bind_run _ _ _ tt (before_answer a r d s)); [done|].
  unfold before_answer, block_actions, act. case_bool_decide; [done|].
  case_bool_decide; [done|]. cbn [when]. unfold mret, M_ret. by destruct s.
Qed.

(** Both outcomes of a write's callback. *)
Lemma writeCallback_run s a r data :
  seq_ok s -> plain_mode s -> s.(m_writeRequestTable) !! a = Some r ->
  (llsc r.(m_type) = true -> is_Some (lock_of s.(m_dataCache) a)) ->
  let r' := request_after s.(m_version) (lock_of s.(m_dataCache) a) r in
  match transfer cfg false r.(m_type) r'.(req_pkt) data with
  | Ok (pkt', data') =>
      exists d i, writeCallback cfg m_clock a data s =
          Ok (data', with_caches (without_write a s) d i
            (hit_actions (with_data s d (block_actions r a s.(actions))) r' pkt')) /\
        cache_inv d /\ cache_inv i /\
        forall b, lock_of d b =
          if decide (b = a) then lock_after r.(m_type) s.(m_version) (lock_of s.(m_dataCache) a)
          else lock_of s.(m_dataCache) b
  | Err e => writeCallback cfg m_clock a data s = Err e
  end.
Proof.
  intros I Pm Hr Hll r'. pose proof (q_write s I a r Hr) as (Hla & Hu & Hty & Hti).
  destruct (writeCallback_reaches s a r data I Pm Hr Hll) as (d & Hrun & Id & Hlk).
  fold r' in Hrun. rewrite Hrun.
  pose proof (request_after_fields s.(m_version) (lock_of s.(m_dataCache) a) r)
    as (F1 & F2 & F3 & F4). fold r' in F1, F2, F3, F4.
  pose proof (hitCallback_run (before_answer a r d s) r' data Id (q_inst s I)) as Hhit.
  rewrite F1, F2, F3, Hla in Hhit.
  specialize (Hhit ltac:(rewrite <- Hla; by apply line_is_line) Hti (p_warmup s Pm) (p_cooldown s Pm)).
  destruct (transfer cfg false r.(m_type) r'.(req_pkt) data) as [[pkt' data']|e]; [|done].
  destruct Hhit as (d' & i' & -> & Id' & Ii' & Hlk'). exists d', i'.
  split; [done|]. split; [done|]. split; [done|]. intros b. rewrite Hlk'. apply Hlk.
Qed.

(** A store conditional or load linked to a line the cache does not hold fails. *)
Lemma writeCallback_absent s a r data :
  seq_ok s -> plain_mode s -> s.(m_writeRequestTable) !! a = Some r ->
  llsc r.(m_type) = true -> lock_of s.(m_dataCache) a = None ->
  exists e, writeCallback cfg m_clock a data s = Err e.
Proof.
  intros I Pm Hr Hll Habs. pose proof (q_write s I a r Hr) as (Hla & Hu & Hty & Hti).
  assert (is_line_addr a) as Hline by (rewrite <- Hla; by apply line_is_line).
  pose proof (without_write_ok a r s I Hr) as I1.
  destruct (absent_law _ a s.(m_version) (q_data s I) Hline Habs) as (e & E1 & E2).
  exists e. unfold writeCallback. rewrite assert_bind_run.
  rewrite (proj2 (Z.eqb_eq _ _)) by (symmetry; apply Hline). rewrite get_run, Hr, modify_run.
  erewrite M_bind_run by (apply (markRemoved_run _ (without_write a s) I1); reflexivity).
  rewrite assert_bind_run. unfold write_types. rewrite Hty. cbn [orb]. rewrite gets_run.
  change (m_usingNetworkTester (without_write a s)) with s.(m_usingNetworkTester).
  rewrite (p_tester s Pm). unfold handleLlsc, llsc in *.
  unfold mbind at 1, M_bind at 1. rewrite gets_run.
  destruct (bool_decide (r.(m_type) = Store_Conditional)).
  - unfold mbind at 1, M_bind at 1, on_data at 1. cbn. by rewrite E1.
  - cbn in Hll. rewrite Hll. unfold mbind at 1, M_bind at 1, on_data at 1. cbn. by rewrite E2.
Qed.

Lemma readCallback_run s a r data :
  seq_ok s -> plain_mode s -> s.(m_readRequestTable) !! a = Some r ->
  match transfer cfg false r.(m_type) r.(req_pkt) data with
  | Ok (pkt', data') =>
      exists d i, readCallback cfg m_clock a data s =
          Ok (data', with_caches (without_read a s) d i (hit_actions s r pkt')) /\
        cache_inv d /\ cache_inv i /\ forall b, lock_of d b = lock_of s.(m_dataCache) b
  | Err e => readCallback cfg m_clock a data s = Err e
  end.
Proof.
  intros I Pm Hr. pose proof (q_read s I a r Hr) as (Hla & Hu & Hty & Hti).
  assert (is_line_addr a) as Hline by (rewrite <- Hla; by apply line_is_line).
  pose proof (without_read_ok a r s I Hr) as I1.
  assert (readCallback cfg m_clock a data s =
    hitCallback cfg m_clock r data (without_read a s)) as ->.
  { unfold readCallback. rewrite assert_bind_run.
    rewrite (proj2 (Z.eqb_eq _ _)) by (symmetry; apply Hline). rewrite get_run, Hr, modify_run.
    erewrite M_bind_run by (apply (markRemoved_run _ (without_read a s) I1); reflexivity).
    rewrite assert_bind_run.
    by replace (bool_decide (r.(m_type) = LD) || bool_decide (r.(m_type) = IFETCH)) with true
      by (by destruct Hty as [-> | ->]). }
  apply (hitCallback_run (without_read a s) r data (q_data s I) (q_inst s I));
    [by rewrite Hla|done|apply (p_warmup s Pm)|apply (p_cooldown s Pm)].
Qed.

End spec.
End SequencerSpec.
