(* ===== verification/SequencerRuns.v ===== *)
(** * Runs of the sequencer

    The sequencer's operations in any order: requests from the core, callbacks
    from the controller, the deadlock check and the passing of time.  In every
    state of a run the requests accepted are exactly those answered and those
    still outstanding. *)

From S2P Require Import Prelude.
From S2P Require Import STEvent.
From S2P Require Import CString.
From S2P Require Import IntMath.
From S2P Require Import Requests.
From S2P Require Import RubyAddress.
From S2P Require Import Replacement.
From S2P Require Import CacheMemory.
From S2P Require Import Sequencer.
From S2P Require Import SequencerSpec.
Import Requests RubyAddress CacheMemory Sequencer SequencerSpec.

Module SequencerRuns.

Section runs.
Context {C : Type} (cfg : RubyCfg) (m_clock : Z).
Context `{HC : !LineCache C} `{HL : !LineCacheLaws C (is_line_addr cfg)}.
Implicit Types (s : Seq C) (pkt : packet).

(** ** The deadlock check *)
Lemma any_too_old_spec t th (m : gmap Z SequencerRequest) :
  any_too_old t th m = true <-> exists a r, m !! a = Some r /\ th <= t - r.(issue_time).
Proof.
  unfold any_too_old. rewrite existsb_exists. split.
  - intros ([a r] & Hin & Hold). exists a, r. apply list_elem_of_In, elem_of_map_to_list in Hin.
    split; [done|]. unfold too_old in Hold. apply negb_true_iff, Z.ltb_ge in Hold. done.
  - intros (a & r & Hr & Hold). exists (a, r). split.
    + by apply list_elem_of_In, elem_of_map_to_list.
    + unfold too_old. by apply negb_true_iff, Z.ltb_ge.
Qed.

(** Some request has waited for the threshold or longer. *)
Definition overdue s : Prop := exists a r,
  (s.(m_writeRequestTable) !! a = Some r \/ s.(m_readRequestTable) !! a = Some r) /\
  s.(m_deadlock_threshold) <= now m_clock s - r.(issue_time).

(** The event has fired: it is not scheduled while it is processed. *)
Definition fired s : Seq C := s <| deadlockCheckEvent := None |>.

Definition checked s : Seq C :=
  if 0 <? s.(m_outstanding_count) then armed m_clock (fired s) else fired s.

Lemma wakeup_run s : seq_ok cfg m_clock s -> timing m_clock s ->
  (overdue s /\ wakeup m_clock (fired s) = Err (Panic "Possible Deadlock detected. Aborting!")) \/
  (~ overdue s /\ wakeup m_clock (fired s) = Ok (tt, checked s)).
Proof.
  intros I T. unfold wakeup, getTime. rewrite gets_run, get_run.
  change (curTick (fired s) / m_clock) with (now m_clock s).
  change (m_deadlock_threshold (fired s)) with s.(m_deadlock_threshold).
  change (m_readRequestTable (fired s)) with s.(m_readRequestTable).
  change (m_writeRequestTable (fired s)) with s.(m_writeRequestTable).
  destruct (any_too_old _ _ s.(m_readRequestTable)) eqn:ER.
  { left. split; [|done]. apply any_too_old_spec in ER as (a & r & Hr & Ho). exists a, r. auto. }
  rewrite ret_run.
  destruct (any_too_old _ _ s.(m_writeRequestTable)) eqn:EW.
  { left. split; [|done]. apply any_too_old_spec in EW as (a & r & Hr & Ho). exists a, r. auto. }
  right. split.
  { intros (a & r & [Hr|Hr] & Ho).
    - assert (any_too_old (now m_clock s) s.(m_deadlock_threshold) s.(m_writeRequestTable) = true)
        by (apply any_too_old_spec; eauto). congruence.
    - assert (any_too_old (now m_clock s) s.(m_deadlock_threshold) s.(m_readRequestTable) = true)
        by (apply any_too_old_spec; eauto). congruence. }
  rewrite ret_run, assert_bind_run. pose proof (q_count _ _ s I). pose proof (q_limit _ _ s I).
  change (m_outstanding_count (fired s)) with s.(m_outstanding_count).
  rewrite i32_small by (unfold is_i32; lia). rewrite (proj2 (Z.eqb_eq _ _)) by done.
  unfold checked. destruct (0 <? s.(m_outstanding_count)); [|done]. cbn [when].
  apply schedule_check_run; [|done]. by destruct T.
Qed.

Lemma checked_ok s : seq_ok cfg m_clock s -> timing m_clock s -> seq_ok cfg m_clock (checked s).
Proof.
  intros I T. pose proof I as []. unfold checked, armed.
  destruct (0 <? s.(m_outstanding_count)) eqn:E; bool_to_Z; cbn; split; cbn; try done.
  - intros w [= <-]. destruct T. nia.
  - lia.
Qed.

(** ** Conservation *)
Definition enqueued (acts : list action) : list Z :=
  omap (fun a => match a with Enqueue msg _ => Some msg.(msg_pkt) | _ => None end) acts.

Definition answered (acts : list action) : list Z :=
  omap (fun a => match a with HitCallback pkt => Some pkt.(pkt_id) | _ => None end) acts.

Definition ids (m : gmap Z SequencerRequest) : list Z :=
  (fun kr : Z * SequencerRequest => kr.2.(req_pkt).(pkt_id)) <$> map_to_list m.

Definition waiting s : list Z := ids s.(m_writeRequestTable) ++ ids s.(m_readRequestTable).

Definition conserved s : Prop :=
  enqueued s.(actions) ≡ₚ answered s.(actions) ++ waiting s.

Lemma ids_insert m a r : m !! a = None -> ids (<[a := r]> m) ≡ₚ r.(req_pkt).(pkt_id) :: ids m.
Proof. intros H. unfold ids. rewrite map_to_list_insert by done. done. Qed.

Lemma ids_delete m a r : m !! a = Some r -> ids m ≡ₚ r.(req_pkt).(pkt_id) :: ids (delete a m).
Proof. intros H. unfold ids. by rewrite <- (map_to_list_delete m a r) by done. Qed.

Lemma hit_answered s r pkt acts :
  s.(actions) = acts ->
  answered (hit_actions m_clock s r pkt) = pkt.(pkt_id) :: answered acts /\
  enqueued (hit_actions m_clock s r pkt) = enqueued acts.
Proof.
  intros <-. unfold hit_actions. destruct (_ =? 0); cbn; done.
Qed.

Lemma block_answered r a acts :
  answered (block_actions r a acts) = answered acts /\
  enqueued (block_actions r a acts) = enqueued acts.
Proof. unfold block_actions. case_bool_decide; [done|]. by case_bool_decide. Qed.

(** The data transfer keeps the packet's identity. *)
Lemma transfer_id w t pkt data pkt' data' :
  transfer cfg w t pkt data = Ok (pkt', data') -> pkt'.(pkt_id) = pkt.(pkt_id).
Proof.
  unfold transfer. destruct w, (pkt_data pkt) as [bytes|]; intros H; inv_run; try done.
  destruct (copies_to_packet t); [destruct (_ <=? _)|]; inv_run; done.
Qed.

(** The bytes of a packet lie inside its line. *)
Definition fits pkt : Prop :=
  0 <= pkt.(pkt_size) /\
  pkt.(getAddr) mod cfg.(block_size_bytes) + pkt.(pkt_size) <= cfg.(block_size_bytes) /\
  forall bytes, pkt.(pkt_data) = Some bytes -> pkt.(pkt_size) <= Z.of_nat (length bytes).

(** A store whose packet fits its line transfers its data. *)
Lemma transfer_store_run t pkt data :
  copies_to_packet t = false -> line_cfg cfg -> fits pkt -> is_u64 pkt.(getAddr) ->
  exists data', transfer cfg false t pkt data = Ok (pkt, data').
Proof.
  intros Ht L (H0 & H1 & H2) Ha. unfold transfer, setData.
  destruct (pkt_data pkt) as [bytes|]; [|by eexists].
  rewrite getOffset_mod, Ht by done. rewrite bind_Ok_run. specialize (H2 _ eq_refl).
  pose proof L as [_ HB]. destruct L as [Hb _].
  assert (0 < 2 ^ cfg.(block_size_bits)) by (apply Z.pow_pos_nonneg; lia).
  pose proof (Z.mod_pos_bound pkt.(getAddr) cfg.(block_size_bytes) ltac:(lia)) as Hm.
  rewrite !(proj2 (Z.leb_le _ _)) by lia. by eexists.
Qed.

Lemma request_after_sc v ctx r : r.(m_type) = Store_Conditional ->
  request_after v (Some ctx) r =
    r <| req_pkt ::= fun p => p <| extraData := Some (if ctx =? v then 1 else 0) |> |>.
Proof.
  intros Ht. unfold request_after. rewrite Ht, bool_decide_true by done.
  destruct (ctx =? v) eqn:E; bool_to_Z.
  - by rewrite bool_decide_true by congruence.
  - by rewrite bool_decide_false by congruence.
Qed.

Definition other_table (t : RubyRequestType) s :=
  if inserts_as_write t then s.(m_readRequestTable) else s.(m_writeRequestTable).

(** What an issued request leaves behind. *)
Lemma issued_tables t t' pkt s :
  let s' := issued t' pkt (inserted cfg m_clock t pkt s) in
  own_table t s' = <[line_of cfg pkt := mkRequest pkt t (now m_clock s)]> (own_table t s) /\
  other_table t s' = other_table t s /\
  enqueued s'.(actions) = pkt.(pkt_id) :: enqueued s.(actions) /\
  answered s'.(actions) = answered s.(actions) /\
  head s'.(actions) = Some (Enqueue
    (mkRubyRequest pkt.(getAddr) pkt.(pkt_size) t' pkt.(pkt_id))
    (if bool_decide (t' = IFETCH) then s.(instLatency) else s.(dataLatency))).
Proof.
  pose proof (armed_fields m_clock s)
    as (E1 & E2 & E3 & E4 & E5 & E6 & E7 & E8 & E9 & E10 & E11 & E12 & E13 & E14 & E15).
  unfold own_table, other_table, issued, inserted.
  destruct (inserts_as_write t); cbn; rewrite ?E3, ?E4, ?E8, ?E9, ?E10; split_and!; done.
Qed.

(** ** Steps *)
Inductive seq_step s : Seq C -> Prop :=
| s_request pkt st s' :
    is_u64 pkt.(getAddr) -> makeRequest cfg m_clock pkt s = Ok (st, s') -> seq_step s s'
| s_write a data data' s' :
    writeCallback cfg m_clock a data s = Ok (data', s') -> seq_step s s'
| s_read a data data' s' :
    readCallback cfg m_clock a data s = Ok (data', s') -> seq_step s s'
| s_check s' :
    s.(deadlockCheckEvent) = Some s.(curTick) ->
    wakeup m_clock (fired s) = Ok (tt, s') -> seq_step s s'
| s_tick t :
    s.(curTick) <= t -> (forall w, s.(deadlockCheckEvent) = Some w -> t <= w) ->
    s.(m_deadlock_threshold) * m_clock + t < 2 ^ 64 -> seq_step s (s <| curTick := t |>).

Definition seq_inv s : Prop :=
  seq_ok cfg m_clock s /\ timing m_clock s /\ plain_mode s /\ conserved s.

Lemma same_tables_inv s s' : seq_inv s -> same_tables m_clock s s' -> seq_inv s'.
Proof.
  intros (I & T & Pm & Hc) Hsame. split; [by eapply same_tables_ok|].
  destruct Hsame as (E1 & E2 & E3 & E4 & E5 & E6 & E7 & E8 & E9 & E10 & E11 & E12 & E13 & E14 & E15).
  split; [destruct T; split; rewrite ?E7, ?E9, ?E11, ?E12; done|].
  split; [destruct Pm; split; congruence|]. unfold conserved, waiting. by rewrite E8, E1, E2.
Qed.

Lemma inserted_inv s pkt t t' :
  seq_inv s -> s.(m_outstanding_count) < s.(m_max_outstanding_requests) ->
  ~ outstanding s (line_of cfg pkt) -> is_u64 pkt.(getAddr) ->
  (inserts_as_write t = false -> t = LD \/ t = IFETCH) ->
  seq_inv (issued t' pkt (inserted cfg m_clock t pkt s)).
Proof.
  intros (I & T & Pm & Hc) Hroom Hout Ha Ht.
  pose proof (inserted_ok cfg m_clock s pkt t I T Hroom Hout Ha Ht) as I'.
  pose proof (armed_fields m_clock s)
    as (E1 & E2 & E3 & E4 & E5 & E6 & E7 & E8 & E9 & E10 & E11 & E12 & E13 & E14 & E15).
  assert (s.(m_writeRequestTable) !! line_of cfg pkt = None) as HW
    by (apply eq_None_not_Some; intros ?; apply Hout; by left).
  assert (s.(m_readRequestTable) !! line_of cfg pkt = None) as HR
    by (apply eq_None_not_Some; intros ?; apply Hout; by right).
  split; [by destruct I'; split|].
  destruct T, Pm. unfold inserted. destruct (inserts_as_write t);
    (split; [by split; cbn; rewrite ?E7, ?E9, ?E10, ?E11|]);
    (split; [by split; cbn; congruence|]); unfold conserved, waiting in *; cbn;
    rewrite ?E3, ?E4, ?E8, ids_insert by done; cbn; rewrite Hc.
  - by rewrite <- Permutation_middle.
  - by rewrite !Permutation_middle.
Qed.

Lemma request_inv s pkt st s' :
  seq_inv s -> is_u64 pkt.(getAddr) -> makeRequest cfg m_clock pkt s = Ok (st, s') ->
  seq_inv s'.
Proof.
  intros Hinv Ha H. pose proof Hinv as (I & T & Pm & Hc).
  destruct (request_types pkt) as [[t t']|e] eqn:Ety.
  - pose proof (makeRequest_run cfg m_clock s pkt t t' I T Ety) as Hrun.
    destruct (_ <=? _) eqn:E; bool_to_Z.
    { rewrite Hrun in H. by injection H as _ <-. }
    case_decide as Hout.
    + destruct Hrun as (s1 & Hrun & Hsame). rewrite Hrun in H. injection H as _ <-.
      by eapply same_tables_inv.
    + rewrite Hrun in H. injection H as _ <-.
      apply inserted_inv; [done..|]. by eapply request_types_read.
  - unfold makeRequest in H. rewrite get_run in H.
    destruct (_ <=? _); [by injection H as _ <-|]. by rewrite lift_bind_run, Ety in H.
Qed.

Lemma write_inv s a data data' s' :
  seq_inv s -> writeCallback cfg m_clock a data s = Ok (data', s') -> seq_inv s'.
Proof.
  intros (I & T & Pm & Hc) H.
  destruct (s.(m_writeRequestTable) !! a) as [r|] eqn:Hr.
  2:{ unfold writeCallback in H. rewrite assert_bind_run in H. destruct (_ =? _); [|done].
      by rewrite get_run, Hr in H. }
  assert (llsc r.(m_type) = true -> is_Some (lock_of s.(m_dataCache) a)) as Hll.
  { intros Hll. destruct (lock_of s.(m_dataCache) a) eqn:E; [done|].
    destruct (writeCallback_absent cfg m_clock s a r data I Pm Hr Hll E) as [e He].
    by rewrite He in H. }
  pose proof (writeCallback_run cfg m_clock s a r data I Pm Hr Hll) as Hrun. cbn zeta in Hrun.
  set (r' := request_after _ _ r) in Hrun.
  destruct (transfer cfg false r.(m_type) r'.(req_pkt) data) as [[pkt' d1]|e] eqn:Htr;
    [|by rewrite Hrun in H].
  destruct Hrun as (d & i & Hrun & Id & Ii & _). rewrite Hrun in H. injection H as _ <-.
  pose proof (without_write_ok cfg m_clock a r s I Hr) as I1.
  split; [by destruct I1; split|]. split; [by destruct T; split|]. split; [by destruct Pm; split|].
  unfold conserved, waiting in *.
  destruct (hit_answered (with_data s d (block_actions r a s.(actions))) r' pkt'
    (block_actions r a s.(actions)) eq_refl) as [A1 A2].
  destruct (block_answered r a s.(actions)) as [B1 B2].
  change (actions (with_caches ?x ?y ?z ?acts)) with acts. rewrite A1, A2, B1, B2.
  change (m_readRequestTable (with_caches _ _ _ _)) with s.(m_readRequestTable).
  change (m_writeRequestTable (with_caches _ _ _ _)) with (delete a s.(m_writeRequestTable)).
  rewrite Hc, (ids_delete _ _ _ Hr).
  replace (pkt'.(pkt_id)) with r.(req_pkt).(pkt_id).
  - cbn. by rewrite <- Permutation_middle.
  - rewrite (transfer_id _ _ _ _ _ _ Htr). symmetry. subst r'.
    by destruct (request_after_fields cfg s.(m_version) (lock_of s.(m_dataCache) a) r)
      as (_ & _ & _ & ->).
Qed.

Lemma read_inv s a data data' s' :
  seq_inv s -> readCallback cfg m_clock a data s = Ok (data', s') -> seq_inv s'.
Proof.
  intros (I & T & Pm & Hc) H.
  destruct (s.(m_readRequestTable) !! a) as [r|] eqn:Hr.
  2:{ unfold readCallback in H. rewrite assert_bind_run in H. destruct (_ =? _); [|done].
      by rewrite get_run, Hr in H. }
  pose proof (readCallback_run cfg m_clock s a r data I Pm Hr) as Hrun.
  destruct (transfer cfg false r.(m_type) r.(req_pkt) data) as [[pkt' d1]|e] eqn:Htr;
    [|by rewrite Hrun in H].
  destruct Hrun as (d & i & Hrun & Id & Ii & _). rewrite Hrun in H. injection H as _ <-.
  pose proof (without_read_ok cfg m_clock a r s I Hr) as I1.
  split; [by destruct I1; split|]. split; [by destruct T; split|]. split; [by destruct Pm; split|].
  unfold conserved, waiting in *.
  destruct (hit_answered s r pkt' s.(actions) eq_refl) as [A1 A2].
  change (actions (with_caches ?x ?y ?z ?acts)) with acts. rewrite A1, A2.
  change (m_writeRequestTable (with_caches _ _ _ _)) with s.(m_writeRequestTable).
  change (m_readRequestTable (with_caches _ _ _ _)) with (delete a s.(m_readRequestTable)).
  rewrite Hc, (ids_delete _ _ _ Hr), (transfer_id _ _ _ _ _ _ Htr).
  cbn. by rewrite !app_assoc, <- Permutation_middle.
Qed.

Lemma check_inv s s' :
  seq_inv s -> wakeup m_clock (fired s) = Ok (tt, s') -> seq_inv s'.
Proof.
  intros (I & T & Pm & Hc) H.
  destruct (wakeup_run s I T) as [[_ Hrun]|[_ Hrun]]; rewrite Hrun in H; [done|].
  injection H as <-. split; [by apply checked_ok|].
  unfold checked, armed. destruct T, Pm. by destruct (0 <? m_outstanding_count s).
Qed.

Lemma step_inv s s' : seq_inv s -> seq_step s s' -> seq_inv s'.
Proof.
  intros Hinv []; [by eapply request_inv|by eapply write_inv|by eapply read_inv|
    by eapply check_inv|].
  destruct Hinv as (I & T & Pm & Hc). destruct T, Pm. split; [|by split; [split; cbn; lia|]].
  assert (s.(curTick) / m_clock <= t / m_clock) by (apply Z.div_le_mono; lia).
  destruct I. split; unfold now in *; cbn; try done.
  - intros a r Hr. destruct (q_write0 a r Hr) as (?&?&?&?). split_and!; try done. lia.
  - intros a r Hr. destruct (q_read0 a r Hr) as (?&?&?&?). split_and!; try done. lia.
Qed.

(** The states of a run from a new sequencer. *)
Inductive seq_reachable : Seq C -> Prop :=
| r_new mx th d i dl il v tick s :
    newSeq mx th d i dl il v false false false tick = Ok s ->
    0 < m_clock -> mx < 2 ^ 31 -> 0 <= tick -> th * m_clock + tick < 2 ^ 64 ->
    0 < dl -> 0 < il -> cache_inv d -> cache_inv i -> seq_reachable s
| r_step s s' : seq_reachable s -> seq_step s s' -> seq_reachable s'.

Lemma reachable_seq_inv s : seq_reachable s -> seq_inv s.
Proof.
  induction 1 as [mx th d i dl il v tick s H|s s' _ IH Hs]; [|by eapply step_inv].
  unfold newSeq in H. destruct (0 <? mx) eqn:E1; [|done]. destruct (0 <? th) eqn:E2; [|done].
  cbn [negb] in H. injection H as <-. bool_to_Z.
  split; [|split; [by split; cbn|split; [by split|]]];
    [|by unfold conserved, waiting, ids; cbn; rewrite map_to_list_empty].
  split; cbn; try done; try lia.
Qed.

(** ** The properties *)

Lemma length_waiting s : seq_ok cfg m_clock s ->
  Z.of_nat (length (waiting s)) = s.(m_outstanding_count).
Proof.
  intros I. unfold waiting, ids. rewrite length_app, !length_fmap, !length_map_to_list.
  rewrite (q_count _ _ s I). lia.
Qed.

(** C31: in every state of a run, the requests handed to the cache controller
    are exactly those answered to the core and those still in the tables: none
    is lost and none answered twice.  [m_outstanding_count] is the number of
    the latter and never exceeds the limit, no line is in both tables, and
    while a request is outstanding a deadlock check is scheduled. *)
Theorem requests_conserved s : seq_reachable s ->
  enqueued s.(actions) ≡ₚ answered s.(actions) ++ waiting s /\
  Z.of_nat (length (waiting s)) = s.(m_outstanding_count) /\
  s.(m_outstanding_count) <= s.(m_max_outstanding_requests) /\
  s.(m_writeRequestTable) ##ₘ s.(m_readRequestTable) /\
  (0 < s.(m_outstanding_count) -> is_Some s.(deadlockCheckEvent)).
Proof.
  intros Hr. destruct (reachable_seq_inv s Hr) as (I & _ & _ & Hc). pose proof I as [].
  split; [done|]. split; [by apply length_waiting|]. split; [lia|done].
Qed.

(** [makeRequest] in every state of a run: at the limit it answers
    BufferFull and does nothing; a packet of no supported kind stops the
    program; a line that is outstanding in either table gives Aliased, with
    the tables unchanged and nothing sent; otherwise the request enters the
    table of its type with the current cycle as issue time, exactly one
    message goes to the controller with the line's secondary type and the
    latency of its cache, and the answer is Issued. *)
Theorem makeRequest_correct s pkt : seq_reachable s ->
  if s.(m_max_outstanding_requests) <=? s.(m_outstanding_count) then
    makeRequest cfg m_clock pkt s = Ok (BufferFull, s)
  else match request_types pkt with
  | Err e => makeRequest cfg m_clock pkt s = Err e
  | Ok (t, t') =>
      exists st s', makeRequest cfg m_clock pkt s = Ok (st, s') /\
        if decide (outstanding s (line_of cfg pkt)) then
          st = Aliased /\ s'.(actions) = s.(actions) /\
          s'.(m_writeRequestTable) = s.(m_writeRequestTable) /\
          s'.(m_readRequestTable) = s.(m_readRequestTable)
        else
          st = Issued /\
          own_table t s' =
            <[line_of cfg pkt := mkRequest pkt t (now m_clock s)]> (own_table t s) /\
          other_table t s' = other_table t s /\
          enqueued s'.(actions) = pkt.(pkt_id) :: enqueued s.(actions) /\
          answered s'.(actions) = answered s.(actions) /\
          head s'.(actions) = Some (Enqueue
            (mkRubyRequest pkt.(getAddr) pkt.(pkt_size) t' pkt.(pkt_id))
            (if bool_decide (t' = IFETCH) then s.(instLatency) else s.(dataLatency)))
  end.
Proof.
  intros Hr. destruct (reachable_seq_inv s Hr) as (I & T & _ & _).
  destruct (request_types pkt) as [[t t']|e] eqn:Ety.
  - pose proof (makeRequest_run cfg m_clock s pkt t t' I T Ety) as Hrun.
    destruct (_ <=? _); [done|]. case_decide as Hout.
    + destruct Hrun as (s' & Hrun & Hsame). exists Aliased, s'. split; [done|].
      destruct Hsame as (E1 & E2 & _ & _ & _ & _ & _ & E8 & _). done.
    + eexists _, _. split; [exact Hrun|]. split; [done|]. by apply issued_tables.
  - unfold makeRequest. rewrite get_run. destruct (_ <=? _); [done|].
    by rewrite lift_bind_run, Ety.
Qed.

(** C32: store conditional, in every state of a run with one outstanding on a
    line the data cache holds: the callback answers the core with success
    exactly when the line is still locked by this sequencer's load linked, the
    lock is released and no other line's lock changes.  (The packet must fit
    its line.) *)
Theorem sc_succeeds_iff_locked s a r ctx data :
  line_cfg cfg -> seq_reachable s ->
  s.(m_writeRequestTable) !! a = Some r -> r.(m_type) = Store_Conditional ->
  lock_of s.(m_dataCache) a = Some ctx -> fits r.(req_pkt) ->
  exists data' s' pkt', writeCallback cfg m_clock a data s = Ok (data', s') /\
    head s'.(actions) = Some (HitCallback pkt') /\
    pkt'.(pkt_id) = r.(req_pkt).(pkt_id) /\
    pkt'.(extraData) = Some (if ctx =? s.(m_version) then 1 else 0) /\
    forall b, lock_of s'.(m_dataCache) b =
      if decide (b = a) then Some (-1) else lock_of s.(m_dataCache) b.
Proof.
  intros L Hreach Hr Ht Hctx Hf. destruct (reachable_seq_inv s Hreach) as (I & T & Pm & _).
  assert (llsc r.(m_type) = true -> is_Some (lock_of s.(m_dataCache) a)) as Hll by (by rewrite Hctx).
  pose proof (writeCallback_run cfg m_clock s a r data I Pm Hr Hll) as Hrun. cbn zeta in Hrun.
  pose proof (request_after_sc s.(m_version) ctx r Ht) as Hsc.
  rewrite Hctx, Hsc in Hrun.
  change (req_pkt (r <| req_pkt ::= _ |>)) with
    (r.(req_pkt) <| extraData := Some (if ctx =? s.(m_version) then 1 else 0) |>) in Hrun.
  destruct (transfer_store_run r.(m_type)
    (r.(req_pkt) <| extraData := Some (if ctx =? s.(m_version) then 1 else 0) |>) data)
    as [data' Htr]; [by rewrite Ht|done|done|by apply (q_write _ _ s I a r Hr)|].
  rewrite Htr in Hrun.
  destruct Hrun as (d & i & Hrun & _ & _ & Hlk).
  eexists _, _, _. split; [exact Hrun|]. split; [done|]. split; [done|]. split; [done|].
  by rewrite Ht in Hlk.
Qed.

(** The deadlock check, in every state of a run: it stops the program
    exactly when some outstanding request, read or write, was issued
    [m_deadlock_threshold] cycles ago or earlier; otherwise it changes nothing
    but the next check, which it schedules a threshold later exactly when
    requests are outstanding. *)
Theorem deadlock_check_correct s : seq_reachable s ->
  (overdue s -> wakeup m_clock (fired s) =
     Err (Panic "Possible Deadlock detected. Aborting!")) /\
  (~ overdue s -> wakeup m_clock (fired s) = Ok (tt, s <| deadlockCheckEvent :=
     if 0 <? s.(m_outstanding_count)
     then Some (s.(m_deadlock_threshold) * m_clock + s.(curTick)) else None |>)).
Proof.
  intros Hr. destruct (reachable_seq_inv s Hr) as (I & T & _ & _).
  destruct (wakeup_run s I T) as [[Ho Hrun]|[Ho Hrun]]; [done|].
  split; [done|]. intros _. rewrite Hrun. unfold checked, fired, armed.
  by destruct (0 <? s.(m_outstanding_count)).
Qed.
End runs.
End SequencerRuns.
