(* ===== verification/SequencerCache.v ===== *)
(** * The cache behind the sequencer

    [CacheMemory] keeps the laws the sequencer relies on: the client's theorems
    of SequencerRuns hold for the real cache. *)

From S2P Require Import Prelude.
From S2P Require Import STEvent.
From S2P Require Import CString.
From S2P Require Import IntMath.
From S2P Require Import Requests.
From S2P Require Import RubyAddress.
From S2P Require Import Replacement.
From S2P Require Import CacheMemory.
From S2P Require Import CacheSpec.
From S2P Require Import Sequencer.
From S2P Require Import SequencerSpec.
Import Requests RubyAddress Replacement CacheMemory CacheSpec Sequencer SequencerSpec.

Module SequencerCache.

Section laws.
Context {P : Type} `{HP : !Policy P} `{HL : !PolicyLaws P} (cfg : RubyCfg).
Implicit Types (c : Cache P) (a p : Z).

(** The context that has a held line locked, -1 for none. *)
Definition lock_of_line c a : option Z :=
  way ← c.(m_tag_index) !! a;
  p ← slot c (set_of c a) way;
  e ← c.(entries) !! p;
  Some e.(m_locked).

Lemma line_addr_line a : is_line_addr cfg a -> line cfg a.
Proof. intros [Hu Hl]. split; [done|]. unfold is_line. by apply Z.eqb_eq. Qed.

(** A line with a lock is held by an entry that has it. *)
Lemma lock_held c a ctx :
  cache_ok cfg c -> lock_of_line c a = Some ctx ->
  exists p e, holds c a p /\ c.(entries) !! p = Some e /\ e.(m_locked) = ctx /\
    e.(m_Address) = a.
Proof.
  intros Hok H. unfold lock_of_line in H. destruct (c.(m_tag_index) !! a) as [way|] eqn:Ht; [|done].
  destruct (c_tag _ _ Hok _ _ Ht) as (_ & _ & p & e & Hp & He & Ha). cbn in H.
  rewrite Hp in H. cbn in H. rewrite He in H. injection H as <-. exists p, e.
  split; [by exists (set_of c a), way, e|done].
Qed.

Lemma lock_present c a :
  cache_ok cfg c -> is_Some (lock_of_line c a) <-> is_Some (c.(m_tag_index) !! a).
Proof.
  intros Hok. unfold lock_of_line. destruct (c.(m_tag_index) !! a) as [way|] eqn:Ht; [|done].
  destruct (c_tag _ _ Hok _ _ Ht) as (_ & _ & p & e & Hp & He & _). cbn. rewrite Hp. cbn.
  by rewrite He.
Qed.

(** Writing the lock of the entry that holds [a] changes the lock of [a] only. *)
Lemma relock_lock c a p e v b :
  cache_ok cfg c -> holds c a p -> c.(entries) !! p = Some e ->
  lock_of_line (c <| entries ::= <[p := e <| m_locked := v |>]> |>) b =
    if decide (b = a) then Some v else lock_of_line c b.
Proof.
  intros Hok Hh He. destruct (holds_tag _ _ _ _ Hok Hh) as (way & Ht & _ & Hp & _).
  unfold lock_of_line. cbn. case_decide as Hb.
  - subst b. rewrite Ht. cbn. change (slot _ _ way) with (slot c (set_of c a) way).
    rewrite Hp. cbn. by rewrite lookup_insert_eq.
  - destruct (c.(m_tag_index) !! b) as [wb|] eqn:Htb; [|done]. cbn.
    change (slot _ _ wb) with (slot c (set_of c b) wb).
    destruct (c_tag _ _ Hok _ _ Htb) as (_ & _ & q & eq & Hq & Heq & Hab). rewrite Hq. cbn.
    destruct (decide (q = p)) as [->|Hne]; [|by rewrite lookup_insert_ne].
    destruct Hh as (s' & w' & e' & _ & He' & Ha'). congruence.
Qed.

Lemma relock_run c a v ctx :
  cache_ok cfg c -> lock_of_line c a = Some ctx ->
  exists p e, locked_entry cfg a c = Ok (Some p, c) /\ c.(entries) !! p = Some e /\
    e.(m_locked) = ctx /\ cache_ok cfg (c <| entries ::= <[p := e <| m_locked := v |>]> |>) /\
    forall b, lock_of_line (c <| entries ::= <[p := e <| m_locked := v |>]> |>) b =
      if decide (b = a) then Some v else lock_of_line c b.
Proof.
  intros Hok H. destruct (lock_held c a ctx Hok H) as (p & e & Hh & He & Hl & Ha).
  exists p, e. split; [by apply locked_entry_run|]. split; [done|]. split; [done|].
  split; [by apply relock_ok|]. intros b. by apply relock_lock.
Qed.

Lemma locked_absent c a :
  cache_ok cfg c -> line cfg a -> lock_of_line c a = None ->
  locked_entry cfg a c = Err (AssertFail "CacheMemory: lock of a present line").
Proof.
  intros Hok Hl H. assert (c.(m_tag_index) !! a = None) as Ht.
  { destruct (c.(m_tag_index) !! a) eqn:E; [|done].
    destruct (proj2 (lock_present c a Hok)) as [? Hx]; [by rewrite E|]. congruence. }
  unfold locked_entry. rewrite assert_bind_run, (proj2 Hl).
  rewrite (M_bind_run _ _ _ _ _ (addressToCacheSet_run cfg c a (c_shape _ _ Hok) Hl)).
  by rewrite (M_bind_run _ _ _ _ _ (findTagInSet_run cfg c a Hok Hl)), Ht.
Qed.

Lemma setMRU_run c a :
  cache_ok cfg c -> line cfg a ->
  exists c', setMRU cfg a c = Ok (tt, c') /\ cache_ok cfg c' /\
    forall b, lock_of_line c' b = lock_of_line c b.
Proof.
  intros Hok Hl. pose proof (set_of_range c a (c_shape _ _ Hok)) as Hs. unfold setMRU.
  rewrite (M_bind_run _ _ _ _ _ (addressToCacheSet_run cfg c a (c_shape _ _ Hok) Hl)).
  rewrite (M_bind_run _ _ _ _ _ (findTagInSet_run cfg c a Hok Hl)).
  destruct (c.(m_tag_index) !! a) as [way|] eqn:Ht; [|by exists c].
  change (default (-1) (Some way)) with way.
  destruct (c_tag _ _ Hok _ _ Ht) as (_ & Hw & _).
  replace (way =? -1) with false by lia. cbn [negb].
  destruct (touch_slot_run c (set_of c a) way (c_shape _ _ Hok) Hs Hw) as (pol & -> & Hpol & _).
  eexists. split; [done|]. split; [by apply ok_policy|done].
Qed.

#[export] Instance cache_memory_laws :
  LineCacheLaws (LineCache0 := cache_memory cfg) (Cache P) (is_line_addr cfg).
Proof.
  refine (Build_LineCacheLaws _ _ _ (cache_ok cfg) lock_of_line _ _ _ _ _ _); cbn.
  - intros c a Hok Ha. rewrite isTagPresent_run by (done || by apply line_addr_line).
    do 2 f_equal. apply bool_decide_ext. symmetry. by apply lock_present.
  - intros c a ctx v Hok Ha H. destruct (relock_run c a v ctx Hok H) as (p & e & Hr & He & <- & _).
    unfold isLocked. rewrite (M_bind_run _ _ _ _ _ Hr). by rewrite (deref_entry_run _ _ _ _ He).
  - intros c a ctx v Hok Ha H.
    destruct (relock_run c a v ctx Hok H) as (p & e & Hr & He & _ & Hok' & Hlk).
    eexists. split; [|split; [exact Hok'|exact Hlk]].
    unfold setLocked. rewrite (M_bind_run _ _ _ _ _ Hr). by apply update_entry_run.
  - intros c a ctx Hok Ha H.
    destruct (relock_run c a (-1) ctx Hok H) as (p & e & Hr & He & _ & Hok' & Hlk).
    eexists. split; [|split; [exact Hok'|exact Hlk]].
    unfold clearLocked. rewrite (M_bind_run _ _ _ _ _ Hr). by apply update_entry_run.
  - intros c a v Hok Ha H. eexists.
    pose proof (locked_absent c a Hok (line_addr_line a Ha) H) as Hr.
    unfold isLocked, setLocked, mbind, M_bind. by rewrite Hr.
  - intros c a Hok Ha. by apply setMRU_run, line_addr_line.
Defined.
End laws.
End SequencerCache.
