(* ===== verification/SequencerExamples.v ===== *)
(** * A sequencer at work

    Runs of a sequencer on the caches of CacheExamples: the instances of the
    theorems of SequencerRuns, a store conditional that fails but writes, and the
    type of request that [removeRequest] looks for in the wrong table. *)

From S2P Require Import Prelude.
From S2P Require Import STEvent.
From S2P Require Import CString.
From S2P Require Import IntMath.
From S2P Require Import Requests.
From S2P Require Import RubyAddress.
From S2P Require Import Replacement.
From S2P Require Import CacheMemory.
From S2P Require Import CacheSpec.
From S2P Require Import CacheExamples.
From S2P Require Import Sequencer.
From S2P Require Import SequencerSpec.
From S2P Require Import SequencerRuns.
From S2P Require Import SequencerCache.
Import Requests RubyAddress Replacement CacheMemory CacheExamples Sequencer SequencerSpec
  SequencerRuns SequencerCache.

Module SequencerExamples.

Definition C : Type := Cache (PseudoLRUPolicy + LRUPolicy).
#[local] Instance example_cache : LineCache C := cache_memory example_cfg.
#[local] Instance example_laws : LineCacheLaws C (is_line_addr example_cfg) :=
  cache_memory_laws example_cfg.

(** At most two outstanding requests, a deadlock threshold of 100 cycles of 10
    ticks; the data cache holds the lines 0 and 128. *)
Definition clock : Z := 10.
Definition made_seq (r : result (Seq C)) : Seq C :=
  match r with Ok s => s | Err _ => mkSeq 0 0 0 ∅ ∅ 0 0 0 0 None c0 c0 0 0 0 false false false 0 [] end.
Definition q0 : Seq C := made_seq (newSeq 2 100 c3 c0 2 1 5 false false false 1000).

Definition after {A} (m : M (Seq C) A) (s : Seq C) : Seq C :=
  match m s with Ok (_, s') => s' | Err _ => s end.

Definition plain (id addr : Z) : packet :=
  mkPkt id addr 8 false false false false false false false (Some (replicate 8 id)) None.
Definition load_linked id addr := (plain id addr) <| isLLSC := true |> <| isRead := true |>.
Definition store_conditional id addr := (plain id addr) <| isLLSC := true |> <| isWrite := true |>.
Definition load id addr := (plain id addr) <| isRead := true |>.
Definition store id addr := (plain id addr) <| isWrite := true |>.
Definition flush id addr := (plain id addr) <| isFlush := true |>.

Definition block : list Z := replicate 64 0.

(** A load linked and its answer, then a store conditional and a load. *)
Definition q1 := after (makeRequest example_cfg clock (load_linked 1 8)) q0.
Definition q2 := after (writeCallback example_cfg clock 0 block) q1.
Definition q3 := after (makeRequest example_cfg clock (store_conditional 2 8)) q2.
Definition q4 := after (makeRequest example_cfg clock (load 3 256)) q3.

Abbreviation reach := (seq_reachable example_cfg clock).

Lemma q0_reach : reach q0.
Proof.
  apply (r_new _ _ 2 100 c3 c0 2 1 5 1000); try (unfold clock; lia); [done|apply c3_ok|apply c0_ok].
Qed.

Lemma u64_8 : is_u64 8.
Proof. zwidth. lia. Qed.
Lemma u64_256 : is_u64 256.
Proof. zwidth. lia. Qed.

Lemma request_reach pkt s st s' :
  reach s -> is_u64 pkt.(getAddr) -> makeRequest example_cfg clock pkt s = Ok (st, s') -> reach s'.
Proof. intros Hs Hu H. eapply r_step; [exact Hs|]. by eapply s_request. Qed.

Lemma q1_reach : reach q1.
Proof.
  eapply (request_reach (load_linked 1 8) q0 Issued);
    [apply q0_reach|apply u64_8|by vm_compute].
Qed.

Lemma q2_reach : reach q2.
Proof.
  eapply r_step; [exact q1_reach|]. eapply (s_write _ _ _ 0 block block). by vm_compute.
Qed.

Lemma q3_reach : reach q3.
Proof.
  eapply (request_reach (store_conditional 2 8) q2 Issued);
    [apply q2_reach|apply u64_8|by vm_compute].
Qed.

Lemma q4_reach : reach q4.
Proof.
  eapply (request_reach (load 3 256) q3 Issued);
    [apply q3_reach|apply u64_256|by vm_compute].
Qed.

Lemma requests_conserved_witness :
  enqueued q4.(actions) ≡ₚ answered q4.(actions) ++ waiting q4 /\
  Z.of_nat (length (waiting q4)) = q4.(m_outstanding_count) /\
  q4.(m_outstanding_count) <= q4.(m_max_outstanding_requests) /\
  q4.(m_writeRequestTable) ##ₘ q4.(m_readRequestTable) /\
  (0 < q4.(m_outstanding_count) -> is_Some q4.(deadlockCheckEvent)).
Proof. apply (requests_conserved example_cfg clock q4 q4_reach). Defined.

(** Two requests are outstanding and one has been answered. *)
Example q4_conserved :
  enqueued q4.(actions) = [3; 2; 1] /\ answered q4.(actions) = [1] /\ waiting q4 = [2; 3].
Proof. by vm_compute. Qed.

(** The buffer is full, and a line with an outstanding store is refused. *)
Lemma makeRequest_correct_witness :
  makeRequest example_cfg clock (store 4 512) q4 = Ok (BufferFull, q4) /\
  exists st s', makeRequest example_cfg clock (load 4 16) q3 = Ok (st, s') /\ st = Aliased.
Proof.
  assert ((q4.(m_max_outstanding_requests) <=? q4.(m_outstanding_count)) = true) as E4
    by by vm_compute.
  assert ((q3.(m_max_outstanding_requests) <=? q3.(m_outstanding_count)) = false) as E3
    by by vm_compute.
  assert (request_types (load 4 16) = Ok (LD, LD)) as Et by done.
  pose proof (makeRequest_correct example_cfg clock q4 (store 4 512) q4_reach) as H4.
  pose proof (makeRequest_correct example_cfg clock q3 (load 4 16) q3_reach) as H3.
  rewrite E4 in H4. rewrite E3, Et in H3. split; [exact H4|].
  destruct H3 as (st & s' & Hr & H3). exists st, s'. split; [exact Hr|].
  case_decide as Ho; [apply H3|]. destruct Ho. left.
  exists (mkRequest (store_conditional 2 8) Store_Conditional 100). by vm_compute.
Defined.

Lemma example_line_cfg : line_cfg example_cfg.
Proof. split; [cbn; lia|reflexivity]. Qed.

(** The store conditional finds its lock. *)
Lemma sc_succeeds_iff_locked_witness :
  exists data' s' pkt', writeCallback example_cfg clock 0 block q3 = Ok (data', s') /\
    head s'.(actions) = Some (HitCallback pkt') /\ pkt'.(pkt_id) = 2 /\
    pkt'.(extraData) = Some 1 /\
    forall b, lock_of s'.(m_dataCache) b =
      if decide (b = 0) then Some (-1) else lock_of q3.(m_dataCache) b.
Proof.
  assert (q3.(m_version) = 5) as Ev by by vm_compute.
  pose proof (sc_succeeds_iff_locked example_cfg clock q3 0
    (mkRequest (store_conditional 2 8) Store_Conditional 100) 5 block) as H.
  rewrite Ev in H. apply H; clear H;
    [apply example_line_cfg|apply q3_reach|by vm_compute|done|by vm_compute|].
  split; [by vm_compute|]. split; [by vm_compute|]. intros bytes [= <-]. by vm_compute.
Defined.

(** ... and without the load linked it fails. *)
Example sc_without_lock :
  let s := after (makeRequest example_cfg clock (store_conditional 2 8)) q0 in
  match writeCallback example_cfg clock 0 block s with
  | Ok (_, s') => match s'.(actions) with HitCallback pkt :: _ => pkt.(extraData) | _ => None end
  | Err _ => None
  end = Some 0.
Proof. by vm_compute. Qed.

(** A store conditional that fails writes its data to the block all the same:
    the callback looks at [success] for the trace message only. *)
Example failed_sc_writes :
  let s := after (makeRequest example_cfg clock (store_conditional 2 8)) q0 in
  match writeCallback example_cfg clock 0 block s with
  | Ok (data', s') =>
      (match s'.(actions) with HitCallback pkt :: _ => pkt.(extraData) | _ => None end,
       take 10 (drop 7 data'))
  | Err _ => (None, [])
  end = (Some 0, [0; 2; 2; 2; 2; 2; 2; 2; 2; 0]).
Proof. by vm_compute. Qed.

(** At tick 2000 the requests issued at tick 1000 are 100 cycles old. *)
Definition q5 := q4 <| curTick := 2000 |>.

Lemma q5_reach : reach q5.
Proof.
  eapply r_step; [exact q4_reach|]. apply s_tick; [by vm_compute| |by vm_compute].
  intros w Hw. assert (q4.(deadlockCheckEvent) = Some 2000) as H by by vm_compute.
  rewrite H in Hw. injection Hw as <-. done.
Qed.

Lemma deadlock_check_correct_witness :
  wakeup clock (fired q5) = Err (Panic "Possible Deadlock detected. Aborting!") /\
  wakeup clock (fired q2) = Ok (tt, q2 <| deadlockCheckEvent := None |>).
Proof.
  split.
  - apply (deadlock_check_correct example_cfg clock q5 q5_reach).
    exists 0, (mkRequest (store_conditional 2 8) Store_Conditional 100).
    split; [left; by vm_compute|by vm_compute].
  - apply (deadlock_check_correct example_cfg clock q2 q2_reach).
    intros (a & r & [Hr|Hr] & _).
    + assert (q2.(m_writeRequestTable) = ∅) as E by by vm_compute.
      rewrite E, lookup_empty in Hr. discriminate Hr.
    + assert (q2.(m_readRequestTable) = ∅) as E by by vm_compute.
      rewrite E, lookup_empty in Hr. discriminate Hr.
Defined.

(** [insertRequest] puts a flush in the table of writes, but [removeRequest]
    looks for it among the reads: taking it back leaves it in the table and the
    count assertion fails. *)
Example flush_not_removed :
  let s := after (makeRequest example_cfg clock (flush 7 8)) q0 in
  let r := mkRequest (flush 7 8) FLUSH 100 in
  s.(m_writeRequestTable) !! 0 = Some r /\
  removeRequest example_cfg r s = Err (AssertFail "m_outstanding_count == table sizes").
Proof. split; by vm_compute. Qed.

End SequencerExamples.
