(* ===== verification/MessageHeap.v ===== *)
(** * The priority heap of a message buffer
    (src/src/mem/ruby/buffers/MessageBufferNode.hh; [push_heap] and [pop_heap] of
    the C++ library as GCC's library implements them).

    A vector of nodes in heap order by arrival time, messages of one time by
    their number.  The comparison asserts that two nodes it compares are not
    equal, so the functions can fail. *)

From S2P Require Import Prelude.

Module MessageHeap.

Record MessageBufferNode := mkNode {
  m_time : Z;
  m_msg_counter : Z;                 (* uint64 *)
  m_msgptr : option Z                (* the message, [None] is null *)
}.

#[export] Instance node_eq_dec : EqDecision MessageBufferNode.
Proof. solve_decision. Defined.

(** The constructor takes the counter as an [int]. *)
Definition newNode (time counter : Z) (msgptr : option Z) : MessageBufferNode :=
  mkNode time (u64 (i32 counter)) msgptr.

(** [operator>]. *)
Definition node_gt (n1 n2 : MessageBufferNode) : result bool :=
  if n1.(m_time) =? n2.(m_time) then
    if n1.(m_msg_counter) =? n2.(m_msg_counter)
    then Err (AssertFail "n1.m_msg_counter != n2.m_msg_counter")
    else Ok (n2.(m_msg_counter) <? n1.(m_msg_counter))
  else Ok (n2.(m_time) <? n1.(m_time)).

Implicit Types (l : list MessageBufferNode) (v x y : MessageBufferNode).

(** Vector elements are read and written inside the vector only. *)
Definition node_at l (i : nat) : result MessageBufferNode :=
  match l !! i with Some x => Ok x | None => Err (UB "vector index") end.

(** [__push_heap]: the hole moves up from [hole] while the parent is greater
    than the value; the top is 0. *)
Fixpoint sift_up (fuel : nat) l (hole : nat) v : result (list MessageBufferNode) :=
  match fuel with
  | O => Err (Panic "fuel")
  | S fuel' =>
      match hole with
      | O => Ok (<[hole := v]> l)
      | S h =>
          let parent := (h / 2)%nat in
          p ← node_at l parent;
          greater ← node_gt p v;
          if (greater : bool) then sift_up fuel' (<[hole := p]> l) parent v
          else Ok (<[hole := v]> l)
      end
  end.

(** [push_back] and [push_heap] with [greater]. *)
Definition heap_push l v : result (list MessageBufferNode) :=
  sift_up (S (length l)) (l ++ [v]) (length l) v.

(** The first loop of [__adjust_heap]: the hole moves down to the lesser child
    while there are two. *)
Fixpoint sift_down (fuel : nat) l (hole : nat) : result (list MessageBufferNode * nat) :=
  match fuel with
  | O => Err (Panic "fuel")
  | S fuel' =>
      if decide (hole < (length l - 1) / 2)%nat then
        let second := (2 * (hole + 1))%nat in
        x ← node_at l second;
        y ← node_at l (second - 1);
        greater ← node_gt x y;
        let child := if (greater : bool) then (second - 1)%nat else second in
        c ← node_at l child;
        sift_down fuel' (<[hole := c]> l) child
      else Ok (l, hole)
  end.

(** [__adjust_heap] of the whole vector from the top: when the length is even
    the last parent has one child. *)
Definition adjust_heap l v : result (list MessageBufferNode) :=
  lh ← sift_down (S (length l)) l 0;
  let '(l1, hole) := lh in
  if Nat.even (length l1) && bool_decide (0 < length l1)%nat
     && bool_decide (hole = (length l1 - 2) / 2)%nat then
    let child := (2 * (hole + 1) - 1)%nat in
    c ← node_at l1 child;
    sift_up (S (length l1)) (<[hole := c]> l1) child v
  else sift_up (S (length l1)) l1 hole v.

(** [pop_heap] and [pop_back]: the last element goes where the first was. *)
Definition heap_pop l : result (list MessageBufferNode) :=
  match rev l with
  | [] => Err (UB "pop_back of an empty vector")
  | v :: _ =>
      let l' := removelast l in
      if decide (1 < length l)%nat then adjust_heap l' v else Ok l'
  end.

End MessageHeap.
