(* ===== verification/MessageBuffer.v ===== *)
(** * Message buffers, consumers and the Ruby event queue
    (class [MessageBuffer], src/src/mem/ruby/buffers/MessageBuffer.hh and .cc;
    [Consumer], src/src/mem/ruby/common/Consumer.hh; [RubyEventQueue] and its
    nodes, src/src/mem/ruby/eventqueue).

    A buffer between two components of the memory system: messages become
    available a number of cycles after they are put in, and the consumer of the
    buffer is woken when they do.  A consumer may also stall the head message on
    an address and have the stalled messages analysed again later.

    The messages are shared objects, so the model keeps a store of them and the
    buffer holds pointers.  The state is one buffer with its consumer, the
    store, the clock and the wakeups in the simulator's queue; [random()] is the
    parameter [rand].  Times are 64-bit and do not overflow in any simulation
    that ends; they are integers here, the [int] counters wrap. *)

From stdpp Require Import sorting.
From S2P Require Import Prelude.
From S2P Require Import STEvent.
From S2P Require Import CString.
From S2P Require Import Requests.
From S2P Require Import RubyAddress.
From S2P Require Import MessageHeap.
Import Requests RubyAddress MessageHeap.

Module MessageBuffer.

(** The fields of [Message] that buffers use. *)
Record Message := mkMessage {
  m_LastEnqueueTime : Z;
  m_DelayedCycles : Z                       (* int *)
}.
#[global] Instance Message_eta : Settable Message := fun m =>
  mkMessage m.(m_LastEnqueueTime) m.(m_DelayedCycles).

Record Buffer := mkBuffer {
  (* the buffer *)
  m_prio_heap : list MessageBufferNode;
  m_stall_msg_map : gmap Z (list (option Z));
  m_consumer_set : bool;                    (* m_consumer_ptr != NULL *)
  m_max_size : Z;
  m_size : Z;
  m_time_last_time_size_checked : Z;
  m_size_last_time_size_checked : Z;
  m_time_last_time_enqueue : Z;
  m_time_last_time_pop : Z;
  m_size_at_cycle_start : Z;
  m_msgs_this_cycle : Z;
  m_not_avail_count : Z;
  m_counter : Z;                            (* m_msg_counter, uint64 *)
  m_strict_fifo : bool;
  m_ordering_set : bool;
  m_randomization : bool;
  m_last_arrival_time : Z;
  m_recycle_latency : Z;
  m_vnet_id : Z;
  (* around it *)
  m_scheduled_wakeups : gset Z;             (* of the consumer *)
  messages : gmap Z Message;
  wakeups : list Z;                         (* ticks of the consumer's events *)
  event_infos : list Z;                     (* storeEventInfo *)
  curTick : Z;
  system_randomization : bool;              (* RubySystem::getRandomization() *)
  warmup_enabled : bool;
  draws : nat                               (* random() called so often *)
}.
#[global] Instance Buffer_eta : Settable Buffer := fun b =>
  mkBuffer b.(m_prio_heap) b.(m_stall_msg_map) b.(m_consumer_set) b.(m_max_size) b.(m_size)
    b.(m_time_last_time_size_checked) b.(m_size_last_time_size_checked)
    b.(m_time_last_time_enqueue) b.(m_time_last_time_pop) b.(m_size_at_cycle_start)
    b.(m_msgs_this_cycle) b.(m_not_avail_count) b.(m_counter) b.(m_strict_fifo)
    b.(m_ordering_set) b.(m_randomization) b.(m_last_arrival_time) b.(m_recycle_latency)
    b.(m_vnet_id) b.(m_scheduled_wakeups) b.(messages) b.(wakeups) b.(event_infos) b.(curTick)
    b.(system_randomization) b.(warmup_enabled) b.(draws).

(** The constructor; [m_recycle_latency] is not initialised, so its first
    value is arbitrary. *)
Definition newBuffer (recycle : Z) (msgs : gmap Z Message) (tick : Z)
  (randomization warmup : bool) : Buffer :=
  mkBuffer [] ∅ false (-1) 0 0 0 0 0 0 0 0 0 true false true 0 recycle 0
    ∅ msgs [] [] tick randomization warmup 0.

(** The order in which [std::map] iterates. *)
Definition by_address (a b : Z * list (option Z)) : Prop := a.1 <= b.1.

#[export] Instance by_address_dec : RelDecision by_address.
Proof. unfold by_address. intros a b. apply _. Defined.

Section buffer.
Context (cfg : RubyCfg) (m_clock : Z) (rand : nat -> Z).

Abbreviation MB := (M Buffer).

(** ** The Ruby event queue *)
Definition getTime : MB Z := gets (fun b => b.(curTick) / m_clock).

Definition alreadyScheduled (time : Z) : MB bool :=
  gets (fun b => bool_decide (time ∈ b.(m_scheduled_wakeups))).

Definition insertScheduledWakeupTime (time : Z) : MB unit :=
  modify (fun b => b <| m_scheduled_wakeups ::= fun s => {[ time ]} ∪ s |>).

Definition removeScheduledWakeupTime (time : Z) : MB unit :=
  scheduled ← alreadyScheduled time;
  assert_ scheduled "alreadyScheduled(time)";;
  modify (fun b => b <| m_scheduled_wakeups ::= fun s => s ∖ {[ time ]} |>).

(** A null consumer fails the assertion. *)
Definition scheduleEventAbsolute (timeAbs : Z) : MB unit :=
  consumer ← gets m_consumer_set;
  assert_ consumer "consumer != NULL";;
  scheduled ← alreadyScheduled timeAbs;
  if (scheduled : bool) then mret tt
  else
    now ← getTime;
    assert_ (now <? timeAbs) "timeAbs > getTime()";;
    modify (fun b => b <| wakeups ::= cons (timeAbs * m_clock) |>);;
    insertScheduledWakeupTime timeAbs.

Definition scheduleEvent (timeDelta : Z) : MB unit :=
  now ← getTime; scheduleEventAbsolute (timeDelta + now).

(** [RubyEventQueueNode::process]: the event is off the queue, the consumer
    runs ([wakeup], virtual), then the time is unmarked. *)
Definition process (wakeup : MB unit) : MB unit :=
  wakeup;;
  now ← getTime;
  removeScheduledWakeupTime now.

(** ** Sizes *)
Definition getSize : MB Z :=
  now ← getTime;
  b ← get;
  if b.(m_time_last_time_size_checked) =? now then mret b.(m_size_last_time_size_checked)
  else
    modify (fun b => b <| m_time_last_time_size_checked := now |>
                       <| m_size_last_time_size_checked := b.(m_size) |>);;
    mret b.(m_size).

(** The size that other components see in this cycle. *)
Definition visible_size (now : Z) (b : Buffer) : Z :=
  if b.(m_time_last_time_pop) <? now then b.(m_size)
  else if b.(m_time_last_time_enqueue) <? now then b.(m_size_at_cycle_start)
  else i32 (b.(m_size_at_cycle_start) + b.(m_msgs_this_cycle)).

Definition areNSlotsAvailable (n : Z) : MB bool :=
  b ← get;
  if b.(m_max_size) =? -1 then mret true
  else
    now ← getTime;
    if i32 (visible_size now b + n) <=? b.(m_max_size) then mret true
    else
      modify (fun b => b <| m_not_avail_count ::= fun k => i32 (k + 1) |>);;
      mret false.

(** ** The head *)
Definition front : MB MessageBufferNode :=
  b ← get;
  match b.(m_prio_heap) with
  | [] => fail (UB "front of an empty vector")
  | n :: _ => mret n
  end.

Definition isReady : MB bool :=
  now ← getTime;
  b ← get;
  mret (match b.(m_prio_heap) with [] => false | n :: _ => n.(m_time) <=? now end).

Definition isEmpty : MB bool := gets (fun b => bool_decide (b.(m_prio_heap) = [])).

Definition assert_ready : MB unit := r ← isReady; assert_ r "isReady()".

Definition peekMsgPtr : MB (option Z) :=
  assert_ready;; n ← front; mret n.(m_msgptr).

Definition peekMsgPtrEvenIfNotReady : MB (option Z) := n ← front; mret n.(m_msgptr).

(** [peekAtHeadOfQueue] also checks the pointer. *)
Definition peekAtHeadOfQueue : MB Z :=
  assert_ready;;
  n ← front;
  match n.(m_msgptr) with
  | None => fail (AssertFail "msg_ptr")
  | Some p => mret p
  end.

(** ** Messages *)
Definition random : MB Z := fun b => Ok (rand b.(draws), b <| draws ::= S |>).

Definition random_time : MB Z :=
  r1 ← random;
  let time := 1 + Z.land r1 0x3 in
  r2 ← random;
  if Z.land r2 0x7 =? 0 then
    r3 ← random; mret (time + (100 + r3 mod 0xf))
  else mret time.

Definition deref_message (p : option Z) : MB (Z * Message) :=
  match p with
  | None => fail (UB "null message")
  | Some q =>
      msgs ← gets messages;
      match msgs !! q with
      | None => fail (UB "dangling message")
      | Some m => mret (q, m)
      end
  end.

Definition set_message (q : Z) (m : Message) : MB unit :=
  modify (fun b => b <| messages ::= <[q := m]> |>).

Definition push_node (n : MessageBufferNode) : MB unit :=
  h ← gets m_prio_heap;
  h' ← lift (heap_push h n);
  modify (fun b => b <| m_prio_heap := h' |>).

Definition pop_node : MB unit :=
  h ← gets m_prio_heap;
  h' ← lift (heap_pop h);
  modify (fun b => b <| m_prio_heap := h' |>).

(** ** Enqueue *)

(** The first cycle in which the message can be taken. *)
Definition arrival (delta : Z) : MB Z :=
  now ← getTime;
  b ← get;
  if negb b.(system_randomization) || negb b.(m_randomization) then mret (now + delta)
  else if b.(m_strict_fifo) then
    when (b.(m_last_arrival_time) <? now)
      (modify (fun b => b <| m_last_arrival_time := now |>));;
    last ← gets m_last_arrival_time;
    r ← random_time;
    mret (last + r)
  else r ← random_time; mret (now + r).

Definition enqueue (message : option Z) (delta : Z) : MB unit :=
  modify (fun b => b <| m_counter ::= fun n => u64 (n + 1) |>
                     <| m_size ::= fun n => i32 (n + 1) |>);;
  now ← getTime;
  b ← get;
  when (b.(m_time_last_time_enqueue) <? now)
    (modify (fun b => b <| m_msgs_this_cycle := 0 |> <| m_time_last_time_enqueue := now |>));;
  modify (fun b => b <| m_msgs_this_cycle ::= fun n => i32 (n + 1) |>);;
  (if b.(m_ordering_set) then mret tt
   else fail (Panic "Ordering property has not been set"));;
  assert_ (0 <? delta) "delta>0";;
  arrival_time ← arrival delta;
  assert_ (now <? arrival_time) "arrival_time > current_time";;
  last ← gets m_last_arrival_time;
  (if b.(m_strict_fifo) && (arrival_time <? last)
   then fail (Panic "FIFO ordering violated") else mret tt);;
  when (negb b.(warmup_enabled))
    (modify (fun b => b <| m_last_arrival_time := arrival_time |>));;
  match message with
  | None => fail (AssertFail "msg_ptr != NULL")
  | Some _ =>
      qm ← deref_message message;
      let '(q, m) := qm in
      assert_ (m.(m_LastEnqueueTime) <=? now) "ensure we aren't dequeued early";;
      set_message q (mkMessage arrival_time
        (i32 (now - m.(m_LastEnqueueTime) + m.(m_DelayedCycles))));;
      counter ← gets m_counter;
      push_node (newNode arrival_time counter message);;
      if b.(m_consumer_set) then
        scheduleEventAbsolute arrival_time;;
        modify (fun b => b <| event_infos ::= cons b.(m_vnet_id) |>)
      else fail (Panic "No consumer")
  end.

(** [delayHead]: takes the head off and enqueues it again. *)
Definition delayHead : MB unit :=
  node ← front;
  pop_node;;
  enqueue node.(m_msgptr) 1.

(** ** Dequeue *)
Definition pop : MB unit :=
  assert_ready;;
  pop_node;;
  now ← getTime;
  b ← get;
  when (b.(m_time_last_time_pop) <? now)
    (modify (fun b => b <| m_size_at_cycle_start := b.(m_size) |>
                        <| m_time_last_time_pop := now |>));;
  modify (fun b => b <| m_size ::= fun n => i32 (n - 1) |>).

Definition dequeue : MB (option Z) :=
  n ← front;
  pop;;
  mret n.(m_msgptr).

Definition setAndReturnDelayCycles (msg_ptr : option Z) : MB Z :=
  now ← getTime;
  qm ← deref_message msg_ptr;
  let '(q, m) := qm in
  assert_ (m.(m_LastEnqueueTime) <=? now) "getLastEnqueueTime() <= getTime()";;
  let delay_cycles := i32 (now - m.(m_LastEnqueueTime) + m.(m_DelayedCycles)) in
  set_message q (m <| m_DelayedCycles := delay_cycles |>);;
  assert_ (0 <=? delay_cycles) "delay_cycles >= 0";;
  mret delay_cycles.

(** The two overloads of [dequeue_getDelayCycles]. *)
Definition dequeue_getDelayCycles_msg : MB (option Z * Z) :=
  message ← dequeue;
  delay_cycles ← setAndReturnDelayCycles message;
  assert_ (0 <=? delay_cycles) "delay_cycles >= 0";;
  mret (message, delay_cycles).

Definition dequeue_getDelayCycles : MB Z :=
  n ← front;
  delay_cycles ← setAndReturnDelayCycles n.(m_msgptr);
  pop;;
  assert_ (0 <=? delay_cycles) "delay_cycles >= 0";;
  mret delay_cycles.

Definition clear : MB unit :=
  modify (fun b => b <| m_prio_heap := [] |> <| m_counter := 0 |> <| m_size := 0 |>
    <| m_time_last_time_enqueue := 0 |> <| m_time_last_time_pop := 0 |>
    <| m_size_at_cycle_start := 0 |> <| m_msgs_this_cycle := 0 |>).

Definition recycle : MB unit :=
  assert_ready;;
  node ← front;
  pop_node;;
  now ← getTime;
  latency ← gets m_recycle_latency;
  push_node (mkNode (now + latency) node.(m_msg_counter) node.(m_msgptr));;
  scheduleEventAbsolute (now + latency).

(** ** Stalled messages *)
Definition reanalyze_one (message : option Z) : MB unit :=
  modify (fun b => b <| m_counter ::= fun n => u64 (n + 1) |>);;
  now ← getTime;
  counter ← gets m_counter;
  push_node (newNode (now + 1) counter message);;
  scheduleEventAbsolute (now + 1).

Definition reanalyzeMessages (addr : Z) : MB unit :=
  stalled ← gets m_stall_msg_map;
  match stalled !! addr with
  | None => fail (AssertFail "m_stall_msg_map.count(addr) > 0")
  | Some msgs =>
      for_each msgs reanalyze_one;;
      modify (fun b => b <| m_stall_msg_map ::= delete addr |>)
  end.

Definition stalled_in_order (m : gmap Z (list (option Z))) : list (option Z) :=
  concat (snd <$> merge_sort by_address (map_to_list m)).

Definition reanalyzeAllMessages : MB unit :=
  stalled ← gets m_stall_msg_map;
  for_each (stalled_in_order stalled) reanalyze_one;;
  modify (fun b => b <| m_stall_msg_map := ∅ |>).

Definition stallMessage (addr : Z) : MB unit :=
  assert_ready;;
  offset ← lift (getOffset cfg addr);
  assert_ (offset =? 0) "addr.getOffset() == 0";;
  n ← front;
  pop;;
  modify (fun b => b <| m_stall_msg_map ::=
    fun m => <[addr := default [] (m !! addr) ++ [n.(m_msgptr)]]> m |>).

(** ** Configuration *)
Definition setConsumer : MB unit :=
  set ← gets m_consumer_set;
  assert_ (negb set) "m_consumer_ptr == NULL";;
  modify (fun b => b <| m_consumer_set := true |>).

Definition setOrdering (order : bool) : MB unit :=
  modify (fun b => b <| m_strict_fifo := order |> <| m_ordering_set := true |>).

Definition resize (size : Z) : MB unit := modify (fun b => b <| m_max_size := size |>).

Definition setRandomization (random_flag : bool) : MB unit :=
  modify (fun b => b <| m_randomization := random_flag |>).

Definition setRecycleLatency (latency : Z) : MB unit :=
  modify (fun b => b <| m_recycle_latency := latency |>).

Definition clearStats : MB unit :=
  modify (fun b => b <| m_not_avail_count := 0 |> <| m_counter := 0 |>).

End buffer.
End MessageBuffer.
