(* ===== verification/MessageBufferFifo.v ===== *)
(** * What message buffers promise

    The heap ([MessageHeapSpec]), the operations of a buffer
    ([MessageBufferSpec]) and the refinement of a queue with delays
    ([MessageBufferFifo]). *)

From Stdlib Require Import ZifyNat.
From Stdlib Require Import Sorted.
From S2P Require Import Prelude.
From S2P Require Import MessageHeap.
From S2P Require Import Requests.
From S2P Require Import RubyAddress.
From S2P Require Import MessageBuffer.
From S2P Require Import STEvent.
From S2P Require Import CString.

(** * The priority heap is correct

    Pushing adds exactly the node, popping removes exactly the least one, both
    keep the heap order, compare no node with itself and terminate. *)
Module MessageHeapSpec.
Import MessageHeap.

#[local] Ltac Zify.zify_post_hook ::= Z.to_euclidean_division_equations.

Implicit Types (l L : list MessageBufferNode) (v x y : MessageBufferNode) (i h c : nat).

(** ** The order *)
Definition nle x y : Prop :=
  x.(m_time) < y.(m_time) \/
  (x.(m_time) = y.(m_time) /\ x.(m_msg_counter) <= y.(m_msg_counter)).

Definition key x : Z * Z := (x.(m_time), x.(m_msg_counter)).
Definition distinct l : Prop := NoDup (key <$> l).

#[export] Instance nle_trans : Transitive nle.
Proof. intros x y z. unfold nle. lia. Qed.

Lemma nle_total x y : nle x y \/ nle y x.
Proof. unfold nle. lia. Qed.

Lemma node_gt_run x y : key x <> key y ->
  (node_gt x y = Ok true /\ nle y x) \/ (node_gt x y = Ok false /\ nle x y).
Proof.
  unfold key, node_gt, nle. intros Hk.
  destruct (m_time x =? m_time y) eqn:Et; bool_to_Z.
  - destruct (m_msg_counter x =? m_msg_counter y) eqn:Ec; bool_to_Z; [by destruct Hk; congruence|].
    destruct (_ <? _) eqn:E; bool_to_Z; [left|right]; (split; [done|lia]).
  - destruct (_ <? _) eqn:E; bool_to_Z; [left|right]; (split; [done|lia]).
Qed.

Lemma distinct_at l i j x y :
  distinct l -> l !! i = Some x -> l !! j = Some y -> i <> j -> key x <> key y.
Proof.
  intros Hd Hx Hy Hij Hk. apply Hij. eapply (NoDup_lookup (key <$> l)); [done| |].
  - by rewrite list_lookup_fmap, Hx.
  - rewrite list_lookup_fmap, Hy. cbn. by rewrite Hk.
Qed.

#[export] Instance distinct_perm : Proper ((≡ₚ) ==> iff) distinct.
Proof. intros l l' H. unfold distinct. by rewrite H. Qed.

Lemma node_at_run l i x : l !! i = Some x -> node_at l i = Ok x.
Proof. intros H. unfold node_at. by rewrite H. Qed.

(** ** Heap order *)
Definition parent i : nat := ((i - 1) / 2)%nat.

(** The order holds between [i] and its parent for the indices of [I]. *)
Definition ordered_on (I : nat -> Prop) l : Prop :=
  forall i x y, (0 < i)%nat -> I i -> l !! parent i = Some x -> l !! i = Some y -> nle x y.

Definition heap l : Prop := ordered_on (fun _ => True) l.

(** The grandparents of a hole are below its children. *)
Definition bridged h l : Prop :=
  forall c x y, (0 < h)%nat -> (0 < c)%nat -> parent c = h ->
    l !! parent h = Some x -> l !! c = Some y -> nle x y.

Lemma heap_least l x : heap l -> l !! 0%nat = Some x -> forall y, y ∈ l -> nle x y.
Proof.
  intros Hh Hx y [i Hi]%list_elem_of_lookup. revert y Hi.
  induction (lt_wf i) as [i _ IH]. intros y Hi. destruct (decide (i = 0%nat)) as [->|].
  - assert (y = x) as -> by congruence. unfold nle. lia.
  - assert (parent i < length l)%nat as [z Hz]%lookup_lt_is_Some
      by (apply lookup_lt_Some in Hi; unfold parent; lia).
    trans z; [|by apply (Hh i); [lia|..]]. apply (IH (parent i)); [unfold parent; lia|done].
Qed.

(** ** Exchanging *)
Lemma insert_perm l i x y : l !! i = Some x -> x :: <[i := y]> l ≡ₚ y :: l.
Proof.
  revert i. induction l as [|z l IH]; intros [|i] H; try done; cbn in *.
  - injection H as ->. apply Permutation_swap.
  - rewrite (Permutation_swap z x), (IH i H). apply Permutation_swap.
Qed.

(** Moving the element at [i] into the hole [h], and the hole to [i]. *)
Lemma move_perm l h i x v :
  h <> i -> (h < length l)%nat -> l !! i = Some x ->
  <[i := v]> (<[h := x]> l) ≡ₚ <[h := v]> l.
Proof.
  intros Hne Hh Hx. apply (Permutation_cons_inv (a := x)).
  rewrite insert_perm by (by rewrite list_lookup_insert_ne).
  rewrite <- (insert_perm (<[h := v]> l) h v x) by (by apply list_lookup_insert_eq).
  by rewrite list_insert_insert_eq.
Qed.

(** ** Moving up *)
Lemma lookup_hole l h v i : i <> h -> <[h := v]> l !! i = l !! i.
Proof. intros Hne. by rewrite list_lookup_insert_ne. Qed.

(** One step up: the parent's element [x] moves into the hole [h]. *)
Section step_up.
Context (l : list MessageBufferNode) (h : nat) (v x : MessageBufferNode).
Hypothesis (Hh : (h < length l)%nat) (H0 : (0 < h)%nat) (Hx : l !! parent h = Some x)
  (Hle : nle v x).
Hypothesis (Ho : ordered_on (fun i => i <> h) (<[h := v]> l)) (Hb : bridged h (<[h := v]> l)).

Lemma up_ordered : ordered_on (fun i => i <> parent h) (<[parent h := v]> (<[h := x]> l)).
Proof using Hh H0 Hx Hle Ho Hb.
  assert (parent h < h)%nat by (unfold parent; lia).
  intros i a b Hi Hne. rewrite (lookup_hole _ (parent h) _ i) by lia.
  destruct (decide (parent i = parent h)) as [Epi|Npi].
  - rewrite Epi, list_lookup_insert_eq by (rewrite length_insert; lia). intros [= <-].
    destruct (decide (i = h)) as [->|Nih].
    + rewrite list_lookup_insert_eq by done. by intros [= <-].
    + rewrite lookup_hole by done. intros Hb'. trans x; [done|].
      apply (Ho i); [done..| |by rewrite lookup_hole]. by rewrite Epi, lookup_hole by lia.
  - rewrite (lookup_hole _ (parent h) _ (parent i)) by done.
    destruct (decide (i = h)) as [->|Nih]; [done|]. rewrite (lookup_hole _ h _ i) by done.
    destruct (decide (parent i = h)) as [Eph|Nph].
    + rewrite Eph, list_lookup_insert_eq by done. intros [= <-] Hb'.
      apply (Hb i); [lia|done..| |by rewrite lookup_hole]. by rewrite lookup_hole by lia.
    + rewrite lookup_hole by done. intros Ha Hb'.
      apply (Ho i); [done..| |]; by rewrite lookup_hole.
Qed.

Lemma up_bridged : bridged (parent h) (<[parent h := v]> (<[h := x]> l)).
Proof using Hh H0 Hx Ho.
  assert (parent h < h)%nat by (unfold parent; lia).
  intros c a b Hp0 Hc Hpc.
  assert (parent (parent h) < parent h)%nat by (unfold parent at 1; lia).
  assert (c <> parent h) by (intros ->; lia).
  rewrite (lookup_hole _ (parent h) _ (parent (parent h))),
    (lookup_hole _ h _ (parent (parent h))) by lia.
  rewrite (lookup_hole _ (parent h) _ c) by done. intros Ha Hc'.
  assert (nle a x) by (apply (Ho (parent h)); [lia|lia|..]; by rewrite lookup_hole by lia).
  destruct (decide (c = h)) as [->|Nch].
  - rewrite list_lookup_insert_eq in Hc' by done. by injection Hc' as <-.
  - rewrite lookup_hole in Hc' by done. trans x; [done|].
    apply (Ho c); [done..| |by rewrite lookup_hole]. by rewrite Hpc, lookup_hole by lia.
Qed.
End step_up.

Lemma sift_up_run fuel l h v :
  (h < fuel)%nat -> (h < length l)%nat -> distinct (<[h := v]> l) ->
  ordered_on (fun i => i <> h) (<[h := v]> l) -> bridged h (<[h := v]> l) ->
  exists l', sift_up fuel l h v = Ok l' /\ l' ≡ₚ <[h := v]> l /\ heap l'.
Proof.
  revert l h. induction fuel as [|fuel IH]; intros l h Hf Hh Hd Ho Hb; [lia|].
  destruct h as [|k]; cbn [sift_up].
  { eexists. split_and!; [done..|]. intros i x y Hi _. apply Ho; lia. }
  set (h := S k) in *. assert ((k / 2)%nat = parent h) as -> by (unfold parent; lia).
  assert (parent h < h)%nat as Hp by (unfold parent; lia).
  assert (parent h < length l)%nat as [x Hx]%lookup_lt_is_Some by lia.
  assert (<[h := v]> l !! parent h = Some x) as HLp by (by rewrite lookup_hole by lia).
  assert (<[h := v]> l !! h = Some v) as HLh by (by apply list_lookup_insert_eq).
  rewrite (node_at_run _ _ _ Hx), bind_Ok_run.
  destruct (node_gt_run x v (distinct_at _ (parent h) h _ _ Hd HLp HLh ltac:(lia)))
    as [[-> Hle]|[-> Hle]]; rewrite bind_Ok_run.
  - assert (<[parent h := v]> (<[h := x]> l) ≡ₚ <[h := v]> l) as Hperm
      by (apply move_perm; [lia|done..]).
    destruct (IH (<[h := x]> l) (parent h)) as (l' & Hr & Hl' & Hheap);
      [lia|rewrite length_insert; lia|by rewrite Hperm|apply up_ordered; (done || lia)|
       apply up_bridged; (done || lia)|].
    exists l'. split; [done|]. split; [by rewrite Hl'|done].
  - eexists. split_and!; [done..|]. intros i a b Hi _ Ha Hb'.
    destruct (decide (i = h)) as [->|Nih]; [|by apply (Ho i)]. by simplify_eq.
Qed.

(** [push_back] and [push_heap] add exactly the node. *)
Lemma heap_push_run l v :
  heap l -> distinct (v :: l) ->
  exists l', heap_push l v = Ok l' /\ l' ≡ₚ v :: l /\ heap l'.
Proof.
  intros Hh Hd. unfold heap_push.
  assert (<[length l := v]> (l ++ [v]) = l ++ [v]) as E by (by rewrite insert_app_r_alt, Nat.sub_diag by lia).
  destruct (sift_up_run (S (length l)) (l ++ [v]) (length l) v) as (l' & Hr & Hp & Hl'); rewrite ?E.
  - lia.
  - rewrite length_app. cbn. lia.
  - by rewrite (Permutation_app_comm l).
  - intros i x y Hi Hne. intros Hx Hy.
    assert (i < length l)%nat by (apply lookup_lt_Some in Hy; rewrite length_app in Hy; cbn in Hy; lia).
    rewrite lookup_app_l in Hy by done. rewrite lookup_app_l in Hx by (unfold parent; lia).
    by apply (Hh i).
  - intros c x y _ Hc Hpc _ Hy. apply lookup_lt_Some in Hy.
    rewrite length_app in Hy. cbn in Hy. unfold parent in Hpc. lia.
  - exists l'. split; [done|]. split; [|done]. rewrite Hp, E. by rewrite Permutation_app_comm.
Qed.

(** ** Moving down *)

(** One step down: the lesser child's element [x] moves into the hole [h]. *)
Definition hollow h l : Prop :=
  ordered_on (fun i => i <> h /\ parent i <> h) l /\ bridged h l.

Lemma down_hollow l h c x :
  (h < length l)%nat -> (0 < c)%nat -> parent c = h -> l !! c = Some x -> hollow h l ->
  (forall i y, (0 < i)%nat -> parent i = h -> l !! i = Some y -> nle x y) ->
  hollow c (<[h := x]> l).
Proof.
  intros Hh Hc Hpc Hx [Ho Hb] Hleast. assert (h < c)%nat by (unfold parent in *; lia). split.
  - intros i a b Hi [Nic Npc].
    destruct (decide (i = h)) as [->|Nih].
    + rewrite (lookup_hole _ h _ (parent h)) by (unfold parent; lia).
      rewrite list_lookup_insert_eq by done. intros Ha [= <-]. by apply (Hb c).
    + rewrite (lookup_hole _ h _ i) by done. destruct (decide (parent i = h)) as [Eph|Nph].
      * rewrite Eph, list_lookup_insert_eq by done. intros [= <-]. by apply Hleast.
      * rewrite lookup_hole by done. by apply Ho.
  - intros k a b _ Hk Hpk. assert (c < k)%nat by (unfold parent in *; lia).
    rewrite Hpc, list_lookup_insert_eq by done. intros [= <-].
    rewrite lookup_hole by lia. intros Hb'. apply (Ho k); [lia| |by rewrite Hpk|done]. lia.
Qed.

Lemma sift_down_run fuel l h v :
  (length l - h <= fuel)%nat -> (h < length l)%nat -> distinct (<[h := v]> l) -> hollow h l ->
  exists l' h', sift_down fuel l h = Ok (l', h') /\ length l' = length l /\
    (h' < length l)%nat /\ ((length l - 1) / 2 <= h')%nat /\
    <[h' := v]> l' ≡ₚ <[h := v]> l /\ hollow h' l'.
Proof.
  revert l h. induction fuel as [|fuel IH]; intros l h Hf Hh Hd Hho; [lia|].
  cbn [sift_down]. case_decide as Hlt; [|exists l, h; split_and!; (done || lia)].
  assert (2 * (h + 1) < length l)%nat as [x Hx]%lookup_lt_is_Some by lia.
  assert (2 * (h + 1) - 1 < length l)%nat as [y Hy]%lookup_lt_is_Some by lia.
  rewrite (node_at_run _ _ _ Hx), bind_Ok_run, (node_at_run _ _ _ Hy), bind_Ok_run.
  assert (exists c z, (c = 2 * (h + 1) \/ c = 2 * (h + 1) - 1)%nat /\ l !! c = Some z /\
    nle z x /\ nle z y /\
    exists b, node_gt x y = Ok b /\
      (if b then (2 * (h + 1) - 1)%nat else (2 * (h + 1))%nat) = c)
    as (c & z & Hc & Hz & Hzx & Hzy & b & Hb & Eb).
  { assert (forall w, nle w w) as Hrefl by (intros w; unfold nle; lia).
    destruct (node_gt_run x y) as [[-> Hle]|[-> Hle]];
      [|by eexists _, y; split_and!; [right| | | |eexists; split]; eauto
       |by eexists _, x; split_and!; [left| | | |eexists; split]; eauto].
    apply (distinct_at (<[h := v]> l) (2 * (h + 1)) (2 * (h + 1) - 1)); [done| | |lia];
      by rewrite lookup_hole by lia. }
  rewrite Hb, bind_Ok_run, Eb, (node_at_run _ _ _ Hz), bind_Ok_run.
  assert (parent c = h) as Hpc by (unfold parent; lia).
  assert (<[c := v]> (<[h := z]> l) ≡ₚ <[h := v]> l) as Hperm by (apply move_perm; [lia|done..]).
  destruct (IH (<[h := z]> l) c) as (l' & h' & Hr & Hlen & Hl & Hb' & Hp & Hho').
  - rewrite length_insert. lia.
  - rewrite length_insert. lia.
  - by rewrite Hperm.
  - apply down_hollow; [done|lia|done..|]. intros i w Hi Hpi Hw.
    assert (i = 2 * (h + 1) \/ i = 2 * (h + 1) - 1)%nat as [-> | ->] by (unfold parent in Hpi; lia);
      by simplify_eq.
  - rewrite length_insert in *. exists l', h'. split_and!; try done. by rewrite Hp.
Qed.

(** A hollow heap whose hole has no children is filled by moving up. *)
Lemma fill_run l h v :
  (h < length l)%nat -> (length l <= 2 * h + 1)%nat -> distinct (<[h := v]> l) -> hollow h l ->
  exists l', sift_up (S (length l)) l h v = Ok l' /\ l' ≡ₚ <[h := v]> l /\ heap l'.
Proof.
  intros Hh Hleaf Hd [Ho Hb]. apply sift_up_run; [lia|done|done| |].
  - intros i x y Hi Hne Hx Hy. pose proof (lookup_lt_Some _ _ _ Hy) as Hl.
    rewrite length_insert in Hl. assert (parent i <> h) by (unfold parent; lia).
    rewrite lookup_hole in Hx, Hy by done. by apply (Ho i).
  - intros c x y _ Hc Hpc _ Hy. apply lookup_lt_Some in Hy. rewrite length_insert in Hy.
    unfold parent in Hpc. lia.
Qed.

Lemma adjust_heap_run l v :
  (0 < length l)%nat -> distinct (<[0%nat := v]> l) -> hollow 0 l ->
  exists l', adjust_heap l v = Ok l' /\ l' ≡ₚ <[0%nat := v]> l /\ heap l'.
Proof.
  intros Hl Hd Hho. unfold adjust_heap.
  destruct (sift_down_run (S (length l)) l 0 v)
    as (l1 & h & -> & Hlen & Hh & Hdown & Hp & Hho1); [lia|done..|].
  rewrite bind_Ok_run. destruct (_ && _) eqn:E.
  - rewrite !andb_true_iff, Nat.even_spec, !bool_decide_eq_true in E.
    destruct E as [[[m Hm] _] Eh].
    assert (2 * (h + 1) - 1 < length l1)%nat as [x Hx]%lookup_lt_is_Some by lia.
    rewrite (node_at_run _ _ _ Hx), bind_Ok_run.
    assert (<[(2 * (h + 1) - 1)%nat := v]> (<[h := x]> l1) ≡ₚ <[0%nat := v]> l) as Hperm
      by (rewrite move_perm by (done || lia); done).
    destruct (fill_run (<[h := x]> l1) (2 * (h + 1) - 1) v) as (l' & Hr & Hl' & Hheap).
    + rewrite length_insert. lia.
    + rewrite length_insert. lia.
    + by rewrite Hperm.
    + apply down_hollow; [lia|lia|unfold parent; lia|done|done|].
      intros i y Hi Hpi Hy. pose proof (lookup_lt_Some _ _ _ Hy).
      assert (i = 2 * (h + 1) - 1)%nat as -> by (unfold parent in Hpi; lia).
      simplify_eq. unfold nle. lia.
    + rewrite length_insert in Hr. exists l'. split; [done|]. split; [by rewrite Hl'|done].
  - assert (length l1 <= 2 * h + 1)%nat.
    { apply not_true_iff_false in E. rewrite !andb_true_iff, Nat.even_spec, !bool_decide_eq_true in E.
      destruct (decide (length l1 <= 2 * h + 1)%nat); [done|]. destruct E.
      split_and!; [exists (h + 1)%nat; lia|lia|lia]. }
    destruct (fill_run l1 h v) as (l' & Hr & Hl' & Hheap); [lia|done|by rewrite Hp|done|].
    exists l'. split; [done|]. split; [by rewrite Hl'|done].
Qed.

(** [pop_heap] and [pop_back] remove exactly the least node. *)
Lemma heap_pop_run l x :
  heap l -> distinct l -> head l = Some x ->
  exists l', heap_pop l = Ok l' /\ x :: l' ≡ₚ l /\ heap l' /\ forall y, y ∈ l -> nle x y.
Proof.
  intros Hh Hd Hx.
  assert (forall y, y ∈ l -> nle x y) as Hleast by (apply heap_least; [done|by destruct l]).
  destruct l as [|v l' _] using rev_ind; [done|]. unfold heap_pop.
  rewrite rev_unit, removelast_last, length_app. cbn [length].
  destruct l' as [|x' r]; cbn in Hx; injection Hx as ->.
  - cbn. exists []. split_and!; done.
  - rewrite decide_True by (cbn; lia).
    destruct (adjust_heap_run (x :: r) v) as (l2 & Hr & Hp & Hheap).
    + cbn. lia.
    + cbn. rewrite (Permutation_app_comm (x :: r)) in Hd. cbn in Hd.
      unfold distinct in *. cbn in *. apply NoDup_cons in Hd as [Hv Hd].
      apply NoDup_cons in Hd as [_ Hd]. apply NoDup_cons. split; [|done].
      intros Hin. by apply Hv; right.
    + split; [|intros ? ? ?; lia]. intros i a b Hi [_ Hpi] Ha Hb.
      apply (Hh i); [done..|by apply lookup_app_l_Some|by apply lookup_app_l_Some].
    + exists l2. split; [done|]. split; [|done]. rewrite Hp. cbn.
      by rewrite Permutation_app_comm.
Qed.

End MessageHeapSpec.

(** * What the operations of a message buffer do

    The invariant of the heap, its numbering and the consumer's wakeups, and
    the effect of [enqueue], [pop], [stallMessage] and the reanalysis of
    stalled messages. *)
Module MessageBufferSpec.
Import Requests RubyAddress MessageHeap MessageHeapSpec MessageBuffer.

Section spec.
Context (cfg : RubyCfg) (m_clock : Z) (rand : nat -> Z).
Implicit Types (b : Buffer) (n : MessageBufferNode) (p : option Z).

Definition now b : Z := b.(curTick) / m_clock.

(** The heap is in order, its numbers are distinct and below the counter, and
    the consumer will be woken for every message that is on its way. *)
Record buf_ok b : Prop := {
  b_heap : heap b.(m_prio_heap);
  b_distinct : distinct b.(m_prio_heap);
  b_numbers : forall n, n ∈ b.(m_prio_heap) -> 0 < n.(m_msg_counter) <= b.(m_counter);
  b_counter : 0 <= b.(m_counter);
  b_consumer : b.(m_consumer_set) = true;
  b_woken : forall n, n ∈ b.(m_prio_heap) -> now b < n.(m_time) ->
    n.(m_time) ∈ b.(m_scheduled_wakeups)
}.

Lemma getTime_run {B} (k : Z -> M Buffer B) b : (getTime m_clock ≫= k) b = k (now b) b.
Proof. done. Qed.

(** ** The heap *)
Definition fresh_for (l : list MessageBufferNode) (c : Z) : Prop :=
  forall n, n ∈ l -> n.(m_msg_counter) < c.

Lemma fresh_distinct l t c p : distinct l -> fresh_for l c -> distinct (mkNode t c p :: l).
Proof.
  intros Hd Hf. unfold distinct. cbn. apply NoDup_cons. split; [|done].
  intros (n & Hk & Hn)%list_elem_of_fmap. specialize (Hf n Hn).
  unfold key in Hk. injection Hk as _ Hc. cbn in Hc. lia.
Qed.

Lemma push_run b t c p :
  heap b.(m_prio_heap) -> distinct b.(m_prio_heap) -> fresh_for b.(m_prio_heap) c ->
  exists h, push_node (mkNode t c p) b = Ok (tt, b <| m_prio_heap := h |>) /\
    h ≡ₚ mkNode t c p :: b.(m_prio_heap) /\ heap h /\ distinct h.
Proof.
  intros Hh Hd Hf. pose proof (fresh_distinct _ t c p Hd Hf) as Hd'.
  destruct (heap_push_run b.(m_prio_heap) (mkNode t c p) Hh Hd') as (h & Hr & Hp & Hh').
  exists h. unfold push_node. rewrite gets_run, lift_bind_run, Hr.
  split; [done|]. split; [done|]. split; [done|]. by rewrite Hp.
Qed.

Lemma pop_node_run b n :
  heap b.(m_prio_heap) -> distinct b.(m_prio_heap) -> head b.(m_prio_heap) = Some n ->
  exists h, pop_node b = Ok (tt, b <| m_prio_heap := h |>) /\
    n :: h ≡ₚ b.(m_prio_heap) /\ heap h /\ distinct h /\
    forall y, y ∈ b.(m_prio_heap) -> nle n y.
Proof.
  intros Hh Hd Hn. destruct (heap_pop_run _ n Hh Hd Hn) as (h & Hr & Hp & Hh' & Hl).
  exists h. unfold pop_node. rewrite gets_run, lift_bind_run, Hr. split; [done|].
  split; [done|]. split; [done|]. split; [|done].
  rewrite <- Hp in Hd. unfold distinct in *. cbn in Hd. by apply NoDup_cons in Hd as [_ Hd].
Qed.

Lemma newNode_small t c p : 0 <= c < 2 ^ 31 -> newNode t c p = mkNode t c p.
Proof.
  intros Hc. unfold newNode. rewrite i32_small by (unfold is_i32; lia).
  by rewrite u64_small by (zwidth; lia).
Qed.

(** ** Wakeups *)
Definition scheduled (t : Z) b : Buffer :=
  if decide (t ∈ b.(m_scheduled_wakeups)) then b
  else b <| wakeups ::= cons (t * m_clock) |>
         <| m_scheduled_wakeups ::= fun s => {[ t ]} ∪ s |>.

Lemma wakeup_schedule_run b t : b.(m_consumer_set) = true -> now b < t ->
  scheduleEventAbsolute m_clock t b = Ok (tt, scheduled t b).
Proof.
  intros Hc Ht. unfold scheduleEventAbsolute, scheduled, alreadyScheduled.
  rewrite gets_run, Hc, assert_bind_run, gets_run. case_bool_decide.
  - by rewrite decide_True.
  - rewrite decide_False, getTime_run, assert_bind_run by done.
    by rewrite (proj2 (Z.ltb_lt _ _)).
Qed.

(** Scheduling changes the wakeups only, and the time is marked. *)
Lemma scheduled_marked t b : t ∈ (scheduled t b).(m_scheduled_wakeups).
Proof. unfold scheduled. case_decide; [done|]. cbn. set_solver. Qed.

Lemma scheduled_mono t b : b.(m_scheduled_wakeups) ⊆ (scheduled t b).(m_scheduled_wakeups).
Proof. unfold scheduled. case_decide; [done|]. cbn. set_solver. Qed.

Lemma scheduled_fields t b :
  exists w ws, scheduled t b = b <| m_scheduled_wakeups := w |> <| wakeups := ws |> /\
    t ∈ w /\ b.(m_scheduled_wakeups) ⊆ w.
Proof.
  pose proof (scheduled_marked t b). pose proof (scheduled_mono t b). unfold scheduled in *.
  case_decide.
  - eexists _, b.(wakeups). split; [|done]. by destruct b.
  - eexists _, _. split; [|done]. by destruct b.
Qed.

(** ** Putting stalled messages back *)

(** The nodes that [k] stalled messages get. *)
Definition renewed (t c : Z) (msgs : list (option Z)) : list MessageBufferNode :=
  imap (fun i p => mkNode t (c + 1 + Z.of_nat i) p) msgs.

Lemma renewed_cons t c p msgs : renewed t c (p :: msgs) = mkNode t (c + 1) p :: renewed t (c + 1) msgs.
Proof using Type.
  clear rand. unfold renewed. cbn [imap]. f_equal; [f_equal; lia|]. apply imap_ext. intros i q _. cbn.
  f_equal. lia.
Qed.

Lemma ok_push b t p h w :
  buf_ok b -> now b < t -> b.(m_scheduled_wakeups) ⊆ w -> t ∈ w ->
  h ≡ₚ mkNode t (b.(m_counter) + 1) p :: b.(m_prio_heap) -> heap h -> distinct h ->
  forall b', b'.(m_prio_heap) = h -> b'.(m_counter) = b.(m_counter) + 1 ->
    b'.(m_consumer_set) = true -> b'.(m_scheduled_wakeups) = w -> b'.(curTick) = b.(curTick) ->
    buf_ok b'.
Proof.
  intros [] Ht Hw Hin Hp Hh Hd b' E1 E2 E3 E4 E5. split; try done; unfold now in *;
    rewrite ?E1, ?E2, ?E4, ?E5; try done; try lia.
  - intros n. rewrite Hp. intros [->|Hn]%elem_of_cons; [cbn; lia|].
    specialize (b_numbers0 n Hn). lia.
  - intros n. rewrite Hp. intros [->|Hn]%elem_of_cons; [done|]. intros Hlt.
    apply Hw. by apply b_woken0.
Qed.

Lemma reanalyze_one_run b p :
  buf_ok b -> b.(m_counter) + 1 < 2 ^ 31 ->
  exists h w ws, reanalyze_one m_clock p b =
      Ok (tt, b <| m_counter := b.(m_counter) + 1 |> <| m_prio_heap := h |>
                <| m_scheduled_wakeups := w |> <| wakeups := ws |>) /\
    h ≡ₚ mkNode (now b + 1) (b.(m_counter) + 1) p :: b.(m_prio_heap) /\
    now b + 1 ∈ w /\ b.(m_scheduled_wakeups) ⊆ w /\
    buf_ok (b <| m_counter := b.(m_counter) + 1 |> <| m_prio_heap := h |>
              <| m_scheduled_wakeups := w |> <| wakeups := ws |>).
Proof.
  intros I Hc. pose proof I as []. unfold reanalyze_one.
  rewrite modify_run, getTime_run, gets_run.
  set (b1 := b <| m_counter ::= (fun k : Z => u64 (k + 1)) |>).
  assert (b1.(m_counter) = b.(m_counter) + 1) as E1 by (cbn; apply u64_small; zwidth; lia).
  rewrite E1, newNode_small by lia. change (now b1) with (now b).
  destruct (push_run b1 (now b + 1) (b.(m_counter) + 1) p) as (h & Hr & Hp & Hh & Hd);
    [done..| |].
  { intros n Hn. specialize (b_numbers0 n Hn). lia. }
  rewrite (M_bind_run _ _ _ _ _ Hr).
  rewrite wakeup_schedule_run by (cbn; unfold now in *; cbn; (done || lia)).
  destruct (scheduled_fields (now b + 1) (b1 <| m_prio_heap := h |>)) as (w & ws & -> & Hin & Hw).
  exists h, w, ws. assert (b1 = b <| m_counter := b.(m_counter) + 1 |>) as ->.
  { unfold b1 in *. cbn in *. by rewrite E1. }
  split_and!; try done. eapply (ok_push b (now b + 1) p h w); (done || lia).
Qed.

(** The whole loop. *)
Lemma reanalyze_run msgs b :
  buf_ok b -> b.(m_counter) + Z.of_nat (length msgs) < 2 ^ 31 ->
  exists h w ws, for_each msgs (reanalyze_one m_clock) b =
      Ok (tt, b <| m_counter := b.(m_counter) + Z.of_nat (length msgs) |> <| m_prio_heap := h |>
                <| m_scheduled_wakeups := w |> <| wakeups := ws |>) /\
    h ≡ₚ renewed (now b + 1) b.(m_counter) msgs ++ b.(m_prio_heap) /\
    (msgs <> [] -> now b + 1 ∈ w) /\ b.(m_scheduled_wakeups) ⊆ w /\
    buf_ok (b <| m_counter := b.(m_counter) + Z.of_nat (length msgs) |> <| m_prio_heap := h |>
              <| m_scheduled_wakeups := w |> <| wakeups := ws |>).
Proof using Type.
  clear rand. revert b. induction msgs as [|p msgs IH]; intros b I Hc; cbn [for_each].
  - exists b.(m_prio_heap), b.(m_scheduled_wakeups), b.(wakeups).
    assert (b <| m_counter := b.(m_counter) + Z.of_nat (length (@nil (option Z))) |>
      <| m_prio_heap := b.(m_prio_heap) |> <| m_scheduled_wakeups := b.(m_scheduled_wakeups) |>
      <| wakeups := b.(wakeups) |> = b) as -> by (destruct b; cbn; f_equal; lia).
    split_and!; done.
  - cbn [length] in Hc. destruct (reanalyze_one_run b p I ltac:(lia)) as (h & w & ws & Hr & Hp & Hin & Hw & I').
    rewrite (M_bind_run _ _ _ _ _ Hr).
    match type of I' with buf_ok ?x => set (b1 := x) in * end.
    destruct (IH b1 I') as (h2 & w2 & ws2 & Hr2 & Hp2 & Hin2 & Hw2 & I2); [cbn; lia|].
    exists h2, w2, ws2. rewrite Hr2.
    match type of I2 with buf_ok ?x => match goal with |- context [Ok (tt, x) = Ok (tt, ?y)] =>
      assert (x = y) as E by (unfold b1; cbn; f_equal; lia) end end.
    rewrite <- E. split; [done|]. split.
    + rewrite Hp2. change (now b1) with (now b). cbn [m_counter set_field b1]. rewrite renewed_cons.
      cbn. rewrite Hp. by rewrite <- Permutation_middle.
    + split; [|split; [|done]]; [|by etrans].
      intros _. by apply Hw2.
Qed.

(** ** Enqueue *)
Record configured b : Prop := {
  f_ordering : b.(m_ordering_set) = true;
  f_random : negb b.(system_randomization) || negb b.(m_randomization) = true;
  f_warmup : b.(warmup_enabled) = false
}.

(** The buffer after message [q] (object [m]) has been put in, to arrive at [a]. *)
Definition with_message b (q : Z) (m : Message) (a : Z) h w ws : Buffer :=
  b <| m_counter := b.(m_counter) + 1 |>
    <| m_size := i32 (b.(m_size) + 1) |>
    <| m_msgs_this_cycle :=
         i32 ((if b.(m_time_last_time_enqueue) <? now b then 0 else b.(m_msgs_this_cycle)) + 1) |>
    <| m_time_last_time_enqueue :=
         if b.(m_time_last_time_enqueue) <? now b then now b else b.(m_time_last_time_enqueue) |>
    <| m_last_arrival_time := a |>
    <| messages ::= <[q := mkMessage a
         (i32 (now b - m.(m_LastEnqueueTime) + m.(m_DelayedCycles)))]> |>
    <| m_prio_heap := h |> <| m_scheduled_wakeups := w |> <| wakeups := ws |>
    <| event_infos ::= cons b.(m_vnet_id) |>.

(** [enqueue] up to the look at the message. *)
Lemma enqueue_checks b q d :
  configured b -> let a := now b + d in
  enqueue m_clock rand (Some q) d b =
    if negb (0 <? d) then Err (AssertFail "delta>0")
    else if b.(m_strict_fifo) && (a <? b.(m_last_arrival_time))
    then Err (Panic "FIFO ordering violated")
    else match b.(messages) !! q with
    | None => Err (UB "dangling message")
    | Some m =>
        if negb (m.(m_LastEnqueueTime) <=? now b)
        then Err (AssertFail "ensure we aren't dequeued early")
        else
          let b' := (with_message b q m a b.(m_prio_heap) b.(m_scheduled_wakeups) b.(wakeups))
            <| m_counter := u64 (b.(m_counter) + 1) |> <| event_infos := b.(event_infos) |> in
          (push_node (newNode a b'.(m_counter) (Some q)) ≫= fun _ =>
             if b.(m_consumer_set) then
               scheduleEventAbsolute m_clock a ≫= fun _ =>
               modify (fun b => b <| event_infos ::= cons b.(m_vnet_id) |>)
             else fail (Panic "No consumer")) b'
    end.
Proof.
  intros [Ho Hr Hw] a. unfold enqueue. rewrite modify_run, getTime_run, get_run.
  change (now (_ <| m_size ::= _ |>)) with (now b).
  unfold when, with_message. destruct b. unfold now in *. cbn in *. subst.
  destruct (m_time_last_time_enqueue0 <? curTick0 / m_clock) eqn:Et;
    unfold mbind, M_bind, mret, M_ret, modify; cbn;
    (destruct (0 <? d) eqn:Ed; cbn; [apply Z.ltb_lt in Ed|done]);
    unfold arrival, getTime, gets, get, mbind, M_bind, mret, M_ret; cbn; rewrite Hr; cbn;
    rewrite (proj2 (Z.ltb_lt _ (curTick0 / m_clock + d))) by lia; cbn; fold a;
    (destruct (m_strict_fifo0 && (a <? m_last_arrival_time0)); cbn; [done|]);
    (destruct (messages0 !! q) as [m|]; cbn; [|done]);
    (destruct (m_LastEnqueueTime m <=? curTick0 / m_clock); cbn; done).
Qed.

Lemma enqueue_run b q m d :
  buf_ok b -> configured b -> b.(m_counter) + 1 < 2 ^ 31 -> 0 < d ->
  (b.(m_strict_fifo) = true -> b.(m_last_arrival_time) <= now b + d) ->
  b.(messages) !! q = Some m -> m.(m_LastEnqueueTime) <= now b ->
  exists h w ws,
    enqueue m_clock rand (Some q) d b = Ok (tt, with_message b q m (now b + d) h w ws) /\
    h ≡ₚ mkNode (now b + d) (b.(m_counter) + 1) (Some q) :: b.(m_prio_heap) /\
    now b + d ∈ w /\ buf_ok (with_message b q m (now b + d) h w ws).
Proof.
  intros I Hcfg Hc Hd Hfifo Hm Hlast. pose proof I as []. rewrite enqueue_checks by done.
  rewrite (proj2 (Z.ltb_lt 0 d)), Hm, (proj2 (Z.leb_le _ _)) by done. cbn [negb].
  destruct (b.(m_strict_fifo) && _) eqn:E.
  { apply andb_true_iff in E as [E1 E2]. apply Z.ltb_lt in E2. specialize (Hfifo E1). lia. }
  cbn zeta. set (b1 := _ <| event_infos := _ |>).
  assert (b1.(m_counter) = b.(m_counter) + 1) as Ec by (cbn; apply u64_small; zwidth; lia).
  rewrite Ec, newNode_small by lia.
  destruct (push_run b1 (now b + d) (b.(m_counter) + 1) (Some q)) as (h & Hr & Hp & Hh & Hd');
    [done..| |].
  { intros n Hn. specialize (b_numbers0 n Hn). lia. }
  rewrite (M_bind_run _ _ _ _ _ Hr), b_consumer0.
  assert (scheduleEventAbsolute m_clock (now b + d) (b1 <| m_prio_heap := h |>) =
    Ok (tt, scheduled (now b + d) (b1 <| m_prio_heap := h |>))) as Hs
    by (apply wakeup_schedule_run; [done|]; unfold now, b1; cbn; lia).
  rewrite (M_bind_run _ _ _ _ _ Hs).
  destruct (scheduled_fields (now b + d) (b1 <| m_prio_heap := h |>)) as (w & ws & -> & Hin & Hw).
  exists h, w, ws.
  assert (b1 = (with_message b q m (now b + d) b.(m_prio_heap) b.(m_scheduled_wakeups) b.(wakeups))
    <| event_infos := b.(event_infos) |>) as ->.
  { unfold b1 in *. cbn in *. rewrite Ec. done. }
  split; [unfold with_message; cbn; reflexivity|]. split; [exact Hp|]. split; [exact Hin|].
  apply (ok_push b (now b + d) (Some q) h w); (done || lia).
Qed.

(** ** Dequeue *)
Definition ready b : Prop := exists n, head b.(m_prio_heap) = Some n /\ n.(m_time) <= now b.

Lemma isReady_run b : isReady m_clock b =
  Ok (match b.(m_prio_heap) with [] => false | n :: _ => n.(m_time) <=? now b end, b).
Proof. done. Qed.

Definition without_head b h : Buffer :=
  b <| m_prio_heap := h |>
    <| m_size_at_cycle_start := if b.(m_time_last_time_pop) <? now b then b.(m_size)
                                else b.(m_size_at_cycle_start) |>
    <| m_time_last_time_pop := if b.(m_time_last_time_pop) <? now b then now b
                               else b.(m_time_last_time_pop) |>
    <| m_size := i32 (b.(m_size) - 1) |>.

Lemma pop_run b n :
  buf_ok b -> head b.(m_prio_heap) = Some n -> n.(m_time) <= now b ->
  exists h, pop m_clock b = Ok (tt, without_head b h) /\ n :: h ≡ₚ b.(m_prio_heap) /\
    (forall y, y ∈ b.(m_prio_heap) -> nle n y) /\ buf_ok (without_head b h).
Proof.
  intros I Hn Ht. pose proof I as []. unfold pop, assert_ready.
  assert (isReady m_clock b = Ok (true, b)) as Hr.
  { rewrite isReady_run. destruct b.(m_prio_heap); [done|]. cbn in Hn. injection Hn as ->.
    by rewrite (proj2 (Z.leb_le _ _)). }
  rewrite (M_bind_run _ _ _ tt b) by (rewrite (M_bind_run _ _ _ _ _ Hr); done).
  destruct (pop_node_run b n b_heap0 b_distinct0 Hn) as (h & Hp & Hperm & Hh & Hd & Hleast).
  exists h. rewrite (M_bind_run _ _ _ _ _ Hp), getTime_run, get_run. split.
  { unfold without_head, when, now. cbn. destruct (m_time_last_time_pop b <? _); [done|].
    rewrite ret_run. by destruct b. }
  split; [done|]. split; [done|].
  assert (forall y, y ∈ h -> y ∈ b.(m_prio_heap)) as Hsub
    by (intros y Hy; rewrite <- Hperm; by right).
  split; cbn; try done.
  - intros y Hy. by apply b_numbers0, Hsub.
  - intros y Hy. by apply b_woken0, Hsub.
Qed.

Lemma pop_not_ready b : ~ ready b -> pop m_clock b = Err (AssertFail "isReady()").
Proof.
  intros Hr. unfold pop, assert_ready.
  assert (isReady m_clock b = Ok (false, b)) as E.
  { rewrite isReady_run. destruct b.(m_prio_heap) as [|n l] eqn:El; [done|].
    rewrite (proj2 (Z.leb_gt _ _)); [done|]. apply Z.nle_gt. intros H. apply Hr.
    exists n. by rewrite El. }
  unfold mbind at 1, M_bind at 1. by rewrite (M_bind_run _ _ _ _ _ E).
Qed.

(** ** Stalling *)
Lemma stall_run b n addr :
  line_cfg cfg -> is_u64 addr -> addr mod cfg.(block_size_bytes) = 0 ->
  buf_ok b -> head b.(m_prio_heap) = Some n -> n.(m_time) <= now b ->
  exists h, stallMessage cfg m_clock addr b =
      Ok (tt, (without_head b h) <| m_stall_msg_map ::=
        <[addr := default [] (b.(m_stall_msg_map) !! addr) ++ [n.(m_msgptr)]]> |>) /\
    n :: h ≡ₚ b.(m_prio_heap) /\ (forall y, y ∈ b.(m_prio_heap) -> nle n y) /\
    buf_ok (without_head b h).
Proof.
  intros L Hu Ha I Hn Ht. destruct (pop_run b n I Hn Ht) as (h & Hp & Hperm & Hl & I').
  exists h. split; [|done]. unfold stallMessage, assert_ready.
  assert (isReady m_clock b = Ok (true, b)) as Hr.
  { rewrite isReady_run. destruct b.(m_prio_heap); [done|]. cbn in Hn. injection Hn as ->.
    by rewrite (proj2 (Z.leb_le _ _)). }
  rewrite (M_bind_run _ _ _ tt b) by (rewrite (M_bind_run _ _ _ _ _ Hr); done).
  rewrite lift_bind_run, getOffset_mod, Ha by done. cbn [Z.eqb].
  rewrite assert_bind_run.
  rewrite (M_bind_run _ _ _ n b); [by rewrite (M_bind_run _ _ _ _ _ Hp)|].
  unfold front. rewrite get_run. destruct b.(m_prio_heap); [done|].
  cbn in Hn. by injection Hn as ->.
Qed.

End spec.
End MessageBufferSpec.

(** * A message buffer is a first-in first-out queue with delays

    An ordered buffer without randomisation refines a plain list of messages
    with their arrival times; its visible size never understates what it
    holds; stalled messages come back in order. *)
Module MessageBufferFifo.
Import Requests RubyAddress MessageHeap MessageHeapSpec MessageBuffer MessageBufferSpec.

(** ** Calls *)
Inductive call :=
| Enq (q delta : Z)       (* enqueue message q *)
| Deq
| Ready
| Wait (ticks : N).

Inductive answer := Done | Msg (p : option Z) | Flag (b : bool).

Definition run_calls {D} (step : D -> call -> result (answer * D)) :=
  fix go (d : D) (cs : list call) : result (list answer * D) :=
    match cs with
    | [] => Ok ([], d)
    | c :: cs' => r ← step d c; r' ← go r.2 cs'; Ok (r.1 :: r'.1, r'.2)
    end.

(** ** The abstract queue: messages with their arrival times, oldest first *)
Record fifo := mkFifo {
  queue : list (Z * Z);
  last_arrival : Z;
  objects : gmap Z Message;
  tick : Z
}.

Section fifo.
Context (m_clock : Z) (rand : nat -> Z).

Definition exec (b : Buffer) (c : call) : result (answer * Buffer) :=
  match c with
  | Enq q delta => r ← enqueue m_clock rand (Some q) delta b; Ok (Done, r.2)
  | Deq => r ← dequeue m_clock b; Ok (Msg r.1, r.2)
  | Ready => r ← isReady m_clock b; Ok (Flag r.1, r.2)
  | Wait k => Ok (Done, b <| curTick ::= Z.add (Z.of_N k) |>)
  end.

Definition time (f : fifo) : Z := f.(tick) / m_clock.

Definition spec (f : fifo) (c : call) : result (answer * fifo) :=
  match c with
  | Enq q delta =>
      let a := time f + delta in
      if negb (0 <? delta) then Err (AssertFail "delta>0")
      else if a <? f.(last_arrival) then Err (Panic "FIFO ordering violated")
      else match f.(objects) !! q with
      | None => Err (UB "dangling message")
      | Some m =>
          if negb (m.(m_LastEnqueueTime) <=? time f)
          then Err (AssertFail "ensure we aren't dequeued early")
          else Ok (Done, mkFifo (f.(queue) ++ [(a, q)]) a
            (<[q := mkMessage a (i32 (time f - m.(m_LastEnqueueTime) + m.(m_DelayedCycles)))]>
               f.(objects)) f.(tick))
      end
  | Deq =>
      match f.(queue) with
      | [] => Err (UB "front of an empty vector")
      | (a, q) :: r =>
          if a <=? time f then Ok (Msg (Some q), mkFifo r f.(last_arrival) f.(objects) f.(tick))
          else Err (AssertFail "isReady()")
      end
  | Ready => Ok (Flag (match f.(queue) with [] => false | (a, _) :: _ => a <=? time f end), f)
  | Wait k => Ok (Done, mkFifo f.(queue) f.(last_arrival) f.(objects) (Z.of_N k + f.(tick)))
  end.

(** ** Sizes *)
Record sized (b : Buffer) : Prop := {
  z_size : b.(m_size) = Z.of_nat (length b.(m_prio_heap));
  z_total : b.(m_size) <= b.(m_counter) < 2 ^ 29;
  z_start : 0 <= b.(m_size_at_cycle_start) <= b.(m_counter);
  z_msgs : 0 <= b.(m_msgs_this_cycle) <= b.(m_counter);
  z_enq : b.(m_time_last_time_enqueue) <= now m_clock b;
  z_pop : b.(m_time_last_time_pop) <= now m_clock b;
  z_seen : b.(m_time_last_time_pop) = now m_clock b ->
    b.(m_size) <= b.(m_size_at_cycle_start) +
      (if b.(m_time_last_time_enqueue) =? now m_clock b then b.(m_msgs_this_cycle) else 0)
}.

(** The size other components see is never less than the size. *)
Lemma visible_ge b : sized b -> b.(m_size) <= visible_size (now m_clock b) b < 2 ^ 30.
Proof.
  intros []. unfold visible_size. destruct (_ <? _) eqn:E1; bool_to_Z; [lia|].
  specialize (z_seen0 ltac:(lia)). destruct (m_time_last_time_enqueue b <? _) eqn:E2; bool_to_Z.
  - rewrite (proj2 (Z.eqb_neq _ _)) in z_seen0 by lia. lia.
  - rewrite (proj2 (Z.eqb_eq _ _)) in z_seen0 by lia. rewrite i32_small by (unfold is_i32; lia). lia.
Qed.

(** ** The refinement relation *)
Definition before (x y : MessageBufferNode) : Prop :=
  x.(m_time) <= y.(m_time) /\ x.(m_msg_counter) < y.(m_msg_counter).

Definition entry (n : MessageBufferNode) : Z * option Z := (n.(m_time), n.(m_msgptr)).

Record rel (b : Buffer) (f : fifo) : Prop := {
  r_ok : buf_ok m_clock b;
  r_cfg : configured b;
  r_fifo : b.(m_strict_fifo) = true;
  r_sized : sized b;
  r_nodes : exists q, b.(m_prio_heap) ≡ₚ q /\ StronglySorted before q /\
    entry <$> q = (fun tp => (tp.1, Some tp.2)) <$> f.(queue) /\
    Forall (fun n => n.(m_time) <= f.(last_arrival)) q;
  r_last : b.(m_last_arrival_time) = f.(last_arrival);
  r_objects : b.(messages) = f.(objects);
  r_tick : b.(curTick) = f.(tick)
}.

Lemma sorted_snoc (l : list MessageBufferNode) x :
  StronglySorted before l -> Forall (fun y => before y x) l -> StronglySorted before (l ++ [x]).
Proof.
  induction 1 as [|y l Hs IH Hy]; intros Hx; cbn; [by repeat constructor|].
  inversion_clear Hx. constructor; [by apply IH|]. apply Forall_app. by split; [|constructor].
Qed.

(** The oldest entry is the head of the heap. *)
Lemma oldest_is_head b n q :
  heap b.(m_prio_heap) -> b.(m_prio_heap) ≡ₚ n :: q -> StronglySorted before (n :: q) ->
  head b.(m_prio_heap) = Some n.
Proof.
  intros Hh Hp Hs. inversion_clear Hs as [|? ? _ Hb].
  destruct b.(m_prio_heap) as [|x l] eqn:El; [by apply Permutation_nil in Hp|].
  cbn. f_equal. assert (nle x n) as Hle.
  { apply (heap_least (x :: l)); [done..|]. rewrite Hp. by left. }
  assert (x ∈ n :: q) as [->|Hx]%elem_of_cons by (rewrite <- Hp; by left); [done|].
  rewrite Forall_forall in Hb. specialize (Hb x Hx). unfold before, nle in *. lia.
Qed.

Lemma rel_time b f : rel b f -> now m_clock b = time f.
Proof. intros []. unfold now, time. by rewrite r_tick0. Qed.

Lemma rel_front b f : rel b f ->
  match f.(queue) with
  | [] => b.(m_prio_heap) = []
  | (a, q) :: _ => exists n, head b.(m_prio_heap) = Some n /\ n.(m_time) = a /\ n.(m_msgptr) = Some q
  end.
Proof.
  intros [I _ _ _ (q & Hp & Hs & He & _) _ _ _]. destruct f.(queue) as [|[a m] r].
  - apply fmap_nil_inv in He as ->. by apply Permutation_nil_r.
  - destruct q as [|n q]; [done|]. injection He as Ht Hm _. exists n.
    split; [|done]. by eapply oldest_is_head; [apply I|..].
Qed.

(** ** Each call keeps the relation *)
Definition simulated (b : Buffer) (f : fifo) (c : call) : Prop :=
  match spec f c with
  | Ok (ans, f') => exists b', exec b c = Ok (ans, b') /\ rel b' f' /\
      b'.(m_counter) <= b.(m_counter) + 1 /\ b'.(m_max_size) = b.(m_max_size)
  | Err e => exec b c = Err e
  end.

Lemma enqueue_sized b q m a h w ws :
  sized b -> b.(m_counter) + 1 < 2 ^ 29 ->
  length h = S (length b.(m_prio_heap)) ->
  sized (with_message m_clock b q m a h w ws).
Proof.
  intros [] Hc Hl. pose proof (Zle_0_nat (length b.(m_prio_heap))).
  assert (i32 (b.(m_size) + 1) = b.(m_size) + 1) as E1 by (apply i32_small; unfold is_i32; lia).
  set (k := if b.(m_time_last_time_enqueue) <? now m_clock b then 0 else b.(m_msgs_this_cycle)).
  assert (0 <= k <= b.(m_counter)) by (unfold k; destruct (_ <? _); lia).
  assert (i32 (k + 1) = k + 1) as E2 by (apply i32_small; unfold is_i32; lia).
  split; cbn; fold k; rewrite ?E1, ?E2; unfold now in *; cbn; try lia.
  - destruct (_ <? _); lia.
  - intros Hp. specialize (z_seen0 Hp). unfold k, now in *.
    destruct (m_time_last_time_enqueue b <? curTick b / m_clock) eqn:E; bool_to_Z.
    + rewrite Z.eqb_refl. rewrite (proj2 (Z.eqb_neq _ _)) in z_seen0 by lia. lia.
    + rewrite (proj2 (Z.eqb_eq _ _)) in * by lia. lia.
Qed.

Lemma enqueue_simulated b f q d :
  rel b f -> b.(m_counter) + 1 < 2 ^ 29 -> simulated b f (Enq q d).
Proof.
  intros R Hc. pose proof R as [I Hcfg Hf Hz (nodes & Hp & Hs & He & Hl) Hlast Hobj Htick].
  pose proof (rel_time b f R) as Ht. unfold simulated. cbn [spec exec].
  rewrite <- Ht, <- Hobj, <- Hlast.
  destruct (negb (0 <? d)) eqn:Ed.
  { by rewrite enqueue_checks, Ed. }
  apply negb_false_iff, Z.ltb_lt in Ed.
  destruct (now m_clock b + d <? b.(m_last_arrival_time)) eqn:Ea.
  { rewrite enqueue_checks, (proj2 (Z.ltb_lt _ _) Ed), Hf, Ea by done. done. }
  apply Z.ltb_ge in Ea. destruct (b.(messages) !! q) as [m|] eqn:Em.
  2:{ rewrite enqueue_checks, (proj2 (Z.ltb_lt _ _) Ed), (proj2 (Z.ltb_ge _ _) Ea), andb_false_r, Em
        by done. done. }
  destruct (negb (m_LastEnqueueTime m <=? now m_clock b)) eqn:El.
  { rewrite enqueue_checks, (proj2 (Z.ltb_lt _ _) Ed), (proj2 (Z.ltb_ge _ _) Ea), andb_false_r, Em, El
      by done. done. }
  apply negb_false_iff, Z.leb_le in El.
  destruct (enqueue_run m_clock rand b q m d I Hcfg ltac:(lia) Ed ltac:(done) Em El)
    as (h & w & ws & -> & Hh & _ & I'). cbn.
  eexists. split; [done|]. split; [|cbn; split; [lia|done]]. split; try done.
  - by destruct Hcfg; split.
  - apply enqueue_sized; [done..|]. rewrite Hh. done.
  - exists (nodes ++ [mkNode (now m_clock b + d) (b.(m_counter) + 1) (Some q)]). cbn.
    split; [by rewrite Hh, Hp, Permutation_app_comm|]. split; [|split].
    + apply sorted_snoc; [done|]. rewrite Forall_forall in Hl |- *. intros n Hn.
      specialize (Hl n Hn). rewrite <- Hlast in Hl.
      pose proof (b_numbers _ _ I n ltac:(by rewrite Hp)). split; cbn; lia.
    + by rewrite !fmap_app, He.
    + apply Forall_app. split; [|by repeat constructor].
      eapply Forall_impl; [exact Hl|]. cbn. intros n Hn. lia.
Qed.

Lemma dequeue_simulated b f : rel b f -> simulated b f Deq.
Proof.
  intros R. pose proof R as [I Hcfg Hf Hz (nodes & Hp & Hs & He & Hl) Hlast Hobj Htick].
  pose proof (rel_time b f R) as Ht. pose proof (rel_front b f R) as Hfr.
  unfold simulated. cbn [spec exec]. unfold dequeue.
  destruct f.(queue) as [|[a q] r] eqn:Eq.
  { unfold front, mbind at 2, M_bind at 1. rewrite get_run. by rewrite Hfr. }
  destruct Hfr as (n & Hn & Ha & Hq).
  assert (front b = Ok (n, b)) as Hfront.
  { unfold front. rewrite get_run. destruct b.(m_prio_heap); [done|]. cbn in Hn. by injection Hn as ->. }
  rewrite (M_bind_run _ _ _ _ _ Hfront). rewrite <- Ht. destruct (a <=? now m_clock b) eqn:E.
  2:{ unfold mbind at 2, M_bind at 1. rewrite pop_not_ready; [done|].
      intros (x & Hx & Hle). rewrite Hn in Hx. injection Hx as <-. bool_to_Z. lia. }
  bool_to_Z. destruct (pop_run m_clock b n I Hn ltac:(lia)) as (h & Hpop & Hperm & _ & I').
  rewrite (M_bind_run _ _ _ _ _ Hpop). cbn. rewrite Hq.
  eexists. split; [done|]. split; [|cbn; split; [lia|done]].
  assert (length b.(m_prio_heap) = S (length h)) as Hlen by (by rewrite <- Hperm).
  split; try done.
  - by destruct Hcfg; split.
  - destruct Hz. assert (i32 (b.(m_size) - 1) = b.(m_size) - 1) as E1
      by (apply i32_small; unfold is_i32; lia).
    split; cbn; rewrite ?E1; unfold now in *; cbn; try lia.
    + destruct (_ <? _); lia.
    + destruct (_ <? _); lia.
    + destruct (m_time_last_time_pop b <? _) eqn:E2; bool_to_Z; intros Hnow.
      * destruct (_ =? _); lia.
      * specialize (z_seen0 ltac:(lia)). lia.
  - destruct nodes as [|n0 nodes]; [done|]. exists nodes. cbn.
    pose proof (oldest_is_head b n0 nodes (b_heap _ _ I) Hp Hs) as Hn0.
    rewrite Hn in Hn0. injection Hn0 as ->. inversion_clear Hs. inversion_clear Hl.
    injection He as _ He. split; [|by split_and!].
    apply (Permutation_cons_inv (a := n0)). by rewrite Hperm.
Qed.

Lemma call_simulated b f c :
  0 < m_clock -> rel b f -> b.(m_counter) + 1 < 2 ^ 29 -> simulated b f c.
Proof.
  intros Hk R Hc. destruct c as [q d| | |k].
  - by apply enqueue_simulated.
  - by apply dequeue_simulated.
  - pose proof (rel_time b f R) as Ht. pose proof (rel_front b f R) as Hfr.
    unfold simulated. cbn [spec exec]. rewrite isReady_run, <- Ht. cbn.
    exists b. split; [|split; [done|split; [lia|done]]]. destruct f.(queue) as [|[a q] r].
    + by rewrite Hfr.
    + destruct Hfr as (n & Hn & <- & _). destruct b.(m_prio_heap); [done|].
      cbn in Hn. by injection Hn as ->.
  - pose proof R as [I [] Hf [] Hq Hlast Hobj Htick]. pose proof I as []. unfold simulated. cbn [spec exec].
    eexists. split; [done|]. split; [|cbn; split; [lia|done]].
    assert (now m_clock b <= now m_clock (b <| curTick ::= Z.add (Z.of_N k) |>)) as Hnow
      by (unfold now; cbn; apply Z.div_le_mono; lia).
    unfold now in *. cbn in Hnow. split; try done.
    + split; unfold now; cbn; try done. intros n Hn Hlt. apply b_woken0; [done|]. lia.
    + split; unfold now; cbn; try done; try lia. intros Hpop.
      assert (b.(curTick) / m_clock = (Z.of_N k + b.(curTick)) / m_clock) as E by lia.
      rewrite <- E in *. by apply z_seen0.
    + cbn. by rewrite Htick.
Qed.

Lemma run_calls_simulated cs b f :
  0 < m_clock -> rel b f -> b.(m_counter) + Z.of_nat (length cs) < 2 ^ 29 ->
  match run_calls spec f cs with
  | Ok (ans, f') => exists b', run_calls exec b cs = Ok (ans, b') /\ rel b' f' /\
      b'.(m_max_size) = b.(m_max_size)
  | Err e => run_calls exec b cs = Err e
  end.
Proof.
  intros Hk. revert b f. induction cs as [|c cs IH]; intros b f R Hc; cbn [run_calls];
    [by exists b|]. cbn [length] in Hc.
  pose proof (call_simulated b f c Hk R ltac:(lia)) as Hsim. unfold simulated in Hsim.
  destruct (spec f c) as [[a f1]|e]; cbn; [|by rewrite Hsim].
  destruct Hsim as (b1 & -> & R1 & Hc1 & Hm1). cbn. specialize (IH b1 f1 R1 ltac:(lia)).
  destruct (run_calls spec f1 cs) as [[ans f']|e]; cbn; [|by rewrite IH].
  destruct IH as (b' & -> & R' & Hm'). exists b'. split; [done|]. split; [done|]. congruence.
Qed.

(** ** A new buffer, configured *)
Definition ordered_buffer (max_size recycle : Z) (msgs : gmap Z Message) (t : Z) : Buffer :=
  (newBuffer recycle msgs t false false)
    <| m_consumer_set := true |> <| m_strict_fifo := true |> <| m_ordering_set := true |>
    <| m_max_size := max_size |>.

Lemma ordered_buffer_rel max_size recycle msgs t :
  0 < m_clock -> 0 <= t -> rel (ordered_buffer max_size recycle msgs t) (mkFifo [] 0 msgs t).
Proof.
  intros Hk Ht. assert (0 <= t / m_clock) by (apply Z.div_pos; lia).
  split; try done.
  - split; cbn; try done; try lia.
    + apply NoDup_nil_2.
    + intros n Hn. by apply elem_of_nil in Hn.
    + intros n Hn. by apply elem_of_nil in Hn.
  - split; cbn; unfold now; cbn; try lia. by intros <-.
  - exists []. split; [done|]. split; [constructor|]. split; done.
Qed.

(** C33: an ordered message buffer without randomisation is a first-in first-out
    queue with delays: for every sequence of enqueues, dequeues, readiness
    tests and passages of time (fewer than 2^29), a new buffer answers exactly
    as a list of messages with their arrival times does, errors included.  A
    message is taken in order and never before its arrival time; an enqueue
    that would overtake the previous one stops the program. *)
Theorem buffer_refines_fifo max_size recycle msgs t cs :
  0 < m_clock -> 0 <= t -> Z.of_nat (length cs) < 2 ^ 29 ->
  (r ← run_calls exec (ordered_buffer max_size recycle msgs t) cs; Ok r.1) =
  (r ← run_calls spec (mkFifo [] 0 msgs t) cs; Ok r.1).
Proof.
  intros Hk Ht Hl.
  pose proof (run_calls_simulated cs _ _ Hk (ordered_buffer_rel max_size recycle msgs t Hk Ht)) as H.
  specialize (H ltac:(cbn; lia)). destruct (run_calls spec _ cs) as [[ans f']|e]; cbn.
  - by destruct H as (b' & -> & _).
  - by rewrite H.
Qed.

(** Flow control of a bounded buffer: in every state such calls lead to,
    [areNSlotsAvailable n] says yes only when [n] more messages fit beside the
    ones in the buffer.  (It counts the messages taken in this cycle as still
    there, so it may say no when they would fit.) *)
Theorem slots_available_fit max_size recycle msgs t cs ans b n b' :
  0 < m_clock -> 0 <= t -> Z.of_nat (length cs) < 2 ^ 29 -> 0 <= n < 2 ^ 30 ->
  max_size <> -1 -> run_calls exec (ordered_buffer max_size recycle msgs t) cs = Ok (ans, b) ->
  areNSlotsAvailable m_clock n b = Ok (true, b') ->
  Z.of_nat (length b.(m_prio_heap)) + n <= max_size.
Proof.
  intros Hk Ht Hl Hn Hmax Hrun Hav.
  pose proof (run_calls_simulated cs _ _ Hk (ordered_buffer_rel max_size recycle msgs t Hk Ht)) as H.
  specialize (H ltac:(cbn; lia)). destruct (run_calls spec _ cs) as [[ans' f']|e];
    [|by rewrite Hrun in H].
  destruct H as (b1 & Hrun1 & R & Hm). rewrite Hrun in Hrun1. injection Hrun1 as <- <-.
  pose proof (r_sized _ _ R) as Hz. pose proof (visible_ge b Hz) as Hv.
  change (m_max_size (ordered_buffer max_size recycle msgs t)) with max_size in Hm.
  unfold areNSlotsAvailable in Hav. rewrite get_run, Hm in Hav.
  rewrite (proj2 (Z.eqb_neq _ _)) in Hav by done. rewrite getTime_run in Hav.
  destruct (_ <=? max_size) eqn:E; [|done]. bool_to_Z.
  destruct Hz. rewrite i32_small in E; [lia|]. unfold is_i32. lia.
Qed.
End fifo.

(** ** Stalled messages *)
Section stalled.
Context (cfg : RubyCfg) (m_clock : Z).

(** [reanalyzeMessages] puts every message stalled on the address back, and
    no other: each becomes available in the next cycle, numbered in the order
    in which they were stalled and after everything in the buffer, the
    consumer is woken for them, and nothing is stalled on the address any
    more.  Without stalled messages it fails its assertion. *)
Theorem reanalyze_restores b addr :
  buf_ok m_clock b ->
  match b.(m_stall_msg_map) !! addr with
  | None => reanalyzeMessages m_clock addr b = Err (AssertFail "m_stall_msg_map.count(addr) > 0")
  | Some msgs =>
      b.(m_counter) + Z.of_nat (length msgs) < 2 ^ 31 ->
      exists b', reanalyzeMessages m_clock addr b = Ok (tt, b') /\ buf_ok m_clock b' /\
        b'.(m_stall_msg_map) = delete addr b.(m_stall_msg_map) /\
        b'.(m_prio_heap) ≡ₚ
          imap (fun i p => mkNode (now m_clock b + 1) (b.(m_counter) + 1 + Z.of_nat i) p) msgs
          ++ b.(m_prio_heap) /\
        (msgs <> [] -> now m_clock b + 1 ∈ b'.(m_scheduled_wakeups))
  end.
Proof.
  intros I. unfold reanalyzeMessages.
  destruct (b.(m_stall_msg_map) !! addr) as [msgs|] eqn:E.
  - intros Hc. destruct (reanalyze_run m_clock msgs b I Hc) as (h & w & ws & Hr & Hp & Hin & _ & I').
    rewrite gets_run, E, (M_bind_run _ _ _ _ _ Hr).
    eexists. split; [done|]. split; [|split; [done|split; [done|done]]].
    by destruct I'; split.
  - by rewrite gets_run, E.
Qed.
End stalled.
End MessageBufferFifo.
