(* ===== verification/MessageBufferExamples.v ===== *)
(** * Message buffers at work

    Instances of the theorems on a concrete buffer, and runs that show where
    the bookkeeping of the buffers goes wrong: the size after stalled or
    delayed messages, and the numbering after [clearStats] or 2^32 messages. *)

From S2P Require Import Prelude.
From S2P Require Import STEvent.
From S2P Require Import CString.
From S2P Require Import IntMath.
From S2P Require Import Requests.
From S2P Require Import RubyAddress.
From S2P Require Import MessageHeap.
From S2P Require Import MessageBufferFifo.
From S2P Require Import MessageBuffer.
Import Requests RubyAddress MessageHeap MessageHeapSpec MessageBuffer MessageBufferSpec
  MessageBufferFifo.

Module MessageBufferExamples.

Definition clk : Z := 10.
Definition rnd (k : nat) : Z := Z.of_nat k.

(** Five messages made at time 0; the clock is at cycle 10. *)
Definition mail : gmap Z Message :=
  list_to_map [(1, mkMessage 0 0); (2, mkMessage 0 0); (3, mkMessage 0 0); (4, mkMessage 0 0);
               (5, mkMessage 0 0)].
Definition b0 : Buffer := ordered_buffer 3 0 mail 100.

Definition calls : list call :=
  [Enq 1 2; Enq 2 2; Ready; Wait 10; Enq 3 2; Wait 10; Ready; Deq; Deq; Wait 10; Deq].

Lemma buffer_refines_fifo_witness :
  (r ← run_calls (exec clk rnd) b0 calls; Ok r.1) =
    Ok [Done; Done; Flag false; Done; Done; Done; Flag true; Msg (Some 1); Msg (Some 2); Done;
        Msg (Some 3)].
Proof.
  unfold b0. rewrite (buffer_refines_fifo clk rnd 3 0 mail 100 calls);
    [by vm_compute|done|done|by vm_compute].
Defined.

(** A message that has not arrived, and one that would overtake. *)
Example early_dequeue :
  (r ← run_calls (exec clk rnd) b0 [Enq 1 2; Deq]; Ok r.1) = Err (AssertFail "isReady()").
Proof. by vm_compute. Qed.
Example overtaking :
  (r ← run_calls (exec clk rnd) b0 [Enq 1 5; Enq 2 2]; Ok r.1) = Err (Panic "FIFO ordering violated").
Proof. by vm_compute. Qed.

Definition state_after (cs : list call) : Buffer :=
  match run_calls (exec clk rnd) b0 cs with Ok r => r.2 | Err _ => b0 end.

(** Two messages in a buffer of three: one more fits. *)
Lemma slots_available_fit_witness :
  Z.of_nat (length (state_after [Enq 1 2; Enq 2 2]).(m_prio_heap)) + 1 <= 3.
Proof.
  apply (slots_available_fit clk rnd 3 0 mail 100 [Enq 1 2; Enq 2 2] [Done; Done]
    (state_after [Enq 1 2; Enq 2 2]) 1 (state_after [Enq 1 2; Enq 2 2]));
    [by vm_compute|lia|by vm_compute|lia|lia|by vm_compute|by vm_compute].
Defined.

(** ** Stalled messages *)
Definition run {A} (m : M Buffer A) (b : Buffer) : Buffer :=
  match m b with Ok (_, b') => b' | Err _ => b end.

Definition two_ready : Buffer := state_after [Enq 1 2; Enq 2 2; Wait 20].
Definition two_stalled : Buffer :=
  run (stallMessage example_cfg clk 64) (run (stallMessage example_cfg clk 64) two_ready).

Lemma two_stalled_ok : buf_ok clk two_stalled.
Proof.
  assert (two_stalled.(m_prio_heap) = []) as E by by vm_compute.
  assert (two_stalled.(m_counter) = 2) as Ec by by vm_compute.
  split; rewrite ?E, ?Ec.
  - intros i x y _ _ Hx _. discriminate Hx.
  - apply NoDup_nil_2.
  - intros n Hn. destruct (not_elem_of_nil n Hn).
  - lia.
  - by vm_compute.
  - intros n Hn. destruct (not_elem_of_nil n Hn).
Qed.

Lemma reanalyze_restores_witness :
  exists b', reanalyzeMessages clk 64 two_stalled = Ok (tt, b') /\ buf_ok clk b' /\
    b'.(m_stall_msg_map) = delete 64 two_stalled.(m_stall_msg_map) /\
    b'.(m_prio_heap) ≡ₚ [mkNode 13 3 (Some 1); mkNode 13 4 (Some 2)] /\
    13 ∈ b'.(m_scheduled_wakeups).
Proof.
  pose proof (reanalyze_restores clk two_stalled 64 two_stalled_ok) as H.
  assert (two_stalled.(m_stall_msg_map) !! 64 = Some [Some 1; Some 2]) as E by by vm_compute.
  rewrite E in H. destruct H as (b' & Hr & I & Hs & Hp & Hw); [by vm_compute|].
  exists b'. split; [exact Hr|]. split; [exact I|]. split; [exact Hs|].
  assert (two_stalled.(m_prio_heap) = []) as E2 by by vm_compute.
  assert (now clk two_stalled = 12) as E3 by by vm_compute.
  assert (two_stalled.(m_counter) = 2) as E4 by by vm_compute.
  rewrite E2, E3, E4 in Hp. rewrite E3 in Hw. split; [exact Hp|by apply Hw].
Defined.

(** [stallMessage] takes the message out of the size, [reanalyzeMessages] puts
    it back without counting it: after it is taken again the size is negative,
    and a bounded buffer admits more messages than it holds. *)
Example stalled_size_negative :
  let b1 := run (stallMessage example_cfg clk 64) (state_after [Enq 1 2; Wait 20]) in
  let b2 := run (reanalyzeMessages clk 64) b1 in
  let b3 := run (dequeue clk) (b2 <| curTick := 130 |>) in
  (length b2.(m_prio_heap), b2.(m_size), b3.(m_size)) = (1%nat, 0, -1).
Proof. by vm_compute. Qed.

(** [delayHead] takes the head off without uncounting it and [enqueue] counts
    it again. *)
Example delayed_size_grows :
  let b1 := state_after [Enq 1 2; Wait 20] in
  let b2 := run (delayHead clk rnd) b1 in
  (length b2.(m_prio_heap), b2.(m_size)) = (1%nat, 2).
Proof. by vm_compute. Qed.

(** After [clearStats] numbers are given out again: two messages of the same
    cycle get the same number and the comparison of the heap asserts. *)
Example clearStats_duplicates :
  enqueue clk rnd (Some 2) 2 (run clearStats (state_after [Enq 1 2]))
  = Err (AssertFail "n1.m_msg_counter != n2.m_msg_counter").
Proof. by vm_compute. Qed.

(** The node's constructor takes the 64-bit counter as an [int]: at 2^32
    messages the numbers start over and a message overtakes an earlier one. *)
Example counter_truncated :
  (r ← run_calls (exec clk rnd) (b0 <| m_counter := 2 ^ 32 - 2 |>) [Enq 1 2; Enq 2 2; Wait 20; Deq];
   Ok r.1) = Ok [Done; Done; Done; Msg (Some 2)].
Proof. by vm_compute. Qed.

End MessageBufferExamples.
