(* ===== verification/RubyTables.v ===== *)
(** * Tables of the coherence controllers
    ([TBETable], src/src/mem/ruby/system/TBETable.hh: the transactions in
    progress, by line; [TimerTable], src/src/mem/ruby/system/TimerTable.hh and
    .cc: lines with a time at which to look at them again).

    A TBE table is a finite map with a capacity.  A timer table keeps the next
    timer in three mutable fields and recomputes them when they are not valid;
    it is shown to answer as the plain map does. *)

From Stdlib Require Import Sorted.
From stdpp Require Import sorting.
From S2P Require Import Prelude.
From S2P Require Import STEvent.
From S2P Require Import CString.
From S2P Require Import IntMath.
From S2P Require Import Requests.
From S2P Require Import RubyAddress.
Import Requests RubyAddress.

Module RubyTables.

(** ** Transaction buffer entries *)
Section tbe.
Context {ENTRY : Type} (dflt : ENTRY) (cfg : RubyCfg).

Record TBETable := mkTBE {
  tbe_map : gmap Z ENTRY;
  m_number_of_TBEs : Z               (* int *)
}.
#[global] Instance TBETable_eta : Settable TBETable := fun t =>
  mkTBE t.(tbe_map) t.(m_number_of_TBEs).

Implicit Types (t : TBETable).

Definition tbe_size t : Z := Z.of_nat (size t.(tbe_map)).

(** The sizes are [size_t], the number is converted to it. *)
Definition tbe_isPresent (address : Z) : M TBETable bool :=
  t ← get;
  assert_ (address =? line_address cfg address) "address == line_address(address)";;
  assert_ (tbe_size t <=? u64 t.(m_number_of_TBEs)) "m_map.size() <= m_number_of_TBEs";;
  mret (bool_decide (is_Some (t.(tbe_map) !! address))).

Definition tbe_allocate (address : Z) : M TBETable unit :=
  present ← tbe_isPresent address;
  assert_ (negb present) "!isPresent(address)";;
  t ← get;
  assert_ (tbe_size t <? u64 t.(m_number_of_TBEs)) "m_map.size() < m_number_of_TBEs";;
  modify (fun t => t <| tbe_map ::= <[address := dflt]> |>).

Definition tbe_deallocate (address : Z) : M TBETable unit :=
  present ← tbe_isPresent address;
  assert_ present "isPresent(address)";;
  t ← get;
  assert_ (0 <? tbe_size t) "m_map.size() > 0";;
  modify (fun t => t <| tbe_map ::= delete address |>).

Definition tbe_areNSlotsAvailable (n : Z) : M TBETable bool :=
  gets (fun t => u64 n <=? u64 (u64 t.(m_number_of_TBEs) - tbe_size t)).

(** [lookup]: a pointer to the entry, or null. *)
Definition tbe_lookup (address : Z) : M TBETable (option ENTRY) :=
  gets (fun t => t.(tbe_map) !! address).

Record tbe_ok t : Prop := {
  k_number : 0 <= t.(m_number_of_TBEs) < 2 ^ 31;
  k_room : tbe_size t <= t.(m_number_of_TBEs);
  k_lines : forall a, is_Some (t.(tbe_map) !! a) -> line_address cfg a = a
}.

Lemma tbe_isPresent_run t a : tbe_ok t -> line_address cfg a = a ->
  tbe_isPresent a t = Ok (bool_decide (is_Some (t.(tbe_map) !! a)), t).
Proof.
  intros [] Ha. unfold tbe_isPresent. rewrite get_run, assert_bind_run, Ha, Z.eqb_refl.
  rewrite assert_bind_run, u64_small by (zwidth; lia). by rewrite (proj2 (Z.leb_le _ _)).
Qed.

(** [areNSlotsAvailable n], then [n] allocations: the answer is exact, and an
    allocation adds the line with a default entry exactly when it is absent and
    a slot is free. *)
Theorem tbe_slots_exact t n : tbe_ok t -> 0 <= n < 2 ^ 31 ->
  tbe_areNSlotsAvailable n t = Ok (bool_decide (tbe_size t + n <= t.(m_number_of_TBEs)), t).
Proof.
  intros [] Hn. unfold tbe_areNSlotsAvailable, gets, tbe_size in *. do 2 f_equal.
  rewrite (u64_small n), (u64_small t.(m_number_of_TBEs)), u64_small by (zwidth; lia).
  destruct (_ <=? _) eqn:E; bool_to_Z; symmetry;
    [apply bool_decide_eq_true|apply bool_decide_eq_false]; lia.
Qed.

Theorem tbe_allocate_inserts t a : tbe_ok t -> line_address cfg a = a ->
  if decide (t.(tbe_map) !! a = None /\ tbe_size t < t.(m_number_of_TBEs)) then
    exists t', tbe_allocate a t = Ok (tt, t') /\ tbe_ok t' /\
      t'.(tbe_map) = <[a := dflt]> t.(tbe_map) /\ tbe_size t' = tbe_size t + 1
  else exists e, tbe_allocate a t = Err e.
Proof.
  intros I Ha. pose proof (tbe_isPresent_run t a I Ha) as Hp. destruct I.
  unfold tbe_allocate. rewrite (M_bind_run _ _ _ _ _ Hp), assert_bind_run.
  case_decide as Hd.
  - destruct Hd as [Hn Hroom]. rewrite Hn, bool_decide_false by (intros [? [=]]). cbn [negb].
    rewrite get_run, assert_bind_run, u64_small by (zwidth; lia).
    rewrite (proj2 (Z.ltb_lt _ _)) by done. eexists. split; [done|].
    assert (size (<[a := dflt]> t.(tbe_map)) = S (size t.(tbe_map))) as Hs
      by (by apply map_size_insert_None).
    unfold tbe_size in *. cbn. rewrite Hs. split; [|split; [done|lia]]. split; cbn.
    + done.
    + unfold tbe_size. cbn. rewrite Hs. lia.
    + intros b. destruct (decide (b = a)) as [->|]; [done|].
      rewrite lookup_insert_ne by done. apply k_lines0.
  - destruct (t.(tbe_map) !! a) as [x|] eqn:E.
    + rewrite bool_decide_true by done. by eexists.
    + rewrite bool_decide_false by (intros [? [=]]). cbn [negb].
      rewrite get_run, assert_bind_run, u64_small by (zwidth; lia).
      rewrite (proj2 (Z.ltb_ge _ _)); [by eexists|]. unfold tbe_size in *. cbn.
      destruct (decide (Z.of_nat (size t.(tbe_map)) < t.(m_number_of_TBEs))); [|lia].
      by destruct Hd.
Qed.

Theorem tbe_deallocate_removes t a : tbe_ok t -> line_address cfg a = a ->
  if decide (is_Some (t.(tbe_map) !! a)) then
    exists t', tbe_deallocate a t = Ok (tt, t') /\ tbe_ok t' /\
      t'.(tbe_map) = delete a t.(tbe_map) /\ tbe_size t' = tbe_size t - 1
  else exists e, tbe_deallocate a t = Err e.
Proof.
  intros I Ha. pose proof (tbe_isPresent_run t a I Ha) as Hp. destruct I.
  unfold tbe_deallocate. rewrite (M_bind_run _ _ _ _ _ Hp), assert_bind_run.
  case_decide as Hd; [|rewrite bool_decide_false by done; by eexists].
  rewrite bool_decide_true, get_run, assert_bind_run by done. destruct Hd as [x Hx].
  assert (S (size (delete a t.(tbe_map))) = size t.(tbe_map)) as Hs.
  { rewrite <- (insert_delete_id t.(tbe_map) a x) at 2 by done.
    by rewrite map_size_insert_None by apply lookup_delete_eq. }
  unfold tbe_size in *. rewrite (proj2 (Z.ltb_lt _ _)) by lia. eexists. split; [done|]. cbn.
  split; [|split; [done|lia]]. split; cbn.
  - done.
  - unfold tbe_size. cbn. lia.
  - intros b Hb. apply k_lines0. destruct (decide (a = b)) as [->|Hne].
    + by eexists.
    + by rewrite lookup_delete_ne in Hb.
Qed.
End tbe.

(** ** Timers *)
Section timers.
Context (cfg : RubyCfg).

Record TimerTable := mkTimers {
  t_map : gmap Z Z;                  (* line, ready time *)
  m_next_valid : bool;
  m_next_time : Z;
  m_next_address : Z;
  t_consumer_set : bool;             (* m_consumer_ptr != NULL *)
  wakeup_times : list Z;             (* scheduleEventAbsolute, newest first *)
  t_now : Z                          (* g_eventQueue_ptr->getTime() *)
}.
#[global] Instance TimerTable_eta : Settable TimerTable := fun t =>
  mkTimers t.(t_map) t.(m_next_valid) t.(m_next_time) t.(m_next_address) t.(t_consumer_set)
    t.(wakeup_times) t.(t_now).

Implicit Types (t : TimerTable).

Definition newTimers (now : Z) : TimerTable := mkTimers ∅ false 0 0 false [] now.

(** [std::map] iterates in the order of the addresses. *)
Definition by_line (x y : Z * Z) : Prop := x.1 <= y.1.

#[local] Instance by_line_dec : RelDecision by_line.
Proof. unfold by_line. intros x y. apply _. Defined.

Definition timers_in_order t : list (Z * Z) := merge_sort by_line (map_to_list t.(t_map)).

(** The loop of [updateNext]. *)
Definition earlier (next x : Z * Z) : Z * Z := if x.2 <? next.2 then x else next.

Definition updateNext : M TimerTable unit :=
  t ← get;
  match timers_in_order t with
  | [] => assert_ (negb t.(m_next_valid)) "!m_next_valid"
  | x :: l =>
      let next := foldl earlier x l in
      modify (fun t => t <| m_next_address := next.1 |> <| m_next_time := next.2 |>
                         <| m_next_valid := true |>)
  end.

Definition isReady : M TimerTable bool :=
  t ← get;
  if bool_decide (t.(t_map) = ∅) then mret false
  else
    when (negb t.(m_next_valid)) updateNext;;
    t ← get;
    assert_ t.(m_next_valid) "m_next_valid";;
    mret (t.(m_next_time) <=? t.(t_now)).

Definition readyAddress : M TimerTable Z :=
  ready ← isReady;
  assert_ ready "isReady()";;
  t ← get;
  when (negb t.(m_next_valid)) updateNext;;
  t ← get;
  assert_ t.(m_next_valid) "m_next_valid";;
  mret t.(m_next_address).

Definition isSet (address : Z) : M TimerTable bool :=
  gets (fun t => bool_decide (is_Some (t.(t_map) !! address))).

Definition setTimer (address relative_latency : Z) : M TimerTable unit :=
  assert_ (address =? line_address cfg address) "address == line_address(address)";;
  assert_ (0 <? relative_latency) "relative_latency > 0";;
  t ← get;
  assert_ (bool_decide (t.(t_map) !! address = None)) "!m_map.count(address)";;
  let ready_time := t.(t_now) + relative_latency in
  modify (fun t => t <| t_map ::= <[address := ready_time]> |>);;
  assert_ t.(t_consumer_set) "m_consumer_ptr != NULL";;
  modify (fun t => t <| wakeup_times ::= cons ready_time |> <| m_next_valid := false |>);;
  when (ready_time <=? t.(m_next_time)) (modify (fun t => t <| m_next_valid := false |>)).

Definition unset (address : Z) : M TimerTable unit :=
  assert_ (address =? line_address cfg address) "address == line_address(address)";;
  t ← get;
  assert_ (bool_decide (is_Some (t.(t_map) !! address))) "m_map.count(address)";;
  modify (fun t => t <| t_map ::= delete address |>);;
  when (address =? t.(m_next_address)) (modify (fun t => t <| m_next_valid := false |>)).

(** *** The next timer is the earliest, of equal ones the lowest line. *)
Definition no_later (x y : Z * Z) : Prop := x.2 < y.2 \/ (x.2 = y.2 /\ x.1 <= y.1).

Definition is_next (m : gmap Z Z) (x : Z * Z) : Prop :=
  m !! x.1 = Some x.2 /\ forall b u, m !! b = Some u -> no_later x (b, u).

Definition timers_ok t : Prop :=
  t.(m_next_valid) = true -> is_next t.(t_map) (t.(m_next_address), t.(m_next_time)).

Lemma earliest_of l x :
  StronglySorted by_line l -> Forall (by_line x) l ->
  foldl earlier x l ∈ x :: l /\ forall y, y ∈ x :: l -> no_later (foldl earlier x l) y.
Proof.
  revert x. induction l as [|z l IH]; intros x Hs Hx; cbn [foldl].
  - split; [by left|]. intros y [->|Hy]%elem_of_cons; [right; lia|]. by apply elem_of_nil in Hy.
  - inversion_clear Hs as [|? ? Hs' Hz]. inversion_clear Hx as [|? ? Hxz Hx'].
    assert (earlier x z = z /\ z.2 < x.2 \/ earlier x z = x /\ x.2 <= z.2) as Hc.
    { unfold earlier. destruct (_ <? _) eqn:E; bool_to_Z; [left|right]; done. }
    assert (Forall (by_line (earlier x z)) l) as Hf by (destruct Hc as [[-> _]|[-> _]]; done).
    destruct (IH _ Hs' Hf) as [Hin Hle]. split.
    + apply elem_of_cons in Hin as [->|Hin]; [|by right; right].
      destruct Hc as [[-> _]|[-> _]]; [right|]; by left.
    + specialize (Hle (earlier x z) ltac:(by left)) as Hacc.
      intros y [->|[->|Hy]%elem_of_cons]%elem_of_cons; [| |by apply Hle; right].
      all: unfold no_later, by_line in *; destruct Hc as [[E ?]|[E ?]]; rewrite E in *; lia.
Qed.

Lemma updateNext_run t : t.(t_map) <> ∅ ->
  exists x, is_next t.(t_map) x /\ updateNext t =
    Ok (tt, t <| m_next_address := x.1 |> <| m_next_time := x.2 |> <| m_next_valid := true |>).
Proof.
  intros Hne. unfold updateNext. rewrite get_run.
  assert (timers_in_order t ≡ₚ map_to_list t.(t_map)) as Hp by apply merge_sort_Permutation.
  assert (StronglySorted by_line (timers_in_order t)) as Hs.
  { apply StronglySorted_merge_sort; unfold by_line; [intros x y z; lia|intros x y; lia]. }
  destruct (timers_in_order t) as [|x l] eqn:E.
  { symmetry in Hp. apply Permutation_nil_r in Hp. by apply map_to_list_empty_iff in Hp. }
  inversion_clear Hs as [|? ? Hs' Hx]. destruct (earliest_of l x Hs' Hx) as [Hin Hle].
  exists (foldl earlier x l). split; [|done]. split.
  - apply elem_of_map_to_list. rewrite <- surjective_pairing. by rewrite <- Hp.
  - intros b u Hb. apply Hle. rewrite Hp. by apply elem_of_map_to_list.
Qed.

(** The readiness test: the three fields never lie. *)
Lemma timer_isReady_run t : timers_ok t ->
  exists t', isReady t =
      Ok (bool_decide (map_Exists (fun _ u => u <= t.(t_now)) t.(t_map)), t') /\
    timers_ok t' /\ t'.(t_map) = t.(t_map) /\ t'.(t_now) = t.(t_now) /\
    (t.(t_map) <> ∅ -> t'.(m_next_valid) = true).
Proof.
  intros Hok. unfold isReady. rewrite get_run. case_bool_decide as He.
  { exists t. split; [|done]. rewrite bool_decide_false; [done|]. rewrite He.
    intros (a & u & Ha & _). done. }
  assert (exists t', when (negb t.(m_next_valid)) updateNext t = Ok (tt, t') /\
    is_next t.(t_map) (t'.(m_next_address), t'.(m_next_time)) /\ t'.(m_next_valid) = true /\
    t'.(t_map) = t.(t_map) /\ t'.(t_now) = t.(t_now)) as (t' & Hr & Hn & Hv & Em & En).
  { destruct t.(m_next_valid) eqn:Ev; cbn.
    - exists t. split; [done|]. split; [by apply Hok|done].
    - destruct (updateNext_run t He) as (x & Hx & ->). eexists. split; [done|]. cbn.
      rewrite <- surjective_pairing. done. }
  rewrite (M_bind_run _ _ _ _ _ Hr), get_run, assert_bind_run, Hv.
  exists t'. split_and!; try done; [|intros _; by rewrite Em].
  unfold mret, M_ret. do 2 f_equal. rewrite En.
  destruct (_ <=? _) eqn:E; bool_to_Z; symmetry.
  - apply bool_decide_eq_true. eexists _, _. split; [apply Hn|done].
  - apply bool_decide_eq_false. intros (b & u & Hb & Hu). apply (proj2 Hn) in Hb.
    unfold no_later in Hb. cbn in *. lia.
Qed.

(** A table reports ready exactly when some timer has run out, and
    [readyAddress] names the line of the earliest one, of equal ones the
    lowest; asking changes no timer. *)
Theorem timer_earliest t : timers_ok t ->
  exists t', isReady t =
      Ok (bool_decide (map_Exists (fun _ u => u <= t.(t_now)) t.(t_map)), t') /\
    timers_ok t' /\ t'.(t_map) = t.(t_map) /\
    if decide (map_Exists (fun _ u => u <= t.(t_now)) t.(t_map)) then
      exists x, is_next t.(t_map) x /\ x.2 <= t.(t_now) /\ readyAddress t = Ok (x.1, t')
    else readyAddress t = Err (AssertFail "isReady()").
Proof.
  intros Hok. destruct (timer_isReady_run t Hok) as (t' & Hr & Hok' & Em & En & Hv).
  exists t'. split; [done|]. split; [done|]. split; [done|].
  unfold readyAddress. rewrite (M_bind_run _ _ _ _ _ Hr), assert_bind_run.
  case_decide as Hd; [rewrite bool_decide_true by done|by rewrite bool_decide_false].
  assert (t'.(m_next_valid) = true) as Hv'.
  { apply Hv. intros He. rewrite He in Hd. by destruct Hd as (a & u & Ha & _). }
  rewrite get_run, Hv'. cbn [negb when]. rewrite ret_run, get_run, assert_bind_run, Hv'.
  specialize (Hok' Hv'). rewrite Em in Hok'.
  exists (t'.(m_next_address), t'.(m_next_time)). split; [done|]. split; [|done].
  destruct Hd as (b & u & Hb & Hu). apply (proj2 Hok') in Hb. unfold no_later in Hb. cbn in *. lia.
Qed.

(** Setting and removing timers keeps the fields right. *)
Theorem timer_set_ok t a d : timers_ok t -> t.(t_consumer_set) = true ->
  line_address cfg a = a -> 0 < d -> t.(t_map) !! a = None ->
  exists t', setTimer a d t = Ok (tt, t') /\ timers_ok t' /\
    t'.(t_map) = <[a := t.(t_now) + d]> t.(t_map) /\
    t'.(wakeup_times) = t.(t_now) + d :: t.(wakeup_times).
Proof.
  intros Hok Hc Ha Hd Hn. unfold setTimer.
  rewrite assert_bind_run, Ha, Z.eqb_refl, assert_bind_run, (proj2 (Z.ltb_lt _ _)) by done.
  rewrite get_run, assert_bind_run, bool_decide_true by done.
  rewrite modify_run, assert_bind_run, Hc, modify_run.
  destruct (_ <=? _); eexists; (split; [reflexivity|]); (split; [by intros [=]|]); by cbn.
Qed.

Theorem timer_unset_ok t a : timers_ok t -> line_address cfg a = a -> is_Some (t.(t_map) !! a) ->
  exists t', unset a t = Ok (tt, t') /\ timers_ok t' /\ t'.(t_map) = delete a t.(t_map).
Proof.
  intros Hok Ha Hs. unfold unset.
  rewrite assert_bind_run, Ha, Z.eqb_refl, get_run, assert_bind_run, bool_decide_true by done.
  rewrite modify_run. destruct (a =? t.(m_next_address)) eqn:E; bool_to_Z.
  - eexists. split; [reflexivity|]. split; [by intros [=]|done].
  - eexists. split; [reflexivity|]. split; [|done]. intros Hv. destruct (Hok Hv) as [H1 H2].
    split; cbn in *.
    + by rewrite lookup_delete_ne.
    + intros b u Hb. apply H2. destruct (decide (a = b)) as [->|Hne].
      * by rewrite lookup_delete_eq in Hb.
      * by rewrite lookup_delete_ne in Hb.
Qed.
End timers.

End RubyTables.
