(* ===== verification/NetDest.v ===== *)
(** * Network destinations
    (class [NetDest], src/src/mem/ruby/common/NetDest.hh and NetDest.cc, with
    [MachineID] of src/src/mem/ruby/system/MachineID.hh).

    The destinations of a message and the sharers of a line: for each type of
    machine a [Set] of machine numbers.  The types of machines and the numbers
    of controllers are generated from the protocol when the simulator is
    built; the generated functions are the class [MachineTypes]. *)

From S2P Require Import Prelude.
From S2P Require Import NodeSet.

Module Machines.

(** The generated functions of mem/protocol/MachineType.hh, which [panic] on
    a value outside the enumeration. *)
Class MachineTypes := {
  MachineType_NUM : Z;
  MachineType_base_level : Z -> result Z;
  MachineType_from_base_level : Z -> result Z;
  MachineType_base_number : Z -> result Z;
  MachineType_base_count : Z -> result Z
}.

Record MachineID := mkMachine { mtype : Z; num : Z }.

#[global] Instance MachineID_eq_dec : EqDecision MachineID.
Proof. solve_decision. Defined.

#[global] Program Instance MachineID_countable : Countable MachineID :=
  inj_countable' (fun m => (m.(mtype), m.(num))) (fun p => mkMachine p.1 p.2) _.
Next Obligation. by intros []. Qed.

End Machines.
Export Machines.

Module NetDest.

(** [m_bits]. *)
Abbreviation t := (list NodeSet.t).

Section net_dest.
Context `{MachineTypes}.

Definition getSize (nd : t) : Z := Z.of_nat (length nd).

Definition vecIndex (nd : t) (m : MachineID) : result Z :=
  vec_index ← MachineType_base_level m.(mtype);
  if vec_index <? getSize nd then Ok vec_index
  else Err (AssertFail "vec_index < m_bits.size()").

Definition bitIndex (index : Z) : Z := index.

(** ** Shared loops *)

(** [m_bits[i] = g(m_bits[i])] for an index. *)
Definition update (nd : t) (i : Z) (g : NodeSet.t -> result NodeSet.t) : result t :=
  s ← vget nd i; s' ← g s; vset nd i s'.

(** The same for every index. *)
Definition each (g : Z -> NodeSet.t -> result NodeSet.t) (nd : t) : result t :=
  NodeSet.loop (fun i nd => update nd i (g i)) (upto (getSize nd)) nd.

(** A loop that returns from inside. *)
Fixpoint first_of {A} (body : Z -> result (option A)) (idx : list Z) : result (option A) :=
  match idx with
  | [] => Ok None
  | i :: idx' => r ← body i; match r with Some a => Ok (Some a) | None => first_of body idx' end
  end.

Definition same_size (nd other : t) : result unit :=
  if getSize nd =? getSize other then Ok tt
  else Err (AssertFail "m_bits.size() == netDest.getSize()").

(** ** Construction *)
Definition resize (nd : t) : result t :=
  n ← MachineType_base_level MachineType_NUM;
  let len := Z.to_nat n in
  let nd := take len nd ++ replicate (len - length nd) NodeSet.empty_set in
  if negb (getSize nd =? MachineType_NUM) then Err (AssertFail "m_bits.size() == MachineType_NUM")
  else each (fun i s => c ← MachineType_base_count i; NodeSet.setSize s c) nd.

(** [NetDest()]. *)
Definition make : result t := resize [].

(** The implicit copy: a copy of each set. *)
Definition copy (obj : t) : result t := each (fun _ s => NodeSet.copy s) obj.

(** ** Members *)
Definition add (nd : t) (newElement : MachineID) : result t :=
  i ← vecIndex nd newElement;
  update nd i (fun s => NodeSet.add s (bitIndex newElement.(num))).

Definition remove (nd : t) (oldElement : MachineID) : result t :=
  i ← vecIndex nd oldElement;
  update nd i (fun s => NodeSet.remove s (bitIndex oldElement.(num))).

Definition isElement (nd : t) (element : MachineID) : result bool :=
  i ← vecIndex nd element;
  s ← vget nd i;
  NodeSet.isElement s (bitIndex element.(num)).

Definition elementAt (nd : t) (index : MachineID) : result Z :=
  i ← vecIndex nd index;
  s ← vget nd i;
  NodeSet.elementAt s (bitIndex index.(num)).

(** ** Whole destinations *)
Definition addNetDest (nd netDest : t) : result t :=
  same_size nd netDest;;
  each (fun i s => v ← vget netDest i; NodeSet.addSet s v) nd.

Definition removeNetDest (nd netDest : t) : result t :=
  same_size nd netDest;;
  each (fun i s => v ← vget netDest i; NodeSet.removeSet s v) nd.

(** [addRandom]: [r] is the value of [random()] that picks the set. *)
Definition addRandom (r : Z) (rnd : nat -> Z) (nd : t) : result t :=
  if getSize nd =? 0 then Err (UB "division by zero")
  else update nd (Z.rem r (getSize nd)) (NodeSet.addRandom rnd).

Definition setNetDest (nd : t) (machine : Z) (set : NodeSet.t) : result t :=
  next ← MachineType_base_level (machine + 1);
  this ← MachineType_base_level machine;
  if negb (next - this =? 1) then Err (AssertFail "only one set of destinations")
  else update nd this (fun s => NodeSet.assign s set).

Definition clear (nd : t) : result t := each (fun _ s => NodeSet.clear s) nd.

(** [broadcast(MachineType)] and [broadcast()]. *)
Definition broadcast_type (nd : t) (machineType : Z) : result t :=
  n ← MachineType_base_count machineType;
  NodeSet.loop (fun i nd => add nd (mkMachine machineType i)) (upto n) nd.

Definition broadcast (nd : t) : result t :=
  NodeSet.loop (fun m nd => broadcast_type nd m) (upto MachineType_NUM) nd.

Definition getAllDest (nd : t) : result (list Z) :=
  NodeSet.loop (fun i dest =>
      s ← vget nd i;
      NodeSet.loop (fun j dest =>
          b ← NodeSet.isElement s j;
          if (b : bool) then
            base ← MachineType_base_number i; Ok (dest ++ [i32 (base + j)])
          else Ok dest)
        (upto (NodeSet.getSize s)) dest)
    (upto (getSize nd)) [].

Definition count (nd : t) : result Z :=
  NodeSet.loop (fun i counter => s ← vget nd i; c ← NodeSet.count s; Ok (i32 (counter + c)))
    (upto (getSize nd)) 0.

Definition smallestElement (nd : t) : result MachineID :=
  c ← count nd;
  if negb (0 <? c) then Err (AssertFail "count() > 0")
  else
    r ← first_of (fun i =>
          s ← vget nd i;
          first_of (fun j =>
              b ← NodeSet.isElement s j;
              if (b : bool) then
                m ← MachineType_from_base_level i; Ok (Some (mkMachine m j))
              else Ok None)
            (upto (NodeSet.getSize s)))
        (upto (getSize nd));
    match r with
    | Some mach => Ok mach
    | None => Err (Panic "No smallest element of an empty set.")
    end.

(** [smallestElement(MachineType)]. *)
Definition smallest_of_type (nd : t) (machine : Z) : result MachineID :=
  i ← MachineType_base_level machine;
  s ← vget nd i;
  r ← first_of (fun j =>
        b ← NodeSet.isElement s j;
        Ok (if (b : bool) then Some (mkMachine machine j) else None))
      (upto (NodeSet.getSize s));
  match r with
  | Some mach => Ok mach
  | None => Err (Panic "No smallest element of given MachineType.")
  end.

Definition isBroadcast (nd : t) : result bool :=
  NodeSet.all_words (fun i => s ← vget nd i; NodeSet.isBroadcast s) (upto (getSize nd)).

Definition isEmpty (nd : t) : result bool :=
  NodeSet.all_words (fun i => s ← vget nd i; NodeSet.isEmpty s) (upto (getSize nd)).

(** [result.m_bits[i] = m_bits[i].OR(orNetDest.m_bits[i])], with the result of
    the default constructor. *)
Definition combine (op : NodeSet.t -> NodeSet.t -> result NodeSet.t) (nd other : t) : result t :=
  same_size nd other;;
  res ← make;
  NodeSet.loop (fun i res =>
      s ← vget nd i; v ← vget other i; w ← op s v;
      update res i (fun r => NodeSet.assign r w))
    (upto (getSize nd)) res.

Definition OR (nd orNetDest : t) : result t := combine NodeSet.OR nd orNetDest.
Definition AND (nd andNetDest : t) : result t := combine NodeSet.AND nd andNetDest.

Definition intersectionIsNotEmpty (nd other_netDest : t) : result bool :=
  same_size nd other_netDest;;
  none ← NodeSet.all_words (fun i =>
           s ← vget nd i; v ← vget other_netDest i; NodeSet.intersectionIsEmpty s v)
         (upto (getSize nd));
  Ok (negb none).

Definition isSuperset (nd test : t) : result bool :=
  same_size nd test;;
  NodeSet.all_words (fun i => s ← vget nd i; v ← vget test i; NodeSet.isSuperset s v)
    (upto (getSize nd)).

Definition isSubset (nd test : t) : result bool := isSuperset test nd.

End net_dest.
End NetDest.
