(* ===== verification/NetDestSpec.v ===== *)
(** * Network destinations implement finite sets of machines

    A machine type may have no controllers, and its [Set] then has no words;
    [okset] extends the well-formed sets by the set of size 0.  The operations
    of [NetDest] are then those of finite sets of pairs of a type and a number,
    for every numbering that keeps the laws of the generated functions. *)

From S2P Require Import Prelude.
From S2P Require Import NodeSet.
From S2P Require Import NodeSetOps.
From S2P Require Import NetDest.
Import NodeSetSpec.
Import NodeSetOps.

(** What the generator guarantees of the functions it writes: types are
    numbered from 0, and the controllers of a type follow those of the types
    before it. *)
Class MachineTypeLaws `{MachineTypes} := {
  controllers : Z -> Z;
  controllers_range m : 0 <= m < MachineType_NUM -> 0 <= controllers m <= 2 ^ 31 - 64;
  NUM_nonneg : 0 <= MachineType_NUM;
  base_level_ok m : 0 <= m <= MachineType_NUM -> MachineType_base_level m = Ok m;
  from_base_level_ok i : 0 <= i < MachineType_NUM -> MachineType_from_base_level i = Ok i;
  base_count_ok m : 0 <= m < MachineType_NUM -> MachineType_base_count m = Ok (controllers m);
  base_number_ok m : 0 <= m <= MachineType_NUM ->
    MachineType_base_number m = Ok (sum (controllers <$> upto m));
  controllers_total : sum (controllers <$> upto MachineType_NUM) < 2 ^ 31
}.

Module NetDestSpec.

(** ** Sets that may have size 0 *)
Definition okset (n : Z) (s : NodeSet.t) : Prop :=
  (0 < n /\ wf s /\ s.(NodeSet.m_nSize) = n) \/
  (n = 0 /\ s.(NodeSet.m_nSize) = 0 /\ s.(NodeSet.m_nArrayLen) = 0).

Definition okvalid (n : Z) (c : call) : Prop :=
  match c with
  | Add i | Remove i | IsElement i | ElementAt i => 0 <= i < n
  | AddSet v | RemoveSet v | Or v | And v
  | IsEqual v | IsSuperset v | IsSubset v | Disjoint v => okset n v
  | _ => True
  end.

Lemma okset_size n s : okset n s -> NodeSet.getSize s = n.
Proof. by intros [(_ & _ & ?)|(-> & ? & _)]. Qed.

Lemma okset_nonneg n s : okset n s -> 0 <= n.
Proof. intros [[? _]|[-> _]]; lia. Qed.

Lemma members_0 s : s.(NodeSet.m_nSize) = 0 -> members s = ∅.
Proof. intros H. unfold members. rewrite H. done. Qed.

Lemma okset_0 s : okset 0 s -> s.(NodeSet.m_nSize) = 0 /\ s.(NodeSet.m_nArrayLen) = 0.
Proof. intros [[? _]|(_ & ? & ?)]; [lia|done]. Qed.

(** The refinement of one call also holds without words. *)
Lemma okset_refines n s c : okset n s -> okvalid n c ->
  match spec n (members s) c with
  | Ok (a, X') => exists s', exec s c = Ok (a, s') /\ okset n s' /\ members s' = X'
  | Err e => exec s c = Err e
  end.
Proof.
  intros Hs Hc. destruct (Z.eq_dec n 0) as [->|Hn].
  - destruct (okset_0 s Hs) as [Esz Elen]. destruct s as [sz len arr]; cbn in *. subst.
    destruct c; cbn in Hc; try lia;
      try (apply okset_0 in Hc as [Ev Elv]; destruct v as [vs vl va]; cbn in Ev, Elv; subst);
      try (eexists; split; [reflexivity|]; split; [by right|]; by vm_compute); by vm_compute.
  - destruct Hs as [(Hpos & W & E)|[? _]]; [|done].
    assert (valid s.(NodeSet.m_nSize) c) as Hv.
    { rewrite E. destruct c; cbn in *; try done; by destruct Hc as [(_ & ? & ?)|[? _]]. }
    pose proof (set_exec_refines s c W Hv) as Hr. unfold refines in Hr. rewrite E in Hr.
    destruct (spec n (members s) c) as [[a X']|e]; [|done].
    destruct Hr as (s' & Hx & W' & E' & HX). exists s'. split; [done|]. split; [|done]. by left.
Qed.

Lemma effect_inv (r : result NodeSet.t) a s' :
  (x ← r; Ok (Unit, x)) = Ok (a, s') -> r = Ok s'.
Proof. destruct r; cbn; congruence. Qed.

Lemma test_inv (r : result bool) (s : NodeSet.t) b s' :
  (x ← r; Ok (Flag x, s)) = Ok (Flag b, s') -> r = Ok b.
Proof. destruct r; cbn; congruence. Qed.

Ltac by_refines n s c :=
  let H := fresh in
  pose proof (okset_refines n s c) as H; cbn [spec exec okvalid] in H;
  match type of H with ?A -> ?B -> _ => specialize (H ltac:(assumption) ltac:(try exact I; assumption)) end;
  let s' := fresh "s'" in let Hx := fresh "Hx" in
  destruct H as (s' & Hx & ? & ?).

Section set_ops.
Context (n : Z) (s v : NodeSet.t) (Hs : okset n s) (Hv : okset n v).

Lemma ok_add i : 0 <= i < n ->
  exists s', NodeSet.add s i = Ok s' /\ okset n s' /\ members s' = {[i]} ∪ members s.
Proof using Hs. intros Hi. by_refines n s (Add i). eexists. split; [by eapply effect_inv|done]. Qed.

Lemma ok_remove i : 0 <= i < n ->
  exists s', NodeSet.remove s i = Ok s' /\ okset n s' /\ members s' = members s ∖ {[i]}.
Proof using Hs. intros Hi. by_refines n s (Remove i). eexists. split; [by eapply effect_inv|done]. Qed.

Lemma ok_clear : exists s', NodeSet.clear s = Ok s' /\ okset n s' /\ members s' = ∅.
Proof using Hs. by_refines n s Clear. eexists. split; [by eapply effect_inv|done]. Qed.

Lemma ok_copy : exists s', NodeSet.copy s = Ok s' /\ okset n s' /\ members s' = members s.
Proof using Hs. by_refines n s Copy. eexists. split; [by eapply effect_inv|done]. Qed.

Lemma ok_addSet :
  exists s', NodeSet.addSet s v = Ok s' /\ okset n s' /\ members s' = members s ∪ members v.
Proof using Hs Hv. by_refines n s (AddSet v). eexists. split; [by eapply effect_inv|done]. Qed.

Lemma ok_removeSet :
  exists s', NodeSet.removeSet s v = Ok s' /\ okset n s' /\ members s' = members s ∖ members v.
Proof using Hs Hv. by_refines n s (RemoveSet v). eexists. split; [by eapply effect_inv|done]. Qed.

Lemma ok_OR r : exists s', (w ← NodeSet.OR s v; NodeSet.assign r w) = Ok s' /\ okset n s' /\
  members s' = members s ∪ members v.
Proof using Hs Hv. by_refines n s (Or v). eexists. split; [by eapply effect_inv|done]. Qed.

Lemma ok_AND r : exists s', (w ← NodeSet.AND s v; NodeSet.assign r w) = Ok s' /\ okset n s' /\
  members s' = members s ∩ members v.
Proof using Hs Hv. by_refines n s (And v). eexists. split; [by eapply effect_inv|done]. Qed.

Lemma ok_isElement i : 0 <= i < n -> NodeSet.isElement s i = Ok (bool_decide (i ∈ members s)).
Proof using Hs. intros Hi. by_refines n s (IsElement i). by eapply test_inv. Qed.

Lemma ok_isEmpty : NodeSet.isEmpty s = Ok (bool_decide (members s = ∅)).
Proof using Hs. by_refines n s IsEmpty. by eapply test_inv. Qed.

Lemma ok_isBroadcast : NodeSet.isBroadcast s = Ok (bool_decide (members s = universe n)).
Proof using Hs. by_refines n s IsBroadcast. by eapply test_inv. Qed.

Lemma ok_isSuperset : NodeSet.isSuperset s v = Ok (bool_decide (members v ⊆ members s)).
Proof using Hs Hv. by_refines n s (IsSuperset v). by eapply test_inv. Qed.

Lemma ok_disjoint :
  NodeSet.intersectionIsEmpty s v = Ok (bool_decide (members s ∩ members v = ∅)).
Proof using Hs Hv. by_refines n s (Disjoint v). by eapply test_inv. Qed.

Lemma ok_count : NodeSet.count s = Ok (Z.of_nat (size (members s))).
Proof using Hs.
  by_refines n s Count. destruct (NodeSet.count s); cbn in *; congruence.
Qed.

End set_ops.

Lemma ok_assign r n v : okset n v ->
  exists s', NodeSet.assign r v = Ok s' /\ okset n s' /\ members s' = members v.
Proof. apply ok_copy. Qed.

Lemma ok_setSize r n : 0 <= n <= 2 ^ 31 - 64 ->
  exists s', NodeSet.setSize r n = Ok s' /\ okset n s' /\ members s' = ∅.
Proof.
  intros Hn. destruct (Z.eq_dec n 0) as [->|Hne].
  - eexists. split; [reflexivity|]. split; [by right|done].
  - destruct (setSize_spec r n ltac:(lia)) as (s' & -> & W & E & Hb).
    exists s'. split; [done|]. split; [left; split; [lia|done]|].
    apply members_ext; [done|set_solver|]. intros i Hi. rewrite Hb; [done|]. unfold in_set in Hi. lia.
Qed.

(** ** Destinations *)
Abbreviation NUM := MachineType_NUM (only parsing).

Section net_dest.
Context `{MachineTypeLaws}.
Import NetDest.

Record ok (nd : t) : Prop := {
  ok_len : getSize nd = NUM;
  ok_rows m s : 0 <= m < NUM -> vget nd m = Ok s -> okset (controllers m) s
}.

Definition row (nd : t) (m : Z) : gset Z :=
  match vget nd m with Ok s => members s | Err _ => ∅ end.

(** All machines, in the order of the loops. *)
Definition machines_of (ms : list Z) : list MachineID :=
  ms ≫= (fun m => mkMachine m <$> upto (controllers m)).

Definition machines : list MachineID := machines_of (upto NUM).

Definition machine (e : MachineID) : Prop :=
  0 <= e.(mtype) < NUM /\ 0 <= e.(num) < controllers e.(mtype).

Definition bits (nd : t) : gset MachineID :=
  list_to_set (filter (fun e => e.(num) ∈ row nd e.(mtype)) machines).

Lemma elem_machines e : e ∈ machines <-> machine e.
Proof.
  unfold machines, machines_of, machine. rewrite list_elem_of_bind. split.
  - intros (m & He & Hm%elem_of_upto).
    apply list_elem_of_fmap in He as (i & -> & Hi%elem_of_upto). done.
  - destruct e as [m i]. cbn. intros [Hm Hi]. exists m. split; [|by apply elem_of_upto].
    apply list_elem_of_fmap. exists i. split; [done|]. by apply elem_of_upto.
Qed.

Lemma machines_NoDup : NoDup machines.
Proof.
  apply NoDup_bind.
  - intros m1 m2 e _ _ (? & -> & _)%list_elem_of_fmap (? & ? & _)%list_elem_of_fmap. congruence.
  - intros m _. apply NoDup_fmap_2; [intros ? ? [=]; done|].
    unfold upto. apply NoDup_fmap; [apply _|apply NoDup_seq].
  - unfold upto. apply NoDup_fmap; [apply _|apply NoDup_seq].
Qed.

Lemma ok_row nd m : ok nd -> 0 <= m < NUM ->
  exists s, vget nd m = Ok s /\ okset (controllers m) s /\ row nd m = members s.
Proof.
  intros W Hm. destruct (vget_in_range nd m) as [s Hs]; [by rewrite <- (ok_len nd W) in Hm|].
  exists s. split; [done|]. split; [by apply (ok_rows nd W)|]. unfold row. by rewrite Hs.
Qed.

Lemma row_in nd m i : ok nd -> 0 <= m < NUM -> i ∈ row nd m -> 0 <= i < controllers m.
Proof.
  intros W Hm Hi. destruct (ok_row nd m W Hm) as (s & _ & Hs & Hrow). rewrite Hrow in Hi.
  apply elem_members in Hi as [Hi _]. pose proof (okset_size _ _ Hs) as E. unfold NodeSet.getSize in E. lia.
Qed.

Lemma elem_bits nd e : ok nd ->
  e ∈ bits nd <-> 0 <= e.(mtype) < NUM /\ e.(num) ∈ row nd e.(mtype).
Proof.
  intros W. unfold bits. rewrite elem_of_list_to_set, list_elem_of_filter, elem_machines.
  unfold machine. pose proof (row_in nd e.(mtype) e.(num) W). naive_solver.
Qed.

Lemma bits_machine nd e : e ∈ bits nd -> machine e.
Proof.
  unfold bits. rewrite elem_of_list_to_set, list_elem_of_filter, elem_machines. naive_solver.
Qed.

Lemma elem_row nd m i : ok nd -> 0 <= m < NUM -> i ∈ row nd m <-> mkMachine m i ∈ bits nd.
Proof. intros W Hm. rewrite elem_bits by done. cbn. naive_solver. Qed.

(** The destinations are determined by their rows. *)
Lemma bits_ext nd (X : gset MachineID) : ok nd -> (forall e, e ∈ X -> machine e) ->
  (forall m i, machine (mkMachine m i) -> i ∈ row nd m <-> mkMachine m i ∈ X) -> bits nd = X.
Proof.
  intros W HX Hrow. apply set_eq. intros [m i]. split; intros He.
  - pose proof (bits_machine _ _ He) as Hm. apply Hrow; [done|]. apply elem_bits in He; naive_solver.
  - pose proof (HX _ He) as Hm. apply elem_bits; [done|]. cbn. split; [apply Hm|]. by apply Hrow.
Qed.

(** ** Loops over the rows *)
Lemma ok_set nd m s : ok nd -> 0 <= m < NUM -> okset (controllers m) s ->
  ok (<[Z.to_nat m := s]> nd) /\
  forall m', 0 <= m' < NUM ->
    row (<[Z.to_nat m := s]> nd) m' = if decide (m' = m) then members s else row nd m'.
Proof.
  intros W Hm Hs. pose proof (ok_len nd W) as Hl. unfold getSize in Hl. split; [split|].
  - unfold getSize. by rewrite length_insert.
  - intros m' s' Hm' Hs'. destruct (decide (m' = m)) as [->|Hne].
    + rewrite vget_insert_eq in Hs' by lia. by injection Hs' as <-.
    + rewrite vget_insert_ne in Hs' by lia. by apply (ok_rows nd W).
  - intros m' Hm'. unfold row. case_decide as E; [subst; by rewrite vget_insert_eq by lia|].
    by rewrite vget_insert_ne by lia.
Qed.

Lemma rows_loop (body : Z -> t -> result t) (T : Z -> gset Z) nd0 :
  getSize nd0 = NUM ->
  (forall m nd, 0 <= m < NUM -> getSize nd = NUM -> vget nd m = vget nd0 m ->
    exists s', body m nd = Ok (<[Z.to_nat m := s']> nd) /\
      okset (controllers m) s' /\ members s' = T m) ->
  exists nd', NodeSet.loop body (upto NUM) nd0 = Ok nd' /\ ok nd' /\
    forall m, 0 <= m < NUM -> row nd' m = T m.
Proof.
  intros Hl Hbody.
  destruct (loop_upto body NUM (fun k nd => getSize nd = NUM /\
    (forall m, 0 <= m < k -> exists s, vget nd m = Ok s /\ okset (controllers m) s /\ members s = T m) /\
    (forall m, k <= m < NUM -> vget nd m = vget nd0 m)) nd0) as (nd' & Hrun & Hl' & Hdone & _).
  - apply NUM_nonneg.
  - split; [done|]. split; [intros; lia|done].
  - intros k nd Hk (Hlk & Hdone & Hrest).
    destruct (Hbody k nd Hk Hlk) as (s' & -> & Hs' & HT); [apply Hrest; lia|].
    eexists. split; [done|]. unfold getSize in *. split; [by rewrite length_insert|]. split.
    + intros m Hm. destruct (decide (m = k)) as [->|Hne].
      * exists s'. by rewrite vget_insert_eq by lia.
      * rewrite vget_insert_ne by lia. apply Hdone. lia.
    + intros m Hm. rewrite vget_insert_ne by lia. apply Hrest. lia.
  - exists nd'. split; [done|]. split; [split; [done|]|].
    + intros m s Hm Hs. destruct (Hdone m Hm) as (s1 & H1 & ? & _). congruence.
    + intros m Hm. destruct (Hdone m Hm) as (s1 & H1 & _ & <-). unfold row. by rewrite H1.
Qed.

Lemma each_rows (g : Z -> NodeSet.t -> result NodeSet.t) (T : Z -> gset Z) nd : getSize nd = NUM ->
  (forall m s, 0 <= m < NUM -> vget nd m = Ok s ->
    exists s', g m s = Ok s' /\ okset (controllers m) s' /\ members s' = T m) ->
  exists nd', each g nd = Ok nd' /\ ok nd' /\ forall m, 0 <= m < NUM -> row nd' m = T m.
Proof.
  intros Hl Hg. unfold each. rewrite Hl. apply rows_loop; [done|].
  intros m r Hm Hlr Heq. destruct (vget_in_range nd m) as [s Hs]; [by rewrite <- Hl in Hm|].
  destruct (Hg m s Hm Hs) as (s' & Hrun & ?). exists s'. split; [|done].
  unfold update. rewrite Heq, Hs, bind_Ok_run, Hrun, bind_Ok_run. apply vset_in_range.
  unfold getSize in Hlr. lia.
Qed.

End net_dest.
End NetDestSpec.
