(* ===== verification/NetDestRefines.v ===== *)
(** * Network destinations: operations and refinement

    Each operation ([NetDestOps]) and sequences of calls ([NetDestRefines]). *)

From S2P Require Import Prelude.
From S2P Require Import NodeSet.
From S2P Require Import NodeSetOps.
From S2P Require Import NetDest.
From S2P Require Import NetDestSpec.

(** * The operations of network destinations

    Each operation of [NetDest] runs without leaving its vectors and computes
    the operation of the same name on finite sets of machines; a sequence of
    calls answers as the finite set does. *)
Module NetDestOps.
Import NodeSetSpec(members, sum, elem_members, loop_upto, all_words_run, forallb_upto).
Import NodeSetOps(universe, elem_universe).
Import NetDestSpec.
Section net_dest.
Context `{MachineTypeLaws}.
Import NetDest.

Definition of_type (m : Z) (S : gset Z) : gset MachineID := set_map (mkMachine m) S.

Lemma elem_of_type m S e : e ∈ of_type m S <-> e.(mtype) = m /\ e.(num) ∈ S.
Proof.
  unfold of_type. rewrite elem_of_map. split; [by intros (i & -> & ?)|].
  destruct e as [m' i]. cbn. intros [-> ?]. eauto.
Qed.

Lemma machine_eq (e e' : MachineID) : e = e' <-> e.(mtype) = e'.(mtype) /\ e.(num) = e'.(num).
Proof. destruct e, e'; cbn. split; [intros [=]; done|]. by intros [-> ->]. Qed.

Definition all_machines : gset MachineID := list_to_set machines.

Lemma elem_all e : e ∈ all_machines <-> machine e.
Proof. unfold all_machines. by rewrite elem_of_list_to_set, elem_machines. Qed.

(** ** Construction *)
Lemma resize_ok nd : exists nd', resize nd = Ok nd' /\ ok nd' /\ bits nd' = ∅.
Proof.
  pose proof NUM_nonneg. unfold resize. rewrite base_level_ok, bind_Ok_run by lia. cbv zeta.
  set (nd1 := take _ _ ++ _). assert (getSize nd1 = NUM) as Hl.
  { unfold nd1, getSize. rewrite length_app, length_take, length_replicate. lia. }
  rewrite Hl, Z.eqb_refl. cbn [negb].
  destruct (each_rows (fun i s => c ← MachineType_base_count i; NodeSet.setSize s c) (fun _ => ∅) nd1 Hl)
    as (nd' & -> & W & Hr).
  - intros m s Hm _. rewrite base_count_ok, bind_Ok_run by done. by apply ok_setSize, controllers_range.
  - exists nd'. split; [done|]. split; [done|]. apply bits_ext; [done|set_solver|].
    intros m i [Hm _]. rewrite Hr by done. set_solver.
Qed.

Lemma make_ok : exists nd, make = Ok nd /\ ok nd /\ bits nd = ∅.
Proof. apply resize_ok. Qed.

(** ** One row *)
Lemma vecIndex_ok nd e : ok nd -> machine e -> vecIndex nd e = Ok e.(mtype).
Proof.
  intros W [Hm _]. unfold vecIndex. rewrite base_level_ok, bind_Ok_run, (ok_len nd W) by lia.
  by rewrite (proj2 (Z.ltb_lt _ _)) by lia.
Qed.

Lemma update_ok nd m g (T : gset Z) : ok nd -> 0 <= m < NUM ->
  (forall s, vget nd m = Ok s -> okset (controllers m) s -> members s = row nd m ->
    exists s', g s = Ok s' /\ okset (controllers m) s' /\ members s' = T) ->
  exists nd', update nd m g = Ok nd' /\ ok nd' /\
    bits nd' = filter (fun e => e.(mtype) <> m) (bits nd) ∪ of_type m T.
Proof.
  intros W Hm Hg. destruct (ok_row nd m W Hm) as (s & Hs & Hok & Hrow).
  destruct (Hg s Hs Hok (eq_sym Hrow)) as (s' & Hrun & Hok' & HT).
  pose proof (ok_len nd W) as Hl. unfold getSize in Hl.
  destruct (ok_set nd m s' W Hm Hok') as [W' Hrows].
  eexists. split; [|split; [exact W'|]].
  { unfold update. rewrite Hs, bind_Ok_run, Hrun, bind_Ok_run. apply vset_in_range. lia. }
  apply bits_ext; [done| |].
  - intros e. rewrite elem_of_union, elem_of_filter, elem_of_type. intros [[_ He]|[He HiT]].
    + by apply (bits_machine nd).
    + split; [by rewrite He|]. rewrite He. subst T. apply (row_in _ m e.(num) W' Hm).
      rewrite Hrows by done. by rewrite decide_True.
  - intros m' i [Hm' Hi]. cbn in *. rewrite Hrows by done.
    rewrite elem_of_union, elem_of_filter, elem_of_type, <- elem_row by done. cbn.
    case_decide; subst; naive_solver.
Qed.

Lemma add_ok nd e : ok nd -> machine e ->
  exists nd', add nd e = Ok nd' /\ ok nd' /\ bits nd' = {[e]} ∪ bits nd.
Proof.
  intros W He. unfold add. rewrite vecIndex_ok, bind_Ok_run by done.
  destruct (update_ok nd e.(mtype) (fun s => NodeSet.add s (bitIndex e.(num)))
    ({[e.(num)]} ∪ row nd e.(mtype)) W (proj1 He)) as (nd' & -> & W' & HX).
  - intros s _ Hs <-. apply ok_add; [done|apply He].
  - exists nd'. split; [done|]. split; [done|]. rewrite HX. apply set_eq. intros e'.
    rewrite !elem_of_union, elem_of_filter, elem_of_type, elem_of_singleton, !elem_of_union,
      elem_of_singleton, elem_bits, machine_eq by done. destruct He as [Hm _].
    destruct (decide (e'.(mtype) = e.(mtype))) as [->|E]; tauto.
Qed.

Lemma remove_ok nd e : ok nd -> machine e ->
  exists nd', remove nd e = Ok nd' /\ ok nd' /\ bits nd' = bits nd ∖ {[e]}.
Proof.
  intros W He. unfold remove. rewrite vecIndex_ok, bind_Ok_run by done.
  destruct (update_ok nd e.(mtype) (fun s => NodeSet.remove s (bitIndex e.(num)))
    (row nd e.(mtype) ∖ {[e.(num)]}) W (proj1 He)) as (nd' & -> & W' & HX).
  - intros s _ Hs <-. apply ok_remove; [done|apply He].
  - exists nd'. split; [done|]. split; [done|]. rewrite HX. apply set_eq. intros e'.
    rewrite elem_of_union, elem_of_filter, elem_of_type, !elem_of_difference, !elem_of_singleton,
      !elem_bits, machine_eq by done. destruct He as [Hm _].
    destruct (decide (e'.(mtype) = e.(mtype))) as [->|E]; tauto.
Qed.

Lemma isElement_ok nd e : ok nd -> machine e -> isElement nd e = Ok (bool_decide (e ∈ bits nd)).
Proof.
  intros W He. unfold isElement. rewrite vecIndex_ok, bind_Ok_run by done.
  destruct (ok_row nd _ W (proj1 He)) as (s & -> & Hs & Hrow). rewrite bind_Ok_run.
  rewrite (ok_isElement _ _ Hs) by apply He. f_equal. apply bool_decide_ext.
  rewrite <- Hrow, elem_row by (done || apply He). by destruct e.
Qed.

Lemma elementAt_ok nd e : ok nd -> machine e ->
  elementAt nd e = Ok (if decide (e ∈ bits nd) then 1 else 0).
Proof.
  intros W He. pose proof (isElement_ok nd e W He) as Hel. unfold isElement, elementAt in *.
  rewrite vecIndex_ok in * by done. rewrite bind_Ok_run. rewrite bind_Ok_run in Hel.
  destruct (ok_row nd _ W (proj1 He)) as (s & Hs & _). rewrite Hs, bind_Ok_run.
  rewrite Hs, bind_Ok_run in Hel.
  unfold NodeSet.elementAt. rewrite Hel, bind_Ok_run. by case_decide; case_bool_decide.
Qed.

Lemma setNetDest_ok nd m set : ok nd -> 0 <= m < NUM -> okset (controllers m) set ->
  exists nd', setNetDest nd m set = Ok nd' /\ ok nd' /\
    bits nd' = filter (fun e => e.(mtype) <> m) (bits nd) ∪ of_type m (members set).
Proof.
  intros W Hm Hset. unfold setNetDest. rewrite !base_level_ok, !bind_Ok_run by lia.
  replace (m + 1 - m) with 1 by lia. cbn [Z.eqb negb Pos.eqb].
  apply update_ok; [done..|]. intros s _ _ _. by apply ok_assign.
Qed.

(** ** All rows *)

(** A loop over the rows gives [X] when each row gives its part of [X]. *)
Lemma rows_bits nd' (X : gset MachineID) (T : Z -> gset Z) : ok nd' ->
  (forall m, 0 <= m < NUM -> row nd' m = T m) -> (forall e, e ∈ X -> machine e) ->
  (forall e, machine e -> e.(num) ∈ T e.(mtype) <-> e ∈ X) -> bits nd' = X.
Proof.
  intros W Hr HX HT. apply bits_ext; [done|done|]. intros m i Hm. rewrite Hr by apply Hm.
  apply (HT (mkMachine m i) Hm).
Qed.

Lemma bits_row nd e : ok nd -> machine e -> e.(num) ∈ row nd e.(mtype) <-> e ∈ bits nd.
Proof. intros W [Hm _]. rewrite elem_bits by done. tauto. Qed.

Lemma same_size_ok nd v : ok nd -> ok v -> NetDest.same_size nd v = Ok tt.
Proof. intros W Wv. unfold NetDest.same_size. by rewrite (ok_len nd W), (ok_len v Wv), Z.eqb_refl. Qed.

Lemma copy_ok nd : ok nd -> exists nd', copy nd = Ok nd' /\ ok nd' /\ bits nd' = bits nd.
Proof.
  intros W. destruct (each_rows (fun _ s => NodeSet.copy s) (row nd) nd (ok_len nd W))
    as (nd' & Hrun & W' & Hr).
  - intros m s Hm Hs. destruct (ok_row nd m W Hm) as (s0 & Hs0 & Hok & ->).
    rewrite Hs in Hs0. injection Hs0 as <-. by apply ok_copy.
  - exists nd'. split; [done|]. split; [done|].
    apply (rows_bits _ _ (row nd)); [done..|apply bits_machine|]. intros e. by apply bits_row.
Qed.

Lemma clear_ok nd : ok nd -> exists nd', clear nd = Ok nd' /\ ok nd' /\ bits nd' = ∅.
Proof.
  intros W. destruct (each_rows (fun _ s => NodeSet.clear s) (fun _ => ∅) nd (ok_len nd W))
    as (nd' & Hrun & W' & Hr).
  - intros m s Hm Hs. apply ok_clear. by apply (ok_rows nd W).
  - exists nd'. split; [done|]. split; [done|].
    apply (rows_bits _ _ (fun _ => ∅)); [done..|set_solver|]. set_solver.
Qed.

Lemma addNetDest_ok nd v : ok nd -> ok v ->
  exists nd', addNetDest nd v = Ok nd' /\ ok nd' /\ bits nd' = bits nd ∪ bits v.
Proof.
  intros W Wv. unfold addNetDest. rewrite same_size_ok by done.
  destruct (each_rows (fun i s => v ← vget v i; NodeSet.addSet s v)
    (fun m => row nd m ∪ row v m) nd (ok_len nd W)) as (nd' & Hrun & W' & Hr).
  - intros m s Hm Hs. destruct (ok_row nd m W Hm) as (s0 & Hs0 & Hok & ->).
    rewrite Hs in Hs0. injection Hs0 as <-.
    destruct (ok_row v m Wv Hm) as (w & -> & Hw & ->). by apply ok_addSet.
  - exists nd'. split; [done|]. split; [done|].
    eapply rows_bits; [exact W'|exact Hr| |].
    + intros e [?|?]%elem_of_union; by eapply bits_machine.
    + intros e He. rewrite !elem_of_union, !bits_row by done. done.
Qed.

Lemma removeNetDest_ok nd v : ok nd -> ok v ->
  exists nd', removeNetDest nd v = Ok nd' /\ ok nd' /\ bits nd' = bits nd ∖ bits v.
Proof.
  intros W Wv. unfold removeNetDest. rewrite same_size_ok by done.
  destruct (each_rows (fun i s => v ← vget v i; NodeSet.removeSet s v)
    (fun m => row nd m ∖ row v m) nd (ok_len nd W)) as (nd' & Hrun & W' & Hr).
  - intros m s Hm Hs. destruct (ok_row nd m W Hm) as (s0 & Hs0 & Hok & ->).
    rewrite Hs in Hs0. injection Hs0 as <-.
    destruct (ok_row v m Wv Hm) as (w & -> & Hw & ->). by apply ok_removeSet.
  - exists nd'. split; [done|]. split; [done|].
    eapply rows_bits; [exact W'|exact Hr| |].
    + intros e [? _]%elem_of_difference; by eapply bits_machine.
    + intros e He. rewrite !elem_of_difference, !bits_row by done. done.
Qed.

Lemma combine_ok op (top : gset Z -> gset Z -> gset Z) (X : gset MachineID) nd v : ok nd -> ok v ->
  (forall n s w r, okset n s -> okset n w ->
    exists s', (x ← op s w; NodeSet.assign r x) = Ok s' /\ okset n s' /\
      members s' = top (members s) (members w)) ->
  (forall e, e ∈ X -> machine e) ->
  (forall e, machine e -> e.(num) ∈ top (row nd e.(mtype)) (row v e.(mtype)) <-> e ∈ X) ->
  exists nd', combine op nd v = Ok nd' /\ ok nd' /\ bits nd' = X.
Proof.
  intros W Wv Hop HX HT. unfold combine. rewrite same_size_ok by done.
  destruct make_ok as (res & Hmk & Wr & _). rewrite Hmk, (ok_len nd W). cbn.
  destruct (rows_loop (fun i res => s ← vget nd i; w ← vget v i; x ← op s w;
      update res i (fun r => NodeSet.assign r x)) (fun m => top (row nd m) (row v m)) res)
    as (nd' & Hrun & W' & Hr); [apply Wr| |].
  - intros m r Hm Hlr Heq. destruct (ok_row nd m W Hm) as (s & -> & Hs & ->).
    destruct (ok_row v m Wv Hm) as (w & -> & Hw & ->). cbn.
    destruct (ok_row res m Wr Hm) as (r0 & Hr0 & _).
    destruct (Hop _ s w r0 Hs Hw) as (s' & Hx & ?). exists s'. split; [|done].
    destruct (op s w) as [x|]; [|done]. cbn in *. unfold update. rewrite Heq, Hr0. cbn. rewrite Hx. cbn.
    apply vset_in_range. unfold getSize in Hlr. lia.
  - exists nd'. split; [done|]. split; [done|]. by apply (rows_bits _ _ _ W' Hr).
Qed.

Lemma OR_ok nd v : ok nd -> ok v ->
  exists nd', OR nd v = Ok nd' /\ ok nd' /\ bits nd' = bits nd ∪ bits v.
Proof.
  intros W Wv. apply (combine_ok NodeSet.OR (∪)); [done..| | |].
  - intros n s w r Hs Hw. by apply ok_OR.
  - intros e [?|?]%elem_of_union; by eapply bits_machine.
  - intros e He. rewrite !elem_of_union, !bits_row by done. done.
Qed.

Lemma AND_ok nd v : ok nd -> ok v ->
  exists nd', AND nd v = Ok nd' /\ ok nd' /\ bits nd' = bits nd ∩ bits v.
Proof.
  intros W Wv. apply (combine_ok NodeSet.AND (∩)); [done..| | |].
  - intros n s w r Hs Hw. by apply ok_AND.
  - intros e [? _]%elem_of_intersection; by eapply bits_machine.
  - intros e He. rewrite !elem_of_intersection, !bits_row by done. done.
Qed.

(** ** Tests *)
Lemma tests_ok (body : Z -> result bool) (Q : Z -> Prop) (P : Prop) {HQ : forall m, Decision (Q m)} {HD : Decision P} :
  (forall m, 0 <= m < NUM -> body m = Ok (bool_decide (Q m))) ->
  ((forall m, 0 <= m < NUM -> Q m) <-> P) ->
  NodeSet.all_words body (upto NUM) = Ok (bool_decide P).
Proof.
  intros Hb HP. rewrite (all_words_run _ (fun m => bool_decide (Q m))) by done. f_equal.
  apply NodeSetOps.flag_iff. rewrite forallb_upto, <- HP.
  split; intros Hm m Hr; specialize (Hm m Hr); [by apply bool_decide_eq_true in Hm|by apply bool_decide_eq_true].
Qed.

Lemma isEmpty_ok nd : ok nd -> isEmpty nd = Ok (bool_decide (bits nd = ∅)).
Proof.
  intros W. unfold isEmpty. rewrite (ok_len nd W). apply (tests_ok _ (fun m => row nd m = ∅) (bits nd = ∅)).
  - intros m Hm. destruct (ok_row nd m W Hm) as (s & -> & Hs & ->). by apply (ok_isEmpty _ _ Hs).
  - split.
    + intros Hr. apply (rows_bits _ _ (fun _ => ∅)); [done..|set_solver|set_solver].
    + intros HX m Hm. apply set_eq. intros i. rewrite elem_row, HX by done. set_solver.
Qed.

Lemma isBroadcast_ok nd : ok nd -> isBroadcast nd = Ok (bool_decide (bits nd = all_machines)).
Proof.
  intros W. unfold isBroadcast. rewrite (ok_len nd W).
  apply (tests_ok _ (fun m => row nd m = universe (controllers m)) (bits nd = all_machines)).
  - intros m Hm. destruct (ok_row nd m W Hm) as (s & -> & Hs & ->). by apply (ok_isBroadcast _ _ Hs).
  - split.
    + intros Hr. apply (rows_bits _ _ (fun m => universe (controllers m))); [done..| |].
      * intros e. by rewrite elem_all.
      * intros e He. rewrite elem_universe, elem_all. split; [done|]. intros _. apply He.
    + intros HX m Hm. apply set_eq. intros i. rewrite elem_row, HX, elem_all, elem_universe by done.
      unfold machine. cbn. tauto.
Qed.

Lemma isSuperset_ok nd v : ok nd -> ok v ->
  isSuperset nd v = Ok (bool_decide (bits v ⊆ bits nd)).
Proof.
  intros W Wv. unfold isSuperset. rewrite same_size_ok, (ok_len nd W) by done.
  apply (tests_ok _ (fun m => row v m ⊆ row nd m) (bits v ⊆ bits nd)).
  - intros m Hm. destruct (ok_row nd m W Hm) as (s & -> & Hs & ->).
    destruct (ok_row v m Wv Hm) as (w & -> & Hw & ->). by apply (ok_isSuperset _ _ _ Hs Hw).
  - split.
    + intros Hr e. rewrite !elem_bits by done. intros [Hm He]. split; [done|]. by apply Hr.
    + intros HX m Hm i. rewrite !elem_row by done. apply HX.
Qed.

Lemma isSubset_ok nd v : ok nd -> ok v -> isSubset nd v = Ok (bool_decide (bits nd ⊆ bits v)).
Proof. intros W Wv. by apply isSuperset_ok. Qed.

Lemma intersection_ok nd v : ok nd -> ok v ->
  intersectionIsNotEmpty nd v = Ok (bool_decide (bits nd ∩ bits v <> ∅)).
Proof.
  intros W Wv. unfold intersectionIsNotEmpty. rewrite same_size_ok, (ok_len nd W) by done. cbn.
  rewrite (tests_ok _ (fun m => row nd m ∩ row v m = ∅) (bits nd ∩ bits v = ∅)).
  - cbn. by rewrite bool_decide_not.
  - intros m Hm. destruct (ok_row nd m W Hm) as (s & -> & Hs & ->).
    destruct (ok_row v m Wv Hm) as (w & -> & Hw & ->). by apply (ok_disjoint _ _ _ Hs Hw).
  - split.
    + intros Hr. apply set_eq. intros e. rewrite elem_of_intersection, !elem_bits by done.
      split; [|set_solver]. intros [[Hm He] [_ Hv]]. specialize (Hr _ Hm). set_solver.
    + intros HX m Hm. apply set_eq. intros i. rewrite elem_of_intersection, !elem_row by done. set_solver.
Qed.

(** ** Broadcasts *)
Lemma broadcast_type_ok nd m : ok nd -> 0 <= m < NUM ->
  exists nd', broadcast_type nd m = Ok nd' /\ ok nd' /\
    bits nd' = bits nd ∪ of_type m (universe (controllers m)).
Proof.
  intros W Hm. unfold broadcast_type. rewrite base_count_ok, bind_Ok_run by done.
  destruct (loop_upto (fun i nd => add nd (mkMachine m i)) (controllers m)
    (fun k nd' => ok nd' /\ bits nd' = bits nd ∪ of_type m (universe k)) nd)
    as (nd' & Hrun & ?); [by apply controllers_range| | |by exists nd'].
  - split; [done|]. apply set_eq. intros e. rewrite elem_of_union, elem_of_type, elem_universe.
    split; [tauto|]. intros [?|[_ ?]]; [done|lia].
  - intros k nd1 Hk [W1 HX]. destruct (add_ok nd1 (mkMachine m k) W1) as (nd2 & -> & W2 & HX2); [done|].
    exists nd2. split; [done|]. split; [done|]. rewrite HX2, HX. apply set_eq. intros e.
    rewrite !elem_of_union, !elem_of_type, !elem_universe, elem_of_singleton, machine_eq. cbn.
    split; [intuition lia|]. intros [?|[? ?]]; [tauto|]. destruct (decide (num e = k)); [tauto|].
    right. right. lia.
Qed.

Lemma broadcast_ok nd : ok nd ->
  exists nd', broadcast nd = Ok nd' /\ ok nd' /\ bits nd' = all_machines.
Proof.
  intros W. unfold broadcast.
  destruct (loop_upto (fun m nd => broadcast_type nd m) NUM
    (fun k nd' => ok nd' /\ forall e, machine e -> e.(mtype) < k -> e ∈ bits nd') nd)
    as (nd' & Hrun & W' & HX); [apply NUM_nonneg| | |].
  - split; [done|]. intros e [? _] ?. lia.
  - intros k nd1 Hk [W1 HX]. destruct (broadcast_type_ok nd1 k W1 Hk) as (nd2 & -> & W2 & HX2).
    exists nd2. split; [done|]. split; [done|]. intros e He Hlt.
    rewrite HX2, elem_of_union, elem_of_type, elem_universe.
    destruct (decide (e.(mtype) = k)) as [<-|]; [right; split; [done|apply He]|].
    left. apply HX; [done|lia].
  - exists nd'. split; [done|]. split; [done|]. apply set_eq. intros e. rewrite elem_all. split.
    + apply bits_machine.
    + intros He. apply HX; [done|]. apply He.
Qed.

(** ** Loops in the order of the machines *)
Lemma machines_of_cons m ms :
  machines_of (m :: ms) = (mkMachine m <$> upto (controllers m)) ++ machines_of ms.
Proof. done. Qed.

Lemma filter_row nd m (l : list Z) : ok nd -> 0 <= m < NUM ->
  filter (fun e => e ∈ bits nd) (mkMachine m <$> l) = mkMachine m <$> filter (fun i => i ∈ row nd m) l.
Proof.
  intros W Hm. induction l as [|i l IH]; [done|]. rewrite fmap_cons, !filter_cons, IH.
  pose proof (elem_row nd m i W Hm). repeat case_decide; tauto || done.
Qed.

Lemma row_elements nd m s : ok nd -> 0 <= m < NUM -> vget nd m = Ok s ->
  NodeSet.getSize s = controllers m /\
  (forall j, j ∈ upto (controllers m) -> NodeSet.isElement s j = Ok (bool_decide (j ∈ row nd m))) /\
  NodeSet.count s = Ok (Z.of_nat (length (filter (fun e => e ∈ bits nd) (mkMachine m <$> upto (controllers m))))).
Proof.
  intros W Hm Hs. pose proof (ok_rows nd W m s Hm Hs) as Hok.
  assert (row nd m = members s) as Hrow by (unfold row; by rewrite Hs).
  split; [by apply okset_size|]. split.
  - intros j Hj%elem_of_upto. rewrite Hrow. by apply (ok_isElement _ _ Hok).
  - rewrite (ok_count _ _ Hok), filter_row, length_fmap, <- Hrow by done. do 2 f_equal.
    rewrite <- (size_list_to_set (C := gset Z)).
    + f_equal. apply set_eq. intros i. rewrite elem_of_list_to_set, list_elem_of_filter, elem_of_upto.
      pose proof (row_in nd m i W Hm). tauto.
    + apply NoDup_filter. unfold upto. apply NoDup_fmap; [apply _|apply NoDup_seq].
Qed.

Lemma sum_nonneg ms : Forall (fun m => 0 <= m < NUM) ms -> 0 <= sum (controllers <$> ms).
Proof.
  induction 1 as [|m ms Hm _ IH]; cbn; [done|]. unfold sum in IH. pose proof (controllers_range m Hm). lia.
Qed.

Lemma upto_types : Forall (fun m => 0 <= m < NUM) (upto NUM).
Proof. apply Forall_forall. intros m. by rewrite elem_of_upto. Qed.

Lemma count_ok nd : ok nd -> count nd = Ok (Z.of_nat (size (bits nd))).
Proof.
  intros W. unfold count. rewrite (ok_len nd W).
  assert (forall ms c, Forall (fun m => 0 <= m < NUM) ms -> 0 <= c -> c + sum (controllers <$> ms) < 2 ^ 31 ->
    NodeSet.loop (fun i c => s ← vget nd i; k ← NodeSet.count s; Ok (i32 (c + k))) ms c =
    Ok (c + Z.of_nat (length (filter (fun e => e ∈ bits nd) (machines_of ms))))) as Hloop.
  { intros ms. induction ms as [|m ms IH]; intros c Hms Hc Hsum; [by rewrite Z.add_0_r|].
    apply Forall_cons in Hms as [Hm Hms]. cbn [NodeSet.loop].
    destruct (ok_row nd m W Hm) as (s & Hs & _). destruct (row_elements nd m s W Hm Hs) as (_ & _ & Hcnt).
    rewrite Hs, bind_Ok_run, Hcnt, !bind_Ok_run, machines_of_cons, filter_app, length_app.
    set (k := length (filter _ (mkMachine m <$> upto (controllers m)))).
    pose proof (sum_nonneg ms Hms) as Hpos. rewrite fmap_cons in Hsum. unfold sum in *. cbn [foldr] in Hsum.
    assert (k <= Z.to_nat (controllers m))%nat.
    { unfold k. etrans; [apply length_filter|]. rewrite length_fmap, length_upto. done. }
    pose proof (controllers_range m Hm).
    rewrite i32_small, IH by (done || unfold is_i32; lia). f_equal. lia. }
  rewrite Hloop; [|apply upto_types|done|apply controllers_total].
  f_equal. rewrite Z.add_0_l. f_equal. rewrite <- (size_list_to_set (C := gset MachineID)) by apply NoDup_filter, machines_NoDup.
  f_equal. apply set_eq. intros e. rewrite elem_of_list_to_set, list_elem_of_filter.
  fold machines. rewrite elem_machines. split; [tauto|]. intros He. split; [done|]. by eapply bits_machine.
Qed.

Lemma length_machines : Z.of_nat (length machines) = sum (controllers <$> upto NUM).
Proof.
  unfold machines. pose proof upto_types as Hms. induction Hms as [|m ms Hm _ IH]; [done|].
  rewrite machines_of_cons, length_app, length_fmap, length_upto, fmap_cons. unfold sum in *. cbn [foldr].
  pose proof (controllers_range m Hm). lia.
Qed.

Lemma size_machines nd : ok nd -> Z.of_nat (size (bits nd)) < 2 ^ 31.
Proof.
  intros W. unfold bits. rewrite size_list_to_set by apply NoDup_filter, machines_NoDup.
  pose proof (length_filter (fun e => num e ∈ row nd (mtype e)) machines). pose proof length_machines.
  pose proof controllers_total. lia.
Qed.

(** The number of a machine among all controllers. *)
Definition node_number (e : MachineID) : Z := sum (controllers <$> upto e.(mtype)) + e.(num).

Lemma node_number_range e : machine e ->
  0 <= node_number e < sum (controllers <$> upto NUM).
Proof.
  intros [Hm Hi]. unfold node_number.
  replace NUM with (e.(mtype) + (1 + (NUM - e.(mtype) - 1))) by lia.
  rewrite upto_app, NodeSetSpec.sum_app by lia. rewrite (upto_app _ 1), NodeSetSpec.sum_app by lia.
  assert (0 <= sum (controllers <$> upto e.(mtype))).
  { apply sum_nonneg, Forall_forall. intros m ?%elem_of_upto. lia. }
  match goal with |- context [sum ?l + sum ?r] =>
    assert (sum l = controllers e.(mtype)) as -> by (change (upto 1) with [0]; unfold sum; cbn -[Z.add]; by rewrite !Z.add_0_r);
    assert (0 <= sum r) end; [|lia].
  pose proof (fun m => controllers_range m). unfold sum.
  match goal with |- context [?g <$> upto ?k] => assert (Forall (fun x => 0 <= x) (g <$> upto k)) as HF end.
  { apply Forall_fmap, Forall_forall. intros m ?%elem_of_upto. cbn. apply controllers_range. lia. }
  clear -HF. induction HF; cbn in *; lia.
Qed.

Definition dests (X : gset MachineID) : list Z := node_number <$> filter (fun e => e ∈ X) machines.

Lemma collect_run {A} (P : Z -> Prop) `{!forall j, Decision (P j)} (g : Z -> A) body l d :
  (forall j d, j ∈ l -> body j d = Ok (if decide (P j) then d ++ [g j] else d)) ->
  NodeSet.loop body l d = Ok (d ++ (g <$> filter P l)).
Proof.
  revert d. induction l as [|j l IH]; intros d Hb; cbn [NodeSet.loop]; [by rewrite app_nil_r|].
  rewrite Hb by by left. rewrite bind_Ok_run, filter_cons, IH by (intros; apply Hb; by right).
  case_decide; [|done]. by rewrite fmap_cons, <- app_assoc.
Qed.

Lemma getAllDest_ok nd : ok nd -> getAllDest nd = Ok (dests (bits nd)).
Proof.
  intros W. unfold getAllDest, dests, machines. rewrite (ok_len nd W).
  match goal with |- NodeSet.loop ?b _ _ = _ => set (body := b) end.
  enough (forall ms d, Forall (fun m => 0 <= m < NUM) ms -> NodeSet.loop body ms d =
    Ok (d ++ (node_number <$> filter (fun e => e ∈ bits nd) (machines_of ms)))) as Hall
    by (rewrite Hall by apply upto_types; done).
  intros ms. induction ms as [|m ms IH]; intros d Hms; [by rewrite app_nil_r|].
  apply Forall_cons in Hms as [Hm Hms]. cbn [NodeSet.loop]. unfold body at 2.
  destruct (ok_row nd m W Hm) as (s & Hs & _). destruct (row_elements nd m s W Hm Hs) as (Hsz & Hel & _).
  rewrite Hs, bind_Ok_run, Hsz.
  rewrite (collect_run (fun j => j ∈ row nd m) (fun j => node_number (mkMachine m j))).
  - rewrite bind_Ok_run, IH by done. rewrite machines_of_cons, filter_app, fmap_app, filter_row by done.
    by rewrite <- list_fmap_compose, app_assoc.
  - intros j d' Hj. rewrite Hel, bind_Ok_run by done. case_bool_decide; [|by rewrite decide_False].
    rewrite decide_True, base_number_ok, bind_Ok_run by (done || lia).
    pose proof (node_number_range (mkMachine m j)) as Hr. apply elem_of_upto in Hj.
    pose proof controllers_total. specialize (Hr (conj Hm Hj)). unfold node_number in *. cbn in *.
    rewrite i32_small by (unfold is_i32; lia). done.
Qed.

Lemma first_of_run {A} (P : Z -> Prop) `{!forall j, Decision (P j)} (g : Z -> A) body l :
  (forall j, j ∈ l -> body j = Ok (if decide (P j) then Some (g j) else None)) ->
  first_of body l = Ok (head (g <$> filter P l)).
Proof.
  induction l as [|j l IH]; intros Hb; cbn [first_of]; [done|].
  rewrite Hb, bind_Ok_run, filter_cons by by left. case_decide; [done|].
  apply IH. intros. apply Hb. by right.
Qed.

Definition least (X : gset MachineID) : option MachineID := head (filter (fun e => e ∈ X) machines).

Lemma least_None nd : ok nd -> least (bits nd) = None -> bits nd = ∅.
Proof.
  intros W Hl. apply set_eq. intros e. split; [|set_solver]. intros He. unfold least in Hl.
  destruct (filter _ machines) as [|? ?] eqn:E; [|done].
  assert (e ∈ filter (fun e => e ∈ bits nd) machines) as Hin; [|rewrite E in Hin; by apply not_elem_of_nil in Hin].
  apply list_elem_of_filter. split; [done|]. apply elem_machines. by eapply bits_machine.
Qed.

Lemma smallestElement_ok nd : ok nd -> smallestElement nd =
  match least (bits nd) with Some e => Ok e | None => Err (AssertFail "count() > 0") end.
Proof.
  intros W. unfold smallestElement. rewrite count_ok, bind_Ok_run by done.
  assert (forall ms, Forall (fun m => 0 <= m < NUM) ms ->
    first_of (fun i => s ← vget nd i; first_of (fun j => b ← NodeSet.isElement s j;
        if (b : bool) then m ← MachineType_from_base_level i; Ok (Some (mkMachine m j)) else Ok None)
        (upto (NodeSet.getSize s))) ms =
    Ok (head (filter (fun e => e ∈ bits nd) (machines_of ms)))) as Hloop.
  { intros ms. induction ms as [|m ms IH]; intros Hms; [done|].
    apply Forall_cons in Hms as [Hm Hms]. cbn [first_of].
    destruct (ok_row nd m W Hm) as (s & Hs & _). destruct (row_elements nd m s W Hm Hs) as (Hsz & Hel & _).
    rewrite Hs, bind_Ok_run, Hsz,
      (first_of_run (fun j => j ∈ row nd m) (mkMachine m) _ (upto (controllers m))).
    - rewrite bind_Ok_run, machines_of_cons, filter_app, head_app, filter_row by done.
      destruct (head (mkMachine m <$> _)); [done|]. by apply IH.
    - intros j Hj. rewrite Hel, bind_Ok_run by done. case_bool_decide; [|by rewrite decide_False].
      by rewrite from_base_level_ok, decide_True by done. }
  destruct (least (bits nd)) as [e|] eqn:E.
  - assert (e ∈ bits nd) as He.
    { unfold least in E. apply head_Some_elem_of in E. by apply list_elem_of_filter in E as [? _]. }
    assert (0 < Z.of_nat (size (bits nd))) as Hpos.
    { assert (size (bits nd) <> 0%nat); [|lia]. intros E0%size_empty_inv%leibniz_equiv. rewrite E0 in He. set_solver. }
    rewrite (proj2 (Z.ltb_lt _ _)) by done. cbn [negb]. rewrite (ok_len nd W), Hloop, bind_Ok_run by apply upto_types.
    unfold least, machines in E. by rewrite E.
  - rewrite (least_None nd W E), size_empty. done.
Qed.

Definition least_of (m : Z) (X : gset MachineID) : option MachineID :=
  head (filter (fun e => e ∈ X) (mkMachine m <$> upto (controllers m))).

Lemma smallest_of_type_ok nd m : ok nd -> 0 <= m < NUM -> smallest_of_type nd m =
  match least_of m (bits nd) with
  | Some e => Ok e | None => Err (Panic "No smallest element of given MachineType.") end.
Proof.
  intros W Hm. unfold smallest_of_type. rewrite base_level_ok, bind_Ok_run by lia.
  destruct (ok_row nd m W Hm) as (s & Hs & _). destruct (row_elements nd m s W Hm Hs) as (Hsz & Hel & _).
  rewrite Hs, bind_Ok_run, Hsz, (first_of_run (fun j => j ∈ row nd m) (mkMachine m)).
  - rewrite bind_Ok_run. unfold least_of. by rewrite filter_row.
  - intros j Hj. rewrite Hel, bind_Ok_run by done. case_bool_decide; [by rewrite decide_True|by rewrite decide_False].
Qed.

End net_dest.
End NetDestOps.

(** * Network destinations refine finite sets of machines

    The calls of [NetDest] as an interface, the finite set that specifies it,
    and the refinement for every sequence of calls. *)
Module NetDestRefines.
Import NodeSetSpec(members, sum).
Import NodeSetOps(universe).
Import NetDestSpec.
Import NetDestOps.

Inductive call :=
| Resize | Add (e : MachineID) | Remove (e : MachineID)
| AddNetDest (v : NetDest.t) | RemoveNetDest (v : NetDest.t)
| SetNetDest (m : Z) (set : NodeSet.t) | Clear | Broadcast | BroadcastType (m : Z)
| Or (v : NetDest.t) | And (v : NetDest.t) | Copy
| IsElement (e : MachineID) | ElementAt (e : MachineID) | Count | IsEmpty | IsBroadcast
| Smallest | SmallestOf (m : Z) | Intersects (v : NetDest.t)
| IsSuperset (v : NetDest.t) | IsSubset (v : NetDest.t) | AllDest | Size.

Inductive answer := Unit | Flag (b : bool) | Num (k : Z) | Mach (e : MachineID) | Nodes (l : list Z).

Section refines.
Context `{MachineTypes}.

Definition exec (nd : NetDest.t) (c : call) : result (answer * NetDest.t) :=
  let effect r := nd' ← r; Ok (Unit, nd') in
  let test r := b ← r; Ok (Flag b, nd) in
  match c with
  | Resize => effect (NetDest.resize nd)
  | Add e => effect (NetDest.add nd e)
  | Remove e => effect (NetDest.remove nd e)
  | AddNetDest v => effect (NetDest.addNetDest nd v)
  | RemoveNetDest v => effect (NetDest.removeNetDest nd v)
  | SetNetDest m set => effect (NetDest.setNetDest nd m set)
  | Clear => effect (NetDest.clear nd)
  | Broadcast => effect (NetDest.broadcast nd)
  | BroadcastType m => effect (NetDest.broadcast_type nd m)
  | Or v => effect (NetDest.OR nd v)
  | And v => effect (NetDest.AND nd v)
  | Copy => effect (NetDest.copy nd)
  | IsElement e => test (NetDest.isElement nd e)
  | ElementAt e => x ← NetDest.elementAt nd e; Ok (Num x, nd)
  | Count => x ← NetDest.count nd; Ok (Num x, nd)
  | IsEmpty => test (NetDest.isEmpty nd)
  | IsBroadcast => test (NetDest.isBroadcast nd)
  | Smallest => e ← NetDest.smallestElement nd; Ok (Mach e, nd)
  | SmallestOf m => e ← NetDest.smallest_of_type nd m; Ok (Mach e, nd)
  | Intersects v => test (NetDest.intersectionIsNotEmpty nd v)
  | IsSuperset v => test (NetDest.isSuperset nd v)
  | IsSubset v => test (NetDest.isSubset nd v)
  | AllDest => l ← NetDest.getAllDest nd; Ok (Nodes l, nd)
  | Size => Ok (Num (NetDest.getSize nd), nd)
  end.

Context `{!MachineTypeLaws}.

Definition spec (X : gset MachineID) (c : call) : result (answer * gset MachineID) :=
  match c with
  | Resize | Clear => Ok (Unit, ∅)
  | Add e => Ok (Unit, {[e]} ∪ X)
  | Remove e => Ok (Unit, X ∖ {[e]})
  | AddNetDest v | Or v => Ok (Unit, X ∪ bits v)
  | RemoveNetDest v => Ok (Unit, X ∖ bits v)
  | SetNetDest m set =>
      Ok (Unit, filter (fun e => e.(mtype) <> m) X ∪ of_type m (members set))
  | Broadcast => Ok (Unit, all_machines)
  | BroadcastType m => Ok (Unit, X ∪ of_type m (universe (controllers m)))
  | And v => Ok (Unit, X ∩ bits v)
  | Copy => Ok (Unit, X)
  | IsElement e => Ok (Flag (bool_decide (e ∈ X)), X)
  | ElementAt e => Ok (Num (if decide (e ∈ X) then 1 else 0), X)
  | Count => Ok (Num (Z.of_nat (size X)), X)
  | IsEmpty => Ok (Flag (bool_decide (X = ∅)), X)
  | IsBroadcast => Ok (Flag (bool_decide (X = all_machines)), X)
  | Smallest =>
      match least X with Some e => Ok (Mach e, X) | None => Err (AssertFail "count() > 0") end
  | SmallestOf m =>
      match least_of m X with
      | Some e => Ok (Mach e, X)
      | None => Err (Panic "No smallest element of given MachineType.")
      end
  | Intersects v => Ok (Flag (bool_decide (X ∩ bits v <> ∅)), X)
  | IsSuperset v => Ok (Flag (bool_decide (bits v ⊆ X)), X)
  | IsSubset v => Ok (Flag (bool_decide (X ⊆ bits v)), X)
  | AllDest => Ok (Nodes (dests X), X)
  | Size => Ok (Num MachineType_NUM, X)
  end.

(** Arguments are machines of the system, or destinations built for it. *)
Definition valid (c : call) : Prop :=
  match c with
  | Add e | Remove e | IsElement e | ElementAt e => machine e
  | AddNetDest v | RemoveNetDest v | Or v | And v
  | Intersects v | IsSuperset v | IsSubset v => ok v
  | SetNetDest m set => 0 <= m < MachineType_NUM /\ okset (controllers m) set
  | BroadcastType m | SmallestOf m => 0 <= m < MachineType_NUM
  | _ => True
  end.

Definition refines (nd : NetDest.t) (c : call) : Prop :=
  match spec (bits nd) c with
  | Ok (a, X') => exists nd', exec nd c = Ok (a, nd') /\ ok nd' /\ bits nd' = X'
  | Err e => exec nd c = Err e
  end.

Lemma effect_refines (r : result NetDest.t) X :
  (exists nd', r = Ok nd' /\ ok nd' /\ bits nd' = X) ->
  exists nd', (x ← r; Ok (Unit, x)) = Ok (Unit, nd') /\ ok nd' /\ bits nd' = X.
Proof. intros (nd' & -> & ?). by exists nd'. Qed.

Lemma effects_refine nd c : ok nd -> valid c ->
  match c with
  | Resize | Add _ | Remove _ | AddNetDest _ | RemoveNetDest _ | SetNetDest _ _ | Clear
  | Broadcast | BroadcastType _ | Or _ | And _ | Copy => True
  | _ => False
  end -> refines nd c.
Proof.
  intros W V Hc. destruct c; try done; apply effect_refines; cbn in V;
    auto using resize_ok, add_ok, remove_ok, addNetDest_ok, removeNetDest_ok, clear_ok, broadcast_ok,
      broadcast_type_ok, OR_ok, AND_ok, copy_ok.
  destruct V. by apply setNetDest_ok.
Qed.

Lemma netdest_exec_refines nd c : ok nd -> valid c -> refines nd c.
Proof.
  intros W V. destruct c; try (by apply effects_refine); unfold refines; cbn [spec exec valid] in *.
  - rewrite isElement_ok by done. by exists nd.
  - rewrite elementAt_ok by done. by exists nd.
  - rewrite count_ok by done. by exists nd.
  - rewrite isEmpty_ok by done. by exists nd.
  - rewrite isBroadcast_ok by done. by exists nd.
  - rewrite smallestElement_ok by done. destruct (least _); [by exists nd|done].
  - rewrite smallest_of_type_ok by done. destruct (least_of _ _); [by exists nd|done].
  - rewrite intersection_ok by done. by exists nd.
  - rewrite isSuperset_ok by done. by exists nd.
  - rewrite isSubset_ok by done. by exists nd.
  - rewrite getAllDest_ok by done. by exists nd.
  - exists nd. by rewrite (ok_len nd W).
Qed.

Definition run_calls {D} (step : D -> call -> result (answer * D)) :=
  fix go (d : D) (cs : list call) : result (list answer * D) :=
    match cs with
    | [] => Ok ([], d)
    | c :: cs' => r ← step d c; r' ← go r.2 cs'; Ok (r.1 :: r'.1, r'.2)
    end.

Lemma netdest_calls_refine cs : Forall valid cs -> forall nd, ok nd ->
  match run_calls spec (bits nd) cs with
  | Ok (ans, X') => exists nd', run_calls exec nd cs = Ok (ans, nd') /\ ok nd' /\ bits nd' = X'
  | Err e => run_calls exec nd cs = Err e
  end.
Proof.
  induction 1 as [|c cs Hc Hcs IH]; intros nd W; cbn [run_calls]; [by exists nd|].
  pose proof (netdest_exec_refines nd c W Hc) as Hr. unfold refines in Hr.
  destruct (spec (bits nd) c) as [[a X1]|e]; cbn; [|by rewrite Hr].
  destruct Hr as (nd1 & -> & W1 & <-). cbn. specialize (IH nd1 W1).
  destruct (run_calls spec (bits nd1) cs) as [[ans X']|e]; cbn.
  - destruct IH as (nd' & -> & IH). cbn. eauto.
  - by rewrite IH.
Qed.

(** C39: for every numbering of machine types that keeps the generator's laws
    (types without controllers included), a fresh [NetDest] answers every
    sequence of calls with valid arguments exactly as a finite set of machines
    does: insertion, removal, broadcast, union, intersection, difference,
    comparison, counting, the smallest machine and the list of node numbers,
    without leaving its vectors; only the smallest element of an empty set
    fails. *)
Theorem netdest_refines_finite_set cs : Forall valid cs ->
  exists nd0, NetDest.make = Ok nd0 /\
  match run_calls spec ∅ cs with
  | Ok (ans, X') => exists nd', run_calls exec nd0 cs = Ok (ans, nd') /\ ok nd' /\ bits nd' = X'
  | Err e => run_calls exec nd0 cs = Err e
  end.
Proof.
  intros Hcs. destruct make_ok as (nd0 & Hmk & W & HX). exists nd0. split; [done|].
  rewrite <- HX. by apply netdest_calls_refine.
Qed.

End refines.

(** ** A numbering: the numbers of controllers of each type *)
Definition numbering (counts : list Z) : MachineTypes := {|
  MachineType_NUM := Z.of_nat (length counts);
  MachineType_base_level m :=
    if (0 <=? m) && (m <=? Z.of_nat (length counts)) then Ok m else Err (Panic "Invalid range");
  MachineType_from_base_level m :=
    if (0 <=? m) && (m <? Z.of_nat (length counts)) then Ok m else Err (Panic "Invalid range");
  MachineType_base_number m :=
    if (0 <=? m) && (m <=? Z.of_nat (length counts)) then Ok (sum (take (Z.to_nat m) counts))
    else Err (Panic "Invalid range");
  MachineType_base_count m :=
    match vget counts m with Ok c => Ok c | Err _ => Err (Panic "Invalid range") end
|}.

Lemma numbering_prefix counts m : 0 <= m <= Z.of_nat (length counts) ->
  (fun i => nth (Z.to_nat i) counts 0) <$> upto m = take (Z.to_nat m) counts.
Proof.
  intros Hm. apply list_eq. intros i. rewrite list_lookup_fmap, lookup_upto.
  case_decide as E; cbn.
  - rewrite lookup_take_lt by lia. rewrite Nat2Z.id.
    destruct (lookup_lt_is_Some_2 counts i ltac:(lia)) as [x Hx]. rewrite Hx. f_equal.
    by apply nth_lookup_Some.
  - rewrite lookup_take_ge by lia. done.
Qed.

#[global] Instance numbering_laws counts :
  Forall (fun c => 0 <= c <= 2 ^ 31 - 64) counts -> sum counts < 2 ^ 31 ->
  @MachineTypeLaws (numbering counts).
Proof.
  intros Hc Hs. refine (@Build_MachineTypeLaws (numbering counts)
    (fun m => nth (Z.to_nat m) counts 0) _ _ _ _ _ _ _); cbn.
  - intros m Hm. destruct (lookup_lt_is_Some_2 counts (Z.to_nat m) ltac:(lia)) as [x Hx].
    rewrite (nth_lookup_Some _ _ _ _ Hx). by apply (Forall_lookup_1 _ _ _ _ Hc Hx).
  - lia.
  - intros m Hm. destruct (Z.leb_spec 0 m), (Z.leb_spec m (Z.of_nat (length counts))); (done || lia).
  - intros m Hm. destruct (Z.leb_spec 0 m), (Z.ltb_spec m (Z.of_nat (length counts))); (done || lia).
  - intros m Hm. destruct (lookup_lt_is_Some_2 counts (Z.to_nat m) ltac:(lia)) as [x Hx].
    rewrite (proj2 (vget_Ok counts m x)) by (split; [lia|done]). by rewrite (nth_lookup_Some _ _ _ _ Hx).
  - intros m Hm. rewrite numbering_prefix by done.
    destruct (Z.leb_spec 0 m), (Z.leb_spec m (Z.of_nat (length counts))); (done || lia).
  - rewrite numbering_prefix, take_ge by lia. done.
Defined.

(** Three types of machines: four caches, two directories, no DMA. *)
Definition three_types : MachineTypes := numbering [4; 2; 0].

Definition three_types_laws : @MachineTypeLaws three_types :=
  numbering_laws [4; 2; 0] ltac:(repeat constructor; lia) ltac:(by vm_compute).

Lemma netdest_refines_finite_set_witness :
  let cs := [Add (mkMachine 0 3); Add (mkMachine 1 1); Add (mkMachine 0 2); Remove (mkMachine 0 3);
             BroadcastType 2; Count; Smallest; AllDest; Broadcast; IsBroadcast; Clear; Smallest] in
  exists nd0, @NetDest.make three_types = Ok nd0 /\
  match run_calls (@spec three_types three_types_laws) ∅ cs with
  | Ok (ans, X') => exists nd', run_calls (@exec three_types) nd0 cs = Ok (ans, nd') /\
      @ok three_types three_types_laws nd' /\ @bits three_types three_types_laws nd' = X'
  | Err e => run_calls (@exec three_types) nd0 cs = Err e
  end.
Proof.
  apply (@netdest_refines_finite_set three_types three_types_laws).
  repeat (constructor; [first [exact I | repeat split; vm_compute; (discriminate || reflexivity)]|]). constructor.
Defined.

Example netdest_run :
  (nd ← @NetDest.make three_types; r ← run_calls (@exec three_types) nd
     [Add (mkMachine 0 3); Add (mkMachine 1 1); Add (mkMachine 0 2); Remove (mkMachine 0 3);
      Count; Smallest; AllDest; Broadcast; Count; IsBroadcast; Size]; Ok r.1)
  = Ok [Unit; Unit; Unit; Unit; Num 2; Mach (mkMachine 0 2); Nodes [2; 5]; Unit; Num 6; Flag true;
        Num 3].
Proof. vm_compute. reflexivity. Qed.

End NetDestRefines.
