(* ===== verification/PersistentTable.v ===== *)
(** * Persistent requests
    (class [PersistentTable], src/src/mem/ruby/system/PersistentTable.hh and
    PersistentTable.cc).

    The arbitration of token coherence: which machines starve for a line, which
    of them were waiting when the last holder was done (marked), and which of
    them want to write.  A machine issues a persistent request only when
    [okToIssueStarving] allows it; the smallest starving machine holds the
    line. *)

From S2P Require Import Prelude.
From S2P Require Import Requests.
From S2P Require Import RubyAddress.
From S2P Require Import NodeSet.
From S2P Require Import NetDest.
Import Requests RubyAddress.

Inductive AccessType := AccessType_Read | AccessType_Write.

#[global] Instance AccessType_eq_dec : EqDecision AccessType.
Proof. solve_decision. Defined.

Module PersistentTable.
Record PersistentTableEntry := mkEntry {
  m_starving : NetDest.t;
  m_marked : NetDest.t;
  m_request_to_write : NetDest.t
}.

(** [m_map], a hash map that is never iterated. *)
Abbreviation t := (gmap Z PersistentTableEntry).

Section table.
Context `{MachineTypes} (cfg : RubyCfg).

Definition require (b : bool) (site : string) : result unit :=
  if b then Ok tt else Err (AssertFail site).

Definition line_check (address : Z) : result unit :=
  require (address =? line_address cfg address) "address == line_address(address)".

(** [PersistentTableEntry()], and its copy into the map. *)
Definition dflt : result PersistentTableEntry :=
  s ← NetDest.make; m ← NetDest.make; w ← NetDest.make; Ok (mkEntry s m w).

Definition copy_entry (e : PersistentTableEntry) : result PersistentTableEntry :=
  s ← NetDest.copy e.(m_starving); m ← NetDest.copy e.(m_marked);
  w ← NetDest.copy e.(m_request_to_write); Ok (mkEntry s m w).

(** [m_map.insert(value_type(address, dflt))]: the entry, and whether it was
    there before. *)
Definition insert_dflt (tb : t) (address : Z) : result (bool * PersistentTableEntry) :=
  match tb !! address with
  | Some entry => Ok (true, entry)
  | None => d ← dflt; entry ← copy_entry d; Ok (false, entry)
  end.

Definition persistentRequestLock (tb : t) (address : Z) (locker : MachineID) (type : AccessType)
  : result t :=
  line_check address;;
  r ← insert_dflt tb address;
  let present : bool := r.1 in
  let entry := r.2 in
  (if present then
     b ← NetDest.isElement entry.(m_starving) locker;
     require (negb b) "!(entry.m_starving.isElement(locker))"
   else Ok tt);;
  starving ← NetDest.add entry.(m_starving) locker;
  writes ← match type with
           | AccessType_Write => NetDest.add entry.(m_request_to_write) locker
           | AccessType_Read => Ok entry.(m_request_to_write)
           end;
  (if present then
     b ← NetDest.isSubset entry.(m_marked) starving;
     require b "entry.m_marked.isSubset(entry.m_starving)"
   else Ok tt);;
  Ok (<[address := mkEntry starving entry.(m_marked) writes]> tb).

Definition persistentRequestUnlock (tb : t) (address : Z) (unlocker : MachineID) : result t :=
  line_check address;;
  match tb !! address with
  | None => Err (AssertFail "m_map.count(address)")
  | Some entry =>
      b ← NetDest.isElement entry.(m_starving) unlocker;
      require b "entry.m_starving.isElement(unlocker)";;
      b ← NetDest.isSubset entry.(m_marked) entry.(m_starving);
      require b "entry.m_marked.isSubset(entry.m_starving)";;
      starving ← NetDest.remove entry.(m_starving) unlocker;
      marked ← NetDest.remove entry.(m_marked) unlocker;
      writes ← NetDest.remove entry.(m_request_to_write) unlocker;
      b ← NetDest.isSubset marked starving;
      require b "entry.m_marked.isSubset(entry.m_starving)";;
      none ← NetDest.isEmpty starving;
      if (none : bool) then
        e ← NetDest.isEmpty marked;
        require e "entry.m_marked.isEmpty()";;
        Ok (delete address tb)
      else Ok (<[address := mkEntry starving marked writes]> tb)
  end.

Definition okToIssueStarving (tb : t) (address : Z) (machId : MachineID) : result bool :=
  line_check address;;
  match tb !! address with
  | None => Ok true
  | Some entry =>
      b ← NetDest.isElement entry.(m_starving) machId;
      if (b : bool) then Ok false else NetDest.isEmpty entry.(m_marked)
  end.

Definition findSmallest (tb : t) (address : Z) : result MachineID :=
  line_check address;;
  match tb !! address with
  | None => Err (AssertFail "i != m_map.end()")
  | Some entry => NetDest.smallestElement entry.(m_starving)
  end.

Definition typeOfSmallest (tb : t) (address : Z) : result AccessType :=
  line_check address;;
  match tb !! address with
  | None => Err (AssertFail "i != m_map.end()")
  | Some entry =>
      m ← NetDest.smallestElement entry.(m_starving);
      b ← NetDest.isElement entry.(m_request_to_write) m;
      Ok (if (b : bool) then AccessType_Write else AccessType_Read)
  end.

Definition markEntries (tb : t) (address : Z) : result t :=
  line_check address;;
  match tb !! address with
  | None => Ok tb
  | Some entry =>
      b ← NetDest.isEmpty entry.(m_marked);
      require b "entry.m_marked.isEmpty()";;
      marked ← NetDest.copy entry.(m_starving);
      Ok (<[address := mkEntry entry.(m_starving) marked entry.(m_request_to_write)]> tb)
  end.

Definition isLocked (tb : t) (address : Z) : result bool :=
  line_check address;; Ok (bool_decide (is_Some (tb !! address))).

Definition countStarvingForAddress (tb : t) (address : Z) : result Z :=
  line_check address;;
  match tb !! address with None => Ok 0 | Some entry => NetDest.count entry.(m_starving) end.

Definition countReadStarvingForAddress (tb : t) (address : Z) : result Z :=
  line_check address;;
  match tb !! address with
  | None => Ok 0
  | Some entry =>
      s ← NetDest.count entry.(m_starving);
      w ← NetDest.count entry.(m_request_to_write);
      Ok (i32 (s - w))
  end.

End table.
End PersistentTable.
