(* ===== verification/PersistentSpec.v ===== *)
(** * Persistent requests: specification

    The table implements, for each line, three finite sets of machines, with
    those marked and those that write among those that starve; a marked machine
    is served before any newcomer. *)

From S2P Require Import Prelude.
From S2P Require Import Requests.
From S2P Require Import RubyAddress.
From S2P Require Import NodeSet.
From S2P Require Import NodeSetOps.
From S2P Require Import NetDest.
From S2P Require Import NetDestSpec.
From S2P Require Import NetDestRefines.
From S2P Require Import PersistentTable.
Import Requests RubyAddress.
Import NetDestSpec NetDestOps PersistentTable.

Module PersistentSpec.

(** ** The abstract table *)
Record waiting := mkWaiting {
  starving : gset MachineID;
  marked : gset MachineID;
  writers : gset MachineID
}.

Abbreviation abstract := (gmap Z waiting).

Inductive call :=
| Lock (address : Z) (locker : MachineID) (type : AccessType)
| Unlock (address : Z) (unlocker : MachineID)
| OkToIssue (address : Z) (machId : MachineID)
| Smallest (address : Z) | TypeOfSmallest (address : Z)
| Mark (address : Z) | IsLocked (address : Z)
| CountStarving (address : Z) | CountReadStarving (address : Z).

Inductive answer :=
| Unit | Flag (b : bool) | Mach (e : MachineID) | Access (a : AccessType) | Num (k : Z).

(** The moves of the protocol on one line (below). *)
Inductive move := Try (e : MachineID) (ty : AccessType) | Handoff.

#[global] Instance move_eq_dec : EqDecision move.
Proof. solve_decision. Defined.

Definition exec `{MachineTypes} (cfg : RubyCfg) (tb : t) (c : call) : result (answer * t) :=
  let effect r := tb' ← r; Ok (Unit, tb') in
  match c with
  | Lock a e ty => effect (persistentRequestLock cfg tb a e ty)
  | Unlock a e => effect (persistentRequestUnlock cfg tb a e)
  | OkToIssue a e => b ← okToIssueStarving cfg tb a e; Ok (Flag b, tb)
  | Smallest a => e ← findSmallest cfg tb a; Ok (Mach e, tb)
  | TypeOfSmallest a => x ← typeOfSmallest cfg tb a; Ok (Access x, tb)
  | Mark a => effect (markEntries cfg tb a)
  | IsLocked a => b ← isLocked cfg tb a; Ok (Flag b, tb)
  | CountStarving a => k ← countStarvingForAddress cfg tb a; Ok (Num k, tb)
  | CountReadStarving a => k ← countReadStarvingForAddress cfg tb a; Ok (Num k, tb)
  end.

Section spec.
Context `{MachineTypeLaws} (cfg : RubyCfg).

Definition wants (ty : AccessType) (e : MachineID) : gset MachineID :=
  match ty with AccessType_Write => {[e]} | AccessType_Read => ∅ end.

Definition spec (A : abstract) (c : call) : result (answer * abstract) :=
  match c with
  | Lock a e ty =>
      match A !! a with
      | None => Ok (Unit, <[a := mkWaiting {[e]} ∅ (wants ty e)]> A)
      | Some w =>
          if decide (e ∈ w.(starving)) then Err (AssertFail "!(entry.m_starving.isElement(locker))")
          else Ok (Unit, <[a := mkWaiting ({[e]} ∪ w.(starving)) w.(marked)
                                          (wants ty e ∪ w.(writers))]> A)
      end
  | Unlock a e =>
      match A !! a with
      | None => Err (AssertFail "m_map.count(address)")
      | Some w =>
          if decide (e ∈ w.(starving)) then
            if decide (w.(starving) ∖ {[e]} = ∅) then Ok (Unit, delete a A)
            else Ok (Unit, <[a := mkWaiting (w.(starving) ∖ {[e]}) (w.(marked) ∖ {[e]})
                                            (w.(writers) ∖ {[e]})]> A)
          else Err (AssertFail "entry.m_starving.isElement(unlocker)")
      end
  | OkToIssue a e =>
      let free := match A !! a with
                  | None => true
                  | Some w => bool_decide ((e ∉ w.(starving)) /\ w.(marked) = ∅)
                  end in
      Ok (Flag free, A)
  | Smallest a =>
      match A !! a with
      | Some w => match least w.(starving) with
                  | Some e => Ok (Mach e, A)
                  | None => Err (AssertFail "count() > 0")
                  end
      | None => Err (AssertFail "i != m_map.end()")
      end
  | TypeOfSmallest a =>
      match A !! a with
      | Some w => match least w.(starving) with
                  | Some e => Ok (Access (if decide (e ∈ w.(writers)) then AccessType_Write
                                          else AccessType_Read), A)
                  | None => Err (AssertFail "count() > 0")
                  end
      | None => Err (AssertFail "i != m_map.end()")
      end
  | Mark a =>
      match A !! a with
      | None => Ok (Unit, A)
      | Some w =>
          if decide (w.(marked) = ∅)
          then Ok (Unit, <[a := mkWaiting w.(starving) w.(starving) w.(writers)]> A)
          else Err (AssertFail "entry.m_marked.isEmpty()")
      end
  | IsLocked a => Ok (Flag (bool_decide (is_Some (A !! a))), A)
  | CountStarving a =>
      Ok (Num match A !! a with Some w => Z.of_nat (size w.(starving)) | None => 0 end, A)
  | CountReadStarving a =>
      Ok (Num match A !! a with
              | Some w => Z.of_nat (size (w.(starving) ∖ w.(writers))) | None => 0 end, A)
  end.

Definition valid (c : call) : Prop :=
  match c with
  | Lock a e _ | Unlock a e | OkToIssue a e => line_address cfg a = a /\ machine e
  | Smallest a | TypeOfSmallest a | Mark a | IsLocked a
  | CountStarving a | CountReadStarving a => line_address cfg a = a
  end.

(** ** Invariant and relation *)
Record wellformed (w : waiting) : Prop := {
  w_some : w.(starving) <> ∅;
  w_marked : w.(marked) ⊆ w.(starving);
  w_writers : w.(writers) ⊆ w.(starving)
}.

Record entry_rel (e : PersistentTableEntry) (w : waiting) : Prop := {
  e_starving : ok e.(m_starving) /\ bits e.(m_starving) = w.(starving);
  e_marked : ok e.(m_marked) /\ bits e.(m_marked) = w.(marked);
  e_writers : ok e.(m_request_to_write) /\ bits e.(m_request_to_write) = w.(writers)
}.

Record rel (tb : t) (A : abstract) : Prop := {
  r_entries a : option_Forall2 entry_rel (tb !! a) (A !! a);
  r_inv a w : A !! a = Some w -> wellformed w
}.

Lemma rel_insert tb A a e w : rel tb A -> entry_rel e w -> wellformed w ->
  rel (<[a := e]> tb) (<[a := w]> A).
Proof.
  intros [Hr Hi] He Hw. split.
  - intros b. destruct (decide (a = b)) as [<-|Hne].
    + rewrite !lookup_insert_eq. by constructor.
    + rewrite !lookup_insert_ne by done. apply Hr.
  - intros b x. rewrite lookup_insert_Some. intros [[_ <-]|[_ ?]]; [done|]. by eapply Hi.
Qed.

Lemma rel_delete tb A a : rel tb A -> rel (delete a tb) (delete a A).
Proof.
  intros [Hr Hi]. split.
  - intros b. destruct (decide (a = b)) as [<-|Hne].
    + rewrite !lookup_delete_eq. constructor.
    + rewrite !lookup_delete_ne by done. apply Hr.
  - intros b x [_ ?]%lookup_delete_Some. by eapply Hi.
Qed.

Lemma rel_lookup tb A a : rel tb A ->
  (tb !! a = None /\ A !! a = None) \/
  exists e w, tb !! a = Some e /\ A !! a = Some w /\ entry_rel e w /\ wellformed w.
Proof.
  intros R. pose proof (r_entries _ _ R a) as Ho. destruct (A !! a) as [w|] eqn:E.
  - inversion Ho as [e ? He|]; subst. right. exists e, w. split_and!; try done. by eapply r_inv.
  - inversion Ho. by left.
Qed.

Lemma line_check_ok a : line_address cfg a = a -> line_check cfg a = Ok tt.
Proof. intros Ha. unfold line_check, require. by rewrite Ha, Z.eqb_refl. Qed.

Lemma dflt_ok : exists d, dflt = Ok d /\ entry_rel d (mkWaiting ∅ ∅ ∅).
Proof.
  destruct make_ok as (nd & Hmk & W & HX). unfold dflt. rewrite Hmk. cbn. eexists. split; [done|]. by split.
Qed.

Lemma copy_entry_ok e w : entry_rel e w -> exists e', copy_entry e = Ok e' /\ entry_rel e' w.
Proof.
  intros [[W1 H1] [W2 H2] [W3 H3]]. unfold copy_entry.
  destruct (copy_ok _ W1) as (s & -> & ? & ?). destruct (copy_ok _ W2) as (m & -> & ? & ?).
  destruct (copy_ok _ W3) as (r & -> & ? & ?). cbn. eexists. split; [done|]. split; cbn; split; congruence.
Qed.

(** ** Each call *)
Definition refines (tb : t) (A : abstract) (c : call) : Prop :=
  match spec A c with
  | Ok (x, A') => exists tb', exec cfg tb c = Ok (x, tb') /\ rel tb' A'
  | Err e => exec cfg tb c = Err e
  end.

Lemma lock_refines tb A a e ty : rel tb A -> valid (Lock a e ty) -> refines tb A (Lock a e ty).
Proof.
  intros R [Ha He]. unfold refines. cbn [spec exec]. unfold persistentRequestLock, insert_dflt.
  rewrite line_check_ok by done. cbn [mbind result_bind]. rewrite ?bind_Ok_run.
  destruct (rel_lookup tb A a R) as [[-> ->]|(en & w & -> & -> & [[W1 H1] [W2 H2] [W3 H3]] & Hw)].
  - destruct dflt_ok as (d & -> & Hd). rewrite bind_Ok_run.
    destruct (copy_entry_ok d _ Hd) as (en & -> & [[W1 H1] [W2 H2] [W3 H3]]). rewrite !bind_Ok_run. cbn in *.
    destruct (add_ok _ e W1 He) as (s & -> & W1' & H1'). rewrite bind_Ok_run.
    destruct ty; [|destruct (add_ok _ e W3 He) as (wr & -> & W3' & H3')]; rewrite !bind_Ok_run;
      (eexists; split; [done|]; apply rel_insert; [done|split; cbn; split; (done || set_solver)|]);
      split; cbn; set_solver.
  - rewrite bind_Ok_run. cbn. rewrite isElement_ok, H1, bind_Ok_run by done.
    case_decide as Hin.
    + rewrite bool_decide_eq_true_2 by done. done.
    + rewrite bool_decide_eq_false_2 by done. cbn.
      destruct (add_ok _ e W1 He) as (s & -> & W1' & H1'). rewrite bind_Ok_run.
      assert (bits (m_marked en) ⊆ bits s) as Hsub by (destruct Hw; set_solver).
      destruct ty; [|destruct (add_ok _ e W3 He) as (wr & -> & W3' & H3')]; rewrite !bind_Ok_run;
        rewrite isSubset_ok, bool_decide_eq_true_2 by done; cbn;
        (eexists; split; [done|]; apply rel_insert; [done|split; cbn; split; (done || set_solver)|]);
        destruct Hw; split; cbn; set_solver.
Qed.

Lemma unlock_refines tb A a e : rel tb A -> valid (Unlock a e) -> refines tb A (Unlock a e).
Proof.
  intros R [Ha He]. unfold refines. cbn [spec exec]. unfold persistentRequestUnlock.
  rewrite line_check_ok, bind_Ok_run by done.
  destruct (rel_lookup tb A a R) as [[-> ->]|(en & w & -> & -> & [[W1 H1] [W2 H2] [W3 H3]] & Hw)]; [done|].
  rewrite isElement_ok, H1, bind_Ok_run by done. case_decide as Hin.
  2: { rewrite bool_decide_eq_false_2 by done. done. }
  rewrite (bool_decide_eq_true_2 (e ∈ _)) by done. cbn [require]. rewrite bind_Ok_run.
  rewrite isSubset_ok, bool_decide_eq_true_2 by (done || destruct Hw; set_solver).
  cbn [require]. rewrite !bind_Ok_run.
  destruct (remove_ok _ e W1 He) as (s & -> & W1' & H1'). destruct (remove_ok _ e W2 He) as (m & -> & W2' & H2').
  destruct (remove_ok _ e W3 He) as (wr & -> & W3' & H3'). rewrite !bind_Ok_run.
  rewrite isSubset_ok, bool_decide_eq_true_2 by (done || destruct Hw; set_solver).
  cbn [require]. rewrite !bind_Ok_run, (isEmpty_ok s), bind_Ok_run, H1', H1 by done.
  case_decide as Hemp.
  - rewrite bool_decide_eq_true_2 by done.
    rewrite (isEmpty_ok m), bind_Ok_run, bool_decide_eq_true_2 by (done || destruct Hw; set_solver).
    cbn. eexists. split; [done|]. by apply rel_delete.
  - rewrite bool_decide_eq_false_2 by done. cbn. eexists. split; [done|].
    apply rel_insert; [done|split; cbn; split; (done || set_solver)|]. destruct Hw; split; cbn; set_solver.
Qed.

Lemma mark_refines tb A a : rel tb A -> valid (Mark a) -> refines tb A (Mark a).
Proof.
  intros R Ha. unfold refines. cbn [spec exec valid] in *. unfold markEntries.
  rewrite line_check_ok, bind_Ok_run by done.
  destruct (rel_lookup tb A a R) as [[-> ->]|(en & w & -> & -> & [[W1 H1] [W2 H2] [W3 H3]] & Hw)].
  { by exists tb. }
  rewrite isEmpty_ok, H2, bind_Ok_run by done. case_decide as Hm.
  - rewrite bool_decide_eq_true_2 by done. cbn. destruct (copy_ok _ W1) as (m & -> & Wm & Hm').
    cbn. eexists. split; [done|]. apply rel_insert; [done|split; cbn; split; (done || set_solver)|].
    destruct Hw; by split.
  - by rewrite bool_decide_eq_false_2.
Qed.

Lemma least_machine (X : gset MachineID) e : least X = Some e -> machine e /\ e ∈ X.
Proof.
  unfold least. intros E%head_Some_elem_of. apply list_elem_of_filter in E as [HX Hm].
  by apply elem_machines in Hm.
Qed.

Lemma queries_refine tb A c : rel tb A -> valid c ->
  match c with Lock _ _ _ | Unlock _ _ | Mark _ => False | _ => True end -> refines tb A c.
Proof.
  intros R V Hc. destruct c as [| |a e|a|a| |a|a|a]; try done; unfold refines; cbn [spec exec valid] in *;
    match type of V with _ /\ _ => destruct V as [V He] | _ => idtac end;
    unfold okToIssueStarving, findSmallest, typeOfSmallest, isLocked, countStarvingForAddress,
      countReadStarvingForAddress; rewrite line_check_ok, bind_Ok_run by done;
    destruct (rel_lookup tb A a R) as [[-> ->]|(en & w & -> & -> & [[W1 H1] [W2 H2] [W3 H3]] & Hw)];
    try (by exists tb); try done.
  - rewrite isElement_ok, H1, bind_Ok_run by done. case_bool_decide.
    + exists tb. split; [|done]. cbn. by rewrite bool_decide_eq_false_2 by tauto.
    + rewrite isEmpty_ok, H2 by done. exists tb. split; [|done]. cbn. do 3 f_equal.
      apply bool_decide_ext. tauto.
  - rewrite smallestElement_ok, H1 by done. destruct (least _); [by exists tb|done].
  - rewrite smallestElement_ok, H1 by done. destruct (least w.(starving)) as [m|] eqn:El; [|done].
    destruct (least_machine _ _ El) as [Hm _]. cbn. rewrite isElement_ok, H3 by done.
    exists tb. split; [|done]. cbn. case_decide; [by rewrite bool_decide_eq_true_2|by rewrite bool_decide_eq_false_2].
  - rewrite count_ok, H1 by done. by exists tb.
  - rewrite !count_ok, H1, H3 by done. cbn. exists tb. split; [|done]. do 3 f_equal.
    rewrite size_difference by apply Hw. pose proof (subseteq_size _ _ (w_writers _ Hw)).
    rewrite i32_small; [lia|]. pose proof (size_machines (m_starving en) W1). rewrite H1 in *.
    unfold is_i32. lia.
Qed.

Lemma persistent_exec_refines tb A c : rel tb A -> valid c -> refines tb A c.
Proof.
  intros R V. destruct c; (by apply lock_refines) || (by apply unlock_refines) || (by apply mark_refines) ||
    (by apply queries_refine).
Qed.

(** ** Sequences of calls *)
Definition run_calls {D} (step : D -> call -> result (answer * D)) :=
  fix go (d : D) (cs : list call) : result (list answer * D) :=
    match cs with
    | [] => Ok ([], d)
    | c :: cs' => r ← step d c; r' ← go r.2 cs'; Ok (r.1 :: r'.1, r'.2)
    end.

Lemma persistent_calls_refine cs : Forall valid cs -> forall tb A, rel tb A ->
  match run_calls spec A cs with
  | Ok (ans, A') => exists tb', run_calls (exec cfg) tb cs = Ok (ans, tb') /\ rel tb' A'
  | Err e => run_calls (exec cfg) tb cs = Err e
  end.
Proof.
  induction 1 as [|c cs Hc Hcs IH]; intros tb A R; cbn [run_calls]; [by exists tb|].
  pose proof (persistent_exec_refines tb A c R Hc) as Hr. unfold refines in Hr.
  destruct (spec A c) as [[x A1]|e]; cbn; [|by rewrite Hr].
  destruct Hr as (tb1 & -> & R1). cbn. specialize (IH tb1 A1 R1).
  destruct (run_calls spec A1 cs) as [[ans A']|e]; cbn.
  - destruct IH as (tb' & -> & IH). cbn. eauto.
  - by rewrite IH.
Qed.

Lemma rel_empty : rel ∅ ∅.
Proof. split; [intros a; rewrite !lookup_empty; constructor|]. intros a w. by rewrite lookup_empty. Qed.

(** From an empty table every sequence of calls on lines and machines of the
    system answers as three finite sets per line do, and stops with the same
    failing assertion; in every state reached the machines that are marked
    and those that want to write are among those that starve, and a line has
    an entry exactly when some machine starves for it. *)
Theorem persistent_table_refines cs : Forall valid cs ->
  match run_calls spec ∅ cs with
  | Ok (ans, A') => exists tb', run_calls (exec cfg) ∅ cs = Ok (ans, tb') /\
      (forall a, option_Forall2 entry_rel (tb' !! a) (A' !! a)) /\
      (forall a w, A' !! a = Some w -> wellformed w)
  | Err e => run_calls (exec cfg) ∅ cs = Err e
  end.
Proof.
  intros Hcs. pose proof (persistent_calls_refine cs Hcs ∅ ∅ rel_empty) as Hr.
  destruct (run_calls spec ∅ cs) as [[ans A']|e]; [|done].
  destruct Hr as (tb' & Hrun & [? ?]). by exists tb'.
Qed.

(** ** Fairness

    What the protocol does with one line: a machine issues its request when
    [okToIssueStarving] lets it, and the machine that holds the line is done. *)
Definition do_move (a : Z) (tb : t) (v : move) : result (list MachineID * t) :=
  match v with
  | Try e ty =>
      b ← okToIssueStarving cfg tb a e;
      if (b : bool) then tb' ← persistentRequestLock cfg tb a e ty; Ok ([], tb') else Ok ([], tb)
  | Handoff =>
      l ← isLocked cfg tb a;
      if (l : bool) then
        e ← findSmallest cfg tb a; tb' ← persistentRequestUnlock cfg tb a e; Ok ([e], tb')
      else Ok ([], tb)
  end.

(** The machines served, in order. *)
Fixpoint moves (a : Z) (tb : t) (vs : list move) : result (list MachineID * t) :=
  match vs with
  | [] => Ok ([], tb)
  | v :: vs' => r ← do_move a tb v; r' ← moves a r.2 vs'; Ok (r.1 ++ r'.1, r'.2)
  end.

Definition handoffs (vs : list move) : nat :=
  length (filter (fun v => v = Handoff) vs).

Definition move_ok (v : move) : Prop := match v with Try e _ => machine e | Handoff => True end.

(** All of [X] in the order of the machines. *)
Definition in_order (X : gset MachineID) : list MachineID := filter (fun e => e ∈ X) machines.

Lemma refine_effect tb A c A' : rel tb A -> valid c -> spec A c = Ok (Unit, A') ->
  exists tb', exec cfg tb c = Ok (Unit, tb') /\ rel tb' A'.
Proof.
  intros R V Hs. pose proof (persistent_exec_refines tb A c R V) as Hr. unfold refines in Hr. by rewrite Hs in Hr.
Qed.

Lemma effect_run (r : result t) tb' : (x ← r; Ok (Unit, x)) = Ok (Unit, tb') -> r = Ok tb'.
Proof. destruct r; cbn; congruence. Qed.

(** What a move does to the abstract table. *)
Definition spec_move (a : Z) (A : abstract) (v : move) : list MachineID * abstract :=
  match v with
  | Try e ty =>
      match A !! a with
      | None => ([], <[a := mkWaiting {[e]} ∅ (wants ty e)]> A)
      | Some w =>
          if decide ((e ∉ w.(starving)) /\ w.(marked) = ∅)
          then ([], <[a := mkWaiting ({[e]} ∪ w.(starving)) w.(marked) (wants ty e ∪ w.(writers))]> A)
          else ([], A)
      end
  | Handoff =>
      match A !! a with
      | Some w =>
          match least w.(starving) with
          | Some e =>
              ([e], if decide (w.(starving) ∖ {[e]} = ∅) then delete a A
                    else <[a := mkWaiting (w.(starving) ∖ {[e]}) (w.(marked) ∖ {[e]})
                                          (w.(writers) ∖ {[e]})]> A)
          | None => ([], A)
          end
      | None => ([], A)
      end
  end.

Lemma rel_least tb A a w : rel tb A -> A !! a = Some w -> exists e, least w.(starving) = Some e.
Proof.
  intros R Hw. destruct (rel_lookup tb A a R) as [[_ ?]|(en & w' & _ & Hw' & [[W1 H1] _ _] & Hwf)]; [congruence|].
  rewrite Hw in Hw'. injection Hw' as <-. destruct (least w.(starving)) as [e|] eqn:E; [by exists e|].
  rewrite <- H1 in E. apply least_None in E; [|done]. rewrite H1 in E. by destruct Hwf.
Qed.

Lemma move_run a tb A v : line_address cfg a = a -> rel tb A -> move_ok v ->
  exists tb', do_move a tb v = Ok ((spec_move a A v).1, tb') /\ rel tb' (spec_move a A v).2.
Proof.
  intros Ha R Hv. destruct v as [e ty|]; cbn [do_move].
  - pose proof (persistent_exec_refines tb A (OkToIssue a e) R (conj Ha Hv)) as Hq.
    unfold refines in Hq. cbn [spec exec] in Hq. destruct Hq as (tb0 & Hq & _).
    destruct (okToIssueStarving cfg tb a e) as [b|]; [|done]. cbn in Hq. injection Hq as Hb <-.
    rewrite bind_Ok_run. cbn [spec_move].
    pose proof (refine_effect tb A (Lock a e ty)) as Hl. cbn [spec exec] in Hl.
    destruct (A !! a) as [w|] eqn:E.
    + subst b. destruct (decide ((e ∉ w.(starving)) /\ w.(marked) = ∅)) as [Hd|Hd].
      * rewrite bool_decide_eq_true_2 by done. destruct Hd as [Hin Hm]. rewrite decide_False in Hl by done.
        destruct (Hl _ R (conj Ha Hv) eq_refl) as (tb' & Hx%effect_run & R'). rewrite Hx. by exists tb'.
      * rewrite bool_decide_eq_false_2 by done. by exists tb.
    + subst b. destruct (Hl _ R (conj Ha Hv) eq_refl) as (tb' & Hx%effect_run & R'). rewrite Hx. by exists tb'.
  - unfold isLocked. rewrite line_check_ok, !bind_Ok_run by done. cbn [spec_move].
    destruct (rel_lookup tb A a R) as [[Et Ea]|(en & w & Et & Ea & _ & _)].
    + rewrite Et, Ea, bool_decide_eq_false_2 by (by intros []). by exists tb.
    + rewrite Et, bool_decide_eq_true_2 by done. rewrite Ea.
      destruct (rel_least tb A a w R Ea) as [e El]. rewrite El.
      pose proof (persistent_exec_refines tb A (Smallest a) R Ha) as Hq. unfold refines in Hq.
      cbn [spec exec] in Hq. rewrite Ea, El in Hq. destruct Hq as (tb0 & Hq & _).
      destruct (findSmallest cfg tb a) as [e'|]; [|done]. cbn in Hq. injection Hq as -> <-.
      rewrite bind_Ok_run. destruct (least_machine _ _ El) as [Hm Hin].
      pose proof (refine_effect tb A (Unlock a e)) as Hl. cbn [spec exec] in Hl.
      rewrite Ea, (decide_True _ _ Hin) in Hl.
      case_decide as Hemp;
        (destruct (Hl _ R (conj Ha Hm) eq_refl) as (tb' & Hx%effect_run & R'); rewrite Hx; by exists tb').
Qed.

Lemma in_order_empty : in_order ∅ = [].
Proof. apply elem_of_nil_inv. intros e [He _]%list_elem_of_filter. set_solver. Qed.

Lemma in_order_least X e : least X = Some e -> in_order X = e :: in_order (X ∖ {[e]}).
Proof.
  unfold least, in_order. pose proof machines_NoDup as Hnd. revert Hnd. generalize machines.
  induction l as [|x l IH]; [done|]. intros [Hx Hl]%NoDup_cons. rewrite !filter_cons.
  case_decide as Hin; cbn.
  - intros [=->]. rewrite decide_False by set_solver. f_equal. clear -Hx. induction l as [|y l IH]; [done|]. rewrite not_elem_of_cons in Hx.
    destruct Hx as [Hy Hl]. rewrite !filter_cons, IH by done. repeat case_decide; set_solver.
  - intros Hh. rewrite decide_False by set_solver. by apply IH.
Qed.

(** While [X] is marked nobody else gets in. *)
Definition waiting_for (a : Z) (A : abstract) (X : gset MachineID) : Prop :=
  X = ∅ \/ exists wr, A !! a = Some (mkWaiting X X wr).

Lemma moves_serve a vs : line_address cfg a = a -> Forall move_ok vs -> forall tb A X,
  rel tb A -> waiting_for a A X -> (size X <= handoffs vs)%nat ->
  exists served tb', moves a tb vs = Ok (in_order X ++ served, tb').
Proof.
  intros Ha. induction 1 as [|v vs Hv Hvs IH]; intros tb A X R HX Hle.
  - assert (X = ∅) as -> by (apply leibniz_equiv, size_empty_inv; cbn in Hle; lia).
    exists [], tb. by rewrite in_order_empty.
  - cbn [moves]. destruct (move_run a tb A v Ha R Hv) as (tb1 & -> & R1). rewrite bind_Ok_run.
    destruct HX as [->|[wr Hwr]].
    + destruct (IH tb1 _ ∅ R1 (or_introl eq_refl)) as (served & tb' & Hrun); [rewrite size_empty; lia|].
      rewrite in_order_empty in *. cbn in *. rewrite Hrun. cbn. eauto.
    + destruct v as [e ty|]; cbn [spec_move fst snd] in *; rewrite Hwr in *; cbn [starving marked] in *.
      * pose proof (r_inv _ _ R a _ Hwr) as [Hne _ _]. cbn in Hne.
        rewrite decide_False in * by tauto. cbn [fst snd] in *.
        destruct (IH tb1 A X R1) as (served & tb' & Hrun); [right; by exists wr| |].
        { unfold handoffs in *. rewrite filter_cons_False in Hle by done. done. }
        rewrite Hrun. cbn. eauto.
      * destruct (rel_least tb A a _ R Hwr) as [e El]. cbn in El. rewrite El in *. cbn [fst snd] in *.
        destruct (least_machine _ _ El) as [Hm Hin].
        rewrite (in_order_least X e El).
        assert (size (X ∖ {[e]}) <= handoffs vs)%nat as Hsz.
        { unfold handoffs in *. rewrite filter_cons_True in Hle by done. cbn in Hle.
          rewrite size_difference, size_singleton by set_solver. lia. }
        edestruct (IH tb1 _ (X ∖ {[e]}) R1) as (served & tb' & Hrun); [|done|].
        { unfold waiting_for. case_decide as Hemp; [by left|]. right. rewrite lookup_insert_eq. eauto. }
        rewrite Hrun. cbn. eauto.
Qed.

(** C40: after [markEntries] the machines that starve for the line are served
    first and in order: whatever requests are tried in between, and in any
    order, the next handoffs go to exactly these machines, each once, smallest
    first, and no assertion fails; a machine that waits is overtaken only by
    machines that were already waiting. *)
Theorem marked_served_first cs a ans tb0 entry tb vs :
  line_address cfg a = a -> Forall valid cs -> Forall move_ok vs ->
  run_calls (exec cfg) ∅ cs = Ok (ans, tb0) -> tb0 !! a = Some entry ->
  markEntries cfg tb0 a = Ok tb ->
  (size (bits entry.(m_starving)) <= handoffs vs)%nat ->
  exists served tb',
    moves a tb vs = Ok (in_order (bits entry.(m_starving)) ++ served, tb').
Proof.
  intros Ha Hcs Hvs Hrun Hentry Hmark Hle.
  pose proof (persistent_calls_refine cs Hcs ∅ ∅ rel_empty) as Hr. rewrite Hrun in Hr.
  destruct (run_calls spec ∅ cs) as [[ans' A]|e]; [|done]. destruct Hr as (tb1 & [= <- <-] & R).
  destruct (rel_lookup tb0 A a R) as [[? _]|(en & w & Et & Ea & [[W1 H1] [W2 H2] _] & _)]; [congruence|].
  rewrite Hentry in Et. injection Et as <-.
  pose proof (persistent_exec_refines tb0 A (Mark a) R Ha) as Hq. unfold refines in Hq. cbn [spec exec] in Hq.
  rewrite Ea, Hmark in Hq. case_decide as Hm; [|done]. destruct Hq as (tb2 & [= <-] & R').
  apply (moves_serve a vs Ha Hvs tb _ _ R'); [|done].
  right. rewrite lookup_insert_eq, H1. eauto.
Qed.

End spec.

(** ** A run: two machines wait, a third comes after the mark *)
Import NetDestRefines(three_types, three_types_laws).
#[local] Existing Instance three_types.
#[local] Existing Instance three_types_laws.

Definition two_wait : list call :=
  [Lock 64 (mkMachine 0 3) AccessType_Write; Lock 64 (mkMachine 0 1) AccessType_Read].

Definition late : list move :=
  [Try (mkMachine 0 0) AccessType_Read; Handoff; Try (mkMachine 1 0) AccessType_Write; Handoff;
   Try (mkMachine 0 0) AccessType_Read; Handoff].

Definition the_table : t := Eval vm_compute in
  match run_calls (exec example_cfg) ∅ two_wait with Ok r => r.2 | Err _ => ∅ end.

Definition the_entry : PersistentTableEntry := Eval vm_compute in
  match the_table !! 64 with Some e => e | None => mkEntry [] [] [] end.

Definition the_marked : t := Eval vm_compute in
  match markEntries example_cfg the_table 64 with Ok tb => tb | Err _ => ∅ end.

Lemma two_wait_valid : Forall (valid example_cfg) two_wait.
Proof. repeat constructor; vm_compute; (discriminate || reflexivity). Qed.

Lemma persistent_table_refines_witness :
  match run_calls spec ∅ (two_wait ++ [Mark 64; CountStarving 64; TypeOfSmallest 64]) with
  | Ok (ans, A') => exists tb', run_calls (exec example_cfg) ∅
        (two_wait ++ [Mark 64; CountStarving 64; TypeOfSmallest 64]) = Ok (ans, tb') /\
      (forall a, option_Forall2 entry_rel (tb' !! a) (A' !! a)) /\
      (forall a w, A' !! a = Some w -> wellformed w)
  | Err e => run_calls (exec example_cfg) ∅
        (two_wait ++ [Mark 64; CountStarving 64; TypeOfSmallest 64]) = Err e
  end.
Proof.
  apply persistent_table_refines. apply Forall_app. split; [exact two_wait_valid|].
  repeat constructor; vm_compute; reflexivity.
Defined.

Lemma marked_served_first_witness :
  exists served tb', moves example_cfg 64 the_marked late =
    Ok (in_order (bits the_entry.(m_starving)) ++ served, tb').
Proof.
  apply (marked_served_first example_cfg two_wait 64 [Unit; Unit] the_table the_entry the_marked late).
  - vm_compute. reflexivity.
  - exact two_wait_valid.
  - repeat constructor; vm_compute; (discriminate || reflexivity).
  - vm_compute. reflexivity.
  - vm_compute. reflexivity.
  - vm_compute. reflexivity.
  - vm_compute. repeat constructor.
Defined.

Example late_comers :
  (r ← moves example_cfg 64 the_marked late; Ok r.1) =
  Ok [mkMachine 0 1; mkMachine 0 3; mkMachine 0 0].
Proof. vm_compute. reflexivity. Qed.

End PersistentSpec.
