(* ===== verification/ShortestPath.v ===== *)
(** * All-pairs shortest paths
    ([extend_shortest_path], [shortest_path] and
    [link_is_shortest_path_to_node] of src/src/mem/ruby/network/Topology.cc).

    The matrices of the network's weights, latencies and numbers of
    intermediate switches are vectors of vectors of [int].  The loop runs until
    a round changes nothing; a round that does lowers some distance, so the
    sum of the distances is fuel enough. *)

From S2P Require Import Prelude.
From S2P Require Import NodeSet.

Module ShortestPath.

Abbreviation Matrix := (list (list Z)).

Definition mget (m : Matrix) (i j : Z) : result Z := row ← vget m i; vget row j.

Definition mset (m : Matrix) (i j v : Z) : result Matrix :=
  row ← vget m i; row' ← vset row j v; vset m i row'.

(** The variables of the two inner loops. *)
Record paths := mkPaths {
  current_dist : Matrix;
  latencies : Matrix;
  inter_switches : Matrix;
  change : bool
}.

Record search := mkSearch {
  minimum : Z;
  previous_minimum : Z;
  intermediate_switch : Z;
  inter : Matrix
}.

(** One round of the loop over [k]. *)
Definition try_switch (dist : Matrix) (i j k : Z) (s : search) : result search :=
  a ← mget dist i k;
  b ← mget dist k j;
  let minimum' := Z.min s.(minimum) (i32 (a + b)) in
  if negb (s.(previous_minimum) =? minimum') then
    x ← mget s.(inter) i k;
    y ← mget s.(inter) k j;
    inter' ← mset s.(inter) i j (i32 (x + y + 1));
    Ok (mkSearch minimum' minimum' k inter')
  else Ok (mkSearch minimum' minimum' s.(intermediate_switch) s.(inter)).

(** The body of the loops over [i] and [j]. *)
Definition improve (nodes i j : Z) (p : paths) : result paths :=
  d ← mget p.(current_dist) i j;
  s ← NodeSet.loop (try_switch p.(current_dist) i j) (upto nodes)
        (mkSearch d d (-1) p.(inter_switches));
  if negb (d =? s.(minimum)) then
    dist' ← mset p.(current_dist) i j s.(minimum);
    row ← vget p.(latencies) i;
    let via := s.(intermediate_switch) in
    if negb (0 <=? via) then Err (AssertFail "intermediate_switch >= 0")
    else if negb (via <? Z.of_nat (length row))
    then Err (AssertFail "intermediate_switch < latencies[i].size()")
    else
      x ← mget p.(latencies) i via;
      y ← mget p.(latencies) via j;
      lat' ← mset p.(latencies) i j (i32 (x + y));
      Ok (mkPaths dist' lat' s.(inter) true)
  else Ok (mkPaths p.(current_dist) p.(latencies) s.(inter) p.(change)).

Definition one_round (nodes : Z) (p : paths) : result paths :=
  NodeSet.loop (fun i p => NodeSet.loop (fun j p => improve nodes i j p) (upto nodes) p)
    (upto nodes) p.

Fixpoint rounds (fuel : nat) (nodes : Z) (p : paths) : result paths :=
  match fuel with
  | O => Err (Panic "fuel")
  | S fuel' =>
      p' ← one_round nodes (mkPaths p.(current_dist) p.(latencies) p.(inter_switches) false);
      if p'.(change) then rounds fuel' nodes p' else Ok p'
  end.

Definition total (m : Matrix) : Z := foldr Z.add 0 (foldr Z.add 0 <$> m).

Definition extend_shortest_path (p : paths) : result paths :=
  rounds (S (Z.to_nat (total p.(current_dist)))) (Z.of_nat (length p.(current_dist))) p.

Definition shortest_path (weights lat inter : Matrix) : result (Matrix * Matrix * Matrix) :=
  p ← extend_shortest_path (mkPaths weights lat inter true);
  Ok (p.(current_dist), p.(latencies), p.(inter_switches)).

Definition link_is_shortest_path_to_node (src next final : Z) (weights dist : Matrix)
  : result bool :=
  w ← mget weights src next;
  d ← mget dist next final;
  e ← mget dist src final;
  Ok (i32 (w + d) =? e).

End ShortestPath.
