(* ===== verification/ShortestPathSpec.v ===== *)
(** * The shortest paths are shortest

    For every matrix of non-negative weights with a zero diagonal the loop
    terminates; each distance it leaves is the weight of some walk, no walk is
    lighter, and the latency and the number of switches are those of one walk
    of that weight. *)

From S2P Require Import Prelude.
From S2P Require Import NodeSet.
From S2P Require Import NodeSetOps.
From S2P Require Import ShortestPath.
Import NodeSetSpec.
Import ShortestPath.

Module ShortestPathSpec.

(** ** Matrices *)
Definition at_ (m : Matrix) (i j : Z) : Z := match mget m i j with Ok x => x | Err _ => 0 end.

Definition square (n : Z) (m : Matrix) : Prop :=
  Z.of_nat (length m) = n /\ Forall (fun row => Z.of_nat (length row) = n) m.

Definition inside (n i : Z) : Prop := 0 <= i < n.

Lemma square_row n m i : square n m -> inside n i ->
  exists row, vget m i = Ok row /\ Z.of_nat (length row) = n /\ m !! Z.to_nat i = Some row.
Proof.
  intros [Hl Hr] Hi. destruct (vget_in_range m i) as [row Hrow]; [unfold inside in Hi; lia|].
  exists row. split; [done|]. apply vget_Ok in Hrow as [_ Hrow]. split; [|done].
  by apply (Forall_lookup_1 _ _ _ _ Hr Hrow).
Qed.

Lemma mget_run n m i j : square n m -> inside n i -> inside n j ->
  mget m i j = Ok (at_ m i j).
Proof.
  intros Hm Hi Hj. destruct (square_row n m i Hm Hi) as (row & Hrow & Hl & _).
  destruct (vget_in_range row j) as [x Hx]; [unfold inside in Hj; lia|].
  unfold at_, mget. by rewrite Hrow, bind_Ok_run, Hx.
Qed.

Lemma sum_insert (l : list Z) k x y : l !! k = Some x ->
  foldr Z.add 0 (<[k := y]> l) = foldr Z.add 0 l - x + y.
Proof.
  revert k. induction l as [|z l IH]; intros [|k] H; try done.
  - injection H as ->. cbn. lia.
  - change (<[S k := y]> (z :: l)) with (z :: <[k := y]> l). cbn [foldr].
    rewrite (IH k H). lia.
Qed.

Lemma mset_run n m i j v : square n m -> inside n i -> inside n j ->
  exists m', mset m i j v = Ok m' /\ square n m' /\ total m' = total m - at_ m i j + v /\
    forall x y, inside n x -> inside n y ->
      at_ m' x y = if decide (x = i /\ y = j) then v else at_ m x y.
Proof.
  intros Hm Hi Hj. destruct (square_row n m i Hm Hi) as (row & Hrow & Hl & Hlk).
  destruct (vget_in_range row j) as [old Hold]; [unfold inside in *; lia|].
  pose proof Hm as [Hlen Hrows]. unfold mset, inside in *.
  rewrite Hrow, bind_Ok_run, vset_in_range, bind_Ok_run, vset_in_range by lia.
  eexists. split; [done|]. split; [|split].
  - split; [by rewrite length_insert|]. apply Forall_insert; [done|]. by rewrite length_insert.
  - assert (at_ m i j = old) as -> by (unfold at_, mget; by rewrite Hrow, bind_Ok_run, Hold).
    apply vget_Ok in Hold as [_ Hold].
    unfold total. rewrite list_fmap_insert, (sum_insert _ _ (foldr Z.add 0 row)).
    + rewrite (sum_insert _ _ _ _ Hold). lia.
    + by rewrite list_lookup_fmap, Hlk.
  - intros x y Hx Hy. unfold at_, mget. destruct (decide (x = i)) as [->|Hne].
    + rewrite vget_insert_eq, Hrow, !bind_Ok_run by lia.
      destruct (decide (y = j)) as [->|Hne].
      * by rewrite decide_True, vget_insert_eq by (done || lia).
      * rewrite decide_False, vget_insert_ne by (lia || naive_solver). done.
    + rewrite decide_False, vget_insert_ne by (lia || naive_solver). done.
Qed.

Lemma total_nonneg n m : square n m ->
  (forall i j, inside n i -> inside n j -> 0 <= at_ m i j) -> 0 <= total m.
Proof.
  intros [Hlen Hrows] Hpos. unfold total.
  assert (Forall (fun r => 0 <= foldr Z.add 0 r) m) as Hsum.
  { apply Forall_lookup. intros k row Hk.
    assert (Forall (fun x => 0 <= x) row) as Hrow.
    { apply Forall_lookup. intros c x Hc.
      pose proof (Forall_lookup_1 _ _ _ _ Hrows Hk) as Hl. cbn in Hl.
      pose proof (lookup_lt_Some _ _ _ Hk). pose proof (lookup_lt_Some _ _ _ Hc).
      specialize (Hpos (Z.of_nat k) (Z.of_nat c) ltac:(unfold inside; lia) ltac:(unfold inside; lia)).
      unfold at_, mget in Hpos.
      rewrite (proj2 (vget_Ok m (Z.of_nat k) row)), bind_Ok_run in Hpos by (rewrite Nat2Z.id; split; [lia|done]).
      rewrite (proj2 (vget_Ok row (Z.of_nat c) x)) in Hpos by (rewrite Nat2Z.id; split; [lia|done]).
      done. }
    clear -Hrow. induction Hrow; cbn in *; lia. }
  clear -Hsum. induction Hsum; cbn in *; lia.
Qed.

(** ** Walks *)
Fixpoint ends (i : Z) (p : list Z) (j : Z) : Prop :=
  match p with [] => i = j | k :: p' => ends k p' j end.

Fixpoint cost (w : Z -> Z -> Z) (i : Z) (p : list Z) : Z :=
  match p with [] => 0 | k :: p' => w i k + cost w k p' end.

(** A walk of [n] nodes from [i] to [j] with at least one edge. *)
Definition walk (n i j : Z) (p : list Z) : Prop :=
  p <> [] /\ ends i p j /\ Forall (inside n) p.

Lemma ends_app i p k q j : ends i p k -> ends k q j -> ends i (p ++ q) j.
Proof. revert i. induction p as [|x p IH]; intros i Hp Hq; cbn in *; [by subst|by apply IH]. Qed.

Lemma cost_app w i p k q : ends i p k -> cost w i (p ++ q) = cost w i p + cost w k q.
Proof.
  revert i. induction p as [|x p IH]; intros i Hp; cbn in *; [by subst|].
  rewrite (IH x Hp). lia.
Qed.

Lemma walk_app n i k j p q : walk n i k p -> walk n k j q -> walk n i j (p ++ q).
Proof.
  intros (Hp & Ep & Fp) (Hq & Eq & Fq). split; [|split].
  - intros [? _]%app_eq_nil. done.
  - by eapply ends_app.
  - by apply Forall_app.
Qed.

Section paths.
Context (n : Z) (W L : Matrix).
Hypothesis (Hn : 0 <= n) (HW : square n W) (HL : square n L).
Hypothesis (Hw : forall i j, inside n i -> inside n j -> 0 <= at_ W i j < 2 ^ 30).
Hypothesis (Hd : forall i, inside n i -> at_ W i i = 0).
Hypothesis (Hl : forall i j, inside n i -> inside n j -> is_i32 (at_ L i j)).

(** Distance [d], latency [l] and number of switches [s] belong to one walk. *)
Definition witnessed (i j d l s : Z) : Prop :=
  exists p, walk n i j p /\ d = cost (at_ W) i p /\ l = i32 (cost (at_ L) i p) /\
    s = i32 (Z.of_nat (length p) - 1).

Lemma i32_add a b : i32 (i32 a + i32 b) = i32 (a + b).
Proof using Type. unfold i32. f_equal. rewrite <- (Zplus_mod_idemp_l (i32 a + i32 b)).
  assert ((i32 a + i32 b) mod 2 ^ 32 = (a + b) mod 2 ^ 32) as H; [|by rewrite H, Zplus_mod_idemp_l].
  unfold i32. rewrite <- (Zplus_mod_idemp_l ((a + 2 ^ 31) mod 2 ^ 32 - 2 ^ 31)),
    <- (Zplus_mod_idemp_r ((b + 2 ^ 31) mod 2 ^ 32 - 2 ^ 31)).
  rewrite !Zminus_mod_idemp_l. rewrite Zplus_mod_idemp_l, Zplus_mod_idemp_r. f_equal. lia.
Qed.

Lemma i32_add_l a b : i32 (i32 a + b) = i32 (a + b).
Proof using Type.
  rewrite <- (i32_add (i32 a) b), (i32_small (i32 a)) by apply i32_range. apply i32_add.
Qed.

Lemma witnessed_via i k j d1 l1 s1 d2 l2 s2 :
  witnessed i k d1 l1 s1 -> witnessed k j d2 l2 s2 ->
  witnessed i j (d1 + d2) (i32 (l1 + l2)) (i32 (s1 + s2 + 1)).
Proof using Type.
  intros (p & Wp & -> & -> & ->) (q & Wq & -> & -> & ->). exists (p ++ q).
  split; [by eapply walk_app|]. destruct Wp as (_ & Ep & _).
  rewrite !(cost_app _ i p k q Ep), length_app, i32_add. split; [done|]. split; [done|].
  rewrite <- Z.add_assoc, i32_add_l, (Z.add_comm (_ - 1)), <- Z.add_assoc, i32_add_l.
  clear. f_equal. lia.
Qed.

(** ** The invariant of the loops *)
Record Inv (p : paths) : Prop := {
  inv_dist : square n p.(current_dist);
  inv_lat : square n p.(latencies);
  inv_inter : square n p.(inter_switches);
  inv_bound : forall i j, inside n i -> inside n j ->
    0 <= at_ p.(current_dist) i j <= at_ W i j;
  inv_walk : forall i j, inside n i -> inside n j ->
    witnessed i j (at_ p.(current_dist) i j) (at_ p.(latencies) i j)
      (at_ p.(inter_switches) i j)
}.

Definition relaxed (m : Matrix) (i j : Z) : Prop :=
  forall k, inside n k -> at_ m i j <= at_ m i k + at_ m k j.

Lemma dist_self p i : Inv p -> inside n i -> at_ p.(current_dist) i i = 0.
Proof using Hd. intros HI Hi. pose proof (inv_bound p HI i i Hi Hi). rewrite Hd in *; [lia|done]. Qed.

(** After the switches below [k] have been tried. *)
Record searched (D S : Matrix) (i j k : Z) (s : search) : Prop := {
  se_prev : s.(previous_minimum) = s.(minimum);
  se_range : 0 <= s.(minimum) <= at_ D i j;
  se_least : forall k', 0 <= k' < k -> s.(minimum) <= at_ D i k' + at_ D k' j;
  se_inter : square n s.(inter);
  se_other : forall x y, inside n x -> inside n y -> ~ (x = i /\ y = j) ->
    at_ s.(inter) x y = at_ S x y;
  se_via :
    let via := s.(intermediate_switch) in
    (s.(minimum) = at_ D i j /\ at_ s.(inter) i j = at_ S i j) \/
    (s.(minimum) < at_ D i j /\ inside n via /\ via <> i /\ via <> j /\
     s.(minimum) = at_ D i via + at_ D via j /\
     at_ s.(inter) i j = i32 (at_ S i via + at_ S via j + 1))
}.

Lemma try_switch_searched p i j k s :
  Inv p -> inside n i -> inside n j -> inside n k ->
  searched p.(current_dist) p.(inter_switches) i j k s ->
  exists s', try_switch p.(current_dist) i j k s = Ok s' /\
    searched p.(current_dist) p.(inter_switches) i j (k + 1) s'.
Proof using Hw Hd.
  intros HI Hi Hj Hk Hs. pose proof (inv_dist p HI) as HD.
  unfold try_switch.
  rewrite (mget_run n (current_dist p) i k), bind_Ok_run, (mget_run n (current_dist p) k j), bind_Ok_run by done.
  pose proof (inv_bound p HI i k Hi Hk). pose proof (inv_bound p HI k j Hk Hj).
  pose proof (Hw i k Hi Hk). pose proof (Hw k j Hk Hj).
  rewrite i32_small by (unfold is_i32; lia).
  destruct Hs as [Hprev Hran Hleast Hsq Hoth Hvia]. rewrite Hprev.
  pose proof (dist_self p i HI Hi). pose proof (dist_self p j HI Hj).
  set (D := current_dist p) in *. set (S := inter_switches p) in *.
  destruct (Z.eqb_spec s.(minimum) (Z.min s.(minimum) (at_ D i k + at_ D k j))) as [Heq|Hne]; cbn [negb].
  - eexists. split; [done|]. rewrite <- Heq. split; cbn; try done.
    intros k' Hk'. destruct (Z.eq_dec k' k) as [->|]; [lia|]. apply Hleast. lia.
  - assert (at_ D i k + at_ D k j < s.(minimum)) as Hlt by lia.
    assert (k <> i) by (intros ->; lia). assert (k <> j) by (intros ->; lia).
    rewrite (mget_run n _ i k), bind_Ok_run, (mget_run n _ k j), bind_Ok_run by done.
    rewrite !Hoth by (done || naive_solver).
    destruct (mset_run n s.(inter) i j (i32 (at_ S i k + at_ S k j + 1)) Hsq Hi Hj)
      as (m' & -> & Hm' & _ & Hget).
    rewrite bind_Ok_run. eexists. split; [done|].
    rewrite Z.min_r by lia. split; cbn; try done; try lia.
    + intros k' Hk'. destruct (Z.eq_dec k' k) as [->|]; [lia|].
      pose proof (Hleast k' ltac:(lia)). lia.
    + intros x y Hx Hy Hxy. rewrite Hget, decide_False by done. by apply Hoth.
    + right. rewrite Hget, decide_True by done. repeat split; try lia; unfold inside in *; lia.
Qed.

Lemma search_run p i j : Inv p -> inside n i -> inside n j ->
  exists s, NodeSet.loop (try_switch p.(current_dist) i j) (upto n)
      (mkSearch (at_ p.(current_dist) i j) (at_ p.(current_dist) i j) (-1) p.(inter_switches)) = Ok s /\
    searched p.(current_dist) p.(inter_switches) i j n s.
Proof using Hn Hw Hd.
  intros HI Hi Hj. apply loop_upto; [done| |].
  - pose proof (inv_bound p HI i j Hi Hj). split; cbn; try done; try lia.
    apply HI.
  - intros k s Hk Hs. by apply try_switch_searched.
Qed.

(** The body either lowers one distance or finds it relaxed. *)
Lemma improve_inv p i j : Inv p -> inside n i -> inside n j ->
  exists p', improve n i j p = Ok p' /\ Inv p' /\
    ((p'.(change) = true /\ total p'.(current_dist) < total p.(current_dist)) \/
     (p'.(change) = p.(change) /\ p'.(current_dist) = p.(current_dist) /\
      relaxed p.(current_dist) i j)).
Proof using Hn Hw Hd.
  intros HI Hi Hj. destruct (search_run p i j HI Hi Hj) as (s & Hrun & Hs).
  destruct Hs as [_ Hran Hleast Hsq Hoth Hvia]. destruct HI as [HD HLm HS Hb Hwk] eqn:EHI. clear EHI.
  unfold improve. rewrite (mget_run n _ i j), bind_Ok_run, Hrun, bind_Ok_run by done.
  destruct Hvia as [[Hmin Hij]|(Hmin & Hvia & Hni & Hnj & Hsum & Hij)].
  - rewrite Hmin, Z.eqb_refl. cbn [negb]. eexists. split; [done|]. split; [|right].
    + split; cbn; try done. intros x y Hx Hy.
      destruct (decide (x = i /\ y = j)) as [[-> ->]|Hne]; [rewrite Hij|rewrite Hoth by done]; by apply Hwk.
    + cbn. repeat split; try done. intros k Hk. rewrite <- Hmin. by apply Hleast.
  - destruct (Z.eqb_spec (at_ (current_dist p) i j) s.(minimum)); [lia|cbn [negb]].
    destruct (mset_run n _ i j s.(minimum) HD Hi Hj) as (D' & -> & HD' & Htot & HgD).
    destruct (square_row n _ i HLm Hi) as (row & -> & Hlen & _). rewrite !bind_Ok_run. cbv zeta.
    destruct (Z.leb_spec 0 s.(intermediate_switch)); [cbn [negb]|unfold inside in *; lia].
    destruct (Z.ltb_spec s.(intermediate_switch) (Z.of_nat (length row)));
      [cbn [negb]|unfold inside in *; lia].
    rewrite (mget_run n _ i _), bind_Ok_run, (mget_run n _ _ j), bind_Ok_run by done.
    edestruct (mset_run n (latencies p) i j) as (L' & -> & HL' & _ & HgL); [done..|].
    rewrite bind_Ok_run. eexists. split; [done|]. split.
    2: { left. cbn [current_dist change]. split; [done|lia]. }
    split; cbn; try done.
    + intros x y Hx Hy. rewrite HgD by done. pose proof (Hb x y Hx Hy).
      destruct (decide _) as [[-> ->]|]; lia.
    + intros x y Hx Hy. rewrite HgD, HgL by done.
      destruct (decide (x = i /\ y = j)) as [[-> ->]|Hne].
      * rewrite Hij, Hsum. by eapply witnessed_via; apply Hwk.
      * rewrite Hoth by done. by apply Hwk.
Qed.

(** Progress of a round from [p0]: a round without a change relaxes all pairs. *)
Definition so_far (p0 : paths) (done : Z -> Z -> Prop) (p : paths) : Prop :=
  Inv p /\
  ((p.(change) = true /\ total p.(current_dist) < total p0.(current_dist)) \/
   (p.(change) = false /\ p.(current_dist) = p0.(current_dist) /\
    forall i j, inside n i -> inside n j -> done i j -> relaxed p.(current_dist) i j)).

Lemma improve_so_far p0 (done done' : Z -> Z -> Prop) p i j :
  inside n i -> inside n j -> so_far p0 done p ->
  (forall x y, inside n x -> inside n y -> done' x y -> done x y \/ (x = i /\ y = j)) ->
  exists p', improve n i j p = Ok p' /\ so_far p0 done' p'.
Proof using Hn Hw Hd.
  intros Hi Hj [HI Hp] Hdone. destruct (improve_inv p i j HI Hi Hj) as (p' & -> & HI' & Hp').
  exists p'. split; [reflexivity|]. split; [exact HI'|].
  destruct Hp' as [[Hc Ht]|(Hc & HD & Hr)].
  - left. split; [exact Hc|]. destruct Hp as [[_ ?]|(_ & Heq & _)]; [lia|]. rewrite <- Heq. lia.
  - rewrite Hc, HD. destruct Hp as [?|(? & ? & Hall)]; [by left|right].
    split; [assumption|]. split; [assumption|].
    intros x y Hx Hy Hxy. destruct (Hdone x y Hx Hy Hxy) as [?|[-> ->]]; [by apply Hall|exact Hr].
Qed.

Lemma one_round_inv p : Inv p -> p.(change) = false ->
  exists p', one_round n p = Ok p' /\ so_far p (fun _ _ => True) p'.
Proof using Hn Hw Hd.
  intros HI Hc. unfold one_round.
  destruct (loop_upto (fun i p => NodeSet.loop (fun j p => improve n i j p) (upto n) p) n
    (fun i => so_far p (fun x _ => x < i)) p Hn) as (p' & Hrun & HI' & Hp').
  - split; [done|]. right. repeat split; try done. intros i j Hi Hj. unfold inside in *. lia.
  - intros i q Hi Hq.
    destruct (loop_upto (fun j p => improve n i j p) n
      (fun j => so_far p (fun x y => x < i \/ (x = i /\ y < j))) q Hn) as (q' & Hrun & HI' & Hq').
    + destruct Hq as [HIq Hq]. split; [done|]. destruct Hq as [?|(? & ? & Hall)]; [by left|right].
      repeat split; try done. intros x y Hx Hy [Hlt|[-> Hlt]]; [by apply Hall|unfold inside in *; lia].
    + intros j r Hj Hr. eapply improve_so_far; [done..|]. intros x y _ _ Hxy. cbn in *. lia.
    + exists q'. split; [done|]. split; [done|]. destruct Hq' as [?|(? & ? & Hall)]; [by left|right].
      repeat split; try done. intros x y Hx Hy Hlt. apply Hall; try done. unfold inside in *. lia.
  - exists p'. split; [done|]. split; [done|]. destruct Hp' as [?|(? & ? & Hall)]; [by left|right].
    repeat split; try done. intros x y Hx Hy _. apply Hall; try done. unfold inside in *; lia.
Qed.

Lemma rounds_inv fuel p : Inv p -> (Z.to_nat (total p.(current_dist)) < fuel)%nat ->
  exists p', rounds fuel n p = Ok p' /\ Inv p' /\
    forall i j, inside n i -> inside n j -> relaxed p'.(current_dist) i j.
Proof using Hn Hw Hd.
  revert p. induction fuel as [|fuel IH]; intros p HI Hf; [lia|]. cbn [rounds].
  destruct (one_round_inv (mkPaths p.(current_dist) p.(latencies) p.(inter_switches) false))
    as (p' & -> & HI' & Hp'); [by destruct HI|done|]. rewrite bind_Ok_run.
  destruct Hp' as [[-> Ht]|(-> & _ & Hall)].
  - cbn [current_dist] in Ht. apply IH; [done|].
    pose proof (total_nonneg n _ (inv_dist p' HI') (fun i j Hi Hj => proj1 (inv_bound p' HI' i j Hi Hj))).
    lia.
  - exists p'. split; [done|]. split; [done|]. intros i j Hi Hj. by apply Hall.
Qed.

(** A relaxed matrix is below the cost of every walk. *)
Lemma relaxed_below D : (forall i j, inside n i -> inside n j -> 0 <= at_ D i j <= at_ W i j) ->
  (forall i j, inside n i -> inside n j -> relaxed D i j) ->
  forall p i j, inside n i -> ends i p j -> Forall (inside n) p -> at_ D i j <= cost (at_ W) i p.
Proof using Hd.
  intros Hb Hr p. induction p as [|k p IH]; intros i j Hi He Hp; cbn in *.
  - subst j. pose proof (Hb i i Hi Hi). rewrite (Hd i Hi) in *. lia.
  - apply Forall_cons in Hp as [Hk Hp]. pose proof (IH k j Hk He Hp).
    assert (inside n j) as Hj.
    { clear -He Hp Hk. revert k He Hk. induction Hp; intros; cbn in *; [by subst|naive_solver]. }
    pose proof (Hr i j Hi Hj k Hk). pose proof (Hb i k Hi Hk). lia.
Qed.

End paths.

(** What [shortest_path] promises of the three matrices. *)
Definition shortest (n : Z) (W L dist lat inter : Matrix) : Prop :=
  square n dist /\ square n lat /\ square n inter /\
  forall i j, inside n i -> inside n j ->
    (forall p, walk n i j p -> at_ dist i j <= cost (at_ W) i p) /\
    exists p, walk n i j p /\ at_ dist i j = cost (at_ W) i p /\
      at_ lat i j = i32 (cost (at_ L) i p) /\
      at_ inter i j = i32 (Z.of_nat (length p) - 1).

Definition weights_ok (n : Z) (W : Matrix) : Prop :=
  square n W /\
  (forall i j, inside n i -> inside n j -> 0 <= at_ W i j < 2 ^ 30) /\
  (forall i, inside n i -> at_ W i i = 0).

Lemma shortest_path_run n W L S :
  weights_ok n W ->
  square n L -> (forall i j, inside n i -> inside n j -> is_i32 (at_ L i j)) ->
  square n S -> (forall i j, inside n i -> inside n j -> at_ S i j = 0) ->
  exists dist lat inter, shortest_path W L S = Ok (dist, lat, inter) /\
    shortest n W L dist lat inter /\
    (forall i j, inside n i -> inside n j -> 0 <= at_ dist i j <= at_ W i j).
Proof.
  intros (HW & Hw & Hd) HL Hl HS Hs0. assert (0 <= n) as Hn by (destruct HW; lia).
  unfold shortest_path, extend_shortest_path. cbn [current_dist]. rewrite (proj1 HW).
  destruct (rounds_inv n W L Hn Hw Hd (Datatypes.S (Z.to_nat (total W))) (mkPaths W L S true))
    as (p & -> & HI & Hr).
  - split; cbn; try done. { intros i j Hi Hj. pose proof (Hw i j Hi Hj). lia. }
    intros i j Hi Hj. exists [j]. split; [by repeat split; [|constructor]|].
    cbn. rewrite !Z.add_0_r, i32_small, Hs0 by auto. done.
  - cbn [current_dist]. lia.
  - rewrite bind_Ok_run. do 3 eexists. split; [done|]. split; [|apply HI].
    split; [apply HI|]. split; [apply HI|]. split; [apply HI|]. intros i j Hi Hj.
    split; [|by apply HI]. intros q (_ & He & Hq).
    by apply (relaxed_below n W Hd _ (inv_bound n W L p HI) Hr).
Qed.

(** C38: for every square matrix of weights between 0 and 2^30 with a zero
    diagonal the loop of [extend_shortest_path] terminates without tripping an
    assertion or leaving the matrices; each distance it computes is the least
    weight over all walks between the two nodes, and the latency and the number
    of intermediate switches it stores are those of one walk of that weight. *)
Theorem shortest_path_correct n W L S :
  weights_ok n W ->
  square n L -> (forall i j, inside n i -> inside n j -> is_i32 (at_ L i j)) ->
  square n S -> (forall i j, inside n i -> inside n j -> at_ S i j = 0) ->
  exists dist lat inter, shortest_path W L S = Ok (dist, lat, inter) /\
    shortest n W L dist lat inter.
Proof.
  intros HW HL Hl HS Hs.
  destruct (shortest_path_run n W L S HW HL Hl HS Hs) as (d & l & s & -> & H & _). eauto.
Qed.

(** Three nodes: the way over the middle one is shorter. *)
Definition example_weights : Matrix := [[0; 1; 5]; [10000; 0; 1]; [10000; 10000; 0]].
Definition example_latencies : Matrix := [[-1; 2; 9]; [-1; -1; 3]; [-1; -1; -1]].
Definition example_zeros : Matrix := [[0; 0; 0]; [0; 0; 0]; [0; 0; 0]].

Lemma inside_3 i : inside 3 i -> i = 0 \/ i = 1 \/ i = 2.
Proof. unfold inside. lia. Qed.

Lemma shortest_path_correct_witness :
  exists dist lat inter, shortest_path example_weights example_latencies example_zeros = Ok (dist, lat, inter) /\
    shortest 3 example_weights example_latencies dist lat inter.
Proof.
  apply shortest_path_correct.
  - split; [by split; [|repeat constructor]|]. split.
    + intros i j [->|[->| ->]]%inside_3 [->|[->| ->]]%inside_3; by vm_compute.
    + intros i [->|[->| ->]]%inside_3; by vm_compute.
  - by split; [|repeat constructor].
  - intros i j [->|[->| ->]]%inside_3 [->|[->| ->]]%inside_3; unfold is_i32; by vm_compute.
  - by split; [|repeat constructor].
  - intros i j [->|[->| ->]]%inside_3 [->|[->| ->]]%inside_3; by vm_compute.
Defined.

Example shortest_path_over_the_middle :
  shortest_path example_weights example_latencies example_zeros =
  Ok ([[0; 1; 2]; [10000; 0; 1]; [10000; 10000; 0]],
      [[-1; 2; 5]; [-1; -1; 3]; [-1; -1; -1]],
      [[0; 0; 1]; [0; 0; 0]; [0; 0; 0]]).
Proof. vm_compute. reflexivity. Qed.

End ShortestPathSpec.
