(* ===== verification/Topology.v ===== *)
(** * The topology of the network
    (class [Topology], src/src/mem/ruby/network/Topology.hh and Topology.cc).

    The constructor turns the configured links into a map of directed links;
    [createLinks] computes shortest paths over it and tells the network which
    links to make and which destinations each of them serves.  Switches are
    numbered with the endpoints: the first [m_nodes] numbers are the inputs of
    the controllers, the next [m_nodes] their outputs, the routers follow.

    The calls of the network ([makeInLink], [makeOutLink], [makeInternalLink],
    virtual functions of the network models) are recorded as a list. *)

From S2P Require Import Prelude.
From S2P Require Import NodeSet.
From S2P Require Import NetDest.
From S2P Require Import ShortestPath.
Import ShortestPath.

Module Topology.

Definition INFINITE_LATENCY : Z := 10000.

(** [BasicLink]; [link_id] tells the objects apart. *)
Record BasicLink := mkLink {
  link_id : Z;
  m_latency : Z;       (* int *)
  m_bandwidth_factor : Z;
  m_weight : Z         (* int *)
}.

Inductive LinkDirection := LinkDirection_In | LinkDirection_Out.

Record LinkEntry := mkEntry { link : BasicLink; direction : LinkDirection }.

(** The parameters of external and internal links: the numbers of the
    controller and of the routers they join. *)
Record BasicExtLink := mkExt { ext_link : BasicLink; cntrl_id : Z; int_node : Z }.
Record BasicIntLink := mkInt { int_link : BasicLink; node_a : Z; node_b : Z }.

Record Params := mkParams {
  routers : Z;                       (* the size of the vector *)
  ext_links : list BasicExtLink;
  int_links : list BasicIntLink
}.

Record t := mk {
  m_nodes : Z;                       (* int *)
  m_number_of_switches : Z;          (* int *)
  m_controller_vector : list Z;
  m_ext_link_vector : list BasicExtLink;
  m_int_link_vector : list BasicIntLink;
  m_component_latencies : Matrix;
  m_component_inter_switches : Matrix;
  m_link_map : gmap (Z * Z) LinkEntry
}.
#[global] Instance t_eta : Settable t := fun s =>
  mk s.(m_nodes) s.(m_number_of_switches) s.(m_controller_vector) s.(m_ext_link_vector)
     s.(m_int_link_vector) s.(m_component_latencies) s.(m_component_inter_switches)
     s.(m_link_map).

Inductive net_call :=
| makeInLink (src dest : Z) (l : BasicLink) (dir : LinkDirection) (routes : NetDest.t) (re : bool)
| makeOutLink (src dest : Z) (l : BasicLink) (dir : LinkDirection) (routes : NetDest.t) (re : bool)
| makeInternalLink (src dest : Z) (l : BasicLink) (dir : LinkDirection) (routes : NetDest.t) (re : bool).

Definition require (b : bool) (site : string) : result unit :=
  if b then Ok tt else Err (AssertFail site).

(** ** The constructor *)
Definition addLink (s : t) (src dest : Z) (l : BasicLink) (dir : LinkDirection) : result t :=
  let bound := s.(m_number_of_switches) + s.(m_nodes) + s.(m_nodes) in
  require (src <=? bound) "src <= m_number_of_switches+m_nodes+m_nodes";;
  require (dest <=? bound) "dest <= m_number_of_switches+m_nodes+m_nodes";;
  Ok (s <| m_link_map ::= <[(src, dest) := mkEntry l dir]> |>).

Fixpoint add_ext_links (s : t) (ls : list BasicExtLink) : result t :=
  match ls with
  | [] => Ok s
  | e :: ls' =>
      let s := s <| m_controller_vector := s.(m_controller_vector) ++ [e.(cntrl_id)] |>
                 <| m_ext_link_vector := s.(m_ext_link_vector) ++ [e] |> in
      let ext_idx1 := e.(cntrl_id) in
      let ext_idx2 := ext_idx1 + s.(m_nodes) in
      let int_idx := e.(int_node) + 2 * s.(m_nodes) in
      s ← addLink s ext_idx1 int_idx e.(ext_link) LinkDirection_In;
      s ← addLink s int_idx ext_idx2 e.(ext_link) LinkDirection_Out;
      add_ext_links s ls'
  end.

Fixpoint add_int_links (s : t) (ls : list BasicIntLink) : result t :=
  match ls with
  | [] => Ok s
  | e :: ls' =>
      let s := s <| m_int_link_vector := s.(m_int_link_vector) ++ [e] |> in
      let a := e.(node_a) + 2 * s.(m_nodes) in
      let b := e.(node_b) + 2 * s.(m_nodes) in
      s ← addLink s a b e.(int_link) LinkDirection_In;
      s ← addLink s b a e.(int_link) LinkDirection_Out;
      add_int_links s ls'
  end.

Section topology.
Context `{MachineTypes}.

Definition make (p : Params) : result t :=
  nodes ← MachineType_base_number MachineType_NUM;
  require (1 <? nodes) "m_nodes > 1";;
  let ext := Z.of_nat (length p.(ext_links)) in
  if negb (nodes =? ext) && negb (nodes =? ext)
  then Err (Panic "m_nodes != ext_links vector length")
  else
    s ← add_ext_links (mk nodes p.(routers) [] [] [] [] [] ∅) p.(ext_links);
    add_int_links s p.(int_links).

(** ** Routing *)
Definition shortest_path_to_node (src next : Z) (weights dist : Matrix) : result NetDest.t :=
  nd ← NetDest.make;
  let machines := MachineType_NUM in
  max_machines ← MachineType_base_number MachineType_NUM;
  r ← NodeSet.loop (fun m (r : NetDest.t * Z) =>
        n ← MachineType_base_count m;
        NodeSet.loop (fun i (r : NetDest.t * Z) =>
            let d := r.2 in
            b ← link_is_shortest_path_to_node src next (d + max_machines) weights dist;
            nd' ← (if (b : bool) then NetDest.add r.1 (mkMachine m i) else Ok r.1);
            Ok (nd', d + 1))
          (upto n) r)
      (upto machines) (nd, 0);
  Ok r.1.

(** [m_link_map[src_dest]] makes a null link when there is none. *)
Definition link_at (s : t) (src dest : Z) : result LinkEntry :=
  match s.(m_link_map) !! (src, dest) with Some e => Ok e | None => Err (UB "null link") end.

Definition makeLink (s : t) (src dest : Z) (routing_table_entry : NetDest.t)
  (isReconfiguration : bool) : result net_call :=
  let nodes := s.(m_nodes) in
  require ((2 * nodes <=? src) || (2 * nodes <=? dest)) "src >= 2 * m_nodes || dest >= 2 * m_nodes";;
  if src <? nodes then
    e ← link_at s src dest;
    Ok (makeInLink src (dest - 2 * nodes) e.(link) e.(direction) routing_table_entry isReconfiguration)
  else if dest <? 2 * nodes then
    require (nodes <=? dest) "dest >= m_nodes";;
    e ← link_at s src dest;
    Ok (makeOutLink (src - 2 * nodes) (dest - nodes) e.(link) e.(direction) routing_table_entry
          isReconfiguration)
  else
    require ((2 * nodes <=? src) && (2 * nodes <=? dest)) "(src >= 2 * m_nodes) && (dest >= 2 * m_nodes)";;
    e ← link_at s src dest;
    Ok (makeInternalLink (src - 2 * nodes) (dest - 2 * nodes) e.(link) e.(direction)
          routing_table_entry isReconfiguration).

(** [std::map] is iterated in the order of its keys; each key is visited once
    and writes its own cell. *)
Definition links (s : t) : list ((Z * Z) * LinkEntry) := map_to_list s.(m_link_map).

Definition max_switch_id (s : t) : Z :=
  foldl (fun m (i : (Z * Z) * LinkEntry) => Z.max (Z.max m i.1.1) i.1.2) 0 (links s).

Fixpoint fill_weights (ls : list ((Z * Z) * LinkEntry)) (weights lat : Matrix)
  : result (Matrix * Matrix) :=
  match ls with
  | [] => Ok (weights, lat)
  | ((src, dst), e) :: ls' =>
      lat ← mset lat src dst e.(link).(m_latency);
      weights ← mset weights src dst e.(link).(m_weight);
      fill_weights ls' weights lat
  end.

Definition constant (n v : Z) : Matrix := replicate (Z.to_nat n) (replicate (Z.to_nat n) v).

(** The links to make, row by row. *)
Definition hookup (s : t) (weights dist : Matrix) (re : bool) : result (list net_call) :=
  NodeSet.loop (fun i calls =>
      row ← vget weights i;
      NodeSet.loop (fun j calls =>
          weight ← mget weights i j;
          if (0 <? weight) && negb (weight =? INFINITE_LATENCY) then
            destination_set ← shortest_path_to_node i j weights dist;
            c ← makeLink s i j destination_set re;
            Ok (calls ++ [c])
          else Ok calls)
        (upto (Z.of_nat (length row))) calls)
    (upto (Z.of_nat (length weights))) [].

Definition createLinks (s : t) (isReconfiguration : bool) : result (list net_call * t) :=
  let num_switches := max_switch_id s + 1 in
  let topology_weights := constant num_switches INFINITE_LATENCY in
  topology_weights ← NodeSet.loop (fun i w => mset w i i 0) (upto num_switches) topology_weights;
  r ← fill_weights (links s) topology_weights (constant num_switches (-1));
  let topology_weights := r.1 in
  p ← shortest_path topology_weights r.2 (constant num_switches 0);
  let dist := p.1.1 in
  let s := s <| m_component_latencies := p.1.2 |> <| m_component_inter_switches := p.2 |> in
  calls ← hookup s topology_weights dist isReconfiguration;
  Ok (calls, s).

End topology.
End Topology.
