(* ===== verification/TopologyRoutes.v ===== *)
(** * Topologies and routes

    The set-up of links and routing entries ([TopologySpec]) and the way of
    a message along them ([TopologyRoutes]). *)

From S2P Require Import Prelude.
From S2P Require Import NodeSet.
From S2P Require Import NodeSetOps.
From S2P Require Import NetDest.
From S2P Require Import NetDestSpec.
From S2P Require Import NetDestRefines.
From S2P Require Import ShortestPath.
From S2P Require Import ShortestPathSpec.
From S2P Require Import Topology.

(** * The routes of a topology

    For every configuration of links the constructor and [createLinks] run
    without failing; the weights are those of the links, and the routing entry
    of a link holds exactly the machines to which it begins a shortest path. *)
Module TopologySpec.
Import NodeSetSpec(sum, loop_upto).
Import NetDestSpec NetDestOps.
Import ShortestPath ShortestPathSpec Topology.
Section topology.
Context `{MachineTypeLaws}.

Definition nodes : Z := sum (controllers <$> upto MachineType_NUM).

(** ** Configurations *)
Definition link_ok (l : BasicLink) : Prop := 0 < l.(m_weight) < 2 ^ 30 /\ is_i32 l.(m_latency).

Record config_ok (p : Params) : Prop := {
  c_nodes : 1 < nodes;
  c_length : Z.of_nat (length p.(ext_links)) = nodes;
  c_size : 2 * nodes + p.(routers) < 2 ^ 31;
  c_ext : Forall (fun e => link_ok e.(ext_link) /\ 0 <= e.(cntrl_id) < nodes /\
                           0 <= e.(int_node) < p.(routers)) p.(ext_links);
  c_int : Forall (fun e => link_ok e.(int_link) /\ 0 <= e.(node_a) < p.(routers) /\
                           0 <= e.(node_b) < p.(routers) /\ e.(node_a) <> e.(node_b)) p.(int_links)
}.

Definition ext_edges (e : BasicExtLink) : list ((Z * Z) * LinkEntry) :=
  [((e.(cntrl_id), e.(int_node) + 2 * nodes), mkEntry e.(ext_link) LinkDirection_In);
   ((e.(int_node) + 2 * nodes, e.(cntrl_id) + nodes), mkEntry e.(ext_link) LinkDirection_Out)].

Definition int_edges (e : BasicIntLink) : list ((Z * Z) * LinkEntry) :=
  [((e.(node_a) + 2 * nodes, e.(node_b) + 2 * nodes), mkEntry e.(int_link) LinkDirection_In);
   ((e.(node_b) + 2 * nodes, e.(node_a) + 2 * nodes), mkEntry e.(int_link) LinkDirection_Out)].

Definition edges (p : Params) : list ((Z * Z) * LinkEntry) :=
  (p.(ext_links) ≫= ext_edges) ++ (p.(int_links) ≫= int_edges).

(** Later links replace earlier ones between the same switches. *)
Definition insert_all (m : gmap (Z * Z) LinkEntry) (l : list ((Z * Z) * LinkEntry)) :=
  foldl (fun m x => <[x.1 := x.2]> m) m l.

Definition is_router (R u : Z) : Prop := 2 * nodes <= u < 2 * nodes + R.

(** Controllers only send into routers and only receive from them. *)
Definition edge_ok (R : Z) (k : Z * Z) (e : LinkEntry) : Prop :=
  link_ok e.(link) /\
  ((0 <= k.1 < nodes /\ is_router R k.2) \/
   (is_router R k.1 /\ nodes <= k.2 < 2 * nodes) \/
   (is_router R k.1 /\ is_router R k.2 /\ k.1 <> k.2)).

Lemma edges_ok p : config_ok p -> Forall (fun x => edge_ok p.(routers) x.1 x.2) (edges p).
Proof.
  intros C. apply Forall_app. split; apply Forall_bind.
  - eapply Forall_impl; [apply (c_ext p C)|]. intros e (Hl & Hc & Hr).
    unfold edge_ok, is_router. repeat constructor; cbn; try apply Hl; lia.
  - eapply Forall_impl; [apply (c_int p C)|]. intros e (Hl & Ha & Hb & Hne).
    unfold edge_ok, is_router. repeat constructor; cbn; try apply Hl; lia.
Qed.

(** ** The constructor *)
Lemma addLink_run R s src dest l d : s.(m_nodes) = nodes -> s.(m_number_of_switches) = R ->
  edge_ok R (src, dest) (mkEntry l d) -> 1 < nodes -> 0 <= R ->
  addLink s src dest l d = Ok (s <| m_link_map ::= <[(src, dest) := mkEntry l d]> |>).
Proof.
  intros En ER [_ He] Hn HR. unfold addLink, require, is_router in *. rewrite En, ER. cbn in He.
  destruct (Z.leb_spec src (R + nodes + nodes)), (Z.leb_spec dest (R + nodes + nodes)); (done || lia).
Qed.

Lemma add_ext_run R ls s : 1 < nodes -> 0 <= R -> s.(m_nodes) = nodes -> s.(m_number_of_switches) = R ->
  Forall (fun x => edge_ok R x.1 x.2) (ls ≫= ext_edges) ->
  exists s', add_ext_links s ls = Ok s' /\ s'.(m_nodes) = nodes /\ s'.(m_number_of_switches) = R /\
    s'.(m_link_map) = insert_all s.(m_link_map) (ls ≫= ext_edges).
Proof.
  intros Hn HR. revert s. induction ls as [|e ls IH]; intros s En ER Hall; [by exists s|].
  rewrite bind_cons in Hall. apply Forall_app in Hall as [He Hls].
  apply Forall_cons in He as [H1 He]. apply Forall_cons in He as [H2 _].
  cbn [add_ext_links]. cbv zeta.
  rewrite (addLink_run R), bind_Ok_run, (addLink_run R), bind_Ok_run by (cbn; rewrite ?En; done).
  destruct (IH (s <| m_controller_vector := s.(m_controller_vector) ++ [e.(cntrl_id)] |>
    <| m_ext_link_vector := s.(m_ext_link_vector) ++ [e] |>
    <| m_link_map ::= <[(e.(cntrl_id), e.(int_node) + 2 * s.(m_nodes)) := mkEntry e.(ext_link) LinkDirection_In]> |>
    <| m_link_map ::= <[(e.(int_node) + 2 * s.(m_nodes), e.(cntrl_id) + s.(m_nodes)) :=
        mkEntry e.(ext_link) LinkDirection_Out]> |>)) as (s' & Hrun & En' & ER' & Hm); [done..|].
  exists s'. split; [exact Hrun|]. split; [done|]. split; [done|].
  rewrite Hm. unfold insert_all. rewrite bind_cons, foldl_app. cbn. by rewrite En.
Qed.

Lemma add_int_run R ls s : 1 < nodes -> 0 <= R -> s.(m_nodes) = nodes -> s.(m_number_of_switches) = R ->
  Forall (fun x => edge_ok R x.1 x.2) (ls ≫= int_edges) ->
  exists s', add_int_links s ls = Ok s' /\ s'.(m_nodes) = nodes /\ s'.(m_number_of_switches) = R /\
    s'.(m_link_map) = insert_all s.(m_link_map) (ls ≫= int_edges).
Proof.
  intros Hn HR. revert s. induction ls as [|e ls IH]; intros s En ER Hall; [by exists s|].
  rewrite bind_cons in Hall. apply Forall_app in Hall as [He Hls].
  apply Forall_cons in He as [H1 He]. apply Forall_cons in He as [H2 _].
  cbn [add_int_links]. cbv zeta.
  rewrite (addLink_run R), bind_Ok_run, (addLink_run R), bind_Ok_run by (cbn; rewrite ?En; done).
  destruct (IH (s <| m_int_link_vector := s.(m_int_link_vector) ++ [e] |>
    <| m_link_map ::= <[(e.(node_a) + 2 * s.(m_nodes), e.(node_b) + 2 * s.(m_nodes)) :=
        mkEntry e.(int_link) LinkDirection_In]> |>
    <| m_link_map ::= <[(e.(node_b) + 2 * s.(m_nodes), e.(node_a) + 2 * s.(m_nodes)) :=
        mkEntry e.(int_link) LinkDirection_Out]> |>)) as (s' & Hrun & En' & ER' & Hm); [done..|].
  exists s'. split; [exact Hrun|]. split; [done|]. split; [done|].
  rewrite Hm. unfold insert_all. rewrite bind_cons, foldl_app. cbn. by rewrite En.
Qed.

(** What [createLinks] needs of the object. *)
Record top_ok (R : Z) (s : t) : Prop := {
  t_nodes : s.(m_nodes) = nodes;
  t_pos : 1 < nodes;
  t_size : 2 * nodes + R < 2 ^ 31;
  t_edges : map_Forall (edge_ok R) s.(m_link_map);
  t_some : s.(m_link_map) <> ∅
}.

Lemma insert_all_Forall (P : Z * Z -> LinkEntry -> Prop) l m : map_Forall P m ->
  Forall (fun x => P x.1 x.2) l -> map_Forall P (insert_all m l).
Proof.
  revert m. induction l as [|[k e] l IH]; intros m Hm Hl; [done|].
  apply Forall_cons in Hl as [Hk Hl]. cbn. apply IH; [|done]. by apply map_Forall_insert_2.
Qed.

Lemma insert_all_ne x l m : insert_all m (x :: l) <> ∅.
Proof.
  revert x m. induction l as [|y l IH]; intros x m; [apply insert_non_empty|]. apply (IH y).
Qed.

Lemma make_run p : config_ok p ->
  exists s, make p = Ok s /\ top_ok p.(routers) s /\ s.(m_link_map) = insert_all ∅ (edges p).
Proof.
  intros C. pose proof (edges_ok p C) as He. apply Forall_app in He as [H1 H2].
  pose proof (c_nodes p C) as Hn. pose proof (c_length p C) as Hl.
  assert (0 < p.(routers)) as HR.
  { pose proof (c_ext p C) as Hx. destruct (ext_links p) as [|x l]; [cbn in Hl; lia|].
    apply Forall_cons in Hx as [Hx _]. lia. }
  unfold make. rewrite base_number_ok by (pose proof NUM_nonneg; lia). fold nodes. rewrite bind_Ok_run.
  unfold require. rewrite (proj2 (Z.ltb_lt _ _)), bind_Ok_run, Hl, Z.eqb_refl by done. cbn [negb andb].
  destruct (add_ext_run p.(routers) p.(ext_links) (mk nodes p.(routers) [] [] [] [] [] ∅))
    as (s1 & -> & En1 & ER1 & Hm1); [done || lia..|]. rewrite bind_Ok_run.
  destruct (add_int_run p.(routers) p.(int_links) s1) as (s2 & -> & En2 & ER2 & Hm2); [done || lia..|].
  exists s2. split; [done|]. assert (s2.(m_link_map) = insert_all ∅ (edges p)) as Hm.
  { rewrite Hm2, Hm1. unfold insert_all, edges. by rewrite foldl_app. }
  split; [|done]. split; [done|done|apply C| |].
  - rewrite Hm. apply insert_all_Forall; [apply map_Forall_empty|]. by apply edges_ok.
  - rewrite Hm. unfold edges. destruct (ext_links p) as [|x l]; [cbn in Hl; lia|].
    rewrite bind_cons. apply insert_all_ne.
Qed.

(** ** The matrices *)
Lemma max_switch_bound s k e : s.(m_link_map) !! k = Some e ->
  k.1 <= max_switch_id s /\ k.2 <= max_switch_id s.
Proof using Type.
  intros Hk. unfold max_switch_id, links. apply elem_of_map_to_list in Hk. revert Hk.
  assert (forall l m, m <= foldl (fun m (i : (Z * Z) * LinkEntry) => Z.max (Z.max m i.1.1) i.1.2) m l) as Hmono.
  { induction l as [|x l IH]; intros m; cbn; [lia|]. etrans; [|apply IH]. lia. }
  generalize 0 as m. induction (map_to_list (m_link_map s)) as [|x l IH]; intros m Hk;
    [by apply not_elem_of_nil in Hk|].
  apply elem_of_cons in Hk as [<-|Hk]; cbn; [|by apply IH].
  pose proof (Hmono l (Z.max (Z.max m k.1) k.2)). lia.
Qed.

Definition size_of (s : t) : Z := max_switch_id s + 1.

Lemma edge_inside R s k e : top_ok R s -> s.(m_link_map) !! k = Some e ->
  inside (size_of s) k.1 /\ inside (size_of s) k.2 /\ k.1 <> k.2.
Proof using Type.
  intros T Hk. pose proof (max_switch_bound s k e Hk). pose proof (t_edges R s T k e Hk) as [_ He].
  pose proof (t_pos R s T). unfold inside, size_of, is_router in *. lia.
Qed.

Lemma size_bound R s : top_ok R s -> 2 * nodes < size_of s.
Proof using Type.
  intros T. destruct (map_choose _ (t_some R s T)) as (k & e & Hk).
  pose proof (max_switch_bound s k e Hk). pose proof (t_edges R s T k e Hk) as [_ He].
  unfold size_of, is_router in *. lia.
Qed.

Lemma constant_square n v : 0 <= n -> square n (constant n v).
Proof using Type.
  intros Hn. split; unfold constant; rewrite ?length_replicate; [lia|].
  apply Forall_replicate. rewrite length_replicate. lia.
Qed.

Lemma constant_at n v i j : inside n i -> inside n j -> at_ (constant n v) i j = v.
Proof using Type.
  unfold inside. intros Hi Hj. unfold at_, mget, constant.
  rewrite (proj2 (vget_Ok _ i (replicate (Z.to_nat n) v))), bind_Ok_run
    by (split; [lia|]; apply lookup_replicate; split; [done|lia]).
  by rewrite (proj2 (vget_Ok _ j v)) by (split; [lia|]; apply lookup_replicate; split; [done|lia]).
Qed.

Lemma diagonal_run n m : square n m ->
  exists m', NodeSet.loop (fun i w => mset w i i 0) (upto n) m = Ok m' /\ square n m' /\
    forall x y, inside n x -> inside n y -> at_ m' x y = if decide (x = y) then 0 else at_ m x y.
Proof using Type.
  intros Hm. destruct (loop_upto (fun i w => mset w i i 0) n (fun k w => square n w /\
    forall x y, inside n x -> inside n y ->
      at_ w x y = if decide (x = y /\ x < k) then 0 else at_ m x y) m) as (m' & Hrun & Hsq & Hat).
  - destruct Hm. lia.
  - split; [done|]. intros x y Hx _. rewrite decide_False; [done|]. unfold inside in Hx. lia.
  - intros k w Hk [Hw Hat]. destruct (mset_run n w k k 0 Hw Hk Hk) as (w' & -> & Hw' & _ & Hg).
    exists w'. split; [done|]. split; [done|]. intros x y Hx Hy. rewrite Hg, Hat by done.
    repeat case_decide; (done || lia || naive_solver lia).
  - exists m'. split; [done|]. split; [done|]. intros x y Hx Hy. rewrite Hat by done. unfold inside in *.
    repeat case_decide; (done || lia).
Qed.

(** What [fill_weights] writes: the fields of the links. *)
Definition filled (g : BasicLink -> Z) (ls : list ((Z * Z) * LinkEntry)) (m : Matrix) (x y : Z) : Z :=
  match (list_to_map ls : gmap (Z * Z) LinkEntry) !! (x, y) with
  | Some e => g e.(link)
  | None => at_ m x y
  end.

Lemma filled_cons g n src dst e ls m m' x y : (src, dst) ∉ ls.*1 ->
  inside n x -> inside n y ->
  (forall x y, inside n x -> inside n y ->
    at_ m' x y = if decide (x = src /\ y = dst) then g e.(link) else at_ m x y) ->
  filled g ls m' x y = filled g (((src, dst), e) :: ls) m x y.
Proof using Type.
  intros Hnew Hx Hy Hm'. unfold filled. cbn [list_to_map foldr uncurry].
  change (list_to_map (((src, dst), e) :: ls)) with (<[(src, dst) := e]> (list_to_map ls : gmap (Z * Z) LinkEntry)).
  destruct (decide ((x, y) = (src, dst))) as [[= -> ->]|Hne].
  - rewrite lookup_insert_eq. rewrite (not_elem_of_list_to_map_1 _ _ Hnew), Hm', decide_True by done. done.
  - rewrite lookup_insert_ne by done. destruct (list_to_map ls !! (x, y)); [done|].
    rewrite Hm', decide_False by (done || naive_solver). done.
Qed.

Lemma fill_weights_run n ls : NoDup ls.*1 ->
  Forall (fun x => inside n x.1.1 /\ inside n x.1.2) ls -> forall W L, square n W -> square n L ->
  exists W' L', fill_weights ls W L = Ok (W', L') /\ square n W' /\ square n L' /\
    forall x y, inside n x -> inside n y ->
      at_ W' x y = filled m_weight ls W x y /\ at_ L' x y = filled m_latency ls L x y.
Proof using Type.
  induction ls as [|[[src dst] e] ls IH]; intros Hnd Hall W L HW HL; [by exists W, L|].
  rewrite fmap_cons in Hnd. apply NoDup_cons in Hnd as [Hnew Hnd].
  apply Forall_cons in Hall as [[Hs Hd] Hall]. cbn in Hs, Hd, Hnew. cbn [fill_weights].
  destruct (mset_run n L src dst e.(link).(m_latency) HL Hs Hd) as (L1 & -> & HL1 & _ & HgL).
  destruct (mset_run n W src dst e.(link).(m_weight) HW Hs Hd) as (W1 & -> & HW1 & _ & HgW).
  rewrite !bind_Ok_run. destruct (IH Hnd Hall W1 L1 HW1 HL1) as (W' & L' & -> & HW' & HL' & Hat).
  exists W', L'. split; [done|]. split; [done|]. split; [done|]. intros x y Hx Hy.
  destruct (Hat x y Hx Hy) as [-> ->].
  split; by apply (filled_cons _ n).
Qed.

(** The weight of a direct step: missing links are [INFINITE_LATENCY]. *)
Definition link_weight (s : t) (u v : Z) : Z :=
  match s.(m_link_map) !! (u, v) with Some e => e.(link).(m_weight) | None => INFINITE_LATENCY end.

Definition step_weight (s : t) (u v : Z) : Z := if decide (u = v) then 0 else link_weight s u v.

Definition link_latency (s : t) (u v : Z) : Z :=
  match s.(m_link_map) !! (u, v) with Some e => e.(link).(m_latency) | None => -1 end.

Lemma step_weight_range R s u v : top_ok R s -> 0 <= step_weight s u v < 2 ^ 30.
Proof using Type.
  intros T. unfold step_weight, link_weight. case_decide; [lia|].
  destruct (m_link_map s !! (u, v)) as [e|] eqn:E; [|unfold INFINITE_LATENCY; lia].
  pose proof (t_edges R s T _ e E) as [[? _] _]. lia.
Qed.

(** ** The first half of [createLinks] *)
Lemma weights_run R s : top_ok R s ->
  exists W0 W L, let n := size_of s in
    NodeSet.loop (fun i w => mset w i i 0) (upto n) (constant n INFINITE_LATENCY) = Ok W0 /\
    fill_weights (links s) W0 (constant n (-1)) = Ok (W, L) /\
    weights_ok n W /\ square n L /\
    (forall x y, inside n x -> inside n y ->
      at_ W x y = step_weight s x y /\ at_ L x y = link_latency s x y).
Proof using Type.
  intros T. pose proof (size_bound R s T) as Hn. pose proof (t_pos R s T). set (n := size_of s) in *.
  destruct (diagonal_run n (constant n INFINITE_LATENCY)) as (W0 & Hrun & HW0 & Hd);
    [apply constant_square; lia|].
  destruct (fill_weights_run n (links s)) with (W := W0) (L := constant n (-1))
    as (W & L & Hfill & HW & HL & Hat); [apply NoDup_fst_map_to_list| |done|apply constant_square; lia|].
  { apply Forall_forall. intros [k e] Hk%elem_of_map_to_list. cbn.
    by destruct (edge_inside R s k e T Hk) as (? & ? & _). }
  assert (forall x y, inside n x -> inside n y ->
      at_ W x y = step_weight s x y /\ at_ L x y = link_latency s x y) as Hval.
  { intros x y Hx Hy. destruct (Hat x y Hx Hy) as [-> ->]. unfold filled, links, step_weight, link_weight, link_latency.
    rewrite list_to_map_to_list, Hd, !constant_at by done.
    destruct (m_link_map s !! (x, y)) as [e|] eqn:E; [|done].
    destruct (edge_inside R s _ e T E) as (_ & _ & Hne). cbn in Hne. by rewrite decide_False. }
  exists W0, W, L. split; [done|]. split; [done|]. split; [|done].
  split; [done|]. split.
  - intros i j Hi Hj. destruct (Hval i j Hi Hj) as [-> _]. by apply (step_weight_range R).
  - intros i Hi. destruct (Hval i i Hi Hi) as [-> _]. unfold step_weight. by rewrite decide_True.
Qed.

(** ** The routing entry of a link *)

(** The switch at which a machine takes its messages from the network. *)
Definition dest (e : MachineID) : Z := node_number e + nodes.

Lemma sum_upto_S m : 0 <= m ->
  sum (controllers <$> upto (m + 1)) = sum (controllers <$> upto m) + controllers m.
Proof using Type.
  intros Hm. rewrite upto_app, NodeSetSpec.sum_app by lia. f_equal.
  change (upto 1) with [0]. unfold sum. cbn -[Z.add]. by rewrite !Z.add_0_r.
Qed.

Lemma dest_range e : machine e -> nodes <= dest e < 2 * nodes.
Proof using Type. intros He. pose proof (node_number_range e He). unfold dest, nodes in *. lia. Qed.

Section routing.
Context (n src next : Z) (W D : Matrix).
Hypothesis (HW : square n W) (HD : square n D) (Hn : 2 * nodes <= n).
Hypothesis (Hsrc : inside n src) (Hnext : inside n next).
Hypothesis (HWr : forall i j, inside n i -> inside n j -> 0 <= at_ W i j < 2 ^ 30).
Hypothesis (HDr : forall i j, inside n i -> inside n j -> 0 <= at_ D i j <= at_ W i j).

(** The link begins a shortest path to [e]. *)
Definition good (e : MachineID) : Prop :=
  at_ W src next + at_ D next (dest e) = at_ D src (dest e).

Lemma link_is_shortest_run e : machine e ->
  link_is_shortest_path_to_node src next (dest e) W D =
  Ok (bool_decide (good e)).
Proof using All.
  intros He. pose proof (dest_range e He). assert (0 < nodes) by (unfold dest in *; pose proof (node_number_range e He); unfold nodes; lia).
  assert (inside n (dest e)) as Hd by (unfold inside; lia).
  unfold link_is_shortest_path_to_node, good.
  rewrite !(mget_run n), !bind_Ok_run by done.
  pose proof (HWr src next Hsrc Hnext). pose proof (HWr next _ Hnext Hd). pose proof (HDr next _ Hnext Hd).
  rewrite i32_small by (unfold is_i32; lia). f_equal. apply NodeSetOps.flag_iff. apply Z.eqb_eq.
Qed.

Lemma route_step m i (r : NetDest.t * Z) (P P' : MachineID -> Prop) :
  machine (mkMachine m i) -> r.2 = sum (controllers <$> upto m) + i -> ok r.1 ->
  (forall e, e ∈ bits r.1 <-> machine e /\ P e /\ good e) ->
  (forall e, P' e <-> P e \/ e = mkMachine m i) ->
  exists r', (b ← link_is_shortest_path_to_node src next (r.2 + nodes) W D;
     nd' ← (if (b : bool) then NetDest.add r.1 (mkMachine m i) else Ok r.1);
     Ok (nd', r.2 + 1)) = Ok r' /\
    r'.2 = sum (controllers <$> upto m) + (i + 1) /\ ok r'.1 /\
    forall e, e ∈ bits r'.1 <-> machine e /\ P' e /\ good e.
Proof using All.
  intros He Hr W1 HP HP'. replace (r.2 + nodes) with (dest (mkMachine m i)) by (unfold dest, node_number; cbn; lia).
  rewrite link_is_shortest_run, bind_Ok_run by done. case_bool_decide as Hg.
  - destruct (add_ok r.1 (mkMachine m i) W1 He) as (nd' & -> & W2 & HX). rewrite bind_Ok_run.
    eexists. split; [done|]. cbn. split; [lia|]. split; [done|]. intros e.
    rewrite HX, elem_of_union, elem_of_singleton, HP, HP'. naive_solver.
  - rewrite bind_Ok_run. eexists. split; [done|]. cbn. split; [lia|]. split; [done|]. intros e.
    rewrite HP, HP'. naive_solver.
Qed.

Lemma shortest_path_to_node_run : exists nd, shortest_path_to_node src next W D = Ok nd /\ ok nd /\
  forall e, e ∈ bits nd <-> machine e /\ good e.
Proof using All.
  unfold shortest_path_to_node. destruct make_ok as (nd0 & -> & W0 & HX0). rewrite bind_Ok_run.
  rewrite base_number_ok, bind_Ok_run by (pose proof NUM_nonneg; lia). fold nodes. cbv zeta.
  match goal with |- context [NodeSet.loop ?b _ _] => set (body := b) end.
  destruct (loop_upto body MachineType_NUM (fun k r => r.2 = sum (controllers <$> upto k) /\ ok r.1 /\
    forall e, e ∈ bits r.1 <-> machine e /\ e.(mtype) < k /\ good e) (nd0, 0)) as (r & -> & _ & Wr & Hr).
  - apply NUM_nonneg.
  - split; [done|]. split; [done|]. intros e. cbn. rewrite HX0. unfold machine. set_solver by lia.
  - intros m r Hm (Hr & W1 & HP). unfold body. rewrite base_count_ok, bind_Ok_run by done.
    match goal with |- context [NodeSet.loop ?b _ _] => set (inner := b) end.
    destruct (loop_upto inner (controllers m) (fun i r => r.2 = sum (controllers <$> upto m) + i /\ ok r.1 /\
      forall e, e ∈ bits r.1 <-> machine e /\
        (e.(mtype) < m \/ (e.(mtype) = m /\ e.(num) < i)) /\ good e) r) as (r' & -> & Hr' & W' & HP').
    + by apply controllers_range.
    + split; [lia|]. split; [done|]. intros e. rewrite HP. unfold machine. intuition lia.
    + intros i q Hi (Hq & Wq & HPq). unfold inner. apply (route_step m i q _ _ (conj Hm Hi) Hq Wq HPq).
      intros e. rewrite machine_eq. cbn. lia.
    + exists r'. split; [done|]. rewrite sum_upto_S by lia. split; [done|]. split; [done|].
      intros e. rewrite HP'. unfold machine.
      destruct (decide (e.(mtype) = m)) as [->|]; intuition lia.
  - rewrite bind_Ok_run. exists r.1. split; [done|]. split; [done|]. intros e. rewrite Hr.
    unfold machine. intuition lia.
Qed.

End routing.

(** ** The links that are made *)

(** The switches a call joins, and the machines its routing entry holds. *)
Definition call_ends (c : net_call) : Z * Z :=
  match c with
  | makeInLink src dst _ _ _ _ => (src, dst + 2 * nodes)
  | makeOutLink src dst _ _ _ _ => (src + 2 * nodes, dst + nodes)
  | makeInternalLink src dst _ _ _ _ => (src + 2 * nodes, dst + 2 * nodes)
  end.

Definition call_routes (c : net_call) : NetDest.t :=
  match c with
  | makeInLink _ _ _ _ nd _ | makeOutLink _ _ _ _ nd _ | makeInternalLink _ _ _ _ nd _ => nd
  end.

Definition call_entry (c : net_call) : LinkEntry :=
  match c with
  | makeInLink _ _ l d _ _ | makeOutLink _ _ l d _ _ | makeInternalLink _ _ l d _ _ => mkEntry l d
  end.

Lemma makeLink_run R s u v e nd re : top_ok R s -> s.(m_link_map) !! (u, v) = Some e ->
  exists c, makeLink s u v nd re = Ok c /\ call_ends c = (u, v) /\ call_routes c = nd /\ call_entry c = e.
Proof using Type.
  intros T He. pose proof (t_edges R s T _ e He) as [_ Hk]. cbn in Hk. pose proof (t_pos R s T).
  unfold makeLink, require, link_at, is_router in *. rewrite (t_nodes R s T), He.
  destruct (Z.leb_spec (2 * nodes) u), (Z.leb_spec (2 * nodes) v), (Z.ltb_spec u nodes),
    (Z.ltb_spec v (2 * nodes)), (Z.leb_spec nodes v); try lia; cbn;
    (eexists; split; [done|]; cbn; split; [f_equal; lia|]; split; [done|]; by destruct e).
Qed.

End topology.
End TopologySpec.

(** * Messages reach their destinations

    [createLinks] makes every configured link once it has a weight other than
    [INFINITE_LATENCY].  A message that follows, from switch to switch, any link
    whose routing entry holds its destination gets there, along a path of least
    weight: no choice of links can send it astray or round in circles. *)
Module TopologyRoutes.
Import NodeSetSpec(sum, loop_upto).
Import NetDestSpec NetDestOps.
Import ShortestPath ShortestPathSpec Topology TopologySpec.
Section routes.
Context `{MachineTypeLaws}.

(** A configured link that [createLinks] makes. *)
Definition usable (s : t) (u v : Z) (e : LinkEntry) : Prop :=
  s.(m_link_map) !! (u, v) = Some e /\ e.(link).(m_weight) <> INFINITE_LATENCY.

(** A call for the link from [u] to [v], with its routing entry. *)
Record made (s : t) (W D : Matrix) (u v : Z) (c : net_call) : Prop := {
  m_link : usable s u v (call_entry c);
  m_ends : call_ends c = (u, v);
  m_ok : ok (call_routes c);
  m_routes e : e ∈ bits (call_routes c) <-> machine e /\ good u v W D e
}.

Section hookup.
Context (R : Z) (s : t) (W D : Matrix) (re : bool).
Abbreviation n := (size_of s).
Hypothesis (T : top_ok R s) (HW : weights_ok n W) (HD : square n D).
Hypothesis (HWs : forall x y, inside n x -> inside n y -> at_ W x y = step_weight s x y).
Hypothesis (HDr : forall i j, inside n i -> inside n j -> 0 <= at_ D i j <= at_ W i j).

Lemma weight_usable u v : inside n u -> inside n v ->
  (0 <? at_ W u v) && negb (at_ W u v =? INFINITE_LATENCY) = true <-> exists e, usable s u v e.
Proof using T HWs.
  intros Hu Hv. rewrite HWs, andb_true_iff, negb_true_iff, Z.ltb_lt, Z.eqb_neq by done.
  unfold step_weight, link_weight, usable. case_decide as E.
  - split; [lia|]. intros (e & He & _). by destruct (edge_inside R s _ e T He) as (_ & _ & ?).
  - destruct (m_link_map s !! (u, v)) as [e|] eqn:He.
    + split; [intros [_ ?]; eauto|]. intros (e' & [= <-] & ?). split; [|done].
      pose proof (t_edges R s T _ e He) as [[? _] _]. lia.
    + split; [unfold INFINITE_LATENCY; lia|]. by intros (e & ? & _).
Qed.

Lemma hookup_cell u v calls : inside n u -> inside n v ->
  exists new, (weight ← mget W u v;
     if (0 <? weight) && negb (weight =? INFINITE_LATENCY) then
       destination_set ← shortest_path_to_node u v W D;
       c ← makeLink s u v destination_set re; Ok (calls ++ [c])
     else Ok calls) = Ok (calls ++ new) /\
    (forall c, c ∈ new -> made s W D u v c) /\
    (forall e, usable s u v e -> exists c, c ∈ new).
Proof using All.
  intros Hu Hv. destruct HW as (HWsq & HWr & _).
  rewrite (mget_run n W u v), bind_Ok_run by done.
  pose proof (weight_usable u v Hu Hv) as Hus.
  destruct ((0 <? at_ W u v) && negb (at_ W u v =? INFINITE_LATENCY)).
  - destruct (proj1 Hus eq_refl) as [e He].
    destruct (shortest_path_to_node_run n u v W D) as (nd & -> & Wnd & Hnd); try done.
    { pose proof (size_bound R s T). lia. }
    rewrite bind_Ok_run. destruct (makeLink_run R s u v e nd re T (proj1 He)) as (c & -> & Hends & Hro & Hen).
    rewrite bind_Ok_run. exists [c]. split; [done|]. split.
    + intros c' ->%list_elem_of_singleton. split; [by rewrite Hen|done|by rewrite Hro|by rewrite Hro].
    + intros _ _. exists c. by left.
  - exists []. rewrite app_nil_r. split; [done|]. split; [intros c Hc; by apply not_elem_of_nil in Hc|].
    intros e He. destruct Hus as [_ Hus]. specialize (Hus (ex_intro _ e He)). done.
Qed.

(** The calls for the links seen so far. *)
Definition calls_for (seen : Z -> Z -> Prop) (calls : list net_call) : Prop :=
  (forall c, c ∈ calls -> exists u v, made s W D u v c) /\
  (forall u v e, inside n u -> inside n v -> seen u v -> usable s u v e ->
    exists c, c ∈ calls /\ made s W D u v c).

Lemma calls_for_add (seen seen' : Z -> Z -> Prop) u v calls new : calls_for seen calls ->
  (forall c, c ∈ new -> made s W D u v c) -> (forall e, usable s u v e -> exists c, c ∈ new) ->
  (forall x y, inside n x -> inside n y -> seen' x y -> seen x y \/ (x = u /\ y = v)) ->
  calls_for seen' (calls ++ new).
Proof using Type.
  intros [H1 H2] Hnew Hex Hseen. split.
  - intros c [Hc|Hc]%elem_of_app; [by apply H1|]. eauto.
  - intros x y e Hx Hy Hxy He. destruct (Hseen x y Hx Hy Hxy) as [Hs|[-> ->]].
    + destruct (H2 x y e Hx Hy Hs He) as (c & ? & ?). exists c. split; [|done]. apply elem_of_app. by left.
    + destruct (Hex e He) as [c Hc]. exists c. split; [|by apply Hnew]. apply elem_of_app. by right.
Qed.

Lemma hookup_run : exists calls, hookup s W D re = Ok calls /\ calls_for (fun _ _ => True) calls.
Proof using All.
  destruct HW as (HWsq & _ & _). assert (0 <= n) as Hn by (destruct HWsq; lia).
  unfold hookup. rewrite (proj1 HWsq).
  match goal with |- context [NodeSet.loop ?b _ _] => set (body := b) end.
  destruct (loop_upto body n (fun u => calls_for (fun x _ => x < u)) []) as (calls & -> & Hc);
    [done| | |].
  - split; [intros c Hc; by apply not_elem_of_nil in Hc|]. intros u v e [? _] _ ?. lia.
  - intros u calls Hu Hc. unfold body.
    destruct (square_row n W u HWsq Hu) as (row & -> & Hlen & _). rewrite bind_Ok_run, Hlen.
    match goal with |- context [NodeSet.loop ?b _ _] => set (inner := b) end.
    destruct (loop_upto inner n (fun v => calls_for (fun x y => x < u \/ (x = u /\ y < v))) calls)
      as (calls' & -> & Hc'); [done| | |].
    + destruct Hc as [H1 H2]. split; [done|]. intros x y e Hx Hy Hxy. apply H2; [done..|].
      unfold inside in *. lia.
    + intros v cs Hv Hcs. unfold inner. destruct (hookup_cell u v cs Hu Hv) as (new & -> & Hnew & Hex).
      eexists. split; [done|]. eapply calls_for_add; [done..|]. intros x y Hx Hy Hxy. cbn in *. lia.
    + exists calls'. split; [done|]. destruct Hc' as [H1 H2]. split; [done|].
      intros x y e Hx Hy Hxy. apply H2; [done..|]. unfold inside in *. lia.
  - exists calls. split; [done|]. destruct Hc as [H1 H2]. split; [done|].
    intros x y e Hx Hy _. apply H2; [done..|]. unfold inside in *. lia.
Qed.

End hookup.

Lemma calls_for_links s s' W D seen calls : s'.(m_link_map) = s.(m_link_map) ->
  calls_for s W D seen calls -> calls_for s' W D seen calls.
Proof.
  intros E [H1 H2]. assert (size_of s' = size_of s) as En by (unfold size_of, max_switch_id, links; by rewrite E).
  assert (forall u v c, made s W D u v c -> made s' W D u v c) as Hm.
  { intros u v c [Hu ? ? ?]. split; try done. unfold usable in *. by rewrite E. }
  split; [intros c (u & v & Hc)%H1; eauto|]. rewrite En. intros u v e Hu Hv Hs [He Hw].
  rewrite E in He. destruct (H2 u v e Hu Hv Hs (conj He Hw)) as (c & ? & ?). eauto.
Qed.

(** ** [createLinks] *)
Lemma createLinks_run R s re : top_ok R s ->
  exists W L D lat inter calls,
    createLinks s re = Ok (calls, s <| m_component_latencies := lat |>
                                    <| m_component_inter_switches := inter |>) /\
    weights_ok (size_of s) W /\
    (forall x y, inside (size_of s) x -> inside (size_of s) y ->
      at_ W x y = step_weight s x y /\ at_ L x y = link_latency s x y) /\
    shortest (size_of s) W L D lat inter /\
    (forall i j, inside (size_of s) i -> inside (size_of s) j -> 0 <= at_ D i j <= at_ W i j) /\
    calls_for s W D (fun _ _ => True) calls.
Proof.
  intros T. destruct (weights_run R s T) as (W0 & W & L & Hdiag & Hfill & HW & HL & Hval). cbv zeta in *.
  pose proof (size_bound R s T). pose proof (t_pos R s T).
  destruct (shortest_path_run (size_of s) W L (constant (size_of s) 0))
    as (D & lat & inter & Hsp & Hsh & HDr); try done.
  - intros i j Hi Hj. destruct (Hval i j Hi Hj) as [_ ->]. unfold link_latency.
    destruct (m_link_map s !! (i, j)) as [e|] eqn:E; [|unfold is_i32; lia].
    by pose proof (t_edges R s T _ e E) as [[_ ?] _].
  - apply constant_square. lia.
  - intros i j Hi Hj. by apply constant_at.
  - set (s' := s <| m_component_latencies := lat |> <| m_component_inter_switches := inter |>).
    assert (top_ok R s') as T' by (destruct T; by split).
    destruct (hookup_run R s' W D re T' HW) as (calls & Hrun & Hcalls); [apply Hsh| |done|].
    { intros x y Hx Hy. by apply (Hval x y). }
    exists W, L, D, lat, inter, calls. split.
    2: { repeat (split; [done|]). by apply (calls_for_links s'). }
    unfold createLinks. cbv zeta. change (max_switch_id s + 1) with (size_of s).
    rewrite Hdiag, bind_Ok_run, Hfill, bind_Ok_run. cbn [fst snd]. rewrite Hsp, bind_Ok_run. cbn [fst snd].
    fold s'. by rewrite Hrun.
Qed.

(** ** Routes *)

(** A message for [x] at switch [u] may take the link to [v]. *)
Definition carries (calls : list net_call) (u : Z) (x : MachineID) (v : Z) : Prop :=
  exists c, c ∈ calls /\ call_ends c = (u, v) /\ x ∈ bits (call_routes c).

Fixpoint route (calls : list net_call) (x : MachineID) (u : Z) (vs : list Z) : Prop :=
  match vs with [] => True | v :: vs' => carries calls u x v /\ route calls x v vs' end.

(** A path of configured links. *)
Fixpoint linked (s : t) (u : Z) (ws : list Z) : Prop :=
  match ws with [] => True | v :: ws' => is_Some (s.(m_link_map) !! (u, v)) /\ linked s v ws' end.

Section delivery.
Context (R : Z) (s : t) (W L D lat inter : Matrix) (calls : list net_call) (x : MachineID).
Abbreviation n := (size_of s).
Hypothesis (T : top_ok R s) (HW : weights_ok n W) (Hx : machine x).
Hypothesis (HWs : forall u v, inside n u -> inside n v -> at_ W u v = step_weight s u v).
Hypothesis (Hsh : shortest n W L D lat inter).
Hypothesis (HDr : forall i j, inside n i -> inside n j -> 0 <= at_ D i j <= at_ W i j).
Hypothesis (Hcalls : calls_for s W D (fun _ _ => True) calls).

Abbreviation d := (dest x).
Abbreviation left u := (at_ D u d).

Lemma dest_inside : inside n d.
Proof using T Hx. pose proof (dest_range x Hx). pose proof (size_bound R s T).
  pose proof (t_pos R s T). unfold inside. lia. Qed.

Lemma left_self : left d = 0.
Proof using T Hx HW HDr.
  pose proof dest_inside as Hd. pose proof (HDr _ _ Hd Hd) as Hr.
  destruct HW as (_ & _ & H0'). rewrite (H0' _ Hd) in Hr. lia.
Qed.

Lemma link_step u v e : s.(m_link_map) !! (u, v) = Some e ->
  inside n u /\ inside n v /\ at_ W u v = link_weight s u v /\ 0 < link_weight s u v.
Proof using T HWs.
  intros He. destruct (edge_inside R s _ e T He) as (Hu & Hv & Hne). cbn in *.
  split; [done|]. split; [done|]. rewrite HWs by done. unfold step_weight, link_weight.
  rewrite He, decide_False by done. split; [done|].
  pose proof (t_edges R s T _ e He) as [[? _] _]. lia.
Qed.

Lemma carries_step u v : carries calls u x v ->
  inside n u /\ inside n v /\ 0 < link_weight s u v /\ left u = link_weight s u v + left v.
Proof using T HWs Hcalls.
  intros (c & Hc & Hends & Hin). destruct (proj1 Hcalls c Hc) as (u' & v' & [[He _] Hends' _ Hr]).
  rewrite Hends in Hends'. injection Hends' as <- <-. apply Hr in Hin as [_ Hg].
  destruct (link_step u v _ He) as (Hu & Hv & HwW & Hpos). unfold good in Hg.
  rewrite HwW in Hg. split; [done|]. split; [done|]. lia.
Qed.

Lemma left_le u ws : inside n u -> ends u ws d -> Forall (inside n) ws ->
  left u <= cost (at_ W) u ws.
Proof using T Hx HW HDr Hsh.
  intros Hu He Hws. destruct ws as [|w ws].
  - cbn in He. subst u. rewrite left_self. done.
  - destruct Hsh as (_ & _ & _ & Hs). destruct (Hs u d Hu dest_inside) as [Hle _].
    apply Hle. by split.
Qed.

Lemma linked_cost u ws : linked s u ws ->
  cost (at_ W) u ws = cost (link_weight s) u ws /\ Forall (inside n) ws.
Proof using T HWs.
  revert u. induction ws as [|w ws IH]; intros u Hl; [by split|]. destruct Hl as [[e He] Hl].
  destruct (link_step u w e He) as (_ & Hw & HwW & _). destruct (IH w Hl) as [Hc Hall]. cbn.
  split; [congruence|by constructor].
Qed.

Lemma route_left u vs v : inside n u -> route calls x u vs -> ends u vs v ->
  left u = cost (link_weight s) u vs + left v /\ inside n v /\
  Z.of_nat (length vs) <= cost (link_weight s) u vs.
Proof using T HWs Hcalls.
  revert u. induction vs as [|w vs IH]; intros u Hu Hr He; cbn in *; [by subst|].
  destruct Hr as [Hc Hr]. destruct (carries_step u w Hc) as (_ & Hw & Hpos & Hl).
  destruct (IH w Hw Hr He) as (? & ? & ?). split; [lia|]. split; [done|]. lia.
Qed.

(** A walk of least weight begins with a link that carries the message. *)
Lemma walk_carries p u : inside n u -> u <> d -> ends u p d -> Forall (inside n) p ->
  cost (at_ W) u p = left u -> left u < INFINITE_LATENCY -> exists v, carries calls u x v.
Proof using All.
  intros Hu Hne. induction p as [|k p IH]; intros He Hp Hc Hlt; cbn in *; [done|].
  apply Forall_cons in Hp as [Hk Hp]. destruct (decide (k = u)) as [->|Hku].
  - apply IH; try done. destruct HW as (_ & _ & H0'). rewrite (H0' u Hu) in Hc. lia.
  - pose proof (left_le k p Hk He Hp) as Hlk. pose proof (HDr k d Hk dest_inside) as Hk0.
    assert (left u <= at_ W u k + left k) as Htri.
    { destruct Hsh as (_ & _ & _ & Hs). destruct (Hs k d Hk dest_inside) as [_ (q & (Hq & Eq & Fq) & Hcq & _)].
      destruct (Hs u d Hu dest_inside) as [Hle _]. rewrite Hcq. apply (Hle (k :: q)). split; [done|].
      split; [done|]. by constructor. }
    assert (at_ W u k < INFINITE_LATENCY) as Hwlt by lia.
    rewrite HWs in Hwlt by done. unfold step_weight, link_weight in Hwlt. rewrite decide_False in Hwlt by done.
    destruct (m_link_map s !! (u, k)) as [e|] eqn:E; [|lia].
    destruct (proj2 Hcalls u k e Hu Hk I) as (c & Hin & [_ Hends _ Hr]); [split; [done|lia]|].
    exists k, c. split; [done|]. split; [done|]. apply Hr. split; [done|]. unfold good. lia.
Qed.

Lemma carries_on v : inside n v -> left v < INFINITE_LATENCY ->
  (v = d /\ forall v', ~ carries calls v x v') \/ (v <> d /\ exists v', carries calls v x v').
Proof using All.
  intros Hv Hlt. destruct (decide (v = d)) as [->|Hne].
  - left. split; [done|]. intros v' Hc. destruct (carries_step d v' Hc) as (_ & Hv' & Hpos & Hl).
    rewrite left_self in Hl. pose proof (HDr v' d Hv' dest_inside). lia.
  - right. split; [done|]. destruct Hsh as (_ & _ & _ & Hs).
    destruct (Hs v d Hv dest_inside) as [_ (p & (_ & Ep & Fp) & Hc & _)]. by apply (walk_carries p v).
Qed.

Lemma delivery u ws vs v : linked s u ws -> ends u ws d ->
  cost (link_weight s) u ws < INFINITE_LATENCY -> route calls x u vs -> ends u vs v ->
  Z.of_nat (length vs) <= cost (link_weight s) u vs <= cost (link_weight s) u ws /\
  ((v = d /\ forall v', ~ carries calls v x v') \/ (v <> d /\ exists v', carries calls v x v')).
Proof using All.
  intros Hl He Hlt Hr Hv.
  assert (inside n u) as Hu.
  { destruct ws as [|w ws]; cbn in *; [subst; apply dest_inside|]. destruct Hl as [[e Hk] _].
    by destruct (link_step u w e Hk). }
  destruct (linked_cost u ws Hl) as [Hc Hall]. pose proof (left_le u ws Hu He Hall) as Hle.
  destruct (route_left u vs v Hu Hr Hv) as (Hleft & Hvi & Hlen).
  pose proof (HDr v d Hvi dest_inside). split; [lia|]. apply carries_on; [done|lia].
Qed.

End delivery.

(** C37: for every configuration of two or more controllers, each with its link
    to a router, of routers and of links between different routers, all of
    positive weight below 2^30, the constructor and [createLinks] run without failing, and the links
    they make deliver: when configured links of total weight below
    [INFINITE_LATENCY] lead from a switch to a machine, a message that follows
    any links whose routing entries hold the machine never gets stuck before it
    arrives, takes no more steps than the weight of any such path, and arrives
    by a path of least weight. *)
Theorem routes_deliver p re : config_ok p ->
  exists s calls s', make p = Ok s /\ createLinks s re = Ok (calls, s') /\
    forall x u ws, machine x -> linked s u ws -> ends u ws (dest x) ->
      cost (link_weight s) u ws < INFINITE_LATENCY ->
    forall vs v, route calls x u vs -> ends u vs v ->
      Z.of_nat (length vs) <= cost (link_weight s) u vs <= cost (link_weight s) u ws /\
      ((v = dest x /\ forall v', ~ carries calls v x v') \/
       (v <> dest x /\ exists v', carries calls v x v')).
Proof.
  intros C. destruct (make_run p C) as (s & Hmk & T & _).
  destruct (createLinks_run p.(routers) s re T) as (W & L & D & lat & inter & calls & Hrun & HW & Hval & Hsh & HDr & Hcalls).
  exists s, calls. eexists. split; [done|]. split; [exact Hrun|]. intros x u ws Hx Hl He Hlt vs v Hr Hv.
  eapply (delivery p.(routers) s W L D lat inter calls x T HW Hx); try done.
  intros a b Ha Hb. by apply Hval.
Qed.

(** The constructor turns every configured link into its two directed links,
    the later of two between the same switches replacing the earlier, and
    [createLinks] makes, for exactly the links whose weight is not
    [INFINITE_LATENCY], one that joins the same switches with the same
    object and direction; it stores for each pair of switches the latency and
    the number of switches of one path of least weight. *)
Theorem createLinks_complete p re : config_ok p ->
  exists s calls s' W L D, make p = Ok s /\ createLinks s re = Ok (calls, s') /\
    s.(m_link_map) = insert_all ∅ (edges p) /\
    (forall u v e, usable s u v e ->
      exists c, c ∈ calls /\ call_ends c = (u, v) /\ call_entry c = e) /\
    (forall c, c ∈ calls -> usable s (call_ends c).1 (call_ends c).2 (call_entry c)) /\
    (forall u v, inside (size_of s) u -> inside (size_of s) v ->
      at_ W u v = step_weight s u v /\ at_ L u v = link_latency s u v) /\
    shortest (size_of s) W L D s'.(m_component_latencies) s'.(m_component_inter_switches).
Proof.
  intros C. destruct (make_run p C) as (s & Hmk & T & Hm).
  destruct (createLinks_run p.(routers) s re T) as (W & L & D & lat & inter & calls & Hrun & HW & Hval & Hsh & HDr & H1 & H2).
  exists s, calls. eexists. exists W, L, D. split; [done|]. split; [exact Hrun|]. split; [done|]. split; [|split; [|done]].
  - intros u v e He. destruct (edge_inside p.(routers) s _ e T (proj1 He)) as (Hu & Hv & _).
    destruct (H2 u v e Hu Hv I He) as (c & Hc & [[He' _] Hends _ _]). exists c. split; [done|]. split; [done|].
    destruct He as [He _]. congruence.
  - intros c Hc. destruct (H1 c Hc) as (u & v & [Hu Hends _ _]). by rewrite Hends.
Qed.

End routes.

(** ** Three controllers on a line of three routers *)
Definition two_types : MachineTypes := NetDestRefines.numbering [2; 1].

Definition two_types_laws : @MachineTypeLaws two_types :=
  NetDestRefines.numbering_laws [2; 1] ltac:(repeat constructor; lia) ltac:(by vm_compute).

#[local] Existing Instance two_types.
#[local] Existing Instance two_types_laws.

Definition line_of (w : Z) : Params :=
  mkParams 3
    [mkExt (mkLink 0 1 1 1) 0 0; mkExt (mkLink 1 1 1 1) 1 1; mkExt (mkLink 2 1 1 1) 2 2]
    [mkInt (mkLink 3 3 1 1) 0 1; mkInt (mkLink 4 3 1 w) 1 2].

Lemma line_ok : config_ok (line_of 1).
Proof.
  assert (nodes = 3) as En by (vm_compute; reflexivity).
  split; rewrite ?En; cbn [line_of ext_links int_links routers length]; [lia|lia|lia|..];
    repeat constructor; cbn; lia.
Qed.

(** From the first controller to the third, over the three routers. *)
Lemma routes_deliver_witness :
  exists s calls s', make (line_of 1) = Ok s /\ createLinks s false = Ok (calls, s') /\
    forall vs v, route calls (mkMachine 1 0) 0 vs -> ends 0 vs v ->
      Z.of_nat (length vs) <= cost (link_weight s) 0 vs <= 4 /\
      ((v = 5 /\ forall v', ~ carries calls v (mkMachine 1 0) v') \/
       (v <> 5 /\ exists v', carries calls v (mkMachine 1 0) v')).
Proof.
  destruct (routes_deliver (line_of 1) false line_ok) as (s & calls & s' & Hmk & Hrun & Hall).
  exists s, calls, s'. split; [exact Hmk|]. split; [exact Hrun|].
  assert (s.(m_link_map) = insert_all ∅ (edges (line_of 1))) as Hm.
  { assert (make (line_of 1) = Ok s) as Hmk' by exact Hmk. vm_compute in Hmk'. injection Hmk' as <-.
    vm_compute. reflexivity. }
  assert (cost (link_weight s) 0 [6; 7; 8; 5] = 4) as Hc.
  { unfold cost, link_weight. rewrite Hm. vm_compute. reflexivity. }
  rewrite <- Hc. apply (Hall (mkMachine 1 0) 0 [6; 7; 8; 5]).
  - repeat split; vm_compute; (discriminate || reflexivity).
  - unfold linked. rewrite Hm. repeat split; vm_compute; eauto.
  - vm_compute. reflexivity.
  - rewrite Hc. vm_compute. reflexivity.
Defined.

Lemma createLinks_complete_witness :
  exists s calls s' W L D, make (line_of 1) = Ok s /\ createLinks s false = Ok (calls, s') /\
    s.(m_link_map) = insert_all ∅ (edges (line_of 1)) /\
    (forall u v e, usable s u v e ->
      exists c, c ∈ calls /\ call_ends c = (u, v) /\ call_entry c = e) /\
    (forall c, c ∈ calls -> usable s (call_ends c).1 (call_ends c).2 (call_entry c)) /\
    (forall u v, inside (size_of s) u -> inside (size_of s) v ->
      at_ W u v = step_weight s u v /\ at_ L u v = link_latency s u v) /\
    shortest (size_of s) W L D s'.(m_component_latencies) s'.(m_component_inter_switches).
Proof. apply (createLinks_complete (line_of 1) false line_ok). Defined.

(** The ends of the links made, and the machines each of them serves. *)
Definition summary (p : Params) : result (list ((Z * Z) * list Z)) :=
  s ← make p; r ← createLinks s false;
  NodeSet.loop (fun i l =>
      c ← vget r.1 i; nodes ← NetDest.getAllDest (call_routes c); Ok (l ++ [(call_ends c, nodes)]))
    (upto (Z.of_nat (length r.1))) [].

Example line_links : summary (line_of 1) =
  Ok [((0, 6), [0; 1; 2]); ((1, 7), [0; 1; 2]); ((2, 8), [0; 1; 2]); ((6, 3), [0]); ((6, 7), [1; 2]);
      ((7, 4), [1]); ((7, 6), [0]); ((7, 8), [2]); ((8, 5), [2]); ((8, 7), [0; 1])].
Proof. vm_compute. reflexivity. Qed.

(** A link of weight 10000 is configured but not made: the two routers it joins
    stay apart, though the controllers of both are asked to reach each other. *)
Example heavy_link_missing : summary (line_of 10000) =
  Ok [((0, 6), [0; 1]); ((1, 7), [0; 1]); ((2, 8), [2]); ((6, 3), [0]); ((6, 7), [1]);
      ((7, 4), [1]); ((7, 6), [0]); ((8, 5), [2])].
Proof. vm_compute. reflexivity. Qed.

(** The bound of [addLink] lets the first number past the routers through. *)
Example addLink_past_routers :
  (s ← make (line_of 1); s' ← addLink s 9 6 (mkLink 7 1 1 1) LinkDirection_In;
   Ok (size_of s - 1, size_of s' - 1, s.(m_number_of_switches) + 2 * s.(m_nodes))) = Ok (8, 9, 9).
Proof. vm_compute. reflexivity. Qed.

End TopologyRoutes.
