(* ===== verification/ReplayQueue.v ===== *)
(** * The replay engine on the simulator's event queue

    Handlers only add events ([ReplayGrows]), and the engine coupled with
    the queue ([ReplayQueue]). *)

From S2P Require Import Prelude.
From S2P Require Import StaticDeque.
From S2P Require Import STEvent.
From S2P Require Import CString.
From S2P Require Import Requests.
From S2P Require Import TraceParser.
From S2P Require Import TriggerTime.
From S2P Require Import SubEvents.
From S2P Require Import ReplayState.
From S2P Require Import Replay.
From S2P Require Import ReplayFrame.
From S2P Require Import IntMath.
From S2P Require Import TraceLines.
From S2P Require Import ReplayInv.
From S2P Require Import ReplaySafe.
From S2P Require Import ReplaySteps.
From S2P Require Import ReplayHandlers.
From S2P Require Import ReplaySystem.
From S2P Require Import EventQueue.
From S2P Require Import EventQueueOps.
From S2P Require Import EventQueueLoop.

(** * Handlers only add events

    [growing m]: a run of [m] leaves the clock alone and keeps every event that
    is scheduled where it is; the events it schedules were not scheduled.  Every
    handler of the engine is growing, so the calls of [schedule] that a handler
    makes are exactly the differences between the states before and after it. *)
Module ReplayGrows.
Import STEvent CString Requests TraceParser TriggerTime SubEvents ReplayState Replay ReplayFrame.

Definition sched (s : state) : Z * option Z * list (option Z) :=
  (s.(curTick), s.(startEvent), s.(coreEvents)).

Record grows (s s' : state) : Prop := {
  g_tick : s'.(curTick) = s.(curTick);
  g_start w : s.(startEvent) = Some w -> s'.(startEvent) = Some w;
  g_length : length s'.(coreEvents) = length s.(coreEvents);
  g_core p w : vget s.(coreEvents) p = Ok (Some w) -> vget s'.(coreEvents) p = Ok (Some w)
}.

#[export] Instance grows_preorder : PreOrder grows.
Proof.
  split; [by split|]. intros s1 s2 s3 [] []. split; [congruence|auto|congruence|auto].
Qed.

Definition growing {A} (m : M state A) : Prop := forall s a s', m s = Ok (a, s') -> grows s s'.

Create HintDb growing.
#[local] Hint Resolve keeps_any_started keeps_swap_and_catch : keeps.

Lemma growing_keeps {A} (m : M state A) : keeps sched m -> growing m.
Proof.
  intros Hm s a s' H. specialize (Hm s a s' H). unfold sched in Hm. injection Hm as Ht Hs Hc.
  split; congruence.
Qed.

Lemma growing_bind {A C} (m : M state A) (k : A -> M state C) :
  growing m -> (forall a, growing (k a)) -> growing (m ≫= k).
Proof. intros Hm Hk s c s' H. inv_run. etrans; [by eapply Hm|by eapply Hk]. Qed.

Lemma growing_when b (m : M state unit) : growing m -> growing (when b m).
Proof. intros H. destruct b; [done|]. apply growing_keeps, keeps_ret. Qed.

Lemma growing_for_each {A} (l : list A) (body : A -> M state unit) :
  (forall a, growing (body a)) -> growing (for_each l body).
Proof.
  intros H. induction l as [|a l IH]; cbn [for_each]; [apply growing_keeps, keeps_ret|].
  by apply growing_bind.
Qed.

(** ** The two places that schedule *)
Lemma growing_schedule_core p w : growing (schedule_core p w).
Proof.
  intros s [] s' H. unfold schedule_core, vread, vwrite in H. inv_run.
  match goal with H : bool_decide _ = true |- _ => apply bool_decide_eq_true in H; subst end.
  match goal with H : vset _ _ _ = Ok _ |- _ => apply vset_Ok in H as [Hr ->] end.
  repeat match goal with H : get _ = Ok _ |- _ => injection H as <- <- end.
  split; cbn; [done|done|by rewrite length_insert|]. intros p' w' Hp'.
  destruct (decide (p = p')) as [<-|Hne]; [congruence|]. by rewrite vget_insert_ne by (done || lia).
Qed.

Lemma growing_schedule_start w : growing (schedule_start w).
Proof.
  intros s [] s' H. unfold schedule_start in H. inv_run.
  match goal with H : bool_decide _ = true |- _ => apply bool_decide_eq_true in H end.
  split; cbn; [done| |done|done]. intros w' Hw. congruence.
Qed.
#[export] Hint Resolve growing_schedule_core growing_schedule_start : growing.

Ltac growing :=
  repeat match goal with
  | |- growing _ => solve [auto 2 with growing]
  | |- growing _ => apply growing_keeps; solve [keeps]
  | |- growing (mbind _ _) => apply growing_bind; [|intros ?]
  | |- growing (when _ _) => apply growing_when
  | |- growing (for_each _ _) => apply growing_for_each; intros ?
  | |- growing (match ?x with _ => _ end) => destruct x
  end.

Section engine.
Context (P : Params) (cfg : RubyCfg) (rand : nat -> Z) (accept : nat -> bool).

Lemma growing_schedule_if_idle p w : growing (schedule_if_idle p w).
Proof using Type. unfold schedule_if_idle, scheduled. growing. Qed.
#[local] Hint Resolve growing_schedule_if_idle : growing.

Lemma growing_createSubEvents p opt : growing (createSubEvents P rand p opt).
Proof using Type. unfold createSubEvents. growing. Qed.
#[local] Hint Resolve growing_createSubEvents : growing.

Lemma growing_swap_and_catch p : growing (swap_and_catch P p).
Proof using Type. unfold swap_and_catch. growing. Qed.
#[local] Hint Resolve growing_swap_and_catch : growing.

Lemma growing_swapStalledThreads p : growing (swapStalledThreads P rand p).
Proof using Type. unfold swapStalledThreads, stalled_comm, stalled_join, stalled_mutex. growing. Qed.

Lemma growing_finish_subEvent p t : growing (finish_subEvent P cfg p t).
Proof using Type. unfold finish_subEvent. growing. Qed.
#[local] Hint Resolve growing_swapStalledThreads growing_finish_subEvent : growing.

Lemma growing_triggerMsg w g p t se : growing (triggerMsg P accept w g p t se).
Proof using Type. apply growing_keeps. unfold triggerMsg, sendTimingReq. keeps. Qed.
#[local] Hint Resolve growing_triggerMsg : growing.

Lemma growing_wakeup_core p : growing (wakeup_core P cfg rand accept p).
Proof using Type.
  unfold wakeup_core, printThreadEvents, progressEvents, triggerCommReadMsg, triggerCompWriteMsg,
    triggerCompReadMsg. growing.
Qed.

Lemma growing_hitCallback p : growing (hitCallback P cfg p).
Proof using Type. unfold hitCallback, record_rtt. growing. Qed.

Lemma growing_wakeup_master : growing (wakeup_master P cfg rand).
Proof using Type. unfold wakeup_master, createAllSubEvents. growing. Qed.

End engine.
End ReplayGrows.

(** * The replay engine on the simulator's event queue

    The engine's model keeps the times of its events in two fields; in the
    program they sit in the linked bins of the event queue, among the events of
    the rest of the simulator.  [coupled] relates the two.  When the main loop
    takes an event of the engine off the queue, the step it runs is one of
    [ReplaySystem.step], and the calls of [EventQueue.schedule] the handler
    makes succeed in whatever order it makes them and lead to coupled states
    again: what is proved of the engine's steps holds of the queue's. *)
Module ReplayQueue.
Import STEvent CString Requests TraceParser IntMath TriggerTime SubEvents TraceLines
  ReplayState Replay ReplayInv ReplaySafe ReplaySteps ReplayHandlers ReplaySystem ReplayGrows.
Import EventQueueSpec(key, Queue, represents, ordered_insert, entries, klt, kltb, r_nodup, r_sched, r_chain).

Abbreviation qstate := EventQueue.state.
Abbreviation qtick := EventQueue.curTick.
Abbreviation qevents := EventQueue.events.

(** ** Facts of the queue *)
Lemma entries_fst (bins : list EventQueueSpec.bin) : (entries bins).*1 = EventQueueSpec.members bins.
Proof.
  induction bins as [|[k l] bins IH]; [done|].
  rewrite EventQueueSpec.entries_cons, EventQueueSpec.members_cons, fmap_app, IH. f_equal.
  rewrite <- list_fmap_compose. apply list_fmap_id.
Qed.

Lemma Queue_nodup (q : qstate) l : Queue q l -> NoDup l.*1.
Proof. intros (bins & R & ->). rewrite entries_fst. apply R. Qed.

Lemma Queue_unscheduled (q : qstate) l a e : Queue q l -> qevents q !! a = Some e -> a ∉ l.*1 ->
  EventQueue.scheduled e = false.
Proof.
  intros (bins & R & ->) He Hn. rewrite (r_sched _ _ R a e He). rewrite entries_fst in Hn.
  by apply bool_decide_eq_false.
Qed.

(** An event the queue neither frees nor drops. *)
Record plain (e : EventQueue.Event) : Prop := {
  p_squashed : EventQueue.squashed e = false;
  p_auto : EventQueue.isSet e.(EventQueue.flags) EventQueue.AutoDelete = false;
  p_exit : EventQueue.isExitEvent e = false
}.

Lemma plain_kept e e' : plain e -> EventQueueOps.kept e.(EventQueue.flags) e'.(EventQueue.flags) ->
  EventQueue.squashed e' = EventQueue.squashed e -> plain e'.
Proof.
  intros [H1 H2 H3] Hk Hs. split; [congruence| |].
  - change EventQueue.AutoDelete with (2 ^ 2) in *. by rewrite (EventQueueOps.kept_isSet _ _ 2 Hk).
  - unfold EventQueue.isExitEvent in *. change EventQueue.IsExitEvent with (2 ^ 4) in *.
    by rewrite (EventQueueOps.kept_isSet _ _ 4 Hk).
Qed.

Lemma plain_payload e e' : plain e -> EventQueueSpec.payload e' = EventQueueSpec.payload e -> plain e'.
Proof.
  intros [H1 H2 H3] [= _ _ Hf]. split; unfold EventQueue.squashed, EventQueue.isExitEvent in *; by rewrite Hf.
Qed.

(** ** A queue that holds given times for given events *)
Record holds (q : qstate) (l : list (Z * key)) (t : Z) (own : Z -> Prop) (slot : Z -> Z -> Prop) : Prop := {
  h_queue : Queue q l;
  h_tick : qtick q = t;
  h_in a w : slot a w -> own a /\ exists pr, (a, (w, pr)) ∈ l;
  h_out a k : own a -> (a, k) ∈ l -> slot a k.1;
  h_events a : own a -> exists e, qevents q !! a = Some e /\ plain e
}.

Lemma holds_ext q l t own own' slot slot' : (forall a, own a <-> own' a) ->
  (forall a w, slot a w <-> slot' a w) -> holds q l t own slot -> holds q l t own' slot'.
Proof.
  intros Ho Hs [H1 H2 H3 H4 H5]. split; try done.
  - intros a w Hw. rewrite <- Ho. by apply H3, Hs.
  - intros a k Ha Hk. apply Hs, H4; [by apply Ho|done].
  - intros a Ha. apply H5. by apply Ho.
Qed.

(** The calls of [schedule] of one handler. *)
Definition schedule_all (calls : list (Z * Z)) : M qstate unit :=
  for_each calls (fun c => EventQueue.schedule c.1 c.2).

Lemma schedule_one q l t own slot a w : holds q l t own slot -> own a ->
  (forall w', ~ slot a w') -> 0 <= t <= w -> w < 2 ^ 63 ->
  exists q' l', EventQueue.schedule a w q = Ok (tt, q') /\
    holds q' l' t own (fun b w' => slot b w' \/ (b = a /\ w' = w)).
Proof.
  intros [HQ Ht Hin Hout Hev] Ha Hno Hw Hw'. destruct (Hev a Ha) as (e & He & Hp).
  assert (a ∉ l.*1) as Hn.
  { intros ([b k] & -> & Hk)%list_elem_of_fmap. by apply (Hno k.1), Hout. }
  pose proof (Queue_unscheduled q l a e HQ He Hn) as Hs.
  assert (u64 (qtick q) <= u64 w) as Hu by (rewrite Ht, !u64_small by (zwidth; lia); lia).
  destruct (EventQueueOps.schedule_Queue q l a e w HQ He Hs Hu)
    as (q' & Hrun & HQ' & (Ht' & _ & Ho) & (e' & He' & _ & _ & Hk)).
  exists q', (ordered_insert a (w, EventQueue._priority e) l). split; [done|]. split; [done|congruence|..].
  - intros b w' [Hb|[-> ->]].
    + destruct (Hin b w' Hb) as [? [pr ?]]. split; [done|]. exists pr. apply EventQueueOps.elem_of_ordered_insert. by right.
    + split; [done|]. exists (EventQueue._priority e). apply EventQueueOps.elem_of_ordered_insert. by left.
  - intros b k Hb [[= -> ->]|Hbk]%EventQueueOps.elem_of_ordered_insert; [by right|left]. by apply Hout.
  - intros b Hb. destruct (decide (b = a)) as [->|Hne].
    + exists e'. split; [done|]. apply (plain_kept e); [done|done|].
      destruct HQ as (bins & R & _). by eapply EventQueueOps.schedule_squashed.
    + destruct (Hev b Hb) as (eb & Heb & Hpb). specialize (Ho b Hne). rewrite Heb in Ho.
      destruct (qevents q' !! b) as [eb'|] eqn:Eb; [|done]. exists eb'. split; [done|].
      injection Ho as Hpay1 Hpay2 Hpay3. apply (plain_payload eb); [done|].
      unfold EventQueueSpec.payload. congruence.
Qed.

Lemma schedule_all_holds t own calls : 0 <= t -> NoDup calls.*1 -> forall q l slot,
  holds q l t own slot ->
  (forall a w, (a, w) ∈ calls -> own a /\ (forall w', ~ slot a w') /\ t <= w < 2 ^ 63) ->
  exists q' l', schedule_all calls q = Ok (tt, q') /\
    holds q' l' t own (fun a w => slot a w \/ (a, w) ∈ calls).
Proof.
  intros Ht. induction calls as [|[a w] calls IH]; intros Hnd q l slot Hh Hc.
  - exists q, l. split; [done|]. eapply holds_ext; [done| |done]. intros a w. rewrite elem_of_nil. tauto.
  - rewrite fmap_cons in Hnd. apply NoDup_cons in Hnd as [Hn Hnd]. cbn in Hn.
    destruct (Hc a w) as (Ha & Hno & Hw); [by left|].
    destruct (schedule_one q l t own slot a w Hh Ha Hno) as (q1 & l1 & Hrun & Hh1); [lia|lia|].
    destruct (IH Hnd q1 l1 _ Hh1) as (q' & l' & Hrun' & Hh').
    { intros b w' Hb. destruct (Hc b w') as (? & Hno' & ?); [by right|]. split; [done|]. split; [|done].
      intros w2 [?|[-> _]]; [by eapply Hno'|]. apply Hn, list_elem_of_fmap. by exists (a, w'). }
    exists q', l'. split; [|eapply holds_ext; [done| |done]].
    + unfold schedule_all in *. cbn [for_each]. by rewrite (M_bind_run _ _ _ _ _ Hrun).
    + intros b w'. rewrite elem_of_cons. naive_solver.
Qed.

(** ** The engine's events in the queue *)
Section engine.
Context (master : Z) (core : Z -> Z).
Hypothesis (core_inj : forall p p', core p = core p' -> p = p').
Hypothesis (core_master : forall p, core p <> master).

Definition ours (s : state) (a : Z) : Prop :=
  a = master \/ exists p, 0 <= p < Z.of_nat (length s.(coreEvents)) /\ a = core p.

(** The engine has event [a] scheduled at [w]. *)
Definition slot (s : state) (a w : Z) : Prop :=
  (a = master /\ s.(startEvent) = Some w) \/
  exists p, a = core p /\ vget s.(coreEvents) p = Ok (Some w).

Definition coupled (q : qstate) (l : list (Z * key)) (s : state) : Prop :=
  holds q l s.(curTick) (ours s) (slot s).

(** The state in which the handler of event [a] starts. *)
Definition idle (s : state) (a : Z) (p : option Z) : state :=
  match p with
  | None => s <| startEvent := None |>
  | Some p => s <| coreEvents := <[Z.to_nat p := None]> s.(coreEvents) |>
  end.

(** The events scheduled in [s'] and not in [s]. *)
Definition news (s s' : state) : list (Z * Z) :=
  match s.(startEvent), s'.(startEvent) with None, Some w => [(master, w)] | _, _ => [] end ++
  omap (fun p => match vget s.(coreEvents) p, vget s'.(coreEvents) p with
                 | Ok None, Ok (Some w) => Some (core p, w)
                 | _, _ => None
                 end) (upto (Z.of_nat (length s.(coreEvents)))).

Lemma elem_news s s' a w : (a, w) ∈ news s s' <->
  (a = master /\ s.(startEvent) = None /\ s'.(startEvent) = Some w) \/
  exists p, a = core p /\ vget s.(coreEvents) p = Ok None /\ vget s'.(coreEvents) p = Ok (Some w).
Proof using Type.
  unfold news. rewrite elem_of_app, list_elem_of_omap. split.
  - intros [Hm|(p & _ & Hp)].
    + left. destruct (startEvent s), (startEvent s'); try (by apply not_elem_of_nil in Hm).
      apply list_elem_of_singleton in Hm. by injection Hm as -> ->.
    + right. exists p. repeat case_match; simplify_eq. done.
  - intros [(-> & -> & ->)|(p & -> & Hp & Hp')]; [left; by left|right]. exists p.
    split; [apply elem_of_upto; by eapply vget_Ok_range|]. by rewrite Hp, Hp'.
Qed.

Lemma news_nodup s s' : NoDup (news s s').*1.
Proof using core_inj core_master.
  unfold news. rewrite fmap_app. apply NoDup_app. split; [|split].
  - destruct (startEvent s), (startEvent s'); cbn; repeat constructor; by intros ?%not_elem_of_nil.
  - intros a Ha Hb. apply list_elem_of_fmap in Hb as ([b w] & -> & Hb).
    apply list_elem_of_omap in Hb as (p & _ & Hp). repeat case_match; simplify_eq; cbn in Ha;
      (by apply not_elem_of_nil in Ha) || (apply list_elem_of_singleton in Ha; by eapply core_master).
  - assert (NoDup (upto (Z.of_nat (length (coreEvents s))))) as Hnd
      by (unfold upto; apply NoDup_fmap; [apply _|apply NoDup_seq]).
    induction Hnd as [|p ps Hp Hps IH]; [constructor|]. cbn.
    destruct (vget (coreEvents s) p) as [[?|]|]; try exact IH.
    destruct (vget (coreEvents s') p) as [[w|]|]; try exact IH. cbn. constructor; [|exact IH].
    intros ([b w'] & Heq & Hb)%list_elem_of_fmap. apply list_elem_of_omap in Hb as (p' & Hp' & Hx).
    repeat case_match; simplify_eq. cbn in Heq. apply core_inj in Heq. by subst.
Qed.

(** After a handler the engine holds what it held and the new events. *)
Lemma slot_grows s s' : grows s s' ->
  (forall a, ours s' a <-> ours s a) /\
  forall a w, slot s' a w <-> slot s a w \/ (a, w) ∈ news s s'.
Proof using core_inj.
  intros [Ht Hst Hlen Hc]. split; [intros a; unfold ours; by rewrite Hlen|]. intros a w.
  rewrite elem_news. unfold slot. split.
  - intros [[-> Hw]|(p & -> & Hw)].
    + destruct (startEvent s) as [w0|] eqn:E; [|naive_solver]. left. left.
      specialize (Hst w0 eq_refl). split; congruence.
    + destruct (vget_in_range (coreEvents s) p) as [[w0|] E].
      { pose proof (vget_Ok_range _ _ _ Hw). rewrite Hlen in *. lia. }
      * left. right. exists p. split; [done|]. specialize (Hc p w0 E). congruence.
      * right. right. by exists p.
  - intros [[[-> Hw]|(p & -> & Hw)]|[(-> & _ & Hw)|(p & -> & _ & Hw)]]; [left; by auto|right; by eauto|left; by auto|right; by eauto].
Qed.

(** The calls of a handler on a queue coupled with the state it starts from. *)
Lemma handler_calls q l s s' calls : coupled q l s -> grows s s' -> 0 <= s.(curTick) ->
  (forall a w, slot s' a w -> s'.(curTick) <= w < 2 ^ 63) -> calls ≡ₚ news s s' ->
  exists q' l', schedule_all calls q = Ok (tt, q') /\ coupled q' l' s'.
Proof using core_inj core_master.
  intros Hcp Hg H0 Hb Hperm. destruct (slot_grows s s' Hg) as [Hown Hslot].
  pose proof (g_tick _ _ Hg) as Ht.
  destruct (schedule_all_holds s.(curTick) (ours s) calls H0) with (q := q) (l := l) (slot := slot s)
    as (q' & l' & Hrun & Hh).
  - apply (fmap_Permutation fst) in Hperm. rewrite Hperm. apply news_nodup.
  - done.
  - intros a w Hin. rewrite Hperm in Hin. assert (slot s' a w) as Hs by (apply Hslot; by right).
    pose proof (proj1 (elem_news s s' a w) Hin) as Hin'. split.
    + destruct Hin' as [(-> & _)|(p & -> & Hp & _)]; [by left|right].
      exists p. split; [by eapply vget_Ok_range|done].
    + split; [|rewrite <- Ht; exact (Hb a w Hs)]. intros w' [[-> Hw']|(p & -> & Hw')].
      * destruct Hin' as [(_ & ? & _)|(p & Hp & _)]; [congruence|]. by apply (core_master p).
      * destruct Hin' as [(Hp & _)|(p' & Hp & ? & _)]; [by apply (core_master p)|].
        apply core_inj in Hp as ->. congruence.
  - exists q', l'. split; [done|]. unfold coupled. rewrite Ht. eapply holds_ext; [|  |done].
    + intros a. by rewrite Hown.
    + intros a w. assert ((a, w) ∈ calls <-> (a, w) ∈ news s s') as Hi by (by rewrite Hperm).
      specialize (Hslot a w). tauto.
Qed.

(** ** Taking an event of the engine off the queue *)
Definition whose (s : state) (a : Z) (p : option Z) : Prop :=
  match p with
  | None => a = master
  | Some p => a = core p /\ 0 <= p < Z.of_nat (length s.(coreEvents))
  end.

Lemma slot_idle s a p b w : whose s a p ->
  slot (idle s a p) b w <-> slot s b w /\ b <> a.
Proof using core_inj core_master.
  unfold slot. destruct p as [p|]; cbn; intros Ha.
  - destruct Ha as [-> Hp]. split.
    + intros [[-> Hw]|(p' & -> & Hw)]; [split; [by left|]; intros Heq; by apply (core_master p)|].
      destruct (decide (p = p')) as [<-|Hne]; [by rewrite vget_insert_eq in Hw by done|].
      rewrite vget_insert_ne in Hw by (done || lia). split; [right; by eauto|]. intros ?%core_inj. done.
    + intros [[[-> Hw]|(p' & -> & Hw)] Hne]; [by left|right]. exists p'. split; [done|].
      rewrite vget_insert_ne; [done|lia|]. by intros ->.
  - subst a. split.
    + intros [[_ Hw]|(p' & -> & Hw)]; [done|]. split; [right; by eauto|]. apply core_master.
    + intros [[[-> Hw]|(p' & -> & Hw)] Hne]; [done|right; by eauto].
Qed.

Lemma ours_idle s a p b : ours (idle s a p) b <-> ours s b.
Proof using Type. unfold ours. destruct p as [p|]; cbn; [by rewrite length_insert|done]. Qed.

(** One round of the main loop whose first event is one of the engine's. *)
Lemma round_coupled q a k l s p s' calls :
  let st := s <| curTick := k.1 |> in
  coupled q ((a, k) :: l) s -> whose s a p -> s.(curTick) <= k.1 -> 0 <= k.1 ->
  grows (idle st a p) s' -> (forall b w, slot s' b w -> s'.(curTick) <= w < 2 ^ 63) ->
  calls ≡ₚ news (idle st a p) s' ->
  exists q' l', EventQueue.simulate_round (fun _ => schedule_all calls) q = Ok (None, q') /\
    coupled q' l' s'.
Proof using core_inj core_master.
  intros st [HQ Ht Hin Hout Hev] Ha Hle H0 Hg Hb Hperm.
  assert (ours s a) as Hoa.
  { destruct p as [p|]; cbn in Ha; [destruct Ha; right; by eauto|by left]. }
  pose proof (Queue_nodup _ _ HQ) as Hnd. rewrite fmap_cons in Hnd. apply NoDup_cons in Hnd as [Hna Hnd].
  set (q0 := EventQueue.mkState (qevents q) (EventQueue.head q) k.1 (EventQueue.is_main q)).
  destruct (EventQueueLoop.serviceOne_run (fun _ => schedule_all calls) q0 a k l)
    as (q1 & e & e1 & HQ1 & (Ht1 & _ & Ho1) & He & He1 & _ & Hf1 & _ & Hrun & _);
    [by apply (EventQueueLoop.set_tick_Queue q _ k.1)|].
  destruct (Hev a Hoa) as (e' & He' & Hpl). change (qevents q0) with (qevents q) in *.
  rewrite He in He'. injection He' as <-.
  assert (plain e1) as Hpl1.
  { apply (plain_kept e); [done| |].
    - rewrite Hf1. apply (EventQueueOps.kept_clear _ _ 1); [apply EventQueueOps.kept_refl|set_solver].
    - unfold EventQueue.squashed. rewrite Hf1. apply EventQueueOps.squashed_clear_sched. }
  assert (coupled q1 l (idle st a p)) as Hcp1.
  { split; [done| | | |].
    - rewrite Ht1. by destruct p.
    - intros b w Hw. rewrite (slot_idle st a p b w) in Hw by (by destruct p). destruct Hw as [Hw Hne].
      rewrite ours_idle. destruct (Hin b w Hw) as [? [pr Hpr]]. split; [done|]. exists pr.
      apply elem_of_cons in Hpr as [[= -> _]|?]; done.
    - intros b k' Hb' Hk'. rewrite ours_idle in Hb'. apply slot_idle; [by destruct p|]. split.
      + apply (Hout b k' Hb'). by right.
      + intros ->. apply Hna, list_elem_of_fmap. by exists (a, k').
    - intros b Hb'. rewrite ours_idle in Hb'. destruct (decide (b = a)) as [->|Hne]; [by eauto|].
      destruct (Hev b Hb') as (eb & Heb & Hpb). specialize (Ho1 b Hne). cbn in Ho1. rewrite Heb in Ho1.
      destruct (qevents q1 !! b) as [eb'|]; [|done]. exists eb'. split; [done|].
      apply (plain_payload eb); [done|]. by apply (inj Some) in Ho1. }
  destruct (handler_calls q1 l (idle st a p) s' calls Hcp1 Hg) as (q2 & l2 & Hcalls & Hcp2);
    [by destruct p|done|done|].
  exists q2, l2. split; [|done].
  unfold EventQueue.simulate_round, EventQueue.empty. rewrite gets_run.
  pose proof HQ as (rest & bins & _ & _ & _ & Hh)%EventQueueOps.Queue_head. rewrite Hh.
  rewrite bool_decide_false by done. cbn [negb]. rewrite assert_bind_run, gets_run.
  erewrite M_bind_run by (by eapply EventQueueLoop.nextTick_run). rewrite Ht.
  rewrite assert_bind_run, (proj2 (Z.leb_le _ _) Hle).
  change (EventQueue.serviceOne (fun _ => schedule_all calls) q0 = Ok (None, q2)).
  rewrite Hrun by apply Hpl1. rewrite (M_bind_run _ _ _ _ _ Hcalls).
  destruct (h_events _ _ _ _ _ Hcp2 a) as (e2 & He2 & [_ Hauto Hexit]).
  { apply (slot_grows _ _ Hg), ours_idle. destruct Hoa as [->|(p' & Hp' & ->)]; [by left|right; eauto]. }
  unfold EventQueue.afterProcess. rewrite (EventQueueSpec.deref_run _ e2) by done. rewrite Hexit.
  unfold EventQueue.finishEvent. rewrite (EventQueueSpec.deref_run _ e2) by done. by rewrite Hauto.
Qed.

End engine.

(** ** The theorems *)
Section composed.
Context (master : Z) (core : Z -> Z) (P : Params) (cfg : RubyCfg) (rand : nat -> Z).
Context (accept : nat -> bool) (mem : ObjectMemory) (files : list (option (list str))).
Context (pthread_file : option (list str)).
Hypothesis (core_inj : forall p p', core p = core p' -> p = p').
Hypothesis (core_master : forall p, core p <> master).
Hypothesis (POK : params_ok P) (Hg : mem.(held_count) <= 0).
Abbreviation reached := (reachable P cfg rand accept mem files pthread_file).
Abbreviation steps := (step P cfg rand accept).
Abbreviation cpl := (coupled master core).
Abbreviation slots := (slot master core).

Lemma slot_future s a w : reached s -> slots s a w -> s.(curTick) <= w.
Proof using POK Hg.
  intros Hr Hs. pose proof (reachable_INV P cfg rand accept _ _ _ POK s Hg Hr) as I.
  destruct Hs as [[_ Hw]|(p & _ & Hw)]; [by apply (inv_start _ _ _ _ I)|by apply (inv_future _ _ _ _ I p)].
Qed.

(** The first event of the queue is not later than any other. *)
Lemma first_is_least (q : qstate) a k l b w pr : Queue q ((a, k) :: l) -> (b, (w, pr)) ∈ (a, k) :: l -> k.1 <= w.
Proof using Type.
  intros HQ%EventQueueOps.Queue_sorted Hb. apply Sorted.StronglySorted_inv in HQ as [_ Hs].
  apply elem_of_cons in Hb as [[= <- <-]|Hb]; [done|]. rewrite Forall_forall in Hs. specialize (Hs _ Hb).
  destruct k as [t pr']. unfold kltb in Hs. cbn in *. lia.
Qed.

Definition label_of (p : option Z) : label := match p with None => Master | Some p => Core p end.

Lemma fire_step q a k l s p : reached s -> s.(exit_requested) = false ->
  cpl q ((a, k) :: l) s -> whose master core s a p -> k.1 < 2 ^ 53 ->
  let st := s <| curTick := k.1 |> in
  s.(curTick) <= k.1 /\ 0 <= s.(curTick) /\ steps s (Tick k.1) (Ok (tt, st)) /\
  exists r, steps st (label_of p) r /\
    forall u s', r = Ok (u, s') -> grows (idle st a p) s'.
Proof using core_inj core_master POK Hg.
  intros Hr He [HQ Ht Hin Hout Hev] Ha Hk st.
  pose proof (reachable_INV P cfg rand accept _ _ _ POK s Hg Hr) as I.
  assert (slots s a k.1) as Hs.
  { apply Hout; [|by left]. destruct p as [p|]; cbn in Ha; [destruct Ha; right; by eauto|by left]. }
  pose proof (slot_future s a k.1 Hr Hs) as Hle. pose proof (inv_tick _ _ _ _ I) as H0. cbn in H0.
  split; [done|]. split; [lia|]. split.
  - constructor; [lia| |].
    + intros w Hw. destruct (Hin master w) as [_ [pr Hpr]]; [by left|]. by eapply first_is_least.
    + intros p' w Hw. destruct (Hin (core p') w) as [_ [pr Hpr]]; [right; by eauto|]. by eapply first_is_least.
  - destruct p as [p|]; cbn in Ha.
    + destruct Ha as [-> Hp]. eexists. split.
      * apply step_core. destruct Hs as [[Hm _]|(p' & Hp' & Hw)]; [by apply core_master in Hm|].
        by apply core_inj in Hp' as <-.
      * intros [] s' Hx. by eapply growing_wakeup_core.
    + subst a. eexists. split.
      * apply step_master. destruct Hs as [[_ Hw]|(p' & Hp' & _)]; [done|]. by apply eq_sym, core_master in Hp'.
      * intros [] s' Hx. by eapply growing_wakeup_master.
Qed.



End composed.
End ReplayQueue.
