(* ===== verification/ReplayQueueExamples.v ===== *)
(** * The example run on the event queue

    The states of the two-thread run with their events in the linked bins of
    the queue, beside the event of another object, and the theorems of the
    composition at these states. *)

From S2P Require Import Prelude.
From S2P Require Import StaticDeque.
From S2P Require Import STEvent.
From S2P Require Import Requests.
From S2P Require Import ReplayState.
From S2P Require Import Replay.
From S2P Require Import ReplayInv.
From S2P Require Import ReplaySafe.
From S2P Require Import ReplayHandlers.
From S2P Require Import ReplaySystem.
From S2P Require Import ReplayExamples.
From S2P Require Import EventQueue.
From S2P Require Import EventQueueOps.
From S2P Require Import EventQueueExamples.
From S2P Require Import ReplayQueue.
Import STEvent Requests ReplayState Replay ReplayInv ReplaySafe ReplayHandlers ReplaySystem
  ReplayExamples ReplayQueue.
Import EventQueueSpec(key, Queue).

Module ReplayQueueExamples.

Definition master : Z := 0.
Definition core (p : Z) : Z := 2 * p + 1.

Lemma core_inj p p' : core p = core p' -> p = p'.
Proof. unfold core. lia. Qed.
Lemma core_master p : core p <> master.
Proof. unfold core, master. lia. Qed.

(** The start event, two core events, and an event of the memory system. *)
Definition store : gmap Z EventQueue.Event :=
  list_to_map ((fun a => (a, EventQueueExamples.event EventQueue.Default_Pri 0)) <$> [0; 1; 3; 10]).

Definition queued (t : Z) (calls : list (Z * Z)) : qstate :=
  EventQueueExamples.run (schedule_all calls) (EventQueue.mkState store None t true).

Definition q2 : qstate := Eval vm_compute in queued 1 [(10, 20); (0, 101); (1, 7)].
Definition q4 : qstate := Eval vm_compute in queued 7 [(10, 20); (0, 101)].

Ltac by_list := apply (bool_decide_unpack _); vm_compute; exact I.

Ltac queue_by bins q :=
  exists bins; split; [|vm_compute; reflexivity]; split;
  [ vm_compute; repeat (eexists || split || reflexivity)
  | repeat constructor
  | apply (bool_decide_unpack _); by vm_compute
  | let H := fresh in
    assert (map_Forall (fun a e => EventQueue.scheduled e = bool_decide (a ∈ EventQueueSpec.members bins))
              (qevents q)) as H by (apply (bool_decide_unpack _); by vm_compute);
    intros a e He; by apply H
  | apply EventQueueExamples.sane_store; by vm_compute ].

Lemma q2_Queue : Queue q2 [(1, (7, 0)); (10, (20, 0)); (0, (101, 0))].
Proof. queue_by [((7, 0), [1]); ((20, 0), [10]); ((101, 0), [0])] q2. Qed.

Lemma q4_Queue : Queue q4 [(10, (20, 0)); (0, (101, 0))].
Proof. queue_by [((20, 0), [10]); ((101, 0), [0])] q4. Qed.

Lemma s2_times : s2.(curTick) = 1 /\ s2.(startEvent) = Some 101 /\ s2.(coreEvents) = [Some 7; None].
Proof. vm_compute. auto. Qed.

Lemma s4_times : s4.(curTick) = 7 /\ s4.(startEvent) = Some 101 /\ s4.(coreEvents) = [None; None].
Proof. vm_compute. auto. Qed.

Definition plain_check (e : EventQueue.Event) : bool :=
  negb (EventQueue.squashed e) && negb (EventQueue.isSet e.(EventQueue.flags) EventQueue.AutoDelete) &&
  negb (EventQueue.isExitEvent e).

Lemma plain_store (q : qstate) s : Forall (fun a => match qevents q !! a with
    Some e => plain_check e = true | None => False end) [0; 1; 3] ->
  length s.(coreEvents) = 2%nat ->
  forall a, ours master core s a -> exists e, qevents q !! a = Some e /\ plain e.
Proof.
  intros Hall Hl a Ha. assert (a ∈ [0; 1; 3]) as Hin.
  { destruct Ha as [->|(p & Hp & ->)]; [by left|]. rewrite Hl in Hp. unfold core.
    assert (p = 0 \/ p = 1) as [->| ->] by lia; set_solver. }
  rewrite Forall_forall in Hall. specialize (Hall a Hin). destruct (qevents q !! a) as [e|]; [|done].
  exists e. split; [done|]. unfold plain_check in Hall.
  apply andb_prop in Hall as [[?%negb_true_iff ?%negb_true_iff]%andb_prop ?%negb_true_iff]. by split.
Qed.

Lemma couples_2 s : s.(curTick) = 1 /\ s.(startEvent) = Some 101 /\ s.(coreEvents) = [Some 7; None] ->
  coupled master core q2 [(1, (7, 0)); (10, (20, 0)); (0, (101, 0))] s.
Proof.
  intros (Ht & Hs & Hc). split.
  - exact q2_Queue.
  - by rewrite Ht.
  - intros a w [[-> Hw]|(p & -> & Hw)].
    + rewrite Hs in Hw. injection Hw as <-. split; [by left|]. exists 0. by_list.
    + rewrite Hc in Hw. pose proof (vget_Ok_range _ _ _ Hw) as Hr. cbn in Hr.
      assert (p = 0 \/ p = 1) as [->| ->] by lia; [|by vm_compute in Hw]. vm_compute in Hw. injection Hw as <-.
      split; [right; exists 0; rewrite Hc; cbn; split; [lia|done]|]. exists 0. by_list.
  - intros a k Ha Hk. repeat (apply elem_of_cons in Hk as [[= -> ->]|Hk]); [right|exfalso|left|by apply not_elem_of_nil in Hk].
    + exists 0. by rewrite Hc.
    + destruct Ha as [?|(p & _ & Hp)]; [done|]. unfold core in Hp. lia.
    + by rewrite Hs.
  - apply plain_store; [repeat constructor; by vm_compute|by rewrite Hc].
Qed.

Lemma couples_4 s : s.(curTick) = 7 /\ s.(startEvent) = Some 101 /\ s.(coreEvents) = [None; None] ->
  coupled master core q4 [(10, (20, 0)); (0, (101, 0))] s.
Proof.
  intros (Ht & Hs & Hc). split.
  - exact q4_Queue.
  - by rewrite Ht.
  - intros a w [[-> Hw]|(p & -> & Hw)].
    + rewrite Hs in Hw. injection Hw as <-. split; [by left|]. exists 0. by_list.
    + rewrite Hc in Hw. pose proof (vget_Ok_range _ _ _ Hw) as Hr. cbn in Hr.
      by assert (p = 0 \/ p = 1) as [->| ->] by lia; vm_compute in Hw.
  - intros a k Ha Hk. repeat (apply elem_of_cons in Hk as [[= -> ->]|Hk]); [exfalso|left|by apply not_elem_of_nil in Hk].
    + destruct Ha as [?|(p & _ & Hp)]; [done|]. unfold core in Hp. lia.
    + by rewrite Hs.
  - apply plain_store; [repeat constructor; by vm_compute|by rewrite Hc].
Qed.


Definition s5 : state := the_state (hitCallback P example_cfg 0 s4).

Lemma s4_responds : moves s4 (Response 0) (Ok (tt, s5)).
Proof.
  replace (Ok (tt, s5)) with (hitCallback P example_cfg 0 s4) by (vm_compute; reflexivity).
  apply step_response. exists 0, (queue0 s4). split; [exists [0]; vm_compute; split; reflexivity|].
  split; vm_compute; reflexivity.
Qed.


Example response_news : news master core s4 s5 = [(1, 13)].
Proof. vm_compute. reflexivity. Qed.

End ReplayQueueExamples.
