(* ===== verification/NetWorld.v ===== *)
(** * The objects of the simple network
    ([NetworkMessage], src/src/mem/ruby/slicc_interface/NetworkMessage.hh; the
    members of [PerfectSwitch], [Throttle], [Switch] and [SimpleNetwork],
    src/src/mem/ruby/network/simple; the message sizes of
    src/src/mem/ruby/network/Network.cc).

    Switches and throttles share message buffers and messages, so the state is
    one store of all these objects, addressed by numbers that stand for
    pointers.  [MessageBuffer.v] models one buffer together with what is around
    it; [load] puts the shared parts of the store around a buffer, [store]
    takes them back, and [on_buffer] runs a member function of the buffer in
    between.  Stored buffers have these parts blank.

    Consumers (switches, throttles, controllers) are numbered too.  A message
    that is put into a buffer wakes the consumer of the buffer and tells it the
    virtual network ([storeEventInfo], which only switches override). *)

From S2P Require Import Prelude.
From S2P Require Import NodeSet.
From S2P Require Import NetDest.
From S2P Require Import MessageHeap.
From S2P Require Import MessageBuffer.
Import MessageBuffer.

Module NetWorld.

(** [MessageSizeType], in the order of the protocol's declaration. *)
Inductive MessageSizeType :=
| Undefined | Control | Data | Request_Control | Reissue_Control | Response_Data
| ResponseL2hit_Data | ResponseLocal_Data | Response_Control | Writeback_Data
| Writeback_Control | Broadcast_Control | Multicast_Control | Forwarded_Control
| Invalidate_Control | Unblock_Control | Persistent_Control | Completion_Control.

#[global] Instance MessageSizeType_eq_dec : EqDecision MessageSizeType.
Proof. solve_decision. Defined.

(** A network message: [destination] and [messageSize] are the members behind
    [getDestination] and [getMessageSize], [payload] the rest of the generated
    class, which the network does not look at. *)
Record NetworkMessage := mkNetMsg {
  m_internal_dest : NetDest.t;
  m_internal_dest_valid : bool;
  destination : NetDest.t;
  messageSize : MessageSizeType;
  payload : Z
}.
#[global] Instance NetworkMessage_eta : Settable NetworkMessage := fun m =>
  mkNetMsg m.(m_internal_dest) m.(m_internal_dest_valid) m.(destination) m.(messageSize)
    m.(payload).

Record LinkOrder := mkLinkOrder { m_link : Z; m_value : Z }.

Record PerfectSwitch := mkPerfectSwitch {
  m_in : list (list Z);
  m_out : list (list Z);
  m_routing_table : list NetDest.t;
  m_link_order : list LinkOrder;
  m_virtual_networks : Z;
  m_round_robin_start : Z;
  m_wakeups_wo_switch : Z;
  m_pending_message_count : list Z
}.
#[global] Instance PerfectSwitch_eta : Settable PerfectSwitch := fun s =>
  mkPerfectSwitch s.(m_in) s.(m_out) s.(m_routing_table) s.(m_link_order)
    s.(m_virtual_networks) s.(m_round_robin_start) s.(m_wakeups_wo_switch)
    s.(m_pending_message_count).

(** [m_links_utilized], a [double] that only the statistics read, is the list
    of the pairs (bandwidth left, bandwidth) it accumulates. *)
Record Throttle := mkThrottle {
  t_in : list Z;
  t_out : list Z;
  m_message_counters : list (list Z);
  m_vnets : Z;
  m_units_remaining : list Z;
  m_link_bandwidth_multiplier : Z;
  m_link_latency : Z;
  t_wakeups_wo_switch : Z;
  m_endpoint_bandwidth : Z;
  m_ruby_start : Z;
  m_links_utilized : list (Z * Z)
}.
#[global] Instance Throttle_eta : Settable Throttle := fun t =>
  mkThrottle t.(t_in) t.(t_out) t.(m_message_counters) t.(m_vnets) t.(m_units_remaining)
    t.(m_link_bandwidth_multiplier) t.(m_link_latency) t.(t_wakeups_wo_switch)
    t.(m_endpoint_bandwidth) t.(m_ruby_start) t.(m_links_utilized).

(** The members of the network that its parts read. *)
Record NetCfg := mkNetCfg {
  c_virtual_networks : Z;
  m_adaptive_routing : bool;
  m_ordered : list bool;
  m_control_msg_size : Z;
  m_data_msg_size : Z
}.
#[global] Instance NetCfg_eta : Settable NetCfg := fun c =>
  mkNetCfg c.(c_virtual_networks) c.(m_adaptive_routing) c.(m_ordered) c.(m_control_msg_size)
    c.(m_data_msg_size).

Record World := mkWorld {
  buffers : gmap Z Buffer;
  consumer_of : gmap Z Z;                     (* m_consumer_ptr of a buffer *)
  marks : gset (Z * Z);                       (* m_scheduled_wakeups: consumer, time *)
  events : list (Z * Z);                      (* queued wakeups: tick, consumer *)
  w_messages : gmap Z Message;
  net_messages : gmap Z NetworkMessage;
  next_message : Z;                           (* no message has this number yet *)
  switches : gmap Z PerfectSwitch;            (* by consumer *)
  throttles : gmap Z Throttle;
  network : NetCfg;
  w_tick : Z;
  w_randomization : bool;
  w_warmup : bool;
  w_draws : nat
}.
#[global] Instance World_eta : Settable World := fun w =>
  mkWorld w.(buffers) w.(consumer_of) w.(marks) w.(events) w.(w_messages)
    w.(net_messages) w.(next_message) w.(switches) w.(throttles) w.(network) w.(w_tick)
    w.(w_randomization) w.(w_warmup) w.(w_draws).

Abbreviation W := (M World).

(** ** Buffers in the store *)
Definition scheduled (w : World) (c : Z) : gset Z :=
  set_map snd (filter (fun p => p.1 = c) w.(marks)).

(** The times at which the consumer of buffer [id] will be woken. *)
Definition wakeups_of (w : World) (id : Z) : gset Z :=
  match w.(consumer_of) !! id with Some c => scheduled w c | None => ∅ end.

Definition load (w : World) (id : Z) (b : Buffer) : Buffer :=
  b <| m_consumer_set := bool_decide (is_Some (w.(consumer_of) !! id)) |>
    <| m_scheduled_wakeups := wakeups_of w id |>
    <| messages := w.(w_messages) |> <| wakeups := [] |> <| event_infos := [] |>
    <| MessageBuffer.curTick := w.(w_tick) |>
    <| system_randomization := w.(w_randomization) |> <| warmup_enabled := w.(w_warmup) |>
    <| draws := w.(w_draws) |>.

Definition blank (b : Buffer) : Buffer :=
  b <| m_consumer_set := false |> <| m_scheduled_wakeups := ∅ |> <| messages := ∅ |>
    <| wakeups := [] |> <| event_infos := [] |> <| MessageBuffer.curTick := 0 |>
    <| system_randomization := false |> <| warmup_enabled := false |> <| draws := 0%nat |>.

(** [storeEventInfo]: a switch counts the message, an index outside its vector
    is undefined; other consumers ignore it. *)
Definition storeEventInfo (c info : Z) (w : World) : result World :=
  match w.(switches) !! c with
  | None => Ok w
  | Some sw =>
      k ← vget sw.(m_pending_message_count) info;
      l ← vset sw.(m_pending_message_count) info (i32 (k + 1));
      Ok (w <| switches ::= <[c := sw <| m_pending_message_count := l |>]> |>)
  end.

Fixpoint storeEventInfos (c : Z) (infos : list Z) (w : World) : result World :=
  match infos with
  | [] => Ok w
  | i :: infos' => w' ← storeEventInfo c i w; storeEventInfos c infos' w'
  end.

Definition store (w : World) (id : Z) (b : Buffer) : result World :=
  let w := w <| buffers ::= <[id := blank b]> |> <| w_messages := b.(messages) |>
             <| w_draws := b.(draws) |> in
  match w.(consumer_of) !! id with
  | None => Ok w
  | Some c =>
      storeEventInfos c (reverse b.(event_infos))
        (w <| marks ::= union (set_map (pair c) b.(m_scheduled_wakeups)) |>
           <| events ::= app ((fun t => (t, c)) <$> b.(wakeups)) |>)
  end.

Definition on_buffer {A} (id : Z) (m : M Buffer A) : W A := fun w =>
  match w.(buffers) !! id with
  | None => Err (UB "null buffer")
  | Some b =>
      r ← m (load w id b);
      w' ← store w id r.2;
      Ok (r.1, w')
  end.

(** ** Messages *)
Definition net_message (p : option Z) : W (Z * NetworkMessage) :=
  match p with
  | None => fail (UB "null message")
  | Some q =>
      msgs ← gets net_messages;
      match msgs !! q with
      | None => fail (AssertFail "safe_cast<NetworkMessage*>")
      | Some m => mret (q, m)
      end
  end.

Definition set_net_message (q : Z) (m : NetworkMessage) : W unit :=
  modify (fun w => w <| net_messages ::= <[q := m]> |>).

(** [clone]: the copy constructors of [Message] and [NetworkMessage]. *)
Definition clone (p : option Z) : W (option Z) :=
  qm ← net_message p;
  let '(q, nm) := qm in
  msgs ← gets w_messages;
  match msgs !! q with
  | None => fail (UB "dangling message")
  | Some m =>
      internal ← lift (NetDest.copy nm.(m_internal_dest));
      dst ← lift (NetDest.copy nm.(destination));
      new ← gets next_message;
      modify (fun w => w <| w_messages ::= <[new := m]> |>
                         <| net_messages ::= <[new := nm <| m_internal_dest := internal |>
                                                         <| destination := dst |>]> |>
                         <| next_message := new + 1 |>);;
      mret (Some new)
  end.

(** [getInternalDestination()], the member of a non-const message: the first
    call copies the destination. *)
Definition getInternalDestination (p : option Z) : W NetDest.t :=
  qm ← net_message p;
  let '(q, nm) := qm in
  if nm.(m_internal_dest_valid) then mret nm.(m_internal_dest)
  else
    d ← lift (NetDest.copy nm.(destination));
    set_net_message q (nm <| m_internal_dest := d |> <| m_internal_dest_valid := true |>);;
    mret d.

(** [getInternalDestination() = d]. *)
Definition setInternalDestination (p : option Z) (d : NetDest.t) : W unit :=
  getInternalDestination p;;
  qm ← net_message p;
  let '(q, nm) := qm in
  d' ← lift (NetDest.copy d);
  set_net_message q (nm <| m_internal_dest := d' |>).

(** [Network::MessageSizeType_to_int]. *)
Definition MessageSizeType_to_int (net : NetCfg) (size_type : MessageSizeType) : result Z :=
  match size_type with
  | Undefined => Err (Panic "Can't convert Undefined MessageSizeType to integer")
  | Control | Request_Control | Reissue_Control | Response_Control | Writeback_Control
  | Broadcast_Control | Multicast_Control | Forwarded_Control | Invalidate_Control
  | Unblock_Control | Persistent_Control | Completion_Control => Ok net.(m_control_msg_size)
  | Data | Response_Data | ResponseLocal_Data | ResponseL2hit_Data | Writeback_Data =>
      Ok net.(m_data_msg_size)
  end.

(** ** Wakeups *)
Section wakeups.
Context (m_clock : Z).

Definition getTime : W Z := gets (fun w => w.(w_tick) / m_clock).

(** [g_eventQueue_ptr->scheduleEvent(this, timeDelta)]. *)
Definition scheduleEvent (c timeDelta : Z) : W unit :=
  now ← getTime;
  w ← get;
  let timeAbs := timeDelta + now in
  if bool_decide (timeAbs ∈ scheduled w c) then mret tt
  else
    assert_ (now <? timeAbs) "timeAbs > getTime()";;
    modify (fun w => w <| events ::= cons (timeAbs * m_clock, c) |>
                       <| marks ::= union {[ (c, timeAbs) ]} |>).

(** [RubyEventQueueNode::process]: the consumer runs, then the time is
    unmarked. *)
Definition process (c : Z) (wakeup : W unit) : W unit :=
  wakeup;;
  now ← getTime;
  w ← get;
  assert_ (bool_decide (now ∈ scheduled w c)) "alreadyScheduled(time)";;
  modify (fun w => w <| marks ::= fun m => m ∖ {[ (c, now) ]} |>).
End wakeups.

(** A member of the object behind [this]. *)
Definition switch (this : Z) : W PerfectSwitch :=
  s ← gets switches;
  match s !! this with Some sw => mret sw | None => fail (UB "null switch") end.

Definition set_switch (this : Z) (f : PerfectSwitch -> PerfectSwitch) : W unit :=
  modify (fun w => w <| switches ::= alter f this |>).

Definition throttle (this : Z) : W Throttle :=
  s ← gets throttles;
  match s !! this with Some t => mret t | None => fail (UB "null throttle") end.

Definition set_throttle (this : Z) (f : Throttle -> Throttle) : W unit :=
  modify (fun w => w <| throttles ::= alter f this |>).

End NetWorld.
