(* ===== verification/PerfectSwitch.v ===== *)
(** * The crossbar of a switch
    (class [PerfectSwitch], src/src/mem/ruby/network/simple/PerfectSwitch.hh
    and PerfectSwitch.cc).

    When it is woken, a switch takes the messages that have arrived from its
    input buffers and forwards each along the links whose routing table entries
    meet its destinations, a copy per link.  A message that does not fit into
    all the output buffers it needs stays, and the switch wakes itself in the
    next cycle. *)

From stdpp Require Import sorting.
From S2P Require Import Prelude.
From S2P Require Import NodeSet.
From S2P Require Import NetDest.
From S2P Require Import MessageHeap.
From S2P Require Import MessageBuffer.
From S2P Require Import NetWorld.
Import NetWorld.

(** [std::sort] on link orders: which of the sorted permutations it produces is
    up to the library. *)
Class LinkSort := {
  sort : list LinkOrder -> list LinkOrder;
  sort_permutes l : sort l ≡ₚ l;
  sort_sorted l : Sorted (fun a b => a.(m_value) <= b.(m_value)) (sort l)
}.

Module PerfectSwitch.

Definition PRIORITY_SWITCH_LIMIT : Z := 128.

(** The order of the virtual networks in a wakeup: [n-1] down to [0], or, when
    the priorities are inverted, [0] up to [n-1]. *)
Definition vnet_order (n : Z) (inverted : bool) : list Z :=
  if inverted then upto n else reverse (upto n).

Section switch.
Context `{MachineTypes} `{LinkSort}.
Context (m_clock : Z) (rand : nat -> Z).

(** The constructor. *)
Definition newPerfectSwitch (net : NetCfg) : PerfectSwitch :=
  mkPerfectSwitch [] [] [] [] net.(c_virtual_networks) 0 0
    (replicate (Z.to_nat net.(c_virtual_networks)) 0).

(** ** Ports *)
Definition setConsumer (b c : Z) : W unit :=
  cs ← gets consumer_of;
  assert_ (bool_decide (cs !! b = None)) "m_consumer_ptr == NULL";;
  modify (fun w => w <| consumer_of ::= <[b := c]> |>).

Definition addInPort (this : Z) (ins : list Z) : W unit :=
  sw ← switch this;
  assert_ (Z.of_nat (length ins) =? sw.(m_virtual_networks)) "in.size() == m_virtual_networks";;
  set_switch this (fun s => s <| m_in ::= fun l => l ++ [ins] |>);;
  for_each (upto sw.(m_virtual_networks)) (fun j =>
    b ← lift (vget ins j);
    setConsumer b this;;
    on_buffer b (modify (fun x => x <| MessageBuffer.m_vnet_id := j |>))).

Definition addOutPort (this : Z) (outs : list Z) (routing_table_entry : NetDest.t) : W unit :=
  sw ← switch this;
  assert_ (Z.of_nat (length outs) =? sw.(m_virtual_networks)) "out.size() == m_virtual_networks";;
  entry ← lift (NetDest.copy routing_table_entry);
  set_switch this (fun s =>
    s <| m_link_order ::= fun l => l ++ [mkLinkOrder (Z.of_nat (length s.(m_out))) 0] |>
      <| m_out ::= fun l => l ++ [outs] |>
      <| m_routing_table ::= fun l => l ++ [entry] |>).

Definition clearRoutingTables (this : Z) : W unit :=
  switch this;; set_switch this (fun s => s <| m_routing_table := [] |>).

Definition reconfigureOutPort (this : Z) (routing_table_entry : NetDest.t) : W unit :=
  switch this;;
  entry ← lift (NetDest.copy routing_table_entry);
  set_switch this (fun s => s <| m_routing_table ::= fun l => l ++ [entry] |>).

Definition clear_ports (vnets : Z) (ports : list (list Z)) : W unit :=
  for_each ports (fun port =>
    for_each (upto vnets) (fun v => b ← lift (vget port v); on_buffer b MessageBuffer.clear)).

Definition clearBuffers (this : Z) : W unit :=
  sw ← switch this;
  clear_ports sw.(m_virtual_networks) sw.(m_in);;
  clear_ports sw.(m_virtual_networks) sw.(m_out).

(** ** The order of the links *)

(** [m_link_order[i].m_link = i, m_value = value]. *)
Definition set_order (this i value : Z) : W unit :=
  sw ← switch this;
  l ← lift (vset sw.(m_link_order) i (mkLinkOrder i value));
  set_switch this (fun s => s <| m_link_order := l |>).

Definition random : W Z := fun w => Ok (rand w.(w_draws), w <| w_draws ::= S |>).

(** How clogged the link [out] is: the messages in its buffers. *)
Fixpoint queue_length (ports : list Z) (vs : list Z) (n : Z) : W Z :=
  match vs with
  | [] => mret n
  | v :: vs' =>
      b ← lift (vget ports v);
      k ← on_buffer b (MessageBuffer.getSize m_clock);
      queue_length ports vs' (i32 (n + k))
  end.

Definition order_links (this vnet : Z) : W unit :=
  net ← gets network;
  sw ← switch this;
  if negb net.(m_adaptive_routing) then mret tt
  else
    ordered ← lift (vget net.(m_ordered) vnet);
    if (ordered : bool) then
      for_each (upto (Z.of_nat (length sw.(m_out)))) (fun out => set_order this out 0)
    else
      for_each (upto (Z.of_nat (length sw.(m_out)))) (fun out =>
        ports ← lift (vget sw.(m_out) out);
        out_queue_length ← queue_length ports (upto sw.(m_virtual_networks)) 0;
        r ← random;
        set_order this out (Z.lor (i32 (Z.shiftl out_queue_length 8)) (Z.land r 0xff)));;
      set_switch this (fun s => s <| m_link_order ::= sort |>).

(** ** Routing *)

(** The destinations not served yet, the links taken and what each of them
    serves. *)
Record Routing := mkRouting {
  msg_dsts : NetDest.t;
  output_links : list Z;
  output_link_destinations : list NetDest.t
}.

Definition route_step (table : list NetDest.t) (order : list LinkOrder) (i : Z) (r : Routing)
  : result Routing :=
  o ← vget order i;
  entry ← vget table o.(m_link);
  dst ← NetDest.copy entry;
  b ← NetDest.intersectionIsNotEmpty r.(msg_dsts) dst;
  if (b : bool) then
    both ← NetDest.AND r.(msg_dsts) dst;
    rest ← NetDest.removeNetDest r.(msg_dsts) dst;
    Ok (mkRouting rest (r.(output_links) ++ [o.(m_link)])
          (r.(output_link_destinations) ++ [both]))
  else Ok r.

Definition route (table : list NetDest.t) (order : list LinkOrder) (dsts : NetDest.t)
  : result Routing :=
  r ← NodeSet.loop (route_step table order) (upto (Z.of_nat (length table)))
        (mkRouting dsts [] []);
  n ← NetDest.count r.(msg_dsts);
  if n =? 0 then Ok r else Err (AssertFail "msg_dsts.count() == 0").

(** ** Forwarding *)
Definition out_buffer (sw : PerfectSwitch) (link vnet : Z) : result Z :=
  port ← vget sw.(m_out) link; vget port vnet.

Definition in_buffer (sw : PerfectSwitch) (port vnet : Z) : result Z :=
  p ← vget sw.(m_in) port; vget p vnet.

(** [areNSlotsAvailable(1)] of all the buffers, asked one by one. *)
Fixpoint enough_slots (bs : list Z) (enough : bool) : W bool :=
  match bs with
  | [] => mret enough
  | b :: bs' =>
      ok ← on_buffer b (MessageBuffer.areNSlotsAvailable m_clock 1);
      enough_slots bs' (enough && ok)
  end.

(** The first link takes the message itself, each further link a copy of the
    unmodified one. *)
Fixpoint send_copies (unmodified : option Z) (links : list (Z * NetDest.t)) : W unit :=
  match links with
  | [] => mret tt
  | (b, d) :: links' =>
      msg_ptr ← clone unmodified;
      setInternalDestination msg_ptr d;;
      on_buffer b (MessageBuffer.enqueue m_clock rand msg_ptr 1);;
      send_copies unmodified links'
  end.

Definition send (msg_ptr : option Z) (links : list (Z * NetDest.t)) : W unit :=
  unmodified ← match links with
               | _ :: _ :: _ => clone msg_ptr
               | _ => mret None
               end;
  match links with
  | [] => mret tt
  | (b, d) :: links' =>
      setInternalDestination msg_ptr d;;
      on_buffer b (MessageBuffer.enqueue m_clock rand msg_ptr 1);;
      send_copies unmodified links'
  end.

(** [m_pending_message_count[vnet]--]. *)
Definition forget_pending (this vnet : Z) : W unit :=
  sw ← switch this;
  k ← lift (vget sw.(m_pending_message_count) vnet);
  l ← lift (vset sw.(m_pending_message_count) vnet (i32 (k - 1)));
  set_switch this (fun s => s <| m_pending_message_count := l |>).

(** One round of the [while] loop over a buffer; [false] is the [break]. *)
Definition forward (this incoming vnet : Z) : W bool :=
  sw ← switch this;
  b ← lift (in_buffer sw incoming vnet);
  msg_ptr ← on_buffer b (MessageBuffer.peekMsgPtr m_clock);
  internal ← getInternalDestination msg_ptr;
  dsts ← lift (NetDest.copy internal);
  assert_ (length sw.(m_link_order) =? length sw.(m_routing_table))%nat
    "m_link_order.size() == m_routing_table.size()";;
  assert_ (length sw.(m_link_order) =? length sw.(m_out))%nat
    "m_link_order.size() == m_out.size()";;
  order_links this vnet;;
  sw ← switch this;
  r ← lift (route sw.(m_routing_table) sw.(m_link_order) dsts);
  outs ← lift (mapM (fun link => out_buffer sw link vnet) r.(output_links));
  enough ← enough_slots outs true;
  if negb enough then scheduleEvent m_clock this 1;; mret false
  else
    send msg_ptr (zip outs r.(output_link_destinations));;
    on_buffer b (MessageBuffer.pop m_clock);;
    forget_pending this vnet;;
    mret true.

(** The [while] loop.  Every round takes a message that has arrived off the
    buffer and puts none that has arrived into it, so the messages in the
    buffer bound the rounds. *)
Fixpoint forward_all (fuel : nat) (this incoming vnet : Z) : W unit :=
  match fuel with
  | O => fail (UB "non-terminating loop")
  | S fuel' =>
      sw ← switch this;
      b ← lift (in_buffer sw incoming vnet);
      ready ← on_buffer b (MessageBuffer.isReady m_clock);
      if (ready : bool) then
        go_on ← forward this incoming vnet;
        if (go_on : bool) then forward_all fuel' this incoming vnet else mret tt
      else mret tt
  end.

Definition messages_in (w : World) (id : Z) : nat :=
  match w.(buffers) !! id with
  | Some b => length b.(MessageBuffer.m_prio_heap)
  | None => O
  end.

(** [incoming++; if (incoming >= m_in.size()) incoming = 0]. *)
Definition next_port (sw : PerfectSwitch) (incoming : Z) : Z :=
  if Z.of_nat (length sw.(m_in)) <=? incoming + 1 then 0 else incoming + 1.

Fixpoint serve_ports (n : nat) (this incoming vnet : Z) : W unit :=
  match n with
  | O => mret tt
  | S n' =>
      sw ← switch this;
      let incoming := next_port sw incoming in
      b ← lift (in_buffer sw incoming vnet);
      fuel ← gets (fun w => S (messages_in w b));
      forward_all fuel this incoming vnet;;
      serve_ports n' this incoming vnet
  end.

Definition serve_vnet (this vnet : Z) : W unit :=
  sw ← switch this;
  let incoming := sw.(m_round_robin_start) in
  set_switch this (fun s => s <| m_round_robin_start := next_port sw incoming |>);;
  pending ← lift (vget sw.(m_pending_message_count) vnet);
  when (0 <? pending) (serve_ports (length sw.(m_in)) this incoming vnet).

Definition wakeup (this : Z) : W unit :=
  sw ← switch this;
  let n := sw.(m_wakeups_wo_switch) + 1 in
  let inverted := PRIORITY_SWITCH_LIMIT <? n in
  set_switch this (fun s => s <| m_wakeups_wo_switch := if inverted then 0 else n |>);;
  for_each (vnet_order sw.(m_virtual_networks) inverted) (serve_vnet this).

End switch.
End PerfectSwitch.
