(* ===== verification/Throttle.v ===== *)
(** * The links of a switch
    (class [Throttle], src/src/mem/ruby/network/simple/Throttle.hh and
    Throttle.cc).

    A throttle moves the messages of each virtual network from a buffer of the
    switch to a buffer at the other end of the link, as many as the bandwidth
    of a cycle allows; the rest of a message that does not fit into a cycle is
    charged to the next ones. *)

From S2P Require Import Prelude.
From S2P Require Import NodeSet.
From S2P Require Import NetDest.
From S2P Require Import MessageHeap.
From S2P Require Import MessageBuffer.
From S2P Require Import NetWorld.
From S2P Require Import PerfectSwitch.
Import NetWorld.

Module Throttle.

Definition MESSAGE_SIZE_MULTIPLIER : Z := 1000.
Definition PRIORITY_SWITCH_LIMIT : Z := 128.

(** [MessageSizeType_NUM] and the position of a type in the enumeration. *)
Definition MessageSizeType_NUM : Z := 18.
Definition size_index (s : MessageSizeType) : Z :=
  match s with
  | Undefined => 0 | Control => 1 | Data => 2 | Request_Control => 3 | Reissue_Control => 4
  | Response_Data => 5 | ResponseL2hit_Data => 6 | ResponseLocal_Data => 7
  | Response_Control => 8 | Writeback_Data => 9 | Writeback_Control => 10
  | Broadcast_Control => 11 | Multicast_Control => 12 | Forwarded_Control => 13
  | Invalidate_Control => 14 | Unblock_Control => 15 | Persistent_Control => 16
  | Completion_Control => 17
  end.

(** [getLinkBandwidth()]. *)
Definition getLinkBandwidth (t : Throttle) : Z :=
  i32 (t.(m_endpoint_bandwidth) * t.(m_link_bandwidth_multiplier)).

Section throttle.
Context (m_clock : Z) (rand : nat -> Z).

(** The constructor with [init] and [clearStats]. *)
Definition newThrottle (link_latency link_bandwidth_multiplier endpoint_bandwidth : Z)
  : W Throttle :=
  assert_ (0 <? link_bandwidth_multiplier) "link_bandwidth_multiplier > 0";;
  now ← getTime m_clock;
  mret (mkThrottle [] [] [] 0 [] link_bandwidth_multiplier link_latency 0 endpoint_bandwidth
          now []).

Definition clearStats (this : Z) : W unit :=
  throttle this;;
  now ← getTime m_clock;
  set_throttle this (fun t => t <| m_ruby_start := now |> <| m_links_utilized := [] |>
    <| m_message_counters ::= List.map (List.map (fun _ => 0)) |>).

Definition clear (this : Z) : W unit :=
  t ← throttle this;
  for_each (upto t.(m_vnets)) (fun counter =>
    i ← lift (vget t.(t_in) counter);
    on_buffer i MessageBuffer.clear;;
    o ← lift (vget t.(t_out) counter);
    on_buffer o MessageBuffer.clear).

Definition addVirtualNetwork (this in_ptr out_ptr : Z) : W unit :=
  throttle this;;
  set_throttle this (fun t => t <| m_units_remaining ::= fun l => l ++ [0] |>
    <| t_in ::= fun l => l ++ [in_ptr] |> <| t_out ::= fun l => l ++ [out_ptr] |>);;
  t ← throttle this;
  b ← lift (vget t.(t_in) t.(m_vnets));
  PerfectSwitch.setConsumer b this;;
  set_throttle this (fun t => t <| m_vnets ::= Z.add 1 |>).

Definition addLinks (this : Z) (in_vec out_vec : list Z) : W unit :=
  assert_ (length in_vec =? length out_vec)%nat "in_vec.size() == out_vec.size()";;
  for_each (zip in_vec out_vec) (fun io => addVirtualNetwork this io.1 io.2);;
  set_throttle this (fun t => t <| m_message_counters :=
    replicate (Z.to_nat MessageSizeType_NUM) (replicate (length in_vec) 0) |>).

(** [network_message_to_size]; [BROADCAST_SCALING] is 1. *)
Definition network_message_to_size (p : option Z) : W Z :=
  match p with
  | None => fail (AssertFail "net_msg_ptr != NULL")
  | Some _ =>
      qm ← net_message p;
      net ← gets network;
      size ← lift (MessageSizeType_to_int net qm.2.(messageSize));
      mret (i32 (size * MESSAGE_SIZE_MULTIPLIER))
  end.

(** ** One virtual network *)
Definition set_units (this vnet units : Z) : W unit :=
  t ← throttle this;
  l ← lift (vset t.(m_units_remaining) vnet units);
  set_throttle this (fun t => t <| m_units_remaining := l |>).

(** [m_message_counters[size][vnet]++]. *)
Definition count_message (this vnet : Z) (size : MessageSizeType) : W unit :=
  t ← throttle this;
  row ← lift (vget t.(m_message_counters) (size_index size));
  k ← lift (vget row vnet);
  row' ← lift (vset row vnet (i32 (k + 1)));
  rows ← lift (vset t.(m_message_counters) (size_index size) row');
  set_throttle this (fun t => t <| m_message_counters := rows |>).

(** Start on the next message: its size in units is charged to the link and
    the message moves to the other end. *)
Definition move_message (this vnet i o : Z) : W unit :=
  t ← throttle this;
  msg_ptr ← on_buffer i (MessageBuffer.peekMsgPtr m_clock);
  size ← network_message_to_size msg_ptr;
  units ← lift (vget t.(m_units_remaining) vnet);
  set_units this vnet (i32 (units + size));;
  again ← on_buffer i (MessageBuffer.peekMsgPtr m_clock);
  on_buffer o (MessageBuffer.enqueue m_clock rand again t.(m_link_latency));;
  on_buffer i (MessageBuffer.pop m_clock);;
  qm ← net_message msg_ptr;
  count_message this vnet qm.2.(messageSize).

(** [m_in[vnet]->isReady() || m_units_remaining[vnet] > 0], and the units. *)
Definition has_work (this vnet i : Z) : W (bool * bool * Z) :=
  ready ← on_buffer i (MessageBuffer.isReady m_clock);
  t ← throttle this;
  units ← lift (vget t.(m_units_remaining) vnet);
  mret (ready, ready || (0 <? units), units).

(** The [while] loop; the value is the bandwidth left.  A round that does not
    use it up either moves a message or finishes one, so twice the messages in
    the buffer, and two more, bound the rounds. *)
Fixpoint transfer (fuel : nat) (this vnet i o bw_remaining : Z) : W Z :=
  match fuel with
  | O => fail (UB "non-terminating loop")
  | S fuel' =>
      if negb (0 <? bw_remaining) then mret bw_remaining
      else
        wk ← has_work this vnet i;
        let '(ready, work, units) := wk in
        if negb work then mret bw_remaining
        else
          slot ← on_buffer o (MessageBuffer.areNSlotsAvailable m_clock 1);
          if negb slot then mret bw_remaining
          else
            when ((units =? 0) && ready) (move_message this vnet i o);;
            t ← throttle this;
            units ← lift (vget t.(m_units_remaining) vnet);
            let diff := i32 (units - bw_remaining) in
            set_units this vnet (Z.max 0 diff);;
            transfer fuel' this vnet i o (Z.max 0 (i32 (- diff)))
  end.

(** The body of the loop over the virtual networks: the bandwidth left and
    whether to wake up again. *)
Definition serve_vnet (this vnet bw_remaining : Z) (schedule_wakeup : bool) : W (Z * bool) :=
  t ← throttle this;
  o ← lift (vget t.(t_out) vnet);
  i ← lift (vget t.(t_in) vnet);
  units ← lift (vget t.(m_units_remaining) vnet);
  assert_ (0 <=? units) "m_units_remaining[vnet] >= 0";;
  fuel ← gets (fun w => 2 * PerfectSwitch.messages_in w i + 2)%nat;
  bw ← transfer fuel this vnet i o bw_remaining;
  if negb (0 <? bw) then mret (bw, schedule_wakeup)
  else
    wk ← has_work this vnet i;
    if negb wk.1.2 then mret (bw, schedule_wakeup)
    else
      slot ← on_buffer o (MessageBuffer.areNSlotsAvailable m_clock 1);
      mret (bw, schedule_wakeup || negb slot).

Fixpoint serve_vnets (this : Z) (vnets : list Z) (bw_remaining : Z) (schedule_wakeup : bool)
  : W (Z * bool) :=
  match vnets with
  | [] => mret (bw_remaining, schedule_wakeup)
  | vnet :: vnets' =>
      r ← serve_vnet this vnet bw_remaining schedule_wakeup;
      serve_vnets this vnets' r.1 r.2
  end.

Definition wakeup (this : Z) : W unit :=
  t ← throttle this;
  let bw := getLinkBandwidth t in
  assert_ (0 <? bw) "getLinkBandwidth() > 0";;
  let n := t.(t_wakeups_wo_switch) + 1 in
  let inverted := PRIORITY_SWITCH_LIMIT <? n in
  set_throttle this (fun t => t <| t_wakeups_wo_switch := if inverted then 0 else n |>);;
  r ← serve_vnets this (PerfectSwitch.vnet_order t.(m_vnets) inverted) bw false;
  let '(bw_remaining, schedule_wakeup) := r in
  set_throttle this (fun t => t <| m_links_utilized ::= cons (bw_remaining, bw) |>);;
  if (0 <? bw_remaining) && negb schedule_wakeup then mret tt
  else scheduleEvent m_clock this 1.

End throttle.
End Throttle.
