(* ===== verification/NetWorldOps.v ===== *)
(** * The network's store

    The invariant of buffers and messages ([NetWorldSpec]) and the
    operations on them ([NetWorldOps]). *)

From S2P Require Import Prelude.
From S2P Require Import NodeSet.
From S2P Require Import NetDest.
From S2P Require Import NetDestSpec.
From S2P Require Import NetDestRefines.
From S2P Require Import MessageHeap.
From S2P Require Import MessageBufferFifo.
From S2P Require Import MessageBuffer.
From S2P Require Import NetWorld.

(** * Buffers and messages in the store

    The invariant of the network's objects and what putting a message into a
    buffer and taking one out do to it.  [carried] counts the copies of a
    message that still have a machine to reach; the theorems about switches and
    links show that this number does not change on the way. *)
Module NetWorldSpec.
Import MessageHeap MessageBuffer NetWorld.

(** ** Sums over the objects of a store *)
Definition sum_over {A} (f : Z -> A -> nat) (m : gmap Z A) : nat :=
  sum_list_with snd (map_to_list (map_imap (fun i a => Some (f i a)) m)).

Section sums.
Context {A : Type}.
Implicit Types (f g : Z -> A -> nat) (m : gmap Z A).

Lemma sum_with_perm (l l' : list (Z * nat)) :
  l ≡ₚ l' -> sum_list_with snd l = sum_list_with snd l'.
Proof. induction 1; cbn; lia. Qed.

Lemma sum_over_fresh f m i a : m !! i = None ->
  sum_over f (<[i := a]> m) = (f i a + sum_over f m)%nat.
Proof.
  intros Hi. unfold sum_over. rewrite (map_imap_insert_Some _ i a m (f i a)) by done.
  erewrite sum_with_perm; [|apply map_to_list_insert; by rewrite map_lookup_imap, Hi]. done.
Qed.

Lemma sum_over_delete f m i a : m !! i = Some a ->
  sum_over f m = (f i a + sum_over f (delete i m))%nat.
Proof.
  intros Hi. rewrite <- (insert_delete_id m i a Hi) at 1. apply sum_over_fresh.
  apply lookup_delete_eq.
Qed.

Lemma sum_over_insert f m i a b : m !! i = Some a ->
  (sum_over f (<[i := b]> m) + f i a = sum_over f m + f i b)%nat.
Proof.
  intros Hi. rewrite (sum_over_delete f m i a Hi).
  rewrite <- (insert_delete_eq m i b), sum_over_fresh by apply lookup_delete_eq. lia.
Qed.

(** The terms are the same, object by object. *)
Lemma sum_over_pointwise f g m m' :
  (forall i, option_Forall2 (fun a b => f i a = g i b) (m !! i) (m' !! i)) ->
  sum_over f m = sum_over g m'.
Proof.
  intros Hfg. unfold sum_over. do 2 f_equal. apply map_eq. intros i.
  rewrite !map_lookup_imap. destruct (Hfg i); cbn; congruence.
Qed.

Lemma sum_over_ext f g m :
  (forall i a, m !! i = Some a -> f i a = g i a) -> sum_over f m = sum_over g m.
Proof.
  intros Hfg. apply sum_over_pointwise. intros i. destruct (m !! i) eqn:E; constructor. auto.
Qed.

Lemma sum_over_ge f m i a : m !! i = Some a -> (f i a <= sum_over f m)%nat.
Proof. intros Hi. rewrite (sum_over_delete f m i a Hi). lia. Qed.

Lemma sum_over_ge2 f m i j a b : i <> j -> m !! i = Some a -> m !! j = Some b ->
  (f i a + f j b <= sum_over f m)%nat.
Proof.
  intros Hij Hi Hj. rewrite (sum_over_delete f m i a Hi).
  assert (delete i m !! j = Some b) as Hj' by (by rewrite lookup_delete_ne).
  pose proof (sum_over_ge f _ j b Hj'). lia.
Qed.

Lemma sum_over_0 f m : sum_over f m = 0%nat <-> forall i a, m !! i = Some a -> f i a = 0%nat.
Proof.
  split.
  - intros H i a Hi. pose proof (sum_over_ge f m i a Hi). lia.
  - intros Hf. induction m as [|i a m Hi IH] using map_ind; [done|].
    rewrite sum_over_fresh, (Hf i a) by (done || apply lookup_insert_eq). cbn. apply IH.
    intros j b Hj. apply Hf. rewrite lookup_insert_ne; [done|]. congruence.
Qed.
End sums.

(** ** Counting nodes *)
Abbreviation heap_of := MessageBuffer.m_prio_heap (only parsing).

Definition occurs (q : Z) (b : Buffer) : nat :=
  length (filter (fun n => m_msgptr n = Some q) (heap_of b)).

Lemma count_perm (P : MessageBufferNode -> Prop) `{!forall n, Decision (P n)} l l' :
  l ≡ₚ l' -> length (filter P l) = length (filter P l').
Proof. intros Hp. by rewrite Hp. Qed.

Lemma count_cons (P : MessageBufferNode -> Prop) `{!forall n, Decision (P n)} n l :
  length (filter P (n :: l)) = ((if decide (P n) then 1 else 0) + length (filter P l))%nat.
Proof. rewrite filter_cons. by case_decide. Qed.

Lemma count_ext (P Q : MessageBufferNode -> Prop) `{!forall n, Decision (P n)}
  `{!forall n, Decision (Q n)} l :
  (forall n, n ∈ l -> P n <-> Q n) -> length (filter P l) = length (filter Q l).
Proof.
  induction l as [|n l IH]; intros Hpq; [done|]. rewrite !count_cons.
  rewrite IH by (intros; apply Hpq; by right). f_equal.
  pose proof (Hpq n (list_elem_of_here n l)). repeat case_decide; tauto.
Qed.

Lemma count_0 (P : MessageBufferNode -> Prop) `{!forall n, Decision (P n)} l :
  length (filter P l) = 0%nat <-> forall n, n ∈ l -> ~ P n.
Proof.
  induction l as [|n l IH]; [split; [intros _ n Hn; by apply elem_of_nil in Hn|done]|].
  rewrite count_cons. setoid_rewrite elem_of_cons. case_decide; naive_solver lia.
Qed.

Lemma occurs_0 q b : occurs q b = 0%nat <-> forall n, n ∈ heap_of b -> m_msgptr n <> Some q.
Proof. apply count_0. Qed.

(** ** What blank and load keep *)
Lemma blank_load w id b : blank (load w id b) = blank b.
Proof. done. Qed.

Lemma blank_iff b : blank b = b <->
  (b.(m_consumer_set) = false /\ b.(m_scheduled_wakeups) = ∅ /\ b.(messages) = ∅ /\
   b.(wakeups) = [] /\ b.(event_infos) = [] /\ b.(MessageBuffer.curTick) = 0 /\
   b.(system_randomization) = false /\ b.(warmup_enabled) = false /\ b.(draws) = 0%nat).
Proof.
  destruct b. unfold blank. cbn. split.
  - intros E. injection E. intros. subst. repeat split.
  - intros (->&->&->&->&->&->&->&->&->). reflexivity.
Qed.

Lemma blank_idemp b : blank (blank b) = blank b.
Proof. apply blank_iff. repeat split. Qed.

Lemma load_blank w id b : load w id (blank b) = load w id b.
Proof. done. Qed.

(** ** The members of a buffer that is loaded, stored or written to

    These equations, and not conversion, take the members of such buffers:
    comparing two buffers member by member is too slow. *)
Section members.
Context (w : World) (id : Z) (b : Buffer).

Lemma load_m_prio_heap : (load w id b).(m_prio_heap) = b.(m_prio_heap).
Proof. reflexivity. Qed.
Lemma blank_m_prio_heap : (blank b).(m_prio_heap) = b.(m_prio_heap).
Proof. reflexivity. Qed.
Lemma load_m_counter : (load w id b).(m_counter) = b.(m_counter).
Proof. reflexivity. Qed.
Lemma blank_m_counter : (blank b).(m_counter) = b.(m_counter).
Proof. reflexivity. Qed.
Lemma load_m_strict_fifo : (load w id b).(m_strict_fifo) = b.(m_strict_fifo).
Proof. reflexivity. Qed.
Lemma blank_m_strict_fifo : (blank b).(m_strict_fifo) = b.(m_strict_fifo).
Proof. reflexivity. Qed.
Lemma load_m_last_arrival_time : (load w id b).(m_last_arrival_time) = b.(m_last_arrival_time).
Proof. reflexivity. Qed.
Lemma blank_m_last_arrival_time : (blank b).(m_last_arrival_time) = b.(m_last_arrival_time).
Proof. reflexivity. Qed.
Lemma load_m_vnet_id : (load w id b).(m_vnet_id) = b.(m_vnet_id).
Proof. reflexivity. Qed.
Lemma blank_m_vnet_id : (blank b).(m_vnet_id) = b.(m_vnet_id).
Proof. reflexivity. Qed.
Lemma load_m_ordering_set : (load w id b).(m_ordering_set) = b.(m_ordering_set).
Proof. reflexivity. Qed.
Lemma blank_m_ordering_set : (blank b).(m_ordering_set) = b.(m_ordering_set).
Proof. reflexivity. Qed.
Lemma load_m_randomization : (load w id b).(m_randomization) = b.(m_randomization).
Proof. reflexivity. Qed.
Lemma blank_m_randomization : (blank b).(m_randomization) = b.(m_randomization).
Proof. reflexivity. Qed.
Lemma load_m_consumer_set : (load w id b).(m_consumer_set) = bool_decide (is_Some (w.(consumer_of) !! id)).
Proof. reflexivity. Qed.
Lemma load_m_scheduled_wakeups : (load w id b).(m_scheduled_wakeups) = wakeups_of w id.
Proof. reflexivity. Qed.
Lemma load_messages : (load w id b).(messages) = w.(w_messages).
Proof. reflexivity. Qed.
Lemma load_wakeups : (load w id b).(wakeups) = [].
Proof. reflexivity. Qed.
Lemma load_event_infos : (load w id b).(event_infos) = [].
Proof. reflexivity. Qed.
Lemma load_curTick : (load w id b).(MessageBuffer.curTick) = w.(w_tick).
Proof. reflexivity. Qed.
Lemma load_system_randomization : (load w id b).(system_randomization) = w.(w_randomization).
Proof. reflexivity. Qed.
Lemma load_warmup_enabled : (load w id b).(warmup_enabled) = w.(w_warmup).
Proof. reflexivity. Qed.
Lemma load_draws : (load w id b).(draws) = w.(w_draws).
Proof. reflexivity. Qed.

Context (m_clock q : Z) (m : Message) (a : Z) (h : list MessageBufferNode) (wk : gset Z) (ws : list Z).
Abbreviation written := (MessageBufferSpec.with_message m_clock b q m a h wk ws).

Lemma written_m_prio_heap : written.(m_prio_heap) = h.
Proof. reflexivity. Qed.
Lemma written_m_counter : written.(m_counter) = b.(m_counter) + 1.
Proof. reflexivity. Qed.
Lemma written_m_strict_fifo : written.(m_strict_fifo) = b.(m_strict_fifo).
Proof. reflexivity. Qed.
Lemma written_m_last_arrival_time : written.(m_last_arrival_time) = a.
Proof. reflexivity. Qed.
Lemma written_m_vnet_id : written.(m_vnet_id) = b.(m_vnet_id).
Proof. reflexivity. Qed.
Lemma written_m_ordering_set : written.(m_ordering_set) = b.(m_ordering_set).
Proof. reflexivity. Qed.
Lemma written_m_randomization : written.(m_randomization) = b.(m_randomization).
Proof. reflexivity. Qed.
Lemma written_m_consumer_set : written.(m_consumer_set) = b.(m_consumer_set).
Proof. reflexivity. Qed.
Lemma written_m_scheduled_wakeups : written.(m_scheduled_wakeups) = wk.
Proof. reflexivity. Qed.
Lemma written_wakeups : written.(wakeups) = ws.
Proof. reflexivity. Qed.
Lemma written_event_infos : written.(event_infos) = b.(m_vnet_id) :: b.(event_infos).
Proof. reflexivity. Qed.
Lemma written_curTick : written.(MessageBuffer.curTick) = b.(MessageBuffer.curTick).
Proof. reflexivity. Qed.
Lemma written_draws : written.(draws) = b.(draws).
Proof. reflexivity. Qed.
Lemma written_messages : written.(messages) = <[q := mkMessage a (i32 (MessageBufferSpec.now m_clock b - m.(m_LastEnqueueTime)
    + m.(m_DelayedCycles)))]> b.(messages).
Proof. reflexivity. Qed.
End members.

Create Rewrite HintDb members.
#[export] Hint Rewrite load_m_prio_heap blank_m_prio_heap load_m_counter blank_m_counter load_m_strict_fifo
  blank_m_strict_fifo load_m_last_arrival_time blank_m_last_arrival_time load_m_vnet_id
  blank_m_vnet_id load_m_ordering_set blank_m_ordering_set load_m_randomization
  blank_m_randomization load_m_consumer_set load_m_scheduled_wakeups load_messages
  load_wakeups load_event_infos load_curTick load_system_randomization
  load_warmup_enabled load_draws written_m_prio_heap written_m_counter
  written_m_strict_fifo written_m_last_arrival_time written_m_vnet_id
  written_m_ordering_set written_m_randomization written_m_consumer_set
  written_m_scheduled_wakeups written_wakeups written_event_infos written_curTick
  written_draws written_messages : members.

Lemma elem_scheduled w c t : t ∈ scheduled w c <-> (c, t) ∈ w.(marks).
Proof.
  unfold scheduled. rewrite elem_of_map. setoid_rewrite elem_of_filter. split.
  - intros ([c' t'] & -> & Hc & Hin). cbn in *. by subst.
  - intros Hin. by exists (c, t).
Qed.

Section world.
#[local] Set Default Proof Using "Type".
Context {MT : MachineTypes} {MTL : MachineTypeLaws}.
Context (m_clock : Z) (rand : nat -> Z).
Import NetDestSpec.

Definition now (w : World) : Z := w.(w_tick) / m_clock.

(** The machines a message has still to reach. *)
Definition dests (nm : NetworkMessage) : gset MachineID :=
  bits (if nm.(m_internal_dest_valid) then nm.(m_internal_dest) else nm.(destination)).

(** The destinations are well formed and the protocol has set the size. *)
Definition msg_ok (nm : NetworkMessage) : Prop :=
  ok nm.(m_internal_dest) /\ ok nm.(destination) /\ nm.(messageSize) <> Undefined.

(** The node carries the message with this payload on its way to [e]. *)
Definition carries (w : World) (k : Z) (e : MachineID) (n : MessageBufferNode) : Prop :=
  match m_msgptr n ≫= (fun q => w.(net_messages) !! q) with
  | Some nm => nm.(payload) = k /\ e ∈ dests nm
  | None => False
  end.

#[export] Instance carries_dec w k e n : Decision (carries w k e n).
Proof. unfold carries. destruct (_ ≫= _); apply _. Defined.

Definition carried (w : World) (k : Z) (e : MachineID) : nat :=
  sum_over (fun _ b => length (filter (carries w k e) (heap_of b))) w.(buffers).

(** The messages in the buffers whose consumer and virtual network [f]
    selects; those that [c] has to expect on network [v], and all of [c]. *)
Definition mail (f : Z -> Z -> bool) (w : World) : nat :=
  sum_over (fun id b => match w.(consumer_of) !! id with
                        | Some c => if f c b.(m_vnet_id) then length (heap_of b) else 0%nat
                        | None => 0%nat
                        end) w.(buffers).

Definition expected (w : World) (c v : Z) : nat := mail (fun c' v' => (c' =? c) && (v' =? v)) w.

Definition inflow (w : World) (c : Z) : nat := mail (fun c' _ => c' =? c) w.

(** ** The invariant

    [reach id] are the machines that messages in buffer [id] may have to
    reach, [delay id] the cycles a message put into it takes. *)
Context (reach : Z -> gset MachineID) (delay : Z -> Z).

Record node_ok (w : World) (id : Z) (n : MessageBufferNode) (q : Z) (m : Message)
  (nm : NetworkMessage) : Prop := {
  n_ptr : m_msgptr n = Some q;
  n_msg : w.(w_messages) !! q = Some m;
  n_time : m.(m_LastEnqueueTime) <= m_time n;
  n_net : w.(net_messages) !! q = Some nm;
  n_ok : msg_ok nm;
  n_reach : dests nm ⊆ reach id;
  n_old : q < w.(next_message)
}.

Record buffer_ok (w : World) (id : Z) (b : Buffer) : Prop := {
  o_blank : blank b = b;
  o_buf : MessageBufferSpec.buf_ok m_clock (load w id b);
  o_cfg : MessageBufferSpec.configured (load w id b);
  o_fifo : b.(m_strict_fifo) = true -> b.(m_last_arrival_time) <= now w + delay id;
  o_nodes n : n ∈ heap_of b -> exists q m nm, node_ok w id n q m nm
}.

Record world_ok (w : World) : Prop := {
  w_buffers id b : w.(buffers) !! id = Some b -> buffer_ok w id b;
  w_unique q : (sum_over (fun _ => occurs q) w.(buffers) <= 1)%nat;
  w_vnets id b c sw : w.(buffers) !! id = Some b -> w.(consumer_of) !! id = Some c ->
    w.(switches) !! c = Some sw -> 0 <= b.(m_vnet_id) < Z.of_nat (length sw.(m_pending_message_count))
}.

(** A switch knows how many messages are on their way to it. *)
Definition pending_ok (w : World) : Prop :=
  forall c sw v k, w.(switches) !! c = Some sw ->
    vget sw.(m_pending_message_count) v = Ok k -> k = i32 (Z.of_nat (expected w c v)).

(** A message that is in no buffer. *)
Definition loose (w : World) (q : Z) : Prop :=
  q < w.(next_message) /\ forall id b, w.(buffers) !! id = Some b -> occurs q b = 0%nat.

(** ** Quiet operations: those that change nothing but the buffer *)
Lemma wakeups_marked w id c : w.(consumer_of) !! id = Some c ->
  set_map (pair c) (wakeups_of w id) ⊆@{gset (Z * Z)} w.(marks).
Proof.
  intros Hc [c' t] Hin. apply elem_of_map in Hin as (t' & [= -> ->] & Ht).
  unfold wakeups_of in Ht. rewrite Hc in Ht. by apply elem_scheduled.
Qed.

Lemma store_quiet w id b' :
  event_infos b' = [] -> wakeups b' = [] -> messages b' = w.(w_messages) ->
  draws b' = w.(w_draws) -> m_scheduled_wakeups b' = wakeups_of w id ->
  store w id b' = Ok (w <| buffers ::= <[id := blank b']> |>).
Proof.
  intros E1 E2 E3 E4 E5. unfold store. cbn. rewrite E1, E2, E3, E4, E5. cbn.
  destruct (consumer_of w !! id) as [c|] eqn:Hc.
  - cbn. f_equal. assert (set_map (pair c) (wakeups_of w id) ∪ w.(marks) = w.(marks)) as ->.
    { by apply subseteq_union_1_L, wakeups_marked. }
    by destruct w.
  - f_equal; by destruct w.
Qed.

Lemma on_quiet {A} (m : M Buffer A) w id b a b' :
  w.(buffers) !! id = Some b -> m (load w id b) = Ok (a, b') ->
  event_infos b' = [] -> wakeups b' = [] -> messages b' = w.(w_messages) ->
  draws b' = w.(w_draws) -> m_scheduled_wakeups b' = wakeups_of w id ->
  on_buffer id m w = Ok (a, w <| buffers ::= <[id := blank b']> |>).
Proof.
  intros Hb Hm E1 E2 E3 E4 E5. unfold on_buffer. rewrite Hb, Hm, bind_Ok_run. cbn.
  by rewrite store_quiet.
Qed.

Lemma on_reading {A} (m : M Buffer A) w id b a :
  w.(buffers) !! id = Some b -> blank b = b -> m (load w id b) = Ok (a, load w id b) ->
  on_buffer id m w = Ok (a, w).
Proof.
  intros Hb Hbl Hm. rewrite (on_quiet m w id b a (load w id b)) by done.
  rewrite blank_load, Hbl. do 2 f_equal. destruct w. cbn in *. unfold set_field; cbn.
  f_equal. by apply insert_id.
Qed.

(** ** What keeps a buffer as it is *)
Record around (w w' : World) : Prop := {
  a_consumers : w'.(consumer_of) = w.(consumer_of);
  a_marks : w.(marks) ⊆ w'.(marks);
  a_tick : w'.(w_tick) = w.(w_tick);
  a_random : w'.(w_randomization) = w.(w_randomization);
  a_warmup : w'.(w_warmup) = w.(w_warmup);
  a_next : w.(next_message) <= w'.(next_message)
}.

Lemma around_refl w : around w w.
Proof. by split. Qed.

Lemma around_trans w1 w2 w3 : around w1 w2 -> around w2 w3 -> around w1 w3.
Proof. intros [] []. split; [congruence|by etrans|congruence..|by etrans]. Qed.

Lemma around_wakeups w w' id : around w w' -> wakeups_of w id ⊆ wakeups_of w' id.
Proof.
  intros []. unfold wakeups_of. rewrite a_consumers0. destruct (_ !! id) as [c|]; [|done].
  intros t. rewrite !elem_scheduled. apply a_marks0.
Qed.

Lemma buf_ok_around w w' id b : around w w' ->
  MessageBufferSpec.buf_ok m_clock (load w id b) ->
  MessageBufferSpec.buf_ok m_clock (load w' id b).
Proof.
  intros F []. pose proof (around_wakeups w w' id F). destruct F.
  split; try done.
  - cbn in *. by rewrite a_consumers0.
  - unfold MessageBufferSpec.now in *. cbn in *. rewrite a_tick0. intros n Hn Ht. auto.
Qed.

(** The nodes of the buffer keep their messages. *)
Definition keeps (w w' : World) (b : Buffer) : Prop :=
  forall q, occurs q b <> 0%nat -> w'.(w_messages) !! q = w.(w_messages) !! q /\
    w'.(net_messages) !! q = w.(net_messages) !! q.

Lemma node_occurs n q b : n ∈ heap_of b -> m_msgptr n = Some q -> occurs q b <> 0%nat.
Proof. intros Hn Hq H0. rewrite occurs_0 in H0. by apply (H0 n). Qed.

Lemma buffer_ok_around w w' id b : around w w' -> keeps w w' b ->
  buffer_ok w id b -> buffer_ok w' id b.
Proof.
  intros F K []. split; [done|by apply (buf_ok_around w)|..].
  - destruct o_cfg0, F. split; cbn in *; congruence.
  - unfold now. by rewrite (a_tick _ _ F).
  - intros n Hn. destruct (o_nodes0 n Hn) as (q & m & nm & []).
    destruct (K q (node_occurs n q b Hn n_ptr0)) as [E1 E2].
    exists q, m, nm. split; try done; [by rewrite E1|by rewrite E2|]. pose proof (a_next _ _ F). lia.
Qed.

Lemma carries_keeps w w' b k e n : keeps w w' b -> n ∈ heap_of b ->
  carries w k e n <-> carries w' k e n.
Proof.
  intros K Hn. unfold carries. destruct (m_msgptr n) as [q|] eqn:Hq; [|done]. cbn.
  by destruct (K q (node_occurs n q b Hn Hq)) as [_ ->].
Qed.

(** ** Calm operations: the mail stays where it is *)
Record tuned (b b' : Buffer) : Prop := {
  u_heap : b'.(m_prio_heap) = b.(m_prio_heap);
  u_counter : b'.(m_counter) = b.(m_counter);
  u_strict : b'.(m_strict_fifo) = b.(m_strict_fifo);
  u_last : b'.(m_last_arrival_time) = b.(m_last_arrival_time);
  u_vnet : b'.(m_vnet_id) = b.(m_vnet_id);
  u_ordering : b'.(m_ordering_set) = b.(m_ordering_set);
  u_random : b'.(m_randomization) = b.(m_randomization);
  u_blank : blank b = b -> blank b' = b'
}.

Lemma tuned_refl b : tuned b b.
Proof. by split. Qed.

Lemma tuned_trans b1 b2 b3 : tuned b1 b2 -> tuned b2 b3 -> tuned b1 b3.
Proof. intros [] []. split; [congruence..|]. auto. Qed.

Lemma tuned_blank b b' : tuned b b' -> tuned b (blank b').
Proof. intros []. split; [assumption..|]. intros _. apply blank_idemp. Qed.

Record calm (w w' : World) : Prop := {
  l_around : around w w';
  l_messages : w'.(w_messages) = w.(w_messages);
  l_net : w'.(net_messages) = w.(net_messages);
  l_next : w'.(next_message) = w.(next_message);
  l_throttles : w'.(throttles) = w.(throttles);
  l_network : w'.(network) = w.(network);
  l_pending c : m_pending_message_count <$> w'.(switches) !! c =
                m_pending_message_count <$> w.(switches) !! c;
  l_buffers id : option_Forall2 tuned (w.(buffers) !! id) (w'.(buffers) !! id)
}.

Lemma calm_refl w : calm w w.
Proof.
  split; try done. intros id. destruct (_ !! id); constructor. apply tuned_refl.
Qed.

Lemma calm_trans w1 w2 w3 : calm w1 w2 -> calm w2 w3 -> calm w1 w3.
Proof.
  intros [] []. split; try congruence.
  - by eapply around_trans.
  - intros id. specialize (l_buffers0 id). specialize (l_buffers1 id).
    destruct l_buffers0; inversion l_buffers1; constructor. by eapply tuned_trans.
Qed.

Lemma calm_buffer w w' id b' : calm w w' -> w'.(buffers) !! id = Some b' ->
  exists b, w.(buffers) !! id = Some b /\ tuned b b'.
Proof.
  intros C Hb. pose proof (l_buffers _ _ C id) as R. rewrite Hb in R. inversion R. eauto.
Qed.

Lemma calm_sum (f g : Z -> Buffer -> nat) w w' : calm w w' ->
  (forall id b b', tuned b b' -> w.(buffers) !! id = Some b -> f id b = g id b') ->
  sum_over f w.(buffers) = sum_over g w'.(buffers).
Proof.
  intros C Hfg. apply sum_over_pointwise. intros id. pose proof (l_buffers _ _ C id) as R.
  destruct (w.(buffers) !! id) eqn:E; inversion R; constructor. by apply Hfg.
Qed.

Lemma calm_carried w w' k e : calm w w' -> carried w' k e = carried w k e.
Proof.
  intros C. symmetry. apply (calm_sum _ _ w w' C). intros id b b' U Hb.
  rewrite (u_heap _ _ U). apply count_ext. intros n _. unfold carries.
  by rewrite (l_net _ _ C).
Qed.

Lemma calm_mail f w w' : calm w w' -> mail f w' = mail f w.
Proof.
  intros C. symmetry. apply (calm_sum _ _ w w' C). intros id b b' U Hb.
  rewrite (u_heap _ _ U), (u_vnet _ _ U), (a_consumers _ _ (l_around _ _ C)). done.
Qed.

Lemma calm_ok w w' : calm w w' -> world_ok w -> world_ok w'.
Proof.
  intros C []. pose proof (l_around _ _ C) as F. split.
  - intros id b' Hb'. destruct (calm_buffer w w' id b' C Hb') as (b & Hb & U).
    assert (buffer_ok w' id b) as [].
    { apply (buffer_ok_around w); [done| |by apply w_buffers0]. intros q _.
      by rewrite (l_messages _ _ C), (l_net _ _ C). }
    destruct U. split; try auto.
    + destruct o_buf0. split; cbn in *; rewrite ?u_heap0, ?u_counter0; done.
    + destruct o_cfg0. split; cbn in *; rewrite ?u_ordering0, ?u_random0; done.
    + by rewrite u_strict0, u_last0.
    + by rewrite u_heap0.
  - intros q. rewrite <- (calm_sum (fun _ => occurs q) _ w w' C); [done|].
    intros id b b' U _. unfold occurs. by rewrite (u_heap _ _ U).
  - intros id b' c sw' Hb' Hcons Hsw. destruct (calm_buffer w w' id b' C Hb') as (b & Hb & U).
    rewrite (a_consumers _ _ F) in Hcons. rewrite (u_vnet _ _ U).
    pose proof (l_pending _ _ C c) as E. rewrite Hsw in E.
    destruct (w.(switches) !! c) as [sw|] eqn:Hc; [|done]. injection E as E. rewrite E.
    by apply (w_vnets0 id b c sw).
Qed.

Lemma calm_pending w w' : calm w w' -> pending_ok w -> pending_ok w'.
Proof.
  intros C Hw c sw' v k Hsw Hk. unfold expected. rewrite (calm_mail _ w w' C).
  pose proof (l_pending _ _ C c) as E. rewrite Hsw in E.
  destruct (w.(switches) !! c) as [sw|] eqn:Hc; [|done]. injection E as E. rewrite E in Hk.
  by apply (Hw c sw).
Qed.

(** Operations that touch nothing but the books of some buffers. *)
Definition still (w w' : World) : Prop :=
  exists bs, w' = w <| buffers := bs |> /\
    forall id, option_Forall2 tuned (w.(buffers) !! id) (bs !! id).

Lemma still_refl w : still w w.
Proof.
  exists w.(buffers). split; [by destruct w|]. intros id.
  destruct (_ !! id); constructor. apply tuned_refl.
Qed.

Lemma still_trans w1 w2 w3 : still w1 w2 -> still w2 w3 -> still w1 w3.
Proof.
  intros (b2 & -> & H2) (b3 & -> & H3). exists b3. split; [done|]. intros id.
  specialize (H2 id). specialize (H3 id). cbn in H3.
  destruct H2; inversion H3; constructor. by eapply tuned_trans.
Qed.

Lemma still_calm w w' : still w w' -> calm w w'.
Proof. intros (bs & -> & Hbs). by split. Qed.

Definition set_buf (id : Z) (b : Buffer) (w : World) : World := w <| buffers ::= <[id := b]> |>.

Lemma still_tune w id b b' : w.(buffers) !! id = Some b -> tuned b b' ->
  still w (set_buf id b' w).
Proof.
  intros Hb U. eexists. split; [done|]. intros j. cbn. destruct (decide (j = id)) as [->|Hne].
  - rewrite Hb, lookup_insert_eq. by constructor.
  - rewrite lookup_insert_ne by done. destruct (_ !! j); constructor. apply tuned_refl.
Qed.

Lemma slots_still w id b : w.(buffers) !! id = Some b ->
  exists r w', on_buffer id (areNSlotsAvailable m_clock 1) w = Ok (r, w') /\ still w w'.
Proof.
  intros Hb.
  assert (exists r b', areNSlotsAvailable m_clock 1 (load w id b) = Ok (r, load w id b') /\
    tuned b b') as (r & b' & Hr & U).
  { unfold areNSlotsAvailable. rewrite get_run. destruct (_ =? -1).
    { exists true, b. split; [reflexivity|apply tuned_refl]. }
    rewrite MessageBufferSpec.getTime_run. destruct (_ <=? _).
    { exists true, b. split; [reflexivity|apply tuned_refl]. }
    eexists false, (b <| m_not_avail_count ::= fun k => i32 (k + 1) |>).
    split; [reflexivity|]. split; try reflexivity. rewrite !blank_iff. intros E. exact E. }
  exists r, (set_buf id (blank b') w). split.
  { exact (on_quiet _ w id b r (load w id b') Hb Hr eq_refl eq_refl eq_refl eq_refl eq_refl). }
  apply (still_tune w id b); [exact Hb|]. by apply tuned_blank.
Qed.

Lemma size_still w id b : w.(buffers) !! id = Some b ->
  exists r w', on_buffer id (getSize m_clock) w = Ok (r, w') /\ still w w'.
Proof.
  intros Hb.
  assert (exists r b', getSize m_clock (load w id b) = Ok (r, load w id b') /\
    tuned b b') as (r & b' & Hr & U).
  { unfold getSize. rewrite MessageBufferSpec.getTime_run, get_run. destruct (_ =? _).
    { eexists _, b. split; [reflexivity|apply tuned_refl]. }
    eexists _, (b <| m_time_last_time_size_checked := MessageBufferSpec.now m_clock (load w id b) |>
                  <| m_size_last_time_size_checked := b.(m_size) |>).
    split; [reflexivity|]. split; try reflexivity. rewrite !blank_iff. intros E. exact E. }
  exists r, (set_buf id (blank b') w). split.
  { exact (on_quiet _ w id b r (load w id b') Hb Hr eq_refl eq_refl eq_refl eq_refl eq_refl). }
  apply (still_tune w id b); [exact Hb|]. by apply tuned_blank.
Qed.

End world.
End NetWorldSpec.

(** * Moving messages between buffers

    What taking the head of a buffer, putting a message into a buffer and
    copying a message do to the store. *)
Module NetWorldOps.
Import MessageHeap MessageHeapSpec MessageBuffer NetWorld NetWorldSpec.
Import MessageBufferSpec (isReady_run, without_head, getTime_run).

Definition bit (P : Prop) `{Decision P} : nat := if decide P then 1 else 0.

Lemma bit_iff (P Q : Prop) `{Decision P} `{Decision Q} : (P <-> Q) -> bit P = bit Q.
Proof. intros HPQ. unfold bit. repeat case_decide; tauto. Qed.

Lemma count_bit (P : MessageBufferNode -> Prop) `{!forall n, Decision (P n)} n l :
  length (filter P (n :: l)) = (bit (P n) + length (filter P l))%nat.
Proof. apply count_cons. Qed.

Lemma insert_as_alter {A} (f : A -> A) (l : list A) i x :
  l !! i = Some x -> <[i := f x]> l = alter f i l.
Proof.
  intros Hi. apply list_eq. intros j. destruct (decide (j = i)) as [->|Hne].
  - rewrite list_lookup_insert_eq by (by eapply lookup_lt_Some).
    by rewrite list_lookup_alter_eq, Hi.
  - by rewrite list_lookup_insert_ne, list_lookup_alter_ne by done.
Qed.

Lemma alter_lookup_None {A} (f : A -> A) (m : gmap Z A) i : m !! i = None -> alter f i m = m.
Proof.
  intros Hi. apply map_eq. intros j. destruct (decide (j = i)) as [->|Hne].
  - by rewrite lookup_alter_eq, Hi.
  - by rewrite lookup_alter_ne by done.
Qed.

Section ops.
#[local] Set Default Proof Using "Type".
Context {MT : MachineTypes} {MTL : MachineTypeLaws}.
Context (m_clock : Z) (rand : nat -> Z).
Context (reach : Z -> gset MachineID) (delay : Z -> Z).
Import NetDestSpec.

Abbreviation world_ok := (world_ok m_clock reach delay).
Abbreviation buffer_ok := (buffer_ok m_clock reach delay).
Abbreviation now := (now m_clock).

(** ** The head of a buffer *)
Definition head_of (b : Buffer) : option MessageBufferNode := head b.(m_prio_heap).

Definition arrived (w : World) (b : Buffer) : option MessageBufferNode :=
  n ← head_of b; if m_time n <=? now w then Some n else None.

Lemma ready_run w id b : w.(buffers) !! id = Some b -> buffer_ok w id b ->
  on_buffer id (isReady m_clock) w = Ok (bool_decide (is_Some (arrived w b)), w).
Proof.
  intros Hb Ob. apply (on_reading _ w id b); [done|by apply Ob|].
  rewrite isReady_run. f_equal. f_equal. unfold arrived, head_of. cbn.
  destruct (m_prio_heap b) as [|n l]; [done|]. cbn.
  change (MessageBufferSpec.now m_clock (load w id b)) with (now w).
  destruct (m_time n <=? now w); [by rewrite bool_decide_eq_true_2 by eauto|].
  by rewrite bool_decide_eq_false_2 by (intros [? ?]; done).
Qed.

Lemma arrived_Some w b n : arrived w b = Some n -> head_of b = Some n /\ m_time n <= now w.
Proof.
  unfold arrived. destruct (head_of b) as [n'|]; [|done]. cbn.
  destruct (_ <=? _) eqn:E; [|done]. intros [= ->]. bool_to_Z. done.
Qed.

Lemma head_in b n : head_of b = Some n -> n ∈ m_prio_heap b.
Proof. unfold head_of. destruct (m_prio_heap b); [done|]. cbn. intros [= ->]. left. Qed.

Lemma peek_run w id b n : w.(buffers) !! id = Some b -> buffer_ok w id b ->
  arrived w b = Some n -> on_buffer id (peekMsgPtr m_clock) w = Ok (m_msgptr n, w).
Proof.
  intros Hb Ob Ha. apply (on_reading _ w id b); [done|by apply Ob|].
  apply arrived_Some in Ha as [Hh Ht]. unfold peekMsgPtr, assert_ready.
  assert (isReady m_clock (load w id b) = Ok (true, load w id b)) as Hr.
  { rewrite isReady_run. unfold head_of in Hh. cbn. destruct (m_prio_heap b); [done|].
    cbn in Hh. injection Hh as ->. do 2 f_equal. by apply Z.leb_le. }
  rewrite (M_bind_run _ _ _ tt (load w id b)) by (rewrite (M_bind_run _ _ _ _ _ Hr); done).
  rewrite (M_bind_run front _ _ n (load w id b)); [done|].
  unfold front. rewrite get_run. unfold head_of in Hh. cbn. destruct (m_prio_heap b); [done|].
  cbn in Hh. by injection Hh as ->.
Qed.

(** The buffer after the head was taken off. *)
Record popped (b b' : Buffer) (n : MessageBufferNode) : Prop := {
  p_heap : n :: b'.(m_prio_heap) ≡ₚ b.(m_prio_heap);
  p_ok w id : MessageBufferSpec.buf_ok m_clock (load w id b) ->
    MessageBufferSpec.buf_ok m_clock (load w id b');
  p_counter : b'.(m_counter) = b.(m_counter);
  p_strict : b'.(m_strict_fifo) = b.(m_strict_fifo);
  p_last : b'.(m_last_arrival_time) = b.(m_last_arrival_time);
  p_vnet : b'.(m_vnet_id) = b.(m_vnet_id);
  p_ordering : b'.(m_ordering_set) = b.(m_ordering_set);
  p_random : b'.(m_randomization) = b.(m_randomization);
  p_blank : blank b' = b'
}.

Lemma pop_world w id b n :
  w.(buffers) !! id = Some b -> buffer_ok w id b -> arrived w b = Some n ->
  exists b', popped b b' n /\
    forall w', w'.(buffers) !! id = Some b -> w'.(w_tick) = w.(w_tick) ->
      on_buffer id (pop m_clock) w' = Ok (tt, set_buf id b' w').
Proof.
  intros Hb Ob Ha. apply arrived_Some in Ha as [Hh Ht].
  destruct (o_buf _ _ _ _ _ _ Ob) as [Hheap Hdist _ _ _ _]. cbn in Hheap, Hdist.
  destruct (heap_pop_run _ n Hheap Hdist Hh) as (h & Hpop & Hperm & Hh' & Hleast).
  exists (blank (without_head m_clock (load w id b) h)). split.
  - split; [exact Hperm| |reflexivity..|apply blank_idemp].
    intros w0 id0 []. cbn in *.
    assert (forall y, y ∈ h -> y ∈ b.(m_prio_heap)) as Hsub
      by (intros y Hy; rewrite <- Hperm; by right).
    split; cbn; try done.
    + unfold distinct in *. rewrite <- Hperm in b_distinct. cbn in b_distinct.
      by apply NoDup_cons in b_distinct as [_ ?].
    + intros y Hy. by apply b_numbers, Hsub.
    + intros y Hy. by apply b_woken, Hsub.
  - intros w' Hb' Htick.
    set (l' := load w' id b).
    assert (pop m_clock l' = Ok (tt, without_head m_clock l' h)) as Hrun.
    { unfold pop, assert_ready.
      assert (isReady m_clock l' = Ok (true, l')) as Hr.
      { rewrite isReady_run. unfold head_of in Hh. cbn. destruct (m_prio_heap b); [done|].
        cbn in Hh. injection Hh as ->. do 2 f_equal. apply Z.leb_le.
        change (m_time n <= w_tick w' / m_clock). by rewrite Htick. }
      rewrite (M_bind_run _ _ _ tt l') by (rewrite (M_bind_run _ _ _ _ _ Hr); reflexivity).
      assert (pop_node l' = Ok (tt, l' <| m_prio_heap := h |>)) as Hn.
      { unfold pop_node. rewrite gets_run, lift_bind_run.
        change (m_prio_heap l') with (m_prio_heap b). rewrite Hpop. reflexivity. }
      rewrite (M_bind_run _ _ _ _ _ Hn), getTime_run, get_run.
      unfold without_head, when, MessageBufferSpec.now. cbn.
      destruct (m_time_last_time_pop b <? _); reflexivity. }
    rewrite (on_quiet _ w' id b tt _ Hb' Hrun) by reflexivity.
    do 2 f_equal. unfold set_buf. f_equal.
    unfold l', without_head, MessageBufferSpec.now, blank. cbn. rewrite Htick. reflexivity.
Qed.
(** ** Counting when a buffer changes *)
Lemma sum_set_buf (f : Z -> Buffer -> nat) w id b b' : w.(buffers) !! id = Some b ->
  (sum_over f (set_buf id b' w).(buffers) + f id b = sum_over f w.(buffers) + f id b')%nat.
Proof. apply sum_over_insert. Qed.

Lemma lookup_set_buf w id b' j x : (set_buf id b' w).(buffers) !! j = Some x ->
  (j = id /\ x = b') \/ (j <> id /\ w.(buffers) !! j = Some x).
Proof.
  cbn. rewrite lookup_insert_Some. intros [[-> ->]|[? ?]]; [by left|right].
  split; [by apply not_eq_sym|done].
Qed.

(** Whether message [q] with the fields [nm] is one of payload [k] for [e]. *)
Definition bears (nm : NetworkMessage) (k : Z) (e : MachineID) : nat :=
  bit (nm.(payload) = k /\ e ∈ dests nm).

(** Whether [f] selects the messages of buffer [id]. *)
Definition counted (f : Z -> Z -> bool) (w : World) (id : Z) (b : Buffer) : nat :=
  match w.(consumer_of) !! id with
  | Some c => if f c b.(m_vnet_id) then 1 else 0
  | None => 0
  end.

Lemma carries_node w n q nm k e : m_msgptr n = Some q -> w.(net_messages) !! q = Some nm ->
  carries w k e n <-> nm.(payload) = k /\ e ∈ dests nm.
Proof. intros Hq Hnm. unfold carries. rewrite Hq. cbn. by rewrite Hnm. Qed.

Section taken.
Context w id b b' n q m nm (OK : world_ok w) (Hb : w.(buffers) !! id = Some b)
  (Hp : popped b b' n) (Hn : node_ok reach w id n q m nm).

Lemma taken_occurs q' : occurs q' b = (bit (m_msgptr n = Some q') + occurs q' b')%nat.
Proof using Hp. unfold occurs. by rewrite <- (count_perm _ _ _ (p_heap _ _ _ Hp)), count_bit. Qed.

Lemma taken_ok : world_ok (set_buf id b' w).
Proof using OK Hb Hp.
  destruct OK. split.
  - intros j x [[-> ->]|[Hne Hj]]%lookup_set_buf.
    + destruct (w_buffers0 id b Hb), Hp. split; [done|by apply p_ok0|..].
      * destruct o_cfg0. split; cbn in *; rewrite ?p_ordering0, ?p_random0; done.
      * by rewrite p_strict0, p_last0.
      * intros y Hy. destruct (o_nodes0 y) as (?&?&?&[]); [|by do 3 eexists].
        rewrite <- p_heap0. by right.
    + by apply (buffer_ok_around m_clock reach delay w); [|intros ? _|apply w_buffers0].
  - intros q'. pose proof (sum_set_buf (fun _ => occurs q') w id b b' Hb).
    pose proof (taken_occurs q'). specialize (w_unique0 q'). cbn beta in *. lia.
  - intros j x c sw [[-> ->]|[Hne Hj]]%lookup_set_buf Hc Hsw; [|by eapply w_vnets0].
    rewrite (p_vnet _ _ _ Hp). by apply (w_vnets0 id b c sw).
Qed.

Lemma taken_loose : loose (set_buf id b' w) q.
Proof using OK Hb Hp Hn.
  destruct OK, Hn. split; [done|]. specialize (w_unique0 q).
  pose proof (taken_occurs q) as Hocc. unfold bit in Hocc. rewrite decide_True in Hocc by done.
  intros j x [[-> ->]|[Hne Hj]]%lookup_set_buf.
  - pose proof (sum_over_ge (fun _ => occurs q) _ id b Hb) as Hge. cbn beta in Hge. lia.
  - pose proof (sum_over_ge2 (fun _ => occurs q) _ id j b x ltac:(done) Hb Hj) as Hge. cbn beta in Hge. lia.
Qed.

Lemma taken_carried k e : carried w k e = (carried (set_buf id b' w) k e + bears nm k e)%nat.
Proof using Hb Hp Hn.
  unfold carried. pose proof (sum_set_buf (fun _ b => length (filter (carries w k e) (m_prio_heap b)))
    w id b b' Hb) as E. cbn beta in E.
  rewrite <- (count_perm _ _ _ (p_heap _ _ _ Hp)), count_bit in E.
  rewrite (bit_iff _ (nm.(payload) = k /\ e ∈ dests nm)) in E
    by (apply (carries_node w n q); apply Hn).
  fold (bears nm k e) in E.
  change (sum_over (fun _ b => length (filter (carries (set_buf id b' w) k e) (m_prio_heap b)))
    (set_buf id b' w).(buffers))
    with (sum_over (fun _ b => length (filter (carries w k e) (m_prio_heap b)))
    (set_buf id b' w).(buffers)). lia.
Qed.

Lemma taken_mail f : mail f w = (mail f (set_buf id b' w) + counted f w id b)%nat.
Proof using Hb Hp.
  unfold mail. pose proof (sum_set_buf (fun j b => match w.(consumer_of) !! j with
    | Some c => if f c b.(m_vnet_id) then length (m_prio_heap b) else 0%nat | None => 0%nat end)
    w id b b' Hb) as E. cbn beta in E. rewrite (p_vnet _ _ _ Hp) in E.
  assert (length (m_prio_heap b) = S (length (m_prio_heap b'))) as El
    by (by rewrite <- (p_heap _ _ _ Hp)).
  unfold counted. cbn in *. destruct (w.(consumer_of) !! id) as [c|]; [destruct (f c _)|]; lia.
Qed.
End taken.

(** ** Messages that no buffer holds *)
Definition unheld (w : World) (q : Z) : Prop :=
  forall id b, w.(buffers) !! id = Some b -> occurs q b = 0%nat.

Lemma unheld_next w : world_ok w -> unheld w w.(next_message).
Proof.
  intros OK id b Hb. apply occurs_0. intros n Hn Hq.
  destruct (o_nodes _ _ _ _ _ _ (w_buffers _ _ _ _ OK id b Hb) n Hn) as (q & m & nm & []).
  rewrite Hq in n_ptr0. injection n_ptr0 as <-. lia.
Qed.

Section change.
Context w w' q (OK : world_ok w) (Hq : unheld w q) (F : around w w')
  (Eb : w'.(buffers) = w.(buffers)) (Es : w'.(switches) = w.(switches))
  (Em : forall p, p <> q -> w'.(w_messages) !! p = w.(w_messages) !! p /\
                            w'.(net_messages) !! p = w.(net_messages) !! p).

Lemma change_keeps id b : w.(buffers) !! id = Some b -> keeps w w' b.
Proof using Hq Em. intros Hb p Hp. apply Em. intros ->. by apply Hp, (Hq id). Qed.

Lemma change_ok : world_ok w'.
Proof using OK Hq F Eb Es Em.
  destruct OK. split; rewrite ?Eb, ?Es, ?(a_consumers _ _ F); [|done..].
  intros id b Hb. apply (buffer_ok_around m_clock reach delay w); [done| |by apply w_buffers0].
  by apply (change_keeps id).
Qed.

Lemma change_carried k e : carried w' k e = carried w k e.
Proof using Hq Eb Em.
  unfold carried. rewrite Eb. apply sum_over_ext. intros id b Hb. apply count_ext.
  intros n Hn. symmetry. by apply (carries_keeps w w' b), Hn; apply (change_keeps id).
Qed.
End change.

(** ** Putting a message into a buffer *)
Definition bump (v : Z) (sw : PerfectSwitch) : PerfectSwitch :=
  sw <| m_pending_message_count ::= alter (fun k => i32 (k + 1)) (Z.to_nat v) |>.

Record sent (w w' : World) (o : Z) (b b' : Buffer) (q : Z) (nm : NetworkMessage) : Prop := {
  s_around : around w w';
  s_net : w'.(net_messages) = w.(net_messages);
  s_next : w'.(next_message) = w.(next_message);
  s_messages p : p <> q -> w'.(w_messages) !! p = w.(w_messages) !! p;
  s_buffers : w'.(buffers) = <[o := b']> w.(buffers);
  s_heap : exists n, b'.(m_prio_heap) ≡ₚ n :: b.(m_prio_heap) /\ m_msgptr n = Some q /\
             now w < m_time n;
  s_counter : b'.(m_counter) = b.(m_counter) + 1;
  s_vnet : b'.(m_vnet_id) = b.(m_vnet_id);
  s_throttles : w'.(throttles) = w.(throttles);
  s_network : w'.(network) = w.(network);
  s_switches : exists c, w.(consumer_of) !! o = Some c /\
    w'.(switches) = alter (bump b.(m_vnet_id)) c w.(switches);
  s_ok : world_ok w'
}.

Lemma set_switches_ext w f g : f w.(switches) = g w.(switches) ->
  w <| switches ::= f |> = w <| switches ::= g |>.
Proof. intros E. unfold set_field; cbn. by rewrite E. Qed.

Lemma storeEventInfo_run w c v :
  (forall sw, w.(switches) !! c = Some sw -> 0 <= v < Z.of_nat (length sw.(m_pending_message_count))) ->
  storeEventInfo c v w = Ok (w <| switches ::= alter (bump v) c |>).
Proof.
  intros Hv. unfold storeEventInfo. destruct (w.(switches) !! c) as [sw|] eqn:Hc.
  - specialize (Hv sw eq_refl). destruct (vget_in_range _ _ Hv) as [k Hk].
    rewrite Hk, bind_Ok_run, vset_in_range by done. rewrite bind_Ok_run. f_equal.
    apply vget_Ok in Hk as [_ Hk].
    assert (<[c := sw <| m_pending_message_count := <[Z.to_nat v := i32 (k + 1)]>
      sw.(m_pending_message_count) |>]> w.(switches) = alter (bump v) c w.(switches)) as E.
    { apply map_eq. intros c'. destruct (decide (c' = c)) as [->|Hne].
      - rewrite lookup_insert_eq, lookup_alter_eq, Hc. cbn. f_equal.
        unfold bump, set_field. cbn. f_equal. by apply (insert_as_alter (fun k => i32 (k + 1))).
      - by rewrite lookup_insert_ne, lookup_alter_ne by done. }
    by apply set_switches_ext.
  - f_equal. transitivity (w <| switches ::= fun s => s |>); [by destruct w|].
    apply set_switches_ext. symmetry. by apply alter_lookup_None.
Qed.

(** What the invariant of a buffer depends on. *)
Lemma buf_ok_fields b b' h k t s :
  b.(m_prio_heap) = h -> b'.(m_prio_heap) = h -> b.(m_counter) = k -> b'.(m_counter) = k ->
  b.(MessageBuffer.curTick) = t -> b'.(MessageBuffer.curTick) = t ->
  b.(m_scheduled_wakeups) = s -> MessageBufferSpec.buf_ok m_clock b ->
  b'.(m_consumer_set) = true -> s ⊆ b'.(m_scheduled_wakeups) ->
  MessageBufferSpec.buf_ok m_clock b'.
Proof.
  intros <- Eh <- Ek <- Et <- [] Hc Hs. split; rewrite ?Eh, ?Ek; try assumption.
  unfold MessageBufferSpec.now in *. rewrite Et. auto.
Qed.

(** The store after [enqueue] made the loaded buffer [b1]. *)
Definition put (w : World) (o c : Z) (b1 : Buffer) : World :=
  w <| buffers ::= <[o := blank b1]> |> <| w_messages := b1.(messages) |>
    <| w_draws := b1.(draws) |> <| marks ::= union (set_map (pair c) b1.(m_scheduled_wakeups)) |>
    <| events ::= app ((fun t => (t, c)) <$> b1.(wakeups)) |>
    <| switches ::= alter (bump b1.(m_vnet_id)) c |>.

Lemma put_run w o c b1 :
  w.(consumer_of) !! o = Some c -> b1.(event_infos) = [b1.(m_vnet_id)] ->
  (forall sw, w.(switches) !! c = Some sw ->
     0 <= b1.(m_vnet_id) < Z.of_nat (length sw.(m_pending_message_count))) ->
  store w o b1 = Ok (put w o c b1).
Proof.
  intros Hc He Hv. unfold store. cbn [consumer_of]. rewrite He.
  change (consumer_of (_ <| w_draws := _ |>)) with (consumer_of w). rewrite Hc.
  unfold reverse; cbn [rev_append storeEventInfos].
  rewrite storeEventInfo_run by (exact Hv). reflexivity.
Qed.

Section send.
Context w o b q nm (OK : world_ok w) (Hb : w.(buffers) !! o = Some b)
  (Hloose : loose w q) (Hnm : w.(net_messages) !! q = Some nm) (Hok : msg_ok nm)
  (Hreach : dests nm ⊆ reach o) (c : Z) (Hc : w.(consumer_of) !! o = Some c) (b1 : Buffer).

Abbreviation a := (now w + delay o).
Abbreviation w' := (put w o c b1).
Context (B : MessageBufferSpec.buf_ok m_clock b1)
  (Ecfg : b1.(m_ordering_set) = b.(m_ordering_set) /\ b1.(m_randomization) = b.(m_randomization))
  (Elast : b1.(m_last_arrival_time) = a) (Evnet : b1.(m_vnet_id) = b.(m_vnet_id))
  (Etick : b1.(MessageBuffer.curTick) = w.(w_tick))
  (Eheap : b1.(m_prio_heap) ≡ₚ mkNode a (b.(m_counter) + 1) (Some q) :: b.(m_prio_heap))
  (Emsgs : exists d, b1.(messages) = <[q := mkMessage a d]> w.(w_messages))
  (Ecounter : b1.(m_counter) = b.(m_counter) + 1) (Hd : 0 < delay o).

Lemma put_around : around w w'.
Proof using. split; try reflexivity. unfold put. cbn. apply union_subseteq_r. Qed.

Lemma put_messages p : p <> q -> w'.(w_messages) !! p = w.(w_messages) !! p.
Proof using Emsgs.
  destruct Emsgs as [d E]. intros Hp. unfold put. cbn. rewrite E. apply lookup_insert_ne.
  congruence.
Qed.

Lemma put_keeps id x : w.(buffers) !! id = Some x -> keeps w w' x.
Proof using Hloose Emsgs.
  intros Hx p Hp. split; [|reflexivity]. apply put_messages. intros ->. apply Hp.
  by apply (proj2 Hloose id).
Qed.

Lemma put_buffer_ok : buffer_ok w' o (blank b1).
Proof using OK Hb Hloose Hnm Hok Hreach Hc B Ecfg Elast Etick Eheap Emsgs.
  pose proof (w_buffers _ _ _ _ OK o b Hb) as [Hbl _ [Ho Hr Hw] Hf Hn]. split.
  - apply blank_idemp.
  - apply (buf_ok_fields b1 _ b1.(m_prio_heap) b1.(m_counter) w.(w_tick) b1.(m_scheduled_wakeups));
      autorewrite with members; try reflexivity; try assumption.
    + change (consumer_of w') with (consumer_of w). by rewrite Hc.
    + intros t Ht. unfold wakeups_of. change (consumer_of w') with (consumer_of w).
      rewrite Hc. apply elem_scheduled. unfold put. cbn.
      apply elem_of_union_l, elem_of_map. by exists t.
  - split; autorewrite with members in *; destruct Ecfg as [E1 E2]; rewrite ?E1, ?E2; assumption.
  - autorewrite with members. rewrite Elast. reflexivity.
  - autorewrite with members. intros n. rewrite Eheap. intros [->|Hin]%elem_of_cons.
    + destruct Emsgs as [d E]. exists q, (mkMessage a d), nm.
      split; try assumption; try reflexivity; [|apply Hloose]. unfold put. cbn. rewrite E.
      apply lookup_insert_eq.
    + destruct (Hn n Hin) as (p & mp & np & []). exists p, mp, np.
      destruct (put_keeps o b Hb p (node_occurs n p b Hin n_ptr0)) as [E1 E2].
      by split; rewrite ?E1, ?E2.
Qed.

Lemma put_occurs p : occurs p (blank b1) = (bit (q = p) + occurs p b)%nat.
Proof using Eheap.
  unfold occurs. autorewrite with members. rewrite (count_perm _ _ _ Eheap), count_bit.
  f_equal. apply bit_iff. cbn. split; congruence.
Qed.

Lemma put_ok : world_ok w'.
Proof using OK Hb Hloose Hnm Hok Hreach Hc B Ecfg Elast Evnet Etick Eheap Emsgs.
  split.
  - intros id x [[-> ->]|[Hne Hx]]%lookup_set_buf; [exact put_buffer_ok|].
    apply (buffer_ok_around m_clock reach delay w); [exact put_around|by apply (put_keeps id)|].
    by apply (w_buffers _ _ _ _ OK).
  - intros p. pose proof (sum_set_buf (fun _ => occurs p) w o b (blank b1) Hb) as E.
    cbn beta in E. rewrite put_occurs in E. pose proof (w_unique _ _ _ _ OK p) as Hu.
    change (buffers w') with (buffers (set_buf o (blank b1) w)).
    unfold bit in E. case_decide as Hp; [|lia]. subst p.
    assert (sum_over (fun _ => occurs q) w.(buffers) = 0%nat) as E0 by (apply sum_over_0, Hloose).
    lia.
  - intros id x c' sw [[-> ->]|[Hne Hx]]%lookup_set_buf Hc' Hsw.
    + autorewrite with members. rewrite Evnet. unfold put in Hsw. cbn in Hsw.
      apply lookup_alter_Some in Hsw as [(<- & sw0 & Hsw0 & ->)|[_ Hsw]].
      * cbn. rewrite length_alter. by apply (w_vnets _ _ _ _ OK o b c).
      * by apply (w_vnets _ _ _ _ OK o b c').
    + unfold put in Hsw. cbn in Hsw.
      apply lookup_alter_Some in Hsw as [(<- & sw0 & Hsw0 & ->)|[_ Hsw]].
      * cbn. rewrite length_alter. by apply (w_vnets _ _ _ _ OK id x c).
      * by apply (w_vnets _ _ _ _ OK id x c').
Qed.

Lemma put_sent : sent w w' o b (blank b1) q nm.
Proof using All.
  split; try reflexivity; autorewrite with members; try assumption.
  - apply put_around.
  - exact put_messages.
  - eexists. split; [exact Eheap|]. cbn. split; [done|lia].
  - exists c. split; [done|]. unfold put. cbn -[alter bump]. by rewrite Evnet.
  - exact put_ok.
Qed.
End send.

Lemma enqueue_world w o b q m nm :
  world_ok w -> w.(buffers) !! o = Some b -> b.(m_counter) + 1 < 2 ^ 31 -> 0 < delay o ->
  loose w q -> w.(w_messages) !! q = Some m -> m.(m_LastEnqueueTime) <= now w ->
  w.(net_messages) !! q = Some nm -> msg_ok nm -> dests nm ⊆ reach o ->
  exists w' b', on_buffer o (enqueue m_clock rand (Some q) (delay o)) w = Ok (tt, w') /\
    sent w w' o b b' q nm.
Proof.
  intros OK Hb Hcnt Hd [Hold Hfree] Hm Hlast Hnm Hok Hreach.
  pose proof (w_buffers _ _ _ _ OK o b Hb) as Ob.
  destruct (MessageBufferSpec.enqueue_run m_clock rand (load w o b) q m (delay o)
    (o_buf _ _ _ _ _ _ Ob) (o_cfg _ _ _ _ _ _ Ob) Hcnt Hd (o_fifo _ _ _ _ _ _ Ob) Hm Hlast)
    as (h & wk & ws & Hrun & Hperm & Hin & Hbok).
  change (MessageBufferSpec.now m_clock (load w o b)) with (now w) in *.
  set (b1 := MessageBufferSpec.with_message m_clock (load w o b) q m (now w + delay o) h wk ws) in *.
  assert (exists c, w.(consumer_of) !! o = Some c) as [c Hc].
  { pose proof (MessageBufferSpec.b_consumer _ _ (o_buf _ _ _ _ _ _ Ob)) as E. cbn in E.
    apply bool_decide_eq_true in E. destruct E as [c Hc]. by exists c. }
  exists (put w o c b1), (blank b1). split.
  - unfold on_buffer. rewrite Hb, Hrun, bind_Ok_run. cbn [snd fst].
    assert (b1.(m_vnet_id) = b.(m_vnet_id)) as Ev by (unfold b1; by autorewrite with members).
    rewrite (put_run w o c b1 Hc); [done| |].
    + unfold b1. by autorewrite with members.
    + intros sw Hsw. rewrite Ev. by apply (w_vnets _ _ _ _ OK o b c).
  - apply put_sent; try assumption; [done|unfold b1; autorewrite with members..|done];
      try reflexivity; [by split|by eexists].
Qed.

Section after_send.
Context w w' o b b' q nm (S : sent w w' o b b' q nm) (Hb : w.(buffers) !! o = Some b).

Lemma sent_carried k e : w.(net_messages) !! q = Some nm ->
  carried w' k e = (carried w k e + bears nm k e)%nat.
Proof using S Hb.
  intros Hnm. destruct (s_heap _ _ _ _ _ _ _ S) as (n & Hp & Hq & _). unfold carried.
  rewrite (s_buffers _ _ _ _ _ _ _ S).
  rewrite (sum_over_ext _ (fun _ b => length (filter (carries w k e) (m_prio_heap b)))).
  2:{ intros id x _. apply count_ext. intros y _. unfold carries.
      by rewrite (s_net _ _ _ _ _ _ _ S). }
  pose proof (sum_over_insert (fun _ b => length (filter (carries w k e) (m_prio_heap b)))
    _ o b b' Hb) as E. cbn beta in E. rewrite (count_perm _ _ _ Hp), count_bit in E.
  rewrite (bit_iff _ (nm.(payload) = k /\ e ∈ dests nm)) in E by (by apply (carries_node w n q)).
  fold (bears nm k e) in E. lia.
Qed.

Lemma sent_mail f : mail f w' = (mail f w + counted f w o b)%nat.
Proof using S Hb.
  destruct (s_heap _ _ _ _ _ _ _ S) as (n & Hp & _). unfold mail.
  rewrite (s_buffers _ _ _ _ _ _ _ S), (a_consumers _ _ (s_around _ _ _ _ _ _ _ S)).
  pose proof (sum_over_insert (fun j b => match w.(consumer_of) !! j with
    | Some c => if f c b.(m_vnet_id) then length (m_prio_heap b) else 0%nat | None => 0%nat end)
    _ o b b' Hb) as E. cbn beta in E. rewrite (s_vnet _ _ _ _ _ _ _ S) in E.
  assert (length (m_prio_heap b') = Datatypes.S (length (m_prio_heap b))) as El by (by rewrite Hp).
  unfold counted. destruct (w.(consumer_of) !! o) as [c|]; [destruct (f c _)|]; lia.
Qed.

Lemma sent_loose p : p <> q -> loose w p -> loose w' p.
Proof using S Hb.
  intros Hp [Hold Hfree]. split; [by rewrite (s_next _ _ _ _ _ _ _ S)|].
  destruct (s_heap _ _ _ _ _ _ _ S) as (n & Hperm & Hq & _).
  intros id x. rewrite (s_buffers _ _ _ _ _ _ _ S), lookup_insert_Some.
  intros [[<- <-]|[_ Hx]]; [|by apply (Hfree id)].
  unfold occurs. rewrite (count_perm _ _ _ Hperm), count_bit. unfold bit.
  rewrite decide_False by congruence. apply (Hfree o b Hb).
Qed.
End after_send.

(** ** Copies and destinations *)
Lemma set_net_ok w q nm nm' : world_ok w -> w.(net_messages) !! q = Some nm ->
  msg_ok nm' -> dests nm' = dests nm ->
  world_ok (w <| net_messages ::= <[q := nm']> |>).
Proof.
  intros [] Hq Hok Hd. split; [|done..]. intros id b Hb. destruct (w_buffers0 id b Hb).
  split; [done|exact o_buf0|exact o_cfg0|done|]. intros n Hn.
  destruct (o_nodes0 n Hn) as (p & m & np & []). destruct (decide (p = q)) as [->|Hne].
  - exists q, m, nm'. rewrite Hq in n_net0. injection n_net0 as <-.
    split; try done; [cbn; apply lookup_insert_eq|]. by rewrite Hd.
  - exists p, m, np. split; try done. cbn. by rewrite lookup_insert_ne.
Qed.

Lemma set_net_carried w q nm nm' k e : w.(net_messages) !! q = Some nm ->
  nm'.(payload) = nm.(payload) -> dests nm' = dests nm ->
  carried (w <| net_messages ::= <[q := nm']> |>) k e = carried w k e.
Proof.
  intros Hq Hp Hd. apply sum_over_ext. intros id b _. apply count_ext. intros n _.
  unfold carries. destruct (m_msgptr n) as [p|]; [|done]. cbn.
  destruct (decide (p = q)) as [->|Hne]; [|by rewrite lookup_insert_ne].
  by rewrite lookup_insert_eq, Hq, Hp, Hd.
Qed.

Lemma net_message_run w q nm : w.(net_messages) !! q = Some nm ->
  net_message (Some q) w = Ok ((q, nm), w).
Proof. intros Hq. unfold net_message. by rewrite gets_run, Hq. Qed.

Lemma net_message_id w q nm : w.(net_messages) !! q = Some nm ->
  w <| net_messages ::= <[q := nm]> |> = w.
Proof.
  intros Hq. destruct w. cbn in *. unfold set_field; cbn. f_equal. by apply insert_id.
Qed.

Lemma getInternalDestination_run w q nm :
  w.(net_messages) !! q = Some nm -> msg_ok nm ->
  exists d nm', getInternalDestination (Some q) w =
      Ok (d, w <| net_messages ::= <[q := nm']> |>) /\
    ok d /\ bits d = dests nm /\ msg_ok nm' /\ dests nm' = dests nm /\
    nm'.(payload) = nm.(payload) /\ nm'.(m_internal_dest_valid) = true /\
    nm'.(messageSize) = nm.(messageSize).
Proof.
  intros Hq (Hi & Hd & Hsz). unfold getInternalDestination.
  rewrite (M_bind_run _ _ _ _ _ (net_message_run w q nm Hq)).
  destruct nm.(m_internal_dest_valid) eqn:Ev.
  - exists nm.(m_internal_dest), nm. rewrite net_message_id by done.
    unfold dests. rewrite Ev. by split_and!.
  - destruct (NetDestOps.copy_ok nm.(destination) Hd) as (d & Hc & Hok & Hbits).
    eexists d, _. rewrite lift_bind_run, Hc. split; [reflexivity|].
    unfold dests, msg_ok. cbn. rewrite Ev, Hbits. by split_and!.
Qed.

Lemma setInternalDestination_run w q nm d :
  w.(net_messages) !! q = Some nm -> msg_ok nm -> ok d ->
  exists nm', setInternalDestination (Some q) d w =
      Ok (tt, w <| net_messages ::= <[q := nm']> |>) /\
    msg_ok nm' /\ dests nm' = bits d /\ nm'.(payload) = nm.(payload).
Proof.
  intros Hq Hok Hd. unfold setInternalDestination.
  destruct (getInternalDestination_run w q nm Hq Hok) as (d0 & nm0 & Hr & _ & _ & Hok0 & _ & Hp & Hv & _).
  rewrite (M_bind_run _ _ _ _ _ Hr).
  rewrite (M_bind_run _ _ _ _ _ (net_message_run _ q nm0 (lookup_insert_eq _ _ _))).
  destruct (NetDestOps.copy_ok d Hd) as (d' & Hc & Hok' & Hbits). rewrite lift_bind_run, Hc.
  exists (nm0 <| m_internal_dest := d' |>). split.
  - unfold set_net_message, modify. do 2 f_equal. unfold set_field; cbn.
    by rewrite insert_insert_eq.
  - destruct Hok0 as (_ & ? & ?). unfold dests, msg_ok. cbn. rewrite Hv. by split_and!.
Qed.

(** [clone] makes a message that no buffer holds. *)
Record cloned (w w' : World) (m : Message) (nm : NetworkMessage) : Prop := {
  k_around : around w w';
  k_buffers : w'.(buffers) = w.(buffers);
  k_switches : w'.(switches) = w.(switches);
  k_throttles : w'.(throttles) = w.(throttles);
  k_network : w'.(network) = w.(network);
  k_other p : p <> w.(next_message) -> w'.(w_messages) !! p = w.(w_messages) !! p /\
                                      w'.(net_messages) !! p = w.(net_messages) !! p;
  k_next : w'.(next_message) = w.(next_message) + 1;
  k_msg : w'.(w_messages) !! w.(next_message) = Some m;
  k_net : exists nm', w'.(net_messages) !! w.(next_message) = Some nm' /\ msg_ok nm' /\
            dests nm' = dests nm /\ nm'.(payload) = nm.(payload)
}.

Lemma clone_run w q m nm :
  w.(w_messages) !! q = Some m -> w.(net_messages) !! q = Some nm -> msg_ok nm ->
  exists w', clone (Some q) w = Ok (Some w.(next_message), w') /\ cloned w w' m nm.
Proof.
  clear reach delay. intros Hm Hq (Hi & Hd & Hsz). unfold clone.
  rewrite (M_bind_run _ _ _ _ _ (net_message_run w q nm Hq)), gets_run, Hm.
  destruct (NetDestOps.copy_ok _ Hi) as (di & Hci & Hoki & Hbi).
  destruct (NetDestOps.copy_ok _ Hd) as (dd & Hcd & Hokd & Hbd).
  rewrite !lift_bind_run, Hci, lift_bind_run, Hcd, gets_run.
  eexists. split; [reflexivity|]. split; try reflexivity.
  - split; try reflexivity. cbn. lia.
  - intros p Hp. cbn. by rewrite !lookup_insert_ne.
  - cbn. apply lookup_insert_eq.
  - eexists. cbn. rewrite lookup_insert_eq. split; [reflexivity|].
    unfold dests, msg_ok. cbn. destruct nm.(m_internal_dest_valid); by split_and!.
Qed.

Section after_clone.
Context w w' m nm (OK : world_ok w) (K : cloned w w' m nm).

Lemma cloned_ok : world_ok w'.
Proof using OK K.
  destruct K. apply (change_ok w w' w.(next_message)); try done. by apply unheld_next.
Qed.

Lemma cloned_carried k e : carried w' k e = carried w k e.
Proof using OK K.
  destruct K. apply (change_carried w w' w.(next_message)); try done. by apply unheld_next.
Qed.

Lemma cloned_loose : loose w' w.(next_message).
Proof using OK K.
  split; [rewrite (k_next _ _ _ _ K); lia|]. rewrite (k_buffers _ _ _ _ K).
  exact (unheld_next w OK).
Qed.

Lemma cloned_loose_other p : loose w p -> loose w' p.
Proof using K.
  intros [Hp Hf]. split; [rewrite (k_next _ _ _ _ K); lia|]. by rewrite (k_buffers _ _ _ _ K).
Qed.
End after_clone.

End ops.

(** ** Operations that leave a buffer alone

    They run in the same way whatever is in that buffer. *)
Definition rmap {A} (f : World -> World) (r : result (A * World)) : result (A * World) :=
  match r with Ok (a, w) => Ok (a, f w) | Err e => Err e end.

Definition ignores {A} (i : Z) (m : W A) : Prop :=
  forall x w, m (set_buf i x w) = rmap (set_buf i x) (m w).

Lemma ignores_ret {A} i (a : A) : ignores i (mret a : W A).
Proof. done. Qed.

Lemma ignores_fail {A} i e : ignores i (fail e : W A).
Proof. done. Qed.

Lemma ignores_lift {A} i (r : result A) : ignores i (lift r : W A).
Proof. intros x w. by destruct r. Qed.

Lemma ignores_bind {A B} i (m : W A) (f : A -> W B) :
  ignores i m -> (forall a, ignores i (f a)) -> ignores i (m ≫= f).
Proof.
  intros Hm Hf x w. unfold mbind, M_bind. rewrite Hm. destruct (m w) as [[a w']|e]; [|done].
  apply Hf.
Qed.

Lemma ignores_gets {A} i (f : World -> A) :
  (forall x w, f (set_buf i x w) = f w) -> ignores i (gets f).
Proof. intros Hf x w. unfold gets. cbn. by rewrite Hf. Qed.

Lemma ignores_modify i (f : World -> World) :
  (forall x w, f (set_buf i x w) = set_buf i x (f w)) -> ignores i (modify f).
Proof. intros Hf x w. unfold modify. cbn. by rewrite Hf. Qed.

Lemma storeEventInfos_other i x c l w :
  storeEventInfos c l (set_buf i x w) = (w' ← storeEventInfos c l w; Ok (set_buf i x w')).
Proof.
  revert w. induction l as [|v l IH]; intros w; [done|]. cbn [storeEventInfos].
  assert (storeEventInfo c v (set_buf i x w) = (w' ← storeEventInfo c v w; Ok (set_buf i x w'))) as ->.
  { unfold storeEventInfo. change (switches (set_buf i x w)) with (switches w).
    destruct (switches w !! c) as [sw|]; [|done].
    destruct (vget _ v); [|done]. rewrite !bind_Ok_run. destruct (vset _ v _); done. }
  destruct (storeEventInfo c v w); [|done]. rewrite !bind_Ok_run. apply IH.
Qed.

Lemma load_other i x w o b : load (set_buf i x w) o b = load w o b.
Proof. reflexivity. Qed.

Lemma store_other i x w o b : o <> i ->
  store (set_buf i x w) o b = (w' ← store w o b; Ok (set_buf i x w')).
Proof.
  intros Hne. unfold store. set (base := fun w : World => w <| buffers ::= <[o := blank b]> |>
    <| w_messages := b.(messages) |> <| w_draws := b.(draws) |>).
  assert (base (set_buf i x w) = set_buf i x (base w)) as E.
  { unfold base, set_buf, set_field. cbn. f_equal. by apply insert_insert_ne. }
  fold (base w). fold (base (set_buf i x w)). rewrite E. cbv zeta.
  change (consumer_of (set_buf i x (base w))) with (consumer_of (base w)).
  destruct (consumer_of (base w) !! o) as [c|]; [|done].
  rewrite <- storeEventInfos_other. reflexivity.
Qed.

Lemma ignores_on_buffer {A} i o (m : M Buffer A) : o <> i -> ignores i (on_buffer o m).
Proof.
  intros Hne x w. unfold on_buffer. cbn [buffers]. change (buffers (set_buf i x w))
    with (<[i := x]> w.(buffers)). rewrite lookup_insert_ne by done.
  destruct (w.(buffers) !! o) as [b|]; [|done]. rewrite load_other.
  destruct (m (load w o b)) as [[a b']|e]; [|done]. rewrite !bind_Ok_run. cbn [fst snd].
  rewrite store_other by done. destruct (store w o b'); done.
Qed.

End NetWorldOps.
