(* ===== verification/SwitchSend.v ===== *)
(** * A switch: routing and sending one message

    How the destinations of a message are split ([SwitchRouting]), the
    wiring of a switch and its helpers ([SwitchSpec]), and the sending of
    copies ([SwitchSend]). *)

From S2P Require Import Prelude.
From S2P Require Import NodeSet.
From S2P Require Import NodeSetOps.
From S2P Require Import NetDest.
From S2P Require Import NetDestSpec.
From S2P Require Import NetDestRefines.
From S2P Require Import MessageBuffer.
From S2P Require Import NetWorld.
From S2P Require Import NetWorldOps.
From S2P Require Import PerfectSwitch.
From S2P Require Import MessageHeap.
From S2P Require Import MessageBufferFifo.

(** * A switch splits the destinations of a message among its links

    [PerfectSwitch.route] looks at the links in some order; each takes those of
    the remaining destinations that its routing table entry has.  Whatever the
    order, each destination goes to exactly one link. *)
Module SwitchRouting.
Import NetWorld NetWorldSpec NetWorldOps PerfectSwitch.

Section routing.
Context {MT : MachineTypes} {MTL : MachineTypeLaws}.
Import NetDestSpec.

(** How many of the destination sets have [e]. *)
Definition shares (ds : list NetDest.t) (e : MachineID) : nat :=
  sum_list_with (fun d => bit (e ∈ bits d)) ds.
Arguments shares : simpl never.

Lemma shares_app ds ds' e : shares (ds ++ ds') e = (shares ds e + shares ds' e)%nat.
Proof. apply sum_list_with_app. Qed.

(** What a link does for its part of the destinations. *)
Definition part (table : list NetDest.t) (dsts : gset MachineID) (l : Z) (d : NetDest.t) : Prop :=
  ok d /\ bits d ⊆ dsts /\ exists entry, vget table l = Ok entry /\ bits d ⊆ bits entry.

Record routed (table : list NetDest.t) (dsts : gset MachineID) (r : Routing) : Prop := {
  r_parts : Forall2 (part table dsts) r.(output_links) r.(output_link_destinations);
  r_links : NoDup r.(output_links);
  r_shares e : shares r.(output_link_destinations) e = bit (e ∈ dsts)
}.

Section loop.
Context (table : list NetDest.t) (order : list LinkOrder) (dsts : NetDest.t).
Context (Htable : Forall ok table) (Hdsts : ok dsts)
  (Horder : m_link <$> order ≡ₚ upto (Z.of_nat (length table))).

(** After the first [k] links. *)
Record progress (k : Z) (r : Routing) : Prop := {
  g_rest : ok r.(msg_dsts);
  g_bits : bits r.(msg_dsts) ⊆ bits dsts;
  g_gone o entry : o ∈ take (Z.to_nat k) order -> vget table o.(m_link) = Ok entry ->
    bits r.(msg_dsts) ## bits entry;
  g_parts : Forall2 (part table (bits dsts)) r.(output_links) r.(output_link_destinations);
  g_links : sublist r.(output_links) (m_link <$> take (Z.to_nat k) order);
  g_shares e : (shares r.(output_link_destinations) e + bit (e ∈ bits r.(msg_dsts)) =
                bit (e ∈ bits dsts))%nat
}.

Lemma length_order : length order = length table.
Proof using Horder.
  pose proof (Permutation_length Horder) as E. rewrite length_fmap, length_upto in E. lia.
Qed.

Lemma entry_at o : o ∈ order -> exists entry, vget table o.(m_link) = Ok entry /\ ok entry.
Proof using Horder Htable.
  intros Ho. assert (o.(m_link) ∈ upto (Z.of_nat (length table))) as Hl%elem_of_upto
    by (rewrite <- Horder; by apply list_elem_of_fmap_2).
  destruct (vget_in_range table o.(m_link) Hl) as [entry He]. exists entry. split; [done|].
  apply vget_Ok in He as [_ He]. by eapply Forall_lookup_1.
Qed.

Lemma take_next k o : 0 <= k -> vget order k = Ok o ->
  take (Z.to_nat (k + 1)) order = take (Z.to_nat k) order ++ [o].
Proof using.
  intros Hk [_ Ho]%vget_Ok. replace (Z.to_nat (k + 1)) with (S (Z.to_nat k)) by lia.
  by apply take_S_r.
Qed.

Lemma route_step_progress k r : 0 <= k < Z.of_nat (length table) -> progress k r ->
  exists r', route_step table order k r = Ok r' /\ progress (k + 1) r'.
Proof using Htable Hdsts Horder.
  intros Hk []. unfold route_step.
  destruct (vget_in_range order k) as [o Ho]; [by rewrite length_order|].
  assert (o ∈ order) as Hin by (apply vget_Ok in Ho as [_ Ho]; by eapply list_elem_of_lookup_2).
  destruct (entry_at o Hin) as (entry & He & Hok). rewrite Ho, bind_Ok_run, He, bind_Ok_run.
  destruct (NetDestOps.copy_ok entry Hok) as (dst & -> & Hdst & Hbits). rewrite bind_Ok_run.
  rewrite NetDestOps.intersection_ok, bind_Ok_run, Hbits by done.
  pose proof (take_next k o ltac:(lia) Ho) as Ht. case_bool_decide as Hx.
  - destruct (NetDestOps.AND_ok r.(msg_dsts) dst) as (both & -> & Hb & Eb); [done..|].
    destruct (NetDestOps.removeNetDest_ok r.(msg_dsts) dst) as (rest & -> & Hr & Er); [done..|].
    rewrite !bind_Ok_run. rewrite Hbits in Eb, Er. eexists. split; [done|].
    split; cbn; rewrite ?Ht; try done.
    + rewrite Er. set_solver.
    + intros o' entry' [Ho'|Ho']%elem_of_app He'.
      * specialize (g_gone0 o' entry' Ho' He'). rewrite Er. set_solver.
      * apply list_elem_of_singleton in Ho' as ->. rewrite He in He'. injection He' as <-.
        rewrite Er. set_solver.
    + apply Forall2_app; [done|]. constructor; [|constructor].
      split; [done|]. split; [rewrite Eb; set_solver|].
      exists entry. split; [done|]. rewrite Eb. set_solver.
    + rewrite fmap_app. by apply sublist_app.
    + intros e. specialize (g_shares0 e). rewrite shares_app.
      assert (shares [both] e = bit (e ∈ bits both)) as -> by (unfold shares; cbn; lia).
      rewrite (bit_iff (e ∈ bits both) (e ∈ bits r.(msg_dsts) /\ e ∈ bits entry)) by (rewrite Eb; set_solver).
      rewrite (bit_iff (e ∈ bits rest) (e ∈ bits r.(msg_dsts) /\ e ∉ bits entry)) by (rewrite Er; set_solver).
      unfold bit in *. repeat case_decide; (tauto || lia).
  - eexists. split; [done|]. split; cbn; rewrite ?Ht; try done.
    + intros o' entry' [Ho'|Ho']%elem_of_app He'; [by eapply g_gone0|].
      apply list_elem_of_singleton in Ho' as ->. rewrite He in He'. injection He' as <-. set_solver.
    + rewrite fmap_app. by apply sublist_inserts_r.
Qed.
End loop.

Lemma route_ok table order dsts :
  Forall ok table -> ok dsts -> m_link <$> order ≡ₚ upto (Z.of_nat (length table)) ->
  (forall e, e ∈ bits dsts -> exists entry, entry ∈ table /\ e ∈ bits entry) ->
  exists r, route table order dsts = Ok r /\ routed table (bits dsts) r.
Proof.
  intros Htable Hdsts Horder Hcover. unfold route.
  destruct (NodeSetSpec.loop_upto (route_step table order) (Z.of_nat (length table))
    (progress table order dsts) (mkRouting dsts [] [])) as (r & -> & []); [lia| | |].
  { split; cbn; try done. intros ? ? Ho. by apply elem_of_nil in Ho. }
  { intros k r Hk Hr. by apply (route_step_progress table order dsts). }
  assert (bits r.(msg_dsts) = ∅) as Hempty.
  { apply set_eq. intros e. split; [|set_solver]. intros He. exfalso.
    destruct (Hcover e (g_bits0 e He)) as (entry & [i Hi]%list_elem_of_lookup_1 & Hee).
    assert (Z.of_nat i ∈ m_link <$> order) as (o & Hl & Ho)%list_elem_of_fmap.
    { rewrite Horder. apply elem_of_upto. apply lookup_lt_Some in Hi. lia. }
    rewrite Nat2Z.id in g_gone0. rewrite take_ge in g_gone0
      by (by rewrite (length_order table order)).
    apply (g_gone0 o entry Ho) with e; [|done|done]. rewrite <- Hl. apply vget_Ok.
    rewrite Nat2Z.id. split; [lia|done]. }
  rewrite bind_Ok_run, NetDestOps.count_ok, Hempty, bind_Ok_run by done.
  exists r. split; [done|]. split; [done| |].
  - apply (sublist_NoDup _ (m_link <$> order)).
    + rewrite Horder. unfold upto. apply NoDup_fmap; [apply _|apply NoDup_seq].
    + etrans; [exact g_links0|]. rewrite fmap_take. apply sublist_take.
  - intros e. specialize (g_shares0 e). rewrite Hempty in g_shares0. unfold bit in *.
    rewrite (decide_False (P := e ∈ ∅)) in g_shares0 by set_solver. lia.
Qed.
End routing.
End SwitchRouting.

(** * Forwarding one message

    The wiring of a switch, what its helpers do and what one round of the loop
    over an input buffer does: the message at the head leaves the buffer, and
    each of its destinations goes to the buffer of exactly one link. *)
Module SwitchSpec.
Import MessageHeap MessageBuffer NetWorld NetWorldSpec NetWorldOps PerfectSwitch SwitchRouting.

(** The operation returns, in a state with [Q]. *)
Abbreviation runs := (wp (fun _ => False)).

(** ** What stays the same *)
Definition port_start_ok (sw : PerfectSwitch) : Prop :=
  0 <= sw.(m_round_robin_start) < Z.max 1 (Z.of_nat (length sw.(m_in))).

Record sw_shape (sw sw' : PerfectSwitch) : Prop := {
  z_in : sw'.(m_in) = sw.(m_in);
  z_out : sw'.(m_out) = sw.(m_out);
  z_table : sw'.(m_routing_table) = sw.(m_routing_table);
  z_vnets : sw'.(m_virtual_networks) = sw.(m_virtual_networks);
  z_pending : length sw'.(m_pending_message_count) = length sw.(m_pending_message_count);
  z_order : m_link <$> sw'.(m_link_order) ≡ₚ m_link <$> sw.(m_link_order);
  z_start : port_start_ok sw -> port_start_ok sw'
}.

#[export] Instance sw_shape_refl : Reflexive sw_shape.
Proof. by split. Qed.

#[export] Instance sw_shape_trans : Transitive sw_shape.
Proof. intros x y z [] []. split; try congruence; [by etrans|auto]. Qed.

Record th_shape (t t' : Throttle) : Prop := {
  th_in : t'.(t_in) = t.(t_in);
  th_out : t'.(t_out) = t.(t_out);
  th_vnets : t'.(m_vnets) = t.(m_vnets);
  th_multiplier : t'.(m_link_bandwidth_multiplier) = t.(m_link_bandwidth_multiplier);
  th_latency : t'.(m_link_latency) = t.(m_link_latency);
  th_endpoint : t'.(m_endpoint_bandwidth) = t.(m_endpoint_bandwidth);
  th_units : length t'.(m_units_remaining) = length t.(m_units_remaining);
  th_counters : length <$> t'.(m_message_counters) = length <$> t.(m_message_counters)
}.

#[export] Instance th_shape_refl : Reflexive th_shape.
Proof. by split. Qed.

#[export] Instance th_shape_trans : Transitive th_shape.
Proof. intros x y z [] []. split; congruence. Qed.

Record shape (w w' : World) : Prop := {
  h_around : around w w';
  h_buffers id : m_vnet_id <$> w'.(buffers) !! id = m_vnet_id <$> w.(buffers) !! id;
  h_network : w'.(network) = w.(network);
  h_throttles c : option_Forall2 th_shape (w.(throttles) !! c) (w'.(throttles) !! c);
  h_switches c : option_Forall2 sw_shape (w.(switches) !! c) (w'.(switches) !! c)
}.

#[export] Instance shape_refl : Reflexive shape.
Proof. intros w. by split. Qed.

#[export] Instance shape_trans : Transitive shape.
Proof.
  intros w1 w2 w3 [] []. split; try congruence.
  - by eapply around_trans.
  - intros c. specialize (h_throttles0 c). specialize (h_throttles1 c).
    destruct h_throttles0; inversion h_throttles1; constructor. by etrans.
  - intros c. specialize (h_switches0 c). specialize (h_switches1 c).
    destruct h_switches0; inversion h_switches1; constructor. by etrans.
Qed.

Lemma calm_shape w w' : calm w w' ->
  (forall c, option_Forall2 sw_shape (w.(switches) !! c) (w'.(switches) !! c)) -> shape w w'.
Proof.
  intros C Hs. destruct C. split; try done.
  - intros id. destruct (l_buffers0 id); [|done]. cbn. f_equal. by apply u_vnet.
  - intros c. by rewrite l_throttles0.
Qed.

Lemma still_shape w w' : still w w' -> shape w w'.
Proof.
  intros S. apply calm_shape; [by apply still_calm|]. destruct S as (bs & -> & _). done.
Qed.

Lemma shape_buffer w w' id b : shape w w' -> w.(buffers) !! id = Some b ->
  exists b', w'.(buffers) !! id = Some b' /\ b'.(m_vnet_id) = b.(m_vnet_id).
Proof.
  intros S Hb. pose proof (h_buffers _ _ S id) as E. rewrite Hb in E.
  destruct (w'.(buffers) !! id) as [b'|]; [|done]. injection E as E. by exists b'.
Qed.

(** ** Reading a switch *)
Lemma switch_run w c sw : w.(switches) !! c = Some sw -> switch c w = Ok (sw, w).
Proof. intros Hc. unfold switch. by rewrite gets_run, Hc. Qed.

Lemma wp_switch w c sw Q : w.(switches) !! c = Some sw -> Q sw w -> runs (switch c) Q w.
Proof. intros Hc HQ. unfold wp. by rewrite (switch_run w c sw Hc). Qed.

Lemma wp_of_run {A} (m : W A) w a w' (Q : A -> World -> Prop) :
  m w = Ok (a, w') -> Q a w' -> runs m Q w.
Proof. intros Hm HQ. unfold wp. by rewrite Hm. Qed.

Lemma run_of_wp {A} (m : W A) w (Q : A -> World -> Prop) :
  runs m Q w -> exists a w', m w = Ok (a, w') /\ Q a w'.
Proof. unfold wp. destruct (m w) as [[a w']|e]; [eauto|done]. Qed.

Lemma set_switch_insert w c sw f : w.(switches) !! c = Some sw ->
  w <| switches ::= alter f c |> = w <| switches ::= <[c := f sw]> |>.
Proof.
  intros Hc. apply set_switches_ext. apply map_eq. intros c'.
  destruct (decide (c' = c)) as [->|Hne].
  - by rewrite lookup_alter_eq, lookup_insert_eq, Hc.
  - by rewrite lookup_alter_ne, lookup_insert_ne by done.
Qed.

Lemma port_buffer ports (n v : Z) port p : Forall (fun p => Z.of_nat (length p) = n) ports ->
  vget ports port = Ok p -> 0 <= v < n -> exists id : Z, vget p v = Ok id.
Proof.
  intros Hf [_ Hp]%vget_Ok Hv. apply (Forall_lookup_1 _ _ _ _ Hf) in Hp. apply vget_in_range. lia.
Qed.

(** A loop over [0 .. n-1]. *)
Lemma wp_for_upto {S} E (n : Z) (body : Z -> M S unit) (I : Z -> S -> Prop) s :
  0 <= n -> I 0 s ->
  (forall k s, 0 <= k < n -> I k s -> wp E (body k) (fun _ => I (k + 1)) s) ->
  wp E (for_each (upto n) body) (fun _ => I n) s.
Proof.
  intros Hn H0 Hstep.
  assert (forall (c k : nat) s, Z.of_nat k + Z.of_nat c = n -> I (Z.of_nat k) s ->
    wp E (for_each (Z.of_nat <$> seq k c) body) (fun _ => I n) s) as Hgen.
  { intros c. induction c as [|c IH]; intros k x Hkc Hx; cbn.
    - replace n with (Z.of_nat k) by lia. exact Hx.
    - apply wp_bind. eapply wp_mono; [apply Hstep; [lia|exact Hx]|]. intros a x' Hx'.
      apply IH; [lia|]. by replace (Z.of_nat (Datatypes.S k)) with (Z.of_nat k + 1) by lia. }
  unfold upto. apply Hgen; [lia|done].
Qed.

(** The first [k] links are in their own places. *)
Definition placed (sw : PerfectSwitch) (k : Z) (o : list LinkOrder) : Prop :=
  length o = length sw.(m_out) /\
  forall i : nat, Z.of_nat i < k -> m_link <$> o !! i = Some (Z.of_nat i).

Lemma placed_next sw k o value : 0 <= k < Z.of_nat (length sw.(m_out)) -> placed sw k o ->
  placed sw (k + 1) (<[Z.to_nat k := mkLinkOrder k value]> o).
Proof.
  intros Hk [Hl Hp]. split; [by rewrite length_insert|]. intros i Hi.
  destruct (decide (i = Z.to_nat k)) as [->|Hne].
  - rewrite list_lookup_insert_eq by lia. cbn. f_equal. lia.
  - rewrite list_lookup_insert_ne by done. apply Hp. lia.
Qed.

Lemma placed_all sw o : placed sw (Z.of_nat (length sw.(m_out))) o ->
  m_link <$> o = upto (Z.of_nat (length sw.(m_out))).
Proof.
  intros [Hl Hp]. apply list_eq. intros i. rewrite list_lookup_fmap.
  unfold upto. rewrite list_lookup_fmap, Nat2Z.id.
  destruct (decide (i < length sw.(m_out))%nat) as [Hi|Hi].
  - rewrite lookup_seq_lt by done. rewrite Hp by lia. done.
  - rewrite (lookup_ge_None_2 o) by lia. by rewrite lookup_seq_ge by lia.
Qed.

(** ** The wiring *)
Section spec.
#[local] Set Default Proof Using "Type".
Context {MT : MachineTypes} {MTL : MachineTypeLaws} {LS : LinkSort}.
Context (m_clock : Z) (rand : nat -> Z).
Context (reach : Z -> gset MachineID) (delay : Z -> Z).
Import NetDestSpec.

Abbreviation world_ok := (world_ok m_clock reach delay).
Abbreviation now := (now m_clock).

(** The buffers of the ports exist and belong to their virtual networks, the
    routing table serves every machine that a message may have to reach, and
    the buffers of a link may hold what the table sends there. *)
Record wired (w : World) (c : Z) (sw : PerfectSwitch) : Prop := {
  d_vnets : Z.of_nat (length sw.(m_pending_message_count)) = sw.(m_virtual_networks);
  d_ordered : sw.(m_virtual_networks) <= Z.of_nat (length w.(network).(m_ordered));
  d_in_ports : Forall (fun p => Z.of_nat (length p) = sw.(m_virtual_networks)) sw.(m_in);
  d_in port v id : in_buffer sw port v = Ok id -> w.(consumer_of) !! id = Some c /\
    (exists b, w.(buffers) !! id = Some b /\ b.(m_vnet_id) = v) /\
    forall e, e ∈ reach id -> exists entry, entry ∈ sw.(m_routing_table) /\ e ∈ bits entry;
  d_out_ports : Forall (fun p => Z.of_nat (length p) = sw.(m_virtual_networks)) sw.(m_out);
  d_out link v id : out_buffer sw link v = Ok id -> is_Some (w.(buffers) !! id) /\
    delay id = 1 /\ (forall c', w.(consumer_of) !! id = Some c' -> w.(switches) !! c' = None) /\
    forall entry, vget sw.(m_routing_table) link = Ok entry -> bits entry ⊆ reach id;
  d_links l l' v id : out_buffer sw l v = Ok id -> out_buffer sw l' v = Ok id -> l = l';
  d_table : Forall ok sw.(m_routing_table);
  d_size : length sw.(m_routing_table) = length sw.(m_out);
  d_order : m_link <$> sw.(m_link_order) ≡ₚ upto (Z.of_nat (length sw.(m_out)));
  d_start : port_start_ok sw
}.

Definition wired_all (w : World) : Prop :=
  forall c sw, w.(switches) !! c = Some sw -> wired w c sw.

Lemma shape_switch_None w w' c : shape w w' -> w'.(switches) !! c = None <-> w.(switches) !! c = None.
Proof. intros S. destruct (h_switches _ _ S c); done. Qed.

Lemma shape_wired w w' c sw sw' : shape w w' -> sw_shape sw sw' -> wired w c sw -> wired w' c sw'.
Proof.
  intros S Z []. destruct Z as [Zi Zo Zt Zv Zp Zr Zs].
  split; unfold in_buffer, out_buffer in *; rewrite ?Zi, ?Zo, ?Zt, ?Zv, ?Zp, ?(h_network _ _ S),
    ?(a_consumers _ _ (h_around _ _ S)); try done.
  - intros port v id Hid. destruct (d_in0 port v id Hid) as (Hc & (b & Hb & Hv) & Hr).
    split; [done|]. split; [|done]. destruct (shape_buffer w w' id b S Hb) as (b' & Hb' & E).
    exists b'. by rewrite E.
  - intros link v id Hid. destruct (d_out0 link v id Hid) as ([b Hb] & Hd & Hc & Hr).
    split; [destruct (shape_buffer w w' id b S Hb) as (b' & -> & _); by eexists|].
    split; [done|]. split; [|done]. intros c' Hc'. by apply (shape_switch_None w w' c' S), Hc.
  - by rewrite Zr.
  - by apply Zs.
Qed.

Lemma shape_wired_all w w' : shape w w' -> wired_all w -> wired_all w'.
Proof.
  intros S Hw c sw' Hsw'. pose proof (h_switches _ _ S c) as R. rewrite Hsw' in R.
  inversion R as [sw ? Hsh E1 E2|]. subst. by apply (shape_wired w w' c sw), Hw.
Qed.

Lemma in_out_apart w c sw port v i link v' o : wired w c sw -> w.(switches) !! c = Some sw ->
  in_buffer sw port v = Ok i -> out_buffer sw link v' = Ok o -> o <> i.
Proof.
  intros [] Hsw Hi Ho ->. destruct (d_in0 _ _ _ Hi) as (Hc & _).
  destruct (d_out0 _ _ _ Ho) as (_ & _ & Hs & _). specialize (Hs c Hc). congruence.
Qed.

Lemma out_buffer_at w c sw link v : wired w c sw -> 0 <= v < sw.(m_virtual_networks) ->
  0 <= link < Z.of_nat (length sw.(m_out)) -> exists id, out_buffer sw link v = Ok id.
Proof.
  intros [] Hv Hl. destruct (vget_in_range _ _ Hl) as [p Hp]. unfold out_buffer.
  rewrite Hp, bind_Ok_run. by apply (port_buffer sw.(m_out) sw.(m_virtual_networks) v link p).
Qed.

Lemma in_buffer_at w c sw port v : wired w c sw -> 0 <= v < sw.(m_virtual_networks) ->
  0 <= port < Z.of_nat (length sw.(m_in)) -> exists id, in_buffer sw port v = Ok id.
Proof.
  intros [] Hv Hl. destruct (vget_in_range _ _ Hl) as [p Hp]. unfold in_buffer.
  rewrite Hp, bind_Ok_run. by apply (port_buffer sw.(m_in) sw.(m_virtual_networks) v port p).
Qed.

(** ** Slots and the order of the links *)
Lemma still_exists w w' id : still w w' -> is_Some (w.(buffers) !! id) -> is_Some (w'.(buffers) !! id).
Proof. intros (bs & -> & Hbs) [b Hb]. specialize (Hbs id). rewrite Hb in Hbs. inversion Hbs. by eexists. Qed.

Lemma enough_slots_runs bs : forall w ok, (forall b, b ∈ bs -> is_Some (w.(buffers) !! b)) ->
  runs (enough_slots m_clock bs ok) (fun _ w' => still w w') w.
Proof.
  induction bs as [|b bs IH]; intros w ok Hbs; cbn [enough_slots].
  { apply wp_ret, still_refl. }
  destruct (Hbs b (list_elem_of_here b bs)) as [x Hx].
  destruct (slots_still m_clock w b x Hx) as (r & w1 & Hr & S1).
  apply wp_bind, (wp_of_run _ _ _ _ _ Hr). eapply wp_mono.
  - apply (IH w1). intros y Hy. apply (still_exists w); [done|]. apply Hbs. by right.
  - intros a w2 S2. by eapply still_trans.
Qed.

Lemma queue_length_runs ports vs : forall w n,
  (forall v, v ∈ vs -> exists id, vget ports v = Ok id /\ is_Some (w.(buffers) !! id)) ->
  runs (queue_length m_clock ports vs n) (fun _ w' => still w w') w.
Proof.
  induction vs as [|v vs IH]; intros w n Hvs; cbn [queue_length].
  { apply wp_ret, still_refl. }
  destruct (Hvs v (list_elem_of_here v vs)) as (id & Hid & [x Hx]).
  apply wp_bind. unfold wp at 1. rewrite Hid. cbn [lift].
  destruct (size_still m_clock w id x Hx) as (r & w1 & Hr & S1).
  apply wp_bind, (wp_of_run _ _ _ _ _ Hr). eapply wp_mono.
  - apply (IH w1). intros y Hy. destruct (Hvs y) as (i & Hi & Hs); [by right|].
    exists i. split; [done|]. by apply (still_exists w).
  - intros a w2 S2. by eapply still_trans.
Qed.

(** Everything is as before but the order of the links of [c]. *)
Definition reordered (w w' : World) (c : Z) (sw : PerfectSwitch) (o : list LinkOrder) : Prop :=
  calm w w' /\ w'.(switches) = <[c := sw <| m_link_order := o |>]> w.(switches).

Lemma calm_with_switch w c sw sw' : w.(switches) !! c = Some sw ->
  sw'.(m_pending_message_count) = sw.(m_pending_message_count) ->
  calm w (w <| switches ::= <[c := sw']> |>).
Proof.
  intros Hc Hp. pose proof (calm_refl w) as []. split; try done. intros c'. cbn.
  destruct (decide (c' = c)) as [->|Hne].
  - rewrite lookup_insert_eq, Hc. cbn. by rewrite Hp.
  - by rewrite lookup_insert_ne.
Qed.

Lemma reordered_set w w' c sw o o' : w.(switches) !! c = Some sw -> reordered w w' c sw o ->
  reordered w (w' <| switches ::= <[c := sw <| m_link_order := o' |>]> |>) c sw o'.
Proof.
  intros Hc [C E]. split.
  - eapply calm_trans; [exact C|]. eapply calm_with_switch; [by rewrite E, lookup_insert_eq|done].
  - cbn. by rewrite E, insert_insert_eq.
Qed.

Lemma set_order_runs w w' c sw o i value (Q : unit -> World -> Prop) :
  w.(switches) !! c = Some sw -> reordered w w' c sw o -> 0 <= i < Z.of_nat (length o) ->
  (forall w'', reordered w w'' c sw (<[Z.to_nat i := mkLinkOrder i value]> o) -> Q tt w'') ->
  runs (set_order c i value) Q w'.
Proof.
  intros Hc R Hi HQ. pose proof R as [C E]. unfold set_order.
  assert (w'.(switches) !! c = Some (sw <| m_link_order := o |>)) as Hc'
    by (by rewrite E, lookup_insert_eq).
  apply wp_bind, (wp_switch _ _ _ _ Hc'). apply wp_bind. unfold wp at 1.
  rewrite vset_in_range by done. cbn [lift]. unfold set_switch. apply wp_modify.
  rewrite (set_switch_insert w' c _ _ Hc'). apply HQ.
  by apply (reordered_set w w' c sw o).
Qed.

Lemma length_order_out w c sw : wired w c sw -> length sw.(m_link_order) = length sw.(m_out).
Proof.
  intros []. pose proof (Permutation_length d_order0) as E.
  rewrite length_fmap, length_upto in E. lia.
Qed.

Lemma reordered_refl w c sw : w.(switches) !! c = Some sw -> reordered w w c sw sw.(m_link_order).
Proof.
  intros Hc. split; [apply calm_refl|]. symmetry. apply insert_id. rewrite Hc. by destruct sw.
Qed.

Lemma reordered_still w w1 w2 c sw o : reordered w w1 c sw o -> still w1 w2 -> reordered w w2 c sw o.
Proof.
  intros [C E] S. split; [eapply calm_trans; [exact C|by apply still_calm]|].
  destruct S as (bs & -> & _). done.
Qed.

Lemma reordered_draw w w1 c sw o f : reordered w w1 c sw o ->
  reordered w (w1 <| w_draws ::= f |>) c sw o.
Proof.
  intros [C E]. split; [|done]. destruct C. split; try done. by destruct l_around0.
Qed.

Lemma order_links_runs w c sw v : w.(switches) !! c = Some sw -> wired w c sw ->
  0 <= v < sw.(m_virtual_networks) ->
  runs (order_links m_clock rand c v) (fun _ w' => exists o, reordered w w' c sw o /\
    m_link <$> o ≡ₚ upto (Z.of_nat (length sw.(m_out)))) w.
Proof.
  intros Hc D Hv. pose proof (length_order_out w c sw D) as Hlen.
  assert (reordered w w c sw sw.(m_link_order)) as R0 by (by apply reordered_refl).
  assert (placed sw 0 sw.(m_link_order)) as P0 by (split; [done|intros i Hi; lia]).
  unfold order_links. apply wp_bind, wp_gets. apply wp_bind, (wp_switch _ _ _ _ Hc).
  destruct (negb _). { apply wp_ret. eexists. split; [exact R0|apply D]. }
  destruct (vget_in_range w.(network).(m_ordered) v) as [ord Hord].
  { pose proof (d_ordered _ _ _ D). lia. }
  apply wp_bind. unfold wp at 1. rewrite Hord. cbn [lift]. destruct ord.
  - eapply wp_mono; [apply (wp_for_upto _ _ _ (fun k w' => exists o, reordered w w' c sw o /\
      placed sw k o)); [lia|by exists sw.(m_link_order); split|]|].
    + intros k w' Hk (o & R & P). eapply set_order_runs; [done|exact R|by rewrite (proj1 P)|].
      intros w'' R'. eexists. split; [exact R'|]. by apply placed_next.
    + intros ? w' (o & R & P). exists o. split; [done|]. by rewrite (placed_all sw o P).
  - apply wp_bind. eapply wp_mono; [apply (wp_for_upto _ _ _ (fun k w' => exists o,
      reordered w w' c sw o /\ placed sw k o)); [lia|by exists sw.(m_link_order); split|]|].
    + intros k w' Hk (o & R & P).
      destruct (vget_in_range sw.(m_out) k Hk) as [ports Hports].
      apply wp_bind. unfold wp at 1. rewrite Hports. cbn [lift].
      apply wp_bind. eapply wp_mono; [apply queue_length_runs|].
      { intros u Hu%elem_of_upto. destruct (out_buffer_at w c sw k u D Hu Hk) as [id Hid].
        unfold out_buffer in Hid. rewrite Hports, bind_Ok_run in Hid. exists id. split; [done|].
        assert (out_buffer sw k u = Ok id) as Ho by (unfold out_buffer; by rewrite Hports).
        destruct (d_out _ _ _ D k u id Ho) as ([b Hb] & _).
        pose proof (l_buffers _ _ (proj1 R) id) as L. rewrite Hb in L. inversion L. by eexists. }
      intros n w1 S1. cbv beta in S1. apply wp_bind. unfold random, wp at 1.
      eapply set_order_runs; [done| |by rewrite (proj1 P)|].
      { apply reordered_draw. by eapply reordered_still. }
      intros w'' R'. eexists. split; [exact R'|]. by apply placed_next.
    + intros ? w' (o & R & P). unfold set_switch. apply wp_modify.
      assert (w'.(switches) !! c = Some (sw <| m_link_order := o |>)) as Hc'
        by (by rewrite (proj2 R), lookup_insert_eq).
      rewrite (set_switch_insert w' c _ _ Hc'). exists (sort o). split.
      * by apply (reordered_set w w' c sw o).
      * rewrite sort_permutes. by rewrite (placed_all sw o P).
Qed.

End spec.
End SwitchSpec.

(** * Sending a message along several links

    The message goes into the buffer of the first link, copies of it go into
    the others; each carries the destinations of its link and nothing else in
    the store changes. *)
Module SwitchSend.
Import MessageHeap MessageBuffer NetWorld NetWorldSpec NetWorldOps PerfectSwitch SwitchSpec.

(** New messages are in the buffers [bs] and nowhere else. *)
Record spread (w w' : World) (bs : list Z) : Prop := {
  e_shape : shape w w';
  e_switches : w'.(switches) = w.(switches);
  e_buffers id b : w.(buffers) !! id = Some b -> exists b', w'.(buffers) !! id = Some b' /\
    (if decide (id ∈ bs) then b'.(m_counter) = b.(m_counter) + 1 else b' = b);
  e_mail f : (forall c v, w.(switches) !! c = None -> f c v = false) -> mail f w' = mail f w
}.

Lemma spread_refl w : spread w w [].
Proof.
  split; try done. intros id b Hb. exists b. split; [done|]. by rewrite decide_False by set_solver.
Qed.

Lemma spread_trans w1 w2 w3 b bs : b ∉ bs ->
  spread w1 w2 [b] -> spread w2 w3 bs -> spread w1 w3 (b :: bs).
Proof.
  intros Hb [] []. split; [by etrans|congruence| |].
  - intros id x Hx. destruct (e_buffers0 id x Hx) as (y & Hy & E1).
    destruct (e_buffers1 id y Hy) as (z & Hz & E2). exists z. split; [done|].
    repeat case_decide; subst; try congruence; set_solver.
  - intros f Hf. rewrite e_mail1 by (by rewrite e_switches0). by apply e_mail0.
Qed.

(** Nothing but messages that no buffer holds has changed. *)
Lemma spread_mail w w' : around w w' -> w'.(buffers) = w.(buffers) ->
  w'.(switches) = w.(switches) -> w'.(network) = w.(network) ->
  w'.(throttles) = w.(throttles) -> spread w w' [].
Proof.
  intros F Eb Es En Et. split; rewrite ?Eb, ?Es; try done.
  - split; rewrite ?Eb, ?Es; try done. intros c. by rewrite Et.
  - intros id b Hb. exists b. split; [done|]. by rewrite decide_False by set_solver.
  - intros f _. unfold mail. by rewrite Eb, (a_consumers _ _ F).
Qed.

Lemma spread_nil_l w1 w2 w3 bs : spread w1 w2 [] -> spread w2 w3 bs -> spread w1 w3 bs.
Proof.
  intros [] []. split; [by etrans|congruence| |].
  - intros id x Hx. destruct (e_buffers0 id x Hx) as (y & Hy & E1).
    rewrite decide_False in E1 by set_solver. subst y. by apply e_buffers1.
  - intros f Hf. rewrite e_mail1 by (by rewrite e_switches0). by apply e_mail0.
Qed.

(** Rebracketing two steps of a sequence. *)
Lemma wp_bind' {S A B C} E (m : M S A) (f : A -> M S B) (g : B -> M S C) Q s :
  wp E (m ≫= f) (fun b s' => wp E (g b) Q s') s ->
  wp E (m ≫= fun a => f a ≫= g) Q s.
Proof. unfold wp, mbind, M_bind. destruct (m s) as [[a s1]|e]; [|done]. by destruct (f a s1) as [[]|]. Qed.

Section send.
#[local] Set Default Proof Using "Type".
Context {MT : MachineTypes} {MTL : MachineTypeLaws}.
Context (m_clock : Z) (rand : nat -> Z).
Context (reach : Z -> gset MachineID) (delay : Z -> Z).
Import NetDestSpec.

Abbreviation world_ok := (world_ok m_clock reach delay).
Abbreviation now := (now m_clock).

(** A message ready to be sent: no buffer holds it. *)
Record at_hand (w : World) (q k : Z) : Prop := {
  t_loose : loose w q;
  t_msg : exists m, w.(w_messages) !! q = Some m /\ m.(m_LastEnqueueTime) <= now w;
  t_net : exists nm, w.(net_messages) !! q = Some nm /\ msg_ok nm /\ nm.(payload) = k
}.

(** A buffer that can take a message for [d]. *)
Record target (w : World) (o : Z) (d : NetDest.t) : Prop := {
  g_ok : ok d;
  g_reach : bits d ⊆ reach o;
  g_delay : delay o = 1;
  g_room : exists b, w.(buffers) !! o = Some b /\ b.(m_counter) + 1 < 2 ^ 31;
  g_consumer c : w.(consumer_of) !! o = Some c -> w.(switches) !! c = None
}.

Lemma spread_target w w' bs o d : spread w w' bs -> o ∉ bs -> target w o d -> target w' o d.
Proof.
  intros S Ho [? ? ? (b & Hb & Hc) Hcons]. split; try done.
  - destruct (e_buffers _ _ _ S o b Hb) as (b' & Hb' & E). rewrite decide_False in E by done.
    subst. by exists b.
  - intros c. rewrite (a_consumers _ _ (h_around _ _ (e_shape _ _ _ S))), (e_switches _ _ _ S).
    apply Hcons.
Qed.

Lemma sent_spread w w' o b b' q nm : sent m_clock reach delay w w' o b b' q nm ->
  w.(buffers) !! o = Some b -> (forall c, w.(consumer_of) !! o = Some c -> w.(switches) !! c = None) ->
  spread w w' [o].
Proof.
  intros S Hb Hcons. pose proof S as []. destruct s_switches0 as (c & Hc & Es).
  rewrite (alter_lookup_None _ _ _ (Hcons c Hc)) in Es. split; [|done| |].
  - split; [done| |done|intros ?; by rewrite s_throttles0|]; rewrite ?Es; [|done]. intros id. rewrite s_buffers0.
    destruct (decide (id = o)) as [->|Hne]; [rewrite lookup_insert_eq, Hb; cbn; congruence|].
    by rewrite lookup_insert_ne.
  - intros id x Hx. rewrite s_buffers0. case_decide as Hid.
    + apply list_elem_of_singleton in Hid as ->. exists b'. rewrite lookup_insert_eq. split; [done|].
      congruence.
    + exists x. rewrite lookup_insert_ne by set_solver. done.
  - intros f Hf. rewrite (sent_mail m_clock reach delay w w' o b b' q nm S Hb).
    unfold counted. rewrite Hc, (Hf c) by (by apply Hcons). lia.
Qed.

(** One message into one buffer. *)
Lemma send_one w q k o d : world_ok w -> at_hand w q k -> target w o d ->
  runs (setInternalDestination (Some q) d;;
        on_buffer o (enqueue m_clock rand (Some q) 1))
    (fun _ w' => world_ok w' /\ spread w w' [o] /\
      (forall p j, p <> q -> at_hand w p j -> at_hand w' p j) /\
      forall j e, carried w' j e = (carried w j e + bit (k = j /\ e ∈ bits d))%nat) w.
Proof.
  intros OK [Hl (m & Hm & Hlast) (nm & Hnm & Hok & Hk)] [Hd Hr Hdelay (b & Hb & Hcnt) Hcons].
  destruct (setInternalDestination_run w q nm d Hnm Hok Hd) as (nm' & Hrun & Hok' & Hdst & Hp).
  apply wp_bind, (wp_of_run _ _ _ _ _ Hrun).
  set (w1 := w <| net_messages ::= <[q := nm']> |>).
  assert (around w w1) as F1 by done.
  assert (forall p, p <> q -> w1.(w_messages) !! p = w.(w_messages) !! p /\
    w1.(net_messages) !! p = w.(net_messages) !! p) as Em
    by (intros p Hp'; split; [done|]; cbn; by rewrite lookup_insert_ne).
  assert (world_ok w1) as OK1 by (apply (change_ok m_clock reach delay w w1 q); try done; exact (proj2 Hl)).
  assert (w1.(net_messages) !! q = Some nm') as Hnm1 by (cbn; apply lookup_insert_eq).
  assert (bits d ⊆ reach o) as Hr1 by done. rewrite <- Hdst in Hr1.
  destruct (enqueue_world m_clock rand reach delay w1 o b q m nm') as (w2 & b' & Hq & S); try done.
  { rewrite Hdelay. done. }
  rewrite Hdelay in Hq. apply (wp_of_run _ _ _ _ _ Hq).
  pose proof S as []. split; [done|]. split; [|split].
  - apply (spread_nil_l w w1); [by apply spread_mail|]. by apply (sent_spread w1 w2 o b b' q nm').
  - intros p j Hpq [Hpl (mp & Hmp & Htp) (np & Hnp & Hokp & Hkp)].
    destruct (Em p Hpq) as [E1 E2]. split.
    + by apply (sent_loose m_clock reach delay w1 w2 o b b' q nm' S Hb).
    + exists mp. rewrite s_messages0, E1 by done. split; [done|]. unfold NetWorldSpec.now.
      by rewrite (a_tick _ _ s_around0).
    + exists np. by rewrite s_net0, E2.
  - intros j e. rewrite (sent_carried m_clock reach delay w1 w2 o b b' q nm' S Hb j e Hnm1).
    rewrite (change_carried w w1 q) by (done || exact (proj2 Hl)). unfold bears.
    rewrite Hdst, Hp, Hk. done.
Qed.

(** A private copy of a message. *)
Lemma clone_one w q k : world_ok w -> at_hand w q k ->
  runs (clone (Some q)) (fun p w' => exists new, p = Some new /\ new <> q /\
    world_ok w' /\ spread w w' [] /\ at_hand w' new k /\
    (forall p j, at_hand w p j -> at_hand w' p j) /\
    forall j e, carried w' j e = carried w j e) w.
Proof.
  intros OK [Hl (m & Hm & Hlast) (nm & Hnm & Hok & Hk)].
  destruct (clone_run w q m nm Hm Hnm Hok) as (w' & Hrun & K). apply (wp_of_run _ _ _ _ _ Hrun).
  pose proof K as []. exists w.(next_message).
  assert (forall p, p < w.(next_message) -> p <> w.(next_message)) as Hne by (intros; lia).
  assert (now w' = now w) as Et by (unfold NetWorldSpec.now; by rewrite (a_tick _ _ k_around0)).
  split; [done|]. split; [destruct Hl; lia|].
  split; [by apply (cloned_ok m_clock reach delay w w' m nm)|].
  split; [by apply spread_mail|]. split; [|split].
  - split; [by apply (cloned_loose m_clock reach delay w w' m nm)| |].
    + exists m. rewrite Et. done.
    + destruct k_net0 as (nm' & ? & ? & _ & Hp). exists nm'. split_and!; [done..|congruence].
  - intros p j [Hpl (mp & Hmp & Htp) (np & Hnp & ?)].
    destruct (k_other0 p (Hne p (proj1 Hpl))) as [E1 E2].
    split; [by apply (cloned_loose_other w w' m nm K)| |].
    + exists mp. by rewrite E1, Et.
    + exists np. by rewrite E2.
  - intros j e. by apply (cloned_carried m_clock reach delay w w' m nm).
Qed.

(** What sending to [links] adds. *)
Definition gain (k : Z) (links : list (Z * NetDest.t)) (j : Z) (e : MachineID) : nat :=
  sum_list_with (fun bd => bit (k = j /\ e ∈ bits bd.2)) links.

Lemma send_copies_runs links : forall w u k, world_ok w -> at_hand w u k ->
  NoDup links.*1 -> (forall o d, (o, d) ∈ links -> target w o d) ->
  runs (send_copies m_clock rand (Some u) links)
    (fun _ w' => world_ok w' /\ spread w w' links.*1 /\
      forall j e, carried w' j e = (carried w j e + gain k links j e)%nat) w.
Proof.
  induction links as [|[o d] links IH]; intros w u k OK Hu Hnd Ht; cbn [send_copies].
  { apply wp_ret. split; [done|]. split; [apply spread_refl|]. intros j e. unfold gain. cbn. lia. }
  cbn in Hnd. apply NoDup_cons in Hnd as [Ho Hnd].
  apply wp_bind. eapply wp_mono; [by apply (clone_one w u k)|].
  intros ? w1 (new & -> & Hne & OK1 & S1 & Hnew & Hold & Hc1).
  apply wp_bind'. eapply wp_mono.
  { apply (send_one w1 new k o d OK1 Hnew). apply (spread_target w w1 []); [done|set_solver|].
    apply Ht. left. }
  intros ? w2 (OK2 & S2 & Hold2 & Hc2). eapply wp_mono.
  { apply (IH w2 u k OK2); [by apply Hold2, Hold|done|].
    intros o' d' Hin. assert (o' ∈ links.*1) as Hin' by (by apply (list_elem_of_fmap_2 fst _ (o', d'))).
    apply (spread_target w1 w2 [o]); [done|set_solver|]. apply (spread_target w w1 []); [done|set_solver|].
    apply Ht. by right. }
  intros ? w3 (OK3 & S3 & Hc3). split; [done|]. split.
  - cbn. apply (spread_nil_l w w1); [done|]. by apply (spread_trans w1 w2).
  - intros j e. rewrite Hc3, Hc2, Hc1. unfold gain. cbn. lia.
Qed.

Lemma send_runs links w q k : world_ok w -> at_hand w q k ->
  NoDup links.*1 -> (forall o d, (o, d) ∈ links -> target w o d) ->
  runs (send m_clock rand (Some q) links)
    (fun _ w' => world_ok w' /\ spread w w' links.*1 /\
      forall j e, carried w' j e = (carried w j e + gain k links j e)%nat) w.
Proof.
  intros OK Hq Hnd Ht. unfold send. destruct links as [|[o d] links].
  { apply wp_bind, wp_ret, wp_ret. split; [done|]. split; [apply spread_refl|].
    intros j e. unfold gain. cbn. lia. }
  cbn in Hnd. apply NoDup_cons in Hnd as [Ho Hnd].
  apply wp_bind. eapply (wp_mono _ _ (fun p w1 => world_ok w1 /\ spread w w1 [] /\ at_hand w1 q k /\
    (forall j e, carried w1 j e = carried w j e) /\
    (links <> [] -> exists u, p = Some u /\ u <> q /\ at_hand w1 u k))).
  { destruct links as [|ld links].
    - apply wp_ret. by split_and!; [|apply spread_refl|..].
    - eapply wp_mono; [by apply (clone_one w q k)|].
      intros p w1 (new & -> & Hne & OK1 & S1 & Hnew & Hold & Hc). split_and!; try done; [by apply Hold|].
      intros _. by exists new. }
  intros p w1 (OK1 & S1 & Hq1 & Hc1 & Hu). apply wp_bind'. eapply wp_mono.
  { apply (send_one w1 q k o d OK1 Hq1). apply (spread_target w w1 []); [done|set_solver|].
    apply Ht. left. }
  intros ? w2 (OK2 & S2 & Hold2 & Hc2).
  destruct links as [|ld links].
  { apply wp_ret. split; [done|]. split; [by apply (spread_nil_l w w1)|].
    intros j e. rewrite Hc2, Hc1. unfold gain. cbn. lia. }
  destruct Hu as (u & -> & Hne & Hu); [done|].
  eapply wp_mono.
  { apply (send_copies_runs (ld :: links) w2 u k OK2); [by apply Hold2|done|].
    intros o' d' Hin.
    assert (o' ∈ (ld :: links).*1) as Hin' by (by apply (list_elem_of_fmap_2 fst _ (o', d'))).
    apply (spread_target w1 w2 [o]); [done|set_solver|]. apply (spread_target w w1 []); [done|set_solver|].
    apply Ht. by right. }
  intros ? w3 (OK3 & S3 & Hc3). split; [done|]. split.
  - change (((o, d) :: ld :: links).*1) with (o :: (ld :: links).*1).
    apply (spread_nil_l w w1); [done|]. by apply (spread_trans w1 w2).
  - intros j e. rewrite Hc3, Hc2, Hc1. unfold gain. cbn. lia.
Qed.

(** ** Sending leaves the other buffers alone *)
Lemma ignores_net_message i p : ignores i (net_message p).
Proof.
  destruct p as [q|]; [|done]. apply ignores_bind; [by apply ignores_gets|]. intros ms.
  destruct (ms !! q); [apply ignores_ret|apply ignores_fail].
Qed.

Lemma ignores_setInternalDestination i p d : ignores i (setInternalDestination p d).
Proof.
  unfold setInternalDestination, getInternalDestination.
  repeat first [apply ignores_bind; [|intros ?] | apply ignores_net_message | apply ignores_lift
    | apply ignores_ret | apply ignores_modify; done
    | match goal with |- ignores _ (match ?x with _ => _ end) => destruct x end].
Qed.

Lemma ignores_clone i p : ignores i (clone p).
Proof.
  unfold clone.
  repeat first [apply ignores_bind; [|intros ?] | apply ignores_net_message | apply ignores_lift
    | apply ignores_ret | apply ignores_fail | apply ignores_gets; done | apply ignores_modify; done
    | match goal with |- ignores _ (match ?x with _ => _ end) => destruct x end].
Qed.

Lemma ignores_send_copies i links : i ∉ links.*1 -> forall u, ignores i (send_copies m_clock rand u links).
Proof.
  induction links as [|[o d] links IH]; intros Hi u; cbn [send_copies]; [apply ignores_ret|].
  cbn in Hi. apply not_elem_of_cons in Hi as [Ho Hi].
  repeat first [apply ignores_clone | apply ignores_setInternalDestination
    | apply ignores_on_buffer; by apply not_eq_sym | apply ignores_bind; [|intros ?]].
  by apply IH.
Qed.

Lemma ignores_send i links p : i ∉ links.*1 -> ignores i (send m_clock rand p links).
Proof.
  intros Hi. unfold send. apply ignores_bind.
  { destruct links as [|? [|]]; first [apply ignores_ret|apply ignores_clone]. }
  intros u. destruct links as [|[o d] links]; [apply ignores_ret|].
  cbn in Hi. apply not_elem_of_cons in Hi as [Ho Hi].
  repeat first [apply ignores_setInternalDestination
    | apply ignores_on_buffer; by apply not_eq_sym | apply ignores_bind; [|intros ?]].
  by apply ignores_send_copies.
Qed.

End send.
End SwitchSend.
