(* ===== verification/SwitchWakeup.v ===== *)
(** * A switch: its loops

    One round of the loop over a buffer ([SwitchForward]) and the wakeup
    ([SwitchWakeup]). *)

From S2P Require Import Prelude.
From S2P Require Import NodeSet.
From S2P Require Import NetDest.
From S2P Require Import NetDestSpec.
From S2P Require Import NetDestRefines.
From S2P Require Import MessageHeap.
From S2P Require Import MessageBuffer.
From S2P Require Import MessageBufferFifo.
From S2P Require Import NetWorld.
From S2P Require Import NetWorldOps.
From S2P Require Import PerfectSwitch.
From S2P Require Import SwitchSend.

(** * A round of the switch

    One round of the loop over an input buffer either moves the message at its
    head, each destination into the buffer of exactly one link, or finds an
    output buffer full and asks to be woken in the next cycle. *)
Module SwitchForward.
Import MessageHeap MessageBuffer NetWorld NetWorldSpec NetWorldOps PerfectSwitch SwitchRouting
  SwitchSpec SwitchSend.

Lemma i32_pred x : i32 (i32 x - 1) = i32 (x - 1).
Proof.
  unfold i32. f_equal.
  replace ((x + 2 ^ 31) mod 2 ^ 32 - 2 ^ 31 - 1 + 2 ^ 31) with ((x + 2 ^ 31) mod 2 ^ 32 - 1) by lia.
  rewrite Zminus_mod_idemp_l. f_equal. lia.
Qed.

(** ** Waking up again *)
Lemma scheduleEvent_runs m_clock w c :
  runs (scheduleEvent m_clock c 1) (fun _ w' => calm w w' /\ w'.(switches) = w.(switches) /\
    w'.(buffers) = w.(buffers) /\ now m_clock w' + 1 ∈ scheduled w' c) w.
Proof.
  unfold scheduleEvent, getTime. apply wp_bind, wp_gets, wp_bind, wp_get. cbn zeta.
  change (w_tick w / m_clock) with (now m_clock w). case_bool_decide as Hin.
  - apply wp_ret. split; [apply calm_refl|]. by rewrite Z.add_comm.
  - apply wp_bind, wp_assert; [intros _|intros E; exfalso; bool_to_Z; lia]. apply wp_modify.
    split; [|split; [done|split; [done|]]].
    + pose proof (calm_refl w) as []. split; try done. destruct l_around0. split; try done.
      cbn. apply union_subseteq_r.
    + apply elem_scheduled. cbn. apply elem_of_union_l, elem_of_singleton. unfold now. cbn.
      f_equal. lia.
Qed.

Section forward.
#[local] Set Default Proof Using "Type".
Context {MT : MachineTypes} {MTL : MachineTypeLaws} {LS : LinkSort}.
Context (m_clock : Z) (rand : nat -> Z).
Context (reach : Z -> gset MachineID) (delay : Z -> Z).
Import NetDestSpec.

Abbreviation world_ok := (world_ok m_clock reach delay).
Abbreviation now := (now m_clock).
Abbreviation wired := (wired reach delay).

(** The counters of the buffers have room for what may still come. *)
Definition room (B : Z) (w : World) (c : Z) : Prop :=
  forall id b, w.(buffers) !! id = Some b -> b.(m_counter) + Z.of_nat (inflow w c) <= B.

(** What holds before and after every round. *)
Record steady (B : Z) (w w' : World) (c : Z) : Prop := {
  y_ok : world_ok w';
  y_shape : shape w w';
  y_carried k e : carried w' k e = carried w k e;
  y_room : room B w' c;
  y_pending : pending_ok w -> pending_ok w'
}.

Lemma steady_refl B w c : world_ok w -> room B w c -> steady B w w c.
Proof. by split. Qed.

Lemma steady_trans B w1 w2 w3 c : steady B w1 w2 c -> steady B w2 w3 c -> steady B w1 w3 c.
Proof.
  intros [] []. split; [done|by etrans| |done|auto]. intros k e. by rewrite y_carried1.
Qed.

Lemma calm_room B w w' c : calm w w' -> room B w c -> room B w' c.
Proof.
  intros C R id b' Hb'. destruct (calm_buffer w w' id b' C Hb') as (b & Hb & U).
  unfold inflow. rewrite (u_counter _ _ U), (calm_mail _ w w' C). by apply (R id).
Qed.

Lemma calm_steady B w w' c : calm w w' -> world_ok w -> room B w c ->
  (forall c, option_Forall2 sw_shape (w.(switches) !! c) (w'.(switches) !! c)) -> steady B w w' c.
Proof.
  intros C OK R Hs. split.
  - by apply (calm_ok m_clock reach delay w).
  - by apply calm_shape.
  - intros k e. by apply calm_carried.
  - by apply (calm_room B w).
  - by apply calm_pending.
Qed.

(** ** Counting what is sent *)
Lemma gain_shares k outs ds j e : length outs = length ds ->
  gain k (zip outs ds) j e = (bit (k = j) * shares ds e)%nat.
Proof.
  clear rand reach delay. revert ds. induction outs as [|o outs IH]; intros [|d ds] Hl; try done.
  injection Hl as Hl. specialize (IH ds Hl). unfold gain, shares in *. cbn. rewrite IH.
  unfold bit. repeat case_decide; (tauto || lia).
Qed.

(** The buffers of the links exist and are different. *)
Lemma outs_run sw links v :
  Forall (fun l => exists id, out_buffer sw l v = Ok id) links ->
  exists outs, mapM (fun l => out_buffer sw l v) links = Ok outs /\
    Forall2 (fun l id => out_buffer sw l v = Ok id) links outs.
Proof.
  clear. induction 1 as [|l links [id Hid] _ IH]; [by exists []|].
  destruct IH as (outs & Hr & Hf). exists (id :: outs). cbn. rewrite Hid, bind_Ok_run.
  change (mapM (fun l => out_buffer sw l v) links) with (mapM (fun l => out_buffer sw l v) links).
  rewrite Hr. split; [done|by constructor].
Qed.

Lemma outs_NoDup w c sw v links outs : wired w c sw ->
  Forall2 (fun l id => out_buffer sw l v = Ok id) links outs -> NoDup links -> NoDup outs.
Proof.
  intros D. induction 1 as [|l id links outs Hid Hf IH]; intros Hnd; [constructor|].
  apply NoDup_cons in Hnd as [Hl Hnd]. apply NoDup_cons. split; [|by apply IH].
  intros Hin. apply list_elem_of_lookup_1 in Hin as [j Hj].
  destruct (Forall2_lookup_r _ _ _ _ _ Hf Hj) as (l' & Hl' & Hid').
  apply Hl. rewrite (d_links _ _ _ _ _ D l l' v id Hid Hid'). by eapply list_elem_of_lookup_2.
Qed.
(** ** Changing a switch *)
Lemma world_ok_switch w c sw sw' : w.(switches) !! c = Some sw -> world_ok w ->
  length sw'.(m_pending_message_count) = length sw.(m_pending_message_count) ->
  world_ok (w <| switches ::= <[c := sw']> |>).
Proof.
  intros Hc OK Hl. destruct OK. split; [|done|].
  - intros id b Hb. by apply (buffer_ok_around m_clock reach delay w); [| |apply w_buffers0].
  - intros id b c' sw0 Hb Hcons. cbn. rewrite lookup_insert_Some.
    intros [[<- <-]|[_ Hsw]]; [rewrite Hl|]; by eapply w_vnets0.
Qed.

Lemma shape_switch w c sw sw' : w.(switches) !! c = Some sw -> sw_shape sw sw' ->
  shape w (w <| switches ::= <[c := sw']> |>).
Proof.
  intros Hc Hs. split; try done. intros c'. cbn. destruct (decide (c' = c)) as [->|Hne].
  - rewrite lookup_insert_eq, Hc. by constructor.
  - by rewrite lookup_insert_ne.
Qed.

Lemma shape_popped w i b b' n : w.(buffers) !! i = Some b -> popped m_clock b b' n ->
  shape w (set_buf i b' w).
Proof.
  intros Hb Hp. split; try done. intros id. cbn. destruct (decide (id = i)) as [->|Hne].
  - rewrite lookup_insert_eq, Hb. cbn. by rewrite (p_vnet _ _ _ _ Hp).
  - by rewrite lookup_insert_ne.
Qed.

Lemma inflow_pos w c i b n : w.(buffers) !! i = Some b -> w.(consumer_of) !! i = Some c ->
  n ∈ b.(m_prio_heap) -> (1 <= inflow w c)%nat.
Proof.
  clear m_clock rand reach delay. intros Hb Hc Hn. unfold inflow, mail.
  pose proof (sum_over_ge (fun id b => match w.(consumer_of) !! id with
    | Some c' => if c' =? c then length (m_prio_heap b) else 0%nat | None => 0%nat end) _ i b Hb) as Hge.
  cbn beta in Hge. rewrite Hc, Z.eqb_refl in Hge. destruct (m_prio_heap b); [by apply elem_of_nil in Hn|].
  cbn in *. lia.
Qed.

Definition forgotten (v k : Z) (sw : PerfectSwitch) : PerfectSwitch :=
  sw <| m_pending_message_count := <[Z.to_nat v := i32 (k - 1)]> sw.(m_pending_message_count) |>.

Definition replaced (w : World) (c : Z) (sw : PerfectSwitch) : World :=
  w <| switches ::= <[c := sw]> |>.

Lemma forget_run w c sw v : w.(switches) !! c = Some sw ->
  0 <= v < Z.of_nat (length sw.(m_pending_message_count)) ->
  exists k, vget sw.(m_pending_message_count) v = Ok k /\ forget_pending c v w =
    Ok (tt, w <| switches ::= <[c := forgotten v k sw]> |>).
Proof.
  clear m_clock rand reach delay. intros Hc Hv. destruct (vget_in_range _ _ Hv) as [k Hk]. exists k. split; [done|].
  unfold forget_pending. rewrite (M_bind_run _ _ _ _ _ (switch_run w c sw Hc)).
  rewrite lift_bind_run, Hk, lift_bind_run, vset_in_range by done.
  unfold set_switch, modify. by rewrite (set_switch_insert w c sw _ Hc).
Qed.

Section deliver.
Context (B : Z) (w : World) (c : Z) (sw : PerfectSwitch) (port v i : Z) (b : Buffer)
  (n : MessageBufferNode) (q : Z) (m : Message) (nm : NetworkMessage) (r : Routing) (outs : list Z).
Context (OK : world_ok w) (Hsw : w.(switches) !! c = Some sw) (D : wired w c sw)
  (Hv : 0 <= v < sw.(m_virtual_networks)) (Hi : in_buffer sw port v = Ok i)
  (Hb : w.(buffers) !! i = Some b) (Ha : arrived m_clock w b = Some n)
  (Hn : node_ok reach w i n q m nm) (R : room B w c) (HB : B < 2 ^ 31)
  (Hr : routed sw.(m_routing_table) (dests nm) r)
  (Ho : Forall2 (fun l id => out_buffer sw l v = Ok id) r.(output_links) outs).

Abbreviation links := (zip outs r.(output_link_destinations)).

Lemma links_fst : links.*1 = outs.
Proof using All.
  apply fst_zip. apply Forall2_length in Ho. pose proof (Forall2_length _ _ _ (r_parts _ _ _ Hr)). lia.
Qed.

Lemma in_not_out : i ∉ outs.
Proof using All.
  intros [j Hj]%list_elem_of_lookup_1. destruct (Forall2_lookup_r _ _ _ _ _ Ho Hj) as (l & _ & Hl).
  by apply (in_out_apart reach delay w c sw port v i l v i D Hsw Hi Hl).
Qed.

Lemma link_target b' o d : popped m_clock b b' n -> (o, d) ∈ links ->
  target reach delay (set_buf i b' w) o d.
Proof using All.
  intros Hp Hin. assert (o <> i) as Hne.
  { intros ->. apply in_not_out. rewrite <- links_fst. by apply (list_elem_of_fmap_2 fst _ (i, d)). }
  apply elem_of_lookup_zip_with in Hin as (j & o' & d' & [= <- <-] & Hoj & Hdj).
  destruct (Forall2_lookup_r _ _ _ _ _ Ho Hoj) as (l & Hlj & Hl).
  destruct (Forall2_lookup_lr _ _ _ _ _ _ (r_parts _ _ _ Hr) Hlj Hdj) as (Hok & _ & entry & He & Hsub).
  destruct (d_out _ _ _ _ _ D l v o Hl) as ([x Hx] & Hdelay & Hcons & Hreach).
  split; [done|set_solver|done| |done].
  exists x. cbn. rewrite lookup_insert_ne by done. split; [done|].
  destruct (d_in _ _ _ _ _ D port v i Hi) as (Hc & _). apply arrived_Some in Ha as [Hh _].
  pose proof (inflow_pos w c i b n Hb Hc (head_in b n Hh)). specialize (R o x Hx). lia.
Qed.

(** The state [w4] after the message was sent: taking it off the buffer gives
    what sending gives in the store without it. *)
Lemma send_then_pop : exists b' w5, popped m_clock b b' n /\
  (send m_clock rand (Some q) links;; on_buffer i (pop m_clock)) w = Ok (tt, w5) /\
  world_ok w5 /\ spread (set_buf i b' w) w5 outs /\
  forall j e, carried w5 j e = (carried (set_buf i b' w) j e + gain nm.(payload) links j e)%nat.
Proof using All.
  destruct (pop_world m_clock reach delay w i b n Hb (w_buffers _ _ _ _ OK i b Hb) Ha)
    as (b' & Hp & Hpop).
  set (wt := set_buf i b' w).
  assert (world_ok wt) as OKt by (by apply (taken_ok m_clock reach delay w i b b' n)).
  assert (at_hand m_clock wt q nm.(payload)) as Hq.
  { split; [by apply (taken_loose m_clock reach delay w i b b' n q m nm)| |].
    - exists m. destruct Hn. split; [done|]. apply arrived_Some in Ha as [_ ?].
      change (now wt) with (now w). lia.
    - exists nm. by destruct Hn. }
  assert (NoDup links.*1) as Hnd
    by (rewrite links_fst; eapply outs_NoDup; [exact D|exact Ho|apply Hr]).
  destruct (run_of_wp _ _ _ (send_runs m_clock rand reach delay links wt q nm.(payload) OKt Hq Hnd
    (fun o d Hin => link_target b' o d Hp Hin))) as ([] & w5 & Hrun & OK5 & S5 & C5).
  assert (ignores i (send m_clock rand (Some q) links)) as Hig
    by (apply ignores_send; rewrite links_fst; apply in_not_out).
  pose proof (Hig b' w) as H1. fold wt in H1. rewrite Hrun in H1.
  pose proof (Hig b w) as H2. assert (set_buf i b w = w) as E.
  { unfold set_buf. destruct w; cbn in *. unfold set_field; cbn. f_equal. by apply insert_id. }
  rewrite E in H2. destruct (send m_clock rand (Some q) links w) as [[[] w4]|e] eqn:Hs; [|done].
  cbn in H1, H2. injection H1 as H1. injection H2 as H2.
  exists b', w5. split; [done|]. split; [|split; [done|]].
  - rewrite (M_bind_run _ _ _ _ _ Hs). rewrite Hpop; [by rewrite H1| |].
    + rewrite H2. cbn. apply lookup_insert_eq.
    + pose proof (a_tick _ _ (h_around _ _ (e_shape _ _ _ S5))) as Et. rewrite H1 in Et. done.
  - rewrite links_fst in S5. done.
Qed.

Lemma delivered_carried b' w5 k e : popped m_clock b b' n ->
  (forall j e, carried w5 j e = (carried (set_buf i b' w) j e + gain nm.(payload) links j e)%nat) ->
  carried w5 k e = carried w k e.
Proof using All.
  intros Hp C5. rewrite C5, (taken_carried m_clock reach w i b b' n q m nm Hb Hp Hn).
  rewrite gain_shares, (r_shares _ _ _ Hr).
  - unfold bears, bit. repeat case_decide; (tauto || lia).
  - pose proof (Forall2_length _ _ _ (r_parts _ _ _ Hr)). apply Forall2_length in Ho. lia.
Qed.

Lemma delivered_counter b' w5 id x y : popped m_clock b b' n -> spread (set_buf i b' w) w5 outs ->
  w5.(buffers) !! id = Some x -> w.(buffers) !! id = Some y -> x.(m_counter) <= y.(m_counter) + 1.
Proof using All.
  intros Hp S5 Hx Hy.
  assert (exists z, (set_buf i b' w).(buffers) !! id = Some z /\ z.(m_counter) = y.(m_counter))
    as (z & Hz & Ez).
  { cbn. destruct (decide (id = i)) as [->|Hne].
    - exists b'. rewrite lookup_insert_eq, (p_counter _ _ _ _ Hp). split; [done|]. congruence.
    - exists y. by rewrite lookup_insert_ne. }
  destruct (e_buffers _ _ _ S5 id z Hz) as (x' & Hx' & E). rewrite Hx in Hx'. injection Hx' as <-.
  case_decide; [lia|]. subst. lia.
Qed.

Lemma delivered_others b' w5 id : spread (set_buf i b' w) w5 outs -> id <> i ->
  w.(consumer_of) !! id = Some c ->
  m_vnet_id <$> w5.(buffers) !! id = m_vnet_id <$> w.(buffers) !! id ->
  w5.(buffers) !! id = w.(buffers) !! id.
Proof using All.
  intros S5 Hne Hcid Hsame. destruct (w.(buffers) !! id) as [x|] eqn:Hx; [|by destruct (w5.(buffers) !! id)].
  destruct (e_buffers _ _ _ S5 id x) as (x' & Hx' & E); [cbn; by rewrite lookup_insert_ne|].
  rewrite decide_False in E; [by subst|]. intros [j Hj]%list_elem_of_lookup_1.
  destruct (Forall2_lookup_r _ _ _ _ _ Ho Hj) as (l & _ & Hl).
  destruct (d_out _ _ _ _ _ D l v id Hl) as (_ & _ & Hcons & _). specialize (Hcons c Hcid). congruence.
Qed.

(** The switch has one message less to expect on this virtual network. *)
Lemma delivered_pending w5 w6 k :
  w6 = replaced w5 c (forgotten v k sw) -> w5.(switches) = w.(switches) -> vget sw.(m_pending_message_count) v = Ok k ->
  (forall f, (forall c v, w.(switches) !! c = None -> f c v = false) ->
    mail f w = (mail f w6 + counted f w i b)%nat) ->
  pending_ok w -> pending_ok w6.
Proof using All.
  intros Ew Es Hk Hmail P c0 sw0 v0 k0 Hsw0 Hk0.
  destruct (d_in _ _ _ _ _ D port v i Hi) as (Hc & (b0 & Hb0 & Hvb) & _).
  rewrite Hb in Hb0. injection Hb0 as <-.
  assert (is_Some (w.(switches) !! c0)) as Hs0.
  { rewrite Ew in Hsw0. cbn in Hsw0. rewrite Es in Hsw0.
    apply lookup_insert_Some in Hsw0 as [[<- _]|[_ ?]]; by eexists. }
  assert (expected w c0 v0 = (expected w6 c0 v0 + bit (c0 = c /\ v0 = v))%nat) as Hexp.
  { unfold expected. rewrite (Hmail (fun c' v' => (c' =? c0) && (v' =? v0))).
    2:{ intros c' v' Hn'. apply andb_false_iff. left. apply Z.eqb_neq. intros ->.
        destruct Hs0. congruence. }
    unfold counted, bit. rewrite Hc, Hvb. do 2 f_equal.
    destruct (Z.eqb_spec c c0), (Z.eqb_spec v v0); case_decide; cbn; naive_solver. }
  rewrite Ew in Hsw0. cbn in Hsw0. rewrite Es in Hsw0. unfold bit in Hexp.
  apply lookup_insert_Some in Hsw0 as [[<- <-]|[Hne Hsw0]].
  - cbn in Hk0. destruct (decide (v0 = v)) as [->|Hne].
    + rewrite vget_insert_eq in Hk0 by (by rewrite (d_vnets _ _ _ _ _ D)). injection Hk0 as <-.
      rewrite (P c sw v k Hsw Hk), i32_pred. f_equal. rewrite decide_True in Hexp by done. lia.
    + rewrite vget_insert_ne in Hk0; [|lia|congruence].
      rewrite (P c sw v0 k0 Hsw Hk0), Hexp, decide_False by naive_solver. do 2 f_equal. lia.
  - rewrite (P c0 sw0 v0 k0 Hsw0 Hk0), Hexp, decide_False by naive_solver. do 2 f_equal. lia.
Qed.

Lemma deliver_runs :
  runs (send m_clock rand (Some q) links;; on_buffer i (pop m_clock);; forget_pending c v;; mret true)
    (fun r w' => r = true /\ steady B w w' c /\
      (exists b', w'.(buffers) !! i = Some b' /\ n :: b'.(m_prio_heap) ≡ₚ b.(m_prio_heap)) /\
      forall id, id <> i -> w.(consumer_of) !! id = Some c ->
        w'.(buffers) !! id = w.(buffers) !! id) w.
Proof using All.
  destruct send_then_pop as (b' & w5 & Hp & Hrun & OK5 & S5 & C5).
  apply wp_bind'. apply (wp_of_run _ _ _ _ _ Hrun). cbv beta.
  assert (w5.(switches) !! c = Some sw) as Hsw5 by (rewrite (e_switches _ _ _ S5); exact Hsw).
  destruct (forget_run w5 c sw v Hsw5) as (k & Hk & Hf); [by rewrite (d_vnets _ _ _ _ _ D)|].
  apply wp_bind, (wp_of_run _ _ _ _ _ Hf), wp_ret.
  change (w5 <| switches ::= _ |>) with (replaced w5 c (forgotten v k sw)).
  set (w6 := replaced w5 c (forgotten v k sw)).
  destruct (d_in _ _ _ _ _ D port v i Hi) as (Hc & (b0 & Hb0 & Hvb) & _).
  rewrite Hb in Hb0. injection Hb0 as <-.
  assert (shape w w6) as Sh.
  { etrans; [by eapply shape_popped|]. etrans; [apply S5|]. apply (shape_switch w5 c sw); [done|].
    split; try done. cbn. by rewrite length_insert. }
  assert (forall f, (forall c v, w.(switches) !! c = None -> f c v = false) ->
    mail f w = (mail f w6 + counted f w i b)%nat) as Hmail.
  { intros f Hfs. rewrite (taken_mail m_clock w i b b' n Hb Hp f).
    change (mail f w6) with (mail f w5). by rewrite (e_mail _ _ _ S5). }
  split; [done|]. split; [split|split].
  - apply (world_ok_switch w5 c sw); [done|done|]. cbn. by rewrite length_insert.
  - exact Sh.
  - intros j e. change (carried w6 j e) with (carried w5 j e). by apply (delivered_carried b').
  - intros id x Hx. pose proof (h_buffers _ _ Sh id) as E. rewrite Hx in E.
    destruct (w.(buffers) !! id) as [y|] eqn:Hy; [|done].
    rewrite <- (R id y Hy). unfold inflow. rewrite (Hmail (fun c' _ => c' =? c)).
    2:{ intros c' v' Hn'. apply Z.eqb_neq. intros ->. congruence. }
    unfold counted. rewrite Hc, Z.eqb_refl.
    assert (x.(m_counter) <= y.(m_counter) + 1); [|lia].
    by apply (delivered_counter b' w5 id).
  - intros P. apply (delivered_pending w5 w6 k); try done. apply (e_switches _ _ _ S5).
  - destruct (e_buffers _ _ _ S5 i b') as (x & Hx & E); [cbn; apply lookup_insert_eq|].
    rewrite decide_False in E by apply in_not_out. subst x. exists b'. split; [done|]. apply Hp.
  - intros id Hne Hcid. apply (delivered_others b' w5 id S5 Hne Hcid). apply Sh.
Qed.
End deliver.

(** The messages in a buffer. *)
Definition heap_at (w : World) (id : Z) : option (list MessageBufferNode) :=
  m_prio_heap <$> w.(buffers) !! id.

Lemma calm_heap w w' id : calm w w' -> heap_at w' id = heap_at w id.
Proof.
  intros C. unfold heap_at. destruct (l_buffers _ _ C id) as [b b' U|]; [|done]. cbn.
  by rewrite (u_heap _ _ U).
Qed.

(** The effect of a round on the input buffers. *)
Definition round_done (w w' : World) (c i : Z) (n : MessageBufferNode) (go_on : bool) : Prop :=
  (forall id, id <> i -> w.(consumer_of) !! id = Some c -> heap_at w' id = heap_at w id) /\
  (if go_on then exists h h', heap_at w i = Some h /\ heap_at w' i = Some h' /\ n :: h' ≡ₚ h
   else heap_at w' i = heap_at w i /\ now w' + 1 ∈ scheduled w' c).

(** Everything before the message leaves is calm. *)
Lemma reading_calm w q nm nm' c sw : world_ok w -> w.(net_messages) !! q = Some nm ->
  w.(switches) !! c = Some sw -> wired w c sw -> msg_ok nm' -> dests nm' = dests nm ->
  nm'.(payload) = nm.(payload) ->
  let w1 := w <| net_messages ::= <[q := nm']> |> in
  world_ok w1 /\ shape w w1 /\ wired w1 c sw /\ (forall k e, carried w1 k e = carried w k e) /\
  (pending_ok w -> pending_ok w1).
Proof.
  intros OK Hq Hsw D Hok Hd Hp w1. assert (shape w w1) as Sh by done.
  split; [by apply (set_net_ok m_clock reach delay w q nm)|]. split; [done|].
  split; [by apply (shape_wired reach delay w w1 c sw sw)|]. split; [|done].
  intros k e. by apply (set_net_carried w q nm).
Qed.

Lemma reordered_shape w w' c sw o : w.(switches) !! c = Some sw -> wired w c sw ->
  reordered w w' c sw o -> m_link <$> o ≡ₚ upto (Z.of_nat (length sw.(m_out))) ->
  forall c', option_Forall2 sw_shape (w.(switches) !! c') (w'.(switches) !! c').
Proof.
  intros Hc D [C E] Ho c'. rewrite E. destruct (decide (c' = c)) as [->|Hne].
  - rewrite lookup_insert_eq, Hc. constructor. split; try done. cbn. rewrite Ho.
    symmetry. apply D.
  - by rewrite lookup_insert_ne.
Qed.

Lemma covered w c sw port v i nm : wired w c sw -> in_buffer sw port v = Ok i ->
  dests nm ⊆ reach i -> forall e, e ∈ dests nm ->
  exists entry, entry ∈ sw.(m_routing_table) /\ e ∈ bits entry.
Proof. intros D Hi Hr e He. apply (d_in _ _ _ _ _ D port v i Hi). by apply Hr. Qed.

Lemma node_calm w w' i n q m nm : calm w w' -> node_ok reach w i n q m nm ->
  node_ok reach w' i n q m nm.
Proof.
  intros C []. split; try done; rewrite ?(l_messages _ _ C), ?(l_net _ _ C), ?(l_next _ _ C); done.
Qed.

Lemma arrived_calm w w' id b n : calm w w' -> w.(buffers) !! id = Some b ->
  arrived m_clock w b = Some n ->
  exists b', w'.(buffers) !! id = Some b' /\ tuned b b' /\ arrived m_clock w' b' = Some n.
Proof.
  intros C Hb Ha. pose proof (l_buffers _ _ C id) as L. rewrite Hb in L. inversion L as [? b' U E1 E2|].
  exists b'. split; [done|]. split; [done|]. unfold arrived, head_of, NetWorldSpec.now in *.
  by rewrite (u_heap _ _ U), (a_tick _ _ (l_around _ _ C)).
Qed.

Section round.
Context (B : Z) (HB : B < 2 ^ 31) (c port v i : Z).

(** From the state in which the links have been put in order. *)
Lemma forward_routed w sw b n q m nm dsts : world_ok w -> w.(switches) !! c = Some sw ->
  wired w c sw -> 0 <= v < sw.(m_virtual_networks) -> in_buffer sw port v = Ok i ->
  w.(buffers) !! i = Some b -> arrived m_clock w b = Some n -> node_ok reach w i n q m nm ->
  room B w c -> ok dsts -> bits dsts = dests nm ->
  runs (r ← lift (route sw.(m_routing_table) sw.(m_link_order) dsts);
        outs ← lift (mapM (fun link => out_buffer sw link v) r.(output_links));
        enough ← enough_slots m_clock outs true;
        if negb enough then scheduleEvent m_clock c 1;; mret false
        else
          send m_clock rand (Some q) (zip outs r.(output_link_destinations));;
          on_buffer i (pop m_clock);;
          forget_pending c v;;
          mret true)
    (fun go_on w' => steady B w w' c /\ round_done w w' c i n go_on) w.
Proof using HB LS.
  intros OK Hsw D Hv Hi Hb Ha Hn R Hok Hbits.
  destruct (route_ok sw.(m_routing_table) sw.(m_link_order) dsts) as (r & Hr & Hrt); [apply D|done| | |].
  { rewrite (d_size _ _ _ _ _ D). apply D. }
  { rewrite Hbits. apply (covered w c sw port v i nm D Hi). apply Hn. }
  rewrite Hbits in Hrt. apply wp_bind. unfold wp at 1. rewrite Hr. cbn [lift].
  destruct (outs_run sw r.(output_links) v) as (outs & Ho & Hf).
  { apply Forall_forall. intros l Hl. apply (out_buffer_at reach delay w c sw l v D Hv).
    apply list_elem_of_lookup_1 in Hl as [j Hj].
    destruct (Forall2_lookup_l _ _ _ _ _ (r_parts _ _ _ Hrt) Hj) as (d & _ & _ & _ & entry & He & _).
    rewrite <- (d_size _ _ _ _ _ D). by eapply vget_Ok_range. }
  apply wp_bind. unfold wp at 1. rewrite Ho. cbn [lift].
  apply wp_bind. eapply wp_mono; [apply enough_slots_runs|].
  { intros x [j Hj]%list_elem_of_lookup_1. destruct (Forall2_lookup_r _ _ _ _ _ Hf Hj) as (l & _ & Hl).
    by destruct (d_out _ _ _ _ _ D l v x Hl) as (? & _). }
  intros enough w3 S. cbv beta in S. pose proof (still_calm w w3 S) as C.
  assert (w3.(switches) = w.(switches)) as Es by (by destruct S as (bs & -> & _)).
  assert (steady B w w3 c) as Y3 by (apply calm_steady; try done; intros; by rewrite Es).
  destruct enough; cbn [negb].
  - destruct (arrived_calm w w3 i b n C Hb Ha) as (b3 & Hb3 & U & Ha3). eapply wp_mono.
    { apply (deliver_runs B w3 c sw port v i b3 n q m nm r outs); try done; try apply Y3.
      - by rewrite Es.
      - apply (shape_wired reach delay w w3 c sw sw); [apply Y3|done|done].
      - by apply (node_calm w).  }
    intros ? w4 (-> & Y4 & (b' & Hb' & Hp) & Hoth). split; [by eapply steady_trans|]. split.
    + intros id Hne Hc. rewrite <- (calm_heap w w3 id C). unfold heap_at. by rewrite Hoth
        by (rewrite ?(a_consumers _ _ (l_around _ _ C)); done).
    + exists (m_prio_heap b), (m_prio_heap b'). unfold heap_at. rewrite Hb, Hb'.
      by rewrite (u_heap _ _ U) in Hp.
  - apply wp_bind. eapply wp_mono; [apply scheduleEvent_runs|].
    intros ? w4 (C4 & Es4 & Eb4 & Hmark). apply wp_ret. split.
    + eapply steady_trans; [exact Y3|]. apply calm_steady; try apply Y3; [done|]. intros c'. by rewrite Es4.
    + assert (forall id, heap_at w4 id = heap_at w id) as Hh.
      { intros id. rewrite (calm_heap w3 w4) by done. by apply calm_heap. }
      split; [intros; apply Hh|]. split; [apply Hh|done].
Qed.

Lemma forward_runs w sw b n : world_ok w -> w.(switches) !! c = Some sw ->
  wired w c sw -> 0 <= v < sw.(m_virtual_networks) -> in_buffer sw port v = Ok i ->
  w.(buffers) !! i = Some b -> arrived m_clock w b = Some n -> room B w c ->
  runs (forward m_clock rand c port v)
    (fun go_on w' => steady B w w' c /\ round_done w w' c i n go_on) w.
Proof using HB LS.
  intros OK Hsw D Hv Hi Hb Ha R. unfold forward.
  apply wp_bind, (wp_switch _ _ _ _ Hsw). apply wp_bind. unfold wp at 1. rewrite Hi. cbn [lift].
  pose proof (w_buffers _ _ _ _ OK i b Hb) as Ob.
  destruct (o_nodes _ _ _ _ _ _ Ob n) as (q & m & nm & Hn).
  { apply arrived_Some in Ha as [Hh _]. by apply head_in. }
  apply wp_bind, (wp_of_run _ _ _ _ _ (peek_run m_clock reach delay w i b n Hb Ob Ha)).
  rewrite (n_ptr _ _ _ _ _ _ _ Hn).
  destruct (getInternalDestination_run w q nm) as (d & nm' & Hg & Hd & Ed & Hok' & Edst & Ep & _);
    [apply Hn|apply Hn|].
  apply wp_bind, (wp_of_run _ _ _ _ _ Hg).
  destruct (reading_calm w q nm nm' c sw OK (n_net _ _ _ _ _ _ _ Hn) Hsw D Hok' Edst Ep)
    as (OK1 & Sh1 & D1 & Hc1 & Hp1). set (w1 := w <| net_messages ::= <[q := nm']> |>) in *.
  destruct (NetDestOps.copy_ok d Hd) as (dsts & Hcp & Hdsts & Edsts).
  apply wp_bind. unfold wp at 1. rewrite Hcp. cbn [lift].
  pose proof (length_order_out reach delay w c sw D) as Hlen.
  apply wp_bind, wp_assert; [intros _|].
  2:{ rewrite Hlen, (d_size _ _ _ _ _ D), Nat.eqb_refl. done. }
  apply wp_bind, wp_assert; [intros _|].
  2:{ rewrite Hlen, Nat.eqb_refl. done. }
  apply wp_bind. eapply wp_mono; [by apply (order_links_runs m_clock rand reach delay w1 c sw v)|].
  intros ? w2 (o & RO & Ho). pose proof RO as [C2 Es2].
  pose proof (reordered_shape w1 w2 c sw o Hsw D1 RO Ho) as Hs2.
  assert (w2.(switches) !! c = Some (sw <| m_link_order := o |>)) as Hsw2
    by (by rewrite Es2, lookup_insert_eq).
  apply wp_bind, (wp_switch _ _ _ _ Hsw2). cbv beta.
  assert (room B w1 c) as R1 by done.
  assert (steady B w1 w2 c) as Y2 by (by apply calm_steady).
  destruct (arrived_calm w1 w2 i b n C2 Hb Ha) as (b2 & Hb2 & U2 & Ha2).
  eapply wp_mono.
  { apply (forward_routed w2 (sw <| m_link_order := o |>) b2 n q m nm' dsts); try done; try apply Y2.
    - apply (shape_wired reach delay w1 w2 c sw); [apply Y2| |done]. specialize (Hs2 c).
      rewrite Hsw2 in Hs2. change (switches w1) with (switches w) in Hs2. rewrite Hsw in Hs2. by inversion Hs2.
    - apply (node_calm w1); [done|]. destruct Hn. split; try done; [cbn; apply lookup_insert_eq|].
      by rewrite Edst.
    - by rewrite Edsts, Ed, Edst. }
  intros go_on w' (Y' & [Hoth Hgo]). split.
  - assert (steady B w w1 c) as Y1 by (by split). eapply steady_trans; [exact Y1|].
    by eapply steady_trans.
  - assert (forall id, heap_at w2 id = heap_at w id) as Hh by (intros id; by rewrite (calm_heap w1 w2)).
    split.
    + intros id Hne Hc. rewrite <- Hh. apply Hoth; [done|].
      by rewrite (a_consumers _ _ (l_around _ _ C2)).
    + destruct go_on; rewrite <- (Hh i); done.
Qed.
End round.

End forward.
End SwitchForward.

(** * A wakeup of a switch

    The loops over the messages, the input ports in round-robin order and the
    virtual networks in order of priority. *)
Module SwitchWakeup.
Import MessageHeap MessageBuffer NetWorld NetWorldSpec NetWorldOps PerfectSwitch SwitchSpec
  SwitchForward.

Lemma sum_over_le {A} (f g : Z -> A -> nat) (m : gmap Z A) :
  (forall i a, m !! i = Some a -> (f i a <= g i a)%nat) -> (sum_over f m <= sum_over g m)%nat.
Proof.
  induction m as [|i a m Hi IH] using map_ind; intros Hfg; [done|].
  rewrite !sum_over_fresh by done. pose proof (Hfg i a (lookup_insert_eq _ _ _)).
  assert (sum_over f m <= sum_over g m)%nat; [|lia]. apply IH. intros j x Hj. apply Hfg.
  rewrite lookup_insert_ne; [done|congruence].
Qed.

Lemma mail_le f g w : (forall c v, f c v = true -> g c v = true) -> (mail f w <= mail g w)%nat.
Proof.
  intros Hfg. apply sum_over_le. intros id b _. destruct (w.(consumer_of) !! id) as [c|]; [|done].
  destruct (f c _) eqn:E; [by rewrite (Hfg _ _ E)|lia].
Qed.

(** ** Round robin *)
Fixpoint visited (sw : PerfectSwitch) (n : nat) (incoming : Z) : list Z :=
  match n with
  | O => []
  | S n' => next_port sw incoming :: visited sw n' (next_port sw incoming)
  end.

Lemma next_port_mod sw i : let n := Z.of_nat (length sw.(m_in)) in
  0 <= i < n -> next_port sw i = (i + 1) mod n.
Proof.
  intros n Hi. unfold next_port. fold n. destruct (n <=? i + 1) eqn:E; bool_to_Z.
  - replace (i + 1) with n by lia. by rewrite Z.mod_same by lia.
  - by rewrite Z.mod_small by lia.
Qed.

Lemma visited_at sw k i (j : nat) : let n := Z.of_nat (length sw.(m_in)) in
  0 <= i < n -> (j < k)%nat -> (i + 1 + Z.of_nat j) mod n ∈ visited sw k i.
Proof.
  intros n. revert i j. induction k as [|k IH]; intros i j Hi Hj; [lia|]. cbn [visited].
  pose proof (next_port_mod sw i Hi) as E. fold n in E. destruct j as [|j].
  - rewrite Z.add_0_r, E. left.
  - right. assert (0 <= next_port sw i < n) as Hn by (rewrite E; apply Z.mod_pos_bound; lia).
    specialize (IH (next_port sw i) j Hn ltac:(lia)). rewrite E in IH.
    replace ((i + 1 + Z.of_nat (S j)) mod n) with (((i + 1) mod n + 1 + Z.of_nat j) mod n); [by rewrite E|].
    rewrite <- Z.add_assoc, Zplus_mod_idemp_l. f_equal. lia.
Qed.

(** A full round visits every port. *)
Lemma visited_all sw i p : let n := Z.of_nat (length sw.(m_in)) in
  0 <= i < n -> 0 <= p < n -> p ∈ visited sw (length sw.(m_in)) i.
Proof.
  intros n Hi Hp.
  pose proof (Z.mod_pos_bound (p - i - 1) n ltac:(lia)) as Hb.
  pose proof (visited_at sw (length sw.(m_in)) i (Z.to_nat ((p - i - 1) mod n)) Hi ltac:(lia)) as H.
  fold n in H. rewrite Z2Nat.id in H by lia. rewrite Zplus_mod_idemp_r in H.
  replace (i + 1 + (p - i - 1)) with p in H by lia. by rewrite Z.mod_small in H.
Qed.

Lemma next_port_range sw i : 0 <= i < Z.of_nat (length sw.(m_in)) ->
  0 <= next_port sw i < Z.of_nat (length sw.(m_in)).
Proof. intros Hi. rewrite next_port_mod by done. apply Z.mod_pos_bound. lia. Qed.

Section wakeup.
#[local] Set Default Proof Using "Type".
Context {MT : MachineTypes} {MTL : MachineTypeLaws} {LS : LinkSort}.
Context (m_clock : Z) (rand : nat -> Z).
Context (reach : Z -> gset MachineID) (delay : Z -> Z).
Context (B : Z) (HB : B < 2 ^ 31) (c : Z).

Abbreviation world_ok := (world_ok m_clock reach delay).
Abbreviation now := (now m_clock).
Abbreviation wired := (wired reach delay).
Abbreviation steady := (steady m_clock reach delay B).

(** Nothing that has arrived waits in the buffer, or the switch is woken in the
    next cycle. *)
Definition idle (w : World) (i : Z) : Prop :=
  (forall b, w.(buffers) !! i = Some b -> arrived m_clock w b = None) \/
  now w + 1 ∈ scheduled w c.

(** The state of the switch during a wakeup. *)
Definition active (sw : PerfectSwitch) (w : World) : Prop :=
  world_ok w /\ room B w c /\ exists sw', w.(switches) !! c = Some sw' /\ sw_shape sw sw' /\ wired w c sw'.

Lemma steady_active sw w w' : active sw w -> steady w w' c -> active sw w'.
Proof.
  intros (OK & R & sw1 & Hsw & Z & D) Y. split; [apply Y|]. split; [apply Y|].
  pose proof (h_switches _ _ (y_shape _ _ _ _ _ _ _ Y) c) as L. rewrite Hsw in L.
  inversion L as [? sw2 Z2 E1 E2|]. exists sw2. split; [done|]. split; [by etrans|].
  apply (shape_wired reach delay w w' c sw1); [apply Y|done|done].
Qed.

Lemma shape_in_buffer sw sw' port v : sw_shape sw sw' -> in_buffer sw' port v = in_buffer sw port v.
Proof. intros Z. unfold in_buffer. by rewrite (z_in _ _ Z). Qed.

(** The other input buffers keep their messages. *)
Definition others (w w' : World) (i : Z) : Prop :=
  forall id, id <> i -> w.(consumer_of) !! id = Some c -> heap_at w' id = heap_at w id.

Lemma arrived_heap w w' b b' : w'.(w_tick) = w.(w_tick) -> m_prio_heap b' = m_prio_heap b ->
  arrived m_clock w' b' = arrived m_clock w b.
Proof. intros Et Eh. unfold arrived, head_of, NetWorldSpec.now. by rewrite Eh, Et. Qed.

Lemma idle_same w w' i : around w w' -> heap_at w' i = heap_at w i -> idle w i -> idle w' i.
Proof.
  intros F Hh [Hi|Hm].
  - left. intros b' Hb'. unfold heap_at in Hh. rewrite Hb' in Hh.
    destruct (w.(buffers) !! i) as [b|] eqn:Hb; [|done]. injection Hh as Hh.
    rewrite (arrived_heap w w' b b'); [by apply Hi|apply F|done].
  - right. apply elem_scheduled. apply elem_scheduled in Hm. unfold NetWorldSpec.now in *.
    rewrite (a_tick _ _ F). by apply (a_marks _ _ F).
Qed.

Lemma forward_all_runs sw port v i : 0 <= v < sw.(m_virtual_networks) -> in_buffer sw port v = Ok i ->
  forall fuel w h, active sw w -> heap_at w i = Some h -> (length h < fuel)%nat ->
  runs (forward_all m_clock rand fuel c port v)
    (fun _ w' => steady w w' c /\ others w w' i /\ idle w' i) w.
Proof using HB.
  intros Hv Hi fuel. induction fuel as [|fuel IH]; intros w h A Hh Hf; [lia|].
  pose proof A as (OK & R & sw1 & Hsw & Z & D). cbn [forward_all].
  apply wp_bind, (wp_switch _ _ _ _ Hsw). apply wp_bind. unfold wp at 1.
  rewrite (shape_in_buffer sw sw1) by done. rewrite Hi. cbn [lift].
  unfold heap_at in Hh. destruct (w.(buffers) !! i) as [b|] eqn:Hb; [|done]. injection Hh as Hh.
  pose proof (w_buffers _ _ _ _ OK i b Hb) as Ob.
  apply wp_bind, (wp_of_run _ _ _ _ _ (ready_run m_clock reach delay w i b Hb Ob)).
  destruct (arrived m_clock w b) as [n|] eqn:Ha.
  - rewrite bool_decide_eq_true_2 by eauto. apply wp_bind. eapply wp_mono.
    { apply (forward_runs m_clock rand reach delay B HB c port v i w sw1 b n); try done.
      - by rewrite (z_vnets _ _ Z).
      - by rewrite (shape_in_buffer sw sw1). }
    intros go_on w1 (Y1 & Hoth & Hgo). destruct go_on.
    + destruct Hgo as (h0 & h1 & H0 & H1 & Hp). eapply wp_mono.
      { apply (IH w1 h1); [by apply (steady_active sw w)|done|].
        unfold heap_at in H0. rewrite Hb in H0. injection H0 as <-.
        apply Permutation_length in Hp. cbn in Hp. rewrite Hh in Hp. lia. }
      intros ? w2 (Y2 & Hoth2 & Hid). split; [by eapply steady_trans|]. split; [|done].
      intros id Hne Hc. rewrite Hoth2, Hoth; try done.
      by rewrite (a_consumers _ _ (h_around _ _ (y_shape _ _ _ _ _ _ _ Y1))).
    + destruct Hgo as [Hsame Hm]. apply wp_ret. split; [done|]. split; [done|]. by right.
  - rewrite bool_decide_eq_false_2 by (intros [? ?]; done). apply wp_ret.
    split; [by apply steady_refl|]. split; [done|]. left. intros b' Hb'. congruence.
Qed.

Definition port_idle (sw : PerfectSwitch) (v : Z) (w : World) (p : Z) : Prop :=
  forall id, in_buffer sw p v = Ok id -> idle w id.

(** The input buffers of other virtual networks keep their messages. *)
Definition other_vnets (sw : PerfectSwitch) (v : Z) (w w' : World) : Prop :=
  forall id, (forall p, in_buffer sw p v <> Ok id) -> w.(consumer_of) !! id = Some c ->
    heap_at w' id = heap_at w id.

Lemma next_port_shape sw sw' i : sw_shape sw sw' -> next_port sw' i = next_port sw i.
Proof. intros Z. unfold next_port. by rewrite (z_in _ _ Z). Qed.

Lemma in_buffer_consumer sw w p v id : active sw w -> in_buffer sw p v = Ok id ->
  w.(consumer_of) !! id = Some c /\ exists h, heap_at w id = Some h.
Proof.
  intros (_ & _ & sw1 & _ & Z & D) Hid. rewrite <- (shape_in_buffer sw sw1) in Hid by done.
  destruct (d_in _ _ _ _ _ D p v id Hid) as (Hc & (b & Hb & _) & _). split; [done|].
  unfold heap_at. rewrite Hb. by eexists.
Qed.

Lemma serve_ports_runs sw v : 0 <= v < sw.(m_virtual_networks) ->
  forall n incoming w, 0 <= incoming < Z.of_nat (length sw.(m_in)) -> active sw w ->
  runs (serve_ports m_clock rand n c incoming v)
    (fun _ w' => steady w w' c /\ other_vnets sw v w w' /\
      (forall p, p ∈ visited sw n incoming -> port_idle sw v w' p) /\
      forall p, port_idle sw v w p -> port_idle sw v w' p) w.
Proof using HB.
  intros Hv n. induction n as [|n IH]; intros incoming w Hinc A; cbn [serve_ports visited].
  { apply wp_ret. destruct A as (OK & R & _). split; [by apply steady_refl|]. split; [done|].
    split; [|done]. intros p Hp. by apply elem_of_nil in Hp. }
  pose proof A as (OK & R & sw1 & Hsw & Z & D).
  apply wp_bind, (wp_switch _ _ _ _ Hsw). cbv zeta. rewrite (next_port_shape sw sw1) by done.
  pose proof (next_port_range sw incoming Hinc) as Hnext. set (p0 := next_port sw incoming) in *.
  destruct (in_buffer_at reach delay w c sw1 p0 v D) as [i Hi].
  { by rewrite (z_vnets _ _ Z). } { by rewrite (z_in _ _ Z). }
  apply wp_bind. unfold wp at 1. rewrite Hi. cbn [lift].
  rewrite (shape_in_buffer sw sw1) in Hi by done.
  destruct (in_buffer_consumer sw w p0 v i A Hi) as (Hci & h & Hh).
  apply wp_bind, wp_gets. apply wp_bind. eapply wp_mono.
  { apply (forward_all_runs sw p0 v i Hv Hi _ w h A Hh). unfold messages_in. unfold heap_at in Hh.
    destruct (w.(buffers) !! i); [|done]. injection Hh as <-. lia. }
  intros ? w1 (Y1 & O1 & I1).
  assert (forall p, port_idle sw v w p -> port_idle sw v w1 p) as Hkeep.
  { intros p Hp id Hid. destruct (decide (id = i)) as [->|Hne]; [done|].
    apply (idle_same w w1); [apply Y1| |by apply Hp]. apply O1; [done|].
    by apply (in_buffer_consumer sw w p v). }
  eapply wp_mono; [apply (IH p0 w1 Hnext); by apply (steady_active sw w)|].
  intros ? w2 (Y2 & O2 & V2 & K2). split; [by eapply steady_trans|]. split; [|split].
  - intros id Hid Hc. rewrite O2; [|done|].
    + apply O1; [|done]. intros ->. by apply (Hid p0).
    + by rewrite (a_consumers _ _ (h_around _ _ (y_shape _ _ _ _ _ _ _ Y1))).
  - intros p [->|Hp]%elem_of_cons; [|by apply V2]. apply K2. intros id Hid. congruence.
  - intros p Hp. by apply K2, Hkeep.
Qed.

(** ** A virtual network *)
Lemma expected_inflow w v : (expected w c v <= inflow w c)%nat.
Proof. apply mail_le. intros c' v'. by intros [? _]%andb_true_iff. Qed.

Lemma expected_0 w i b v : expected w c v = 0%nat -> w.(buffers) !! i = Some b ->
  w.(consumer_of) !! i = Some c -> b.(m_vnet_id) = v -> b.(m_prio_heap) = [].
Proof.
  intros E Hb Hc Hv. unfold expected, mail in E. rewrite sum_over_0 in E. specialize (E i b Hb).
  rewrite Hc, Hv, !Z.eqb_refl in E. by apply nil_length_inv.
Qed.

Lemma room_expected sw w v p i : active sw w -> in_buffer sw p v = Ok i ->
  Z.of_nat (expected w c v) < 2 ^ 31.
Proof using HB.
  intros (OK & R & sw1 & Hsw & Z & D) Hi. rewrite <- (shape_in_buffer sw sw1) in Hi by done.
  destruct (d_in _ _ _ _ _ D p v i Hi) as (_ & (b & Hb & _) & _).
  pose proof (R i b Hb). pose proof (expected_inflow w v).
  pose proof (MessageBufferSpec.b_counter _ _ (o_buf _ _ _ _ _ _ (w_buffers _ _ _ _ OK i b Hb))) as Hc.
  rewrite load_m_counter in Hc. lia.
Qed.

(** Without pending messages nothing has arrived. *)
Lemma nothing_pending sw w v k p : active sw w -> pending_ok w ->
  (forall sw', w.(switches) !! c = Some sw' -> vget sw'.(m_pending_message_count) v = Ok k) ->
  k <= 0 -> port_idle sw v w p.
Proof using HB.
  intros A P Hk Hle id Hid. pose proof (room_expected sw w v p id A Hid) as Hr.
  destruct A as (OK & R & sw1 & Hsw & Z & D).
  rewrite <- (shape_in_buffer sw sw1) in Hid by done.
  destruct (d_in _ _ _ _ _ D p v id Hid) as (Hc & (b & Hb & Hv) & _).
  pose proof (P c sw1 v k Hsw (Hk sw1 Hsw)) as E. rewrite i32_small in E by (unfold is_i32; lia).
  left. intros b' Hb'. rewrite Hb in Hb'. injection Hb' as <-.
  unfold arrived, head_of. by rewrite (expected_0 w id b v) by (done || lia).
Qed.

Lemma serve_vnet_runs sw v w : 0 <= v < sw.(m_virtual_networks) -> active sw w -> pending_ok w ->
  runs (serve_vnet m_clock rand c v)
    (fun _ w' => steady w w' c /\ other_vnets sw v w w' /\ forall p, port_idle sw v w' p) w.
Proof using HB.
  intros Hv A P. pose proof A as (OK & R & sw1 & Hsw & Z & D). unfold serve_vnet.
  apply wp_bind, (wp_switch _ _ _ _ Hsw). cbv zeta. apply wp_bind. unfold set_switch. apply wp_modify.
  rewrite (set_switch_insert w c sw1 _ Hsw).
  set (sw2 := sw1 <| m_round_robin_start := _ |>). set (w1 := w <| switches ::= <[c := sw2]> |>).
  assert (sw_shape sw1 sw2) as Z2.
  { split; try done. intros Hs. unfold port_start_ok in *. cbn.
    destruct (decide (Z.of_nat (length sw1.(m_in)) = 0)) as [E|E].
    - unfold next_port. rewrite E in *. destruct (_ <=? _) eqn:E1; bool_to_Z; lia.
    - pose proof (next_port_range sw1 sw1.(m_round_robin_start) ltac:(lia)). lia. }
  assert (steady w w1 c) as Y1.
  { apply calm_steady; [|done|done|].
    - by apply (calm_with_switch w c sw1).
    - intros c'. unfold w1. cbn. destruct (decide (c' = c)) as [->|Hne].
      + rewrite lookup_insert_eq, Hsw. by constructor.
      + by rewrite lookup_insert_ne. }
  assert (active sw w1) as A1 by (by apply (steady_active sw w)).
  destruct (vget_in_range sw1.(m_pending_message_count) v) as [k Hk].
  { rewrite (d_vnets _ _ _ _ _ D), (z_vnets _ _ Z). done. }
  apply wp_bind. unfold wp at 1. rewrite Hk. cbn [lift]. apply wp_when; intros E; bool_to_Z.
  - destruct (decide (length sw1.(m_in) = 0)%nat) as [E0|E0].
    { rewrite E0. apply wp_ret. split; [done|]. split; [done|]. intros p id Hid. exfalso.
      unfold in_buffer in Hid. rewrite <- (z_in _ _ Z) in Hid. apply nil_length_inv in E0.
      rewrite E0 in Hid. unfold vget in Hid. destruct (0 <=? p); rewrite ?lookup_nil in Hid; done. }
    pose proof (d_start _ _ _ _ _ D) as Hs. unfold port_start_ok in Hs.
    rewrite (z_in _ _ Z) in *. eapply wp_mono.
    { apply (serve_ports_runs sw v Hv (length sw.(m_in)) _ w1); [lia|done]. }
    intros ? w2 (Y2 & O2 & V2 & _). split; [by eapply steady_trans|]. split; [done|].
    intros p id Hid. refine (V2 p _ id Hid). apply visited_all; [lia|].
    unfold in_buffer in Hid. destruct (vget sw.(m_in) p) eqn:Ep; [|done]. by eapply vget_Ok_range.
  - split; [done|]. split; [done|]. intros p.
    apply (nothing_pending sw w1 v k p A1); [by apply Y1| |lia].
    intros sw' Hsw'. unfold w1 in Hsw'. cbn in Hsw'. rewrite lookup_insert_eq in Hsw'.
    by injection Hsw' as <-.
Qed.

(** ** The wakeup *)
Lemma vnet_order_in n inv v : v ∈ vnet_order n inv <-> 0 <= v < n.
Proof.
  unfold vnet_order. destruct inv; rewrite ?elem_of_reverse; apply elem_of_upto.
Qed.

Lemma serve_others sw v v' w w' p : active sw w -> steady w w' c -> v' <> v ->
  other_vnets sw v w w' -> port_idle sw v' w p -> port_idle sw v' w' p.
Proof.
  intros A Y Hne O Hp id Hid. apply (idle_same w w'); [apply Y| |by apply Hp].
  destruct (in_buffer_consumer sw w p v' id A Hid) as (Hc & _). apply O; [|done].
  intros p' Hid'. destruct A as (OK & R & sw1 & Hsw & Z & D).
  rewrite <- (shape_in_buffer sw sw1) in Hid, Hid' by done.
  destruct (d_in _ _ _ _ _ D p v' id Hid) as (_ & (b & Hb & Hv) & _).
  destruct (d_in _ _ _ _ _ D p' v id Hid') as (_ & (b' & Hb' & Hv') & _). congruence.
Qed.

Lemma wakeup_runs sw w : active sw w -> w.(switches) !! c = Some sw -> pending_ok w ->
  runs (wakeup m_clock rand c) (fun _ w' => steady w w' c /\
    forall p v, port_idle sw v w' p) w.
Proof using HB.
  intros A Hsw P. unfold wakeup. apply wp_bind, (wp_switch _ _ _ _ Hsw). cbv zeta.
  apply wp_bind. unfold set_switch. apply wp_modify. rewrite (set_switch_insert w c sw _ Hsw).
  set (sw2 := sw <| m_wakeups_wo_switch := _ |>). set (w1 := w <| switches ::= <[c := sw2]> |>).
  pose proof A as (OK & R & sw' & Hsw' & Z & D). rewrite Hsw in Hsw'. injection Hsw' as <-.
  assert (steady w w1 c) as Y1.
  { apply calm_steady; [|done|done|].
    - by apply (calm_with_switch w c sw).
    - intros c'. unfold w1. cbn. destruct (decide (c' = c)) as [->|Hne].
      + rewrite lookup_insert_eq, Hsw. by constructor.
      + by rewrite lookup_insert_ne. }
  eapply wp_mono; [apply (wp_for_each _ _ _ (fun done w' => steady w w' c /\
    forall v p, v ∈ done -> port_idle sw v w' p))|].
  - split; [done|]. intros v p Hv. by apply elem_of_nil in Hv.
  - intros done v w2 Hv%vnet_order_in (Y2 & I2). eapply wp_mono.
    { apply (serve_vnet_runs sw v w2 Hv); [by apply (steady_active sw w)|by apply Y2]. }
    intros ? w3 (Y3 & O3 & I3). split; [by eapply steady_trans|].
    intros v' p [Hv'|Hv']%elem_of_app; [|apply list_elem_of_singleton in Hv' as ->; apply I3].
    destruct (decide (v' = v)) as [->|Hne]; [apply I3|].
    apply (serve_others sw v v' w2 w3); try done; [by apply (steady_active sw w)|by apply I2].
  - intros ? w' (Y & I). split; [done|]. intros p v id Hid. apply (I v p); [|done].
    apply vnet_order_in. unfold in_buffer in Hid. destruct (vget sw.(m_in) p) as [l|] eqn:El; [|done].
    rewrite bind_Ok_run in Hid. apply vget_Ok_range in Hid. apply vget_Ok in El as [_ El].
    apply (Forall_lookup_1 _ _ _ _ (d_in_ports _ _ _ _ _ D)) in El. lia.
Qed.

End wakeup.

Section theorem.
Context {MT : MachineTypes} {MTL : MachineTypeLaws} {LS : LinkSort}.
Context (m_clock : Z) (rand : nat -> Z).
Context (reach : Z -> gset MachineID) (delay : Z -> Z).

(** A wakeup of a switch loses nothing, invents nothing and sends nothing
    astray.  From every consistent state of the network in which the switch is
    wired up, the wakeup returns; for every message and every machine the
    number of copies on their way to the machine is the same as before, each in
    a buffer from which the machine can be reached; and no message that has
    arrived is left in an input buffer, unless the switch wakes up again in the
    next cycle because an output buffer is full.  This holds for adaptive and
    static routing and whatever sorted order the library chooses. *)
Theorem switch_forwards (w : World) (c : Z) (sw : PerfectSwitch) (B : Z)
  (OK : world_ok m_clock reach delay w) (P : pending_ok w)
  (Hsw : w.(switches) !! c = Some sw) (D : wired reach delay w c sw)
  (R : room B w c) (HB : B < 2 ^ 31) :
  exists w', wakeup m_clock rand c w = Ok (tt, w') /\
    world_ok m_clock reach delay w' /\ pending_ok w' /\ shape w w' /\
    (forall k e, carried w' k e = carried w k e) /\
    forall port v id b, in_buffer sw port v = Ok id -> w'.(buffers) !! id = Some b ->
      arrived m_clock w' b = None \/ now m_clock w' + 1 ∈ scheduled w' c.
Proof.
  assert (active m_clock reach delay B c sw w) as A
    by (split; [done|]; split; [done|]; by exists sw).
  destruct (run_of_wp _ _ _ (wakeup_runs m_clock rand reach delay B HB c sw w A Hsw P))
    as ([] & w' & Hr & Y & I).
  exists w'. split; [done|]. destruct Y. split_and!; try done; [by apply y_pending0|].
  intros port v id b Hid Hb. destruct (I port v id Hid) as [Hi|Hm]; [left; by apply Hi|by right].
Qed.
End theorem.
End SwitchWakeup.
