(* ===== verification/ThrottleWakeup.v ===== *)
(** * A link at work

    Moving one message ([ThrottleSpec]) and the wakeup of a throttle
    ([ThrottleWakeup]). *)

From S2P Require Import Prelude.
From S2P Require Import NodeSet.
From S2P Require Import NetDest.
From S2P Require Import NetDestSpec.
From S2P Require Import MessageHeap.
From S2P Require Import MessageBuffer.
From S2P Require Import MessageBufferFifo.
From S2P Require Import NetWorld.
From S2P Require Import NetWorldOps.
From S2P Require Import PerfectSwitch.
From S2P Require Import Throttle.
From S2P Require Import SwitchSend.
From S2P Require Import SwitchWakeup.

(** * Moving a message along a link

    The wiring of a throttle and what moving one message does: the message
    leaves the buffer of the switch for the buffer at the other end, and its
    size is charged to the link. *)
Module ThrottleSpec.
Import MessageHeap MessageBuffer NetWorld NetWorldSpec NetWorldOps Throttle SwitchSpec SwitchSend
  SwitchForward.

Lemma i32_succ x : i32 (i32 x + 1) = i32 (x + 1).
Proof.
  unfold i32. f_equal.
  replace ((x + 2 ^ 31) mod 2 ^ 32 - 2 ^ 31 + 1 + 2 ^ 31) with ((x + 2 ^ 31) mod 2 ^ 32 + 1) by lia.
  rewrite Zplus_mod_idemp_l. f_equal. lia.
Qed.

(** ** Throttles in the store *)
Lemma throttle_run w c t : w.(throttles) !! c = Some t -> throttle c w = Ok (t, w).
Proof. intros Hc. unfold throttle. by rewrite gets_run, Hc. Qed.

Lemma wp_throttle w c t Q : w.(throttles) !! c = Some t -> Q t w -> runs (throttle c) Q w.
Proof. intros Hc HQ. unfold wp. by rewrite (throttle_run w c t Hc). Qed.

Definition with_throttle (w : World) (c : Z) (t : Throttle) : World :=
  w <| throttles ::= <[c := t]> |>.

Lemma set_throttle_run w c t f : w.(throttles) !! c = Some t ->
  set_throttle c f w = Ok (tt, with_throttle w c (f t)).
Proof.
  intros Hc. unfold set_throttle, modify, with_throttle. do 2 f_equal. unfold set_field; cbn.
  f_equal. apply map_eq. intros c'. destruct (decide (c' = c)) as [->|Hne].
  - by rewrite lookup_alter_eq, lookup_insert_eq, Hc.
  - by rewrite lookup_alter_ne, lookup_insert_ne by done.
Qed.

(** ** Sizes *)

(** The units that a message takes. *)
Definition size_of (w : World) (n : MessageBufferNode) : Z :=
  match m_msgptr n ≫= (fun q => w.(net_messages) !! q) with
  | Some nm => match MessageSizeType_to_int w.(network) nm.(messageSize) with
               | Ok s => i32 (s * MESSAGE_SIZE_MULTIPLIER)
               | Err _ => 0
               end
  | None => 0
  end.

Definition total (w : World) (h : list MessageBufferNode) : Z := foldr Z.add 0 (size_of w <$> h).

Lemma total_perm w h h' : h ≡ₚ h' -> total w h = total w h'.
Proof. unfold total. induction 1; cbn; lia. Qed.

Lemma total_cons w n h : total w (n :: h) = size_of w n + total w h.
Proof. done. Qed.

(** The messages of the network take a non-negative number of units that an
    [int] holds. *)
Definition sizes_ok (net : NetCfg) : Prop :=
  0 <= net.(m_control_msg_size) * MESSAGE_SIZE_MULTIPLIER < 2 ^ 31 /\
  0 <= net.(m_data_msg_size) * MESSAGE_SIZE_MULTIPLIER < 2 ^ 31.

Lemma size_known net s : sizes_ok net -> s <> Undefined ->
  exists k, MessageSizeType_to_int net s = Ok k /\ 0 <= k * MESSAGE_SIZE_MULTIPLIER < 2 ^ 31.
Proof. intros [] Hs. destruct s; try done; by eexists. Qed.

Lemma size_range w n : sizes_ok w.(network) -> 0 <= size_of w n < 2 ^ 31.
Proof.
  intros Hs. unfold size_of. destruct (m_msgptr n ≫= _) as [nm|]; [|lia].
  destruct (decide (nm.(messageSize) = Undefined)) as [->|Hne]; [cbn; lia|].
  destruct (size_known _ _ Hs Hne) as (k & -> & Hk). rewrite i32_small; [done|]. unfold is_i32. lia.
Qed.

(** What is left of the message under way. *)
Definition units (w : World) (c v : Z) : Z :=
  match w.(throttles) !! c with
  | Some t => match vget t.(m_units_remaining) v with Ok u => u | Err _ => 0 end
  | None => 0
  end.

Definition waiting (w : World) (i : Z) : Z :=
  match heap_at w i with Some h => total w h | None => 0 end.

(** ** The wiring *)
Section spec.
#[local] Set Default Proof Using "Type".
Context {MT : MachineTypes} {MTL : MachineTypeLaws}.
Context (m_clock : Z) (rand : nat -> Z).
Context (reach : Z -> gset MachineID) (delay : Z -> Z).

Abbreviation world_ok := (world_ok m_clock reach delay).
Abbreviation now := (now m_clock).
Abbreviation steady := (steady m_clock reach delay).

(** The buffers exist, the far buffer delays by the latency of the link and may
    hold what the near one holds. *)
Record linked (w : World) (c : Z) (t : Throttle) : Prop := {
  i_switch : w.(switches) !! c = None;
  i_in_size : Z.of_nat (length t.(t_in)) = t.(m_vnets);
  i_out_size : Z.of_nat (length t.(t_out)) = t.(m_vnets);
  i_units_size : Z.of_nat (length t.(m_units_remaining)) = t.(m_vnets);
  i_counters : length <$> t.(m_message_counters) = replicate 18 (Z.to_nat t.(m_vnets));
  i_in v i : vget t.(t_in) v = Ok i -> w.(consumer_of) !! i = Some c /\ is_Some (w.(buffers) !! i);
  i_out v o : vget t.(t_out) v = Ok o -> w.(consumer_of) !! o <> Some c /\
    is_Some (w.(buffers) !! o) /\ delay o = t.(m_link_latency);
  i_reach v i o : vget t.(t_in) v = Ok i -> vget t.(t_out) v = Ok o -> reach i ⊆ reach o;
  i_distinct : NoDup t.(t_in);
  i_latency : 0 < t.(m_link_latency);
  i_bandwidth : 0 < getLinkBandwidth t;
  i_sizes : sizes_ok w.(network)
}.

Definition linked_all (w : World) : Prop :=
  forall c t, w.(throttles) !! c = Some t -> linked w c t.

Lemma shape_exists w w' id : shape w w' -> is_Some (w.(buffers) !! id) -> is_Some (w'.(buffers) !! id).
Proof. intros S [b Hb]. destruct (shape_buffer w w' id b S Hb) as (b' & -> & _). by eexists. Qed.

Lemma shape_linked w w' c t t' : shape w w' -> th_shape t t' -> linked w c t -> linked w' c t'.
Proof.
  intros S Z []. destruct Z as [Zi Zo Zv Zm Zl Ze Zu Zc]. unfold getLinkBandwidth in *.
  split; unfold getLinkBandwidth; rewrite ?Zi, ?Zo, ?Zv, ?Zm, ?Zl, ?Ze, ?Zu, ?Zc, ?(h_network _ _ S),
    ?(a_consumers _ _ (h_around _ _ S)); try done.
  - by apply (shape_switch_None w w' c S).
  - intros v i Hi. destruct (i_in0 v i Hi). split; [done|]. by apply (shape_exists w).
  - intros v o Ho. destruct (i_out0 v o Ho) as (? & ? & ?). split; [done|]. split; [|done].
    by apply (shape_exists w).
Qed.

Lemma shape_linked_all w w' : shape w w' -> linked_all w -> linked_all w'.
Proof.
  intros S Hw c t' Ht'. pose proof (h_throttles _ _ S c) as R. rewrite Ht' in R.
  inversion R as [t ? Hsh E1 E2|]. subst. by apply (shape_linked w w' c t), Hw.
Qed.

(** ** After a message was put into a buffer *)
Section after_send.
Context w w' o b b' q nm (S : sent m_clock reach delay w w' o b b' q nm)
  (Hb : w.(buffers) !! o = Some b).

Lemma sent_shape : shape w w'.
Proof using S Hb.
  pose proof S as []. destruct s_switches0 as (c & Hc & Es). split; [done| |done| |].
  - intros id. rewrite s_buffers0. destruct (decide (id = o)) as [->|Hne].
    + rewrite lookup_insert_eq, Hb. cbn. congruence.
    + by rewrite lookup_insert_ne.
  - intros c'. by rewrite s_throttles0.
  - intros c'. rewrite Es. destruct (decide (c' = c)) as [->|Hne].
    + rewrite lookup_alter_eq. destruct (w.(switches) !! c) as [sw|]; constructor.
      split; try done. cbn. by rewrite length_alter.
    + by rewrite lookup_alter_ne.
Qed.

Lemma sent_pending : world_ok w -> pending_ok w -> pending_ok w'.
Proof using S Hb.
  intros OK P c0 sw0 v0 k0 Hsw0 Hk0. destruct (s_switches _ _ _ _ _ _ _ _ _ _ S) as (c & Hc & Es).
  rewrite Es in Hsw0.
  assert (expected w' c0 v0 = (expected w c0 v0 + bit (c0 = c /\ v0 = b.(m_vnet_id)))%nat) as Hexp.
  { unfold expected. rewrite (sent_mail m_clock reach delay w w' o b b' q nm S Hb). f_equal.
    unfold counted, bit. rewrite Hc.
    destruct (Z.eqb_spec c c0), (Z.eqb_spec b.(m_vnet_id) v0); case_decide; cbn; naive_solver. }
  rewrite Hexp. unfold bit. apply lookup_alter_Some in Hsw0 as [(<- & sw & Hsw & ->)|[Hne Hsw0]].
  - pose proof (w_vnets _ _ _ _ OK o b c sw Hb Hc Hsw) as Hv.
    cbn in Hk0. apply vget_Ok in Hk0 as [H0 Hk0]. destruct (decide (v0 = b.(m_vnet_id))) as [->|Hne].
    + rewrite decide_True by done. rewrite list_lookup_alter_eq in Hk0.
      destruct (_ !! Z.to_nat _) as [k|] eqn:Ek; [|done]. injection Hk0 as <-.
      rewrite (P c sw b.(m_vnet_id) k Hsw) by (by apply vget_Ok). rewrite i32_succ. f_equal. lia.
    + rewrite decide_False by naive_solver. rewrite list_lookup_alter_ne in Hk0 by lia.
      rewrite Nat.add_0_r. by apply (P c sw v0 k0 Hsw), vget_Ok.
  - rewrite decide_False by naive_solver. rewrite Nat.add_0_r. by apply (P c0 sw0).
Qed.
End after_send.

(** Switches do not expect what others wait for. *)
Lemma popped_pending w c i b b' n : w.(buffers) !! i = Some b -> popped m_clock b b' n ->
  w.(consumer_of) !! i = Some c -> w.(switches) !! c = None ->
  pending_ok w -> pending_ok (set_buf i b' w).
Proof.
  intros Hb Hp Hc Hs P c0 sw0 v0 k0 Hsw Hk. rewrite (P c0 sw0 v0 k0 Hsw Hk). unfold expected.
  rewrite (taken_mail m_clock w i b b' n Hb Hp). unfold counted. rewrite Hc.
  rewrite (proj2 (Z.eqb_neq c c0)); [by rewrite Nat.add_0_r|]. intros ->.
  change (switches (set_buf i b' w)) with (switches w) in Hsw. congruence.
Qed.

(** ** From one buffer to another *)
Section relay.
Context (B : Z) (w : World) (c i o : Z) (b bo : Buffer) (n : MessageBufferNode) (q : Z)
  (m : Message) (nm : NetworkMessage).
Context (OK : world_ok w) (Hb : w.(buffers) !! i = Some b) (Hbo : w.(buffers) !! o = Some bo)
  (Ha : arrived m_clock w b = Some n) (Hn : node_ok reach w i n q m nm)
  (Hreach : reach i ⊆ reach o) (Hd : 0 < delay o) (R : room B w c) (HB : B < 2 ^ 31)
  (Hc : w.(consumer_of) !! i = Some c) (Hco : w.(consumer_of) !! o <> Some c)
  (Hs : w.(switches) !! c = None).

Lemma relay_apart : o <> i.
Proof using All. intros ->. congruence. Qed.

Lemma relay_room : bo.(m_counter) + 1 < 2 ^ 31.
Proof using All.
  apply arrived_Some in Ha as [Hh _].
  pose proof (inflow_pos w c i b n Hb Hc (head_in b n Hh)). specialize (R o bo Hbo). lia.
Qed.

Lemma relay_run : exists b' bo' w5, popped m_clock b b' n /\
  (on_buffer o (enqueue m_clock rand (Some q) (delay o));; on_buffer i (pop m_clock)) w = Ok (tt, w5) /\
  sent m_clock reach delay (set_buf i b' w) w5 o bo bo' q nm.
Proof using All.
  destruct (pop_world m_clock reach delay w i b n Hb (w_buffers _ _ _ _ OK i b Hb) Ha)
    as (b' & Hp & Hpop).
  set (wt := set_buf i b' w).
  assert (world_ok wt) as OKt by (by apply (taken_ok m_clock reach delay w i b b' n)).
  assert (wt.(buffers) !! o = Some bo) as Hbt by (cbn; by rewrite lookup_insert_ne by (apply not_eq_sym, relay_apart)).
  destruct (enqueue_world m_clock rand reach delay wt o bo q m nm OKt Hbt) as (w5 & bo' & Hrun & S5).
  { exact relay_room. } { done. } { by apply (taken_loose m_clock reach delay w i b b' n q m nm). }
  { apply Hn. } { destruct Hn. apply arrived_Some in Ha as [_ ?]. change (now wt) with (now w). lia. }
  { apply Hn. } { apply Hn. } { etrans; [apply Hn|done]. }
  assert (ignores i (on_buffer o (enqueue m_clock rand (Some q) (delay o)))) as Hig
    by (apply ignores_on_buffer, relay_apart).
  pose proof (Hig b' w) as H1. fold wt in H1. rewrite Hrun in H1.
  pose proof (Hig b w) as H2. assert (set_buf i b w = w) as E.
  { unfold set_buf. destruct w; cbn in *. unfold set_field; cbn. f_equal. by apply insert_id. }
  rewrite E in H2.
  destruct (on_buffer o (enqueue m_clock rand (Some q) (delay o)) w) as [[[] w4]|e] eqn:Hs4; [|done].
  cbn in H1, H2. injection H1 as H1. injection H2 as H2.
  exists b', bo', w5. split; [done|]. split; [|done].
  rewrite (M_bind_run _ _ _ _ _ Hs4). rewrite Hpop; [by rewrite H1| |].
  - rewrite H2. cbn. apply lookup_insert_eq.
  - pose proof (a_tick _ _ (s_around _ _ _ _ _ _ _ _ _ _ S5)) as Et. rewrite H1 in Et. done.
Qed.

Section relayed.
Context (b' bo' : Buffer) (w5 : World) (Hp : popped m_clock b b' n)
  (S5 : sent m_clock reach delay (set_buf i b' w) w5 o bo bo' q nm).

Lemma relay_lookup : (set_buf i b' w).(buffers) !! o = Some bo.
Proof using All. cbn. by rewrite lookup_insert_ne by (apply not_eq_sym, relay_apart). Qed.

Lemma relay_inflow : inflow w c = S (inflow w5 c).
Proof using All.
  unfold inflow. rewrite (taken_mail m_clock w i b b' n Hb Hp).
  rewrite (sent_mail m_clock reach delay _ w5 o bo bo' q nm S5 relay_lookup).
  unfold counted. change (consumer_of (set_buf i b' w)) with (consumer_of w). rewrite Hc, Z.eqb_refl.
  destruct (w.(consumer_of) !! o) as [c'|] eqn:Ec; [|lia].
  rewrite (proj2 (Z.eqb_neq c' c)); [lia|]. intros ->. by apply Hco.
Qed.

Lemma relay_room_after : room B w5 c.
Proof using All.
  intros id x Hx. rewrite (s_buffers _ _ _ _ _ _ _ _ _ _ S5) in Hx. pose proof relay_inflow as Hi.
  apply lookup_insert_Some in Hx as [[<- <-]|[Hne Hx]].
  - rewrite (s_counter _ _ _ _ _ _ _ _ _ _ S5). specialize (R o bo Hbo). lia.
  - apply lookup_set_buf in Hx as [[-> ->]|[_ Hx]].
    + rewrite (p_counter _ _ _ _ Hp). specialize (R i b Hb). lia.
    + specialize (R id x Hx). lia.
Qed.

Lemma relay_steady : steady B w w5 c.
Proof using All.
  split; [apply S5| | |apply relay_room_after|].
  - etrans; [apply (shape_popped m_clock w i b b' n Hb Hp)|].
    by apply (sent_shape _ w5 o bo bo' q nm S5 relay_lookup).
  - intros k e. rewrite (sent_carried m_clock reach delay _ w5 o bo bo' q nm S5 relay_lookup) by apply Hn.
    by rewrite <- (taken_carried m_clock reach w i b b' n q m nm Hb Hp Hn).
  - intros P. apply (sent_pending _ w5 o bo bo' q nm S5 relay_lookup); [|by apply (popped_pending w c i b b' n)].
    by apply (taken_ok m_clock reach delay w i b b' n).
Qed.

Lemma relay_heap id : w.(consumer_of) !! id = Some c ->
  heap_at w5 id = if decide (id = i) then Some (m_prio_heap b') else heap_at w id.
Proof using All.
  intros Hid. unfold heap_at. rewrite (s_buffers _ _ _ _ _ _ _ _ _ _ S5).
  rewrite lookup_insert_ne by (intros ->; by apply Hco). cbn. case_decide as E.
  - subst. by rewrite lookup_insert_eq.
  - by rewrite lookup_insert_ne.
Qed.
End relayed.
End relay.

End spec.
End ThrottleSpec.

(** * A wakeup of a throttle

    The loops over the messages of a virtual network and over the virtual
    networks.  The units that the link spends are exactly the units by which
    its backlog shrinks. *)
Module ThrottleWakeup.
Import MessageHeap MessageBuffer NetWorld NetWorldSpec NetWorldOps Throttle SwitchSpec SwitchSend
  SwitchForward ThrottleSpec.

(** ** Free slots *)
Section slots.
Context (m_clock : Z).

Definition has_slot (w : World) (b : Buffer) : bool :=
  (b.(m_max_size) =? -1) || (i32 (visible_size (now m_clock w) b + 1) <=? b.(m_max_size)).

(** Asking does not change the answer. *)
Lemma slots_run w id b : w.(buffers) !! id = Some b ->
  exists b', on_buffer id (areNSlotsAvailable m_clock 1) w = Ok (has_slot w b, set_buf id b' w) /\
    tuned b b' /\ forall w', w'.(w_tick) = w.(w_tick) -> has_slot w' b' = has_slot w b.
Proof.
  intros Hb.
  assert (exists b', areNSlotsAvailable m_clock 1 (load w id b) = Ok (has_slot w b, load w id b') /\
    tuned b b' /\ forall w', w'.(w_tick) = w.(w_tick) -> has_slot w' b' = has_slot w b)
    as (b' & Hr & U & Hs).
  { unfold areNSlotsAvailable, has_slot, now. rewrite get_run.
    change (m_max_size (load w id b)) with (m_max_size b). destruct (m_max_size b =? -1) eqn:E.
    { exists b. split; [reflexivity|]. split; [apply tuned_refl|]. by rewrite E. }
    rewrite MessageBufferSpec.getTime_run. unfold MessageBufferSpec.now.
    change (MessageBuffer.curTick (load w id b)) with (w_tick w).
    change (visible_size (w_tick w / m_clock) (load w id b)) with (visible_size (w_tick w / m_clock) b).
    cbn [orb]. destruct (_ <=? _) eqn:E1.
    { exists b. split; [reflexivity|]. split; [apply tuned_refl|]. intros w' ->. by rewrite E. }
    exists (b <| m_not_avail_count ::= fun k => i32 (k + 1) |>). split; [reflexivity|]. split.
    - split; try reflexivity. rewrite !blank_iff. intros H. exact H.
    - intros w' ->. cbn. rewrite E. exact E1. }
  exists (blank b'). split; [|split; [by apply tuned_blank|exact Hs]].
  exact (on_quiet _ w id b _ (load w id b') Hb Hr eq_refl eq_refl eq_refl eq_refl eq_refl).
Qed.
End slots.

(** The bandwidth of a round. *)
Lemma spend_arith u bw : 0 <= u < 2 ^ 31 -> 0 < bw < 2 ^ 31 ->
  let diff := i32 (u - bw) in
  0 <= Z.max 0 diff < 2 ^ 31 /\ 0 <= Z.max 0 (i32 (- diff)) < bw + 1 /\
  u - Z.max 0 diff = bw - Z.max 0 (i32 (- diff)) /\
  (0 < Z.max 0 (i32 (- diff)) -> Z.max 0 diff = 0).
Proof.
  intros Hu Hb. cbv zeta. rewrite (i32_small (u - bw)) by (unfold is_i32; lia).
  rewrite (i32_small (- (u - bw))) by (unfold is_i32; lia). lia.
Qed.

Section wakeup.
#[local] Set Default Proof Using "Type".
Context {MT : MachineTypes} {MTL : MachineTypeLaws}.
Context (m_clock : Z) (rand : nat -> Z).
Context (reach : Z -> gset MachineID) (delay : Z -> Z).
Context (B : Z) (HB : B < 2 ^ 31) (c : Z) (t0 : Throttle).

Abbreviation world_ok := (world_ok m_clock reach delay).
Abbreviation now := (now m_clock).
Abbreviation linked := (linked reach delay).
Abbreviation steady := (steady m_clock reach delay B).

(** The state of the throttle during a wakeup. *)
Record live (w : World) (t : Throttle) : Prop := {
  v_ok : world_ok w;
  v_room : room B w c;
  v_throttle : w.(throttles) !! c = Some t;
  v_shape : th_shape t0 t;
  v_linked : linked w c t;
  v_units : Forall (fun u => 0 <= u < 2 ^ 31) t.(m_units_remaining)
}.

Lemma steady_live w w' t t' : live w t -> steady w w' c -> w'.(throttles) !! c = Some t' ->
  Forall (fun u => 0 <= u < 2 ^ 31) t'.(m_units_remaining) -> live w' t'.
Proof.
  intros [] Y Ht' Hu. pose proof (h_throttles _ _ (y_shape _ _ _ _ _ _ _ Y) c) as L.
  rewrite v_throttle0, Ht' in L. inversion L as [? ? Z E1 E2|]. subst.
  split; [apply Y|apply Y|done|by etrans| |done].
  apply (shape_linked reach delay w w' c t); [apply Y|done|done].
Qed.

(** A change of the throttle alone. *)
Lemma throttle_steady w t t' : live w t -> th_shape t t' -> steady w (with_throttle w c t') c.
Proof.
  intros [] Z. split; try done.
  - destruct v_ok0. split; [|done..]. intros id b Hb.
    by apply (buffer_ok_around m_clock reach delay w); [| |apply w_buffers0].
  - split; try done. intros c'. cbn. destruct (decide (c' = c)) as [->|Hne].
    + rewrite lookup_insert_eq, v_throttle0. by constructor.
    + by rewrite lookup_insert_ne.
Qed.

Lemma throttle_live w t t' : live w t -> th_shape t t' ->
  Forall (fun u => 0 <= u < 2 ^ 31) t'.(m_units_remaining) -> live (with_throttle w c t') t'.
Proof.
  intros V Z Hu. apply (steady_live w _ t); [done|by apply (throttle_steady w t)| |done].
  cbn. apply lookup_insert_eq.
Qed.

(** ** Units *)
Lemma units_at w t v : live w t -> 0 <= v < t.(m_vnets) ->
  vget t.(m_units_remaining) v = Ok (units w c v) /\ 0 <= units w c v < 2 ^ 31.
Proof.
  intros [] Hv. destruct (vget_in_range t.(m_units_remaining) v) as [u Hu].
  { by rewrite (i_units_size _ _ _ _ _ v_linked0). }
  unfold units. rewrite v_throttle0, Hu. split; [done|]. apply vget_Ok in Hu as [_ Hu].
  by apply (Forall_lookup_1 _ _ _ _ v_units0 Hu).
Qed.

(** Everything but the units of [v] is as before. *)
Record charged (w w' : World) (v u : Z) : Prop := {
  b_steady : steady w w' c;
  b_units : units w' c v = u;
  b_others v' : v' <> v -> units w' c v' = units w c v';
  b_buffers : w'.(buffers) = w.(buffers);
  b_net : w'.(net_messages) = w.(net_messages);
  b_marks : w'.(marks) = w.(marks)
}.

Lemma set_units_runs w t v u : live w t -> 0 <= v < t.(m_vnets) -> 0 <= u < 2 ^ 31 ->
  runs (set_units c v u) (fun _ w' => charged w w' v u /\ exists t', live w' t') w.
Proof.
  intros V Hv Hu. unfold set_units. pose proof V as [].
  apply wp_bind, (wp_throttle _ _ _ _ v_throttle0). apply wp_bind. unfold wp at 1.
  assert (0 <= v < Z.of_nat (length t.(m_units_remaining))) as Hr
    by (by rewrite (i_units_size _ _ _ _ _ v_linked0)).
  rewrite vset_in_range by done. cbn [lift].
  apply (wp_of_run _ _ _ _ _ (set_throttle_run w c t _ v_throttle0)).
  set (t' := t <| m_units_remaining := _ |>).
  assert (th_shape t t') as Z by (split; try done; cbn; by rewrite length_insert).
  split.
  - split; try done; [by apply (throttle_steady w t)|..].
    + unfold units. cbn. rewrite lookup_insert_eq. cbn. by rewrite vget_insert_eq.
    + intros v' Hne. unfold units. cbn. rewrite lookup_insert_eq, v_throttle0. cbn.
      by rewrite vget_insert_ne by lia.
  - exists t'. apply (throttle_live w t); [done|done|]. cbn. by apply Forall_insert.
Qed.

Lemma count_message_runs w t v s : live w t -> 0 <= v < t.(m_vnets) ->
  runs (count_message c v s) (fun _ w' => charged w w' v (units w c v) /\ exists t', live w' t') w.
Proof.
  intros V Hv. unfold count_message. pose proof V as [].
  apply wp_bind, (wp_throttle _ _ _ _ v_throttle0).
  pose proof (i_counters _ _ _ _ _ v_linked0) as Hc.
  assert (0 <= size_index s < Z.of_nat (length t.(m_message_counters))) as Hs.
  { apply (f_equal length) in Hc. rewrite length_fmap, length_replicate in Hc. rewrite Hc.
    destruct s; cbn; lia. }
  destruct (vget_in_range _ _ Hs) as [row Hrow].
  apply wp_bind. unfold wp at 1. rewrite Hrow. cbn [lift].
  assert (Z.of_nat (length row) = t.(m_vnets)) as Hlen.
  { apply vget_Ok in Hrow as [_ Hrow]. apply (f_equal (fun l => l !! Z.to_nat (size_index s))) in Hc.
    rewrite list_lookup_fmap, Hrow in Hc. symmetry in Hc.
    apply lookup_replicate in Hc as [Hc _]. lia. }
  destruct (vget_in_range row v) as [k Hk]; [lia|].
  apply wp_bind. unfold wp at 1. rewrite Hk. cbn [lift].
  apply wp_bind. unfold wp at 1. rewrite vset_in_range by lia. cbn [lift].
  apply wp_bind. unfold wp at 1. rewrite vset_in_range by done. cbn [lift].
  apply (wp_of_run _ _ _ _ _ (set_throttle_run w c t _ v_throttle0)).
  set (t' := t <| m_message_counters := _ |>).
  assert (th_shape t t') as Z.
  { split; try done. cbn. rewrite list_fmap_insert, length_insert. apply list_insert_id.
    rewrite list_lookup_fmap. apply vget_Ok in Hrow as [_ ->]. done. }
  assert (forall v', units (with_throttle w c t') c v' = units w c v') as Hu.
  { intros v'. unfold units. cbn. by rewrite lookup_insert_eq, v_throttle0. }
  split; [split; try done; by apply (throttle_steady w t)|].
  exists t'. by apply (throttle_live w t).
Qed.

(** ** Progress on a virtual network

    The backlog of the network is the rest of the message under way and the
    messages that wait; [spent] is the part of it that is done. *)
Record progress (w w' : World) (v i spent : Z) : Prop := {
  g_steady : steady w w' c;
  g_live : exists t', live w' t';
  g_others v' : v' <> v -> units w' c v' = units w c v';
  g_heaps id : id <> i -> w.(consumer_of) !! id = Some c -> heap_at w' id = heap_at w id;
  g_net : w'.(net_messages) = w.(net_messages);
  g_balance : units w' c v + waiting w' i + spent = units w c v + waiting w i
}.

Lemma progress_trans w1 w2 w3 v i s1 s2 :
  progress w1 w2 v i s1 -> progress w2 w3 v i s2 -> progress w1 w3 v i (s1 + s2).
Proof.
  intros [Y1 L1 O1 H1 N1 B1] [Y2 L2 O2 H2 N2 B2]. split; [by eapply steady_trans|done|..].
  - intros v' Hv. by rewrite O2, O1.
  - intros id Hi Hc. rewrite H2, H1; try done.
    by rewrite (a_consumers _ _ (h_around _ _ (y_shape _ _ _ _ _ _ _ Y1))).
  - congruence.
  - clear - B1 B2. lia.
Qed.

Lemma size_of_same w w' : w'.(net_messages) = w.(net_messages) -> w'.(network) = w.(network) ->
  size_of w' = size_of w.
Proof. intros E1 E2. unfold size_of. by rewrite E1, E2. Qed.

Lemma waiting_same w w' id : w'.(net_messages) = w.(net_messages) -> w'.(network) = w.(network) ->
  heap_at w' id = heap_at w id -> waiting w' id = waiting w id.
Proof. intros E1 E2 E3. unfold waiting, total. by rewrite E3, (size_of_same w w'). Qed.

Lemma charged_progress w w' v i u : charged w w' v u -> (exists t', live w' t') ->
  progress w w' v i (units w c v - u).
Proof.
  intros [] L. assert (forall id, heap_at w' id = heap_at w id) as Hh
    by (intros id; unfold heap_at; by rewrite b_buffers0).
  split; [done|done|done|by intros|done|].
  rewrite (waiting_same w w'); [|done|apply b_steady0|done]. clear - b_units0. lia.
Qed.

Lemma still_progress w w' t v i : live w t -> still w w' -> progress w w' v i 0.
Proof.
  intros V S. assert (steady w w' c) as Y.
  { apply calm_steady; [by apply still_calm|apply V|apply V|]. destruct S as (bs & -> & _). done. }
  assert (forall id, heap_at w' id = heap_at w id) as Hh.
  { intros id. by apply calm_heap, still_calm. }
  pose proof S as (bs & E & _).
  assert (w'.(throttles) = w.(throttles)) as Et by (by rewrite E).
  split; [done| | |done|by rewrite E|].
  - exists t. apply (steady_live w w' t t); [done|done|by rewrite Et, (v_throttle _ _ V)|apply V].
  - intros v' _. unfold units. by rewrite Et.
  - rewrite (waiting_same w w'); [|by rewrite E|by rewrite E|done]. unfold units. rewrite Et.
    clear. lia.
Qed.

Lemma progress_refl w t v i : live w t -> progress w w v i 0.
Proof. intros V. apply (still_progress w w t); [done|apply still_refl]. Qed.

(** ** Moving a message *)
Lemma size_runs w q nm n : w.(net_messages) !! q = Some nm -> m_msgptr n = Some q ->
  nm.(messageSize) <> Undefined -> sizes_ok w.(network) ->
  network_message_to_size (Some q) w = Ok (size_of w n, w).
Proof.
  intros Hq Hn Hs Hok. unfold network_message_to_size, size_of.
  rewrite (M_bind_run _ _ _ _ _ (net_message_run w q nm Hq)), gets_run, Hn. cbn. rewrite Hq.
  destruct (size_known _ _ Hok Hs) as (k & Hk & _). by rewrite lift_bind_run, Hk.
Qed.

Lemma wp_seq {A} (m1 m2 : W unit) (f : W A) Q w w' :
  (m1;; m2) w = Ok (tt, w') -> runs f Q w' -> runs (m1;; m2;; f) Q w.
Proof.
  intros Hr HQ. apply wp_bind. unfold mbind, M_bind in Hr. unfold wp at 1.
  destruct (m1 w) as [[[] w1]|e]; [|done]. apply wp_bind. unfold wp at 1. by rewrite Hr.
Qed.

Section link.
Context (v i o : Z).

(** The buffers of the virtual network. *)
Definition served (t : Throttle) : Prop :=
  0 <= v < t.(m_vnets) /\ vget t.(t_in) v = Ok i /\ vget t.(t_out) v = Ok o.

Lemma served_shape t t' : th_shape t t' -> served t -> served t'.
Proof. intros [] (? & ? & ?). unfold served. by rewrite th_in0, th_out0, th_vnets0. Qed.

Lemma live_served w t : served t0 -> live w t -> served t.
Proof. intros S V. by apply (served_shape t0), S; apply V. Qed.

Lemma live_in w t : served t0 -> live w t ->
  w.(consumer_of) !! i = Some c /\ exists b, w.(buffers) !! i = Some b.
Proof.
  intros S V. destruct (live_served w t S V) as (_ & Hi & _).
  by apply (i_in _ _ _ _ _ (v_linked _ _ V) v i).
Qed.

Lemma live_out w t : served t0 -> live w t -> w.(consumer_of) !! o <> Some c /\
  (exists b, w.(buffers) !! o = Some b) /\ delay o = t.(m_link_latency) /\ 0 < delay o /\
  reach i ⊆ reach o.
Proof.
  intros S V. destruct (live_served w t S V) as (_ & Hi & Ho). pose proof (v_linked _ _ V) as L.
  destruct (i_out _ _ _ _ _ L v o Ho) as (? & ? & E). split_and!; try done.
  - rewrite E. apply L.
  - by apply (i_reach _ _ _ _ _ L v).
Qed.

Lemma relay_runs w t b n q : served t0 -> live w t -> w.(buffers) !! i = Some b ->
  arrived m_clock w b = Some n -> m_msgptr n = Some q ->
  exists w', (on_buffer o (enqueue m_clock rand (Some q) t.(m_link_latency));;
              on_buffer i (pop m_clock)) w = Ok (tt, w') /\
    progress w w' v i (size_of w n) /\ live w' t /\
    exists h', heap_at w' i = Some h' /\ n :: h' ≡ₚ m_prio_heap b.
Proof using HB.
  intros S V Hb Ha Hq. destruct (live_in w t S V) as (Hci & _).
  destruct (live_out w t S V) as (Hco & [bo Hbo] & <- & Hd & Hreach).
  pose proof V as [OK R Ht Hsh L Hu].
  destruct (o_nodes _ _ _ _ _ _ (w_buffers _ _ _ _ OK i b Hb) n
    (head_in b n (proj1 (arrived_Some _ _ _ _ Ha)))) as (q' & m & nm & Hn).
  assert (q' = q) as -> by (pose proof (n_ptr _ _ _ _ _ _ _ Hn); congruence).
  pose proof (i_switch _ _ _ _ _ L) as Hs.
  destruct (relay_run m_clock rand reach delay B w c i o b bo n q m nm OK Hb Hbo Ha Hn Hreach Hd R HB
    Hci Hco Hs) as (b' & bo' & w5 & Hp & Hrun & S5).
  exists w5. split; [done|].
  assert (steady w w5 c) as Y by (by apply (relay_steady m_clock rand reach delay B w c i o b bo n q m nm
    OK Hb Hbo Ha Hn Hreach Hd R HB Hci Hco Hs b' bo' w5)).
  assert (forall id, w.(consumer_of) !! id = Some c ->
    heap_at w5 id = if decide (id = i) then Some (m_prio_heap b') else heap_at w id) as Hh
    by (by apply (relay_heap m_clock rand reach delay B w c i o b bo n q m nm
      OK Hb Hbo Ha Hn Hreach Hd R HB Hci Hco Hs b' bo' w5)).
  assert (w5.(throttles) = w.(throttles)) as Et by apply (s_throttles _ _ _ _ _ _ _ _ _ _ S5).
  assert (w5.(net_messages) = w.(net_messages)) as En by apply (s_net _ _ _ _ _ _ _ _ _ _ S5).
  assert (live w5 t) as V5 by (apply (steady_live w w5 t t); [done|done|by rewrite Et|done]).
  assert (heap_at w5 i = Some (m_prio_heap b')) as Hh5 by (by rewrite Hh, decide_True).
  split; [|split; [done|by exists (m_prio_heap b'); split; [|apply Hp]]].
  split; [done|by exists t|..|done|].
  - intros v' _. unfold units. by rewrite Et.
  - intros id Hne Hc. by rewrite Hh, decide_False.
  - unfold units, waiting. rewrite Et, Hh5. unfold heap_at. rewrite Hb. unfold total.
    rewrite (size_of_same w w5 En) by apply Y.
    assert (total w (n :: m_prio_heap b') = total w (m_prio_heap b)) as E
      by (apply total_perm, Hp). rewrite total_cons in E. unfold total in E.
    cbn [fmap option_fmap option_map]. clear - E. lia.
Qed.

Lemma move_message_runs w t b n : served t0 -> live w t -> w.(buffers) !! i = Some b ->
  arrived m_clock w b = Some n -> units w c v = 0 ->
  runs (move_message m_clock rand c v i o) (fun _ w' => progress w w' v i 0 /\
    exists h', heap_at w' i = Some h' /\ n :: h' ≡ₚ m_prio_heap b) w.
Proof using HB.
  intros S V Hb Ha Hu. destruct (live_served w t S V) as (Hv & _ & _).
  pose proof (w_buffers _ _ _ _ (v_ok _ _ V) i b Hb) as Ob.
  destruct (o_nodes _ _ _ _ _ _ Ob n (head_in b n (proj1 (arrived_Some _ _ _ _ Ha))))
    as (q & m & nm & [Hq _ _ Hnm (_ & _ & Hsize) _ _]).
  assert (sizes_ok w.(network)) as Hz by apply (v_linked _ _ V).
  unfold move_message. apply wp_bind, (wp_throttle _ _ _ _ (v_throttle _ _ V)).
  apply wp_bind, (wp_of_run _ _ _ _ _ (peek_run m_clock reach delay w i b n Hb Ob Ha)). rewrite Hq.
  apply wp_bind, (wp_of_run _ _ _ _ _ (size_runs w q nm n Hnm Hq Hsize Hz)).
  destruct (units_at w t v V Hv) as [Hget _]. rewrite Hu in Hget.
  apply wp_bind. unfold wp at 1. rewrite Hget. cbn [lift].
  pose proof (size_range w n Hz) as Hs. rewrite Z.add_0_l, i32_small by (unfold is_i32; lia).
  apply wp_bind. eapply wp_mono; [apply (set_units_runs w t v _ V Hv Hs)|].
  intros [] w1 [C1 [t1 V1]]. pose proof (charged_progress w w1 v i _ C1 (ex_intro _ t1 V1)) as G1.
  rewrite Hu in G1. pose proof (y_shape _ _ _ _ _ _ _ (b_steady _ _ _ _ C1)) as Sh.
  assert (w1.(buffers) !! i = Some b) as Hb1 by (by rewrite (b_buffers _ _ _ _ C1)).
  assert (arrived m_clock w1 b = Some n) as Ha1
    by (by rewrite (SwitchWakeup.arrived_heap m_clock w w1 b b); [|apply Sh|]).
  apply wp_bind, (wp_of_run _ _ _ _ _ (peek_run m_clock reach delay w1 i b n Hb1
    (w_buffers _ _ _ _ (v_ok _ _ V1) i b Hb1) Ha1)). rewrite Hq.
  destruct (relay_runs w1 t1 b n q S V1 Hb1 Ha1 Hq) as (w2 & Hrun & G2 & V2 & h' & Hh' & Hp).
  replace (m_link_latency t) with (m_link_latency t1)
    by (rewrite (th_latency _ _ (v_shape _ _ V1)); symmetry; apply V).
  apply (wp_seq _ _ _ _ _ _ Hrun).
  assert (w2.(net_messages) !! q = Some nm) as Hnm2
    by (by rewrite (g_net _ _ _ _ _ G2), (g_net _ _ _ _ _ G1)).
  apply wp_bind, (wp_of_run _ _ _ _ _ (net_message_run w2 q nm Hnm2)).
  eapply wp_mono; [apply (count_message_runs w2 t1 v _ V2)|].
  { by destruct (live_served w2 t1 S V2). }
  intros [] w3 [C3 L3]. pose proof (charged_progress w2 w3 v i _ C3 L3) as G3. split.
  - pose proof (progress_trans _ _ _ _ _ _ _ (progress_trans _ _ _ _ _ _ _ G1 G2) G3) as G.
    rewrite (size_of_same w w1) in G by (apply C1 || apply Sh).
    by replace 0 with (0 - size_of w n + size_of w n + (units w2 c v - units w2 c v)) by lia.
  - exists h'. split; [|done]. unfold heap_at. by rewrite (b_buffers _ _ _ _ C3).
Qed.

(** ** The loop over the messages *)

(** Nothing to move on the virtual network, and no room at the other end. *)
Definition drained (w : World) : Prop :=
  units w c v = 0 /\ forall b, w.(buffers) !! i = Some b -> arrived m_clock w b = None.

Definition full (w : World) : Prop :=
  forall b, w.(buffers) !! o = Some b -> has_slot m_clock w b = false.

Definition is_ready (w : World) : bool :=
  match w.(buffers) !! i with
  | Some b => bool_decide (is_Some (arrived m_clock w b))
  | None => false
  end.

Lemma has_work_run w t : served t0 -> live w t ->
  has_work m_clock c v i w =
    Ok ((is_ready w, is_ready w || (0 <? units w c v), units w c v), w).
Proof.
  intros S V. destruct (live_in w t S V) as (_ & b & Hb). unfold has_work, is_ready. rewrite Hb.
  rewrite (M_bind_run _ _ _ _ _ (ready_run m_clock reach delay w i b Hb
    (w_buffers _ _ _ _ (v_ok _ _ V) i b Hb))).
  rewrite (M_bind_run _ _ _ _ _ (throttle_run w c t (v_throttle _ _ V))), lift_bind_run.
  destruct (live_served w t S V) as (Hv & _). by rewrite (proj1 (units_at w t v V Hv)).
Qed.

Lemma no_work w t : served t0 -> live w t -> is_ready w || (0 <? units w c v) = false -> drained w.
Proof.
  intros S V [Hr Hu]%orb_false_iff. destruct (live_served w t S V) as (Hv & _).
  pose proof (proj2 (units_at w t v V Hv)). split; [bool_to_Z; lia|]. intros b Hb.
  unfold is_ready in Hr. rewrite Hb in Hr. apply bool_decide_eq_false in Hr.
  destruct (arrived m_clock w b); [|done]. by destruct Hr.
Qed.

Lemma slot_runs w t : served t0 -> live w t ->
  runs (on_buffer o (areNSlotsAvailable m_clock 1)) (fun r w' =>
    still w w' /\ (r = false -> full w') /\ (full w -> r = false)) w.
Proof.
  intros S V. destruct (live_out w t S V) as (_ & [b Hb] & _).
  destruct (slots_run m_clock w o b Hb) as (b' & Hr & U & Hs).
  apply (wp_of_run _ _ _ _ _ Hr). split; [|split].
  - by apply (still_tune w o b).
  - intros E x Hx. cbn in Hx. rewrite lookup_insert_eq in Hx. injection Hx as <-.
    rewrite <- E. by apply Hs.
  - intros F. by apply F.
Qed.

(** What is left to do, in rounds. *)
Definition rounds (w : World) : nat :=
  (match heap_at w i with Some h => length h | None => 0 end +
   if (0 <? units w c v)%Z then 1 else 0)%nat.

Lemma ready_arrived w : is_ready w = true ->
  exists b n, w.(buffers) !! i = Some b /\ arrived m_clock w b = Some n.
Proof.
  unfold is_ready. destruct (w.(buffers) !! i) as [b|]; [|done].
  intros [n Hn]%bool_decide_eq_true. by exists b, n.
Qed.

(** A round starts on a message when none is under way. *)
Lemma start_runs w t : served t0 -> live w t -> is_ready w || (0 <? units w c v) = true ->
  runs (when ((units w c v =? 0) && is_ready w) (move_message m_clock rand c v i o))
    (fun _ w' => progress w w' v i 0 /\
      exists h', heap_at w' i = Some h' /\ (length h' < rounds w)%nat) w.
Proof using HB.
  intros S V Hw. apply wp_when; intros E.
  - apply andb_true_iff in E as [Hu%Z.eqb_eq (b & n & Hb & Hn)%ready_arrived].
    eapply wp_mono; [by apply (move_message_runs w t b n)|].
    intros [] w' (G & h' & Hh & Hp). split; [done|]. exists h'. split; [done|].
    unfold rounds, heap_at. rewrite Hb. cbn. rewrite <- Hp. cbn. lia.
  - destruct (live_in w t S V) as (_ & b & Hb). split; [by apply (progress_refl w t)|].
    exists (m_prio_heap b). unfold rounds, heap_at. rewrite Hb. split; [done|]. cbn.
    destruct (live_served w t S V) as (Hv & _). pose proof (proj2 (units_at w t v V Hv)).
    destruct (is_ready w); rewrite ?andb_true_r, ?andb_false_r in *; cbn in *; bool_to_Z;
      rewrite (proj2 (Z.ltb_lt 0 (units w c v))) by lia; lia.
Qed.

Lemma still_same w w' : still w w' ->
  units w' c v = units w c v /\ is_ready w' = is_ready w /\ rounds w' = rounds w.
Proof.
  intros S. pose proof S as (bs & E & Hbs).
  assert (units w' c v = units w c v) as Eu by (unfold units; by rewrite E).
  split; [done|]. unfold rounds. rewrite Eu, (calm_heap w w' i) by (by apply still_calm).
  split; [|done]. unfold is_ready. subst w'. cbn. destruct (Hbs i) as [b b' U|]; [|done].
  by rewrite (SwitchWakeup.arrived_heap m_clock w _ b b') by (done || apply U).
Qed.

Lemma transfer_runs : served t0 -> forall fuel w t bw, live w t -> 0 <= bw < 2 ^ 31 ->
  (0 < fuel)%nat -> (0 < bw -> (rounds w < fuel)%nat) ->
  runs (transfer m_clock rand fuel c v i o bw) (fun bw' w' =>
    progress w w' v i (bw - bw') /\ 0 <= bw' <= bw /\ (0 < bw' -> drained w' \/ full w')) w.
Proof using HB.
  intros S fuel. induction fuel as [|fuel IH]; intros w t bw V Hbw Hf Hr; [lia|].
  cbn [transfer]. destruct (0 <? bw) eqn:Eb; bool_to_Z; cbn [negb].
  2:{ apply wp_ret. rewrite Z.sub_diag. split; [by apply (progress_refl w t)|]. lia. }
  apply wp_bind, (wp_of_run _ _ _ _ _ (has_work_run w t S V)). cbn beta iota.
  destruct (is_ready w || (0 <? units w c v)) eqn:Ew; cbn [negb].
  2:{ apply wp_ret. rewrite Z.sub_diag. split; [by apply (progress_refl w t)|].
      split; [lia|]. left. by apply (no_work w t). }
  apply wp_bind. eapply wp_mono; [by apply (slot_runs w t)|].
  intros slot w1 (S1 & Hfull & _). pose proof (still_progress w w1 t v i V S1) as G1.
  destruct slot; cbn [negb].
  2:{ apply wp_ret. rewrite Z.sub_diag. split; [done|]. split; [lia|]. right. by apply Hfull. }
  destruct (g_live _ _ _ _ _ G1) as [t1 V1]. destruct (still_same w w1 S1) as (Eu & Er & En).
  rewrite <- Eu, <- Er in *. apply wp_bind. eapply wp_mono; [by apply (start_runs w1 t1)|].
  intros [] w2 (G2 & h2 & Hh2 & Hlen). destruct (g_live _ _ _ _ _ G2) as [t2 V2].
  destruct (live_served w2 t2 S V2) as (Hv & _). destruct (units_at w2 t2 v V2 Hv) as [Hget Hu].
  apply wp_bind, (wp_throttle _ _ _ _ (v_throttle _ _ V2)). apply wp_bind. unfold wp at 1.
  rewrite Hget. cbn [lift]. cbv zeta.
  destruct (spend_arith (units w2 c v) bw) as (A1 & A2 & A3 & A4); [done|lia|]. cbv zeta in *.
  set (u3 := Z.max 0 (i32 (units w2 c v - bw))) in *.
  set (bw3 := Z.max 0 (i32 (- i32 (units w2 c v - bw)))) in *.
  apply wp_bind. eapply wp_mono; [by apply (set_units_runs w2 t2 v u3)|].
  intros [] w3 [C3 [t3 V3]]. pose proof (charged_progress w2 w3 v i u3 C3 (ex_intro _ t3 V3)) as G3.
  specialize (Hr ltac:(lia)). rewrite En in Hlen. eapply wp_mono.
  { apply (IH w3 t3 bw3); [done|lia|lia|]. intros Hp. unfold rounds, heap_at.
    rewrite (b_buffers _ _ _ _ C3), (b_units _ _ _ _ C3), (A4 Hp).
    change (m_prio_heap <$> buffers w2 !! i) with (heap_at w2 i). rewrite Hh2. cbn. lia. }
  intros bw4 w4 (G4 & Hb4 & Hend). split; [|split; [lia|done]].
  replace (bw - bw4) with (0 + 0 + (units w2 c v - u3) + (bw3 - bw4)) by lia.
  by repeat (eapply progress_trans; [|eassumption]).
Qed.

(** ** A virtual network *)
Lemma link_vnet_runs w t bw again : served t0 -> live w t -> 0 <= bw < 2 ^ 31 ->
  runs (serve_vnet m_clock rand c v bw again) (fun r w' =>
    progress w w' v i (bw - r.1) /\ 0 <= r.1 <= bw /\ (again = true -> r.2 = true) /\
    (0 < r.1 -> r.2 = false -> drained w')) w.
Proof using HB.
  intros S V Hbw. unfold serve_vnet. destruct (live_served w t S V) as (Hv & Hi & Ho).
  apply wp_bind, (wp_throttle _ _ _ _ (v_throttle _ _ V)).
  apply wp_bind. unfold wp at 1. rewrite Ho. cbn [lift].
  apply wp_bind. unfold wp at 1. rewrite Hi. cbn [lift].
  destruct (units_at w t v V Hv) as [Hget Hu].
  apply wp_bind. unfold wp at 1. rewrite Hget. cbn [lift].
  apply wp_bind, wp_assert; [intros _|intros E; bool_to_Z; lia].
  apply wp_bind, wp_gets. apply wp_bind. eapply wp_mono.
  { apply (transfer_runs S _ w t bw V Hbw); [lia|]. intros _. unfold rounds, PerfectSwitch.messages_in, heap_at.
    destruct (w.(buffers) !! i) as [b|]; cbn; destruct (0 <? units w c v); lia. }
  intros bw1 w1 (G1 & Hb1 & Hend). destruct (g_live _ _ _ _ _ G1) as [t1 V1].
  destruct (0 <? bw1) eqn:Eb; bool_to_Z; cbn [negb].
  2:{ apply wp_ret. cbn. split; [done|]. split; [done|]. split; [done|]. lia. }
  apply wp_bind, (wp_of_run _ _ _ _ _ (has_work_run w1 t1 S V1)). cbn [fst snd].
  destruct (is_ready w1 || (0 <? units w1 c v)) eqn:Ew; cbn [negb].
  2:{ apply wp_ret. cbn. split; [done|]. split; [done|]. split; [done|].
      intros _ _. by apply (no_work w1 t1). }
  assert (full w1) as Hfull.
  { destruct (Hend ltac:(lia)) as [[Hu0 Hd]|]; [|done]. rewrite Hu0, orb_false_r in Ew.
    apply ready_arrived in Ew as (b & n & Hb & Hn). by rewrite (Hd b Hb) in Hn. }
  apply wp_bind. eapply wp_mono; [by apply (slot_runs w1 t1)|].
  intros slot w2 (S2 & _ & Hno). rewrite (Hno Hfull). apply wp_ret. cbn. rewrite orb_true_r.
  split; [|split; [done|split; [done|by intros _ ?]]]. replace (bw - bw1) with (bw - bw1 + 0) by lia.
  eapply progress_trans; [done|]. by apply (still_progress w1 w2 t1).
Qed.
End link.

(** ** All virtual networks *)
Definition in_of (v : Z) : Z := match vget t0.(t_in) v with Ok i => i | Err _ => 0 end.

Definition backlog (w : World) (vs : list Z) : Z :=
  foldr Z.add 0 ((fun v => units w c v + waiting w (in_of v)) <$> vs).

Lemma in_of_served v w t : live w t -> 0 <= v < t0.(m_vnets) -> exists o, served v (in_of v) o t0.
Proof.
  intros [] Hv. destruct v_linked0. unfold served, in_of.
  rewrite (th_in _ _ v_shape0), (th_vnets _ _ v_shape0) in *.
  rewrite (th_out _ _ v_shape0) in *.
  destruct (vget_in_range t0.(t_in) v) as [i Hi]; [lia|].
  destruct (vget_in_range t0.(t_out) v) as [o Ho]; [lia|]. exists o. by rewrite Hi.
Qed.

Lemma in_of_inj w t v v' : live w t -> 0 <= v < t0.(m_vnets) -> 0 <= v' < t0.(m_vnets) ->
  in_of v = in_of v' -> v = v'.
Proof.
  intros V Hv Hv' E. destruct (in_of_served v w t V Hv) as (o & _ & Hi & _).
  destruct (in_of_served v' w t V Hv') as (o' & _ & Hi' & _). rewrite E in Hi.
  apply vget_Ok in Hi as [_ Hi], Hi' as [_ Hi']. pose proof (i_distinct _ _ _ _ _ (v_linked _ _ V)) as Hd.
  rewrite (th_in _ _ (v_shape _ _ V)) in Hd. pose proof (NoDup_lookup _ _ _ _ Hd Hi Hi'). lia.
Qed.

(** The virtual network is as before. *)
Definition untouched (w w' : World) (v : Z) : Prop :=
  units w' c v = units w c v /\ heap_at w' (in_of v) = heap_at w (in_of v).

Record advance (w w' : World) (vs : list Z) (spent : Z) : Prop := {
  e_steady : steady w w' c;
  e_live : exists t', live w' t';
  e_others v : 0 <= v < t0.(m_vnets) -> v ∉ vs -> untouched w w' v;
  e_net : w'.(net_messages) = w.(net_messages);
  e_balance : backlog w' vs + spent = backlog w vs
}.

Lemma untouched_waiting w w' v : steady w w' c -> w'.(net_messages) = w.(net_messages) ->
  untouched w w' v -> units w' c v + waiting w' (in_of v) = units w c v + waiting w (in_of v).
Proof. intros Y En [-> Hh]. by rewrite (waiting_same w w' _ En (h_network _ _ (y_shape _ _ _ _ _ _ _ Y)) Hh). Qed.

Lemma untouched_drained w w' v : steady w w' c -> untouched w w' v ->
  drained v (in_of v) w -> drained v (in_of v) w'.
Proof.
  intros Y [Eu Hh] [Hu Hd]. split; [congruence|]. intros b' Hb'. unfold heap_at in Hh.
  rewrite Hb' in Hh. destruct (w.(buffers) !! in_of v) as [b|] eqn:Hb; [|done]. injection Hh as Hh.
  rewrite (SwitchWakeup.arrived_heap m_clock w w' b b'); [by apply Hd|apply Y|done].
Qed.

Lemma progress_untouched w t w' v v' s : live w t -> 0 <= v < t0.(m_vnets) ->
  0 <= v' < t0.(m_vnets) -> v' <> v -> progress w w' v (in_of v) s -> untouched w w' v'.
Proof.
  intros V Hv Hv' Hne G. destruct (in_of_served v' w t V Hv') as (o' & S').
  split; [by apply (g_others _ _ _ _ _ G)|]. apply (g_heaps _ _ _ _ _ G).
  - intros E. by apply Hne, (in_of_inj w t).
  - by apply (live_in v' (in_of v') o' w t).
Qed.

Lemma backlog_untouched w w' vs : steady w w' c -> w'.(net_messages) = w.(net_messages) ->
  (forall v, v ∈ vs -> untouched w w' v) -> backlog w' vs = backlog w vs.
Proof.
  intros Y En Hvs. unfold backlog. f_equal. apply list_fmap_ext. intros k v Hv.
  apply untouched_waiting; [done|done|]. apply Hvs. by eapply list_elem_of_lookup_2.
Qed.

Lemma serve_vnets_runs vs : NoDup vs -> Forall (fun v => 0 <= v < t0.(m_vnets)) vs ->
  forall w t bw again, live w t -> 0 <= bw < 2 ^ 31 ->
  runs (serve_vnets m_clock rand c vs bw again) (fun r w' =>
    advance w w' vs (bw - r.1) /\ 0 <= r.1 <= bw /\ (again = true -> r.2 = true) /\
    (0 < r.1 -> r.2 = false -> forall v, v ∈ vs -> drained v (in_of v) w')) w.
Proof using HB.
  induction vs as [|v vs IH]; intros Hnd Hr w t bw again V Hbw; cbn [serve_vnets].
  { apply wp_ret. cbn. split; [split; [apply steady_refl; apply V|by exists t|done|done|cbn; lia]|].
    split; [lia|]. split; [done|]. intros _ _ v Hv. by apply elem_of_nil in Hv. }
  apply NoDup_cons in Hnd as [Hv Hnd]. apply Forall_cons in Hr as [Hrv Hr].
  destruct (in_of_served v w t V Hrv) as (o & So).
  apply wp_bind. eapply wp_mono; [by apply (link_vnet_runs v (in_of v) o w t bw again So V)|].
  intros [bw1 again1] w1 (G1 & Hb1 & Ha1 & D1). cbn [fst snd] in *.
  destruct (g_live _ _ _ _ _ G1) as [t1 V1].
  eapply wp_mono; [apply (IH Hnd Hr w1 t1 bw1 again1 V1); lia|].
  intros [bw2 again2] w2 (E2 & Hb2 & Ha2 & D2). cbn [fst snd] in *.
  assert (untouched w1 w2 v) as U2 by (by apply (e_others _ _ _ _ E2)).
  assert (forall v', v' ∈ vs -> untouched w w1 v') as U1.
  { intros v' Hv'. apply (progress_untouched w t w1 v v' (bw - bw1)); try done.
    - by eapply Forall_forall in Hr.
    - intros ->. done. }
  split; [|split; [lia|split; [auto|]]].
  - split; [by eapply steady_trans; [apply G1|apply E2]|apply E2|..].
    + intros v' Hv' [Hne Hni]%not_elem_of_cons.
      destruct (e_others _ _ _ _ E2 v' Hv' Hni) as [Eu Eh].
      destruct (progress_untouched w t w1 v v' (bw - bw1) V Hrv Hv' Hne G1) as [Eu1 Eh1].
      split; congruence.
    + by rewrite (e_net _ _ _ _ E2), (g_net _ _ _ _ _ G1).
    + pose proof (untouched_waiting w1 w2 v (e_steady _ _ _ _ E2) (e_net _ _ _ _ E2) U2) as Bv.
      pose proof (backlog_untouched w w1 vs (g_steady _ _ _ _ _ G1) (g_net _ _ _ _ _ G1) U1) as Bs.
      pose proof (g_balance _ _ _ _ _ G1). pose proof (e_balance _ _ _ _ E2).
      unfold backlog in *. cbn. lia.
  - intros Hp Hno v' [->|Hv']%elem_of_cons; [|by apply D2].
    apply (untouched_drained w1 w2 v (e_steady _ _ _ _ E2) U2). apply D1; [lia|].
    destruct again1; [|done]. by rewrite Ha2 in Hno.
Qed.

(** ** The wakeup *)
Lemma throttle_advance w t t' vs : live w t -> th_shape t t' ->
  t'.(m_units_remaining) = t.(m_units_remaining) -> advance w (with_throttle w c t') vs 0.
Proof.
  intros V Z Eu. assert (forall v, untouched w (with_throttle w c t') v) as U.
  { intros v. split; [|done]. unfold units. cbn. by rewrite lookup_insert_eq, (v_throttle _ _ V), Eu. }
  pose proof (throttle_steady w t t' V Z) as Y.
  split; [done| |done|done|].
  - exists t'. apply (throttle_live w t); [done|done|]. rewrite Eu. apply V.
  - rewrite (backlog_untouched w _ vs Y); [lia|done|done].
Qed.

Lemma advance_trans w1 w2 w3 vs s1 s2 : advance w1 w2 vs s1 -> advance w2 w3 vs s2 ->
  advance w1 w3 vs (s1 + s2).
Proof.
  intros [Y1 L1 O1 N1 B1] [Y2 L2 O2 N2 B2]. split; [by eapply steady_trans|done|..].
  - intros v Hv Hni. destruct (O1 v Hv Hni), (O2 v Hv Hni). split; congruence.
  - congruence.
  - clear - B1 B2. lia.
Qed.

Lemma vnet_order_NoDup n inv : NoDup (PerfectSwitch.vnet_order n inv).
Proof.
  unfold PerfectSwitch.vnet_order. destruct inv; rewrite ?reverse_Permutation; unfold upto;
    (apply NoDup_fmap; [apply _|apply NoDup_seq]).
Qed.

Lemma advance_perm w w' vs vs' s : vs ≡ₚ vs' -> advance w w' vs s -> advance w w' vs' s.
Proof.
  intros Hp [Y L O N Bal]. split; [done|done| |done|].
  - intros v Hv. rewrite <- Hp. by apply O.
  - assert (forall w, backlog w vs' = backlog w vs) as E; [|by rewrite !E].
    intros w0. symmetry. unfold backlog. clear - Hp. induction Hp; cbn; lia.
Qed.

Lemma calm_advance w w' t vs : live w t -> calm w w' -> w'.(switches) = w.(switches) ->
  advance w w' vs 0 /\ forall v, untouched w w' v.
Proof.
  intros V C Es. assert (steady w w' c) as Y
    by (apply calm_steady; [done|apply V|apply V|by rewrite Es]).
  assert (forall v, untouched w w' v) as U.
  { intros v. split; [|by apply calm_heap]. unfold units. by rewrite (l_throttles _ _ C). }
  split; [|done]. split; [done| |done|apply C|].
  - exists t. apply (steady_live w w' t); [done|done|by rewrite (l_throttles _ _ C), (v_throttle _ _ V)|apply V].
  - rewrite (backlog_untouched w w' vs Y); [lia|apply C|done].
Qed.

(** Nothing is left to do, or the throttle is woken in the next cycle. *)
Definition settled (w : World) (left : Z) : Prop :=
  (0 < left /\ forall v, 0 <= v < t0.(m_vnets) -> drained v (in_of v) w) \/
  now w + 1 ∈ scheduled w c.

Lemma link_wakeup_runs w : live w t0 ->
  runs (wakeup m_clock rand c) (fun _ w' => exists left t', 0 <= left <= getLinkBandwidth t0 /\
    advance w w' (upto t0.(m_vnets)) (getLinkBandwidth t0 - left) /\
    w'.(throttles) !! c = Some t' /\ head t'.(m_links_utilized) = Some (left, getLinkBandwidth t0) /\
    settled w' left) w.
Proof using HB.
  intros V. unfold wakeup. pose proof V as [_ _ Ht _ L _].
  apply wp_bind, (wp_throttle _ _ _ _ Ht). cbv zeta. pose proof (i_bandwidth _ _ _ _ _ L) as Hbw.
  set (bw := getLinkBandwidth t0) in *.
  assert (bw < 2 ^ 31) as Hmax by (pose proof (i32_range (m_endpoint_bandwidth t0 * m_link_bandwidth_multiplier t0)); unfold bw, getLinkBandwidth, is_i32 in *; lia).
  apply wp_bind, wp_assert; [intros _|intros E; bool_to_Z; lia].
  apply wp_bind, (wp_of_run _ _ _ _ _ (set_throttle_run w c t0 _ Ht)).
  set (t1 := t0 <| t_wakeups_wo_switch := _ |>). set (inv := PRIORITY_SWITCH_LIMIT <? _).
  set (vs := PerfectSwitch.vnet_order t0.(m_vnets) inv).
  pose proof (throttle_advance w t0 t1 vs V ltac:(by split) eq_refl) as E1.
  destruct (e_live _ _ _ _ E1) as [t1' V1].
  apply wp_bind. eapply wp_mono; [apply (serve_vnets_runs vs) with (t := t1') (bw := bw)|].
  { apply vnet_order_NoDup. } { apply Forall_forall. intros v. apply SwitchWakeup.vnet_order_in. }
  { done. } { lia. }
  intros [left again] w2 (E2 & Hleft & _ & D). cbn [fst snd] in *.
  destruct (e_live _ _ _ _ E2) as [t2 V2].
  apply wp_bind, (wp_of_run _ _ _ _ _ (set_throttle_run w2 c t2 _ (v_throttle _ _ V2))).
  set (t3 := t2 <| m_links_utilized ::= _ |>). set (w3 := with_throttle w2 c t3).
  pose proof (throttle_advance w2 t2 t3 vs V2 ltac:(by split) eq_refl) as E3. fold w3 in E3.
  assert (w3.(throttles) !! c = Some t3) as Ht3 by (unfold w3; cbn; apply lookup_insert_eq).
  pose proof (advance_trans _ _ _ _ _ _ (advance_trans _ _ _ _ _ _ E1 E2) E3) as E.
  replace (0 + (bw - left) + 0) with (bw - left) in E by lia.
  assert (vs ≡ₚ upto t0.(m_vnets)) as Hvs
    by (unfold vs, PerfectSwitch.vnet_order; destruct inv; by rewrite ?reverse_Permutation).
  destruct ((0 <? left) && negb again) eqn:Ego.
  - apply wp_ret. exists left, t3. split; [lia|]. split; [by apply (advance_perm _ _ vs)|].
    split; [done|]. split; [done|]. left. apply andb_true_iff in Ego as [Hl Ha]. bool_to_Z.
    split; [lia|]. intros v Hv. apply (untouched_drained w2 w3 v); [apply E3| |].
    + split; [|done]. unfold units, w3. cbn. by rewrite lookup_insert_eq, (v_throttle _ _ V2).
    + apply D; [lia|by destruct again|]. by apply SwitchWakeup.vnet_order_in.
  - destruct (e_live _ _ _ _ E3) as [t3' V3].
    eapply wp_mono; [apply (scheduleEvent_runs m_clock w3 c)|].
    intros [] w4 (C4 & Es4 & _ & Hm). destruct (calm_advance w3 w4 t3' vs V3 C4 Es4) as [E4 _].
    exists left, t3. split; [lia|]. split.
    + apply (advance_perm _ _ vs); [done|]. replace (bw - left) with (bw - left + 0) by lia.
      by apply (advance_trans w w3 w4).
    + split; [by rewrite (l_throttles _ _ C4)|]. split; [done|]. by right.
Qed.

End wakeup.

Section theorem.
Context {MT : MachineTypes} {MTL : MachineTypeLaws}.
Context (m_clock : Z) (rand : nat -> Z).
Context (reach : Z -> gset MachineID) (delay : Z -> Z).

(** A link moves as much as its bandwidth allows.  From every consistent
    state of the network in which the throttle is wired up, a wakeup returns;
    it loses no message, invents none and sends none astray; the backlog of the
    link (the rest of the messages under way and the sizes of those that wait)
    shrinks by exactly the bandwidth that the wakeup records as used, never by
    more than the link has; and unless the throttle wakes up again in the next
    cycle, bandwidth is left, no message is under way and none that has arrived
    still waits. *)
Theorem throttle_transfers (w : World) (c : Z) (t : Throttle) (B : Z)
  (OK : world_ok m_clock reach delay w) (P : pending_ok w)
  (Ht : w.(throttles) !! c = Some t) (L : linked reach delay w c t)
  (U : Forall (fun u => 0 <= u < 2 ^ 31) t.(m_units_remaining))
  (R : room B w c) (HB : B < 2 ^ 31) :
  exists w' left t', wakeup m_clock rand c w = Ok (tt, w') /\
    world_ok m_clock reach delay w' /\ pending_ok w' /\ shape w w' /\
    (forall k e, carried w' k e = carried w k e) /\
    w'.(throttles) !! c = Some t' /\ Forall (fun u => 0 <= u < 2 ^ 31) t'.(m_units_remaining) /\
    head t'.(m_links_utilized) = Some (left, getLinkBandwidth t) /\
    0 <= left <= getLinkBandwidth t /\
    backlog c t w' (upto t.(m_vnets)) + (getLinkBandwidth t - left) =
      backlog c t w (upto t.(m_vnets)) /\
    settled m_clock c t w' left.
Proof.
  assert (live m_clock reach delay B c t w t) as V by (by split).
  destruct (run_of_wp _ _ _ (link_wakeup_runs m_clock rand reach delay B HB c t w V))
    as ([] & w' & Hr & left & t' & Hl & E & Ht' & Hh & Hs).
  exists w', left, t'. destruct E as [[] [t2 V2] _ _ Bal]. split_and!; try done; try lia; [by apply y_pending0|].
  replace t' with t2; [apply V2|]. pose proof (v_throttle _ _ _ _ _ _ _ _ V2). congruence.
Qed.
End theorem.
End ThrottleWakeup.
