(* ===== verification/SimpleNetwork.v ===== *)
(** * The simple network
    ([SimpleNetwork] and [Switch], src/src/mem/ruby/network/simple/SimpleNetwork.cc,
    Switch.cc and SimpleLink.cc; the constructor and [init] of [Network],
    src/src/mem/ruby/network/Network.cc).

    The network allocates the buffers between the controllers and the switches
    and, called back by the topology, hooks switches, throttles and buffers
    together.  It lives on top of the store of [NetWorld.v]; [next_object]
    numbers the objects it allocates. *)

From S2P Require Import Prelude.
From S2P Require Import NodeSet.
From S2P Require Import NetDest.
From S2P Require Import MessageHeap.
From S2P Require Import MessageBuffer.
From S2P Require Import ShortestPath.
From S2P Require Import Topology.
From S2P Require Import NetWorld.
From S2P Require Import PerfectSwitch.
From S2P Require Import Throttle.
Import NetWorld.

Module SimpleNetwork.

(** [Switch]: the crossbar and the throttles, one per output port. *)
Record Switch := mkSwitch {
  m_perfect_switch_ptr : Z;
  m_throttles : list Z
}.
#[global] Instance Switch_eta : Settable Switch := fun s =>
  mkSwitch s.(m_perfect_switch_ptr) s.(m_throttles).

Record t := mk {
  world : World;
  m_nodes : Z;
  m_buffer_size : Z;
  m_endpoint_bandwidth : Z;
  m_toNetQueues : list (list Z);
  m_fromNetQueues : list (list Z);
  m_in_use : list bool;
  m_switch_ptr_vector : list Switch;
  m_endpoint_switches : list (option Z);      (* numbers of switches *)
  next_object : Z
}.
#[global] Instance t_eta : Settable t := fun s =>
  mk s.(world) s.(m_nodes) s.(m_buffer_size) s.(m_endpoint_bandwidth) s.(m_toNetQueues)
     s.(m_fromNetQueues) s.(m_in_use) s.(m_switch_ptr_vector) s.(m_endpoint_switches)
     s.(next_object).

Record Params := mkParams {
  number_of_virtual_networks : Z;
  control_msg_size : Z;
  buffer_size : Z;
  endpoint_bandwidth : Z;
  adaptive_routing : bool
}.

Abbreviation N := (M t).

(** An operation on the store. *)
Definition in_world {A} (m : W A) : N A := fun s =>
  r ← m s.(world); Ok (r.1, s <| world := r.2 |>).

Section network.
Context `{MachineTypes}.
Context (m_clock : Z).
Context (recycle : Z).                        (* m_recycle_latency of a new buffer *)

(** ** Allocation *)
Definition new_object : N Z := fun s => Ok (s.(next_object), s <| next_object ::= Z.add 1 |>).

(** [new MessageBuffer]. *)
Definition new_MessageBuffer : N Z :=
  id ← new_object;
  in_world (modify (fun w => w <| buffers ::=
    <[id := blank (MessageBuffer.newBuffer recycle ∅ 0 false false)]> |>));;
  mret id.

(** A buffer inside the network: ordered and, when the network has a buffer
    size, bounded. *)
Definition new_ordered_buffer : N Z :=
  id ← new_MessageBuffer;
  in_world (on_buffer id (MessageBuffer.setOrdering true));;
  size ← gets m_buffer_size;
  when (0 <? size) (in_world (on_buffer id (MessageBuffer.resize size)));;
  mret id.

Fixpoint allocate (n : nat) (new : N Z) : N (list Z) :=
  match n with
  | O => mret []
  | S n' => id ← new; ids ← allocate n' new; mret (id :: ids)
  end.

(** The queues of a node, for every virtual network one to the network and
    one from it, allocated in turn. *)
Fixpoint allocate_pairs (n : nat) : N (list Z * list Z) :=
  match n with
  | O => mret ([], [])
  | S n' =>
      to ← new_MessageBuffer;
      from ← new_MessageBuffer;
      rest ← allocate_pairs n';
      mret (to :: rest.1, from :: rest.2)
  end.

Fixpoint allocate_queues (nodes vnets : nat) : N unit :=
  match nodes with
  | O => mret tt
  | S nodes' =>
      q ← allocate_pairs vnets;
      modify (fun s => s <| m_toNetQueues ::= fun l => l ++ [q.1] |>
                         <| m_fromNetQueues ::= fun l => l ++ [q.2] |>);;
      allocate_queues nodes' vnets
  end.

(** ** The constructors of [Network] and [SimpleNetwork] *)
Definition empty_world (p : Params) (tick : Z) (randomization warmup : bool) : World :=
  mkWorld ∅ ∅ ∅ [] ∅ ∅ 0 ∅ ∅
    (mkNetCfg p.(number_of_virtual_networks) p.(adaptive_routing)
       (replicate (Z.to_nat p.(number_of_virtual_networks)) false) p.(control_msg_size) 0)
    tick randomization warmup 0.

Definition make (p : Params) (nodes tick : Z) (randomization warmup : bool) : result t :=
  Topology.require (negb (nodes =? 0)) "m_nodes != 0";;
  Topology.require (negb (p.(number_of_virtual_networks) =? 0)) "m_virtual_networks != 0";;
  let vnets := Z.to_nat p.(number_of_virtual_networks) in
  r ← allocate_queues (Z.to_nat nodes) vnets
        (mk (empty_world p tick randomization warmup) nodes p.(buffer_size)
           p.(endpoint_bandwidth) [] [] (replicate vnets false) []
           (replicate (Z.to_nat nodes) None) 0);
  Ok r.2.

(** ** [Switch] *)
Definition new_Switch : N unit :=
  id ← new_object;
  in_world (modify (fun w => w <| switches ::= <[id := PerfectSwitch.newPerfectSwitch w.(network)]> |>));;
  modify (fun s => s <| m_switch_ptr_vector ::= fun l => l ++ [mkSwitch id []] |>).

Definition addInPort (sw : Switch) (ins : list Z) : N unit :=
  in_world (PerfectSwitch.addInPort sw.(m_perfect_switch_ptr) ins).

Definition switch_at (src : Z) : N Switch :=
  l ← gets m_switch_ptr_vector; lift (vget l src).

Definition set_switch (src : Z) (f : Switch -> Switch) : N unit :=
  l ← gets m_switch_ptr_vector;
  sw ← lift (vget l src);
  l' ← lift (vset l src (f sw));
  modify (fun s => s <| m_switch_ptr_vector := l' |>).

Definition addOutPort (src : Z) (outs : list Z) (routing_table_entry : NetDest.t)
  (link_latency bw_multiplier : Z) : N unit :=
  sw ← switch_at src;
  bandwidth ← gets m_endpoint_bandwidth;
  throttle_ptr ← new_object;
  th ← in_world (Throttle.newThrottle m_clock link_latency bw_multiplier bandwidth);
  in_world (modify (fun w => w <| throttles ::= <[throttle_ptr := th]> |>));;
  set_switch src (fun sw => sw <| m_throttles ::= fun l => l ++ [throttle_ptr] |>);;
  intermediateBuffers ← allocate (length outs) new_ordered_buffer;
  in_world (PerfectSwitch.addOutPort sw.(m_perfect_switch_ptr) intermediateBuffers
              routing_table_entry);;
  in_world (Throttle.addLinks throttle_ptr intermediateBuffers outs).

Definition clearRoutingTables (sw : Switch) : N unit :=
  in_world (PerfectSwitch.clearRoutingTables sw.(m_perfect_switch_ptr)).

Definition clearBuffers (sw : Switch) : N unit :=
  in_world (PerfectSwitch.clearBuffers sw.(m_perfect_switch_ptr));;
  for_each sw.(m_throttles) (fun th => in_world (Throttle.clear th)).

Definition reconfigureOutPort (sw : Switch) (routing_table_entry : NetDest.t) : N unit :=
  in_world (PerfectSwitch.reconfigureOutPort sw.(m_perfect_switch_ptr) routing_table_entry).

Definition clear_switch_stats (sw : Switch) : N unit :=
  for_each sw.(m_throttles) (fun th => in_world (Throttle.clearStats m_clock th)).

(** ** Links *)

(** From a switch to an endpoint node. *)
Definition makeOutLink (src dest : Z) (link : Topology.BasicLink) (routing_table_entry : NetDest.t)
  (isReconfiguration : bool) : N unit :=
  s ← get;
  assert_ (dest <? s.(m_nodes)) "dest < m_nodes";;
  assert_ (src <? Z.of_nat (length s.(m_switch_ptr_vector))) "src < m_switch_ptr_vector.size()";;
  sw ← switch_at src;
  if isReconfiguration then reconfigureOutPort sw routing_table_entry
  else
    queues ← lift (vget s.(m_fromNetQueues) dest);
    addOutPort src queues routing_table_entry link.(Topology.m_latency)
      link.(Topology.m_bandwidth_factor);;
    l ← lift (vset s.(m_endpoint_switches) dest (Some src));
    modify (fun s => s <| m_endpoint_switches := l |>).

(** From an endpoint node to a switch. *)
Definition makeInLink (src dest : Z) (isReconfiguration : bool) : N unit :=
  s ← get;
  assert_ (src <? s.(m_nodes)) "src < m_nodes";;
  if isReconfiguration then mret tt
  else
    sw ← switch_at dest;
    queues ← lift (vget s.(m_toNetQueues) src);
    addInPort sw queues.

(** From a switch to a switch. *)
Definition makeInternalLink (src dest : Z) (link : Topology.BasicLink)
  (routing_table_entry : NetDest.t) (isReconfiguration : bool) : N unit :=
  if isReconfiguration then
    sw ← switch_at src; reconfigureOutPort sw routing_table_entry
  else
    s ← get;
    queues ← allocate (Z.to_nat s.(world).(network).(c_virtual_networks)) new_ordered_buffer;
    sw ← switch_at dest;
    addInPort sw queues;;
    addOutPort src queues routing_table_entry link.(Topology.m_latency)
      link.(Topology.m_bandwidth_factor).

(** What the topology calls back. *)
Definition call (c : Topology.net_call) : N unit :=
  match c with
  | Topology.makeInLink src dest _ _ _ re => makeInLink src dest re
  | Topology.makeOutLink src dest l _ routes re => makeOutLink src dest l routes re
  | Topology.makeInternalLink src dest l _ routes re => makeInternalLink src dest l routes re
  end.

(** ** Setup *)
Definition createLinks (topo : Topology.t) (isReconfiguration : bool) : N Topology.t :=
  r ← lift (Topology.createLinks topo isReconfiguration);
  for_each r.1 call;;
  mret r.2.

Definition init (block_size_bytes : Z) (topo : Topology.t) : N Topology.t :=
  in_world (modify (fun w => w <| network ::= fun c =>
    c <| m_data_msg_size := i32 (block_size_bytes + c.(m_control_msg_size)) |> |>));;
  for_each (upto topo.(Topology.m_number_of_switches)) (fun _ => new_Switch);;
  createLinks topo false.

Definition reset : N unit :=
  s ← get;
  for_each (upto s.(m_nodes)) (fun node =>
    for_each (upto s.(world).(network).(c_virtual_networks)) (fun j =>
      to ← lift (vget s.(m_toNetQueues) node);
      b ← lift (vget to j);
      in_world (on_buffer b MessageBuffer.clear);;
      from ← lift (vget s.(m_fromNetQueues) node);
      b ← lift (vget from j);
      in_world (on_buffer b MessageBuffer.clear)));;
  for_each s.(m_switch_ptr_vector) clearBuffers.

Definition clearStats : N unit :=
  l ← gets m_switch_ptr_vector; for_each l clear_switch_stats.

(** ** The queues of the controllers *)
Definition checkNetworkAllocation (id : Z) (ordered : bool) (network_num : Z) : N unit :=
  s ← get;
  assert_ (id <? s.(m_nodes)) "id < m_nodes";;
  assert_ (network_num <? s.(world).(network).(c_virtual_networks)) "network_num < m_virtual_networks";;
  when ordered
    (l ← lift (vset s.(world).(network).(m_ordered) network_num true);
     in_world (modify (fun w => w <| network ::= fun c => c <| m_ordered := l |> |>)));;
  l ← lift (vset s.(m_in_use) network_num true);
  modify (fun s => s <| m_in_use := l |>).

Definition queue_of (queues : list (list Z)) (id network_num : Z) : result Z :=
  q ← vget queues id; vget q network_num.

Definition getToNetQueue (id : Z) (ordered : bool) (network_num : Z) : N Z :=
  checkNetworkAllocation id ordered network_num;;
  q ← gets m_toNetQueues; lift (queue_of q id network_num).

Definition getFromNetQueue (id : Z) (ordered : bool) (network_num : Z) : N Z :=
  checkNetworkAllocation id ordered network_num;;
  q ← gets m_fromNetQueues; lift (queue_of q id network_num).

Definition isVNetOrdered (vnet : Z) : N bool :=
  l ← gets (fun s => s.(world).(network).(m_ordered)); lift (vget l vnet).

Definition validVirtualNetwork (vnet : Z) : N bool := l ← gets m_in_use; lift (vget l vnet).

Definition getThrottles (id : Z) : N (list Z) :=
  s ← get;
  assert_ (0 <=? id) "id >= 0";;
  assert_ (id <? s.(m_nodes)) "id < m_nodes";;
  e ← lift (vget s.(m_endpoint_switches) id);
  match e with
  | None => fail (AssertFail "m_endpoint_switches[id] != NULL")
  | Some src => sw ← switch_at src; mret sw.(m_throttles)
  end.

End network.
End SimpleNetwork.
