(* ===== verification/NetworkRun.v ===== *)
(** * The network as a whole

    What every operation conserves ([NetFlow]) and the transition system of
    a network ([NetworkRun]). *)

From S2P Require Import Prelude.
From S2P Require Import NodeSet.
From S2P Require Import NetDest.
From S2P Require Import MessageHeap.
From S2P Require Import MessageBuffer.
From S2P Require Import NetWorld.
From S2P Require Import NetWorldOps.
From S2P Require Import PerfectSwitch.
From S2P Require Import Throttle.
From S2P Require Import NetDestSpec.
From S2P Require Import MessageBufferFifo.
From S2P Require Import SwitchSend.
From S2P Require Import SwitchWakeup.
From S2P Require Import ThrottleWakeup.

(** * Wakeups and arrivals

    A message that is put into a buffer arrives later, and its consumer is
    woken when it does: an operation of the network only adds wakeups, each
    mark of a wakeup with one event of the queue behind it, and makes no
    message arrive in the present.  [flows] is this relation between the store
    before and after; every operation of switches and throttles keeps it,
    whatever the state it starts in. *)
Module NetFlow.
Import MessageHeap MessageBuffer NetWorld NetWorldSpec.

(** ** Operations that keep a relation *)
Section respects.
Context {S : Type} (R : S -> S -> Prop).
Context `{!Reflexive R, !Transitive R}.

Definition respects {A} (m : M S A) : Prop :=
  forall s, wp (fun _ => True) m (fun _ s' => R s s') s.

Lemma respects_run {A} (m : M S A) s a s' : respects m -> m s = Ok (a, s') -> R s s'.
Proof using. intros Hm Hr. specialize (Hm s). unfold wp in Hm. by rewrite Hr in Hm. Qed.

Lemma respects_ret {A} (a : A) : respects (mret a).
Proof using Reflexive0. intros s. apply wp_ret. reflexivity. Qed.

Lemma respects_fail {A} e : respects (fail e : M S A).
Proof using. done. Qed.

Lemma respects_bind {A B} (m : M S A) (f : A -> M S B) :
  respects m -> (forall a, respects (f a)) -> respects (m ≫= f).
Proof using Transitive0.
  intros Hm Hf s. apply wp_bind. eapply wp_mono; [apply Hm|]. intros a s1 H1. cbn in H1.
  eapply wp_mono; [apply Hf|]. intros b s2 H2. by etrans.
Qed.

Lemma respects_get : respects get.
Proof using Reflexive0. intros s. apply wp_get. reflexivity. Qed.

Lemma respects_gets {A} (f : S -> A) : respects (gets f).
Proof using Reflexive0. intros s. apply wp_gets. reflexivity. Qed.

Lemma respects_modify f : (forall s, R s (f s)) -> respects (modify f).
Proof using. intros Hf s. apply wp_modify, Hf. Qed.

Lemma respects_lift {A} (r : result A) : respects (lift r).
Proof using Reflexive0. intros s. unfold wp, lift. destruct r; [reflexivity|done]. Qed.

Lemma respects_assert b site : respects (assert_ b site).
Proof using Reflexive0. intros s. apply wp_assert; [|done]. reflexivity. Qed.

Lemma respects_when b (m : M S unit) : respects m -> respects (when b m).
Proof using Reflexive0. intros Hm s. apply wp_when; [intros _; apply Hm|]. reflexivity. Qed.

Lemma respects_for_each {A} (l : list A) body : (forall a, respects (body a)) ->
  respects (for_each l body).
Proof using Reflexive0 Transitive0.
  intros Hb. induction l as [|a l IH]; cbn; [apply respects_ret|].
  apply respects_bind; [apply Hb|done].
Qed.
End respects.

Create HintDb flow.

(** Goes through an operation. *)
Ltac respect :=
  repeat first
    [ solve [eauto with flow nocore] | apply respects_ret; [apply _] | apply respects_fail | apply respects_get; [apply _]
    | apply respects_gets; [apply _] | apply respects_lift; [apply _]
    | apply respects_assert; [apply _] | apply respects_when; [apply _|]
    | apply respects_for_each; [apply _|apply _|intros ?]
    | apply respects_bind; [apply _| |intros ?]
    | match goal with |- respects _ (if ?b then _ else _) => destruct b end
    | match goal with |- respects _ (match ?x with _ => _ end) => destruct x end
    | progress cbv zeta ].

(** ** The heap makes no nodes *)
Lemma insert_sub {A} (l : list A) i v x : x ∈ <[i := v]> l -> x = v \/ x ∈ l.
Proof.
  intros (j & Hj)%list_elem_of_lookup. destruct (decide (j = i)) as [->|Hne].
  - destruct (decide (i < length l)%nat).
    + rewrite list_lookup_insert_eq in Hj by done. left. congruence.
    + rewrite list_insert_ge in Hj by lia. right. by eapply list_elem_of_lookup_2.
  - rewrite list_lookup_insert_ne in Hj by done. right. by eapply list_elem_of_lookup_2.
Qed.

Lemma node_at_in l i x : node_at l i = Ok x -> x ∈ l.
Proof.
  unfold node_at. destruct (l !! i) eqn:E; [|done]. intros [= <-]. by eapply list_elem_of_lookup_2.
Qed.

Lemma sift_up_sub fuel : forall l h v l' x, sift_up fuel l h v = Ok l' -> x ∈ l' -> x = v \/ x ∈ l.
Proof.
  induction fuel as [|fuel IH]; intros l h v l' x Hr Hx; [done|]. cbn in Hr.
  destruct h as [|h]; [injection Hr as <-; by apply insert_sub in Hx|].
  destruct (node_at l _) as [p|] eqn:Ep; [|done]. rewrite bind_Ok_run in Hr.
  destruct (node_gt p v) as [[]|]; [| |done]; rewrite bind_Ok_run in Hr.
  - destruct (IH _ _ _ _ _ Hr Hx) as [|[->|]%insert_sub]; [by left| |by right].
    right. by eapply node_at_in.
  - injection Hr as <-. by apply insert_sub in Hx.
Qed.

Lemma sift_down_sub fuel : forall l h l' h' x, sift_down fuel l h = Ok (l', h') -> x ∈ l' -> x ∈ l.
Proof.
  induction fuel as [|fuel IH]; intros l h l' h' x Hr Hx; [done|]. cbn [sift_down] in Hr.
  case_decide; [|by injection Hr as <- <-].
  cbv zeta in Hr.
  destruct (node_at l (2 * (h + 1))) as [a|] eqn:Ea; [|done]. rewrite bind_Ok_run in Hr.
  destruct (node_at l (2 * (h + 1) - 1)) as [b|] eqn:Eb; [|done]. rewrite bind_Ok_run in Hr.
  destruct (node_gt a b) as [g|]; [|done]. rewrite bind_Ok_run in Hr. cbv zeta in Hr.
  destruct (node_at l (if g then _ else _)) as [c|] eqn:Ec; [|done]. rewrite bind_Ok_run in Hr.
  destruct (insert_sub _ _ _ _ (IH _ _ _ _ _ Hr Hx)) as [->|]; [|done]. by eapply node_at_in.
Qed.

Lemma adjust_heap_sub l v l' x : adjust_heap l v = Ok l' -> x ∈ l' -> x = v \/ x ∈ l.
Proof.
  unfold adjust_heap. intros Hr Hx.
  destruct (sift_down _ l 0) as [[l1 h]|] eqn:Ed; [|done]. rewrite bind_Ok_run in Hr. destruct (_ && _).
  - destruct (node_at l1 _) as [c|] eqn:Ec; [|done]. rewrite bind_Ok_run in Hr.
    destruct (sift_up_sub _ _ _ _ _ _ Hr Hx) as [|[->|Hi]%insert_sub]; [by left|right..].
    + apply (sift_down_sub _ _ _ _ _ _ Ed). by eapply node_at_in.
    + by apply (sift_down_sub _ _ _ _ _ _ Ed).
  - destruct (sift_up_sub _ _ _ _ _ _ Hr Hx) as [|Hi]; [by left|right].
    by apply (sift_down_sub _ _ _ _ _ _ Ed).
Qed.

Lemma heap_pop_sub l l' x : heap_pop l = Ok l' -> x ∈ l' -> x ∈ l.
Proof.
  unfold heap_pop. destruct (rev l) as [|v r] eqn:Er; [done|]. intros Hr Hx.
  assert (l = rev r ++ [v]) as El by (rewrite <- (rev_involutive l), Er; done).
  assert (removelast l = rev r) as E2 by (rewrite El; apply removelast_last).
  rewrite E2 in Hr. rewrite El. rewrite elem_of_app, list_elem_of_singleton.
  case_decide; [|injection Hr as <-; by left].
  destruct (adjust_heap_sub _ _ _ _ Hr Hx) as [->|]; [by right|by left].
Qed.

Lemma heap_push_sub l v l' x : heap_push l v = Ok l' -> x ∈ l' -> x = v \/ x ∈ l.
Proof.
  intros Hr Hx. destruct (sift_up_sub _ _ _ _ _ _ Hr Hx) as [|Hi]; [by left|].
  apply elem_of_app in Hi as [Hi|Hi]; [by right|left]. by apply list_elem_of_singleton in Hi.
Qed.

(** ** Buffers *)
Section buffers.
Context (m_clock : Z) (rand : nat -> Z).

Definition bnow (b : Buffer) : Z := b.(MessageBuffer.curTick) / m_clock.

(** [ts] are the times of the wakeups that were scheduled. *)
Record bflows_by (ts : list Z) (b b' : Buffer) : Prop := {
  bf_tick : b'.(MessageBuffer.curTick) = b.(MessageBuffer.curTick);
  bf_wakeups : b'.(wakeups) = fmap (fun t => t * m_clock) ts ++ b.(wakeups);
  bf_marks t : t ∈ b'.(m_scheduled_wakeups) <-> t ∈ ts \/ t ∈ b.(m_scheduled_wakeups);
  bf_nodup : NoDup ts;
  bf_new t : t ∈ ts -> (t ∉ b.(m_scheduled_wakeups)) /\ bnow b < t;
  bf_nodes n : n ∈ b'.(m_prio_heap) -> m_time n <= bnow b -> n ∈ b.(m_prio_heap)
}.

Definition bflows (b b' : Buffer) : Prop := exists ts, bflows_by ts b b'.

#[export] Instance bflows_refl : Reflexive bflows.
Proof.
  intros b. exists []. split; try done.
  - intros t. rewrite elem_of_nil. tauto.
  - constructor.
  - intros t Ht. by apply elem_of_nil in Ht.
Qed.

#[export] Instance bflows_trans : Transitive bflows.
Proof.
  intros b1 b2 b3 [ts [T1 W1 M1 D1 N1 H1]] [us [T2 W2 M2 D2 N2 H2]]. exists (us ++ ts).
  assert (bnow b2 = bnow b1) as Eb by (unfold bnow; by rewrite T1). rewrite Eb in *. split.
  - congruence.
  - by rewrite W2, W1, fmap_app, app_assoc.
  - intros t. rewrite M2, M1, elem_of_app. tauto.
  - apply NoDup_app. split_and!; [done| |done]. intros t Ht Ht'. apply (N2 t Ht), M1. by left.
  - intros t [Ht|Ht]%elem_of_app; [|by apply N1]. destruct (N2 t Ht) as [Hn ?]. split; [|done].
    intros Ht'. apply Hn, M1. by right.
  - intros n Hn Ht. apply H1; [|done]. by apply H2.
Qed.

(** A change of other members. *)
Lemma bflows_same b b' : b'.(MessageBuffer.curTick) = b.(MessageBuffer.curTick) ->
  b'.(wakeups) = b.(wakeups) -> b'.(m_scheduled_wakeups) = b.(m_scheduled_wakeups) ->
  (forall n, n ∈ b'.(m_prio_heap) -> m_time n <= bnow b -> n ∈ b.(m_prio_heap)) -> bflows b b'.
Proof.
  intros E1 E2 E3 E4. exists []. split; try done.
  - intros t. rewrite E3, elem_of_nil. tauto.
  - constructor.
  - intros t Ht. by apply elem_of_nil in Ht.
Qed.

Ltac calm_modify := apply respects_modify; intros ?; apply bflows_same; [reflexivity..|by intros].

Lemma getTime_flow : respects bflows (MessageBuffer.getTime m_clock).
Proof. unfold MessageBuffer.getTime. respect. Qed.

Lemma isReady_flow : respects bflows (isReady m_clock).
Proof. unfold isReady, MessageBuffer.getTime. respect. Qed.

Lemma peekMsgPtr_flow : respects bflows (peekMsgPtr m_clock).
Proof. unfold peekMsgPtr, assert_ready, isReady, MessageBuffer.getTime, front. respect. Qed.

Lemma areNSlotsAvailable_flow n : respects bflows (areNSlotsAvailable m_clock n).
Proof. unfold areNSlotsAvailable, MessageBuffer.getTime. respect. calm_modify. Qed.

Lemma getSize_flow : respects bflows (getSize m_clock).
Proof. unfold getSize, MessageBuffer.getTime. respect. calm_modify. Qed.

Lemma pop_node_flow : respects bflows pop_node.
Proof.
  intros b. unfold pop_node. apply wp_bind, wp_gets. apply wp_bind. unfold wp at 1, lift.
  destruct (heap_pop _) as [h|] eqn:Eh; [|done]. apply wp_modify.
  apply bflows_same; [reflexivity..|]. cbn. intros n Hn _. by apply (heap_pop_sub _ h).
Qed.

#[local] Hint Resolve pop_node_flow : flow.

Lemma pop_flow : respects bflows (pop m_clock).
Proof.
  unfold pop, assert_ready, isReady, MessageBuffer.getTime.
  respect; calm_modify.
Qed.

Lemma scheduleEventAbsolute_flow t : respects bflows (scheduleEventAbsolute m_clock t).
Proof.
  intros b. unfold scheduleEventAbsolute, alreadyScheduled, MessageBuffer.getTime, insertScheduledWakeupTime.
  apply wp_bind, wp_gets. apply wp_bind, wp_assert; [intros _|done].
  apply wp_bind, wp_gets. case_bool_decide as Hs; [apply wp_ret; reflexivity|].
  apply wp_bind, wp_gets. apply wp_bind, wp_assert; [intros Ht|done]. bool_to_Z.
  apply wp_bind, wp_modify, wp_modify. exists [t]. split; try done.
  - intros t'. cbn. rewrite elem_of_union, elem_of_singleton, list_elem_of_singleton. tauto.
  - apply NoDup_singleton.
  - intros t' ->%list_elem_of_singleton. done.
Qed.

Lemma random_flow : respects bflows (MessageBuffer.random rand).
Proof. intros b. unfold MessageBuffer.random, wp. apply bflows_same; [reflexivity..|by intros]. Qed.

#[local] Hint Resolve random_flow : flow.

Lemma arrival_flow delta : respects bflows (arrival m_clock rand delta).
Proof.
  unfold arrival, random_time, MessageBuffer.getTime. respect. calm_modify.
Qed.

Lemma push_node_flow n b : bnow b < m_time n -> wp (fun _ => True) (push_node n) (fun _ => bflows b) b.
Proof.
  intros Ht. unfold push_node. apply wp_bind, wp_gets. apply wp_bind. unfold wp at 1, lift.
  destruct (heap_push _ n) as [h|] eqn:Eh; [|done]. apply wp_modify.
  apply bflows_same; [reflexivity..|]. cbn. intros x Hx Hl.
  destruct (heap_push_sub _ _ _ _ Eh Hx) as [->|]; [lia|done].
Qed.

Lemma deref_message_flow p : respects bflows (deref_message p).
Proof. unfold deref_message. respect. Qed.

#[local] Hint Resolve arrival_flow deref_message_flow scheduleEventAbsolute_flow : flow.

Lemma bnow_flow b b' : bflows b b' -> bnow b' = bnow b.
Proof. intros [ts F]. unfold bnow. by rewrite (bf_tick _ _ _ F). Qed.

(** One operation after others. *)
Lemma wp_flow {A B} (m : M Buffer A) (f : A -> M Buffer B) b0 b : respects bflows m -> bflows b0 b ->
  (forall a b', bflows b0 b' -> wp (fun _ => True) (f a) (fun _ => bflows b0) b') ->
  wp (fun _ => True) (m ≫= f) (fun _ => bflows b0) b.
Proof.
  intros Hm H0 Hf. apply wp_bind. eapply wp_mono; [apply Hm|]. intros a b' H. apply Hf. by etrans.
Qed.

Lemma enqueue_flow p delta : respects bflows (enqueue m_clock rand p delta).
Proof.
  intros b. unfold enqueue.
  apply wp_flow; [calm_modify|reflexivity|]. intros _ b1 H1.
  apply wp_bind, wp_gets. change (MessageBuffer.curTick b1 / m_clock) with (bnow b1).
  rewrite (bnow_flow _ _ H1). apply wp_bind, wp_get.
  apply wp_flow; [respect; calm_modify|done|]. intros _ b2 H2.
  apply wp_flow; [calm_modify|done|]. intros _ b3 H3.
  apply wp_flow; [respect|done|]. intros _ b4 H4.
  apply wp_flow; [respect|done|]. intros _ b5 H5.
  apply wp_flow; [respect|done|]. intros time b6 H6.
  apply wp_bind, wp_assert; [intros Ht|done]. bool_to_Z.
  apply wp_flow; [respect|done|]. intros last b7 H7.
  apply wp_flow; [respect|done|]. intros _ b8 H8.
  apply wp_flow; [respect; calm_modify|done|]. intros _ b9 H9. destruct p as [q|]; [|done].
  apply wp_flow; [respect|done|]. intros [q' m] b10 H10.
  apply wp_flow; [respect|done|]. intros _ b11 H11.
  apply wp_flow; [unfold set_message; calm_modify|done|]. intros _ b12 H12.
  apply wp_bind, wp_gets. apply wp_bind. eapply wp_mono.
  { apply push_node_flow. rewrite (bnow_flow _ _ H12). done. }
  intros [] b13 H13. cbv beta in H13. destruct (m_consumer_set _); [|done].
  apply wp_flow; [respect|by etrans|]. intros _ b14 H14. apply wp_modify. etrans; [done|].
  apply bflows_same; [reflexivity..|by intros].
Qed.

End buffers.

(** ** The store *)
Section world.
Context {MT : MachineTypes} {LS : LinkSort}.
Context (m_clock : Z) (rand : nat -> Z).
Context (c0 : Z).                             (* the consumer that runs *)

Abbreviation now := (now m_clock).
Abbreviation bflows := (bflows m_clock).

(** [es] are the new events of the queue. *)
Record flows_by (es : list (Z * Z)) (w w' : World) : Prop := {
  f_tick : w'.(w_tick) = w.(w_tick);
  f_consumers : w'.(consumer_of) = w.(consumer_of);
  f_events : w'.(events) = es ++ w.(events);
  f_marks c t : (c, t) ∈ w'.(marks) <-> (t * m_clock, c) ∈ es \/ (c, t) ∈ w.(marks);
  f_nodup : NoDup es;
  f_new T c : (T, c) ∈ es -> exists t, T = t * m_clock /\ ~ (c, t) ∈ w.(marks) /\ now w < t;
  f_nodes id b' n : w'.(buffers) !! id = Some b' -> n ∈ m_prio_heap b' -> m_time n <= now w ->
    exists b, w.(buffers) !! id = Some b /\ n ∈ m_prio_heap b;
  f_throttles c : c <> c0 -> w'.(throttles) !! c = w.(throttles) !! c
}.

Definition flows (w w' : World) : Prop := exists es, flows_by es w w'.

Lemma flows_by_nil w w' : w'.(w_tick) = w.(w_tick) -> w'.(consumer_of) = w.(consumer_of) ->
  w'.(events) = w.(events) -> w'.(marks) = w.(marks) ->
  (forall id b' n, w'.(buffers) !! id = Some b' -> n ∈ m_prio_heap b' -> m_time n <= now w ->
    exists b, w.(buffers) !! id = Some b /\ n ∈ m_prio_heap b) ->
  (forall c, c <> c0 -> w'.(throttles) !! c = w.(throttles) !! c) -> flows w w'.
Proof.
  intros E1 E2 E3 E4 E5 E6. exists []. split; try done.
  - intros c t. rewrite E4, elem_of_nil. tauto.
  - constructor.
  - intros T c Ht. by apply elem_of_nil in Ht.
Qed.

#[export] Instance flows_refl : Reflexive flows.
Proof. intros w. apply flows_by_nil; try done. eauto. Qed.

Context (Hclock : 0 < m_clock).

#[export] Instance flows_trans : Transitive flows.
Proof using Hclock.
  intros w1 w2 w3 [es [T1 C1 E1 M1 D1 N1 H1 O1]] [fs [T2 C2 E2 M2 D2 N2 H2 O2]]. exists (fs ++ es).
  assert (now w2 = now w1) as Eb by (unfold NetWorldSpec.now; by rewrite T1). rewrite Eb in *. split.
  - congruence.
  - congruence.
  - by rewrite E2, E1, app_assoc.
  - intros c t. rewrite M2, M1, elem_of_app. tauto.
  - apply NoDup_app. split_and!; [done| |done]. intros [T c] Hf He.
    destruct (N2 T c Hf) as (t & -> & Hn & _). apply Hn, M1. by left.
  - intros T c [Hf|He]%elem_of_app; [|by apply N1]. destruct (N2 T c Hf) as (t & -> & Hn & ?).
    exists t. split; [done|]. split; [|done]. intros Ht. apply Hn, M1. by right.
  - intros id b' n Hb' Hn Ht. destruct (H2 id b' n Hb' Hn Ht) as (b2 & Hb2 & Hn2). by apply (H1 id b2).
  - intros c Hc. by rewrite O2, O1.
Qed.

Lemma flows_of_wakeups (c : Z) (ts : list Z) (T c' : Z) :
  (T, c') ∈ ((fun t => (t * m_clock, c)) <$> ts) <-> c' = c /\ exists t, T = t * m_clock /\ t ∈ ts.
Proof using.
  rewrite list_elem_of_fmap. split.
  - intros (t & [= -> ->] & Ht). eauto.
  - intros (-> & t & -> & Ht). eauto.
Qed.

Lemma storeEventInfos_switches l c : forall w w', storeEventInfos c l w = Ok w' ->
  exists s, w' = w <| switches := s |>.
Proof using.
  induction l as [|v l IH]; intros w w' Hr; cbn in Hr; [injection Hr as <-; exists (switches w); by destruct w|].
  unfold storeEventInfo in Hr. destruct (switches w !! c) as [sw|]; [|by apply IH].
  destruct (vget _ v); [|done]. rewrite !bind_Ok_run in Hr. destruct (vset _ v _); [|done].
  rewrite !bind_Ok_run in Hr. destruct (IH _ _ Hr) as [s ->]. by exists s.
Qed.

Lemma store_flow w id b b' w' : w.(buffers) !! id = Some b -> bflows (load w id b) b' ->
  store w id b' = Ok w' -> flows w w'.
Proof using Hclock.
  intros Hb [ts [T W M D N H]] Hs. unfold store in Hs.
  change (bnow m_clock (load w id b)) with (now w) in *.
  rewrite load_wakeups, app_nil_r in W. rewrite load_m_scheduled_wakeups in M, N.
  rewrite load_m_prio_heap in H.
  assert (forall i b1 n, <[id := blank b']> w.(buffers) !! i = Some b1 -> n ∈ m_prio_heap b1 -> m_time n <= now w ->
    exists b, w.(buffers) !! i = Some b /\ n ∈ m_prio_heap b) as Hnodes.
  { intros i b1 n Hb1 Hn Ht. apply lookup_insert_Some in Hb1 as [[<- <-]|[_ Hb1]]; [|eauto].
    rewrite blank_m_prio_heap in Hn. eauto. }
  cbn in Hs. destruct (consumer_of w !! id) as [c|] eqn:Hc.
  2:{ injection Hs as <-. apply flows_by_nil; done. }
  apply storeEventInfos_switches in Hs as [sws ->]. exists ((fun t => (t * m_clock, c)) <$> ts).
  assert (wakeups_of w id = scheduled w c) as Ew by (unfold wakeups_of; by rewrite Hc).
  rewrite Ew in *. split; cbn; try done.
  - rewrite W, <- list_fmap_compose. done.
  - intros c' t. rewrite elem_of_union, elem_of_map, flows_of_wakeups. setoid_rewrite M. split.
    + intros [(t' & [= -> ->] & [Ht|Ht%elem_scheduled])|]; eauto 6.
    + intros [(-> & t' & Ht & Hin)|]; [|by right]. left. exists t. split; [done|]. left.
      by replace t with t' by nia.
  - apply NoDup_fmap; [|done]. intros t t' [= E]. nia.
  - intros T0 c' (-> & t & -> & Ht)%flows_of_wakeups. exists t. split; [done|].
    destruct (N t Ht) as [Hn ?]. split; [|done]. intros Hm. by apply Hn, elem_scheduled.
Qed.

Lemma on_buffer_flow {A} id (m : M Buffer A) : respects bflows m -> respects flows (on_buffer id m).
Proof using Hclock.
  intros Hm w. unfold on_buffer, wp. destruct (w.(buffers) !! id) as [b|] eqn:Hb; [|done].
  destruct (m (load w id b)) as [[a b']|e] eqn:Er; [|done]. rewrite bind_Ok_run. cbn [fst snd].
  destruct (store w id b') as [w'|e] eqn:Es; [|done]. rewrite bind_Ok_run.
  apply (store_flow w id b b'); [done| |done]. by apply (respects_run _ m _ a).
Qed.

(** ** Messages and wakeups *)
Ltac other_modify := apply respects_modify; intros ?; apply flows_by_nil; [reflexivity..|by eauto|done].

Lemma switch_flow c : respects flows (switch c).
Proof using Hclock. unfold switch. respect. Qed.

Lemma set_switch_flow c f : respects flows (set_switch c f).
Proof using. unfold set_switch. other_modify. Qed.

Lemma throttle_flow c : respects flows (throttle c).
Proof using Hclock. unfold throttle. respect. Qed.

Lemma set_throttle_flow f : respects flows (set_throttle c0 f).
Proof using.
  unfold set_throttle. apply respects_modify. intros w. apply flows_by_nil; [reflexivity..|by eauto|].
  intros c Hc. cbn. by apply lookup_alter_ne.
Qed.

Lemma net_message_flow p : respects flows (net_message p).
Proof using Hclock. unfold net_message. respect. Qed.

Lemma set_net_message_flow q m : respects flows (set_net_message q m).
Proof using. unfold set_net_message. other_modify. Qed.

#[local] Hint Resolve switch_flow set_switch_flow throttle_flow set_throttle_flow net_message_flow
  set_net_message_flow : flow.

Lemma clone_flow p : respects flows (clone p).
Proof using Hclock. unfold clone. respect. other_modify. Qed.

Lemma getInternalDestination_flow p : respects flows (getInternalDestination p).
Proof using Hclock. unfold getInternalDestination. respect. Qed.

#[local] Hint Resolve clone_flow getInternalDestination_flow : flow.

Lemma setInternalDestination_flow p d : respects flows (setInternalDestination p d).
Proof using Hclock. unfold setInternalDestination. respect. Qed.

Lemma scheduleEvent_flow c : respects flows (scheduleEvent m_clock c 1).
Proof using Hclock.
  intros w. unfold scheduleEvent, getTime. apply wp_bind, wp_gets, wp_bind, wp_get. cbv zeta.
  change (w_tick w / m_clock) with (now w). set (t := 1 + now w).
  case_bool_decide as Hs; [apply wp_ret; reflexivity|].
  apply wp_bind, wp_assert; [intros Ht|done]. bool_to_Z. apply wp_modify.
  rewrite elem_scheduled in Hs. exists [(t * m_clock, c)]. split; cbn; try done.
  - intros c' t'. rewrite elem_of_union, elem_of_singleton, list_elem_of_singleton. split.
    + intros [[= -> ->]|]; tauto.
    + intros [[= E ->]|]; [|tauto]. left. f_equal. nia.
  - apply NoDup_singleton.
  - intros T c' [= -> ->]%list_elem_of_singleton. exists t. done.
  - eauto.
Qed.

Lemma random_world_flow : respects flows (PerfectSwitch.random rand).
Proof using. intros w. unfold PerfectSwitch.random, wp. apply flows_by_nil; [reflexivity..|by eauto|done]. Qed.

Lemma ready_flow id : respects flows (on_buffer id (isReady m_clock)).
Proof using Hclock. apply on_buffer_flow, isReady_flow. Qed.

Lemma peek_flow id : respects flows (on_buffer id (peekMsgPtr m_clock)).
Proof using Hclock. apply on_buffer_flow, peekMsgPtr_flow. Qed.

Lemma slots_flow id : respects flows (on_buffer id (areNSlotsAvailable m_clock 1)).
Proof using Hclock. apply on_buffer_flow, areNSlotsAvailable_flow. Qed.

Lemma size_flow id : respects flows (on_buffer id (getSize m_clock)).
Proof using Hclock. apply on_buffer_flow, getSize_flow. Qed.

Lemma take_flow id : respects flows (on_buffer id (pop m_clock)).
Proof using Hclock. apply on_buffer_flow, pop_flow. Qed.

Lemma put_flow id p delta : respects flows (on_buffer id (enqueue m_clock rand p delta)).
Proof using Hclock. apply on_buffer_flow, enqueue_flow. Qed.

#[local] Hint Resolve setInternalDestination_flow scheduleEvent_flow random_world_flow ready_flow
  peek_flow slots_flow size_flow take_flow put_flow : flow.

(** ** Switches *)
Lemma set_order_flow c i v : respects flows (PerfectSwitch.set_order c i v).
Proof using Hclock. unfold PerfectSwitch.set_order. respect. Qed.

Lemma queue_length_flow ports vs : forall n, respects flows (PerfectSwitch.queue_length m_clock ports vs n).
Proof using Hclock. induction vs as [|v vs IH]; intros n; cbn; respect. Qed.

#[local] Hint Resolve set_order_flow queue_length_flow : flow.

Lemma order_links_flow c v : respects flows (PerfectSwitch.order_links m_clock rand c v).
Proof using Hclock. unfold PerfectSwitch.order_links. respect. Qed.

Lemma enough_slots_flow bs : forall e, respects flows (PerfectSwitch.enough_slots m_clock bs e).
Proof using Hclock. induction bs as [|b bs IH]; intros e; cbn; respect. Qed.

Lemma send_copies_flow p links : respects flows (PerfectSwitch.send_copies m_clock rand p links).
Proof using Hclock. induction links as [|[b d] links IH]; cbn; respect. Qed.

#[local] Hint Resolve order_links_flow enough_slots_flow send_copies_flow : flow.

Lemma forward_flow c p v : respects flows (PerfectSwitch.forward m_clock rand c p v).
Proof using Hclock.
  unfold PerfectSwitch.forward, PerfectSwitch.send, PerfectSwitch.forget_pending. respect.
Qed.

#[local] Hint Resolve forward_flow : flow.

Lemma forward_all_flow fuel : forall c p v,
  respects flows (PerfectSwitch.forward_all m_clock rand fuel c p v).
Proof using Hclock. induction fuel as [|fuel IH]; intros c p v; cbn; respect. Qed.

#[local] Hint Resolve forward_all_flow : flow.

Lemma serve_ports_flow n : forall c p v, respects flows (PerfectSwitch.serve_ports m_clock rand n c p v).
Proof using Hclock. induction n as [|n IH]; intros c p v; cbn; respect. Qed.

#[local] Hint Resolve serve_ports_flow : flow.

Lemma switch_wakeup_flow c : respects flows (PerfectSwitch.wakeup m_clock rand c).
Proof using Hclock. unfold PerfectSwitch.wakeup, PerfectSwitch.serve_vnet. respect. Qed.

(** ** Throttles *)
Lemma set_units_flow v u : respects flows (Throttle.set_units c0 v u).
Proof using Hclock. unfold Throttle.set_units. respect. Qed.

#[local] Hint Resolve set_units_flow : flow.

Lemma move_message_flow v i o : respects flows (Throttle.move_message m_clock rand c0 v i o).
Proof using Hclock.
  unfold Throttle.move_message, Throttle.network_message_to_size, Throttle.count_message. respect.
Qed.

Lemma has_work_flow v i : respects flows (Throttle.has_work m_clock c0 v i).
Proof using Hclock. unfold Throttle.has_work. respect. Qed.

#[local] Hint Resolve move_message_flow has_work_flow : flow.

Lemma transfer_flow fuel : forall v i o bw,
  respects flows (Throttle.transfer m_clock rand fuel c0 v i o bw).
Proof using Hclock. induction fuel as [|fuel IH]; intros v i o bw; cbn; respect. Qed.

#[local] Hint Resolve transfer_flow : flow.

Lemma serve_vnets_flow vs : forall bw again,
  respects flows (Throttle.serve_vnets m_clock rand c0 vs bw again).
Proof using Hclock.
  induction vs as [|v vs IH]; intros bw again; cbn; unfold Throttle.serve_vnet; respect.
Qed.

#[local] Hint Resolve serve_vnets_flow : flow.

Lemma throttle_wakeup_flow : respects flows (Throttle.wakeup m_clock rand c0).
Proof using Hclock. unfold Throttle.wakeup. respect. Qed.

End world.

End NetFlow.

(** * The network at work

    Switches, throttles, controllers and the event queue together: the steps
    that the network takes, in any order that the queue allows, and the
    invariant of all the states it can reach.

    Controllers are generated code and stand outside: they put messages into
    the buffers to the network, take messages that have arrived out of the
    buffers from it, and are woken.  The model keeps, beside the store, what
    they put in and what they took. *)
Module NetworkRun.
Import MessageHeap MessageBuffer NetWorld NetWorldSpec NetWorldOps SwitchSpec SwitchForward
  ThrottleSpec ThrottleWakeup NetFlow.

(** The network and what the controllers have put into it and taken out. *)
Record net := mkNet {
  the : World;
  injected : list NetworkMessage;
  delivered : list (Z * NetworkMessage)       (* with the buffer *)
}.

Definition network_consumer (w : World) (c : Z) : bool :=
  bool_decide (is_Some (w.(switches) !! c)) || bool_decide (is_Some (w.(throttles) !! c)).

Definition tally {MT : MachineTypes} {MTL : MachineTypeLaws} (l : list NetworkMessage) (k : Z)
  (e : MachineID) : nat := sum_list_with (fun nm => bears nm k e) l.

(** ** Steps *)

(** An event leaves the queue and runs ([RubyEventQueueNode::process]). *)
Definition take_event (e : Z * Z) (w : World) : World :=
  w <| events ::= fun l => filter (fun x => x <> e) l |>.

Definition fire (m_clock c : Z) (wakeup : W unit) (w : World) : result (unit * World) :=
  process m_clock c wakeup (take_event (w.(w_tick), c) w).

(** A new message: [new NetworkMessage(getTime())]. *)
Definition new_message (m_clock : Z) (nm : NetworkMessage) (w : World) : World :=
  w <| w_messages ::= <[w.(next_message) := mkMessage (w.(w_tick) / m_clock) 0]> |>
    <| net_messages ::= <[w.(next_message) := nm]> |> <| next_message ::= Z.add 1 |>.

Section run.
#[local] Set Default Proof Using "Type".
Context {MT : MachineTypes} {MTL : MachineTypeLaws} {LS : LinkSort}.
Context (m_clock : Z) (rand : nat -> Z).
Context (reach : Z -> gset MachineID) (delay : Z -> Z).
Context (B : Z).                              (* bounds the numbers of messages *)

Abbreviation world_ok := (world_ok m_clock reach delay).
Abbreviation now := (now m_clock).
Abbreviation flows := (flows m_clock).

Inductive step : net -> net -> Prop :=
| step_switch w w' c inj del :
    is_Some (w.(switches) !! c) -> (w.(w_tick), c) ∈ w.(events) -> room B w c ->
    fire m_clock c (PerfectSwitch.wakeup m_clock rand c) w = Ok (tt, w') ->
    step (mkNet w inj del) (mkNet w' inj del)
| step_throttle w w' c inj del :
    is_Some (w.(throttles) !! c) -> (w.(w_tick), c) ∈ w.(events) -> room B w c ->
    fire m_clock c (Throttle.wakeup m_clock rand c) w = Ok (tt, w') ->
    step (mkNet w inj del) (mkNet w' inj del)
| step_controller w w' c inj del :
    network_consumer w c = false -> (w.(w_tick), c) ∈ w.(events) ->
    fire m_clock c (mret tt) w = Ok (tt, w') ->
    step (mkNet w inj del) (mkNet w' inj del)
| step_tick w T inj del :
    w.(w_tick) <= T -> (forall e, e ∈ w.(events) -> T <= e.1) ->
    step (mkNet w inj del) (mkNet (w <| w_tick := T |>) inj del)
| step_inject w w' id b nm inj del :
    w.(buffers) !! id = Some b -> b.(m_counter) < B -> 0 < delay id -> msg_ok nm ->
    dests nm ⊆ reach id ->
    on_buffer id (enqueue m_clock rand (Some w.(next_message)) (delay id)) (new_message m_clock nm w) =
      Ok (tt, w') ->
    step (mkNet w inj del) (mkNet w' (nm :: inj) del)
| step_deliver w w' id c b n q nm inj del :
    w.(consumer_of) !! id = Some c -> network_consumer w c = false ->
    w.(buffers) !! id = Some b -> arrived m_clock w b = Some n ->
    m_msgptr n = Some q -> w.(net_messages) !! q = Some nm ->
    on_buffer id (pop m_clock) w = Ok (tt, w') ->
    step (mkNet w inj del) (mkNet w' inj ((id, nm) :: del)).

(** ** The invariant *)

(** Everything is wired up, and the buffers that wake a switch or a throttle
    are its inputs. *)
Record plumbed (w : World) : Prop := {
  q_wired : wired_all reach delay w;
  q_linked : linked_all reach delay w;
  q_switch id c sw : w.(consumer_of) !! id = Some c -> w.(switches) !! c = Some sw ->
    exists port v, PerfectSwitch.in_buffer sw port v = Ok id;
  q_throttle id c t : w.(consumer_of) !! id = Some c -> w.(throttles) !! c = Some t ->
    exists v, vget t.(t_in) v = Ok id
}.

(** The links have started on no more than an [int] of units. *)
Definition units_ok (w : World) : Prop :=
  forall c t, w.(throttles) !! c = Some t -> Forall (fun u => 0 <= u < 2 ^ 31) t.(m_units_remaining).

(** Each scheduled wakeup is one event of the queue, none of them in the past. *)
Record events_ok (w : World) : Prop := {
  v_nodup : NoDup w.(events);
  v_marks c t : (c, t) ∈ w.(marks) <-> (t * m_clock, c) ∈ w.(events);
  v_times T c : (T, c) ∈ w.(events) -> w.(w_tick) <= T /\ exists t, T = t * m_clock
}.

(** Whoever has mail will be woken. *)
Definition attended (w : World) : Prop :=
  forall id b c, w.(buffers) !! id = Some b -> b.(m_prio_heap) <> [] ->
    w.(consumer_of) !! id = Some c -> network_consumer w c = true ->
    exists t, now w <= t /\ (c, t) ∈ w.(marks).

Record sound (s : net) : Prop := {
  n_ok : world_ok s.(the);
  n_pending : pending_ok s.(the);
  n_plumbed : plumbed s.(the);
  n_units : units_ok s.(the);
  n_events : events_ok s.(the);
  n_attended : attended s.(the);
  n_balance k e : tally s.(injected) k e =
    (carried s.(the) k e + tally s.(delivered).*2 k e)%nat;
  n_delivered id nm : (id, nm) ∈ s.(delivered) -> dests nm ⊆ reach id
}.

Context (Hclock : 0 < m_clock) (HB : B < 2 ^ 31).
#[local] Set Default Proof Using "All".

(** ** What the shape decides *)
Lemma shape_network w w' c : shape w w' -> network_consumer w' c = network_consumer w c.
Proof.
  intros S. unfold network_consumer. f_equal; apply bool_decide_ext.
  - destruct (h_switches _ _ S c); split; intros [? ?]; eauto; done.
  - destruct (h_throttles _ _ S c); split; intros [? ?]; eauto; done.
Qed.

Lemma shape_plumbed w w' : shape w w' -> plumbed w -> plumbed w'.
Proof.
  intros S []. split.
  - by apply (shape_wired_all reach delay w).
  - by apply (shape_linked_all reach delay w).
  - intros id c sw' Hid Hsw'. rewrite (a_consumers _ _ (h_around _ _ S)) in Hid.
    pose proof (h_switches _ _ S c) as R. rewrite Hsw' in R. inversion R as [sw ? Hsh E1 E2|]. subst.
    destruct (q_switch0 id c sw) as (port & v & Hin); [done|done|]. exists port, v.
    unfold PerfectSwitch.in_buffer in *. by rewrite (z_in _ _ Hsh).
  - intros id c t' Hid Ht'. rewrite (a_consumers _ _ (h_around _ _ S)) in Hid.
    pose proof (h_throttles _ _ S c) as R. rewrite Ht' in R. inversion R as [t ? Hsh E1 E2|]. subst.
    destruct (q_throttle0 id c t) as (v & Hin); [done|done|]. exists v. by rewrite (th_in _ _ Hsh).
Qed.

Lemma plumbed_same w w' : w'.(consumer_of) = w.(consumer_of) -> w'.(buffers) = w.(buffers) ->
  w'.(switches) = w.(switches) -> w'.(throttles) = w.(throttles) -> w'.(network) = w.(network) ->
  plumbed w -> plumbed w'.
Proof.
  intros Ec Eb Es Et En [Qw Ql Qs Qt]. split.
  - intros c sw Hc. rewrite Es in Hc. destruct (Qw c sw Hc). split; rewrite ?Ec, ?Eb, ?Es, ?En; done.
  - intros c t Hc. rewrite Et in Hc. destruct (Ql c t Hc). split; rewrite ?Ec, ?Eb, ?Es, ?En; done.
  - rewrite Ec, Es. done.
  - rewrite Ec, Et. done.
Qed.

(** ** Time and marks *)
Lemma due_now w c : events_ok w -> (w.(w_tick), c) ∈ w.(events) -> (c, now w) ∈ w.(marks) /\
  w.(w_tick) = now w * m_clock.
Proof.
  intros E Hc. destruct (v_times _ E _ _ Hc) as [_ [t Ht]].
  assert (now w = t) as En by (unfold NetWorldSpec.now; rewrite Ht; by apply Z.div_mul; lia).
  rewrite En. split; [|done]. apply (v_marks _ E). by rewrite <- Ht.
Qed.

(** A wakeup that is over leaves the invariant of the buffers as it is. *)
Lemma unmark_ok w c : world_ok w -> world_ok (w <| marks ::= fun m => m ∖ {[ (c, now w) ]} |>).
Proof.
  intros []. split; [|done|done]. intros id b Hb. destruct (w_buffers0 id b Hb) as [Hbl Hok Hcfg Hf Hn].
  split; [done| |by destruct Hcfg|done|].
  - destruct Hok. split; try done. intros n Hin Ht. specialize (b_woken n Hin Ht).
    change (MessageBufferSpec.now m_clock (load _ id b)) with (now w) in Ht.
    rewrite load_m_scheduled_wakeups in *. unfold wakeups_of in *. cbn.
    destruct (w.(consumer_of) !! id) as [c'|]; [|done].
    apply elem_scheduled. apply elem_scheduled in b_woken. cbn. apply elem_of_difference.
    split; [done|]. intros [= _ E]%elem_of_singleton. lia.
  - intros n Hin. destruct (Hn n Hin) as (q & m & nm & []). by exists q, m, nm.
Qed.

Lemma tick_ok w T : world_ok w -> w.(w_tick) <= T -> world_ok (w <| w_tick := T |>).
Proof.
  intros [] HT. assert (now w <= T / m_clock) as Hnow by (apply Z.div_le_mono; lia).
  split; [|done|done]. intros id b Hb. destruct (w_buffers0 id b Hb) as [Hbl Hok Hcfg Hf Hn].
  split; [done| | | |].
  - destruct Hok. split; try done. intros n Hin Ht. apply (b_woken n Hin).
    change (MessageBufferSpec.now m_clock (load _ id b)) with (T / m_clock) in Ht.
    change (MessageBufferSpec.now m_clock (load _ id b)) with (now w). lia.
  - by destruct Hcfg.
  - intros Hs. specialize (Hf Hs). change (NetWorldSpec.now m_clock _) with (T / m_clock). lia.
  - intros n Hin. destruct (Hn n Hin) as (q & m & nm & []). by exists q, m, nm.
Qed.

(** ** Events *)

(** The queue after a wakeup: the event is gone, new ones are in. *)
Lemma fired_events c0 w c w2 es : events_ok w -> (w.(w_tick), c) ∈ w.(events) ->
  flows_by m_clock c0 es (take_event (w.(w_tick), c) w) w2 ->
  events_ok (w2 <| marks ::= fun m => m ∖ {[ (c, now w2) ]} |>).
Proof.
  intros E Hc [T C Ev M D N _ _]. destruct (due_now w c E Hc) as [_ Ht]. destruct E as [Vd Vm Vt].
  cbn in *. change (now (take_event _ w)) with (now w) in *.
  assert (now w2 = now w) as En by (unfold NetWorldSpec.now; by rewrite T). rewrite En.
  assert (forall c' t, (c', t) <> (c, now w) <-> (t * m_clock, c') <> (w.(w_tick), c)) as Hne.
  { intros c' t. rewrite Ht. split; intros Hne [= E1 E2]; apply Hne; subst; f_equal; nia. }
  split; cbn.
  - rewrite Ev. apply NoDup_app. split_and!; [done| |by apply NoDup_filter].
    intros [T0 c'] Hes [_ Hev]%list_elem_of_filter. destruct (N T0 c' Hes) as (t & -> & Hm & _).
    apply Hm. by apply Vm.
  - intros c' t. rewrite elem_of_difference, elem_of_singleton, M, Ev, elem_of_app,
      list_elem_of_filter, Vm, (Hne c' t). split; [tauto|]. intros [Hes|[? ?]]; [|tauto].
    split; [by left|]. destruct (N _ _ Hes) as (t' & E1 & _ & Hlt). apply Hne.
    intros [= -> ->]. assert (t' = now w) by nia. lia.
  - intros T0 c'. rewrite Ev, elem_of_app, list_elem_of_filter, T. intros [Hes|[_ Hev]]; [|exact (Vt _ _ Hev)].
    destruct (N _ _ Hes) as (t & -> & _ & Hlt). split; [nia|by exists t].
Qed.

Lemma flows_events c0 w w' : events_ok w -> flows c0 w w' -> events_ok w'.
Proof.
  intros [Vd Vm Vt] [es [T C Ev M D N _ _]]. split.
  - rewrite Ev. apply NoDup_app. split_and!; [done| |done]. intros [T0 c] Hes Hev.
    destruct (N T0 c Hes) as (t & -> & Hm & _). by apply Hm, Vm.
  - intros c t. rewrite M, Ev, elem_of_app, Vm. done.
  - intros T0 c. rewrite Ev, elem_of_app, T. intros [Hes|Hev]; [|exact (Vt _ _ Hev)].
    destruct (N _ _ Hes) as (t & -> & _ & Hlt). split; [|by exists t].
    unfold NetWorldSpec.now in Hlt. pose proof (Z.mul_succ_div_gt w.(w_tick) m_clock Hclock). nia.
Qed.

(** ** Mail of the others

    A message that is there now was there before; one that is still to come
    has its wakeup. *)
Lemma woken w id b c n : world_ok w -> w.(buffers) !! id = Some b -> w.(consumer_of) !! id = Some c ->
  n ∈ m_prio_heap b -> now w < m_time n -> (c, m_time n) ∈ w.(marks).
Proof.
  intros OK Hb Hc Hn Ht.
  pose proof (MessageBufferSpec.b_woken _ _ (o_buf _ _ _ _ _ _ (w_buffers _ _ _ _ OK id b Hb)) n Hn Ht) as Hw.
  rewrite load_m_scheduled_wakeups in Hw. unfold wakeups_of in Hw. rewrite Hc in Hw.
  by apply elem_scheduled.
Qed.

Lemma flows_marks c0 w w' : flows c0 w w' -> w.(marks) ⊆ w'.(marks).
Proof. intros [es F] [c t] Hm. apply (f_marks _ _ _ _ _ F). by right. Qed.

Lemma flows_now c0 w w' : flows c0 w w' -> now w' = now w.
Proof. intros [es F]. unfold NetWorldSpec.now. by rewrite (f_tick _ _ _ _ _ F). Qed.

Lemma still_attended c0 w w' id b' c : world_ok w' -> flows c0 w w' -> attended w ->
  (network_consumer w' c = network_consumer w c) ->
  w'.(buffers) !! id = Some b' -> m_prio_heap b' <> [] -> w'.(consumer_of) !! id = Some c ->
  network_consumer w' c = true -> exists t, now w' <= t /\ (c, t) ∈ w'.(marks).
Proof.
  intros OK F A En Hb' Hne Hc Hnc. destruct (m_prio_heap b') as [|n h] eqn:Hh; [done|].
  assert (n ∈ m_prio_heap b') as Hn by (rewrite Hh; left).
  destruct (decide (now w' < m_time n)) as [Hlt|Hge].
  - exists (m_time n). split; [lia|]. by apply (woken w' id b' c n).
  - rewrite (flows_now _ _ _ F) in *. destruct F as [es F].
    destruct (f_nodes _ _ _ _ _ F id b' n Hb' Hn ltac:(lia)) as (b & Hb & Hnb).
    rewrite (f_consumers _ _ _ _ _ F) in Hc.
    destruct (A id b c Hb) as (t & Ht & Hm); [by intros Hb0; rewrite Hb0 in Hnb; apply elem_of_nil in Hnb|done|congruence|].
    exists t. split; [done|]. apply (f_marks _ _ _ _ _ F). by right.
Qed.

(** ** A wakeup *)
Lemma fire_inv c wakeup w w' : fire m_clock c wakeup w = Ok (tt, w') ->
  exists w2, wakeup (take_event (w.(w_tick), c) w) = Ok (tt, w2) /\
    w' = w2 <| marks ::= fun m => m ∖ {[ (c, now w2) ]} |>.
Proof.
  unfold fire, process. intros Hr.
  destruct (wakeup _) as [[[] w2]|e] eqn:Ew; [|unfold mbind, M_bind in Hr; by rewrite Ew in Hr].
  rewrite (M_bind_run _ _ _ _ _ Ew) in Hr. unfold getTime in Hr. rewrite gets_run, get_run in Hr.
  exists w2. split; [done|]. destruct (bool_decide _); [|done]. cbn in Hr. by injection Hr as <-.
Qed.

Lemma fire_run c wakeup w w2 : wakeup (take_event (w.(w_tick), c) w) = Ok (tt, w2) ->
  (c, now w2) ∈ w2.(marks) ->
  fire m_clock c wakeup w = Ok (tt, w2 <| marks ::= fun m => m ∖ {[ (c, now w2) ]} |>).
Proof.
  intros Ew Hm. unfold fire, process. rewrite (M_bind_run _ _ _ _ _ Ew). unfold getTime.
  rewrite gets_run, get_run. change (w_tick w2 / m_clock) with (now w2).
  by rewrite bool_decide_eq_true_2 by (by apply elem_scheduled).
Qed.

Lemma take_shape e w : shape w (take_event e w).
Proof. by split. Qed.

Lemma take_ok e w : world_ok w -> world_ok (take_event e w).
Proof.
  intros []. split; [|done|done]. intros id b Hb.
  by apply (buffer_ok_around m_clock reach delay w); [| |apply w_buffers0].
Qed.

(** What a wakeup of [c] leaves behind. *)
Record woke (w w2 : World) (c : Z) : Prop := {
  k_ok : world_ok w2;
  k_pending : pending_ok w2;
  k_shape : shape w w2;
  k_carried k e : carried w2 k e = carried w k e;
  k_units : units_ok w2;
  k_flows : flows c w w2;
  k_inputs id b : w2.(consumer_of) !! id = Some c -> w2.(buffers) !! id = Some b ->
    m_prio_heap b <> [] -> network_consumer w2 c = true -> exists t, now w2 < t /\ (c, t) ∈ w2.(marks)
}.

Lemma woke_sound w w2 c inj del : sound (mkNet w inj del) -> (w.(w_tick), c) ∈ w.(events) ->
  woke (take_event (w.(w_tick), c) w) w2 c ->
  sound (mkNet (w2 <| marks ::= fun m => m ∖ {[ (c, now w2) ]} |>) inj del).
Proof.
  intros [OK P Q U E A Bal Del] Hc [Kok Kp Ks Kc Ku Kf Ki]. cbn in *.
  assert (shape w w2) as Sh by (etrans; [apply take_shape|done]).
  split; cbn; try done.
  - by apply unmark_ok.
  - apply (plumbed_same w2); try done. by apply (shape_plumbed w).
  - destruct Kf as [es Kf]. by apply (fired_events c w c w2 es).
  - intros id b c' Hb Hne Hc' Hnc. cbn in *.
    assert (exists t, now w2 <= t /\ (c', t) ∈ w2.(marks) /\ (c', t) <> (c, now w2)) as (t & Ht & Hm & Hd).
    { destruct (decide (c' = c)) as [->|Hne'].
      - destruct (Ki id b Hc' Hb Hne Hnc) as (t & Ht & Hm). exists t. split; [lia|]. split; [done|].
        intros [= Et]. lia.
      - destruct (still_attended c (take_event (w_tick w, c) w) w2 id b c') as (t & Ht & Hm); try done.
        + by apply shape_network.
        + exists t. split; [done|]. split; [done|]. congruence. }
    exists t. split; [done|]. apply elem_of_difference. by rewrite elem_of_singleton.
  - intros k e. rewrite (Bal k e). f_equal. symmetry. exact (Kc k e).
Qed.

(** A buffer from which nothing has arrived wakes its consumer later. *)
Lemma idle_woken w id b c : world_ok w -> w.(buffers) !! id = Some b -> w.(consumer_of) !! id = Some c ->
  m_prio_heap b <> [] -> arrived m_clock w b = None \/ now w + 1 ∈ scheduled w c ->
  exists t, now w < t /\ (c, t) ∈ w.(marks).
Proof.
  intros OK Hb Hc Hne [Ha|Hs].
  - unfold arrived, head_of in Ha. destruct (m_prio_heap b) as [|n h] eqn:Hh; [done|]. cbn in Ha.
    destruct (m_time n <=? now w) eqn:Et; [done|]. bool_to_Z. exists (m_time n). split; [lia|].
    apply (woken w id b c n); [done|done|done|rewrite Hh; left|lia].
  - exists (now w + 1). split; [lia|]. by apply elem_scheduled.
Qed.

Lemma shape_units c w w' : shape w w' -> flows c w w' -> units_ok w ->
  (forall t, w'.(throttles) !! c = Some t -> Forall (fun u => 0 <= u < 2 ^ 31) t.(m_units_remaining)) ->
  units_ok w'.
Proof.
  intros S [es F] U Hc c' t Ht. destruct (decide (c' = c)) as [->|Hne]; [by apply Hc|].
  rewrite (f_throttles _ _ _ _ _ F) in Ht by done. by apply (U c').
Qed.

Lemma switch_woke w c sw : world_ok w -> pending_ok w -> plumbed w -> units_ok w -> room B w c ->
  w.(switches) !! c = Some sw ->
  exists w2, PerfectSwitch.wakeup m_clock rand c w = Ok (tt, w2) /\ woke w w2 c.
Proof.
  intros OK P Q U R Hsw.
  assert (SwitchWakeup.active m_clock reach delay B c sw w) as A.
  { split; [done|]. split; [done|]. exists sw. split; [done|]. split; [done|]. by apply Q. }
  destruct (run_of_wp _ _ _ (SwitchWakeup.wakeup_runs m_clock rand reach delay B HB c sw w A Hsw P))
    as ([] & w2 & Hr & [OK2 Sh Hcar _ P2] & Hin).
  exists w2. split; [done|].
  assert (flows c w w2) as F by (by eapply respects_run; [apply switch_wakeup_flow|]).
  split; try done; [by apply P2|..].
  - apply (shape_units c w w2); try done. intros t Ht.
    pose proof (h_throttles _ _ Sh c) as L. rewrite Ht in L. inversion L as [t1 ? _ E1 E2|]. subst.
    pose proof (i_switch _ _ _ _ _ (q_linked _ Q c t1 (eq_sym E1))). congruence.
  - intros id b Hc Hb Hne _. apply (idle_woken w2 id b c); try done.
    rewrite (a_consumers _ _ (h_around _ _ Sh)) in Hc.
    destruct (q_switch _ Q id c sw Hc Hsw) as (port & v & Hid).
    destruct (Hin port v id Hid) as [Hi|Hm]; [left; by apply Hi|by right].
Qed.

Lemma throttle_woke w c t : world_ok w -> pending_ok w -> plumbed w -> units_ok w -> room B w c ->
  w.(throttles) !! c = Some t ->
  exists w2, Throttle.wakeup m_clock rand c w = Ok (tt, w2) /\ woke w w2 c.
Proof.
  intros OK P Q U R Ht. pose proof (q_linked _ Q c t Ht) as L.
  assert (live m_clock reach delay B c t w t) as V by (split; try done; by apply U with c).
  destruct (run_of_wp _ _ _ (ThrottleWakeup.link_wakeup_runs m_clock rand reach delay B HB c t w V))
    as ([] & w2 & Hr & left & t' & _ & [[OK2 Sh Hcar _ P2] [t2 V2] _ _ _] & _ & _ & Hset).
  exists w2. split; [done|].
  assert (flows c w w2) as F by (by eapply respects_run; [apply throttle_wakeup_flow|]).
  split; try done; [by apply P2|..].
  - apply (shape_units c w w2); try done. intros t3 Ht3.
    replace t3 with t2; [apply V2|]. pose proof (v_throttle _ _ _ _ _ _ _ _ V2). congruence.
  - intros id b Hc Hb Hne _. apply (idle_woken w2 id b c); try done.
    rewrite (a_consumers _ _ (h_around _ _ Sh)) in Hc.
    destruct (q_throttle _ Q id c t Hc Ht) as (v & Hid).
    destruct Hset as [[_ Hd]|Hm]; [left|by right].
    destruct (Hd v) as [_ Hnone].
    { apply vget_Ok_range in Hid. by rewrite (i_in_size _ _ _ _ _ L) in Hid. }
    apply Hnone. unfold in_of. by rewrite Hid.
Qed.

(** ** Controllers *)
Lemma new_around nm w : around w (new_message m_clock nm w).
Proof. split; try done. cbn. lia. Qed.

Lemma new_other nm w p : p <> w.(next_message) ->
  (new_message m_clock nm w).(w_messages) !! p = w.(w_messages) !! p /\
  (new_message m_clock nm w).(net_messages) !! p = w.(net_messages) !! p.
Proof. intros Hp. cbn. by rewrite !lookup_insert_ne by done. Qed.

Lemma inject_runs w id b nm : world_ok w -> w.(buffers) !! id = Some b -> b.(m_counter) < B ->
  0 < delay id -> msg_ok nm -> dests nm ⊆ reach id ->
  exists w' b', on_buffer id (enqueue m_clock rand (Some w.(next_message)) (delay id))
      (new_message m_clock nm w) = Ok (tt, w') /\
    world_ok (new_message m_clock nm w) /\
    (forall k e, carried (new_message m_clock nm w) k e = carried w k e) /\
    sent m_clock reach delay (new_message m_clock nm w) w' id b b' w.(next_message) nm.
Proof.
  intros OK Hb Hcnt Hd Hok Hr. set (w1 := new_message m_clock nm w).
  pose proof (unheld_next m_clock reach delay w OK) as Hun.
  assert (world_ok w1) as OK1
    by (by apply (change_ok m_clock reach delay w w1 w.(next_message)); [| |apply new_around| | |apply new_other]).
  destruct (enqueue_world m_clock rand reach delay w1 id b w.(next_message)
    (mkMessage (now w) 0) nm OK1 Hb) as (w' & b' & Hrun & Hs); try done.
  - lia.
  - split; [cbn; lia|done].
  - cbn. apply lookup_insert_eq.
  - cbn. apply lookup_insert_eq.
  - exists w', b'. split; [done|]. split; [done|]. split; [|done].
    intros k e. by apply (change_carried w w1 w.(next_message)); [| |apply new_other].
Qed.

Lemma inject_sound w w' id b nm inj del : sound (mkNet w inj del) -> w.(buffers) !! id = Some b ->
  b.(m_counter) < B -> 0 < delay id -> msg_ok nm -> dests nm ⊆ reach id ->
  on_buffer id (enqueue m_clock rand (Some w.(next_message)) (delay id)) (new_message m_clock nm w) =
    Ok (tt, w') ->
  sound (mkNet w' (nm :: inj) del).
Proof.
  intros [OK P Q U E A Bal Del] Hb Hcnt Hd Hok Hr Hrun. cbn in *.
  destruct (inject_runs w id b nm OK Hb Hcnt Hd Hok Hr) as (w2 & b' & Hrun2 & OK1 & Hcar & Hs).
  rewrite Hrun in Hrun2. injection Hrun2 as <-. set (w1 := new_message m_clock nm w) in *.
  assert (shape w w1) as Sh1 by (split; try done; apply new_around).
  assert (shape w w') as Sh by (etrans; [done|]; by eapply (sent_shape m_clock reach delay w1)).
  assert (flows 0 w w') as F.
  { apply (flows_trans m_clock 0 Hclock w w1); [by apply flows_by_nil; try done; eauto|].
    by eapply respects_run; [apply put_flow|]. }
  split; cbn; try done.
  - apply Hs.
  - by apply (sent_pending m_clock reach delay w1 w' id b b' w.(next_message) nm).
  - by apply (shape_plumbed w).
  - intros c t. rewrite (s_throttles _ _ _ _ _ _ _ _ _ _ Hs). apply U.
  - by apply (flows_events 0 w).
  - intros i x c Hx Hne Hc Hn. apply (still_attended 0 w w' i x c); try done; [apply Hs|].
    by apply shape_network.
  - intros k e. specialize (Bal k e).
    rewrite (sent_carried m_clock reach delay w1 w' id b b' w.(next_message) nm Hs Hb)
      by (cbn; apply lookup_insert_eq). rewrite Hcar.
    change (tally (nm :: inj) k e) with (bears nm k e + tally inj k e)%nat. lia.
Qed.

Lemma deliver_sound w w' id c b n q nm inj del : sound (mkNet w inj del) ->
  w.(consumer_of) !! id = Some c -> network_consumer w c = false ->
  w.(buffers) !! id = Some b -> arrived m_clock w b = Some n ->
  m_msgptr n = Some q -> w.(net_messages) !! q = Some nm ->
  on_buffer id (pop m_clock) w = Ok (tt, w') ->
  sound (mkNet w' inj ((id, nm) :: del)).
Proof.
  intros [OK P Q U E A Bal Del] Hc Hnc Hb Ha Hq Hnm Hrun. cbn in *.
  pose proof (w_buffers _ _ _ _ OK id b Hb) as Ob.
  destruct (pop_world m_clock reach delay w id b n Hb Ob Ha) as (b' & Hp & Hpop).
  rewrite (Hpop w Hb eq_refl) in Hrun. injection Hrun as <-.
  destruct (o_nodes _ _ _ _ _ _ Ob n (head_in b n (proj1 (arrived_Some _ _ _ _ Ha))))
    as (q' & m & nm' & Hn).
  assert (q' = q) as -> by (pose proof (n_ptr _ _ _ _ _ _ _ Hn); congruence).
  assert (nm' = nm) as -> by (pose proof (n_net _ _ _ _ _ _ _ Hn); congruence).
  assert (shape w (set_buf id b' w)) as Sh by (by apply (shape_popped m_clock w id b b' n)).
  assert (flows 0 w (set_buf id b' w)) as F.
  { apply flows_by_nil; try done. intros i x y Hx Hy _.
    apply lookup_set_buf in Hx as [[-> ->]|[_ Hx]]; [|by eauto]. exists b. split; [done|].
    rewrite <- (p_heap _ _ _ _ Hp). by right. }
  assert (w.(switches) !! c = None) as Hs.
  { unfold network_consumer in Hnc. apply orb_false_iff in Hnc as [Hns _].
    apply bool_decide_eq_false in Hns. by apply eq_None_not_Some. }
  split; cbn.
  - by apply (taken_ok m_clock reach delay w id b b' n).
  - by apply (popped_pending m_clock w c id b b' n).
  - by apply (shape_plumbed w).
  - apply U.
  - by apply (flows_events 0 w).
  - intros i x c' Hx Hne Hc' Hn'.
    apply (still_attended 0 w (set_buf id b' w) i x c'); try done.
    by apply (taken_ok m_clock reach delay w id b b' n).
  - intros k e. rewrite (Bal k e), (taken_carried m_clock reach w id b b' n q m nm Hb Hp Hn k e).
    change (tally (nm :: del.*2) k e) with (bears nm k e + tally del.*2 k e)%nat. lia.
  - intros i x [[= -> ->]|Hin]%elem_of_cons; [apply Hn|by apply (Del i)].
Qed.

(** ** Every step keeps the invariant *)
Lemma controller_woke w c : world_ok w -> pending_ok w -> units_ok w -> network_consumer w c = false ->
  woke w w c.
Proof. intros OK P U Hc. split; try done. intros. congruence. Qed.

Lemma tick_sound w T inj del : sound (mkNet w inj del) -> w.(w_tick) <= T ->
  (forall e, e ∈ w.(events) -> T <= e.1) -> sound (mkNet (w <| w_tick := T |>) inj del).
Proof.
  intros [OK P Q U E A Bal Del] HT Hev. cbn in *. split; cbn; try done.
  - by apply tick_ok.
  - by apply (plumbed_same w).
  - destruct E as [Vd Vm Vt]. split; try done. intros T0 c Hin. cbn. split; [exact (Hev _ Hin)|].
    by apply (Vt T0 c).
  - intros id b c Hb Hne Hc Hn. destruct (A id b c Hb Hne Hc Hn) as (t & Ht & Hm).
    exists t. split; [|done]. change (NetWorldSpec.now m_clock _) with (T / m_clock).
    apply (v_marks _ E) in Hm. specialize (Hev _ Hm). cbn in Hev.
    apply Z.div_le_upper_bound; [done|]. lia.
Qed.

(** The wakeup of [c] returns and does what it should. *)
Definition wakes (w : World) (c : Z) (wakeup : W unit) : Prop :=
  let w1 := take_event (w.(w_tick), c) w in
  exists w2, wakeup w1 = Ok (tt, w2) /\ woke w1 w2 c.

Lemma fire_sound w w' c wakeup inj del : sound (mkNet w inj del) -> (w.(w_tick), c) ∈ w.(events) ->
  wakes w c wakeup -> fire m_clock c wakeup w = Ok (tt, w') -> sound (mkNet w' inj del).
Proof.
  intros Hs Hc (w3 & Hr3 & K) Hr. apply fire_inv in Hr as (w2 & Hr & ->).
  rewrite Hr in Hr3. injection Hr3 as <-. by apply (woke_sound w w2 c).
Qed.

Lemma fire_returns w c wakeup inj del : sound (mkNet w inj del) -> (w.(w_tick), c) ∈ w.(events) ->
  wakes w c wakeup -> exists w', fire m_clock c wakeup w = Ok (tt, w').
Proof.
  intros Hs Hc (w2 & Hr & K). eexists. apply (fire_run c wakeup w w2 Hr).
  pose proof (k_flows _ _ _ K) as F. rewrite (flows_now _ _ _ F). apply (flows_marks _ _ _ F).
  by apply (due_now w c), Hc; apply Hs.
Qed.

Lemma network_wakes w c inj del : sound (mkNet w inj del) ->
  (is_Some (w.(switches) !! c) -> room B w c -> wakes w c (PerfectSwitch.wakeup m_clock rand c)) /\
  (is_Some (w.(throttles) !! c) -> room B w c -> wakes w c (Throttle.wakeup m_clock rand c)) /\
  (network_consumer w c = false -> wakes w c (mret tt)).
Proof.
  intros [OK P Q U E A Bal Del]. cbn in *. set (w1 := take_event (w_tick w, c) w).
  assert (plumbed w1) as Q1 by (by apply (plumbed_same w)).
  assert (world_ok w1) as OK1 by (by apply take_ok). split_and!.
  - intros [sw Hsw] R. by apply (switch_woke w1 c sw).
  - intros [t Ht] R. by apply (throttle_woke w1 c t).
  - intros Hn. exists w1. split; [done|]. by apply controller_woke.
Qed.

Lemma step_sound s s' : step s s' -> sound s -> sound s'.
Proof.
  intros Hstep Hs. destruct Hstep.
  - eapply fire_sound; [done|done| |done]. by eapply network_wakes.
  - eapply fire_sound; [done|done| |done]. by eapply network_wakes.
  - eapply fire_sound; [done|done| |done]. by eapply network_wakes.
  - by apply tick_sound.
  - by eapply inject_sound.
  - by eapply deliver_sound.
Qed.

Lemma steps_sound s s' : rtc step s s' -> sound s -> sound s'.
Proof. induction 1; eauto using step_sound. Qed.

Lemma event_runs w c wakeup inj del : sound (mkNet w inj del) -> (w.(w_tick), c) ∈ w.(events) ->
  wakes w c wakeup -> exists w', fire m_clock c wakeup w = Ok (tt, w') /\ ~ (w.(w_tick), c) ∈ w'.(events).
Proof.
  intros Hs Hc Hw. destruct (fire_returns w c wakeup inj del Hs Hc Hw) as [w' Hr].
  exists w'. split; [done|]. pose proof (n_events _ (fire_sound w w' c wakeup inj del Hs Hc Hw Hr)) as E.
  apply fire_inv in Hr as (w2 & Hr & ->). destruct Hw as (w3 & Hr3 & K). rewrite Hr in Hr3.
  injection Hr3 as <-. pose proof (flows_now _ _ _ (k_flows _ _ _ K)) as En.
  change (now (take_event _ w)) with (now w) in En. cbn [the] in E.
  rewrite (proj2 (due_now w c (n_events _ Hs) Hc)). intros Hin. apply (v_marks _ E) in Hin.
  cbn in Hin. rewrite En in Hin. apply elem_of_difference in Hin as [_ Hin]. by apply Hin, elem_of_singleton.
Qed.

Lemma due_step w c inj del : sound (mkNet w inj del) -> (w.(w_tick), c) ∈ w.(events) -> room B w c ->
  exists w', step (mkNet w inj del) (mkNet w' inj del) /\ ~ (w.(w_tick), c) ∈ w'.(events).
Proof.
  intros Hs Hc R. destruct (network_wakes w c inj del Hs) as (W1 & W2 & W3).
  destruct (w.(switches) !! c) as [sw|] eqn:Hsw.
  { destruct (event_runs w c _ inj del Hs Hc (W1 ltac:(eauto) R)) as (w' & Hr & Hn).
    exists w'. split; [|done]. eapply step_switch; [by rewrite Hsw|done|done|done]. }
  destruct (w.(throttles) !! c) as [t|] eqn:Ht.
  { destruct (event_runs w c _ inj del Hs Hc (W2 ltac:(eauto) R)) as (w' & Hr & Hn).
    exists w'. split; [|done]. eapply step_throttle; [by rewrite Ht|done|done|done]. }
  assert (network_consumer w c = false) as Hnc by (unfold network_consumer; by rewrite Hsw, Ht).
  destruct (event_runs w c _ inj del Hs Hc (W3 Hnc)) as (w' & Hr & Hn).
  exists w'. split; [|done]. by eapply step_controller.
Qed.

(** ** The network when it is set up *)
Record installed (w : World) : Prop := {
  j_ok : world_ok w;
  j_plumbed : plumbed w;
  j_empty id b : w.(buffers) !! id = Some b -> m_prio_heap b = [];
  j_events : w.(events) = [];
  j_marks : w.(marks) = ∅;
  j_pending c sw : w.(switches) !! c = Some sw -> Forall (fun k => k = 0) sw.(m_pending_message_count);
  j_units c t : w.(throttles) !! c = Some t -> Forall (fun u => u = 0) t.(m_units_remaining)
}.

Lemma installed_sound w : installed w -> sound (mkNet w [] []).
Proof.
  intros []. split; cbn; try done.
  - intros c sw v k Hsw Hk. apply vget_Ok in Hk as [_ Hk].
    apply (Forall_lookup_1 _ _ _ _ (j_pending0 c sw Hsw)) in Hk. subst k.
    assert (expected w c v = 0%nat) as ->; [|done]. apply sum_over_0. intros id b Hb.
    rewrite (j_empty0 id b Hb). destruct (w.(consumer_of) !! id); [|done]. by destruct (_ && _).
  - intros c t Ht. eapply Forall_impl; [by apply (j_units0 c)|]. cbn. lia.
  - split.
    + rewrite j_events0. constructor.
    + intros c t. rewrite j_marks0, j_events0. split; intros Hin; [by apply not_elem_of_empty in Hin|by apply elem_of_nil in Hin].
    + intros T c. rewrite j_events0. intros Hin. by apply elem_of_nil in Hin.
  - intros id b c Hb Hne. by rewrite (j_empty0 id b Hb) in Hne.
  - intros k e. assert (carried w k e = 0%nat) as ->; [|done]. apply sum_over_0. intros id b Hb.
    by rewrite (j_empty0 id b Hb).
  - intros id nm Hin. by apply elem_of_nil in Hin.
Qed.

(** ** Nothing under way *)
Definition quiet (w : World) : Prop :=
  forall T c, (T, c) ∈ w.(events) -> network_consumer w c = false.

(** The copies for [e] in the buffers of controllers that serve [e]. *)
Definition at_controllers (w : World) (k : Z) (e : MachineID) : nat :=
  sum_over (fun id b => match w.(consumer_of) !! id with
                        | Some c => if negb (network_consumer w c) && bool_decide (e ∈ reach id)
                                    then length (filter (carries w k e) (m_prio_heap b)) else 0%nat
                        | None => 0%nat
                        end) w.(buffers).

Lemma carried_reach w id b k e : world_ok w -> w.(buffers) !! id = Some b -> ~ e ∈ reach id ->
  length (filter (carries w k e) (m_prio_heap b)) = 0%nat.
Proof.
  intros OK Hb He. apply count_0. intros n Hn Hcar.
  destruct (o_nodes _ _ _ _ _ _ (w_buffers _ _ _ _ OK id b Hb) n Hn) as (q & m & nm & Hok).
  apply (carries_node w n q nm k e (n_ptr _ _ _ _ _ _ _ Hok) (n_net _ _ _ _ _ _ _ Hok)) in Hcar as [_ He'].
  by apply He, (n_reach _ _ _ _ _ _ _ Hok).
Qed.

Lemma quiet_empty s id b c : sound s -> quiet s.(the) -> s.(the).(buffers) !! id = Some b ->
  s.(the).(consumer_of) !! id = Some c -> network_consumer s.(the) c = true -> m_prio_heap b = [].
Proof.
  intros Hs Hq Hb Hc Hn. destruct (decide (m_prio_heap b = [])) as [|Hne]; [done|exfalso].
  destruct (n_attended _ Hs id b c Hb Hne Hc Hn) as (t & _ & Hm).
  apply (v_marks _ (n_events _ Hs)) in Hm. by rewrite (Hq _ _ Hm) in Hn.
Qed.

Lemma quiet_carried s k e : sound s -> quiet s.(the) -> carried s.(the) k e = at_controllers s.(the) k e.
Proof.
  intros Hs Hq. apply sum_over_ext. intros id b Hb.
  pose proof (MessageBufferSpec.b_consumer _ _ (o_buf _ _ _ _ _ _ (w_buffers _ _ _ _ (n_ok _ Hs) id b Hb))) as Hc.
  rewrite load_m_consumer_set in Hc. apply bool_decide_eq_true in Hc as [c Hc]. rewrite Hc.
  destruct (network_consumer s.(the) c) eqn:Hn; cbn.
  - by rewrite (quiet_empty s id b c).
  - case_bool_decide as He; [done|]. by apply (carried_reach s.(the) id b k e (n_ok _ Hs)).
Qed.

End run.

(** ** Theorems *)
Section theorems.
Context {MT : MachineTypes} {MTL : MachineTypeLaws} {LS : LinkSort}.
Context (m_clock : Z) (rand : nat -> Z).
Context (reach : Z -> gset MachineID) (delay : Z -> Z).

(** C34: the network delivers every message exactly once to every destination
    and to no other.  In every state that a newly installed, empty network of
    buffers with fixed delays can reach, as long as no buffer has counted 2^31
    messages, whatever the controllers send and however the event queue orders the wakeups of the same
    tick, and for every message and machine: as many copies for the machine
    were sent as are in the buffers of the network or were taken out by
    controllers; no copy is in a buffer, or was taken out of one, that does not
    serve the machines it is for; and every message in an input buffer of a
    switch or throttle has an event in the queue that will wake its consumer,
    so none is forgotten. *)
Theorem network_exactly_once (B : Z) (w0 : World) (s : net)
  (Hclock : 0 < m_clock) (HB : B < 2 ^ 31) (I : installed m_clock reach delay w0)
  (Hrun : rtc (step m_clock rand reach delay B) (mkNet w0 [] []) s) :
  (forall k e, tally s.(injected) k e =
    (carried s.(the) k e + tally s.(delivered).*2 k e)%nat) /\
  (forall id nm, (id, nm) ∈ s.(delivered) -> dests nm ⊆ reach id) /\
  (forall id b n, s.(the).(buffers) !! id = Some b -> n ∈ m_prio_heap b ->
    exists q nm, m_msgptr n = Some q /\ s.(the).(net_messages) !! q = Some nm /\ dests nm ⊆ reach id) /\
  forall id b c, s.(the).(buffers) !! id = Some b -> m_prio_heap b <> [] ->
    s.(the).(consumer_of) !! id = Some c -> network_consumer s.(the) c = true ->
    exists t, now m_clock s.(the) <= t /\ (t * m_clock, c) ∈ s.(the).(events).
Proof.
  pose proof (steps_sound m_clock rand reach delay B Hclock HB _ _ Hrun
    (installed_sound m_clock rand reach delay B Hclock HB w0 I)) as [OK P Q U E A Bal Del].
  split_and!; [done|done|..].
  - intros id b n Hb Hn. destruct (o_nodes _ _ _ _ _ _ (w_buffers _ _ _ _ OK id b Hb) n Hn)
      as (q & m & nm & []). by exists q, nm.
  - intros id b c Hb Hne Hc Hn. destruct (A id b c Hb Hne Hc Hn) as (t & Ht & Hm). exists t.
    split; [done|]. by apply (v_marks _ _ E).
Qed.

(** C35: a network that has come to rest has delivered everything.  When no
    wakeup of a switch or throttle is in the event queue, every copy of every
    message that was sent has been taken out by a controller or waits in a
    buffer of a controller that serves the machine it is for. *)
Theorem quiet_network_delivered (B : Z) (w0 : World) (s : net)
  (Hclock : 0 < m_clock) (HB : B < 2 ^ 31) (I : installed m_clock reach delay w0)
  (Hrun : rtc (step m_clock rand reach delay B) (mkNet w0 [] []) s) (Hq : quiet s.(the)) :
  forall k e, tally s.(injected) k e =
    (tally s.(delivered).*2 k e + at_controllers reach s.(the) k e)%nat.
Proof.
  pose proof (steps_sound m_clock rand reach delay B Hclock HB _ _ Hrun
    (installed_sound m_clock rand reach delay B Hclock HB w0 I)) as Hs.
  intros k e. rewrite (n_balance _ _ _ _ Hs k e).
  rewrite (quiet_carried m_clock rand reach delay B Hclock HB s k e Hs Hq). lia.
Qed.

(** C36: the network never gets stuck.  In every state that it can reach the
    next event of the queue, whichever it is among those of the same tick, can
    be run: the wakeup of the switch, throttle or controller passes every
    assertion and returns, and the event is gone afterwards. *)
Theorem network_never_stuck (B : Z) (w0 : World) (s : net) (T c : Z)
  (Hclock : 0 < m_clock) (HB : B < 2 ^ 31) (I : installed m_clock reach delay w0)
  (Hrun : rtc (step m_clock rand reach delay B) (mkNet w0 [] []) s)
  (Hev : (T, c) ∈ s.(the).(events)) (Hfirst : forall e, e ∈ s.(the).(events) -> T <= e.1)
  (R : room B s.(the) c) :
  exists s1 s2, step m_clock rand reach delay B s s1 /\ s1.(the).(w_tick) = T /\
    step m_clock rand reach delay B s1 s2 /\ ~ (T, c) ∈ s2.(the).(events).
Proof.
  pose proof (steps_sound m_clock rand reach delay B Hclock HB _ _ Hrun
    (installed_sound m_clock rand reach delay B Hclock HB w0 I)) as Hs.
  destruct s as [w inj del]. cbn in *.
  assert (step m_clock rand reach delay B (mkNet w inj del) (mkNet (w <| w_tick := T |>) inj del)) as H1
    by (apply step_tick; [by eapply v_times; [apply Hs|]|done]).
  pose proof (step_sound m_clock rand reach delay B Hclock HB _ _ H1 Hs) as Hs1.
  destruct (due_step m_clock rand reach delay B Hclock HB _ c inj del Hs1 Hev R) as (w' & H2 & Hn).
  by exists (mkNet (w <| w_tick := T |>) inj del), (mkNet w' inj del).
Qed.
End theorems.
End NetworkRun.
