(* ===== verification/NetworkExamples.v ===== *)
(** * A small network, set up and run

    Two controllers, one router and its two links, built by the code of the
    topology and of the network, and what happens to a message for both
    controllers. *)

From stdpp Require Import sorting.
From S2P Require Import Prelude.
From S2P Require Import NodeSet.
From S2P Require Import NetDest.
From S2P Require Import NetDestSpec.
From S2P Require Import NetDestRefines.
From S2P Require Import MessageHeap.
From S2P Require Import MessageBuffer.
From S2P Require Import MessageBufferFifo.
From S2P Require Import ShortestPath.
From S2P Require Import Topology.
From S2P Require Import NetWorld.
From S2P Require Import NetWorldOps.
From S2P Require Import PerfectSwitch.
From S2P Require Import Throttle.
From S2P Require Import SwitchSend.
From S2P Require Import SwitchWakeup.
From S2P Require Import ThrottleWakeup.
From S2P Require Import SimpleNetwork.
From S2P Require Import NetworkRun.
Import MessageHeap MessageBuffer NetWorld NetWorldSpec NetWorldOps SwitchSpec SwitchForward
  ThrottleSpec NetworkRun.

Module NetworkExamples.

(** ** Enumerations *)
Definition numbered {A} (l : list A) : list (Z * A) := imap (fun i a => (Z.of_nat i, a)) l.

Lemma elem_numbered {A} (l : list A) i a : vget l i = Ok a -> (i, a) ∈ numbered l.
Proof.
  rewrite vget_Ok. unfold numbered. rewrite list_elem_of_lookup.
  intros [Hi Ha]. exists (Z.to_nat i). rewrite list_lookup_imap, Ha. cbn. by rewrite Z2Nat.id.
Qed.

(** The ports of a switch: port, virtual network, buffer. *)
Definition ports (l : list (list Z)) : list (Z * Z * Z) :=
  numbered l ≫= (fun pq => (fun vb => (pq.1, vb.1, vb.2)) <$> numbered pq.2).

Lemma elem_ports l p v id : (q ← vget l p; vget q v) = Ok id -> (p, v, id) ∈ ports l.
Proof.
  unfold ports. rewrite list_elem_of_bind.
  destruct (vget l p) as [q|] eqn:Eq; [|done]. rewrite bind_Ok_run. intros Hv%elem_numbered.
  exists (p, q). split; [|by apply elem_numbered]. apply list_elem_of_fmap. by exists (v, id).
Qed.

(** Cases on the elements of a concrete list or map. *)
Ltac elems H :=
  repeat (apply elem_of_cons in H as [H|H]; [simplify_eq|]); try (by apply elem_of_nil in H).

Ltac entries H := apply elem_of_map_to_list in H; vm_compute in H; elems H.

(** A buffer that nothing was put into. *)
Lemma fresh_buffer {MT : MachineTypes} {MTL : MachineTypeLaws} m_clock reach delay w id b c :
  blank b = b -> m_prio_heap b = [] -> m_counter b = 0 -> w.(consumer_of) !! id = Some c ->
  MessageBufferSpec.configured (load w id b) -> m_last_arrival_time b <= now m_clock w + delay id ->
  buffer_ok m_clock reach delay w id b.
Proof.
  intros Hbl Hh Hcnt Hc Hcfg Hl. split; [done| |done|done|].
  - split; autorewrite with members; rewrite ?Hh, ?Hcnt; try done.
    + constructor.
    + intros n Hn. by apply elem_of_nil in Hn.
    + by rewrite Hc.
    + intros n Hn. by apply elem_of_nil in Hn.
  - rewrite Hh. intros n Hn. by apply elem_of_nil in Hn.
Qed.

(** ** The network *)
Definition pair_types : MachineTypes := NetDestRefines.numbering [1; 1].

Definition pair_laws : @MachineTypeLaws pair_types :=
  NetDestRefines.numbering_laws [1; 1] ltac:(repeat constructor; lia) ltac:(by vm_compute).

#[local] Existing Instance pair_types.
#[local] Existing Instance pair_laws.

Definition by_value (a b : LinkOrder) : Prop := a.(m_value) <= b.(m_value).

#[local] Instance by_value_dec : RelDecision by_value.
Proof. unfold by_value. intros a b. apply _. Defined.

#[local] Instance by_value_total : Total by_value.
Proof. intros a b. unfold by_value. lia. Qed.

#[local] Instance by_value_trans : Transitive by_value.
Proof. intros a b d. unfold by_value. lia. Qed.

#[local] Instance link_sort : LinkSort := {|
  sort := merge_sort by_value;
  sort_permutes := merge_sort_Permutation by_value;
  sort_sorted := Sorted_merge_sort by_value
|}.

Definition m0 : MachineID := mkMachine 0 0.
Definition m1 : MachineID := mkMachine 1 0.

Definition star_topology : Topology.Params :=
  Topology.mkParams 1
    [Topology.mkExt (Topology.mkLink 0 1 1 1) 0 0; Topology.mkExt (Topology.mkLink 1 1 1 1) 1 0] [].

(** A controller takes its queue from the network. *)
Definition attach (node c : Z) : SimpleNetwork.N unit :=
  to ← SimpleNetwork.getToNetQueue node true 0;
  from ← SimpleNetwork.getFromNetQueue node true 0;
  SimpleNetwork.in_world (on_buffer to (MessageBuffer.setOrdering true));;
  SimpleNetwork.in_world (on_buffer from (MessageBuffer.setOrdering true));;
  SimpleNetwork.in_world (PerfectSwitch.setConsumer from c).

Definition build : result World :=
  topo ← Topology.make star_topology;
  s ← SimpleNetwork.make 0 (SimpleNetwork.mkParams 1 8 0 1000 false) 2 0 false false;
  r ← (SimpleNetwork.init 1 0 64 topo;; attach 0 100;; attach 1 101) s;
  Ok r.2.(SimpleNetwork.world).

Definition star : World := Eval vm_compute in
  match build with Ok w => w | Err _ => SimpleNetwork.empty_world (SimpleNetwork.mkParams 1 8 0 1000 false) 0 false false end.

Example star_built : build = Ok star.
Proof. vm_compute. reflexivity. Qed.

Definition star_switch : PerfectSwitch := Eval vm_compute in
  match star.(switches) !! 4 with Some sw => sw | None => PerfectSwitch.newPerfectSwitch star.(network) end.

Definition reach (id : Z) : gset MachineID :=
  if decide (id = 0 \/ id = 2) then {[m0; m1]}
  else if decide (id = 1 \/ id = 6) then {[m0]}
  else if decide (id = 3 \/ id = 8) then {[m1]}
  else ∅.

Definition delay (id : Z) : Z := 1.

(** The entries of the table are those of the two machines. *)
Lemma entry_ok e nd : (nd0 ← NetDest.make; NetDest.add nd0 e) = Ok nd -> NetDestSpec.machine e ->
  NetDestSpec.ok nd /\ NetDestSpec.bits nd = {[e]}.
Proof.
  intros Hr He. destruct NetDestOps.make_ok as (nd0 & Hm & Hok & Hb). rewrite Hm, bind_Ok_run in Hr.
  destruct (NetDestOps.add_ok nd0 e Hok He) as (nd' & Ha & Hok' & Hb'). rewrite Hr in Ha.
  injection Ha as <-. split; [done|]. rewrite Hb', Hb. set_solver.
Qed.

Lemma machines_ok : NetDestSpec.machine m0 /\ NetDestSpec.machine m1.
Proof. repeat split; vm_compute; (discriminate || reflexivity). Qed.

(** The cases of the wiring. *)
Lemma star_buffers id b : star.(buffers) !! id = Some b ->
  b.(m_prio_heap) = [] /\ buffer_ok 1 reach delay star id b /\ b.(m_vnet_id) = 0.
Proof.
  intros H. apply elem_of_map_to_list in H. vm_compute in H. elems H.
  all: split; [reflexivity|]; split; [|reflexivity].
  all: eapply fresh_buffer; [vm_compute; reflexivity..|split; reflexivity|vm_compute; discriminate].
Qed.

Lemma star_switches c sw : star.(switches) !! c = Some sw -> c = 4 /\ sw = star_switch.
Proof. intros H. apply elem_of_map_to_list in H. vm_compute in H. elems H. done. Qed.

Definition star_throttle (i o : Z) : Throttle :=
  mkThrottle [i] [o] (replicate 18 [0]) 1 [0] 1 1 0 1000 0 [].

Lemma star_throttles c t : star.(throttles) !! c = Some t ->
  (c = 5 /\ t = star_throttle 6 1) \/ (c = 7 /\ t = star_throttle 8 3).
Proof. intros H. apply elem_of_map_to_list in H. vm_compute in H. elems H; auto. Qed.

Definition entry0 : NetDest.t := Eval vm_compute in
  match vget star_switch.(m_routing_table) 0 with Ok e => e | Err _ => [] end.
Definition entry1 : NetDest.t := Eval vm_compute in
  match vget star_switch.(m_routing_table) 1 with Ok e => e | Err _ => [] end.

Lemma entry0_ok : NetDestSpec.ok entry0 /\ NetDestSpec.bits entry0 = {[m0]}.
Proof. apply entry_ok; [vm_compute; reflexivity|apply machines_ok]. Qed.

Lemma entry1_ok : NetDestSpec.ok entry1 /\ NetDestSpec.bits entry1 = {[m1]}.
Proof. apply entry_ok; [vm_compute; reflexivity|apply machines_ok]. Qed.

Lemma star_table : star_switch.(m_routing_table) = [entry0; entry1].
Proof. reflexivity. Qed.

Lemma star_in port v id : PerfectSwitch.in_buffer star_switch port v = Ok id ->
  v = 0 /\ (id = 0 \/ id = 2).
Proof. intros H%elem_ports. vm_compute in H. elems H; auto. Qed.

Lemma star_out link v id : PerfectSwitch.out_buffer star_switch link v = Ok id ->
  (link = 0 /\ v = 0 /\ id = 6) \/ (link = 1 /\ v = 0 /\ id = 8).
Proof. intros H%elem_ports. vm_compute in H. elems H; auto. Qed.

Lemma star_wired : wired reach delay star 4 star_switch.
Proof.
  destruct entry0_ok as [H0 B0], entry1_ok as [H1 B1]. split; rewrite ?star_table.
  - reflexivity.
  - vm_compute. discriminate.
  - repeat constructor.
  - intros port v id Hid. apply star_in in Hid as [-> [->| ->]].
    all: split; [vm_compute; reflexivity|]; split; [eexists; split; vm_compute; reflexivity|].
    all: intros e He; change (e ∈ ({[m0; m1]} : gset MachineID)) in He.
    all: apply elem_of_union in He as [->%elem_of_singleton| ->%elem_of_singleton];
      [exists entry0; rewrite B0|exists entry1; rewrite B1]; set_solver.
  - repeat constructor.
  - intros link v id Hid. apply star_out in Hid as [(-> & -> & ->)|(-> & -> & ->)].
    all: split; [vm_compute; eauto|]; split; [reflexivity|]; split.
    all: try (intros c' Hc'; vm_compute in Hc'; injection Hc' as <-; vm_compute; reflexivity).
    all: intros e He; vm_compute in He; injection He as <-.
    + change (NetDestSpec.bits entry0 ⊆ reach 6). rewrite B0. done.
    + change (NetDestSpec.bits entry1 ⊆ reach 8). rewrite B1. done.
  - intros l l' v id Hl%star_out Hl'%star_out. lia.
  - by repeat (apply Forall_cons; split).
  - reflexivity.
  - reflexivity.
  - vm_compute. split; [discriminate|reflexivity].
Qed.

Lemma star_linked i o c : (c = 5 /\ i = 6 /\ o = 1) \/ (c = 7 /\ i = 8 /\ o = 3) ->
  linked reach delay star c (star_throttle i o).
Proof.
  intros Hc.
  assert (forall (x y v : Z), vget [x] v = Ok y -> v = 0 /\ y = x) as Hv
    by (intros x y v H%elem_numbered; vm_compute in H; elems H; auto).
  split.
  - destruct Hc as [(-> & -> & ->)|(-> & -> & ->)]; vm_compute; reflexivity.
  - reflexivity.
  - reflexivity.
  - reflexivity.
  - reflexivity.
  - intros v x [-> ->]%Hv. destruct Hc as [(-> & -> & ->)|(-> & -> & ->)]; split; vm_compute; eauto.
  - intros v x [-> ->]%Hv. destruct Hc as [(-> & -> & ->)|(-> & -> & ->)];
      (split; [vm_compute; discriminate|split; [vm_compute; eauto|reflexivity]]).
  - intros v x y [-> ->]%Hv [_ ->]%Hv. destruct Hc as [(-> & -> & ->)|(-> & -> & ->)]; done.
  - apply NoDup_singleton.
  - done.
  - reflexivity.
  - split; vm_compute; split; discriminate || reflexivity.
Qed.

Lemma star_plumbed : plumbed reach delay star.
Proof.
  split.
  - intros c sw [-> ->]%star_switches. apply star_wired.
  - intros c t Ht. apply star_throttles in Ht as [[-> ->]|[-> ->]]; apply star_linked; auto.
  - intros id c sw Hid [-> ->]%star_switches. entries Hid;
      [by exists 1, 0|by exists 0, 0].
  - intros id c t Hid Ht. exists 0. apply star_throttles in Ht as [[-> ->]|[-> ->]]; by entries Hid.
Qed.

Lemma star_installed : installed 1 reach delay star.
Proof.
  split.
  - split.
    + intros id b Hb. apply (star_buffers id b Hb).
    + intros q. rewrite (proj2 (sum_over_0 _ _)); [lia|]. intros id b Hb. unfold occurs.
      by rewrite (proj1 (star_buffers id b Hb)).
    + intros id b c sw Hb _ [-> ->]%star_switches. rewrite (proj2 (proj2 (star_buffers id b Hb))).
      vm_compute. split; [discriminate|reflexivity].
  - apply star_plumbed.
  - intros id b Hb. apply (star_buffers id b Hb).
  - reflexivity.
  - reflexivity.
  - intros c sw [-> ->]%star_switches. repeat constructor.
  - intros c t Ht. apply star_throttles in Ht as [[-> ->]|[-> ->]]; repeat constructor.
Qed.

(** ** A run *)

(** A message for both controllers. *)
Definition both : NetDest.t := Eval vm_compute in
  match (nd0 ← NetDest.make; nd1 ← NetDest.add nd0 m0; NetDest.add nd1 m1) with
  | Ok nd => nd | Err _ => [] end.

Definition hello : NetworkMessage := mkNetMsg both false both Request_Control 42.

Lemma hello_ok : msg_ok hello.
Proof.
  destruct machines_ok as [H0 H1], NetDestOps.make_ok as (nd0 & Hm & Hok & _).
  destruct (NetDestOps.add_ok nd0 m0 Hok H0) as (nd1 & Ha & Hok1 & _).
  destruct (NetDestOps.add_ok nd1 m1 Hok1 H1) as (nd2 & Ha2 & Hok2 & _).
  assert (nd2 = both) as ->; [|done].
  assert ((nd0 ← NetDest.make; nd1 ← NetDest.add nd0 m0; NetDest.add nd1 m1) = Ok nd2) as Hr
    by (by rewrite Hm, bind_Ok_run, Ha, bind_Ok_run, Ha2).
  vm_compute in Hr. by injection Hr as <-.
Qed.

Inductive action := Tick (T : Z) | Wake (c : Z) | Inject (id : Z) | Deliver (id : Z).

Definition rand (n : nat) : Z := 0.
Definition bound : Z := 1000.

#[local] Instance room_dec B w c : Decision (room B w c).
Proof.
  refine (cast_if (decide (map_Forall (fun _ b => b.(m_counter) + Z.of_nat (inflow w c) <= B) w.(buffers))));
    done.
Defined.

Definition perform (a : action) (s : net) : option net :=
  let w := s.(the) in
  match a with
  | Tick T =>
      if decide (w.(w_tick) <= T /\ Forall (fun e => T <= e.1) w.(events))
      then Some (mkNet (w <| w_tick := T |>) s.(injected) s.(delivered)) else None
  | Wake c =>
      if decide ((w.(w_tick), c) ∈ w.(events) /\ room bound w c) then
        let wakeup := match w.(switches) !! c, w.(throttles) !! c with
                      | Some _, _ => PerfectSwitch.wakeup 1 rand c
                      | None, Some _ => Throttle.wakeup 1 rand c
                      | None, None => mret tt
                      end in
        match fire 1 c wakeup w with
        | Ok (_, w') => Some (mkNet w' s.(injected) s.(delivered))
        | Err _ => None
        end
      else None
  | Inject id =>
      b ← w.(buffers) !! id;
      if decide (b.(m_counter) < bound /\ dests hello ⊆ reach id) then
        match on_buffer id (enqueue 1 rand (Some w.(next_message)) (delay id)) (new_message 1 hello w) with
        | Ok (_, w') => Some (mkNet w' (hello :: s.(injected)) s.(delivered))
        | Err _ => None
        end
      else None
  | Deliver id =>
      c ← w.(consumer_of) !! id;
      b ← w.(buffers) !! id;
      n ← arrived 1 w b;
      q ← m_msgptr n;
      nm ← w.(net_messages) !! q;
      if network_consumer w c then None
      else
        match on_buffer id (pop 1) w with
        | Ok (_, w') => Some (mkNet w' s.(injected) ((id, nm) :: s.(delivered)))
        | Err _ => None
        end
  end.

Lemma room_check w c : bool_decide (room bound w c) = true -> room bound w c.
Proof. apply bool_decide_eq_true. Qed.

Lemma perform_step a s s' : perform a s = Some s' -> step 1 rand reach delay bound s s'.
Proof.
  destruct s as [w inj del]. destruct a as [T|c|id|id]; cbn [perform the injected delivered].
  - case_decide as Hd; [|done]. intros [= <-]. destruct Hd as [HT Hf]. apply step_tick; [done|].
    by apply Forall_forall.
  - case_decide as Hd; [|done]. destruct Hd as [He Hr].
    destruct (w.(switches) !! c) as [sw|] eqn:Hsw.
    { destruct (fire _ _ _ _) as [[[] w']|] eqn:Hf; [|done]. intros [= <-].
      eapply step_switch; [by rewrite Hsw|done|done|done]. }
    destruct (w.(throttles) !! c) as [t|] eqn:Ht.
    { destruct (fire _ _ _ _) as [[[] w']|] eqn:Hf; [|done]. intros [= <-].
      eapply step_throttle; [by rewrite Ht|done|done|done]. }
    destruct (fire _ _ _ _) as [[[] w']|] eqn:Hf; [|done]. intros [= <-].
    eapply step_controller; [|done|done]. unfold network_consumer. by rewrite Hsw, Ht.
  - destruct (w.(buffers) !! id) as [b|] eqn:Hb; [|done]. cbn. case_decide as Hd; [|done].
    destruct Hd as [Hcnt Hr]. destruct (on_buffer _ _ _) as [[[] w']|] eqn:Hf; [|done]. intros [= <-].
    eapply step_inject; try done. apply hello_ok.
  - destruct (w.(consumer_of) !! id) as [c|] eqn:Hc; [|done]. cbn.
    destruct (w.(buffers) !! id) as [b|] eqn:Hb; [|done]. cbn.
    destruct (arrived 1 w b) as [n|] eqn:Ha; [|done]. cbn.
    destruct (m_msgptr n) as [q|] eqn:Hq; [|done]. cbn.
    destruct (w.(net_messages) !! q) as [nm|] eqn:Hnm; [|done]. cbn.
    destruct (network_consumer w c) eqn:Hn; [done|].
    destruct (on_buffer _ _ _) as [[[] w']|] eqn:Hf; [|done]. intros [= <-].
    by eapply step_deliver.
Qed.

Fixpoint performs (l : list action) (s : net) : option net :=
  match l with [] => Some s | a :: l' => s' ← perform a s; performs l' s' end.

Lemma performs_steps l : forall s s', performs l s = Some s' -> rtc (step 1 rand reach delay bound) s s'.
Proof.
  induction l as [|a l IH]; intros s s'; cbn; [intros [= <-]; apply rtc_refl|].
  destruct (perform a s) as [s1|] eqn:Ha; [|done]. cbn. intros Hl.
  eapply rtc_l; [by apply perform_step with a|]. by apply IH.
Qed.

Definition start : net := mkNet star [] [].

Definition after (l : list action) : net := default start (performs l start).

Lemma after_run l : bool_decide (is_Some (performs l start)) = true ->
  rtc (step 1 rand reach delay bound) start (after l).
Proof.
  intros [s Hs]%bool_decide_eq_true. unfold after. rewrite Hs. by apply (performs_steps l).
Qed.

Lemma after_sound l : bool_decide (is_Some (performs l start)) = true ->
  sound 1 reach delay (after l).
Proof.
  intros Hl. apply (steps_sound 1 rand reach delay bound) with start; [lia|done|by apply after_run|].
  apply (installed_sound 1 rand reach delay bound); [lia|done|apply star_installed].
Qed.

(** The message is in the network; it is at the switch; it is on the links. *)
Definition sent_it : list action := [Inject 0].
Definition at_switch : list action := sent_it ++ [Tick 1].
Definition at_links : list action := at_switch ++ [Wake 4; Tick 2].

(** The first controller has taken its copy. *)
Definition half : list action :=
  at_links ++ [Wake 5; Wake 7; Tick 3; Wake 5; Wake 7; Wake 100; Wake 101; Deliver 1].

(** The links have spent the units of the message. *)
Definition all_done : list action :=
  half ++ concat ((fun t => [Tick t; Wake 5; Wake 7]) <$> [4; 5; 6; 7; 8; 9; 10]).

Lemma network_exactly_once_witness :
  tally (after half).(injected) 42 m0 = 1%nat /\
  tally (after half).(injected) 42 m0 =
    (carried (after half).(the) 42 m0 + tally (after half).(delivered).*2 42 m0)%nat.
Proof.
  split; [vm_compute; reflexivity|].
  apply (proj1 (network_exactly_once 1 rand reach delay bound star (after half) ltac:(lia) ltac:(done)
    star_installed (after_run half ltac:(vm_compute; reflexivity)))).
Defined.

Lemma quiet_network_delivered_witness :
  quiet (after all_done).(the) /\ tally (after all_done).(injected) 42 m1 = 1%nat /\
  tally (after all_done).(injected) 42 m1 =
    (tally (after all_done).(delivered).*2 42 m1 + at_controllers reach (after all_done).(the) 42 m1)%nat.
Proof.
  assert (quiet (after all_done).(the)) as Hq.
  { intros T c Hin. vm_compute in Hin. by apply elem_of_nil in Hin. }
  split; [exact Hq|]. split; [vm_compute; reflexivity|].
  apply (quiet_network_delivered 1 rand reach delay bound star (after all_done) ltac:(lia) ltac:(done)
    star_installed (after_run all_done ltac:(vm_compute; reflexivity)) Hq).
Defined.

Lemma network_never_stuck_witness :
  exists s1 s2, step 1 rand reach delay bound (after sent_it) s1 /\ s1.(the).(w_tick) = 1 /\
    step 1 rand reach delay bound s1 s2 /\ ~ (1, 4) ∈ s2.(the).(events).
Proof.
  apply (network_never_stuck 1 rand reach delay bound star (after sent_it) 1 4 ltac:(lia) ltac:(done)
    star_installed (after_run sent_it ltac:(vm_compute; reflexivity))).
  - vm_compute. left.
  - intros e He. vm_compute in He. elems He. done.
  - apply room_check. vm_compute. reflexivity.
Defined.

Lemma switch_forwards_witness :
  let w := (after at_switch).(the) in
  exists w', PerfectSwitch.wakeup 1 rand 4 w = Ok (tt, w') /\
    world_ok 1 reach delay w' /\ pending_ok w' /\ shape w w' /\
    (forall k e, carried w' k e = carried w k e) /\
    forall sw port v id b, w.(switches) !! 4 = Some sw ->
      PerfectSwitch.in_buffer sw port v = Ok id -> w'.(buffers) !! id = Some b ->
      arrived 1 w' b = None \/ now 1 w' + 1 ∈ scheduled w' 4.
Proof.
  pose proof (after_sound at_switch ltac:(vm_compute; reflexivity)) as Hs.
  set (w := (after at_switch).(the)) in *. cbv zeta.
  assert (is_Some (w.(switches) !! 4)) as [sw Hsw] by (vm_compute; eauto).
  destruct (SwitchWakeup.switch_forwards 1 rand reach delay w 4 sw bound (n_ok _ _ _ _ Hs)
    (n_pending _ _ _ _ Hs) Hsw (q_wired _ _ _ (n_plumbed _ _ _ _ Hs) 4 sw Hsw)
    ltac:(apply room_check; vm_compute; reflexivity) ltac:(done))
    as (w' & Hr & OK & P & Sh & Hc & Hin).
  exists w'. refine (conj Hr (conj OK (conj P (conj Sh (conj Hc _))))).
  intros sw' port v id b Hsw'. rewrite Hsw in Hsw'. injection Hsw' as <-. apply Hin.
Defined.

Lemma throttle_transfers_witness :
  let w := (after at_links).(the) in
  exists w' left, Throttle.wakeup 1 rand 5 w = Ok (tt, w') /\
    (forall k e, carried w' k e = carried w k e) /\ 0 <= left <= 1000 /\
    forall t, w.(throttles) !! 5 = Some t ->
      ThrottleWakeup.backlog 5 t w' [0] + (1000 - left) = ThrottleWakeup.backlog 5 t w [0].
Proof.
  pose proof (after_sound at_links ltac:(vm_compute; reflexivity)) as Hs.
  set (w := (after at_links).(the)) in *. cbv zeta.
  assert (w.(throttles) !! 5 = Some (star_throttle 6 1)) as Ht by (vm_compute; reflexivity).
  destruct (ThrottleWakeup.throttle_transfers 1 rand reach delay w 5 (star_throttle 6 1) bound
    (n_ok _ _ _ _ Hs) (n_pending _ _ _ _ Hs) Ht (q_linked _ _ _ (n_plumbed _ _ _ _ Hs) 5 _ Ht)
    (n_units _ _ _ _ Hs 5 _ Ht) ltac:(apply room_check; vm_compute; reflexivity) ltac:(done))
    as (w' & left & t' & Hr & _ & _ & _ & Hc & _ & _ & _ & Hl & Hb & _).
  exists w', left. refine (conj Hr (conj Hc (conj Hl _))).
  intros t Ht'. rewrite Ht in Ht'. injection Ht' as <-. exact Hb.
Defined.

(** Both controllers have their copy, and nothing is left to do. *)
Example hello_arrives :
  (at_controllers reach (after all_done).(the) 42 m1, (after all_done).(delivered).*1,
   (after all_done).(the).(events)) = (1%nat, [1], []).
Proof. vm_compute. reflexivity. Qed.

(** ** Two corners *)

(** [clearBuffers] empties the buffers of a switch but not its count of the
    messages on their way: after a reset it waits for messages that are gone. *)
Example cleared_switch_waits :
  match PerfectSwitch.clearBuffers 4 (after at_switch).(the) with
  | Ok (_, w) => (PerfectSwitch.messages_in w 0, m_pending_message_count <$> w.(switches) !! 4)
  | Err _ => (1%nat, None)
  end = (0%nat, Some [1]).
Proof. vm_compute. reflexivity. Qed.

(** A reconfiguration appends to the routing tables, which nobody clears: the
    next message fails an assertion of the switch. *)
Example reconfigured_switch_asserts :
  (r ← PerfectSwitch.reconfigureOutPort 4 entry0 (after at_switch).(the);
   PerfectSwitch.wakeup 1 rand 4 r.2) = Err (AssertFail "m_link_order.size() == m_routing_table.size()").
Proof. vm_compute. reflexivity. Qed.

End NetworkExamples.
