(* ===== verification/Packet.v ===== *)
(** * Packets
    (classes [MemCmd] and [Packet], src/src/mem/packet.hh and packet.cc; the
    parts of class [Request], src/src/mem/request.hh, that they use).

    A packet carries a command, an address, a size and, when it has one, a
    buffer of bytes.  The attributes of the commands are a table of bit sets;
    the member functions that fail an assertion return an error.  A buffer
    belongs to one packet here; a packet's request is part of it. *)

From S2P Require Import Prelude.

Module Packet.

(** ** Commands *)
Inductive Command :=
| InvalidCmd | ReadReq | ReadResp | ReadRespWithInvalidate | WriteReq | WriteResp
| Writeback | SoftPFReq | HardPFReq | SoftPFResp | HardPFResp
| WriteInvalidateReq | WriteInvalidateResp | UpgradeReq | SCUpgradeReq
| UpgradeResp | SCUpgradeFailReq | UpgradeFailResp | ReadExReq | ReadExResp
| LoadLockedReq | StoreCondReq | StoreCondFailReq | StoreCondResp
| SwapReq | SwapResp | MessageReq | MessageResp
| NetworkNackError | InvalidDestError | BadAddressError
| FunctionalReadError | FunctionalWriteError
| PrintReq | FlushReq | InvalidationReq.

#[export] Instance Command_eq_dec : EqDecision Command.
Proof. solve_decision. Defined.

Inductive Attribute :=
| IsRead | IsWrite | IsUpgrade | IsInvalidate | NeedsExclusive | IsRequest
| IsResponse | NeedsResponse | IsSWPrefetch | IsHWPrefetch | IsLlsc | HasData
| IsError | IsPrint | IsFlush.

#[export] Instance Attribute_eq_dec : EqDecision Attribute.
Proof. solve_decision. Defined.

Definition attribute_bit (a : Attribute) : Z :=
  match a with
  | IsRead => 0 | IsWrite => 1 | IsUpgrade => 2 | IsInvalidate => 3
  | NeedsExclusive => 4 | IsRequest => 5 | IsResponse => 6 | NeedsResponse => 7
  | IsSWPrefetch => 8 | IsHWPrefetch => 9 | IsLlsc => 10 | HasData => 11
  | IsError => 12 | IsPrint => 13 | IsFlush => 14
  end.

(** SET1 ... SET6. *)
Fixpoint SET (l : list Attribute) : Z :=
  match l with
  | [] => 0
  | a :: l => Z.lor (Z.shiftl 1 (attribute_bit a)) (SET l)
  end.

Record CommandInfo := mkInfo { attributes : Z; response : Command }.

Definition commandInfo (c : Command) : CommandInfo :=
  match c with
  | InvalidCmd => mkInfo 0 InvalidCmd
  | ReadReq => mkInfo (SET [IsRead; IsRequest; NeedsResponse]) ReadResp
  | ReadResp => mkInfo (SET [IsRead; IsResponse; HasData]) InvalidCmd
  | ReadRespWithInvalidate =>
      mkInfo (SET [IsRead; IsResponse; HasData; IsInvalidate]) InvalidCmd
  | WriteReq =>
      mkInfo (SET [IsWrite; NeedsExclusive; IsRequest; NeedsResponse; HasData]) WriteResp
  | WriteResp => mkInfo (SET [IsWrite; NeedsExclusive; IsResponse]) InvalidCmd
  | Writeback => mkInfo (SET [IsWrite; NeedsExclusive; IsRequest; HasData]) InvalidCmd
  | SoftPFReq =>
      mkInfo (SET [IsRead; IsRequest; IsSWPrefetch; NeedsResponse]) SoftPFResp
  | HardPFReq =>
      mkInfo (SET [IsRead; IsRequest; IsHWPrefetch; NeedsResponse]) HardPFResp
  | SoftPFResp => mkInfo (SET [IsRead; IsResponse; IsSWPrefetch; HasData]) InvalidCmd
  | HardPFResp => mkInfo (SET [IsRead; IsResponse; IsHWPrefetch; HasData]) InvalidCmd
  | WriteInvalidateReq =>
      mkInfo (SET [IsWrite; NeedsExclusive; IsInvalidate; IsRequest; HasData; NeedsResponse])
        WriteInvalidateResp
  | WriteInvalidateResp => mkInfo (SET [IsWrite; NeedsExclusive; IsResponse]) InvalidCmd
  | UpgradeReq =>
      mkInfo (SET [IsInvalidate; NeedsExclusive; IsUpgrade; IsRequest; NeedsResponse])
        UpgradeResp
  | SCUpgradeReq =>
      mkInfo (SET [IsInvalidate; NeedsExclusive; IsUpgrade; IsLlsc; IsRequest; NeedsResponse])
        UpgradeResp
  | UpgradeResp => mkInfo (SET [NeedsExclusive; IsUpgrade; IsResponse]) InvalidCmd
  | SCUpgradeFailReq =>
      mkInfo (SET [IsInvalidate; NeedsExclusive; IsLlsc; IsRequest; NeedsResponse])
        UpgradeFailResp
  | UpgradeFailResp => mkInfo (SET [NeedsExclusive; IsResponse]) InvalidCmd
  | ReadExReq =>
      mkInfo (SET [IsRead; NeedsExclusive; IsInvalidate; IsRequest; NeedsResponse])
        ReadExResp
  | ReadExResp => mkInfo (SET [IsRead; NeedsExclusive; IsResponse; HasData]) InvalidCmd
  | LoadLockedReq => mkInfo (SET [IsRead; IsLlsc; IsRequest; NeedsResponse]) ReadResp
  | StoreCondReq =>
      mkInfo (SET [IsWrite; NeedsExclusive; IsLlsc; IsRequest; NeedsResponse; HasData])
        StoreCondResp
  | StoreCondFailReq =>
      mkInfo (SET [IsWrite; NeedsExclusive; IsLlsc; IsRequest; NeedsResponse; HasData])
        StoreCondResp
  | StoreCondResp => mkInfo (SET [IsWrite; NeedsExclusive; IsLlsc; IsResponse]) InvalidCmd
  | SwapReq =>
      mkInfo (SET [IsRead; IsWrite; NeedsExclusive; IsRequest; HasData; NeedsResponse])
        SwapResp
  | SwapResp =>
      mkInfo (SET [IsRead; IsWrite; NeedsExclusive; IsResponse; HasData]) InvalidCmd
  | MessageReq => mkInfo (SET [IsWrite; IsRequest; NeedsResponse; HasData]) MessageResp
  | MessageResp => mkInfo (SET [IsWrite; IsResponse]) InvalidCmd
  | NetworkNackError => mkInfo (SET [IsResponse; IsError]) InvalidCmd
  | InvalidDestError => mkInfo (SET [IsResponse; IsError]) InvalidCmd
  | BadAddressError => mkInfo (SET [IsResponse; IsError]) InvalidCmd
  | FunctionalReadError => mkInfo (SET [IsRead; IsResponse; IsError]) InvalidCmd
  | FunctionalWriteError => mkInfo (SET [IsWrite; IsResponse; IsError]) InvalidCmd
  | PrintReq => mkInfo (SET [IsRequest; IsPrint]) InvalidCmd
  | FlushReq => mkInfo (SET [IsRequest; IsFlush; NeedsExclusive]) InvalidCmd
  | InvalidationReq => mkInfo (SET [NeedsExclusive; IsInvalidate; IsRequest]) InvalidCmd
  end.

Definition testCmdAttrib (c : Command) (a : Attribute) : bool :=
  Z.testbit (commandInfo c).(attributes) (attribute_bit a).

Definition responseCommand (c : Command) : Command := (commandInfo c).(response).

(** ** Requests

    A field with a validity bit is an option. *)
Record Request := mkReq {
  paddr : option Z;
  req_size : option Z;               (* int *)
  masterId : Z;
  req_flags : Z;
  extraData : option Z;              (* uint64_t *)
  contextId : option Z
}.
#[global] Instance Request_eta : Settable Request := fun r =>
  mkReq r.(paddr) r.(req_size) r.(masterId) r.(req_flags) r.(extraData) r.(contextId).

Definition INST_FETCH : Z := 0x100.
Definition LOCKED : Z := 0x100000.
Definition MEM_SWAP_COND : Z := 0x800000.

Definition isSet (flags bits : Z) : bool := negb (Z.land flags bits =? 0).
Definition noneSet (flags bits : Z) : bool := Z.land flags bits =? 0.

Definition isInstFetch (r : Request) : bool := isSet r.(req_flags) INST_FETCH.
Definition isLocked (r : Request) : bool := isSet r.(req_flags) LOCKED.
Definition isCondSwap (r : Request) : bool := isSet r.(req_flags) MEM_SWAP_COND.

(** The accessors that assert the validity bit. *)
Definition valid {A} (o : option A) (site : string) : result A :=
  match o with Some a => Ok a | None => Err (AssertFail site) end.

Definition getPaddr (r : Request) : result Z := valid r.(paddr) "VALID_PADDR".
Definition getExtraData (r : Request) : result Z := valid r.(extraData) "VALID_EXTRA_DATA".
Definition getContextId (r : Request) : result Z := valid r.(contextId) "VALID_CONTEXT_ID".
Definition hasContextId (r : Request) : bool := bool_decide (is_Some r.(contextId)).
Definition setExtraData (r : Request) (v : Z) : Request := r <| extraData := Some v |>.

(** ** Packets *)

(** What a sender has attached: nothing, the state of a print request, the
    state of some other sender, or the record a Ruby port pushes
    ([RubyPort::SenderState]) with the port and what was there before. *)
Inductive SenderState :=
| NoState
| PrintReqState
| OtherState (n : Z)
| RubySenderState (port : Z) (saved : SenderState).

#[export] Instance SenderState_eq_dec : EqDecision SenderState.
Proof. solve_decision. Defined.

Record Packet := mkPacket {
  flags : Z;                         (* uint32_t *)
  cmd : Command;
  req : Request;
  data : option (list Z);            (* [None] is a null pointer *)
  addr : Z;                          (* read only when VALID_ADDR is set *)
  size : Z;                          (* unsigned, read only when VALID_SIZE is set *)
  src : Z;
  dest : Z;
  origCmd : Command;
  bytesValidStart : Z;               (* uint16_t *)
  bytesValidEnd : Z;
  time : Z;
  senderState : SenderState
}.
#[global] Instance Packet_eta : Settable Packet := fun p =>
  mkPacket p.(flags) p.(cmd) p.(req) p.(data) p.(addr) p.(size) p.(src) p.(dest) p.(origCmd)
    p.(bytesValidStart) p.(bytesValidEnd) p.(time) p.(senderState).

Definition EXPRESS_SNOOP : Z := 0x2.
Definition MEM_INHIBIT : Z := 0x8.
Definition VALID_ADDR : Z := 0x100.
Definition VALID_SIZE : Z := 0x200.
Definition STATIC_DATA : Z := 0x1000.
Definition DYNAMIC_DATA : Z := 0x2000.
Definition ARRAY_DATA : Z := 0x4000.
Definition SUPPRESS_FUNC_ERROR : Z := 0x8000.
Definition COPY_FLAGS : Z := 0xF.
Definition InvalidPortID : Z := -1.

Definition set_flags (f bits : Z) : Z := Z.lor f bits.
Definition clear_flags (f bits : Z) : Z := Z.ldiff f bits.

Definition isRead (p : Packet) : bool := testCmdAttrib p.(cmd) IsRead.
Definition isWrite (p : Packet) : bool := testCmdAttrib p.(cmd) IsWrite.
Definition isRequest (p : Packet) : bool := testCmdAttrib p.(cmd) IsRequest.
Definition isResponse (p : Packet) : bool := testCmdAttrib p.(cmd) IsResponse.
Definition needsResponse (p : Packet) : bool := testCmdAttrib p.(cmd) NeedsResponse.
Definition isInvalidate (p : Packet) : bool := testCmdAttrib p.(cmd) IsInvalidate.
Definition hasData (p : Packet) : bool := testCmdAttrib p.(cmd) HasData.
Definition isLLSC (p : Packet) : bool := testCmdAttrib p.(cmd) IsLlsc.
Definition isError (p : Packet) : bool := testCmdAttrib p.(cmd) IsError.
Definition isPrint (p : Packet) : bool := testCmdAttrib p.(cmd) IsPrint.
Definition isFlush (p : Packet) : bool := testCmdAttrib p.(cmd) IsFlush.
Definition memInhibitAsserted (p : Packet) : bool := isSet p.(flags) MEM_INHIBIT.
Definition suppressFuncError (p : Packet) : bool := isSet p.(flags) SUPPRESS_FUNC_ERROR.

Definition check (b : bool) (site : string) : result unit :=
  if b then Ok tt else Err (AssertFail site).

Definition getAddr (p : Packet) : result Z :=
  _ ← check (isSet p.(flags) VALID_ADDR) "VALID_ADDR"; Ok p.(addr).
Definition getSize (p : Packet) : result Z :=
  _ ← check (isSet p.(flags) VALID_SIZE) "VALID_SIZE"; Ok p.(size).

(** [getPtr]: the buffer, or a null pointer. *)
Definition getPtr (p : Packet) (null_ok : bool) : result (option (list Z)) :=
  _ ← check (null_ok || isSet p.(flags) (Z.lor STATIC_DATA DYNAMIC_DATA)) "getPtr";
  Ok p.(data).

(** The constructors. *)
Definition newPacket (r : Request) (c : Command) (curTick : Z) : Packet :=
  let f1 := match r.(paddr) with Some _ => set_flags 0 VALID_ADDR | None => 0 end in
  let f2 := match r.(req_size) with Some _ => set_flags f1 VALID_SIZE | None => f1 end in
  mkPacket f2 c r None (default 0 r.(paddr)) (u32 (default 0 r.(req_size)))
    InvalidPortID InvalidPortID InvalidCmd 0 0 curTick NoState.

Definition newBlockPacket (r : Request) (c : Command) (blkSize curTick : Z) : Packet :=
  let f1 := match r.(paddr) with Some _ => set_flags 0 VALID_ADDR | None => 0 end in
  mkPacket (set_flags f1 VALID_SIZE) c r None
    (default 0 ((fun a => Z.ldiff a (blkSize - 1)) <$> r.(paddr))) (u32 blkSize)
    InvalidPortID InvalidPortID InvalidCmd 0 0 curTick NoState.

Definition copyPacket (p : Packet) (clearFlags : bool) (curTick : Z) : Packet :=
  let f1 := if clearFlags then 0 else set_flags 0 (Z.land p.(flags) COPY_FLAGS) in
  let f2 := set_flags f1 (Z.land p.(flags) (Z.lor VALID_ADDR VALID_SIZE)) in
  let f3 := set_flags f2 (Z.land p.(flags) STATIC_DATA) in
  mkPacket f3 p.(cmd) p.(req) (if isSet p.(flags) STATIC_DATA then p.(data) else None)
    p.(addr) p.(size) p.(src) p.(dest) InvalidCmd p.(bytesValidStart) p.(bytesValidEnd)
    curTick p.(senderState).

Definition convertScToWrite (p : Packet) : result Packet :=
  _ ← check (isLLSC p) "isLLSC()";
  _ ← check (isWrite p) "isWrite()";
  Ok (p <| cmd := WriteReq |>).

Definition convertLlToRead (p : Packet) : result Packet :=
  _ ← check (isLLSC p) "isLLSC()";
  _ ← check (isRead p) "isRead()";
  Ok (p <| cmd := ReadReq |>).

Definition makeResponse (p : Packet) : result Packet :=
  _ ← check (needsResponse p) "needsResponse()";
  _ ← check (isRequest p) "isRequest()";
  Ok (p <| origCmd := p.(cmd) |> <| cmd := responseCommand p.(cmd) |>
        <| flags ::= (fun f => clear_flags f EXPRESS_SNOOP) |>
        <| dest := p.(src) |> <| src := InvalidPortID |>).

Definition setNacked (p : Packet) : result Packet :=
  _ ← check (isResponse p) "isResponse()";
  Ok (p <| cmd := NetworkNackError |>).

Definition setBadAddress (p : Packet) : result Packet :=
  _ ← check (isResponse p) "isResponse()";
  Ok (p <| cmd := BadAddressError |>).

Definition wasNacked (p : Packet) : bool := bool_decide (p.(cmd) = NetworkNackError).

Definition copyError (p pkt : Packet) : result Packet :=
  _ ← check (isError pkt) "pkt->isError()";
  Ok (p <| cmd := pkt.(cmd) |>).

Definition reinitNacked (p : Packet) : result Packet :=
  _ ← check (wasNacked p) "wasNacked()";
  let p := p <| cmd := p.(origCmd) |> in
  _ ← check (needsResponse p) "needsResponse()";
  Ok (p <| dest := InvalidPortID |>).

Definition setFunctionalResponseStatus (p : Packet) (success : bool) : Packet :=
  if success then p
  else if isWrite p then p <| cmd := FunctionalWriteError |>
  else p <| cmd := FunctionalReadError |>.

Definition setSize (p : Packet) (n : Z) : result Packet :=
  _ ← check (negb (isSet p.(flags) VALID_SIZE)) "!flags.isSet(VALID_SIZE)";
  Ok (p <| size := n |> <| flags ::= (fun f => set_flags f VALID_SIZE) |>).

Definition ANY_DATA : Z := Z.lor (Z.lor STATIC_DATA DYNAMIC_DATA) ARRAY_DATA.

Definition dataStatic (p : Packet) (b : list Z) : result Packet :=
  _ ← check (noneSet p.(flags) ANY_DATA) "noneSet(DATA)";
  Ok (p <| data := Some b |> <| flags ::= (fun f => set_flags f STATIC_DATA) |>).

Definition dataDynamicArray (p : Packet) (b : list Z) : result Packet :=
  _ ← check (noneSet p.(flags) ANY_DATA) "noneSet(DATA)";
  Ok (p <| data := Some b |>
        <| flags ::= (fun f => set_flags f (Z.lor DYNAMIC_DATA ARRAY_DATA)) |>).

Definition dataDynamic (p : Packet) (b : list Z) : result Packet :=
  _ ← check (noneSet p.(flags) ANY_DATA) "noneSet(DATA)";
  Ok (p <| data := Some b |> <| flags ::= (fun f => set_flags f DYNAMIC_DATA) |>).

Definition deleteData (p : Packet) : Packet :=
  p <| flags ::= (fun f => clear_flags f ANY_DATA) |> <| data := None |>.

(** [allocate]; the contents of the new buffer are arbitrary ([fresh]). *)
Definition allocate (p : Packet) (fresh : Z -> list Z) : result Packet :=
  match p.(data) with
  | Some _ =>
      _ ← check (isSet p.(flags) (Z.lor STATIC_DATA DYNAMIC_DATA)) "allocate: isSet(DATA)"; Ok p
  | None =>
      _ ← check (noneSet p.(flags) (Z.lor STATIC_DATA DYNAMIC_DATA)) "allocate: noneSet(DATA)";
      n ← getSize p;
      Ok (p <| flags ::= (fun f => set_flags f (Z.lor DYNAMIC_DATA ARRAY_DATA)) |>
            <| data := Some (fresh n) |>)
  end.

(** [reinitFromRequest]; [time] asserts what [hasPaddr] has checked. *)
Definition reinitFromRequest (p : Packet) (req_time : Z) : result Packet :=
  a ← getPaddr p.(req);
  n ← valid p.(req).(req_size) "VALID_SIZE";
  Ok (deleteData (p <| addr := a |> <| size := u32 n |> <| time := req_time |>
                    <| flags := set_flags 0 (Z.lor VALID_ADDR VALID_SIZE) |>)).

(** ** Copying bytes

    [memcpy] of [n] bytes from offset [so] of one buffer to offset [d0] of
    another; outside the buffers it is undefined. *)
Definition in_buffer (buf : list Z) (off n : Z) : bool :=
  (0 <=? off) && (0 <=? n) && (off + n <=? Z.of_nat (length buf)).

Definition slice (buf : list Z) (off n : Z) : list Z :=
  take (Z.to_nat n) (drop (Z.to_nat off) buf).

Definition splice (buf : list Z) (off : Z) (bytes : list Z) : list Z :=
  take (Z.to_nat off) buf ++ bytes ++ drop (Z.to_nat off + length bytes) buf.

Definition memcpy (dst : list Z) (d0 : Z) (source : list Z) (so n : Z) : result (list Z) :=
  if in_buffer source so n && in_buffer dst d0 n
  then Ok (splice dst d0 (slice source so n))
  else Err (UB "memcpy").

(** A dereferenced buffer pointer. *)
Definition deref (b : option (list Z)) : result (list Z) :=
  match b with Some l => Ok l | None => Err (UB "null data pointer") end.

Definition u16 (x : Z) : Z := x mod 2 ^ 16.

(** ** [checkFunctional]

    A functional request meets a value of [vsize] bytes at [vaddr]: a write
    updates the value's buffer, a read takes the value's bytes into the
    packet.  The result says whether the request is complete; packet and
    buffer may both have changed. *)

(** The offsets and the number of bytes of a partial overlap. *)
Definition overlap (func_start func_end val_start val_end vsize : Z)
  : result (Z * Z * Z) :=   (* val_offset, func_offset, overlap_size *)
  if (val_start <? func_start) && (val_end <=? func_end)
  then Ok (i32 (func_start - val_start), 0, i32 (val_end - func_start))
  else if (func_start <=? val_start) && (func_end <? val_end)
  then Ok (0, i32 (val_start - func_start), i32 (func_end - val_start))
  else if (func_start <=? val_start) && (val_end <=? func_end)
  then Ok (0, i32 (val_start - func_start), vsize)
  else Err (Panic "BUG: Missed a case for a partial functional request").

(** How much of the overlap is copied when some bytes have been found before;
    a first copy may happen at once.  The result has the packet with its new
    valid range, then val_offset, func_offset and overlap_size. *)
Definition merge_found (p : Packet) (vdata : list Z) (val_offset func_offset overlap_size : Z)
  : result (Packet * (Z * Z * Z)) :=
  if (p.(bytesValidStart) =? 0) && (p.(bytesValidEnd) =? 0)
  then Ok (p <| bytesValidStart := u16 func_offset |>
             <| bytesValidEnd := u16 (func_offset + overlap_size) |>,
           (val_offset, func_offset, overlap_size))
  else
    let a := func_offset - p.(bytesValidStart) in
    let b := (func_offset + overlap_size) - p.(bytesValidEnd) in
    let c := func_offset - p.(bytesValidEnd) in
    let d := (func_offset + overlap_size) - p.(bytesValidStart) in
    if (0 <=? a) && (b <=? 0) then Ok (p, (val_offset, func_offset, 0))
    else if (a <? 0) && (0 <=? d) && (b <=? 0)
    then Ok (p <| bytesValidStart := u16 func_offset |>,
             (val_offset, func_offset, p.(bytesValidStart) - func_offset))
    else if (0 <? b) && (c <=? 0) && (0 <=? a)
    then let n := (func_offset + overlap_size) - p.(bytesValidEnd) in
         Ok (p <| bytesValidEnd := u16 (p.(bytesValidEnd) + n) |>,
             (val_offset + (p.(bytesValidEnd) - func_offset), p.(bytesValidEnd), n))
    else if (a <? 0) && (0 <? b)
    then buf0 ← getPtr p false;
         buf ← deref buf0;
         buf' ← memcpy buf func_offset vdata val_offset (p.(bytesValidStart) - func_offset);
         let n := (func_offset + overlap_size) - p.(bytesValidEnd) in
         Ok (p <| data := Some buf' |> <| bytesValidStart := u16 func_offset |>
               <| bytesValidEnd := u16 (p.(bytesValidEnd) + n) |>,
             (val_offset + (p.(bytesValidEnd) - func_offset), p.(bytesValidEnd), n))
    else if ((0 <? c) && (0 <? b)) || ((a <? 0) && (d <? 0))
    then Err (Panic "BUG: Discontiguous bytes found for functional copying!")
    else Ok (p, (val_offset, func_offset, overlap_size)).

Definition functional_read (fresh : Z -> list Z) (p : Packet)
  (func_start func_end val_start val_end vsize : Z) (vdata : list Z) : result (bool * Packet) :=
  if (val_start <=? func_start) && (func_end <=? val_end)
  then
    p ← allocate p fresh;
    n ← getSize p;
    buf0 ← getPtr p false;
    buf ← deref buf0;
    buf' ← memcpy buf 0 vdata (i32 (func_start - val_start)) n;
    Ok (true, p <| data := Some buf' |>)
  else
    '(val_offset, func_offset, overlap_size) ← overlap func_start func_end val_start val_end vsize;
    '(p, (val_offset, func_offset, overlap_size)) ←
       merge_found p vdata val_offset func_offset overlap_size;
    n ← getSize p;
    _ ← check (p.(bytesValidEnd) <=? n) "bytesValidEnd <= getSize()";
    buf0 ← getPtr p false;
    buf ← deref buf0;
    buf' ← memcpy buf func_offset vdata val_offset overlap_size;
    Ok ((p.(bytesValidStart) =? 0) && (p.(bytesValidEnd) =? n), p <| data := Some buf' |>).

Definition functional_write (p : Packet) (func_start func_end val_start val_end : Z)
  (vdata : list Z) : result (list Z) :=
  let offset := i32 (func_start - val_start) in
  buf0 ← getPtr p false;
  buf ← deref buf0;
  if 0 <=? offset
  then memcpy vdata offset buf 0 (u64 (Z.min func_end val_end - func_start + 1))
  else memcpy vdata 0 buf (- offset) (u64 (Z.min func_end val_end - val_start + 1)).

Definition checkFunctional (fresh : Z -> list Z) (p : Packet) (vaddr vsize : Z)
  (vdata : option (list Z)) : result (bool * Packet * option (list Z)) :=
  func_start ← getAddr p;
  psize ← getSize p;
  let func_end := u64 (func_start + psize - 1) in
  let val_start := vaddr in
  let val_end := u64 (val_start + vsize - 1) in
  if (val_end <? func_start) || (func_end <? val_start) then Ok (false, p, vdata)
  else if isPrint p
  then match p.(senderState) with
       | PrintReqState => Ok (false, p, vdata)
       | _ => Err (UB "null PrintReqState")
       end
  else match vdata with
  | None => Ok (false, p, vdata)
  | Some bytes =>
      if isRead p
      then '(done, p) ← functional_read fresh p func_start func_end val_start val_end vsize bytes;
           Ok (done, p, vdata)
      else if isWrite p
      then bytes' ← functional_write p func_start func_end val_start val_end bytes;
           Ok (false, p, Some bytes')
      else Err (Panic "Don't know how to handle command")
  end.

(** The overload for a value in another packet. *)
Definition checkFunctionalPacket (fresh : Z -> list Z) (p other : Packet)
  : result (bool * Packet * Packet) :=
  vdata ← (if hasData other then getPtr other false else Ok None);
  vaddr ← getAddr other;
  vsize ← getSize other;
  '(done, p, vdata') ← checkFunctional fresh p vaddr (i32 vsize) vdata;
  Ok (done, p, if hasData other then other <| data := vdata' |> else other).

End Packet.
