(* ===== verification/PacketSpec.v ===== *)
(** * Packets: what the command table and the functional accesses guarantee

    The table of commands is consistent; a functional write leaves in a value
    exactly its own bytes where the two overlap; a functional read, however it
    is pieced together, contains only bytes of the values it met. *)

From S2P Require Import Prelude.
From S2P Require Import Packet.
Import Packet.

Module PacketSpec.

(** ** Bytes of buffers *)
Definition byte_at (b : list Z) (i : Z) : option Z := if 0 <=? i then b !! Z.to_nat i else None.

Lemma byte_at_inside b i : 0 <= i < Z.of_nat (length b) -> is_Some (byte_at b i).
Proof.
  intros H. unfold byte_at. destruct (Z.leb_spec 0 i); [|lia].
  apply lookup_lt_is_Some. lia.
Qed.

Lemma in_buffer_true b off n :
  in_buffer b off n = true <-> 0 <= off /\ 0 <= n /\ off + n <= Z.of_nat (length b).
Proof. unfold in_buffer. rewrite !andb_true_iff, !Z.leb_le. tauto. Qed.

Lemma byte_at_slice b off n i :
  0 <= off -> 0 <= i < n -> byte_at (slice b off n) i = byte_at b (off + i).
Proof.
  intros Ho Hi. unfold byte_at, slice.
  destruct (Z.leb_spec 0 i), (Z.leb_spec 0 (off + i)); try lia.
  rewrite lookup_take_lt by lia. rewrite lookup_drop. f_equal. lia.
Qed.

Lemma byte_at_splice b off l i :
  0 <= off -> off + Z.of_nat (length l) <= Z.of_nat (length b) -> 0 <= i ->
  byte_at (splice b off l) i =
  if (off <=? i) && (i <? off + Z.of_nat (length l)) then byte_at l (i - off) else byte_at b i.
Proof.
  intros Ho Hl Hi. unfold byte_at, splice.
  destruct (Z.leb_spec 0 i); [|lia].
  destruct (Z.leb_spec off i), (Z.ltb_spec i (off + Z.of_nat (length l))); simpl; try lia.
  - destruct (Z.leb_spec 0 (i - off)); [|lia].
    rewrite lookup_app_r by (rewrite length_take; lia).
    rewrite lookup_app_l by (rewrite length_take; lia).
    f_equal. rewrite length_take. lia.
  - rewrite lookup_app_r by (rewrite length_take; lia).
    rewrite lookup_app_r by (rewrite length_take; lia).
    rewrite lookup_drop. f_equal. rewrite length_take. lia.
  - rewrite lookup_app_l by (rewrite length_take; lia). by rewrite lookup_take_lt by lia.
Qed.

Lemma length_slice b off n :
  0 <= off -> 0 <= n -> off + n <= Z.of_nat (length b) -> Z.of_nat (length (slice b off n)) = n.
Proof. intros. unfold slice. rewrite length_take, length_drop. lia. Qed.

Lemma length_splice b off l :
  0 <= off -> off + Z.of_nat (length l) <= Z.of_nat (length b) ->
  length (splice b off l) = length b.
Proof. intros. unfold splice. rewrite !length_app, length_take, length_drop. lia. Qed.

(** [memcpy] within the buffers, byte by byte. *)
Lemma memcpy_ok dst d0 source so n :
  0 <= d0 -> 0 <= so -> 0 <= n ->
  d0 + n <= Z.of_nat (length dst) -> so + n <= Z.of_nat (length source) ->
  exists dst', memcpy dst d0 source so n = Ok dst' /\ length dst' = length dst /\
    forall i, 0 <= i ->
      byte_at dst' i =
      if (d0 <=? i) && (i <? d0 + n) then byte_at source (so + (i - d0)) else byte_at dst i.
Proof.
  intros H1 H2 H3 H4 H5. unfold memcpy.
  rewrite (proj2 (in_buffer_true source so n)), (proj2 (in_buffer_true dst d0 n)) by lia.
  simpl. eexists; split; [done|].
  pose proof (length_slice source so n H2 H3 H5) as L.
  split; [apply length_splice; lia|].
  intros i Hi. rewrite byte_at_splice by lia. rewrite L.
  destruct (_ && _) eqn:E; [|done].
  apply andb_true_iff in E as [?%Z.leb_le ?%Z.ltb_lt]. apply byte_at_slice; lia.
Qed.

(** ** The command table *)
Definition has (c : Command) (a : Attribute) : bool := testCmdAttrib c a.

(** The table of commands is consistent: a command is never both request
    and response, and only requests ask for a response; the response of a
    command that asks for one is a response, not an error, asks for none
    itself, moves data the way the request does, and carries data exactly
    when the request reads.  Commands that ask for none name no response. *)
Theorem command_table_consistent c :
  ~ (has c IsRequest && has c IsResponse = true) /\
  (has c NeedsResponse = true ->
     has c IsRequest = true /\
     has (responseCommand c) IsResponse = true /\
     has (responseCommand c) NeedsResponse = false /\
     has (responseCommand c) IsError = false /\
     has (responseCommand c) IsRead = has c IsRead /\
     has (responseCommand c) IsWrite = has c IsWrite /\
     has (responseCommand c) HasData = has c IsRead) /\
  (has c NeedsResponse = false <-> responseCommand c = InvalidCmd).
Proof. destruct c; vm_compute; naive_solver. Qed.

Lemma isSet_lor_l f a b : isSet f a = true -> isSet f (Z.lor a b) = true.
Proof.
  unfold isSet. rewrite !negb_true_iff, !Z.eqb_neq, Z.land_lor_distr_r.
  intros H E. apply Z.lor_eq_0_iff in E as [? _]. done.
Qed.

(** ** Geometry of a functional access

    The request and the value it meets: they overlap, neither wraps around
    the address space, the packet has a buffer of its size, and the sizes fit
    the 16-bit fields of the packet. *)
Record meets (p : Packet) (buf : list Z) (vaddr vsize : Z) (vdata : list Z) : Prop := {
  me_valid : isSet p.(flags) VALID_ADDR = true /\ isSet p.(flags) VALID_SIZE = true;
  me_data : p.(data) = Some buf;
  me_owned : isSet p.(flags) (Z.lor STATIC_DATA DYNAMIC_DATA) = true;
  me_length : Z.of_nat (length buf) = p.(size);
  me_vlength : Z.of_nat (length vdata) = vsize;
  me_size : 0 < p.(size) < 2 ^ 16;
  me_vsize : 0 < vsize < 2 ^ 30;
  me_addr : 0 <= p.(addr) /\ p.(addr) + p.(size) < 2 ^ 64;
  me_vaddr : 0 <= vaddr /\ vaddr + vsize < 2 ^ 64;
  me_overlap : p.(addr) < vaddr + vsize /\ vaddr < p.(addr) + p.(size)
}.

(** The byte of a functional write at an address. *)
Definition written (p : Packet) (buf : list Z) (a : Z) : option Z :=
  if (p.(addr) <=? a) && (a <? p.(addr) + p.(size)) then byte_at buf (a - p.(addr)) else None.

Lemma getAddr_ok p : isSet p.(flags) VALID_ADDR = true -> getAddr p = Ok p.(addr).
Proof. intros H. unfold getAddr, check. by rewrite H. Qed.
Lemma getSize_ok p : isSet p.(flags) VALID_SIZE = true -> getSize p = Ok p.(size).
Proof. intros H. unfold getSize, check. by rewrite H. Qed.
Lemma getPtr_ok p b nok :
  isSet p.(flags) (Z.lor STATIC_DATA DYNAMIC_DATA) = true -> p.(data) = Some b ->
  getPtr p nok = Ok (Some b).
Proof. intros H D. unfold getPtr, check. rewrite H, orb_true_r, D. done. Qed.

(** One byte of a value after a copy of the packet's bytes [so, so + n) to
    offset [d0] of it, when the copy is exactly the overlap. *)
Lemma overlay_byte p buf vaddr vdata d0 so n j :
  Z.of_nat (length buf) = p.(size) ->
  vaddr + d0 = p.(addr) + so -> 0 <= so -> so + n <= p.(size) ->
  (p.(addr) <= vaddr + j < p.(addr) + p.(size) <-> d0 <= j < d0 + n) ->
  (if (d0 <=? j) && (j <? d0 + n) then byte_at buf (so + (j - d0)) else byte_at vdata j) =
  match written p buf (vaddr + j) with Some b => Some b | None => byte_at vdata j end.
Proof.
  intros Hl Hso H0 Hn Hiff. unfold written.
  destruct (_ && _) eqn:E1, ((addr p <=? _) && _) eqn:E2;
    rewrite ?andb_true_iff, ?andb_false_iff, ?Z.leb_le, ?Z.ltb_lt, ?Z.leb_gt, ?Z.ltb_ge in E1, E2;
    [|lia|lia|done].
  replace (vaddr + j - addr p) with (so + (j - d0)) by lia.
  by destruct (byte_at_inside buf (so + (j - d0))) as [b ->]; [lia|].
Qed.

Lemma functional_write_ok p buf vaddr vsize vdata :
  meets p buf vaddr vsize vdata ->
  exists vdata',
    functional_write p p.(addr) (p.(addr) + p.(size) - 1) vaddr (vaddr + vsize - 1) vdata
      = Ok vdata' /\ length vdata' = length vdata /\
    forall j, 0 <= j < vsize ->
      byte_at vdata' j = match written p buf (vaddr + j) with
                         | Some b => Some b | None => byte_at vdata j end.
Proof.
  intros [[Va Vs] Hd Ho Hl Hvl Hs Hvs Ha Hva Hov]. unfold functional_write.
  rewrite (getPtr_ok p buf) by done. cbn [mbind result_bind deref].
  rewrite i32_small by (unfold is_i32; lia).
  rewrite !u64_small by (unfold is_u64; lia).
  destruct (Z.leb_spec 0 (addr p - vaddr)) as [H|H].
  - destruct (memcpy_ok vdata (addr p - vaddr) buf 0
                (Z.min (addr p + size p - 1) (vaddr + vsize - 1) - addr p + 1))
      as (v' & -> & L & B); [lia..|].
    exists v'. split_and!; [done..|]. intros j Hj. rewrite B by lia.
    apply overlay_byte; lia.
  - destruct (memcpy_ok vdata 0 buf (- (addr p - vaddr))
                (Z.min (addr p + size p - 1) (vaddr + vsize - 1) - vaddr + 1))
      as (v' & -> & L & B); [lia..|].
    exists v'. split_and!; [done..|]. intros j Hj. rewrite B by lia.
    apply overlay_byte; lia.
Qed.

(** ** Functional reads *)

(** The only way in which piecing a read together can fail. *)
Definition discontiguous (e : error) : Prop :=
  e = Panic "BUG: Discontiguous bytes found for functional copying!".

Lemma u16_small x : 0 <= x < 2 ^ 16 -> u16 x = x.
Proof. intros. unfold u16. by apply Z.mod_small. Qed.

Section reads.
(** [good a b]: [b] is a byte that a value has at address [a]. *)
Context (good : Z -> Z -> Prop).

Definition good_byte (p : Packet) (buf : list Z) (i : Z) : Prop :=
  exists b, byte_at buf i = Some b /\ good (p.(addr) + i) b.

(** The range of found bytes lies in the packet and holds good bytes. *)
Definition found_good (p : Packet) (buf : list Z) : Prop :=
  0 <= p.(bytesValidStart) <= p.(bytesValidEnd) /\ p.(bytesValidEnd) <= p.(size) /\
  forall i, p.(bytesValidStart) <= i < p.(bytesValidEnd) -> good_byte p buf i.

Definition good_value (vaddr vsize : Z) (vdata : list Z) : Prop :=
  forall j, 0 <= j < vsize -> exists b, byte_at vdata j = Some b /\ good (vaddr + j) b.

(** The packet after a read has met a value: only buffer and range differ. *)
Definition refilled (p : Packet) (buf : list Z) (s e : Z) : Packet :=
  p <| data := Some buf |> <| bytesValidStart := s |> <| bytesValidEnd := e |>.

(** A copy from a good value at the right offset makes good bytes. *)
Lemma memcpy_good p buf vaddr vsize vdata fo vo n :
  Z.of_nat (length vdata) = vsize -> good_value vaddr vsize vdata ->
  vaddr + vo = p.(addr) + fo -> 0 <= fo -> 0 <= vo -> 0 <= n ->
  fo + n <= Z.of_nat (length buf) -> vo + n <= vsize ->
  exists buf', memcpy buf fo vdata vo n = Ok buf' /\ length buf' = length buf /\
    forall i, 0 <= i -> fo <= i < fo + n \/ good_byte p buf i -> good_byte p buf' i.
Proof.
  intros Hl Hg Heq ? ? ? ? ?.
  destruct (memcpy_ok buf fo vdata vo n) as (b' & -> & L & B); [lia..|].
  exists b'. split_and!; [done..|]. intros i Hi Hc. unfold good_byte. rewrite B by lia.
  destruct (_ && _) eqn:E;
    rewrite ?andb_true_iff, ?andb_false_iff, ?Z.leb_le, ?Z.ltb_lt, ?Z.leb_gt, ?Z.ltb_ge in E.
  - replace (addr p + i) with (vaddr + (vo + (i - fo))) by lia. apply Hg. lia.
  - destruct Hc as [?|(b & ? & ?)]; [lia|eauto].
Qed.

(** What is copied after earlier bytes have been taken into account: a part of
    the overlap at the same distance, which with the bytes already good fills
    the new range. *)
Definition merged (p : Packet) (fo vo os : Z) (r : Packet * (Z * Z * Z)) : Prop :=
  let '(p1, (vo1, fo1, os1)) := r in
  exists buf1 s e, p1 = refilled p buf1 s e /\ Z.of_nat (length buf1) = p.(size) /\
    0 <= s <= e /\ e <= p.(size) /\ vo1 - vo = fo1 - fo /\ fo <= fo1 /\ 0 <= os1 /\
    fo1 + os1 <= fo + os /\
    forall i, s <= i < e -> fo1 <= i < fo1 + os1 \/ good_byte p buf1 i.

Lemma refilled_self p buf :
  p.(data) = Some buf -> p = refilled p buf p.(bytesValidStart) p.(bytesValidEnd).
Proof. intros H. unfold refilled. destruct p; simpl in *. by rewrite H. Qed.

Lemma merge_found_ok p buf vaddr vsize vdata vo fo os :
  meets p buf vaddr vsize vdata -> good_value vaddr vsize vdata -> found_good p buf ->
  vaddr + vo = p.(addr) + fo -> 0 <= fo -> 0 <= vo -> 0 <= os ->
  fo + os <= p.(size) -> vo + os <= vsize ->
  rwp discontiguous (merge_found p vdata vo fo os) (merged p fo vo os).
Proof.
  intros [[Va Vs] Hd Ho Hl Hvl Hs Hvs Ha Hva Hov] Hg (F1 & F2 & F3) Heq ? ? ? ? ?.
  pose proof (refilled_self p buf Hd) as Hself.
  unfold merge_found. cbv zeta.
  repeat match goal with |- rwp _ (if ?c then _ else _) _ => destruct c eqn:? end;
    rewrite ?orb_true_iff, ?orb_false_iff, ?andb_true_iff, ?andb_false_iff, ?Z.leb_le, ?Z.ltb_lt, ?Z.leb_gt,
      ?Z.ltb_ge, ?Z.eqb_eq in *.
  - rewrite !u16_small by lia. hnf. exists buf, fo, (fo + os).
    split_and!; [by unfold refilled; destruct p; simpl in *; rewrite Hd|lia..|].
    intros i Hi. left. lia.
  - hnf. exists buf, (bytesValidStart p), (bytesValidEnd p).
    split_and!; [done|lia..|]. intros i Hi. right. by apply F3.
  - rewrite u16_small by lia. hnf. exists buf, fo, (bytesValidEnd p).
    split_and!; [by unfold refilled; destruct p; simpl in *; rewrite Hd|lia..|].
    intros i Hi. destruct (Z.lt_ge_cases i (bytesValidStart p)); [left; lia|].
    right. apply F3. lia.
  - rewrite Zplus_minus, u16_small by lia. hnf. exists buf, (bytesValidStart p), (fo + os).
    split_and!; [by unfold refilled; destruct p; simpl in *; rewrite Hd|lia..|].
    intros i Hi. destruct (Z.lt_ge_cases i (bytesValidEnd p)); [|left; lia].
    right. apply F3. lia.
  - rewrite (getPtr_ok p buf) by done. cbn [mbind result_bind deref].
    destruct (memcpy_good p buf vaddr vsize vdata fo vo (bytesValidStart p - fo))
      as (b' & -> & L & G); [lia || done..|].
    rewrite Zplus_minus, !u16_small by lia. hnf. exists b', fo, (fo + os).
    split_and!; [by destruct p|lia..|].
    intros i Hi. destruct (Z.lt_ge_cases i (bytesValidEnd p)); [|left; lia].
    right. apply G; [lia|]. destruct (Z.lt_ge_cases i (bytesValidStart p)); [left; lia|].
    right. apply F3. lia.
  - done.
  - lia.
Qed.

(** The part of a value that a partial overlap takes. *)
Lemma overlap_ok p buf vaddr vsize vdata :
  meets p buf vaddr vsize vdata ->
  ~ (vaddr <= p.(addr) /\ p.(addr) + p.(size) <= vaddr + vsize) ->
  exists vo fo os,
    overlap p.(addr) (p.(addr) + p.(size) - 1) vaddr (vaddr + vsize - 1) vsize = Ok (vo, fo, os) /\
    vaddr + vo = p.(addr) + fo /\ 0 <= fo /\ 0 <= vo /\ 0 <= os /\
    fo + os <= p.(size) /\ vo + os <= vsize.
Proof.
  intros [[Va Vs] Hd Ho Hl Hvl Hs Hvs Ha Hva Hov] Hn. unfold overlap.
  repeat match goal with |- context [if ?c then Ok _ else _] => destruct c eqn:? end;
    rewrite ?andb_true_iff, ?andb_false_iff, ?Z.leb_le, ?Z.ltb_lt, ?Z.leb_gt, ?Z.ltb_ge in *;
    [..|lia]; rewrite ?i32_small by (unfold is_i32; lia);
    eexists _, _, _; (split; [reflexivity|lia]).
Qed.

(** A read that meets a good value keeps its found bytes good, and when it
    says that it is complete the whole buffer is. *)
Lemma functional_read_ok fresh p buf vaddr vsize vdata :
  meets p buf vaddr vsize vdata -> good_value vaddr vsize vdata -> found_good p buf ->
  rwp discontiguous
    (functional_read fresh p p.(addr) (p.(addr) + p.(size) - 1) vaddr (vaddr + vsize - 1) vsize vdata)
    (fun '(done, p') => exists buf' s e, p' = refilled p buf' s e /\
       Z.of_nat (length buf') = p.(size) /\ found_good p' buf' /\
       (done = true -> forall i, 0 <= i < p.(size) -> good_byte p buf' i)).
Proof.
  intros M Hg Hf. pose proof M as [[Va Vs] Hd Ho Hl Hvl Hs Hvs Ha Hva Hov].
  unfold functional_read. destruct (_ && _) eqn:E;
    rewrite ?andb_true_iff, ?andb_false_iff, ?Z.leb_le, ?Z.ltb_lt, ?Z.leb_gt in E.
  - unfold allocate, check. rewrite Hd, Ho. cbn [mbind result_bind].
    rewrite (getSize_ok p Vs), (getPtr_ok p buf) by done. cbn [mbind result_bind deref].
    rewrite i32_small by (unfold is_i32; lia).
    destruct (memcpy_good p buf vaddr vsize vdata 0 (addr p - vaddr) (size p))
      as (b' & -> & L & G); [lia || done..|].
    hnf. exists b', (bytesValidStart p), (bytesValidEnd p).
    assert (A : forall i, 0 <= i < size p -> good_byte p b' i) by (intros i Hi; apply G; lia).
    split_and!; [by destruct p|lia| |done].
    destruct Hf as (F1 & F2 & F3). split; [exact F1|]. split; [exact F2|]. intros i Hi. apply A. simpl in Hi. lia.
  - destruct (overlap_ok p buf vaddr vsize vdata M) as (vo & fo & os & -> & O); [lia|].
    cbn [mbind result_bind]. destruct O as (O1 & O2 & O3 & O4 & O5 & O6).
    eapply rwp_bind, rwp_mono; [apply (merge_found_ok p buf vaddr vsize vdata); done|].
    intros [p1 [[vo1 fo1] os1]] (b1 & s & e & -> & L1 & R1 & R2 & D & R3 & R4 & R5 & C).
    rewrite (getSize_ok (refilled p b1 s e)) by done. cbn [mbind result_bind].
    change (size (refilled p b1 s e)) with (size p).
    change (bytesValidEnd (refilled p b1 s e)) with e.
    change (bytesValidStart (refilled p b1 s e)) with s.
    unfold check. destruct (Z.leb_spec e (size p)); [|lia]. cbn [mbind result_bind].
    rewrite (getPtr_ok (refilled p b1 s e) b1) by done. cbn [mbind result_bind deref].
    destruct (memcpy_good p b1 vaddr vsize vdata fo1 vo1 os1)
      as (b' & -> & L & G); [lia || done..|].
    hnf. exists b', s, e. split_and!; [done|lia| |].
    + split_and!; [simpl; lia..|]. intros i Hi. simpl in Hi. apply G; [lia|]. by apply C.
    + intros Hdone%andb_true_iff i Hi. rewrite !Z.eqb_eq in Hdone. destruct Hdone as [-> ->].
      apply G; [lia|]. by apply C.
Qed.
End reads.
End PacketSpec.
