(* ===== verification/PacketQueue.v ===== *)
(** * Packet queues
    (classes [PacketQueue], [MasterPacketQueue] and [SlavePacketQueue],
    src/src/mem/packet_queue.hh and packet_queue.cc).

    A list of packets to be sent at a given time or later.  An event of the
    simulator wakes the queue for the first packet; when the other side
    refuses a packet the queue waits to be told to try again.  The current
    time is an argument; the scheduled time of the queue's event is part of
    the state, and [EventManager::schedule] asserts what event queues do. *)

From S2P Require Import Prelude.
From S2P Require Import Packet.
Import Packet.

Module PacketQueue.

Definition MaxTick : Z := 0x7fffffffffffffff.

Record DeferredPacket := mkDeferred {
  tick : Z;
  pkt : nat;                         (* the packet, by its number *)
  sendAsSnoop : bool
}.

#[export] Instance DeferredPacket_eq_dec : EqDecision DeferredPacket.
Proof. solve_decision. Defined.

Record PQ := mkPQ {
  transmitList : list DeferredPacket;
  sendEvent : option Z;              (* when it is scheduled *)
  drainEvent : option nat;
  waitingOnRetry : bool;
  processed : list nat               (* drain events processed, newest first *)
}.
#[global] Instance PQ_eta : Settable PQ := fun q =>
  mkPQ q.(transmitList) q.(sendEvent) q.(drainEvent) q.(waitingOnRetry) q.(processed).

Definition newPQ : PQ := mkPQ [] None None false [].

Abbreviation MQ := (M PQ).

Definition scheduled : MQ bool := gets (fun q => bool_decide (is_Some q.(sendEvent))).

(** ** The simulator's event queue, for the one event of the queue *)
Definition schedule (now when : Z) : MQ unit :=
  _ ← assert_ (now <=? when) SCHED_PAST;
  b ← scheduled;
  _ ← assert_ (negb b) SCHED_TWICE;
  modify (fun q => q <| sendEvent := Some when |>).

Definition reschedule (now when : Z) : MQ unit :=
  _ ← assert_ (now <=? when) SCHED_PAST;
  b ← scheduled;
  _ ← assert_ b "EventQueue::reschedule: event->scheduled()";
  modify (fun q => q <| sendEvent := Some when |>).

(** ** Adding packets *)
Definition schedSendEvent (now when : Z) : MQ unit :=
  q ← get;
  if q.(waitingOnRetry)
  then b ← scheduled; assert_ (negb b) "!sendEvent.scheduled()"
  else match q.(sendEvent) with
       | None => schedule now when
       | Some w => if when <? w then reschedule now when else mret tt
       end.

(** The loop that looks for the place in the middle, and the insertion. *)
Fixpoint insert_sorted (d : DeferredPacket) (l : list DeferredPacket) : list DeferredPacket :=
  match l with
  | [] => [d]
  | x :: l' => if x.(tick) <=? d.(tick) then x :: insert_sorted d l' else d :: x :: l'
  end.

Definition schedSendTiming (now : Z) (p : nat) (when : Z) (send_as_snoop : bool) : MQ unit :=
  _ ← assert_ (now <? when) "when > curTick()";
  q ← get;
  let d := mkDeferred when p send_as_snoop in
  match q.(transmitList) with
  | [] =>
      _ ← modify (fun q => q <| transmitList := [d] |>);
      schedSendEvent now when
  | front :: rest =>
      if when <? front.(tick)
      then
        _ ← modify (fun q => q <| transmitList := d :: front :: rest |>);
        schedSendEvent now when
      else if (default front (last rest)).(tick) <=? when
      then modify (fun q => q <| transmitList := (front :: rest) ++ [d] |>)
      else modify (fun q => q <| transmitList := front :: insert_sorted d rest |>)
  end.

(** ** Sending packets *)
Section sending.
(** [sendTiming], a virtual function: it gives the packet to the other side,
    which may call the queue before it answers. *)
Context (sendTiming : DeferredPacket -> MQ bool).

Definition deferredPacketReady (now : Z) (q : PQ) : bool :=
  match q.(transmitList) with [] => false | d :: _ => d.(tick) <=? now end.

Definition deferredPacketReadyTime (q : PQ) : Z :=
  match q.(transmitList) with [] => MaxTick | d :: _ => d.(tick) end.

Definition trySendTiming (now : Z) : MQ unit :=
  q ← get;
  _ ← assert_ (deferredPacketReady now q) "deferredPacketReady()";
  match q.(transmitList) with
  | [] => fail (UB "front of an empty list")
  | dp :: rest =>
      _ ← modify (fun q => q <| transmitList := rest |>);
      ok ← sendTiming dp;
      _ ← modify (fun q => q <| waitingOnRetry := negb ok |>);
      if (ok : bool) then mret tt
      else
        b ← scheduled;
        _ ← assert_ (negb b) "!sendEvent.scheduled()";
        modify (fun q => q <| transmitList ::= cons dp |>)
  end.

Definition scheduleSend (now time : Z) : MQ unit :=
  q ← get;
  b ← scheduled;
  let nextReady := Z.min (deferredPacketReadyTime q) time in
  if negb (nextReady =? MaxTick)
  then if (b : bool) then mret tt else schedule now (Z.max nextReady (now + 1))
  else match q.(drainEvent) with
       | Some e =>
           if b then mret tt
           else modify (fun q => q <| processed ::= cons e |> <| drainEvent := None |>)
       | None => mret tt
       end.

Definition sendDeferredPacket (now : Z) : MQ unit :=
  _ ← trySendTiming now;
  w ← gets waitingOnRetry;
  if negb w then scheduleSend now MaxTick else mret tt.

Definition retry (now : Z) : MQ unit :=
  w ← gets waitingOnRetry;
  _ ← assert_ w "waitingOnRetry";
  sendDeferredPacket now.

Definition processSendEvent (now : Z) : MQ unit :=
  w ← gets waitingOnRetry;
  _ ← assert_ (negb w) "!waitingOnRetry";
  sendDeferredPacket now.
End sending.

Definition drain (de : nat) : MQ Z :=
  q ← get;
  b ← scheduled;
  match q.(transmitList), b with
  | [], false => mret 0
  | _, _ => _ ← modify (fun q => q <| drainEvent := Some de |>); mret 1
  end.

(** ** The queue's part in functional accesses

    The packets are looked up in the store of all packets; the request and
    the queued packets may change.  A print request needs its own sender
    state for the labels. *)
Section functional.
Context (fresh : Z -> list Z).

Fixpoint check_packets (ids : list nat) (p : Packet) (store : gmap nat Packet)
  : result (bool * Packet * gmap nat Packet) :=
  match ids with
  | [] => Ok (false, p, store)
  | i :: ids =>
      match store !! i with
      | None => Err (UB "dangling packet")
      | Some other =>
          '(found, p, other) ← checkFunctionalPacket fresh p other;
          let store := <[i := other]> store in
          if (found : bool) then Ok (true, p, store) else check_packets ids p store
      end
  end.

Definition checkFunctionalQueue (q : PQ) (p : Packet) (store : gmap nat Packet)
  : result (bool * Packet * gmap nat Packet) :=
  if isPrint p && negb (bool_decide (p.(senderState) = PrintReqState))
  then Err (AssertFail "safe_cast")
  else check_packets (pkt <$> q.(transmitList)) p store.
End functional.

(** ** The two kinds of queue *)
Definition MasterSendTiming (sendTimingReq sendTimingSnoopResp : nat -> MQ bool)
  (d : DeferredPacket) : MQ bool :=
  if negb d.(sendAsSnoop) then sendTimingReq d.(pkt) else sendTimingSnoopResp d.(pkt).

Definition SlaveSendTiming (sendTimingResp : nat -> MQ bool) (d : DeferredPacket) : MQ bool :=
  _ ← assert_ (negb d.(sendAsSnoop)) "!send_as_snoop";
  sendTimingResp d.(pkt).

End PacketQueue.
