(* ===== verification/PacketQueueSpec.v ===== *)
(** * What packet queues promise

    Order, timing and progress ([PacketQueueSpec]), and functional accesses
    to queued packets ([PacketQueueFunctional]). *)

From Stdlib Require Import Sorted.
From S2P Require Import Prelude.
From S2P Require Import Packet.
From S2P Require Import PacketQueue.
From S2P Require Import PacketSpec.

(** * Packet queues: order, timing and progress

    The queue together with the simulator and the other side, as a transition
    system: packets are added, the event fires at its time, a refused queue is
    told to retry, time passes.  While a packet is handed over the other side
    may add packets.  The invariant [queued] ties the list to the packets
    added and sent; from it follow order, timing, and in which one case an
    assertion of the queue fails. *)
Module PacketQueueSpec.
Import Packet PacketQueue.

(** ** Lists ordered by time *)
Definition before (d e : DeferredPacket) : Prop := d.(tick) <= e.(tick).
Definition ordered (l : list DeferredPacket) : Prop := StronglySorted before l.

(** The packets for one time, in the order of the list. *)
Definition at_time (t : Z) (l : list DeferredPacket) : list DeferredPacket :=
  filter (fun d => d.(tick) = t) l.

Lemma at_time_app t l k : at_time t (l ++ k) = at_time t l ++ at_time t k.
Proof. apply filter_app. Qed.

Lemma at_time_none t l : Forall (fun d => d.(tick) <> t) l -> at_time t l = [].
Proof.
  induction 1 as [|d l H _ IH]; [done|]. unfold at_time. by rewrite filter_cons_False.
Qed.

(** The list in which the reference puts a packet: after all that are not
    later. *)
Lemma insert_sorted_ordered d l : ordered l -> ordered (insert_sorted d l).
Proof.
  unfold ordered. induction 1 as [|x l Hl IH Hx]; [by repeat constructor|].
  simpl. destruct (Z.leb_spec (tick x) (tick d)).
  - constructor; [done|]. clear IH Hl. induction l as [|y l IH]; simpl; [by repeat constructor|].
    inversion_clear Hx. destruct (_ <=? _); repeat constructor; auto.
  - assert (Forall (before d) (x :: l)).
    { constructor; [unfold before; lia|]. eapply Forall_impl; [exact Hx|].
      unfold before. intros y Hy. lia. }
    constructor; [by constructor|done].
Qed.

Lemma at_time_cons t d l : at_time t (d :: l) = at_time t [d] ++ at_time t l.
Proof. apply (at_time_app t [d]). Qed.

Lemma insert_sorted_at_time t d l :
  ordered l -> at_time t (insert_sorted d l) = at_time t l ++ at_time t [d].
Proof.
  unfold ordered. induction 1 as [|x l Hl IH Hx]; [done|]. simpl.
  destruct (Z.leb_spec (tick x) (tick d)).
  - by rewrite at_time_cons, IH, (at_time_cons t x l), app_assoc.
  - rewrite at_time_cons. destruct (decide (tick d = t)) as [<-|N].
    + rewrite (at_time_none (tick d) (x :: l)); [by rewrite app_nil_r|].
      constructor; [lia|]. eapply Forall_impl; [exact Hx|]. unfold before. intros y Hy. lia.
    + rewrite (at_time_none t [d]) by by repeat constructor. by rewrite app_nil_r.
Qed.

Lemma insert_sorted_last d l :
  Forall (fun x => x.(tick) <= d.(tick)) l -> insert_sorted d l = l ++ [d].
Proof.
  induction 1 as [|x l H _ IH]; simpl; [done|].
  destruct (Z.leb_spec (tick x) (tick d)); [by rewrite IH|lia].
Qed.

Lemma insert_sorted_app d l k :
  Forall (fun x => x.(tick) <= d.(tick)) l -> insert_sorted d (l ++ k) = l ++ insert_sorted d k.
Proof.
  induction 1 as [|x l H _ IH]; simpl; [done|].
  destruct (Z.leb_spec (tick x) (tick d)); [by rewrite IH|lia].
Qed.

Lemma ordered_last front rest :
  ordered (front :: rest) ->
  Forall (fun x => x.(tick) <= (default front (last rest)).(tick)) (front :: rest).
Proof.
  unfold ordered. revert front. induction rest as [|y rest IH]; intros f H.
  - constructor; [simpl; lia|constructor].
  - inversion_clear H as [|? ? Hs Hf]. specialize (IH _ Hs). rewrite last_cons.
    destruct (last rest) as [z|]; simpl in *; (constructor; [|done]);
      inversion_clear Hf; inversion_clear IH; unfold before in *; lia.
Qed.

(** ** Adding a packet puts it in its place *)

(** When the event is scheduled, it is for the first packet: no earlier than
    the packet is due and no later than it can be sent.  A queue that waits
    for a retry has no event. *)
Definition event_fits (now : Z) (q : PQ) : Prop :=
  forall w, q.(sendEvent) = Some w ->
    q.(waitingOnRetry) = false /\
    exists d rest, q.(transmitList) = d :: rest /\ now <= w /\
      d.(tick) <= w <= Z.max d.(tick) (now + 1).

(** A queue at rest: it waits with a packet that is due, or has an event for
    its first packet, or is empty. *)
Definition at_rest (now : Z) (q : PQ) : Prop :=
  event_fits now q /\
  if q.(waitingOnRetry)
  then exists d rest, q.(transmitList) = d :: rest /\ d.(tick) <= now
  else q.(transmitList) <> [] -> is_Some q.(sendEvent).

(** What adding packets leaves alone. *)
Definition kept (q q' : PQ) : Prop :=
  q'.(waitingOnRetry) = q.(waitingOnRetry) /\ q'.(drainEvent) = q.(drainEvent) /\
  q'.(processed) = q.(processed).

Lemma kept_trans q q' q'' : kept q q' -> kept q' q'' -> kept q q''.
Proof. unfold kept. intros (? & ? & ?) (? & ? & ?). split_and!; congruence. Qed.

Lemma Ok_tt_ex {S} (s : S) (P : S -> Prop) : P s -> exists s', Ok (tt, s) = Ok (tt, s') /\ P s'.
Proof. eauto. Qed.

(** The new first packet gets the event. *)
Lemma schedSendEvent_first q now d rest :
  event_fits now (q <| transmitList := rest |>) -> now < d.(tick) ->
  (forall e rest', rest = e :: rest' -> d.(tick) < e.(tick)) ->
  exists q', schedSendEvent now d.(tick) (q <| transmitList := d :: rest |>) = Ok (tt, q') /\
    q'.(transmitList) = d :: rest /\ kept q q' /\ event_fits now q' /\
    (q.(waitingOnRetry) = false -> is_Some q'.(sendEvent)).
Proof.
  intros He Hw Hf. unfold event_fits, schedSendEvent in *. destruct q as [l ev de wt pr]; simpl in *.
  unfold get, mbind, M_bind. simpl.
  destruct wt.
  - destruct ev as [w|]; [by destruct (He w eq_refl)|].
    apply Ok_tt_ex. split_and!; done.
  - destruct ev as [w|].
    + destruct (He w eq_refl) as (_ & e & r' & -> & ? & ?). specialize (Hf _ _ eq_refl).
      destruct (Z.ltb_spec (tick d) w); [|lia].
      unfold reschedule, assert_, mbind, M_bind, scheduled, gets, modify. simpl.
      destruct (Z.leb_spec now (tick d)); [|lia]. simpl.
      apply Ok_tt_ex. split_and!; [done|done| |eauto].
      intros w' [= <-]. split; [done|]. eexists _, _. split; [done|]. lia.
    + unfold schedule, assert_, mbind, M_bind, scheduled, gets, modify. simpl.
      destruct (Z.leb_spec now (tick d)); [|lia]. simpl.
      apply Ok_tt_ex. split_and!; [done|done| |eauto].
      intros w' [= <-]. split; [done|]. eexists _, _. split; [done|]. lia.
Qed.

Lemma schedSendTiming_ok q now p when snoop :
  event_fits now q -> ordered q.(transmitList) -> now < when ->
  exists q', schedSendTiming now p when snoop q = Ok (tt, q') /\
    q'.(transmitList) = insert_sorted (mkDeferred when p snoop) q.(transmitList) /\
    kept q q' /\ event_fits now q' /\
    (q.(waitingOnRetry) = false -> q.(transmitList) = [] \/ is_Some q.(sendEvent) ->
     is_Some q'.(sendEvent)).
Proof.
  intros He Ho Hw. unfold schedSendTiming. rewrite assert_bind_run.
  destruct (Z.ltb_spec now when); [|lia]. rewrite get_run.
  set (d := mkDeferred when p snoop).
  change (schedSendEvent now when) with (schedSendEvent now d.(tick)).
  destruct (transmitList q) as [|f rest] eqn:El.
  - rewrite modify_run. destruct (schedSendEvent_first q now d []) as (q' & -> & L & K & E & S);
      [by destruct q; simpl in *; subst|done|done|].
    exists q'. split_and!; try done. intros ? _. by apply S.
  - destruct (Z.ltb_spec when (tick f)).
    + rewrite modify_run.
      destruct (schedSendEvent_first q now d (f :: rest)) as (q' & -> & L & K & E & S);
        [by destruct q; simpl in *; subst|done|by intros ? ? [= <- <-]|].
      exists q'. split_and!; try done; [|intros; by apply S].
      rewrite L. simpl. destruct (Z.leb_spec (tick f) when); [lia|done].
    + assert (I : insert_sorted d (f :: rest) = f :: insert_sorted d rest)
        by (simpl; destruct (Z.leb_spec (tick f) when); [done|lia]).
      assert (E : forall l', event_fits now (q <| transmitList := f :: l' |>)).
      { intros l' w Hs. destruct (He w Hs) as (? & e & r & ? & ?). split; [done|].
        exists f, l'. split; [done|]. rewrite El in *. by simplify_eq. }
      destruct (Z.leb_spec (tick (default f (last rest))) when).
      * apply Ok_tt_ex. split; [|split; [done|split; [apply (E (rest ++ [d]))|]]].
        { cbn [transmitList]. rewrite insert_sorted_last; [done|].
          eapply Forall_impl; [by apply ordered_last|]. simpl. intros x Hx. lia. }
        simpl. intros _ [?|?]; done.
      * apply Ok_tt_ex. split; [by rewrite I|split; [done|split; [apply E|]]].
        simpl. intros _ [?|?]; done.
Qed.

(** A packet that does not become the first one leaves the event alone. *)
Lemma schedSendTiming_behind q now p when snoop f rest q' :
  q.(transmitList) = f :: rest -> f.(tick) <= when ->
  schedSendTiming now p when snoop q = Ok (tt, q') -> q'.(sendEvent) = q.(sendEvent).
Proof.
  intros El Hf. unfold schedSendTiming. rewrite assert_bind_run. destruct (now <? when); [|done].
  rewrite get_run, El. destruct (Z.ltb_spec when (tick f)); [lia|].
  destruct (_ <=? _); intros [= <-]; done.
Qed.

(** A packet that becomes the first one gets the event. *)
Lemma schedSendTiming_front q now p when snoop q' :
  event_fits now q -> ordered q.(transmitList) -> now < when -> q.(waitingOnRetry) = false ->
  (forall f rest, q.(transmitList) = f :: rest -> when < f.(tick)) ->
  schedSendTiming now p when snoop q = Ok (tt, q') -> is_Some q'.(sendEvent).
Proof.
  intros He Ho Hw Hr Hf. unfold schedSendTiming. rewrite assert_bind_run.
  destruct (Z.ltb_spec now when); [|lia]. rewrite get_run.
  set (d := mkDeferred when p snoop).
  change (schedSendEvent now when) with (schedSendEvent now d.(tick)).
  destruct (transmitList q) as [|f rest] eqn:El.
  - rewrite modify_run. destruct (schedSendEvent_first q now d []) as (q1 & -> & _ & _ & _ & S);
      [by destruct q; simpl in *; subst|done|done|]. intros [= <-]. by apply S.
  - specialize (Hf _ _ eq_refl). rewrite (proj2 (Z.ltb_lt _ _)), modify_run by done.
    destruct (schedSendEvent_first q now d (f :: rest)) as (q1 & -> & _ & _ & _ & S);
      [by destruct q; simpl in *; subst|done|by intros ? ? [= <- <-]|]. intros [= <-]. by apply S.
Qed.

(** ** Handing packets over *)

(** A packet that is added: its number, its time, and whether as a snoop. *)
Definition call : Type := nat * Z * bool.
Definition of_call (c : call) : DeferredPacket := mkDeferred c.1.2 c.1.1 c.2.
Definition admissible (now : Z) (calls : list call) : Prop :=
  Forall (fun c => now < c.1.2 < MaxTick) calls.

Definition add_all (now : Z) (calls : list call) : MQ unit :=
  for_each calls (fun c => schedSendTiming now c.1.1 c.1.2 c.2).

(** The other side: it may add packets and then takes or refuses. *)
Definition react (now : Z) (ok : bool) (calls : list call) (d : DeferredPacket) : MQ bool :=
  _ ← add_all now calls; mret ok.

Definition inserted (calls : list call) (l : list DeferredPacket) : list DeferredPacket :=
  foldl (fun l c => insert_sorted (of_call c) l) l calls.

Lemma inserted_ordered calls l : ordered l -> ordered (inserted calls l).
Proof.
  revert l. induction calls as [|c calls IH]; intros l Hl; [done|].
  apply IH. by apply insert_sorted_ordered.
Qed.

Lemma inserted_at_time t calls l :
  ordered l -> at_time t (inserted calls l) = at_time t l ++ at_time t (of_call <$> calls).
Proof.
  revert l. induction calls as [|c calls IH]; intros l Hl; simpl; [by rewrite app_nil_r|].
  rewrite IH by by apply insert_sorted_ordered.
  rewrite insert_sorted_at_time, <- app_assoc, <- at_time_app by done. done.
Qed.

Lemma inserted_app calls l k :
  Forall (fun c => Forall (fun x => x.(tick) <= c.1.2) l) calls ->
  inserted calls (l ++ k) = l ++ inserted calls k.
Proof.
  revert k. induction calls as [|c calls IH]; intros k H; [done|].
  inversion_clear H as [|? ? H1 H2]. simpl.
  rewrite insert_sorted_app by done. by apply IH.
Qed.

Lemma insert_sorted_Forall (P : DeferredPacket -> Prop) d l :
  P d -> Forall P l -> Forall P (insert_sorted d l).
Proof.
  intros Hd. induction 1 as [|x l Hx Hl IH]; simpl; [by repeat constructor|].
  destruct (_ <=? _); by repeat constructor.
Qed.

Lemma inserted_Forall (P : DeferredPacket -> Prop) calls l :
  Forall P (of_call <$> calls) -> Forall P l -> Forall P (inserted calls l).
Proof.
  revert l. induction calls as [|c calls IH]; intros l Hc Hl; [done|].
  inversion_clear Hc. apply IH; [done|]. by apply insert_sorted_Forall.
Qed.

Lemma add_all_ok now calls q :
  event_fits now q -> ordered q.(transmitList) -> admissible now calls ->
  exists q', add_all now calls q = Ok (tt, q') /\
    q'.(transmitList) = inserted calls q.(transmitList) /\ kept q q' /\ event_fits now q' /\
    (q.(waitingOnRetry) = false -> q.(transmitList) = [] -> calls <> [] -> is_Some q'.(sendEvent)) /\
    (q.(waitingOnRetry) = false -> is_Some q.(sendEvent) -> is_Some q'.(sendEvent)) /\
    (q.(waitingOnRetry) = true -> q'.(sendEvent) = None).
Proof.
  revert q. induction calls as [|c calls IH]; intros q He Ho Ha.
  - exists q. split_and!; try done. intros Hw. destruct (sendEvent q) as [w|] eqn:E; [|done].
    destruct (He w E). congruence.
  - inversion_clear Ha as [|? ? Hc Ha']. unfold add_all in *. simpl.
    destruct (schedSendTiming_ok q now c.1.1 c.1.2 c.2) as (q1 & R1 & L1 & K1 & E1 & S1); [done|done|lia|].
    destruct (IH q1) as (q2 & R2 & L2 & K2 & E2 & S2 & S3 & S4); [done| |done|].
    { rewrite L1. by apply insert_sorted_ordered. }
    exists q2. destruct K1 as (W & K1'). rewrite W in *.
    split; [by rewrite (M_bind_run _ _ _ _ _ R1)|].
    split; [by rewrite L2, L1|]. split; [by eapply kept_trans; [split|]|]. split; [done|].
    split_and!; [intros Hw Hl _; apply S3; auto|intros Hw Hl; apply S3; auto|done].
Qed.

(** One of the packets added becomes the first of the list. *)
Definition takes_front (calls : list call) (l : list DeferredPacket) : bool :=
  match l with
  | [] => match calls with [] => false | _ => true end
  | f :: _ => existsb (fun c => c.1.2 <? f.(tick)) calls
  end.

(** Adding packets to a queue that has no event and waits for no retry
    schedules the event exactly when one of them becomes the first. *)
Lemma add_all_event now calls q q' :
  event_fits now q -> ordered q.(transmitList) -> admissible now calls ->
  q.(waitingOnRetry) = false -> q.(sendEvent) = None -> add_all now calls q = Ok (tt, q') ->
  bool_decide (is_Some q'.(sendEvent)) = takes_front calls q.(transmitList).
Proof.
  revert q. induction calls as [|c calls IH]; intros q He Ho Ha Hw Hev R.
  - injection R as <-. rewrite Hev. by destruct (transmitList q).
  - inversion_clear Ha as [|? ? Hc Ha']. unfold add_all in *. simpl in R.
    destruct (schedSendTiming_ok q now c.1.1 c.1.2 c.2) as (q1 & R1 & L1 & (K1 & _) & E1 & _);
      [done|done|lia|].
    rewrite (M_bind_run _ _ _ _ _ R1) in R.
    assert (Ho1 : ordered q1.(transmitList)) by (rewrite L1; by apply insert_sorted_ordered).
    destruct (add_all_ok now calls q1) as (q2 & R2 & _ & _ & _ & _ & S & _); [done..|].
    assert (q2 = q') as -> by (unfold add_all in R2; congruence).
    destruct (transmitList q) as [|f rest] eqn:El; simpl.
    + apply bool_decide_eq_true_2, S; [congruence|].
      eapply schedSendTiming_front; [exact He| | |exact Hw| |exact R1]; [|lia|]; rewrite El; done.
    + destruct (Z.ltb_spec c.1.2 (tick f)) as [Hlt|Hge]; simpl.
      * apply bool_decide_eq_true_2, S; [congruence|].
        eapply schedSendTiming_front; [exact He| | |exact Hw| |exact R1]; [by rewrite El|lia|].
        rewrite El. by intros ? ? [= <- <-].
      * rewrite (IH q1); [|done|done|done|congruence| |done].
        -- rewrite L1. simpl. by rewrite (proj2 (Z.leb_le _ _)).
        -- by rewrite (schedSendTiming_behind _ _ _ _ _ _ _ _ El Hge R1).
Qed.

(** The next packet gets its event. *)
Lemma scheduleSend_ok now q :
  q.(waitingOnRetry) = false -> event_fits now q ->
  Forall (fun e => e.(tick) < MaxTick) q.(transmitList) ->
  exists q', scheduleSend now MaxTick q = Ok (tt, q') /\ at_rest now q' /\
    q'.(transmitList) = q.(transmitList).
Proof.
  intros Hw He HM. unfold scheduleSend. rewrite get_run. unfold scheduled. rewrite gets_run.
  destruct q as [[|e r] ev de wt pr]; simpl in *; subst wt; unfold deferredPacketReadyTime; simpl.
  - destruct ev as [w|]; [by destruct (He w eq_refl) as (_ & ? & ? & ? & _)|]. simpl.
    destruct de; apply Ok_tt_ex; (split; [split; [by intros w|by simpl]|done]).
  - inversion_clear HM as [|? ? Hm _]. unfold MaxTick in *. rewrite Z.min_l by lia.
    destruct (Z.eqb_spec (tick e) 0x7fffffffffffffff); [lia|]. simpl.
    destruct ev as [w|]; simpl.
    + apply Ok_tt_ex. split; [split; [done|]|done]. simpl. eauto.
    + unfold schedule, scheduled. rewrite assert_bind_run, gets_run, assert_bind_run.
      destruct (Z.leb_spec now (Z.max (tick e) (now + 1))); [|lia].
      apply Ok_tt_ex. split; [split|done].
      * intros w [= <-]. simpl. split; [done|]. exists e, r. split; [done|]. lia.
      * simpl. eauto.
Qed.

(** The other side refuses after it has added a packet that goes before all
    that are left, to a queue that has not been waiting: the packet's event is
    then scheduled already. *)
Definition trips (ok : bool) (calls : list call) (rest : list DeferredPacket) (q : PQ) : bool :=
  negb ok && negb q.(waitingOnRetry) && takes_front calls rest.

(** One attempt to send, from a queue whose event is not scheduled. *)
Section attempt.
Context (now : Z) (ok : bool) (calls : list call) (q : PQ) (d : DeferredPacket)
  (rest : list DeferredPacket).
Context (Hev : q.(sendEvent) = None) (Hl : q.(transmitList) = d :: rest) (Ho : ordered (d :: rest))
  (Hd : d.(tick) <= now) (HM : Forall (fun e => e.(tick) < MaxTick) (d :: rest))
  (Ha : admissible now calls).

(** What the other side leaves behind. *)
Lemma reacts : exists q1,
  react now ok calls d (q <| transmitList := rest |>) = Ok (ok, q1) /\
  q1.(transmitList) = inserted calls rest /\ event_fits now q1 /\
  (ok = false -> bool_decide (is_Some q1.(sendEvent)) = trips ok calls rest q).
Proof.
  assert (He : event_fits now (q <| transmitList := rest |>))
    by (intros w Hw; exfalso; cbn in Hw; congruence).
  assert (Hr : ordered rest) by by inversion Ho.
  destruct (add_all_ok now calls (q <| transmitList := rest |>)) as
    (q1 & R1 & L1 & K1 & E1 & _ & _ & S); [done..|].
  exists q1. split; [unfold react; by rewrite (M_bind_run _ _ _ _ _ R1)|]. split_and!; [done..|].
  intros ->. unfold trips. destruct (waitingOnRetry q) eqn:W; [by rewrite S|]. cbn [negb andb].
  exact (add_all_event now calls (q <| transmitList := rest |>) q1 He Hr Ha W Hev R1).
Qed.

Lemma trySendTiming_attempt : exists q1,
  q1.(transmitList) = inserted calls rest /\ event_fits now q1 /\
  trySendTiming (react now ok calls) now q =
    if ok then Ok (tt, q1 <| waitingOnRetry := false |>)
    else if trips ok calls rest q then Err (AssertFail "!sendEvent.scheduled()")
    else Ok (tt, q1 <| sendEvent := None |> <| waitingOnRetry := true |>
                    <| transmitList := d :: inserted calls rest |>).
Proof.
  destruct reacts as (q1 & R & L & E & S). exists q1. split_and!; [done..|].
  unfold trySendTiming. rewrite get_run, assert_bind_run. unfold deferredPacketReady. rewrite Hl.
  rewrite (proj2 (Z.leb_le _ _)), modify_run by done.
  rewrite (M_bind_run _ _ _ _ _ R), modify_run. destruct ok; [done|].
  unfold scheduled. rewrite gets_run, assert_bind_run, <- S by done.
  destruct q1 as [l ev de wt pr]; simpl in *; subst l. by destruct ev.
Qed.

Lemma sendDeferredPacket_ok :
  if trips ok calls rest q
  then sendDeferredPacket (react now ok calls) now q = Err (AssertFail "!sendEvent.scheduled()")
  else exists q', sendDeferredPacket (react now ok calls) now q = Ok (tt, q') /\ at_rest now q' /\
    q'.(transmitList) = if ok then inserted calls rest else d :: inserted calls rest.
Proof.
  destruct trySendTiming_attempt as (q1 & L & E & R). unfold sendDeferredPacket.
  destruct ok; [change (trips true calls rest q) with false; cbv iota|].
  - rewrite (M_bind_run _ _ _ _ _ R), gets_run.
    change (negb (waitingOnRetry (q1 <| waitingOnRetry := false |>))) with true. cbv iota.
    destruct (scheduleSend_ok now (q1 <| waitingOnRetry := false |>)) as (q' & R' & A & L');
      [done|by intros w Hw; destruct (E w Hw) as [_ ?]| |].
    { simpl. rewrite L. apply inserted_Forall; [|by inversion HM]. apply Forall_fmap.
      eapply Forall_impl; [exact Ha|]. intros [[? ?] ?] Hx. simpl in *. lia. }
    exists q'. split; [exact R'|]. split; [done|]. by rewrite L', <- L.
  - destruct (trips _ _ _ _); [unfold mbind, M_bind; by rewrite R|].
    rewrite (M_bind_run _ _ _ _ _ R), gets_run. apply Ok_tt_ex.
    split; [split; [by intros w|simpl; eauto]|done].
Qed.
End attempt.

(** ** The queue in its surroundings *)
Record config := mkConfig {
  queue : PQ;
  clock : Z;
  added : list DeferredPacket;             (* oldest first *)
  sent : list (Z * DeferredPacket)         (* with the time, oldest first *)
}.

(** The first packet of the queue with the time it is taken at. *)
Definition taken (ok : bool) (c : config) : list (Z * DeferredPacket) :=
  if ok then pair c.(clock) <$> take 1 c.(queue).(transmitList) else [].

Inductive pstep : config -> config -> Prop :=
| StepAdd c p w snoop q' :
    c.(clock) < w < MaxTick -> schedSendTiming c.(clock) p w snoop c.(queue) = Ok (tt, q') ->
    pstep c (mkConfig q' c.(clock) (c.(added) ++ [mkDeferred w p snoop]) c.(sent))
| StepFire c ok calls q' :
    c.(queue).(sendEvent) = Some c.(clock) ->
    admissible c.(clock) calls ->
    processSendEvent (react c.(clock) ok calls) c.(clock) (c.(queue) <| sendEvent := None |>)
      = Ok (tt, q') ->
    pstep c (mkConfig q' c.(clock) (c.(added) ++ (of_call <$> calls)) (c.(sent) ++ taken ok c))
| StepRetry c ok calls q' :
    c.(queue).(waitingOnRetry) = true ->
    admissible c.(clock) calls ->
    retry (react c.(clock) ok calls) c.(clock) c.(queue) = Ok (tt, q') ->
    pstep c (mkConfig q' c.(clock) (c.(added) ++ (of_call <$> calls)) (c.(sent) ++ taken ok c))
| StepDrain c de n q' :
    drain de c.(queue) = Ok (n, q') -> pstep c (mkConfig q' c.(clock) c.(added) c.(sent))
| StepWait c t :
    c.(clock) <= t -> (forall w, c.(queue).(sendEvent) = Some w -> t <= w) ->
    pstep c (mkConfig c.(queue) t c.(added) c.(sent)).

Definition initial (t : Z) : config := mkConfig newPQ t [] [].

(** Everything in the order in which it leaves: first what was sent. *)
Definition line (c : config) : list DeferredPacket := (snd <$> c.(sent)) ++ c.(queue).(transmitList).

Record queued (c : config) : Prop := {
  qd_rest : at_rest c.(clock) c.(queue);
  qd_ordered : ordered (line c);
  qd_stable : forall t, at_time t (line c) = at_time t c.(added);
  qd_sent : Forall (fun x => x.2.(tick) <= x.1 <= c.(clock)) c.(sent);
  qd_ticks : Forall (fun d => d.(tick) < MaxTick) c.(queue).(transmitList)
}.

Lemma ordered_app_r l k : ordered (l ++ k) -> ordered k.
Proof. unfold ordered. induction l; [done|]. inversion_clear 1. auto. Qed.

Lemma sent_before c w :
  queued c -> c.(clock) < w -> Forall (fun x => x.(tick) <= w) (snd <$> c.(sent)).
Proof.
  intros Q Hw. apply Forall_fmap. eapply Forall_impl; [apply (qd_sent _ Q)|].
  intros [t d] Hx. simpl in *. lia.
Qed.

Lemma at_rest_wait q t t' :
  at_rest t q -> t <= t' -> (forall w, q.(sendEvent) = Some w -> t' <= w) -> at_rest t' q.
Proof.
  intros [He Hr] Ht Hw. split.
  - intros w Ew. destruct (He w Ew) as (? & d & r & ? & ? & ?). specialize (Hw w Ew).
    split; [done|]. exists d, r. split; [done|]. lia.
  - destruct (waitingOnRetry q); [|done]. destruct Hr as (d & r & ? & ?).
    exists d, r. split; [done|lia].
Qed.

(** The packet at the head is due when the queue tries to send. *)
Lemma due_head c :
  queued c -> c.(queue).(sendEvent) = Some c.(clock) \/ c.(queue).(waitingOnRetry) = true ->
  exists d rest, c.(queue).(transmitList) = d :: rest /\ d.(tick) <= c.(clock).
Proof.
  intros Q H. destruct (qd_rest _ Q) as [He Hr]. destruct H as [Hs|Hw].
  - destruct (He _ Hs) as (? & d & r & ? & ? & ?). exists d, r. split; [done|]. lia.
  - by rewrite Hw in Hr.
Qed.

(** An attempt to send keeps the invariant. *)
Lemma queued_send c (ok : bool) calls q' d rest :
  queued c -> c.(queue).(transmitList) = d :: rest -> d.(tick) <= c.(clock) ->
  admissible c.(clock) calls -> at_rest c.(clock) q' ->
  q'.(transmitList) = (if ok then inserted calls rest else d :: inserted calls rest) ->
  queued (mkConfig q' c.(clock) (c.(added) ++ (of_call <$> calls)) (c.(sent) ++ taken ok c)).
Proof.
  intros Q Hl Hd Ha Hr Hl'.
  assert (Hlate : Forall (fun e => Forall (fun x => x.(tick) <= e.1.2) ((snd <$> c.(sent)) ++ [d])) calls).
  { eapply Forall_impl; [exact Ha|]. intros e He. simpl in He. apply Forall_app. split.
    - apply sent_before; [done|lia].
    - repeat constructor. lia. }
  assert (Hline : line (mkConfig q' c.(clock) (c.(added) ++ (of_call <$> calls))
            (c.(sent) ++ taken ok c)) = inserted calls (line c)).
  { unfold line, taken. cbn [queue sent]. rewrite Hl', Hl.
    change (d :: rest) with ([d] ++ rest). rewrite (app_assoc (snd <$> c.(sent))), inserted_app by done.
    destruct ok; simpl; rewrite ?fmap_app, ?app_nil_r, <- ?app_assoc; done. }
  pose proof (qd_ticks _ Q) as HM. rewrite Hl in HM.
  constructor; try done.
  - rewrite Hline. apply inserted_ordered, (qd_ordered _ Q).
  - intros t. rewrite Hline, inserted_at_time by apply (qd_ordered _ Q).
    cbn [added]. by rewrite (qd_stable _ Q), at_time_app.
  - simpl. apply Forall_app. split; [apply (qd_sent _ Q)|]. unfold taken. rewrite Hl.
    destruct ok; repeat constructor; simpl; lia.
  - assert (Forall (fun e => e.(tick) < MaxTick) (inserted calls rest)).
    { apply inserted_Forall; [|by inversion HM]. apply Forall_fmap.
      eapply Forall_impl; [exact Ha|]. intros [[? ?] ?] Hx. simpl in *. lia. }
    simpl. rewrite Hl'. destruct ok; [done|]. constructor; [by inversion HM|done].
Qed.

(** Each of the operations is possible where a step allows it, but for the
    other side that trips the assertion. *)
Lemma fire_ok c (ok : bool) calls :
  queued c -> c.(queue).(sendEvent) = Some c.(clock) -> admissible c.(clock) calls ->
  let run := processSendEvent (react c.(clock) ok calls) c.(clock) (c.(queue) <| sendEvent := None |>) in
  if negb ok && takes_front calls (tail c.(queue).(transmitList))
  then run = Err (AssertFail "!sendEvent.scheduled()")
  else exists q', run = Ok (tt, q') /\
    queued (mkConfig q' c.(clock) (c.(added) ++ (of_call <$> calls)) (c.(sent) ++ taken ok c)).
Proof.
  intros Q Hs Ha. destruct (due_head c Q) as (d & rest & Hl & Hd); [by left|].
  destruct (qd_rest _ Q) as [He _]. destruct (He _ Hs) as [Hw _].
  cbv zeta. unfold processSendEvent. rewrite gets_run, assert_bind_run.
  change (waitingOnRetry (c.(queue) <| sendEvent := None |>)) with (waitingOnRetry (queue c)).
  rewrite Hw, Hl. cbn [negb tail].
  pose proof (sendDeferredPacket_ok c.(clock) ok calls (c.(queue) <| sendEvent := None |>) d rest) as A.
  unfold trips in A.
  change (waitingOnRetry (c.(queue) <| sendEvent := None |>)) with (waitingOnRetry (queue c)) in A.
  rewrite Hw, andb_true_r in A.
  specialize (A eq_refl Hl). rewrite <- Hl in A.
  specialize (A (ordered_app_r _ _ (qd_ordered _ Q)) Hd (qd_ticks _ Q) Ha).
  destruct (negb ok && _); [exact A|]. destruct A as (q' & R & A & L).
  exists q'. split; [exact R|]. by eapply queued_send.
Qed.

Lemma retry_ok c ok calls :
  queued c -> c.(queue).(waitingOnRetry) = true -> admissible c.(clock) calls ->
  exists q', retry (react c.(clock) ok calls) c.(clock) c.(queue) = Ok (tt, q') /\
    queued (mkConfig q' c.(clock) (c.(added) ++ (of_call <$> calls)) (c.(sent) ++ taken ok c)).
Proof.
  intros Q Hw Ha. destruct (due_head c Q) as (d & rest & Hl & Hd); [by right|].
  assert (Hev : (queue c).(sendEvent) = None).
  { destruct (sendEvent (queue c)) as [w|] eqn:E; [|done].
    destruct (qd_rest _ Q) as [He _]. destruct (He w E). congruence. }
  pose proof (sendDeferredPacket_ok c.(clock) ok calls c.(queue) d rest Hev Hl) as A.
  unfold trips in A. rewrite Hw, andb_false_r in A. rewrite <- Hl in A.
  destruct A as (q' & R & A & L); [apply (ordered_app_r _ _ (qd_ordered _ Q))|done|apply Q|done|].
  exists q'. split; [|by eapply queued_send]. unfold retry. by rewrite gets_run, assert_bind_run, Hw.
Qed.

Lemma add_packet_ok c p w snoop :
  queued c -> c.(clock) < w < MaxTick ->
  exists q', schedSendTiming c.(clock) p w snoop c.(queue) = Ok (tt, q') /\
    queued (mkConfig q' c.(clock) (c.(added) ++ [mkDeferred w p snoop]) c.(sent)).
Proof.
  intros Q Hw. destruct (qd_rest _ Q) as [He Hr].
  assert (Ho : ordered (transmitList (queue c))) by (eapply ordered_app_r, (qd_ordered _ Q)).
  destruct (schedSendTiming_ok c.(queue) c.(clock) p w snoop) as (q' & R & L & (K & _) & E & S);
    [done|done|lia|].
  exists q'. split; [done|].
  assert (Hline : line (mkConfig q' c.(clock) (c.(added) ++ [mkDeferred w p snoop]) c.(sent))
                  = insert_sorted (mkDeferred w p snoop) (line c)).
  { unfold line. simpl. rewrite L, insert_sorted_app; [done|]. apply sent_before; [done|simpl; lia]. }
  constructor; rewrite ?Hline.
  - split; [done|]. simpl. rewrite K. destruct (waitingOnRetry (queue c)).
    + destruct Hr as (d & r & Hl & Hd). rewrite L, Hl. simpl.
      destruct (Z.leb_spec (tick d) w); [eauto|lia].
    + intros _. apply S; [done|]. destruct (transmitList (queue c)); auto.
  - apply insert_sorted_ordered, Q.
  - intros t. rewrite insert_sorted_at_time by apply Q. cbn [added].
    by rewrite (qd_stable _ Q), at_time_app.
  - apply Q.
  - simpl. rewrite L. apply insert_sorted_Forall; [simpl; lia|apply Q].
Qed.

Lemma drain_queue_ok c de :
  queued c -> exists n q', drain de c.(queue) = Ok (n, q') /\
    queued (mkConfig q' c.(clock) c.(added) c.(sent)).
Proof.
  intros Q. unfold drain. destruct c as [[l ev d wt pr] now ad se]. simpl in *.
  unfold get, scheduled, gets, mbind, M_bind. simpl.
  assert (Q' : queued (mkConfig (mkPQ l ev (Some de) wt pr) now ad se)) by (destruct Q; by constructor).
  destruct l; [destruct ev|]; simpl; eauto.
Qed.

Lemma queued_step c c' : queued c -> pstep c c' -> queued c'.
Proof.
  intros Q H. destruct H as [c p w snoop q' Hw R|c ok calls q' Hs Ha R|c ok calls q' Hw Ha R
                            |c de n q' R|c t Ht Hw].
  - destruct (add_packet_ok c p w snoop Q Hw) as (q'' & R' & ?). rewrite R in R'. injection R' as <-. done.
  - pose proof (fire_ok c ok calls Q Hs Ha) as F. cbv zeta in F. rewrite R in F.
    destruct (negb ok && _); [done|]. by destruct F as (q'' & [= <-] & ?).
  - destruct (retry_ok c ok calls Q Hw Ha) as (q'' & R' & ?). rewrite R in R'. injection R' as <-. done.
  - destruct (drain_queue_ok c de Q) as (n' & q'' & R' & ?). rewrite R in R'. injection R' as <- <-. done.
  - destruct Q as [Hr ? ? Hsent ?]. constructor; try done.
    + by eapply at_rest_wait.
    + simpl. eapply Forall_impl; [exact Hsent|]. intros x Hx. simpl in *. lia.
Qed.

Lemma queued_initial t : queued (initial t).
Proof. constructor; [split; [by intros w|by simpl]|constructor|done|constructor|constructor]. Qed.

Lemma queued_reachable t c : rtc pstep (initial t) c -> queued c.
Proof. apply rtc_ind_r; [apply queued_initial|]. intros; by eapply queued_step. Qed.

(** ** Theorems *)

(** C16: packets leave a packet queue in the order of their times, those for
    the same time in the order in which they were added, none is lost or sent
    twice, and none before its time, whatever the other side does: in every
    reachable state the packets sent, followed by those still queued, are
    ordered by time and agree for every time with the packets added for it. *)
Theorem packets_leave_in_order t c :
  rtc pstep (initial t) c ->
  ordered (line c) /\ (forall when, at_time when (line c) = at_time when c.(added)) /\
  Forall (fun x => x.2.(tick) <= x.1 <= c.(clock)) c.(sent).
Proof. intros Q%queued_reachable. split_and!; apply Q. Qed.

(** C17: a packet queue does not get stuck, and exactly one behaviour of the
    other side trips an assertion.  In every reachable state a queue with
    packets waits for a retry with a packet that is due, or its event is
    scheduled for the time of the first packet (at most one tick later when
    that has passed).  Adding a packet for a later tick completes.  When the other side is
    offered the first packet, adds any packets and takes or refuses it, a
    retry completes; the send event completes too, unless the other side
    refuses after adding a packet that goes before all that are left: then
    [assert(!sendEvent.scheduled())] fails, the new packet's event having been
    scheduled while the queue did not know it would wait. *)
Theorem packet_queue_progress t c :
  rtc pstep (initial t) c ->
  at_rest c.(clock) c.(queue) /\
  (forall p w snoop, c.(clock) < w < MaxTick ->
     exists c', schedSendTiming c.(clock) p w snoop c.(queue) = Ok (tt, c')) /\
  (forall ok calls, admissible c.(clock) calls ->
     (c.(queue).(sendEvent) = Some c.(clock) ->
        let run := processSendEvent (react c.(clock) ok calls) c.(clock)
                     (c.(queue) <| sendEvent := None |>) in
        if negb ok && takes_front calls (tail c.(queue).(transmitList))
        then run = Err (AssertFail "!sendEvent.scheduled()")
        else exists q', run = Ok (tt, q')) /\
     (c.(queue).(waitingOnRetry) = true ->
        exists q', retry (react c.(clock) ok calls) c.(clock) c.(queue) = Ok (tt, q'))).
Proof.
  intros Q%queued_reachable. split; [apply Q|]. split.
  - intros p w snoop Hw. destruct (add_packet_ok c p w snoop Q Hw) as (q' & ? & _). eauto.
  - intros ok calls Ha. split; intros H.
    + pose proof (fire_ok c ok calls Q H Ha) as F. cbv zeta in *.
      destruct (negb ok && _); [done|]. destruct F as (q' & ? & _). eauto.
    + destruct (retry_ok c ok calls Q H Ha) as (q' & ? & _). eauto.
Qed.
End PacketQueueSpec.

(** * Functional accesses to queued packets

    A functional request visits the packets of a queue in order: a write
    updates the data of every packet it overlaps, a read is pieced together
    from them.  [buffered] says that a packet has a buffer of its size. *)
Module PacketQueueFunctional.
Import Packet PacketSpec PacketQueue.

Record buffered (p : Packet) (buf : list Z) : Prop := {
  bu_valid : isSet p.(flags) VALID_ADDR = true /\ isSet p.(flags) VALID_SIZE = true;
  bu_data : p.(data) = Some buf;
  bu_owned : isSet p.(flags) (Z.lor STATIC_DATA DYNAMIC_DATA) = true;
  bu_length : Z.of_nat (length buf) = p.(size);
  bu_size : 0 < p.(size) < 2 ^ 16;
  bu_addr : 0 <= p.(addr) /\ p.(addr) + p.(size) < 2 ^ 64
}.

Definition overlapping (p other : Packet) : Prop :=
  p.(addr) < other.(addr) + other.(size) /\ other.(addr) < p.(addr) + p.(size).

Lemma buffered_meets p buf other vbuf :
  buffered p buf -> buffered other vbuf -> overlapping p other ->
  meets p buf other.(addr) other.(size) vbuf.
Proof. intros [] [] []. constructor; auto; lia. Qed.

(** A packet of a queue: its address and size are set, and it has a buffer if
    its command carries data. *)
Definition wellformed (p : Packet) : Prop :=
  if hasData p then exists buf, buffered p buf
  else isSet p.(flags) VALID_ADDR = true /\ isSet p.(flags) VALID_SIZE = true /\
       0 < p.(size) < 2 ^ 16 /\ 0 <= p.(addr) /\ p.(addr) + p.(size) < 2 ^ 64.

(** The byte of a packet's data at an address. *)
Definition carries (p : Packet) (a b : Z) : Prop :=
  hasData p = true /\ exists buf, p.(data) = Some buf /\ byte_at buf (a - p.(addr)) = Some b.

Lemma wellformed_geometry p :
  wellformed p -> isSet p.(flags) VALID_ADDR = true /\ isSet p.(flags) VALID_SIZE = true /\
    0 < p.(size) < 2 ^ 16 /\ 0 <= p.(addr) /\ p.(addr) + p.(size) < 2 ^ 64.
Proof. unfold wellformed. destruct (hasData p); [|done]. intros [buf [[]]]. done. Qed.

(** A packet with its own data again. *)
Lemma same_data p d : p.(data) = d -> p <| data := d |> = p.
Proof. intros <-. by destruct p. Qed.

(** The two overlap in the comparison of the code exactly when they do. *)
Lemma code_overlap p other :
  wellformed p -> wellformed other ->
  (u64 (other.(addr) + other.(size) - 1) <? p.(addr)) ||
  (u64 (p.(addr) + p.(size) - 1) <? other.(addr)) = false <-> overlapping p other.
Proof.
  intros Wp%wellformed_geometry Wo%wellformed_geometry. unfold overlapping.
  rewrite !u64_small by (unfold is_u64; lia). rewrite orb_false_iff, !Z.ltb_ge. lia.
Qed.

Section request.
Context (fresh : Z -> list Z).

(** A packet that the request does not overlap, or that has no data, changes
    nothing and completes nothing. *)
Lemma checkFunctionalPacket_skip p buf other :
  buffered p buf -> wellformed p -> wellformed other -> isPrint p = false ->
  ~ (overlapping p other /\ hasData other = true) ->
  checkFunctionalPacket fresh p other = Ok (false, p, other).
Proof.
  intros B Wp Wo Hp Hn. pose proof (wellformed_geometry _ Wp) as (Va & Vs & _).
  pose proof (wellformed_geometry _ Wo) as (Va' & Vs' & Hs & _).
  unfold checkFunctionalPacket, checkFunctional.
  assert (exists v, (if hasData other then getPtr other false else Ok None) = Ok v /\
            (if hasData other then other.(data) = v else v = None)) as (v & -> & Hv).
  { unfold wellformed in Wo. destruct (hasData other); [|eauto].
    destruct Wo as [b [? D O]]. exists (Some b). split; [by apply getPtr_ok|done]. }
  cbn [mbind result_bind]. rewrite !getAddr_ok, !getSize_ok by done. cbn [mbind result_bind].
  rewrite i32_small by (unfold is_i32; lia).
  destruct (_ || _) eqn:E; cbn [mbind result_bind].
  - destruct (hasData other); [by rewrite same_data|done].
  - apply code_overlap in E; [|done..]. rewrite Hp.
    destruct (hasData other); [exfalso; by apply Hn|]. by rewrite Hv.
Qed.

(** What a request does to an overlapping packet with data. *)
Lemma checkFunctionalPacket_write p buf other vbuf :
  buffered p buf -> wellformed p -> buffered other vbuf -> hasData other = true ->
  overlapping p other -> isPrint p = false -> isRead p = false -> isWrite p = true ->
  exists vbuf', checkFunctionalPacket fresh p other = Ok (false, p, other <| data := Some vbuf' |>) /\
    length vbuf' = length vbuf /\
    forall j, 0 <= j < other.(size) ->
      byte_at vbuf' j = match written p buf (other.(addr) + j) with
                        | Some b => Some b | None => byte_at vbuf j end.
Proof.
  intros Bp Wp Bo Hd Hov Hp Hr Hw. pose proof (buffered_meets _ _ _ _ Bp Bo Hov) as M.
  destruct (functional_write_ok p buf _ _ _ M) as (v' & R & L & B).
  exists v'. split; [|done].
  destruct Bp as [[Va Vs] D O Hl Hs Ha], Bo as [[Va' Vs'] D' O' Hl' Hs' Ha'].
  assert (Wo : wellformed other) by (unfold wellformed; rewrite Hd; exists vbuf; by constructor).
  unfold checkFunctionalPacket, checkFunctional.
  rewrite Hd, (getPtr_ok other vbuf) by done. cbn [mbind result_bind].
  rewrite !getAddr_ok, !getSize_ok by done. cbn [mbind result_bind].
  rewrite (i32_small (size other)) by (unfold is_i32; lia).
  rewrite (proj2 (code_overlap p other Wp Wo) Hov), Hp, Hr, Hw.
  rewrite !(u64_small (_ - 1)) by (unfold is_u64; lia). rewrite R. done.
Qed.

Lemma checkFunctionalPacket_read good p buf other vbuf :
  buffered p buf -> wellformed p -> buffered other vbuf -> hasData other = true ->
  overlapping p other -> isPrint p = false -> isRead p = true ->
  found_good good p buf -> (forall a b, carries other a b -> good a b) ->
  rwp discontiguous (checkFunctionalPacket fresh p other) (fun '(done, p', other') =>
    other' = other /\ exists buf' s e, p' = refilled p buf' s e /\
      Z.of_nat (length buf') = p.(size) /\ found_good good p' buf' /\
      (done = true -> forall i, 0 <= i < p.(size) -> good_byte good p buf' i)).
Proof.
  intros Bp Wp Bo Hd Hov Hp Hr Hf Hg. pose proof (buffered_meets _ _ _ _ Bp Bo Hov) as M.
  assert (Wo : wellformed other) by (unfold wellformed; rewrite Hd; by exists vbuf).
  destruct Bp as [[Va Vs] D O Hl Hs Ha], Bo as [[Va' Vs'] D' O' Hl' Hs' Ha'].
  assert (G : good_value good other.(addr) other.(size) vbuf).
  { intros j Hj. destruct (byte_at_inside vbuf j) as [b Hb]; [lia|]. exists b. split; [done|].
    apply Hg. split; [done|]. exists vbuf. split; [done|]. rewrite <- Hb. f_equal. lia. }
  pose proof (functional_read_ok good fresh p buf _ _ _ M G Hf) as R.
  unfold checkFunctionalPacket, checkFunctional.
  rewrite Hd, (getPtr_ok other vbuf) by done. cbn [mbind result_bind].
  rewrite !getAddr_ok, !getSize_ok by done. cbn [mbind result_bind].
  rewrite (i32_small (size other)) by (unfold is_i32; lia).
  rewrite (proj2 (code_overlap p other Wp Wo) Hov), Hp, Hr.
  rewrite !(u64_small (_ - 1)) by (unfold is_u64; lia).
  destruct (functional_read _ _ _ _ _ _ _ _) as [[dn p']|e]; [|exact R].
  cbn [mbind result_bind rwp]. split; [by apply same_data|exact R].
Qed.

(** ** All packets of a queue *)

Lemma buffered_refilled p buf buf' s e :
  buffered p buf -> Z.of_nat (length buf') = p.(size) -> buffered (refilled p buf' s e) buf'.
Proof. intros [] L. by constructor. Qed.

Lemma wellformed_refilled p buf buf' s e :
  buffered p buf -> Z.of_nat (length buf') = p.(size) -> wellformed p ->
  wellformed (refilled p buf' s e).
Proof.
  intros B L W. unfold wellformed in *. change (hasData (refilled p buf' s e)) with (hasData p).
  destruct (hasData p); [|exact W]. exists buf'. by eapply buffered_refilled.
Qed.

Lemma refilled_twice p b s e b' s' e' :
  refilled (refilled p b s e) b' s' e' = refilled p b' s' e'.
Proof. done. Qed.

Lemma check_packets_read good ids store p buf :
  (forall i, i ∈ ids -> exists other, store !! i = Some other /\ wellformed other /\
     forall a b, carries other a b -> good a b) ->
  buffered p buf -> wellformed p -> isPrint p = false -> isRead p = true ->
  found_good good p buf ->
  rwp discontiguous (check_packets fresh ids p store) (fun '(found, p', store') =>
    store' = store /\ exists buf' s e, p' = refilled p buf' s e /\
      (found = true -> forall i, 0 <= i < p.(size) -> good_byte good p buf' i)).
Proof.
  intros Hids. revert p buf. induction ids as [|i ids IH]; intros p buf B W Hp Hr Hf.
  - split; [done|]. exists buf, p.(bytesValidStart), p.(bytesValidEnd).
    split; [|done]. apply refilled_self, B.
  - destruct (Hids i) as (other & Hi & Wo & Hg); [left|]. cbn [check_packets]. rewrite Hi.
    assert (Htl : forall i', i' ∈ ids -> exists o, store !! i' = Some o /\ wellformed o /\
              forall a b, carries o a b -> good a b) by (intros; apply Hids; by right).
    destruct (decide (overlapping p other /\ hasData other = true)) as [[Hov Hd]|Hn].
    + pose proof Wo as Wo'. unfold wellformed in Wo'. rewrite Hd in Wo'. destruct Wo' as [vbuf Bo].
      eapply rwp_bind, rwp_mono; [by eapply checkFunctionalPacket_read|].
      intros [[dn p'] o'] (-> & buf' & s & e & -> & L & F & G). rewrite insert_id by done.
      destruct dn; [hnf; split; [done|]; exists buf', s, e; split; [done|]; auto|].
      eapply rwp_mono; [apply (IH Htl _ buf'); try done;
        [by eapply buffered_refilled|by eapply wellformed_refilled]|].
      intros [[fd p''] st'] (-> & b'' & s'' & e'' & -> & G''). split; [done|].
      exists b'', s'', e''. split; [apply refilled_twice|exact G''].
    + rewrite (checkFunctionalPacket_skip p buf) by done. cbn [mbind result_bind].
      rewrite insert_id by done. by apply (IH Htl _ buf).
Qed.

(** A packet after a functional write: its own bytes, except where the write
    has some. *)
Definition overlaid (p : Packet) (buf : list Z) (other other' : Packet) : Prop :=
  (~ (overlapping p other /\ hasData other = true) -> other' = other) /\
  (overlapping p other /\ hasData other = true ->
     exists vbuf vbuf', other.(data) = Some vbuf /\ other' = other <| data := Some vbuf' |> /\
       length vbuf' = length vbuf /\
       forall j, 0 <= j < other.(size) ->
         byte_at vbuf' j = match written p buf (other.(addr) + j) with
                           | Some b => Some b | None => byte_at vbuf j end).

Lemma checkFunctionalPacket_overlaid p buf other :
  buffered p buf -> wellformed p -> wellformed other -> isPrint p = false ->
  isRead p = false -> isWrite p = true ->
  exists other', checkFunctionalPacket fresh p other = Ok (false, p, other') /\
    overlaid p buf other other'.
Proof.
  intros B W Wo Hp Hr Hw.
  destruct (decide (overlapping p other /\ hasData other = true)) as [[Hov Hd]|Hn].
  - pose proof Wo as Wo'. unfold wellformed in Wo'. rewrite Hd in Wo'. destruct Wo' as [vbuf Bo].
    destruct (checkFunctionalPacket_write p buf other vbuf) as (v' & R & L & Hb); [done..|].
    exists (other <| data := Some v' |>). split; [done|]. split; [intros []; done|].
    intros _. exists vbuf, v'. split_and!; [apply Bo|done..].
  - exists other. split; [by eapply checkFunctionalPacket_skip|]. by split.
Qed.

Lemma check_packets_write ids store p buf :
  NoDup ids -> (forall i, i ∈ ids -> exists other, store !! i = Some other /\ wellformed other) ->
  buffered p buf -> wellformed p -> isPrint p = false -> isRead p = false -> isWrite p = true ->
  exists store', check_packets fresh ids p store = Ok (false, p, store') /\
    (forall i other, i ∈ ids -> store !! i = Some other ->
       exists other', store' !! i = Some other' /\ overlaid p buf other other') /\
    (forall i, i ∉ ids -> store' !! i = store !! i).
Proof.
  intros Hnd Hids B W Hp Hr Hw. revert store Hids.
  induction Hnd as [|i ids Hi _ IH]; intros store Hids.
  - exists store. split_and!; [done| |done]. intros i ? H. by apply elem_of_nil in H.
  - destruct (Hids i) as (other & Ei & Wo); [left|]. cbn [check_packets]. rewrite Ei.
    destruct (checkFunctionalPacket_overlaid p buf other) as (o' & -> & Ho); [done..|].
    cbn [mbind result_bind].
    destruct (IH (<[i := o']> store)) as (st' & -> & I & O).
    { intros j Hj. destruct (Hids j) as (oj & ? & ?); [by right|]. exists oj.
      rewrite lookup_insert_ne by (intros ->; done). done. }
    exists st'. split; [done|]. split.
    + intros j oj Hj Ej. destruct (decide (j = i)) as [->|N].
      * rewrite Ei in Ej. injection Ej as <-. exists o'. split; [|done].
        rewrite O by done. apply lookup_insert_eq.
      * apply elem_of_cons in Hj as [?|Hj]; [done|]. apply I; [done|].
        by rewrite lookup_insert_ne.
    + intros j Hj. apply not_elem_of_cons in Hj as [N Hj]. rewrite O by done.
      by apply lookup_insert_ne.
Qed.

(** ** Theorems *)

(** C19: a functional read that a packet queue answers contains only bytes of
    the queue's packets: when [checkFunctional] says that the request is
    satisfied, every byte of the request's buffer is a byte that some queued
    packet carries at that address, however the packets overlap; the queued
    packets are unchanged, and the only possible failure is the panic about
    discontiguous bytes. *)
Theorem queue_answers_reads q p buf store :
  (forall i, i ∈ pkt <$> q.(transmitList) ->
     exists other, store !! i = Some other /\ wellformed other) ->
  buffered p buf -> wellformed p -> isPrint p = false -> isRead p = true ->
  p.(bytesValidStart) = 0 -> p.(bytesValidEnd) = 0 ->
  rwp discontiguous (checkFunctionalQueue fresh q p store) (fun '(found, p', store') =>
    store' = store /\ exists buf', p'.(data) = Some buf' /\
      (found = true -> forall i, 0 <= i < p.(size) -> exists b, byte_at buf' i = Some b /\
         exists n other, n ∈ pkt <$> q.(transmitList) /\ store !! n = Some other /\
           carries other (p.(addr) + i) b)).
Proof.
  intros Hids B W Hp Hr Hs He. unfold checkFunctionalQueue. rewrite Hp. simpl andb.
  set (good a b := exists n other, n ∈ pkt <$> q.(transmitList) /\ store !! n = Some other /\
                     carries other a b).
  eapply rwp_mono; [apply (check_packets_read good _ _ _ buf); try done|].
  - intros i Hi. destruct (Hids i Hi) as (o & E & Wo). exists o. split_and!; [done..|].
    intros a b Hc. by exists i, o.
  - pose proof (bu_size _ _ B). split_and!; rewrite ?Hs, ?He; try lia.
  - intros [[f p'] st'] (-> & buf' & s & e & -> & G). split; [done|]. exists buf'. split; [done|].
    exact G.
Qed.

(** C18: a functional write reaches every packet of a packet queue: each
    queued packet that carries data has afterwards exactly the written bytes
    at the addresses it shares with the write and its own bytes elsewhere, all
    other packets are unchanged, and the request goes on to the next place. *)
Theorem queue_takes_writes q p buf store :
  NoDup (pkt <$> q.(transmitList)) ->
  (forall i, i ∈ pkt <$> q.(transmitList) ->
     exists other, store !! i = Some other /\ wellformed other) ->
  buffered p buf -> wellformed p -> isPrint p = false -> isRead p = false -> isWrite p = true ->
  exists store', checkFunctionalQueue fresh q p store = Ok (false, p, store') /\
    (forall i other, i ∈ pkt <$> q.(transmitList) -> store !! i = Some other ->
       exists other', store' !! i = Some other' /\ overlaid p buf other other') /\
    (forall i, i ∉ pkt <$> q.(transmitList) -> store' !! i = store !! i).
Proof.
  intros Hnd Hids B W Hp Hr Hw. unfold checkFunctionalQueue. rewrite Hp.
  by apply check_packets_write.
Qed.
End request.
End PacketQueueFunctional.
