(* ===== verification/AbstractMemory.v ===== *)
(** * Physical memory
    (class [AbstractMemory], src/src/mem/abstract_mem.hh and abstract_mem.cc).

    The bytes of a contiguous range of addresses, read and written by packets
    without timing, and the list of addresses that contexts have load-locked.
    The statistics are counters per requestor.  The host is little-endian,
    which a conditional swap can see. *)

From S2P Require Import Prelude.
From S2P Require Import Packet.
Import Packet.

Module AbstractMemory.

Record LockedAddr := mkLocked { la_addr : Z; la_context : Z }.

#[export] Instance LockedAddr_eq_dec : EqDecision LockedAddr.
Proof. solve_decision. Defined.

Record Mem := mkMem {
  range_start : Z;
  range_end : Z;
  pmemAddr : option (list Z);              (* [None] for a memory without storage *)
  lockedAddrList : list LockedAddr;
  bytesRead : gmap Z Z;
  bytesInstRead : gmap Z Z;
  bytesWritten : gmap Z Z;
  numReads : gmap Z Z;
  numWrites : gmap Z Z;
  numOther : gmap Z Z
}.
#[global] Instance Mem_eta : Settable Mem := fun m =>
  mkMem m.(range_start) m.(range_end) m.(pmemAddr) m.(lockedAddrList) m.(bytesRead)
    m.(bytesInstRead) m.(bytesWritten) m.(numReads) m.(numWrites) m.(numOther).

(** [Stats::Vector]: [v[k] += n]. *)
Definition count (k n : Z) (v : gmap Z Z) : gmap Z Z := <[k := default 0 (v !! k) + n]> v.

(** ** Locked addresses *)
Definition Addr_Mask : Z := 0xf.
Definition mask (a : Z) : Z := Z.ldiff a Addr_Mask.

(** The loop of [trackLoadLocked]: the first record of the context is
    updated; [None] if there is none. *)
Fixpoint update_lock (ctx a : Z) (l : list LockedAddr) : option (list LockedAddr) :=
  match l with
  | [] => None
  | i :: l =>
      if i.(la_context) =? ctx then Some (mkLocked a ctx :: l)
      else cons i <$> update_lock ctx a l
  end.

Definition trackLoadLocked (p : Packet) (m : Mem) : result Mem :=
  pa ← getPaddr p.(req);
  let a := mask pa in
  ctx ← getContextId p.(req);
  let l := m.(lockedAddrList) in
  Ok (m <| lockedAddrList := default (mkLocked a ctx :: l) (update_lock ctx a l) |>).

(** The loop of [checkLockedAddrList]: records of the address are erased; the
    result says whether one was the context's, which is asked for only when
    the packet is a store conditional. *)
Fixpoint erase_locks (llsc : bool) (ctx : result Z) (a : Z) (l : list LockedAddr) (success : bool)
  : result (bool * list LockedAddr) :=
  match l with
  | [] => Ok (success, [])
  | i :: l =>
      if i.(la_addr) =? a
      then
        s ← (if llsc then c ← ctx; Ok (success || (i.(la_context) =? c)) else Ok success);
        erase_locks llsc ctx a l s
      else
        '(s, l') ← erase_locks llsc ctx a l success;
        Ok (s, i :: l')
  end.

Definition checkLockedAddrList (p : Packet) (m : Mem) : result (bool * Packet * Mem) :=
  pa ← getPaddr p.(req);
  let llsc := isLLSC p in
  '(success, l') ← erase_locks llsc (getContextId p.(req)) (mask pa) m.(lockedAddrList) (negb llsc);
  let p := if llsc then p <| req ::= (fun r => setExtraData r (if success : bool then 1 else 0)) |>
           else p in
  Ok (success, p, m <| lockedAddrList := l' |>).

Definition writeOK (p : Packet) (m : Mem) : result (bool * Packet * Mem) :=
  match m.(lockedAddrList) with
  | [] =>
      let llsc := isLLSC p in
      Ok (negb llsc, if llsc then p <| req ::= (fun r => setExtraData r 0) |> else p, m)
  | _ => checkLockedAddrList p m
  end.

(** ** Accesses *)

(** A value in memory, least significant byte first. *)
Fixpoint le_bytes (n : nat) (v : Z) : list Z :=
  match n with O => [] | S n => v mod 256 :: le_bytes n (v / 256) end.

Definition in_range (p : Packet) (m : Mem) : result unit :=
  a ← getAddr p;
  n ← getSize p;
  check ((m.(range_start) <=? a) && (u64 (a + n - 1) <=? m.(range_end))) "address in range".

(** [memcpy] from memory to the packet and back, when there is storage. *)
Definition read_memory (p : Packet) (m : Mem) : result Packet :=
  match m.(pmemAddr) with
  | None => Ok p
  | Some bytes =>
      buf0 ← getPtr p false;
      buf ← deref buf0;
      buf' ← memcpy buf 0 bytes (p.(addr) - m.(range_start)) p.(size);
      Ok (p <| data := Some buf' |>)
  end.

Definition write_memory (p : Packet) (m : Mem) : result Mem :=
  match m.(pmemAddr) with
  | None => Ok m
  | Some bytes =>
      buf0 ← getPtr p false;
      buf ← deref buf0;
      bytes' ← memcpy bytes (p.(addr) - m.(range_start)) buf 0 p.(size);
      Ok (m <| pmemAddr := Some bytes' |>)
  end.

(** The conditional part of a swap: the first bytes of memory against the
    expected value. *)
Definition swap_condition (p : Packet) (bytes : list Z) (off : Z) : result bool :=
  if isCondSwap p.(req)
  then if p.(size) =? 8
       then v ← getExtraData p.(req); Ok (bool_decide (slice bytes off 8 = le_bytes 8 v))
       else if p.(size) =? 4
       then v ← getExtraData p.(req); Ok (bool_decide (slice bytes off 4 = le_bytes 4 (u32 v)))
       else Err (Panic "Invalid size for conditional read/write")
  else Ok true.

Definition swap (p : Packet) (m : Mem) : result (Packet * Mem) :=
  match m.(pmemAddr) with
  | None => Err (Panic "Swap only works if there is real memory (i.e. null=False)")
  | Some bytes =>
      _ ← check (p.(size) <=? 8) "sizeof(IntReg) >= getSize()";
      buf0 ← getPtr p false;
      buf ← deref buf0;
      let off := p.(addr) - m.(range_start) in
      overwrite_val ← memcpy (replicate (Z.to_nat p.(size)) 0) 0 buf 0 p.(size);
      buf' ← memcpy buf 0 bytes off p.(size);
      overwrite_mem ← swap_condition p bytes off;
      bytes' ← (if overwrite_mem : bool then memcpy bytes off overwrite_val 0 p.(size) else Ok bytes);
      _ ← check (negb (isInstFetch p.(req))) "!isInstFetch()";
      Ok (p <| data := Some buf' |>,
          m <| pmemAddr := Some bytes' |> <| numOther ::= count p.(req).(masterId) 1 |>)
  end.

Definition access (p : Packet) (m : Mem) : result (Packet * Mem) :=
  _ ← in_range p m;
  if memInhibitAsserted p then Ok (p, m)
  else
    '(p, m) ←
      (if bool_decide (p.(cmd) = SwapReq) then swap p m
       else if isRead p
       then
         _ ← check (negb (isWrite p)) "!isWrite()";
         m ← (if isLLSC p then trackLoadLocked p m else Ok m);
         p ← read_memory p m;
         let mid := p.(req).(masterId) in
         Ok (p, m <| numReads ::= count mid 1 |> <| bytesRead ::= count mid p.(size) |>
                  <| bytesInstRead ::= (if isInstFetch p.(req) then count mid p.(size) else id) |>)
       else if isWrite p
       then
         '(ok, p, m) ← writeOK p m;
         if (ok : bool)
         then
           m ← write_memory p m;
           _ ← check (negb (isInstFetch p.(req))) "!isInstFetch()";
           let mid := p.(req).(masterId) in
           Ok (p, m <| numWrites ::= count mid 1 |> <| bytesWritten ::= count mid p.(size) |>)
         else Ok (p, m)
       else if isInvalidate p then Ok (p, m)
       else Err (Panic "unimplemented"));
    if needsResponse p
    then p ← makeResponse p; Ok (p, m)
    else Ok (p, m).

Definition functionalAccess (p : Packet) (m : Mem) : result (Packet * Mem) :=
  _ ← in_range p m;
  if isRead p
  then p ← read_memory p m; p ← makeResponse p; Ok (p, m)
  else if isWrite p
  then m ← write_memory p m; p ← makeResponse p; Ok (p, m)
  else if isPrint p
  then match p.(senderState) with
       | PrintReqState => Ok (p, m)
       | _ => Err (AssertFail "prs")
       end
  else Err (Panic "AbstractMemory: unimplemented functional command").

End AbstractMemory.
