(* ===== verification/AbstractMemorySpec.v ===== *)
(** * Physical memory: what accesses do

    The bytes that reads and writes move, and load-locked and store
    conditional: the list of locked addresses holds one reservation per
    context, and a store conditional succeeds exactly when no write and no
    other store conditional has gone to the address since the context's last
    load-locked; a swap writes memory without ending reservations. *)

From S2P Require Import Prelude.
From S2P Require Import Packet.
From S2P Require Import PacketSpec.
From S2P Require Import PacketQueueSpec.
From S2P Require Import AbstractMemory.
Import Packet PacketSpec PacketQueueFunctional AbstractMemory.

Module AbstractMemorySpec.

(** ** Reservations *)
Fixpoint reserved (ctx : Z) (l : list LockedAddr) : option Z :=
  match l with
  | [] => None
  | i :: l => if i.(la_context) =? ctx then Some i.(la_addr) else reserved ctx l
  end.

Definition contexts (l : list LockedAddr) : list Z := la_context <$> l.

Lemma reserved_elem ctx l : is_Some (reserved ctx l) <-> ctx ∈ contexts l.
Proof.
  induction l as [|i l IH]; simpl; [split; [by intros []|by intros ?%elem_of_nil]|].
  rewrite elem_of_cons, <- IH. destruct (Z.eqb_spec (la_context i) ctx); naive_solver.
Qed.

Lemma update_lock_Some ctx a l l' :
  update_lock ctx a l = Some l' ->
  contexts l' = contexts l /\
  forall c, reserved c l' = if c =? ctx then Some a else reserved c l.
Proof.
  revert l'. induction l as [|i l IH]; simpl; [done|]. intros l'.
  destruct (Z.eqb_spec (la_context i) ctx) as [E|N].
  - intros [= <-]. split; [by simpl; rewrite E|]. intros c. simpl. rewrite E, (Z.eqb_sym ctx).
    by destruct (c =? ctx).
  - destruct (update_lock ctx a l) as [k|]; [|done]. intros [= <-].
    destruct (IH k eq_refl) as [H1 H2]. split; [by simpl; f_equal|]. intros c. simpl. rewrite H2.
    destruct (Z.eqb_spec (la_context i) c), (Z.eqb_spec c ctx); congruence.
Qed.

Lemma update_lock_None ctx a l : update_lock ctx a l = None -> ctx ∉ contexts l.
Proof.
  induction l as [|i l IH]; simpl; [intros _ ?%elem_of_nil; done|].
  destruct (Z.eqb_spec (la_context i) ctx) as [E|N]; [done|].
  intros H%fmap_None. rewrite not_elem_of_cons. split; [congruence|auto].
Qed.

(** Setting the reservation of a context. *)
Lemma update_lock_spec ctx a l :
  NoDup (contexts l) ->
  let l' := default (mkLocked a ctx :: l) (update_lock ctx a l) in
  NoDup (contexts l') /\ forall c, reserved c l' = if c =? ctx then Some a else reserved c l.
Proof.
  intros Hn. simpl. destruct (update_lock ctx a l) as [l'|] eqn:E; simpl.
  - apply update_lock_Some in E as [-> ?]. done.
  - apply update_lock_None in E. split; [by constructor|]. intros c. by rewrite Z.eqb_sym.
Qed.

Definition other_address (a : Z) (i : LockedAddr) : bool := negb (i.(la_addr) =? a).

Lemma erase_locks_spec llsc ctx a l s :
  NoDup (contexts l) ->
  erase_locks llsc (Ok ctx) a l s =
  Ok (s || (llsc && bool_decide (reserved ctx l = Some a)), filter (fun i => other_address a i) l).
Proof.
  revert s. induction l as [|i l IH]; intros s Hn; simpl.
  - by rewrite andb_false_r, orb_false_r.
  - inversion_clear Hn as [|? ? Hi Hn'].
    assert (Hr : reserved (la_context i) l = None).
    { destruct (reserved (la_context i) l) eqn:E; [|done]. exfalso. apply Hi, reserved_elem. by eexists. }
    destruct (Z.eqb_spec (la_addr i) a) as [E|N].
    + rewrite filter_cons_False by (unfold other_address; rewrite E, Z.eqb_refl; auto).
      destruct llsc; cbn [mbind result_bind]; rewrite IH by done; simpl; [|done].
      do 2 f_equal. destruct (Z.eqb_spec (la_context i) ctx) as [<-|]; [|by rewrite orb_false_r].
      rewrite Hr, E. rewrite bool_decide_eq_false_2, bool_decide_eq_true_2 by done.
      by rewrite orb_false_r.
    + rewrite filter_cons_True
        by (unfold other_address; rewrite (proj2 (Z.eqb_neq _ _)) by done; done).
      rewrite IH by done. cbn [mbind result_bind]. do 3 f_equal.
      destruct (Z.eqb_spec (la_context i) ctx) as [<-|]; [|done].
      by rewrite Hr, !bool_decide_eq_false_2 by congruence.
Qed.

(** Erasing the reservations of an address. *)
Lemma reserved_filter a l c :
  NoDup (contexts l) ->
  reserved c (filter (fun i => other_address a i) l) =
  if bool_decide (reserved c l = Some a) then None else reserved c l.
Proof.
  induction l as [|i l IH]; intros Hn; simpl; [done|].
  inversion_clear Hn as [|? ? Hi Hn'].
  assert (Hr : la_context i = c -> reserved c l = None).
  { intros <-. destruct (reserved (la_context i) l) eqn:E; [|done].
    exfalso. apply Hi, reserved_elem. by eexists. }
  destruct (Z.eqb_spec (la_addr i) a) as [E|N].
  - rewrite filter_cons_False by (unfold other_address; rewrite E, Z.eqb_refl; auto).
    rewrite IH by done. destruct (Z.eqb_spec (la_context i) c) as [Ec|]; [|done].
    rewrite Hr, E by done. by rewrite bool_decide_eq_false_2, bool_decide_eq_true_2.
  - rewrite filter_cons_True
      by (unfold other_address; rewrite (proj2 (Z.eqb_neq _ _)) by done; done).
    simpl. destruct (Z.eqb_spec (la_context i) c) as [Ec|]; [|by apply IH].
    by rewrite bool_decide_eq_false_2 by congruence.
Qed.

Lemma NoDup_contexts_filter a l :
  NoDup (contexts l) -> NoDup (contexts (filter (fun i => other_address a i) l)).
Proof.
  unfold contexts. induction l as [|i l IH]; [done|]. rewrite fmap_cons.
  intros [Hi Hn]%NoDup_cons. rewrite filter_cons. destruct (decide _); [|by apply IH].
  rewrite fmap_cons. constructor; [|by apply IH].
  rewrite list_elem_of_fmap. intros (j & E & Hj). apply list_elem_of_filter in Hj as [_ Hj].
  apply Hi. rewrite E. by apply list_elem_of_fmap_2.
Qed.

(** ** Bytes *)

(** The memory has storage for its range. *)
Definition stored (m : Mem) : Prop :=
  0 <= m.(range_start) /\ m.(range_end) < 2 ^ 64 /\
  exists bytes, m.(pmemAddr) = Some bytes /\
    Z.of_nat (length bytes) = m.(range_end) - m.(range_start) + 1.

Definition mem_byte (m : Mem) (a : Z) : option Z :=
  match m.(pmemAddr) with Some bytes => byte_at bytes (a - m.(range_start)) | None => None end.

(** The packet lies in the memory's range. *)
Definition inside (p : Packet) (m : Mem) : Prop :=
  m.(range_start) <= p.(addr) /\ p.(addr) + p.(size) - 1 <= m.(range_end).

Lemma in_range_ok p buf m : buffered p buf -> inside p m -> in_range p m = Ok tt.
Proof.
  intros [[Va Vs] D O Hl Hs Ha] [H1 H2]. unfold in_range.
  rewrite getAddr_ok, getSize_ok by done. cbn [mbind result_bind].
  rewrite u64_small by (unfold is_u64; lia). unfold check.
  destruct (Z.leb_spec (range_start m) (addr p)), (Z.leb_spec (addr p + size p - 1) (range_end m));
    [done|lia..].
Qed.

Lemma read_memory_ok p buf m :
  buffered p buf -> inside p m -> stored m ->
  exists buf', read_memory p m = Ok (p <| data := Some buf' |>) /\ length buf' = length buf /\
    forall i, 0 <= i < p.(size) -> byte_at buf' i = mem_byte m (p.(addr) + i).
Proof.
  intros [[Va Vs] D O Hl Hs Ha] [H1 H2] (_ & _ & bytes & E & L). unfold read_memory, mem_byte. rewrite E.
  rewrite (getPtr_ok p buf) by done. cbn [mbind result_bind deref].
  destruct (memcpy_ok buf 0 bytes (addr p - range_start m) (size p)) as (b' & -> & Hlen & B); [lia..|].
  exists b'. split_and!; [done..|]. intros i Hi. rewrite B by lia.
  destruct (Z.leb_spec 0 i), (Z.ltb_spec i (0 + size p)); try lia. simpl. f_equal. lia.
Qed.

Lemma write_memory_ok p buf m :
  buffered p buf -> inside p m -> stored m ->
  exists bytes', write_memory p m = Ok (m <| pmemAddr := Some bytes' |>) /\
    stored (m <| pmemAddr := Some bytes' |>) /\
    forall a, m.(range_start) <= a -> byte_at bytes' (a - m.(range_start)) =
      match written p buf a with Some b => Some b | None => mem_byte m a end.
Proof.
  intros [[Va Vs] D O Hl Hs Ha] [H1 H2] (S1 & S2 & bytes & E & L).
  unfold write_memory, mem_byte. rewrite E, (getPtr_ok p buf) by done. cbn [mbind result_bind deref].
  destruct (memcpy_ok bytes (addr p - range_start m) buf 0 (size p)) as (b' & -> & Hlen & B); [lia..|].
  exists b'. split; [done|]. split; [split_and!; [done..|exists b'; split; [done|simpl; lia]]|].
  intros a Hge. rewrite B by lia.
  rewrite (overlay_byte p buf (range_start m) bytes _ 0 _ (a - range_start m)) by lia.
  by replace (range_start m + (a - range_start m)) with a by lia.
Qed.

(** ** Accesses *)

(** The packet is a request for this memory: it has a buffer, lies in the
    range, is not suppressed, and its request names address and context. *)
Record request_for (p : Packet) (buf : list Z) (m : Mem) (pa ctx : Z) : Prop := {
  rf_buffer : buffered p buf;
  rf_inside : inside p m;
  rf_active : memInhibitAsserted p = false;
  rf_paddr : p.(req).(paddr) = Some pa;
  rf_context : p.(req).(contextId) = Some ctx;
  rf_asks : isRequest p = true /\ needsResponse p = true
}.

(** The lists and bytes of two memories agree. *)
Definition same_bytes (m m' : Mem) : Prop :=
  m'.(pmemAddr) = m.(pmemAddr) /\ m'.(range_start) = m.(range_start) /\
  m'.(range_end) = m.(range_end).

Lemma makeResponse_ok p :
  isRequest p = true -> needsResponse p = true ->
  exists p', makeResponse p = Ok p' /\ p'.(cmd) = responseCommand p.(cmd) /\ p'.(data) = p.(data) /\
    p'.(req) = p.(req) /\ p'.(senderState) = p.(senderState).
Proof.
  intros Hr Hn. unfold makeResponse, check. rewrite Hr, Hn. eexists. by split_and!.
Qed.

(** A read of physical memory returns the bytes of memory and turns the
    packet into the response; memory is unchanged, and a load-locked sets the
    reservation of its context to the 16-byte granule of its address and
    leaves the other contexts' alone. *)
Lemma access_reads p buf m pa ctx :
  request_for p buf m pa ctx -> stored m -> NoDup (contexts m.(lockedAddrList)) ->
  isRead p = true -> isWrite p = false ->
  exists p' m' buf', access p m = Ok (p', m') /\ p'.(cmd) = responseCommand p.(cmd) /\
    p'.(data) = Some buf' /\
    (forall i, 0 <= i < p.(size) -> byte_at buf' i = mem_byte m (p.(addr) + i)) /\
    same_bytes m m' /\ NoDup (contexts m'.(lockedAddrList)) /\
    forall c, reserved c m'.(lockedAddrList) =
      if isLLSC p && (c =? ctx) then Some (mask pa) else reserved c m.(lockedAddrList).
Proof.
  intros [B I A Pa Cx [Rq Nr]] St Hn Hr Hw.
  assert (Hswap : bool_decide (cmd p = SwapReq) = false).
  { apply bool_decide_eq_false_2. intros E. unfold isWrite in Hw. by rewrite E in Hw. }
  set (l1 := default (mkLocked (mask pa) ctx :: lockedAddrList m)
               (update_lock ctx (mask pa) (lockedAddrList m))).
  set (m1 := if isLLSC p then m <| lockedAddrList := l1 |> else m).
  assert (Hm1 : (if isLLSC p then trackLoadLocked p m else Ok m) = Ok m1).
  { unfold m1, trackLoadLocked, getPaddr, getContextId, valid. rewrite Pa, Cx.
    by destruct (isLLSC p). }
  assert (St1 : stored m1) by (unfold m1; destruct (isLLSC p); exact St).
  assert (I1 : inside p m1) by (unfold m1; destruct (isLLSC p); exact I).
  assert (Mb : forall a, mem_byte m1 a = mem_byte m a) by (unfold m1; by destruct (isLLSC p)).
  destruct (read_memory_ok p buf m1 B I1 St1) as (b' & R & L & Hb).
  unfold access. rewrite (in_range_ok p buf m B I), A, Hswap, Hr, Hw. cbn [mbind result_bind check negb].
  rewrite Hm1. cbn [mbind result_bind]. rewrite R. cbn [mbind result_bind].
  change (needsResponse (p <| data := Some b' |>)) with (needsResponse p). rewrite Nr.
  match goal with |- context [makeResponse ?x] =>
    destruct (makeResponse_ok x Rq Nr) as (p' & -> & C & D & _) end.
  cbn [mbind result_bind]. eexists p', _, b'.
  split; [reflexivity|]. split; [done|]. split; [by rewrite D|].
  split; [intros i Hi; by rewrite Hb, Mb|].
  destruct (update_lock_spec ctx (mask pa) (lockedAddrList m) Hn) as [N1 N2].
  unfold m1. destruct (isLLSC p); by split_and!.
Qed.

(** Whether a store is carried out. *)
Definition store_succeeds (p : Packet) (m : Mem) (pa ctx : Z) : bool :=
  negb (isLLSC p) || bool_decide (reserved ctx m.(lockedAddrList) = Some (mask pa)).

Lemma writeOK_spec p m pa ctx :
  p.(req).(paddr) = Some pa -> p.(req).(contextId) = Some ctx ->
  NoDup (contexts m.(lockedAddrList)) ->
  writeOK p m = Ok (store_succeeds p m pa ctx,
    (if isLLSC p then p <| req ::= (fun r => setExtraData r (if store_succeeds p m pa ctx then 1 else 0)) |>
     else p),
    m <| lockedAddrList ::= filter (fun i => other_address (mask pa) i) |>).
Proof.
  intros Pa Cx Hn. unfold writeOK, store_succeeds. destruct (lockedAddrList m) as [|i l] eqn:E.
  - simpl. rewrite orb_false_r. destruct m; simpl in *; subst. by destruct (isLLSC p).
  - unfold checkLockedAddrList, getPaddr, getContextId, valid. rewrite Pa, Cx, E. cbn [mbind result_bind].
    rewrite erase_locks_spec by done. cbn [mbind result_bind]. rewrite <- E.
    destruct m; simpl in *; subst. destruct (isLLSC p); simpl; [done|]. done.
Qed.

(** A store to physical memory that is not a swap puts exactly the
    packet's bytes into memory and nothing else, a store conditional only if
    its context still has a reservation for the granule, which is reported in
    the request; every store, also a failed one, ends all reservations of the
    granule and no others. *)
Lemma access_writes p buf m pa ctx :
  request_for p buf m pa ctx -> stored m -> NoDup (contexts m.(lockedAddrList)) ->
  isRead p = false -> isWrite p = true -> isInstFetch p.(req) = false ->
  exists p' m', access p m = Ok (p', m') /\ p'.(cmd) = responseCommand p.(cmd) /\ stored m' /\
    (forall a, m.(range_start) <= a ->
       mem_byte m' a = match (if store_succeeds p m pa ctx then written p buf a else None) with
                       | Some b => Some b | None => mem_byte m a end) /\
    (isLLSC p = true ->
       p'.(req).(extraData) = Some (if store_succeeds p m pa ctx then 1 else 0)) /\
    NoDup (contexts m'.(lockedAddrList)) /\
    forall c, reserved c m'.(lockedAddrList) =
      if bool_decide (reserved c m.(lockedAddrList) = Some (mask pa)) then None
      else reserved c m.(lockedAddrList).
Proof.
  intros [B I A Pa Cx [Rq Nr]] St Hn Hr Hw Hf.
  assert (Hswap : bool_decide (cmd p = SwapReq) = false).
  { apply bool_decide_eq_false_2. intros E. unfold isRead in Hr. by rewrite E in Hr. }
  set (p1 := if isLLSC p then p <| req ::= (fun r => setExtraData r (if store_succeeds p m pa ctx then 1 else 0)) |>
             else p).
  set (m1 := m <| lockedAddrList ::= filter (fun i => other_address (mask pa) i) |>).
  assert (P1 : buffered p1 buf /\ isRequest p1 = true /\ needsResponse p1 = true /\
               cmd p1 = cmd p /\ isInstFetch (req p1) = false /\ addr p1 = addr p /\ size p1 = size p /\
               (isLLSC p = true -> extraData (req p1) = Some (if store_succeeds p m pa ctx then 1 else 0))).
  { unfold p1. destruct (isLLSC p); [|done]. destruct B. by split_and!. }
  destruct P1 as (B1 & Rq1 & Nr1 & C1 & F1 & A1 & S1 & X1).
  assert (I1 : inside p1 m1) by (unfold inside in *; rewrite A1, S1; exact I).
  destruct (makeResponse_ok p1 Rq1 Nr1) as (p' & Rp & C & D & R' & _).
  unfold access. rewrite (in_range_ok p buf m B I), A, Hswap, Hr, Hw. cbn [mbind result_bind].
  rewrite (writeOK_spec p m pa ctx) by done. fold p1 m1. cbn [mbind result_bind].
  assert (Locks : NoDup (contexts (lockedAddrList m1)) /\ forall c, reserved c (lockedAddrList m1) =
      if bool_decide (reserved c m.(lockedAddrList) = Some (mask pa)) then None
      else reserved c m.(lockedAddrList)).
  { split; [by apply NoDup_contexts_filter|]. intros c. by apply reserved_filter. }
  destruct (store_succeeds p m pa ctx) eqn:Es.
  - destruct (write_memory_ok p1 buf m1 B1 I1 St) as (bs & -> & St' & Hb). cbn [mbind result_bind].
    unfold check. rewrite F1. cbn [negb mbind result_bind]. rewrite Nr1, Rp. cbn [mbind result_bind].
    eexists p', _. split; [reflexivity|]. split; [by rewrite C, C1|]. split; [exact St'|].
    split; [|split; [intros; rewrite R'; by apply X1|exact Locks]].
    intros a Ha. unfold mem_byte at 1. cbn [pmemAddr set_field range_start]. rewrite Hb by done.
    unfold written. rewrite A1, S1. done.
  - cbn [mbind result_bind]. rewrite Nr1, Rp. cbn [mbind result_bind]. exists p', m1. split; [reflexivity|].
    split; [by rewrite C, C1|]. split; [exact St|]. split; [done|].
    split; [intros; rewrite R'; by apply X1|exact Locks].
Qed.

(** A swap leaves the reservations alone. *)
Lemma memcpy_length dst d0 source so n dst' :
  memcpy dst d0 source so n = Ok dst' -> length dst' = length dst.
Proof.
  unfold memcpy. destruct (_ && _) eqn:E; [|done]. intros [= <-].
  apply andb_true_iff in E as [E1%in_buffer_true E2%in_buffer_true].
  pose proof (length_slice source so n). apply length_splice; lia.
Qed.

Lemma swap_keeps p m p' m' :
  swap p m = Ok (p', m') -> stored m ->
  stored m' /\ m'.(lockedAddrList) = m.(lockedAddrList) /\
  m'.(range_start) = m.(range_start) /\ m'.(range_end) = m.(range_end).
Proof.
  unfold swap. intros H (S1 & S2 & bytes & E & L). rewrite E in H.
  repeat (apply result_bind_Ok in H as (? & ? & H)). injection H as <- <-.
  split; [|done]. split; [exact S1|]. split; [exact S2|]. eexists. split; [reflexivity|]. simpl.
  match goal with X : (if ?c then _ else _) = Ok _ |- _ => destruct c; simplify_eq; [|done] end.
  match goal with X : memcpy bytes _ _ _ _ = Ok _ |- _ => by rewrite (memcpy_length _ _ _ _ _ _ X) end.
Qed.

(** ** Sequences of accesses *)

(** The kinds of access, with the context for a load-locked and the 16-byte
    granule; a store conditional is an event whether it is carried out or
    not. *)
Inductive event :=
| Load (granule : Z) | LoadLocked (ctx granule : Z)
| Write (granule : Z) | StoreConditional (granule : Z) | Swap (granule : Z).

(** The event of an access; the history is kept newest first. *)
Definition event_of (p : Packet) (pa ctx : Z) : event :=
  let g := mask pa in
  if isRead p && isWrite p then Swap g
  else if isRead p then if isLLSC p then LoadLocked ctx g else Load g
  else if isLLSC p then StoreConditional g else Write g.

(** The context's last load-locked was for the granule, and neither a write
    nor a store conditional, successful or not, has gone there since.  A swap
    does not count, although it may write the granule: [access] handles it
    without calling [writeOK]. *)
Fixpoint linked (ctx g : Z) (h : list event) : bool :=
  match h with
  | [] => false
  | LoadLocked c g' :: h => if c =? ctx then g' =? g else linked ctx g h
  | Write g' :: h | StoreConditional g' :: h => negb (g' =? g) && linked ctx g h
  | Load _ :: h | Swap _ :: h => linked ctx g h
  end.

Inductive accesses (m0 : Mem) : Mem -> list event -> Prop :=
| AccNil : accesses m0 m0 []
| AccRead m h p buf pa ctx p' m' :
    accesses m0 m h -> request_for p buf m pa ctx -> isRead p = true -> isWrite p = false ->
    access p m = Ok (p', m') -> accesses m0 m' (event_of p pa ctx :: h)
| AccWrite m h p buf pa ctx p' m' :
    accesses m0 m h -> request_for p buf m pa ctx -> isRead p = false -> isWrite p = true ->
    isInstFetch p.(req) = false ->
    access p m = Ok (p', m') -> accesses m0 m' (event_of p pa ctx :: h)
| AccSwap m h p buf pa ctx p' m' :
    accesses m0 m h -> request_for p buf m pa ctx -> p.(cmd) = SwapReq ->
    access p m = Ok (p', m') -> accesses m0 m' (event_of p pa ctx :: h).

(** The reservations are what the history says. *)
Definition tracked (m : Mem) (h : list event) : Prop :=
  stored m /\ NoDup (contexts m.(lockedAddrList)) /\
  forall c g, reserved c m.(lockedAddrList) = Some g <-> linked c g h = true.

Lemma access_swap p buf m pa ctx p' m' :
  request_for p buf m pa ctx -> p.(cmd) = SwapReq -> access p m = Ok (p', m') -> stored m ->
  stored m' /\ m'.(lockedAddrList) = m.(lockedAddrList).
Proof.
  intros [B I A _ _ _] Hc H St. unfold access in H.
  rewrite (in_range_ok p buf m B I), A, Hc in H. cbn [mbind result_bind] in H.
  rewrite bool_decide_eq_true_2 in H by done.
  apply result_bind_Ok in H as ([p1 m1] & Hs & H).
  destruct (swap_keeps _ _ _ _ Hs St) as (? & ? & _).
  destruct (needsResponse p1); [apply result_bind_Ok in H as (? & _ & H)|]; by simplify_eq.
Qed.

Lemma tracked_accesses m0 m h :
  stored m0 -> m0.(lockedAddrList) = [] -> accesses m0 m h -> tracked m h.
Proof.
  intros St0 L0. induction 1 as [|m h p buf pa ctx p' m' _ IH Rf Hr Hw HA
    |m h p buf pa ctx p' m' _ IH Rf Hr Hw Hf HA|m h p buf pa ctx p' m' _ IH Rf Hc HA].
  - split; [done|]. rewrite L0. split; [constructor|]. done.
  - destruct IH as (St & Hn & Hl).
    destruct (access_reads p buf m pa ctx) as (p2 & m2 & b2 & HA2 & _ & _ & _ & Sb & N' & R'); [done..|].
    rewrite HA in HA2. injection HA2 as <- <-. destruct Sb as (E1 & E2 & E3).
    split; [unfold stored; rewrite E1, E2, E3; exact St|]. split; [done|].
    intros c g. rewrite R'. unfold event_of. rewrite Hr, Hw. simpl.
    destruct (isLLSC p); simpl; [|apply Hl]. rewrite (Z.eqb_sym ctx).
    destruct (c =? ctx); [|apply Hl]. rewrite Z.eqb_eq. naive_solver.
  - destruct IH as (St & Hn & Hl).
    destruct (access_writes p buf m pa ctx) as (p2 & m2 & HA2 & _ & St' & _ & _ & N' & R'); [done..|].
    rewrite HA in HA2. injection HA2 as <- <-. split; [done|]. split; [done|].
    intros c g. rewrite R'. unfold event_of. rewrite Hr. simpl.
    assert (Hk : linked c g ((if isLLSC p then StoreConditional (mask pa) else Write (mask pa)) :: h) =
                 negb (mask pa =? g) && linked c g h) by by destruct (isLLSC p).
    simpl in Hk. rewrite Hk, andb_true_iff, negb_true_iff, Z.eqb_neq, <- Hl. case_bool_decide; naive_solver.
  - destruct IH as (St & Hn & Hl). destruct (access_swap p buf m pa ctx p' m') as [St' El]; [done..|].
    split; [done|]. rewrite El. split; [done|]. unfold event_of, isRead, isWrite. by rewrite Hc.
Qed.

(** C15: load-locked and store conditional on physical memory: after any
    sequence of loads, load-lockeds, writes, store conditionals and swaps, a
    store conditional succeeds, writes its bytes and reports 1, exactly when
    its context's last load-locked was to the same 16-byte granule and since
    then no plain write and no store conditional, of any context and whether
    it succeeded or failed, has gone to the granule; otherwise it writes
    nothing and reports 0.  Swaps that have written the granule since do not
    make it fail: they do not end the reservation, although the comment on
    [writeOK] requires it of all stores. *)
Theorem store_conditional_linked m0 m h p buf pa ctx :
  stored m0 -> m0.(lockedAddrList) = [] -> accesses m0 m h ->
  request_for p buf m pa ctx -> p.(cmd) = StoreCondReq -> isInstFetch p.(req) = false ->
  exists p' m', access p m = Ok (p', m') /\ p'.(cmd) = StoreCondResp /\
    p'.(req).(extraData) = Some (if linked ctx (mask pa) h then 1 else 0) /\
    forall a, m.(range_start) <= a ->
      mem_byte m' a = match (if linked ctx (mask pa) h then written p buf a else None) with
                      | Some b => Some b | None => mem_byte m a end.
Proof.
  intros St0 L0 Hacc Rf Hc Hf. destruct (tracked_accesses _ _ _ St0 L0 Hacc) as (St & Hn & Hl).
  assert (Hs : store_succeeds p m pa ctx = linked ctx (mask pa) h).
  { unfold store_succeeds, isLLSC. rewrite Hc. change (testCmdAttrib StoreCondReq IsLlsc) with true.
    simpl. destruct (linked _ _ _) eqn:E; [by apply bool_decide_eq_true_2, Hl|].
    apply bool_decide_eq_false_2. rewrite Hl. congruence. }
  destruct (access_writes p buf m pa ctx) as (p' & m' & HA & C & _ & Hb & X & _);
    [done|done|done|by unfold isRead; rewrite Hc|by unfold isWrite; rewrite Hc|done|].
  rewrite Hs in *. exists p', m'. split; [done|]. split; [by rewrite C, Hc|]. split; [|done].
  apply X. unfold isLLSC. by rewrite Hc.
Qed.
End AbstractMemorySpec.
