(* ===== verification/RubyStats.v ===== *)
(** * Round-trip and traffic statistics
    (the members of [RubySystem] that SynchroTrace adds,
    src/src/mem/ruby/system/System.hh and System.cc, and the parts of
    RubyPort.cc and CacheMemory.cc that update them).

    One slot per simulated thread: when its last request was issued, how many
    operations and cycles since the last output, the longest round trip, and
    the reads and writes in total and since the last barrier, and the misses
    of its L1 data cache since the last barrier.  Cycle counts
    are stored in an [int], totals in an [unsigned long].  The lines that the
    program prints are data.  The counters of the Garnet network and the
    router power (double) that [printMemoryEventsInBarrier] also prints are
    left out. *)

From Stdlib Require Import Ascii.
From S2P Require Import Prelude.
From S2P Require Import CString.
From S2P Require Import CacheMemory.

Module RubyStats.

Record threadStat := mkStat { ThreadID : Z; totalMemOps : Z; totalRTT : Z }.
#[global] Instance threadStat_eta : Settable threadStat := fun t =>
  mkStat t.(ThreadID) t.(totalMemOps) t.(totalRTT).

Definition newStat : threadStat := mkStat (-1) 0 0.
Definition clear (t : threadStat) : threadStat := t <| totalRTT := 0 |> <| totalMemOps := 0 |>.

(** A printed line: the trace flag and the numbers. *)
Inductive output :=
| AmTrace (i reads writes readBytes writeBytes : Z)
| MemoryInBarrier (barrier i reads writes readBytes writeBytes : Z)
| L1MissesInBarrier (barrier i misses : Z).

Record Stats := mkStats {
  num_simulated_threads : Z;               (* int *)
  rtt_init_flag : bool;
  totalRead : list Z;                      (* unsigned long *)
  totalReadBytes : list Z;
  totalWrite : list Z;
  totalWriteBytes : list Z;
  totalRead_per_barrier : list Z;
  totalReadBytes_per_barrier : list Z;
  totalWrite_per_barrier : list Z;
  totalWriteBytes_per_barrier : list Z;
  l1cacheMiss_per_barrier : list Z;        (* unsigned int *)
  num_barrier : Z;
  maxRTT : list Z;                         (* int *)
  lastMsgTriggerTime : list Z;             (* int *)
  threadStatistics : list threadStat;
  rtt_event : option Z;                    (* rttEventScheduler: its next wakeup *)
  printed : list output                    (* newest first *)
}.
#[global] Instance Stats_eta : Settable Stats := fun s =>
  mkStats s.(num_simulated_threads) s.(rtt_init_flag) s.(totalRead) s.(totalReadBytes)
    s.(totalWrite) s.(totalWriteBytes) s.(totalRead_per_barrier) s.(totalReadBytes_per_barrier)
    s.(totalWrite_per_barrier) s.(totalWriteBytes_per_barrier) s.(l1cacheMiss_per_barrier)
    s.(num_barrier) s.(maxRTT) s.(lastMsgTriggerTime) s.(threadStatistics) s.(rtt_event)
    s.(printed).

Abbreviation MSt := (M Stats).

(** ** Vectors *)
Definition resize {A} (n : Z) (dflt : A) (l : list A) : list A :=
  take (Z.to_nat n) l ++ replicate (Z.to_nat n - length l) dflt.

(** [v[i] = f(v[i])] for a member [v]. *)
Definition update {A} (get_v : Stats -> list A) (set_v : list A -> Stats -> Stats) (i : Z)
  (f : A -> A) : MSt unit :=
  v ← gets get_v;
  a ← lift (vget v i);
  v' ← lift (vset v i (f a));
  modify (set_v v').

Definition on_totalRead := update totalRead (fun v s => s <| totalRead := v |>).
Definition on_totalReadBytes := update totalReadBytes (fun v s => s <| totalReadBytes := v |>).
Definition on_totalWrite := update totalWrite (fun v s => s <| totalWrite := v |>).
Definition on_totalWriteBytes := update totalWriteBytes (fun v s => s <| totalWriteBytes := v |>).
Definition on_totalRead_pb :=
  update totalRead_per_barrier (fun v s => s <| totalRead_per_barrier := v |>).
Definition on_totalReadBytes_pb :=
  update totalReadBytes_per_barrier (fun v s => s <| totalReadBytes_per_barrier := v |>).
Definition on_totalWrite_pb :=
  update totalWrite_per_barrier (fun v s => s <| totalWrite_per_barrier := v |>).
Definition on_totalWriteBytes_pb :=
  update totalWriteBytes_per_barrier (fun v s => s <| totalWriteBytes_per_barrier := v |>).
Definition on_l1cacheMiss :=
  update l1cacheMiss_per_barrier (fun v s => s <| l1cacheMiss_per_barrier := v |>).
Definition on_maxRTT := update maxRTT (fun v s => s <| maxRTT := v |>).
Definition on_lastMsg := update lastMsgTriggerTime (fun v s => s <| lastMsgTriggerTime := v |>).
Definition on_threadStat := update threadStatistics (fun v s => s <| threadStatistics := v |>).

(** ** [rtt_init] *)
Definition rtt_resize (s : Stats) : Stats :=
  let n := s.(num_simulated_threads) in
  s <| maxRTT ::= resize n 0 |> <| lastMsgTriggerTime ::= resize n 0 |>
    <| threadStatistics ::= resize n newStat |>
    <| totalRead ::= resize n 0 |> <| totalWrite ::= resize n 0 |>
    <| totalReadBytes ::= resize n 0 |> <| totalWriteBytes ::= resize n 0 |>
    <| totalRead_per_barrier ::= resize n 0 |> <| totalWrite_per_barrier ::= resize n 0 |>
    <| totalReadBytes_per_barrier ::= resize n 0 |> <| totalWriteBytes_per_barrier ::= resize n 0 |>
    <| l1cacheMiss_per_barrier ::= resize n 0 |>.

Definition to (v : Z) : Z -> Z := fun _ => v.

Definition rtt_init : MSt unit :=
  _ ← modify rtt_resize;
  n ← gets num_simulated_threads;
  _ ← for_each (upto n) (fun i =>
    _ ← on_totalRead i (to 0); _ ← on_totalWrite i (to 0);
    _ ← on_totalReadBytes i (to 0); _ ← on_totalWriteBytes i (to 0);
    _ ← on_totalRead_pb i (to 0); _ ← on_totalWrite_pb i (to 0);
    _ ← on_totalReadBytes_pb i (to 0); _ ← on_totalWriteBytes_pb i (to 0);
    _ ← modify (fun s => s <| num_barrier := 0 |>);
    _ ← on_l1cacheMiss i (to 0);
    _ ← on_maxRTT i (to 0); _ ← on_lastMsg i (to 0);
    on_threadStat i (fun t => t <| ThreadID := i |>));
  _ ← modify (fun s => s <| rtt_init_flag := true |>);
  for_each (upto n) (fun i =>
    _ ← on_totalRead i (to 0); _ ← on_totalReadBytes i (to 0);
    _ ← on_totalWrite i (to 0); on_totalWriteBytes i (to 0)).

(** The constructor of [rttEventScheduler], and its wakeups. *)
Definition newRttEventScheduler (time : Z) : MSt unit :=
  modify (fun s => s <| rtt_event := Some (time + 10000) |>).

Definition outputEvents : MSt unit :=
  n ← gets num_simulated_threads;
  for_each (upto n) (fun i =>
    s ← get;
    r ← lift (vget s.(totalRead) i); w ← lift (vget s.(totalWrite) i);
    rb ← lift (vget s.(totalReadBytes) i); wb ← lift (vget s.(totalWriteBytes) i);
    _ ← modify (fun s => s <| printed ::= cons (AmTrace i r w rb wb) |>);
    on_threadStat i clear).

Definition rtt_wakeup (time : Z) : MSt unit :=
  _ ← outputEvents;
  modify (fun s => s <| rtt_event := Some (time + 10000) |>).

(** ** What the ports record *)

(** A request has been issued (recvTimingReq). *)
Definition record_issue (time : Z) (contextId : option Z) : MSt unit :=
  f ← gets rtt_init_flag;
  _ ← when (negb f) (_ ← rtt_init; newRttEventScheduler time);
  match contextId with
  | None => mret tt
  | Some id =>
      n ← gets num_simulated_threads;
      _ ← assert_ ((0 <=? id) && (id <? n)) "id >= 0 && id < num_simulated_threads";
      _ ← on_lastMsg id (to (i32 time));
      on_threadStat id (fun t => t <| totalMemOps ::= (fun x => u64 (x + 1)) |>)
  end.

(** A response has arrived (ruby_hit_callback): [counted] says whether the
    access was made in user mode outside microcode. *)
Definition record_hit (time id size : Z) (isRead isWrite counted : bool) : MSt unit :=
  n ← gets num_simulated_threads;
  _ ← assert_ ((0 <=? id) && (id <? n)) "id >= 0 && id < num_simulated_threads";
  l ← gets lastMsgTriggerTime;
  last ← lift (vget l id);
  let thisMsgRTT := i32 (time - last) in
  _ ← on_maxRTT id (fun m => if m <? thisMsgRTT then thisMsgRTT else m);
  when counted
    (_ ← on_threadStat id (fun t => t <| totalRTT ::= (fun x => u64 (x + thisMsgRTT)) |>);
     ts ← gets threadStatistics;
     t ← lift (vget ts id);
     let tid := t.(ThreadID) in
     if (isRead : bool)
     then
       _ ← on_totalRead tid (fun x => u64 (x + 1));
       _ ← on_totalReadBytes tid (fun x => u64 (x + size));
       _ ← on_totalRead_pb tid (fun x => u64 (x + 1));
       on_totalReadBytes_pb tid (fun x => u64 (x + size))
     else if (isWrite : bool)
     then
       _ ← on_totalWrite tid (fun x => u64 (x + 1));
       _ ← on_totalWriteBytes tid (fun x => u64 (x + size));
       _ ← on_totalWrite_pb tid (fun x => u64 (x + 1));
       on_totalWriteBytes_pb tid (fun x => u64 (x + size))
     else mret tt).

(** A cache has missed ([CacheMemory::profileMiss]): the L1 data caches are
    told by the name of their profiler, from which the number of the
    controller is cut, one, two or three digits long. *)
Fixpoint occurs (pat s : CString.str) : bool :=
  bool_decide (take (length pat) s = pat) ||
  match s with [] => false | _ :: s' => occurs pat s' end.

Definition profileMiss (profiler_name : CString.str) : MSt unit :=
  if occurs (CString.lit "L1DcacheMemory") profiler_name
  then
    i ← lift (CacheMemory.l1_cntrl_num profiler_name);
    on_l1cacheMiss i (fun x => u32 (x + 1))
  else mret tt.

(** [printMemoryEventsInBarrier]. *)
Definition printMemoryEventsInBarrier : MSt unit :=
  n ← gets num_simulated_threads;
  _ ← for_each (upto n) (fun i =>
    s ← get;
    r ← lift (vget s.(totalRead_per_barrier) i); w ← lift (vget s.(totalWrite_per_barrier) i);
    rb ← lift (vget s.(totalReadBytes_per_barrier) i);
    wb ← lift (vget s.(totalWriteBytes_per_barrier) i);
    _ ← modify (fun s => s <| printed ::= cons (MemoryInBarrier s.(num_barrier) i r w rb wb) |>);
    m ← lift (vget s.(l1cacheMiss_per_barrier) i);
    _ ← modify (fun s => s <| printed ::= cons (L1MissesInBarrier s.(num_barrier) i m) |>);
    _ ← on_l1cacheMiss i (to 0);
    _ ← on_totalRead_pb i (to 0); _ ← on_totalWrite_pb i (to 0);
    _ ← on_totalReadBytes_pb i (to 0); on_totalWriteBytes_pb i (to 0));
  modify (fun s => s <| num_barrier ::= (fun x => i32 (x + 1)) |>).

End RubyStats.
