(* ===== verification/RubyStatsSpec.v ===== *)
(** * Round-trip and traffic statistics: what they count

    The vectors implement one record of unbounded numbers per thread
    ([tview]), updated by issues, responses, misses, outputs and barriers.  [rep] is
    the state that represents given records; every operation maps a
    represented state to the state that represents the updated records. *)

From Stdlib Require Import Ascii.
From S2P Require Import Prelude.
From S2P Require Import CString.
From S2P Require Import CacheMemory.
From S2P Require Import RubyStats.
Import RubyStats.

Module RubyStatsSpec.

(** ** Tables: vectors given by a function *)
Definition tbl {A} (n : Z) (f : Z -> A) : list A := f <$> upto n.
Definition upd {A} (f : Z -> A) (i : Z) (x : A) : Z -> A := fun j => if j =? i then x else f j.

Lemma upd_eq {A} (f : Z -> A) i x : upd f i x i = x.
Proof. unfold upd. by rewrite Z.eqb_refl. Qed.

Lemma tbl_lookup {A} n (f : Z -> A) i : 0 <= i < n -> vget (tbl n f) i = Ok (f i).
Proof.
  intros H. apply vget_Ok. split; [lia|]. unfold tbl. rewrite list_lookup_fmap, lookup_upto.
  case_decide; [|lia]. simpl. do 2 f_equal. lia.
Qed.

Lemma tbl_insert {A} n (f : Z -> A) i x :
  0 <= i < n -> vset (tbl n f) i x = Ok (tbl n (upd f i x)).
Proof.
  intros H. rewrite vset_in_range by (unfold tbl; rewrite length_fmap, length_upto; lia).
  f_equal. apply list_eq. intros k. unfold tbl. destruct (decide (k = Z.to_nat i)) as [->|N].
  - rewrite list_lookup_insert_eq by (rewrite length_fmap, length_upto; lia).
    rewrite list_lookup_fmap, lookup_upto. case_decide; [|lia]. simpl. unfold upd.
    by rewrite (proj2 (Z.eqb_eq _ _)) by lia.
  - rewrite list_lookup_insert_ne by done. rewrite !list_lookup_fmap, lookup_upto.
    case_decide; [|done]. simpl. unfold upd. by rewrite (proj2 (Z.eqb_neq _ _)) by lia.
Qed.

Lemma upd_same {A} n (x : A) i : tbl n (upd (fun _ => x) i x) = tbl n (fun _ => x).
Proof. apply fmap_upto_ext. intros j _. unfold upd. by destruct (j =? i). Qed.

Lemma update_tbl {A} (g : Stats -> list A) set_v i h n f s :
  g s = tbl n f -> 0 <= i < n ->
  update g set_v i h s = Ok (tt, set_v (tbl n (upd f i (h (f i)))) s).
Proof.
  intros E H. unfold update. rewrite gets_run, E. unfold lift, mbind, M_bind.
  rewrite (tbl_lookup n f i H), (tbl_insert n f i _ H). done.
Qed.

Lemma update_bind_run {A B} (g : Stats -> list A) set_v i h n f s (k : unit -> MSt B) :
  g s = tbl n f -> 0 <= i < n ->
  (update g set_v i h ≫= k) s = k tt (set_v (tbl n (upd f i (h (f i)))) s).
Proof. intros E H. by apply M_bind_run, update_tbl. Qed.

(** Runs the updates at the front of a computation. *)
Ltac run_updates :=
  repeat (erewrite update_bind_run; [|reflexivity|done]);
  try (erewrite update_tbl; [|reflexivity|done]).

(** ** The records *)
Record tview := mkView {
  v_last : Z;                        (* when the last request was issued *)
  v_ops : Z; v_rtt : Z;              (* since the last output *)
  v_max : Z;
  v_reads : Z; v_rbytes : Z; v_writes : Z; v_wbytes : Z;
  b_reads : Z; b_rbytes : Z; b_writes : Z; b_wbytes : Z; b_miss : Z   (* since the last barrier *)
}.

Definition no_view : tview := mkView 0 0 0 0 0 0 0 0 0 0 0 0 0.

Definition issue_view (t : Z) (v : tview) : tview :=
  mkView t (v.(v_ops) + 1) v.(v_rtt) v.(v_max) v.(v_reads) v.(v_rbytes) v.(v_writes) v.(v_wbytes)
    v.(b_reads) v.(b_rbytes) v.(b_writes) v.(b_wbytes) v.(b_miss).

(** A response: the round trip is the time since the last issue. *)
Definition hit_view (t size : Z) (rd wr counted : bool) (v : tview) : tview :=
  let rtt := t - v.(v_last) in
  let r := if counted && rd then 1 else 0 in
  let w := if counted && negb rd && wr then 1 else 0 in
  mkView v.(v_last) v.(v_ops) (v.(v_rtt) + if counted then rtt else 0) (Z.max v.(v_max) rtt)
    (v.(v_reads) + r) (v.(v_rbytes) + r * size) (v.(v_writes) + w) (v.(v_wbytes) + w * size)
    (v.(b_reads) + r) (v.(b_rbytes) + r * size) (v.(b_writes) + w) (v.(b_wbytes) + w * size)
    v.(b_miss).

Definition output_view (v : tview) : tview :=
  mkView v.(v_last) 0 0 v.(v_max) v.(v_reads) v.(v_rbytes) v.(v_writes) v.(v_wbytes)
    v.(b_reads) v.(b_rbytes) v.(b_writes) v.(b_wbytes) v.(b_miss).

Definition barrier_view (v : tview) : tview :=
  mkView v.(v_last) v.(v_ops) v.(v_rtt) v.(v_max) v.(v_reads) v.(v_rbytes) v.(v_writes) v.(v_wbytes)
    0 0 0 0 0.

Definition miss_view (v : tview) : tview :=
  mkView v.(v_last) v.(v_ops) v.(v_rtt) v.(v_max) v.(v_reads) v.(v_rbytes) v.(v_writes) v.(v_wbytes)
    v.(b_reads) v.(b_rbytes) v.(b_writes) v.(b_wbytes) (v.(b_miss) + 1).

(** The state that represents the records. *)
Definition rep (n : Z) (V : Z -> tview) (nb : Z) (ev : option Z) (out : list output) : Stats :=
  mkStats n true
    (tbl n (fun i => u64 (V i).(v_reads))) (tbl n (fun i => u64 (V i).(v_rbytes)))
    (tbl n (fun i => u64 (V i).(v_writes))) (tbl n (fun i => u64 (V i).(v_wbytes)))
    (tbl n (fun i => u64 (V i).(b_reads))) (tbl n (fun i => u64 (V i).(b_rbytes)))
    (tbl n (fun i => u64 (V i).(b_writes))) (tbl n (fun i => u64 (V i).(b_wbytes)))
    (tbl n (fun i => u32 (V i).(b_miss))) nb
    (tbl n (fun i => (V i).(v_max))) (tbl n (fun i => i32 (V i).(v_last)))
    (tbl n (fun i => mkStat i (u64 (V i).(v_ops)) (u64 (V i).(v_rtt)))) ev out.

Lemma u64_add_l x y : u64 (u64 x + y) = u64 (x + y).
Proof. unfold u64. apply mod_add_step. lia. Qed.

Lemma u32_add_l x y : u32 (u32 x + y) = u32 (x + y).
Proof. unfold u32. apply mod_add_step. lia. Qed.

(** The stored time wraps around, the difference of two times does not. *)
Lemma rtt_exact t last : 0 <= t - last < 2 ^ 31 -> i32 (t - i32 last) = t - last.
Proof.
  intros H. unfold i32. 
  replace (t - ((last + 2 ^ 31) mod 2 ^ 32 - 2 ^ 31) + 2 ^ 31)
    with (t - last + 2 ^ 31 + ((last + 2 ^ 31) / 2 ^ 32) * 2 ^ 32).
  - rewrite Z_mod_plus_full, Z.mod_small; lia.
  - pose proof (Z.div_mod (last + 2 ^ 31) (2 ^ 32)). lia.
Qed.

(** Two represented states are equal when the records agree on the threads. *)
Ltac same_tables :=
  repeat match goal with
  | |- mkStats _ _ _ _ _ _ _ _ _ _ _ _ _ _ _ _ _ = mkStats _ _ _ _ _ _ _ _ _ _ _ _ _ _ _ _ _ => f_equal
  | |- tbl _ _ = tbl _ _ => apply fmap_upto_ext; intros ? ?; unfold upd
  | |- context [?j =? ?i] => destruct (Z.eqb_spec j i); [subst|]
  end; simpl; try done.

Lemma record_issue_rep n V nb ev out t id :
  0 <= id < n ->
  record_issue t (Some id) (rep n V nb ev out) =
  Ok (tt, rep n (upd V id (issue_view t (V id))) nb ev out).
Proof.
  intros H. unfold record_issue. rewrite gets_run. cbn [rtt_init_flag rep negb when].
  rewrite ret_run, gets_run, assert_bind_run. cbn [num_simulated_threads rep].
  rewrite (proj2 (Z.leb_le _ _)), (proj2 (Z.ltb_lt _ _)) by lia. cbn [andb]. cbv iota.
  unfold on_lastMsg, on_threadStat. run_updates.
  do 2 f_equal. unfold rep. simpl. same_tables. by rewrite u64_add_l.
Qed.

Lemma max_if (m r : Z) : (if m <? r then r else m) = Z.max m r.
Proof. destruct (Z.ltb_spec m r); lia. Qed.

(** Closes an equation between represented states. *)
Ltac settle :=
  unfold mret, M_ret; do 2 f_equal; unfold rep; simpl; same_tables;
  rewrite ?u64_add_l, ?max_if, ?Z.mul_0_l, ?Z.mul_1_l, ?Z.add_0_r; try done.

Lemma record_hit_rep n V nb ev out t id size rd wr counted :
  0 <= id < n -> 0 <= t - (V id).(v_last) < 2 ^ 31 ->
  record_hit t id size rd wr counted (rep n V nb ev out) =
  Ok (tt, rep n (upd V id (hit_view t size rd wr counted (V id))) nb ev out).
Proof.
  intros H Ht. unfold record_hit. rewrite gets_run, assert_bind_run. cbn [num_simulated_threads rep].
  rewrite (proj2 (Z.leb_le _ _)), (proj2 (Z.ltb_lt _ _)) by lia. cbn [andb]. cbv iota.
  rewrite gets_run, lift_bind_run. cbn [lastMsgTriggerTime rep]. rewrite tbl_lookup by done.
  cbv zeta. rewrite rtt_exact by done.
  unfold on_maxRTT. erewrite update_bind_run; [|reflexivity|done].
  destruct counted; cbn [when]; [|settle].
  unfold on_threadStat. erewrite update_bind_run; [|reflexivity|done].
  rewrite gets_run, lift_bind_run. cbn [threadStatistics set_field rep].
  rewrite tbl_lookup by done. rewrite upd_eq. cbn [ThreadID set_field].
  destruct rd; [|destruct wr];
    unfold on_totalRead, on_totalReadBytes, on_totalRead_pb, on_totalReadBytes_pb,
      on_totalWrite, on_totalWriteBytes, on_totalWrite_pb, on_totalWriteBytes_pb;
    run_updates; settle.
Qed.

(** ** Misses *)

(** The miss that a cache of this name counts, if any. *)
Definition missed (name : CString.str) : option (result Z) :=
  if occurs (CString.lit "L1DcacheMemory") name then Some (CacheMemory.l1_cntrl_num name) else None.

Lemma profileMiss_rep n V nb ev out name i :
  missed name = Some (Ok i) -> 0 <= i < n ->
  profileMiss name (rep n V nb ev out) = Ok (tt, rep n (upd V i (miss_view (V i))) nb ev out).
Proof.
  unfold missed, profileMiss. destruct (occurs _ _); [|done]. intros [= E] Hi.
  rewrite lift_bind_run, E. unfold on_l1cacheMiss. run_updates.
  unfold mret, M_ret. do 2 f_equal. unfold rep. simpl. same_tables. by rewrite u32_add_l.
Qed.

(** The name of an L1 controller's data cache gives the controller's number,
    up to 999. *)
Lemma l1_cntrl_num_name sys k rest :
  "."%char ∉ sys -> CString.size sys < 2 ^ 31 - 20 -> 0 <= k < 1000 ->
  CacheMemory.l1_cntrl_num (sys ++ CString.lit ".l1_cntrl" ++ CString.print_dec k ++ "."%char :: rest) = Ok k.
Proof.
  intros Hs Hl Hk. pose proof (CString.size_nonneg sys).
  set (d := CString.print_dec k).
  assert (Hd : CString.size d = if k <? 10 then 1 else if k <? 100 then 2 else 3).
  { unfold d, CString.print_dec. cbn [CString.dec_digits].
    destruct (Z.ltb_spec k 10); [done|].
    pose proof (Z.div_mod k 10 ltac:(lia)). pose proof (Z.mod_pos_bound k 10 ltac:(lia)).
    assert (k / 10 / 10 < 10) by (rewrite Z.div_div by lia; apply Z.div_lt_upper_bound; lia).
    destruct (Z.ltb_spec (k / 10) 10), (Z.ltb_spec k 100); try lia; [done|].
    by rewrite (proj2 (Z.ltb_lt _ _)). }
  assert (Hn : "."%char ∉ CString.lit "l1_cntrl" ++ d).
  { rewrite elem_of_app. intros [Hx|Hx].
    - apply (bool_decide_pack _) in Hx. by vm_compute in Hx.
    - by apply CString.not_in_print in Hx; [|lia|]. }
  unfold CacheMemory.l1_cntrl_num.
  change (CString.lit ".l1_cntrl") with (["."%char] ++ CString.lit "l1_cntrl").
  set (name := sys ++ _).
  assert (E1 : CString.find name "."%char 0 = CString.size sys) by (by apply CString.find_first_0).
  assert (E2 : CString.find name "."%char (CString.size sys + 1) = CString.size sys + 9 + CString.size d).
  { pose proof (CString.find_first (sys ++ ["."%char]) (CString.lit "l1_cntrl" ++ d) rest "."%char Hn) as F.
    rewrite !CString.size_app in F. change (CString.size ["."%char]) with 1 in F.
    change (CString.size (CString.lit "l1_cntrl")) with 8 in F.
    unfold name. rewrite <- !app_assoc in *. rewrite F. lia. }
  rewrite E1, (i32_small (CString.size sys)), (u64_small (_ + 1)), E2
    by (unfold is_i32, is_u64; lia).
  assert (0 <= CString.size d <= 3) by (rewrite Hd; repeat case_match; lia).
  rewrite i32_small by (unfold is_i32; lia). cbv zeta.
  assert (Hdig : (if 11 <? CString.size sys + 9 + CString.size d - CString.size sys then 3
                  else if 10 <? CString.size sys + 9 + CString.size d - CString.size sys then 2 else 1)
                 = CString.size d).
  { rewrite Hd. repeat (case_match; bool_to_Z); lia. }
  rewrite Hdig, u64_small by (unfold is_u64; lia).
  replace (CString.size sys + 9 + CString.size d - CString.size d)
    with (CString.size (sys ++ CString.lit ".l1_cntrl"))
    by (rewrite CString.size_app; change (CString.size (CString.lit ".l1_cntrl")) with 9; lia).
  unfold name. rewrite app_assoc.
  change (["."%char] ++ CString.lit "l1_cntrl") with (CString.lit ".l1_cntrl").
  rewrite CString.substr_mid by done. cbn [mbind result_bind]. f_equal.
  pose proof (CString.atoi_print k [] ltac:(lia) I) as A. by rewrite app_nil_r in A.
Qed.

(** ** The loops over the threads *)

Lemma rep_ext n V V' nb ev out :
  (forall i, 0 <= i < n -> V i = V' i) -> rep n V nb ev out = rep n V' nb ev out.
Proof.
  intros H. unfold rep. f_equal; apply fmap_upto_ext; intros i Hi; by rewrite (H i Hi).
Qed.

Lemma upto_snoc k : 0 <= k -> upto (k + 1) = upto k ++ [k].
Proof.
  intros H. unfold upto. rewrite Z2Nat.inj_add by lia. rewrite seq_app, fmap_app. simpl.
  by rewrite Z2Nat.id.
Qed.

(** A loop whose state is known after every round. *)
Lemma for_each_upto {S} n (body : Z -> M S unit) (st : Z -> S) :
  0 <= n -> (forall i, 0 <= i < n -> body i (st i) = Ok (tt, st (i + 1))) ->
  for_each (upto n) body (st 0) = Ok (tt, st n).
Proof.
  intros Hn Hb.
  enough (forall k from, Z.of_nat from + Z.of_nat k = n ->
    for_each (Z.of_nat <$> seq from k) body (st (Z.of_nat from)) = Ok (tt, st n)) as G
    by (apply (G (Z.to_nat n) 0%nat); lia).
  induction k as [|k IH]; intros from Hk; simpl.
  - unfold mret, M_ret. do 3 f_equal. lia.
  - rewrite (M_bind_run _ _ _ _ _ (Hb (Z.of_nat from) ltac:(lia))).
    replace (Z.of_nat from + 1) with (Z.of_nat (Datatypes.S from)) by lia. apply IH. lia.
Qed.

(** Records of which the first [k] have been processed. *)
Definition upto_view (g : tview -> tview) (V : Z -> tview) (k : Z) : Z -> tview :=
  fun j => if j <? k then g (V j) else V j.

Lemma upto_view_self g V k : upto_view g V k k = V k.
Proof. unfold upto_view. by destruct (Z.ltb_spec k k); [lia|]. Qed.

(** One more record processed. *)
Lemma upto_view_next g V k j :
  upto_view g V (k + 1) j = if j =? k then g (V k) else upto_view g V k j.
Proof.
  unfold upto_view.
  destruct (Z.eqb_spec j k), (Z.ltb_spec j (k + 1)), (Z.ltb_spec j k); subst; (lia || done).
Qed.

Ltac next_view :=
  unfold mret, M_ret; do 2 f_equal; unfold rep; simpl; f_equal;
  try (apply fmap_upto_ext; let j := fresh "j" in intros j ?; unfold upd, to;
       rewrite upto_view_next;
       match goal with |- context [j =? ?k] => destruct (Z.eqb_spec j k); [subst j|] end;
       rewrite ?upto_view_self; done).

(** Runs the reads of vectors at the front of a computation. *)
Ltac run_reads :=
  repeat (rewrite lift_bind_run;
          cbn [totalRead totalWrite totalReadBytes totalWriteBytes totalRead_per_barrier
               totalWrite_per_barrier totalReadBytes_per_barrier totalWriteBytes_per_barrier
               l1cacheMiss_per_barrier rep];
          rewrite tbl_lookup by done; cbv iota).

Definition line (V : Z -> tview) (i : Z) : output :=
  AmTrace i (u64 (V i).(v_reads)) (u64 (V i).(v_writes)) (u64 (V i).(v_rbytes)) (u64 (V i).(v_wbytes)).

Lemma outputEvents_rep n V nb ev out :
  0 <= n ->
  outputEvents (rep n V nb ev out) =
  Ok (tt, rep n (fun i => output_view (V i)) nb ev (rev (line V <$> upto n) ++ out)).
Proof.
  intros Hn. unfold outputEvents. rewrite gets_run.
  set (st k := rep n (upto_view output_view V k) nb ev (rev (line V <$> upto k) ++ out)).
  replace (rep n V nb ev out) with (st 0).
  2:{ unfold st. simpl. apply rep_ext. intros i Hi. unfold upto_view.
      by destruct (Z.ltb_spec i 0); [lia|]. }
  change (num_simulated_threads (st 0)) with n.
  rewrite (for_each_upto n _ st Hn).
  - unfold st. do 2 f_equal. apply rep_ext. intros i Hi. unfold upto_view.
    by destruct (Z.ltb_spec i n); [|lia].
  - intros i Hi. unfold st at 1. rewrite get_run. run_reads. rewrite modify_run. unfold on_threadStat. run_updates. unfold st.
    rewrite upto_snoc, fmap_app, rev_app_distr by lia. next_view.
    by rewrite upto_view_self.
Qed.

(** The lines of a barrier for one thread, newest first. *)
Definition barrier_lines (V : Z -> tview) (nb i : Z) : list output :=
  [L1MissesInBarrier nb i (u32 (V i).(b_miss));
   MemoryInBarrier nb i (u64 (V i).(b_reads)) (u64 (V i).(b_writes)) (u64 (V i).(b_rbytes))
     (u64 (V i).(b_wbytes))].

(** All lines of a barrier, newest first. *)
Definition all_barrier_lines (V : Z -> tview) (nb n : Z) : list output :=
  concat (rev (barrier_lines V nb <$> upto n)).

Lemma printMemoryEventsInBarrier_rep n V nb ev out :
  0 <= n ->
  printMemoryEventsInBarrier (rep n V nb ev out) =
  Ok (tt, rep n (fun i => barrier_view (V i)) (i32 (nb + 1)) ev (all_barrier_lines V nb n ++ out)).
Proof.
  intros Hn. unfold printMemoryEventsInBarrier. rewrite gets_run.
  set (st k := rep n (upto_view barrier_view V k) nb ev (all_barrier_lines V nb k ++ out)).
  replace (rep n V nb ev out) with (st 0).
  2:{ unfold st. simpl. apply rep_ext. intros i Hi. unfold upto_view.
      by destruct (Z.ltb_spec i 0); [lia|]. }
  change (num_simulated_threads (st 0)) with n.
  rewrite (M_bind_run _ _ _ tt (st n)).
  - unfold st, modify. do 2 f_equal. apply (rep_ext n _ _ (i32 (nb + 1))). intros i Hi. unfold upto_view.
    by destruct (Z.ltb_spec i n); [|lia].
  - apply (for_each_upto n _ st Hn). intros i Hi. unfold st at 1.
    rewrite get_run. run_reads. rewrite modify_run. run_reads. rewrite modify_run.
    unfold on_l1cacheMiss, on_totalRead_pb, on_totalWrite_pb, on_totalReadBytes_pb, on_totalWriteBytes_pb.
    run_updates. unfold st, all_barrier_lines.
    rewrite upto_snoc, fmap_app, rev_app_distr by lia. next_view.
    by rewrite upto_view_self.
Qed.

(** ** Initialisation *)

(** The state before the first request. *)
Definition fresh_stats (n : Z) : Stats :=
  mkStats n false [] [] [] [] [] [] [] [] [] 0 [] [] [] None [].

Lemma resize_nil {A} n (x : A) : resize n x [] = tbl n (fun _ => x).
Proof.
  unfold resize, tbl. rewrite take_nil. simpl. rewrite Nat.sub_0_r.
  apply replicate_as_elem_of. rewrite length_fmap, length_upto. split; [done|].
  intros y Hy. apply list_elem_of_fmap in Hy as (? & -> & _). done.
Qed.

(** The state of [rtt_init] after [k] threads. *)
Definition starting (n k : Z) (flag : bool) : Stats :=
  let z := tbl n (fun _ => 0) in
  mkStats n flag z z z z z z z z z 0 z z
    (tbl n (fun i => mkStat (if i <? k then i else -1) 0 0)) None [].

Lemma rtt_init_ok n :
  0 <= n -> rtt_init (fresh_stats n) = Ok (tt, rep n (fun _ => no_view) 0 None []).
Proof.
  intros Hn. unfold rtt_init. rewrite modify_run, gets_run.
  replace (rtt_resize (fresh_stats n)) with (starting n 0 false).
  2:{ unfold rtt_resize, fresh_stats, starting. simpl. rewrite !resize_nil. f_equal.
      apply fmap_upto_ext. intros i Hi. by destruct (Z.ltb_spec i 0); [lia|]. }
  change (num_simulated_threads (starting n 0 false)) with n.
  rewrite (M_bind_run _ _ _ tt (starting n n false)).
  - rewrite modify_run.
    replace ((starting n n false) <| rtt_init_flag := true |>)
      with (rep n (fun _ => no_view) 0 None []).
    2:{ unfold rep, starting. simpl. f_equal. apply fmap_upto_ext. intros i Hi.
        by destruct (Z.ltb_spec i n); [|lia]. }
    rewrite (for_each_upto n _ (fun _ => rep n (fun _ => no_view) 0 None []) Hn) by
      (intros i Hi; unfold on_totalRead, on_totalWrite, on_totalReadBytes, on_totalWriteBytes;
       run_updates; unfold rep, to; simpl; by rewrite !upd_same).
    done.
  - apply (for_each_upto n _ (fun k => starting n k false) Hn). intros i Hi.
    unfold on_totalRead, on_totalWrite, on_totalReadBytes, on_totalWriteBytes,
      on_totalRead_pb, on_totalWrite_pb, on_totalReadBytes_pb, on_totalWriteBytes_pb.
    run_updates. rewrite modify_run. unfold on_l1cacheMiss, on_maxRTT, on_lastMsg, on_threadStat.
    run_updates. unfold starting, to. simpl. rewrite !upd_same. do 3 f_equal.
    apply fmap_upto_ext. intros j Hj. unfold upd. simpl.
    destruct (Z.eqb_spec j i), (Z.ltb_spec j i), (Z.ltb_spec j (i + 1)); subst; (lia || done).
Qed.

(** ** The shape of the vectors

    What keeps the operations of the ports from failing, whatever the
    numbers are: one slot per thread, with the thread's own number in it. *)
Definition vectors (s : Stats) : list (list Z) :=
  [s.(totalRead); s.(totalReadBytes); s.(totalWrite); s.(totalWriteBytes);
   s.(totalRead_per_barrier); s.(totalReadBytes_per_barrier); s.(totalWrite_per_barrier);
   s.(totalWriteBytes_per_barrier); s.(l1cacheMiss_per_barrier); s.(maxRTT); s.(lastMsgTriggerTime)].

Record sized (n : Z) (s : Stats) : Prop := {
  z_threads : s.(num_simulated_threads) = n;
  z_init : s.(rtt_init_flag) = true;
  z_vectors : Forall (fun v => length v = Z.to_nat n) (vectors s);
  z_stats : ThreadID <$> s.(threadStatistics) = upto n
}.

Lemma rep_sized n V nb ev out : sized n (rep n V nb ev out).
Proof.
  constructor; [done|done| |].
  - unfold vectors. rewrite !Forall_cons. split_and!; try done; cbn; unfold tbl;
      by rewrite length_fmap, length_upto.
  - unfold rep, tbl. cbn. rewrite <- list_fmap_compose. rewrite <- (list_fmap_id (upto n)) at 2.
    by apply list_fmap_ext.
Qed.

(** Never fails and keeps the shape. *)
Definition steady (n : Z) (m : MSt unit) (s : Stats) : Prop :=
  wp (fun _ => False) m (fun _ => sized n) s.

Lemma steady_Ok n m s : steady n m s -> exists s', m s = Ok (tt, s') /\ sized n s'.
Proof. unfold steady, wp. destruct (m s) as [[[] s']|]; [by eexists|done]. Qed.

Lemma steady_bind n m (k : unit -> MSt unit) s :
  steady n m s -> (forall s, sized n s -> steady n (k tt) s) -> steady n (m ≫= k) s.
Proof. intros H Hk. apply wp_bind. eapply wp_mono; [exact H|]. intros [] s' Hs. by apply Hk. Qed.

(** Updating a slot of a vector of numbers. *)
Lemma update_steady n (g : Stats -> list Z) set_v i h s :
  0 <= i < n -> sized n s -> (exists k, vectors s !! k = Some (g s)) ->
  (forall v, length v = Z.to_nat n -> sized n (set_v v s)) -> steady n (update g set_v i h) s.
Proof.
  intros Hi Hs [k Hk] Hset.
  assert (Hl : length (g s) = Z.to_nat n) by (eapply (Forall_lookup_1 _ _ _ _ (z_vectors _ _ Hs)), Hk).
  destruct (vget_in_range (g s) i) as [a Ha]; [lia|].
  unfold steady, wp, update. rewrite gets_run, lift_bind_run, Ha, lift_bind_run, vset_in_range by lia.
  cbn. apply Hset. by rewrite length_insert.
Qed.

Ltac steady_slot k :=
  intros Hi Hs; apply update_steady; [exact Hi|exact Hs|by exists k|];
  intros v Hv; destruct Hs as [H1 H2 H3 H4]; constructor; [done|done| |done];
  unfold vectors in *; cbn in *; rewrite !Forall_cons in *; tauto.

Section slots.
Context (n i : Z) (f : Z -> Z) (s : Stats).
Lemma on_totalRead_steady : 0 <= i < n -> sized n s -> steady n (on_totalRead i f) s.
Proof. steady_slot 0%nat. Qed.
Lemma on_totalReadBytes_steady : 0 <= i < n -> sized n s -> steady n (on_totalReadBytes i f) s.
Proof. steady_slot 1%nat. Qed.
Lemma on_totalWrite_steady : 0 <= i < n -> sized n s -> steady n (on_totalWrite i f) s.
Proof. steady_slot 2%nat. Qed.
Lemma on_totalWriteBytes_steady : 0 <= i < n -> sized n s -> steady n (on_totalWriteBytes i f) s.
Proof. steady_slot 3%nat. Qed.
Lemma on_totalRead_pb_steady : 0 <= i < n -> sized n s -> steady n (on_totalRead_pb i f) s.
Proof. steady_slot 4%nat. Qed.
Lemma on_totalReadBytes_pb_steady : 0 <= i < n -> sized n s -> steady n (on_totalReadBytes_pb i f) s.
Proof. steady_slot 5%nat. Qed.
Lemma on_totalWrite_pb_steady : 0 <= i < n -> sized n s -> steady n (on_totalWrite_pb i f) s.
Proof. steady_slot 6%nat. Qed.
Lemma on_totalWriteBytes_pb_steady : 0 <= i < n -> sized n s -> steady n (on_totalWriteBytes_pb i f) s.
Proof. steady_slot 7%nat. Qed.
Lemma on_maxRTT_steady : 0 <= i < n -> sized n s -> steady n (on_maxRTT i f) s.
Proof. steady_slot 9%nat. Qed.
Lemma on_lastMsg_steady : 0 <= i < n -> sized n s -> steady n (on_lastMsg i f) s.
Proof. steady_slot 10%nat. Qed.

(** The slot of a thread in [threadStatistics]. *)
Lemma threadStat_slot : 0 <= i < n -> sized n s ->
  exists t, vget s.(threadStatistics) i = Ok t /\ t.(ThreadID) = i.
Proof.
  intros Hi Hs. pose proof (z_stats _ _ Hs) as E.
  assert (Hl : length s.(threadStatistics) = Z.to_nat n)
    by (by rewrite <- length_upto, <- E, length_fmap).
  destruct (vget_in_range s.(threadStatistics) i) as [t Ht]; [lia|]. exists t. split; [done|].
  apply vget_Ok in Ht as [_ Ht]. apply (f_equal (fmap ThreadID)) in Ht.
  rewrite <- list_lookup_fmap, E, lookup_upto in Ht. case_decide; [|lia]. cbn in Ht. simplify_eq. lia.
Qed.

Lemma on_threadStat_steady (g : threadStat -> threadStat) :
  (forall t, (g t).(ThreadID) = t.(ThreadID)) -> 0 <= i < n -> sized n s ->
  steady n (on_threadStat i g) s.
Proof.
  intros Hg Hi Hs. destruct (threadStat_slot Hi Hs) as (t & Ht & Et).
  unfold steady, wp, on_threadStat, update. rewrite gets_run, lift_bind_run, Ht, lift_bind_run.
  rewrite vset_in_range by (by eapply vget_Ok_range). cbn.
  destruct Hs as [H1 H2 H3 H4]. constructor; [done|done|exact H3|]. cbn.
  rewrite list_fmap_insert, H4, Hg, list_insert_id; [done|].
  apply vget_Ok in Ht as [_ Ht]. by rewrite <- H4, list_lookup_fmap, Ht.
Qed.
End slots.

#[export] Hint Resolve on_totalRead_steady on_totalReadBytes_steady on_totalWrite_steady
  on_totalWriteBytes_steady on_totalRead_pb_steady on_totalReadBytes_pb_steady
  on_totalWrite_pb_steady on_totalWriteBytes_pb_steady on_maxRTT_steady on_lastMsg_steady
  on_threadStat_steady : steady.

Lemma in_threads n id s :
  sized n s -> 0 <= id < n -> (0 <=? id) && (id <? s.(num_simulated_threads)) = true.
Proof. intros [-> _ _ _] H. apply andb_true_iff. rewrite Z.leb_le, Z.ltb_lt. lia. Qed.

(** The first request sets the vectors up. *)
Lemma record_issue_steady n t id s :
  0 <= id < n -> s = fresh_stats n \/ sized n s -> steady n (record_issue t (Some id)) s.
Proof.
  intros Hid Hs. unfold steady, wp, record_issue. rewrite gets_run.
  enough (G : exists s1, (when (negb (rtt_init_flag s)) (_ ← rtt_init; newRttEventScheduler t)) s = Ok (tt, s1)
                         /\ sized n s1).
  { destruct G as (s1 & E & Hs1). rewrite (M_bind_run _ _ _ _ _ E), gets_run, assert_bind_run.
    rewrite (in_threads n) by done. cbv iota.
    change (steady n (_ ← on_lastMsg id (to (i32 t));
      on_threadStat id (fun t => t <| totalMemOps ::= (fun x => u64 (x + 1)) |>)) s1).
    apply steady_bind; auto with steady. }
  destruct Hs as [->|Hs].
  - eexists. cbn [rtt_init_flag fresh_stats negb when].
    rewrite (M_bind_run _ _ _ _ _ (rtt_init_ok n ltac:(lia))). split; [reflexivity|].
    apply (rep_sized n _ 0 (Some (t + 10000))).
  - rewrite (z_init _ _ Hs). by exists s.
Qed.

Lemma record_hit_steady n t id size rd wr counted s :
  0 <= id < n -> sized n s -> steady n (record_hit t id size rd wr counted) s.
Proof.
  intros Hid Hs. unfold record_hit. apply wp_bind, wp_gets, wp_bind, wp_assert;
    [intros _|by rewrite (in_threads n)].
  apply wp_bind, wp_gets, wp_bind.
  destruct (vget_in_range (lastMsgTriggerTime s) id) as [last Hlast].
  { pose proof (z_vectors _ _ Hs) as Hv. rewrite Forall_lookup in Hv.
    rewrite (Hv 10%nat (lastMsgTriggerTime s) eq_refl). lia. }
  rewrite Hlast. cbn. apply steady_bind; [auto with steady|]. intros s1 Hs1.
  destruct counted; [|done]. cbn [when].
  apply steady_bind; [auto with steady|]. intros s2 Hs2.
  apply wp_bind, wp_gets, wp_bind. destruct (threadStat_slot n id s2 Hid Hs2) as (x & Hx & Ex).
  rewrite Hx. cbn. rewrite Ex. destruct rd; [|destruct wr; [|done]];
    repeat (apply steady_bind; [by auto with steady|intros]); auto with steady.
Qed.

(** ** Histories *)
Inductive event :=
| Issue (t : Z) (context : option Z)
| Hit (t id size : Z) (rd wr counted : bool)
| Miss (profiler_name : CString.str)
| Output (t : Z)
| Barrier.

Definition perform (e : event) : MSt unit :=
  match e with
  | Issue t c => record_issue t c
  | Hit t id size rd wr counted => record_hit t id size rd wr counted
  | Miss name => profileMiss name
  | Output t => rtt_wakeup t
  | Barrier => printMemoryEventsInBarrier
  end.

(** The records, the number of the barrier and the printed lines. *)
Record ledger := mkLedger { views : Z -> tview; barriers : Z; lines : list output }.

Definition enter (n : Z) (l : ledger) (e : event) : ledger :=
  let V := l.(views) in
  match e with
  | Issue t None => l
  | Issue t (Some id) => mkLedger (upd V id (issue_view t (V id))) l.(barriers) l.(lines)
  | Hit t id size rd wr counted =>
      mkLedger (upd V id (hit_view t size rd wr counted (V id))) l.(barriers) l.(lines)
  | Miss name =>
      match missed name with
      | Some (Ok i) => mkLedger (upd V i (miss_view (V i))) l.(barriers) l.(lines)
      | _ => l
      end
  | Output t =>
      mkLedger (fun i => output_view (V i)) l.(barriers) (rev (line V <$> upto n) ++ l.(lines))
  | Barrier =>
      mkLedger (fun i => barrier_view (V i)) (i32 (l.(barriers) + 1))
        (all_barrier_lines V l.(barriers) n ++ l.(lines))
  end.

(** Contexts exist, a response comes less than 2^31 cycles after the last
    issue of its context, and the name of an L1 data cache has the number of
    a context. *)
Definition plausible (n : Z) (l : ledger) (e : event) : Prop :=
  match e with
  | Issue _ None | Output _ | Barrier => True
  | Issue _ (Some id) => 0 <= id < n
  | Miss name => forall x, missed name = Some x -> exists i, x = Ok i /\ 0 <= i < n
  | Hit t id _ _ _ _ => 0 <= id < n /\ 0 <= t - (l.(views) id).(v_last) < 2 ^ 31
  end.

Fixpoint all_plausible (n : Z) (l : ledger) (es : list event) : Prop :=
  match es with
  | [] => True
  | e :: es => plausible n l e /\ all_plausible n (enter n l e) es
  end.

Definition represents (n : Z) (l : ledger) (s : Stats) : Prop :=
  exists ev, s = rep n l.(views) l.(barriers) ev l.(lines).

Lemma perform_ok n l e s :
  0 <= n -> represents n l s -> plausible n l e ->
  exists s', perform e s = Ok (tt, s') /\ represents n (enter n l e) s'.
Proof.
  intros Hn [ev ->] He. destruct e as [t [id|]|t id size rd wr counted|name|t|]; cbn [perform enter plausible] in *.
  - eexists. split; [by apply record_issue_rep|]. by eexists.
  - eexists. split; [unfold record_issue; by rewrite gets_run|]. by eexists.
  - eexists. split; [apply record_hit_rep; apply He|]. by eexists.
  - destruct (missed name) as [x|] eqn:E.
    + destruct (He x eq_refl) as (i & -> & Hi).
      eexists. split; [by apply (profileMiss_rep _ _ _ _ _ _ i)|]. by eexists.
    + eexists. split; [|by eexists]. unfold missed in E. unfold profileMiss. by destruct (occurs _ _).
  - eexists. split; [unfold rtt_wakeup; by rewrite (M_bind_run _ _ _ _ _ (outputEvents_rep _ _ _ _ _ Hn))|].
    by exists (Some (t + 10000)).
  - eexists. split; [by apply printMemoryEventsInBarrier_rep|]. by eexists.
Qed.

Lemma performs_ok n es l s :
  0 <= n -> represents n l s -> all_plausible n l es ->
  exists s', for_each es perform s = Ok (tt, s') /\ represents n (foldl (enter n) l es) s'.
Proof.
  intros Hn. revert l s. induction es as [|e es IH]; intros l s R He; [by exists s|].
  destruct He as [H1 H2]. destruct (perform_ok n l e s Hn R H1) as (s1 & R1 & P1).
  destruct (IH _ _ P1 H2) as (s2 & R2 & P2). exists s2. split; [|done].
  cbn [for_each]. by rewrite (M_bind_run _ _ _ _ _ R1).
Qed.

Definition blank : ledger := mkLedger (fun _ => no_view) 0 [].

(** C20: the round-trip and traffic statistics count what they claim: over any
    history that starts with a request, of contexts below the number of
    threads and of round trips below 2^31 cycles, for every thread the totals
    of reads, writes and bytes, overall and since the last barrier, are those of the
    responses counted (modulo 2^64), the misses since the last barrier are
    those of the L1 data cache whose name has the thread's number (modulo
    2^32), the operations and cycles are those since the last output, the round trip of a response is the exact time
    since its context's last issue, although the code keeps times in an
    [int] that wraps around, the maximum is the longest of them, and the
    lines printed at outputs and barriers show these numbers. *)
Theorem statistics_exact n t context es :
  0 <= n -> all_plausible n blank (Issue t context :: es) ->
  exists s, for_each (Issue t context :: es) perform (fresh_stats n) = Ok (tt, s) /\
    represents n (foldl (enter n) blank (Issue t context :: es)) s.
Proof.
  intros Hn Hp.
  assert (E : for_each (Issue t context :: es) perform (fresh_stats n) =
    for_each (Issue t context :: es) perform (rep n (fun _ => no_view) 0 (Some (t + 10000)) [])).
  { cbn [for_each]. unfold mbind, M_bind. cbn [perform].
    assert (Ei : record_issue t context (fresh_stats n) =
      record_issue t context (rep n (fun _ => no_view) 0 (Some (t + 10000)) [])); [|by rewrite Ei].
    unfold record_issue. rewrite !gets_run. cbn [rtt_init_flag fresh_stats rep negb when].
    rewrite ret_run. rewrite (M_bind_run _ _ _ tt (rep n (fun _ => no_view) 0 (Some (t + 10000)) [])); [done|].
    by rewrite (M_bind_run _ _ _ _ _ (rtt_init_ok n Hn)). }
  rewrite E. apply performs_ok; [done| |done]. by eexists.
Qed.
End RubyStatsSpec.
