(* ===== verification/RubyPort.v ===== *)
(** * The port between the cores and the sequencer
    (class [RubyPort] with [M5Port] and [PioPort],
    src/src/mem/ruby/system/RubyPort.hh and RubyPort.cc).

    A core's request arrives at an [M5Port].  The port notes itself in the
    packet, hands the packet to the sequencer (or, for other addresses, to the
    device port), and when the sequencer calls back it takes its note off,
    carries the access out on physical memory, queues the response and tells
    ports that had been refused to try again.

    Packets live in one store and are referred to by number.  The sequencer is
    seen through the class [RubySequencer]; what a core does when it is told
    to retry is the argument [recvRetry], which may send requests at once.
    The cache controllers (generated code) are given by their access
    permissions and data blocks.  What leaves the port other than through its
    queues is recorded as [signal]s. *)

From S2P Require Import Prelude.
From S2P Require Import STEvent.
From S2P Require Import CString.
From S2P Require Import IntMath.
From S2P Require Import Requests.
From S2P Require Import RubyAddress.
From S2P Require Import Replacement.
From S2P Require Import CacheMemory.
From S2P Require Import Sequencer.
From S2P Require Import Packet.
From S2P Require Import PacketQueue.
From S2P Require Import AbstractMemory.
From S2P Require Import RubyStats.
Import Requests Packet.

Module RubyPort.

#[local] Existing Instance Sequencer.RequestStatus_eq_dec.
Abbreviation RequestStatus := Sequencer.RequestStatus.
Abbreviation PQ := PacketQueue.PQ.
Abbreviation Mem := AbstractMemory.Mem.

(** ** The sequencer, as the port uses it *)
Class RubySequencer (S : Type) := {
  makeRequest : nat -> Packet -> M S RequestStatus;
  outstandingCount : S -> Z;
  isDeadlockEventScheduled : S -> bool;
  descheduleDeadlockEvent : M S unit
}.

(** ** State *)
Inductive AccessPermission :=
| Read_Only | Read_Write | Maybe_Stale | Backing_Store | Busy | Invalid | NotPresent.

#[export] Instance AccessPermission_eq_dec : EqDecision AccessPermission.
Proof. solve_decision. Defined.

(** A controller: the permission and the data of a line. *)
Record Controller := mkController {
  getAccessPermission : Z -> AccessPermission;
  blocks : gmap Z (list Z)
}.
#[global] Instance Controller_eta : Settable Controller := fun c =>
  mkController c.(getAccessPermission) c.(blocks).

(** The rest of the simulated system, at a given time. *)
Record Surroundings := mkSurroundings {
  ruby : RubyCfg;
  m_clock : Z;                             (* ticks per cycle *)
  m_usingRubyTester : bool;
  access_phys_mem : bool;
  synchrotrace_run : bool;                 (* synchrotrace_run != 0 *)
  isPhysMemAddress : Z -> bool;
  pio_connected : bool;
  isSnooping : Z -> bool;                  (* the core behind a port snoops *)
  in_pthread : Z -> Z -> bool;             (* tick, context: a function named *pthread* runs *)
  in_user_mode : Z -> Z -> bool            (* tick, context: cpl == 3, no microcode; or not FullSystem *)
}.

Inductive DrainState := Running | Draining | Drained.

Inductive signal :=
| SentRetry (port : Z)                     (* port->sendRetry() *)
| SentResponse (port : Z) (id : nat)       (* port->sendTimingResp(pkt) *)
| SentSnoop (port : Z) (pkt : Packet)      (* port->sendTimingSnoopReq(pkt) *)
| DrainDone (event : nat).                 (* drainEvent->process() *)

Record M5Port := mkPort { queue : PQ; onRetryList : bool }.
#[global] Instance M5Port_eta : Settable M5Port := fun p => mkPort p.(queue) p.(onRetryList).

Section port.
Context {S : Type} `{HS : !RubySequencer S} (sys : Surroundings).

Record RP := mkRP {
  slave_ports : list M5Port;
  master_ports : list PQ;
  pio_port : PQ;
  retryList : list Z;
  waitingOnSequencer : bool;
  drainEvent : option nat;
  simState : DrainState;
  short_curr : bool;
  packets : gmap nat Packet;
  memory : Mem;
  sequencer : S;
  stats : RubyStats.Stats;
  controllers : list Controller;
  curTick : Z;
  signals : list signal                    (* newest first *)
}.
#[global] Instance RP_eta : Settable RP := fun s =>
  mkRP s.(slave_ports) s.(master_ports) s.(pio_port) s.(retryList) s.(waitingOnSequencer)
    s.(drainEvent) s.(simState) s.(short_curr) s.(packets) s.(memory) s.(sequencer) s.(stats)
    s.(controllers) s.(curTick) s.(signals).

Abbreviation MP := (M RP).

(** The constructor. *)
Definition newRubyPort (slaves masters : nat) (mem : Mem) (seq : S) (st : RubyStats.Stats)
  (ctrls : list Controller) (tick : Z) : RP :=
  mkRP (replicate slaves (mkPort PacketQueue.newPQ false)) (replicate masters PacketQueue.newPQ)
    PacketQueue.newPQ [] false None Running false ∅ mem seq st ctrls tick [].

(** ** Parts of the state *)
Definition signal_out (x : signal) : MP unit := modify (fun s => s <| signals ::= cons x |>).

Definition thePacket (id : nat) : MP Packet := fun s =>
  match s.(packets) !! id with Some p => Ok (p, s) | None => Err (UB "dangling packet") end.

Definition setPacket (id : nat) (p : Packet) : MP unit :=
  modify (fun s => s <| packets ::= <[id := p]> |>).

Definition deletePacket (id : nat) : MP unit := modify (fun s => s <| packets ::= delete id |>).

Definition thePort (i : Z) : MP M5Port :=
  l ← gets slave_ports; lift (vget l i).

Definition setPort (i : Z) (p : M5Port) : MP unit :=
  l ← gets slave_ports;
  l' ← lift (vset l i p);
  modify (fun s => s <| slave_ports := l' |>).

(** Runs an operation of a part of the state. *)
Definition on_port_queue {A} (i : Z) (m : M PQ A) : MP A :=
  p ← thePort i;
  '(a, q) ← lift (m p.(queue));
  _ ← setPort i (p <| queue := q |>);
  mret a.

Definition on_pio {A} (m : M PQ A) : MP A :=
  q ← gets pio_port;
  '(a, q') ← lift (m q);
  _ ← modify (fun s => s <| pio_port := q' |>);
  mret a.

Definition on_sequencer {A} (m : M S A) : MP A :=
  q ← gets sequencer;
  '(a, q') ← lift (m q);
  _ ← modify (fun s => s <| sequencer := q' |>);
  mret a.

Definition on_stats (m : M RubyStats.Stats unit) : MP unit :=
  x ← gets stats;
  '(_, x') ← lift (m x);
  modify (fun s => s <| stats := x' |>).

Definition getTime : MP Z := gets (fun s => s.(curTick) / sys.(m_clock)).

(** The sender state that the port has pushed, taken off the packet. *)
Definition popSenderState (id : nat) : MP Z :=
  p ← thePacket id;
  match p.(senderState) with
  | RubySenderState port saved =>
      _ ← setPacket id (p <| senderState := saved |>); mret port
  | _ => fail (UB "not a RubyPort::SenderState")
  end.

(** ** Sending *)
Definition sendNextCycle (i : Z) (id : nat) : MP unit :=
  t ← gets curTick;
  on_port_queue i (PacketQueue.schedSendTiming t id (t + sys.(m_clock)) false).

Definition pioSendNextCycle (id : nat) : MP bool :=
  t ← gets curTick;
  _ ← on_pio (PacketQueue.schedSendTiming t id (t + sys.(m_clock)) false);
  mret true.

(** [PioPort::recvTimingResp]: a device answers. *)
Definition recvTimingResp (id : nat) : MP bool :=
  port ← popSenderState id;
  _ ← signal_out (SentResponse port id);
  mret true.

(** ** [M5Port::hitCallback]: the access is complete *)

(** What the port does to the packet before physical memory sees it; the
    second component says whether it does. *)
Definition prepare (p : Packet) : result (Packet * bool) :=
  let accessPhysMem := sys.(access_phys_mem) in
  '(p, accessPhysMem) ←
    (if isLLSC p
     then if isWrite p
          then x ← getExtraData p.(req);
               if negb (x =? 0) then p ← convertScToWrite p; Ok (p, accessPhysMem)
               else Ok (p, false)
          else p ← convertLlToRead p; Ok (p, accessPhysMem)
     else Ok (p, accessPhysMem));
  Ok (p, if isFlush p then false else accessPhysMem).

Definition hitCallback (i : Z) (id : nat) : MP unit :=
  p ← thePacket id;
  let needs := needsResponse p in
  '(p, accessPhysMem) ← lift (prepare p);
  _ ← (if (accessPhysMem : bool)
       then
         m ← gets memory;
         '(p, m) ← lift (AbstractMemory.access p m);
         _ ← setPacket id p;
         modify (fun s => s <| memory := m |>)
       else if needs
       then p ← lift (makeResponse p); setPacket id p
       else setPacket id p);
  if needs then sendNextCycle i id else deletePacket id.

(** ** Draining *)
Definition getDrainCount (de : nat) : MP Z :=
  s ← get;
  let count := outstandingCount s.(sequencer) in
  _ ← assert_ (negb (isDeadlockEventScheduled s.(sequencer))) "isDeadlockEventScheduled() == false";
  n ← (if sys.(pio_connected) then on_pio (PacketQueue.drain de) else mret 0);
  let drain_slave acc i :=
    c ← acc; n ← on_port_queue i (PacketQueue.drain de); mret (c + n) in
  c ← foldl drain_slave (mret (count + n)) (upto (Z.of_nat (length s.(slave_ports))));
  let drain_master acc i :=
    c ← acc;
    l ← gets master_ports;
    q ← lift (vget l i);
    '(n, q') ← lift (PacketQueue.drain de q);
    l' ← lift (vset l i q');
    _ ← modify (fun s => s <| master_ports := l' |>);
    mret (c + n) in
  foldl drain_master (mret c) (upto (Z.of_nat (length s.(master_ports)))).

Definition testDrainComplete : MP unit :=
  d ← gets drainEvent;
  match d with
  | None => mret tt
  | Some de =>
      count ← getDrainCount de;
      if count =? 0
      then _ ← signal_out (DrainDone de); modify (fun s => s <| drainEvent := None |>)
      else mret tt
  end.

Definition drain (de : nat) : MP Z :=
  s ← get;
  _ ← when (isDeadlockEventScheduled s.(sequencer)) (on_sequencer descheduleDeadlockEvent);
  count ← getDrainCount de;
  if negb (count =? 0)
  then _ ← modify (fun s => s <| drainEvent := Some de |> <| simState := Draining |>); mret count
  else _ ← modify (fun s => s <| simState := Drained |>); mret 0.

(** ** Requests and callbacks *)
Section retries.
(** What the core behind a port does in [recvRetry]. *)
Context (recvRetry : Z -> MP unit).

Definition setOnRetryList (i : Z) (v : bool) : MP unit :=
  p ← thePort i; setPort i (p <| onRetryList := v |>).

Definition addToRetryList (i : Z) : MP unit :=
  p ← thePort i;
  if p.(onRetryList) then mret tt
  else
    _ ← setOnRetryList i true;
    modify (fun s => s <| retryList ::= (fun l => l ++ [i]) |> <| waitingOnSequencer := true |>).

Definition sendRetry (i : Z) : MP unit := _ ← signal_out (SentRetry i); recvRetry i.

(** The statistics of a response. *)
Definition record_response (id : nat) : MP unit :=
  p ← thePacket id;
  short ← gets short_curr;
  match p.(req).(contextId) with
  | Some ctx =>
      if negb (isInstFetch p.(req)) && negb short
      then
        t ← getTime;
        tick ← gets curTick;
        let counted := sys.(in_user_mode) tick ctx in
        n ← (if counted && (isRead p || isWrite p) then lift (getSize p) else mret 0);
        on_stats (RubyStats.record_hit t ctx n (isRead p) (isWrite p) counted)
      else mret tt
  | None => mret tt
  end.

Definition wakeRetryList : MP unit :=
  w ← gets waitingOnSequencer;
  if (w : bool)
  then
    curRetryList ← gets retryList;
    _ ← modify (fun s => s <| retryList := [] |> <| waitingOnSequencer := false |>);
    for_each curRetryList (fun i => _ ← setOnRetryList i false; sendRetry i)
  else mret tt.

Definition ruby_hit_callback (id : nat) : MP unit :=
  p ← thePacket id;
  match p.(senderState) with
  | RubySenderState _ _ =>
      _ ← record_response id;
      _ ← modify (fun s => s <| short_curr := false |>);
      port ← popSenderState id;
      _ ← hitCallback port id;
      _ ← wakeRetryList;
      testDrainComplete
  | _ => fail (UB "not a RubyPort::SenderState")
  end.

(** Whether a request is answered without the memory system. *)
Definition shortcut (p : Packet) : MP bool :=
  if isInstFetch p.(req) then mret true
  else if negb sys.(synchrotrace_run)
  then match p.(req).(contextId) with
       | Some ctx =>
           n ← gets (fun s => s.(stats).(RubyStats.num_simulated_threads));
           _ ← assert_ ((0 <=? ctx) && (ctx <? n)) "id >= 0 && id < num_simulated_threads";
           t ← gets curTick;
           mret (sys.(in_pthread) t ctx)
       | None => mret false
       end
  else mret false.

(** The request goes to the sequencer. *)
Definition submit (i : Z) (id : nat) : MP bool :=
  p ← thePacket id;
  a ← lift (getAddr p);
  n ← lift (getSize p);
  off ← lift (RubyAddress.getOffset sys.(ruby) a);
  _ ← assert_ (off + n <=? sys.(ruby).(block_size_bytes)) "within a block";
  status ← on_sequencer (makeRequest id p);
  if bool_decide (status = Sequencer.Issued)
  then
    t ← getTime;
    _ ← on_stats (RubyStats.record_issue t p.(req).(contextId));
    mret true
  else
    _ ← when (negb sys.(m_usingRubyTester)) (addToRetryList i);
    _ ← popSenderState id;
    mret false.

Definition recvTimingReq (i : Z) (id : nat) : MP bool :=
  p ← thePacket id;
  if memInhibitAsserted p
  then _ ← deletePacket id; mret true
  else
    _ ← setPacket id (p <| senderState := RubySenderState i p.(senderState) |>);
    short ← shortcut p;
    if (short : bool)
    then
      _ ← modify (fun s => s <| short_curr := true |>);
      _ ← ruby_hit_callback id;
      mret true
    else
      a ← lift (getAddr p);
      if negb (sys.(isPhysMemAddress) a)
      then _ ← assert_ sys.(pio_connected) "pio_port.isConnected()"; pioSendNextCycle id
      else submit i id.
End retries.

(** [ruby_eviction_callback]: cores that snoop are told of the eviction. *)
Definition FUNC_MASTER : Z := 1.

Definition ruby_eviction_callback (address : Z) : MP unit :=
  n ← gets (fun s => Z.of_nat (length s.(slave_ports)));
  t ← gets curTick;
  let r := mkReq (Some address) (Some 0) FUNC_MASTER 0 None None in
  for_each (upto n) (fun i =>
    when (sys.(isSnooping) i) (signal_out (SentSnoop i (newPacket r InvalidationReq t)))).

(** [recvAtomic] is not implemented. *)
Definition recvAtomic (id : nat) : MP Z :=
  fail (Panic "RubyPort::M5Port::recvAtomic() not implemented!").

(** ** Functional accesses *)
Definition permissions (line : Z) (cs : list Controller) : list AccessPermission :=
  (fun c => c.(getAccessPermission) line) <$> cs.

Definition countp (l : list AccessPermission) (f : AccessPermission -> bool) : Z :=
  Z.of_nat (length (filter (fun p => f p) l)).

Definition perm_is (a b : AccessPermission) : bool := bool_decide (a = b).

(** The bytes [start, start + n) of a block, and a block with new bytes. *)
Definition block_bytes (b : list Z) (start n : Z) : result (list Z) :=
  foldr (fun i acc => x ← vget b (i + start); l ← acc; Ok (x :: l)) (Ok []) (upto n).

Definition store_bytes (b : list Z) (start : Z) (d : list Z) (n : Z) : result (list Z) :=
  foldl (fun acc i => b ← acc; x ← vget d i; vset b (i + start) x) (Ok b) (upto n).

(** The data of the first controller whose permission satisfies [f]. *)
Fixpoint first_block (f : AccessPermission -> bool) (line : Z) (cs : list Controller)
  : result (option (list Z)) :=
  match cs with
  | [] => Ok None
  | c :: cs =>
      if f (c.(getAccessPermission) line)
      then match c.(blocks) !! line with
           | Some b => Ok (Some b) | None => Err (UB "no data block") end
      else first_block f line cs
  end.

(** [doFunctionalRead]; the result has the packet's new buffer. *)
Definition doFunctionalRead (p : Packet) (cs : list Controller) : result (bool * Packet) :=
  a ← getAddr p;
  let line := RubyAddress.makeLineAddress sys.(ruby) a in
  let perms := permissions line cs in
  let num_controllers := Z.of_nat (length cs) in
  _ ← check (countp perms (perm_is Read_Write) <=? 1) "num_rw <= 1";
  data0 ← getPtr p true;
  size ← getSize p;
  let startByte := u32 (a - line) in
  b ← (if (countp perms (fun x => perm_is Invalid x || perm_is NotPresent x) =? num_controllers - 1) &&
          (countp perms (perm_is Backing_Store) =? 1)
       then first_block (perm_is Backing_Store) line cs
       else first_block (fun x => perm_is Read_Only x || perm_is Read_Write x) line cs);
  match b with
  | None => Ok (false, p)
  | Some block =>
      buf ← deref data0;
      bytes ← block_bytes block startByte size;
      buf' ← store_bytes buf 0 bytes size;
      Ok (true, p <| data := Some buf' |>)
  end.

(** Whether a functional write may go through. *)
Definition write_allowed (perms : list AccessPermission) (num_controllers : Z) : bool :=
  ((countp perms (perm_is Busy) =? 0) && (0 <? countp perms (perm_is Read_Only))) ||
  (countp perms (perm_is Read_Write) =? 1) ||
  ((countp perms (fun x => perm_is Invalid x || perm_is NotPresent x) =? num_controllers - 1) &&
   (countp perms (perm_is Backing_Store) =? 1)).

Definition updated (x : AccessPermission) : bool :=
  perm_is Read_Only x || perm_is Read_Write x || perm_is Maybe_Stale x || perm_is Backing_Store x.

Fixpoint write_blocks (line startByte size : Z) (d : option (list Z)) (cs : list Controller)
  : result (list Controller) :=
  match cs with
  | [] => Ok []
  | c :: cs =>
      c' ← (if updated (c.(getAccessPermission) line)
            then match c.(blocks) !! line with
                 | None => Err (UB "no data block")
                 | Some b =>
                     buf ← deref d;
                     b' ← store_bytes b startByte buf size;
                     Ok (c <| blocks ::= <[line := b']> |>)
                 end
            else Ok c);
      cs' ← write_blocks line startByte size d cs;
      Ok (c' :: cs')
  end.

Definition doFunctionalWrite (p : Packet) (cs : list Controller) : result (bool * list Controller) :=
  a ← getAddr p;
  let line := RubyAddress.line_address sys.(ruby) a in
  let perms := permissions line cs in
  _ ← check (countp perms (perm_is Read_Write) <=? 1) "num_rw <= 1";
  data0 ← getPtr p true;
  size ← getSize p;
  let startByte := u32 (a - line) in
  if write_allowed perms (Z.of_nat (length cs))
  then cs' ← write_blocks line startByte size data0 cs; Ok (true, cs')
  else Ok (false, cs).

Definition recvFunctional (id : nat) : MP unit :=
  p ← thePacket id;
  a ← lift (getAddr p);
  if negb (sys.(isPhysMemAddress) a)
  then
    _ ← assert_ sys.(pio_connected) "pio_port.isConnected()";
    fail (Panic "RubyPort::PioPort::recvFunctional() not implemented!")
  else
    n ← lift (getSize p);
    _ ← assert_ (a + n <=? RubyAddress.line_address sys.(ruby) a + sys.(ruby).(block_size_bytes)) "within a block";
    let needs := needsResponse p in
    ok ← (if isRead p
          then
            cs ← gets controllers;
            '(ok, p) ← lift (doFunctionalRead p cs);
            _ ← setPacket id p;
            mret ok
          else if isWrite p
          then
            cs ← gets controllers;
            '(ok, cs') ← lift (doFunctionalWrite p cs);
            _ ← modify (fun s => s <| controllers := cs' |>);
            mret ok
          else fail (Panic "RubyPort: unsupported functional command"));
    _ ← (if negb ok && negb (suppressFuncError p)
         then fail (Panic "Ruby functional access failed") else mret tt);
    _ ← when sys.(access_phys_mem)
         (p ← thePacket id;
          m ← gets memory;
          '(p, m) ← lift (AbstractMemory.functionalAccess p m);
          _ ← setPacket id p;
          modify (fun s => s <| memory := m |>));
    when needs
      (p ← thePacket id; setPacket id (setFunctionalResponseStatus p ok)).

End port.
#[global] Arguments RP : clear implicits.

End RubyPort.
