(* ===== verification/RubyPortRuns.v ===== *)
(** * Ruby ports: retries and responses

    The retry list ([RubyPortRetry]), what each operation does to packets
    and queues ([RubyPortEffects]), and the account of requests over whole
    runs ([RubyPortRuns]). *)

From S2P Require Import Prelude.
From S2P Require Import Frame.
From S2P Require Import Packet.
From S2P Require Import PacketQueue.
From S2P Require Import AbstractMemory.
From S2P Require Import RubyStats.
From S2P Require Import Sequencer.
From S2P Require Import RubyPort.
From S2P Require Import PacketQueueSpec.

(** * The retry list of a Ruby port

    A port that has been refused is told to retry when a response comes back.
    [listed] relates the list, the flag of the port and the flag of the whole:
    it holds at every point of every operation, with the ports that the
    current round of retries has still to visit, also while a core that is
    told to retry sends new requests at once. *)
Module RubyPortRetry.
Import Packet RubyPort.
Export Frame.

Section keeps.
Context {S : Type}.
Implicit Types (s : RP S).

(** ** Operations that only look *)
Context {V : Type} (f : RP S -> V).

Lemma keeps_thePacket id : keeps f (thePacket id).
Proof. intros s a s' H. unfold thePacket in H. by destruct (packets s !! id); inv_run. Qed.
Lemma keeps_thePort i : keeps f (thePort i).
Proof. apply keeps_bind; [apply keeps_gets|intros; apply keeps_lift]. Qed.
End keeps.

#[export] Hint Resolve keeps_thePacket keeps_thePort : keeps.

(** Takes an operation apart; what is left are the writes. *)
Ltac keep :=
  repeat match goal with
  | |- keeps _ (_ ≫= _) => apply keeps_bind; [|intros]
  | |- keeps _ (when _ _) => apply keeps_when
  | |- keeps _ (if _ then _ else _) => apply keeps_if
  | |- keeps _ (match ?x with _ => _ end) => destruct x
  | |- keeps _ (for_each _ _) => apply keeps_for_each; intros
  | |- keeps _ (modify _) => apply keeps_modify; intros
  | |- forall _, _ => intros
  end; try done; eauto with keeps.

(** ** What concerns retries *)
Section retry.
Context {S : Type} `{HS : !RubySequencer S} (sys : Surroundings).
Implicit Types (s : RP S).

Definition retry_view s : list Z * bool * list bool :=
  (s.(retryList), s.(waitingOnSequencer), onRetryList <$> s.(slave_ports)).

(** Replacing a port by one with the same flag. *)
Lemma flags_insert (l l' : list M5Port) i p p' :
  vget l i = Ok p -> vset l i p' = Ok l' -> onRetryList p' = onRetryList p ->
  onRetryList <$> l' = onRetryList <$> l.
Proof.
  intros [? Hg]%vget_Ok Hs E. apply vset_Ok in Hs as [_ ->].
  rewrite list_fmap_insert, E. apply list_insert_id. by rewrite list_lookup_fmap, Hg.
Qed.

Lemma keeps_on_port_queue {A} i (m : M PacketQueue.PQ A) : keeps retry_view (on_port_queue (S := S) i m).
Proof.
  intros s a s' H. unfold on_port_queue, setPort, thePort in H. inv_run.
  destruct x1 as [b q]. inv_run. unfold retry_view. cbn. f_equal.
  eapply flags_insert; [eassumption..|done].
Qed.

Lemma keeps_on_pio {A} (m : M PacketQueue.PQ A) : keeps retry_view (on_pio (S := S) m).
Proof. unfold on_pio. keep. Qed.
Lemma keeps_on_sequencer {A} (m : M S A) : keeps retry_view (on_sequencer m).
Proof. unfold on_sequencer. keep. Qed.
Lemma keeps_on_stats m : keeps retry_view (on_stats (S := S) m).
Proof. unfold on_stats. keep. Qed.
Lemma keeps_signal x : keeps retry_view (signal_out (S := S) x).
Proof. unfold signal_out. keep. Qed.
Lemma keeps_setPacket id p : keeps retry_view (setPacket (S := S) id p).
Proof. unfold setPacket. keep. Qed.
Lemma keeps_deletePacket id : keeps retry_view (deletePacket (S := S) id).
Proof. unfold deletePacket. keep. Qed.
#[local] Hint Resolve keeps_on_pio keeps_on_sequencer keeps_on_stats keeps_signal
  keeps_setPacket keeps_deletePacket keeps_on_port_queue : keeps.

Lemma keeps_popSenderState id : keeps retry_view (popSenderState (S := S) id).
Proof. unfold popSenderState. keep. Qed.
Lemma keeps_port_hitCallback i id : keeps retry_view (hitCallback (S := S) sys i id).
Proof. unfold hitCallback, sendNextCycle. keep. Qed.
Lemma keeps_getDrainCount de : keeps retry_view (getDrainCount sys de).
Proof.
  unfold getDrainCount. keep; (apply keeps_foldl; [auto with keeps|]); intros; keep.
Qed.
#[local] Hint Resolve keeps_popSenderState keeps_port_hitCallback keeps_getDrainCount : keeps.
Lemma keeps_testDrainComplete : keeps retry_view (testDrainComplete sys).
Proof. unfold testDrainComplete. keep. Qed.
Lemma keeps_record_response id : keeps retry_view (record_response (S := S) sys id).
Proof. unfold record_response, getTime. keep. Qed.
Lemma keeps_shortcut p : keeps retry_view (shortcut (S := S) sys p).
Proof. unfold shortcut. keep. Qed.
Lemma keeps_drain de : keeps retry_view (drain sys de).
Proof. unfold drain. keep. Qed.
#[local] Hint Resolve keeps_testDrainComplete keeps_record_response keeps_shortcut keeps_drain : keeps.

(** ** The invariant *)

(** The ports on the list and those in [rem], which a round of retries has
    taken off it and not yet visited, are distinct and are the flagged ones. *)
Definition listed_view (rem : list Z) (v : list Z * bool * list bool) : Prop :=
  let '(l, waiting, flags) := v in
  (waiting = true <-> l <> []) /\ NoDup (l ++ rem) /\
  (forall i, i ∈ l ++ rem -> 0 <= i < Z.of_nat (length flags)) /\
  forall i b, 0 <= i -> flags !! Z.to_nat i = Some b -> (b = true <-> i ∈ l ++ rem).

Definition listed (rem : list Z) s : Prop := listed_view rem (retry_view s).

Definition preserves {A} (m : M (RP S) A) : Prop :=
  forall rem s a s', listed rem s -> m s = Ok (a, s') -> listed rem s'.

Lemma preserves_keeps {A} (m : M (RP S) A) : keeps retry_view m -> preserves m.
Proof. intros H rem s a s' L E. unfold listed. by rewrite (H s a s' E). Qed.

Lemma preserves_bind {A B} (m : M (RP S) A) (k : A -> M (RP S) B) :
  preserves m -> (forall a, preserves (k a)) -> preserves (m ≫= k).
Proof. intros Hm Hk rem s b s' L H. inv_run. eapply Hk; [|eassumption]. by eapply Hm. Qed.

(** A flag is changed. *)
Lemma setOnRetryList_view i v s s' :
  setOnRetryList i v s = Ok (tt, s') ->
  0 <= i < Z.of_nat (length (slave_ports s)) /\
  retry_view s' = (s.(retryList), s.(waitingOnSequencer),
                   <[Z.to_nat i := v]> (onRetryList <$> s.(slave_ports))).
Proof.
  intros H. unfold setOnRetryList, setPort, thePort in H. inv_run.
  match goal with X : vset _ _ _ = Ok _ |- _ => apply vset_Ok in X as [? ->] end.
  split; [done|]. unfold retry_view. cbn. by rewrite list_fmap_insert.
Qed.

Lemma flag_lookup_insert (flags : list bool) i j v b :
  0 <= i -> 0 <= j -> <[Z.to_nat i := v]> flags !! Z.to_nat j = Some b ->
  (i = j /\ b = v) \/ (i <> j /\ flags !! Z.to_nat j = Some b).
Proof.
  intros Hi Hj H. apply list_lookup_insert_Some in H as [(E & -> & _)|[N ?]].
  - left. split; [lia|done].
  - right. split; [congruence|done].
Qed.

Lemma preserves_addToRetryList i : preserves (addToRetryList i).
Proof.
  intros rem s [] s' L H. unfold addToRetryList in H. inv_run.
  match goal with X : thePort i s = Ok (?p, ?t) |- _ =>
    rename p into port; unfold thePort in X; inv_run end.
  match goal with X : vget _ _ = Ok port |- _ => apply vget_Ok in X as [Hi Hp] end.
  destruct (onRetryList port) eqn:Ef; [by injection H0 as <-|]. inv_run.
  match goal with X : setOnRetryList _ _ _ = Ok (?u, ?t) |- _ =>
    destruct u; rename t into s1; apply setOnRetryList_view in X as [Hr V] end.
  unfold retry_view in V. injection V as V1 V2 V3.
  destruct L as (L1 & L2 & L3 & L4). unfold listed, retry_view. cbn. rewrite V1, V3.
  assert (Hn : i ∉ retryList s ++ rem).
  { intros Hin. destruct (L4 i false) as [_ X]; [done|by rewrite list_lookup_fmap, Hp; simpl; rewrite Ef|].
    by specialize (X Hin). }
  rewrite <- app_assoc. change ([i] ++ rem) with (i :: rem).
  split; [split; [|done]; intros _ E; by apply app_nil in E as [_ E]|].
  split; [by rewrite <- Permutation_middle; constructor|].
  split.
  - intros j. rewrite length_insert, length_fmap. rewrite <- Permutation_middle, elem_of_cons.
    intros [->|Hj]; [done|]. specialize (L3 j Hj). by rewrite length_fmap in L3.
  - intros j b Hj Hb. rewrite <- Permutation_middle, elem_of_cons.
    apply flag_lookup_insert in Hb as [[-> ->]|[N Hb]]; [tauto|..|done|done].
    rewrite (L4 j b Hj Hb). naive_solver.
Qed.

(** The flag of the next port of a round is taken down. *)
Lemma listed_visit i rem s s' :
  listed (i :: rem) s -> setOnRetryList i false s = Ok (tt, s') -> listed rem s'.
Proof.
  intros (L1 & L2 & L3 & L4) [Hr V]%setOnRetryList_view. unfold listed. rewrite V.
  rewrite <- Permutation_middle in L2. apply NoDup_cons in L2 as [Hn L2].
  split; [done|]. split; [done|]. split.
  - intros j Hj. rewrite length_insert. apply L3. rewrite <- Permutation_middle, elem_of_cons. by right.
  - intros j b Hj Hb. apply flag_lookup_insert in Hb as [[-> ->]|[N Hb]]; [done|..|lia|done].
    rewrite (L4 j b Hj Hb), <- Permutation_middle, elem_of_cons. naive_solver.
Qed.

Section reaction.
Context (recvRetry : Z -> M (RP S) unit).
Hypothesis reaction : forall i, preserves (recvRetry i).

Lemma retry_loop cur rem s s' :
  listed (cur ++ rem) s ->
  for_each cur (fun i => _ ← setOnRetryList i false; sendRetry recvRetry i) s = Ok (tt, s') ->
  listed rem s'.
Proof using All.
  revert s. induction cur as [|i cur IH]; intros s L H; cbn [for_each app] in *;
    [by injection H as <-|].
  inv_run. repeat match goal with u : unit |- _ => destruct u end.
  eapply IH; [|eassumption].
  match goal with X : sendRetry _ _ _ = Ok _ |- _ => unfold sendRetry in X end. inv_run.
  repeat match goal with u : unit |- _ => destruct u end.
  eapply reaction; [|eassumption]. eapply (preserves_keeps _ (keeps_signal _)); [|eassumption].
  by eapply listed_visit.
Qed.

Lemma preserves_wakeRetryList : preserves (wakeRetryList recvRetry).
Proof using All.
  intros rem s [] s' L H. unfold wakeRetryList in H. inv_run.
  destruct (waitingOnSequencer s); [inv_run|by injection H0 as <-].
  eapply (retry_loop (retryList s) rem); [|eassumption].
  destruct L as (L1 & L2 & L3 & L4). split; [done|]. by split_and!.
Qed.

Lemma preserves_hit id : preserves (ruby_hit_callback sys recvRetry id).
Proof using All.
  unfold ruby_hit_callback. apply preserves_bind; [apply preserves_keeps; auto with keeps|intros p].
  destruct (senderState p); try solve [apply preserves_keeps; auto with keeps].
  do 4 (apply preserves_bind; [apply preserves_keeps; keep|intros]).
  apply preserves_bind; [apply preserves_wakeRetryList|intros; apply preserves_keeps; auto with keeps].
Qed.

Lemma preserves_submit i id : preserves (submit sys i id).
Proof.
  unfold submit.
  repeat (apply preserves_bind; [apply preserves_keeps; unfold getTime; keep|intros]).
  destruct (bool_decide _).
  - apply preserves_keeps. unfold getTime. keep.
  - apply preserves_bind; [|intros; apply preserves_keeps; keep].
    unfold when. destruct (negb _); [apply preserves_addToRetryList|].
    apply preserves_keeps. keep.
Qed.

Lemma preserves_request i id : preserves (recvTimingReq sys recvRetry i id).
Proof using All.
  unfold recvTimingReq. apply preserves_bind; [apply preserves_keeps; keep|intros p].
  destruct (memInhibitAsserted p); [apply preserves_keeps; keep|].
  apply preserves_bind; [apply preserves_keeps; keep|intros _].
  apply preserves_bind; [apply preserves_keeps; keep|intros short].
  destruct short.
  - apply preserves_bind; [apply preserves_keeps; keep|intros _].
    apply preserves_bind; [apply preserves_hit|intros _; apply preserves_keeps; keep].
  - apply preserves_bind; [apply preserves_keeps; keep|intros a].
    destruct (negb _); [apply preserves_keeps; unfold pioSendNextCycle; keep|apply preserves_submit].
Qed.
End reaction.

(** ** Refused requests *)

(** Operations that answer true whenever they return. *)
Definition accepts (m : M (RP S) bool) : Prop := forall s b s', m s = Ok (b, s') -> b = true.

Lemma accepts_bind {A} (m : M (RP S) A) (k : A -> M (RP S) bool) :
  (forall a, accepts (k a)) -> accepts (m ≫= k).
Proof. intros Hk s b s' H. apply M_bind_Ok in H as (a & s1 & _ & H). by eapply Hk. Qed.

Lemma accepts_ret : accepts (mret true).
Proof. intros s b s' H. by injection H. Qed.

Lemma not_accepts m s s' : accepts m -> m s = Ok (false, s') -> False.
Proof. intros Ha H. by apply Ha in H. Qed.

(** A refused port is on the list, and only the list and the sequencer have
    changed. *)
Lemma addToRetryList_on i s s' :
  listed [] s -> addToRetryList i s = Ok (tt, s') ->
  i ∈ s'.(retryList) /\ s'.(packets) = s.(packets).
Proof.
  intros L H. unfold addToRetryList in H. inv_run.
  match goal with X : thePort i s = Ok (?p, ?t) |- _ =>
    rename p into port; unfold thePort in X; inv_run end.
  match goal with X : vget _ _ = Ok port |- _ => apply vget_Ok in X as [Hi Hp] end.
  destruct (onRetryList port) eqn:Ef.
  - injection H0 as <-. split; [|done]. destruct L as (_ & _ & _ & L4).
    destruct (L4 i true) as [X _]; [done|by rewrite list_lookup_fmap, Hp; simpl; rewrite Ef|].
    specialize (X eq_refl). by rewrite app_nil_r in X.
  - inv_run. unfold setOnRetryList, setPort, thePort in *. inv_run. cbn.
    split; [apply elem_of_app; right; by left|done].
Qed.

Lemma popSenderState_Ok id s port s' :
  popSenderState id s = Ok (port, s') ->
  exists p saved, s.(packets) !! id = Some p /\ p.(senderState) = RubySenderState port saved /\
    s' = s <| packets ::= <[id := p <| senderState := saved |>]> |>.
Proof.
  intros H. unfold popSenderState in H. inv_run.
  match goal with X : thePacket id s = Ok (?p, ?t) |- _ =>
    rename p into p0; unfold thePacket in X; destruct (packets s !! id) eqn:E; inv_run end.
  destruct (senderState p0) as [| | |port' saved] eqn:Es; inv_run.
  unfold setPacket in *. inv_run. by exists p0, saved.
Qed.

Lemma keeps_state_shortcut p : keeps (fun s => s) (shortcut (S := S) sys p).
Proof. unfold shortcut. keep. Qed.

Lemma on_sequencer_Ok {A} (m : M S A) s a s' :
  on_sequencer m s = Ok (a, s') -> exists q, s' = s <| sequencer := q |>.
Proof. intros H. unfold on_sequencer in H. inv_run. repeat match goal with x : _ * _ |- _ => destruct x end. inv_run. eauto. Qed.

Lemma thePacket_Ok id s p s' : thePacket id s = Ok (p, s') -> s' = s /\ s.(packets) !! id = Some p.
Proof. intros H. unfold thePacket in H. by destruct (packets s !! id); inv_run. Qed.

Lemma submit_refused i id p s s' :
  listed [] s -> submit sys i id s = Ok (false, s') ->
  s.(packets) !! id = Some (p <| senderState := RubySenderState i p.(senderState) |>) ->
  s'.(packets) = <[id := p]> s.(packets) /\ (sys.(m_usingRubyTester) = false -> i ∈ s'.(retryList)).
Proof.
  intros L H Hid. unfold submit in H.
  apply M_bind_Ok in H as (p0 & t & [-> Hp]%thePacket_Ok & H). rewrite Hid in Hp. injection Hp as <-.
  do 3 apply M_bind_Ok in H as (? & ? & [_ ->]%lift_Ok & H).
  apply M_bind_Ok in H as (? & ? & [_ ->]%assert_Ok & H).
  apply M_bind_Ok in H as (st & t & [q ->]%on_sequencer_Ok & H).
  destruct (bool_decide _).
  { exfalso. eapply not_accepts; [|exact H].
    apply accepts_bind; intros; apply accepts_bind; intros; apply accepts_ret. }
  apply M_bind_Ok in H as ([] & s1 & Hw & H).
  apply M_bind_Ok in H as (port & s2 & (p1 & saved & P1 & E1 & ->)%popSenderState_Ok & H).
  injection H as <-.
  assert (Hs1 : packets s1 = packets s /\ (m_usingRubyTester sys = false -> i ∈ retryList s1)).
  { destruct (m_usingRubyTester sys); cbn [when negb] in Hw.
    - injection Hw as <-. done.
    - apply addToRetryList_on in Hw as [? ?]; [done|exact L]. }
  destruct Hs1 as [Hk Hr]. rewrite Hk, Hid in P1. injection P1 as <-. cbn in E1. injection E1 as <- <-.
  cbn. rewrite Hk. split; [by destruct p|done].
Qed.

Lemma request_refused recvRetry i id s s' :
  listed [] s -> recvTimingReq sys recvRetry i id s = Ok (false, s') ->
  s'.(packets) = s.(packets) /\ (sys.(m_usingRubyTester) = false -> i ∈ s'.(retryList)).
Proof.
  intros L H. unfold recvTimingReq in H.
  apply M_bind_Ok in H as (p & t & [-> Hp]%thePacket_Ok & H).
  destruct (memInhibitAsserted p).
  { exfalso. eapply not_accepts; [|exact H]. apply accepts_bind; intros; apply accepts_ret. }
  apply M_bind_Ok in H as (? & s1 & ->%modify_Ok & H).
  apply M_bind_Ok in H as (short & t & ->%keeps_state_shortcut & H).
  destruct short.
  { exfalso. eapply not_accepts; [|exact H].
    apply accepts_bind; intros; apply accepts_bind; intros; apply accepts_ret. }
  apply M_bind_Ok in H as (a & t & [_ ->]%lift_Ok & H).
  destruct (negb _).
  { exfalso. eapply not_accepts; [|exact H].
    apply accepts_bind; intros; apply accepts_bind; intros; apply accepts_bind; intros; apply accepts_ret. }
  apply (submit_refused i id p) in H; [|exact L|apply lookup_insert_eq].
  cbn in H. destruct H as [-> ?]. split; [|done]. by rewrite insert_insert_eq, insert_id.
Qed.

(** ** Cores that answer a retry at once *)

(** The packets that the core behind a port sends when it is told to retry,
    which may depend on the state.  A request that is sent so may be answered
    at once and start another round; [depth] bounds the nesting. *)
Context (inbox : RP S -> Z -> list nat).

Fixpoint resend (depth : nat) (i : Z) : M (RP S) unit :=
  match depth with
  | O => mret tt
  | Datatypes.S depth =>
      ids ← gets (fun s => inbox s i);
      for_each ids (fun id => _ ← recvTimingReq sys (resend depth) i id; mret tt)
  end.

Lemma preserves_resend depth i : preserves (resend depth i).
Proof.
  revert i. induction depth as [|depth IH]; intros i; cbn [resend]; [apply preserves_keeps; keep|].
  apply preserves_bind; [apply preserves_keeps; keep|intros ids].
  induction ids as [|id ids IHl]; cbn [for_each]; [apply preserves_keeps; keep|].
  apply preserves_bind; [|intros _; exact IHl].
  apply preserves_bind; [by apply preserves_request|intros _; apply preserves_keeps; keep].
Qed.

(** The port in its surroundings: requests, callbacks, and anything that does
    not concern retries. *)
Inductive rstep (depth : nat) : RP S -> RP S -> Prop :=
| RequestStep i id b s s' :
    recvTimingReq sys (resend depth) i id s = Ok (b, s') -> rstep depth s s'
| CallbackStep id s s' :
    ruby_hit_callback sys (resend depth) id s = Ok (tt, s') -> rstep depth s s'
| OtherStep s s' : retry_view s' = retry_view s -> rstep depth s s'.

Lemma listed_new slaves masters mem seq st ctrls tick :
  listed [] (newRubyPort slaves masters mem seq st ctrls tick).
Proof.
  split; [done|]. split; [constructor|]. split; [by intros i Hi%elem_of_nil|].
  intros i b Hi Hb. split; [intros ->|by intros ?%elem_of_nil].
  cbn in Hb. rewrite list_lookup_fmap in Hb.
  apply fmap_Some in Hb as (p & [-> _]%lookup_replicate & E). done.
Qed.

Lemma listed_reachable depth s0 s : listed [] s0 -> rtc (rstep depth) s0 s -> listed [] s.
Proof.
  intros L. revert s. apply rtc_ind_r; [done|]. intros s s' _ Hs IH. destruct Hs.
  - eapply preserves_request; [intros; apply preserves_resend|exact IH|eassumption].
  - eapply preserves_hit; [intros; apply preserves_resend|exact IH|eassumption].
  - unfold listed. by rewrite H.
Qed.

(** C13: the retry list of a Ruby port is right in every reachable state, also
    when cores answer a retry by sending requests at once: the list holds no
    port twice, exactly the ports whose flag says that they are on it, and
    the port waits for the sequencer exactly when it is not empty.  A refused
    request leaves every packet as it was, the sender state included, and its
    port on the list (unless the random tester drives the port). *)
Theorem retry_list_right depth slaves masters mem seq st ctrls tick s :
  rtc (rstep depth) (newRubyPort slaves masters mem seq st ctrls tick) s ->
  NoDup s.(retryList) /\
  (s.(waitingOnSequencer) = true <-> s.(retryList) <> []) /\
  (forall i p, 0 <= i -> s.(slave_ports) !! Z.to_nat i = Some p ->
     (p.(onRetryList) = true <-> i ∈ s.(retryList))) /\
  forall recvRetry i id s', recvTimingReq sys recvRetry i id s = Ok (false, s') ->
    s'.(packets) = s.(packets) /\ (sys.(m_usingRubyTester) = false -> i ∈ s'.(retryList)).
Proof.
  intros H. pose proof (listed_reachable _ _ _ (listed_new _ _ _ _ _ _ _) H) as L.
  split_and!; [| | |intros; by eapply request_refused]; destruct L as (L1 & L2 & L3 & L4).
  - by rewrite app_nil_r in L2.
  - exact L1.
  - intros i p Hi Hp. rewrite app_nil_r in L4. apply L4; [done|].
    by rewrite list_lookup_fmap, Hp.
Qed.
End retry.
End RubyPortRetry.

(** * What the operations of a Ruby port do to packets and queues

    An access keeps the packet's sender state; a response enters the queue of
    the port that the packet names; everything else leaves packets and queues
    alone. *)
Module RubyPortEffects.
Import Packet RubyPort RubyPortRetry.

(** ** Packets keep their sender state *)
Definition same_sender (p p' : Packet) : Prop := p'.(senderState) = p.(senderState).

Lemma makeResponse_sender p p' : makeResponse p = Ok p' -> same_sender p p'.
Proof. unfold makeResponse. intros H. inv_run. done. Qed.

Lemma prepare_sender sys p p' b : prepare sys p = Ok (p', b) -> same_sender p p'.
Proof.
  unfold prepare, convertScToWrite, convertLlToRead. intros H. inv_run.
  match goal with X : (let '(_, _) := ?x in _) = _ |- _ => destruct x as [p1 b1] end. inv_run.
  destruct (isLLSC p); [|by inv_run]. destruct (isWrite p); inv_run; [|done].
  destruct (negb _); inv_run; done.
Qed.

Lemma read_memory_sender p m p' : AbstractMemory.read_memory p m = Ok p' -> same_sender p p'.
Proof.
  unfold AbstractMemory.read_memory. intros H. destruct (AbstractMemory.pmemAddr m); inv_run; done.
Qed.

Lemma writeOK_sender p m ok p' m' :
  AbstractMemory.writeOK p m = Ok (ok, p', m') -> same_sender p p'.
Proof.
  unfold AbstractMemory.writeOK, AbstractMemory.checkLockedAddrList. intros H.
  destruct (AbstractMemory.lockedAddrList m); inv_run; [by destruct (isLLSC p)|].
  match goal with X : (let '(_, _) := ?x in _) = _ |- _ => destruct x end. inv_run.
  by destruct (isLLSC p).
Qed.

Lemma swap_sender p m p' m' : AbstractMemory.swap p m = Ok (p', m') -> same_sender p p'.
Proof.
  unfold AbstractMemory.swap. intros H. destruct (AbstractMemory.pmemAddr m); inv_run; done.
Qed.

Lemma access_sender p m p' m' : AbstractMemory.access p m = Ok (p', m') -> same_sender p p'.
Proof.
  unfold AbstractMemory.access. intros H. apply result_bind_Ok in H as (_ & _ & H).
  destruct (memInhibitAsserted p); [by inv_run|].
  apply result_bind_Ok in H as ([p1 m1] & H1 & H2).
  assert (E1 : same_sender p p1).
  { clear H2. destruct (bool_decide _); [by eapply swap_sender|].
    destruct (isRead p); [inv_run; by eapply read_memory_sender|].
    destruct (isWrite p).
    - apply result_bind_Ok in H1 as ([[ok p2] m2] & Hw & H1). apply writeOK_sender in Hw.
      destruct ok; inv_run; done.
    - destruct (isInvalidate p); by inv_run. }
  destruct (needsResponse p1); [|by inv_run].
  apply result_bind_Ok in H2 as (p2 & E2%makeResponse_sender & H2). inv_run.
  unfold same_sender in *. congruence.
Qed.

(** ** Queues *)
Lemma insert_sorted_perm d l : PacketQueue.insert_sorted d l ≡ₚ d :: l.
Proof.
  induction l as [|x l IH]; simpl; [done|]. destruct (_ <=? _); [|done].
  rewrite IH. apply Permutation_swap.
Qed.

Lemma schedSendEvent_list now when q q' :
  PacketQueue.schedSendEvent now when q = Ok (tt, q') ->
  q'.(PacketQueue.transmitList) = q.(PacketQueue.transmitList).
Proof.
  unfold PacketQueue.schedSendEvent, PacketQueue.schedule, PacketQueue.reschedule, PacketQueue.scheduled.
  intros H. inv_run. match goal with X : get _ = _ |- _ => injection X as <- <- end.
  destruct (PacketQueue.waitingOnRetry q).
  - inv_run. done.
  - destruct (PacketQueue.sendEvent q); [destruct (_ <? _)|]; inv_run; try done.
    match goal with X : mret _ _ = _ |- _ => by injection X as <- end.
Qed.

(** A packet that is added is in the queue, whatever else is there. *)
Lemma schedSendTiming_perm now p when snoop q q' :
  PacketQueue.schedSendTiming now p when snoop q = Ok (tt, q') ->
  q'.(PacketQueue.transmitList) ≡ₚ
  PacketQueue.mkDeferred when p snoop :: q.(PacketQueue.transmitList).
Proof.
  unfold PacketQueue.schedSendTiming. intros H.
  apply M_bind_Ok in H as (? & ? & [_ ->]%assert_Ok & H). rewrite get_run in H.
  destruct (PacketQueue.transmitList q) as [|f rest].
  - apply M_bind_Ok in H as (? & ? & ->%modify_Ok & H). by apply schedSendEvent_list in H as ->.
  - destruct (_ <? _).
    + apply M_bind_Ok in H as (? & ? & ->%modify_Ok & H). by apply schedSendEvent_list in H as ->.
    + destruct (_ <=? _); apply modify_Ok in H as ->; cbn.
      * apply (Permutation_app_comm (f :: rest)  [_]).
      * rewrite insert_sorted_perm. apply Permutation_swap.
Qed.

Lemma drain_list de q n q' :
  PacketQueue.drain de q = Ok (n, q') -> q'.(PacketQueue.transmitList) = q.(PacketQueue.transmitList).
Proof.
  unfold PacketQueue.drain, PacketQueue.scheduled. rewrite get_run, gets_run.
  destruct (PacketQueue.transmitList q) eqn:E.
  - destruct (bool_decide _).
    + intros H. inv_run. cbn. done.
    + intros H. injection H as _ <-. done.
  - intros H. inv_run. cbn. done.
Qed.

(** ** Packets and queues of a port *)
Section effects.
Context {S : Type} `{HS : !RubySequencer S} (sys : Surroundings).
Implicit Types (s : RP S).

Definition queues s : list (list PacketQueue.DeferredPacket) :=
  (fun p => p.(queue).(PacketQueue.transmitList)) <$> s.(slave_ports).

Definition store_view s : gmap nat Packet * list (list PacketQueue.DeferredPacket) :=
  (s.(packets), queues s).

(** Operations on a port's queue. *)
Lemma on_port_queue_Ok {A} i (m : M PacketQueue.PQ A) s a s' :
  on_port_queue i m s = Ok (a, s') ->
  exists p q', 0 <= i /\ s.(slave_ports) !! Z.to_nat i = Some p /\ m p.(queue) = Ok (a, q') /\
    s' = s <| slave_ports := <[Z.to_nat i := p <| queue := q' |>]> s.(slave_ports) |>.
Proof.
  unfold on_port_queue, setPort, thePort. intros H. inv_run.
  repeat match goal with x : _ * _ |- _ => destruct x end. inv_run.
  match goal with X : vget _ _ = Ok ?p |- _ => apply vget_Ok in X as [? ?]; exists p end.
  match goal with X : vset _ _ _ = Ok _ |- _ => apply vset_Ok in X as [_ ->] end. eauto.
Qed.

Lemma queues_insert s i p q' :
  s.(slave_ports) !! i = Some p ->
  queues (s <| slave_ports := <[i := p <| queue := q' |>]> s.(slave_ports) |>) =
  <[i := q'.(PacketQueue.transmitList)]> (queues s).
Proof. intros _. unfold queues. cbn. by rewrite list_fmap_insert. Qed.

Lemma keeps_store_drain i de : keeps store_view (on_port_queue (S := S) i (PacketQueue.drain de)).
Proof.
  intros s a s' (p & q' & Hi & Hp & E & ->)%on_port_queue_Ok. apply drain_list in E.
  unfold store_view. rewrite (queues_insert s _ p) by done. f_equal.
  apply list_insert_id. unfold queues. rewrite list_lookup_fmap, Hp. simpl. by rewrite E.
Qed.

Lemma keeps_store_pio {A} (m : M PacketQueue.PQ A) : keeps store_view (on_pio (S := S) m).
Proof. unfold on_pio. keep. Qed.
Lemma keeps_store_sequencer {A} (m : M S A) : keeps store_view (on_sequencer m).
Proof. unfold on_sequencer. keep. Qed.
Lemma keeps_store_stats m : keeps store_view (on_stats (S := S) m).
Proof. unfold on_stats. keep. Qed.
Lemma keeps_store_signal x : keeps store_view (signal_out (S := S) x).
Proof. unfold signal_out. keep. Qed.

Lemma keeps_store_flag i v : keeps store_view (setOnRetryList (S := S) i v).
Proof.
  intros s [] s' H. unfold setOnRetryList, setPort, thePort in H. inv_run.
  match goal with X : vget _ _ = Ok ?p |- _ => apply vget_Ok in X as [? Hp] end.
  match goal with X : vset _ _ _ = Ok _ |- _ => apply vset_Ok in X as [_ ->] end.
  unfold store_view, queues. cbn. f_equal. rewrite list_fmap_insert. apply list_insert_id.
  by rewrite list_lookup_fmap, Hp.
Qed.
#[local] Hint Resolve keeps_store_drain keeps_store_pio keeps_store_sequencer keeps_store_stats
  keeps_store_signal keeps_store_flag : keeps.

Lemma keeps_store_getDrainCount de : keeps store_view (getDrainCount sys de).
Proof.
  unfold getDrainCount. keep; (apply keeps_foldl; [auto with keeps|]); intros; keep.
Qed.
#[local] Hint Resolve keeps_store_getDrainCount : keeps.
Lemma keeps_store_testDrain : keeps store_view (testDrainComplete sys).
Proof. unfold testDrainComplete. keep. Qed.
Lemma keeps_store_response id : keeps store_view (record_response (S := S) sys id).
Proof. unfold record_response, getTime. keep. Qed.
Lemma keeps_store_addRetry i : keeps store_view (addToRetryList (S := S) i).
Proof. unfold addToRetryList. keep. Qed.
Lemma keeps_store_wake : keeps store_view (wakeRetryList (S := S) (fun _ => mret tt)).
Proof. unfold wakeRetryList, sendRetry. keep. Qed.
#[local] Hint Resolve keeps_store_testDrain keeps_store_response keeps_store_addRetry keeps_store_wake : keeps.

(** ** A response *)

(** The packet has left the port: either its response is in the queue of port
    [i] with the sender state [sv], or, when none was asked for ([needs]), it
    is gone. *)
Definition answered (needs : bool) (i id : nat) (sv : SenderState) s s' : Prop :=
  (needs = true /\ exists p' l d, s'.(packets) = <[id := p']> s.(packets) /\ p'.(senderState) = sv /\
     queues s !! i = Some l /\ d.(PacketQueue.pkt) = id /\
     exists l', l' ≡ₚ d :: l /\ queues s' = <[i := l']> (queues s)) \/
  (needs = false /\ s'.(packets) = delete id s.(packets) /\ queues s' = queues s).

Lemma answered_view needs i id sv s t s' :
  answered needs i id sv s t -> store_view s' = store_view t -> answered needs i id sv s s'.
Proof. unfold answered, store_view. intros H [= -> ->]. exact H. Qed.

Lemma answered_from needs i id sv t s s' p :
  answered needs i id sv t s' -> queues t = queues s -> t.(packets) = <[id := p]> s.(packets) ->
  answered needs i id sv s s'.
Proof.
  unfold answered. intros [(N & p' & l & d & E & H)|(N & E & H)] Hq Hp; rewrite Hq, Hp in *.
  - left. split; [done|]. exists p', l, d. by rewrite insert_insert_eq in E.
  - right. by rewrite delete_insert_eq in E.
Qed.

Lemma sendNextCycle_effect i id s s' :
  sendNextCycle sys i id s = Ok (tt, s') ->
  s'.(packets) = s.(packets) /\
  exists l d, queues s !! Z.to_nat i = Some l /\ d.(PacketQueue.pkt) = id /\
    exists l', l' ≡ₚ d :: l /\ queues s' = <[Z.to_nat i := l']> (queues s).
Proof.
  unfold sendNextCycle. rewrite gets_run.
  intros (p & q' & Hi & Hp & E & ->)%on_port_queue_Ok. split; [done|].
  exists (p.(queue).(PacketQueue.transmitList)), (PacketQueue.mkDeferred (curTick s + m_clock sys) id false).
  split; [unfold queues; by rewrite list_lookup_fmap, Hp|]. split; [done|].
  exists (q'.(PacketQueue.transmitList)). split; [by eapply schedSendTiming_perm|].
  by apply queues_insert.
Qed.

Lemma hitCallback_effect i id p s s' :
  s.(packets) !! id = Some p -> hitCallback sys i id s = Ok (tt, s') ->
  answered (needsResponse p) (Z.to_nat i) id p.(senderState) s s'.
Proof.
  intros Hp H. unfold hitCallback in H.
  apply M_bind_Ok in H as (p0 & t & [-> Hp0]%thePacket_Ok & H). rewrite Hp in Hp0. injection Hp0 as <-.
  apply M_bind_Ok in H as ([p1 ph] & t & [E1%prepare_sender ->]%lift_Ok & H).
  apply M_bind_Ok in H as (? & s1 & H1 & H).
  assert (E2 : exists p2, s1.(packets) = <[id := p2]> s.(packets) /\ p2.(senderState) = p.(senderState)
                          /\ queues s1 = queues s).
  { unfold same_sender in E1. destruct ph; [|destruct (needsResponse p)].
    - rewrite gets_run in H1. apply M_bind_Ok in H1 as ([p2 m2] & t & [E2%access_sender ->]%lift_Ok & H1).
      apply M_bind_Ok in H1 as (? & t & ->%modify_Ok & ->%modify_Ok).
      exists p2. unfold same_sender in E2. split_and!; [done|congruence|done].
    - apply M_bind_Ok in H1 as (p2 & t & [E2%makeResponse_sender ->]%lift_Ok & ->%modify_Ok).
      exists p2. unfold same_sender in E2. split_and!; [done|congruence|done].
    - apply modify_Ok in H1 as ->. exists p1. split_and!; [done|congruence|done]. }
  destruct E2 as (p2 & P2 & S2 & Q2). destruct (needsResponse p).
  - apply sendNextCycle_effect in H as (P3 & l & d & Hl & Hd & l' & Hl' & Hq).
    left. split; [done|]. exists p2, l, d. rewrite P3, <- Q2. split_and!; try done. by exists l'.
  - apply modify_Ok in H as ->. right. cbn. split; [done|]. split; [by rewrite P2, delete_insert_eq|done].
Qed.

Lemma hit_effect id p i sv s s' :
  s.(packets) !! id = Some p -> p.(senderState) = RubySenderState i sv ->
  ruby_hit_callback sys (fun _ => mret tt) id s = Ok (tt, s') ->
  answered (needsResponse p) (Z.to_nat i) id sv s s'.
Proof.
  intros Hp Es H. unfold ruby_hit_callback in H.
  apply M_bind_Ok in H as (p0 & t & [-> Hp0]%thePacket_Ok & H). rewrite Hp in Hp0. injection Hp0 as <-.
  rewrite Es in H.
  apply M_bind_Ok in H as (? & s1 & V1%keeps_store_response & H).
  apply M_bind_Ok in H as (? & s2 & ->%modify_Ok & H).
  apply M_bind_Ok in H as (port & s3 & (p3 & sv3 & P3 & E3 & ->)%popSenderState_Ok & H).
  injection V1 as V1 V1'. cbn in P3. rewrite V1, Hp in P3. injection P3 as <-.
  rewrite Es in E3. injection E3 as <- <-.
  apply M_bind_Ok in H as ([] & s4 & H4 & H).
  apply M_bind_Ok in H as (? & s5 & V5%keeps_store_wake & V6%keeps_store_testDrain).
  eapply (answered_view _ _ _ _ _ s4); [|congruence].
  eapply (hitCallback_effect _ _ (p <| senderState := sv |>)) in H4; [|cbn; apply lookup_insert_eq].
  eapply answered_from; [exact H4|exact V1'|cbn; by rewrite V1].
Qed.

(** ** A request *)

(** The packet has entered, with the port noted in it. *)
Definition entered (i : Z) (id : nat) (p : Packet) s s' : Prop :=
  s'.(packets) = <[id := p <| senderState := RubySenderState i p.(senderState) |>]> s.(packets) /\
  queues s' = queues s.

Lemma submit_effect i id p s b s' :
  s.(packets) !! id = Some (p <| senderState := RubySenderState i p.(senderState) |>) ->
  submit sys i id s = Ok (b, s') ->
  queues s' = queues s /\
  s'.(packets) = if b then s.(packets) else <[id := p]> s.(packets).
Proof.
  intros Hid H. unfold submit in H.
  apply M_bind_Ok in H as (p0 & t & [-> Hp]%thePacket_Ok & H). rewrite Hid in Hp. injection Hp as <-.
  do 3 apply M_bind_Ok in H as (? & ? & [_ ->]%lift_Ok & H).
  apply M_bind_Ok in H as (? & ? & [_ ->]%assert_Ok & H).
  apply M_bind_Ok in H as (st & t & [q ->]%on_sequencer_Ok & H).
  destruct (bool_decide _).
  - apply M_bind_Ok in H as (tm & t & [_ ->]%gets_Ok & H).
    apply M_bind_Ok in H as (? & s1 & V%keeps_store_stats & H). injection H as <- <-.
    injection V as V1 V2. by rewrite V1, V2.
  - apply M_bind_Ok in H as ([] & s1 & Hw & H).
    assert (V : store_view s1 = store_view s).
    { unfold when in Hw. destruct (negb _); [|by injection Hw as <-].
      by apply keeps_store_addRetry in Hw. }
    injection V as V1 V2.
    apply M_bind_Ok in H as (port & s2 & (p1 & saved & P1 & E1 & ->)%popSenderState_Ok & H).
    injection H as <- <-. rewrite V1, Hid in P1. injection P1 as <-. cbn in E1. injection E1 as <- <-.
    cbn. split; [exact V2|]. rewrite V1. by destruct p.
Qed.

(** Whether the port is to answer a request: a packet that a snooper answers
    is deleted on arrival. *)
Definition expects (p : Packet) : bool := needsResponse p && negb (memInhibitAsserted p).

Lemma request_effect i id p s b s' :
  s.(packets) !! id = Some p ->
  recvTimingReq sys (fun _ => mret tt) i id s = Ok (b, s') ->
  if b then entered i id p s s' \/
            answered (expects p) (Z.to_nat i) id p.(senderState) s s'
  else store_view s' = store_view s.
Proof.
  intros Hp H. unfold recvTimingReq, expects in *.
  apply M_bind_Ok in H as (p0 & t & [-> Hp0]%thePacket_Ok & H). rewrite Hp in Hp0. injection Hp0 as <-.
  destruct (memInhibitAsserted p); rewrite ?andb_false_r, ?andb_true_r.
  { apply M_bind_Ok in H as (? & t & ->%modify_Ok & H). injection H as <- <-. by right; right. }
  apply M_bind_Ok in H as (? & t & ->%modify_Ok & H).
  apply M_bind_Ok in H as (short & t & ->%keeps_state_shortcut & H).
  destruct short.
  { apply M_bind_Ok in H as (? & t & ->%modify_Ok & H).
    apply M_bind_Ok in H as ([] & t & H1 & H). injection H as <- <-. right.
    eapply hit_effect in H1; [|cbn; apply lookup_insert_eq|reflexivity].
    eapply answered_from; [exact H1|reflexivity|reflexivity]. }
  apply M_bind_Ok in H as (a & t & [_ ->]%lift_Ok & H).
  destruct (negb _).
  - apply M_bind_Ok in H as (? & t & [_ ->]%assert_Ok & H). unfold pioSendNextCycle in H.
    rewrite gets_run in H. apply M_bind_Ok in H as (? & s1 & V%keeps_store_pio & H).
    injection H as <- <-. left. injection V as V1 V2. split; [by rewrite V1|by rewrite V2].
  - apply (submit_effect i id p) in H as [Hq Hk]; [|cbn; apply lookup_insert_eq].
    destruct b; [left; by split|]. unfold store_view. rewrite Hq, Hk. cbn.
    by rewrite insert_insert_eq, insert_id.
Qed.

(** The answer of a device. *)
Lemma device_effect id s b s' :
  recvTimingResp id s = Ok (b, s') ->
  exists p port sv, s.(packets) !! id = Some p /\ p.(senderState) = RubySenderState port sv /\
    b = true /\ s'.(packets) = <[id := p <| senderState := sv |>]> s.(packets) /\
    queues s' = queues s /\ s'.(signals) = SentResponse port id :: s.(signals).
Proof.
  unfold recvTimingResp. intros H.
  apply M_bind_Ok in H as (port & s1 & (p & sv & P & E & ->)%popSenderState_Ok & H).
  apply M_bind_Ok in H as (? & t & ->%modify_Ok & H). injection H as <- <-.
  by exists p, port, sv.
Qed.
End effects.
End RubyPortEffects.

(** * Every accepted request is answered once, at its own port

    The port with cores, sequencer and devices around it, as a transition
    system; the cores do not send requests from within [recvRetry].  The
    invariant counts: the requests accepted are those delivered, those that
    asked for no response, those whose response is in the queue of the port
    they came from, and those inside the memory system. *)
Module RubyPortRuns.
Import Packet RubyPort RubyPortRetry RubyPortEffects.

(** A request: the port, the packet, and the sender state it came with. *)
Definition request : Type := Z * nat * SenderState.

(** ** Inside the memory system *)
Definition noted (sv : SenderState) : option (Z * SenderState) :=
  match sv with RubySenderState i saved => Some (i, saved) | _ => None end.

Definition notes (m : gmap nat Packet) : gmap nat (Z * SenderState) :=
  omap (fun p => noted p.(senderState)) m.

Definition as_request (x : nat * (Z * SenderState)) : request := (x.2.1, x.1, x.2.2).

Definition inside (m : gmap nat Packet) : list request := as_request <$> map_to_list (notes m).

Lemma notes_lookup m id p : m !! id = Some p -> notes m !! id = noted p.(senderState).
Proof. intros H. unfold notes. by rewrite lookup_omap, H. Qed.

Lemma notes_None m id : m !! id = None -> notes m !! id = None.
Proof. intros H. unfold notes. by rewrite lookup_omap, H. Qed.

Lemma inside_enter m id p i sv :
  notes m !! id = None -> p.(senderState) = RubySenderState i sv ->
  inside (<[id := p]> m) ≡ₚ (i, id, sv) :: inside m.
Proof.
  intros Hn E. unfold inside, notes. erewrite omap_insert_Some by (rewrite E; reflexivity).
  fold (notes m). rewrite map_to_list_insert by done. done.
Qed.

Lemma inside_leave m id i sv m' :
  notes m !! id = Some (i, sv) -> notes m' = delete id (notes m) ->
  inside m ≡ₚ (i, id, sv) :: inside m'.
Proof.
  intros H E. unfold inside. rewrite E, <- (map_to_list_delete _ _ _ H). done.
Qed.

Lemma notes_insert_plain m id p :
  noted p.(senderState) = None -> notes (<[id := p]> m) = delete id (notes m).
Proof. intros E. unfold notes. by rewrite omap_insert_None. Qed.

Lemma notes_delete m id : notes (delete id m) = delete id (notes m).
Proof. apply omap_delete. Qed.

(** ** In the queues *)
Definition sender (m : gmap nat Packet) (id : nat) : SenderState :=
  match m !! id with Some p => p.(senderState) | None => NoState end.

Definition waiting_in (m : gmap nat Packet) (i : Z) (d : PacketQueue.DeferredPacket) : request :=
  (i, d.(PacketQueue.pkt), sender m d.(PacketQueue.pkt)).

(** The responses in the queues of ports [i], [i + 1], ... *)
Fixpoint queued_from (m : gmap nat Packet) (i : Z) (qs : list (list PacketQueue.DeferredPacket))
  : list request :=
  match qs with
  | [] => []
  | q :: qs => (waiting_in m i <$> q) ++ queued_from m (i + 1) qs
  end.

Fixpoint queued_ids (qs : list (list PacketQueue.DeferredPacket)) : list nat :=
  match qs with [] => [] | q :: qs => (PacketQueue.pkt <$> q) ++ queued_ids qs end.

Lemma queued_ext m m' i qs :
  (forall id, id ∈ queued_ids qs -> sender m' id = sender m id) ->
  queued_from m' i qs = queued_from m i qs.
Proof.
  revert i. induction qs as [|q qs IH]; intros i H; [done|]. simpl. f_equal.
  - apply list_fmap_ext. intros k d Hd. unfold waiting_in. rewrite H; [done|].
    simpl. apply elem_of_app. left. apply list_elem_of_fmap_2.
    by eapply list_elem_of_lookup_2.
  - apply IH. intros id Hid. apply H. simpl. apply elem_of_app. by right.
Qed.

Lemma queued_insert m i k qs l l' d :
  qs !! k = Some l -> l' ≡ₚ d :: l ->
  queued_from m i (<[k := l']> qs) ≡ₚ waiting_in m (i + Z.of_nat k) d :: queued_from m i qs.
Proof.
  intros Hk Hp. revert i k Hk. induction qs as [|q qs IH]; intros i k Hk; [done|].
  destruct k as [|k]; simpl in *.
  - injection Hk as ->. rewrite Hp, Z.add_0_r. done.
  - rewrite (IH (i + 1) k Hk), <- Permutation_middle.
    by replace (i + 1 + Z.of_nat k) with (i + Z.of_nat (S k)) by lia.
Qed.

Lemma queued_ids_insert k qs l l' d id :
  qs !! k = Some l -> l' ≡ₚ d :: l ->
  id ∈ queued_ids (<[k := l']> qs) -> id = d.(PacketQueue.pkt) \/ id ∈ queued_ids qs.
Proof.
  intros Hk Hp. revert k Hk. induction qs as [|q qs IH]; intros k Hk; [done|].
  destruct k as [|k]; simpl in *.
  - injection Hk as ->. rewrite Hp. set_solver.
  - rewrite !elem_of_app. intros [?|Hin]; [by right; left|]. apply IH in Hin as [?|?]; auto.
Qed.

(** Removing a packet from a queue. *)
Lemma queued_ids_remove k qs l l' id :
  qs !! k = Some l -> (forall d, d ∈ l' -> d ∈ l) ->
  id ∈ queued_ids (<[k := l']> qs) -> id ∈ queued_ids qs.
Proof.
  intros Hk Hp. revert k Hk. induction qs as [|q qs IH]; intros k Hk; [done|].
  destruct k as [|k]; simpl in *.
  - injection Hk as ->. rewrite !elem_of_app, !list_elem_of_fmap. naive_solver.
  - rewrite !elem_of_app. intros [?|Hin]; [by left|]. right. by eapply IH.
Qed.

(** A queue offers its first packet to the core, which takes it or not. *)
Lemma scheduleSend_list now t q q' :
  PacketQueue.scheduleSend now t q = Ok (tt, q') ->
  q'.(PacketQueue.transmitList) = q.(PacketQueue.transmitList).
Proof.
  unfold PacketQueue.scheduleSend, PacketQueue.scheduled, PacketQueue.schedule.
  rewrite get_run, gets_run. destruct (negb _).
  - destruct (bool_decide _); [intros H; by injection H as <-|].
    intros H. unfold PacketQueue.scheduled in H. inv_run. done.
  - destruct (PacketQueue.drainEvent q); [destruct (bool_decide _)|]; intros H;
      by injection H as <-.
Qed.

Lemma handed_over now (ok : bool) q q' d rest :
  PacketQueue.sendDeferredPacket (PacketQueueSpec.react now ok []) now q = Ok (tt, q') ->
  q.(PacketQueue.transmitList) = d :: rest ->
  q'.(PacketQueue.transmitList) = if ok then rest else d :: rest.
Proof.
  unfold PacketQueue.sendDeferredPacket, PacketQueue.trySendTiming. intros H Hl.
  apply M_bind_Ok in H as (? & q1 & H1 & H). rewrite get_run in H1.
  apply M_bind_Ok in H1 as (? & ? & [_ ->]%assert_Ok & H1). rewrite Hl in H1.
  apply M_bind_Ok in H1 as (? & ? & ->%modify_Ok & H1).
  apply M_bind_Ok in H1 as (ok' & q2 & E2 & H1). injection E2 as <- <-.
  apply M_bind_Ok in H1 as (? & ? & ->%modify_Ok & H1). destruct ok.
  - injection H1 as _ <-. rewrite gets_run in H. cbn in H. by apply scheduleSend_list in H as ->.
  - apply M_bind_Ok in H1 as (b & ? & [_ ->]%gets_Ok & H1).
    apply M_bind_Ok in H1 as (? & ? & [_ ->]%assert_Ok & ->%modify_Ok).
    rewrite gets_run in H. injection H as <-. done.
Qed.

(** ** Runs *)
Section runs.
Context {S : Type} `{HS : !RubySequencer S} (sys : Surroundings).

Record history := mkHistory {
  port : RP S;
  accepted : list request;
  delivered : list request;
  dropped : list (request * Packet)        (* with the packet, which is gone *)
}.

Definition quiet_core : Z -> M (RP S) unit := fun _ => mret tt.

(** The packet of a request that has left the store. *)
Definition gone (r : request) (p : Packet) (s' : RP S) : list (request * Packet) :=
  if bool_decide (s'.(packets) !! r.1.2 = None) then [(r, p)] else [].

Inductive hstep : history -> history -> Prop :=
| HRequest h i id p b s' :
    0 <= i -> h.(port).(packets) !! id = Some p -> noted p.(senderState) = None ->
    id ∉ queued_ids (queues h.(port)) ->
    recvTimingReq sys quiet_core i id h.(port) = Ok (b, s') ->
    let r := (i, id, p.(senderState)) in
    hstep h (if b then mkHistory s' (r :: h.(accepted)) h.(delivered) (gone r p s' ++ h.(dropped))
             else mkHistory s' h.(accepted) h.(delivered) h.(dropped))
| HCallback h id p i sv s' :
    h.(port).(packets) !! id = Some p -> p.(senderState) = RubySenderState i sv -> 0 <= i ->
    ruby_hit_callback sys quiet_core id h.(port) = Ok (tt, s') ->
    hstep h (mkHistory s' h.(accepted) h.(delivered) (gone (i, id, sv) p s' ++ h.(dropped)))
| HDevice h id i s' :
    recvTimingResp id h.(port) = Ok (true, s') ->
    head s'.(signals) = Some (SentResponse i id) ->
    hstep h (mkHistory s' h.(accepted) ((i, id, sender s'.(packets) id) :: h.(delivered)) h.(dropped))
| HDeliver h i p d rest (ok : bool) q' :
    (* a queue offers its first response to the core, for the first time or
       again *)
    h.(port).(slave_ports) !! i = Some p -> p.(queue).(PacketQueue.transmitList) = d :: rest ->
    PacketQueue.sendDeferredPacket (PacketQueueSpec.react h.(port).(curTick) ok [])
      h.(port).(curTick) (p.(queue) <| PacketQueue.sendEvent := None |>) = Ok (tt, q') ->
    hstep h (mkHistory
      (h.(port) <| slave_ports := <[i := p <| queue := q' |>]> h.(port).(slave_ports) |>)
      h.(accepted)
      (if ok then waiting_in h.(port).(packets) (Z.of_nat i) d :: h.(delivered) else h.(delivered))
      h.(dropped))
| HOther h s' :
    (* the rest of the system: it may do what it likes with packets that are
       neither inside nor queued *)
    queues s' = queues h.(port) -> notes s'.(packets) = notes h.(port).(packets) ->
    (forall id, id ∈ queued_ids (queues h.(port)) ->
       sender s'.(packets) id = sender h.(port).(packets) id) ->
    hstep h (mkHistory s' h.(accepted) h.(delivered) h.(dropped)).

Definition queued (s : RP S) : list request := queued_from s.(packets) 0 (queues s).

Record accounted (h : history) : Prop := {
  ac_count : h.(accepted) ≡ₚ h.(delivered) ++ (fst <$> h.(dropped)) ++ queued h.(port) ++
                             inside h.(port).(packets);
  ac_apart : forall id i sv, notes h.(port).(packets) !! id = Some (i, sv) ->
               (id ∉ queued_ids (queues h.(port))) /\ noted sv = None;
  ac_dropped : Forall (fun x => expects x.2 = false) h.(dropped)
}.

(** A packet that is not queued may change its sender state. *)
Lemma queued_change m m' qs id :
  id ∉ queued_ids qs -> (forall j, j <> id -> m' !! j = m !! j) ->
  queued_from m' 0 qs = queued_from m 0 qs.
Proof.
  intros Hn Hm. apply queued_ext. intros j Hj. unfold sender. rewrite Hm; [done|].
  intros ->. done.
Qed.

(** What happens to the count when a request, outside or inside, is answered. *)
Lemma answered_account needs i id sv (s s' : RP S) :
  answered needs (Z.to_nat i) id sv s s' -> 0 <= i -> noted sv = None ->
  id ∉ queued_ids (queues s) -> is_Some (s.(packets) !! id) ->
  exists k, k ++ queued s' ≡ₚ (i, id, sv) :: queued s /\
    (s'.(packets) !! id = None -> k = [(i, id, sv)] /\ needs = false) /\
    (s'.(packets) !! id <> None -> k = []) /\
    notes s'.(packets) = delete id (notes s.(packets)) /\
    forall j, j ∈ queued_ids (queues s') -> j = id \/ j ∈ queued_ids (queues s).
Proof.
  intros A Hi Hsv Hn [p Hp]. destruct A as [(N & p' & l & d & E & Es & Hl & Hd & l' & Hl' & Hq)|(N & E & Hq)].
  - exists []. unfold queued. rewrite E, Hq.
    split; [|split; [|split; [done|split]]].
    + rewrite (queued_insert _ 0 _ _ l l' d Hl Hl'). simpl. unfold waiting_in. rewrite Hd.
      unfold sender at 1. rewrite lookup_insert_eq, Es, Z2Nat.id by done. constructor.
      rewrite (queued_change s.(packets) _ _ id); [done..|].
      intros j Hj. by rewrite lookup_insert_ne.
    + by rewrite lookup_insert_eq.
    + apply notes_insert_plain. by rewrite Es.
    + intros j Hj. eapply queued_ids_insert in Hj; [|done|done]. by rewrite Hd in Hj.
  - exists [(i, id, sv)]. unfold queued. rewrite E, Hq.
    split; [|split; [done|split; [by rewrite lookup_delete_eq|split]]].
    + rewrite (queued_change s.(packets) _ _ id); [done..|]. intros j Hj. by rewrite lookup_delete_ne.
    + apply notes_delete.
    + auto.
Qed.

Lemma account_swap (D X Q Q' I k : list request) r :
  k ++ Q' ≡ₚ r :: Q -> r :: D ++ X ++ Q ++ I ≡ₚ D ++ (k ++ X) ++ Q' ++ I.
Proof.
  intros H. transitivity (D ++ X ++ (r :: Q) ++ I); [solve_Permutation|].
  rewrite <- H. solve_Permutation.
Qed.

(** The account after a request with note [r], which was inside or has just
    been accepted, is answered. *)
Lemma accounted_answer h needs i id sv p s' acc :
  answered needs (Z.to_nat i) id sv h.(port) s' -> 0 <= i -> noted sv = None ->
  h.(port).(packets) !! id = Some p -> (needs = false -> expects p = false) ->
  id ∉ queued_ids (queues h.(port)) -> accounted h ->
  acc ≡ₚ (i, id, sv) :: h.(delivered) ++ (fst <$> h.(dropped)) ++ queued h.(port) ++
         inside (delete id h.(port).(packets)) ->
  accounted (mkHistory s' acc h.(delivered) (gone (i, id, sv) p s' ++ h.(dropped))).
Proof.
  intros A Hi Hsv Hp Hneeds Hn [_ Ha Hd] Hacc.
  destruct (answered_account needs i id sv h.(port) s') as (k & Hk & K1 & K2 & Hnotes & Hids); [done..|].
  assert (Hg : fst <$> gone (i, id, sv) p s' = k /\
               Forall (fun x => expects x.2 = false) (gone (i, id, sv) p s')).
  { unfold gone. cbn. case_bool_decide as E.
    - destruct (K1 E) as [-> Hf]. split; [done|]. repeat constructor. by apply Hneeds.
    - by rewrite (K2 E). }
  destruct Hg as [Hg Hg']. constructor; cbn.
  - rewrite Hacc, fmap_app, Hg.
    assert (Hin : inside (packets s') = inside (delete id (packets (port h))))
      by (unfold inside; by rewrite Hnotes, notes_delete).
    rewrite Hin. by apply account_swap.
  - intros j i' sv' Hj. rewrite Hnotes in Hj. apply lookup_delete_Some in Hj as [Nj Hj].
    destruct (Ha j i' sv' Hj) as [Hq ?]. split; [|done]. intros [->|?]%Hids; done.
  - by apply Forall_app.
Qed.

(** A request goes inside. *)
Lemma accounted_enter h i id p s' :
  accounted h -> entered i id p h.(port) s' -> notes h.(port).(packets) !! id = None ->
  noted p.(senderState) = None -> id ∉ queued_ids (queues h.(port)) ->
  let r := (i, id, p.(senderState)) in
  accounted (mkHistory s' (r :: h.(accepted)) h.(delivered) (gone r p s' ++ h.(dropped))).
Proof.
  intros [Hc Ha Hd] [Hk Hqs] Hnid Hn Hq r.
  assert (Hg : gone r p s' = []).
  { unfold gone. rewrite bool_decide_eq_false_2; [done|]. rewrite Hk. cbn. by rewrite lookup_insert_eq. }
  rewrite Hg. constructor; cbn; [| |done].
  - rewrite Hc, Hk, (inside_enter _ _ _ i p.(senderState)) by done.
    unfold queued. rewrite Hqs.
    rewrite (queued_change (packets (port h)) (packets s') _ id);
      [|done|intros j Hj; by rewrite Hk, lookup_insert_ne].
    unfold r. solve_Permutation.
  - intros j i' sv'. rewrite Hk, Hqs. unfold notes. erewrite omap_insert_Some by reflexivity.
    fold (notes (packets (port h))). intros [[<- [= <- <-]]|[Nj Hj]]%lookup_insert_Some; [done|].
    by eapply Ha.
Qed.

(** A device answers. *)
Lemma accounted_device h id i s' :
  accounted h -> recvTimingResp id h.(port) = Ok (true, s') ->
  head s'.(signals) = Some (SentResponse i id) ->
  accounted (mkHistory s' h.(accepted) ((i, id, sender s'.(packets) id) :: h.(delivered)) h.(dropped)).
Proof.
  intros [Hc Ha Hd] H Hs.
  destruct (device_effect id (port h) true s' H) as (p & i' & sv & Hp & Es & _ & Hk & Hqs & Hsig).
  rewrite Hsig in Hs. injection Hs as ->.
  assert (Hnid : notes h.(port).(packets) !! id = Some (i, sv))
    by (by rewrite (notes_lookup _ _ _ Hp), Es).
  destruct (Ha id i sv Hnid) as [Hq Hsv].
  assert (Hnotes : notes (packets s') = delete id (notes (packets (port h))))
    by (rewrite Hk; by apply notes_insert_plain).
  assert (Hsend : sender (packets s') id = sv) by (unfold sender; by rewrite Hk, lookup_insert_eq).
  constructor; cbn; [| |done].
  - rewrite Hc, (inside_leave _ id i sv (packets s')) by done. unfold queued. rewrite Hqs.
    rewrite (queued_change (packets (port h)) (packets s') _ id);
      [|done|intros j Hj; by rewrite Hk, lookup_insert_ne].
    rewrite Hsend. solve_Permutation.
  - intros j i2 sv2. rewrite Hnotes, Hqs. intros [Nj Hj]%lookup_delete_Some. by eapply Ha.
Qed.

(** A response leaves its queue. *)
Lemma accounted_deliver h i p d rest (ok : bool) q' :
  accounted h -> h.(port).(slave_ports) !! i = Some p ->
  p.(queue).(PacketQueue.transmitList) = d :: rest ->
  q'.(PacketQueue.transmitList) = (if ok then rest else d :: rest) ->
  accounted (mkHistory
    (h.(port) <| slave_ports := <[i := p <| queue := q' |>]> h.(port).(slave_ports) |>)
    h.(accepted)
    (if ok then waiting_in h.(port).(packets) (Z.of_nat i) d :: h.(delivered) else h.(delivered))
    h.(dropped)).
Proof.
  intros [Hc Ha Hd] Hp Hl H.
  assert (Hlk : queues (port h) !! i = Some (d :: rest))
    by (unfold queues; by rewrite list_lookup_fmap, Hp, <- Hl).
  assert (Hqs : queues (h.(port) <| slave_ports := <[i := p <| queue := q' |>]> h.(port).(slave_ports) |>)
                = <[i := if ok then rest else d :: rest]> (queues (port h)))
    by (rewrite queues_insert by done; by rewrite H).
  destruct ok.
  2:{ rewrite (list_insert_id _ _ _ Hlk) in Hqs. constructor; cbn [port accepted delivered dropped];
        unfold queued in *; rewrite ?Hqs; done. }
  constructor; cbn [port accepted delivered dropped]; [| |done].
  - rewrite Hc. unfold queued. rewrite Hqs. cbn [packets].
    pose proof (queued_insert (packets (port h)) 0 i (<[i := rest]> (queues (port h))) rest (d :: rest) d) as P.
    rewrite list_insert_insert_eq, (list_insert_id (queues (port h)) i (d :: rest)) in P by done.
    rewrite P; [|apply list_lookup_insert_eq; by eapply lookup_lt_Some|done]. rewrite Z.add_0_l.
    solve_Permutation.
  - intros j i2 sv2 Hj. destruct (Ha j i2 sv2 Hj) as [Hq ?]. split; [|done]. rewrite Hqs.
    intros Hin. apply Hq. eapply queued_ids_remove; [exact Hlk| |exact Hin]. intros e He. by right.
Qed.

Lemma accounted_step h h' : accounted h -> hstep h h' -> accounted h'.
Proof.
  intros A H. destruct H as [h i id p b s' Hi Hp Hn Hq H r|h id p i sv s' Hp Es Hi H
    |h id i s' H Hs|h i p d rest ok q' Hp Hl H|h s' Hq Hn Hs].
  - assert (Hnid : notes h.(port).(packets) !! id = None) by (by rewrite (notes_lookup _ _ _ Hp)).
    apply (request_effect sys i id p) in H; [|done..]. destruct b.
    + destruct H as [H|H]; [by apply accounted_enter|].
      eapply accounted_answer; [exact H|done..|].
      rewrite (ac_count _ A). unfold r, inside. by rewrite notes_delete, delete_id by done.
    + injection H as H1 H2. destruct A as [Hc Ha Hd].
      constructor; cbn; unfold queued in *; rewrite ?H1, ?H2; done.
  - assert (Hnid : notes h.(port).(packets) !! id = Some (i, sv))
      by (by rewrite (notes_lookup _ _ _ Hp), Es).
    destruct (ac_apart _ A id i sv Hnid) as [Hq Hsv].
    eapply hit_effect in H; [|done|done].
    eapply accounted_answer; [exact H|done|done|done|unfold expects; by intros ->|done|done|].
    rewrite (ac_count _ A), (inside_leave _ id i sv (delete id (packets (port h))))
      by (done || apply notes_delete).
    solve_Permutation.
  - by apply accounted_device.
  - eapply handed_over in H; [|exact Hl]. by eapply accounted_deliver.
  - destruct A as [Hc Ha Hd]. constructor; cbn; [| |done].
    + rewrite Hc. unfold queued, inside. rewrite Hq, Hn.
      by rewrite (queued_ext (packets (port h)) (packets s')).
    + intros j i sv. rewrite Hn, Hq. apply Ha.
Qed.

(** A port on which nothing has happened. *)
Definition unused (s : RP S) : history := mkHistory s [] [] [].

Lemma queued_from_empty m i (l : list M5Port) :
  Forall (fun p => p.(queue).(PacketQueue.transmitList) = []) l ->
  queued_from m i ((fun p => p.(queue).(PacketQueue.transmitList)) <$> l) = [].
Proof. intros H. revert i. induction H as [|p l Hp _ IH]; intros i; [done|]. simpl. by rewrite Hp, IH. Qed.

Lemma accounted_new slaves masters mem seq st ctrls tick :
  accounted (unused (newRubyPort slaves masters mem seq st ctrls tick)).
Proof.
  constructor; [|by intros|done]. cbn. unfold queued, queues. cbn.
  rewrite queued_from_empty; [done|]. by apply Forall_replicate.
Qed.

(** C10: no request that a Ruby port accepts is lost, answered twice, or
    answered at another port than the one it came from or with another sender
    state than the one it came with: at any time the requests accepted are,
    each counted once, those whose response has been handed to the core, those
    whose response is in the queue of their own port (also when the core has
    refused it for now), those still inside the memory system or at a device,
    and those whose packet has been deleted; and deleted are only the packets
    of requests that ask for no response or that a snooper is to answer
    ([memInhibitAsserted], which [recvTimingReq] accepts and deletes).  Every
    request, also one sent again after a retry, is a step of its own. *)
Theorem requests_answered_once slaves masters mem seq st ctrls tick h :
  rtc hstep (unused (newRubyPort slaves masters mem seq st ctrls tick)) h ->
  h.(accepted) ≡ₚ h.(delivered) ++ (fst <$> h.(dropped)) ++ queued h.(port) ++
                  inside h.(port).(packets) /\
  Forall (fun x => needsResponse x.2 = false \/ memInhibitAsserted x.2 = true) h.(dropped).
Proof.
  intros H. enough (A : accounted h).
  { destruct A as [Hc _ Hd]. split; [done|]. eapply Forall_impl; [exact Hd|]. unfold expects.
    intros x Hx. destruct (needsResponse x.2), (memInhibitAsserted x.2); auto. }
  revert h H. apply rtc_ind_r; [apply accounted_new|]. intros h h' _ Hs A. by eapply accounted_step.
Qed.
End runs.
End RubyPortRuns.
