(* ===== verification/RubyPortSequencer.v ===== *)
(** * Ruby ports: functional accesses, and the sequencer behind the port

    Functional reads and writes ([RubyPortFunctional]), and the port on the
    sequencer of this development ([RubyPortSequencer]). *)

From S2P Require Import Prelude.
From S2P Require Import Requests.
From S2P Require Import RubyAddress.
From S2P Require Import Packet.
From S2P Require Import PacketSpec.
From S2P Require Import PacketQueueSpec.
From S2P Require Import RubyStatsSpec.
From S2P Require Import RubyPort.
From S2P Require Import Sequencer.
From S2P Require Import SequencerSpec.
From S2P Require Import SequencerRuns.
From S2P Require Import PacketQueue.
From S2P Require Import AbstractMemory.
From S2P Require Import AbstractMemorySpec.
From S2P Require Import RubyStats.
From S2P Require Import RubyPortRuns.

(** * Functional accesses through a Ruby port

    A functional write that is allowed reaches every copy of the line that may
    be read afterwards, so a functional read of the same bytes returns them.
    The permissions are arbitrary; the copies need not agree before. *)
Module RubyPortFunctional.
Import Requests Packet PacketSpec PacketQueueFunctional RubyPort.

(** ** Bytes of blocks *)
Lemma vget_byte_at b i x : vget b i = Ok x <-> byte_at b i = Some x.
Proof.
  rewrite vget_Ok. unfold byte_at. destruct (Z.leb_spec 0 i); [naive_solver|].
  split; [intros []; lia|done].
Qed.

Lemma store_bytes_ok b start d n :
  0 <= start -> 0 <= n -> start + n <= Z.of_nat (length b) -> n <= Z.of_nat (length d) ->
  exists b', store_bytes b start d n = Ok b' /\ length b' = length b /\
    forall k, 0 <= k -> byte_at b' k =
      if (start <=? k) && (k <? start + n) then byte_at d (k - start) else byte_at b k.
Proof.
  intros Hs Hn Hb Hd. revert Hb Hd. pattern n. apply natlike_ind; [|clear n Hn|done].
  - intros _ _. exists b. split; [done|]. split; [done|]. intros k Hk.
    destruct (Z.leb_spec start k), (Z.ltb_spec k (start + 0)); simpl; (lia || done).
  - intros n Hn IH Hb Hd. destruct IH as (b1 & E1 & L1 & B1); [lia..|].
    unfold store_bytes in *. rewrite <- Z.add_1_r, RubyStatsSpec.upto_snoc, foldl_app, E1 by lia.
    cbn [foldl mbind result_bind].
    destruct (byte_at_inside d n) as [x Hx]; [lia|]. rewrite (proj2 (vget_byte_at d n x) Hx).
    cbn [mbind result_bind]. rewrite vset_in_range by lia. eexists. split; [reflexivity|].
    split; [by rewrite length_insert|]. intros k Hk.
    assert (Hk' : byte_at (<[Z.to_nat (n + start) := x]> b1) k =
                  if k =? n + start then Some x else byte_at b1 k).
    { unfold byte_at. destruct (Z.leb_spec 0 k); [|lia]. destruct (Z.eqb_spec k (n + start)) as [->|N].
      - apply list_lookup_insert_eq. lia.
      - apply list_lookup_insert_ne. lia. }
    rewrite Hk', B1 by done.
    destruct (Z.eqb_spec k (n + start)) as [->|N].
    + destruct (Z.leb_spec start (n + start)), (Z.ltb_spec (n + start) (start + (n + 1))); try lia.
      simpl. rewrite <- Hx. f_equal. lia.
    + destruct (Z.leb_spec start k), (Z.ltb_spec k (start + n)), (Z.ltb_spec k (start + (n + 1)));
        simpl; (lia || done).
Qed.

Lemma block_bytes_ok b start n :
  0 <= start -> 0 <= n -> start + n <= Z.of_nat (length b) ->
  exists l, block_bytes b start n = Ok l /\ Z.of_nat (length l) = n /\
    forall k, 0 <= k < n -> byte_at l k = byte_at b (k + start).
Proof.
  intros Hs Hn Hb. unfold block_bytes, upto.
  assert (G : forall m from, Z.of_nat from + Z.of_nat m + start <= Z.of_nat (length b) ->
    exists l, foldr (fun i acc => x ← vget b (i + start); l ← acc; Ok (x :: l)) (Ok [])
                (Z.of_nat <$> seq from m) = Ok l /\ length l = m /\
      forall k, 0 <= k < Z.of_nat m -> byte_at l k = byte_at b (k + Z.of_nat from + start)).
  { induction m as [|m IH]; intros from Hl; [exists []; split; [done|]; split; [done|]; lia|].
    destruct (IH (Datatypes.S from)) as (l & E & L & B); [lia|].
    destruct (byte_at_inside b (Z.of_nat from + start)) as [x Hx]; [lia|].
    exists (x :: l).
    change (Z.of_nat <$> seq from (Datatypes.S m))
      with (Z.of_nat from :: (Z.of_nat <$> seq (Datatypes.S from) m)).
    cbn [foldr]. rewrite (proj2 (vget_byte_at _ _ _) Hx). cbn [mbind result_bind].
    rewrite E. split; [done|]. split; [cbn [length]; lia|]. intros k Hk.
    destruct (Z.eq_dec k 0) as [->|N]; [by rewrite Z.add_0_l, Hx|].
    transitivity (byte_at l (k - 1)).
    - unfold byte_at. destruct (Z.leb_spec 0 k), (Z.leb_spec 0 (k - 1)); try lia.
      replace (Z.to_nat k) with (Datatypes.S (Z.to_nat (k - 1))) by lia. done.
    - rewrite B by lia. f_equal. lia. }
  destruct (G (Z.to_nat n) 0%nat) as (l & E & L & B); [lia|].
  exists l. split; [exact E|]. split; [lia|]. intros k Hk. rewrite B by lia. f_equal. lia.
Qed.

Lemma byte_at_ext l l' :
  length l = length l' -> (forall k, 0 <= k < Z.of_nat (length l) -> byte_at l k = byte_at l' k) -> l = l'.
Proof.
  intros HL H. apply list_eq. intros i. destruct (decide (i < length l)%nat) as [Hi|Hi].
  - specialize (H (Z.of_nat i) ltac:(lia)). unfold byte_at in H.
    destruct (Z.leb_spec 0 (Z.of_nat i)); [|lia]. by rewrite Nat2Z.id in H.
  - rewrite !lookup_ge_None_2; [done|lia..].
Qed.

(** ** Controllers *)
Lemma countp_pos l f : 0 < countp l f -> exists x, x ∈ l /\ f x = true.
Proof.
  unfold countp. destruct (filter (fun p => f p) l) as [|x k] eqn:E; simpl; [lia|]. intros _.
  exists x. assert (Hx : x ∈ filter (fun p => f p) l) by (rewrite E; left).
  apply list_elem_of_filter in Hx as [Hf Hx]. split; [done|]. by apply Is_true_true.
Qed.

(** A copy of the line that has the bytes [d] from [start] on. *)
Definition has_bytes (line start : Z) (d : list Z) (c : Controller) : Prop :=
  exists b, c.(blocks) !! line = Some b /\ start + Z.of_nat (length d) <= Z.of_nat (length b) /\
    forall k, 0 <= k < Z.of_nat (length d) -> byte_at b (k + start) = byte_at d k.

(** Every copy that a write reaches is a whole block. *)
Definition blocks_whole (line blocksize : Z) (cs : list Controller) : Prop :=
  Forall (fun c => updated (c.(getAccessPermission) line) = true ->
    exists b, c.(blocks) !! line = Some b /\ Z.of_nat (length b) = blocksize) cs.

Lemma write_blocks_ok line blocksize start d cs :
  0 <= start -> start + Z.of_nat (length d) <= blocksize -> blocks_whole line blocksize cs ->
  exists cs', write_blocks line start (Z.of_nat (length d)) (Some d) cs = Ok cs' /\
    permissions line cs' = permissions line cs /\
    Forall (fun c => updated (c.(getAccessPermission) line) = true -> has_bytes line start d c) cs'.
Proof.
  intros Hs Hd. induction 1 as [|c cs Hc _ IH]; [by exists []|].
  destruct IH as (cs' & E & P & F). cbn [write_blocks].
  destruct (updated (getAccessPermission c line)) eqn:U.
  - destruct (Hc eq_refl) as (b & Hb & Lb). rewrite Hb. cbn [deref mbind result_bind].
    destruct (store_bytes_ok b start d (Z.of_nat (length d))) as (b' & -> & L & B); [lia..|].
    cbn [mbind result_bind]. rewrite E. cbn [mbind result_bind]. eexists. split; [reflexivity|].
    split; [unfold permissions in *; simpl; by f_equal|]. constructor; [|done]. intros _.
    exists b'. split; [cbn; apply lookup_insert_eq|]. split; [lia|]. intros k Hk. rewrite B by lia.
    destruct (Z.leb_spec start (k + start)), (Z.ltb_spec (k + start) (start + Z.of_nat (length d)));
      try lia. simpl. f_equal. lia.
  - cbn [mbind result_bind]. rewrite E. cbn [mbind result_bind]. eexists. split; [reflexivity|].
    split; [unfold permissions in *; simpl; by f_equal|]. constructor; [by rewrite U|done].
Qed.

(** The copy that a read takes. *)
Lemma first_block_ok f line start d cs :
  (forall x, f x = true -> updated x = true) ->
  Forall (fun c => updated (c.(getAccessPermission) line) = true -> has_bytes line start d c) cs ->
  (exists x, x ∈ permissions line cs /\ f x = true) ->
  exists b, first_block f line cs = Ok (Some b) /\
    start + Z.of_nat (length d) <= Z.of_nat (length b) /\
    forall k, 0 <= k < Z.of_nat (length d) -> byte_at b (k + start) = byte_at d k.
Proof.
  intros Hf. induction 1 as [|c cs Hc _ IH]; intros (x & Hx & Fx).
  - unfold permissions in Hx. simpl in Hx. by apply elem_of_nil in Hx.
  - cbn [first_block]. destruct (f (getAccessPermission c line)) eqn:E.
    + destruct (Hc (Hf _ E)) as (b & -> & ? & ?). by exists b.
    + apply IH. exists x. split; [|done]. unfold permissions in *. rewrite fmap_cons in Hx.
      apply elem_of_cons in Hx as [->|?]; [congruence|done].
Qed.

Section accesses.
Context (sys : Surroundings).

(** The copies that a read of the line looks for. *)
Definition readable (perms : list AccessPermission) (n : Z) : AccessPermission -> bool :=
  if (countp perms (fun x => perm_is Invalid x || perm_is NotPresent x) =? n - 1) &&
     (countp perms (perm_is Backing_Store) =? 1)
  then perm_is Backing_Store else fun x => perm_is Read_Only x || perm_is Read_Write x.

Lemma readable_updated perms n x : readable perms n x = true -> updated x = true.
Proof. unfold readable, updated. destruct (_ && _), x; vm_compute; done. Qed.

(** Where a write may go, a read finds a copy. *)
Lemma allowed_readable perms n :
  write_allowed perms n = true -> exists x, x ∈ perms /\ readable perms n x = true.
Proof.
  intros H. unfold readable. destruct (_ && _) eqn:E.
  - apply andb_true_iff in E as [_ E%Z.eqb_eq]. apply countp_pos. lia.
  - unfold write_allowed in H. rewrite E, orb_false_r in H.
    apply orb_true_iff in H as [[_ H%Z.ltb_lt]%andb_true_iff|H%Z.eqb_eq].
    + destruct (countp_pos perms (perm_is Read_Only)) as (x & ? & Hx); [done|].
      exists x. split; [done|]. by rewrite Hx.
    + destruct (countp_pos perms (perm_is Read_Write)) as (x & ? & Hx); [lia|].
      exists x. split; [done|]. by rewrite Hx, orb_true_r.
Qed.

Lemma doFunctionalRead_unfold r cs :
  doFunctionalRead sys r cs =
  (a ← getAddr r;
   let line := RubyAddress.makeLineAddress sys.(ruby) a in
   let perms := permissions line cs in
   _ ← check (countp perms (perm_is Read_Write) <=? 1) "num_rw <= 1";
   data0 ← getPtr r true;
   size ← getSize r;
   b ← first_block (readable perms (Z.of_nat (length cs))) line cs;
   match b with
   | None => Ok (false, r)
   | Some block =>
       buf ← deref data0;
       bytes ← block_bytes block (u32 (a - line)) size;
       buf' ← store_bytes buf 0 bytes size;
       Ok (true, r <| data := Some buf' |>)
   end).
Proof.
  unfold doFunctionalRead, readable. cbv zeta. destruct (getAddr r); [|done]. cbn [mbind result_bind].
  by destruct (_ && _).
Qed.

(** C14: what is written functionally through a Ruby port is read back: if the
    permissions of the controllers allow a functional write, it succeeds and
    changes no permission, and a functional read of the same bytes then
    succeeds and returns exactly the bytes written, whichever copy of the
    line it takes. *)
Theorem functional_write_read p buf r rbuf cs :
  let line := RubyAddress.line_address sys.(ruby) p.(addr) in
  let perms := permissions line cs in
  RubyAddress.line_cfg sys.(ruby) -> buffered p buf -> buffered r rbuf ->
  r.(addr) = p.(addr) -> r.(size) = p.(size) ->
  p.(addr) mod sys.(ruby).(block_size_bytes) + p.(size) <= sys.(ruby).(block_size_bytes) ->
  blocks_whole line sys.(ruby).(block_size_bytes) cs ->
  countp perms (perm_is Read_Write) <= 1 -> write_allowed perms (Z.of_nat (length cs)) = true ->
  exists cs', doFunctionalWrite sys p cs = Ok (true, cs') /\ permissions line cs' = perms /\
    doFunctionalRead sys r cs' = Ok (true, r <| data := Some buf |>).
Proof.
  intros line perms Hcfg Bp Br Ea Es Hin Hwhole Hrw Hallowed.
  destruct Bp as [[Va Vs] D O Hl Hs Ha], Br as [[Va' Vs'] D' O' Hl' Hs' Ha'].
  set (bs := sys.(ruby).(block_size_bytes)) in *.
  assert (Hbs : 0 < bs) by (unfold bs; destruct Hcfg as [? ->]; apply Z.pow_pos_nonneg; lia).
  assert (Hu : is_u64 (addr p)) by (unfold is_u64; lia).
  assert (Hline : addr p - line = addr p mod bs).
  { unfold line, RubyAddress.line_address. rewrite (RubyAddress.makeLineAddress_div _ _ Hcfg Hu). fold bs.
    pose proof (Z.div_mod (addr p) bs). lia. }
  assert (Hm : 0 <= addr p mod bs < bs) by (by apply Z.mod_pos_bound).
  assert (Hbits : bs < 2 ^ 32).
  { unfold bs. destruct Hcfg as [? ->]. apply Z.pow_lt_mono_r; lia. }
  assert (Hst : u32 (addr p - line) = addr p - line) by (apply u32_small; unfold is_u32; lia).
  destruct (write_blocks_ok line bs (addr p - line) buf cs) as (cs' & Ew & Ep & Fw); [lia|lia|done|].
  exists cs'. split; [|split; [done|]].
  - unfold doFunctionalWrite. rewrite (getAddr_ok p Va). cbn [mbind result_bind]. fold line. fold perms.
    unfold check. rewrite (proj2 (Z.leb_le _ _) Hrw). cbn [mbind result_bind].
    rewrite (getPtr_ok p buf), (getSize_ok p Vs) by done. cbn [mbind result_bind].
    rewrite Hallowed, Hst, <- Hl, Ew. done.
  - assert (Elen : length cs' = length cs).
    { unfold permissions in Ep. apply (f_equal length) in Ep. by rewrite !length_fmap in Ep. }
    destruct (first_block_ok (readable perms (Z.of_nat (length cs'))) line (addr p - line) buf cs')
      as (b & Eb & Lb & Bb); [apply readable_updated|done| |].
    { rewrite Ep, Elen. by apply allowed_readable. }
    rewrite doFunctionalRead_unfold, (getAddr_ok r Va'). cbn [mbind result_bind]. cbv zeta. rewrite Ea.
    change (RubyAddress.makeLineAddress (ruby sys) (addr p)) with line. rewrite Ep. fold perms.
    unfold check. rewrite (proj2 (Z.leb_le _ _) Hrw). cbn [mbind result_bind].
    rewrite (getPtr_ok r rbuf), (getSize_ok r Vs') by done. cbn [mbind result_bind].
    rewrite Eb. cbn [mbind result_bind deref]. rewrite Hst.
    destruct (block_bytes_ok b (addr p - line) (size r)) as (l & -> & Ll & Bl); [lia..|].
    cbn [mbind result_bind].
    destruct (store_bytes_ok rbuf 0 l (size r)) as (rb & -> & Lr & Brr); [lia..|].
    cbn [mbind result_bind]. assert (rb = buf) as ->; [|done].
    apply byte_at_ext; [lia|]. intros k Hk. rewrite Brr by lia.
    destruct (Z.leb_spec 0 k), (Z.ltb_spec k (0 + size r)); try lia. simpl.
    rewrite Z.sub_0_r, Bl by lia. apply Bb. lia.
Qed.
End accesses.
End RubyPortFunctional.

(** * A Ruby port on the sequencer

    The sequencer of Sequencer.v is what the port expects ([RubySequencer]).
    A request that meets a sequencer which has answered all before it is
    accepted, so a core that sends only then is never refused and never told
    to retry; and the callback of a read or write carries it out on physical
    memory and queues the response for the next cycle, if the packet has room
    for its bytes. *)
Module RubyPortSequencer.
Import Requests Packet PacketSpec PacketQueueFunctional AbstractMemorySpec RubyPort RubyPortRetry.

(** The packet as the sequencer sees it; on X86 the flags of the request tell
    a load that checks for a store. *)
Definition seq_packet (storeCheck : Z -> bool) (id : nat) (p : Packet) : Sequencer.packet :=
  Sequencer.mkPkt (Z.of_nat id) p.(addr) p.(size) (isLLSC p) (isWrite p) (isRead p) (isFlush p)
    (isLocked p.(req)) (isInstFetch p.(req)) (storeCheck p.(req).(req_flags)) p.(data)
    p.(req).(extraData).

Section compose.
Context {C : Type} (cfg : RubyCfg) (clock : Z) (storeCheck : Z -> bool).
Context `{HC : !Sequencer.LineCache C}.

#[export] Instance ruby_sequencer : RubySequencer (Sequencer.Seq C) := {|
  makeRequest id p := Sequencer.makeRequest cfg clock (seq_packet storeCheck id p);
  outstandingCount q := q.(Sequencer.m_outstanding_count);
  isDeadlockEventScheduled q := bool_decide (is_Some q.(Sequencer.deadlockCheckEvent));
  descheduleDeadlockEvent := modify (fun q => q <| Sequencer.deadlockCheckEvent := None |>)
|}.

Context `{HL : !SequencerSpec.LineCacheLaws C (SequencerSpec.is_line_addr cfg)}.
Context (sys : Surroundings).
Implicit Types (s : RP (Sequencer.Seq C)).

(** ** Requests *)

(** A read or write of memory that the port hands to the sequencer. *)
Record ordinary (p : Packet) (ctx : Z) : Prop := {
  or_valid : isSet p.(flags) VALID_ADDR = true /\ isSet p.(flags) VALID_SIZE = true;
  or_active : memInhibitAsserted p = false;
  or_cmd : p.(cmd) = ReadReq \/ p.(cmd) = WriteReq;
  or_data : isInstFetch p.(req) = false;
  or_context : p.(req).(contextId) = Some ctx;
  or_memory : sys.(isPhysMemAddress) p.(addr) = true
}.

(** Nobody waits for the port. *)
Definition undisturbed s : Prop :=
  s.(retryList) = [] /\ s.(waitingOnSequencer) = false /\ s.(drainEvent) = None.

(** The sequencer has no request. *)
Definition idle (q : Sequencer.Seq C) : Prop :=
  SequencerSpec.seq_ok cfg clock q /\ SequencerSpec.timing clock q /\
  q.(Sequencer.m_writeRequestTable) = ∅ /\ q.(Sequencer.m_readRequestTable) = ∅ /\
  0 < q.(Sequencer.m_max_outstanding_requests).

Lemma ordinary_types p ctx id :
  ordinary p ctx -> exists t t', Sequencer.request_types (seq_packet storeCheck id p) = Ok (t, t').
Proof.
  intros [_ _ Hc _ _ _]. unfold Sequencer.request_types, seq_packet.
  cbn [Sequencer.isLLSC Sequencer.isWrite Sequencer.isRead Sequencer.isLockedReq
       Sequencer.isInstFetch Sequencer.storeCheck].
  assert (E : isLLSC p = false /\ (isRead p = true \/ isWrite p = true)).
  { unfold isLLSC, isRead, isWrite. destruct Hc as [-> | ->]; vm_compute; auto. }
  destruct E as [-> E]. destruct (isRead p), (isWrite p), E; try done; repeat case_match; eauto.
Qed.

Lemma idle_accepts q id p ctx :
  idle q -> ordinary p ctx ->
  exists q', makeRequest id p q = Ok (Sequencer.Issued, q') /\
    q'.(Sequencer.m_outstanding_count) = 1.
Proof.
  intros (I & T & Ew & Er & Hmax) Ho. destruct (ordinary_types p ctx id Ho) as (t & t' & Ht).
  pose proof (SequencerSpec.q_count _ _ _ I) as Hcount. rewrite Ew, Er in Hcount.
  rewrite !map_size_empty in Hcount.
  pose proof (SequencerSpec.makeRequest_run cfg clock q _ t t' I T Ht) as R.
  rewrite Hcount in R. destruct (Z.leb_spec (Sequencer.m_max_outstanding_requests q) (Z.of_nat 0 + Z.of_nat 0)); [lia|].
  case_decide as Hout.
  - exfalso. unfold SequencerSpec.outstanding in Hout. rewrite Ew, Er, !lookup_empty in Hout.
    by destruct Hout as [[? [=]]|[? [=]]].
  - eexists. split; [exact R|]. unfold SequencerSpec.issued, SequencerSpec.inserted.
    cbn. rewrite Hcount. by destruct (Sequencer.inserts_as_write t).
Qed.

(** The access does not cross a line. *)
Definition within_line (p : Packet) : Prop :=
  RubyAddress.line_cfg sys.(ruby) /\ is_u64 p.(addr) /\
  p.(addr) mod sys.(ruby).(block_size_bytes) + p.(size) <= sys.(ruby).(block_size_bytes).

(** The statistics: not set up yet, or with one slot per thread. *)
Definition usable (n : Z) (x : RubyStats.Stats) : Prop :=
  x = RubyStatsSpec.fresh_stats n \/ RubyStatsSpec.sized n x.

Lemma on_sequencer_run {A} (m : M (Sequencer.Seq C) A) s a q' :
  m s.(sequencer) = Ok (a, q') -> on_sequencer m s = Ok (a, s <| sequencer := q' |>).
Proof. intros H. unfold on_sequencer. rewrite gets_run, lift_bind_run, H. done. Qed.

Lemma on_stats_run (m : M RubyStats.Stats unit) s x' :
  m s.(stats) = Ok (tt, x') -> on_stats m s = Ok (tt, s <| stats := x' |>).
Proof. intros H. unfold on_stats. rewrite gets_run, lift_bind_run, H. done. Qed.

Lemma thePacket_run {B} id s p (k : Packet -> M (RP (Sequencer.Seq C)) B) :
  s.(packets) !! id = Some p -> (thePacket id ≫= k) s = k p s.
Proof. intros H. unfold thePacket, mbind, M_bind. by rewrite H. Qed.

Lemma submit_accepted i id p ctx n s :
  s.(packets) !! id = Some p -> ordinary p ctx -> within_line p -> idle s.(sequencer) ->
  0 <= ctx < n -> usable n s.(stats) ->
  exists q' x', submit sys i id s = Ok (true, s <| sequencer := q' |> <| stats := x' |>) /\
    makeRequest id p s.(sequencer) = Ok (Sequencer.Issued, q') /\
    q'.(Sequencer.m_outstanding_count) = 1 /\ RubyStatsSpec.sized n x'.
Proof using HL.
  intros Hp Ho (Hcfg & Hu & Hin) Hidle Hctx Hst.
  destruct (idle_accepts s.(sequencer) id p ctx Hidle Ho) as (q' & Hq & Hone).
  destruct (RubyStatsSpec.steady_Ok _ _ _ (RubyStatsSpec.record_issue_steady n
    (s.(curTick) / sys.(m_clock)) ctx s.(stats) Hctx Hst)) as (x' & Hx & Hz).
  exists q', x'. split; [|done]. destruct Ho as [[Va Vs] _ _ _ Hc _].
  unfold submit. rewrite (thePacket_run id s p _ Hp), !lift_bind_run.
  rewrite (getAddr_ok p Va), lift_bind_run, (getSize_ok p Vs), lift_bind_run.
  rewrite (RubyAddress.getOffset_mod _ _ Hcfg Hu), assert_bind_run.
  rewrite (proj2 (Z.leb_le _ _) Hin).
  rewrite (M_bind_run _ _ _ _ _ (on_sequencer_run _ _ _ _ Hq)).
  rewrite bool_decide_eq_true_2 by done. unfold getTime. rewrite gets_run. rewrite Hc.
  erewrite M_bind_run; [|apply on_stats_run; exact Hx]. done.
Qed.

(** ** A core that waits for its responses *)
Section waiting_core.
Context (recvRetry : Z -> M (RP (Sequencer.Seq C)) unit) (n : Z).

(** The sequencer has answered every request it has issued. *)
Definition all_answered s : Prop :=
  SequencerRuns.enqueued s.(sequencer).(Sequencer.actions) ≡ₚ
  SequencerRuns.answered s.(sequencer).(Sequencer.actions).

(** A request as SynchroTrace's cores send it: a read or write of memory
    within a line, by one of the [n] contexts. *)
Definition proper (p : Packet) : Prop :=
  exists ctx, ordinary p ctx /\ 0 <= ctx < n /\ within_line p.

(** The part of the port that a callback leaves alone when nobody waits. *)
Definition core_view s := (s.(retryList), s.(waitingOnSequencer), s.(drainEvent), s.(sequencer), s.(signals)).

(** The core sends only when its requests have been answered; the sequencer
    answers, checks for deadlock and sees time pass; callbacks arrive; the
    rest of the system does what it likes with packets, queues, memory and
    time, but does not drain the port. *)
Inductive wstep : RP (Sequencer.Seq C) -> RP (Sequencer.Seq C) -> Prop :=
| WRequest i id p b s s' :
    all_answered s -> s.(packets) !! id = Some p -> proper p ->
    recvTimingReq sys recvRetry i id s = Ok (b, s') -> wstep s s'
| WSequencer s q' :
    SequencerRuns.seq_step cfg clock s.(sequencer) q' -> wstep s (s <| sequencer := q' |>)
| WCallback id s s' : ruby_hit_callback sys recvRetry id s = Ok (tt, s') -> wstep s s'
| WOther s s' : core_view s' = core_view s -> s'.(stats) = s.(stats) -> wstep s s'.

Record attended s : Prop := {
  wa_sequencer : SequencerRuns.seq_reachable cfg clock s.(sequencer);
  wa_alone : undisturbed s;
  wa_stats : usable n s.(stats);
  wa_signals : forall i, SentRetry i ∉ s.(signals)
}.

Lemma ids_empty (m : gmap Z Sequencer.SequencerRequest) : SequencerRuns.ids m = [] -> m = ∅.
Proof. intros H%fmap_nil_inv. by apply map_to_list_empty_iff. Qed.

Lemma answered_idle s : attended s -> all_answered s -> idle s.(sequencer).
Proof.
  intros [R _ _ _] A. destruct (SequencerRuns.reachable_seq_inv _ _ _ R) as (I & T & _ & Hc).
  unfold SequencerRuns.conserved in Hc. unfold all_answered in A. rewrite A in Hc.
  assert (E : SequencerRuns.waiting s.(sequencer) = []).
  { apply length_zero_iff_nil. apply Permutation_length in Hc. rewrite length_app in Hc. lia. }
  apply app_nil in E as [Ew Er]. split_and!; [done|done|by apply ids_empty..|].
  apply (SequencerSpec.q_room _ _ _ I).
Qed.

(** A request that meets a sequencer which has answered all before it. *)
Lemma request_accepted i id p s :
  sys.(synchrotrace_run) = true -> attended s -> all_answered s ->
  s.(packets) !! id = Some p -> proper p ->
  exists s', recvTimingReq sys recvRetry i id s = Ok (true, s') /\ attended s' /\
    s'.(packets) = <[id := p <| senderState := RubySenderState i p.(senderState) |>]> s.(packets) /\
    s'.(slave_ports) = s.(slave_ports) /\ s'.(signals) = s.(signals) /\
    s'.(sequencer).(Sequencer.m_outstanding_count) = 1.
Proof.
  intros Hrun Ha Hall Hp (ctx & Ho & Hctx & Hw). pose proof (answered_idle s Ha Hall) as Hidle.
  set (p1 := p <| senderState := RubySenderState i p.(senderState) |>).
  set (s1 := s <| packets ::= <[id := p1]> |>). destruct Ha as [Rq Hu Hst Hsig].
  destruct (submit_accepted i id p1 ctx n s1) as (q' & x' & R & Hq & Hone & Hz);
    [apply lookup_insert_eq|by destruct Ho|done..|].
  exists (s1 <| sequencer := q' |> <| stats := x' |>).
  split; [|split; [|done]].
  - destruct Ho as [[Va Vs] Hi _ Hf _ Hm].
    unfold recvTimingReq. rewrite (thePacket_run id s p _ Hp), Hi. unfold setPacket. rewrite modify_run.
    unfold shortcut. rewrite Hf, Hrun. cbn [negb]. rewrite ret_run, lift_bind_run, (getAddr_ok p Va), Hm.
    cbn [negb]. exact R.
  - constructor; [|exact Hu|by right|exact Hsig]. eapply SequencerRuns.r_step; [exact Rq|].
    eapply SequencerRuns.s_request; [|exact Hq]. by destruct Hw as (_ & ? & _).
Qed.

(** *** Callbacks disturb nothing *)
Lemma record_hit_usable t id size rd wr counted x x' :
  usable n x -> RubyStats.record_hit t id size rd wr counted x = Ok (tt, x') -> usable n x'.
Proof.
  intros [->|Hz] H; right.
  - exfalso. unfold RubyStats.record_hit in H. rewrite gets_run, assert_bind_run in H.
    destruct (_ && _); [|done]. rewrite gets_run, lift_bind_run in H. unfold vget in H.
    cbn in H. by destruct (0 <=? id).
  - assert (Hid : 0 <= id < n).
    { unfold RubyStats.record_hit in H. rewrite gets_run, assert_bind_run in H.
      destruct (_ && _) eqn:E; [|done]. apply andb_true_iff in E as [E1%Z.leb_le E2%Z.ltb_lt].
      rewrite (RubyStatsSpec.z_threads _ _ Hz) in E2. lia. }
    destruct (RubyStatsSpec.steady_Ok _ _ _
      (RubyStatsSpec.record_hit_steady n t id size rd wr counted x Hid Hz)) as (x2 & E & Hz').
    rewrite E in H. by injection H as <-.
Qed.

Lemma record_response_core id s s' :
  usable n s.(stats) -> record_response sys id s = Ok (tt, s') ->
  core_view s' = core_view s /\ usable n s'.(stats).
Proof.
  intros Hst H. unfold record_response in H.
  apply M_bind_Ok in H as (p & t & [-> _]%thePacket_Ok & H). rewrite gets_run in H.
  destruct (contextId (req p)) as [ctx|]; [|by injection H as <-].
  destruct (_ && _); [|by injection H as <-]. unfold getTime in H. rewrite !gets_run in H.
  apply M_bind_Ok in H as (sz & t & Hsz & H).
  assert (t = s) as ->.
  { destruct (_ && _); [by apply lift_Ok in Hsz as [_ ->]|by injection Hsz as _ <-]. }
  unfold on_stats in H. rewrite gets_run in H.
  apply M_bind_Ok in H as ([[] x'] & t & [E ->]%lift_Ok & ->%modify_Ok).
  split; [done|]. by eapply record_hit_usable.
Qed.

Lemma keeps_core_hitCallback i id :
  keeps (fun s => (core_view s, s.(stats))) (hitCallback (S := Sequencer.Seq C) sys i id).
Proof.
  unfold hitCallback, sendNextCycle, on_port_queue, setPort, setPacket, deletePacket. keep.
Qed.

(** Nobody waits, so nobody is told to retry. *)
Lemma callback_core id s s' :
  undisturbed s -> usable n s.(stats) -> ruby_hit_callback sys recvRetry id s = Ok (tt, s') ->
  core_view s' = core_view s /\ usable n s'.(stats).
Proof.
  intros (_ & Hw & Hd) Hst H. unfold ruby_hit_callback in H.
  apply M_bind_Ok in H as (p & t & [-> Hp]%thePacket_Ok & H).
  destruct (senderState p); try done.
  apply M_bind_Ok in H as ([] & s1 & [V1 S1]%record_response_core & H); [|done].
  apply M_bind_Ok in H as (? & s2 & ->%modify_Ok & H).
  apply M_bind_Ok in H as (i & s3 & (p3 & sv & _ & _ & ->)%popSenderState_Ok & H).
  apply M_bind_Ok in H as (? & s4 & V4%keeps_core_hitCallback & H).
  injection V4 as R4 W4 D4 Q4 G4 T4. injection V1 as R1 W1 D1 Q1 G1.
  cbn in *. unfold wakeRetryList, testDrainComplete, mbind, M_bind, gets in H.
  rewrite W4, W1, Hw in H. cbn in H. rewrite D4, D1, Hd in H. injection H as <-.
  split; [unfold core_view; congruence|by rewrite T4].
Qed.

Lemma attended_view s s' :
  attended s -> core_view s' = core_view s -> usable n s'.(stats) -> attended s'.
Proof.
  intros [R (U1 & U2 & U3) _ G] [= E1 E2 E3 E4 E5] Hst.
  constructor; [by rewrite E4|split_and!; congruence|done|by rewrite E5].
Qed.

Lemma attended_step s s' :
  sys.(synchrotrace_run) = true -> attended s -> wstep s s' -> attended s'.
Proof.
  intros Hrun Ha H. destruct H as [i id p b s s' Hall Hp Hpr H|s q' H|id s s' H|s s' Hv Hst].
  - destruct (request_accepted i id p s Hrun Ha Hall Hp Hpr) as (s1 & E & Ha1 & _).
    rewrite E in H. by injection H as _ <-.
  - destruct Ha as [R U St G]. constructor; try done. by eapply SequencerRuns.r_step.
  - pose proof (callback_core id s s' (wa_alone _ Ha) (wa_stats _ Ha) H) as [V St].
    by eapply attended_view.
  - eapply attended_view; [exact Ha|done|]. rewrite Hst. apply Ha.
Qed.

(** C11: a core that waits is never refused: take a port whose cores send
    reads and writes within a line of memory, each only when the sequencer has
    answered all requests before it, while the sequencer answers, checks and
    sees time pass, callbacks arrive, and the rest of the system does as it
    likes but does not drain the port.  Then in every state of a run no retry
    has been owed or sent, so [recvRetry], which panics in SynchroTrace's
    cores, has never been called; and the next such request is accepted: the
    packet is inside with its port noted on it, the sequencer has exactly one
    request outstanding, and nothing fails.  ([synchrotrace_run] is set, as in
    trace-driven runs; otherwise the port answers accesses of pthread
    functions itself.) *)
Theorem waiting_core_accepted slaves masters mem seq ctrls tick s :
  sys.(synchrotrace_run) = true -> SequencerRuns.seq_reachable cfg clock seq ->
  rtc wstep (newRubyPort slaves masters mem seq (RubyStatsSpec.fresh_stats n) ctrls tick) s ->
  s.(retryList) = [] /\ (forall i, SentRetry i ∉ s.(signals)) /\
  forall i id p, all_answered s -> s.(packets) !! id = Some p -> proper p ->
    exists s', recvTimingReq sys recvRetry i id s = Ok (true, s') /\
      s'.(packets) = <[id := p <| senderState := RubySenderState i p.(senderState) |>]> s.(packets) /\
      s'.(slave_ports) = s.(slave_ports) /\ s'.(retryList) = [] /\ s'.(signals) = s.(signals) /\
      s'.(sequencer).(Sequencer.m_outstanding_count) = 1.
Proof.
  intros Hrun Hq H. assert (Ha : attended s).
  { revert s H. apply rtc_ind_r; [|intros s s' _ Hs IH; by eapply attended_step].
    constructor; [done|done|by left|by intros i ?%elem_of_nil]. }
  split; [apply Ha|]. split; [apply Ha|]. intros i id p Hall Hp Hpr.
  destruct (request_accepted i id p s Hrun Ha Hall Hp Hpr) as (s' & E & Ha' & ? & ? & ? & ?).
  exists s'. split_and!; try done. apply Ha'.
Qed.
End waiting_core.

(** ** Callbacks *)
Lemma popSenderState_run {B} id s p i sv (k : Z -> M (RP (Sequencer.Seq C)) B) :
  s.(packets) !! id = Some p -> p.(senderState) = RubySenderState i sv ->
  (popSenderState id ≫= k) s = k i (s <| packets ::= <[id := p <| senderState := sv |>]> |>).
Proof.
  intros Hp E. unfold popSenderState. unfold mbind at 1, M_bind at 1.
  rewrite (thePacket_run id s p _ Hp), E. done.
Qed.

(** The response of an ordinary request is added to the queue of its port. *)
Lemma sendNextCycle_run i id s pt :
  0 <= i -> s.(slave_ports) !! Z.to_nat i = Some pt -> 0 < sys.(m_clock) ->
  PacketQueueSpec.event_fits s.(curTick) pt.(queue) ->
  PacketQueueSpec.ordered pt.(queue).(PacketQueue.transmitList) ->
  exists q', sendNextCycle sys i id s =
      Ok (tt, s <| slave_ports := <[Z.to_nat i := pt <| queue := q' |>]> s.(slave_ports) |>) /\
    q'.(PacketQueue.transmitList) = PacketQueue.insert_sorted
      (PacketQueue.mkDeferred (s.(curTick) + sys.(m_clock)) id false) pt.(queue).(PacketQueue.transmitList).
Proof.
  intros Hi Hpt Hk He Ho.
  destruct (PacketQueueSpec.schedSendTiming_ok pt.(queue) s.(curTick) id (s.(curTick) + sys.(m_clock)) false)
    as (q' & R & L & _); [done|done|lia|].
  exists q'. split; [|done]. unfold sendNextCycle. rewrite gets_run.
  unfold on_port_queue.
  assert (Hg : vget s.(slave_ports) i = Ok pt) by (by apply vget_Ok).
  assert (Hs : vset s.(slave_ports) i (pt <| queue := q' |>) =
               Ok (<[Z.to_nat i := pt <| queue := q' |>]> s.(slave_ports))).
  { apply vset_in_range. apply lookup_lt_Some in Hpt. lia. }
  rewrite (M_bind_run _ _ s pt s) by (unfold thePort; rewrite gets_run; unfold lift; by rewrite Hg).
  rewrite lift_bind_run, R. erewrite M_bind_run; [reflexivity|].
  unfold setPort. by rewrite gets_run, lift_bind_run, Hs.
Qed.

(** What physical memory and the packet hold after an ordinary access. *)
Definition carried_out (p : Packet) (buf : list Z) (m : Mem) (p' : Packet) (m' : Mem) : Prop :=
  p'.(cmd) = responseCommand p.(cmd) /\
  (isRead p = true -> exists buf', p'.(data) = Some buf' /\
     forall k, 0 <= k < p.(size) -> byte_at buf' k = mem_byte m (p.(addr) + k)) /\
  forall a, m.(AbstractMemory.range_start) <= a ->
    mem_byte m' a = match (if isWrite p then written p buf a else None) with
                    | Some b => Some b | None => mem_byte m a end.

Lemma access_ordinary p buf m pa ctx :
  ordinary p ctx -> request_for p buf m pa ctx -> stored m ->
  NoDup (contexts m.(AbstractMemory.lockedAddrList)) ->
  exists p' m', AbstractMemory.access p m = Ok (p', m') /\ carried_out p buf m p' m'.
Proof.
  intros Ho Rf St Hn. destruct Ho as [_ _ Hc Hf _ _]. destruct Hc as [Hc|Hc].
  - assert (Hr : isRead p = true /\ isWrite p = false) by (unfold isRead, isWrite; by rewrite Hc).
    destruct Hr as [Hr Hw].
    destruct (access_reads p buf m pa ctx) as (p' & m' & b' & HA & Cm & D & Hb & (E1 & E2 & _) & _);
      [done..|].
    exists p', m'. split; [done|]. split; [done|]. split; [by exists b'|].
    intros a _. rewrite Hw. unfold mem_byte. by rewrite E1, E2.
  - assert (Hr : isRead p = false /\ isWrite p = true /\ isLLSC p = false)
      by (unfold isRead, isWrite, isLLSC; by rewrite Hc).
    destruct Hr as (Hr & Hw & Hl).
    destruct (access_writes p buf m pa ctx) as (p' & m' & HA & Cm & _ & Hb & _); [done..|].
    exists p', m'. split; [done|]. split; [done|]. split; [by rewrite Hr|].
    intros a Ha. rewrite Hb by done. unfold store_succeeds. by rewrite Hl, Hw.
Qed.

(** The packet has a buffer, of at most its own size, and lies in the range
    of the memory. *)
Record carries (p : Packet) (buf : list Z) (m : Mem) (pa : Z) : Prop := {
  ca_data : p.(data) = Some buf;
  ca_owned : isSet p.(flags) (Z.lor STATIC_DATA DYNAMIC_DATA) = true;
  ca_length : Z.of_nat (length buf) <= p.(size);
  ca_size : 0 < p.(size) < 2 ^ 16;
  ca_addr : 0 <= p.(addr) /\ p.(addr) + p.(size) < 2 ^ 64;
  ca_inside : inside p m;
  ca_paddr : p.(req).(paddr) = Some pa
}.

(** The buffer is too short for the access. *)
Definition too_short (p : Packet) (buf : list Z) : bool := Z.of_nat (length buf) <? p.(size).

Lemma ordinary_asks p ctx : ordinary p ctx -> isRequest p = true /\ needsResponse p = true.
Proof. intros [_ _ Hc _ _ _]. unfold isRequest, needsResponse. by destruct Hc as [-> | ->]. Qed.

Lemma carries_full p buf m pa ctx :
  ordinary p ctx -> carries p buf m pa -> too_short p buf = false -> request_for p buf m pa ctx.
Proof.
  intros Ho [D O L S A I Pa] Hl%Z.ltb_ge. pose proof (ordinary_asks p ctx Ho) as Hq.
  destruct Ho as [V Hi _ _ Hc _]. constructor; try done. constructor; (done || lia).
Qed.

(** Copying into or out of a buffer that is too short is undefined. *)
Lemma memcpy_short dst d0 source so n :
  0 < n -> Z.of_nat (length dst) < d0 + n \/ Z.of_nat (length source) < so + n ->
  memcpy dst d0 source so n = Err (UB "memcpy").
Proof.
  intros Hn H. unfold memcpy. destruct (_ && _) eqn:E; [|done].
  apply andb_true_iff in E as [E1%in_buffer_true E2%in_buffer_true]. lia.
Qed.

Lemma access_short p buf m pa ctx :
  ordinary p ctx -> carries p buf m pa -> too_short p buf = true -> stored m ->
  NoDup (contexts m.(AbstractMemory.lockedAddrList)) ->
  AbstractMemory.access p m = Err (UB "memcpy").
Proof.
  intros Ho [D O L S A I Pa] Hl%Z.ltb_lt (S1 & S2 & bytes & E & Lb) Hn.
  destruct Ho as [[Va Vs] Hi Hc Hf Hctx _].
  assert (Hr : AbstractMemory.in_range p m = Ok tt).
  { destruct I as [I1 I2]. unfold AbstractMemory.in_range. rewrite getAddr_ok, getSize_ok by done.
    cbn [mbind result_bind]. rewrite u64_small by (unfold is_u64; lia). unfold check.
    by rewrite (proj2 (Z.leb_le _ _)), (proj2 (Z.leb_le _ _)) by lia. }
  unfold AbstractMemory.access. rewrite Hr, Hi. cbn [mbind result_bind].
  destruct Hc as [Hc|Hc]; rewrite bool_decide_eq_false_2 by (rewrite Hc; done).
  - assert (K : isRead p = true /\ isWrite p = false /\ isLLSC p = false)
      by (unfold isRead, isWrite, isLLSC; by rewrite Hc).
    destruct K as (-> & -> & ->). cbn [mbind result_bind check negb].
    unfold AbstractMemory.read_memory. rewrite E, (getPtr_ok p buf) by done.
    cbn [mbind result_bind deref]. by rewrite memcpy_short by lia.
  - assert (K : isRead p = false /\ isWrite p = true /\ isLLSC p = false)
      by (unfold isRead, isWrite, isLLSC; by rewrite Hc).
    destruct K as (-> & -> & Hll). rewrite (writeOK_spec p m pa ctx) by done.
    unfold store_succeeds. rewrite Hll. cbn [mbind result_bind negb orb].
    unfold AbstractMemory.write_memory. cbn [AbstractMemory.pmemAddr set_field]. cbn. rewrite E.
    rewrite (getPtr_ok p buf) by done.
    cbn [mbind result_bind deref]. by rewrite memcpy_short by lia.
Qed.

(** What the response and memory hold: with [access_phys_mem] the access has
    been carried out, without it the packet is turned around as it is. *)
Definition completed (p : Packet) (buf : list Z) (m : Mem) (p' : Packet) (m' : Mem) : Prop :=
  if sys.(access_phys_mem) then carried_out p buf m p' m'
  else p'.(cmd) = responseCommand p.(cmd) /\ p'.(data) = p.(data) /\ m' = m.

(** The access on physical memory, or its omission. *)
Lemma port_access_run id p buf pa ctx s :
  ordinary p ctx -> carries p buf s.(memory) pa -> stored s.(memory) ->
  NoDup (contexts s.(memory).(AbstractMemory.lockedAddrList)) ->
  let m := (if sys.(access_phys_mem)
            then m ← gets memory;
                 '(p, m) ← lift (AbstractMemory.access p m);
                 _ ← setPacket id p;
                 modify (fun s => s <| memory := m |>)
            else p ← lift (makeResponse p); setPacket id p) : M (RP (Sequencer.Seq C)) unit in
  if sys.(access_phys_mem) && too_short p buf then m s = Err (UB "memcpy")
  else exists p' m', m s = Ok (tt, s <| packets ::= <[id := p']> |> <| memory := m' |>) /\
    completed p buf s.(memory) p' m' /\ p'.(senderState) = p.(senderState).
Proof.
  intros Ho Hca St Hn. unfold completed. destruct (access_phys_mem sys); cbn [andb]; cbv zeta.
  - rewrite gets_run, lift_bind_run. destruct (too_short p buf) eqn:Es.
    + by rewrite (access_short p buf _ pa ctx).
    + destruct (access_ordinary p buf s.(memory) pa ctx) as (p' & m' & HA & Hco);
        [done|by apply carries_full|done|done|].
      rewrite HA. exists p', m'. split; [done|]. split; [done|].
      exact (RubyPortEffects.access_sender _ _ _ _ HA).
  - destruct (ordinary_asks p ctx Ho) as [Hq Hr].
    destruct (makeResponse_ok p Hq Hr) as (p' & E & C1 & D1 & _ & S1).
    rewrite lift_bind_run, E. exists p', s.(memory). by split_and!.
Qed.

(** [M5Port::hitCallback] on an ordinary packet. *)
Lemma port_hitCallback_run i id p buf pa ctx s pt :
  s.(packets) !! id = Some p -> ordinary p ctx ->
  carries p buf s.(memory) pa -> stored s.(memory) ->
  NoDup (contexts s.(memory).(AbstractMemory.lockedAddrList)) ->
  0 <= i -> s.(slave_ports) !! Z.to_nat i = Some pt -> 0 < sys.(m_clock) ->
  PacketQueueSpec.event_fits s.(curTick) pt.(queue) ->
  PacketQueueSpec.ordered pt.(queue).(PacketQueue.transmitList) ->
  if sys.(access_phys_mem) && too_short p buf then hitCallback sys i id s = Err (UB "memcpy")
  else exists p' m' q', hitCallback sys i id s = Ok (tt, s <| packets ::= <[id := p']> |> <| memory := m' |>
      <| slave_ports := <[Z.to_nat i := pt <| queue := q' |>]> s.(slave_ports) |>) /\
    completed p buf s.(memory) p' m' /\ p'.(senderState) = p.(senderState) /\
    q'.(PacketQueue.transmitList) = PacketQueue.insert_sorted
      (PacketQueue.mkDeferred (s.(curTick) + sys.(m_clock)) id false) pt.(queue).(PacketQueue.transmitList).
Proof.
  intros Hp Ho Hca St Hn Hi Hpt Hk He Hor.
  pose proof (port_access_run id p buf pa ctx s Ho Hca St Hn) as HA. cbv zeta in HA.
  assert (Hkind : isLLSC p = false /\ isFlush p = false /\ needsResponse p = true).
  { destruct Ho as [_ _ Hc _ _ _]. unfold isLLSC, isFlush, needsResponse.
    by destruct Hc as [-> | ->]. }
  destruct Hkind as (Hl & Hf & Hneeds).
  assert (E : hitCallback sys i id s = ((if sys.(access_phys_mem)
            then m ← gets memory;
                 '(p, m) ← lift (AbstractMemory.access p m);
                 _ ← setPacket id p;
                 modify (fun s => s <| memory := m |>)
            else p ← lift (makeResponse p); setPacket id p) ≫= fun _ => sendNextCycle sys i id) s).
  { unfold hitCallback. rewrite (thePacket_run id s p _ Hp). cbv zeta. rewrite lift_bind_run.
    unfold prepare. rewrite Hl. cbn [mbind result_bind]. by rewrite Hf, Hneeds. }
  rewrite E. destruct (_ && _); [unfold mbind at 1, M_bind at 1; by rewrite HA|].
  destruct HA as (p' & m' & R1 & Hco & Hs).
  destruct (sendNextCycle_run i id (s <| packets ::= <[id := p']> |> <| memory := m' |>) pt)
    as (q' & R & L); [done..|].
  exists p', m', q'. split; [|done]. by rewrite (M_bind_run _ _ _ _ _ R1).
Qed.

Lemma record_response_run id p ctx n s :
  s.(packets) !! id = Some p -> ordinary p ctx -> s.(short_curr) = false -> 0 <= ctx < n ->
  RubyStatsSpec.sized n s.(stats) ->
  exists x', record_response sys id s = Ok (tt, s <| stats := x' |>).
Proof.
  intros Hp [[Va Vs] _ _ Hf Hc _] Hsh Hctx Hz.
  set (counted := sys.(in_user_mode) s.(curTick) ctx).
  set (sz := if counted && (isRead p || isWrite p) then p.(size) else 0).
  destruct (RubyStatsSpec.steady_Ok _ _ _ (RubyStatsSpec.record_hit_steady n
    (s.(curTick) / sys.(m_clock)) ctx sz (isRead p) (isWrite p) counted s.(stats) Hctx Hz))
    as (x' & Hx & _).
  exists x'. unfold record_response. rewrite (thePacket_run id s p _ Hp), gets_run, Hc, Hf, Hsh. cbn [negb andb].
  unfold getTime. rewrite !gets_run. cbv zeta. fold counted.
  erewrite (M_bind_run _ _ s sz s); [apply on_stats_run; exact Hx|].
  unfold sz. destruct (counted && _); [|done]. unfold lift. by rewrite (getSize_ok p Vs).
Qed.

(** C12: what the callback of an ordinary request does, when the sequencer
    calls back for a read or write that the port has inside, with a buffer of
    at most its size, and nobody waits for the port.  If physical memory is
    accessed ([access_phys_mem]) and the buffer is shorter than the access, as
    that of SynchroTrace's packets of more than one byte is, the copy runs over
    its end: undefined behaviour.  Otherwise the callback completes: with
    [access_phys_mem] the access is carried out on physical memory (a read's
    buffer gets the bytes of memory, a write changes exactly its own bytes),
    without it memory and buffer are left alone; the packet becomes the
    response with the sender state it came with, and the response is in the
    queue of the port it came from, due one cycle later; no retry is sent,
    whatever the core would do in [recvRetry]. *)
Theorem hit_callback_responds recvRetry i id p sv buf pa ctx n s pt :
  undisturbed s -> s.(short_curr) = false ->
  s.(packets) !! id = Some p -> p.(senderState) = RubySenderState i sv ->
  ordinary p ctx -> carries p buf s.(memory) pa -> stored s.(memory) ->
  NoDup (contexts s.(memory).(AbstractMemory.lockedAddrList)) ->
  0 <= ctx < n -> RubyStatsSpec.sized n s.(stats) ->
  0 <= i -> s.(slave_ports) !! Z.to_nat i = Some pt -> 0 < sys.(m_clock) ->
  PacketQueueSpec.event_fits s.(curTick) pt.(queue) ->
  PacketQueueSpec.ordered pt.(queue).(PacketQueue.transmitList) ->
  if sys.(access_phys_mem) && too_short p buf
  then ruby_hit_callback sys recvRetry id s = Err (UB "memcpy")
  else exists s' p' pt', ruby_hit_callback sys recvRetry id s = Ok (tt, s') /\ undisturbed s' /\
    s'.(signals) = s.(signals) /\ s'.(packets) = <[id := p']> s.(packets) /\
    p'.(senderState) = sv /\ completed p buf s.(memory) p' s'.(memory) /\
    s'.(slave_ports) = <[Z.to_nat i := pt']> s.(slave_ports) /\
    pt'.(queue).(PacketQueue.transmitList) = PacketQueue.insert_sorted
      (PacketQueue.mkDeferred (s.(curTick) + sys.(m_clock)) id false) pt.(queue).(PacketQueue.transmitList).
Proof.
  intros Hu Hsh Hp Es Ho Hca St Hn Hctx Hz Hi Hpt Hk He Hor.
  destruct (record_response_run id p ctx n s Hp Ho Hsh Hctx Hz) as (x' & Hx).
  set (p1 := p <| senderState := sv |>).
  set (s1 := s <| stats := x' |> <| short_curr := false |> <| packets ::= <[id := p1]> |>).
  pose proof (port_hitCallback_run i id p1 buf pa ctx s1 pt) as HA.
  change (too_short p1 buf) with (too_short p buf) in HA.
  assert (E : ruby_hit_callback sys recvRetry id s =
    (_ ← hitCallback sys i id; _ ← wakeRetryList recvRetry; testDrainComplete sys) s1).
  { unfold ruby_hit_callback. rewrite (thePacket_run id s p _ Hp), Es, (M_bind_run _ _ _ _ _ Hx), modify_run.
    by rewrite (popSenderState_run id _ p i sv). }
  rewrite E.
  destruct (_ && _).
  { unfold mbind at 1, M_bind at 1. rewrite HA; [done|apply lookup_insert_eq|by destruct Ho|
      by destruct Hca|done..]. }
  destruct HA as (p' & m' & q' & R & Hco & Hsv & L);
    [apply lookup_insert_eq|by destruct Ho|by destruct Hca|done..|].
  exists (s1 <| packets ::= <[id := p']> |> <| memory := m' |>
      <| slave_ports := <[Z.to_nat i := pt <| queue := q' |>]> s1.(slave_ports) |>),
    p', (pt <| queue := q' |>).
  split; [|split; [exact Hu|split; [done|split; [cbn; apply insert_insert_eq|split; [exact Hsv|
    split; [exact Hco|split; [done|exact L]]]]]]].
  rewrite (M_bind_run _ _ _ _ _ R). destruct Hu as (Hu1 & Hu2 & Hu3).
  unfold wakeRetryList, testDrainComplete. unfold mbind, M_bind, gets. cbn. rewrite Hu2, Hu3. done.
Qed.
End compose.
End RubyPortSequencer.
