(* ===== verification/RubyPortExamples.v ===== *)
(** * Packets, memory and Ruby ports at work

    Concrete runs of packets, packet queues, physical memory and the
    statistics ([PacketExamples]) and of a Ruby port ([RubyPortExamples]). *)

From S2P Require Import Prelude.
From S2P Require Import CString.
From S2P Require Import Packet.
From S2P Require Import PacketSpec.
From S2P Require Import PacketQueue.
From S2P Require Import PacketQueueSpec.
From S2P Require Import AbstractMemory.
From S2P Require Import AbstractMemorySpec.
From S2P Require Import RubyStats.
From S2P Require Import RubyStatsSpec.
From S2P Require Import Frame.
From S2P Require Import Requests.
From S2P Require Import RubyAddress.
From S2P Require Import Sequencer.
From S2P Require Import SequencerSpec.
From S2P Require Import SequencerRuns.
From S2P Require Import SequencerCache.
From S2P Require Import CacheExamples.
From S2P Require Import SequencerExamples.
From S2P Require Import RubyPort.
From S2P Require Import RubyPortRuns.
From S2P Require Import RubyPortSequencer.

(** * Packets, packet queues, physical memory and statistics at work

    Concrete runs: the instances of the theorems about packet queues, physical
    memory and the statistics of Ruby, a functional read that two halves
    cannot answer, a swap that leaves a reservation in place, and the packet
    of a core that physical memory overruns. *)
Module PacketExamples.
Import Packet PacketSpec PacketQueueFunctional.

(** ** A packet queue *)
Module queue.
Import PacketQueue PacketQueueSpec.

Definition run {A} (m : M PQ A) (q : PQ) : PQ := match m q with Ok (_, q') => q' | Err _ => q end.

(** Packets 1, 2 and 3 for the times 30, 20 and 20; at 20 the other side takes
    packet 2 and adds packet 4, at 21 it adds packet 5 and refuses packet 3,
    then asks for it. *)
Definition a1 := run (schedSendTiming 10 1 30 false) newPQ.
Definition a2 := run (schedSendTiming 10 2 20 false) a1.
Definition a3 := run (schedSendTiming 10 3 20 false) a2.
Definition fire1 := run (processSendEvent (react 20 true [(4%nat, 25, false)]) 20) (a3 <| sendEvent := None |>).
Definition fire2 := run (processSendEvent (react 21 false [(5%nat, 40, false)]) 21) (fire1 <| sendEvent := None |>).
Definition fire3 := run (retry (react 22 true []) 22) fire2.

Definition d1 := mkDeferred 30 1 false.
Definition d2 := mkDeferred 20 2 false.
Definition d3 := mkDeferred 20 3 false.
Definition d4 := mkDeferred 25 4 false.
Definition d5 := mkDeferred 40 5 false.

Definition at_21 : config := mkConfig fire1 21 [d1; d2; d3; d4] [(20, d2)].
Definition final : config := mkConfig fire3 22 [d1; d2; d3; d4; d5] [(20, d2); (22, d3)].

Ltac next_step c := apply rtc_l with c; [|].

Lemma at_21_reachable : rtc pstep (initial 10) at_21.
Proof.
  next_step (mkConfig a1 10 [d1] []); [by apply (StepAdd (initial 10) 1 30 false)|].
  next_step (mkConfig a2 10 [d1; d2] []); [by apply (StepAdd (mkConfig a1 10 [d1] []) 2 20 false)|].
  next_step (mkConfig a3 10 [d1; d2; d3] []);
    [by apply (StepAdd (mkConfig a2 10 [d1; d2] []) 3 20 false)|].
  next_step (mkConfig a3 20 [d1; d2; d3] []).
  { apply (StepWait (mkConfig a3 10 [d1; d2; d3] []) 20); [cbn; lia|].
    intros w H. vm_compute in H. injection H as <-. done. }
  next_step (mkConfig fire1 20 [d1; d2; d3; d4] [(20, d2)]).
  { apply (StepFire (mkConfig a3 20 [d1; d2; d3] []) true [(4%nat, 25, false)]);
      [done|by repeat constructor|done]. }
  next_step at_21; [|done].
  apply (StepWait (mkConfig fire1 20 [d1; d2; d3; d4] [(20, d2)]) 21); [cbn; lia|].
  intros w H. vm_compute in H. injection H as <-. done.
Qed.

Lemma final_reachable : rtc pstep (initial 10) final.
Proof.
  etransitivity; [exact at_21_reachable|].
  next_step (mkConfig fire2 21 [d1; d2; d3; d4; d5] [(20, d2)]).
  { apply (StepFire at_21 false [(5%nat, 40, false)]); [done|by repeat constructor|done]. }
  next_step (mkConfig fire2 22 [d1; d2; d3; d4; d5] [(20, d2)]).
  { apply (StepWait (mkConfig fire2 21 [d1; d2; d3; d4; d5] [(20, d2)]) 22); [cbn; lia|done]. }
  next_step final; [|done].
  apply (StepRetry (mkConfig fire2 22 [d1; d2; d3; d4; d5] [(20, d2)]) true []);
    [done|by constructor|done].
Qed.

Lemma packets_leave_in_order_witness :
  line final = [d2; d3; d4; d1; d5] /\ ordered (line final) /\
  (forall when, at_time when (line final) = at_time when final.(added)) /\
  Forall (fun x => x.2.(tick) <= x.1 <= final.(clock)) final.(sent).
Proof. split; [done|]. apply (packets_leave_in_order 10 final final_reachable). Defined.

(** After the retry the event is scheduled for packet 4.  At 21 an other side
    that added packet 5 for the time 22, before packet 4, and then refused
    packet 3 would trip the assertion. *)
Lemma packet_queue_progress_witness :
  (final.(queue).(sendEvent) = Some 25 /\ at_rest final.(clock) final.(queue) /\
   exists q', schedSendTiming 22 6 23 false fire3 = Ok (tt, q')) /\
  processSendEvent (react 21 false [(5%nat, 22, false)]) 21 (fire1 <| sendEvent := None |>) =
    Err (AssertFail "!sendEvent.scheduled()").
Proof.
  split; [split; [done|]|].
  - destruct (packet_queue_progress 10 final final_reachable) as (H & Hadd & _).
    split; [exact H|]. apply (Hadd 6%nat 23 false). done.
  - destruct (packet_queue_progress 10 at_21 at_21_reachable) as (_ & _ & Hsend).
    apply (Hsend false [(5%nat, 22, false)]); [by repeat constructor|done].
Defined.

(** *** Functional accesses to queued packets *)
Definition fresh (n : Z) : list Z := replicate (Z.to_nat n) 0.

Definition with_buffer (p : Packet) (b : list Z) : Packet :=
  p <| flags ::= (fun f => set_flags f DYNAMIC_DATA) |> <| data := Some b |>.

Definition request (a n : Z) : Request := mkReq (Some a) (Some n) 0 0 None (Some 0).
Definition packet (c : Command) (a : Z) (b : list Z) : Packet :=
  with_buffer (newPacket (request a (Z.of_nat (length b))) c 0) b.

(** Two responses in the queue, for the bytes 1 to 3 and 3 to 6. *)
Definition older := packet ReadResp 1 [11; 12; 13].
Definition newer := packet ReadResp 3 [23; 24; 25; 26].
Definition wire : PQ := newPQ <| transmitList := [mkDeferred 5 1 false; mkDeferred 6 2 false] |>.
Definition store : gmap nat Packet := <[1%nat := older]> (<[2%nat := newer]> ∅).

Lemma buffered_packet c a b :
  0 <= a -> a + Z.of_nat (length b) < 2 ^ 64 -> 0 < Z.of_nat (length b) < 2 ^ 16 ->
  buffered (packet c a b) b.
Proof.
  intros Ha Hs Hl. constructor; cbn; rewrite ?u32_small by (unfold is_u32; lia); (done || lia).
Qed.

Lemma wellformed_packet c a b :
  0 <= a -> a + Z.of_nat (length b) < 2 ^ 64 -> 0 < Z.of_nat (length b) < 2 ^ 16 ->
  wellformed (packet c a b).
Proof.
  intros Ha Hs Hl. pose proof (buffered_packet c a b Ha Hs Hl) as B. unfold wellformed.
  destruct (hasData _); [by eexists|]. destruct B as [[]]. done.
Qed.

Lemma store_wellformed i :
  i ∈ pkt <$> wire.(transmitList) -> exists other, store !! i = Some other /\ wellformed other.
Proof.
  cbn. intros [->|[->|[]%elem_of_nil]%elem_of_cons]%elem_of_cons;
    (eexists; split; [done|]); apply wellformed_packet; cbn; lia.
Qed.

(** A read of the bytes 1 to 6 takes byte 3 from the first packet. *)
Definition reader := packet ReadReq 1 (replicate 6 0).

Lemma queue_answers_reads_witness :
  (exists p', checkFunctionalQueue fresh wire reader store = Ok (true, p', store) /\
     p'.(data) = Some [11; 12; 13; 24; 25; 26]) /\
  rwp discontiguous (checkFunctionalQueue fresh wire reader store) (fun '(found, p', store') =>
    store' = store /\ exists buf', p'.(data) = Some buf' /\
      (found = true -> forall i, 0 <= i < 6 -> exists b, byte_at buf' i = Some b /\
         exists n other, n ∈ pkt <$> wire.(transmitList) /\ store !! n = Some other /\
           carries other (1 + i) b)).
Proof.
  split; [eexists; split; [vm_compute; reflexivity|done]|].
  apply (queue_answers_reads fresh wire reader (replicate 6 0) store store_wellformed);
    [apply buffered_packet; cbn; lia|apply wellformed_packet; cbn; lia|done..].
Defined.

(** A write of the bytes 2 to 4 reaches both packets. *)
Definition writer := packet WriteReq 2 [52; 53; 54].

Lemma queue_takes_writes_witness :
  exists store', checkFunctionalQueue fresh wire writer store = Ok (false, writer, store') /\
    (data <$> store' !! 1%nat) = Some (Some [11; 52; 53]) /\
    (data <$> store' !! 2%nat) = Some (Some [53; 54; 25; 26]).
Proof.
  destruct (queue_takes_writes fresh wire writer [52; 53; 54] store) as (store' & E & _);
    [by apply (bool_decide_unpack _); vm_compute|apply store_wellformed|
     apply buffered_packet; cbn; lia|apply wellformed_packet; cbn; lia|done..|].
  exists store'. split; [exact E|]. vm_compute in E. injection E as <-. done.
Defined.

(** Two packets that together hold the bytes 2 to 5 cannot answer a read of
    them: of a packet that overlaps the request at one end only, the code takes
    one byte too few, and the second packet then seems not to adjoin. *)
Definition low_half := packet ReadResp 0 [10; 11; 12; 13].
Definition high_half := packet ReadResp 4 [14; 15; 16; 17].
Definition halves : gmap nat Packet := <[1%nat := low_half]> (<[2%nat := high_half]> ∅).

Example two_halves_panic :
  checkFunctionalQueue fresh wire (packet ReadReq 2 [0; 0; 0; 0]) halves
  = Err (Panic "BUG: Discontiguous bytes found for functional copying!").
Proof. by vm_compute. Qed.
End queue.

(** ** Physical memory *)
Module memory.
Import AbstractMemory AbstractMemorySpec queue.

Definition m0 : Mem := mkMem 0 63 (Some (Z.of_nat <$> seq 0 64)) [] ∅ ∅ ∅ ∅ ∅ ∅.

Definition by_core (ctx : Z) (p : Packet) : Packet := p <| req ::= (fun r => r <| contextId := Some ctx |>) |>.
Definition mem_after (r : result (Packet * Mem)) : Mem := match r with Ok (_, m) => m | Err _ => m0 end.

Lemma request_by_core c a b ctx m :
  m.(range_start) = 0 -> m.(range_end) = 63 -> 0 <= a -> a + Z.of_nat (length b) <= 64 ->
  0 < Z.of_nat (length b) -> has c IsRequest = true -> has c NeedsResponse = true ->
  request_for (by_core ctx (packet c a b)) b m a ctx.
Proof.
  intros Rs Re Ha Hb Hl Hr Hn. destruct (buffered_packet c a b) as [V D O L S A]; [lia..|].
  constructor; [by constructor| |done..].
  split; [by rewrite Rs|]. change (size (by_core ctx (packet c a b))) with (size (packet c a b)).
  change (addr (by_core ctx (packet c a b))) with a. rewrite <- L, Re. lia.
Qed.

Lemma m0_stored : stored m0.
Proof. split; [cbn; lia|]. split; [cbn; lia|]. eexists. split; [done|]. done. Qed.

(** Cores 1 and 2 load-lock the granule of 32; core 2 stores there. *)
Definition ll1 := by_core 1 (packet LoadLockedReq 32 (replicate 4 0)).
Definition ll2 := by_core 2 (packet LoadLockedReq 40 (replicate 4 0)).
Definition st2 := by_core 2 (packet WriteReq 36 [1; 2; 3; 4]).
Definition sc1 := by_core 1 (packet StoreCondReq 32 [7; 7; 7; 7]).
Definition sw2 := by_core 2 (packet SwapReq 32 [9; 9; 9; 9]).
Definition m1 := mem_after (access ll1 m0).
Definition m2 := mem_after (access ll2 m1).
Definition m3 := mem_after (access st2 m2).

Definition h2 : list event := [LoadLocked 2 32; LoadLocked 1 32].

Definition the_packet (r : result (Packet * Mem)) : Packet :=
  match r with Ok (p, _) => p | Err _ => ll1 end.

Lemma run_access p m : (exists x, access p m = Ok x) -> access p m = Ok (the_packet (access p m), mem_after (access p m)).
Proof. intros [[p' m'] ->]. done. Qed.

Lemma h2_accesses : accesses m0 m2 h2.
Proof.
  apply (AccRead m0 m1 [LoadLocked 1 32] ll2 (replicate 4 0) 40 2 (the_packet (access ll2 m1)) m2);
    [|apply request_by_core; (done || cbn; lia)|done|done|apply run_access; by eexists; vm_compute].
  apply (AccRead m0 m0 [] ll1 (replicate 4 0) 32 1 (the_packet (access ll1 m0)) m1);
    [constructor|apply request_by_core; (done || cbn; lia)|done|done|
     apply run_access; by eexists; vm_compute].
Qed.

Lemma h3_accesses : accesses m0 m3 (Write 32 :: h2).
Proof.
  apply (AccWrite m0 m2 h2 st2 [1; 2; 3; 4] 36 2 (the_packet (access st2 m2)) m3);
    [exact h2_accesses|apply request_by_core; (done || cbn; lia)|done|done|done|
     apply run_access; by eexists; vm_compute].
Qed.

(** A swap of core 2 writes the granule. *)
Definition m4 := mem_after (access sw2 m2).

Lemma h4_accesses : accesses m0 m4 (Swap 32 :: h2).
Proof.
  apply (AccSwap m0 m2 h2 sw2 [9; 9; 9; 9] 32 2 (the_packet (access sw2 m2)) m4);
    [exact h2_accesses|apply request_by_core; (done || cbn; lia)|done|
     apply run_access; by eexists; vm_compute].
Qed.

(** Core 1's store conditional succeeds before core 2's store, fails after it,
    and succeeds after core 2's swap, which has written the granule. *)
Lemma store_conditional_linked_witness :
  (exists p' m', access sc1 m2 = Ok (p', m') /\ p'.(req).(extraData) = Some 1 /\
     mem_byte m' 33 = Some 7) /\
  (exists p' m', access sc1 m3 = Ok (p', m') /\ p'.(req).(extraData) = Some 0 /\
     mem_byte m' 33 = Some 33) /\
  (mem_byte m2 33 = Some 33 /\ mem_byte m4 33 = Some 9 /\
   exists p' m', access sc1 m4 = Ok (p', m') /\ p'.(req).(extraData) = Some 1 /\
     mem_byte m' 33 = Some 7).
Proof.
  split_and!; [| |done|done|].
  - destruct (store_conditional_linked m0 m2 h2 sc1 [7; 7; 7; 7] 32 1) as (p' & m' & E & _ & X & B);
      [exact m0_stored|done|exact h2_accesses|apply request_by_core; (done || cbn; lia)|done|done|].
    exists p', m'. split; [exact E|]. split; [exact X|]. rewrite B by (vm_compute; done). done.
  - destruct (store_conditional_linked m0 m3 (Write 32 :: h2) sc1 [7; 7; 7; 7] 32 1)
      as (p' & m' & E & _ & X & B);
      [exact m0_stored|done|exact h3_accesses|apply request_by_core; (done || cbn; lia)|done|done|].
    exists p', m'. split; [exact E|]. split; [exact X|]. rewrite B by (vm_compute; done). done.
  - destruct (store_conditional_linked m0 m4 (Swap 32 :: h2) sc1 [7; 7; 7; 7] 32 1)
      as (p' & m' & E & _ & X & B);
      [exact m0_stored|done|exact h4_accesses|apply request_by_core; (done || cbn; lia)|done|done|].
    exists p', m'. split; [exact E|]. split; [exact X|]. rewrite B by (vm_compute; done). done.
Defined.

(** The swap leaves the reservations as they were. *)
Example swap_keeps_lock : m4.(lockedAddrList) = m2.(lockedAddrList) /\ length m2.(lockedAddrList) = 2%nat.
Proof. done. Qed.

(** The packet of a SynchroTrace core for eight bytes has a buffer of one
    byte, which physical memory overruns. *)
Definition core_packet (c : Command) : Packet :=
  match dataDynamic (newPacket (request 8 8) c 0) [0] with Ok p => p | Err _ => ll1 end.

Example core_packet_overrun :
  access (core_packet ReadReq) m0 = Err (UB "memcpy") /\
  access (core_packet WriteReq) m0 = Err (UB "memcpy").
Proof. by vm_compute. Qed.
End memory.

(** ** Statistics *)
Module statistics.
Import RubyStats RubyStatsSpec.

(** Two threads: a read of 8 bytes takes 7 cycles, a write of 4 bytes 20; the
    clock passes 2^31 in between.  The L1 data cache of thread 1 misses once,
    its instruction cache too. *)
Definition l1d : CString.str := CString.lit "system.l1_cntrl1.L1DcacheMemory".
Definition l1i : CString.str := CString.lit "system.l1_cntrl1.L1IcacheMemory".
Definition start : Z := 2 ^ 31 - 10.
Definition history : list event :=
  [Hit (start + 7) 0 8 true false true; Issue (start + 8) (Some 1); Barrier;
   Miss l1d; Miss l1i; Hit (start + 28) 1 4 false true true; Output (start + 30); Barrier].

Lemma statistics_exact_witness :
  exists s, for_each (Issue start (Some 0) :: history) perform (fresh_stats 2) = Ok (tt, s) /\
    s.(maxRTT) = [7; 20] /\ s.(totalReadBytes) = [8; 0] /\ s.(totalWriteBytes) = [0; 4] /\
    take 6 s.(printed) =
      [L1MissesInBarrier 1 1 1; MemoryInBarrier 1 1 0 1 0 4; L1MissesInBarrier 1 0 0;
       MemoryInBarrier 1 0 0 0 0 0; AmTrace 1 0 1 0 4; AmTrace 0 1 0 8 0].
Proof.
  destruct (statistics_exact 2 start (Some 0) history) as (s & E & _); [lia| |].
  { vm_compute. repeat match goal with |- _ /\ _ => split end; try done; try discriminate.
    - intros x [= <-]. exists 1. split; [done|]. split; [discriminate|done]. }
  exists s. split; [exact E|]. vm_compute in E. injection E as <-. done.
Defined.
End statistics.
End PacketExamples.

(** * A Ruby port at work

    Two cores behind one port with the sequencer of SequencerExamples and a
    small physical memory: a request that is accepted and answered, one that
    is refused and sent again when the core is told to retry, one that goes
    to a device, and functional accesses.  The instances of the theorems about
    Ruby ports are these runs. *)
Module RubyPortExamples.
Import Packet PacketSpec PacketQueueFunctional AbstractMemorySpec RubyPort RubyPortRetry
  RubyPortEffects RubyPortRuns RubyPortSequencer RubyPortFunctional.

Abbreviation cfg := Requests.example_cfg.
Abbreviation C := SequencerExamples.C.
Abbreviation clock := SequencerExamples.clock.
Abbreviation packet := PacketExamples.queue.packet.

#[local] Existing Instance SequencerExamples.example_cache.
#[local] Existing Instance SequencerExamples.example_laws.
#[local] Instance example_sequencer : RubySequencer (Sequencer.Seq C) :=
  ruby_sequencer cfg clock (fun _ => false).

Abbreviation Port := (RP (Sequencer.Seq C)).

(** Addresses below 64 are memory, the rest is a device. *)
Definition sys : Surroundings :=
  mkSurroundings cfg clock false true true (fun a => a <? 64) true (fun _ => false)
    (fun _ _ => false) (fun _ _ => true).

Definition fresh_port (st : RubyStats.Stats) : Port :=
  newRubyPort 2 0 PacketExamples.memory.m0 SequencerExamples.q0 st [] 1000.

(** A read by core 0, a write to the same line by core 1, a read of a device,
    and a read that a snooper answers. *)
Definition by_core := PacketExamples.memory.by_core.
Definition read8 : Packet := by_core 0 (packet ReadReq 8 (replicate 8 0)).
Definition write16 : Packet := by_core 1 (packet WriteReq 16 [1; 2; 3; 4]) <| senderState := OtherState 6 |>.
Definition device : Packet := by_core 0 (packet ReadReq 100 [0]).
Definition snooped : Packet := read8 <| flags ::= (fun f => set_flags f MEM_INHIBIT) |>.

Definition with_packets (s : Port) : Port :=
  s <| packets := <[1%nat := read8]> (<[2%nat := write16]> (<[3%nat := device]> (<[4%nat := snooped]> ∅))) |>.

Definition ran {A} (m : M Port A) (s : Port) : Port := match m s with Ok (_, s') => s' | Err _ => s end.

Lemma ran_ok {A} (m : M Port A) a s : fst <$> (match m s with Ok x => Some x | Err _ => None end) = Some a -> m s = Ok (a, ran m s).
Proof. unfold ran. destruct (m s) as [[b s']|]; [|done]. cbn. by intros [= ->]. Qed.

(** ** A core that waits *)

(** A core that panics when it is told to retry, as SynchroTrace's do. *)
Definition panicking_core : Z -> M Port unit := fun _ => fail (Panic "recvRetry").

Definition t0 : Port := fresh_port (RubyStatsSpec.fresh_stats 2).
Definition t1 : Port := with_packets t0.

(** The sequencer completes the read of line 0 and forgets it. *)
Definition answer (s : Port) : Port :=
  s <| sequencer := SequencerExamples.after
         (Sequencer.readCallback cfg clock 0 SequencerExamples.block) s.(sequencer) |>.

(** The read is sent, answered by the sequencer and called back. *)
Definition w2 : Port := ran (recvTimingReq sys panicking_core 0 1) t1.
Definition w3 : Port := answer w2.
Definition w4 : Port := ran (ruby_hit_callback sys panicking_core 1) w3.

Abbreviation waits := (wstep cfg clock (fun _ => false) sys panicking_core 2).

Lemma within_line_packet p :
  is_u64 p.(addr) -> p.(addr) mod cfg.(Requests.block_size_bytes) + p.(size) <= cfg.(Requests.block_size_bytes) ->
  within_line sys p.
Proof. intros Ha Hs. split; [split; [cbn; lia|reflexivity]|done]. Qed.

Lemma read8_proper : proper sys 2 read8.
Proof.
  exists 0. split; [constructor; (done || by left)|]. split; [lia|].
  apply within_line_packet; [unfold is_u64; cbn; lia|by vm_compute].
Qed.

Lemma write16_proper : proper sys 2 write16.
Proof.
  exists 1. split; [constructor; (done || by right)|]. split; [lia|].
  apply within_line_packet; [unfold is_u64; cbn; lia|by vm_compute].
Qed.

Lemma w2_run : recvTimingReq sys panicking_core 0 1 t1 = Ok (true, w2).
Proof. refine (ran_ok (recvTimingReq sys panicking_core 0 1) true t1 _). vm_compute. reflexivity. Qed.
Lemma w4_run : ruby_hit_callback sys panicking_core 1 w3 = Ok (tt, w4).
Proof. refine (ran_ok (ruby_hit_callback sys panicking_core 1) tt w3 _). vm_compute. reflexivity. Qed.

Definition read_data : list Z :=
  match Sequencer.readCallback cfg clock 0 SequencerExamples.block w2.(sequencer) with
  | Ok (d, _) => d | Err _ => [] end.

Lemma w3_run :
  Sequencer.readCallback cfg clock 0 SequencerExamples.block w2.(sequencer) = Ok (read_data, w3.(sequencer)).
Proof.
  unfold w3, answer, read_data, SequencerExamples.after. cbn [sequencer].
  destruct (Sequencer.readCallback _ _ _ _ _) as [[d q]|e] eqn:E; [done|].
  vm_compute in E. discriminate E.
Qed.

Lemma w4_reachable : rtc waits t0 w4.
Proof.
  apply rtc_l with t1; [by apply WOther|].
  apply rtc_l with w2.
  { eapply (WRequest cfg clock (fun _ => false) sys panicking_core 2 0 1 read8 true t1 w2);
      [unfold all_answered; vm_compute; constructor|by vm_compute|exact read8_proper|exact w2_run]. }
  apply rtc_l with w3.
  { apply (WSequencer cfg clock (fun _ => false) sys panicking_core 2 w2 w3.(sequencer)).
    eapply SequencerRuns.s_read, w3_run. }
  apply rtc_once. exact (WCallback cfg clock (fun _ => false) sys panicking_core 2 1 w3 w4 w4_run).
Qed.

(** After the first read has been answered, the write of the other core is
    accepted. *)
Lemma waiting_core_accepted_witness :
  w4.(retryList) = [] /\ (forall i, SentRetry i ∉ w4.(signals)) /\
  exists s', recvTimingReq sys panicking_core 1 2 w4 = Ok (true, s') /\
    (senderState <$> s'.(packets) !! 2%nat) = Some (RubySenderState 1 (OtherState 6)) /\
    s'.(sequencer).(Sequencer.m_outstanding_count) = 1.
Proof.
  destruct (waiting_core_accepted cfg clock (fun _ => false) sys panicking_core 2 2 0
    PacketExamples.memory.m0 SequencerExamples.q0 [] 1000 w4) as (Hr & Hs & Hnext);
    [done|exact SequencerExamples.q0_reach|exact w4_reachable|].
  split; [exact Hr|]. split; [exact Hs|].
  destruct (Hnext 1 2%nat write16) as (s' & E & P & _ & _ & _ & N);
    [unfold all_answered; by vm_compute|by vm_compute|exact write16_proper|].
  exists s'. split; [exact E|]. split; [by rewrite P|exact N].
Defined.

(** ** Its response *)

(** The statistics after [rtt_init]. *)
Definition counting : RubyStats.Stats := RubyStatsSpec.rep 2 (fun _ => RubyStatsSpec.no_view) 0 None [].
Definition s0 : Port := with_packets (fresh_port counting).
Definition inside1 : Packet := read8 <| senderState := RubySenderState 0 NoState |>.
Definition s1 : Port := s0 <| packets ::= <[1%nat := inside1]> |>.

(** The packet of a SynchroTrace core for eight bytes, with a buffer of one. *)
Definition narrow : Packet := inside1 <| data := Some [0] |>.
Definition s2 : Port := s0 <| packets ::= <[1%nat := narrow]> |>.

Lemma inside1_carries b : (0 < length b <= 8)%nat ->
  carries (inside1 <| data := Some b |>) b PacketExamples.memory.m0 8.
Proof.
  intros Hb. constructor; try done; cbn; try lia.
  change (u32 (Z.of_nat 8)) with 8. lia.
Qed.

Lemma hit_callback_responds_witness :
  (exists s' p' pt', ruby_hit_callback sys panicking_core 1 s1 = Ok (tt, s') /\
    s'.(packets) !! 1%nat = Some p' /\ p'.(cmd) = ReadResp /\ p'.(senderState) = NoState /\
    (exists buf, p'.(data) = Some buf /\ byte_at buf 3 = Some 11) /\
    s'.(slave_ports) !! 0%nat = Some pt' /\
    pt'.(queue).(PacketQueue.transmitList) = [PacketQueue.mkDeferred 1010 1 false]) /\
  ruby_hit_callback sys panicking_core 1 s2 = Err (UB "memcpy").
Proof.
  split.
  - destruct (hit_callback_responds cfg clock (fun _ => false) sys panicking_core 0 1 inside1 NoState
      (replicate 8 0) 8 0 2 s1 (mkPort PacketQueue.newPQ false))
      as (s' & p' & pt' & E & _ & _ & P & Sv & (Hc & Hd & _) & Sp & L);
      [by split_and!|done|done|done|constructor; (done || by left)|
       apply (inside1_carries (replicate 8 0)); cbn; lia|exact PacketExamples.memory.m0_stored|
       constructor|lia|apply RubyStatsSpec.rep_sized|lia|done|done|by intros w|constructor|].
    exists s', p', pt'. split; [exact E|]. split; [rewrite P; apply lookup_insert_eq|].
    split; [exact Hc|]. split; [exact Sv|]. split; [|split; [rewrite Sp; done|exact L]].
    destruct (Hd eq_refl) as (buf & Eb & Hb). exists buf. split; [exact Eb|].
    rewrite Hb by (vm_compute; done). done.
  - apply (hit_callback_responds cfg clock (fun _ => false) sys panicking_core 0 1 narrow NoState
      [0] 8 0 2 s2 (mkPort PacketQueue.newPQ false));
      [by split_and!|done|done|done|constructor; (done || by left)|
       apply (inside1_carries [0]); cbn; lia|exact PacketExamples.memory.m0_stored|
       constructor|lia|apply RubyStatsSpec.rep_sized|lia|done|done|by intros w|constructor].
Defined.

(** ** A request that is refused and sent again *)

(** Core 1 sends its packet again when it is told to retry. *)
Definition inbox (s : Port) (i : Z) : list nat := if i =? 1 then [2%nat] else [].
Abbreviation again := (resend sys inbox 1).

Definition t2 : Port := ran (recvTimingReq sys again 0 1) t1.
Definition t3 : Port := ran (recvTimingReq sys again 1 2) t2.

Lemma answer_retry s : retry_view (answer s) = retry_view s.
Proof. reflexivity. Qed.

Definition t4 : Port := answer t3.
Definition t5 : Port := ran (ruby_hit_callback sys again 1) t4.

Lemma t2_run : recvTimingReq sys again 0 1 t1 = Ok (true, t2).
Proof. refine (ran_ok (recvTimingReq sys again 0 1) true t1 _). vm_compute. reflexivity. Qed.
Lemma t3_run : recvTimingReq sys again 1 2 t2 = Ok (false, t3).
Proof. refine (ran_ok (recvTimingReq sys again 1 2) false t2 _). vm_compute. reflexivity. Qed.
Lemma t5_run : ruby_hit_callback sys again 1 t4 = Ok (tt, t5).
Proof. refine (ran_ok (ruby_hit_callback sys again 1) tt t4 _). vm_compute. reflexivity. Qed.

Lemma t3_reachable : rtc (rstep sys inbox 1) t0 t3.
Proof.
  apply rtc_l with t1; [by apply OtherStep|].
  apply rtc_l with t2; [exact (RequestStep sys inbox 1 0 1 true t1 t2 t2_run)|].
  apply rtc_once. exact (RequestStep sys inbox 1 1 2 false t2 t3 t3_run).
Qed.

Lemma t5_reachable : rtc (rstep sys inbox 1) t0 t5.
Proof.
  etrans; [exact t3_reachable|].
  apply rtc_l with t4; [exact (OtherStep sys inbox 1 t3 t4 (answer_retry t3))|].
  apply rtc_once. exact (CallbackStep sys inbox 1 1 t4 t5 t5_run).
Qed.

(** Core 1 waits with its packet as it was; after the callback it has been
    told to retry and its packet is inside. *)
Lemma retry_list_right_witness :
  (t3.(retryList) = [1] /\ t3.(packets) !! 2%nat = Some write16 /\
   NoDup t3.(retryList) /\ (t3.(waitingOnSequencer) = true <-> t3.(retryList) <> [])) /\
  t5.(signals) = [SentRetry 1] /\ t5.(retryList) = [] /\
  (senderState <$> t5.(packets) !! 2%nat) = Some (RubySenderState 1 (OtherState 6)) /\
  (t5.(waitingOnSequencer) = true <-> t5.(retryList) <> []).
Proof.
  destruct (retry_list_right sys inbox 1 2 0 PacketExamples.memory.m0 SequencerExamples.q0
    (RubyStatsSpec.fresh_stats 2) [] 1000 t3 t3_reachable) as (N3 & W3 & _).
  destruct (retry_list_right sys inbox 1 2 0 PacketExamples.memory.m0 SequencerExamples.q0
    (RubyStatsSpec.fresh_stats 2) [] 1000 t5 t5_reachable) as (_ & W5 & _).
  split; [split; [|split; [|split; [exact N3|exact W3]]]; vm_compute; reflexivity|].
  split; [|split; [|split; [|exact W5]]]; vm_compute; reflexivity.
Defined.

(** ** Requests and their responses *)
Abbreviation quiet := quiet_core.

Definition u2 : Port := ran (recvTimingReq sys quiet 0 1) t1.
Definition u3 : Port := ran (recvTimingReq sys quiet 1 3) u2.
Definition u4 : Port := ran (recvTimingReq sys quiet 1 2) u3.
Definition u5 : Port := ran (ruby_hit_callback sys quiet 1) (answer u4).
Definition u6 : Port := ran (recvTimingResp 3) u5.


(** Port 0 offers its response, which core 0 refuses; then core 0 sends the
    read that a snooper answers. *)
Definition later : Port := u6 <| curTick := 1010 |>.
Definition port0 : M5Port := default (mkPort PacketQueue.newPQ false) (later.(slave_ports) !! 0%nat).
Definition refusing : PacketQueue.PQ :=
  PacketExamples.queue.run (PacketQueue.sendDeferredPacket (PacketQueueSpec.react 1010 false []) 1010)
    (port0.(queue) <| PacketQueue.sendEvent := None |>).
Definition u7 : Port :=
  later <| slave_ports := <[0%nat := port0 <| queue := refusing |>]> later.(slave_ports) |>.
Definition u8 : Port := ran (recvTimingReq sys quiet 0 4) u7.

Definition r1 : request := (0, 1%nat, NoState).
Definition r4 : request := (0, 4%nat, NoState).
Definition r3 : request := (1, 3%nat, NoState).

Ltac by_eval := vm_compute; reflexivity.
Ltac not_queued := apply (bool_decide_unpack _); vm_compute; exact I.

Lemma u2_run : recvTimingReq sys quiet 0 1 t1 = Ok (true, u2).
Proof. refine (ran_ok (recvTimingReq sys quiet 0 1) true t1 _). vm_compute. reflexivity. Qed.
Lemma u3_run : recvTimingReq sys quiet 1 3 u2 = Ok (true, u3).
Proof. refine (ran_ok (recvTimingReq sys quiet 1 3) true u2 _). vm_compute. reflexivity. Qed.
Lemma u4_run : recvTimingReq sys quiet 1 2 u3 = Ok (false, u4).
Proof. refine (ran_ok (recvTimingReq sys quiet 1 2) false u3 _). vm_compute. reflexivity. Qed.
Lemma u5_run : ruby_hit_callback sys quiet 1 (answer u4) = Ok (tt, u5).
Proof. refine (ran_ok (ruby_hit_callback sys quiet 1) tt (answer u4) _). vm_compute. reflexivity. Qed.
Lemma u6_run : recvTimingResp 3 u5 = Ok (true, u6).
Proof. refine (ran_ok (recvTimingResp 3) true u5 _). vm_compute. reflexivity. Qed.

(** The steps in which no packet is gone. *)
Lemma accept_step h i id p s' :
  0 <= i -> h.(port).(packets) !! id = Some p -> noted p.(senderState) = None ->
  id ∉ queued_ids (queues h.(port)) ->
  recvTimingReq sys quiet i id h.(port) = Ok (true, s') -> gone (i, id, p.(senderState)) p s' = [] ->
  hstep sys h (mkHistory s' ((i, id, p.(senderState)) :: h.(accepted)) h.(delivered) h.(dropped)).
Proof.
  intros Hi Hp Hn Hq H Hg. pose proof (HRequest sys h i id p true s' Hi Hp Hn Hq H) as Hs.
  cbv zeta iota in Hs. by rewrite Hg in Hs.
Qed.

Lemma callback_step h id p i sv s' :
  h.(port).(packets) !! id = Some p -> p.(senderState) = RubySenderState i sv -> 0 <= i ->
  ruby_hit_callback sys quiet id h.(port) = Ok (tt, s') -> gone (i, id, sv) p s' = [] ->
  hstep sys h (mkHistory s' h.(accepted) h.(delivered) h.(dropped)).
Proof.
  intros Hp Hn Hi H Hg. pose proof (HCallback sys h id p i sv s' Hp Hn Hi H) as Hs. by rewrite Hg in Hs.
Qed.

Lemma answer_step h :
  hstep sys h (mkHistory (answer h.(port)) h.(accepted) h.(delivered) h.(dropped)).
Proof. by apply HOther. Qed.

Lemma u6_reachable :
  rtc (hstep sys) (unused t0) (mkHistory u6 [r3; r1] [r3] []).
Proof.
  apply rtc_l with (mkHistory t1 [] [] []).
  { apply (HOther sys (unused t0) t1); [done|done|]. intros id H. vm_compute in H. by inversion H. }
  apply rtc_l with (mkHistory u2 [r1] [] []).
  { apply (accept_step (mkHistory t1 [] [] []) 0 1 read8 u2);
      [lia|by_eval..|not_queued|exact u2_run|by_eval]. }
  apply rtc_l with (mkHistory u3 [r3; r1] [] []).
  { apply (accept_step (mkHistory u2 [r1] [] []) 1 3 device u3);
      [lia|by_eval..|not_queued|exact u3_run|by_eval]. }
  apply rtc_l with (mkHistory u4 [r3; r1] [] []).
  { apply (HRequest sys (mkHistory u3 [r3; r1] [] []) 1 2 write16 false u4);
      [lia|by_eval..|not_queued|exact u4_run]. }
  apply rtc_l with (mkHistory (answer u4) [r3; r1] [] []);
    [apply (answer_step (mkHistory u4 [r3; r1] [] []))|].
  apply rtc_l with (mkHistory u5 [r3; r1] [] []).
  { apply (callback_step (mkHistory (answer u4) [r3; r1] [] []) 1 inside1 0 NoState u5);
      [by_eval..|lia|exact u5_run|by_eval]. }
  apply rtc_once. pose proof (HDevice sys (mkHistory u5 [r3; r1] [] []) 3 1 u6 u6_run) as Hs.
  assert (sender u6.(packets) 3 = NoState) as E by by_eval. rewrite E in Hs. apply Hs. by_eval.
Qed.

Lemma u8_run : recvTimingReq sys quiet 0 4 u7 = Ok (true, u8).
Proof. refine (ran_ok (recvTimingReq sys quiet 0 4) true u7 _). vm_compute. reflexivity. Qed.

Lemma port0_there : later.(slave_ports) !! 0%nat = Some port0.
Proof. by_eval. Qed.
Lemma port0_first : port0.(queue).(PacketQueue.transmitList) = [PacketQueue.mkDeferred 1010 1 false].
Proof. by_eval. Qed.
Lemma refused_run :
  PacketQueue.sendDeferredPacket (PacketQueueSpec.react 1010 false []) 1010
    (port0.(queue) <| PacketQueue.sendEvent := None |>) = Ok (tt, refusing).
Proof. by_eval. Qed.

Lemma u8_reachable :
  rtc (hstep sys) (unused t0) (mkHistory u8 [r4; r3; r1] [r3] [(r4, snooped)]).
Proof.
  etransitivity; [exact u6_reachable|].
  apply rtc_l with (mkHistory later [r3; r1] [r3] []);
    [apply (HOther sys (mkHistory u6 [r3; r1] [r3] []) later); done|].
  apply rtc_l with (mkHistory u7 [r3; r1] [r3] []);
    [exact (HDeliver sys (mkHistory later [r3; r1] [r3] []) 0 port0
       (PacketQueue.mkDeferred 1010 1 false) [] false refusing port0_there port0_first refused_run)|].
  apply rtc_once.
  pose proof (HRequest sys (mkHistory u7 [r3; r1] [r3] []) 0 4 snooped true u8) as Hs.
  assert (gone (0, 4%nat, snooped.(senderState)) snooped u8 = [(r4, snooped)]) as E by by_eval.
  cbv zeta in Hs. rewrite E in Hs. apply Hs; [lia|by_eval..|not_queued|exact u8_run].
Qed.

(** One response has come back from the device; the other, refused once, is in
    the queue of port 0; the request that a snooper answers is gone; and the
    refused request does not count. *)
Lemma requests_answered_once_witness :
  [r4; r3; r1] ≡ₚ [r3] ++ [r4] ++ queued u8 ++ inside u8.(packets) /\ queued u8 = [r1] /\
  Forall (fun x => needsResponse x.2 = false \/ memInhibitAsserted x.2 = true) [(r4, snooped)].
Proof.
  destruct (requests_answered_once sys 2 0 PacketExamples.memory.m0 SequencerExamples.q0
    (RubyStatsSpec.fresh_stats 2) [] 1000 _ u8_reachable) as [H D].
  split; [exact H|]. split; [vm_compute; reflexivity|exact D].
Defined.

(** ** Functional accesses *)

(** Line 0 is shared by two caches, a third has an old copy and the directory
    has none. *)
Definition holder (perm : AccessPermission) (b : list Z) : Controller :=
  mkController (fun a => if a =? 0 then perm else NotPresent) (<[0 := b]> ∅).
Definition caches : list Controller :=
  [holder Maybe_Stale (replicate 64 3); holder Read_Only (replicate 64 5);
   holder Read_Only (replicate 64 5); holder Invalid []].

Definition fwrite := packet WriteReq 4 [81; 82].
Definition fread := packet ReadReq 4 [0; 0].

Lemma functional_write_read_witness :
  exists cs', doFunctionalWrite sys fwrite caches = Ok (true, cs') /\
    permissions 0 cs' = [Maybe_Stale; Read_Only; Read_Only; Invalid] /\
    doFunctionalRead sys fread cs' = Ok (true, fread <| data := Some [81; 82] |>).
Proof.
  apply (functional_write_read sys fwrite [81; 82] fread [0; 0] caches).
  - split; [cbn; lia|reflexivity].
  - apply PacketExamples.queue.buffered_packet; cbn; lia.
  - apply PacketExamples.queue.buffered_packet; cbn; lia.
  - done.
  - done.
  - by vm_compute.
  - repeat constructor; intros U; (eexists; split; [done|]; done) || (vm_compute in U; done).
  - by vm_compute.
  - by vm_compute.
Defined.
End RubyPortExamples.
